(* ===== verification/_CoqProject ===== *)
-Q . S2P
Prelude.v
GoLib.v
Utf8.v
Base64.v
CircuitBreaker.v
Scram.v
SmtpData.v
SmtpParams.v
SmtpSession.v
SmtpInv.v
SmtpProps.v
GoNet.v
Spf.v
SpfProps.v
Dkim.v
DkimProps.v
Dmarc.v
AuthStages.v
Arc.v
ArcProps.v
Totp.v
Greylist.v
RateLimit.v
RateLimitProps.v
ImapSeq.v
ImapNames.v
SieveParse.v
SieveMatch.v
SieveCompile.v
SieveExec.v
SieveProps.v
Bolt.v
Accounts.v
AccountsProps.v
SieveManager.v
SieveManagerProps.v
ManageSieve.v
ManageSieveProps.v
Routing.v
RoutingProps.v
MailDb.v
MailDbProps.v
MailDbAccess.v
BlobStore.v
Threads.v
ImapStore.v
ImapMatch.v
ImapSearch.v
ImapBodies.v
ImapStoreProps.v
ImapSearchProps.v
ImapFetch.v
ImapConn.v
ImapMailboxes.v
ImapSort.v
ImapForest.v
ImapSortProps.v
ImapMessages.v
ImapSession.v
ImapOwn.v
ImapQuiet.v
ImapSessionProps.v
ImapReadOnly.v
ImapAppendProps.v
ImapExamples.v
Pop3.v
Pop3Props.v
Pop3Store.v
Dsn.v
Queue.v
QueueProps.v
QueueSystem.v
TlsPolicy.v
Outbound.v
Vacation.v
AutoReply.v
AutoReplyProps.v
Delivery.v
DeliveryProps.v
DeliveryExamples.v
