(* ===== verification/Prelude.v ===== *)
(** * uMailServer: a verification library

    uMailServer is a mail server in Go: SMTP for submission and relay, IMAP and
    POP3 for reading, Sieve for filtering, a delivery queue, and the services
    around them (rate limits, lockouts, circuit breakers, an HTTP API, calendars
    and contacts).  This library models the parts that decide what the server
    does with bytes from the network, and proves what makes them correct.

    ** The parts and their files

    Shared:
    - [Prelude] byte strings, results, machine integers, time, step relations,
      the tactics [breflect], [split_if], [handler] and the hint database [umail].
    - [GoLib], [Utf8], [Base64] the functions of the Go library the code calls
      ([strings], [strconv], [unicode/utf8], [encoding/base64]), written out, with
      their lemmas.  What needs Unicode tables, [net/mail], cryptography, [regexp]
      or MIME is a type class ([UnicodeTables], [NetMail], [Crypto], [Regexp],
      [MessageStd]) without laws, but for the lengths of digests in [Crypto].

    internal/smtp, one connection:
    - [SmtpData] how message content is read: [readBoundedLine], [readData],
      the checks shared with BDAT (session.go).
    - [SmtpParams] command lines, paths and ESMTP parameters (session.go,
      [ValidateEmail] of server.go).
    - [Scram] internal/auth/scram.go: keys and messages of SCRAM-SHA-256.
    - [SmtpSession] the session: [Session] and [Server] are the structs, [World]
      all that a command changes (session, lockout tables, unread input, replies,
      delivered messages), one definition per handler (handleMAIL, handleRCPT,
      handleDATA, handleBDAT, handleAUTH with its mechanisms, handleSTARTTLS,
      ...), the message pipeline (pipeline.go), the lockout and recipient tables
      (server.go) and [serveRound], one round of the command loop of
      handleConnection.
    - [SmtpInv] the step relation [smtp_step] (a round of the loop, or the peer
      sending anything) and its invariant; [SmtpProps] the consequences.

    internal/auth, who sent the message:
    - [GoNet] the functions of package net on addresses and ranges.
    - [Spf] spf.go: records, macros, mechanisms, the limits and the cache, over a
      resolver that may answer every question differently ([DNSResolver]);
      [SpfProps] reads the records declaratively.
    - [Dkim] dkim.go: tags, canonical forms, keys, [Sign] and [Verify]; key formats
      and signature schemes are the class [KeyFormats]; [DkimProps] the round trip.
    - [Dmarc] dmarc.go: records, policy discovery, alignment, sampling; the list of
      public suffixes is the class [PublicSuffix].
    - [AuthStages] the three as pipeline stages (smtp/auth_pipeline.go) and their
      verdicts; [Greylist] the greylisting stage (smtp/pipeline.go).
    - [Arc] arc.go: the chain of seals of forwarders, [arc_Validate] and
      [SealWithCV]; [ArcProps] what a valid chain is and that a seal extends it.
    - [Totp] totp.go: one-time passwords, with base32 written out.
    - [TlsPolicy] mtasts.go and dane.go: the policies that demand TLS of a remote
      host, with the cache of policies and the validation of TLSA records.

    internal/ratelimit: [RateLimit] is ratelimit.go, each operation an atomic
    transition of the limiter; [RateLimitProps] states it against counts.

    internal/circuitbreaker: [CircuitBreaker] has the breaker, its manager, and a
    step relation that interleaves the critical sections of concurrent callers.

    internal/imap:
    - [ImapSeq] sequence sets (parser.go) and the session's view of a mailbox
      (seqview.go).
    - [ImapNames] modified UTF-7, names, quoting, flags and literals (utf7.go,
      mailbox_names.go, literals.go, readLine of server.go).
    - [ImapStore] mailstore.go, the store under the commands: [MStore] has the
      database, the bodies, the calls of the quota hook, junk reports, read receipts
      and announcements, one definition per method.  [ImapBodies] interleaves the
      sections of concurrent sessions; [ImapStoreProps] LIST, EXPUNGE, COPY and MOVE.
    - [ImapMatch] which messages match search criteria (mailstore.go,
      search_decode.go); MIME and dates in messages are the class [MimeStd].
      [ImapSearch] the SEARCH command: tokens, parser, evaluation, replies
      (commands.go); [ImapSearchProps] reads it against the grammar of RFC 3501.
    - [ImapFetch] what FETCH renders: body sections, structures, envelopes, items
      (fetch_body.go, commands.go); the MIME header parser is the class [MimeTree].
    - [ImapConn] a connection ([Conn]) and the world it works in ([World]: the store, the
      table of failed logins, what is reported), tagged replies, the greeting, LOGIN,
      AUTHENTICATE, STARTTLS, COMPRESS (server.go, commands.go).  [ImapMailboxes] the
      commands on mailboxes, subscriptions and access rights, [ImapMessages] APPEND,
      EXPUNGE, FETCH, STORE, COPY, MOVE, their UID forms and IDLE, [ImapSort] SORT and
      THREAD (sort.go), [ImapSession] the dispatch and the command loop; [session_step]
      is a round of the loop or other sessions at work.
    - [ImapOwn], [ImapQuiet] what a handler may change; [ImapSessionProps] the session,
      [ImapReadOnly] EXAMINE and STORE, [ImapAppendProps] APPEND, [ImapSortProps] the
      stable sort, [ImapForest] and [ImapSortProps] the threads; [ImapExamples] runs
      a session and applies the theorems to it.

    internal/sieve:
    - [SieveParse] parser.go; [SieveCompile] compile.go; [SieveMatch] the glob
      and numeric matchers; [SieveExec] interpreter.go, match.go and the outcome
      that server_sieve_delivery.go makes of a run; [SieveProps] the properties.
    - [SieveManager] manager.go: the scripts of the users, their quotas and their
      record on disk; [SieveManagerProps] the restart.  [ManageSieve] managesieve.go:
      the protocol server, a session with the octets still to be read;
      [ManageSieveProps] who may change which scripts.

    internal/db: [Accounts] is db.go without the queue: accounts, domains, aliases and
    revoked tokens over [Bolt]; [AccountsProps] the invariant of all operations, the
    last administrator, one-time steps, walks in pages, and a sample domain.

    internal/storage:
    - [Bolt] a bbolt bucket as a finite map whose keys are walked in byte order.
    - [MailDb] database.go, database_acl.go, changes.go and blobrefs.go: keys,
      mailboxes with UIDVALIDITY floors, UIDs and modification sequences, message
      rows, the change journal and the access control rows.  [MailDbProps] has the
      step relation of all mutations and its invariants, [MailDbAccess] the grants
      and the journal against abstract ones.
    - [Threads] the rest of database.go and thread_record.go: conversations,
      subscriptions and listings.
    - [BlobStore] messagestore.go: message bodies with quota and collection.

    internal/pop3: [Pop3] is server.go (states, commands, the lockout table, the
    maildrop locks, the line reader) over a type class [MailStore]; [Pop3Props] its
    properties; [Pop3Store] the instance bbolt_store.go over [MailDb] and
    [BlobStore], and what happens when others work on the mailbox.

    internal/queue: [Dsn] is dsn.go and verp.go; [Queue] manager.go with the queue
    rows of internal/db/db.go; [QueueProps] one delivery; [QueueSystem] workers,
    sweeps and restarts as interleaved steps; [Outbound] the delivery to one host:
    the pool of connections, the circuit breakers, STARTTLS, the TLS policies, the
    DKIM signature and the transaction.

    internal/vacation: [Vacation] is vacation.go, the settings of the users and whom
    they have answered.

    internal/server, where the parts meet:
    - [Routing] server_rcpt_route.go and the parts of server_handlers.go that decide
      who a user is: aliases, subaddresses, senders, logins; [RoutingProps].
    - [AutoReply] server_vacation.go: the replies of scripts and settings, with the
      log that survives a restart; [AutoReplyProps].
    - [Delivery] server_handlers.go and server_sieve_delivery.go: a message with its
      recipients, from the route to mailboxes, queue and failure reports, over
      [Accounts], [SieveManager], [MailDb], [BlobStore] and [Queue]; [DeliveryProps],
      and [DeliveryExamples] with a small server.

    The SMTP session hands a message to the pipeline and then to delivery;
    delivery runs the recipient's Sieve script, whose outcome says where the
    message is stored, or queues it for remote hosts; IMAP and POP3 sessions show
    the store.  The pipeline stages and the delivery handler are parameters of the
    SMTP session, the delivery to a host is one of [Queue]: [AuthStages], [Greylist],
    [Delivery] and [Outbound] are the definitions that stand there.

    ** What is proved

    - Policy: whatever a client sends, a delivered message meets the
      authentication, ownership, relay and recipient rules; a session is
      authenticated only over TLS (or where plain text is configured) and only
      with verified credentials; STARTTLS forgets what came before; the pipeline
      fails closed.  These are invariants of all reachable states.
    - Framing: DATA ends at the first CRLF.CRLF and nowhere else, BDAT consumes
      what it announced, the bounded reader sees whole lines: content is never
      executed as commands.  Where that fails (an IMAP literal after a quote),
      the theorem says so.
    - Senders: an SPF check ends within its limits for any records and gives the
      verdict of their reading; what Sign signs Verify accepts; DMARC rejects exactly
      when the published policy asks for it; a sender that retries passes greylisting;
      an ARC chain that is valid is still valid with the seal this server adds, and the
      cost of validating a chain is bounded.
      The DKIM stage, which hashes the header with the body, is shown not to verify.
    - Storage: no pair of UIDVALIDITY and UID is issued twice, counters cover what
      is stored, users do not reach each other's rows, a client that polls the
      journal misses nothing, bodies stay within the quota and are read back as
      stored, collection removes orphans only.
    - IMAP: whatever sessions do at once, every row has its body and the quota counts
      what is stored; SEARCH finds exactly the messages its keys describe; EXPUNGE and
      its announcements agree; COPY is all or nothing; LIST patterns mean what RFC 3501
      says.  A session is authenticated only with verified credentials and over TLS, and a
      command changes nothing of any other user; EXAMINE changes nothing; STORE changes
      exactly the named flags; a refused APPEND leaves the stream in step; SORT is a stable
      sort by the criteria; THREAD loses no message.  A reply is never threaded by its
      references, ON misses messages with a zone, HEADER can panic, and repeated keys
      pass the cap on the cost of a search.
    - POP3: one session per maildrop, credentials verified, QUIT removes exactly
      what was marked (and does not, as a theorem shows, when another client
      expunges meanwhile).
    - Queue: no entry is delivered twice or held by two workers, every final
      failure is reported once, reports are never reported, outbound messages are
      free of Bcc and bare line ends; finished rows are never removed and fill the queue.
    - Delivery: accepted mail is in a mailbox, in the queue, disposed of as a script
      says, or reported to the sender, and nothing stored before is lost; nobody is
      answered twice within the window, also across restarts; where TLS is demanded
      (by the operator, MTA-STS or DANE) nothing is sent in the clear or to a host
      that is not named; a policy in force is not lost by failing lookups.
    - Users: account keys, aliases and letter case stay consistent, the last
      administrator is kept, a one-time password counts once, nobody sends with the
      address of another user, a ManageSieve session reaches its own scripts only.
    - Refinements: the lockout table, the rate limits, the connection slots, the
      grants of a mailbox, the if/elsif/else chain, and the sequence view are equal
      to abstract ones.
    - Round trips: dot stuffing, modified UTF-7, quoting, SCRAM messages, Sieve
      scripts, bodies, RETR, TLSA records, the restart of the script manager.
    - Equivalences with a reference: the glob matcher, the numeric comparator,
      the binary search over a snapshot.
    - Bounds and termination: table sizes, budgets, nesting, the parser.
    - Sieve: a validated script cannot fail for a reason validation should have
      found, and a message disappears only by an executed discard.

    ** Fuel and bounds

    Loops that are not structural have fuel: the length of the unread input for
    readers and parsers (every round consumes a byte, which is proved where a
    result depends on it: [readData], the Sieve parser, base64, runes), the
    number of keys for eviction, the number of containers for a walk up a thread
    (proved enough), three steps per token for the parser of searches
    (proved enough), the eleven evaluations that ten DNS terms allow in
    [Spf] (proved enough for every zone).  Recursion that the code bounds by a depth
    (Sieve blocks, tests and test lists, MIME parts) recurses on the levels that
    are left, so no fuel is involved.  Integers are unbounded except where the
    code's width matters (persisted counts, sequence numbers, sizes and
    deadlines), where the wrap or the range check is written out.

    ** Steps and interference

    An operation under a lock or in a bbolt transaction is one step.  What runs
    between two such steps is explicit: other callers in [CircuitBreaker], other
    processes between the calls of the store in [Pop3Store] and between the look at an
    account and its lock in [Delivery] (the parameter [others]), other lookups of a
    policy in [TlsPolicy] ([meanwhile]), workers, sweeps, failed writes and restarts
    in [QueueSystem].  The
    steps of [QueueSystem] assume what their constructors say: an entry is not
    swept back while its lease lasts, new ids are fresh, the outcome of a delivery is recorded, and no
    operator retries an entry a worker holds.

    ** What is not modelled

    Network and disk I/O, tracing, metrics and logs; packages that are not in the
    repository (a bbolt bucket is a finite map); the HTTP, JMAP, calendar and
    contact servers; TLS, and DNS beyond its answers.  Of internal/auth LDAP
    and the aggregate reports; of the pipeline spam scores (floating point), block
    lists and virus scans.  Of storage the purge of a user and the query
    snapshots; of POP3 and IMAP the accept loop and the drain; of IMAP the branches for
    other mail stores and functions that no command reaches; of the queue
    disposition notifications and statistics; of db.go contacts, filters and
    migrations; of the server its start and stop, web hooks, push and the search index.
    Texts of replies are kept where the code compares or builds them.  Of session.go the rendering of trace headers is left out; of
    interpreter.go the two kinds of test that no script can produce.

    ** What comes next

    In this order: recurrence rules of the calendar; the JMAP methods over the stores
    that are modelled; the handlers of the HTTP API. *)
From stdpp Require Export base gmap list strings fin_maps sorting.
From Stdlib Require Export ZArith Ascii Lia.
From Stdlib Require String.

(** ** Byte strings

    Go's [string] and [[]byte] are both byte sequences; the library uses the
    list of bytes, so that stdpp's list lemmas apply, and a coercion lets a
    string literal stand for its bytes. *)
Abbreviation gostring := (list ascii).

Coercion String.list_ascii_of_string : string >-> list.

Declare Scope go_scope.
Delimit Scope go_scope with go.
#[global] Open Scope Z_scope.
#[global] Open Scope stdpp_scope.
#[global] Open Scope list_scope.

Notation "a =c? b" := (Ascii.eqb a b%char) (at level 70, no associativity) : go_scope.
Notation "a =s? b" := (bool_decide ((a : gostring) = (b : gostring)))
  (at level 70, no associativity) : go_scope.
#[global] Open Scope go_scope.

#[global] Arguments Ascii.eqb : simpl never.
#[global] Set Warnings "-clear-no-such-hyp".

(** ** Results of fallible code

    A Go function returning [(A, error)] becomes a [result]: the error value
    is a type of the component, never a text that the code does not compare. *)
Inductive result (E A : Type) : Type :=
  | Ok (a : A)
  | Err (e : E).
Arguments Ok {E A} a.
Arguments Err {E A} e.

Definition rbind {E A B} (m : result E A) (k : A -> result E B) : result E B :=
  match m with Ok a => k a | Err e => Err e end.

Notation "'let*' x := m 'in' k" := (rbind m (fun x => k))
  (at level 10, x pattern, m at level 100, k at level 200) : go_scope.

Definition is_ok {E A} (m : result E A) : bool :=
  match m with Ok _ => true | Err _ => false end.

(** ** Machine integers and time

    [int], [int64] and [time.Duration] are 64 bit; a [time.Time] is its number
    of nanoseconds since the Unix epoch, and the zero [time.Time] is the first
    of January of year 1. *)
Definition max_int64 : Z := 2 ^ 63 - 1.
Definition min_int64 : Z := - 2 ^ 63.
Definition max_uint64 : Z := 2 ^ 64 - 1.
Definition max_uint32 : Z := 2 ^ 32 - 1.
Definition wrap_u64 (z : Z) : Z := z mod 2 ^ 64.

Definition wrap_i64 (z : Z) : Z := (z + 2 ^ 63) mod 2 ^ 64 - 2 ^ 63.

Definition second : Z := 1000000000.
Definition minute : Z := 60 * second.
Definition hour : Z := 60 * minute.

Definition zero_time : Z := - 62135596800 * second.

(** [Time.Sub] saturates at the ends of the [Duration] range. *)
Definition time_sub (t u : Z) : Z :=
  Z.max min_int64 (Z.min max_int64 (t - u)).

(** [Duration.Seconds] converted to [int]: the float is truncated towards 0. *)
Definition dur_secs (d : Z) : Z := Z.quot d second.

Lemma time_sub_small t u : min_int64 <= t - u <= max_int64 -> time_sub t u = t - u.
Proof. unfold time_sub. lia. Qed.

Lemma time_sub_gt t u d :
  d < max_int64 -> min_int64 <= d -> (d <? time_sub t u) = (d <? t - u).
Proof.
  intros H1 H2. unfold time_sub.
  destruct (Z.ltb_spec d (t - u)); [apply Z.ltb_lt | apply Z.ltb_ge]; lia.
Qed.

(** ** Finite sequences of transitions of a step relation. *)
Section Star.
Context {A : Type} (R : A -> A -> Prop).

Inductive star : A -> A -> Prop :=
  | star_refl a : star a a
  | star_snoc a b c : star a b -> R b c -> star a c.

Lemma star_one a b : R a b -> star a b.
Proof. eauto using star. Qed.

Lemma star_trans a b c : star a b -> star b c -> star a c.
Proof. intros Hab Hbc. induction Hbc; eauto using star. Qed.

(** Rule induction for invariants: what holds initially and is preserved by
    every step holds in every reachable state. *)
Lemma star_invariant (I : A -> Prop) a b :
  I a -> (forall x y, I x -> R x y -> I y) -> star a b -> I b.
Proof. intros Ha Hstep H. induction H; eauto. Qed.
End Star.

(** ** Tactics *)

(** Split the conditional or match that blocks the goal or a hypothesis, with
    boolean tests turned into propositions. *)
Ltac breflect :=
  repeat match goal with
  | H : (_ && _)%bool = true |- _ => apply andb_true_iff in H; destruct H
  | H : (_ || _)%bool = false |- _ => apply orb_false_iff in H; destruct H
  | H : (_ || _)%bool = true |- _ => apply orb_true_iff in H
  | H : (_ && _)%bool = false |- _ => apply andb_false_iff in H
  | H : negb _ = true |- _ => apply negb_true_iff in H
  | H : negb _ = false |- _ => apply negb_false_iff in H
  | H : bool_decide _ = true |- _ => apply bool_decide_eq_true in H
  | H : bool_decide _ = false |- _ => apply bool_decide_eq_false in H
  | H : Ascii.eqb _ _ = true |- _ => apply Ascii.eqb_eq in H
  | H : Ascii.eqb _ _ = false |- _ => apply Ascii.eqb_neq in H
  | H : (_ <? _)%Z = true |- _ => apply Z.ltb_lt in H
  | H : (_ <? _)%Z = false |- _ => apply Z.ltb_ge in H
  | H : (_ <=? _)%Z = true |- _ => apply Z.leb_le in H
  | H : (_ <=? _)%Z = false |- _ => apply Z.leb_gt in H
  | H : (_ =? _)%Z = true |- _ => apply Z.eqb_eq in H
  | H : (_ =? _)%Z = false |- _ => apply Z.eqb_neq in H
  | H : (_ <? _)%nat = true |- _ => apply Nat.ltb_lt in H
  | H : (_ <? _)%nat = false |- _ => apply Nat.ltb_ge in H
  | H : (_ <=? _)%nat = true |- _ => apply Nat.leb_le in H
  | H : (_ <=? _)%nat = false |- _ => apply Nat.leb_gt in H
  | H : (_ =? _)%nat = true |- _ => apply Nat.eqb_eq in H
  | H : (_ =? _)%nat = false |- _ => apply Nat.eqb_neq in H
  end.

Ltac split_if :=
  match goal with
  | |- context [if ?b then _ else _] =>
      lazymatch type of b with
      | bool => let E := fresh "E" in destruct b eqn:E
      | _ => let E := fresh "E" in destruct b as [E | E]
      end
  | H : context [if ?b then _ else _] |- _ =>
      lazymatch type of b with
      | bool => let E := fresh "E" in destruct b eqn:E
      | _ => let E := fresh "E" in destruct b as [E | E]
      end
  end.

(** The case analysis of a straight-line handler: split every conditional,
    reflect the tests and close the arithmetic. *)
Ltac handler := repeat (split_if; simplify_eq/=); breflect.

Create HintDb umail.

(** ** Lists *)
Section ListLemmas.
Context {A : Type}.
Implicit Types l : list A.

Lemma existsb_true_iff (f : A -> bool) l :
  existsb f l = true <-> exists x, x ∈ l /\ f x = true.
Proof.
  rewrite existsb_exists. by setoid_rewrite list_elem_of_In.
Qed.

Lemma forallb_true_iff (f : A -> bool) l :
  forallb f l = true <-> forall x, x ∈ l -> f x = true.
Proof. rewrite forallb_forall. by setoid_rewrite list_elem_of_In. Qed.

Lemma take_app_exact l k n : n = length l -> take n (l ++ k) = l.
Proof. intros ->. by apply take_app_length. Qed.

Lemma drop_app_exact l k n : n = length l -> drop n (l ++ k) = k.
Proof. intros ->. by apply drop_app_length. Qed.
End ListLemmas.
