(* ===== verification/GoLib.v ===== *)
(** * The Go standard library the modelled code uses

    The functions of [strings], [bytes], [strconv] and [unicode/utf8] that the
    modelled files call, on byte strings.  They are the language's library, not
    code of the repository.

    Case mapping of a string that has a byte >= 0x80 needs the Unicode case
    tables: they are the fields of the class [UnicodeTables] (Go takes the same
    two paths: an ASCII string never reaches the tables). *)
From S2P Require Import Prelude.

(** ** Bytes *)
Definition bz (c : ascii) : Z := Z.of_N (N_of_ascii c).
Definition byte_of (z : Z) : ascii := ascii_of_N (Z.to_N z).

Lemma bz_range c : 0 <= bz c < 256.
Proof.
  unfold bz. pose proof (N_ascii_bounded c). lia.
Qed.

Lemma byte_of_bz c : byte_of (bz c) = c.
Proof. unfold byte_of, bz. rewrite N2Z.id. apply ascii_N_embedding. Qed.

Lemma bz_byte_of z : 0 <= z < 256 -> bz (byte_of z) = z.
Proof.
  intros H. unfold bz, byte_of. rewrite N_ascii_embedding by lia. lia.
Qed.

Lemma bz_inj c d : bz c = bz d -> c = d.
Proof. intros H. by rewrite <-(byte_of_bz c), H, byte_of_bz. Qed.

Definition is_ascii (c : ascii) : bool := bz c <? 128.
Definition isASCII (s : gostring) : bool := forallb is_ascii s.

Definition ascii_lower (c : ascii) : ascii :=
  if (65 <=? bz c) && (bz c <=? 90) then byte_of (bz c + 32) else c.
Definition ascii_upper (c : ascii) : ascii :=
  if (97 <=? bz c) && (bz c <=? 122) then byte_of (bz c - 32) else c.

Definition in_range (lo hi : Z) (c : ascii) : bool := (lo <=? bz c) && (bz c <=? hi).
Definition is_digit (c : ascii) : bool := in_range 48 57 c.

(** ** unicode/utf8 *)
Definition rune_error : Z := 65533.  (* U+FFFD *)

Definition cont (c : ascii) : bool := in_range 128 191 c.
Definition low6 (c : ascii) : Z := Z.land (bz c) 63.

(** [DecodeRuneInString]: the rune and its width; an invalid or short sequence
    is [(RuneError, 1)], the empty string [(RuneError, 0)]. *)
Definition decode_rune (s : gostring) : Z * nat :=
  match s with
  | [] => (rune_error, 0%nat)
  | c0 :: t =>
      let b0 := bz c0 in
      if b0 <? 128 then (b0, 1%nat)
      else if (194 <=? b0) && (b0 <=? 223) then
        match t with
        | c1 :: _ => if cont c1 then (Z.lor (Z.shiftl (Z.land b0 31) 6) (low6 c1), 2%nat)
                     else (rune_error, 1%nat)
        | _ => (rune_error, 1%nat)
        end
      else if (224 <=? b0) && (b0 <=? 239) then
        match t with
        | c1 :: c2 :: _ =>
            let lo := if b0 =? 224 then 160 else 128 in
            let hi := if b0 =? 237 then 159 else 191 in
            if in_range lo hi c1 && cont c2
            then (Z.lor (Z.shiftl (Z.land b0 15) 12) (Z.lor (Z.shiftl (low6 c1) 6) (low6 c2)), 3%nat)
            else (rune_error, 1%nat)
        | _ => (rune_error, 1%nat)
        end
      else if (240 <=? b0) && (b0 <=? 244) then
        match t with
        | c1 :: c2 :: c3 :: _ =>
            let lo := if b0 =? 240 then 144 else 128 in
            let hi := if b0 =? 244 then 143 else 191 in
            if in_range lo hi c1 && cont c2 && cont c3
            then (Z.lor (Z.shiftl (Z.land b0 7) 18)
                   (Z.lor (Z.shiftl (low6 c1) 12) (Z.lor (Z.shiftl (low6 c2) 6) (low6 c3))), 4%nat)
            else (rune_error, 1%nat)
        | _ => (rune_error, 1%nat)
        end
      else (rune_error, 1%nat)
  end.

Definition rune_size (s : gostring) : nat := snd (decode_rune s).

(** [for _, r := range s]: the runes of [s]; every invalid byte is one
    [RuneError].  The fuel is the length of the string, one rune per byte at
    most. *)
Fixpoint runes_go (fuel : nat) (s : gostring) : list Z :=
  match fuel, s with
  | S n, _ :: _ => let '(r, w) := decode_rune s in r :: runes_go n (drop w s)
  | _, _ => []
  end.
Definition runes (s : gostring) : list Z := runes_go (length s) s.

(** [ValidString]. *)
Fixpoint valid_go (fuel : nat) (s : gostring) : bool :=
  match fuel, s with
  | S n, _ :: _ =>
      let '(r, w) := decode_rune s in
      if (r =? rune_error) && (w =? 1)%nat then false else valid_go n (drop w s)
  | _, _ => true
  end.
Definition valid_utf8 (s : gostring) : bool := valid_go (length s) s.

(** [RuneStart]: the byte is not a continuation byte. *)
Definition rune_start (c : ascii) : bool := negb (cont c).

(** [DecodeLastRuneInString], with the string given reversed: look back at most
    three more bytes for a start byte, decode there, and insist that the rune
    ends where the string ends. *)
Definition decode_last_rev (r : gostring) : Z * nat :=
  match r with
  | [] => (rune_error, 0%nat)
  | c :: t =>
      if bz c <? 128 then (bz c, 1%nat)
      else
        let back :=
          match t with
          | [] => 1%nat
          | c1 :: t1 =>
              if rune_start c1 then 2%nat else
              match t1 with
              | [] => 2%nat
              | c2 :: t2 =>
                  if rune_start c2 then 3%nat else
                  match t2 with
                  | [] => 3%nat
                  | c3 :: t3 =>
                      if rune_start c3 then 4%nat else
                      match t3 with [] => 4%nat | _ :: _ => 5%nat end
                  end
              end
          end in
        let '(ru, w) := decode_rune (rev (take back r)) in
        if (w =? back)%nat then (ru, w) else (rune_error, 1%nat)
  end.
Definition decode_last_rune (s : gostring) : Z * nat := decode_last_rev (rev s).

(** [utf8.AppendRune] / [Builder.WriteRune]. *)
Definition encode_rune (r : Z) : gostring :=
  let r := if (r <? 0) || (1114111 <? r) || ((55296 <=? r) && (r <=? 57343))
           then rune_error else r in
  if r <? 128 then [byte_of r]
  else if r <? 2048 then
    [byte_of (Z.lor 192 (Z.shiftr r 6)); byte_of (Z.lor 128 (Z.land r 63))]
  else if r <? 65536 then
    [byte_of (Z.lor 224 (Z.shiftr r 12));
     byte_of (Z.lor 128 (Z.land (Z.shiftr r 6) 63)); byte_of (Z.lor 128 (Z.land r 63))]
  else
    [byte_of (Z.lor 240 (Z.shiftr r 18)); byte_of (Z.lor 128 (Z.land (Z.shiftr r 12) 63));
     byte_of (Z.lor 128 (Z.land (Z.shiftr r 6) 63)); byte_of (Z.lor 128 (Z.land r 63))].

(** [unicode.IsSpace]: the White_Space property. *)
Definition is_space_rune (r : Z) : bool :=
  ((9 <=? r) && (r <=? 13)) || (r =? 32) || (r =? 133) || (r =? 160) || (r =? 5760)
  || ((8192 <=? r) && (r <=? 8202)) || (r =? 8232) || (r =? 8233) || (r =? 8239)
  || (r =? 8287) || (r =? 12288).

(** ** strings *)
Fixpoint HasPrefix (s p : gostring) {struct p} : bool :=
  match p, s with
  | [], _ => true
  | c :: p', d :: s' => (c =c? d) && HasPrefix s' p'
  | _ :: _, [] => false
  end.
Definition HasSuffix (s p : gostring) : bool := HasPrefix (rev s) (rev p).

Definition TrimPrefix (s p : gostring) : gostring :=
  if HasPrefix s p then drop (length p) s else s.
Definition TrimSuffix (s p : gostring) : gostring :=
  if HasSuffix s p then take (length s - length p) s else s.

(** [strings.IndexByte]: [None] is -1. *)
Fixpoint IndexByte (s : gostring) (c : ascii) : option nat :=
  match s with
  | [] => None
  | d :: s' => if d =c? c then Some 0%nat else S <$> IndexByte s' c
  end.

Fixpoint LastIndexByte (s : gostring) (c : ascii) : option nat :=
  match s with
  | [] => None
  | d :: s' =>
      match LastIndexByte s' c with
      | Some i => Some (S i)
      | None => if d =c? c then Some 0%nat else None
      end
  end.

(** [strings.Index]. *)
Fixpoint Index (s sub : gostring) : option nat :=
  if HasPrefix s sub then Some 0%nat
  else match s with [] => None | _ :: s' => S <$> Index s' sub end.

(** [strings.LastIndex]. *)
Fixpoint LastIndex (s sub : gostring) : option nat :=
  match s with
  | [] => if HasPrefix s sub then Some 0%nat else None
  | _ :: s' =>
      match LastIndex s' sub with
      | Some i => Some (S i)
      | None => if HasPrefix s sub then Some 0%nat else None
      end
  end.

Definition Contains (s sub : gostring) : bool :=
  match Index s sub with Some _ => true | None => false end.

Definition in_set (set : gostring) (c : ascii) : bool := existsb (fun d => d =c? c) set.
Definition ContainsByte (s : gostring) (c : ascii) : bool := in_set s c.
(** [strings.ContainsAny] with an ASCII character set. *)
Definition ContainsAny (s set : gostring) : bool := existsb (in_set set) s.

(** [strings.Split] at a one byte separator: always at least one field. *)
Fixpoint Split (s : gostring) (c : ascii) : list gostring :=
  match s with
  | [] => [[]]
  | d :: s' =>
      if d =c? c then [] :: Split s' c
      else match Split s' c with
           | f :: fs => (d :: f) :: fs
           | [] => [[d]]
           end
  end.

(** [strings.Cut] at a one byte separator. *)
Fixpoint Cut (s : gostring) (c : ascii) : gostring * gostring * bool :=
  match s with
  | [] => ([], [], false)
  | d :: s' =>
      if d =c? c then ([], s', true)
      else let '(a, b, ok) := Cut s' c in (d :: a, b, ok)
  end.

Fixpoint Join (l : list gostring) (sep : gostring) : gostring :=
  match l with
  | [] => []
  | [x] => x
  | x :: r => x ++ sep ++ Join r sep
  end.

(** [strings.TrimRight] / [TrimLeft] with an ASCII cutset. *)
Fixpoint TrimLeft (s set : gostring) : gostring :=
  match s with
  | c :: s' => if in_set set c then TrimLeft s' set else s
  | [] => []
  end.
Definition TrimRight (s set : gostring) : gostring := rev (TrimLeft (rev s) set).

Fixpoint trim_left_space (fuel : nat) (s : gostring) : gostring :=
  match fuel, s with
  | S n, _ :: _ =>
      let '(r, w) := decode_rune s in
      if is_space_rune r then trim_left_space n (drop w s) else s
  | _, _ => s
  end.
Fixpoint trim_right_space (fuel : nat) (rv : gostring) : gostring :=
  match fuel, rv with
  | S n, _ :: _ =>
      let '(r, w) := decode_last_rev rv in
      if is_space_rune r then trim_right_space n (drop w rv) else rv
  | _, _ => rv
  end.
(** [strings.TrimSpace]. *)
Definition TrimSpace (s : gostring) : gostring :=
  let l := trim_left_space (length s) s in
  rev (trim_right_space (length l) (rev l)).

(** [strings.Fields] ([cur] is the field being read, reversed, if any). *)
Fixpoint fields_go (fuel : nat) (cur : gostring) (s : gostring) : list gostring :=
  match fuel, s with
  | S n, _ :: _ =>
      let '(r, w) := decode_rune s in
      if is_space_rune r then
        match cur with
        | [] => fields_go n [] (drop w s)
        | _ => rev cur :: fields_go n [] (drop w s)
        end
      else fields_go n (rev (take w s) ++ cur) (drop w s)
  | _, _ => match cur with [] => [] | _ => [rev cur] end
  end.
Definition Fields (s : gostring) : list gostring := fields_go (length s) [] s.

(** [strings.SplitN (s, " ", 2)]. *)
Definition SplitN2 (s : gostring) (c : ascii) : gostring * option gostring :=
  let '(a, b, ok) := Cut s c in (a, if ok then Some b else None).

(** [strings.SplitN (s, c, 3)] when it gives three parts. *)
Definition SplitN3 (s : gostring) (c : ascii) : option (gostring * gostring * gostring) :=
  let '(a, r, ok) := Cut s c in
  let '(b, d, ok') := Cut r c in
  if ok && ok' then Some (a, b, d) else None.

(** Case mapping. *)
Class UnicodeTables := {
  uni_lower : gostring -> gostring;
  uni_upper : gostring -> gostring;
  uni_equal_fold : gostring -> gostring -> bool
}.

Section Case.
Context {U : UnicodeTables}.

Definition ToLower (s : gostring) : gostring :=
  if isASCII s then map ascii_lower s else uni_lower s.
Definition ToUpper (s : gostring) : gostring :=
  if isASCII s then map ascii_upper s else uni_upper s.
Definition EqualFold (s t : gostring) : bool :=
  if isASCII s && isASCII t then (map ascii_lower s =s? map ascii_lower t)
  else uni_equal_fold s t.
End Case.

(** Case mapping that knows ASCII only. *)
Definition ascii_tables : UnicodeTables :=
  {| uni_lower := id; uni_upper := id; uni_equal_fold := fun s t => s =s? t |}.

(** ** net/mail

    [mail.ParseAddress] and [mail.ParseAddressList]: [None] is an error, and an
    address is its addr-spec. *)
Class NetMail := {
  ParseAddress : gostring -> option gostring;
  ParseAddressList : gostring -> option (list gostring)
}.

(** A parser of plain addr-specs. *)
Definition plain_mail : NetMail := {|
  ParseAddress := fun s => if ContainsByte s "@" then Some s else None;
  ParseAddressList := fun s => if ContainsByte s "@" then Some [s] else None |}.

(** ** strconv *)
Fixpoint digits_val (acc : Z) (s : gostring) : option Z :=
  match s with
  | [] => Some acc
  | c :: s' => if is_digit c then digits_val (10 * acc + (bz c - 48)) s' else None
  end.

Inductive num_error := ErrSyntax | ErrRange.

(** [ParseUint (s, 10, bits)]. *)
Definition ParseUint (s : gostring) (max : Z) : result num_error Z :=
  match s with
  | [] => Err ErrSyntax
  | _ => match digits_val 0 s with
         | None => Err ErrSyntax
         | Some n => if n <=? max then Ok n else Err ErrRange
         end
  end.

(** [ParseInt (s, 10, 64)] and [Atoi]: an optional sign, then digits. *)
Definition ParseInt (s : gostring) : result num_error Z :=
  match s with
  | [] => Err ErrSyntax
  | c :: t =>
      let '(neg, d) := if c =c? "-" then (true, t) else if c =c? "+" then (false, t) else (false, s) in
      match ParseUint d max_uint64 with
      | Err e => Err e
      | Ok n => if neg then (if n <=? 2 ^ 63 then Ok (- n) else Err ErrRange)
                else (if n <=? max_int64 then Ok n else Err ErrRange)
      end
  end.
Definition Atoi : gostring -> result num_error Z := ParseInt.

(** [FormatUint (n, 10)], [Itoa] of a non-negative number. *)
Fixpoint format_go (fuel : nat) (n : Z) (acc : gostring) : gostring :=
  match fuel with
  | O => acc
  | S f =>
      let acc := byte_of (48 + n mod 10) :: acc in
      if n <? 10 then acc else format_go f (n / 10) acc
  end.
Definition FormatUint (n : Z) : gostring := format_go (S (Z.to_nat (Z.log2 n))) n [].
Definition FormatInt (n : Z) : gostring := if n <? 0 then "-"%char :: FormatUint (- n) else FormatUint n.

(** ** Lemmas *)
Lemma HasPrefix_app (p r : gostring) : HasPrefix (p ++ r) p = true.
Proof. induction p as [| c p IH]; simpl; [done |]. by rewrite Ascii.eqb_refl, IH. Qed.

Lemma HasPrefix_true (s p : gostring) : HasPrefix s p = true <-> exists r, s = p ++ r.
Proof.
  split; [| intros [r ->]; apply HasPrefix_app].
  revert s. induction p as [| c p IH]; intros s H; simpl in *; [by exists s |].
  destruct s as [| d s]; [done |]. breflect; subst.
  destruct (IH s H0) as [r ->]. by exists r.
Qed.

Lemma elem_of_take_sub {A} (x : A) n l : x ∈ take n l -> x ∈ l.
Proof. intros H. rewrite <-(take_drop n l). set_solver. Qed.

(** *** Decimal round trip *)
Lemma is_digit_byte d : 0 <= d < 10 -> is_digit (byte_of (48 + d)) = true.
Proof.
  intros H. unfold is_digit, in_range. rewrite bz_byte_of by lia.
  apply andb_true_iff. split; apply Z.leb_le; lia.
Qed.

Lemma digits_val_format f n acc a :
  0 <= n < 2 ^ Z.of_nat f ->
  exists k, 0 <= k /\ digits_val a (format_go f n acc) = digits_val (a * 10 ^ k + n) acc.
Proof.
  revert n acc. induction f as [| f IH]; intros n acc Hn; simpl.
  { exists 0. split; [done |]. f_equal. change (2 ^ Z.of_nat 0) with 1 in Hn. lia. }
  assert (Hd : 0 <= n mod 10 < 10) by (apply Z.mod_pos_bound; lia).
  destruct (n <? 10) eqn:E; breflect.
  - exists 1. split; [done |]. simpl. rewrite is_digit_byte by done.
    rewrite bz_byte_of, Z.mod_small by lia. f_equal. lia.
  - destruct (IH (n / 10) (byte_of (48 + n mod 10) :: acc)) as (k & Hk & ->).
    { replace (2 ^ Z.of_nat (S f)) with (2 * 2 ^ Z.of_nat f) in Hn
        by (rewrite Nat2Z.inj_succ, Z.pow_succ_r by lia; done).
      split; [apply Z.div_pos; lia | apply Z.div_lt_upper_bound; lia]. }
    exists (k + 1). split; [lia |]. simpl. rewrite is_digit_byte by done.
    rewrite bz_byte_of by lia. f_equal. rewrite Z.pow_add_r by lia.
    pose proof (Z.div_mod n 10). lia.
Qed.

Lemma format_go_digits f n acc :
  0 <= n -> forallb is_digit acc = true -> forallb is_digit (format_go f n acc) = true.
Proof.
  revert n acc. induction f as [| f IH]; intros n acc Hn Hacc; simpl; [done |].
  assert (Hd : 0 <= n mod 10 < 10) by (apply Z.mod_pos_bound; lia).
  assert (H : forallb is_digit (byte_of (48 + n mod 10) :: acc) = true)
    by (simpl; rewrite is_digit_byte by done; done).
  split_if; [done |]. apply IH; [apply Z.div_pos; lia | done].
Qed.

Lemma format_go_nonempty f n acc : acc <> [] \/ (0 < f)%nat -> format_go f n acc <> [].
Proof.
  revert n acc. induction f as [| f IH]; intros n acc H; simpl; [by destruct H as [H | H]; [| lia] |].
  split_if; [done |]. apply IH. by left.
Qed.

Lemma FormatUint_digits n : 0 <= n -> forallb is_digit (FormatUint n) = true.
Proof. intros H. by apply format_go_digits. Qed.

Lemma FormatUint_nonempty n : FormatUint n <> [].
Proof. apply format_go_nonempty. right. lia. Qed.

Lemma ParseUint_FormatUint n max : 0 <= n <= max -> ParseUint (FormatUint n) max = Ok n.
Proof.
  intros Hn. unfold ParseUint. pose proof (FormatUint_nonempty n) as Hne.
  unfold FormatUint in *.
  destruct (digits_val_format (S (Z.to_nat (Z.log2 n))) n [] 0) as (k & _ & Hd).
  { split; [lia |]. rewrite Nat2Z.inj_succ, Z2Nat.id by apply Z.log2_nonneg.
    destruct (decide (n = 0)) as [-> | ]; [done |]. apply Z.log2_spec. lia. }
  destruct (format_go _ n []); [done |]. rewrite Hd. cbn [digits_val].
  rewrite Z.mul_0_l, Z.add_0_l. by destruct (Z.leb_spec n max); [| lia].
Qed.

Lemma FormatUint_inj n m : 0 <= n -> 0 <= m -> FormatUint n = FormatUint m -> n = m.
Proof.
  intros Hn Hm E. pose proof (ParseUint_FormatUint n (n + m)) as H1. pose proof (ParseUint_FormatUint m (n + m)) as H2.
  rewrite <- E, H1 in H2 by lia. specialize (H2 ltac:(lia)). congruence.
Qed.

Lemma Atoi_FormatUint n : 0 <= n <= max_int64 -> Atoi (FormatUint n) = Ok n.
Proof.
  intros Hn. unfold Atoi, ParseInt.
  assert (Hp : ParseUint (FormatUint n) max_uint64 = Ok n)
    by (apply ParseUint_FormatUint; unfold max_int64, max_uint64 in *; lia).
  pose proof (FormatUint_nonempty n) as Hne. pose proof (FormatUint_digits n ltac:(lia)) as Hd.
  destruct (FormatUint n) as [| c t] eqn:E; [done |]. simpl in Hd. breflect.
  destruct (Ascii.eqb_spec c "-"%char) as [-> | _]; [done |].
  destruct (Ascii.eqb_spec c "+"%char) as [-> | _]; [done |].
  rewrite Hp. by destruct (Z.leb_spec n max_int64); [| lia].
Qed.

(** *** Splitting at a separator that the fields do not contain *)
Lemma Split_one (f : gostring) c : (c ∉ f) -> Split f c = [f].
Proof.
  induction f as [| d f IH]; intros H; simpl; [done |].
  apply not_elem_of_cons in H as [H1 H2].
  destruct (Ascii.eqb_spec d c); [done |]. by rewrite IH.
Qed.

Lemma Split_app (f r : gostring) c : (c ∉ f) -> Split (f ++ c :: r) c = f :: Split r c.
Proof.
  induction f as [| d f IH]; intros H; simpl; [by rewrite Ascii.eqb_refl |].
  apply not_elem_of_cons in H as [H1 H2].
  destruct (Ascii.eqb_spec d c); [done |]. by rewrite IH.
Qed.

Lemma Cut_app (f r : gostring) c : (c ∉ f) -> Cut (f ++ c :: r) c = (f, r, true).
Proof.
  induction f as [| d f IH]; intros H; simpl; [by rewrite Ascii.eqb_refl |].
  apply not_elem_of_cons in H as [H1 H2].
  destruct (Ascii.eqb_spec d c); [done |]. by rewrite IH.
Qed.

Lemma Split_Join l c : l <> [] -> Forall (fun f => c ∉ f) l -> Split (Join l [c]) c = l.
Proof.
  intros Hne Hl. induction Hl as [| f l Hf Hl IH]; [done |].
  destruct l as [| g l]; [by apply Split_one |].
  change (Join (f :: g :: l) [c]) with (f ++ c :: Join (g :: l) [c]).
  rewrite Split_app by done. f_equal. by apply IH.
Qed.

(** *** Trimming *)
Definition visible (c : ascii) : bool := in_range 33 126 c.

Lemma visible_rune c t : visible c = true ->
  decode_rune (c :: t) = (bz c, 1%nat) /\ decode_last_rev (c :: t) = (bz c, 1%nat) /\
  is_space_rune (bz c) = false.
Proof.
  unfold visible, in_range. intros H. breflect. unfold decode_rune, decode_last_rev.
  destruct (Z.ltb_spec (bz c) 128); [| lia]. split_and!; [done.. |].
  unfold is_space_rune.
  repeat match goal with |- context [?a =? ?b] => destruct (Z.eqb_spec a b); [lia |] end.
  repeat match goal with |- context [?a <=? ?b] => destruct (Z.leb_spec a b); try lia end.
Qed.

(** A line of visible characters survives the trimming of its line end. *)
Lemma TrimSpace_line (s e : gostring) :
  forallb visible s = true -> s <> [] ->
  forallb (fun c => is_ascii c && is_space_rune (bz c)) e = true -> TrimSpace (s ++ e) = s.
Proof.
  intros Hs Hne He. unfold TrimSpace.
  assert (Hl : trim_left_space (length (s ++ e)) (s ++ e) = s ++ e).
  { destruct s as [| c s]; [done |]. simpl in Hs. breflect.
    change (length ((c :: s) ++ e)) with (S (length (s ++ e))).
    change ((c :: s) ++ e) with (c :: (s ++ e)). cbn [trim_left_space].
    destruct (visible_rune c (s ++ e) ltac:(done)) as (-> & _ & ->). done. }
  rewrite Hl, rev_app_distr.
  assert (Hr : forall f r, (length r <= f)%nat ->
    forallb (fun c => is_ascii c && is_space_rune (bz c)) r = true ->
    trim_right_space f (r ++ rev s) = rev s).
  { induction f as [| f IH]; intros r Hf Hr.
    - destruct r; [done | simpl in Hf; lia].
    - destruct r as [| c r].
      + destruct (rev s) as [| c t] eqn:E; [done |].
        assert (Hv : visible c = true).
        { rewrite forallb_forall in Hs. apply Hs. rewrite in_rev, E. by left. }
        destruct (visible_rune c t Hv) as (_ & Hd & Hsp).
        change ([] ++ c :: t) with (c :: t). cbn [trim_right_space]. rewrite Hd, Hsp. done.
      + simpl in Hf, Hr. breflect. unfold is_ascii in *. change ((c :: r) ++ rev s) with (c :: (r ++ rev s)).
        cbn [trim_right_space]. unfold decode_last_rev.
        match goal with H : (bz c <? 128) = true |- _ => rewrite H end.
        match goal with H : is_space_rune _ = true |- _ => rewrite H end.
        apply IH; [lia | done]. }
  rewrite Hr; [apply rev_involutive | rewrite length_app, length_rev; lia |].
  rewrite forallb_forall in *. intros x Hx. apply He. by rewrite in_rev.
Qed.

Lemma digits_not_in (c : ascii) n : is_digit c = false -> 0 <= n -> c ∉ FormatUint n.
Proof.
  intros Hc Hn H. pose proof (FormatUint_digits n Hn) as Hd. rewrite forallb_true_iff in Hd.
  rewrite Hd in Hc by done. done.
Qed.

Lemma ContainsByte_false s c : ContainsByte s c = false <-> c ∉ s.
Proof.
  unfold ContainsByte, in_set. rewrite <-not_true_iff_false, existsb_true_iff. split.
  - intros H Hc. apply H. exists c. split; [done | by apply Ascii.eqb_refl].
  - intros H (x & Hx & Heq). breflect. by subst.
Qed.

Lemma IndexByte_app s c t : (c ∉ s) -> IndexByte (s ++ c :: t) c = Some (length s).
Proof.
  induction s as [| d s IH]; intros H; simpl; [by rewrite Ascii.eqb_refl |].
  apply not_elem_of_cons in H as [H1 H2]. destruct (Ascii.eqb_spec d c); [done |]. by rewrite IH.
Qed.

Lemma HasPrefix_longer a b p : HasPrefix a p = true -> HasPrefix (a ++ b) p = true.
Proof. rewrite !HasPrefix_true. intros [r ->]. exists (r ++ b). by rewrite app_assoc. Qed.

Lemma HasSuffix_app (s p : gostring) : HasSuffix (s ++ p) p = true.
Proof. unfold HasSuffix. rewrite rev_app_distr. apply HasPrefix_app. Qed.

Lemma HasSuffix_true (s p : gostring) : HasSuffix s p = true <-> exists r, s = r ++ p.
Proof.
  unfold HasSuffix. rewrite HasPrefix_true. split; intros [r Hr].
  - exists (rev r). rewrite <- (rev_involutive s), Hr, rev_app_distr, rev_involutive. done.
  - exists (rev r). by rewrite Hr, rev_app_distr.
Qed.

Lemma TrimSuffix_app (s p : gostring) : TrimSuffix (s ++ p) p = s.
Proof. unfold TrimSuffix. rewrite HasSuffix_app, length_app. replace (length s + length p - length p)%nat with (length s) by lia. apply take_app_length. Qed.

(** The first occurrence. *)
Lemma Index_split s sub i : Index s sub = Some i ->
  (exists b, s = take i s ++ sub ++ b) /\ (sub <> [] -> Contains (take i s) sub = false).
Proof.
  revert i. induction s as [| c s IH]; intros i; cbn [Index].
  { destruct (HasPrefix [] sub) eqn:E; [| done]. intros [= <-]. destruct sub; [| done]. split; [by exists [] | done]. }
  destruct (HasPrefix (c :: s) sub) eqn:E.
  - intros [= <-]. apply HasPrefix_true in E as [r Hr]. split; [by exists r |]. intros Hs. by destruct sub.
  - destruct (Index s sub) as [j |] eqn:Ej; [| done]. intros [= <-]. destruct (IH j eq_refl) as [[b Hb] Hc].
    split; [exists b; cbn; by rewrite <- Hb |]. intros Hs. specialize (Hc Hs). unfold Contains in *. cbn [take Index].
    destruct (HasPrefix (c :: take j s) sub) eqn:Et.
    { apply (HasPrefix_longer _ (drop j s)) in Et. cbn [app] in Et. rewrite take_drop in Et. congruence. }
    by destruct (Index (take j s) sub).
Qed.
