(* ===== verification/Utf8.v ===== *)
(** * unicode/utf8: decoding and encoding are inverse

    Decoding a valid byte string into runes and encoding the runes gives the
    string back.  Facts about the language's library, used by the components that
    handle text. *)
From S2P Require Import Prelude GoLib.

(** ** Bit fields as arithmetic *)
Lemma lor_shiftl_add a b n : 0 <= n -> 0 <= b < 2 ^ n -> Z.lor (Z.shiftl a n) b = a * 2 ^ n + b.
Proof.
  intros Hn Hb. rewrite <-Z.shiftl_mul_pow2 by done. rewrite <-Z.add_lor_land.
  assert (H0 : Z.land (Z.shiftl a n) b = 0); [| rewrite H0; lia].
  apply Z.bits_inj'. intros i Hi. rewrite Z.land_spec, Z.bits_0.
  destruct (Z.ltb_spec i n).
  - by rewrite Z.shiftl_spec_low.
  - destruct (decide (b = 0)) as [-> |]; [by rewrite Z.bits_0, andb_false_r |].
    rewrite (Z.bits_above_log2 b); [apply andb_false_r | lia |]. apply Z.log2_lt_pow2; [lia |].
    eapply Z.lt_le_trans; [apply Hb |]. apply Z.pow_le_mono_r; lia.
Qed.

Lemma land_mod b n : 0 <= n -> Z.land b (2 ^ n - 1) = b mod 2 ^ n.
Proof. intros Hn. rewrite <-Z.land_ones by done. by rewrite Z.ones_equiv, <-Z.sub_1_r. Qed.

Lemma land63 b : Z.land b 63 = b mod 64.
Proof. apply (land_mod b 6). lia. Qed.
Lemma land31 b : Z.land b 31 = b mod 32.
Proof. apply (land_mod b 5). lia. Qed.
Lemma land15 b : Z.land b 15 = b mod 16.
Proof. apply (land_mod b 4). lia. Qed.
Lemma land7 b : Z.land b 7 = b mod 8.
Proof. apply (land_mod b 3). lia. Qed.

Lemma lor_tag tag n b : 0 <= n -> 0 <= b < 2 ^ n -> (tag / 2 ^ n) * 2 ^ n = tag -> Z.lor tag b = tag + b.
Proof.
  intros Hn Hb Ht. rewrite <-Ht at 1. rewrite <-Z.shiftl_mul_pow2, lor_shiftl_add by done. lia.
Qed.

(** A Unicode scalar value. *)
Definition scalar (r : Z) : Prop := 0 <= r <= 1114111 /\ ~ (55296 <= r <= 57343).

Lemma low6_range c : 0 <= low6 c < 64.
Proof. unfold low6. rewrite land63. apply Z.mod_pos_bound. lia. Qed.
Lemma low6_cont c : 128 <= bz c <= 191 -> low6 c = bz c - 128.
Proof. intros H. unfold low6. rewrite land63. symmetry. apply Z.mod_unique with 2; lia. Qed.

(** The three multi-byte forms of a rune as sums. *)
Lemma rune2 a c : 0 <= a -> Z.lor (Z.shiftl a 6) (low6 c) = a * 64 + low6 c.
Proof. intros H. apply (lor_shiftl_add a (low6 c) 6); [lia |]. apply low6_range. Qed.
Lemma rune3 a c d : 0 <= a ->
  Z.lor (Z.shiftl a 12) (Z.lor (Z.shiftl (low6 c) 6) (low6 d)) = a * 4096 + low6 c * 64 + low6 d.
Proof.
  intros H. pose proof (low6_range c). pose proof (low6_range d). rewrite rune2 by lia.
  rewrite lor_shiftl_add by lia. change (2 ^ 12) with 4096. lia.
Qed.
Lemma rune4 a c d e : 0 <= a ->
  Z.lor (Z.shiftl a 18) (Z.lor (Z.shiftl (low6 c) 12) (Z.lor (Z.shiftl (low6 d) 6) (low6 e))) =
    a * 262144 + low6 c * 4096 + low6 d * 64 + low6 e.
Proof.
  intros H. pose proof (low6_range c). pose proof (low6_range d). pose proof (low6_range e).
  rewrite rune3 by lia. rewrite lor_shiftl_add by lia. change (2 ^ 18) with 262144. lia.
Qed.

(** ** Encoding as arithmetic *)
Lemma encode_rune_sum r : scalar r ->
  encode_rune r =
    if r <? 128 then [byte_of r]
    else if r <? 2048 then [byte_of (192 + r / 64); byte_of (128 + r mod 64)]
    else if r <? 65536 then
      [byte_of (224 + r / 4096); byte_of (128 + (r / 64) mod 64); byte_of (128 + r mod 64)]
    else [byte_of (240 + r / 262144); byte_of (128 + (r / 4096) mod 64);
          byte_of (128 + (r / 64) mod 64); byte_of (128 + r mod 64)].
Proof.
  intros [Hr Hs]. unfold encode_rune.
  replace ((r <? 0) || (1114111 <? r) || ((55296 <=? r) && (r <=? 57343))) with false.
  2: { symmetry. destruct (Z.ltb_spec r 0), (Z.ltb_spec 1114111 r), (Z.leb_spec 55296 r), (Z.leb_spec r 57343);
         simpl; lia. }
  rewrite !Z.shiftr_div_pow2, !land63 by lia.
  change (2 ^ 6) with 64. change (2 ^ 12) with 4096. change (2 ^ 18) with 262144.
  assert (H6 : forall x, Z.lor 128 (x mod 64) = 128 + x mod 64).
  { intros x. apply (lor_tag 128 6); [lia | apply Z.mod_pos_bound; lia | done]. }
  rewrite !H6.
  destruct (Z.ltb_spec r 128); [done |].
  destruct (Z.ltb_spec r 2048).
  { rewrite (lor_tag 192 5); [done | lia | | done].
    split; [apply Z.div_pos; lia | apply Z.div_lt_upper_bound; lia]. }
  destruct (Z.ltb_spec r 65536).
  { rewrite (lor_tag 224 4); [done | lia | | done].
    split; [apply Z.div_pos; lia | apply Z.div_lt_upper_bound; lia]. }
  rewrite (lor_tag 240 3); [done | lia | | done].
  split; [apply Z.div_pos; lia | apply Z.div_lt_upper_bound; lia].
Qed.

Lemma byte_of_eq z c : z = bz c -> byte_of z = c.
Proof. intros ->. apply byte_of_bz. Qed.

(** A rune that decodes without error encodes to the bytes it came from. *)
Lemma decode_rune_inv s r w :
  decode_rune s = (r, w) -> s <> [] -> (r =? rune_error) && (w =? 1)%nat = false ->
  scalar r /\ encode_rune r = take w s /\ (1 <= w <= length s)%nat.
Proof.
  intros H Hne Hv. destruct s as [| c0 t]; [done |]. unfold decode_rune in H. cbv zeta in H.
  pose proof (bz_range c0). unfold cont, in_range in H.
  destruct (Z.ltb_spec (bz c0) 128).
  { simplify_eq. assert (scalar (bz c0)) by (unfold scalar; lia). split_and!; [done | | lia | simpl; lia].
    rewrite encode_rune_sum by done. destruct (Z.ltb_spec (bz c0) 128); [| lia]. by rewrite byte_of_bz. }
  destruct ((194 <=? bz c0) && (bz c0 <=? 223)) eqn:E2.
  { destruct t as [| c1 t]; [simplify_eq; done |].
    destruct ((128 <=? bz c1) && (bz c1 <=? 191)) eqn:E; [| simplify_eq; done]. breflect.
    rewrite land31, rune2, low6_cont in H by (try lia; apply Z.mod_pos_bound; lia). injection H as <- <-.
    replace (bz c0 mod 32) with (bz c0 - 192) by (apply Z.mod_unique with 6; lia).
    set (r := (bz c0 - 192) * 64 + (bz c1 - 128)).
    assert (scalar r) by (unfold scalar, r; lia). split_and!; [done | | lia | simpl; lia].
    rewrite encode_rune_sum by done. destruct (Z.ltb_spec r 128); [unfold r in *; lia |].
    destruct (Z.ltb_spec r 2048); [| unfold r in *; lia].
    simpl. f_equal; [| f_equal]; apply byte_of_eq; unfold r; Z.to_euclidean_division_equations; lia. }
  destruct ((224 <=? bz c0) && (bz c0 <=? 239)) eqn:E3.
  { destruct t as [| c1 [| c2 t]]; [simplify_eq; done.. |].
    match type of H with (if ?b then _ else _) = _ => destruct b eqn:E end; [| simplify_eq; done].
    apply andb_true_iff in E as [Ea Eb]. breflect.
    assert (Hc1 : 128 <= bz c1 <= 191 /\ (bz c0 = 224 -> 160 <= bz c1) /\ (bz c0 = 237 -> bz c1 <= 159)).
    { destruct (Z.eqb_spec (bz c0) 224), (Z.eqb_spec (bz c0) 237); lia. }
    rewrite land15, rune3, !low6_cont in H by (try lia; apply Z.mod_pos_bound; lia). injection H as <- <-.
    replace (bz c0 mod 16) with (bz c0 - 224) by (apply Z.mod_unique with 14; lia).
    set (r := (bz c0 - 224) * 4096 + (bz c1 - 128) * 64 + (bz c2 - 128)).
    assert (scalar r) by (unfold scalar, r; lia). split_and!; [done | | lia | simpl; lia].
    rewrite encode_rune_sum by done. destruct (Z.ltb_spec r 128); [unfold r in *; lia |].
    destruct (Z.ltb_spec r 2048); [unfold r in *; lia |]. destruct (Z.ltb_spec r 65536); [| unfold r in *; lia].
    simpl. f_equal; [| f_equal; [| f_equal]]; apply byte_of_eq; unfold r; Z.to_euclidean_division_equations; lia. }
  destruct ((240 <=? bz c0) && (bz c0 <=? 244)) eqn:E4; [| simplify_eq; done].
  destruct t as [| c1 [| c2 [| c3 t]]]; [simplify_eq; done.. |].
  match type of H with (if ?b then _ else _) = _ => destruct b eqn:E end; [| simplify_eq; done].
  apply andb_true_iff in E as [E Ec]. apply andb_true_iff in E as [Ea Eb]. breflect.
  assert (Hc1 : 128 <= bz c1 <= 191 /\ (bz c0 = 240 -> 144 <= bz c1) /\ (bz c0 = 244 -> bz c1 <= 143)).
  { destruct (Z.eqb_spec (bz c0) 240), (Z.eqb_spec (bz c0) 244); lia. }
  rewrite land7, rune4, !low6_cont in H by (try lia; apply Z.mod_pos_bound; lia). injection H as <- <-.
  replace (bz c0 mod 8) with (bz c0 - 240) by (apply Z.mod_unique with 30; lia).
  set (r := (bz c0 - 240) * 262144 + (bz c1 - 128) * 4096 + (bz c2 - 128) * 64 + (bz c3 - 128)).
  assert (scalar r) by (unfold scalar, r; lia). split_and!; [done | | lia | simpl; lia].
  rewrite encode_rune_sum by done. destruct (Z.ltb_spec r 128); [unfold r in *; lia |].
  destruct (Z.ltb_spec r 2048); [unfold r in *; lia |]. destruct (Z.ltb_spec r 65536); [unfold r in *; lia |].
  simpl. f_equal; [| f_equal; [| f_equal; [| f_equal]]]; apply byte_of_eq; unfold r;
    Z.to_euclidean_division_equations; lia.
Qed.

Definition encode_runes (rs : list Z) : gostring := concat (map encode_rune rs).

(** A valid string is the encoding of its runes, which are scalar values. *)
Lemma runes_valid s : valid_utf8 s = true -> encode_runes (runes s) = s /\ Forall scalar (runes s).
Proof.
  unfold valid_utf8, runes, encode_runes.
  assert (H : forall n s, (length s <= n)%nat -> valid_go n s = true ->
    concat (map encode_rune (runes_go n s)) = s /\ Forall scalar (runes_go n s)).
  { induction n as [| n IH]; intros [| c t] Hl Hv; try (simpl in *; lia); [by split; [| constructor].. |].
    cbn [valid_go runes_go] in *. destruct (decode_rune (c :: t)) as [r w] eqn:E.
    destruct ((r =? rune_error) && (w =? 1)%nat) eqn:Er; [done |].
    destruct (decode_rune_inv _ _ _ E ltac:(done) Er) as (H1 & H2 & H3).
    destruct (IH (drop w (c :: t))) as [H4 H5]; [rewrite length_drop; simpl in *; lia | done |].
    split; [| by constructor]. cbn [map concat]. by rewrite H4, H2, take_drop. }
  by apply H.
Qed.

(** ** Decoding what was encoded *)
Lemma cont_byte z : 128 <= z <= 191 -> cont (byte_of z) = true.
Proof. intros H. unfold cont, in_range. rewrite bz_byte_of by lia. apply andb_true_iff; split; apply Z.leb_le; lia. Qed.

Lemma low6_byte z : 128 <= z <= 191 -> low6 (byte_of z) = z - 128.
Proof. intros H. rewrite low6_cont; rewrite bz_byte_of; lia. Qed.

Lemma mod64_range x : 0 <= x mod 64 < 64.
Proof. apply Z.mod_pos_bound. lia. Qed.

Lemma decode_encode_rune r k : scalar r -> decode_rune (encode_rune r ++ k) = (r, length (encode_rune r)).
Proof.
  intros Hs. pose proof Hs as [Hr Hsur]. rewrite encode_rune_sum by done.
  pose proof (mod64_range r) as M0. pose proof (mod64_range (r / 64)) as M1. pose proof (mod64_range (r / 4096)) as M2.
  destruct (Z.ltb_spec r 128).
  { simpl. rewrite bz_byte_of by lia. destruct (Z.ltb_spec r 128); [done | lia]. }
  destruct (Z.ltb_spec r 2048).
  { assert (Hq : 2 <= r / 64 < 32) by (Z.to_euclidean_division_equations; lia).
    cbn [app]. unfold decode_rune. rewrite bz_byte_of by lia. rewrite cont_byte by lia.
    destruct (Z.ltb_spec (192 + r / 64) 128); [lia |].
    destruct (Z.leb_spec 194 (192 + r / 64)); [| lia]. destruct (Z.leb_spec (192 + r / 64) 223); [| lia].
    cbn [andb]. rewrite land31, rune2, low6_byte by (try lia; apply Z.mod_pos_bound; lia). f_equal.
    Z.to_euclidean_division_equations; lia. }
  destruct (Z.ltb_spec r 65536).
  { assert (Hq : 0 <= r / 4096 < 16) by (Z.to_euclidean_division_equations; lia).
    cbn [app]. unfold decode_rune. rewrite bz_byte_of by lia. cbv zeta.
    destruct (Z.ltb_spec (224 + r / 4096) 128); [lia |].
    destruct (Z.leb_spec (224 + r / 4096) 223); [lia |]. rewrite andb_false_r.
    destruct (Z.leb_spec 224 (224 + r / 4096)); [| lia]. destruct (Z.leb_spec (224 + r / 4096) 239); [| lia].
    cbn [andb]. rewrite cont_byte, andb_true_r by lia. unfold in_range. rewrite bz_byte_of by lia.
    match goal with |- context [if ?b then _ else (rune_error, _)] => assert (Hb : b = true) end.
    { apply andb_true_iff. split; apply Z.leb_le;
        [destruct (Z.eqb_spec (224 + r / 4096) 224) | destruct (Z.eqb_spec (224 + r / 4096) 237)];
        Z.to_euclidean_division_equations; lia. }
    rewrite Hb, land15, rune3, !low6_byte by (try lia; apply Z.mod_pos_bound; lia). f_equal.
    Z.to_euclidean_division_equations; lia. }
  assert (Hq : 0 <= r / 262144 <= 4) by (Z.to_euclidean_division_equations; lia).
  cbn [app]. unfold decode_rune. rewrite bz_byte_of by lia. cbv zeta.
  destruct (Z.ltb_spec (240 + r / 262144) 128); [lia |].
  destruct (Z.leb_spec (240 + r / 262144) 223); [lia |]. rewrite andb_false_r.
  destruct (Z.leb_spec (240 + r / 262144) 239); [lia |]. rewrite andb_false_r.
  destruct (Z.leb_spec 240 (240 + r / 262144)); [| lia]. destruct (Z.leb_spec (240 + r / 262144) 244); [| lia].
  cbn [andb]. rewrite !cont_byte, !andb_true_r by lia. unfold in_range. rewrite bz_byte_of by lia.
  match goal with |- context [if ?b then _ else (rune_error, _)] => assert (Hb : b = true) end.
  { apply andb_true_iff. split; apply Z.leb_le;
      [destruct (Z.eqb_spec (240 + r / 262144) 240) | destruct (Z.eqb_spec (240 + r / 262144) 244)];
      Z.to_euclidean_division_equations; lia. }
  rewrite Hb, land7, rune4, !low6_byte by (try lia; apply Z.mod_pos_bound; lia). f_equal.
  Z.to_euclidean_division_equations; lia.
Qed.

(** An encoded rune is a start byte and then continuation bytes; a one byte rune
    is ASCII. *)
Lemma encode_shape r : scalar r -> exists c t, encode_rune r = c :: t /\ cont c = false /\
  Forall (fun d => cont d = true) t /\ (t = [] -> bz c < 128) /\ (t <> [] -> 128 <= bz c) /\ (length t <= 3)%nat.
Proof.
  intros Hs. pose proof Hs as [Hr _]. rewrite encode_rune_sum by done.
  pose proof (mod64_range r) as M0. pose proof (mod64_range (r / 64)) as M1. pose proof (mod64_range (r / 4096)) as M2.
  assert (Hc : forall z, 0 <= z < 128 \/ 192 <= z < 256 -> cont (byte_of z) = false).
  { intros z Hz. unfold cont, in_range. rewrite bz_byte_of by lia.
    destruct (Z.leb_spec 128 z), (Z.leb_spec z 191); simpl; lia. }
  destruct (Z.ltb_spec r 128); [| destruct (Z.ltb_spec r 2048); [| destruct (Z.ltb_spec r 65536)]];
    eexists _, _; (split; [reflexivity |]).
  - split_and!; try constructor; [apply Hc; lia | intros _; rewrite bz_byte_of; lia | done | simpl; lia].
  - assert (0 <= r / 64 < 32) by (Z.to_euclidean_division_equations; lia).
    split_and!; [apply Hc; lia | repeat constructor; apply cont_byte; lia | done | intros _; rewrite bz_byte_of; lia | simpl; lia].
  - assert (0 <= r / 4096 < 16) by (Z.to_euclidean_division_equations; lia).
    split_and!; [apply Hc; lia | repeat constructor; apply cont_byte; lia | done | intros _; rewrite bz_byte_of; lia | simpl; lia].
  - assert (0 <= r / 262144 <= 4) by (Z.to_euclidean_division_equations; lia).
    split_and!; [apply Hc; lia | repeat constructor; apply cont_byte; lia | done | intros _; rewrite bz_byte_of; lia | simpl; lia].
Qed.

Lemma decode_last_encode k r : scalar r -> snd (decode_last_rune (k ++ encode_rune r)) = length (encode_rune r).
Proof.
  intros Hs. pose proof (decode_encode_rune r [] Hs) as Hd. rewrite app_nil_r in Hd.
  destruct (encode_shape r Hs) as (c & t & He & Hc & Ht & H1 & H2 & Hl). rewrite He in *.
  unfold decode_last_rune. rewrite rev_app_distr. cbn [rev]. unfold decode_last_rev.
  assert (Hst : rune_start c = true) by (unfold rune_start; by rewrite Hc).
  assert (Hcont : forall d, cont d = true -> (bz d <? 128) = false /\ rune_start d = false).
  { intros d Hd'. unfold rune_start. rewrite Hd'. split; [| done]. unfold cont, in_range in Hd'. breflect. apply Z.ltb_ge. lia. }
  destruct t as [| d1 [| d2 [| d3 [| d4 t]]]]; [| | | | simpl in Hl; lia];
    repeat match goal with H : Forall _ (_ :: _) |- _ => inversion H; clear H; subst end.
  - cbn [rev app]. specialize (H1 eq_refl). destruct (Z.ltb_spec (bz c) 128); [done | lia].
  - cbn [rev app]. destruct (Hcont d1) as [-> _]; [done |]. rewrite Hst. rewrite ?take_0; cbn [firstn rev app]; rewrite ?take_0; cbn [rev app]. by rewrite Hd.
  - cbn [rev app]. destruct (Hcont d2) as [-> _]; [done |]. destruct (Hcont d1) as [_ ->]; [done |].
    rewrite Hst. rewrite ?take_0; cbn [firstn rev app]; rewrite ?take_0; cbn [rev app]. by rewrite Hd.
  - cbn [rev app]. destruct (Hcont d3) as [-> _]; [done |]. destruct (Hcont d2) as [_ ->]; [done |].
    destruct (Hcont d1) as [_ ->]; [done |]. rewrite Hst. rewrite ?take_0; cbn [firstn rev app]; rewrite ?take_0; cbn [rev app]. by rewrite Hd.
Qed.

Lemma encode_runes_app a b : encode_runes (a ++ b) = encode_runes a ++ encode_runes b.
Proof. unfold encode_runes. by rewrite map_app, concat_app. Qed.

(** Encodings are prefix free. *)
Lemma encode_prefix r s k k' : scalar r -> scalar s -> encode_rune r ++ k = encode_rune s ++ k' -> r = s /\ k = k'.
Proof.
  intros Hr Hs H. pose proof (decode_encode_rune r k Hr) as H1. pose proof (decode_encode_rune s k' Hs) as H2.
  rewrite H, H2 in H1. injection H1 as -> _. split; [done |]. by apply app_inv_head in H.
Qed.

(** ** Text of visible characters *)
Lemma visible_ascii c : visible c = true -> is_ascii c = true.
Proof. unfold visible, in_range, is_ascii. intros H. breflect. apply Z.ltb_lt. lia. Qed.

Lemma all_visible_ascii s : forallb visible s = true -> isASCII s = true.
Proof. unfold isASCII. rewrite !forallb_forall. intros H c Hc. by apply visible_ascii, H. Qed.

Lemma decode_ascii c s : is_ascii c = true -> decode_rune (c :: s) = (bz c, 1%nat).
Proof. unfold is_ascii, decode_rune. by intros ->. Qed.

Lemma valid_ascii s : isASCII s = true -> valid_utf8 s = true.
Proof.
  unfold valid_utf8, isASCII. induction s as [| c s IH]; [done |]. cbn [forallb length]. intros [Hc Hs]%andb_true_iff. cbn [valid_go].
  rewrite decode_ascii by done. unfold is_ascii in Hc. apply Z.ltb_lt in Hc. destruct (Z.eqb_spec (bz c) rune_error) as [E | _]; [unfold rune_error in E; lia |].
  cbn [andb drop]. rewrite drop_0. by apply IH.
Qed.

Lemma reencode_ascii s : isASCII s = true -> encode_runes (runes s) = s.
Proof. intros H. by apply runes_valid, valid_ascii. Qed.

Lemma TrimSpace_bounded s c d x y : s = c :: x -> s = y ++ [d] -> visible c = true -> visible d = true -> TrimSpace s = s.
Proof.
  intros E1 E2 Hc Hd. unfold TrimSpace. assert (Hl : trim_left_space (length s) s = s).
  { rewrite E1. cbn [length trim_left_space]. by destruct (visible_rune c x Hc) as (-> & _ & ->). }
  rewrite Hl. assert (Hr : rev s = d :: rev y) by (rewrite E2; by rewrite rev_app_distr).
  rewrite Hr. destruct (length s) eqn:En; [subst s; done |]. cbn [trim_right_space].
  destruct (visible_rune d (rev y) Hd) as (_ & -> & ->). rewrite <- Hr. apply rev_involutive.
Qed.

Lemma TrimSpace_visible s : forallb visible s = true -> TrimSpace s = s.
Proof.
  intros H. destruct s as [| c s]; [done |]. rewrite <- (app_nil_r (c :: s)) at 1. by apply TrimSpace_line.
Qed.

Lemma TrimSpace_blank s : TrimSpace (" "%char :: s) = TrimSpace s.
Proof. unfold TrimSpace. cbn [length trim_left_space]. rewrite decode_ascii by done. cbn [drop]. by rewrite drop_0. Qed.

Lemma decode_rune_short s : (snd (decode_rune s) <= 4)%nat.
Proof. unfold decode_rune. repeat (case_match; cbn [snd]; try lia). Qed.
Lemma last_width c r d p : visible d = true -> (snd (decode_last_rev (c :: r ++ d :: p)) <= S (length r))%nat.
Proof.
  intros Hd. unfold decode_last_rev. destruct (bz c <? 128) eqn:Ec; [cbn; lia |].
  assert (Hs : rune_start d = true) by (clear -Hd; destruct d as [[] [] [] [] [] [] [] []]; vm_compute in *; congruence).
  assert (Hdec : forall t, decode_rune (d :: t) = (bz d, 1%nat)) by (intros t; by destruct (visible_rune d t Hd)).
  destruct r as [| c1 r]; cbn [app length].
  { rewrite Hs. cbn [firstn rev app]. rewrite ?take_0. cbn [rev app]. rewrite Hdec. cbn. lia. }
  destruct (rune_start c1); [cbn [firstn rev app]; destruct (decode_rune _) as [x w]; case Nat.eqb_spec; intros; cbn [snd length]; lia |].
  destruct r as [| c2 r]; cbn [app length].
  { rewrite Hs. cbn [firstn rev app]. rewrite ?take_0. cbn [rev app]. rewrite Hdec. cbn. lia. }
  destruct (rune_start c2); [cbn [firstn rev app]; destruct (decode_rune _) as [x w]; case Nat.eqb_spec; intros; cbn [snd length]; lia |].
  destruct r as [| c3 r]; cbn [app length].
  { rewrite Hs. cbn [firstn rev app]. rewrite ?take_0. cbn [rev app]. rewrite Hdec. cbn. lia. }
  destruct (rune_start c3); [cbn [firstn rev app]; destruct (decode_rune _) as [x w]; case Nat.eqb_spec; intros; cbn [snd length]; lia |].
  destruct r as [| c4 r]; cbn [app length firstn rev].
  all: match goal with |- context [decode_rune ?x] => pose proof (decode_rune_short x) as Hw; destruct (decode_rune x) as [y w] end.
  all: cbn [snd] in Hw; case Nat.eqb_spec; intros; cbn [snd length]; lia.
Qed.

(** Trimming does not reach into a prefix of visible ends. *)
Lemma trim_right_stop f r d p : visible d = true -> exists r', trim_right_space f (r ++ d :: p) = r' ++ d :: p.
Proof.
  intros Hd. revert r. induction f as [| f IH]; intros r; [by exists r |]. destruct r as [| c r]; cbn [app trim_right_space].
  - destruct (visible_rune d p Hd) as (_ & -> & ->). by exists [].
  - pose proof (last_width c r d p Hd) as Hw. destruct (decode_last_rev (c :: r ++ d :: p)) as [x w]. cbn [snd] in Hw. destruct (is_space_rune x); [| by exists (c :: r)].
    change (c :: r ++ d :: p) with ((c :: r) ++ d :: p). rewrite drop_app_le by (cbn [length]; lia). apply IH.
Qed.
Lemma TrimSpace_prefix p c d x y s : p = c :: x -> p = y ++ [d] -> visible c = true -> visible d = true -> exists s', TrimSpace (p ++ s) = p ++ s'.
Proof.
  intros E1 E2 Hc Hd. unfold TrimSpace. assert (Hl : trim_left_space (length (p ++ s)) (p ++ s) = p ++ s).
  { rewrite E1. cbn [length app trim_left_space]. by destruct (visible_rune c (x ++ s) Hc) as (-> & _ & ->). }
  rewrite Hl, rev_app_distr. assert (Hr : rev p = d :: rev y) by (rewrite E2; by rewrite rev_app_distr).
  rewrite Hr. destruct (trim_right_stop (length (p ++ s)) (rev s) d (rev y) Hd) as [r' ->]. rewrite <- Hr, rev_app_distr, rev_involutive. by eexists.
Qed.

Lemma LastIndexByte_lookup s c i : LastIndexByte s c = Some i -> s !! i = Some c.
Proof.
  revert i. induction s as [| d s IH]; intros i; cbn [LastIndexByte]; [done |]. destruct (LastIndexByte s c) as [j |].
  - intros [= <-]. by apply IH.
  - destruct (d =c? c) eqn:E; [| done]. intros [= <-]. apply Ascii.eqb_eq in E as ->. done.
Qed.

(** ** ASCII text *)
Lemma isASCII_app s t : isASCII (s ++ t) = isASCII s && isASCII t.
Proof. apply forallb_app. Qed.

Lemma isASCII_sub s t : isASCII s = true -> (forall c, c ∈ t -> c ∈ s) -> isASCII t = true.
Proof. unfold isASCII. rewrite !forallb_true_iff. auto. Qed.

Lemma isASCII_take n s : isASCII s = true -> isASCII (take n s) = true.
Proof. intros H. apply (isASCII_sub s); [done |]. intros c. apply elem_of_take_sub. Qed.

Lemma isASCII_drop n s : isASCII s = true -> isASCII (drop n s) = true.
Proof. intros H. apply (isASCII_sub s); [done |]. intros c Hc. rewrite <- (take_drop n s). apply elem_of_app. by right. Qed.

Lemma ascii_lower_ascii c : is_ascii c = true -> is_ascii (ascii_lower c) = true.
Proof.
  unfold is_ascii, ascii_lower. intros H. split_if; [| done]. breflect.
  rewrite bz_byte_of; [apply Z.ltb_lt |]; lia.
Qed.

Lemma ascii_lower_idem c : ascii_lower (ascii_lower c) = ascii_lower c.
Proof.
  unfold ascii_lower. destruct ((65 <=? bz c) && (bz c <=? 90)) eqn:E; [| by rewrite E].
  breflect. rewrite bz_byte_of by lia. replace (bz c + 32 <=? 90) with false by (symmetry; apply Z.leb_gt; lia).
  by rewrite andb_false_r.
Qed.

Abbreviation lowered s := (map ascii_lower (s : gostring)).

Lemma lowered_idem s : lowered (lowered s) = lowered s.
Proof. rewrite map_map. apply map_ext, ascii_lower_idem. Qed.

Lemma lowered_ascii s : isASCII s = true -> isASCII (lowered s) = true.
Proof.
  unfold isASCII. rewrite !forallb_true_iff. intros H c Hc. apply list_elem_of_fmap in Hc as (d & -> & Hd).
  by apply ascii_lower_ascii, H.
Qed.

Lemma lowered_sep s c : ascii_lower c = c -> (forall d, ascii_lower d = c -> d = c) -> c ∈ lowered s <-> c ∈ s.
Proof.
  intros Hc Hi. split.
  - intros (d & E & Hd)%list_elem_of_fmap. symmetry in E. apply Hi in E as ->. done.
  - intros H. apply list_elem_of_fmap. exists c. by rewrite Hc.
Qed.

Lemma lower_only c : negb (in_range 65 90 c || in_range 97 122 c) = true -> ascii_lower c = c /\ forall d, ascii_lower d = c -> d = c.
Proof.
  intros [H1 H2]%negb_true_iff%orb_false_iff. split; [unfold ascii_lower; unfold in_range in H1; by rewrite H1 |].
  intros d. unfold ascii_lower. destruct ((65 <=? bz d) && (bz d <=? 90)) eqn:E; [| done]. intros <-. unfold in_range in *.
  rewrite bz_byte_of in H2 by (breflect; lia). exfalso. breflect. destruct H2; breflect; lia.
Qed.

Lemma trim_left_ascii n s : isASCII s = true -> isASCII (trim_left_space n s) = true.
Proof.
  revert s. induction n as [| n IH]; intros s H; [done |]. destruct s as [| c s]; [done |]. cbn [trim_left_space].
  destruct (decode_rune (c :: s)) as [r w]. split_if; [| done]. apply IH. by apply isASCII_drop.
Qed.

Lemma trim_right_ascii n s : isASCII s = true -> isASCII (trim_right_space n s) = true.
Proof.
  revert s. induction n as [| n IH]; intros s H; [done |]. destruct s as [| c s]; [done |]. cbn [trim_right_space].
  destruct (decode_last_rev (c :: s)) as [r w]. split_if; [| done]. apply IH. by apply isASCII_drop.
Qed.

Lemma isASCII_rev s : isASCII s = true -> isASCII (rev s) = true.
Proof. intros H. apply (isASCII_sub s); [done |]. intros c. rewrite !list_elem_of_In. apply in_rev. Qed.

Lemma TrimSpace_ascii s : isASCII s = true -> isASCII (TrimSpace s) = true.
Proof. intros H. unfold TrimSpace. by apply isASCII_rev, trim_right_ascii, isASCII_rev, trim_left_ascii. Qed.

Section Folding.
Context {U : UnicodeTables}.

Lemma ToLower_ascii s : isASCII s = true -> ToLower s = lowered s.
Proof. unfold ToLower. by intros ->. Qed.

Lemma EqualFold_ascii s t : isASCII s = true -> isASCII t = true -> EqualFold s t = true <-> lowered s = lowered t.
Proof. unfold EqualFold. intros -> ->. cbn [andb]. apply bool_decide_eq_true. Qed.
End Folding.
