(* ===== verification/Base64.v ===== *)
(** * encoding/base64

    The encodings the repository uses: the standard alphabet with padding (SMTP
    AUTH) and, for modified UTF-7 mailbox names, the RFC 3501 alphabet without
    padding in strict mode. These are the
    language's library, not code of the repository. *)
From S2P Require Import Prelude GoLib.

Record encoding := {
  alphabet : gostring;     (* 64 distinct characters *)
  padded : bool;           (* StdPadding, otherwise NoPadding *)
  strict : bool            (* trailing padding bits must be zero *)
}.

Definition std_alphabet : gostring :=
  "ABCDEFGHIJKLMNOPQRSTUVWXYZabcdefghijklmnopqrstuvwxyz0123456789+/".
Definition StdEncoding : encoding := {| alphabet := std_alphabet; padded := true; strict := false |}.

Definition sextet_char (e : encoding) (n : Z) : ascii := nth (Z.to_nat n) (alphabet e) "?"%char.
Definition char_sextet (e : encoding) (c : ascii) : option Z :=
  Z.of_nat <$> IndexByte (alphabet e) c.

Definition pad_char : ascii := "=".

(** ** EncodeToString *)
Fixpoint encode (e : encoding) (bs : gostring) : gostring :=
  match bs with
  | [] => []
  | [a] =>
      let v := bz a in
      [sextet_char e (v / 4); sextet_char e ((v mod 4) * 16)]
      ++ (if padded e then [pad_char; pad_char] else [])
  | [a; b] =>
      let v := bz a * 256 + bz b in
      [sextet_char e (v / 1024); sextet_char e ((v / 16) mod 64); sextet_char e ((v mod 16) * 4)]
      ++ (if padded e then [pad_char] else [])
  | a :: b :: c :: t =>
      let v := bz a * 65536 + bz b * 256 + bz c in
      [sextet_char e (v / 262144); sextet_char e ((v / 4096) mod 64);
       sextet_char e ((v / 64) mod 64); sextet_char e (v mod 64)] ++ encode e t
  end.

(** ** DecodeString: [None] is a CorruptInputError *)
Definition two_bytes (e : encoding) (x y z : Z) : option gostring :=
  if strict e && negb (z mod 4 =? 0) then None
  else let v := x * 4096 + y * 64 + z in Some [byte_of (v / 1024); byte_of ((v / 4) mod 256)].
Definition one_byte (e : encoding) (x y : Z) : option gostring :=
  if strict e && negb (y mod 16 =? 0) then None
  else Some [byte_of ((x * 64 + y) / 16)].

Fixpoint decode_quanta (e : encoding) (s : gostring) : option gostring :=
  match s with
  | [] => Some []
  | [_] => None
  | [a; b] =>
      if padded e then None
      else x ← char_sextet e a; y ← char_sextet e b; one_byte e x y
  | [a; b; c] =>
      if padded e then None
      else x ← char_sextet e a; y ← char_sextet e b; z ← char_sextet e c; two_bytes e x y z
  | a :: b :: c :: d :: t =>
      x ← char_sextet e a;
      y ← char_sextet e b;
      if padded e && (c =c? pad_char) then
        if (d =c? pad_char) && (match t with [] => true | _ => false end)
        then one_byte e x y else None
      else
        z ← char_sextet e c;
        if padded e && (d =c? pad_char) then
          match t with [] => two_bytes e x y z | _ => None end
        else
          w ← char_sextet e d;
          let v := x * 262144 + y * 4096 + z * 64 + w in
          r ← decode_quanta e t;
          Some (byte_of (v / 65536) :: byte_of ((v / 256) mod 256) :: byte_of (v mod 256) :: r)
  end.

(** CR and LF are skipped wherever they stand. *)
Definition not_newline (c : ascii) : bool := negb ((bz c =? 13) || (bz c =? 10)).
Definition decode (e : encoding) (s : gostring) : option gostring :=
  decode_quanta e (List.filter not_newline s).

(** ** Round trip *)

(** The alphabet has 64 distinct characters, none of them a newline or the
    padding character. *)
Definition valid_encoding (e : encoding) : Prop :=
  length (alphabet e) = 64%nat /\ NoDup (alphabet e) /\
  forallb (fun c => not_newline c && negb (c =c? pad_char)) (alphabet e) = true.

Section RoundTrip.
Context (e : encoding) (He : valid_encoding e).

Lemma IndexByte_nth (l : gostring) (n : nat) d :
  NoDup l -> (n < length l)%nat -> IndexByte l (nth n l d) = Some n.
Proof.
  intros Hnd. revert n. induction Hnd as [| c l Hc Hnd IH]; intros n Hn; simpl in *; [lia |].
  destruct n as [| n]; [by rewrite Ascii.eqb_refl |].
  destruct (Ascii.eqb_spec c (nth n l d)) as [-> | Hne].
  - exfalso. apply Hc. apply list_elem_of_In, nth_In. lia.
  - rewrite IH by lia. done.
Qed.

Lemma sextet_roundtrip n : 0 <= n < 64 -> char_sextet e (sextet_char e n) = Some n.
Proof.
  intros Hn. destruct He as (Hl & Hnd & _). unfold char_sextet, sextet_char.
  rewrite IndexByte_nth by (done || lia). simpl. f_equal. lia.
Qed.

Lemma sextet_plain n : 0 <= n < 64 ->
  not_newline (sextet_char e n) = true /\ (sextet_char e n =c? pad_char) = false.
Proof.
  intros Hn. destruct He as (Hl & _ & Hnl). unfold sextet_char.
  rewrite forallb_true_iff in Hnl. rewrite <-negb_true_iff. apply andb_true_iff, Hnl.
  apply list_elem_of_In, nth_In. lia.
Qed.
Lemma sextet_not_newline n : 0 <= n < 64 -> not_newline (sextet_char e n) = true.
Proof. apply sextet_plain. Qed.
Lemma sextet_not_pad n : 0 <= n < 64 -> (sextet_char e n =c? pad_char) = false.
Proof. apply sextet_plain. Qed.

(** Induction three bytes at a time. *)
Lemma triple_ind (P : gostring -> Prop) :
  P [] -> (forall a, P [a]) -> (forall a b, P [a; b]) ->
  (forall a b c t, P t -> P (a :: b :: c :: t)) -> forall l, P l.
Proof.
  intros H0 H1 H2 H3. fix IH 1.
  intros [| a [| b [| c t]]]; [exact H0 | apply H1 | apply H2 | apply H3, IH].
Qed.

Ltac sextets a b c :=
  pose proof (bz_range a); try pose proof (bz_range b); try pose proof (bz_range c);
  Z.to_euclidean_division_equations; lia.

Lemma encode_no_newline bs : List.filter not_newline (encode e bs) = encode e bs.
Proof.
  induction bs as [| a | a b | a b c t IH] using triple_ind; simpl; destruct (padded e); simpl;
    repeat (rewrite sextet_not_newline by sextets a b c); simpl; rewrite ?IH; done.
Qed.

(** The bytes a quantum of two or three characters stands for. *)
Lemma one_byte_encode a : one_byte e (bz a / 4) (bz a mod 4 * 16) = Some [a].
Proof.
  pose proof (bz_range a). unfold one_byte.
  replace (bz a mod 4 * 16 mod 16 =? 0) with true
    by (symmetry; apply Z.eqb_eq; Z.to_euclidean_division_equations; lia).
  rewrite andb_false_r. do 2 f_equal.
  rewrite <-(byte_of_bz a) at 3. f_equal. Z.to_euclidean_division_equations; lia.
Qed.

Lemma two_bytes_encode a b (v := bz a * 256 + bz b) :
  two_bytes e (v / 1024) ((v / 16) mod 64) (v mod 16 * 4) = Some [a; b].
Proof.
  pose proof (bz_range a). pose proof (bz_range b). unfold two_bytes.
  replace (v mod 16 * 4 mod 4 =? 0) with true
    by (symmetry; apply Z.eqb_eq; Z.to_euclidean_division_equations; lia).
  rewrite andb_false_r. f_equal. f_equal; [| f_equal].
  - rewrite <-(byte_of_bz a). f_equal. unfold v. Z.to_euclidean_division_equations; lia.
  - rewrite <-(byte_of_bz b). f_equal. unfold v. Z.to_euclidean_division_equations; lia.
Qed.

Lemma decode_encode bs : decode e (encode e bs) = Some bs.
Proof.
  unfold decode. rewrite encode_no_newline.
  induction bs as [| a | a b | a b c t IH] using triple_ind; [done | | |];
    pose proof (bz_range a); try pose proof (bz_range b); try pose proof (bz_range c);
    simpl.
  - destruct (padded e) eqn:Hp; simpl; rewrite ?Hp; simpl;
      rewrite !sextet_roundtrip by sextets a a a; simpl; apply one_byte_encode.
  - destruct (padded e) eqn:Hp; simpl; rewrite ?Hp; simpl;
      rewrite !sextet_roundtrip by sextets a b a; simpl;
      rewrite ?sextet_not_pad by sextets a b a; apply two_bytes_encode.
  - rewrite !sextet_roundtrip by sextets a b c. simpl.
    rewrite !sextet_not_pad, andb_false_r by sextets a b c. rewrite IH. simpl.
    set (v := bz a * 65536 + bz b * 256 + bz c).
    replace (v / 262144 * 262144 + (v / 4096) mod 64 * 4096 + (v / 64) mod 64 * 64 + v mod 64)
      with v by (unfold v; Z.to_euclidean_division_equations; lia).
    f_equal. f_equal; [| f_equal; [| f_equal]].
    + rewrite <-(byte_of_bz a). f_equal. unfold v. Z.to_euclidean_division_equations; lia.
    + rewrite <-(byte_of_bz b). f_equal. unfold v. Z.to_euclidean_division_equations; lia.
    + rewrite <-(byte_of_bz c). f_equal. unfold v. Z.to_euclidean_division_equations; lia.
Qed.

(** The characters of an encoding. *)
Lemma encode_chars bs c : c ∈ encode e bs -> c ∈ alphabet e \/ c = pad_char.
Proof.
  pose proof He as (Hl & _ & _).
  assert (Hs : forall n, 0 <= n < 64 -> sextet_char e n ∈ alphabet e).
  { intros n Hn. apply list_elem_of_In, nth_In. lia. }
  induction bs as [| x | x y | x y z t IH] using triple_ind; simpl; [set_solver | | |];
    pose proof (bz_range x); try pose proof (bz_range y); try pose proof (bz_range z);
    destruct (padded e); rewrite ?elem_of_cons, ?elem_of_nil;
    intros Hc; repeat (destruct Hc as [-> | Hc]); auto; try done;
    left; apply Hs; Z.to_euclidean_division_equations; lia.
Qed.
End RoundTrip.

Lemma StdEncoding_valid : valid_encoding StdEncoding.
Proof.
  split_and!; [done | | done]. eapply bool_decide_unpack. vm_compute. exact I.
Qed.

Example decode_std : decode StdEncoding "AGFiYwBwdw==" =
  Some ([byte_of 0] ++ "abc" ++ [byte_of 0] ++ "pw").
Proof. reflexivity. Qed.

Lemma std_visible bs : forallb visible (encode StdEncoding bs) = true.
Proof.
  apply forallb_true_iff. intros c Hc.
  destruct (encode_chars StdEncoding StdEncoding_valid bs c Hc) as [H | ->]; [| done].
  assert (Hall : forallb visible std_alphabet = true) by (vm_compute; reflexivity).
  rewrite forallb_true_iff in Hall. by apply Hall.
Qed.

Lemma encode_nonempty e bs : bs <> [] -> encode e bs <> [].
Proof. by destruct bs as [| a [| b [| c t]]]. Qed.
