(* ===== verification/CircuitBreaker.v ===== *)
(** * internal/circuitbreaker: the circuit breaker and its manager

    [CircuitBreaker] is the struct behind the mutex; every method is a function
    from the breaker (and the clock reading it takes) to its result and the new
    breaker, because each method is one critical section.  [step] interleaves
    those critical sections: an [Execute] call is its admission, then, any
    number of other steps later, its completion carrying the round id it was
    admitted with. *)
From S2P Require Import Prelude.

Inductive State := StateClosed | StateOpen | StateHalfOpen.

#[export] Instance State_eq_dec : EqDecision State.
Proof. solve_decision. Defined.

Record Config := {
  MaxFailures : Z;
  Timeout : Z;
  SuccessThreshold : Z;
  FailureThreshold : Z
}.

Definition DefaultConfig : Config := {|
  MaxFailures := 5; Timeout := 30 * second; SuccessThreshold := 2; FailureThreshold := 2
|}.

Record CircuitBreaker := {
  config : Config;
  state : State;
  failures : Z;
  successes : Z;
  lastFailure : Z;
  halfOpenReq : Z;
  halfOpenSince : Z;
  halfOpenGen : Z   (* uint64 *)
}.

Definition positive_or (v d : Z) : Z := if v <=? 0 then d else v.

Definition New (c : Config) : CircuitBreaker :=
  let def := DefaultConfig in
  {| config := {|
       MaxFailures := positive_or (MaxFailures c) (MaxFailures def);
       Timeout := positive_or (Timeout c) (Timeout def);
       SuccessThreshold := positive_or (SuccessThreshold c) (SuccessThreshold def);
       FailureThreshold := positive_or (FailureThreshold c) (FailureThreshold def) |};
     state := StateClosed; failures := 0; successes := 0; lastFailure := zero_time;
     halfOpenReq := 0; halfOpenSince := zero_time; halfOpenGen := 0 |}.

Definition NewDefault : CircuitBreaker := New DefaultConfig.

Definition startHalfOpenRoundLocked (now : Z) (cb : CircuitBreaker) : CircuitBreaker :=
  {| config := config cb; state := StateHalfOpen; failures := 0; successes := 0;
     lastFailure := lastFailure cb; halfOpenReq := 1; halfOpenSince := now;
     halfOpenGen := wrap_u64 (halfOpenGen cb + 1) |}.

Definition set_halfOpenReq (n : Z) (cb : CircuitBreaker) : CircuitBreaker :=
  {| config := config cb; state := state cb; failures := failures cb;
     successes := successes cb; lastFailure := lastFailure cb; halfOpenReq := n;
     halfOpenSince := halfOpenSince cb; halfOpenGen := halfOpenGen cb |}.

Definition allowLocked (now : Z) (cb : CircuitBreaker) : bool * CircuitBreaker :=
  match state cb with
  | StateClosed => (true, cb)
  | StateOpen =>
      if Timeout (config cb) <? time_sub now (lastFailure cb)
      then (true, startHalfOpenRoundLocked now cb)
      else (false, cb)
  | StateHalfOpen =>
      if halfOpenReq cb <? SuccessThreshold (config cb)
      then (true, set_halfOpenReq (halfOpenReq cb + 1) cb)
      else if Timeout (config cb) <? time_sub now (halfOpenSince cb)
      then (true, startHalfOpenRoundLocked now cb)
      else (false, cb)
  end.

(** [allow]: the verdict and, read under the same lock, the round id. *)
Definition allow (now : Z) (cb : CircuitBreaker) : (bool * Z) * CircuitBreaker :=
  let '(ok, cb') := allowLocked now cb in ((ok, halfOpenGen cb'), cb').

Definition Allow (now : Z) (cb : CircuitBreaker) : bool * CircuitBreaker :=
  let '((ok, _), cb') := allow now cb in (ok, cb').

(** The probe slot released by a completion that names the current round. *)
Definition released (gen : Z) (release : bool) (cb : CircuitBreaker) : Z :=
  if release && (gen =? halfOpenGen cb) && (0 <? halfOpenReq cb)
  then halfOpenReq cb - 1 else halfOpenReq cb.

Definition recordSuccess (gen : Z) (release : bool) (cb : CircuitBreaker) : CircuitBreaker :=
  if release && negb (gen =? halfOpenGen cb) then cb else
  match state cb with
  | StateClosed =>
      {| config := config cb; state := StateClosed; failures := 0;
         successes := successes cb; lastFailure := lastFailure cb;
         halfOpenReq := halfOpenReq cb; halfOpenSince := halfOpenSince cb;
         halfOpenGen := halfOpenGen cb |}
  | StateHalfOpen =>
      let succ := successes cb + 1 in
      if SuccessThreshold (config cb) <=? succ then
        {| config := config cb; state := StateClosed; failures := 0; successes := 0;
           lastFailure := lastFailure cb; halfOpenReq := 0;
           halfOpenSince := halfOpenSince cb; halfOpenGen := halfOpenGen cb |}
      else
        {| config := config cb; state := StateHalfOpen; failures := failures cb;
           successes := succ; lastFailure := lastFailure cb;
           halfOpenReq := released gen release cb;
           halfOpenSince := halfOpenSince cb; halfOpenGen := halfOpenGen cb |}
  | StateOpen => cb
  end.

Definition recordFailure (now : Z) (gen : Z) (release : bool) (cb : CircuitBreaker)
  : CircuitBreaker :=
  if release && negb (gen =? halfOpenGen cb) then cb else
  match state cb with
  | StateClosed =>
      let f := failures cb + 1 in
      {| config := config cb;
         state := if MaxFailures (config cb) <=? f then StateOpen else StateClosed;
         failures := f; successes := successes cb; lastFailure := now;
         halfOpenReq := halfOpenReq cb; halfOpenSince := halfOpenSince cb;
         halfOpenGen := halfOpenGen cb |}
  | StateHalfOpen =>
      let f := failures cb + 1 in
      {| config := config cb;
         state := if FailureThreshold (config cb) <=? f then StateOpen else StateHalfOpen;
         failures := f; successes := successes cb; lastFailure := now;
         halfOpenReq := released gen release cb; halfOpenSince := halfOpenSince cb;
         halfOpenGen := halfOpenGen cb |}
  | StateOpen =>
      {| config := config cb; state := StateOpen; failures := failures cb;
         successes := successes cb; lastFailure := now; halfOpenReq := halfOpenReq cb;
         halfOpenSince := halfOpenSince cb; halfOpenGen := halfOpenGen cb |}
  end.

Definition RecordSuccess (cb : CircuitBreaker) : CircuitBreaker := recordSuccess 0 false cb.
Definition RecordFailure (now : Z) (cb : CircuitBreaker) : CircuitBreaker :=
  recordFailure now 0 false cb.

(** The three ways the wrapped function ends, and what [Execute] reports. *)
Inductive fn_outcome := FnOk | FnErr | FnPanic.
Inductive exec_result := ExecNil | ExecErr | ExecPanic | ErrCircuitOpen.

(** The completion half of [Execute]: a panic runs the deferred function. *)
Definition complete (now gen : Z) (o : fn_outcome) (cb : CircuitBreaker)
  : exec_result * CircuitBreaker :=
  match o with
  | FnOk => (ExecNil, recordSuccess gen true cb)
  | FnErr => (ExecErr, recordFailure now gen true cb)
  | FnPanic => (ExecPanic, recordFailure now gen true cb)
  end.

(** [Execute] with no other call in between: admission at [t0], the function,
    its completion at [t1]. *)
Definition Execute (t0 t1 : Z) (o : fn_outcome) (cb : CircuitBreaker)
  : exec_result * CircuitBreaker :=
  let '((ok, gen), cb') := allow t0 cb in
  if negb ok then (ErrCircuitOpen, cb') else complete t1 gen o cb'.

(** ** The manager *)
Abbreviation Manager := (gmap gostring CircuitBreaker).

Definition Get (name : gostring) (cfg : option Config) (m : Manager)
  : CircuitBreaker * Manager :=
  match m !! name with
  | Some cb => (cb, m)
  | None => let cb := New (default DefaultConfig cfg) in (cb, <[name := cb]> m)
  end.

Definition Remove (name : gostring) (m : Manager) : Manager := delete name m.

(** ** Interleaved executions *)

(** [inflight] holds the round id of every [Execute] whose function is still
    running. *)
Record sys := { breaker : CircuitBreaker; inflight : list Z }.

Definition current (s : sys) : list Z :=
  filter (fun g => g = halfOpenGen (breaker s)) (inflight s).

(** One critical section.  The id counter is below its maximum: one round
    starts per elapsed [Timeout] at most, so 2^64 of them are out of reach. *)
Inductive step : sys -> sys -> Prop :=
  | step_admit now cb fl gen cb' :
      halfOpenGen cb < max_uint64 ->
      allow now cb = ((true, gen), cb') ->
      step {| breaker := cb; inflight := fl |} {| breaker := cb'; inflight := gen :: fl |}
  | step_reject now cb fl gen cb' :
      allow now cb = ((false, gen), cb') ->
      step {| breaker := cb; inflight := fl |} {| breaker := cb'; inflight := fl |}
  | step_complete now o cb l1 gen l2 :
      step {| breaker := cb; inflight := l1 ++ gen :: l2 |}
           {| breaker := snd (complete now gen o cb); inflight := l1 ++ l2 |}
  | step_Allow now cb fl :
      halfOpenGen cb < max_uint64 ->
      step {| breaker := cb; inflight := fl |}
           {| breaker := snd (Allow now cb); inflight := fl |}
  | step_RecordSuccess cb fl :
      step {| breaker := cb; inflight := fl |}
           {| breaker := RecordSuccess cb; inflight := fl |}
  | step_RecordFailure now cb fl :
      step {| breaker := cb; inflight := fl |}
           {| breaker := RecordFailure now cb; inflight := fl |}.

Definition init (c : Config) : sys := {| breaker := New c; inflight := [] |}.

(** ** The invariant *)
Definition valid_config (c : Config) : Prop :=
  0 < MaxFailures c /\ 0 < Timeout c /\ 0 < SuccessThreshold c /\ 0 < FailureThreshold c.

(** Every counter is below the threshold that would have changed the state. *)
Definition cb_inv (cb : CircuitBreaker) : Prop :=
  valid_config (config cb) /\
  0 <= failures cb /\ 0 <= successes cb /\ 0 <= halfOpenGen cb <= max_uint64 /\
  match state cb with
  | StateClosed => failures cb < MaxFailures (config cb)
  | StateHalfOpen =>
      0 <= halfOpenReq cb <= SuccessThreshold (config cb) /\
      successes cb < SuccessThreshold (config cb) /\
      failures cb < FailureThreshold (config cb)
  | StateOpen => True
  end.

(** No call in flight carries an id that has not been issued yet, and in a
    half-open round every call of the round holds one of the counted slots. *)
Definition sys_inv (s : sys) : Prop :=
  cb_inv (breaker s) /\
  Forall (fun g => 0 <= g <= halfOpenGen (breaker s)) (inflight s) /\
  (state (breaker s) = StateHalfOpen ->
   Z.of_nat (length (current s)) <= halfOpenReq (breaker s)).

Lemma New_inv c : cb_inv (New c).
Proof.
  unfold cb_inv, valid_config, New, positive_or, DefaultConfig, second, max_uint64; simpl.
  repeat split_if; breflect; lia.
Qed.

Lemma startHalfOpenRound_inv now cb :
  cb_inv cb -> cb_inv (startHalfOpenRoundLocked now cb).
Proof.
  intros (Hc & _). unfold cb_inv, valid_config in *; simpl.
  pose proof (Z.mod_pos_bound (halfOpenGen cb + 1) (2 ^ 64) eq_refl).
  unfold wrap_u64, max_uint64. intuition lia.
Qed.

Lemma allowLocked_inv now cb : cb_inv cb -> cb_inv (snd (allowLocked now cb)).
Proof.
  intros H. unfold allowLocked.
  destruct (state cb) eqn:Es; repeat split_if; simpl; auto using startHalfOpenRound_inv.
  breflect. unfold cb_inv in *; simpl. rewrite Es in *. intuition lia.
Qed.

Lemma recordSuccess_inv gen release cb : cb_inv cb -> cb_inv (recordSuccess gen release cb).
Proof.
  intros H. unfold recordSuccess, released.
  destruct (state cb) eqn:Es; repeat split_if; auto;
    unfold cb_inv, valid_config in *; simpl; rewrite Es in *; breflect; intuition lia.
Qed.

Lemma recordFailure_inv now gen release cb :
  cb_inv cb -> cb_inv (recordFailure now gen release cb).
Proof.
  intros H. unfold recordFailure, released.
  destruct (state cb) eqn:Es; repeat split_if; auto;
    unfold cb_inv, valid_config in *; simpl; rewrite ?Es in *;
    repeat split_if; breflect; intuition lia.
Qed.

#[export] Hint Resolve New_inv startHalfOpenRound_inv allowLocked_inv recordSuccess_inv
  recordFailure_inv : umail.

Lemma complete_inv now gen o cb : cb_inv cb -> cb_inv (snd (complete now gen o cb)).
Proof. destruct o; simpl; auto with umail. Qed.

(** ** Round ids *)
Lemma allow_spec now cb ok gen cb' :
  allow now cb = ((ok, gen), cb') ->
  (ok, cb') = allowLocked now cb /\ gen = halfOpenGen cb'.
Proof. unfold allow. destruct (allowLocked now cb). intros; by simplify_eq. Qed.

(** An admission either starts a new round, whose id is fresh, or takes one
    more slot of the current one. *)
Lemma allowLocked_cases now cb :
  cb_inv cb -> halfOpenGen cb < max_uint64 ->
  let '(ok, cb') := allowLocked now cb in
  (halfOpenGen cb' = halfOpenGen cb /\ state cb' = state cb /\
     halfOpenReq cb' = halfOpenReq cb + (if ok && bool_decide (state cb = StateHalfOpen) then 1 else 0)) \/
  (ok = true /\ halfOpenGen cb' = halfOpenGen cb + 1 /\ state cb' = StateHalfOpen /\
     halfOpenReq cb' = 1).
Proof.
  intros (_ & _ & _ & Hg & _) Hlt. unfold allowLocked.
  assert (Hw : wrap_u64 (halfOpenGen cb + 1) = halfOpenGen cb + 1).
  { unfold wrap_u64, max_uint64 in *. apply Z.mod_small. lia. }
  destruct (state cb) eqn:Es; simpl; repeat split_if; simpl; rewrite ?Es; simpl;
    try (left; repeat split; lia); right; auto.
Qed.

Lemma record_gen now gen release cb :
  halfOpenGen (recordSuccess gen release cb) = halfOpenGen cb /\
  halfOpenGen (recordFailure now gen release cb) = halfOpenGen cb.
Proof.
  unfold recordSuccess, recordFailure.
  destruct (state cb); repeat split_if; auto.
Qed.

(** A completion never opens a half-open round, and takes away at most the slot
    of the call it completes. *)
Lemma record_slots now gen release cb cb' :
  cb' = recordSuccess gen release cb \/ cb' = recordFailure now gen release cb ->
  state cb' = StateHalfOpen ->
  state cb = StateHalfOpen /\
  halfOpenReq cb' >= halfOpenReq cb - (if release && (gen =? halfOpenGen cb) then 1 else 0) /\
  (release = false -> halfOpenReq cb' = halfOpenReq cb).
Proof.
  unfold recordSuccess, recordFailure, released.
  intros [-> | ->] H; destruct (state cb) eqn:Es; repeat split_if; simpl in *;
    rewrite ?Es in *; try discriminate; breflect; simplify_eq;
    repeat split; intros; simplify_eq/=; try lia;
    repeat split_if; simplify_eq/=; breflect; lia.
Qed.

Lemma filter_gt_nil (l : list Z) (g : Z) :
  Forall (fun x => 0 <= x <= g) l -> filter (fun x => x = g + 1) l = [].
Proof.
  induction 1 as [| x l Hx Hl IH]; [done |].
  rewrite filter_cons_False; [done | lia].
Qed.

(** ** Invariance *)
Lemma sys_inv_init c : sys_inv (init c).
Proof. split_and!; simpl; auto with umail. discriminate. Qed.

Lemma sys_inv_allowLocked now cb fl ok cb' :
  halfOpenGen cb < max_uint64 -> allowLocked now cb = (ok, cb') ->
  sys_inv {| breaker := cb; inflight := fl |} ->
  sys_inv {| breaker := cb'; inflight := fl |} /\
  (ok = true -> sys_inv {| breaker := cb'; inflight := halfOpenGen cb' :: fl |}).
Proof.
  intros Hlt Heq (Hi & Hf & Hc); simpl in *.
  pose proof (allowLocked_inv now cb Hi) as Hi'. rewrite Heq in Hi'; simpl in Hi'.
  pose proof (allowLocked_cases now cb Hi Hlt) as Hcase. rewrite Heq in Hcase.
  assert (Hgen : 0 <= halfOpenGen cb) by (destruct Hi as (_ & _ & _ & ? & _); lia).
  unfold sys_inv, current in *; simpl in *.
  destruct Hcase as [(Hg & Hs & Hr) | (-> & Hg & Hs & Hr)]; rewrite Hg, Hs, Hr.
  - split.
    + split_and!; auto. intros Hh. specialize (Hc Hh). split_if; lia.
    + intros ->. split_and!; auto; [constructor; [lia | done] |].
      intros Hh. specialize (Hc Hh). rewrite filter_cons_True by done. simpl.
      rewrite bool_decide_true by done. lia.
  - assert (Hf' : Forall (fun g => 0 <= g <= halfOpenGen cb + 1) fl).
    { eapply Forall_impl; [exact Hf | simpl; lia]. }
    split; [| intros _]; split_and!; auto.
    + intros _. rewrite filter_gt_nil by done. simpl. lia.
    + constructor; [lia | done].
    + intros _. rewrite filter_cons_True, filter_gt_nil by done. simpl. lia.
Qed.

Lemma sys_inv_record now gen cb fl (o : fn_outcome) l1 l2 :
  fl = l1 ++ gen :: l2 ->
  sys_inv {| breaker := cb; inflight := fl |} ->
  sys_inv {| breaker := snd (complete now gen o cb); inflight := l1 ++ l2 |}.
Proof.
  intros -> (Hi & Hf & Hc); simpl in *.
  assert (Hcb : snd (complete now gen o cb) = recordSuccess gen true cb \/
                snd (complete now gen o cb) = recordFailure now gen true cb)
    by (destruct o; auto).
  assert (Hg : halfOpenGen (snd (complete now gen o cb)) = halfOpenGen cb).
  { destruct o; simpl; apply (record_gen now). }
  apply Forall_app in Hf as [Hf1 Hf2]. inversion Hf2; subst.
  split_and!; simpl; auto using complete_inv.
  { rewrite Hg. by apply Forall_app. }
  intros Hs. destruct (record_slots now gen true cb _ Hcb Hs) as (Hh & Hr & _).
  specialize (Hc Hh). unfold current in *; simpl in *. rewrite Hg.
  rewrite filter_app, length_app in *. simpl in Hr.
  destruct (gen =? halfOpenGen cb) eqn:E; breflect.
  - rewrite filter_cons_True in Hc by done. simpl in Hc. lia.
  - rewrite filter_cons_False in Hc by done. lia.
Qed.

Lemma sys_inv_unpaired now cb fl cb' :
  cb' = RecordSuccess cb \/ cb' = RecordFailure now cb ->
  sys_inv {| breaker := cb; inflight := fl |} ->
  sys_inv {| breaker := cb'; inflight := fl |}.
Proof.
  intros Hcb (Hi & Hf & Hc); simpl in *.
  assert (Hg : halfOpenGen cb' = halfOpenGen cb)
    by (destruct Hcb as [-> | ->]; apply (record_gen now)).
  split_and!; simpl.
  - destruct Hcb as [-> | ->]; unfold RecordSuccess, RecordFailure; auto with umail.
  - by rewrite Hg.
  - intros Hs. destruct (record_slots now 0 false cb cb' Hcb Hs) as (Hh & _ & Hr).
    unfold current in *; simpl in *. rewrite Hg, Hr by done. auto.
Qed.

Lemma step_sys_inv s s' : sys_inv s -> step s s' -> sys_inv s'.
Proof.
  intros Hinv Hstep. destruct Hstep.
  - apply allow_spec in H0 as [Ha ->].
    eapply (sys_inv_allowLocked _ _ _ true); eauto.
  - apply allow_spec in H as [Ha ->].
    unfold allowLocked in Ha.
    assert (cb' = cb) as -> by (destruct (state cb); repeat split_if; by simplify_eq).
    done.
  - eapply sys_inv_record; eauto.
  - unfold Allow, allow. destruct (allowLocked now cb) as [ok cb'] eqn:Ha; simpl.
    eapply (sys_inv_allowLocked _ _ _ ok); eauto.
  - eapply (sys_inv_unpaired 0); eauto.
  - eapply sys_inv_unpaired; eauto.
Qed.

(** in every interleaving of calls of the breaker's API, however they
    overlap, the counters stay below the thresholds that would have changed the
    state, and a half-open round runs at most [SuccessThreshold] concurrent
    [Execute] probes: a straggler of an earlier round never frees or takes a
    slot of the current one. *)
Theorem cb_reachable_safe c s :
  star step (init c) s ->
  cb_inv (breaker s) /\
  (state (breaker s) = StateHalfOpen ->
   Z.of_nat (length (current s)) <= SuccessThreshold (config (breaker s))).
Proof.
  intros H.
  assert (Hs : sys_inv s).
  { eapply (star_invariant step sys_inv); eauto using sys_inv_init, step_sys_inv. }
  destruct Hs as (Hi & _ & Hc). split; [done |].
  intros Hh. specialize (Hc Hh). destruct Hi as (_ & _ & _ & _ & Hm).
  rewrite Hh in Hm. lia.
Qed.

(** A run that opens the default breaker with five failures, then admits the
    first probe of a half-open round thirty-one seconds later. *)
Definition opened : CircuitBreaker :=
  RecordFailure 0 (RecordFailure 0 (RecordFailure 0 (RecordFailure 0 (RecordFailure 0 NewDefault)))).
Definition probe_run : sys :=
  {| breaker := snd (Allow (31 * second) opened); inflight := [1] |}.

Lemma cb_reachable_safe_witness :
  state (breaker probe_run) = StateHalfOpen /\ length (current probe_run) = 1%nat /\
  cb_inv (breaker probe_run) /\
  Z.of_nat (length (current probe_run)) <= SuccessThreshold (config (breaker probe_run)).
Proof.
  assert (H : star step (init DefaultConfig) probe_run).
  { apply (star_snoc step _ {| breaker := opened; inflight := [] |}).
    - do 5 (eapply star_snoc; [| apply step_RecordFailure]). apply star_refl.
    - apply (step_admit (31 * second) opened [] 1); vm_compute; reflexivity. }
  split_and!; [reflexivity | reflexivity | apply (cb_reachable_safe _ _ H) |].
  apply (cb_reachable_safe _ _ H). reflexivity.
Defined.

(** ** Opening, rejecting, recovering *)

Lemma recordFailure_config now gen r cb : config (recordFailure now gen r cb) = config cb.
Proof. unfold recordFailure. destruct (state cb); repeat split_if; done. Qed.

(** Failures reported to a closed breaker, in order, with their times. *)
Definition record_failures (ts : list Z) (cb : CircuitBreaker) : CircuitBreaker :=
  fold_left (fun b t => RecordFailure t b) ts cb.

Lemma record_failures_open ts cb :
  state cb = StateOpen -> state (record_failures ts cb) = StateOpen.
Proof.
  revert cb. induction ts as [| t ts IH]; intros cb H; simpl; [done |].
  apply IH. unfold RecordFailure, recordFailure. by rewrite H.
Qed.

Lemma record_failures_closed ts cb :
  state cb = StateClosed -> failures cb < MaxFailures (config cb) ->
  state (record_failures ts cb) =
    (if MaxFailures (config cb) <=? failures cb + Z.of_nat (length ts)
     then StateOpen else StateClosed).
Proof.
  revert cb. induction ts as [| t ts IH]; intros cb Hs Hf; simpl record_failures.
  - simpl. rewrite Hs. split_if; breflect; [lia | done].
  - destruct (Z.leb_spec (MaxFailures (config cb)) (failures cb + 1)) as [Hle | Hgt].
    + rewrite record_failures_open.
      * simpl length. split_if; breflect; [done | lia].
      * unfold RecordFailure, recordFailure. rewrite Hs; simpl.
        by apply Z.leb_le in Hle as ->.
    + rewrite IH; unfold RecordFailure; rewrite ?recordFailure_config;
        unfold recordFailure; rewrite Hs; simpl.
      * by replace (failures cb + 1 + Z.of_nat (length ts))
          with (failures cb + Z.of_nat (S (length ts))) by lia.
      * by apply Z.leb_gt in Hgt as ->.
      * lia.
Qed.

(** a new breaker reports [StateOpen] after a run of failures exactly when
    the run is at least as long as the configured [MaxFailures] (or the default
    5 when that is not positive). *)
Theorem cb_opens_after_max_failures c ts :
  state (record_failures ts (New c)) = StateOpen <->
  positive_or (MaxFailures c) 5 <= Z.of_nat (length ts).
Proof.
  pose proof (New_inv c) as Hinv. unfold cb_inv in Hinv; simpl in Hinv.
  rewrite record_failures_closed; simpl; [| done | tauto].
  split_if; breflect; split; intros; try done; lia.
Qed.

Lemma recordSuccess_closes n cb t :
  state cb = StateHalfOpen -> valid_config (config cb) ->
  successes cb + Z.of_nat (S n) = SuccessThreshold (config cb) ->
  halfOpenReq cb < SuccessThreshold (config cb) ->
  0 <= halfOpenReq cb ->
  state (Nat.iter (S n) (fun b => snd (Execute t t FnOk b)) cb) = StateClosed /\
  failures (Nat.iter (S n) (fun b => snd (Execute t t FnOk b)) cb) = 0.
Proof.
  revert cb. induction n as [| n IH]; intros cb Hs Hv Hsum Hreq Hpos;
    rewrite Nat.iter_succ_r; unfold Execute, allow, allowLocked; rewrite Hs;
    apply Z.ltb_lt in Hreq as Hreq'; rewrite Hreq'; simpl;
    unfold recordSuccess; simpl; rewrite Z.eqb_refl, Hs; simpl.
  - destruct (Z.leb_spec (SuccessThreshold (config cb)) (successes cb + 1)); [done | lia].
  - destruct (Z.leb_spec (SuccessThreshold (config cb)) (successes cb + 1)); [lia |].
    apply IH; unfold released; simpl; rewrite ?Z.eqb_refl; simpl; auto; try lia;
      split_if; breflect; lia.
Qed.

(** recovery.  Once more than [Timeout] has passed since the last failure,
    an open breaker admits a probe, and [SuccessThreshold] calls of [Execute]
    that succeed one after the other close it with its failure count reset. *)
Theorem cb_recovers cb t :
  cb_inv cb -> state cb = StateOpen ->
  Timeout (config cb) < t - lastFailure cb <= max_int64 ->
  let n := Z.to_nat (SuccessThreshold (config cb)) in
  let cb' := Nat.iter n (fun b => snd (Execute t t FnOk b)) cb in
  fst (Execute t t FnOk cb) = ExecNil /\
  state cb' = StateClosed /\ failures cb' = 0.
Proof.
  intros Hinv Hs Ht n cb'.
  pose proof Hinv as ((_ & HT & HS & _) & _).
  assert (Hadm : allow t cb = ((true, halfOpenGen (startHalfOpenRoundLocked t cb)),
                               startHalfOpenRoundLocked t cb)).
  { unfold allow, allowLocked. rewrite Hs, time_sub_small by (unfold min_int64; lia).
    destruct (Z.ltb_spec (Timeout (config cb)) (t - lastFailure cb)); [done | lia]. }
  assert (H1 : Execute t t FnOk cb =
    (ExecNil, recordSuccess (halfOpenGen (startHalfOpenRoundLocked t cb)) true
                (startHalfOpenRoundLocked t cb))).
  { unfold Execute. by rewrite Hadm. }
  split; [by rewrite H1 |].
  unfold cb', n. destruct (Z.to_nat (SuccessThreshold (config cb))) as [| m] eqn:En; [lia |].
  rewrite Nat.iter_succ_r, H1. simpl snd. unfold recordSuccess. rewrite Z.eqb_refl. simpl.
  destruct m as [| m].
  - split_if; breflect; [done | lia].
  - split_if; breflect; [lia |].
    apply recordSuccess_closes; unfold released; simpl; rewrite ?Z.eqb_refl; simpl;
      auto; try lia. by destruct Hinv.
Qed.

Lemma cb_recovers_witness :
  state (Nat.iter 2 (fun b => snd (Execute (31 * second) (31 * second) FnOk b))
           opened) = StateClosed.
Proof.
  apply (cb_recovers opened (31 * second)).
  - repeat split; vm_compute; congruence.
  - reflexivity.
  - vm_compute. split; congruence.
Defined.

(** the breaker never wedges.  Whatever calls were made, and whatever
    half-open slots their callers never released, every breaker with a [Timeout]
    below the largest duration admits every request made late enough. *)
Theorem cb_never_wedges cb :
  cb_inv cb -> Timeout (config cb) < max_int64 ->
  exists T, forall now, T < now -> fst (Allow now cb) = true.
Proof.
  intros ((_ & HT & _) & _) Hmax.
  exists (Timeout (config cb) + Z.max (lastFailure cb) (halfOpenSince cb)).
  intros now Hnow. unfold Allow, allow, allowLocked.
  destruct (state cb); [done | |];
    rewrite time_sub_gt by (unfold min_int64; lia);
    match goal with |- context [?a <? now - ?b] =>
      destruct (Z.ltb_spec a (now - b)); [| lia] end; [done |].
  by split_if.
Qed.

Lemma cb_never_wedges_witness :
  exists T, forall now, T < now -> fst (Allow now (breaker probe_run)) = true.
Proof.
  apply (cb_never_wedges (breaker probe_run)); [| vm_compute; reflexivity].
  repeat split; vm_compute; congruence.
Defined.

(** ** The manager's table *)

(** A name keeps the breaker it was first created with: a later configuration
    is ignored until the name is removed. *)
Lemma Get_stable name c1 c2 m :
  let '(cb, m') := Get name c1 m in Get name c2 m' = (cb, m').
Proof.
  unfold Get. destruct (m !! name) eqn:E; [by rewrite E |].
  by rewrite lookup_insert_eq.
Qed.

Lemma Get_after_Remove name c m : fst (Get name c (Remove name m)) = New (default DefaultConfig c).
Proof. unfold Get, Remove. by rewrite lookup_delete_eq. Qed.
