(* ===== verification/Scram.v ===== *)
(** * internal/auth/scram.go: SCRAM-SHA-256 messages and keys

    SHA-256 and HMAC come from the language's library; they are the fields of the
    class [Crypto], with the lengths of their results as its laws.  A message is
    a list of [k=value] attributes; an error is [None] (the handlers do not look
    at the text). *)
From S2P Require Import Prelude GoLib Base64.

Class Crypto := {
  sha256 : gostring -> gostring;
  hmac : gostring -> gostring -> gostring;   (* key, message *)
  sha256_length m : length (sha256 m) = 32%nat;
  hmac_length k m : length (hmac k m) = 32%nat
}.

Definition byte_xor (a b : ascii) : ascii := byte_of (Z.lxor (bz a) (bz b)).

(** [result[i] = a[i] ^ b[i]]; [None] is the panic when [b] is shorter. *)
Fixpoint XORBytes (a b : gostring) : option gostring :=
  match a, b with
  | [], _ => Some []
  | x :: a', y :: b' => r ← XORBytes a' b'; Some (byte_xor x y :: r)
  | _ :: _, [] => None
  end.

Section Keys.
Context {C : Crypto}.

(** The loop of [Hi]: [n] further blocks, [u] the last one. *)
Fixpoint Hi_loop (password : gostring) (n : nat) (u result : gostring) : gostring :=
  match n with
  | O => result
  | S n => let u := hmac password u in
      Hi_loop password n u (zip_with byte_xor result u)
  end.
Definition Hi (password salt : gostring) (iterations : Z) : gostring :=
  let u := hmac password (salt ++ [byte_of 0; byte_of 0; byte_of 0; byte_of 1]) in
  Hi_loop password (Z.to_nat (iterations - 1)) u u.

Record SCRAMSHA256 := {
  salt : gostring; saltedPassword : gostring; storedKey : gostring; serverKey : gostring }.

Definition NewSCRAMSHA256 (password s : gostring) (iterations : Z) : SCRAMSHA256 :=
  let salted := Hi password s iterations in
  {| salt := s; saltedPassword := salted;
    storedKey := sha256 (hmac salted "Client Key"); serverKey := hmac salted "Server Key" |}.

Definition scramAuthMessage (clientFirstBare serverFirst clientFinalWithoutProof : gostring)
  : gostring := clientFirstBare ++ "," ++ serverFirst ++ "," ++ clientFinalWithoutProof.

Definition ServerSignature (key cfb sf cfwp : gostring) : gostring :=
  hmac key (scramAuthMessage cfb sf cfwp).
Definition ClientProof (key cfb sf cfwp : gostring) : gostring :=
  hmac key (scramAuthMessage cfb sf cfwp).
Definition ComputeSignatureKey (salted cfb sf cfwp : gostring) : gostring :=
  hmac (hmac salted "Server Key") (scramAuthMessage cfb sf cfwp).
End Keys.

(** ** Messages *)

(** The loop every parser starts with: the attributes by their letter, a later
    one replacing an earlier one, or an error. *)
Fixpoint scramAttrs (pairs : list gostring) (parts : gmap ascii gostring)
  : option (gmap ascii gostring) :=
  match pairs with
  | [] => Some parts
  | (k :: e :: val) :: r => if e =c? "=" then scramAttrs r (<[k := val]> parts) else None
  | _ :: r => scramAttrs r parts
  end.

Record SCRAMClientInitialMessage := {
  ciAuthzID : gostring; ciAuthCID : gostring; ciChannelBind : gostring; ciNonce : gostring }.
Record SCRAMServerFirstMessage := {
  sfSalt : gostring; sfNonce : gostring; sfIterations : Z }.
Record SCRAMClientFinalMessage := {
  cfChannelBind : gostring; cfNonce : gostring; cfClientProof : gostring }.

Definition BuildClientFirstMessage (authzID username channelBind nonce : gostring) : gostring :=
  (if channelBind =s? [] then "n" : gostring else "p=" ++ channelBind) ++ "," ++
  (if authzID =s? [] then [] else "a=" ++ authzID) ++ ",n=" ++ username ++ ",r=" ++ nonce.

Definition ParseClientFirstMessage (msg : gostring) : option SCRAMClientInitialMessage :=
  parts ← scramAttrs (Split msg ",") ∅;
  Some {| ciAuthzID := default [] (parts !! "a"%char); ciAuthCID := default [] (parts !! "n"%char);
          ciChannelBind := default [] (parts !! "c"%char); ciNonce := default [] (parts !! "r"%char) |}.

Definition BuildServerFirstMessage (nonce s : gostring) (iterations : Z) : gostring :=
  "r=" ++ nonce ++ ",s=" ++ encode StdEncoding s ++ ",i=" ++ FormatUint iterations.

Definition ParseServerFirstMessage (msg : gostring) : option SCRAMServerFirstMessage :=
  parts ← scramAttrs (Split msg ",") ∅;
  r ← parts !! "r"%char;
  s ← parts !! "s"%char;
  salt ← decode StdEncoding s;
  i ← parts !! "i"%char;
  match Atoi i with
  | Ok n => if n <? 1 then None else Some {| sfSalt := salt; sfNonce := r; sfIterations := n |}
  | Err _ => None
  end.

Definition BuildClientFinalMessage (channelBind nonce clientProof : gostring) : gostring :=
  "c=" ++ encode StdEncoding channelBind ++ ",r=" ++ nonce ++ ",p=" ++
  encode StdEncoding clientProof.

Definition ParseClientFinalMessage (msg : gostring) : option SCRAMClientFinalMessage :=
  parts ← scramAttrs (Split msg ",") ∅;
  c ← parts !! "c"%char;
  r ← parts !! "r"%char;
  p ← parts !! "p"%char;
  proof ← decode StdEncoding p;
  Some {| cfChannelBind := c; cfNonce := r; cfClientProof := proof |}.

Definition BuildServerFinalMessage (serverSignature : gostring) : gostring :=
  "v=" ++ encode StdEncoding serverSignature.

(** ** Lemmas *)
Lemma byte_xor_range a b : 0 <= Z.lxor (bz a) (bz b) < 256.
Proof.
  pose proof (bz_range a). pose proof (bz_range b).
  assert (Hn : 0 <= Z.lxor (bz a) (bz b)) by (apply Z.lxor_nonneg; lia).
  split; [done |]. destruct (decide (Z.lxor (bz a) (bz b) = 0)) as [-> | Hne]; [lia |].
  apply Z.log2_lt_cancel. eapply Z.le_lt_trans; [apply Z.log2_lxor; lia |].
  assert (forall z, 0 <= z < 256 -> Z.log2 z < Z.log2 256).
  { intros z Hz. destruct (decide (z = 0)) as [-> | ]; [done |].
    change (Z.log2 256) with 8. apply Z.log2_lt_pow2; lia. }
  apply Z.max_lub_lt; auto.
Qed.

Lemma byte_xor_cancel a b : byte_xor (byte_xor a b) b = a.
Proof.
  unfold byte_xor. rewrite bz_byte_of by apply byte_xor_range.
  by rewrite Z.lxor_assoc, Z.lxor_nilpotent, Z.lxor_0_r, byte_of_bz.
Qed.

(** Masking with a key of the same length and unmasking again. *)
Lemma XORBytes_cancel a k :
  length a = length k -> exists x, XORBytes a k = Some x /\ length x = length k /\
    XORBytes x k = Some a.
Proof.
  revert k. induction a as [| c a IH]; intros [| d k] H; simplify_eq/=; [by exists [] |].
  destruct (IH k H) as (x & Hx & Hl & Hk). rewrite Hx. exists (byte_xor c d :: x). simpl.
  by rewrite Hk, Hl, byte_xor_cancel.
Qed.

Lemma std_no_comma bs : ("," : ascii)%char ∉ encode StdEncoding bs.
Proof.
  intros H. destruct (encode_chars StdEncoding StdEncoding_valid bs _ H) as [Hc | Hc]; [| done].
  refine (bool_decide_unpack (","%char ∉ alphabet StdEncoding) _ Hc). vm_compute. exact I.
Qed.

Lemma digits_no_comma n : 0 <= n -> ("," : ascii)%char ∉ FormatUint n.
Proof.
  intros Hn H. pose proof (FormatUint_digits n Hn) as Hd.
  rewrite forallb_true_iff in Hd. by specialize (Hd _ H).
Qed.

(** ** Properties *)

Ltac no_comma :=
  repeat (apply Forall_cons_2 || apply Forall_nil_2); simpl;
  rewrite ?not_elem_of_cons, ?not_elem_of_nil; split_and?; try done;
  auto using std_no_comma.

(** The client-first message a client builds is parsed back into its user
    name, nonce and authorization identity, whatever the channel binding flag. *)
Lemma client_first_parse authz user cb nonce :
  (","%char ∉ authz) -> (","%char ∉ user) -> (","%char ∉ cb) -> (","%char ∉ nonce) ->
  ParseClientFirstMessage (BuildClientFirstMessage authz user cb nonce) =
    Some {| ciAuthzID := authz; ciAuthCID := user; ciChannelBind := []; ciNonce := nonce |}.
Proof.
  intros Ha Hu Hc Hn. unfold ParseClientFirstMessage.
  replace (BuildClientFirstMessage authz user cb nonce) with
    (Join [if cb =s? [] then "n" : gostring else "p=" ++ cb; if authz =s? [] then [] else "a=" ++ authz;
           "n=" ++ user; "r=" ++ nonce] [","%char])
    by (unfold BuildClientFirstMessage; simpl; by rewrite <-?app_assoc).
  rewrite Split_Join; [| done |]; repeat case_bool_decide; simplify_eq/=; try done; no_comma.
Qed.

Lemma server_first_roundtrip nonce s n :
  (","%char ∉ nonce) -> 1 <= n <= max_int64 ->
  ParseServerFirstMessage (BuildServerFirstMessage nonce s n) =
    Some {| sfSalt := s; sfNonce := nonce; sfIterations := n |}.
Proof.
  intros Hn Hi. unfold ParseServerFirstMessage.
  replace (BuildServerFirstMessage nonce s n) with
    (Join ["r=" ++ nonce; "s=" ++ encode StdEncoding s; "i=" ++ FormatUint n] [","%char])
    by (unfold BuildServerFirstMessage; simpl; by rewrite <-?app_assoc).
  rewrite Split_Join; [| done | no_comma; by apply digits_no_comma; lia].
  simplify_map_eq. rewrite decode_encode by apply StdEncoding_valid. simplify_map_eq.
  rewrite Atoi_FormatUint by lia. by destruct (Z.ltb_spec n 1); [lia |].
Qed.

Lemma client_final_roundtrip cb nonce proof :
  (","%char ∉ nonce) ->
  ParseClientFinalMessage (BuildClientFinalMessage cb nonce proof) =
    Some {| cfChannelBind := encode StdEncoding cb; cfNonce := nonce; cfClientProof := proof |}.
Proof.
  intros Hn. unfold ParseClientFinalMessage.
  replace (BuildClientFinalMessage cb nonce proof) with
    (Join ["c=" ++ encode StdEncoding cb; "r=" ++ nonce; "p=" ++ encode StdEncoding proof] [","%char])
    by (unfold BuildClientFinalMessage; simpl; by rewrite <-?app_assoc).
  rewrite Split_Join; [| done | no_comma].
  simplify_map_eq. by rewrite decode_encode by apply StdEncoding_valid.
Qed.

(** ** A stand-in for witnesses

    Not a hash: it has the lengths SHA-256 has. *)
Definition pad32 (s : gostring) : gostring := take 32 (s ++ repeat (byte_of 0) 32).
Lemma pad32_length s : length (pad32 s) = 32%nat.
Proof. unfold pad32. rewrite length_take, length_app, repeat_length. lia. Qed.
Definition toy_crypto : Crypto := {|
  sha256 := pad32; hmac := fun k m => pad32 (k ++ m);
  sha256_length := pad32_length; hmac_length := fun k m => pad32_length (k ++ m) |}.
