(* ===== verification/SmtpData.v ===== *)
(** * internal/smtp: reading message content off the connection

    [readBoundedLine], [readData] and the content checks BDAT shares with it
    (session.go).  A connection is the byte string the peer sends before its
    stream ends or times out; a reader returns what it read and the bytes that
    are left, so that "the rest is executed as commands" is visible. *)
From S2P Require Import Prelude GoLib.

Abbreviation CR := (ascii_of_nat 13).
Abbreviation LF := (ascii_of_nat 10).
Abbreviation NUL := (ascii_of_nat 0).
Definition CRLF : gostring := [CR; LF].

(** How a read past the last byte fails. *)
Inductive read_error := ReadEOF | ReadTimeout.

(** ** bufio.Reader.ReadSlice *)

(** The bytes up to and including the first LF, and the rest. *)
Fixpoint split_line (s : gostring) : option (gostring * gostring) :=
  match s with
  | [] => None
  | c :: s' =>
      if c =c? LF then Some ([c], s')
      else '(l, r) ← split_line s'; Some (c :: l, r)
  end.

Inductive slice :=
  | SliceLine (chunk rest : gostring)      (* nil error *)
  | SliceFull (chunk rest : gostring)      (* bufio.ErrBufferFull *)
  | SliceErr.

(** A reader with a [size] byte buffer finds the line if it fits, and hands out
    a full buffer otherwise. *)
Definition ReadSlice (size : nat) (s : gostring) : slice :=
  match split_line (take size s) with
  | Some (l, _) => SliceLine l (drop (length l) s)
  | None => if (length s <? size)%nat then SliceErr
            else SliceFull (take size s) (drop size s)
  end.

Section Reader.
(** The buffer size of the session's reader and how its stream ends. *)
Context (bufsize : nat) (stream_end : read_error).

Fixpoint readBoundedLine_go (fuel : nat) (keep : nat) (line : gostring) (total : Z)
  (prev : ascii) (s : gostring) : result read_error (gostring * Z * bool) * gostring :=
  match fuel with
  | O => (Err stream_end, [])
  | S f =>
      match ReadSlice bufsize s with
      | SliceErr => (Err stream_end, [])
      | SliceLine chunk rest =>
          let line := line ++ take (keep - length line) chunk in
          let n := length chunk in
          let endsCRLF :=
          ((2 <=? n)%nat && match chunk !! (n - 2)%nat with Some c => c =c? CR | None => false end)
          || ((n =? 1)%nat && (prev =c? CR)) in
          (Ok (line, total + Z.of_nat n, endsCRLF), rest)
      | SliceFull chunk rest =>
          readBoundedLine_go f keep (line ++ take (keep - length line) chunk)
          (total + Z.of_nat (length chunk)) (default prev (last chunk)) rest
      end
  end.

(** Every round of the loop consumes a full buffer, so the number of bytes
    bounds the rounds. *)
Definition readBoundedLine (keep : nat) (s : gostring)
  : result read_error (gostring * Z * bool) * gostring :=
  readBoundedLine_go (S (length s)) keep [] 0 NUL s.

(** ** Content checks *)
Fixpoint hasBareCR (line : gostring) : bool :=
  match line with
  | [] => false
  | b :: t =>
      ((b =c? CR) && negb (match t with c :: _ => c =c? LF | [] => false end)) || hasBareCR t
  end.

Definition maxLineLength : Z := 1000.

Inductive data_error :=
  | DRead (e : read_error)
  | DSessionBytes
  | DLineTooLong
  | DNullByte
  | DBareCR
  | DTooLarge.

(** [bytesIn rest]: the octets the session has read off the connection when
    [rest] is still to be handed out (the buffered reader reads ahead). *)
Context (maxMessageSize maxSessionBytes : Z) (bytesIn : gostring -> Z).

(** A line without its final LF, or with the CR it lacks put before it. *)
Definition normalizeLine (line : gostring) : gostring :=
  match rev line with
  | c :: rl =>
      if (c =c? LF) && negb (match rl with d :: _ => d =c? CR | [] => false end)
      then rev rl ++ CRLF else line
  | [] => line
  end.

Fixpoint readData_go (fuel : nat) (atLineStart : bool) (contentErr : option data_error)
  (data : gostring) (s : gostring) : result data_error gostring * gostring :=
  match fuel with
  | O => (Err (DRead stream_end), [])
  | S f =>
      match readBoundedLine (Z.to_nat (maxLineLength + 1)) s with
      | (Err e, rest) => (Err (DRead e), rest)
      | (Ok (line, total, endsCRLF), rest) =>
          if maxSessionBytes <? bytesIn rest then (Err DSessionBytes, rest) else
          let dotLine := atLineStart && HasPrefix line "." in
          let atLineStart := endsCRLF in
          if dotLine && (total =? 3) &&
          match line !! 1%nat with Some c => c =c? CR | None => false end &&
          match line !! 2%nat with Some c => c =c? LF | None => false end
          then (match contentErr with Some e => Err e | None => Ok data end, rest)
          else
          match contentErr with
          | Some _ => readData_go f atLineStart contentErr data rest
          | None =>
              let lineLength := if dotLine then total - 1 else total in
              if maxLineLength <? lineLength
              then readData_go f atLineStart (Some DLineTooLong) data rest
              else if ContainsByte line NUL
              then readData_go f atLineStart (Some DNullByte) data rest
              else if hasBareCR line
              then readData_go f atLineStart (Some DBareCR) data rest
              else
              let line := if dotLine then drop 1 line else line in
              let data := data ++ normalizeLine line in
              if maxMessageSize <? Z.of_nat (length data)
              then readData_go f atLineStart (Some DTooLarge) [] rest
              else readData_go f atLineStart None data rest
          end
      end
  end.

(** Every line has at least one byte, so the bytes bound the lines. *)
Definition readData (s : gostring) : result data_error gostring * gostring :=
  readData_go (S (length s)) true None [] s.

Fixpoint hasOverlongLine_go (fuel : nat) (data : gostring) : bool :=
  match fuel, data with
  | S f, _ :: _ =>
      let n := match IndexByte data LF with Some i => S i | None => length data end in
      if (1000 <? Z.of_nat n) then true else hasOverlongLine_go f (drop n data)
  | _, _ => false
  end.
Definition hasOverlongLine (data : gostring) : bool := hasOverlongLine_go (length data) data.

(** [prev] is the byte before, if any. *)
Fixpoint normalizeBareLF_go (prev : option ascii) (data : gostring) : gostring :=
  match data with
  | [] => []
  | b :: t =>
      (if (b =c? LF) && negb (match prev with Some p => p =c? CR | None => false end)
        then CRLF else [b]) ++ normalizeBareLF_go (Some b) t
  end.
Definition normalizeBareLF (data : gostring) : gostring := normalizeBareLF_go None data.
End Reader.

(** ** Lines *)
Definition ends_crlf (l : gostring) : bool := HasSuffix l CRLF.

Lemma split_line_Some s l r :
  split_line s = Some (l, r) -> s = l ++ r /\ exists q, l = q ++ [LF] /\ LF ∉ q.
Proof.
  revert l r. induction s as [| c s IH]; intros l r H; simpl in H; [done |].
  destruct (c =c? LF) eqn:E; breflect; simplify_eq.
  - split; [done |]. exists []. set_solver.
  - destruct (split_line s) as [[l' r'] |] eqn:Es; simplify_eq/=.
    destruct (IH l' r eq_refl) as (-> & q & -> & Hq).
    split; [done |]. exists (c :: q). set_solver.
Qed.

Lemma split_line_app q r : LF ∉ q -> split_line (q ++ LF :: r) = Some (q ++ [LF], r).
Proof.
  induction q as [| c q IH]; intros H; simpl; [done |].
  destruct (c =c? LF) eqn:E; breflect; [set_solver |].
  rewrite IH by set_solver. done.
Qed.

Lemma split_line_None s : split_line s = None <-> LF ∉ s.
Proof.
  induction s as [| c s IH]; simpl; [set_solver |].
  destruct (c =c? LF) eqn:E; breflect.
  - split; [done | set_solver].
  - destruct (split_line s) as [[??] |] eqn:Es; simpl; [| set_solver].
    split; [done |]. intros H. exfalso.
    assert (LF ∉ s) by set_solver. naive_solver.
Qed.

Lemma ends_crlf_true l : ends_crlf l = true <-> exists q, l = q ++ CRLF.
Proof.
  unfold ends_crlf, HasSuffix. rewrite HasPrefix_true. split.
  - intros [r H]. exists (rev r). apply (f_equal (@rev ascii)) in H.
    rewrite rev_involutive, rev_app_distr in H. done.
  - intros [q ->]. exists (rev q). by rewrite rev_app_distr.
Qed.

Lemma ends_crlf_LF q :
  ends_crlf (q ++ [LF]) = match last q with Some c => c =c? CR | None => false end.
Proof.
  unfold ends_crlf, HasSuffix, CRLF. rewrite rev_app_distr. simpl.
  destruct q as [| c q] using rev_ind; [done |].
  rewrite last_snoc, rev_app_distr. simpl.
  rewrite andb_true_r. destruct (Ascii.eqb_spec CR c), (Ascii.eqb_spec c CR); congruence.
Qed.

(** ** C5 material: the bounded reader against a reader of whole lines *)
Section ReaderLemmas.
Context (bufsize : nat) (stream_end : read_error) (Hbuf : (0 < bufsize)%nat).

(** What a reader with an unbounded buffer would report. *)
Definition read_line (keep : nat) (s : gostring)
  : result read_error (gostring * Z * bool) * gostring :=
  match split_line s with
  | Some (l, r) => (Ok (take keep l, Z.of_nat (length l), ends_crlf l), r)
  | None => (Err stream_end, [])
  end.

Lemma ReadSlice_spec s :
  ReadSlice bufsize s =
  match split_line s with
  | Some (l, r) =>
      if (length l <=? bufsize)%nat then SliceLine l r
      else SliceFull (take bufsize s) (drop bufsize s)
  | None => if (length s <? bufsize)%nat then SliceErr
      else SliceFull (take bufsize s) (drop bufsize s)
  end.
Proof.
  unfold ReadSlice.
  destruct (split_line s) as [[l r] |] eqn:E.
  - apply split_line_Some in E as (-> & q & -> & Hq).
    destruct (Nat.leb_spec (length (q ++ [LF])) bufsize) as [Hle | Hgt].
    + rewrite take_app_ge, <-app_assoc by done. simpl.
      rewrite split_line_app, drop_app_length by done. done.
    + assert (Hn : split_line (take bufsize ((q ++ [LF]) ++ r)) = None).
      { apply split_line_None. rewrite length_app in Hgt; simpl in Hgt.
        rewrite <-app_assoc, take_app_le by lia.
        intros H. apply Hq. by eapply elem_of_take_sub. }
      rewrite Hn. destruct (Nat.ltb_spec (length ((q ++ [LF]) ++ r)) bufsize); [| done].
      rewrite !length_app in *. lia.
  - assert (Hn : split_line (take bufsize s) = None).
    { apply split_line_None. apply split_line_None in E.
      intros H. apply E. by eapply elem_of_take_sub. }
    by rewrite Hn.
Qed.

(** The line flag of the last chunk, given the bytes [p] read before it. *)
Lemma chunk_ends_crlf p q :
  (((2 <=? length (q ++ [LF]))%nat &&
    match (q ++ [LF]) !! (length (q ++ [LF]) - 2)%nat with Some c => c =c? CR | None => false end)
    || ((length (q ++ [LF]) =? 1)%nat && (default NUL (last p) =c? CR)))
  = ends_crlf (p ++ q ++ [LF]).
Proof.
  rewrite app_assoc, ends_crlf_LF.
  destruct q as [| c q] using rev_ind.
  - rewrite app_nil_r. simpl. by destruct (last p).
  - replace (length ((q ++ [c]) ++ [LF])) with (S (S (length q)))
      by (rewrite !length_app; simpl; lia).
    replace (S (S (length q)) - 2)%nat with (length q) by lia.
    rewrite lookup_app_l, lookup_app_r, Nat.sub_diag by (rewrite ?length_app; simpl; lia).
    simpl. by rewrite app_assoc, last_snoc, orb_false_r.
Qed.

Lemma take_app_room (keep : nat) (p chunk : gostring) :
  take keep p ++ take (keep - length (take keep p)) chunk = take keep (p ++ chunk).
Proof.
  rewrite length_take, take_app. f_equal.
  destruct (Nat.le_gt_cases (length p) keep); [by rewrite Nat.min_r by lia |].
  rewrite Nat.min_l by lia. by rewrite Nat.sub_diag, (proj2 (Nat.sub_0_le _ _)) by lia.
Qed.

Lemma readBoundedLine_go_spec fuel keep p s :
  LF ∉ p -> (length s < fuel)%nat ->
  readBoundedLine_go bufsize stream_end fuel keep (take keep p) (Z.of_nat (length p))
  (default NUL (last p)) s =
  match split_line s with
  | Some (l, r) => (Ok (take keep (p ++ l), Z.of_nat (length (p ++ l)), ends_crlf (p ++ l)), r)
  | None => (Err stream_end, [])
  end.
Proof.
  revert p s. induction fuel as [| fuel IH]; intros p s Hp Hlen; [lia |].
  cbn [readBoundedLine_go]. rewrite ReadSlice_spec.
  assert (Hfull : (bufsize <= length s)%nat -> LF ∉ take bufsize s ->
    readBoundedLine_go bufsize stream_end fuel keep
    (take keep p ++ take (keep - length (take keep p)) (take bufsize s))
    (Z.of_nat (length p) + Z.of_nat (length (take bufsize s)))
    (default (default NUL (last p)) (last (take bufsize s))) (drop bufsize s) =
    match split_line (drop bufsize s) with
    | Some (l, r) => (Ok (take keep ((p ++ take bufsize s) ++ l),
    Z.of_nat (length ((p ++ take bufsize s) ++ l)), ends_crlf ((p ++ take bufsize s) ++ l)), r)
    | None => (Err stream_end, [])
    end).
  { intros Hs Hnl. rewrite <-IH, take_app_room, length_app, Nat2Z.inj_add.
    - f_equal. destruct (last_is_Some (take bufsize s)) as [_ [c Hc]].
      { intros H. apply (f_equal length) in H. rewrite length_take in H. simpl in H. lia. }
      by rewrite last_app, Hc.
    - set_solver.
    - rewrite length_drop. lia. }
  destruct (split_line s) as [[l r] |] eqn:E.
  - apply split_line_Some in E as (-> & q & -> & Hq).
    destruct (Nat.leb_spec (length (q ++ [LF])) bufsize) as [Hle | Hgt].
    + by rewrite chunk_ends_crlf, take_app_room, (length_app p), Nat2Z.inj_add.
    + rewrite length_app in Hgt; simpl in Hgt.
      rewrite Hfull; [| rewrite !length_app; simpl; lia |].
      * rewrite <-app_assoc, take_app_le, drop_app_le by lia. simpl.
        rewrite split_line_app by (intros Hin; apply Hq; rewrite <-(take_drop bufsize q); set_solver).
        rewrite <-(app_assoc p), !(app_assoc (take bufsize q)), take_drop. done.
      * rewrite <-app_assoc, take_app_le by lia.
        intros Hin. apply Hq. by eapply elem_of_take_sub.
  - apply split_line_None in E.
    destruct (Nat.ltb_spec (length s) bufsize); [done |].
    rewrite Hfull; [| done | intros Hin; apply E; by eapply elem_of_take_sub].
    assert (split_line (drop bufsize s) = None) as ->; [| done].
    apply split_line_None. intros Hin. apply E. rewrite <-(take_drop bufsize s). set_solver.
Qed.
End ReaderLemmas.

Lemma readBoundedLine_eq bufsize stream_end keep s :
  (0 < bufsize)%nat ->
  readBoundedLine bufsize stream_end keep s = read_line stream_end keep s.
Proof.
  intros Hb. unfold readBoundedLine, read_line.
  rewrite <-(take_nil keep) at 1.
  change 0 with (Z.of_nat (length (@nil ascii))).
  change NUL with (default NUL (last (@nil ascii))).
  rewrite readBoundedLine_go_spec by (done || set_solver || lia). done.
Qed.

(** for every buffer size, [readBoundedLine] returns what a reader with an
    unbounded buffer would: the first [keep] bytes of the line, its full length
    and whether it ends in CRLF, even when CR and LF fall in different chunks;
    and it leaves exactly the bytes after the line. *)
Theorem readBoundedLine_whole_line bufsize stream_end keep s :
  (0 < bufsize)%nat ->
  readBoundedLine bufsize stream_end keep s = read_line stream_end keep s.
Proof. apply readBoundedLine_eq. Qed.

Lemma readBoundedLine_whole_line_witness :
  readBoundedLine 2 ReadEOF 3 ("ab" ++ CRLF ++ "QUIT") = (Ok ("ab" ++ [CR], 4, true), "QUIT" : gostring).
Proof.
  rewrite (readBoundedLine_whole_line 2 ReadEOF 3 ("ab" ++ CRLF ++ "QUIT")); [reflexivity | lia].
Defined.

(** ** The end of the message *)
Section Data.
Context (bufsize : nat) (stream_end : read_error) (Hbuf : (0 < bufsize)%nat).
Context (maxMessageSize maxSessionBytes : Z) (bytesIn : gostring -> Z).

Definition dotCRLF : gostring := "." ++ CRLF.

Abbreviation go := (readData_go bufsize stream_end maxMessageSize maxSessionBytes bytesIn).

(** The end-of-data test of the loop, on the whole line. *)
Lemma eod_test (at_ : bool) (q : gostring) :
  let l := q ++ [LF] in
  let line := take (Z.to_nat (maxLineLength + 1)) l in
  (at_ && HasPrefix line "." && (Z.of_nat (length l) =? 3) &&
    match line !! 1%nat with Some c => c =c? CR | None => false end &&
    match line !! 2%nat with Some c => c =c? LF | None => false end)
  = at_ && bool_decide (l = dotCRLF).
Proof.
  intros l line. destruct at_; [simpl | done].
  apply eq_true_iff_eq. rewrite bool_decide_eq_true. split.
  - intros H. breflect. unfold line, l in *.
    destruct q as [| a [| b [| c q]]]; simpl in *; simplify_eq; try discriminate.
    2: { rewrite length_app in *; simpl in *; lia. }
    unfold maxLineLength in *. simpl in *. breflect; subst. done.
  - intros ->. done.
Qed.

Definition content_error (e : option data_error) : Prop :=
  match e with
  | None => True
  | Some (DRead _) | Some DSessionBytes => False
  | Some _ => True
  end.

(** One round of the loop: stop at the end of the stream, at the byte limit or
    at the end-of-data line, and otherwise go on with the rest, at the start of
    a line exactly if this line ended in CRLF. *)
Lemma readData_round fuel at_ ce data s :
  content_error ce ->
  match split_line s with
  | None => go (S fuel) at_ ce data s = (Err (DRead stream_end), [])
  | Some (l, r) =>
      if maxSessionBytes <? bytesIn r
      then go (S fuel) at_ ce data s = (Err DSessionBytes, r)
      else if at_ && bool_decide (l = dotCRLF)
      then go (S fuel) at_ ce data s =
      (match ce with Some e => Err e | None => Ok data end, r)
      else exists ce' data', content_error ce' /\
      go (S fuel) at_ ce data s = go fuel (ends_crlf l) ce' data' r
  end.
Proof.
  intros Hce. cbn [readData_go]. rewrite readBoundedLine_eq by done.
  unfold read_line. destruct (split_line s) as [[l r] |] eqn:E; [| done].
  destruct (maxSessionBytes <? bytesIn r); [done |].
  apply split_line_Some in E as (_ & q & -> & _).
  rewrite eod_test.
  destruct (at_ && bool_decide (q ++ [LF] = dotCRLF)); [done |].
  destruct ce as [e |]; [by exists (Some e), data |].
  repeat match goal with |- context [if ?b then go _ _ _ _ _ else _] => destruct b end;
    eexists _, _; (split; [| reflexivity]); done.
Qed.

(** [rest] follows an end-of-data indicator that [pre] puts at the start of a
    line, i.e. after CRLF or at the very start. *)
Definition data_end_at (at_ : bool) (s pre rest : gostring) : Prop :=
  s = pre ++ dotCRLF ++ rest /\ ((pre = [] /\ at_ = true) \/ exists q, pre = q ++ CRLF).
Definition data_end (s pre rest : gostring) : Prop := data_end_at true s pre rest.

Lemma prefix_of_line q r pre t :
  LF ∉ q -> LF ∈ pre -> q ++ LF :: r = pre ++ t -> exists pre', pre = (q ++ [LF]) ++ pre'.
Proof.
  intros Hq Hpre Heq.
  assert (Hs : split_line pre <> None) by (rewrite split_line_None; tauto).
  destruct (split_line pre) as [[l k] |] eqn:E; [| done].
  apply split_line_Some in E as (-> & q' & -> & Hq').
  pose proof (split_line_app q r Hq) as H1. rewrite Heq, <-!app_assoc in H1.
  simpl in H1. rewrite split_line_app in H1 by done. injection H1 as -> _. by exists k.
Qed.

Lemma data_end_at_line at_ q r pre rest :
  LF ∉ q -> (at_ && bool_decide (q ++ [LF] = dotCRLF)) = false ->
  data_end_at at_ ((q ++ [LF]) ++ r) pre rest <->
  exists pre', pre = (q ++ [LF]) ++ pre' /\ data_end_at (ends_crlf (q ++ [LF])) r pre' rest.
Proof.
  intros Hq Hne. split.
  - intros [Heq Hpre]. destruct Hpre as [[-> ->] | [q' ->]].
    + exfalso. simpl in *. breflect. apply Hne.
      pose proof (split_line_app q r Hq) as H1. rewrite <-app_assoc in Heq; simpl in Heq.
      rewrite Heq in H1. change (Some (dotCRLF, rest) = Some (q ++ [LF], r)) in H1.
      by injection H1.
    + rewrite <-app_assoc in Heq; simpl in Heq.
      destruct (prefix_of_line q r (q' ++ CRLF) (dotCRLF ++ rest)) as [pre' Hp];
        [done | unfold CRLF; set_solver | done |].
      exists pre'. split; [done |].
      rewrite Hp, <-!app_assoc in Heq. simpl in Heq.
      apply app_inv_head in Heq. simplify_eq. split; [done |].
      destruct pre' as [| a pre' _] using rev_ind.
      { left. split; [done |]. rewrite app_nil_r in Hp. apply ends_crlf_true. eauto. }
      right. unfold CRLF in Hp. rewrite app_assoc in Hp.
      change (q' ++ [CR; LF]) with (q' ++ [CR] ++ [LF]) in Hp. rewrite app_assoc in Hp.
      apply app_inj_tail in Hp as [Hp <-].
      destruct pre' as [| b pre' _] using rev_ind.
      { rewrite app_nil_r in Hp. apply app_inj_tail in Hp as [_ Hp]. discriminate. }
      rewrite app_assoc in Hp. apply app_inj_tail in Hp as [_ <-].
      exists pre'. by rewrite <-app_assoc.
  - intros (pre' & -> & -> & H). split; [by rewrite !app_assoc |].
    right. destruct H as [[-> H] | [q' ->]].
    + rewrite app_nil_r. by apply ends_crlf_true in H.
    + exists ((q ++ [LF]) ++ q'). by rewrite app_assoc.
Qed.

Lemma readData_go_boundary fuel at_ ce data s :
  content_error ce -> (length s < fuel)%nat ->
  (forall r, bytesIn r <= maxSessionBytes) ->
  match go fuel at_ ce data s with
  | (Err (DRead _), _) => forall pre rest, ~ data_end_at at_ s pre rest
  | (_, rest) =>
      exists pre, data_end_at at_ s pre rest /\
      forall pre' rest', data_end_at at_ s pre' rest' -> (length pre <= length pre')%nat
  end.
Proof.
  intros Hce Hlen Hby. revert at_ ce data s Hce Hlen.
  induction fuel as [| fuel IH]; intros at_ ce data s Hce Hlen; [lia |].
  pose proof (readData_round fuel at_ ce data s Hce) as Hround.
  destruct (split_line s) as [[l r] |] eqn:Es; cycle 1.
  { rewrite Hround. apply split_line_None in Es.
    intros pre rest [-> _]. apply Es. unfold dotCRLF, CRLF. set_solver. }
  apply split_line_Some in Es as (-> & q & -> & Hq).
  destruct (Z.ltb_spec maxSessionBytes (bytesIn r)); [specialize (Hby r); lia |].
  destruct (at_ && bool_decide (q ++ [LF] = dotCRLF)) eqn:Eeod.
  - rewrite Hround. breflect. destruct ce as [[] |]; simpl in Hce; try done;
      (exists []; split; [split; [by rewrite <-H1 | auto] | simpl; lia]).
  - destruct Hround as (ce' & data' & Hce' & ->).
    specialize (IH (ends_crlf (q ++ [LF])) ce' data' r Hce').
    rewrite !length_app in Hlen; simpl in Hlen.
    specialize (IH ltac:(lia)).
    assert (Hfound : forall rest,
      (exists pre, data_end_at (ends_crlf (q ++ [LF])) r pre rest /\
      forall pre' rest', data_end_at (ends_crlf (q ++ [LF])) r pre' rest' ->
      (length pre <= length pre')%nat) ->
      exists pre, data_end_at at_ ((q ++ [LF]) ++ r) pre rest /\
      forall pre' rest', data_end_at at_ ((q ++ [LF]) ++ r) pre' rest' ->
      (length pre <= length pre')%nat).
    { intros rest (pre & Hend & Hmin). exists ((q ++ [LF]) ++ pre). split.
      - apply data_end_at_line; eauto.
      - intros pre' rest' H'. apply data_end_at_line in H' as (p' & -> & H'); [| done..].
        apply Hmin in H'. rewrite !length_app in *. lia. }
    destruct (go fuel (ends_crlf (q ++ [LF])) ce' data' r) as [[a | e] rest];
      [by apply Hfound |].
    destruct e; try (by apply Hfound).
    intros pre rest' H'. apply data_end_at_line in H' as (p' & -> & H'); [| done..].
    by apply IH in H'.
Qed.
End Data.

(** C28: no SMTP smuggling.  While the session is within its byte limit,
    [readData] stops exactly behind the first [<CRLF>.<CRLF>] (or [.<CRLF>] at
    the very start): whatever the message contains, an over-long line, a NUL, a
    bare CR or too many bytes included, no earlier byte string ends the message
    and no byte of it is left to be executed as a command; and it fails for want
    of input only if the stream has no such indicator. *)
Theorem readData_stops_at_first_end bufsize stream_end maxMessageSize maxSessionBytes bytesIn s :
  (0 < bufsize)%nat -> (forall r, bytesIn r <= maxSessionBytes) ->
  match readData bufsize stream_end maxMessageSize maxSessionBytes bytesIn s with
  | (Err (DRead _), _) => forall pre rest, ~ data_end s pre rest
  | (_, rest) =>
      exists pre, data_end s pre rest /\
        forall pre' rest', data_end s pre' rest' -> (length pre <= length pre')%nat
  end.
Proof. intros Hb Hby. apply readData_go_boundary; simpl; auto; lia. Qed.

Definition smuggled : gostring :=
  "a" ++ [LF] ++ "." ++ CRLF ++ "MAIL" ++ [CR] ++ "x" ++ CRLF ++ "." ++ CRLF ++ "QUIT".

Lemma readData_stops_at_first_end_witness :
  match readData 16 ReadEOF 100 1000 (fun _ => 0) smuggled with
  | (Err (DRead _), _) => False
  | (_, rest) => rest = "QUIT" /\
      exists pre, data_end smuggled pre rest /\
        forall pre' rest', data_end smuggled pre' rest' -> (length pre <= length pre')%nat
  end.
Proof.
  pose proof (readData_stops_at_first_end 16 ReadEOF 100 1000 (fun _ => 0) smuggled
    ltac:(lia) (fun _ => ltac:(lia))) as H.
  destruct (readData 16 ReadEOF 100 1000 (fun _ => 0) smuggled) as [res rest] eqn:E.
  vm_compute in E. injection E as <- <-. split; [reflexivity | exact H].
Defined.

(** ** Transparency: what the client sends is what is stored *)

(** A line of an RFC 5322 message, without its CRLF. *)
Definition text_line (l : gostring) : Prop :=
  (CR ∉ l) /\ (LF ∉ l) /\ (NUL ∉ l) /\ Z.of_nat (length l) <= maxLineLength - 2.

#[export] Instance text_line_dec l : Decision (text_line l).
Proof. unfold text_line. apply _. Defined.

Definition message (ls : list gostring) : gostring := concat (map (fun l => l ++ CRLF) ls).

(** RFC 5321 4.5.2: the sender doubles a leading dot. *)
Definition dot_stuff (l : gostring) : gostring := if HasPrefix l "." then "." ++ l else l.
Definition wire (ls : list gostring) : gostring := message (map dot_stuff ls) ++ "." ++ CRLF.

Lemma message_cons l ls : message (l :: ls) = (l ++ CRLF) ++ message ls.
Proof. done. Qed.

Lemma wire_cons l ls rest : wire (l :: ls) ++ rest = (dot_stuff l ++ CRLF) ++ (wire ls ++ rest).
Proof. unfold wire. simpl map. by rewrite message_cons, <-!app_assoc. Qed.

Lemma hasBareCR_text l : CR ∉ l -> hasBareCR (l ++ CRLF) = false.
Proof.
  induction l as [| c l IH]; intros H; [done |].
  simpl. destruct (c =c? CR) eqn:E; breflect; [set_solver |]. apply IH. set_solver.
Qed.

Lemma normalizeLine_CRLF l : normalizeLine (l ++ CRLF) = l ++ CRLF.
Proof.
  unfold normalizeLine. by rewrite rev_app_distr.
Qed.

Lemma HasPrefix_take n s p :
  (length p <= n)%nat -> HasPrefix (take n s) p = HasPrefix s p.
Proof.
  revert n s. induction p as [| c p IH]; intros [| n] [| d s] H; simpl in *; try done; try lia.
  f_equal. apply IH. lia.
Qed.

Section Transparency.
Context (bufsize : nat) (stream_end : read_error) (Hbuf : (0 < bufsize)%nat).
Context (maxMessageSize maxSessionBytes : Z) (bytesIn : gostring -> Z).
Context (Hbytes : forall r, bytesIn r <= maxSessionBytes).

Abbreviation go := (readData_go bufsize stream_end maxMessageSize maxSessionBytes bytesIn).

Lemma readData_text_line fuel data l r :
  text_line l -> Z.of_nat (length (data ++ l ++ CRLF)) <= maxMessageSize ->
  go (S fuel) true None data ((dot_stuff l ++ CRLF) ++ r) =
  go fuel true None (data ++ l ++ CRLF) r.
Proof.
  intros (Hcr & Hlf & Hnul & Hlen) Hsize. unfold maxLineLength in Hlen.
  set (d := dot_stuff l).
  assert (Hd : d = (if HasPrefix l "." then "." ++ l else l)) by done.
  assert (Hdlf : (LF ∉ d) /\ (NUL ∉ d) /\ (CR ∉ d)) by (rewrite Hd; split_if; set_solver).
  assert (Hlen' : (length (d ++ CRLF) <= 1001)%nat)
    by (rewrite length_app, Hd; split_if; simpl; lia).
  cbn [readData_go]. rewrite readBoundedLine_eq by done. unfold read_line.
  replace ((d ++ CRLF) ++ r) with ((d ++ [CR]) ++ LF :: r) by (by rewrite <-!app_assoc).
  rewrite split_line_app by set_solver.
  replace ((d ++ [CR]) ++ [LF]) with (d ++ CRLF) by (by rewrite <-app_assoc).
  rewrite take_ge by (unfold maxLineLength; simpl; lia).
  destruct (Z.ltb_spec maxSessionBytes (bytesIn r)); [specialize (Hbytes r); lia |].
  assert (Hpre : HasPrefix (d ++ CRLF) "." = HasPrefix l ".").
  { rewrite Hd. destruct (HasPrefix l ".") eqn:E; [done |].
    destruct l as [| c l]; [done |]. simpl in *. by rewrite E. }
  assert (Heod : (true && HasPrefix (d ++ CRLF) "." && (Z.of_nat (length (d ++ CRLF)) =? 3)) = false).
  { rewrite Hpre, andb_true_l. destruct (HasPrefix l ".") eqn:E; [rewrite andb_true_l | done].
    apply Z.eqb_neq. rewrite Hd. apply HasPrefix_true in E as [l1 ->].
    rewrite !length_app. simpl. lia. }
  rewrite Heod, !andb_false_l, !andb_true_l, Hpre. cbv iota.
  assert (Hll : (if HasPrefix l "." then Z.of_nat (length (d ++ CRLF)) - 1
    else Z.of_nat (length (d ++ CRLF))) = Z.of_nat (length l) + 2).
  { rewrite Hd, length_app. split_if; simpl; rewrite ?length_app; simpl; lia. }
  rewrite Hll. unfold maxLineLength.
  destruct (Z.ltb_spec 1000 (Z.of_nat (length l) + 2)); [lia |].
  assert (ContainsByte (d ++ CRLF) NUL = false) as ->
    by (apply ContainsByte_false; unfold CRLF; set_solver).
  rewrite hasBareCR_text by tauto.
  assert ((if HasPrefix l "." then drop 1 (d ++ CRLF) else d ++ CRLF) = l ++ CRLF) as ->
    by (rewrite Hd; by split_if).
  rewrite normalizeLine_CRLF.
  destruct (Z.ltb_spec maxMessageSize (Z.of_nat (length (data ++ l ++ CRLF)))); [lia |].
  assert (ends_crlf (d ++ CRLF) = true) as -> by (apply ends_crlf_true; eauto). done.
Qed.

Lemma readData_go_message ls fuel data rest :
  Forall text_line ls -> (length (wire ls ++ rest) < fuel)%nat ->
  Z.of_nat (length (data ++ message ls)) <= maxMessageSize ->
  go fuel true None data (wire ls ++ rest) = (Ok (data ++ message ls), rest).
Proof.
  revert fuel data. induction ls as [| l ls IH]; intros fuel data Hls Hfuel Hsize.
  - destruct fuel as [| fuel]; [simpl in *; lia |].
    pose proof (readData_round bufsize stream_end Hbuf maxMessageSize maxSessionBytes bytesIn
      fuel true None data (wire [] ++ rest) I) as H. simpl in H.
    destruct (Z.ltb_spec maxSessionBytes (bytesIn rest)); [specialize (Hbytes rest); lia |].
    simpl. rewrite app_nil_r. exact H.
  - inversion Hls; subst. destruct fuel as [| fuel]; [lia |].
    rewrite wire_cons, message_cons in *.
    rewrite readData_text_line; [| done | rewrite !length_app in *; lia].
    rewrite IH; [by rewrite <-!app_assoc | done | |].
    + rewrite !length_app in *. simpl in *. lia.
    + by rewrite <-!app_assoc in *.
Qed.
End Transparency.

(** transparency.  The bytes a client sends for a message, every line dotted
    as RFC 5321 4.5.2 asks and closed with [.<CRLF>], are read back as exactly
    that message, lines of the full 1000 bytes with a leading dot included, and
    the pipelined bytes behind it are left for the command loop. *)
Theorem readData_roundtrip bufsize stream_end maxMessageSize maxSessionBytes bytesIn ls rest :
  (0 < bufsize)%nat -> (forall r, bytesIn r <= maxSessionBytes) ->
  Forall text_line ls -> Z.of_nat (length (message ls)) <= maxMessageSize ->
  readData bufsize stream_end maxMessageSize maxSessionBytes bytesIn (wire ls ++ rest)
  = (Ok (message ls), rest).
Proof.
  intros. unfold readData. rewrite readData_go_message; auto; lia.
Qed.

Definition sample_lines : list gostring := ["Subject: x" : gostring; [] ; "." : gostring; "..b" : gostring].

Lemma readData_roundtrip_witness :
  readData 7 ReadEOF 64 1000 (fun _ => 0) (wire sample_lines ++ "QUIT")
  = (Ok (message sample_lines), "QUIT" : gostring).
Proof.
  apply (readData_roundtrip 7 ReadEOF 64 1000 (fun _ => 0) sample_lines "QUIT"); [lia | lia | | vm_compute; congruence].
  apply (bool_decide_unpack _). vm_compute. exact I.
Defined.

(** ** BDAT content: bare line feeds *)

(** Every LF follows a CR ([prev] is the byte before, if any). *)
Fixpoint crlf_only (prev : option ascii) (s : gostring) : bool :=
  match s with
  | [] => true
  | b :: t =>
      negb ((b =c? LF) && negb (match prev with Some p => p =c? CR | None => false end))
      && crlf_only (Some b) t
  end.

Lemma normalizeBareLF_go_crlf prev s : crlf_only prev (normalizeBareLF_go prev s) = true.
Proof.
  revert prev. induction s as [| b s IH]; intros prev; [done |].
  simpl. destruct ((b =c? LF) && _) eqn:E; simpl.
  - breflect. subst. simpl. by rewrite IH.
  - by rewrite E, IH.
Qed.

Lemma normalizeBareLF_go_id prev s : crlf_only prev s = true -> normalizeBareLF_go prev s = s.
Proof.
  revert prev. induction s as [| b s IH]; intros prev H; [done |].
  simpl in *. apply andb_true_iff in H as [H1 H2]. apply negb_true_iff in H1. rewrite H1. simpl. by rewrite IH.
Qed.

Lemma hasBareCR_normalize prev s :
  hasBareCR s = false -> hasBareCR (normalizeBareLF_go prev s) = false.
Proof.
  revert prev. induction s as [| b s IH]; intros prev H; [done |].
  simpl in H. apply orb_false_iff in H as [H1 H2].
  simpl. destruct ((b =c? LF) && _) eqn:E; simpl.
  - breflect. subst. rewrite IH by done. done.
  - rewrite IH by done. destruct (b =c? CR) eqn:Eb; [simpl in * | done].
    breflect. subst. destruct s as [| c s]; [done |]. simpl.
    rewrite H1. simpl. by rewrite H1.
Qed.

(** the normalisation BDAT applies to text content leaves no LF without its
    CR, introduces no bare CR into content that had none, and changes nothing in
    content that is already in CRLF form, so applying it twice is applying it
    once. *)
Theorem normalizeBareLF_spec s :
  crlf_only None (normalizeBareLF s) = true /\
  (hasBareCR s = false -> hasBareCR (normalizeBareLF s) = false) /\
  (crlf_only None s = true -> normalizeBareLF s = s) /\
  normalizeBareLF (normalizeBareLF s) = normalizeBareLF s.
Proof.
  unfold normalizeBareLF. split_and!; auto using normalizeBareLF_go_crlf,
    normalizeBareLF_go_id, hasBareCR_normalize.
Qed.
