(* ===== verification/SmtpParams.v ===== *)
(** * internal/smtp: command lines, paths and ESMTP parameters

    The parsing functions of session.go and the address validation of
    server.go.  [net/mail]'s address parser is a parameter ([NetMail]): the
    session only uses the address it returns.  Reply texts are kept, because the
    code builds some of them from the input. *)
From S2P Require Import Prelude GoLib.

Section Params.
Context {U : UnicodeTables} {M : NetMail}.

Definition normalizeAddr (a : gostring) : gostring := ToLower a.

Definition receivedForm (a : gostring) : gostring :=
  match LastIndexByte a "@" with
  | Some at_ => take (at_ + 1) a ++ ToLower (drop (at_ + 1) a)
  | None => a
  end.

Definition parseCommand (line : gostring) : gostring * gostring :=
  let line := TrimSpace line in
  match line with
  | [] => ([], [])
  | _ => let '(c, rest) := SplitN2 line " " in
      (ToUpper c, match rest with Some a => TrimSpace a | None => [] end)
  end.

(** Every rune of a HELO argument: no blank, control or structural character.
    All of those are ASCII, so the test is on bytes. *)
Definition validHelloArg (arg : gostring) : bool :=
  forallb (fun r => negb ((r <=? 32) || (r =? 127) ||
    existsb (fun c => bz c =? r) (";()<>" : gostring)))
  (runes arg).

Definition mailParamFields (arg : gostring) : list gostring :=
  let arg := match IndexByte arg ":" with Some i => drop (i + 1) arg | None => arg end in
  match Fields arg with
  | [] => []
  | _ :: r => r
  end.

Fixpoint paramValue_go (fields : list gostring) (key : gostring) : gostring :=
  match fields with
  | [] => []
  | field :: r =>
      let '(k, v, _) := Cut field "=" in
      if EqualFold k key then v else paramValue_go r key
  end.
Definition paramValue (arg key : gostring) : gostring :=
  paramValue_go (mailParamFields arg) key.

Definition isUpperHex (c : ascii) : bool := in_range 48 57 c || in_range 65 70 c.

Fixpoint validXtext (v : gostring) : bool :=
  match v with
  | [] => true
  | c :: t =>
      if c =c? "+" then
      match t with
      | h :: l :: t' => isUpperHex h && isUpperHex l && validXtext t'
      | _ => false
      end
      else if (bz c <? 33) || (126 <? bz c) || (c =c? "=") then false
      else validXtext t
  end.

(** A refused command: the reply code and its text. *)
Definition reply : Type := Z * gostring.

Record mailParams := { binary : bool; utf8 : bool }.

Section MailParams.
Context (maxMessageSize : Z).

(** One parameter of MAIL FROM. *)
Definition checkMailParam (field : gostring) (mp : mailParams) : result reply mailParams :=
  let '(key, val, _) := Cut field "=" in
  let K := ToUpper key in
  if K =s? "SIZE" then
  match ParseInt val with
  | Err _ => Err (501, "5.5.4 Invalid SIZE parameter" : gostring)
  | Ok n =>
      if n <? 0 then Err (501, "5.5.4 Invalid SIZE parameter" : gostring)
      else if maxMessageSize <? n
      then Err (552, "5.3.4 Message size exceeds fixed maximum message size" : gostring)
      else Ok mp
  end
  else if K =s? "BODY" then
  let V := ToUpper val in
  if (V =s? "7BIT") || (V =s? "8BITMIME") then Ok mp
  else if V =s? "BINARYMIME" then Ok {| binary := true; utf8 := utf8 mp |}
  else Err (501, "5.5.4 Invalid BODY parameter" : gostring)
  else if K =s? "RET" then
  let V := ToUpper val in
  if negb (V =s? "FULL") && negb (V =s? "HDRS")
  then Err (501, "5.5.4 Invalid RET parameter" : gostring) else Ok mp
  else if (K =s? "ENVID") || (K =s? "AUTH") then
  let bad := val =s? [] in
  let bad := if negb bad && (negb (EqualFold key "AUTH") || negb (val =s? "<>"))
  then negb (validXtext val) else bad in
  let bad := if EqualFold key "ENVID" && (100 <? Z.of_nat (length val)) then true else bad in
  if bad then Err (501, "5.5.4 Invalid " ++ ToUpper key ++ " parameter") else Ok mp
  else if K =s? "SMTPUTF8" then
  if val =s? [] then Ok {| binary := binary mp; utf8 := true |}
  else Err (501, "5.5.4 Invalid SMTPUTF8 parameter" : gostring)
  else Err (555, "5.5.4 Unsupported MAIL FROM parameter" : gostring).

Fixpoint checkMailParams_go (fields : list gostring) (mp : mailParams)
  : result reply mailParams :=
  match fields with
  | [] => Ok mp
  | f :: r => let* mp' := checkMailParam f mp in checkMailParams_go r mp'
  end.

Definition checkMailParams (arg : gostring) : result reply mailParams :=
  checkMailParams_go (mailParamFields arg) {| binary := false; utf8 := false |}.
End MailParams.

Fixpoint checkNotify (items : list gostring) (n : nat) : result reply unit :=
  match items with
  | [] => Ok tt
  | it :: r =>
      if negb (it =s? "NEVER") && negb (it =s? "SUCCESS") && negb (it =s? "FAILURE")
      && negb (it =s? "DELAY")
      then Err (501, "5.5.4 Invalid NOTIFY parameter" : gostring)
      else if (it =s? "NEVER") && (1 <? n)%nat
      then Err (501, "5.5.4 NOTIFY=NEVER cannot be combined with other values" : gostring)
      else checkNotify r n
  end.

Fixpoint checkRcptParams_go (fields : list gostring) : result reply unit :=
  match fields with
  | [] => Ok tt
  | field :: r =>
      let '(key, val, _) := Cut field "=" in
      let K := ToUpper key in
      if K =s? "NOTIFY" then
      let items := Split (ToUpper val) "," in
      let* _ := checkNotify items (length items) in checkRcptParams_go r
      else if K =s? "ORCPT" then
      let '(t, a, ok) := Cut val ";" in
      if negb ok || (t =s? []) || (a =s? []) || negb (validXtext a)
      then Err (501, "5.5.4 Invalid ORCPT parameter" : gostring)
      else checkRcptParams_go r
      else Err (555, "5.5.4 Unsupported RCPT TO parameter" : gostring)
  end.
Definition checkRcptParams (arg : gostring) : result reply unit :=
  checkRcptParams_go (mailParamFields arg).

(** [None] is an error. *)
Definition pathToken (arg : gostring) : option gostring :=
  let arg := match IndexByte arg " " with
  | Some (S i) => take (S i) arg
  | _ => arg
  end in
  arg' ← (if HasPrefix arg "<" then
    if negb (HasSuffix arg ">") then None
    else Some (take (length arg - 2) (drop 1 arg))
    else Some arg);
  if ContainsAny arg' "<>" then None else Some arg'.

(** The value of the first field after the path that starts with [key]
    ("RET=", "NOTIFY="), upper-cased. *)
Fixpoint optValue (key : gostring) (fields : list gostring) : gostring :=
  match fields with
  | [] => []
  | part :: r =>
      let upper := ToUpper part in
      if HasPrefix upper key then TrimPrefix upper key else optValue key r
  end.

Definition parseMailFromWithRet (arg : gostring) : option (gostring * gostring) :=
  if negb (HasPrefix (ToUpper arg) "FROM:") then None else
  let arg := TrimSpace (drop 5 arg) in
  let ret := optValue "RET=" (drop 1 (Fields arg)) in
  addr ← pathToken arg; Some (addr, ret).

Definition parseRcptToWithNotify (arg : gostring) : option (gostring * gostring) :=
  if negb (HasPrefix (ToUpper arg) "TO:") then None else
  let arg := TrimSpace (drop 3 arg) in
  let notify := optValue "NOTIFY=" (drop 1 (Fields arg)) in
  addr ← pathToken arg; Some (addr, notify).

(** [true] when the address is within the RFC 5321 limits. *)
Definition checkAddrLength (addr : gostring) : bool :=
  match LastIndexByte addr "@" with
  | None => true
  | Some at_ =>
      negb ((64 <? Z.of_nat at_) || (255 <? Z.of_nat (length addr) - Z.of_nat at_ - 1)
        || (256 <? Z.of_nat (length addr) + 2))
  end.

(** [unicode.IsControl]: the Cc category. *)
Definition is_control (r : Z) : bool := ((0 <=? r) && (r <=? 31)) || ((127 <=? r) && (r <=? 159)).

Definition validUTF8Address (email : gostring) : bool :=
  forallb (fun r => negb (is_control r || is_space_rune r ||
    existsb (fun c => bz c =? r) ("<>(),;:\[]" ++ [byte_of 34]))) (runes email)
  && existsb (fun r => 127 <? r) (runes email)
  && (length (List.filter (fun c => c =c? "@") email) =? 1)%nat
  && match IndexByte email "@" with
  | Some at_ => (0 <? at_)%nat && (at_ <? length email - 1)%nat
  | None => false
  end.

Definition ValidateEmail (email : gostring) : option gostring :=
  match ParseAddress email with
  | None => if validUTF8Address email then Some email else None
  | Some addr =>
      match LastIndexByte addr "@" with
      | Some (S i) =>
          if ContainsAny (take (S i) addr) ("@\ ,;:<>()[]" ++ [byte_of 34; byte_of 9])
          then None else Some addr
      | _ => None
      end
  end.
End Params.
Arguments reply : clear implicits.

(** ** What an accepted parameter list guarantees *)
Section ParamLemmas.
Context {U : UnicodeTables} {M : NetMail}.

(** The SIZE values a field list declares. *)
Definition declared_size (field : gostring) : option Z :=
  let '(key, val, _) := Cut field "=" in
  if ToUpper key =s? "SIZE" then
  match ParseInt val with Ok n => Some n | Err _ => Some (-1) end
  else None.

Lemma checkMailParam_size max f mp mp' n :
  checkMailParam max f mp = Ok mp' -> declared_size f = Some n -> 0 <= n <= max.
Proof.
  unfold checkMailParam, declared_size. destruct (Cut f "=") as [[key val] b].
  intros H Hd. destruct (ToUpper key =s? "SIZE"); [| discriminate].
  destruct (ParseInt val); [| discriminate]. handler; lia.
Qed.

Lemma checkMailParams_go_size max fs mp mp' f n :
  checkMailParams_go max fs mp = Ok mp' -> f ∈ fs -> declared_size f = Some n -> 0 <= n <= max.
Proof.
  revert mp. induction fs as [| g fs IH]; intros mp H Hf Hd; [set_solver |].
  simpl in H. destruct (checkMailParam max g mp) as [mp1 | e] eqn:E; [| discriminate].
  apply elem_of_cons in Hf as [-> | Hf]; eauto using checkMailParam_size.
Qed.

(** A path never keeps an angle bracket, so it cannot close the one that the
    envelope puts around it. *)
Lemma pathToken_no_brackets arg a : pathToken arg = Some a -> ContainsAny a "<>" = false.
Proof.
  unfold pathToken. intros H. cbv zeta in H.
  apply bind_Some in H as (b & _ & H).
  destruct (ContainsAny b "<>") eqn:E; [discriminate | by simplify_eq].
Qed.
End ParamLemmas.
