(* ===== verification/SmtpSession.v ===== *)
(** * internal/smtp: the SMTP session

    The session state machine of session.go with the server's policy hooks and
    lockout tables (server.go) and the message pipeline (pipeline.go).

    [Server] is the configuration and the handlers installed on it; a nil handler
    is [None].  [World] is everything a command changes: the session, the
    server's tables, the unread input of the connection, the replies written and
    the messages handed to the delivery handler.  Writes to the connection
    succeed.  [addTraceHeaders] (it renders the time, a random id and host
    names) and the TLS handshake are parameters of the server record; [now] is the
    time a command runs at and [rand] what crypto/rand gives it. *)
From S2P Require Import Prelude GoLib Base64 Scram SmtpData SmtpParams.

Inductive SessionState := StateNew | StateGreeted | StateMailFrom | StateRcptTo | StateData.

#[export] Instance SessionState_eq_dec : EqDecision SessionState.
Proof. solve_decision. Defined.

Record Session := {
  state : SessionState;
  helloDomain : gostring;
  isTLS : bool;
  isAuth : bool;
  username : gostring;
  mailFrom : gostring;
  mailFromRet : gostring;
  rcptTo : list gostring;
  rcptToNotify : list gostring;
  mailEnvID : gostring;
  rcptOrcpt : list gostring;
  data : gostring;
  bdatBuffer : option gostring;
  sieveActions : list gostring;
  rcptRaw : list gostring;
  mailBinary : bool;
  smtputf8 : bool
}.

Definition NewSession : Session := {|
  state := StateNew; helloDomain := []; isTLS := false; isAuth := false; username := [];
  mailFrom := []; mailFromRet := []; rcptTo := []; rcptToNotify := []; mailEnvID := [];
  rcptOrcpt := []; data := []; bdatBuffer := None; sieveActions := []; rcptRaw := [];
  mailBinary := false; smtputf8 := false |}.

Definition resetTransaction (s : Session) : Session := {|
  state := match state s with StateNew => StateNew | _ => StateGreeted end;
  helloDomain := helloDomain s; isTLS := isTLS s; isAuth := isAuth s; username := username s;
  mailFrom := []; mailFromRet := []; rcptTo := []; rcptToNotify := []; mailEnvID := [];
  rcptOrcpt := []; data := []; bdatBuffer := None; sieveActions := sieveActions s; rcptRaw := [];
  mailBinary := false; smtputf8 := false |}.

(** Field updates of the handlers. *)
Definition set_greeted (arg : gostring) (s : Session) : Session := {|
  state := StateGreeted; helloDomain := arg; isTLS := isTLS s; isAuth := isAuth s;
  username := username s; mailFrom := mailFrom s; mailFromRet := mailFromRet s;
  rcptTo := rcptTo s; rcptToNotify := rcptToNotify s; mailEnvID := mailEnvID s;
  rcptOrcpt := rcptOrcpt s; data := data s; bdatBuffer := bdatBuffer s;
  sieveActions := sieveActions s; rcptRaw := rcptRaw s; mailBinary := mailBinary s;
  smtputf8 := smtputf8 s |}.

Definition set_mail (from ret envid : gostring) (mp : mailParams) (s : Session) : Session := {|
  state := StateMailFrom; helloDomain := helloDomain s; isTLS := isTLS s; isAuth := isAuth s;
  username := username s; mailFrom := from; mailFromRet := ret; rcptTo := rcptTo s;
  rcptToNotify := rcptToNotify s; mailEnvID := envid; rcptOrcpt := rcptOrcpt s; data := data s;
  bdatBuffer := bdatBuffer s; sieveActions := sieveActions s; rcptRaw := rcptRaw s;
  mailBinary := binary mp; smtputf8 := utf8 mp |}.

Definition add_rcpt (rcpt raw notify orcpt : gostring) (s : Session) : Session := {|
  state := StateRcptTo; helloDomain := helloDomain s; isTLS := isTLS s; isAuth := isAuth s;
  username := username s; mailFrom := mailFrom s; mailFromRet := mailFromRet s;
  rcptTo := rcptTo s ++ [rcpt]; rcptToNotify := rcptToNotify s ++ [notify];
  mailEnvID := mailEnvID s; rcptOrcpt := rcptOrcpt s ++ [orcpt]; data := data s;
  bdatBuffer := bdatBuffer s; sieveActions := sieveActions s; rcptRaw := rcptRaw s ++ [raw];
  mailBinary := mailBinary s; smtputf8 := smtputf8 s |}.

Definition set_data (st : SessionState) (d : gostring) (buf : option gostring)
    (acts : list gostring) (s : Session) : Session := {|
  state := st; helloDomain := helloDomain s; isTLS := isTLS s; isAuth := isAuth s;
  username := username s; mailFrom := mailFrom s; mailFromRet := mailFromRet s;
  rcptTo := rcptTo s; rcptToNotify := rcptToNotify s; mailEnvID := mailEnvID s;
  rcptOrcpt := rcptOrcpt s; data := d; bdatBuffer := buf; sieveActions := acts;
  rcptRaw := rcptRaw s; mailBinary := mailBinary s; smtputf8 := smtputf8 s |}.

Definition set_auth (st : SessionState) (hello : gostring) (tls auth : bool) (user : gostring)
    (s : Session) : Session := {|
  state := st; helloDomain := hello; isTLS := tls; isAuth := auth; username := user;
  mailFrom := mailFrom s; mailFromRet := mailFromRet s; rcptTo := rcptTo s;
  rcptToNotify := rcptToNotify s; mailEnvID := mailEnvID s; rcptOrcpt := rcptOrcpt s;
  data := data s; bdatBuffer := bdatBuffer s; sieveActions := sieveActions s;
  rcptRaw := rcptRaw s; mailBinary := mailBinary s; smtputf8 := smtputf8 s |}.

(** ** The pipeline *)
Inductive PipelineResult := ResultAccept | ResultReject | ResultQuarantine.

Record MessageContext := {
  RemoteHost : gostring;
  CtxTLS : bool;
  Authenticated : bool;
  Username : gostring;
  From : gostring;
  To : list gostring;
  Data : gostring;
  Headers : gmap gostring (list gostring);
  SpamScoreText : gostring;         (* SpamScore as %.1f renders it *)
  SpamVerdict : gostring;
  SpamReasons : list gostring;
  RejectionCode : Z;
  RejectionMessage : gostring;
  Quarantine : bool
}.

(** A [PipelineStage]: it returns, panics (having changed the context up to
    there) or is still running when its time budget is spent. *)
Inductive stage_outcome :=
  | StageReturns (r : PipelineResult) (ctx : MessageContext)
  | StagePanics (ctx : MessageContext)
  | StageTimesOut.
Record PipelineStage := { Name : gostring; Process : MessageContext -> stage_outcome }.

Definition with_rejection (code : Z) (msg : gostring) (c : MessageContext) : MessageContext := {|
  RemoteHost := RemoteHost c; CtxTLS := CtxTLS c; Authenticated := Authenticated c;
  Username := Username c; From := From c; To := To c; Data := Data c; Headers := Headers c;
  SpamScoreText := SpamScoreText c; SpamVerdict := SpamVerdict c; SpamReasons := SpamReasons c;
  RejectionCode := code; RejectionMessage := msg; Quarantine := Quarantine c |}.
Definition with_quarantine (c : MessageContext) : MessageContext := {|
  RemoteHost := RemoteHost c; CtxTLS := CtxTLS c; Authenticated := Authenticated c;
  Username := Username c; From := From c; To := To c; Data := Data c; Headers := Headers c;
  SpamScoreText := SpamScoreText c; SpamVerdict := SpamVerdict c; SpamReasons := SpamReasons c;
  RejectionCode := RejectionCode c; RejectionMessage := RejectionMessage c; Quarantine := true |}.

(** [runStage] inside [runStageTimed]: [None] is a timeout; a panic becomes a
    rejection with code 451. *)
Definition runStageTimed (st : PipelineStage) (c : MessageContext)
  : option (PipelineResult * MessageContext) :=
  match Process st c with
  | StageReturns r c' => Some (r, c')
  | StagePanics c' => Some (ResultReject, with_rejection 451 ("internal error in " ++ Name st) c')
  | StageTimesOut => None
  end.

Inductive pipe_error := errStageTimeout | errRejected.

(** [ProcessWithTimeout]: the verdict, the error and the context. *)
Fixpoint processPipeline (stages : list PipelineStage) (c : MessageContext)
  : PipelineResult * option pipe_error * MessageContext :=
  match stages with
  | [] => (if Quarantine c then ResultQuarantine else ResultAccept, None, c)
  | st :: r =>
      match runStageTimed st c with
      | None => (ResultReject, Some errStageTimeout, c)
      | Some (ResultReject, c') => (ResultReject, Some errRejected, c')
      | Some (ResultQuarantine, c') => processPipeline r (with_quarantine c')
      | Some (ResultAccept, c') => processPipeline r c'
      end
  end.

(** ** The server *)
(** The server's tables: times of failures and of accepted recipients. *)
Record Tables := {
  authFailures : gmap gostring (list Z);
  userFailures : gmap gostring (list Z);
  userRcpt : gmap gostring (list Z)
}.

Inductive delivery_error := ErrMailboxFull | ErrDelivery.

(** What a delivery handler is given (the fields a handler of its kind does not
    take are [None]), with the session's authentication as a ghost. *)
Record Delivery := {
  dFrom : gostring;
  dTo : list gostring;
  dNotify : option (list gostring);
  dRetEnvid : option (gostring * gostring);
  dOrcpt : option (list gostring);
  dData : gostring;
  dSieve : option (list gostring);
  dAuth : bool;
  dUser : gostring
}.

Record Server := {
  Hostname : gostring;
  MaxMessageSize : Z;
  MaxSessionBytes : Z;
  MaxRecipients : Z;
  RequireAuth : bool;
  IsSubmission : bool;
  AllowInsecure : bool;
  tlsAvailable : bool;
  maxLoginAttempts : Z;
  lockoutDuration : Z;
  rcptPerHour : Z;
  MaxCommands : Z;
  MaxErrors : Z;
  clientAddr : gostring;
  onAuth : option (gostring -> gostring -> bool);
  onSenderAllowed : option (gostring -> gostring -> bool);
  onLocalDomain : option (gostring -> bool);
  onRecipientExists : option (gostring -> bool);
  onValidate : option (gostring -> list gostring -> bool);
  onDeliverWithAuth : option (Delivery -> option delivery_error);
  onDeliverWithDSN : option (Delivery -> option delivery_error);
  onDeliverWithNotify : option (Delivery -> option delivery_error);
  onDeliverWithSieve : option (Delivery -> option delivery_error);
  onDeliver : option (Delivery -> option delivery_error);
  pipeline : option (list PipelineStage);
  onGetPassword : option (gostring -> option gostring);
  handshake : bool;
  addTraceHeaders : Session -> option MessageContext -> gostring -> gostring;
  (* the connection's reader *)
  bufsize : nat;
  stream_end : read_error;
  bytesIn : gostring -> Z
}.

Definition maxMessageSize (srv : Server) : Z :=
  if MaxMessageSize srv <=? 0 then 50 * 2 ^ 20 else MaxMessageSize srv.
Definition maxRecipients (srv : Server) : Z :=
  if MaxRecipients srv <=? 0 then 100 else MaxRecipients srv.
Definition maxSessionBytes (srv : Server) : Z :=
  if 0 <? MaxSessionBytes srv then MaxSessionBytes srv
  else let n := wrap_i64 (10 * maxMessageSize srv) in if 2 ^ 20 <? n then n else 2 ^ 20.

Record World := {
  sess : Session;
  tables : Tables;
  errCount : Z;
  cmdCount : Z;
  input : gostring;
  replies : list reply;
  delivered : list Delivery
}.

Definition set_sess (f : Session -> Session) (w : World) : World := {|
  sess := f (sess w); tables := tables w; errCount := errCount w; cmdCount := cmdCount w; input := input w;
  replies := replies w; delivered := delivered w |}.
Definition set_tables (t : Tables) (w : World) : World := {|
  sess := sess w; tables := t; errCount := errCount w; cmdCount := cmdCount w; input := input w;
  replies := replies w; delivered := delivered w |}.
Definition set_input (i : gostring) (w : World) : World := {|
  sess := sess w; tables := tables w; errCount := errCount w; cmdCount := cmdCount w; input := i;
  replies := replies w; delivered := delivered w |}.
Definition log_delivery (d : Delivery) (w : World) : World := {|
  sess := sess w; tables := tables w; errCount := errCount w; cmdCount := cmdCount w; input := input w;
  replies := replies w; delivered := delivered w ++ [d] |}.
Definition count_command (w : World) : World := {|
  sess := sess w; tables := tables w; errCount := errCount w; cmdCount := cmdCount w + 1;
  input := input w; replies := replies w; delivered := delivered w |}.
Definition reset_errCount (w : World) : World := {|
  sess := sess w; tables := tables w; errCount := 0; cmdCount := cmdCount w; input := input w;
  replies := replies w; delivered := delivered w |}.

(** CR and LF are stripped from every reply. *)
Definition WriteResponse (code : Z) (msg : gostring) (w : World) : World := {|
  sess := sess w; tables := tables w;
  errCount := if 500 <=? code then errCount w + 1 else errCount w; cmdCount := cmdCount w; input := input w;
  replies := replies w ++ [(code, List.filter (fun c => negb ((c =c? CR) || (c =c? LF))) msg)];
  delivered := delivered w |}.

(** What a handler tells the command loop. *)
Inductive outcome := Continue | Quit | IoError.

Definition respond (code : Z) (msg : gostring) (w : World) : outcome * World :=
  (Continue, WriteResponse code msg w).

(** ** Lockout tables *)
Definition recent (cutoff : Z) (ts : list Z) : list Z := List.filter (fun t => cutoff <? t) ts.

Definition prune (cutoff : Z) (m : gmap gostring (list Z)) : gmap gostring (list Z) :=
  filter (fun kv => kv.2 <> []) (recent cutoff <$> m).

Section Handlers.
Context {U : UnicodeTables} {M : NetMail} {C : Crypto}.
Context (srv : Server) (now : Z) (rand : nat -> option gostring).

Definition isAuthLockedOut (ip : gostring) (t : Tables) : bool * Tables :=
  if maxLoginAttempts srv <=? 0 then (false, t) else
  let r := recent (now - lockoutDuration srv) (default [] (authFailures t !! ip)) in
  (maxLoginAttempts srv <=? Z.of_nat (length r),
    {| authFailures := <[ip := r]> (authFailures t); userFailures := userFailures t;
      userRcpt := userRcpt t |}).

Definition recordAuthFailure (ip : gostring) (t : Tables) : Tables :=
  if maxLoginAttempts srv <=? 0 then t else
  let m := <[ip := default [] (authFailures t !! ip) ++ [now]]> (authFailures t) in
  {| authFailures := if (100 <=? size m)%nat then prune (now - lockoutDuration srv) m else m;
    userFailures := userFailures t; userRcpt := userRcpt t |}.

Definition canonicalAuthUser (u : gostring) : gostring := take 256 (ToLower (TrimSpace u)).

Definition isUserLockedOut (user : gostring) (t : Tables) : bool * Tables :=
  let user := canonicalAuthUser user in
  if (maxLoginAttempts srv <=? 0) || (user =s? []) then (false, t) else
  let r := recent (now - lockoutDuration srv) (default [] (userFailures t !! user)) in
  (maxLoginAttempts srv <=? Z.of_nat (length r),
    {| authFailures := authFailures t;
      userFailures := match r with [] => delete user (userFailures t)
      | _ => <[user := r]> (userFailures t) end;
      userRcpt := userRcpt t |}).

Definition recordUserFailure (user : gostring) (t : Tables) : Tables :=
  let user := canonicalAuthUser user in
  if (maxLoginAttempts srv <=? 0) || (user =s? []) then t else
  let m := <[user := default [] (userFailures t !! user) ++ [now]]> (userFailures t) in
  {| authFailures := authFailures t;
    userFailures := if (100 <=? size m)%nat then prune (now - lockoutDuration srv) m else m;
    userRcpt := userRcpt t |}.

Definition clearUserFailures (user : gostring) (t : Tables) : Tables :=
  {| authFailures := authFailures t;
    userFailures := delete (canonicalAuthUser user) (userFailures t); userRcpt := userRcpt t |}.

Definition allowUserRecipient (user : gostring) (t : Tables) : bool * Tables :=
  if rcptPerHour srv <=? 0 then (true, t) else
  let key := ToLower user in
  let kept := recent (now - hour) (default [] (userRcpt t !! key)) in
  if rcptPerHour srv <=? Z.of_nat (length kept)
  then (false, {| authFailures := authFailures t; userFailures := userFailures t;
    userRcpt := <[key := kept]> (userRcpt t) |})
  else (true, {| authFailures := authFailures t; userFailures := userFailures t;
    userRcpt := <[key := kept ++ [now]]> (userRcpt t) |}).

(** ** HELO, EHLO, RSET and the commands that change nothing *)
Definition syntax_error : gostring := "5.5.4 Syntax error in parameters or arguments".
Definition bad_sequence : gostring := "5.5.1 Bad sequence of commands".

Definition hello (arg : gostring) (w : World) : World :=
  set_sess (fun s => resetTransaction (set_greeted arg s)) w.

(** The EHLO keywords. *)
Definition capabilities (s : Session) : list gostring :=
  [Hostname srv; "SIZE " ++ FormatUint (maxMessageSize srv); "8BITMIME" : gostring;
    "BINARYMIME" : gostring; "PIPELINING" : gostring; "ENHANCEDSTATUSCODES" : gostring;
    "SMTPUTF8" : gostring; "CHUNKING" : gostring; "DSN" : gostring; "DELIVERYSTATUS" : gostring]
  ++ (if tlsAvailable srv && negb (isTLS s) then ["STARTTLS" : gostring] else [])
  ++ (if isTLS s || (IsSubmission srv && AllowInsecure srv)
    then [match onGetPassword srv with
    | Some _ => "AUTH PLAIN LOGIN SCRAM-SHA-256" : gostring
    | None => "AUTH PLAIN LOGIN" : gostring
    end]
    else []).

Definition WriteMultiLineResponse (code : Z) (lines : list gostring) (w : World) : World := {|
  sess := sess w; tables := tables w; errCount := errCount w; cmdCount := cmdCount w; input := input w;
  replies := replies w ++
  map (fun l => (code, List.filter (fun c => negb ((c =c? CR) || (c =c? LF))) l)) lines;
  delivered := delivered w |}.

Definition handleEHLO (arg : gostring) (w : World) : outcome * World :=
  if (arg =s? []) || negb (validHelloArg arg) then respond 501 syntax_error w
  else let w := hello arg w in
  (Continue, WriteMultiLineResponse 250 (capabilities (sess w)) w).

Definition handleHELO (arg : gostring) (w : World) : outcome * World :=
  if (arg =s? []) || negb (validHelloArg arg) then respond 501 syntax_error w
  else respond 250 (Hostname srv) (hello arg w).

Definition handleRSET (w : World) : outcome * World :=
  respond 250 "OK" (set_sess resetTransaction w).

Definition handleVRFY (arg : gostring) (w : World) : outcome * World :=
  if TrimSpace arg =s? [] then respond 501 syntax_error w
  else respond 252 "2.5.0 Cannot VRFY user, but will accept message and attempt delivery" w.

Definition handleEXPN (w : World) : outcome * World := respond 502 "5.5.1 EXPN not implemented" w.
Definition handleHELP (w : World) : outcome * World :=
  respond 214 "See https://tools.ietf.org/html/rfc5321" w.
Definition handleNOOP (w : World) : outcome * World := respond 250 "OK" w.
Definition handleQUIT (w : World) : outcome * World :=
  (Quit, WriteResponse 221 (Hostname srv ++ " closing connection") w).

(** ** MAIL *)

(** [senderAllowed user from]: the hook that ties a sender to an account. *)
Definition senderAllowed (user from : gostring) : bool :=
  match onSenderAllowed srv with Some f => f user from | None => true end.

Definition handleMAIL (arg : gostring) (w : World) : outcome * World :=
  let s := sess w in
  if bool_decide (state s = StateNew) then respond 503 bad_sequence w
  else if bool_decide (state s <> StateGreeted) then respond 503 "5.5.1 Nested MAIL command" w
  else if (RequireAuth srv || IsSubmission srv) && negb (isAuth s)
  then respond 530 "5.7.0 Authentication required" w
  else match parseMailFromWithRet arg with
  | None => respond 501 syntax_error w
  | Some (from, ret) =>
      match (if from =s? [] then Ok from
        else match ValidateEmail from with
        | None => Err syntax_error
        | Some v => if checkAddrLength v then Ok v
            else Err ("5.1.3 Address too long" : gostring)
        end) with
      | Err msg => respond 501 msg w
      | Ok from =>
          match checkMailParams (maxMessageSize srv) arg with
          | Err (code, msg) => respond code msg w
          | Ok mp =>
              if negb (isASCII from) && negb (utf8 mp)
              then respond 553 "5.6.7 Non-ASCII address requires SMTPUTF8" w
              else
              let from := normalizeAddr from in
              if isAuth s && negb (senderAllowed (username s) from)
              then respond 553 "5.7.1 Sender address rejected: not owned by user" w
              else respond 250 "OK"
              (set_sess (fun s => set_mail from ret (paramValue arg "ENVID") mp
                (resetTransaction s)) w)
          end
      end
  end.

(** ** RCPT *)

(** The domain the relay check looks up. *)
Definition rcptDomain (rcpt : gostring) : gostring :=
  ToLower (TrimSuffix (match LastIndexByte rcpt "@" with
  | Some i => drop (i + 1) rcpt
  | None => rcpt
  end) ".").

Definition localRecipient (rcpt : gostring) : bool :=
  match onLocalDomain srv with
  | Some f => negb (rcptDomain rcpt =s? []) && f (rcptDomain rcpt)
  | None => true
  end.
Definition recipientExists (rcpt : gostring) : bool :=
  match onRecipientExists srv with Some f => f rcpt | None => true end.
Definition envelopeValid (from rcpt : gostring) : bool :=
  match onValidate srv with Some f => f from [rcpt] | None => true end.

Definition handleRCPT (arg : gostring) (w : World) : outcome * World :=
  let s := sess w in
  if bool_decide (state s <> StateMailFrom) && bool_decide (state s <> StateRcptTo)
  then respond 503 bad_sequence w
  else match parseRcptToWithNotify arg with
  | None => respond 501 syntax_error w
  | Some (to, notify) =>
      let to := if EqualFold to "postmaster"
      then "postmaster@" ++ (if Hostname srv =s? [] then "localhost" : gostring
        else Hostname srv)
      else to in
      match ValidateEmail to with
      | None => respond 501 syntax_error w
      | Some validated =>
          if negb (checkAddrLength validated) then respond 501 "5.1.3 Address too long" w else
          match checkRcptParams arg with
          | Err (code, msg) => respond code msg w
          | Ok _ =>
              if negb (isASCII validated) && negb (smtputf8 s)
              then respond 553 "5.6.7 Non-ASCII address requires SMTPUTF8" w else
              let rawFor := receivedForm validated in
              let validated := normalizeAddr validated in
              if maxRecipients srv <=? Z.of_nat (length (rcptTo s))
              then respond 452 "4.5.3 Too many recipients" w
              else if negb (isAuth s) && negb (localRecipient validated)
              then respond 554 "5.7.1 Relay access denied" w
              else if negb (recipientExists validated)
              then respond 550 "5.1.1 Recipient address rejected: user unknown" w
              else if negb (envelopeValid (mailFrom s) validated)
              then respond 550 "5.7.1 Recipient rejected" w
              else
              let '(allowed, t) := if isAuth s then allowUserRecipient (username s) (tables w)
              else (true, tables w) in
              let w := set_tables t w in
              if negb allowed then respond 452 "4.5.3 Hourly recipient limit exceeded" w
              else respond 250 "OK"
              (set_sess (add_rcpt validated rawFor notify (paramValue arg "ORCPT")) w)
          end
      end
  end.

(** ** Header fields of the message *)

(** [strings.Split (s, "\r\n")]. *)
Fixpoint split_crlf (s : gostring) : list gostring :=
  match s with
  | [] => [[]]
  | c :: t =>
      match split_crlf t with
      | f :: fs =>
          match t with
          | d :: t' => if (c =c? CR) && (d =c? LF) then [] :: split_crlf t' else (c :: f) :: fs
          | [] => (c :: f) :: fs
          end
      | [] => [[c]]
      end
  end.

Definition append_last (vs : list gostring) (x : gostring) : list gostring :=
  match rev vs with [] => [] | l :: r => rev r ++ [l ++ x] end.

Fixpoint parseHeaderLines (lines : list gostring) (lastKey : gostring)
  (h : gmap gostring (list gostring)) : gmap gostring (list gostring) :=
  match lines with
  | [] => h
  | line :: r =>
      if HasPrefix line " " || HasPrefix line [byte_of 9] then
      parseHeaderLines r lastKey
      (if lastKey =s? [] then h
        else <[lastKey := append_last (default [] (h !! lastKey)) (" " ++ TrimSpace line)]> h)
      else match IndexByte line ":" with
      | Some (S i) =>
          let key := TrimSpace (take (S i) line) in
          let value := TrimSpace (drop (S (S i)) line) in
          parseHeaderLines r key (<[key := default [] (h !! key) ++ [value]]> h)
      | _ => parseHeaderLines r [] h
      end
  end.

Definition parseHeaderBlock (d : gostring) : gmap gostring (list gostring) :=
  match Index d (CRLF ++ CRLF) with
  | Some (S i) => parseHeaderLines (split_crlf (take (S i) d)) [] ∅
  | _ => ∅
  end.

Definition fromHeaderValues (h : gmap gostring (list gostring)) : list gostring :=
  concat (map snd (List.filter (fun kv => EqualFold kv.1 "From") (map_to_list h))).

Definition submissionFromAllowed (s : Session) (d : gostring) : bool :=
  if negb (isAuth s) then true else
  match onSenderAllowed srv with
  | None => true
  | Some f =>
      forallb (fun v => match ParseAddressList v with
      | None => false
      | Some l => forallb (fun a => f (username s) (normalizeAddr a)) l
      end)
      (fromHeaderValues (parseHeaderBlock d))
  end.

(** [bytes.SplitAfter (s, "\n")], without the empty last piece the callers
    skip. *)
Fixpoint splitAfter_go (fuel : nat) (s : gostring) : list gostring :=
  match fuel with
  | O => []
  | S n => match split_line s with
  | Some (l, r) => l :: splitAfter_go n r
  | None => match s with [] => [] | _ => [s] end
  end
  end.

Fixpoint stripLines (name : gostring) (dropping : bool) (lines : list gostring) : gostring :=
  match lines with
  | [] => []
  | line :: r =>
      let dropping :=
      if HasPrefix line " " || HasPrefix line [byte_of 9] then dropping
      else match IndexByte line ":" with
      | Some (S i) => ToLower (TrimRight (take (S i) line) [" "%char; byte_of 9]) =s? name
      | _ => false
      end in
      (if dropping then [] else line) ++ stripLines name dropping r
  end.

Definition stripHeaderFields (d name : gostring) : gostring :=
  let hdrEnd := match Index d (CRLF ++ CRLF) with Some i => (i + 2)%nat | None => length d end in
  let hdr := take hdrEnd d in
  stripLines name false (splitAfter_go (S (length hdr)) hdr) ++ drop hdrEnd d.

Definition verdictHeaders : list gostring :=
  ["x-spam-status" : gostring; "x-spam-score" : gostring; "x-spam-flag" : gostring;
    "x-spam-level" : gostring; "x-spam-result" : gostring; "x-virus-scan" : gostring;
    "x-virus" : gostring; "x-virus-status" : gostring].
Definition stripVerdictHeaders (d : gostring) : gostring :=
  fold_left stripHeaderFields verdictHeaders d.

(** [enhancedStatusRe]: [^[245]\.\d{1,3}\.\d{1,3}( |$)]. *)
Definition digits_then (next : gostring -> bool) (s : gostring) : bool :=
  existsb (fun n => (n <=? length s)%nat && forallb is_digit (take n s) && next (drop n s))
  [1%nat; 2%nat; 3%nat].
Definition enhancedStatus (msg : gostring) : bool :=
  match msg with
  | c :: d :: t =>
      in_set "245" c && (d =c? ".") &&
      digits_then (fun r => match r with
      | e :: r' => (e =c? ".") &&
          digits_then (fun q => match q with [] => true | x :: _ => x =c? " " end) r'
      | [] => false
      end) t
  | _ => false
  end.

Definition stageReply (code : Z) (msg : gostring) : reply :=
  let code := if code =? 421 then 451 else code in
  let code := if (code <? 400) || (599 <? code) then 550 else code in
  (code, if enhancedStatus msg then msg
    else (if code <? 500 then "4.7.1" : gostring else "5.7.1" : gostring) ++ " " ++ msg).

Definition deliveryReply (e : delivery_error) : reply :=
  match e with
  | ErrMailboxFull => (452, "4.2.2 Mailbox full, try again later" : gostring)
  | ErrDelivery => (451, "4.3.0 Requested action aborted: local error in processing" : gostring)
  end.

(** ** Delivery of an accepted message *)
Definition spamHeader (c : MessageContext) : gostring :=
  "X-Spam-Status: Yes, score=" ++ SpamScoreText c ++ CRLF.

Definition applyJunkVerdict (c : MessageContext) (r : PipelineResult) (acts : list gostring)
  (d : gostring) : gostring * list gostring :=
  if negb (SpamVerdict c =s? "junk") then (d, acts) else
  (match r with ResultQuarantine => d | _ => spamHeader c ++ d end,
    if existsb (fun a => HasPrefix a "fileinto:") acts then acts
    else acts ++ ["fileinto:Junk" : gostring]).

Definition envelope (s : Session) : Delivery := {|
  dFrom := mailFrom s; dTo := rcptTo s; dNotify := None; dRetEnvid := None; dOrcpt := None;
  dData := data s; dSieve := None; dAuth := isAuth s; dUser := username s |}.
Definition with_notify (d : Delivery) (n : list gostring) : Delivery := {|
  dFrom := dFrom d; dTo := dTo d; dNotify := Some n; dRetEnvid := dRetEnvid d;
  dOrcpt := dOrcpt d; dData := dData d; dSieve := dSieve d; dAuth := dAuth d; dUser := dUser d |}.
Definition with_sieve (d : Delivery) (a : list gostring) : Delivery := {|
  dFrom := dFrom d; dTo := dTo d; dNotify := dNotify d; dRetEnvid := dRetEnvid d;
  dOrcpt := dOrcpt d; dData := dData d; dSieve := Some a; dAuth := dAuth d; dUser := dUser d |}.
Definition with_dsn (d : Delivery) (s : Session) : Delivery := {|
  dFrom := dFrom d; dTo := dTo d; dNotify := dNotify d;
  dRetEnvid := Some (mailFromRet s, mailEnvID s); dOrcpt := Some (rcptOrcpt s);
  dData := dData d; dSieve := dSieve d; dAuth := dAuth d; dUser := dUser d |}.

(** [deliver]: the most capable handler that is set; with none the message is
    accepted and goes nowhere. *)
Definition deliver (w : World) : option delivery_error * World :=
  let s := sess w in
  let run f d := (f d, match f d with None => log_delivery d w | Some _ => w end) in
  match onDeliverWithAuth srv, onDeliverWithDSN srv, onDeliverWithNotify srv,
      onDeliverWithSieve srv, onDeliver srv with
  | Some f, _, _, _, _ => run f (with_sieve (with_notify (envelope s) (rcptToNotify s)) (sieveActions s))
  | None, Some f, _, _, _ => run f (with_dsn (with_notify (envelope s) (rcptToNotify s)) s)
  | None, None, Some f, _, _ => run f (with_notify (envelope s) (rcptToNotify s))
  | None, None, None, Some f, _ => run f (with_sieve (envelope s) (sieveActions s))
  | None, None, None, None, Some f => run f (envelope s)
  | None, None, None, None, None => (None, w)
  end.

(** The context the pipeline starts from. *)
Definition NewMessageContext (s : Session) (d : gostring) : MessageContext := {|
  RemoteHost := helloDomain s; CtxTLS := isTLS s; Authenticated := isAuth s;
  Username := username s; From := mailFrom s; To := rcptTo s; Data := d;
  Headers := parseHeaderBlock d; SpamScoreText := "0.0" : gostring; SpamVerdict := [];
  SpamReasons := []; RejectionCode := 0; RejectionMessage := []; Quarantine := false |}.

Definition aborted : gostring := "4.4.0 Requested action aborted: local error in processing".

(** The common tail of DATA and BDAT LAST: sender check, pipeline, trace
    headers, delivery.  [dflt] is the default rejection text, [okmsg] the final
    reply. *)
Definition finish (w : World) : World := set_sess resetTransaction w.
Definition keep_data (d : gostring) (acts : list gostring) (w : World) : World :=
  set_sess (fun s => set_data (state s) d (bdatBuffer s) acts s) w.

Definition acceptMessage (dflt okmsg : gostring) (d : gostring) (w : World) : outcome * World :=
  let s := sess w in
  if maxMessageSize srv <? Z.of_nat (length d)
  then respond 552 "5.2.3 Message exceeds fixed maximum message size" (finish w)
  else if negb (submissionFromAllowed s d)
  then respond 553 "5.7.1 Sender address in From header not owned by user" (finish w)
  else
  let w := keep_data d (sieveActions s) w in
  let send (pctx : option MessageContext) (d : gostring) (acts : list gostring) :=
  let d := match pctx with None => stripVerdictHeaders d | Some _ => d end in
  let d := addTraceHeaders srv s pctx d in
  match deliver (keep_data d acts w) with
  | (Some e, w') => let '(code, msg) := deliveryReply e in respond code msg (finish w')
  | (None, w') => respond 250 okmsg (reset_errCount (finish w'))
  end in
  match pipeline srv with
  | None => send None d (sieveActions s)
  | Some stages =>
      match processPipeline stages (NewMessageContext s d) with
      | (_, Some errStageTimeout, _) =>
          respond 451 "4.4.7 Message processing timed out, try again later" (finish w)
      | (ResultReject, _, c) =>
          let code := if 0 <? RejectionCode c then RejectionCode c else 550 in
          let msg := if RejectionMessage c =s? [] then dflt else RejectionMessage c in
          let '(code, msg) := stageReply code msg in
          respond code msg (finish (keep_data (stripVerdictHeaders d) (SpamReasons c) w))
      | (_, Some errRejected, _) => respond 451 aborted (finish w)
      | (r, None, c) =>
          let d := stripVerdictHeaders d in
          let d := match r with ResultQuarantine => spamHeader c ++ d | _ => d end in
          let '(d, acts) := applyJunkVerdict c r (SpamReasons c) d in
          send (Some c) d acts
      end
  end.

(** ** DATA *)
Definition data_error_reply (e : data_error) : outcome * reply :=
  match e with
  | DSessionBytes => (Quit, (421, "4.7.0 Session data limit exceeded, closing connection" : gostring))
  | DTooLarge => (Continue, (552, "5.2.3 Message exceeds fixed maximum message size" : gostring))
  | DRead ReadTimeout => (Quit, (421, "4.4.2 Timeout waiting for message data" : gostring))
  | DBareCR => (Continue, (554, "5.6.0 Message contains bare CR" : gostring))
  | DLineTooLong => (Continue, (554, "5.6.0 Message contains a line over 1000 octets" : gostring))
  | DNullByte => (Continue, (554, "5.6.0 Message contains NUL byte" : gostring))
  | DRead ReadEOF => (Continue, (451, aborted))
  end.

Definition handleDATA (w : World) : outcome * World :=
  let s := sess w in
  if bool_decide (state s <> StateRcptTo) || bool_decide (bdatBuffer s <> None) || mailBinary s
  then respond 503 bad_sequence w
  else
  let w := set_sess (fun s => set_data StateData (data s) (bdatBuffer s) (sieveActions s) s) w in
  let w := WriteResponse 354 "Start mail input; end with <CRLF>.<CRLF>" w in
  match readData (bufsize srv) (stream_end srv) (maxMessageSize srv) (maxSessionBytes srv)
      (bytesIn srv) (input w) with
  | (Err e, rest) =>
      let '(o, (code, msg)) := data_error_reply e in
      (o, WriteResponse code msg (finish (set_input rest w)))
  | (Ok d, rest) => acceptMessage "Message rejected" "OK" d (set_input rest w)
  end.

(** ** BDAT *)

Definition limit_exceeded (w : World) : outcome * World :=
  (Quit, WriteResponse 421 "4.7.0 Session data limit exceeded, closing connection" (finish w)).

Definition discardBDATChunk (size : Z) (w : World) : outcome * World :=
  if size <=? 0 then (Continue, w)
  else if maxSessionBytes srv - bytesIn srv (input w) <? size then limit_exceeded w
  else if Z.of_nat (length (input w)) <? size then (IoError, set_input [] w)
  else (Continue, set_input (drop (Z.to_nat size) (input w)) w).

Definition handleBDAT (arg : gostring) (w : World) : outcome * World :=
  let s := sess w in
  let parts := Fields arg in
  if bool_decide (state s <> StateRcptTo) then
  let w := WriteResponse 503 bad_sequence w in
  match parts with
  | p :: _ => match Atoi p with
  | Ok size => discardBDATChunk size w
  | Err _ => (Continue, w)
  end
  | [] => (Continue, w)
  end
  else match parts with
  | [] => respond 501 "5.5.4 Syntax error in BDAT parameters" w
  | p :: opts =>
      match Atoi p with
      | Err _ => respond 501 "5.5.4 Syntax error in BDAT size parameter" w
      | Ok size =>
          if size <? 0 then respond 501 "5.5.4 Syntax error in BDAT size parameter" w else
          if match opts with
          | [] => false
          | [o] => negb (ToUpper o =s? "LAST")
          | _ => true
          end
          then discardBDATChunk size (WriteResponse 501 "5.5.4 Syntax error in BDAT parameters" w)
          else
          let isLast := match opts with [] => false | _ => true end in
          let buf := default [] (bdatBuffer s) in
          if maxMessageSize srv - Z.of_nat (length buf) <? size
          then discardBDATChunk size
          (WriteResponse 552 "5.2.3 Message exceeds fixed maximum message size" (finish w))
          else if Z.of_nat (length (input w)) <? size then
          (* the copy fails part-way: the octets that arrived are kept *)
          (IoError, set_input [] (set_sess (fun s => set_data (state s) (data s)
            (Some (buf ++ input w)) (sieveActions s) s) w))
          else
          let n := Z.to_nat size in
          let buf := buf ++ take n (input w) in
          let w := set_input (drop n (input w)) w in
          let w := set_sess (fun s => set_data (state s) (data s) (Some buf) (sieveActions s) s) w in
          if (0 <? size) && (maxSessionBytes srv <? bytesIn srv (input w)) then limit_exceeded w
          else if negb isLast then respond 250 "2.0.0 OK" w
          else
          let w := set_sess (fun s => set_data (state s) (data s) None (sieveActions s) s) w in
          if mailBinary s then acceptMessage "5.7.1 Message rejected" "2.0.0 OK" buf w
          else if hasBareCR buf
          then respond 554 "5.6.0 Message contains bare CR" (finish w)
          else if ContainsByte buf NUL || hasOverlongLine buf
          then respond 554 "5.6.0 Message contains NUL byte or line over 1000 octets" (finish w)
          else acceptMessage "5.7.1 Message rejected" "2.0.0 OK" (normalizeBareLF buf) w
      end
  end.

(** ** AUTH *)
Definition maxAuthLine : Z := 12288.

Inductive auth_line := AuthLine (text : gostring) | AuthAbort (o : outcome).

Definition readAuthLine (w : World) : auth_line * World :=
  match readBoundedLine (bufsize srv) (stream_end srv) (Z.to_nat (maxAuthLine + 1)) (input w) with
  | (Err _, rest) => (AuthAbort IoError, set_input rest w)
  | (Ok (line, total, _), rest) =>
      let w := set_input rest w in
      if maxAuthLine <? total then
      (AuthAbort Continue, WriteResponse 501 "5.5.4 Authentication response too long"
        (set_tables (recordAuthFailure (clientAddr srv) (tables w)) w))
      else
      let text := TrimSpace line in
      if text =s? "*" then (AuthAbort Continue, WriteResponse 501 "5.0.0 Authentication cancelled" w)
      else (AuthLine text, w)
  end.

Definition fail_ip (w : World) : World :=
  set_tables (recordAuthFailure (clientAddr srv) (tables w)) w.
Definition fail_user (user : gostring) (w : World) : World :=
  set_tables (recordUserFailure user (recordAuthFailure (clientAddr srv) (tables w))) w.

(** The credentials check both mechanisms end in. *)
Definition authenticate (user password : gostring) (w : World) : outcome * World :=
  if match onAuth srv with Some f => f user password | None => false end
  then respond 235 "Authentication successful"
  (set_tables (clearUserFailures user (tables w))
    (set_sess (fun s => set_auth (state s) (helloDomain s) (isTLS s) true user s) w))
  else respond 535 "5.5.4 Authentication credentials invalid" (fail_user user w).

Definition locked_out : gostring := "5.7.8 Too many failed authentication attempts".

Definition authPlainCredentials (credentials : gostring) (w : World) : outcome * World :=
  match decode StdEncoding credentials with
  | None => respond 501 syntax_error (fail_ip w)
  | Some decoded =>
      match Split decoded NUL with
      | [authzid; user; password] =>
          let user := ToLower user in
          let '(locked, t) := isUserLockedOut user (tables w) in
          let w := set_tables t w in
          if locked then respond 535 locked_out w
          else if negb (authzid =s? []) && negb (ToLower authzid =s? user)
          then respond 535 "5.7.8 Authorization identity not permitted" (fail_user user w)
          else authenticate user password w
      | _ => respond 501 syntax_error (fail_ip w)
      end
  end.

Definition handleAuthPLAIN (initial : option gostring) (w : World) : outcome * World :=
  match initial with
  | Some c => authPlainCredentials c w
  | None =>
      match readAuthLine (WriteResponse 334 " " w) with
      | (AuthAbort o, w) => (o, w)
      | (AuthLine line, w) => authPlainCredentials (TrimSpace line) w
      end
  end.

(** The password half of AUTH LOGIN. *)
Definition authLoginPassword (user : gostring) (w : World) : outcome * World :=
  match readAuthLine (WriteResponse 334 "UGFzc3dvcmQ6" w) with
  | (AuthAbort o, w) => (o, w)
  | (AuthLine line, w) =>
      match decode StdEncoding (TrimSpace line) with
      | None => respond 501 syntax_error (fail_ip w)
      | Some password => authenticate user password w
      end
  end.

Definition authLoginUser (enc : gostring) (w : World) : outcome * World :=
  match decode StdEncoding enc with
  | None => respond 501 syntax_error (fail_ip w)
  | Some user =>
      let user := ToLower user in
      let '(locked, t) := isUserLockedOut user (tables w) in
      let w := set_tables t w in
      if locked then respond 535 locked_out w else authLoginPassword user w
  end.

Definition handleAuthLOGIN (initial : option gostring) (w : World) : outcome * World :=
  match initial with
  | Some c => authLoginUser (TrimSpace c) w
  | None =>
      match readAuthLine (WriteResponse 334 "VXNlcm5hbWU6" w) with
      | (AuthAbort o, w) => (o, w)
      | (AuthLine line, w) => authLoginUser (TrimSpace line) w
      end
  end.

(** *** SCRAM-SHA-256 *)
Definition scramIterations : Z := 4096.
Definition GenerateNonce : option gostring := encode StdEncoding <$> rand 18.
Definition GenerateSalt : option gostring := rand 16.

Definition bad_first : gostring := "5.5.4 Invalid SCRAM-SHA-256 client-first message".
Definition bad_final : gostring := "5.5.4 Invalid SCRAM-SHA-256 client-final message".

(** H(proof XOR ClientSignature) is the stored key. *)
Definition proofOK (stored cfb sf cfwp proof : gostring) : bool :=
  let clientSig := ClientProof stored cfb sf cfwp in
  (length proof =? length clientSig)%nat &&
  match XORBytes proof clientSig with
  | Some clientKey => sha256 clientKey =s? stored
  | None => false
  end.

(** The exchange from the client-final message on. *)
Definition scramFinal (user clientFirstBare serverFirst combinedNonce s : gostring)
  (clientFinal : gostring) (w : World) : outcome * World :=
  match ParseClientFinalMessage clientFinal with
  | None => respond 501 bad_final (fail_ip w)
  | Some m =>
      if negb (cfNonce m =s? combinedNonce)
      then respond 501 "5.5.4 Nonce mismatch in SCRAM-SHA-256" (fail_ip w)
      else match (getPassword ← onGetPassword srv; getPassword user) with
      | None => respond 535 "5.5.4 Authentication failed" (fail_user user w)
      | Some password =>
          let scram := NewSCRAMSHA256 password s scramIterations in
          match LastIndex clientFinal ",p=" with
          | None => respond 501 bad_final (fail_ip w)
          | Some proofAt =>
              let cfwp := take proofAt clientFinal in
              if negb (proofOK (storedKey scram) clientFirstBare serverFirst cfwp (cfClientProof m))
              then respond 535 "5.5.4 Authentication credentials invalid" (fail_user user w)
              else
              let sig := ServerSignature (serverKey scram) clientFirstBare serverFirst cfwp in
              respond 235 (BuildServerFinalMessage sig)
              (set_tables (clearUserFailures user (tables w))
                (set_sess (fun s => set_auth (state s) (helloDomain s) (isTLS s) true user s) w))
          end
      end
  end.

(** The exchange from the decoded client-first message on. *)
Definition scramFirst (clientFirst : gostring) (w : World) : outcome * World :=
  match ParseClientFirstMessage clientFirst, SplitN3 clientFirst "," with
  | Some m, Some (flag, authz, clientFirstBare) =>
      if negb ((flag =s? "n") || (flag =s? "y")) then
      if HasPrefix flag "p=" then respond 501 "5.5.4 Channel binding not supported" (fail_ip w)
      else respond 501 bad_first (fail_ip w)
      else if ciAuthCID m =s? []
      then respond 501 "5.5.4 Missing username in SCRAM-SHA-256" (fail_ip w)
      else
      let user := ToLower (ciAuthCID m) in
      let '(locked, t) := isUserLockedOut user (tables w) in
      let w := set_tables t w in
      if locked then respond 535 locked_out w else
      let authzid := TrimPrefix authz "a=" in
      if negb (authzid =s? []) && negb (ToLower authzid =s? user)
      then respond 535 "5.7.8 Authorization identity not permitted" (fail_user user w)
      else match GenerateNonce, GenerateSalt with
      | Some serverNonce, Some s =>
          let combinedNonce := ciNonce m ++ serverNonce in
          let serverFirst := BuildServerFirstMessage combinedNonce s scramIterations in
          match readAuthLine (WriteResponse 334 (encode StdEncoding serverFirst) w) with
          | (AuthAbort o, w) => (o, w)
          | (AuthLine line, w) =>
              match decode StdEncoding (TrimSpace line) with
              | None => respond 501 "5.5.4 Invalid base64 in SCRAM-SHA-256 final response" (fail_ip w)
              | Some clientFinal =>
                  scramFinal user clientFirstBare serverFirst combinedNonce s clientFinal w
              end
          end
      | _, _ => respond 501 "5.5.4 Server error" w
      end
  | _, _ => respond 501 bad_first (fail_ip w)
  end.

Definition scramInitial (enc : gostring) (w : World) : outcome * World :=
  match decode StdEncoding enc with
  | None => respond 501 "5.5.4 Invalid base64 in SCRAM-SHA-256 initial response" (fail_ip w)
  | Some clientFirst => scramFirst clientFirst w
  end.

Definition handleAuthSCRAMSHA256 (initial : option gostring) (w : World) : outcome * World :=
  match initial with
  | Some c => scramInitial c w
  | None =>
      match readAuthLine (WriteResponse 334 " " w) with
      | (AuthAbort o, w) => (o, w)
      | (AuthLine line, w) => scramInitial (TrimSpace line) w
      end
  end.

Definition handleAUTH (arg : gostring) (w : World) : outcome * World :=
  let s := sess w in
  if negb (isTLS s) && (negb (IsSubmission srv) || negb (AllowInsecure srv))
  then respond 538 "5.7.10 Encryption required for requested authentication mechanism" w
  else if bool_decide (state s <> StateGreeted) then respond 503 bad_sequence w
  else if isAuth s then respond 503 "5.5.1 Already authenticated" w
  else
  let '(locked, t) := isAuthLockedOut (clientAddr srv) (tables w) in
  let w := set_tables t w in
  if locked then respond 535 locked_out w else
  let '(mech, initial) := SplitN2 arg " " in
  let mech := ToUpper mech in
  if mech =s? "PLAIN" then handleAuthPLAIN initial w
  else if mech =s? "LOGIN" then handleAuthLOGIN initial w
  else if mech =s? "CRAM-MD5"
  then respond 504 "CRAM-MD5 authentication mechanism is disabled" w
  else if mech =s? "SCRAM-SHA-256" then
  if bool_decide (onGetPassword srv = None)
  then respond 504 "5.5.4 Unrecognized authentication type" w
  else handleAuthSCRAMSHA256 initial w
  else respond 504 "Unrecognized authentication type" w.

(** ** STARTTLS: [tlsInput] is what the peer sends inside the TLS stream; the
    plaintext the reader had already buffered is dropped with its reset. *)
Definition handleSTARTTLS (tlsInput : gostring) (w : World) : outcome * World :=
  let s := sess w in
  if isTLS s then respond 503 bad_sequence w
  else if negb (tlsAvailable srv) then respond 454 "4.7.0 TLS not available" w
  else
  let w := WriteResponse 220 "Ready to start TLS" w in
  if negb (handshake srv) then (IoError, w)
  else (Continue, set_input tlsInput
    (set_sess (fun s => set_auth StateNew [] true false [] (resetTransaction s)) w)).

(** ** The dispatcher *)
Definition HandleCommand (tlsInput : gostring) (line : gostring) (w : World) : outcome * World :=
  let '(cmd, arg) := parseCommand line in
  let cmd := ToUpper cmd in
  if cmd =s? "EHLO" then handleEHLO arg w
  else if cmd =s? "HELO" then handleHELO arg w
  else if cmd =s? "MAIL" then handleMAIL arg w
  else if cmd =s? "RCPT" then handleRCPT arg w
  else if cmd =s? "DATA" then handleDATA w
  else if cmd =s? "BDAT" then handleBDAT arg w
  else if cmd =s? "RSET" then handleRSET w
  else if cmd =s? "VRFY" then handleVRFY arg w
  else if cmd =s? "EXPN" then handleEXPN w
  else if cmd =s? "HELP" then handleHELP w
  else if cmd =s? "NOOP" then handleNOOP w
  else if cmd =s? "QUIT" then handleQUIT w
  else if cmd =s? "AUTH" then handleAUTH arg w
  else if cmd =s? "STARTTLS" then
  if negb (TrimSpace arg =s? []) then respond 501 "5.5.4 Syntax error (no parameters allowed)" w
  else handleSTARTTLS tlsInput w
  else respond 500 "5.5.2 Syntax error, command unrecognized" w.

(** ** The connection's command loop: one round, and whether it goes on *)
Definition maxCommandLine : Z := 2048.
Definition defaultMaxCommands : Z := 10000.
Definition defaultMaxErrors : Z := 20.
Definition maxCmds : Z := if MaxCommands srv <=? 0 then defaultMaxCommands else MaxCommands srv.
Definition maxErrs : Z := if MaxErrors srv <=? 0 then defaultMaxErrors else MaxErrors srv.

Definition serveRound (tlsInput : gostring) (w : World) : bool * World :=
  match readBoundedLine (bufsize srv) (stream_end srv) (Z.to_nat (maxCommandLine + 1)) (input w) with
  | (Err _, rest) => (false, set_input rest w)
  | (Ok (raw, total, _), rest) =>
      let w := set_input rest w in
      if maxCommandLine <? total then
      let w := WriteResponse 500 "5.5.2 Line too long" w in
      (negb (defaultMaxErrors <=? errCount w), w)
      else if maxSessionBytes srv <? bytesIn srv (input w)
      then (false, WriteResponse 421 "4.7.0 Session data limit exceeded, closing connection" w)
      else
      let line := TrimSpace raw in
      if line =s? [] then (true, w) else
      let w := count_command w in
      if maxCmds <? cmdCount w
      then (false, WriteResponse 421 "4.7.0 Too many commands, closing connection" w)
      else
      let '(o, w) := HandleCommand tlsInput line w in
      match o with
      | Quit => (false, w)
      | _ => if maxErrs <=? errCount w
          then (false, WriteResponse 421 "4.7.0 Too many errors, closing connection" w)
          else (true, w)
      end
  end.
End Handlers.
