(* ===== verification/SmtpInv.v ===== *)
(** * internal/smtp: invariants of the session and policy of what it delivers

    [smtp_step] is a round of the connection's command loop, or the peer sending
    whatever it likes, so a reachable state is one some client can bring about. *)
From S2P Require Import Prelude GoLib Base64 Scram SmtpData SmtpParams SmtpSession.

Section Invariant.
Context {U : UnicodeTables} {M : NetMail} {C : Crypto} (srv : Server).

Inductive smtp_step : World -> World -> Prop :=
  | step_round now rand tlsInput w :
  smtp_step w (snd (serveRound srv now rand tlsInput w))
  | step_input i w : smtp_step w (set_input i w).

(** A new connection: implicit TLS starts with [isTLS] set. *)
Definition connected (tls : bool) (i : gostring) (t : Tables) : World := {|
  sess := set_auth StateNew [] tls false [] NewSession; tables := t; errCount := 0; cmdCount := 0;
  input := i; replies := [(220, Hostname srv ++ " ESMTP uMailServer")]; delivered := [] |}.

Definition auth_required : bool := RequireAuth srv || IsSubmission srv.

(** Who may be authenticated: over TLS (or where the configuration allows
    otherwise), with credentials the handler accepted. *)
Definition channel_ok (s : Session) : Prop :=
  isTLS s = true \/ (IsSubmission srv = true /\ AllowInsecure srv = true).
Definition scram_verified (user : gostring) : Prop :=
  exists getPassword password salt nonce cfb cfwp proof,
  onGetPassword srv = Some getPassword /\ getPassword user = Some password /\
  proofOK (storedKey (NewSCRAMSHA256 password salt scramIterations)) cfb
  (BuildServerFirstMessage nonce salt scramIterations) cfwp proof = true.
Definition password_verified (user : gostring) : Prop :=
  exists f password, onAuth srv = Some f /\ f user password = true.

Definition auth_ok (s : Session) : Prop :=
  isAuth s = true ->
  channel_ok s /\ (password_verified (username s) \/ scram_verified (username s)).

(** The policy every recipient of an envelope passed. *)
Definition rcpt_ok (auth : bool) (from rcpt : gostring) : Prop :=
  (auth = false -> localRecipient srv rcpt = true) /\
  recipientExists srv rcpt = true /\ envelopeValid srv from rcpt = true.

Definition envelope_ok (auth : bool) (user from : gostring) (to : list gostring) : Prop :=
  (auth_required = true -> auth = true) /\
  (auth = true -> senderAllowed srv user from = true) /\
  Forall (rcpt_ok auth from) to /\ Z.of_nat (length to) <= maxRecipients srv.

(** No open transaction. *)
Definition idle (s : Session) : Prop :=
  mailFrom s = [] /\ rcptTo s = [] /\ rcptToNotify s = [] /\ rcptOrcpt s = [] /\
  rcptRaw s = [] /\ bdatBuffer s = None /\ mailBinary s = false /\ smtputf8 s = false.

Definition bdat_ok (s : Session) : Prop :=
  match bdatBuffer s with
  | Some b => Z.of_nat (length b) <= maxMessageSize srv
  | None => True
  end.

Definition sess_ok (s : Session) : Prop :=
  auth_ok s /\
  match state s with
  | StateNew | StateGreeted => idle s
  | StateMailFrom =>
      rcptTo s = [] /\ rcptToNotify s = [] /\ rcptOrcpt s = [] /\ rcptRaw s = [] /\
      bdatBuffer s = None /\ envelope_ok (isAuth s) (username s) (mailFrom s) []
  | StateRcptTo =>
      rcptTo s <> [] /\ length (rcptToNotify s) = length (rcptTo s) /\
      length (rcptOrcpt s) = length (rcptTo s) /\ length (rcptRaw s) = length (rcptTo s) /\
      envelope_ok (isAuth s) (username s) (mailFrom s) (rcptTo s) /\ bdat_ok s
  | StateData => False
  end.

Definition delivered_ok (d : Delivery) : Prop :=
  dTo d <> [] /\ envelope_ok (dAuth d) (dUser d) (dFrom d) (dTo d).

Definition smtp_inv (w : World) : Prop :=
  sess_ok (sess w) /\ Forall delivered_ok (delivered w).

(** ** Worlds that differ in neither the session nor the deliveries *)
Definition same (w w' : World) : Prop := sess w' = sess w /\ delivered w' = delivered w.

Lemma same_inv w w' : same w w' -> smtp_inv w -> smtp_inv w'.
Proof. intros [H1 H2] [Hs Hd]. split; congruence. Qed.

Lemma same_refl w : same w w.
Proof. done. Qed.
Lemma same_respond c m w w' : same w w' -> same w (snd (respond c m w')).
Proof. intros [H1 H2]. split; done. Qed.
Lemma same_write c m w w' : same w w' -> same w (WriteResponse c m w').
Proof. intros [H1 H2]. split; done. Qed.
Lemma same_tables t w w' : same w w' -> same w (set_tables t w').
Proof. intros [H1 H2]. split; done. Qed.
Lemma same_input i w w' : same w w' -> same w (set_input i w').
Proof. intros [H1 H2]. split; done. Qed.

Hint Resolve same_refl same_respond same_write same_tables same_input : umail.

(** ** Session transitions *)
Lemma reset_ok s : auth_ok s -> sess_ok (resetTransaction s).
Proof.
  intros Ha. split; [done |]. simpl. by destruct (state s); repeat split.
Qed.

Lemma finish_inv w : auth_ok (sess w) -> Forall delivered_ok (delivered w) -> smtp_inv (finish w).
Proof. intros Ha Hd. split; [by apply reset_ok | done]. Qed.

Lemma inv_auth w : smtp_inv w -> auth_ok (sess w).
Proof. by intros [[H _] _]. Qed.
Lemma inv_delivered w : smtp_inv w -> Forall delivered_ok (delivered w).
Proof. by intros [_ H]. Qed.
Hint Resolve finish_inv inv_auth inv_delivered : umail.

Lemma finish_same w w' : smtp_inv w -> same w w' -> smtp_inv (finish w').
Proof.
  intros Hi [H1 H2]. apply finish_inv; [rewrite H1 | rewrite H2]; auto with umail.
Qed.

Lemma respond_inv c m w : smtp_inv w -> smtp_inv (snd (respond c m w)).
Proof. apply same_inv. auto with umail. Qed.
Lemma write_inv c m w : smtp_inv w -> smtp_inv (WriteResponse c m w).
Proof. apply same_inv. auto with umail. Qed.
Hint Resolve respond_inv write_inv finish_same : umail.

Lemma hello_inv arg w : smtp_inv w -> smtp_inv (hello arg w).
Proof.
  intros Hi. split; [| by apply (inv_delivered w)]. apply reset_ok, (inv_auth w Hi).
Qed.

Lemma handleEHLO_inv arg w : smtp_inv w -> smtp_inv (snd (handleEHLO srv arg w)).
Proof.
  intros Hi. unfold handleEHLO. split_if; [auto with umail |].
  apply (same_inv (hello arg w)); [done |]. by apply hello_inv.
Qed.
Lemma handleHELO_inv arg w : smtp_inv w -> smtp_inv (snd (handleHELO srv arg w)).
Proof.
  intros Hi. unfold handleHELO. split_if; auto using hello_inv with umail.
Qed.

Lemma handleMAIL_inv arg w : smtp_inv w -> smtp_inv (snd (handleMAIL srv arg w)).
Proof.
  intros Hi. unfold handleMAIL.
  repeat (split_if; [by auto with umail |]).
  destruct (parseMailFromWithRet arg) as [[from ret] |]; [| auto with umail].
  match goal with |- context [match ?r with Ok _ => _ | Err _ => _ end] => destruct r as [v | msg] end;
    [| auto with umail].
  destruct (checkMailParams (maxMessageSize srv) arg) as [mp | [code msg]]; [| auto with umail].
  repeat (split_if; [by auto with umail |]).
  apply respond_inv. breflect. split; [| by apply (inv_delivered w)]. split; [apply (inv_auth w Hi) |].
  simpl. split_and!; try done. unfold envelope_ok. split_and!.
  - unfold auth_required. intros Hr. destruct E1 as [E1 | E1]; [congruence | by breflect].
  - intros Ha. destruct E3 as [E3 | E3]; [congruence | by breflect].
  - constructor.
  - unfold maxRecipients. simpl. split_if; breflect; lia.
Qed.

Lemma envelope_snoc auth user from to rcpt :
  envelope_ok auth user from to -> rcpt_ok auth from rcpt ->
  Z.of_nat (length to) < maxRecipients srv -> envelope_ok auth user from (to ++ [rcpt]).
Proof.
  intros (H1 & H2 & H3 & H4) Hr Hlen. split_and!; try done.
  - by apply Forall_app_2; [| constructor].
  - rewrite length_app. simpl. lia.
Qed.

Lemma handleRCPT_inv now arg w : smtp_inv w -> smtp_inv (snd (handleRCPT srv now arg w)).
Proof.
  intros Hi. unfold handleRCPT. split_if; [by auto with umail |].
  destruct (parseRcptToWithNotify arg) as [[to0 notify] |]; [| by auto with umail].
  cbv zeta. match goal with |- context [ValidateEmail ?t] => destruct (ValidateEmail t) as [v |] end;
    [| by auto with umail].
  split_if; [by auto with umail |].
  destruct (checkRcptParams arg) as [[] | [code msg]]; [| by auto with umail].
  repeat (split_if; [by auto with umail |]).
  set (rcpt := normalizeAddr v) in *.
  match goal with |- context [let '(_, _) := ?p in _] => destruct p as [allowed t] end.
  split_if; [apply respond_inv, (same_inv w); auto with umail |].
  apply respond_inv. split; [| by apply (inv_delivered w)]. split; [apply (inv_auth w Hi) |].
  breflect. destruct Hi as [[_ Hs] _]. simpl.
  assert (Hr : rcpt_ok (isAuth (sess w)) (mailFrom (sess w)) rcpt).
  { split_and!; try done. intros Ha. rewrite Ha in *. destruct E3 as [E3 | E3]; [done | by breflect]. }
  destruct (state (sess w)) eqn:Es; destruct E as [E | E]; breflect; try done;
    try (by destruct E; congruence).
  - destruct Hs as (H1 & H2 & H3 & H4 & Hb & He). rewrite H1, H2, H3, H4 in *.
    split_and!; try done.
    + by apply (envelope_snoc _ _ _ []).
    + unfold bdat_ok. simpl. by rewrite Hb.
  - destruct Hs as (Hne & H1 & H2 & H3 & He & Hb). rewrite !length_app, H1, H2, H3.
    split_and!; try done; [by destruct (rcptTo (sess w)) |]. by apply envelope_snoc.
Qed.

(** ** Delivery: only a session with a complete envelope gets there. *)
Definition sendable (w : World) : Prop :=
  auth_ok (sess w) /\ Forall delivered_ok (delivered w) /\ rcptTo (sess w) <> [] /\
  envelope_ok (isAuth (sess w)) (username (sess w)) (mailFrom (sess w)) (rcptTo (sess w)).

Lemma sendable_keep d acts w : sendable w -> sendable (keep_data d acts w).
Proof. done. Qed.
Lemma sendable_finish w : sendable w -> smtp_inv (finish w).
Proof. intros (Ha & Hd & _). by apply finish_inv. Qed.

Lemma log_delivery_ok w d :
  Forall delivered_ok (delivered w) -> delivered_ok d -> Forall delivered_ok (delivered (log_delivery d w)).
Proof. intros H1 H2. apply Forall_app_2; [done | by constructor]. Qed.

Lemma deliver_sendable w : sendable w -> smtp_inv (finish (snd (deliver srv w))).
Proof.
  intros Hs. pose proof Hs as (Ha & Hd & Hne & He). unfold deliver.
  repeat case_match; simpl; try (by apply sendable_finish);
    (apply finish_inv; [done | apply log_delivery_ok; done]).
Qed.

Hint Resolve sendable_finish sendable_keep : umail.

Lemma reset_errCount_inv w : smtp_inv w -> smtp_inv (reset_errCount w).
Proof. by apply same_inv. Qed.

Lemma acceptMessage_inv dflt okmsg d w :
  sendable w -> smtp_inv (snd (acceptMessage srv dflt okmsg d w)).
Proof.
  intros Hs. unfold acceptMessage. cbv zeta.
  repeat (split_if; [by auto with umail |]).
  assert (Hsend : forall d acts,
    smtp_inv (snd (match deliver srv (keep_data d acts (keep_data d acts w)) with
    | (Some e, w') => let '(code, msg) := deliveryReply e in respond code msg (finish w')
    | (None, w') => respond 250 okmsg (reset_errCount (finish w'))
    end)) /\
    forall d' acts', smtp_inv (snd (match deliver srv (keep_data d acts (keep_data d' acts' w)) with
    | (Some e, w') => let '(code, msg) := deliveryReply e in respond code msg (finish w')
    | (None, w') => respond 250 okmsg (reset_errCount (finish w'))
    end))).
  { intros d1 a1. split; [| intros d2 a2];
      match goal with |- context [deliver srv ?v] =>
      pose proof (deliver_sendable v ltac:(auto with umail)) as Hd;
      destruct (deliver srv v) as [[e |] w'] end; simpl in Hd;
      try (destruct (deliveryReply e) as [code msg]); apply respond_inv; auto using reset_errCount_inv. }
  destruct (pipeline srv) as [stages |]; [| by apply Hsend].
  destruct (processPipeline stages (NewMessageContext (sess w) d)) as [[r err] c].
  destruct err as [[] |], r; repeat split_if; try (by auto with umail);
    try (destruct (stageReply _ _) as [code msg]; by auto 6 with umail);
    unfold applyJunkVerdict; repeat split_if; by apply Hsend.
Qed.

Lemma sendable_of_RcptTo w : smtp_inv w -> state (sess w) = StateRcptTo -> sendable w.
Proof.
  intros [[Ha Hs] Hd] He. rewrite He in Hs. destruct Hs as (? & _ & _ & _ & ? & _). done.
Qed.

Lemma handleDATA_inv w : smtp_inv w -> smtp_inv (snd (handleDATA srv w)).
Proof.
  intros Hi. unfold handleDATA. split_if; [by auto with umail |]. breflect.
  assert (Hs : sendable w).
  { apply sendable_of_RcptTo; [done |]. by destruct (decide (state (sess w) = StateRcptTo)). }
  destruct (readData _ _ _ _ _ _) as [[d | e] rest].
  - by apply acceptMessage_inv.
  - destruct (data_error_reply e) as [o [code msg]]. by apply write_inv, finish_inv; destruct Hs as (? & ? & _).
Qed.

Lemma discard_inv size w : smtp_inv w -> smtp_inv (snd (discardBDATChunk srv size w)).
Proof.
  intros Hi. unfold discardBDATChunk, limit_exceeded. repeat split_if; simpl;
    auto with umail; by apply (same_inv w).
Qed.
Hint Resolve discard_inv : umail.

(** Storing a chunk that fits keeps the buffer within the limit. *)
Lemma set_buffer_inv w buf :
  smtp_inv w -> state (sess w) = StateRcptTo -> Z.of_nat (length buf) <= maxMessageSize srv ->
  smtp_inv (set_sess (fun s => set_data (state s) (data s) (Some buf) (sieveActions s) s) w).
Proof.
  intros [[Ha Hs] Hd] He Hb. split; [| done]. split; [done |]. simpl. rewrite He in *. tauto.
Qed.

Lemma handleBDAT_inv arg w : smtp_inv w -> smtp_inv (snd (handleBDAT srv arg w)).
Proof.
  intros Hi. unfold handleBDAT.
  destruct (bool_decide (state (sess w) <> StateRcptTo)) eqn:Est.
  { destruct (Fields arg) as [| p opts]; [by apply write_inv |].
    destruct (Atoi p); auto with umail. }
  assert (Hst : state (sess w) = StateRcptTo)
    by (breflect; by destruct (decide (state (sess w) = StateRcptTo))).
  destruct (Fields arg) as [| p opts]; [by auto with umail |].
  destruct (Atoi p) as [size |]; [| by auto with umail].
  destruct (size <? 0) eqn:Hneg; [by auto with umail |].
  match goal with |- context [if ?b then discardBDATChunk _ _ _ else _] => destruct b end;
    [by auto with umail |].
  cbv zeta. set (buf := default [] (bdatBuffer (sess w))).
  destruct (maxMessageSize srv - Z.of_nat (length buf) <? size) eqn:Hfit;
    [by auto with umail |].
  destruct (Z.of_nat (length (input w)) <? size) eqn:Hin; breflect.
  { apply (same_inv (set_sess (fun s => set_data (state s) (data s) (Some (buf ++ input w))
      (sieveActions s) s) w)); [done |].
    apply set_buffer_inv; auto. rewrite length_app. lia. }
  match goal with |- context [limit_exceeded ?v] => set (w1 := v) end.
  assert (H1 : smtp_inv w1 /\ state (sess w1) = StateRcptTo).
  { split; [| done].
    apply (set_buffer_inv (set_input (drop (Z.to_nat size) (input w)) w)); auto.
    rewrite length_app, length_take. lia. }
  destruct H1 as [Hi1 Hst1].
  split_if; [apply write_inv, (finish_same w1); auto with umail |].
  split_if; [by auto with umail |].
  match goal with |- context [acceptMessage _ _ _ _ ?v] => set (w2 := v) end.
  assert (Hs2 : sendable w2) by (by apply (sendable_of_RcptTo w1)).
  repeat split_if; auto using acceptMessage_inv with umail.
Qed.
(** ** AUTH and STARTTLS *)
Lemma readAuthLine_same now w w1 r w' :
  same w w1 -> readAuthLine srv now w1 = (r, w') -> same w w'.
Proof.
  unfold readAuthLine. destruct (readBoundedLine _ _ _ _) as [[[[l t] b] | e] rest]; intros Hs H.
  - repeat split_if; simplify_eq/=; auto with umail.
  - simplify_eq/=. auto with umail.
Qed.

(** A world that may authenticate: greeted, idle, over a channel that allows it. *)
Definition may_auth (w : World) : Prop :=
  smtp_inv w /\ state (sess w) = StateGreeted /\ channel_ok (sess w).

Lemma may_auth_same w w' : same w w' -> may_auth w -> may_auth w'.
Proof.
  intros Hs (Hi & Hst & Hc). pose proof Hs as [He _].
  split_and!; [by apply (same_inv w) | by rewrite He | by rewrite He].
Qed.
Lemma may_auth_inv w : may_auth w -> smtp_inv w.
Proof. by intros (? & _). Qed.

Lemma login_inv user t w :
  may_auth w -> password_verified user \/ scram_verified user ->
  smtp_inv (set_tables t (set_sess (fun s => set_auth (state s) (helloDomain s) (isTLS s) true user s) w)).
Proof.
  intros ([[Ha Hs] Hd] & Hst & Hc) Hv. split; [| done]. split; [done |].
  simpl. rewrite Hst in *. done.
Qed.

Lemma same_fail_ip now w w' : same w w' -> same w (fail_ip srv now w').
Proof. apply same_tables. Qed.
Lemma same_fail_user now u w w' : same w w' -> same w (fail_user srv now u w').
Proof. apply same_tables. Qed.
Hint Resolve same_fail_ip same_fail_user may_auth_inv : umail.

Lemma may_auth_respond c m w w' : may_auth w -> same w w' -> smtp_inv (snd (respond c m w')).
Proof. intros Hm Hs. apply respond_inv, (same_inv w); auto with umail. Qed.
Hint Resolve may_auth_respond : umail.

Lemma authenticate_inv now user pw w :
  may_auth w -> smtp_inv (snd (authenticate srv now user pw w)).
Proof.
  intros Hm. unfold authenticate.
  destruct (onAuth srv) as [f |] eqn:Ef; [| eauto with umail].
  destruct (f user pw) eqn:Ep; [| eauto with umail].
  apply respond_inv, login_inv; [done |]. left. by exists f, pw.
Qed.

Lemma authPlain_inv now c w : may_auth w -> smtp_inv (snd (authPlainCredentials srv now c w)).
Proof.
  intros Hm. unfold authPlainCredentials.
  destruct (decode _ c) as [d |]; [| eauto with umail].
  destruct (Split d NUL) as [| z [| u [| p [| ? ?]]]]; try (eauto with umail; fail).
  destruct (isUserLockedOut srv now (ToLower u) (tables w)) as [locked t].
  repeat (split_if; [by eauto with umail |]).
  apply authenticate_inv, (may_auth_same w); auto with umail.
Qed.

(** A continuation line is read, then the exchange goes on. *)
Lemma after_line now w w1 (k : gostring -> World -> outcome * World) :
  may_auth w -> same w w1 ->
  (forall line w', may_auth w' -> smtp_inv (snd (k line w'))) ->
  smtp_inv (snd (match readAuthLine srv now w1 with
  | (AuthAbort o, w') => (o, w')
  | (AuthLine line, w') => k line w'
  end)).
Proof.
  intros Hm Hs Hk. destruct (readAuthLine srv now w1) as [r w'] eqn:E.
  apply (readAuthLine_same now w) in E; [| done].
  assert (Hm' : may_auth w') by (by apply (may_auth_same w)).
  destruct r; [by apply Hk | by apply may_auth_inv].
Qed.

Lemma handleAuthPLAIN_inv now i w : may_auth w -> smtp_inv (snd (handleAuthPLAIN srv now i w)).
Proof.
  intros Hm. unfold handleAuthPLAIN. destruct i; [by apply authPlain_inv |].
  apply (after_line now w _ (fun line => authPlainCredentials srv now (TrimSpace line)));
    auto using authPlain_inv with umail.
Qed.

Lemma authLoginPassword_inv now u w : may_auth w -> smtp_inv (snd (authLoginPassword srv now u w)).
Proof.
  intros Hm. unfold authLoginPassword. eapply (after_line now w); auto with umail.
  intros line w' Hm'. destruct (decode _ _); eauto using authenticate_inv with umail.
Qed.

Lemma authLoginUser_inv now e w : may_auth w -> smtp_inv (snd (authLoginUser srv now e w)).
Proof.
  intros Hm. unfold authLoginUser. destruct (decode _ e) as [u |]; [| eauto with umail].
  destruct (isUserLockedOut srv now (ToLower u) (tables w)) as [locked t].
  split_if; [by eauto with umail |].
  apply authLoginPassword_inv, (may_auth_same w); auto with umail.
Qed.

Lemma handleAuthLOGIN_inv now i w : may_auth w -> smtp_inv (snd (handleAuthLOGIN srv now i w)).
Proof.
  intros Hm. unfold handleAuthLOGIN. destruct i; [by apply authLoginUser_inv |].
  apply (after_line now w _ (fun line => authLoginUser srv now (TrimSpace line)));
    auto using authLoginUser_inv with umail.
Qed.

Lemma scramFinal_inv now user cfb nonce salt cf w :
  may_auth w ->
  smtp_inv (snd (scramFinal srv now user cfb (BuildServerFirstMessage nonce salt scramIterations)
    nonce salt cf w)).
Proof.
  intros Hm. unfold scramFinal. destruct (ParseClientFinalMessage cf) as [m |]; [| eauto with umail].
  split_if; [by eauto with umail |].
  destruct (onGetPassword srv) as [g |] eqn:Eg; simpl; [| by eauto with umail].
  destruct (g user) as [pw |] eqn:Epw; [| by eauto with umail].
  destruct (LastIndex cf _) as [at_ |]; [| by eauto with umail].
  split_if; [by eauto with umail |]. apply respond_inv, login_inv; [done |]. right.
  eexists g, pw, salt, nonce, cfb, _, _. split_and!; [done.. |]. breflect. exact E0.
Qed.

Lemma scramFirst_inv now rand cf w : may_auth w -> smtp_inv (snd (scramFirst srv now rand cf w)).
Proof.
  intros Hm. unfold scramFirst.
  destruct (ParseClientFirstMessage cf) as [m |]; [| by eauto with umail].
  destruct (SplitN3 cf ",") as [[[flag authz] bare] |]; [| by eauto with umail].
  split_if; [split_if; by eauto with umail |]. split_if; [by eauto with umail |].
  destruct (isUserLockedOut srv now (ToLower (ciAuthCID m)) (tables w)) as [locked t].
  repeat (split_if; [by eauto with umail |]).
  destruct (GenerateNonce rand) as [sn |]; [| by eauto with umail].
  destruct (GenerateSalt rand) as [salt |]; [| by eauto with umail].
  eapply (after_line now w); [done | auto with umail |].
  intros line w' Hm'. destruct (decode _ _); eauto using scramFinal_inv with umail.
Qed.

Lemma handleAuthSCRAM_inv now rand i w :
  may_auth w -> smtp_inv (snd (handleAuthSCRAMSHA256 srv now rand i w)).
Proof.
  assert (Hinit : forall e w, may_auth w -> smtp_inv (snd (scramInitial srv now rand e w))).
  { intros e v Hm. unfold scramInitial. destruct (decode _ e); eauto using scramFirst_inv with umail. }
  intros Hm. unfold handleAuthSCRAMSHA256. destruct i; [by apply Hinit |].
  apply (after_line now w _ (fun line => scramInitial srv now rand (TrimSpace line)));
    auto with umail.
Qed.

Lemma handleAUTH_inv now rand arg w : smtp_inv w -> smtp_inv (snd (handleAUTH srv now rand arg w)).
Proof.
  intros Hi. unfold handleAUTH. repeat (split_if; [by auto with umail |]).
  assert (Hm : may_auth w).
  { split_and!; [done | |].
    - breflect. by destruct (decide (state (sess w) = StateGreeted)).
    - unfold channel_ok. breflect. destruct E as [E | E]; breflect; [by left | by right]. }
  destruct (isAuthLockedOut srv now (clientAddr srv) (tables w)) as [locked t].
  split_if; [by eauto with umail |].
  destruct (SplitN2 arg " ") as [mech i].
  assert (Hm' : may_auth (set_tables t w)) by (apply (may_auth_same w); auto with umail).
  repeat split_if; eauto using handleAuthPLAIN_inv, handleAuthLOGIN_inv, handleAuthSCRAM_inv with umail.
Qed.

Lemma handleSTARTTLS_inv i w : smtp_inv w -> smtp_inv (snd (handleSTARTTLS srv i w)).
Proof.
  intros Hi. unfold handleSTARTTLS. repeat (split_if; [by auto with umail |]).
  split; [| by apply (inv_delivered w)]. split; [by intros ? |]. done.
Qed.

Lemma HandleCommand_inv now rand i line w :
  smtp_inv w -> smtp_inv (snd (HandleCommand srv now rand i line w)).
Proof.
  intros Hi. unfold HandleCommand. destruct (parseCommand line) as [cmd arg].
  repeat split_if; auto using handleEHLO_inv, handleHELO_inv, handleMAIL_inv, handleRCPT_inv,
    handleDATA_inv, handleBDAT_inv, handleAUTH_inv, handleSTARTTLS_inv with umail.
  - by apply respond_inv, finish_same with w.
  - unfold handleVRFY. split_if; auto with umail.
Qed.

Lemma serveRound_inv now rand i w : smtp_inv w -> smtp_inv (snd (serveRound srv now rand i w)).
Proof.
  intros Hi. unfold serveRound.
  destruct (readBoundedLine _ _ _ _) as [[[[l t] b] | e] rest]; [| by apply (same_inv w)].
  assert (H1 : smtp_inv (set_input rest w)) by (by apply (same_inv w)).
  split_if; [by apply write_inv |]. split_if; [by apply write_inv |].
  split_if; [done |]. split_if; [by apply write_inv, (same_inv w) |].
  match goal with |- context [HandleCommand srv now rand i ?l ?v] =>
    pose proof (HandleCommand_inv now rand i l v ltac:(by apply (same_inv w))) as H;
    destruct (HandleCommand srv now rand i l v) as [[] w'] end; simpl in H;
    try done; split_if; auto using write_inv.
Qed.

Lemma smtp_step_inv w w' : smtp_inv w -> smtp_step w w' -> smtp_inv w'.
Proof.
  intros Hi Hs. destruct Hs; [by apply serveRound_inv | by apply (same_inv w)].
Qed.

Lemma connected_inv tls i t : smtp_inv (connected tls i t).
Proof. split; [| constructor]. by split. Qed.

Lemma reachable_inv tls i t w : star smtp_step (connected tls i t) w -> smtp_inv w.
Proof. apply star_invariant; [apply connected_inv | apply smtp_step_inv]. Qed.
End Invariant.
