(* ===== verification/SmtpProps.v ===== *)
(** * internal/smtp: what the session guarantees

    The consequences of the session invariant, the framing of BDAT, the message
    pipeline failing closed, STARTTLS, the SCRAM exchange and the lockout tables.
    The section [Examples] fixes a server for the witnesses. *)
From S2P Require Import Prelude GoLib Base64 Scram SmtpData SmtpParams SmtpSession SmtpInv.

(** ** A concrete server *)
Module Examples.
#[export] Existing Instance ascii_tables.
#[export] Existing Instance plain_mail.
#[export] Existing Instance toy_crypto.

Definition no_tables : Tables := {| authFailures := ∅; userFailures := ∅; userRcpt := ∅ |}.

Definition mx : Server := {|
  Hostname := "mx.test"; MaxMessageSize := 1000; MaxSessionBytes := 100000; MaxRecipients := 2;
  RequireAuth := false; IsSubmission := false; AllowInsecure := false; tlsAvailable := true;
  maxLoginAttempts := 3; lockoutDuration := minute; rcptPerHour := 2; MaxCommands := 0;
  MaxErrors := 0; clientAddr := "192.0.2.1";
  onAuth := Some (fun u p => (u =s? "ann@test") && (p =s? "pw"));
  onSenderAllowed := Some (fun u a => u =s? a);
  onLocalDomain := Some (fun d => d =s? "test");
  onRecipientExists := Some (fun r => negb (r =s? "nobody@test"));
  onValidate := None; onDeliverWithAuth := None; onDeliverWithDSN := None;
  onDeliverWithNotify := None; onDeliverWithSieve := None; onDeliver := Some (fun _ => None);
  pipeline := Some []; onGetPassword := Some (fun u => if u =s? "ann@test" then Some ("pw" : gostring) else None);
  handshake := true; addTraceHeaders := fun _ _ d => d;
  bufsize := 16; stream_end := ReadEOF; bytesIn := fun _ => 0 |}.

Definition lines (ls : list gostring) : gostring := message ls.
Definition no_rand (n : nat) : option gostring := None.

(** The loop, [n] rounds. *)
Fixpoint run (srv : Server) (n : nat) (w : World) : World :=
  match n with
  | O => w
  | S n => snd (serveRound srv 0 no_rand [] (run srv n w))
  end.
Lemma run_star srv n w : star (smtp_step srv) w (run srv n w).
Proof.
  induction n as [| n IH]; simpl; [constructor |]. eapply star_snoc; [done |]. constructor.
Qed.

(** An unauthenticated peer tries to relay, then delivers to a local user. *)
Definition dialogue : gostring := lines
  ["EHLO a.test" : gostring; "MAIL FROM:<x@far>" : gostring; "RCPT TO:<y@far>" : gostring;
    "RCPT TO:<nobody@test>" : gostring; "RCPT TO:<ann@test>" : gostring; "DATA" : gostring;
    "Subject: hi" : gostring; [] ; "text" : gostring; "." : gostring].
Definition after : World := run mx 6 (connected mx false dialogue no_tables).

Example dialogue_replies : map fst (replies after) =
  [220; 250; 250; 250; 250; 250; 250; 250; 250; 250; 250; 250; 250; 554; 550; 250; 354; 250].
Proof. vm_compute. reflexivity. Qed.
End Examples.
Import Examples.

(** ** Who may send what to whom *)
Section Policy.
Context {U : UnicodeTables} {M : NetMail} {C : Crypto}.

(** C1: whatever a client sends, every message handed to a delivery handler has
    between one recipient and the configured maximum; the server's
    authentication requirement was met; an authenticated sender owns the
    envelope sender; every recipient exists and passed the envelope check; and
    an unauthenticated session reached local domains only (no open relay). *)
Theorem delivered_policy srv tls i t w d :
  star (smtp_step srv) (connected srv tls i t) w -> d ∈ delivered w ->
  (1 <= length (dTo d))%nat /\ Z.of_nat (length (dTo d)) <= maxRecipients srv /\
  ((RequireAuth srv || IsSubmission srv) = true -> dAuth d = true) /\
  (dAuth d = true -> senderAllowed srv (dUser d) (dFrom d) = true) /\
  forall r, r ∈ dTo d ->
  (dAuth d = false -> localRecipient srv r = true) /\
  recipientExists srv r = true /\ envelopeValid srv (dFrom d) r = true.
Proof.
  intros Hr Hd. apply reachable_inv, inv_delivered in Hr.
  rewrite Forall_forall in Hr. destruct (Hr d Hd) as (Hne & H1 & H2 & H3 & H4).
  split_and!; try done; [destruct (dTo d); [done | simpl; lia] |].
  intros r Hin. rewrite Forall_forall in H3. by apply H3.
Qed.


End Policy.

Lemma delivered_policy_witness :
  map dTo (delivered after) = [["ann@test" : gostring]] /\
  localRecipient mx ("ann@test" : gostring) = true.
Proof.
  split; [vm_compute; reflexivity |].
  destruct (delivered_policy mx false dialogue no_tables after
              (nth 0 (delivered after) (envelope (sess after)))) as (_ & _ & _ & _ & H).
  - apply run_star.
  - apply list_elem_of_In. vm_compute. left. reflexivity.
  - apply H; [apply list_elem_of_In; vm_compute; left |]; vm_compute; reflexivity.
Defined.

(** A client that authenticates over implicit TLS. *)
Definition login : gostring := lines
  ["EHLO a.test" : gostring; "AUTH PLAIN " ++ encode StdEncoding ([NUL] ++ "ann@test" ++ [NUL] ++ "pw");
   "MAIL FROM:<ann@test>" : gostring].
Definition logged_in : World := run mx 3 (connected mx true login no_tables).


(** In the middle of a transaction, two recipients accepted. *)
Definition two_rcpts : World := run mx 4 (connected mx false (lines
  ["EHLO a.test" : gostring; "MAIL FROM:<x@far>" : gostring; "RCPT TO:<ann@test>" : gostring;
   "RCPT TO:<bob@test> NOTIFY=NEVER" : gostring]) no_tables).

(** ** BDAT framing *)
Section Framing.
Context {U : UnicodeTables} {M : NetMail} (srv : Server).

Lemma deliver_input w : input (snd (deliver srv w)) = input w.
Proof. unfold deliver. repeat case_match; done. Qed.

Lemma send_reply okmsg w o w' :
  match deliver srv w with
  | (Some e, w') => let '(code, msg) := deliveryReply e in respond code msg (finish w')
  | (None, w') => respond 250 okmsg (reset_errCount (finish w'))
  end = (o, w') -> o = Continue /\ input w' = input w.
Proof.
  pose proof (deliver_input w) as Hi. destruct (deliver srv w) as [[e |] v]; simpl in Hi.
  - destruct (deliveryReply e). intros [= <- <-]. done.
  - intros [= <- <-]. done.
Qed.

Lemma acceptMessage_input dflt okmsg d w o w' :
  acceptMessage srv dflt okmsg d w = (o, w') -> o = Continue /\ input w' = input w.
Proof.
  unfold acceptMessage. cbv zeta. repeat (split_if; [by intros [= <- <-] |]).
  destruct (pipeline srv) as [stages |]; [| by intros H; apply send_reply in H].
  destruct (processPipeline stages _) as [[r err] c].
  destruct err as [[] |], r; try (by intros [= <- <-]);
    try (destruct (stageReply _ _); by intros [= <- <-]);
    unfold applyJunkVerdict; repeat split_if; intros H; by apply send_reply in H.
Qed.

Lemma discard_input size w o w' :
  0 <= size <= Z.of_nat (length (input w)) -> discardBDATChunk srv size w = (o, w') ->
  o <> Quit -> input w' = drop (Z.to_nat size) (input w).
Proof.
  intros Hs. unfold discardBDATChunk, limit_exceeded. repeat split_if; intros [= <- <-] Hq;
    breflect; try done; [| lia].
  by replace size with 0 by lia.
Qed.

(** a BDAT command whose announced octets arrive consumes exactly those,
    whether the chunk is taken or refused (wrong state, bad option, too large,
    content refused, delivery failed), so that the octets of a refused chunk are
    never read as commands; the only other outcome closes the connection. *)
Theorem bdat_consumes_announced arg w size p opts o w' :
  Fields arg = p :: opts -> Atoi p = Ok size -> 0 <= size <= Z.of_nat (length (input w)) ->
  handleBDAT srv arg w = (o, w') -> o <> Quit ->
  input w' = drop (Z.to_nat size) (input w).
Proof.
  intros Hf Ha Hs H Hq. unfold handleBDAT in H. rewrite Hf, Ha in H. cbv zeta in H.
  split_if; [by apply discard_input in H |].
  destruct (Z.ltb_spec size 0); [lia |].
  match type of H with (if ?b then _ else _) = _ => destruct b end;
    [by apply discard_input in H |].
  split_if; [by apply discard_input in H |].
  destruct (Z.ltb_spec (Z.of_nat (length (input w))) size); [lia |].
  unfold limit_exceeded, respond in H.
  repeat match type of H with
    | (if ?b then _ else _) = _ => destruct b; [first [by simplify_eq | by apply acceptMessage_input in H as [_ ?]] |]
    end.
  by apply acceptMessage_input in H as [_ ?].
Qed.
End Framing.

Definition refused_chunk : World := set_input ("QUIT" ++ CRLF ++ "NOOP" ++ CRLF)
  (connected mx false [] no_tables).
Lemma bdat_consumes_announced_witness :
  input (snd (handleBDAT mx "6 LAST" refused_chunk)) = "NOOP" ++ CRLF.
Proof.
  apply (bdat_consumes_announced mx "6 LAST" refused_chunk 6 "6" ["LAST" : gostring] Continue
           (snd (handleBDAT mx "6 LAST" refused_chunk)));
    [vm_compute; reflexivity | vm_compute; reflexivity | split; discriminate
    | vm_compute; reflexivity | discriminate].
Defined.

(** ** The pipeline fails closed *)
Section Pipeline.
Context {U : UnicodeTables} {M : NetMail} (srv : Server).

(** Every stage returned, and accepted or quarantined. *)
Inductive passes : list PipelineStage -> MessageContext -> MessageContext -> Prop :=
  | passes_nil c : passes [] c c
  | passes_accept st r c c1 c2 :
  Process st c = StageReturns ResultAccept c1 -> passes r c1 c2 -> passes (st :: r) c c2
  | passes_quarantine st r c c1 c2 :
  Process st c = StageReturns ResultQuarantine c1 -> passes r (with_quarantine c1) c2 ->
  passes (st :: r) c c2.

Lemma processPipeline_passes stages c r c' :
  processPipeline stages c = (r, None, c') ->
  passes stages c c' /\ r = (if Quarantine c' then ResultQuarantine else ResultAccept).
Proof.
  revert c. induction stages as [| st stages IH]; intros c H; simpl in H.
  { simplify_eq. split; [constructor | done]. }
  unfold runStageTimed in H. destruct (Process st c) as [v c1 | c1 |] eqn:E; try done.
  destruct v; try done; apply IH in H as [H Hr]; split; eauto using passes.
Qed.

Lemma processPipeline_error stages c e r c' :
  processPipeline stages c = (r, Some e, c') -> r = ResultReject.
Proof.
  revert c. induction stages as [| st stages IH]; intros c H; simpl in H; [done |].
  destruct (runStageTimed st c) as [[v c1] |]; [| by simplify_eq].
  destruct v; eauto. by simplify_eq.
Qed.

Lemma last_reply c m w : last (replies (WriteResponse c m w)) =
  Some (c, List.filter (fun x => negb ((x =c? CR) || (x =c? LF))) m).
Proof. simpl. by rewrite last_snoc. Qed.

Lemma stageReply_code code msg : 400 <= (stageReply code msg).1 <= 599.
Proof. unfold stageReply. simpl. repeat split_if; breflect; simpl; lia. Qed.

(** C29: when the pipeline is configured, a message is handed to delivery only
    if every stage ran to completion and accepted or quarantined it; a
    rejection, a panic or a timeout of any stage delivers nothing and is
    answered with a 4xx or 5xx code. *)
Theorem pipeline_fails_closed dflt okmsg d w stages :
  pipeline srv = Some stages ->
  let w' := snd (acceptMessage srv dflt okmsg d w) in
  (exists c, passes stages (NewMessageContext (sess w) d) c) \/
  (delivered w' = delivered w /\ exists code msg,
    last (replies w') = Some (code, msg) /\ 400 <= code <= 599).
Proof.
  intros Hp. destruct (acceptMessage srv dflt okmsg d w) as [o w'] eqn:H. simpl.
  unfold acceptMessage in H. cbv zeta in H. rewrite Hp in H.
  assert (Hrej : forall code msg v, delivered v = delivered w -> 400 <= code <= 599 ->
    respond code msg v = (o, w') -> delivered w' = delivered w /\ exists code msg,
    last (replies w') = Some (code, msg) /\ 400 <= code <= 599).
  { intros code msg v Hd Hc [= <- <-]. split; [done |]. rewrite last_reply. eauto. }
  repeat (split_if; [right; eapply Hrej; [| | exact H]; [done | lia] |]).
  destruct (processPipeline stages _) as [[r err] c] eqn:Ep.
  destruct err as [e |].
  - right. apply processPipeline_error in Ep as ->. destruct e.
    + eapply Hrej; [| | exact H]; [done | lia].
    + set (code := if 0 <? RejectionCode c then RejectionCode c else 550) in H.
      set (msg := if RejectionMessage c =s? [] then dflt else RejectionMessage c) in H.
      pose proof (stageReply_code code msg) as Hc. destruct (stageReply code msg) as [code' msg'].
      eapply Hrej; [| | exact H]; done.
  - left. apply processPipeline_passes in Ep as [Hps _]. eauto.
Qed.
End Pipeline.

(** A virus scanner that crashes. *)
Definition crashing : PipelineStage := {| Name := "av"; Process := fun c => StagePanics c |}.
Definition accepting : PipelineStage := {| Name := "rbl"; Process := fun c => StageReturns ResultAccept c |}.
Definition mx_av : Server := {|
  Hostname := "mx.test"; MaxMessageSize := 1000; MaxSessionBytes := 100000; MaxRecipients := 2;
  RequireAuth := false; IsSubmission := false; AllowInsecure := false; tlsAvailable := true;
  maxLoginAttempts := 3; lockoutDuration := minute; rcptPerHour := 2; MaxCommands := 0;
  MaxErrors := 0; clientAddr := "192.0.2.1";
  onAuth := None; onSenderAllowed := None; onLocalDomain := None; onRecipientExists := None;
  onValidate := None; onDeliverWithAuth := None; onDeliverWithDSN := None;
  onDeliverWithNotify := None; onDeliverWithSieve := None; onDeliver := Some (fun _ => None);
  pipeline := Some [accepting; crashing]; onGetPassword := None;
  handshake := true; addTraceHeaders := fun _ _ d => d;
  bufsize := 16; stream_end := ReadEOF; bytesIn := fun _ => 0 |}.
Definition crash_result := acceptMessage mx_av "Message rejected" "OK" ("Subject: x" ++ CRLF) two_rcpts.

Lemma crashing_never_passes c c' : ~ passes [accepting; crashing] c c'.
Proof.
  intros H. inversion H as [| ? ? ? c1 ? ? H1 |]; subst; [| discriminate].
  inversion H1; discriminate.
Qed.

Lemma pipeline_fails_closed_witness :
  delivered (snd crash_result) = [] /\ last (replies (snd crash_result)) =
    Some (451, "4.7.1 internal error in av" : gostring).
Proof.
  destruct (pipeline_fails_closed mx_av "Message rejected" "OK" ("Subject: x" ++ CRLF) two_rcpts
              [accepting; crashing] eq_refl) as [[c H] | [H _]].
  - destruct (crashing_never_passes _ _ H).
  - split; [transitivity (delivered two_rcpts); [exact H |] |]; vm_compute; reflexivity.
Defined.

(** ** STARTTLS *)
Section StartTLS.
Context {U : UnicodeTables} {M : NetMail} {C : Crypto} (srv : Server).

(** a completed STARTTLS forgets everything the peer said in plain text:
    bytes pipelined behind the command are not read as TLS input, the client
    must greet and authenticate again, and no transaction is open. *)
Theorem starttls_forgets_plaintext now rand line injected tlsInput w :
  isTLS (sess w) = false -> tlsAvailable srv = true -> handshake srv = true ->
  parseCommand line = ("STARTTLS" : gostring, []) ->
  let w' := snd (HandleCommand srv now rand tlsInput line (set_input injected w)) in
  input w' = tlsInput /\ isTLS (sess w') = true /\ state (sess w') = StateNew /\
  isAuth (sess w') = false /\ username (sess w') = [] /\ helloDomain (sess w') = [] /\
  mailFrom (sess w') = [] /\ rcptTo (sess w') = [] /\ bdatBuffer (sess w') = None /\
  delivered w' = delivered w.
Proof.
  intros Ht Hav Hh Hp. unfold HandleCommand. rewrite Hp. simpl.
  unfold handleSTARTTLS. simpl. rewrite Ht, Hav, Hh. simpl. split_and!; reflexivity.
Qed.
End StartTLS.

Lemma starttls_forgets_plaintext_witness :
  input (snd (HandleCommand mx 0 no_rand ("EHLO b" ++ CRLF) "starttls"
                (set_input ("RSET" ++ CRLF) two_rcpts))) = "EHLO b" ++ CRLF.
Proof.
  refine (proj1 (starttls_forgets_plaintext mx 0 no_rand "starttls" ("RSET" ++ CRLF)
                   ("EHLO b" ++ CRLF) two_rcpts _ _ _ _)); vm_compute; reflexivity.
Defined.

(** ** SCRAM *)
Section ScramLogin.
Context {U : UnicodeTables} {M : NetMail} {C : Crypto} (srv : Server) (now : Z).

(** The last occurrence of a marker that neither repeats nor starts again. *)
Lemma LastIndex_marker a c sub b :
  (c ∉ sub ++ b) -> LastIndex (a ++ (c :: sub) ++ b) (c :: sub) = Some (length a).
Proof.
  intros Hc.
  assert (Hnone : forall t, (c ∉ t) -> LastIndex t (c :: sub) = None).
  { induction t as [| d t IH]; intros Ht; [done |]. simpl.
    apply not_elem_of_cons in Ht as [H1 H2]. rewrite IH by done.
    by destruct (Ascii.eqb_spec c d). }
  induction a as [| d a IH].
  - simpl. rewrite Hnone by done. by rewrite Ascii.eqb_refl, HasPrefix_app.
  - change ((d :: a) ++ (c :: sub) ++ b) with (d :: (a ++ (c :: sub) ++ b)).
    cbn [LastIndex]. by rewrite IH.
Qed.

(** What a client that knows [password] answers. *)
Definition client_key (password salt : gostring) : gostring :=
  hmac (Hi password salt scramIterations) "Client Key".
Definition client_final_bare (nonce : gostring) : gostring :=
  "c=" ++ encode StdEncoding "n,," ++ ",r=" ++ nonce.
Definition honest_proof (password salt bare serverFirst nonce : gostring) : option gostring :=
  let stored := sha256 (client_key password salt) in
  XORBytes (client_key password salt)
  (ClientProof stored bare serverFirst (client_final_bare nonce)).

Lemma honest_proof_ok password salt bare sf nonce proof :
  honest_proof password salt bare sf nonce = Some proof ->
  proofOK (storedKey (NewSCRAMSHA256 password salt scramIterations)) bare sf
  (client_final_bare nonce) proof = true.
Proof.
  unfold honest_proof, proofOK, client_key. cbv zeta. simpl storedKey.
  set (key := hmac _ "Client Key"). set (sig := ClientProof _ _ _ _). intros Hx.
  destruct (XORBytes_cancel key sig) as (x & Hx' & Hl & Hc).
  { unfold key, sig, ClientProof. by rewrite !hmac_length. }
  rewrite Hx in Hx'. simplify_eq. rewrite Hl, Hc, Nat.eqb_refl. simpl. by apply bool_decide_eq_true.
Qed.

(** The server's half of the exchange, once the client-final message is in. *)
Lemma scramFinal_honest user password getPassword nonce bare salt proof w :
  let serverFirst := BuildServerFirstMessage nonce salt scramIterations in
  onGetPassword srv = Some getPassword -> getPassword user = Some password ->
  (","%char ∉ nonce) -> honest_proof password salt bare serverFirst nonce = Some proof ->
  let w' := snd (scramFinal srv now user bare serverFirst nonce salt
    (BuildClientFinalMessage "n,," nonce proof) w) in
  sess w' = set_auth (state (sess w)) (helloDomain (sess w)) (isTLS (sess w)) true user (sess w) /\
  input w' = input w /\ userFailures (tables w') !! canonicalAuthUser user = None.
Proof.
  intros sf Hg Hp Hn Hx. unfold scramFinal.
  rewrite client_final_roundtrip by done. cbn [cfNonce cfClientProof].
  rewrite bool_decide_true by done. cbn [negb]. rewrite Hg.
  change (Some getPassword ≫= fun g => g user) with (getPassword user). rewrite Hp.
  assert (Hb : BuildClientFinalMessage "n,," nonce proof =
    client_final_bare nonce ++ ",p=" ++ encode StdEncoding proof).
  { unfold BuildClientFinalMessage, client_final_bare. by rewrite <-!app_assoc. }
  assert (Hl : LastIndex (BuildClientFinalMessage "n,," nonce proof) ",p=" =
    Some (length (client_final_bare nonce))).
  { rewrite Hb. apply (LastIndex_marker _ ","%char ["p"%char; "="%char]).
    intros [[H | [H | H]%elem_of_cons]%elem_of_cons | H]%elem_of_app; try done;
      [set_solver | by apply std_no_comma in H]. }
  rewrite Hl, Hb, take_app_length. cbv zeta.
  rewrite (honest_proof_ok _ _ _ _ _ _ Hx). split_and!; [done.. |]. apply lookup_delete_eq.
Qed.

Lemma readAuthLine_line w t rest :
  (0 < bufsize srv)%nat -> forallb visible t = true -> (2 <= length t)%nat ->
  Z.of_nat (length t) + 2 <= maxAuthLine -> input w = t ++ CRLF ++ rest ->
  readAuthLine srv now w = (AuthLine t, set_input rest w).
Proof.
  intros Hb Hv Hne Hlen Hin. unfold readAuthLine.
  assert (Hlf : LF ∉ t ++ [CR]).
  { intros [H | H]%elem_of_app; [| set_solver].
    rewrite forallb_true_iff in Hv. by apply Hv in H. }
  rewrite readBoundedLine_eq, Hin by done. unfold read_line.
  replace (t ++ CRLF ++ rest) with ((t ++ [CR]) ++ LF :: rest) by (by rewrite <-app_assoc).
  rewrite split_line_app by done. rewrite <-app_assoc. change ([CR] ++ [LF]) with CRLF.
  rewrite take_ge by (rewrite length_app; simpl; lia).
  destruct (Z.ltb_spec maxAuthLine (Z.of_nat (length (t ++ CRLF))));
    [rewrite length_app in *; simpl in *; lia |].
  assert (Hnil : t <> []) by (intros ->; simpl in Hne; lia).
  rewrite TrimSpace_line by done.
  rewrite bool_decide_false; [done |]. intros ->. simpl in Hne. lia.
Qed.

Lemma scram_final_long nonce proof : (2 <= length (encode StdEncoding (BuildClientFinalMessage "n,," nonce proof)))%nat.
Proof.
  change (BuildClientFinalMessage "n,," nonce proof) with
    ("c"%char :: "="%char :: "b"%char :: drop 3 (BuildClientFinalMessage "n,," nonce proof)).
  simpl. lia.
Qed.

(** a client that knows the password on file, and answers the server's
    challenge as RFC 5802 prescribes, is authenticated by AUTH SCRAM-SHA-256:
    the session becomes that user's, the user's failure count is cleared, and
    exactly the client-final line is read from the connection. *)
Theorem scram_honest_login rand user password getPassword cn rn salt proof rest w :
  let nonce := cn ++ encode StdEncoding rn in
  let bare := "n=" ++ user ++ ",r=" ++ cn in
  let clientFinal := encode StdEncoding (BuildClientFinalMessage "n,," nonce proof) in
  onGetPassword srv = Some getPassword -> getPassword (ToLower user) = Some password ->
  user <> [] -> (","%char ∉ user) -> (","%char ∉ cn) ->
  rand 18%nat = Some rn -> rand 16%nat = Some salt ->
  fst (isUserLockedOut srv now (ToLower user) (tables w)) = false -> (0 < bufsize srv)%nat ->
  honest_proof password salt bare (BuildServerFirstMessage nonce salt scramIterations) nonce = Some proof ->
  Z.of_nat (length clientFinal) + 2 <= maxAuthLine -> input w = clientFinal ++ CRLF ++ rest ->
  let w' := snd (handleAuthSCRAMSHA256 srv now rand
    (Some (encode StdEncoding (BuildClientFirstMessage [] user [] cn))) w) in
  sess w' = set_auth (state (sess w)) (helloDomain (sess w)) (isTLS (sess w)) true (ToLower user) (sess w)
  /\ input w' = rest /\ userFailures (tables w') !! canonicalAuthUser (ToLower user) = None.
Proof.
  intros nonce bare cf Hg Hp Hne Hu Hcn H18 H16 Hlock Hb Hx Hlen Hin.
  unfold handleAuthSCRAMSHA256, scramInitial. rewrite decode_encode by apply StdEncoding_valid.
  unfold scramFirst. rewrite client_first_parse by (done || set_solver).
  assert (Hsplit : SplitN3 (BuildClientFirstMessage [] user [] cn) "," = Some ("n" : gostring, [], bare)).
  { unfold SplitN3. change (BuildClientFirstMessage [] user [] cn) with
      ("n" ++ ","%char :: ([] ++ ","%char :: bare)).
    rewrite !Cut_app; [done | set_solver | set_solver]. }
  rewrite Hsplit. cbn [ciAuthCID ciNonce]. rewrite (bool_decide_true (("n" : gostring) = "n")) by done.
  cbn [orb negb]. rewrite (bool_decide_false (user = [])) by done.
  destruct (isUserLockedOut srv now (ToLower user) (tables w)) as [locked t]. simpl in Hlock. subst locked.
  change (TrimPrefix [] "a=") with (@nil ascii). rewrite (bool_decide_true (@nil ascii = [])) by done.
  cbn [negb andb]. unfold GenerateNonce, GenerateSalt. rewrite H18, H16.
  change (encode StdEncoding <$> Some rn) with (Some (encode StdEncoding rn)). cbv beta iota. fold nonce.
  match goal with |- context [readAuthLine srv now ?v] => set (w1 := v) end.
  rewrite (readAuthLine_line w1 cf rest) by (done || apply std_visible || apply scram_final_long).
  rewrite <-(app_nil_r cf) at 1 2 3. rewrite TrimSpace_line by
    (try apply std_visible; try done; intros E; pose proof (scram_final_long nonce proof) as Hl;
    unfold cf in E; rewrite E in Hl; simpl in Hl; lia).
  unfold cf. rewrite decode_encode by apply StdEncoding_valid.
  destruct (scramFinal_honest (ToLower user) password getPassword nonce bare salt proof
    (set_input rest w1)) as (H1 & H2 & H3); try done.
  unfold nonce. rewrite not_elem_of_app. split; [done | apply std_no_comma].
Qed.
End ScramLogin.

Definition rand_x (n : nat) : option gostring := Some (repeat "x"%char n).
Definition ex_nonce : gostring := "abc" ++ encode StdEncoding (repeat "x"%char 18).
Definition ex_proof : gostring := Eval vm_compute in
  default [] (honest_proof "pw" (repeat "x"%char 16) ("n=" ++ "Ann@test" ++ ",r=" ++ "abc")
    (BuildServerFirstMessage ex_nonce (repeat "x"%char 16) scramIterations) ex_nonce).
Definition ex_scram : World := set_input
  (encode StdEncoding (BuildClientFinalMessage "n,," ex_nonce ex_proof) ++ CRLF ++ "NOOP" ++ CRLF)
  (connected mx true [] no_tables).

Lemma scram_honest_login_witness :
  input (snd (handleAuthSCRAMSHA256 mx 0 rand_x
    (Some (encode StdEncoding (BuildClientFirstMessage [] "Ann@test" [] "abc"))) ex_scram))
  = "NOOP" ++ CRLF.
Proof.
  refine (proj1 (proj2 (scram_honest_login mx 0 rand_x "Ann@test" "pw" _ "abc" (repeat "x"%char 18)
    (repeat "x"%char 16) ex_proof ("NOOP" ++ CRLF) ex_scram eq_refl _ _ _ _ eq_refl eq_refl _ _ _ _ _)));
    try (vm_compute; reflexivity); try discriminate; try apply Nat.lt_0_succ;
    apply (bool_decide_unpack (","%char ∉ _)); vm_compute; exact I.
Defined.

(** ** Lockout tables *)
Section Lockout.
Context {U : UnicodeTables} (srv : Server).

(** The failures of a key that still count at time [now]. *)
Definition live (now : Z) (m : gmap gostring (list Z)) (k : gostring) : list Z :=
  recent (now - lockoutDuration srv) (default [] (m !! k)).

Lemma recent_app c l k : recent c (l ++ k) = recent c l ++ recent c k.
Proof. apply List.filter_app. Qed.

Lemma recent_recent c d l : c <= d -> recent d (recent c l) = recent d l.
Proof.
  intros H. induction l as [| x l IH]; simpl; [done |].
  destruct (Z.ltb_spec c x), (Z.ltb_spec d x); simpl; try lia; rewrite ?IH; try done;
    destruct (Z.ltb_spec d x); (done || lia).
Qed.

(** Pruning a table never drops a failure that still counts. *)
Lemma prune_live cutoff now m k :
  cutoff <= now - lockoutDuration srv -> live now (prune cutoff m) k = live now m k.
Proof.
  intros H. unfold live, prune. destruct (m !! k) as [l |] eqn:E.
  - destruct (decide (recent cutoff l = [])) as [Hn | Hn].
    + assert (Hf : filter (fun kv : gostring * list Z => kv.2 <> []) (recent cutoff <$> m) !! k = None).
      { apply map_lookup_filter_None_2. right. intros x Hx. rewrite lookup_fmap, E in Hx.
        simplify_eq/=. by intros ?. }
      rewrite Hf. simpl. by rewrite <-(recent_recent cutoff), Hn.
    + assert (Hf : filter (fun kv : gostring * list Z => kv.2 <> []) (recent cutoff <$> m) !! k =
        Some (recent cutoff l)).
      { apply map_lookup_filter_Some_2; [by rewrite lookup_fmap, E | done]. }
      rewrite Hf. simpl. by apply recent_recent.
  - assert (Hf : filter (fun kv : gostring * list Z => kv.2 <> []) (recent cutoff <$> m) !! k = None).
    { apply map_lookup_filter_None_2. left. by rewrite lookup_fmap, E. }
    by rewrite Hf.
Qed.

Definition strikes (now : Z) (m : gmap gostring (list Z)) (k : gostring) : nat := length (live now m k).

Lemma live_insert now m k l k' :
  live now (<[k := l]> m) k' = if decide (k = k') then recent (now - lockoutDuration srv) l
  else live now m k'.
Proof.
  unfold live. destruct (decide (k = k')) as [-> |]; [by rewrite lookup_insert_eq |].
  by rewrite lookup_insert_ne.
Qed.

(** the per-address lockout table implements a count of recent failures,
    in spite of its pruning: recording a failure adds one strike to that
    address and none to another, asking whether an address is locked out
    answers whether its strikes reached the limit and changes no strike count,
    at the time of the call and at any later time. *)
Theorem auth_lockout_refines now later ip k t :
  0 < maxLoginAttempts srv -> 0 < lockoutDuration srv -> now <= later ->
  live later (authFailures (recordAuthFailure srv now ip t)) k =
  live later (authFailures t) k ++
  (if decide (ip = k) then recent (later - lockoutDuration srv) [now] else []) /\
  fst (isAuthLockedOut srv now ip t) =
  (maxLoginAttempts srv <=? Z.of_nat (strikes now (authFailures t) ip)) /\
  live later (authFailures (snd (isAuthLockedOut srv now ip t))) k = live later (authFailures t) k.
Proof.
  intros Hm Hl Hn. unfold recordAuthFailure, isAuthLockedOut.
  destruct (Z.leb_spec (maxLoginAttempts srv) 0); [lia |]. simpl. split_and!; [| done |].
  - assert (Hi : live later (<[ip := default [] (authFailures t !! ip) ++ [now]]> (authFailures t)) k =
      live later (authFailures t) k ++
      (if decide (ip = k) then recent (later - lockoutDuration srv) [now] else [])).
    { rewrite live_insert. destruct (decide (ip = k)) as [-> |]; [apply recent_app | by rewrite app_nil_r]. }
    split_if; [| done]. by rewrite prune_live by lia.
  - rewrite live_insert. destruct (decide (ip = k)) as [-> |]; [| done].
    unfold live. apply recent_recent. lia.
Qed.

(** an address that reached the failure limit cannot try credentials:
    AUTH answers 535 and neither calls the password handler nor changes the
    session, whatever mechanism and credentials it names. *)
Theorem locked_out_auth {M : NetMail} {C : Crypto} now rand arg w :
  0 < maxLoginAttempts srv <= Z.of_nat (strikes now (authFailures (tables w)) (clientAddr srv)) ->
  isTLS (sess w) = true -> state (sess w) = StateGreeted -> isAuth (sess w) = false ->
  let '(o, w') := handleAUTH srv now rand arg w in
  o = Continue /\ sess w' = sess w /\ input w' = input w /\
  last (replies w') = Some (535, locked_out).
Proof.
  intros Hs Ht Hst Ha. unfold handleAUTH. rewrite Ht, Ha, Hst. simpl.
  unfold isAuthLockedOut. destruct (Z.leb_spec (maxLoginAttempts srv) 0); [lia |].
  unfold strikes, live in Hs.
  destruct (Z.leb_spec (maxLoginAttempts srv) (Z.of_nat (length (recent (now - lockoutDuration srv)
    (default [] (authFailures (tables w) !! clientAddr srv)))))); [| lia].
  simpl. split_and!; try done. by rewrite last_snoc.
Qed.
End Lockout.

Definition failures_at (ts : list Z) : Tables :=
  {| authFailures := <[("192.0.2.1" : gostring) := ts]> ∅; userFailures := ∅; userRcpt := ∅ |}.

Lemma auth_lockout_refines_witness :
  live mx (20 * second) (authFailures (recordAuthFailure mx (10 * second) "192.0.2.1"
    (failures_at [5 * second]))) "192.0.2.1" = [5 * second; 10 * second].
Proof.
  destruct (auth_lockout_refines mx (10 * second) (20 * second) "192.0.2.1" "192.0.2.1"
              (failures_at [5 * second])) as [H _]; [reflexivity | reflexivity | discriminate |].
  transitivity (live mx (20 * second) (authFailures (failures_at [5 * second])) "192.0.2.1" ++
    (if decide (("192.0.2.1" : gostring) = "192.0.2.1")
     then recent (20 * second - lockoutDuration mx) [10 * second] else []));
    [exact H | vm_compute; reflexivity].
Defined.

Definition struck : World :=
  set_tables (failures_at [1; 2; 3]) (run mx 1 (connected mx true (lines ["EHLO a" : gostring]) no_tables)).
Lemma locked_out_auth_witness :
  let '(o, w') := handleAUTH mx 10 no_rand "PLAIN AGFubkB0ZXN0AHB3" struck in
  o = Continue /\ sess w' = sess struck /\ input w' = input struck /\
  last (replies w') = Some (535, locked_out).
Proof.
  apply (locked_out_auth mx 10 no_rand "PLAIN AGFubkB0ZXN0AHB3" struck);
    [split; [| vm_compute] | vm_compute | vm_compute | vm_compute]; (reflexivity || discriminate).
Defined.

(** ** The hourly recipient budget *)
Section Budget.
Context {U : UnicodeTables} (srv : Server).

(** A user's requests at the given times, and the times that were granted. *)
Fixpoint requests (user : gostring) (times : list Z) (t : Tables) : list Z * Tables :=
  match times with
  | [] => ([], t)
  | now :: r =>
      let '(ok, t1) := allowUserRecipient srv now user t in
      let '(granted, t2) := requests user r t1 in
      ((if ok then [now] else []) ++ granted, t2)
  end.

Fixpoint sorted (l : list Z) : Prop :=
  match l with
  | x :: ((y :: _) as r) => x <= y /\ sorted r
  | _ => True
  end.

Definition window (now : Z) (l : list Z) : list Z := recent (now - hour) l.

(** What the table remembers of the grants so far: all that count at [now] or
    later. *)
Definition remembers (now : Z) (user : gostring) (granted : list Z) (t : Tables) : Prop :=
  forall later, now <= later ->
  window later (default [] (userRcpt t !! ToLower user)) = window later granted.

Lemma remembers_later now now' user g t : now <= now' -> remembers now user g t -> remembers now' user g t.
Proof. intros H Hr later Hl. apply Hr. lia. Qed.

Lemma allow_remembers now user g t ok t' :
  0 < rcptPerHour srv -> remembers now user g t -> allowUserRecipient srv now user t = (ok, t') ->
  remembers now user (g ++ if ok then [now] else []) t' /\
  (ok = true -> Z.of_nat (length (window now g)) < rcptPerHour srv).
Proof.
  intros Hp Hr H. unfold allowUserRecipient in H.
  destruct (Z.leb_spec (rcptPerHour srv) 0); [lia |].
  pose proof (Hr now ltac:(lia)) as Hw. unfold window in Hw. rewrite Hw in H.
  destruct (Z.leb_spec (rcptPerHour srv) (Z.of_nat (length (recent (now - hour) g)))); simplify_eq.
  - split; [| done]. intros later Hl. simpl. rewrite lookup_insert_eq, app_nil_r. simpl.
    apply recent_recent. lia.
  - split; [| done]. intros later Hl. simpl. rewrite lookup_insert_eq. simpl. unfold window.
    by rewrite !recent_app, recent_recent by lia.
Qed.

Lemma requests_window user times t g now0 :
  0 < rcptPerHour srv -> remembers now0 user g t -> sorted (now0 :: times) ->
  forall pre now post, times = pre ++ now :: post ->
  fst (allowUserRecipient srv now user (snd (requests user pre t))) = true ->
  Z.of_nat (length (window now (g ++ fst (requests user pre t)))) < rcptPerHour srv.
Proof.
  intros Hp. revert t g now0. induction times as [| n times IH]; intros t g now0 Hr Hs pre now post Heq Hok.
  { by destruct pre. }
  destruct Hs as [Hle Hs]. apply (remembers_later _ n) in Hr; [| done].
  destruct pre as [| n' pre]; simplify_eq/=.
  - destruct (allowUserRecipient srv now user t) as [ok t1] eqn:E. simpl in Hok. subst ok.
    destruct (allow_remembers _ _ _ _ _ _ Hp Hr E) as [_ H]. rewrite app_nil_r. by apply H.
  - destruct (allowUserRecipient srv n' user t) as [ok t1] eqn:E.
    destruct (allow_remembers _ _ _ _ _ _ Hp Hr E) as [Hr' _].
    specialize (IH t1 _ n' Hr' Hs pre now post eq_refl).
    destruct (requests user pre t1) as [gr t2]. simpl in *. rewrite app_assoc. by apply IH.
Qed.

(** whatever the times at which an authenticated user adds recipients, when
    one more is granted fewer than [rcptPerHour] were granted in the hour before
    it, although the table forgets older grants; so no window of an hour ever
    holds more than the budget. *)
Theorem hourly_budget user pre now post :
  0 < rcptPerHour srv -> sorted (pre ++ now :: post) ->
  let '(granted, t) := requests user pre {| authFailures := ∅; userFailures := ∅; userRcpt := ∅ |} in
  fst (allowUserRecipient srv now user t) = true ->
  Z.of_nat (length (window now granted)) < rcptPerHour srv.
Proof.
  intros Hp Hs. set (t0 := {| authFailures := ∅; userFailures := ∅; userRcpt := ∅ |}).
  pose proof (requests_window user (pre ++ now :: post) t0 [] (hd 0 (pre ++ now :: post)) Hp) as H.
  destruct (requests user pre t0) as [granted t] eqn:E. intros Hok.
  specialize (H ltac:(by intros ? _)).
  assert (Hs' : sorted (hd 0 (pre ++ now :: post) :: pre ++ now :: post)).
  { destruct (pre ++ now :: post); simpl in *; [done | split; [lia | done]]. }
  specialize (H Hs' pre now post eq_refl). rewrite E in H. by apply H.
Qed.
End Budget.

Lemma hourly_budget_witness :
  Z.of_nat (length (window (hour + 2) (fst (requests mx "ann@test" [1; 2; 3]
    {| authFailures := ∅; userFailures := ∅; userRcpt := ∅ |})))) < rcptPerHour mx.
Proof.
  pose proof (hourly_budget mx "ann@test" [1; 2; 3] (hour + 2) []) as H.
  assert (Hs : sorted ([1; 2; 3] ++ [hour + 2])) by (repeat split; discriminate).
  specialize (H eq_refl Hs).
  destruct (requests mx "ann@test" [1; 2; 3] _) as [g t] eqn:E.
  apply H. vm_compute in E. injection E as <- <-. vm_compute. reflexivity.
Defined.

(** ** The From header of a submission *)
Section FromHeader.
Context {U : UnicodeTables} {M : NetMail} (srv : Server).

(** the ownership check on the From header sees only messages that have an
    empty line after at least one header byte: a message that is all header
    passes with any From field.  (The comment above [submissionFromAllowed]
    promises the check for every From address of an authenticated submission.) *)
Theorem from_check_skips_bodyless s d :
  Index d (CRLF ++ CRLF) = None -> submissionFromAllowed srv s d = true.
Proof.
  intros H. unfold submissionFromAllowed, parseHeaderBlock. rewrite H.
  repeat case_match; done.
Qed.
End FromHeader.

Lemma from_check_skips_bodyless_witness :
  submissionFromAllowed mx (sess logged_in) ("From: ceo@test" ++ CRLF ++ "Subject: x" ++ CRLF) = true /\
  submissionFromAllowed mx (sess logged_in) ("From: ceo@test" ++ CRLF ++ CRLF ++ "x") = false.
Proof.
  split; [apply from_check_skips_bodyless; vm_compute; reflexivity | vm_compute; reflexivity].
Defined.
