(* ===== verification/GoNet.v ===== *)
(** * Addresses of package [net]

    [net.IP] is a byte sequence of length 4 or 16, or empty.  What the server uses
    of the package is written out: parsing, the 4 and 16 byte forms, masks, networks
    and the text of an address.  The meaning of a mask is that it keeps the leading
    bits: [mask_eq_iff]. *)
From S2P Require Import Prelude GoLib.

Definition v4InV6Prefix : gostring := repeat (byte_of 0) 10 ++ [byte_of 255; byte_of 255].

Definition To4 (ip : gostring) : option gostring :=
  if Nat.eqb (length ip) 4 then Some ip
  else if Nat.eqb (length ip) 16 && HasPrefix ip v4InV6Prefix then Some (drop 12 ip) else None.

Definition To16 (ip : gostring) : option gostring :=
  if Nat.eqb (length ip) 4 then Some (v4InV6Prefix ++ ip)
  else if Nat.eqb (length ip) 16 then Some ip else None.

Definition ip_equal (a b : gostring) : bool :=
  if Nat.eqb (length a) (length b) then a =s? b
  else if Nat.eqb (length a) 4 && Nat.eqb (length b) 16 then (v4InV6Prefix ++ a) =s? b
  else if Nat.eqb (length a) 16 && Nat.eqb (length b) 4 then a =s? (v4InV6Prefix ++ b)
  else false.

(** ** Masks *)
Definition land_byte (a b : ascii) : ascii := byte_of (Z.land (bz a) (bz b)).

Fixpoint cidr_bytes (l : nat) (n : Z) : gostring :=
  match l with
  | O => []
  | S l => if 8 <=? n then byte_of 255 :: cidr_bytes l (n - 8)
           else byte_of (Z.land (Z.lnot (Z.shiftr 255 n)) 255) :: cidr_bytes l 0
  end.

Definition CIDRMask (ones bits : Z) : option gostring :=
  if ((bits =? 32) || (bits =? 128)) && (0 <=? ones) && (ones <=? bits)
  then Some (cidr_bytes (Z.to_nat (bits / 8)) ones) else None.

Definition mask_bytes (ip m : gostring) : gostring := zip_with land_byte ip m.

(** [IP.Mask]; the result is [nil] when the lengths do not fit. *)
Definition Mask (ip m : gostring) : gostring :=
  let m := if Nat.eqb (length m) 16 && Nat.eqb (length ip) 4 && (take 12 m =s? repeat (byte_of 255) 12) then drop 12 m else m in
  let ip := if Nat.eqb (length m) 4 && Nat.eqb (length ip) 16 && HasPrefix ip v4InV6Prefix then drop 12 ip else ip in
  if Nat.eqb (length ip) (length m) then mask_bytes ip m else [].

(** ** Parsing *)
Definition parse_octet (s : gostring) : option Z :=
  match s with
  | [] => None
  | c :: r =>
      if (c =c? "0") && negb (bool_decide (r = [])) then None
      else match digits_val 0 s with Some v => if v <=? 255 then Some v else None | None => None end
  end.

Definition parseIPv4 (s : gostring) : option gostring :=
  match mapM parse_octet (Split s ".") with
  | Some [a; b; c; d] => Some (map byte_of [a; b; c; d])
  | _ => None
  end.

Definition hex_val (c : ascii) : option Z :=
  if is_digit c then Some (bz c - 48)
  else if in_range 97 102 c then Some (bz c - 87)
  else if in_range 65 70 c then Some (bz c - 55) else None.

(** The hexadecimal digits at the front: their value, their number, the rest. *)
Fixpoint hex_run (acc : Z) (n : nat) (s : gostring) : Z * nat * gostring :=
  match s with
  | c :: r => match hex_val c with Some d => hex_run (acc * 16 + d) (S n) r | None => (acc, n, s) end
  | [] => (acc, n, s)
  end.

(** The loop of [parseIPv6]: [ip] is what was read so far, [ell] the position of
    the ellipsis; eight rounds fill the address. *)
Fixpoint v6_loop (fuel : nat) (ip : gostring) (ell : option nat) (s : gostring) : option (gostring * option nat) :=
  match fuel with
  | O => match s with [] => Some (ip, ell) | _ => None end
  | S f =>
      let '(acc, off, rest) := hex_run 0 0 s in
      if Nat.eqb off 0 || Nat.ltb 4 off then None
      else match rest with
      | "."%char :: _ =>
          if match ell with None => negb (Nat.eqb (length ip) 12) | Some _ => false end || Nat.ltb 16 (length ip + 4) then None
          else match parseIPv4 s with Some q => Some (ip ++ q, ell) | None => None end
      | _ =>
          let ip := ip ++ [byte_of (Z.shiftr acc 8); byte_of (Z.land acc 255)] in
          match rest with
          | [] => Some (ip, ell)
          | ":"%char :: [] => None
          | ":"%char :: ":"%char :: r =>
              match ell with
              | Some _ => None
              | None => match r with [] => Some (ip, Some (length ip)) | _ => v6_loop f ip (Some (length ip)) r end
              end
          | ":"%char :: r => v6_loop f ip ell r
          | _ => None
          end
      end
  end.

Definition v6_expand (r : option (gostring * option nat)) : option gostring :=
  match r with
  | Some (ip, ell) =>
      if Nat.ltb (length ip) 16 then
        match ell with
        | Some e => Some (take e ip ++ repeat (byte_of 0) (16 - length ip) ++ drop e ip)
        | None => None
        end
      else match ell with Some _ => None | None => Some ip end
  | None => None
  end.

Definition parseIPv6 (s : gostring) : option gostring :=
  match s with
  | ":"%char :: ":"%char :: [] => Some (repeat (byte_of 0) 16)
  | ":"%char :: ":"%char :: r => v6_expand (v6_loop 8 [] (Some 0%nat) r)
  | _ => v6_expand (v6_loop 8 [] None s)
  end.

(** [netip.ParseAddr] without zones, which its callers here refuse: the address
    and whether it is one of 4 bytes. *)
Definition ParseAddr (s : gostring) : option (gostring * bool) :=
  if ContainsByte s "%" then None
  else match find (fun c => (c =c? ".") || (c =c? ":")) s with
  | Some c => if c =c? "." then (fun a => (a, true)) <$> parseIPv4 s else (fun a => (a, false)) <$> parseIPv6 s
  | None => None
  end.

Definition ParseIP (s : gostring) : option gostring :=
  match ParseAddr s with Some (a, _) => To16 a | None => None end.

(** [dtoi]: decimal digits, leading zeros allowed, up to 0xFFFFFF. *)
Definition dtoi (s : gostring) : option Z :=
  match s with
  | [] => None
  | _ => match digits_val 0 s with Some v => if 16777215 <=? v then None else Some v | None => None end
  end.

Record IPNet := { net_ip : gostring; net_mask : gostring }.

Definition ParseCIDR (s : gostring) : option IPNet :=
  match IndexByte s "/" with
  | None => None
  | Some i =>
      match ParseAddr (take i s), dtoi (drop (S i) s) with
      | Some (a, v4), Some n =>
          match CIDRMask n (if v4 then 32 else 128), To16 a with
          | Some m, Some a16 => Some {| net_ip := Mask a16 m; net_mask := m |}
          | _, _ => None
          end
      | _, _ => None
      end
  end.

(** [networkNumberAndMask] and [IPNet.Contains]. *)
Definition networkNumberAndMask (n : IPNet) : option (gostring * gostring) :=
  let ip := match To4 (net_ip n) with Some x => x | None => net_ip n end in
  let m := net_mask n in
  if negb (Nat.eqb (length ip) 4 || Nat.eqb (length ip) 16) then None
  else if Nat.eqb (length m) 4 then (if Nat.eqb (length ip) 4 then Some (ip, m) else None)
  else if Nat.eqb (length m) 16 then Some (ip, if Nat.eqb (length ip) 4 then drop 12 m else m)
  else None.

Definition net_contains (n : IPNet) (ip : gostring) : bool :=
  let ip := match To4 ip with Some x => x | None => ip end in
  match networkNumberAndMask n with
  | Some (nn, m) => Nat.eqb (length ip) (length nn) && (mask_bytes nn m =s? mask_bytes ip m)
  | None => Nat.eqb (length ip) 0
  end.

(** ** Text *)
Definition dotted (a : gostring) : gostring := Join (map (fun c => FormatUint (bz c)) a) ".".

Definition hexd : gostring := "0123456789abcdef".
Definition nibble (v : Z) : ascii := nth (Z.to_nat v) hexd "0"%char.

Fixpoint hex_go (fuel : nat) (v : Z) (acc : gostring) : gostring :=
  match fuel with
  | O => acc
  | S f => let acc := nibble (Z.land v 15) :: acc in
      if v <? 16 then acc else hex_go f (Z.shiftr v 4) acc
  end.

Fixpoint groups (a : gostring) : list Z :=
  match a with x :: y :: r => (bz x * 256 + bz y) :: groups r | _ => [] end.

Fixpoint zero_run (l : list Z) : nat := match l with 0 :: r => S (zero_run r) | _ => 0%nat end.

(** The longest run of at least two zero groups, the first of them. *)
Fixpoint best_run (i : nat) (l : list Z) (start len : nat) : nat * nat :=
  match l with
  | [] => (start, len)
  | _ :: r =>
      let k := zero_run l in
      if Nat.leb 2 k && Nat.ltb len k then best_run (S i) r i k else best_run (S i) r start len
  end.

Definition IPString (ip : gostring) : gostring :=
  match To4 ip with
  | Some a => dotted a
  | None =>
      if Nat.eqb (length ip) 16 then
        let g := groups ip in
        let txt := fun l => Join (map (fun v => hex_go 4 v []) l) ":" in
        let '(start, len) := best_run 0 g 0 0 in
        if Nat.eqb len 0 then txt g else txt (take start g) ++ "::" ++ txt (drop (start + len) g)
      else match ip with
      | [] => "<nil>"
      | _ => "?" ++ concat (map (fun c => [nibble (Z.shiftr (bz c) 4); nibble (Z.land (bz c) 15)]) ip)
      end
  end.

(** ** The leading bits of an address *)
Fixpoint ip_val (a : gostring) : Z :=
  match a with [] => 0 | c :: r => bz c * 256 ^ Z.of_nat (length r) + ip_val r end.

(** The first [n] bits. *)
Definition prefix_bits (n : Z) (a : gostring) : Z := Z.shiftr (ip_val a) (8 * Z.of_nat (length a) - n).

Lemma length_cidr_bytes l n : length (cidr_bytes l n) = l.
Proof. revert n. induction l as [| l IH]; intros n; [done |]. cbn [cidr_bytes]. destruct (8 <=? n); cbn; by rewrite IH. Qed.

(** A byte under the mask of its first [n] bits keeps exactly these bits. *)
Lemma mask_byte c n : 0 <= n < 8 ->
  bz (land_byte c (byte_of (Z.land (Z.lnot (Z.shiftr 255 n)) 255))) = Z.shiftr (bz c) (8 - n) * 2 ^ (8 - n).
Proof.
  intros Hn.
  assert (H : forallb (fun k => forallb (fun m =>
    bz (land_byte (byte_of (Z.of_nat k)) (byte_of (Z.land (Z.lnot (Z.shiftr 255 (Z.of_nat m))) 255))) =?
    Z.shiftr (Z.of_nat k) (8 - Z.of_nat m) * 2 ^ (8 - Z.of_nat m)) (seq 0 8)) (seq 0 256) = true) by (vm_compute; reflexivity).
  pose proof (bz_range c) as Hc. rewrite forallb_forall in H.
  specialize (H (Z.to_nat (bz c)) ltac:(apply in_seq; lia)). rewrite forallb_forall in H.
  specialize (H (Z.to_nat n) ltac:(apply in_seq; lia)). cbn beta in H. rewrite !Z2Nat.id in H by lia.
  rewrite byte_of_bz in H. by apply Z.eqb_eq in H.
Qed.

Lemma land_byte_ff c : land_byte c (byte_of 255) = c.
Proof.
  unfold land_byte. change (bz (byte_of 255)) with (Z.ones 8). rewrite Z.land_ones by lia.
  pose proof (bz_range c). rewrite Z.mod_small by lia. apply byte_of_bz.
Qed.

Lemma ip_val_range a : 0 <= ip_val a < 256 ^ Z.of_nat (length a).
Proof.
  induction a as [| c r IH]; cbn [ip_val length]; [lia |]. pose proof (bz_range c).
  rewrite Nat2Z.inj_succ, Z.pow_succ_r by lia. nia.
Qed.

Lemma prefix_bits_ff c r n : 8 <= n <= 8 * Z.of_nat (length (c :: r)) ->
  prefix_bits n (c :: r) = bz c * 2 ^ (n - 8) + prefix_bits (n - 8) r.
Proof.
  intros Hn. unfold prefix_bits. cbn [length ip_val] in *. rewrite Nat2Z.inj_succ in *. set (k := Z.of_nat (length r)) in *.
  replace (8 * Z.succ k - n) with (8 * k - (n - 8)) by lia. rewrite !Z.shiftr_div_pow2 by lia.
  replace (256 ^ k) with (2 ^ (n - 8) * 2 ^ (8 * k - (n - 8))).
  - rewrite Z.mul_assoc, Z.div_add_l by (apply Z.pow_nonzero; lia). done.
  - rewrite <- Z.pow_add_r by lia. replace (n - 8 + (8 * k - (n - 8))) with (8 * k) by lia.
    change 256 with (2 ^ 8). by rewrite <- Z.pow_mul_r by lia.
Qed.

Lemma prefix_bits_lt8 c r n : 0 <= n < 8 -> prefix_bits n (c :: r) = Z.shiftr (bz c) (8 - n).
Proof.
  intros Hn. unfold prefix_bits. cbn [length ip_val]. rewrite Nat2Z.inj_succ. pose proof (ip_val_range r) as Hr.
  set (k := Z.of_nat (length r)) in *. replace (8 * Z.succ k - n) with (8 * k + (8 - n)) by lia.
  rewrite <- Z.shiftr_shiftr by lia. f_equal. rewrite Z.shiftr_div_pow2 by lia. rewrite Z.pow_mul_r by lia.
  change (2 ^ 8) with 256. rewrite Z.div_add_l by lia. rewrite Z.div_small by lia. lia.
Qed.

Lemma prefix_bits_bound a n : 0 <= n <= 8 * Z.of_nat (length a) -> 0 <= prefix_bits n a < 2 ^ n.
Proof.
  intros Hn. unfold prefix_bits. pose proof (ip_val_range a) as Hv. rewrite Z.shiftr_div_pow2 by lia.
  split; [apply Z.div_pos; lia |]. apply Z.div_lt_upper_bound; [lia |]. rewrite <- Z.pow_add_r by lia.
  replace (8 * Z.of_nat (length a) - n + n) with (8 * Z.of_nat (length a)) by lia. rewrite Z.pow_mul_r by lia. change (2 ^ 8) with 256. lia.
Qed.

Lemma mask_zero a b : length a = length b -> mask_bytes a (cidr_bytes (length a) 0) = mask_bytes b (cidr_bytes (length a) 0).
Proof.
  revert b. induction a as [| x a IH]; intros [| y b] H; cbn in H; try lia; [done |]. injection H as H.
  cbn [length cidr_bytes mask_bytes zip_with]. change (8 <=? 0) with false. cbn iota. fold (mask_bytes a (cidr_bytes (length a) 0)).
  fold (mask_bytes b (cidr_bytes (length a) 0)). rewrite (IH b) by done. f_equal. apply bz_inj. rewrite !mask_byte by lia.
  pose proof (bz_range x). pose proof (bz_range y). rewrite !Z.shiftr_div_pow2 by lia. change (2 ^ (8 - 0)) with 256. rewrite !Z.div_small by lia. done.
Qed.

(** A mask of [n] bits makes two addresses equal exactly when their first [n] bits
    are. *)
Lemma mask_eq_iff a b n : length a = length b -> 0 <= n <= 8 * Z.of_nat (length a) ->
  mask_bytes a (cidr_bytes (length a) n) = mask_bytes b (cidr_bytes (length a) n) <-> prefix_bits n a = prefix_bits n b.
Proof.
  revert b n. induction a as [| x a IH]; intros [| y b] n Hl Hn; cbn [length] in Hl; try lia; [done |]. injection Hl as Hl.
  cbn [length cidr_bytes]. destruct (Z.leb_spec 8 n) as [H8 | H8]; cbn [mask_bytes zip_with];
    change (zip_with land_byte a) with (mask_bytes a); change (zip_with land_byte b) with (mask_bytes b).
  - rewrite !prefix_bits_ff by (cbn [length] in *; lia). rewrite !land_byte_ff. cbn [length] in Hn. specialize (IH b (n - 8) Hl ltac:(lia)).
    pose proof (prefix_bits_bound a (n - 8) ltac:(lia)). pose proof (prefix_bits_bound b (n - 8) ltac:(lia)). split.
    + intros [= -> E]. apply IH in E. by rewrite E.
    + intros E. assert (Hxy : bz x = bz y) by nia. apply bz_inj in Hxy. subst y. f_equal. apply IH. lia.
  - rewrite !prefix_bits_lt8 by lia. rewrite (mask_zero a b) by done. split.
    + intros [= E]. apply (f_equal bz) in E. rewrite !mask_byte in E by lia. assert (0 < 2 ^ (8 - n)) by (apply Z.pow_pos_nonneg; lia). nia.
    + intros E. f_equal. apply bz_inj. rewrite !mask_byte by lia. by rewrite E.
Qed.

(** ** Texts of networks *)
Lemma parse_octet_format c : parse_octet (FormatUint (bz c)) = Some (bz c).
Proof.
  assert (H : forallb (fun k => bool_decide (parse_octet (FormatUint (Z.of_nat k)) = Some (Z.of_nat k))) (seq 0 256) = true) by (vm_compute; reflexivity).
  rewrite forallb_forall in H. pose proof (bz_range c). specialize (H (Z.to_nat (bz c)) ltac:(apply in_seq; lia)).
  apply bool_decide_eq_true in H. by rewrite !Z2Nat.id in H by lia.
Qed.

Lemma octets_dotted a : a <> [] -> mapM parse_octet (Split (dotted a) ".") = Some (map bz a).
Proof.
  intros Ha. unfold dotted. change ("."%string : gostring) with ["."%char]. rewrite Split_Join.
  - clear Ha. induction a as [| c a IH]; [done |]. cbn [map mapM]. rewrite parse_octet_format. cbn [mbind option_bind]. by rewrite IH.
  - by destruct a.
  - apply Forall_map, Forall_true. intros c. apply digits_not_in; [done |]. apply bz_range.
Qed.

Lemma parseIPv4_dotted a : length a = 4%nat -> parseIPv4 (dotted a) = Some a.
Proof.
  intros Ha. unfold parseIPv4. rewrite octets_dotted by by destruct a. destruct a as [| b [| c [| d [| e [| ]]]]]; try done.
  cbn. by rewrite !byte_of_bz.
Qed.

(** The text of an address of 4 bytes has digits and dots only. *)
Lemma dotted_chars a : Forall (fun x => is_digit x = true \/ x = "."%char) (dotted a).
Proof.
  unfold dotted. induction a as [| c [| d a] IH]; [done | |].
  - cbn [map Join]. apply Forall_forall. intros x Hx. left. pose proof (FormatUint_digits (bz c) ltac:(apply bz_range)) as Hd.
    rewrite forallb_true_iff in Hd. by apply Hd.
  - change (Join _ _) with (FormatUint (bz c) ++ ["."%char] ++ Join (map (fun c => FormatUint (bz c)) (d :: a)) ".") .
    apply Forall_app. split; [| constructor; [by right | exact IH]]. apply Forall_forall. intros x Hx. left.
    pose proof (FormatUint_digits (bz c) ltac:(apply bz_range)) as Hd. rewrite forallb_true_iff in Hd. by apply Hd.
Qed.

Lemma dotted_without a x : is_digit x = false -> x <> "."%char -> x ∉ dotted a.
Proof. intros Hx Hd H. pose proof (dotted_chars a) as F. rewrite Forall_forall in F. destruct (F x H); congruence. Qed.

Lemma dotted_has_dot b c a : "."%char ∈ dotted (b :: c :: a).
Proof.
  change (dotted (b :: c :: a)) with (FormatUint (bz b) ++ ["."%char] ++ Join (map (fun c => FormatUint (bz c)) (c :: a)) ".").
  rewrite !elem_of_app. right. left. by apply list_elem_of_singleton.
Qed.

Lemma ParseAddr_dotted a : length a = 4%nat -> ParseAddr (dotted a) = Some (a, true).
Proof.
  intros Ha. unfold ParseAddr. rewrite (proj2 (ContainsByte_false _ _)) by (apply dotted_without; done).
  destruct (find _ _) as [c |] eqn:Ef.
  - apply find_some in Ef as [Hin Hc]. destruct (Ascii.eqb_spec c ".") as [-> | Hd]; [by rewrite parseIPv4_dotted |].
    cbn in Hc. apply Ascii.eqb_eq in Hc. subst c. apply list_elem_of_In in Hin. by destruct (dotted_without a ":" ltac:(done) ltac:(done)).
  - destruct a as [| b [| c a]]; [done .. |]. pose proof (dotted_has_dot b c a) as Hin. apply list_elem_of_In in Hin.
    by apply (find_none _ _ Ef) in Hin.
Qed.

Lemma dtoi_format n : 0 <= n <= 128 -> dtoi (FormatUint n) = Some n.
Proof.
  intros Hn. unfold dtoi. pose proof (ParseUint_FormatUint n 128 Hn) as H. unfold ParseUint in H.
  destruct (FormatUint n); [done |]. destruct (digits_val _ _); [| done]. destruct (_ <=? 128); [| done]. injection H as ->.
  by rewrite (proj2 (Z.leb_gt 16777215 n)) by lia.
Qed.

Lemma mask_mask a n : 0 <= n ->
  mask_bytes (mask_bytes a (cidr_bytes (length a) n)) (cidr_bytes (length a) n) = mask_bytes a (cidr_bytes (length a) n).
Proof.
  revert n. induction a as [| c a IH]; intros n Hn; [done |]. cbn [length cidr_bytes].
  destruct (Z.leb_spec 8 n); cbn [mask_bytes zip_with]; change (zip_with land_byte) with mask_bytes; rewrite IH by lia.
  - by rewrite !land_byte_ff.
  - f_equal. apply bz_inj. rewrite !mask_byte by lia. by rewrite Z.shiftr_div_pow2, Z.div_mul by (lia || apply Z.pow_nonzero; lia).
Qed.

Lemma length_mask_bytes a m : length a = length m -> length (mask_bytes a m) = length a.
Proof. intros H. unfold mask_bytes. rewrite length_zip_with. lia. Qed.

(** A network written as address and length, and what it contains: exactly the
    addresses of 4 bytes with the same first [n] bits. *)
Lemma ParseCIDR_dotted a n : length a = 4%nat -> 0 <= n <= 32 ->
  ParseCIDR (dotted a ++ "/" ++ FormatUint n) = Some {| net_ip := mask_bytes a (cidr_bytes 4 n); net_mask := cidr_bytes 4 n |}.
Proof.
  intros Ha Hn. unfold ParseCIDR. change ((String.list_ascii_of_string "/") ++ FormatUint n) with ("/"%char :: FormatUint n).
  rewrite IndexByte_app by (by apply dotted_without). rewrite take_app_length.
  rewrite (drop_app_ge (dotted a)) by lia. replace (S (length (dotted a)) - length (dotted a))%nat with 1%nat by lia.
  cbn [drop]. rewrite drop_0, ParseAddr_dotted, dtoi_format by (done || lia). unfold CIDRMask. cbn [Z.eqb orb andb].
  change (32 =? 32) with true. rewrite (proj2 (Z.leb_le 0 n)), (proj2 (Z.leb_le n 32)) by lia. cbn [orb andb].
  change (Z.to_nat (32 / 8)) with 4%nat. unfold To16. rewrite Ha. cbn [Nat.eqb]. f_equal. f_equal.
  unfold Mask. rewrite length_cidr_bytes, length_app, Ha. cbn [Nat.eqb andb]. change (length v4InV6Prefix + 4)%nat with 16%nat. cbn [Nat.eqb andb].
  rewrite HasPrefix_app. change 12%nat with (length v4InV6Prefix). rewrite drop_app_length, length_cidr_bytes. cbn [Nat.eqb andb]. by rewrite Ha.
Qed.

Lemma To4_length ip x : To4 ip = Some x -> length x = 4%nat.
Proof.
  unfold To4. destruct (Nat.eqb_spec (length ip) 4) as [E | _]; [by intros [= <-] |].
  destruct (Nat.eqb_spec (length ip) 16) as [E | _]; [| done]. cbn [andb]. destruct (HasPrefix ip _); [| done].
  intros [= <-]. rewrite length_drop. lia.
Qed.

Lemma net_contains_dotted a n ip x : length a = 4%nat -> 0 <= n <= 32 -> To4 ip = Some x ->
  net_contains {| net_ip := mask_bytes a (cidr_bytes 4 n); net_mask := cidr_bytes 4 n |} ip = true <-> prefix_bits n x = prefix_bits n a.
Proof.
  intros Ha Hn Hx. pose proof (To4_length _ _ Hx) as Hl. unfold net_contains, networkNumberAndMask. rewrite Hx. cbn [net_ip net_mask].
  assert (Hm : length (mask_bytes a (cidr_bytes 4 n)) = 4%nat) by (rewrite length_mask_bytes; rewrite ?length_cidr_bytes; lia).
  unfold To4. rewrite Hm. cbn [Nat.eqb]. rewrite Hm, length_cidr_bytes. cbn [Nat.eqb negb orb]. rewrite Hl, Hm. cbn [Nat.eqb andb].
  rewrite bool_decide_eq_true. pose proof (mask_mask a n ltac:(lia)) as Hmm. rewrite Ha in Hmm. rewrite Hmm.
  pose proof (mask_eq_iff a x n ltac:(lia) ltac:(lia)) as Hi. rewrite Ha in Hi. rewrite Hi. split; congruence.
Qed.
