(* ===== verification/Spf.v ===== *)
(** * internal/auth: SPF

    spf.go: terms of a record, macros, the mechanisms, the limits on DNS terms and
    void lookups, and the cache of records.  The resolver is the interface
    [DNSResolver]; an answer may depend on every question asked before it, so that a
    resolver that changes its mind is covered.  [spfState] is the counters of
    [spfLimits] together with the questions asked so far, which the code does not
    keep.  [evaluate] calls itself for include and redirect, each counted before the
    call: its fuel stands for the terms that are left, and running out of it is
    [None]. *)
From S2P Require Import Prelude GoLib GoNet.

Inductive SPFResult := SPFNone | SPFNeutral | SPFPass | SPFFail | SPFSoftFail | SPFTempError | SPFPermError.
#[export] Instance SPFResult_eq_dec : EqDecision SPFResult.
Proof. solve_decision. Defined.

Definition spf_string (r : SPFResult) : gostring :=
  match r with
  | SPFNone => "none" | SPFNeutral => "neutral" | SPFPass => "pass" | SPFFail => "fail"
  | SPFSoftFail => "softfail" | SPFTempError => "temperror" | SPFPermError => "permerror"
  end.

(** ** Errors

    The errors of the file itself and, by what the code asks of them, those of a
    resolver. *)
Inductive goerr :=
  | spfPermError (msg : gostring)
  | spfTempError (msg : gostring)
  | errSPFMultipleRecords
  | DNSError (IsTimeout IsTemporary : bool) (msg : gostring)
  | NetError (Timeout : bool) (msg : gostring)
  | DeadlineExceeded
  | OtherError (msg : gostring).

Definition err_text (e : goerr) : gostring :=
  match e with
  | spfPermError m | spfTempError m | DNSError _ _ m | NetError _ m | OtherError m => m
  | errSPFMultipleRecords => "multiple SPF records"
  | DeadlineExceeded => "context deadline exceeded"
  end.

Definition isTemporaryError (e : goerr) : bool :=
  match e with
  | spfPermError _ => false
  | spfTempError _ => true
  | DNSError a b _ => a || b
  | NetError true _ | DeadlineExceeded => true
  | _ => Contains (err_text e) "timeout" || Contains (err_text e) "temporary"
  end.

(** ** The resolver *)
Inductive Query := QTXT (domain : gostring) | QIP (host : gostring) | QMX (domain : gostring).

Class DNSResolver := {
  LookupTXT : list Query -> gostring -> result goerr (list gostring);
  LookupIP : list Query -> gostring -> result goerr (list gostring);
  LookupMX : list Query -> gostring -> result goerr (list gostring)     (* the hosts *)
}.

(** [fmt]'s %q needs the tables of printable characters. *)
Class GoQuote := { Quote : gostring -> gostring }.

Definition spfMaxDNSTerms : Z := 10.
Definition spfMaxVoidLookups : Z := 2.
Definition spfMaxMXHosts : nat := 10.

Record spfState := { lookups : Z; voids : Z; asked : list Query }.

Definition ask (q : Query) (st : spfState) : spfState :=
  {| lookups := lookups st; voids := voids st; asked := asked st ++ [q] |}.
Definition count_lookup (st : spfState) : spfState :=
  {| lookups := lookups st + 1; voids := voids st; asked := asked st |}.
Definition count_void (st : spfState) : spfState :=
  {| lookups := lookups st; voids := voids st + 1; asked := asked st |}.

(** ** Terms *)
Record spfMechanism := { qualifier : SPFResult; typ : gostring; value : gostring; colon : bool }.

Definition mech_String (m : spfMechanism) : gostring :=
  let prefix : gostring := match qualifier m with
  | SPFPass => "+" | SPFNeutral => "?" | SPFFail => "-" | SPFSoftFail => "~" | _ => ""
  end in
  if negb (value m =s? []) then prefix ++ typ m ++ ":" ++ value m else prefix ++ typ m.

Definition spfIsDNSTerm (t : gostring) : bool :=
  existsb (fun x : string => t =s? x) ["include"; "a"; "mx"; "ptr"; "exists"; "redirect"]%string.
Definition spfIsMechanism (t : gostring) : bool :=
  existsb (fun x : string => t =s? x) ["all"; "include"; "a"; "mx"; "ptr"; "ip4"; "ip6"; "exists"]%string.

Fixpoint IndexAny (s set : gostring) : option nat :=
  match s with
  | [] => None
  | c :: r => if in_set set c then Some 0%nat else S <$> IndexAny r set
  end.

Section Spf.
Context {U : UnicodeTables} {Q : GoQuote}.

Definition take_qualifier (part : gostring) : SPFResult * gostring :=
  match part with
  | c :: r =>
      if c =c? "+" then (SPFPass, r) else if c =c? "-" then (SPFFail, r)
      else if c =c? "~" then (SPFSoftFail, r) else if c =c? "?" then (SPFNeutral, r) else (SPFPass, part)
  | [] => (SPFPass, part)
  end.

Definition parseMechanism (part : gostring) : spfMechanism :=
  let '(q, part) := take_qualifier part in
  let mk t v c := {| qualifier := q; typ := t; value := v; colon := c |} in
  let other :=
  match Index part "/" with
  | Some (S _ as i) =>
      if EqualFold (take i part) "a" || EqualFold (take i part) "mx" then mk (ToLower (take i part)) (drop i part) false
      else mk (ToLower part) [] false
  | _ => mk (ToLower part) [] false
  end in
  let mechanism :=
  match Index part ":" with
  | Some (S _ as i) => mk (ToLower (take i part)) (drop (S i) part) true
  | _ => if HasPrefix part "ip4:" || HasPrefix part "ip6:" then mk (take 3 part) (drop 4 part) false else other
  end in
  match IndexAny part ":/=" with
  | Some (S _ as i) =>
      if bool_decide (part !! i = Some "="%char) then
      let name := ToLower (take i part) in
      if (name =s? "redirect") || (name =s? "exp") then mk name (drop (S i) part) false else mk [] [] false
      else mechanism
  | _ => mechanism
  end.

Definition parseSPF (record : gostring) : list spfMechanism :=
  let parts := Fields record in
  let parts := match parts with p :: r => if p =s? "v=spf1" then r else parts | [] => [] end in
  filter (fun m => typ m <> []) (map parseMechanism parts).

(** ** Address arguments *)
Definition spfSplitDualCIDR (v : gostring) : result goerr (gostring * Z * Z) :=
  rbind (
    match Index v "//" with
    | Some i =>
        match Atoi (drop (i + 2) v) with
        | Ok n => if (n <? 0) || (128 <? n) then Err (spfPermError ("invalid ip6-cidr-length in " ++ Quote v)) else Ok (take i v, n)
        | Err _ => Err (spfPermError ("invalid ip6-cidr-length in " ++ Quote v))
        end
    | None => Ok (v, 128)
    end) (fun '(w, v6len) =>
      match LastIndex w "/" with
      | Some i =>
          match Atoi (drop (i + 1) w) with
          | Ok n => if (n <? 0) || (32 <? n) then Err (spfPermError ("invalid ip4-cidr-length in " ++ Quote w)) else Ok (take i w, n, v6len)
          | Err _ => Err (spfPermError ("invalid ip4-cidr-length in " ++ Quote w))
          end
      | None => Ok (w, 32, v6len)
      end).

Definition cidr_mask (ones bits : Z) : gostring := match CIDRMask ones bits with Some m => m | None => [] end.

Definition spfIPInCIDR (client target : gostring) (v4len v6len : Z) : bool :=
  match To4 client, To4 target with
  | Some c4, Some t4 => ip_equal (Mask c4 (cidr_mask v4len 32)) (Mask t4 (cidr_mask v4len 32))
  | None, None => ip_equal (Mask client (cidr_mask v6len 128)) (Mask target (cidr_mask v6len 128))
  | _, _ => false
  end.

Definition spfValidIPSpec (v : gostring) (v6 : bool) : bool :=
  if negb (Bool.eqb (Contains v ":") v6) then false
  else if Contains v "/" then match ParseCIDR v with Some _ => true | None => false end
  else match ParseIP v with Some _ => true | None => false end.

Definition in_range_text (ip v : gostring) : bool :=
  match ParseCIDR v with
  | Some n => net_contains n ip
  | None => match ParseIP v with Some t => ip_equal ip t | None => false end
  end.
Definition evaluateIP4 (ip v : gostring) : bool := match To4 ip with None => false | Some _ => in_range_text ip v end.
Definition evaluateIP6 (ip v : gostring) : bool := match To4 ip with Some _ => false | None => in_range_text ip v end.

(** ** Macros *)
Definition spfMacroIP (ip : gostring) : gostring :=
  match To4 ip with
  | Some v4 => IPString v4
  | None =>
      match To16 ip with
      | Some a => Join (concat (map (fun c => [[nibble (Z.shiftr (bz c) 4)]; [nibble (Z.land (bz c) 15)]]) a)) "."
      | None => []
      end
  end.

Definition unreserved (c : ascii) : bool :=
  in_range 97 122 c || in_range 65 90 c || is_digit c || in_set "-._~" c.
Definition upper_hex (v : Z) : ascii := nth (Z.to_nat v) ("0123456789ABCDEF" : gostring) "0"%char.
Definition spfURLEscape (s : gostring) : gostring :=
  concat (map (fun c => if unreserved c then [c] else ["%"%char; upper_hex (Z.shiftr (bz c) 4); upper_hex (Z.land (bz c) 15)]) s).

(** [strings.FieldsFunc] at one byte delimiters. *)
Fixpoint fields_at (delims cur s : gostring) : list gostring :=
  match s with
  | [] => if bool_decide (cur = []) then [] else [rev cur]
  | c :: r =>
      if in_set delims c then (if bool_decide (cur = []) then [] else [rev cur]) ++ fields_at delims [] r
      else fields_at delims (c :: cur) r
  end.

(** The digits of a transformer, refused above 128; with how many there were. *)
Fixpoint macro_digits (n : nat) (acc : Z) (s : gostring) : option (nat * Z * gostring) :=
  match s with
  | c :: r =>
      if is_digit c then
      let acc := acc * 10 + (bz c - 48) in
      if 128 <? acc then None else macro_digits (S n) acc r
      else Some (n, acc, s)
  | [] => Some (n, acc, s)
  end.

Section Expand.
Context (ip domain sender : gostring).

Definition sender_parts : gostring * gostring :=
  if bool_decide (sender = []) then ("postmaster" : gostring, domain)
  else match LastIndex sender "@" with
  | Some i => (if (0 <? Z.of_nat i) then take i sender else ("postmaster" : gostring), drop (i + 1) sender)
  | None => ("postmaster" : gostring, sender)
  end.

Definition macro_letter (letter : ascii) : option gostring :=
  let '(local, sdomain) := sender_parts in
  let l := byte_of (Z.lor (bz letter) 32) in
  if l =c? "s" then Some (local ++ "@" ++ sdomain)
  else if l =c? "l" then Some local
  else if l =c? "o" then Some sdomain
  else if l =c? "d" then Some domain
  else if l =c? "i" then Some (spfMacroIP ip)
  else if l =c? "v" then Some (match To4 ip with Some _ => "in-addr" | None => "ip6" end : gostring)
  else if (l =c? "h") || (l =c? "p") then Some ("unknown" : gostring)
  else None.

(** The text between braces. *)
Definition expand_macro (body : gostring) : option gostring :=
  match body with
  | [] => None
  | letter :: rest =>
      match macro_letter letter, macro_digits 0 0 rest with
      | Some v, Some (j, digits, rest) =>
          if Nat.ltb 0 j && (digits =? 0) then None
          else
          let '(reverse, delims) := match rest with
          | c :: r => if (c =c? "r") || (c =c? "R") then (true, r) else (false, rest)
          | [] => (false, rest)
          end in
          let delims : gostring := match delims with [] => "." | _ => delims end in
          if negb (forallb (in_set ".-+,/_=") delims) then None
          else
          let parts := fields_at delims [] v in
          let parts := if negb (bool_decide (v = [])) && bool_decide (parts = []) then [[]] else parts in
          let parts := if reverse : bool then rev parts else parts in
          let n := Z.of_nat (length parts) in
          let parts := if (0 <? digits) && (digits <? n) then drop (Z.to_nat (n - digits)) parts else parts in
          let v := Join parts "." in
          Some (if in_range 65 90 letter then spfURLEscape v else v)
      | _, _ => None
      end
  end.

Fixpoint expand_go (fuel : nat) (spec : gostring) : option gostring :=
  match fuel, spec with
  | S f, c :: r =>
      if negb (c =c? "%") then cons c <$> expand_go f r
      else match r with
      | [] => None
      | d :: r' =>
          if d =c? "%" then cons "%"%char <$> expand_go f r'
          else if d =c? "_" then cons " "%char <$> expand_go f r'
          else if d =c? "-" then app ("%20" : gostring) <$> expand_go f r'
          else if d =c? "{" then
          match IndexByte r' "}" with
          | Some e =>
              match expand_macro (take e r'), expand_go f (drop (S e) r') with
              | Some v, Some out => Some (v ++ out)
              | _, _ => None
              end
          | None => None
          end
          else None
      end
  | _, _ => Some []
  end.

(** An expansion of more than 253 bytes loses leading labels. *)
Fixpoint drop_labels (fuel : nat) (res : gostring) : gostring :=
  match fuel with
  | S f =>
      if Nat.ltb 253 (length res) then
      match IndexByte res "." with Some k => drop_labels f (drop (S k) res) | None => res end
      else res
  | O => res
  end.

Definition spfExpand (spec : gostring) : result goerr gostring :=
  if negb (Contains spec "%") then Ok spec
  else match expand_go (length spec) spec with
  | Some res => Ok (drop_labels (length res) res)
  | None => Err (spfPermError "invalid SPF macro")
  end.

Definition spfExpandDualCIDR (v : gostring) : result goerr gostring :=
  rbind (spfSplitDualCIDR v) (fun '(host, _, _) =>
    let* exp := spfExpand host in
    Ok (exp ++ drop (length host) v)).
End Expand.

(** ** Evaluation *)
Section Check.
Context {R : DNSResolver} (ip sender : gostring).

Definition is_spf_record (record : gostring) : bool :=
  Nat.leb 6 (length record) && EqualFold (take 6 record) "v=spf1" &&
  (Nat.eqb (length record) 6 || bool_decide (record !! 6%nat = Some " "%char)).

Definition lookupSPF (domain : gostring) (st : spfState) : result goerr gostring * spfState :=
  (match LookupTXT (asked st) domain with
  | Err e => Err e
  | Ok txt =>
      match filter (fun r => is_spf_record r = true) txt with
      | [] => Err (OtherError "no SPF record found")
      | [r] => Ok r
      | _ => Err errSPFMultipleRecords
      end
  end, ask (QTXT domain) st).

(** Match and void, or an error. *)
Abbreviation spfVerdict := (result goerr (bool * bool)).
Abbreviation recursive_call := (gostring -> gostring -> spfState -> option (SPFResult * gostring * spfState)).

Definition evaluateA (v domain : gostring) (st : spfState) : spfVerdict * spfState :=
  match spfSplitDualCIDR v with
  | Err e => (Err e, st)
  | Ok (host, v4len, v6len) =>
      let host := if bool_decide (host = []) then domain else host in
      (match LookupIP (asked st) host with
      | Err e => if isTemporaryError e then Err e else Ok (false, true)
      | Ok [] => Ok (false, true)
      | Ok ips => Ok (existsb (fun t => spfIPInCIDR ip t v4len v6len) ips, false)
      end, ask (QIP host) st)
  end.

(** The loop over the MX hosts; [budget] counts down from [spfMaxMXHosts]. *)
Fixpoint mx_hosts (v4len v6len : Z) (budget : nat) (hosts : list gostring) (st : spfState) : spfVerdict * spfState :=
  match hosts, budget with
  | [], _ => (Ok (false, false), st)
  | _ :: _, O => (Err (spfPermError "too many MX hosts for mx mechanism"), st)
  | h :: r, S budget =>
      let st' := ask (QIP h) st in
      let void := let st' := count_void st' in
      if spfMaxVoidLookups <? voids st' then (Err (spfPermError "Too many void lookups"), st')
      else mx_hosts v4len v6len budget r st' in
      match LookupIP (asked st) h with
      | Err e => if isTemporaryError e then (Err e, st') else void
      | Ok [] => void
      | Ok ips =>
          if existsb (fun t => spfIPInCIDR ip t v4len v6len) ips then (Ok (true, false), st')
          else mx_hosts v4len v6len budget r st'
      end
  end.

Definition evaluateMXLim (v domain : gostring) (st : spfState) : spfVerdict * spfState :=
  match spfSplitDualCIDR v with
  | Err e => (Err e, st)
  | Ok (host, v4len, v6len) =>
      let host := if bool_decide (host = []) then domain else host in
      let st' := ask (QMX host) st in
      match LookupMX (asked st) host with
      | Err e => (if isTemporaryError e then Err e else Ok (false, true), st')
      | Ok [] => (Ok (false, true), st')
      | Ok hosts => mx_hosts v4len v6len spfMaxMXHosts hosts st'
      end
  end.

Definition evaluateExists (v : gostring) (st : spfState) : spfVerdict * spfState :=
  (match LookupIP (asked st) v with
  | Err e => if isTemporaryError e then Err e else Ok (false, true)
  | Ok ips => if existsb (fun a => match To4 a with Some _ => true | None => false end) ips then Ok (true, false) else Ok (false, true)
  end, ask (QIP v) st).

Definition evaluateInclude (rec : recursive_call) (domain : gostring) (st : spfState) : option (spfVerdict * spfState) :=
  match lookupSPF domain st with
  | (Err e, st) => Some (if isTemporaryError e then Err e
    else Err (spfPermError ("include target " ++ domain ++ " has no SPF record")), st)
  | (Ok record, st) =>
      match rec domain record st with
      | None => None
      | Some (res, explanation, st) =>
          Some (match res with
          | SPFPermError => Err (spfPermError explanation)
          | SPFTempError => Err (spfTempError explanation)
          | _ => Ok (bool_decide (res = SPFPass), false)
          end, st)
      end
  end.

Definition evaluateMechanism (rec : recursive_call) (domain : gostring) (m : spfMechanism) (st : spfState) : option (spfVerdict * spfState) :=
  let expanded (e : result goerr gostring) k :=
  match e with Err e => Some (Err e, st) | Ok spec => k spec end in
  if typ m =s? "all" then Some (Ok (true, false), st)
  else if typ m =s? "ip4" then
  Some (if spfValidIPSpec (value m) false then Ok (evaluateIP4 ip (value m), false) else Err (spfPermError "invalid ip4 value"), st)
  else if typ m =s? "ip6" then
  Some (if spfValidIPSpec (value m) true then Ok (evaluateIP6 ip (value m), false) else Err (spfPermError "invalid ip6 value"), st)
  else if typ m =s? "a" then expanded (spfExpandDualCIDR ip domain sender (value m)) (fun spec => Some (evaluateA spec domain st))
  else if typ m =s? "mx" then expanded (spfExpandDualCIDR ip domain sender (value m)) (fun spec => Some (evaluateMXLim spec domain st))
  else if typ m =s? "ptr" then Some (Ok (false, false), st)
  else if typ m =s? "exists" then expanded (spfExpand ip domain sender (value m)) (fun spec => Some (evaluateExists spec st))
  else if typ m =s? "include" then expanded (spfExpand ip domain sender (value m)) (fun spec => evaluateInclude rec spec st)
  else Some (Err (spfPermError "unknown SPF mechanism"), st).

(** The first pass over the terms: syntax, and the redirect set aside. *)
Definition term_error (m : spfMechanism) : option gostring :=
  if negb (spfIsMechanism (typ m)) then Some ("unknown SPF mechanism" : gostring)
  else if (typ m =s? "include") || (typ m =s? "exists") then
  (if bool_decide (value m = []) then Some (typ m ++ " without domain-spec") else None)
  else if (typ m =s? "a") || (typ m =s? "mx") then
  (if colon m then
    match spfSplitDualCIDR (value m) with
    | Ok (host, _, _) => if bool_decide (host = []) then Some (typ m ++ " without domain-spec") else None
    | Err _ => None
    end
    else None)
  else if typ m =s? "all" then
  (if colon m || negb (bool_decide (value m = [])) then Some ("all takes no argument" : gostring) else None)
  else None.

Fixpoint scan_terms (seenRedirect : bool) (redirect : gostring) (terms : list spfMechanism)
  : result gostring (gostring * list spfMechanism) :=
  match terms with
  | [] => Ok (redirect, [])
  | m :: r =>
      if typ m =s? "redirect" then
      if seenRedirect then Err ("multiple redirect modifiers" : gostring)
      else if bool_decide (value m = []) then Err ("redirect without domain-spec" : gostring)
      else scan_terms true (value m) r
      else if typ m =s? "exp" then scan_terms seenRedirect redirect r
      else match term_error m with
      | Some e => Err e
      | None =>
          match scan_terms seenRedirect redirect r with
          | Ok (red, ms) => Ok (red, m :: ms)
          | Err e => Err e
          end
      end
  end.

(** The second pass: [None] inside is that no mechanism matched. *)
Fixpoint eval_loop (rec : recursive_call) (domain : gostring) (ms : list spfMechanism) (st : spfState)
  : option (option (SPFResult * gostring) * spfState) :=
  match ms with
  | [] => Some (None, st)
  | m :: r =>
      let st := if spfIsDNSTerm (typ m) then count_lookup st else st in
      if spfIsDNSTerm (typ m) && (spfMaxDNSTerms <? lookups st) then Some (Some (SPFPermError, "Too many DNS lookups" : gostring), st)
      else match evaluateMechanism rec domain m st with
      | None => None
      | Some (Err e, st) => Some (Some (if isTemporaryError e then SPFTempError else SPFPermError, err_text e), st)
      | Some (Ok (matched, void), st) =>
          let st := if void : bool then count_void st else st in
          if void && (spfMaxVoidLookups <? voids st) then Some (Some (SPFPermError, "Too many void lookups" : gostring), st)
          else if matched : bool then Some (Some (qualifier m, mech_String m), st)
          else eval_loop rec domain r st
      end
  end.

Definition evaluate_with (rec : recursive_call) (domain record : gostring) (st : spfState) : option (SPFResult * gostring * spfState) :=
  match scan_terms false [] (parseSPF record) with
  | Err e => Some (SPFPermError, e, st)
  | Ok (redirect, ms) =>
      match eval_loop rec domain ms st with
      | None => None
      | Some (Some r, st) => Some (r, st)
      | Some (None, st) =>
          if bool_decide (redirect = []) then Some (SPFNeutral, [], st)
          else
          let st := count_lookup st in
          if spfMaxDNSTerms <? lookups st then Some (SPFPermError, "Too many DNS lookups" : gostring, st)
          else match spfExpand ip domain sender redirect with
          | Err e => Some (SPFPermError, err_text e, st)
          | Ok target =>
              match lookupSPF target st with
              | (Err e, st) =>
                  Some (if isTemporaryError e then (SPFTempError, "DNS lookup failed" : gostring) else (SPFPermError, "Invalid redirect" : gostring), st)
              | (Ok record, st) => rec target record st
              end
          end
      end
  end.

Fixpoint evaluate (fuel : nat) (domain record : gostring) (st : spfState) : option (SPFResult * gostring * spfState) :=
  match fuel with
  | O => None
  | S f => evaluate_with (evaluate f) domain record st
  end.
End Check.

(** ** The cache
    
    [iter] is the order in which the map is walked, any permutation of it. *)
Record cacheEntry := { record_ : gostring; expiresAt : Z }.
Record spfCache := { records : gmap gostring cacheEntry; maxSize : Z; nextCleanup : Z; ttl : Z }.

Definition defaultSPFCacheTTL : Z := 5 * minute.
Definition NewSPFCache (now : Z) : spfCache :=
  {| records := ∅; maxSize := 10000; nextCleanup := now + minute; ttl := defaultSPFCacheTTL |}.

Definition SetCacheTTL (d : Z) (c : spfCache) : spfCache :=
  if d <=? 0 then c
  else {| records := records c; maxSize := maxSize c; nextCleanup := nextCleanup c; ttl := d |}.

Definition cache_get (now : Z) (domain : gostring) (c : spfCache) : option gostring :=
  match records c !! domain with
  | Some e => if expiresAt e <? now then None else Some (record_ e)
  | None => None
  end.

Definition cleanupExpired (now : Z) (m : gmap gostring cacheEntry) : gmap gostring cacheEntry :=
  filter (fun kv => ~ expiresAt (snd kv) < now) m.

Fixpoint evict_until (target : Z) (keys : list gostring) (m : gmap gostring cacheEntry) : gmap gostring cacheEntry :=
  match keys with
  | [] => m
  | k :: r => if target <? Z.of_nat (size m) then evict_until target r (base.delete k m) else m
  end.

Definition expires_first (a b : gostring * cacheEntry) : Prop := expiresAt (snd a) <= expiresAt (snd b).
#[export] Instance expires_first_dec : RelDecision expires_first.
Proof. intros a b. unfold expires_first. apply _. Defined.

Definition evictOldest (now : Z) (iter : gmap gostring cacheEntry -> list (gostring * cacheEntry)) (c : spfCache) : gmap gostring cacheEntry :=
  cleanupExpired now (evict_until (Z.quot (maxSize c * 9) 10) (map fst (merge_sort expires_first (iter (records c)))) (records c)).

Definition cache_set (now : Z) (iter : gmap gostring cacheEntry -> list (gostring * cacheEntry)) (domain record : gostring) (t : Z) (c : spfCache) : spfCache :=
  let m := if maxSize c <=? Z.of_nat (size (records c)) then evictOldest now iter c else records c in
  let m := <[domain := {| record_ := record; expiresAt := now + t |}]> m in
  if nextCleanup c <? now
  then {| records := cleanupExpired now m; maxSize := maxSize c; nextCleanup := now + minute; ttl := ttl c |}
  else {| records := m; maxSize := maxSize c; nextCleanup := nextCleanup c; ttl := ttl c |}.

(** Enough for every evaluation: a level of recursion is paid with a DNS term. *)
Definition spf_fuel : nat := 11.
Definition fresh_state : spfState := {| lookups := 0; voids := 0; asked := [] |}.

(** The verdict with its explanation, the state at the end and the cache. *)
Definition CheckSPF {R : DNSResolver} (now : Z) iter (ip domain sender : gostring) (c : spfCache)
  : option (SPFResult * gostring * spfState) * spfCache :=
  match cache_get now domain c with
  | Some record => (evaluate ip sender spf_fuel domain record fresh_state, c)
  | None =>
      match lookupSPF domain fresh_state with
      | (Err e, st) =>
          (Some (if isTemporaryError e then (SPFTempError, "DNS lookup failed" : gostring)
            else match e with
            | errSPFMultipleRecords => (SPFPermError, err_text e)
            | _ => (SPFNone, "No SPF record found" : gostring)
            end, st), c)
      | (Ok record, st) =>
          let t := if ttl c <=? 0 then defaultSPFCacheTTL else ttl c in
          (evaluate ip sender spf_fuel domain record st, cache_set now iter domain record t c)
      end
  end.
End Spf.
