(* ===== verification/SpfProps.v ===== *)
(** * Properties of SPF

    Every check ends within the limits, whatever the resolver answers; a definite
    verdict is the one of a declarative reading of RFC 7208 within these limits; and
    a network written in a record means the addresses with its leading bits. *)
From S2P Require Import Prelude GoLib GoNet Spf.

Section Bounds.
Context {U : UnicodeTables} {Q : GoQuote} {R : DNSResolver} (ip sender : gostring).
Implicit Types (st : spfState) (m : spfMechanism) (domain record v : gostring).

Definition within st : Prop := 0 <= lookups st <= 10 /\ 0 <= voids st <= 2.
Definition questions st : Z := Z.of_nat (length (asked st)).

(** What a part of an evaluation may use up: [k] questions, and eleven for every
    DNS term it counts. *)
Record spent (k : Z) st st' : Prop := {
  sp_lookups : lookups st <= lookups st' <= 11;
  sp_voids : voids st <= voids st' <= 3;
  sp_questions : questions st' <= questions st + k + 11 * (Z.min 10 (lookups st') - lookups st)
}.

Lemma spent_refl st : within st -> spent 0 st st.
Proof. intros [? ?]. constructor; lia. Qed.

Lemma spent_mono k k' st st' : spent k st st' -> k <= k' -> spent k' st st'.
Proof. intros [? ? ?] ?. constructor; lia. Qed.

Lemma questions_ask q st : questions (ask q st) = questions st + 1.
Proof. unfold questions. cbn. rewrite length_app. cbn. lia. Qed.

Lemma spent_ask k q st st' : spent k (ask q st) st' -> spent (k + 1) st st'.
Proof. intros [H1 H2 H3]. rewrite questions_ask in H3. constructor; [exact H1 | exact H2 | cbn in H3; lia]. Qed.

(** An answered question, and nothing else. *)
Lemma spent_asked q st : within st -> spent 1 st (ask q st).
Proof. intros H. apply (spent_ask 0 q), spent_refl. exact H. Qed.

Lemma mx_hosts_spent n4 n6 budget hosts st res st' : within st ->
  mx_hosts ip n4 n6 budget hosts st = (res, st') ->
  spent (Z.of_nat budget) st st' /\ (within st' \/ exists msg, res = Err (spfPermError msg)).
Proof.
  revert budget st. induction hosts as [| h r IH]; intros [| b] st Hw; cbn [mx_hosts].
  - intros [= <- <-]. split; [by apply spent_refl | by left].
  - intros [= <- <-]. split; [eapply spent_mono; [by apply spent_refl | lia] | by left].
  - intros [= <- <-]. split; [by apply spent_refl | right; eauto].
  - assert (Hw1 : within (ask (QIP h) st)) by exact Hw.
    assert (Hvoid : (let st' := count_void (ask (QIP h) st) in
      if spfMaxVoidLookups <? voids st' then (Err (spfPermError "Too many void lookups"), st')
      else mx_hosts ip n4 n6 b r st') = (res, st') -> spent (Z.of_nat (S b)) st st' /\ (within st' \/ exists msg, res = Err (spfPermError msg))).
    { cbn zeta. unfold spfMaxVoidLookups. destruct (Z.ltb_spec 2 (voids (count_void (ask (QIP h) st)))) as [H | H].
      - intros [= <- <-]. split; [| right; eauto]. destruct Hw as [? ?]. pose proof (questions_ask (QIP h) st) as E.
        constructor; cbn in *; [lia | lia |]. change (questions (count_void (ask (QIP h) st))) with (questions (ask (QIP h) st)). lia.
      - intros E. apply IH in E; [| destruct Hw; split; cbn in *; lia]. destruct E as [[H1 H2 H3] Hr]. split; [| done].
        change (questions (count_void (ask (QIP h) st))) with (questions (ask (QIP h) st)) in H3. rewrite questions_ask in H3.
        constructor; cbn in *; lia. }
    assert (Hnext : mx_hosts ip n4 n6 b r (ask (QIP h) st) = (res, st') -> spent (Z.of_nat (S b)) st st' /\ (within st' \/ exists msg, res = Err (spfPermError msg))).
    { intros E. apply IH in E; [| done]. destruct E as [E Hr]. split; [| done]. rewrite Nat2Z.inj_succ. by apply spent_ask in E. }
    assert (Hone : spent (Z.of_nat (S b)) st (ask (QIP h) st)) by (eapply spent_mono; [by apply spent_asked | lia]).
    destruct (LookupIP (asked st) h) as [[| t ts] | e]; [exact Hvoid | | destruct (isTemporaryError e); [| exact Hvoid]].
    + destruct (existsb _ _); [| exact Hnext]. intros [= <- <-]. eauto.
    + intros [= <- <-]. split; [done | by left].
Qed.

Lemma evaluateA_spent v domain st res st' : within st -> evaluateA ip v domain st = (res, st') -> spent 11 st st' /\ within st'.
Proof.
  intros Hw. unfold evaluateA. destruct (spfSplitDualCIDR v) as [[[h n4] n6] | e]; intros [= <- <-].
  - split; [eapply spent_mono; [by apply spent_asked | lia] | exact Hw].
  - split; [eapply spent_mono; [by apply spent_refl | lia] | exact Hw].
Qed.

Lemma evaluateExists_spent v st res st' : within st -> evaluateExists v st = (res, st') -> spent 11 st st' /\ within st'.
Proof. intros Hw [= <- <-]. split; [eapply spent_mono; [by apply spent_asked | lia] | exact Hw]. Qed.

Lemma evaluateMX_spent v domain st res st' : within st -> evaluateMXLim ip v domain st = (res, st') ->
  spent 11 st st' /\ (within st' \/ exists msg, res = Err (spfPermError msg)).
Proof.
  intros Hw. unfold evaluateMXLim. destruct (spfSplitDualCIDR v) as [[[h n4] n6] | e]; cycle 1.
  { intros [= <- <-]. split; [eapply spent_mono; [by apply spent_refl | lia] | by left]. }
  set (host := if bool_decide (h = []) then domain else h). assert (Hone : spent 11 st (ask (QMX host) st)) by (eapply spent_mono; [by apply spent_asked | lia]).
  destruct (LookupMX (asked st) host) as [[| x xs] | e]; [by intros [= <- <-]; auto | | by intros [= <- <-]; auto].
  intros E. apply mx_hosts_spent in E; [| exact Hw]. destruct E as [E Hr]. split; [| done]. by apply spent_ask in E.
Qed.

(** What a recursive call promises: it returns, within the limits or with permerror. *)
Definition returns (fuel : nat) (rec : gostring -> gostring -> spfState -> option (SPFResult * gostring * spfState)) : Prop :=
  forall domain record st, within st -> 10 < Z.of_nat fuel + lookups st ->
  exists res x st', rec domain record st = Some (res, x, st') /\ spent 0 st st' /\ (within st' \/ res = SPFPermError).

Lemma evaluateInclude_spent f rec domain st : returns f rec -> within st -> 10 < Z.of_nat f + lookups st ->
  exists res st', evaluateInclude rec domain st = Some (res, st') /\ spent 11 st st' /\ (within st' \/ exists msg, res = Err (spfPermError msg)).
Proof.
  intros Hrec Hw Hf. unfold evaluateInclude, lookupSPF. set (st1 := ask (QTXT domain) st).
  assert (Hone : spent 11 st st1) by (eapply spent_mono; [by apply spent_asked | lia]).
  destruct (match LookupTXT (asked st) domain with Ok _ => _ | Err _ => _ end) as [record | e]; [| eauto 6].
  destruct (Hrec domain record st1 Hw Hf) as (res & x & st2 & -> & Hs & Hr). do 2 eexists. split; [done |].
  split; [eapply spent_mono; [by apply spent_ask in Hs | lia] |]. destruct Hr as [? | ->]; eauto.
Qed.

Lemma evaluateMechanism_spent f rec domain m st : returns f rec -> within st -> 10 < Z.of_nat f + lookups st ->
  exists res st', evaluateMechanism ip sender rec domain m st = Some (res, st') /\
  (spfIsDNSTerm (typ m) = false -> st' = st) /\ spent 11 st st' /\ (within st' \/ exists msg, res = Err (spfPermError msg)).
Proof.
  intros Hrec Hw Hf. assert (Hst : spent 11 st st) by (eapply spent_mono; [by apply spent_refl | lia]).
  unfold evaluateMechanism. repeat case_bool_decide;
    (* everything that leaves the state alone *)
    try (do 2 eexists; split; [reflexivity |]; by split; [| split; [| left]]);
    match goal with H : typ m = _ |- _ => rewrite H end.
  - destruct (spfExpandDualCIDR _ _ _ _) as [spec | e]; [| by eauto 7]. destruct (evaluateA ip spec domain st) as [res st'] eqn:E.
    apply evaluateA_spent in E as [? ?]; [| done]. exists res, st'. by split_and!; [| intros [=] | | left].
  - destruct (spfExpandDualCIDR _ _ _ _) as [spec | e]; [| by eauto 7]. destruct (evaluateMXLim ip spec domain st) as [res st'] eqn:E.
    apply evaluateMX_spent in E as [? ?]; [| done]. exists res, st'. by split_and!; [| intros [=] | |].
  - destruct (spfExpand _ _ _ _) as [spec | e]; [| by eauto 7]. destruct (evaluateExists spec st) as [res st'] eqn:E.
    apply evaluateExists_spent in E as [? ?]; [| done]. exists res, st'. by split_and!; [| intros [=] | | left].
  - destruct (spfExpand _ _ _ _) as [spec | e]; [| by eauto 7].
    destruct (evaluateInclude_spent f rec spec st Hrec Hw Hf) as (res & st' & -> & ? & ?). exists res, st'. by split_and!; [| intros [=] | |].
Qed.

(** A part that counts a DNS term may ask eleven questions for it. *)
Lemma spent_counted st st' : within st -> lookups st < 10 -> spent 11 (count_lookup st) st' -> spent 0 st st'.
Proof.
  intros [? ?] ? [H1 H2 H3]. change (questions (count_lookup st)) with (questions st) in H3. cbn [lookups voids count_lookup] in *.
  constructor; lia.
Qed.

Lemma spent_void st st' : spent 0 st st' -> within st' -> spent 0 st (count_void st').
Proof. intros [H1 H2 H3] [? ?]. constructor; cbn; [lia | lia | exact H3]. Qed.

Lemma spent_trans st st1 st' : within st1 -> spent 0 st st1 -> spent 0 st1 st' -> spent 0 st st'.
Proof. intros [? ?] [H1 H2 H3] [G1 G2 G3]. constructor; lia. Qed.

Lemma spent_lookup_limit st : within st -> spent 0 st (count_lookup st).
Proof. intros [? ?]. constructor; cbn [lookups voids count_lookup]; [lia | lia |]. change (questions (count_lookup st)) with (questions st). lia. Qed.

(** One mechanism, as the loop runs it. *)
Lemma mechanism_step f rec domain m st : returns f rec -> within st -> 10 < Z.of_nat (S f) + lookups st ->
  let st1 := if spfIsDNSTerm (typ m) then count_lookup st else st in
  spfIsDNSTerm (typ m) && (spfMaxDNSTerms <? lookups st1) = false ->
  exists res st', evaluateMechanism ip sender rec domain m st1 = Some (res, st') /\ spent 0 st st' /\ (within st' \/ exists msg, res = Err (spfPermError msg)).
Proof.
  intros Hrec Hw Hf st1 Hlim. subst st1. destruct (spfIsDNSTerm (typ m)) eqn:Ed; cbn [andb] in Hlim.
  - unfold spfMaxDNSTerms in Hlim. cbn [lookups count_lookup] in Hlim. apply Z.ltb_ge in Hlim.
    assert (Hw1 : within (count_lookup st)) by (destruct Hw; split; cbn [lookups voids count_lookup]; lia).
    destruct (evaluateMechanism_spent f rec domain m (count_lookup st) Hrec Hw1) as (res & st' & E & _ & Hs & Hr); [cbn [lookups count_lookup]; lia |].
    exists res, st'. split_and!; [done | | done]. apply spent_counted in Hs; [done | done | lia].
  - (* no DNS term: the state is left alone, and no recursion takes place *)
      clear Hrec Hf Hlim. assert (Hst : spent 0 st st) by by apply spent_refl.
    unfold evaluateMechanism. repeat case_bool_decide; try (do 2 eexists; split; [reflexivity |]; by split; [| left]);
      match goal with H : typ m = _ |- _ => by rewrite H in Ed end.
Qed.

Lemma eval_loop_spent f rec domain ms st : returns f rec -> within st -> 10 < Z.of_nat (S f) + lookups st ->
  exists res st', eval_loop ip sender rec domain ms st = Some (res, st') /\ spent 0 st st' /\
  (within st' \/ exists x, res = Some (SPFPermError, x)).
Proof.
  intros Hrec. revert st. induction ms as [| m r IH]; intros st Hw Hf; cbn [eval_loop].
  { do 2 eexists. split_and!; [done | by apply spent_refl | by left]. }
  destruct (spfIsDNSTerm (typ m) && _) eqn:Hlim.
  { apply andb_true_iff in Hlim as [-> _]. do 2 eexists. split_and!; [done | by apply spent_lookup_limit | eauto]. }
  destruct (mechanism_step f rec domain m st Hrec Hw Hf Hlim) as ([[matched void] | e] & st1 & -> & Hs & Hr).
  - assert (Hw1 : within st1) by (by destruct Hr as [? | [? ?]]). clear Hr.
    assert (Hgo : forall st2, spent 0 st st2 -> within st2 ->
      exists res st', (if matched : bool then Some (Some (qualifier m, mech_String m), st2) else eval_loop ip sender rec domain r st2) = Some (res, st') /\
      spent 0 st st' /\ (within st' \/ exists x, res = Some (SPFPermError, x))).
    { intros st2 Hs2 Hw2. destruct matched; [by eauto 8 |]. pose proof (sp_lookups _ _ _ Hs2).
      destruct (IH st2 Hw2 ltac:(lia)) as (res & st' & E & Hs' & Hr). exists res, st'. split_and!; [done | by eapply spent_trans | done]. }
    destruct void; cbn [andb]; [| by apply Hgo]. unfold spfMaxVoidLookups. destruct (Z.ltb_spec 2 (voids (count_void st1))).
    + do 2 eexists. split_and!; [done | by apply spent_void | eauto].
    + apply Hgo; [by apply spent_void |]. destruct Hw1. split; cbn in *; lia.
  - do 2 eexists. split_and!; [done | done |]. destruct Hr as [? | [msg [= ->]]]; [by left | right]. by eexists.
Qed.

Lemma evaluate_returns f : returns f (evaluate ip sender f).
Proof.
  induction f as [| f IH]; intros domain record st Hw Hf; [destruct Hw; cbn in Hf; lia |].
  cbn [evaluate]. unfold evaluate_with. destruct (scan_terms _ _ _) as [[redirect ms] | e]; cycle 1.
  { do 3 eexists. split_and!; [done | by apply spent_refl | by left]. }
  destruct (eval_loop_spent f _ domain ms st IH Hw Hf) as ([[res x] |] & st1 & -> & Hs & Hr).
  { do 3 eexists. split_and!; [done | done |]. destruct Hr as [? | [y [= -> _]]]; auto. }
  assert (Hw1 : within st1) by (by destruct Hr as [? | [? ?]]). clear Hr.
  case_bool_decide; [do 3 eexists; split_and!; [done | done | by left] |].
  unfold spfMaxDNSTerms. destruct (Z.ltb_spec 10 (lookups (count_lookup st1))) as [Hl | Hl]; cbn [lookups count_lookup] in Hl.
  { do 3 eexists. split_and!; [done | | by right]. eapply spent_trans; [done | done |]. by apply spent_lookup_limit. }
  assert (Hw2 : within (count_lookup st1)) by (destruct Hw1; split; cbn [lookups voids count_lookup]; lia).
  assert (Hfrom : forall st2, spent 11 (count_lookup st1) st2 -> spent 0 st st2).
  { intros st2 H2. eapply spent_trans; [exact Hw1 | done |]. apply spent_counted; [done | lia | done]. }
  destruct (spfExpand _ _ _ _) as [target | e]; cycle 1.
  { do 3 eexists. split_and!; [done | | by right]. apply Hfrom. eapply spent_mono; [by apply spent_refl | lia]. }
  unfold lookupSPF. set (st2 := ask (QTXT target) (count_lookup st1)). assert (Hw3 : within st2) by exact Hw2.
  destruct (match LookupTXT _ target with Ok _ => _ | Err _ => _ end) as [record' | e].
  - destruct (IH target record' st2 Hw3) as (res & x & st3 & -> & H3 & Hr); [pose proof (sp_lookups _ _ _ Hs); cbn [lookups st2 ask count_lookup]; lia |].
    do 3 eexists. split_and!; [done | | done]. apply Hfrom. eapply spent_mono; [by apply spent_ask in H3 | lia].
  - destruct (isTemporaryError e); do 3 eexists; (split_and!; [done | | by left]); apply Hfrom; (eapply spent_mono; [by apply spent_asked | lia]).
Qed.
End Bounds.

(** C34: whatever the resolver answers, records that include or redirect to themselves
    included, a check returns a verdict; it counts at most eleven DNS terms and three
    void lookups, the last of which ends it, and asks at most 111 questions. *)
Theorem spf_check_bounded {U : UnicodeTables} {Q : GoQuote} {R : DNSResolver} now iter (ip domain sender : gostring) c :
  exists res x st c', CheckSPF now iter ip domain sender c = (Some (res, x, st), c') /\
  lookups st <= 11 /\ voids st <= 3 /\ Z.of_nat (length (asked st)) <= 111.
Proof.
  assert (Hrun : forall record st, within st -> lookups st = 0 -> questions st <= 1 ->
    exists res x st', evaluate ip sender spf_fuel domain record st = Some (res, x, st') /\ lookups st' <= 11 /\ voids st' <= 3 /\ questions st' <= 111).
  { intros record st Hw Hl Hq. destruct (evaluate_returns ip sender spf_fuel domain record st Hw) as (res & x & st' & E & [H1 H2 H3] & _); [unfold spf_fuel; lia |].
    exists res, x, st'. split_and!; [done | lia | lia | lia]. }
  unfold CheckSPF. destruct (cache_get now domain c) as [record |].
  - destruct (Hrun record fresh_state) as (res & x & st' & -> & H); [repeat split; vm_compute; congruence | done | vm_compute; congruence | eauto 6].
  - destruct (lookupSPF domain fresh_state) as [r st] eqn:El.
    assert (st = ask (QTXT domain) fresh_state) as -> by by injection El.
    destruct r as [record | e].
    + destruct (Hrun record (ask (QTXT domain) fresh_state)) as (res & x & st' & -> & H); [repeat split; vm_compute; congruence | done | vm_compute; congruence | eauto 6].
    + eexists _, _, _, _. split; [rewrite <- surjective_pairing; reflexivity |]. cbn. lia.
Qed.

(** ** The reading of RFC 7208

    [host_says domain record r l v]: a record of [domain] gives the definite verdict
    [r], using [l] DNS terms and finding [v] lookups void.  The resolver is a fixed
    assignment of answers; [None] is an answer that makes the check an error. *)
Section Reading.
Context {U : UnicodeTables} {Q : GoQuote}.

Record Zone := {
  zone_txt : gostring -> result goerr (list gostring);
  zone_ip : gostring -> result goerr (list gostring);
  zone_mx : gostring -> result goerr (list gostring)
}.
Context (z : Zone) (ip sender : gostring).

Definition zone_resolver : DNSResolver := {|
  LookupTXT := fun _ => zone_txt z; LookupIP := fun _ => zone_ip z; LookupMX := fun _ => zone_mx z |}.

(** A name without addresses has none, whatever the error; a failure that may pass
    is no answer. *)
Definition answer (r : result goerr (list gostring)) : option (list gostring) :=
  match r with Ok l => Some l | Err e => if isTemporaryError e then None else Some [] end.

(** The one SPF record of a domain. *)
Definition the_record (domain : gostring) : option gostring :=
  match zone_txt z domain with
  | Ok txt => match filter (fun r => is_spf_record r = true) txt with [r] => Some r | _ => None end
  | Err _ => None
  end.

Definition some_in (n4 n6 : Z) (addrs : list gostring) : bool := existsb (fun t => spfIPInCIDR ip t n4 n6) addrs.
Definition is_void (l : list gostring) : Z := if bool_decide (l = []) then 1 else 0.

(** The hosts of an mx term, up to the first that matches; at most ten. *)
Fixpoint mx_says (n4 n6 : Z) (budget : nat) (hosts : list gostring) : option (bool * Z) :=
  match hosts, budget with
  | [], _ => Some (false, 0)
  | _, O => None
  | h :: r, S b =>
      match answer (zone_ip z h) with
      | None => None
      | Some l => if some_in n4 n6 l then Some (true, 0)
          else match mx_says n4 n6 b r with Some (m, v) => Some (m, is_void l + v) | None => None end
      end
  end.

Definition dual_host (domain : gostring) (m : spfMechanism) : option (gostring * Z * Z) :=
  match spfExpandDualCIDR ip domain sender (value m) with
  | Ok spec => match spfSplitDualCIDR spec with
  | Ok (h, n4, n6) => Some (if bool_decide (h = []) then domain else h, n4, n6)
  | Err _ => None end
  | Err _ => None
  end.

Definition definite (r : SPFResult) : Prop := r = SPFPass \/ r = SPFFail \/ r = SPFSoftFail \/ r = SPFNeutral.

Inductive term_says : gostring -> spfMechanism -> bool -> Z -> Z -> Prop :=
  | T_all domain m : typ m = ("all" : gostring) -> term_says domain m true 0 0
  | T_ip4 domain m : typ m = ("ip4" : gostring) -> spfValidIPSpec (value m) false = true ->
  term_says domain m (evaluateIP4 ip (value m)) 0 0
  | T_ip6 domain m : typ m = ("ip6" : gostring) -> spfValidIPSpec (value m) true = true ->
  term_says domain m (evaluateIP6 ip (value m)) 0 0
  | T_ptr domain m : typ m = ("ptr" : gostring) -> term_says domain m false 1 0
  | T_a domain m h n4 n6 l : typ m = ("a" : gostring) -> dual_host domain m = Some (h, n4, n6) -> answer (zone_ip z h) = Some l ->
  term_says domain m (some_in n4 n6 l) 1 (is_void l)
  | T_mx domain m h n4 n6 l b v : typ m = ("mx" : gostring) -> dual_host domain m = Some (h, n4, n6) -> answer (zone_mx z h) = Some l ->
  mx_says n4 n6 spfMaxMXHosts l = Some (b, v) -> term_says domain m b 1 (is_void l + v)
  | T_exists domain m h l : typ m = ("exists" : gostring) -> spfExpand ip domain sender (value m) = Ok h -> answer (zone_ip z h) = Some l ->
  let b := existsb (fun a => bool_decide (is_Some (To4 a))) l in term_says domain m b 1 (if b then 0 else 1)
  | T_include domain m d record r l v : typ m = ("include" : gostring) -> spfExpand ip domain sender (value m) = Ok d ->
  the_record d = Some record -> host_says d record r l v -> term_says domain m (bool_decide (r = SPFPass)) (1 + l) v
  with terms_say : gostring -> list spfMechanism -> option SPFResult -> Z -> Z -> Prop :=
  | S_none domain : terms_say domain [] None 0 0
  | S_match domain m r l v : term_says domain m true l v -> terms_say domain (m :: r) (Some (qualifier m)) l v
  | S_next domain m r o l v l' v' : term_says domain m false l v -> terms_say domain r o l' v' -> terms_say domain (m :: r) o (l + l') (v + v')
  with host_says : gostring -> gostring -> SPFResult -> Z -> Z -> Prop :=
  | H_match domain record red ms r l v : scan_terms false [] (parseSPF record) = Ok (red, ms) ->
  terms_say domain ms (Some r) l v -> host_says domain record r l v
  | H_default domain record ms l v : scan_terms false [] (parseSPF record) = Ok ([], ms) ->
  terms_say domain ms None l v -> host_says domain record SPFNeutral l v
  | H_redirect domain record red ms d record' r l v l' v' : scan_terms false [] (parseSPF record) = Ok (red, ms) -> red <> [] ->
  terms_say domain ms None l v -> spfExpand ip domain sender red = Ok d -> the_record d = Some record' ->
  host_says d record' r l' v' -> host_says domain record r (l + (1 + l')) (v + v').

#[local] Existing Instance zone_resolver.
Implicit Types (st : spfState) (m : spfMechanism) (domain record d h : gostring).

Lemma lookupSPF_zone d st : exists r, lookupSPF d st = (r, ask (QTXT d) st) /\
  match r with Ok record => the_record d = Some record | Err e => the_record d = None end.
Proof.
  unfold lookupSPF, the_record. cbn [LookupTXT zone_resolver]. destruct (zone_txt z d) as [txt | e]; [| by eexists].
  destruct (filter _ txt) as [| r [| ]]; by eexists.
Qed.

Lemma is_void_bound l : 0 <= is_void l <= 1.
Proof. unfold is_void. case_bool_decide; lia. Qed.

Lemma mx_says_nonneg n4 n6 b hosts (m : bool) v : mx_says n4 n6 b hosts = Some (m, v) -> 0 <= v.
Proof.
  revert b v. induction hosts as [| h r IH]; intros [| b] v; cbn [mx_says]; try (intros [= <- <-]; lia).
  destruct (answer _) as [l |]; [| done]. destruct (some_in n4 n6 l); [intros [= <- <-]; lia |].
  destruct (mx_says n4 n6 b r) as [[m' v'] |] eqn:E; [| done]. intros [= <- <-]. pose proof (is_void_bound l). apply IH in E. lia.
Qed.

(** The same counters; the questions asked do not matter to a zone. *)
Definition counted st (l v : Z) st' : Prop := lookups st' = lookups st + l /\ voids st' = voids st + v.

Lemma mx_hosts_zone n4 n6 b hosts st : voids st <= 2 ->
  match mx_hosts ip n4 n6 b hosts st, mx_says n4 n6 b hosts with
  | (Ok (m, w), st'), Some (m', v) => m = m' /\ w = false /\ counted st 0 v st'
  | (Ok _, _), None => False
  | (Err _, _), Some (_, v) => 2 < voids st + v
  | (Err _, _), None => True
  end.
Proof.
  revert b st. induction hosts as [| h r IH]; intros [| b] st Hv; cbn [mx_hosts mx_says]; try (split_and!; try done; split; lia); [done |].
  cbn [LookupIP zone_resolver].
  assert (Hvoid : match (let st' := count_void (ask (QIP h) st) in
    if spfMaxVoidLookups <? voids st' then (Err (spfPermError "Too many void lookups"), st') else mx_hosts ip n4 n6 b r st'),
    (match mx_says n4 n6 b r with Some (m, v) => Some (m, 1 + v) | None => None end) with
    | (Ok (m, w), st'), Some (m', v) => m = m' /\ w = false /\ counted st 0 v st'
    | (Ok _, _), None => False
    | (Err _, _), Some (_, v) => 2 < voids st + v
    | (Err _, _), None => True
    end).
  { cbn zeta. unfold spfMaxVoidLookups. destruct (Z.ltb_spec 2 (voids (count_void (ask (QIP h) st)))) as [H | H]; cbn in H.
    - destruct (mx_says n4 n6 b r) as [[m v] |] eqn:E; [| done]. apply mx_says_nonneg in E. lia.
    - specialize (IH b (count_void (ask (QIP h) st)) H). destruct (mx_hosts _ _ _ _ _ _) as [[[m w] | e] st'], (mx_says n4 n6 b r) as [[m' v] |]; try done.
      + destruct IH as (? & ? & Hl & Hv'). split_and!; [done | done |]. cbn in Hl, Hv'. split; lia.
      + cbn in IH. lia. }
  destruct (zone_ip z h) as [[| t ts] | e]; cbn [answer]; [exact Hvoid | | destruct (isTemporaryError e); [done | exact Hvoid]].
  fold (some_in n4 n6 (t :: ts)). destruct (some_in n4 n6 (t :: ts)); [split_and!; try done; split; cbn; lia |].
  specialize (IH b (ask (QIP h) st) Hv). destruct (mx_hosts _ _ _ _ _ _) as [[[m w] | e] st'], (mx_says n4 n6 b r) as [[m' v] |]; try done.
Qed.

Lemma evaluateA_zone v domain st h n4 n6 : spfSplitDualCIDR v = Ok (h, n4, n6) ->
  let h := if bool_decide (h = []) then domain else h in
  match answer (zone_ip z h) with
  | Some l => evaluateA ip v domain st = (Ok (some_in n4 n6 l, bool_decide (l = [])), ask (QIP h) st)
  | None => exists e, evaluateA ip v domain st = (Err e, ask (QIP h) st)
  end.
Proof.
  intros E. cbn zeta. unfold evaluateA. rewrite E. cbn [LookupIP zone_resolver]. set (h' := if (_ : bool) then _ else _).
  destruct (zone_ip z h') as [[| t ts] | e]; cbn [answer]; [done | by rewrite bool_decide_false |]. destruct (isTemporaryError e); [by eexists | done].
Qed.

Lemma evaluateExists_zone h st :
  match answer (zone_ip z h) with
  | Some l => let b := existsb (fun a => bool_decide (is_Some (To4 a))) l in evaluateExists h st = (Ok (b, negb b), ask (QIP h) st)
  | None => exists e, evaluateExists h st = (Err e, ask (QIP h) st)
  end.
Proof.
  unfold evaluateExists. cbn [LookupIP zone_resolver].
  assert (Eb : forall l, existsb (fun a => bool_decide (is_Some (To4 a))) l = existsb (fun a => match To4 a with Some _ => true | None => false end) l).
  { intros l. induction l as [| a l IH]; [done |]. cbn [existsb]. rewrite IH. f_equal. destruct (To4 a); [by rewrite bool_decide_true | by rewrite bool_decide_false by apply is_Some_None]. }
  destruct (zone_ip z h) as [l | e]; cbn [answer].
  - cbn zeta. rewrite Eb. by destruct (existsb _ l).
  - destruct (isTemporaryError e); [by eexists | done].
Qed.

Lemma evaluateMX_zone v domain st h n4 n6 : spfSplitDualCIDR v = Ok (h, n4, n6) -> voids st <= 2 ->
  let h := if bool_decide (h = []) then domain else h in
  match answer (zone_mx z h) with
  | Some l =>
      match evaluateMXLim ip v domain st, mx_says n4 n6 spfMaxMXHosts l with
      | (Ok (m, w), st'), Some (m', x) => m = m' /\ w = bool_decide (l = []) /\ counted st 0 x st'
      | (Ok _, _), None => False
      | (Err _, _), Some (_, x) => 2 < voids st + x
      | (Err _, _), None => True
      end
  | None => exists e st', evaluateMXLim ip v domain st = (Err e, st')
  end.
Proof.
  intros E Hv. cbn zeta. unfold evaluateMXLim. rewrite E. cbn [LookupMX zone_resolver]. set (h' := if (_ : bool) then _ else _).
  assert (H0 : counted st 0 0 (ask (QMX h') st)) by (split; cbn; lia).
  destruct (zone_mx z h') as [[| x xs] | e]; cbn [answer]; [done | |].
  - pose proof (mx_hosts_zone n4 n6 spfMaxMXHosts (x :: xs) (ask (QMX h') st) Hv) as H.
    destruct (mx_hosts _ _ _ _ _ _) as [[[m w] | e'] st'], (mx_says n4 n6 spfMaxMXHosts (x :: xs)) as [[m' y] |]; try done.
  - destruct (isTemporaryError e); [by eexists _, _ | done].
Qed.

Definition no_error (r : SPFResult) : Prop := r <> SPFPermError /\ r <> SPFTempError.

(** ** The evaluation reads records that way *)
Definition agrees (fuel : nat) (rec : gostring -> gostring -> spfState -> option (SPFResult * gostring * spfState)) : Prop :=
  forall domain record st, within st -> 10 < Z.of_nat fuel + lookups st ->
  (forall r x st', rec domain record st = Some (r, x, st') -> no_error r -> exists l v, host_says domain record r l v /\ counted st l v st') /\
  (forall r l v, host_says domain record r l v -> lookups st + l <= 10 -> voids st + v <= 2 ->
    exists x st', rec domain record st = Some (r, x, st') /\ counted st l v st').

Definition term_count m : Z := if spfIsDNSTerm (typ m) then 1 else 0.
Definition void_count (w : bool) : Z := if w then 1 else 0.

Lemma is_void_count l : is_void l = void_count (bool_decide (l = [])).
Proof. unfold is_void. by case_bool_decide. Qed.

Lemma include_sound f rec d st b w st' : agrees f rec -> within st -> 10 < Z.of_nat f + lookups st ->
  evaluateInclude rec d st = Some (Ok (b, w), st') ->
  exists record r l v, the_record d = Some record /\ host_says d record r l v /\ b = bool_decide (r = SPFPass) /\ w = false /\ counted st l v st'.
Proof.
  intros Hrec Hw Hf. unfold evaluateInclude. destruct (lookupSPF_zone d st) as ([record | e] & -> & Hr); [| by destruct (isTemporaryError e)].
  destruct (rec d record _) as [[[r x] st1] |] eqn:E; [| done]. destruct (Hrec d record (ask (QTXT d) st) Hw Hf) as [Hs _].
  intros H. assert (Hd : no_error r) by (split; intros ->; discriminate H).
  destruct (Hs _ _ _ E Hd) as (l & v & H1 & H2). exists record, r, l, v. destruct Hd. destruct r; try done; injection H as <- <- <-; done.
Qed.

Lemma include_complete f rec d st record r l v : agrees f rec -> within st -> 10 < Z.of_nat f + lookups st ->
  the_record d = Some record -> host_says d record r l v -> no_error r -> lookups st + l <= 10 -> voids st + v <= 2 ->
  exists st', evaluateInclude rec d st = Some (Ok (bool_decide (r = SPFPass), false), st') /\ counted st l v st'.
Proof.
  intros Hrec Hw Hf Hr Hs [Hp Ht] Hl Hv. unfold evaluateInclude. destruct (lookupSPF_zone d st) as ([record' | e] & -> & Hr'); [| congruence].
  assert (record' = record) as -> by congruence. destruct (Hrec d record (ask (QTXT d) st) Hw Hf) as [_ Hc].
  destruct (Hc r l v Hs Hl Hv) as (x & st' & -> & Hst). exists st'. split; [by destruct r | exact Hst].
Qed.

(** Going to the branch of a mechanism. *)
Ltac at_typ H :=
  unfold evaluateMechanism; rewrite H;
  repeat first [rewrite bool_decide_true by reflexivity | rewrite bool_decide_false by (intros ?; discriminate)].

Lemma term_sound f rec domain m st b w st' : agrees f rec -> within st -> (spfIsDNSTerm (typ m) = true -> 10 < Z.of_nat f + lookups st) ->
  evaluateMechanism ip sender rec domain m st = Some (Ok (b, w), st') ->
  exists l v, term_says domain m b (term_count m + l) (v + void_count w) /\ counted st l v st'.
Proof.
  intros Hrec Hw Hf. assert (H0 : counted st 0 0 st) by (split; lia). unfold evaluateMechanism, term_count. repeat case_bool_decide;
    match goal with H : typ m = _ |- _ => rewrite ?H | _ => done end.
  - intros [= <- <- <-]. exists 0, 0. split; [by apply T_all | done].
  - destruct (spfValidIPSpec _ _) eqn:Ev; [| done]. intros [= <- <- <-]. exists 0, 0. split; [by apply T_ip4 | done].
  - destruct (spfValidIPSpec _ _) eqn:Ev; [| done]. intros [= <- <- <-]. exists 0, 0. split; [by apply T_ip6 | done].
  - destruct (spfExpandDualCIDR _ _ _ _) as [spec | e] eqn:Ex; [| done]. intros [= E].
    destruct (spfSplitDualCIDR spec) as [[[h n4] n6] | e] eqn:Es; [| unfold evaluateA in E; by rewrite Es in E].
    pose proof (evaluateA_zone spec domain st h n4 n6 Es) as Hz. cbn zeta in Hz. destruct (answer _) as [l |] eqn:Ea; [| destruct Hz as [e He]; congruence].
    rewrite Hz in E. injection E as <- <- <-. exists 0, 0. split; [| split; cbn; lia]. rewrite <- is_void_count. eapply T_a; [done | | exact Ea].
    unfold dual_host. by rewrite Ex, Es.
  - destruct (spfExpandDualCIDR _ _ _ _) as [spec | e] eqn:Ex; [| done]. intros [= E].
    destruct (spfSplitDualCIDR spec) as [[[h n4] n6] | e] eqn:Es; [| unfold evaluateMXLim in E; by rewrite Es in E].
    pose proof (evaluateMX_zone spec domain st h n4 n6 Es ltac:(destruct Hw; lia)) as Hz. cbn zeta in Hz.
    destruct (answer _) as [l |] eqn:Ea; [| destruct Hz as (e & st1 & He); congruence]. rewrite E in Hz.
    destruct (mx_says _ _ _ _) as [[m' x] |] eqn:Em; [| done]. destruct Hz as (-> & -> & Hc). exists 0, x. split; [| done].
    rewrite <- is_void_count, (Z.add_comm x). eapply T_mx; [done | | exact Ea | exact Em]. unfold dual_host. by rewrite Ex, Es.
  - intros [= <- <- <-]. exists 0, 0. split; [by apply T_ptr | done].
  - destruct (spfExpand _ _ _ _) as [spec | e] eqn:Ex; [| done]. intros E'.
    assert (E : evaluateExists spec st = (Ok (b, w), st')) by congruence. clear E'. pose proof (evaluateExists_zone spec st) as Hz.
    destruct (answer _) as [l |] eqn:Ea; [| destruct Hz as [e He]; congruence]. rewrite Hz in E. injection E as <- <- <-.
    exists 0, 0. split; [| split; cbn; lia]. set (b := existsb _ l). replace (0 + void_count (negb b)) with (if b then 0 else 1) by by destruct b.
    by eapply T_exists.
  - destruct (spfExpand _ _ _ _) as [spec | e] eqn:Ex; [| done]. intros E. destruct (include_sound f rec spec st b w st' Hrec Hw (Hf ltac:(match goal with H : typ m = _ |- _ => by rewrite H end)) E) as (record & r & l & v & ? & ? & -> & -> & Hc).
    exists l, v. split; [| done]. cbn [void_count]. rewrite Z.add_0_r. by eapply T_include.
Qed.

Scheme term_says_mut := Minimality for term_says Sort Prop
  with terms_say_mut := Minimality for terms_say Sort Prop
  with host_says_mut := Minimality for host_says Sort Prop.
Combined Scheme says_ind from term_says_mut, terms_say_mut, host_says_mut.

(** Costs are not negative, and a DNS term costs at least itself. *)
Lemma says_costs :
  (forall domain m b l v, term_says domain m b l v -> term_count m <= l /\ 0 <= v) /\
  (forall domain ms o l v, terms_say domain ms o l v -> 0 <= l /\ 0 <= v) /\
  (forall domain record r l v, host_says domain record r l v -> 0 <= l /\ 0 <= v).
Proof.
  assert (Hc : forall m, 0 <= term_count m <= 1) by (intros m; unfold term_count; destruct (spfIsDNSTerm _); lia).
  apply says_ind; intros; try (pose proof (Hc m)); try lia.
  all: try match goal with H : typ _ = _ |- _ => unfold term_count; rewrite H; vm_compute spfIsDNSTerm; cbn iota end.
  all: try (split; [lia |]); try lia.
  - pose proof (is_void_bound l). lia.
  - pose proof (is_void_bound l). apply mx_says_nonneg in H2. lia.
  - subst b. destruct (existsb _ l); lia.
Qed.

Lemma parse_qualifier part : definite (qualifier (parseMechanism part)).
Proof.
  assert (H : definite (fst (take_qualifier part))).
  { unfold take_qualifier, definite. destruct part as [| c r]; [by left |].
    destruct (c =c? "+"); [auto |]. destruct (c =c? "-"); [auto |]. destruct (c =c? "~"); [auto |]. destruct (c =c? "?"); auto. }
  unfold parseMechanism. destruct (take_qualifier part) as [q p]. cbn [fst] in H.
  repeat case_match; exact H.
Qed.

Lemma scan_terms_sub terms seen red red' ms m : scan_terms seen red terms = Ok (red', ms) -> m ∈ ms -> m ∈ terms.
Proof.
  revert seen red ms. induction terms as [| x r IH]; intros seen red ms; cbn [scan_terms]; [by intros [= _ <-] |].
  repeat case_bool_decide; try (destruct seen; [done |]); try done; try (intros; right; by eapply IH).
  destruct (term_error x); [done |]. destruct (scan_terms seen red r) as [[red1 ms1] | e] eqn:E; [| done].
  intros [= -> <-] [-> | Hm]%elem_of_cons; [by left | right; by eapply IH].
Qed.

Lemma terms_say_qualifier domain ms r l v : terms_say domain ms (Some r) l v -> exists m, m ∈ ms /\ r = qualifier m.
Proof.
  remember (Some r) as o eqn:Eo. intros H. revert Eo. induction H as [| dom m ms l v H | dom m ms o l v l' v' H1 H2 IH]; intros Eo; [done | |].
  - injection Eo as <-. exists m. split; [by left | done].
  - destruct (IH Eo) as (m' & ? & ?). exists m'. split; [by right | done].
Qed.

(** A verdict of a record is a definite one. *)
Lemma host_says_definite domain record r l v : host_says domain record r l v -> definite r.
Proof.
  induction 1 as [domain record red ms r l v Hs Ht | | domain record red ms d record' r l v l' v' Hs Hne Ht Hx Hr _ IH]; [| unfold definite; auto | done].
  destruct (terms_say_qualifier _ _ _ _ _ Ht) as (m & Hm & ->). apply (scan_terms_sub _ _ _ _ _ _ Hs) in Hm.
  unfold parseSPF in Hm. apply list_elem_of_filter in Hm as [_ Hm]. apply list_elem_of_fmap in Hm as (part & -> & _). apply parse_qualifier.
Qed.

Lemma definite_no_error r : definite r -> no_error r.
Proof. intros [-> | [-> | [-> | ->]]]; done. Qed.

Lemma term_complete f rec domain m st b l v : agrees f rec -> within st -> (spfIsDNSTerm (typ m) = true -> 10 < Z.of_nat f + lookups st) ->
  term_says domain m b l v -> lookups st + l - term_count m <= 10 -> voids st + v <= 2 ->
  exists w st', evaluateMechanism ip sender rec domain m st = Some (Ok (b, w), st') /\
  lookups st' = lookups st + l - term_count m /\ voids st' + void_count w = voids st + v.
Proof.
  intros Hrec Hw Hf Hs Hl Hv. assert (Hi : typ m = ("include" : gostring) -> 10 < Z.of_nat f + lookups st) by (intros Ei; apply Hf; by rewrite Ei).
  clear Hf. assert (Hk : forall t : gostring, typ m = t -> term_count m = if spfIsDNSTerm t then 1 else 0) by (intros t <-; done).
  destruct Hs as [dom m Et | dom m Et Ev | dom m Et Ev | dom m Et | dom m h n4 n6 l Et Eh Ea | dom m h n4 n6 l b v Et Eh Ea Em | dom m h l Et Ex Ea |
    dom m d record r l v Et Ex Er Hs]; rewrite (Hk _ Et) in Hl |- *; clear Hk;
    match type of Et with _ = ?t => let b := eval vm_compute in (spfIsDNSTerm t) in replace (spfIsDNSTerm t) with b in Hl |- * by reflexivity end;
    cbn iota in Hl |- *; at_typ Et.
  - exists false, st. split; [done |]. cbn [void_count]. lia.
  - rewrite Ev. exists false, st. split; [done |]. cbn [void_count]. lia.
  - rewrite Ev. exists false, st. split; [done |]. cbn [void_count]. lia.
  - exists false, st. split; [done |]. cbn [void_count]. lia.
  - unfold dual_host in Eh. destruct (spfExpandDualCIDR _ _ _ _) as [spec | e]; [| done]. destruct (spfSplitDualCIDR spec) as [[[h0 k4] k6] | e] eqn:Es; [| done].
    injection Eh as <- <- <-. pose proof (evaluateA_zone spec dom st h0 k4 k6 Es) as Hz. cbn zeta in Hz. rewrite Ea in Hz. rewrite Hz.
    do 2 eexists. split; [done |]. rewrite <- is_void_count. cbn [lookups voids ask]. lia.
  - unfold dual_host in Eh. destruct (spfExpandDualCIDR _ _ _ _) as [spec | e]; [| done]. destruct (spfSplitDualCIDR spec) as [[[h0 k4] k6] | e] eqn:Es; [| done].
    injection Eh as <- <- <-. pose proof (evaluateMX_zone spec dom st h0 k4 k6 Es ltac:(destruct Hw; lia)) as Hz. cbn zeta in Hz.
    rewrite Ea, Em in Hz. pose proof (is_void_bound l). destruct (evaluateMXLim _ _ _ _) as [[[m' w] | e] st']; [| lia].
    destruct Hz as (-> & -> & [H1 H2]). do 2 eexists. split; [done |]. rewrite <- is_void_count. lia.
  - rewrite Ex. pose proof (evaluateExists_zone h st) as Hz. rewrite Ea in Hz. cbn zeta in Hz. rewrite Hz. do 2 eexists. split; [done |].
    subst b. destruct (existsb _ l); cbn [lookups voids ask void_count negb]; lia.
  - rewrite Ex. destruct (include_complete f rec d st record r l v Hrec Hw (Hi Et) Er Hs) as (st' & -> & [H1 H2]); [| lia | lia |].
    { by eapply definite_no_error, host_says_definite. }
    do 2 eexists. split; [done |]. cbn [void_count]. lia.
Qed.

Lemma loop_sound f rec domain ms st o st' : returns f rec -> agrees f rec -> within st -> 10 < Z.of_nat (S f) + lookups st ->
  eval_loop ip sender rec domain ms st = Some (o, st') -> (forall r x, o = Some (r, x) -> no_error r) ->
  exists l v, terms_say domain ms (fst <$> o) l v /\ counted st l v st'.
Proof.
  intros Hret Hrec. revert st. induction ms as [| m r IH]; intros st Hw Hf; cbn [eval_loop].
  { intros [= <- <-] _. exists 0, 0. split; [constructor | split; lia]. }
  destruct (spfIsDNSTerm (typ m) && _) eqn:Hlim.
  { intros [= <- <-] Hn. by destruct (Hn _ _ eq_refl). }
  set (st1 := if spfIsDNSTerm (typ m) then count_lookup st else st) in *.
  assert (H1 : lookups st1 = lookups st + term_count m /\ voids st1 = voids st).
  { unfold st1, term_count. destruct (spfIsDNSTerm (typ m)); cbn; lia. }
  assert (Hw1 : within st1 /\ (spfIsDNSTerm (typ m) = true -> 10 < Z.of_nat f + lookups st1)).
  { destruct H1 as [E1 E2]. unfold within, term_count in *. destruct (spfIsDNSTerm (typ m)); cbn [andb] in Hlim.
    - unfold spfMaxDNSTerms in Hlim. apply Z.ltb_ge in Hlim. destruct Hw. lia.
    - destruct Hw. split; [lia | done]. }
  destruct Hw1 as [Hw1 Hf1]. destruct (mechanism_step ip sender f rec domain m st Hret Hw Hf Hlim) as (res & st2 & E & Hsp & Hr). fold st1 in E.
  rewrite E. destruct res as [[b w] | e]; cycle 1.
  { intros [= <- <-] Hn. destruct (Hn _ _ eq_refl) as [? ?]. by destruct (isTemporaryError e). }
  assert (Hw2 : within st2) by (by destruct Hr as [? | [? ?]]). destruct (term_sound f rec domain m st1 b w st2 Hrec Hw1 Hf1 E) as (l & v & Ht & [C1 C2]).
  set (st3 := if w then count_void st2 else st2).
  assert (H3 : lookups st3 = lookups st2 /\ voids st3 = voids st2 + void_count w) by (unfold st3; destruct w; cbn; lia).
  unfold spfMaxVoidLookups. destruct (w && _) eqn:Evoid; [intros [= <- <-] Hn; by destruct (Hn _ _ eq_refl) |].
  assert (Hw3 : within st3).
  { destruct Hw2. destruct w; cbn [andb] in Evoid; [apply Z.ltb_ge in Evoid |]; unfold within; cbn [void_count] in H3; lia. }
  destruct b.
  - intros [= <- <-] _. exists (term_count m + l), (v + void_count w). split; [by apply S_match | split; lia].
  - pose proof (sp_lookups _ _ _ Hsp). intros E3 Hn. destruct (IH st3 Hw3 ltac:(lia) E3 Hn) as (l' & v' & Hts & [D1 D2]).
    exists (term_count m + l + l'), (v + void_count w + v'). split; [by eapply S_next | split; lia].
Qed.

Lemma loop_step f rec domain m r b l v st : returns f rec -> agrees f rec -> within st -> 10 < Z.of_nat (S f) + lookups st ->
  term_says domain m b l v -> lookups st + l <= 10 -> voids st + v <= 2 ->
  exists st', within st' /\ counted st l v st' /\ eval_loop ip sender rec domain (m :: r) st =
  if b then Some (Some (qualifier m, mech_String m), st') else eval_loop ip sender rec domain r st'.
Proof.
  intros Hret Hrec Hw Hf Hs Hl Hv. destruct (proj1 says_costs _ _ _ _ _ Hs) as [Kl Kv]. cbn [eval_loop].
  set (st1 := if spfIsDNSTerm (typ m) then count_lookup st else st).
  assert (H1 : lookups st1 = lookups st + term_count m /\ voids st1 = voids st).
  { unfold st1, term_count. destruct (spfIsDNSTerm (typ m)); cbn; lia. }
  assert (Hlim : spfIsDNSTerm (typ m) && (spfMaxDNSTerms <? lookups st1) = false).
  { apply andb_false_iff. right. apply Z.ltb_ge. unfold spfMaxDNSTerms. lia. }
  assert (Hk : 0 <= term_count m <= 1) by (unfold term_count; destruct (spfIsDNSTerm _); lia).
  assert (Hw1 : within st1) by (destruct Hw; unfold within; lia).
  assert (Hf1 : spfIsDNSTerm (typ m) = true -> 10 < Z.of_nat f + lookups st1).
  { intros E. unfold term_count in H1. rewrite E in H1. lia. }
  rewrite Hlim. destruct (term_complete f rec domain m st1 b l v Hrec Hw1 Hf1 Hs ltac:(lia) ltac:(lia)) as (w & st2 & -> & C1 & C2).
  assert (H2 : w && (spfMaxVoidLookups <? voids (if w then count_void st2 else st2)) = false).
  { destruct w; [| done]. cbn in C2 |- *. apply Z.ltb_ge. unfold spfMaxVoidLookups. lia. }
  rewrite H2. exists (if w then count_void st2 else st2). split_and!; [| | by destruct b].
  - destruct Hw, Hw1. unfold within. destruct w; cbn in *; lia.
  - split; destruct w; cbn in *; lia.
Qed.

Lemma loop_complete f rec domain ms st o l v : returns f rec -> agrees f rec -> within st -> 10 < Z.of_nat (S f) + lookups st ->
  terms_say domain ms o l v -> lookups st + l <= 10 -> voids st + v <= 2 ->
  exists res st', eval_loop ip sender rec domain ms st = Some (res, st') /\ fst <$> res = o /\ counted st l v st' /\ within st'.
Proof.
  intros Hret Hrec Hw Hf Hs. revert st Hw Hf. induction Hs as [dom | dom m r l v Ht | dom m r o l v l' v' Ht Hs IH]; intros st Hw Hf Hl Hv.
  - do 2 eexists. split_and!; [done | done | split; lia | done].
  - destruct (loop_step f rec dom m r true l v st) as (st' & Hw' & Hc & ->); try done. do 2 eexists. by split_and!.
  - destruct (proj1 says_costs _ _ _ _ _ Ht) as [Kl Kv]. destruct (proj1 (proj2 says_costs) _ _ _ _ _ Hs) as [Kl' Kv'].
    assert (0 <= term_count m) by (unfold term_count; destruct (spfIsDNSTerm _); lia).
    destruct (loop_step f rec dom m r false l v st) as (st' & Hw' & [C1 C2] & ->); try done; [lia | lia |].
    destruct (IH st' Hw' ltac:(lia) ltac:(lia) ltac:(lia)) as (res & st2 & E & Ho & [D1 D2] & Hw2).
    exists res, st2. split_and!; [done | done | split; lia | done].
Qed.

Lemma evaluate_agrees f : agrees f (evaluate ip sender f).
Proof.
  induction f as [| f IH]; intros domain record st Hw Hf; [destruct Hw; cbn in Hf; lia |]. pose proof (evaluate_returns ip sender f) as Hret.
  cbn [evaluate]. unfold evaluate_with. split.
  - intros r x st' E [Hp Ht]. destruct (scan_terms _ _ _) as [[red ms] | e] eqn:Es; [| congruence].
    destruct (eval_loop _ _ _ _ _ _) as [[o st1] |] eqn:El; [| done].
    assert (Hok : forall r x, o = Some (r, x) -> no_error r) by (intros r' x' ->; injection E as -> _ _; done).
    destruct (loop_sound f _ domain ms st o st1 Hret IH Hw Hf El Hok) as (l & v & Hts & [C1 C2]).
    destruct (eval_loop_spent ip sender f _ domain ms st Hret Hw Hf) as (o' & st1' & El' & Hsp & Hr). rewrite El in El'. injection El' as <- <-.
    destruct o as [[r' x'] |]; [injection E as -> -> <-; exists l, v; split; [by eapply H_match | by split] |].
    assert (Hw1 : within st1) by (by destruct Hr as [? | [? ?]]).
    case_bool_decide as Hred; [injection E as <- _ <-; subst red; exists l, v; split; [by eapply H_default | by split] |].
    destruct (spfMaxDNSTerms <? _) eqn:Hlim; [congruence |]. unfold spfMaxDNSTerms in Hlim. cbn [lookups count_lookup] in Hlim. apply Z.ltb_ge in Hlim.
    destruct (spfExpand _ _ _ _) as [d | e] eqn:Ex; [| congruence]. destruct (lookupSPF_zone d (count_lookup st1)) as ([record' | e] & El2 & Hrec); rewrite El2 in E;
      [| destruct (isTemporaryError e); congruence].
    destruct (IH d record' (ask (QTXT d) (count_lookup st1))) as [Hs _]; [destruct Hw1; split; cbn; lia | cbn; pose proof (proj1 (proj2 says_costs) _ _ _ _ _ Hts); lia |].
    destruct (Hs _ _ _ E ltac:(done)) as (l' & v' & Hh & [D1 D2]). cbn in D1, D2. exists (l + (1 + l')), (v + v'). split; [by eapply H_redirect | split; lia].
  - intros r l v Hs Hl Hv. destruct Hs as [domain record red ms r l v Es Hts | domain record ms l v Es Hts | domain record red ms d record' r l v l' v' Es Hne Hts Ex Hrec Hh]; rewrite Es.
    + destruct (loop_complete f _ domain ms st (Some r) l v Hret IH Hw Hf Hts Hl Hv) as ([[r' x] |] & st' & -> & Ho & Hc & _); [| done].
      injection Ho as ->. eauto.
    + destruct (loop_complete f _ domain ms st None l v Hret IH Hw Hf Hts Hl Hv) as ([[r' x] |] & st' & -> & Ho & Hc & _); [done |].
      rewrite bool_decide_true by done. eauto.
    + destruct (proj2 (proj2 says_costs) _ _ _ _ _ Hh) as [Kl Kv]. destruct (proj1 (proj2 says_costs) _ _ _ _ _ Hts) as [Jl Jv].
      destruct (loop_complete f _ domain ms st None l v Hret IH Hw Hf Hts ltac:(lia) ltac:(lia)) as ([[r' x] |] & st1 & -> & Ho & [C1 C2] & Hw1); [done |].
      rewrite bool_decide_false by done. rewrite (proj2 (Z.ltb_ge _ _)) by (unfold spfMaxDNSTerms; cbn; lia). rewrite Ex.
      destruct (lookupSPF_zone d (count_lookup st1)) as ([record2 | e] & -> & Hrec'); [| congruence]. assert (record2 = record') as -> by congruence.
      destruct (IH d record' (ask (QTXT d) (count_lookup st1))) as [_ Hc]; [destruct Hw1; split; cbn; lia | cbn; lia |].
      destruct (Hc r l' v' Hh) as (x & st2 & -> & [D1 D2]); [cbn; lia | cbn; lia |]. exists x, st2. split; [done |]. cbn in D1, D2. split; lia.
Qed.
End Reading.

(** C30: a check gives a definite verdict exactly when the declarative reading of the
    record of the domain (the cached one, if there is one) gives it with at most ten
    DNS terms and two void lookups; in every other case the verdict is an error or
    none. *)
Theorem spf_refines_reading {U : UnicodeTables} {Q : GoQuote} (z : Zone) now iter (ip domain sender : gostring) c r :
  (exists x st, fst (CheckSPF (R := zone_resolver z) now iter ip domain sender c) = Some (r, x, st) /\ definite r) <->
  exists record l v, match cache_get now domain c with Some e => Some e | None => the_record z domain end = Some record /\
  host_says z ip sender domain record r l v /\ l <= 10 /\ v <= 2.
Proof.
  assert (Hrun : forall record st, within st -> lookups st = 0 -> voids st = 0 ->
    (exists x st', evaluate (R := zone_resolver z) ip sender spf_fuel domain record st = Some (r, x, st') /\ definite r) <->
    exists l v, host_says z ip sender domain record r l v /\ l <= 10 /\ v <= 2).
  { intros record st Hw Hl Hv. assert (Hf : 10 < Z.of_nat spf_fuel + lookups st) by (unfold spf_fuel; lia).
    destruct (evaluate_agrees z ip sender spf_fuel domain record st Hw Hf) as [Hs Hc]. split.
    - intros (x & st' & E & Hd). destruct (Hs r x st' E (definite_no_error r Hd)) as (l & v & Hh & [C1 C2]). exists l, v. split; [done |].
      destruct (evaluate_returns (R := zone_resolver z) ip sender spf_fuel domain record st Hw Hf) as (r' & x' & st2 & E2 & _ & Hr).
      rewrite E in E2. injection E2 as <- <- <-. destruct Hr as [[? ?] | ->]; [lia |]. by destruct (definite_no_error _ Hd).
    - intros (l & v & Hh & H1 & H2). destruct (Hc r l v Hh ltac:(lia) ltac:(lia)) as (x & st' & E & _). exists x, st'. split; [done |].
      by eapply host_says_definite. }
  assert (Hw0 : forall q, within (ask q fresh_state) /\ within fresh_state) by (intros; repeat split; vm_compute; congruence).
  unfold CheckSPF. destruct (cache_get now domain c) as [record |].
  - cbn [fst]. rewrite (Hrun record fresh_state) by (done || apply (Hw0 (QTXT []))). split; [intros (l & v & H); by exists record, l, v |]. intros (? & l & v & [= ->] & H). eauto.
  - destruct (lookupSPF_zone z domain fresh_state) as ([record | e] & El & Hrec); rewrite El, Hrec.
    + cbn [fst]. rewrite (Hrun record (ask (QTXT domain) fresh_state)) by (done || apply Hw0). split; [intros (l & v & H); by exists record, l, v |]. intros (? & l & v & [= ->] & H). eauto.
    + cbn [fst]. split; [| by intros (? & ? & ? & ? & _)]. intros (x & st & E & Hd). exfalso.
      destruct (isTemporaryError e); [injection E as <- _ _; by destruct Hd as [| [| [| ]]] |]. destruct e; injection E as <- _ _; by destruct Hd as [| [| [| ]]].
Qed.

(** ** Networks *)
Lemma Contains_char s c : c ∈ s -> Contains s [c] = true.
Proof.
  intros H. unfold Contains. induction s as [| d s IH]; [by apply not_elem_of_nil in H |]. cbn [Index HasPrefix].
  destruct (Ascii.eqb_spec c d) as [<- | Hd]; [done |]. cbn [andb]. apply elem_of_cons in H as [-> | H]; [done |].
  specialize (IH H). by destruct (Index s [c]).
Qed.

Lemma Contains_char_not s c : c ∉ s -> Contains s [c] = false.
Proof.
  intros H. unfold Contains. induction s as [| d s IH]; [done |]. apply not_elem_of_cons in H as [H1 H2]. cbn [Index HasPrefix].
  destruct (Ascii.eqb_spec c d) as [<- | Hd]; [done |]. cbn [andb]. specialize (IH H2). by destruct (Index s [c]).
Qed.

Section Networks.
Context {U : UnicodeTables} {Q : GoQuote} {R : DNSResolver}.

Definition ip4_term (a : gostring) (n : Z) : gostring := "ip4:" ++ dotted a ++ "/" ++ FormatUint n.

Lemma parse_ip4_term a n :
  parseMechanism (ip4_term a n) = {| qualifier := SPFPass; typ := "ip4"; value := dotted a ++ "/" ++ FormatUint n; colon := true |}.
Proof. reflexivity. Qed.

(** the term ip4 with an address and a length matches exactly the IPv4 clients
    whose leading bits of that length are those of the address; it asks nothing. *)
Theorem spf_ip4_exact ip sender rec domain a n st : length a = 4%nat -> 0 <= n <= 32 ->
  exists b, evaluateMechanism ip sender rec domain (parseMechanism (ip4_term a n)) st = Some (Ok (b, false), st) /\
  (b = true <-> exists x, To4 ip = Some x /\ prefix_bits n x = prefix_bits n a).
Proof.
  intros Ha Hn. rewrite parse_ip4_term. set (v := dotted a ++ "/" ++ FormatUint n).
  assert (Hv : spfValidIPSpec v false = true).
  { unfold spfValidIPSpec. change (":"%string : gostring) with [":"%char]. change ("/"%string : gostring) with ["/"%char].
    rewrite Contains_char_not, Contains_char; [cbn [Bool.eqb negb]; unfold v; by rewrite ParseCIDR_dotted | |].
    - unfold v. rewrite !elem_of_app. right. left. by apply list_elem_of_singleton.
    - unfold v. rewrite !elem_of_app. intros [H | [H | H]].
      + by apply (dotted_without a ":") in H.
      + apply list_elem_of_singleton in H. done.
      + by apply (digits_not_in ":" n ltac:(done) ltac:(lia)) in H. }
  unfold evaluateMechanism. cbn [typ value]. rewrite bool_decide_false by done. rewrite bool_decide_true by done. rewrite Hv.
  eexists. split; [done |]. unfold evaluateIP4. destruct (To4 ip) as [x |] eqn:Ex; [| split; [done | by intros (? & ? & _)]].
  unfold in_range_text, v. rewrite ParseCIDR_dotted by done. rewrite (net_contains_dotted a n ip x) by done.
  split; [by eauto | by intros (? & [= <-] & ?)].
Qed.

End Networks.

Definition localhost_net : gostring := map byte_of [127; 0; 0; 0].
Definition empty_zone : Zone := {| zone_txt := fun _ => Ok []; zone_ip := fun _ => Ok []; zone_mx := fun _ => Ok [] |}.

Lemma spf_ip4_exact_witness :
  let ip := map byte_of [127; 7; 8; 9] in
  exists b, evaluateMechanism (U := ascii_tables) (Q := {| Quote := id |}) (R := zone_resolver empty_zone) ip [] (fun _ _ _ => None) []
    (parseMechanism (U := ascii_tables) (ip4_term localhost_net 8)) fresh_state = Some (Ok (b, false), fresh_state) /\
  (b = true <-> exists x, To4 ip = Some x /\ prefix_bits 8 x = prefix_bits 8 localhost_net).
Proof. apply spf_ip4_exact; [reflexivity | lia]. Defined.

(** ** The cache *)
Lemma evict_until_size target ks m : (forall k, is_Some (m !! k) -> k ∈ ks) -> 0 <= target -> Z.of_nat (size (evict_until target ks m)) <= target.
Proof.
  revert m. induction ks as [| k r IH]; intros m Hk Ht; cbn [evict_until].
  - assert (m = ∅) as ->; [| rewrite map_size_empty; lia]. apply map_empty. intros k. apply eq_None_not_Some. intros Hs. by apply Hk, not_elem_of_nil in Hs.
  - destruct (Z.ltb_spec target (Z.of_nat (size m))); [| lia]. apply IH; [| done]. intros k' [e He].
    apply lookup_delete_Some in He as [Hne He]. specialize (Hk k' ltac:(by eexists)). apply elem_of_cons in Hk as [-> | ?]; done.
Qed.

Lemma cleanupExpired_size now m : (size (cleanupExpired now m) <= size m)%nat.
Proof. unfold cleanupExpired. apply map_size_filter. Qed.

(** However the map is walked, a cache within its size stays within it, and the
    record that was stored is the one found, until it expires. *)
Theorem spf_cache_bounded now iter domain record t c : (forall m, iter m ≡ₚ map_to_list m) -> 1 <= maxSize c -> 0 < t ->
  Z.of_nat (size (records c)) <= maxSize c ->
  Z.of_nat (size (records (cache_set now iter domain record t c))) <= maxSize c /\
  (forall now', now <= now' <= now + t -> cache_get now' domain (cache_set now iter domain record t c) = Some record).
Proof.
  intros Hiter Hmax Ht Hsize. set (m1 := if maxSize c <=? Z.of_nat (size (records c)) then evictOldest now iter c else records c).
  assert (H1 : Z.of_nat (size m1) <= maxSize c - 1).
  { unfold m1. destruct (Z.leb_spec (maxSize c) (Z.of_nat (size (records c)))); [| lia]. unfold evictOldest.
    set (target := Z.quot (maxSize c * 9) 10). assert (0 <= target <= maxSize c - 1) by (unfold target; rewrite Z.quot_div_nonneg by lia; Z.to_euclidean_division_equations; lia).
    pose proof (cleanupExpired_size now (evict_until target (map fst (merge_sort expires_first (iter (records c)))) (records c))).
    pose proof (evict_until_size target (map fst (merge_sort expires_first (iter (records c)))) (records c)) as He.
    cut (forall k, is_Some (records c !! k) -> k ∈ map fst (merge_sort expires_first (iter (records c)))); [intros Hk; specialize (He Hk); lia |].
    intros k [e Hk]. apply list_elem_of_fmap. exists (k, e). split; [done |]. rewrite merge_sort_Permutation, Hiter. by apply elem_of_map_to_list. }
  assert (H2 : Z.of_nat (size (<[domain := {| record_ := record; expiresAt := now + t |}]> m1)) <= maxSize c).
  { rewrite map_size_insert. destruct (m1 !! domain); cbn [from_option]; unfold id; lia. }
  unfold cache_set. fold m1. destruct (nextCleanup c <? now); cbn [records]; split.
  - pose proof (cleanupExpired_size now (<[domain := {| record_ := record; expiresAt := now + t |}]> m1)). lia.
  - intros now' Hn. unfold cache_get, cleanupExpired. cbn [records].
    rewrite (proj2 (map_lookup_filter_Some _ _ _ {| record_ := record; expiresAt := now + t |})); cbn [expiresAt record_];
      [by rewrite (proj2 (Z.ltb_ge _ _)) by lia |]. split; [by rewrite lookup_insert_eq | cbn; lia].
  - exact H2.
  - intros now' Hn. unfold cache_get. cbn [records]. rewrite lookup_insert_eq. cbn [expiresAt record_]. by rewrite (proj2 (Z.ltb_ge _ _)) by lia.
Qed.
