(* ===== verification/Dkim.v ===== *)
(** * internal/auth: DKIM

    dkim.go: tag lists, signatures and keys, canonicalization, signing and
    verification, and the cache of keys.  SHA-256 is the class [Crypto]; key formats
    and signature schemes are [KeyFormats], without laws.  Error texts are not kept:
    a parser returns [None], [Verify] says that there was an error. *)
From S2P Require Import Prelude GoLib Utf8 Base64 Scram Spf.

Definition CRLF : gostring := [byte_of 13; byte_of 10].
Definition TAB : ascii := byte_of 9.
Definition is_wsp (c : ascii) : bool := (c =c? " ") || (c =c? TAB).

Inductive DKIMResult := DKIMNone | DKIMPass | DKIMFail | DKIMPERMError | DKIMTempError.
#[export] Instance DKIMResult_eq_dec : EqDecision DKIMResult.
Proof. solve_decision. Defined.

Definition dkim_string (r : DKIMResult) : gostring :=
  match r with
  | DKIMNone => "none" | DKIMPass => "pass" | DKIMFail => "fail"
  | DKIMPERMError => "permerror" | DKIMTempError => "temperror"
  end.

(** ** Tag lists *)
Definition removeWhitespace (s : gostring) : gostring :=
  List.filter (fun c => negb (is_wsp c || (bz c =? 13) || (bz c =? 10))) s.

(** One pair, and whether its tag was there before. *)
Definition parsePair (s : gostring) (result : gmap gostring gostring * bool) : gmap gostring gostring * bool :=
  let s := TrimSpace s in
  match Index s "=" with
  | Some (S _ as i) =>
      let tag := TrimSpace (take i s) in
      let value := TrimSpace (drop (S i) s) in
      let value := if (tag =s? "b") || (tag =s? "bh") then removeWhitespace value else value in
      (<[tag := value]> (fst result), snd result || bool_decide (is_Some (fst result !! tag)))
  | _ => result
  end.

(** The loop over runes writes every rune back, so that invalid bytes become
    U+FFFD; no piece of a rune is a semicolon. *)
Definition parseTagValueListDup (s : gostring) : gmap gostring gostring * bool :=
  foldl (fun r p => parsePair p r) (∅, false) (Split (encode_runes (runes s)) ";").
Definition parseTagValueList (s : gostring) : gmap gostring gostring := fst (parseTagValueListDup s).

Definition parseStrictUint (s : gostring) : option Z :=
  if bool_decide (s = []) || Nat.ltb 18 (length s) then None else digits_val 0 s.

(** ** Signatures *)
Record DKIMSignature := {
  Domain : gostring; Selector : gostring; Algorithm : gostring; Canonicalize : gostring;
  HeaderCanon : gostring; BodyCanon : gostring; QueryMethod : gostring; Timestamp : Z; Expiration : Z;
  SignedHeaders : list gostring; BodyHash : gostring; Signature : gostring; BodyLength : Z;
  CopiedHeaders : gmap gostring gostring }.

Abbreviation headerMap := (gmap gostring (list gostring)).

Section Dkim.
Context {U : UnicodeTables}.

Definition parseHeaderList (s : gostring) : list gostring :=
  filter (fun h => h <> []) (map (fun h => TrimSpace (ToLower h)) (Split s ":")).

Definition parseCopiedHeaders (s : gostring) : gmap gostring gostring :=
  foldl (fun m pair =>
    match Index pair ":" with
    | Some (S _ as i) => <[TrimSpace (ToLower (take i pair)) := drop (S i) pair]> m
    | _ => m
    end) ∅ (Split s "|").

(** The c= tag: header and body canonicalization. *)
Definition parse_canon (value : gostring) : option (gostring * gostring) :=
  let parts := Split value "/" in
  if negb (forallb (fun p => (p =s? "simple") || (p =s? "relaxed")) parts) then None
  else match parts with
  | [h] => Some (h, "simple" : gostring)
  | [h; b] => Some (h, b)
  | _ => None
  end.

(** A tag that is absent leaves its default; one that does not parse is an error. *)
Definition optional_tag {A : Type} (tags : gmap gostring gostring) (t : gostring) (dflt : A) (parse : gostring -> option A) : option A :=
  match tags !! t with Some v => parse v | None => Some dflt end.

Definition parseDKIMSignature (header : gostring) : option DKIMSignature :=
  let header := TrimSpace (TrimPrefix header "DKIM-Signature:") in
  let '(tags, dup) := parseTagValueListDup header in
  let text (t : gostring) : gostring := match tags !! t with Some v => v | None => [] end in
  let methods v := if existsb (fun m => TrimSpace m =s? "dns/txt") (Split v ":") then Some v else None in
  if dup then None
  else match tags !! ("v" : gostring), tags !! ("a" : gostring),
      optional_tag tags "c" (("simple" : gostring), ("simple" : gostring)) parse_canon, optional_tag tags "q" [] methods,
      optional_tag tags "t" 0 parseStrictUint, optional_tag tags "x" 0 parseStrictUint, optional_tag tags "l" (-1) parseStrictUint with
  | Some v, Some a, Some (hc, bc), Some q, Some t, Some x, Some l =>
      if negb (v =s? "1") then None
      else if (text "d" =s? []) || (text "s" =s? []) || (text "bh" =s? []) || (text "b" =s? []) then None
      else Some {| Domain := text "d"; Selector := text "s"; Algorithm := a; Canonicalize := text "c"; HeaderCanon := hc; BodyCanon := bc;
        QueryMethod := q; Timestamp := t; Expiration := x; SignedHeaders := parseHeaderList (text "h"); BodyHash := text "bh";
        Signature := text "b"; BodyLength := l; CopiedHeaders := parseCopiedHeaders (text "z") |}
  | _, _, _, _, _, _, _ => None
  end.

(** ** Canonicalization of the body *)
(** Trailing CRLF pairs of a reversed text, down to one. *)
Fixpoint strip_crlfs (r : gostring) : gostring :=
  match r with
  | a :: b :: ((c :: d :: _) as t) =>
      if (bz a =? 10) && (bz b =? 13) && (bz c =? 10) && (bz d =? 13) then strip_crlfs t else r
  | _ => r
  end.
Definition endsWithCRLF (b : gostring) : bool := HasSuffix b CRLF.
Definition with_crlf (b : gostring) : gostring := if endsWithCRLF b then b else b ++ CRLF.

Definition canonicalizeBodySimple (body : gostring) : gostring :=
  if bool_decide (body = []) then CRLF else with_crlf (rev (strip_crlfs (rev body))).

Fixpoint collapse_wsp (inWS : bool) (line : gostring) : gostring :=
  match line with
  | [] => []
  | b :: r => if is_wsp b then collapse_wsp true r else (if inWS then [" "%char] else []) ++ b :: collapse_wsp false r
  end.
Definition relaxed_line (line : gostring) : gostring := collapse_wsp false (TrimSuffix line [byte_of 13]).

Definition canonicalizeBodyRelaxed (body : gostring) : gostring :=
  if bool_decide (body = []) then []
  else
  let out := Join (map relaxed_line (Split body (byte_of 10))) CRLF in
  let out := rev (strip_crlfs (rev (with_crlf out))) in
  if Nat.eqb (length out) 2 then [] else out.

Definition canonicalizeBody (body canon : gostring) : gostring :=
  if canon =s? "relaxed" then canonicalizeBodyRelaxed body else canonicalizeBodySimple body.

(** ** Canonicalization of header fields *)
(** The expression of blanks and tabs, replaced by one blank. *)
Fixpoint squeeze (inWS : bool) (s : gostring) : gostring :=
  match s with
  | [] => []
  | c :: r => if is_wsp c then (if inWS then [] else [" "%char]) ++ squeeze true r else c :: squeeze false r
  end.

(** [strings.ReplaceAll] of CRLF and then of LF by nothing. *)
Fixpoint unfold_lines (s : gostring) : gostring :=
  match s with
  | [] => []
  | a :: ((b :: r') as r) => if (bz a =? 13) && (bz b =? 10) then unfold_lines r' else a :: unfold_lines r
  | a :: r => a :: unfold_lines r
  end.

Definition canonicalizeHeaderSimple (name value : gostring) : gostring := name ++ ": " ++ value ++ CRLF.
Definition canonicalizeHeaderRelaxed (name value : gostring) : gostring :=
  let value := List.filter (fun c => negb (bz c =? 10)) (unfold_lines value) in
  let value := TrimRight (TrimLeft (squeeze false value) [" "%char; TAB]) [" "%char; TAB] in
  ToLower name ++ ":" ++ value ++ CRLF.
Definition canonicalizeHeader (name value canon : gostring) : gostring :=
  if canon =s? "relaxed" then canonicalizeHeaderRelaxed name value else canonicalizeHeaderSimple name value.

(** The fields of a message; [iter] is the order in which the map is walked. *)
Section Fields.
Context (iter : headerMap -> list (gostring * list gostring)).

Definition find_field (headers : headerMap) (name : gostring) : gostring * list gostring :=
  let exact := match headers !! name with Some v => v | None => [] end in
  match exact with
  | [] => match List.find (fun kv => ToLower (fst kv) =s? ToLower name) (iter headers) with
  | Some (k, v) => (k, v)
  | None => (name, [])
  end
  | _ => (name, exact)
  end.

(** [used] counts the instances that earlier entries took. *)
Fixpoint canonicalize_fields (headers : headerMap) (used : gmap gostring nat) (signed : list gostring) (canon : gostring) : gostring :=
  match signed with
  | [] => []
  | h :: r =>
      let low := ToLower h in
      let n := match used !! low with Some n => n | None => 0%nat end in
      let '(fieldName, values) := find_field headers h in
      (match rev values !! n with Some v => canonicalizeHeader fieldName v canon | None => [] end)
      ++ canonicalize_fields headers (<[low := S n]> used) r canon
  end.
Definition canonicalizeHeaders (headers : headerMap) (signed : list gostring) (canon : gostring) : gostring :=
  canonicalize_fields headers ∅ signed canon.
End Fields.

(** ** The signature field as it is hashed *)
Definition re_space (c : ascii) : bool := is_wsp c || (bz c =? 10) || (bz c =? 12) || (bz c =? 13).
Fixpoint span (p : ascii -> bool) (s : gostring) : gostring * gostring :=
  match s with
  | c :: r => if p c then let '(a, b) := span p r in (c :: a, b) else ([], s)
  | [] => ([], [])
  end.

(** One tag under the expression that empties b: blanks, the name, blanks, the equals
    sign, and everything up to the next semicolon. *)
Definition empty_b (seg : gostring) : gostring :=
  let '(ws, r) := span re_space seg in
  match r with
  | c :: r' =>
      if c =c? "b" then
      let '(ws', r'') := span re_space r' in
      match r'' with
      | d :: _ => if d =c? "=" then ws ++ c :: ws' ++ [d] else seg
      | [] => seg
      end
      else seg
  | [] => seg
  end.
Definition dkimHeaderWithoutSig (header : gostring) : gostring := Join (map empty_b (Split header ";")) ";".

Definition dkimSignatureFieldForHash (value canon : gostring) : gostring :=
  let value := if Nat.leb 15 (length value) && EqualFold (take 15 value) "DKIM-Signature:" then drop 15 value else value in
  let value := dkimHeaderWithoutSig value in
  if canon =s? "relaxed" then TrimSuffix (canonicalizeHeaderRelaxed "dkim-signature" value) CRLF
  else "DKIM-Signature: " ++ TrimLeft value [" "%char; TAB].

(** ** Keys and signature schemes *)
Class KeyFormats := {
  RSAKey : Type;
  ParsePKIXPublicKey : gostring -> option (option RSAKey);     (* [Some None]: some other kind of key *)
  ParsePKCS1PublicKey : gostring -> option RSAKey;
  pem_Decode : gostring -> option gostring;
  BitLen : RSAKey -> Z;
  VerifyPKCS1v15 : RSAKey -> gostring -> gostring -> bool;        (* key, digest, signature *)
  ed25519_Verify : gostring -> gostring -> gostring -> bool
}.
Context {C : Crypto} {K : KeyFormats}.

Inductive PublicKey := KeyRSA (k : RSAKey) | KeyEd25519 (k : gostring).

Definition parseRSAPublicKey (data : gostring) : option RSAKey :=
  let data := match pem_Decode data with Some b => b | None => data end in
  match ParsePKIXPublicKey data with
  | Some (Some k) => Some k
  | _ => ParsePKCS1PublicKey data
  end.

Definition parseDKIMPublicKey (record : gostring) : option PublicKey :=
  let tags := parseTagValueList record in
  let text (t : gostring) : gostring := match tags !! t with Some v => v | None => [] end in
  let keyType : gostring := if text "k" =s? [] then "rsa" else text "k" in
  match tags !! ("v" : gostring) with
  | Some v =>
      if negb (v =s? "DKIM1") || (text "p" =s? []) then None
      else match decode StdEncoding (text "p") with
      | None => None
      | Some keyBytes =>
          if keyType =s? "ed25519" then (if Nat.eqb (length keyBytes) 32 then Some (KeyEd25519 keyBytes) else None)
          else if keyType =s? "rsa" then
          match (match ParsePKIXPublicKey keyBytes with
          | Some (Some k) => Some k
          | Some None => None
          | None => parseRSAPublicKey keyBytes
          end) with
          | Some k => if BitLen k <? 1024 then None else Some (KeyRSA k)
          | None => None
          end
          else None
      end
  | None => None
  end.

(** The cache of keys; [pick] is the entry a full cache gives up. *)
Record dkimCacheEntry := { cachedKey : PublicKey; key_expiresAt : Z }.
Definition dkim_ttl : Z := 5 * minute.
Definition dkim_maxSize : Z := 10000.
Abbreviation dkimCache := (gmap gostring dkimCacheEntry).

Definition key_name (selector domain : gostring) : gostring := selector ++ "._domainkey." ++ domain.
Definition dkim_cache_get (now : Z) (name : gostring) (c : dkimCache) : option PublicKey :=
  match c !! name with
  | Some e => if key_expiresAt e <? now then None else Some (cachedKey e)
  | None => None
  end.
Definition dkim_evictOldest (now : Z) (pick : dkimCache -> gostring) (c : dkimCache) : dkimCache :=
  let c := filter (fun kv => ~ key_expiresAt (snd kv) < now) c in
  if dkim_maxSize <=? Z.of_nat (size c) then base.delete (pick c) c else c.
Definition dkim_cache_set (now : Z) (pick : dkimCache -> gostring) (name : gostring) (k : PublicKey) (c : dkimCache) : dkimCache :=
  let c := if dkim_maxSize <=? Z.of_nat (size c) then dkim_evictOldest now pick c else c in
  <[name := {| cachedKey := k; key_expiresAt := now + dkim_ttl |}]> c.

Section Verify.
Context {R : DNSResolver} (now : Z) (pick : dkimCache -> gostring) (iter : headerMap -> list (gostring * list gostring)).

(** A key, or an error and whether it may pass. *)
Definition fetchPublicKey (asked : list Query) (domain selector : gostring) (c : dkimCache) : result bool PublicKey * dkimCache :=
  let name := key_name selector domain in
  match dkim_cache_get now name c with
  | Some k => (Ok k, c)
  | None =>
      match LookupTXT asked name with
      | Err e => (Err (isTemporaryError e), c)
      | Ok records =>
          match omap parseDKIMPublicKey records with
          | k :: _ => (Ok k, dkim_cache_set now pick name k c)
          | [] => (Err false, c)
          end
      end
  end.

Definition sha256Hash (data : gostring) : gostring := encode StdEncoding (sha256 data).

Definition verify_signature (k : PublicKey) (data signature : gostring) : bool :=
  match decode StdEncoding signature with
  | None => false
  | Some s => match k with KeyRSA k => VerifyPKCS1v15 k (sha256 data) s | KeyEd25519 k => ed25519_Verify k (sha256 data) s end
  end.

Definition algorithm_of (k : PublicKey) : gostring :=
  match k with KeyRSA _ => "rsa-sha256" | KeyEd25519 _ => "ed25519-sha256" end.

(** [Verify]: the result and the signature, when it could be parsed.  There is an
    error exactly when the result is not [DKIMPass]. *)
Definition Verify (asked : list Query) (headers : headerMap) (body dkimHeader : gostring) (c : dkimCache)
  : DKIMResult * option DKIMSignature * dkimCache :=
  match parseDKIMSignature dkimHeader with
  | None => (DKIMFail, None, c)
  | Some sig =>
      if negb ((Algorithm sig =s? "rsa-sha256") || (Algorithm sig =s? "ed25519-sha256")) then (DKIMFail, Some sig, c)
      else if negb (existsb (fun h => h =s? "from") (SignedHeaders sig)) then (DKIMPERMError, Some sig, c)
      else if (0 <? Expiration sig) && (Expiration sig <? now / second) then (DKIMFail, Some sig, c)
      else match fetchPublicKey asked (Domain sig) (Selector sig) c with
      | (Err temporary, c) => (if temporary then DKIMTempError else DKIMFail, Some sig, c)
      | (Ok key, c) =>
          let canonicalBody := canonicalizeBody body (BodyCanon sig) in
          let len := Z.of_nat (length canonicalBody) in
          if (0 <=? BodyLength sig) && (len <? BodyLength sig) then (DKIMFail, Some sig, c)
          else
          let canonicalBody := if 0 <=? BodyLength sig then take (Z.to_nat (BodyLength sig)) canonicalBody else canonicalBody in
          if negb (sha256Hash canonicalBody =s? BodyHash sig) then (DKIMFail, Some sig, c)
          else
          let sigData := canonicalizeHeaders iter headers (SignedHeaders sig) (HeaderCanon sig)
          ++ dkimSignatureFieldForHash dkimHeader (HeaderCanon sig) in
          if negb (Algorithm sig =s? algorithm_of key) then (DKIMFail, Some sig, c)
          else (if verify_signature key sigData (Signature sig) then DKIMPass else DKIMFail, Some sig, c)
      end
  end.
End Verify.

(** ** Signing *)
Record DKIMSigner := {
  sg_domain : gostring; sg_selector : gostring; sg_algorithm : gostring;
  sg_sign : gostring -> option gostring      (* a digest; [None] without a key *)
}.

Definition dkimOptionalSignedHeaders : list gostring :=
  [("cc" : gostring); ("reply-to" : gostring); ("in-reply-to" : gostring); ("references" : gostring);
    ("mime-version" : gostring); ("content-type" : gostring); ("content-transfer-encoding" : gostring)].
Definition dkimSignedHeaderList (headers : headerMap) : list gostring :=
  [("from" : gostring); ("to" : gostring); ("subject" : gostring); ("date" : gostring); ("message-id" : gostring)]
  ++ filter (fun name => existsb (fun kv => negb (bool_decide (snd kv = [])) && EqualFold (fst kv) name) (map_to_list headers) = true)
  dkimOptionalSignedHeaders
  ++ [("from" : gostring)].

Definition buildHeader (sig : DKIMSignature) : gostring :=
  "v=1; " ++ "a=" ++ Algorithm sig ++ "; " ++ "c=" ++ Canonicalize sig ++ "; " ++ "d=" ++ Domain sig ++ "; "
  ++ "s=" ++ Selector sig ++ "; " ++ "t=" ++ FormatUint (Timestamp sig) ++ "; " ++ "bh=" ++ BodyHash sig ++ "; "
  ++ "h=" ++ Join (SignedHeaders sig) ":" ++ "; " ++ "b=" ++ Signature sig.

Definition unsigned (s : DKIMSigner) (unix : Z) (headers : headerMap) (body : gostring) : DKIMSignature := {|
  Domain := sg_domain s; Selector := sg_selector s; Algorithm := sg_algorithm s; Canonicalize := "relaxed/simple" : gostring;
  HeaderCanon := "relaxed" : gostring; BodyCanon := "simple" : gostring; QueryMethod := "dns/txt" : gostring; Timestamp := unix; Expiration := 0;
  SignedHeaders := dkimSignedHeaderList headers; BodyHash := sha256Hash (canonicalizeBody body "simple"); Signature := [];
  BodyLength := 0; CopiedHeaders := ∅ |}.
Definition with_signature (sg : gostring) (sig : DKIMSignature) : DKIMSignature := {|
  Domain := Domain sig; Selector := Selector sig; Algorithm := Algorithm sig; Canonicalize := Canonicalize sig;
  HeaderCanon := HeaderCanon sig; BodyCanon := BodyCanon sig; QueryMethod := QueryMethod sig; Timestamp := Timestamp sig;
  Expiration := Expiration sig; SignedHeaders := SignedHeaders sig; BodyHash := BodyHash sig; Signature := sg;
  BodyLength := BodyLength sig; CopiedHeaders := CopiedHeaders sig |}.

Definition Sign (iter : headerMap -> list (gostring * list gostring)) (s : DKIMSigner) (unix : Z) (headers : headerMap) (body : gostring) : option gostring :=
  let sig := unsigned s unix headers body in
  let sigData := canonicalizeHeaders iter headers (SignedHeaders sig) (HeaderCanon sig)
  ++ dkimSignatureFieldForHash (buildHeader sig) (HeaderCanon sig) in
  if negb ((sg_algorithm s =s? "ed25519-sha256") || (sg_algorithm s =s? "rsa-sha256")) then None
  else match sg_sign s (sha256 sigData) with
  | Some sg => Some (buildHeader (with_signature (encode StdEncoding sg) sig))
  | None => None
  end.
End Dkim.
