(* ===== verification/DkimProps.v ===== *)
(** * Properties of DKIM

    A signature this server makes is one it verifies; and what the body
    canonicalizations keep of a text. *)
From S2P Require Import Prelude GoLib Utf8 Base64 Scram Spf Dkim.

Lemma removeWhitespace_visible s : forallb visible s = true -> removeWhitespace s = s.
Proof.
  induction s as [| c s IH]; [done |]. cbn [forallb]. intros [Hc Hs]%andb_true_iff. unfold removeWhitespace. cbn [List.filter]. fold (removeWhitespace s).
  rewrite IH by done. assert (negb (is_wsp c || (bz c =? 13) || (bz c =? 10)) = true) as ->; [| done].
  unfold is_wsp. destruct (Ascii.eqb_spec c " ") as [-> | _]; [vm_compute in Hc; discriminate |].
  destruct (Ascii.eqb_spec c TAB) as [-> | _]; [vm_compute in Hc; discriminate |]. unfold visible, in_range in Hc. breflect. cbn [orb]. apply negb_true_iff, orb_false_iff. split; apply Z.eqb_neq; lia.
Qed.

Lemma Index_app s c t : (c ∉ s) -> Index (s ++ c :: t) [c] = Some (length s).
Proof.
  induction s as [| d s IH]; intros H; cbn [app Index HasPrefix]; [by rewrite Ascii.eqb_refl |].
  apply not_elem_of_cons in H as [H1 H2]. destruct (Ascii.eqb_spec c d); [done |]. cbn [andb]. by rewrite IH.
Qed.

(** ** Reading back a tag list *)
Definition tag_text (pre : bool) (t v : gostring) : gostring := (if pre then [" "%char] else []) ++ t ++ "="%char :: v.

Lemma parsePair_tag pre t v m dup : forallb visible t = true -> ("="%char ∉ t) -> t <> [] -> forallb visible v = true ->
  parsePair (tag_text pre t v) (m, dup) = (<[t := v]> m, dup || bool_decide (is_Some (m !! t))).
Proof.
  intros Ht He Hne Hv. unfold parsePair, tag_text.
  assert (Hall : forallb visible (t ++ "="%char :: v) = true) by (rewrite forallb_app; cbn [forallb]; by rewrite Ht, Hv).
  replace (TrimSpace ((if pre then [" "%char] else []) ++ t ++ "="%char :: v)) with (t ++ "="%char :: v)
    by (destruct pre; cbn [app]; rewrite ?TrimSpace_blank; by rewrite TrimSpace_visible).
  change ("="%string : gostring) with ["="%char]. rewrite Index_app by done. destruct (length t) eqn:El; [by destruct t |].
  rewrite <- El, take_app_length. rewrite (drop_app_ge t) by lia. replace (S (length t) - length t)%nat with 1%nat by lia.
  cbn [drop]. rewrite drop_0, !TrimSpace_visible by done. rewrite removeWhitespace_visible by done. by destruct (_ || _).
Qed.

(** ** The header that is built *)
Section Build.
Context {U : UnicodeTables}.

(** Text that may be the value of a tag. *)
Definition tag_value (v : gostring) : Prop := forallb visible v = true /\ (";"%char ∉ v).
Definition token (v : gostring) : Prop := tag_value v /\ v <> [].

(** A list of tags as it is printed. *)
Definition tag_segments (t0 v0 : gostring) (l : list (gostring * gostring)) : list gostring := tag_text false t0 v0 :: map (fun tv => tag_text true (fst tv) (snd tv)) l.
Definition tag_name (t : gostring) : Prop := forallb visible t = true /\ ("="%char ∉ t) /\ (";"%char ∉ t) /\ t <> [].
Definition tags_ok (l : list (gostring * gostring)) : Prop := forall t v, (t, v) ∈ l -> tag_name t /\ tag_value v.
Definition tag_nameb (t : gostring) : bool :=
  forallb visible t && negb (existsb (fun c => c =c? "=") t) && negb (existsb (fun c => c =c? ";") t) && negb (bool_decide (t = [])).
Lemma tag_name_spec t : tag_nameb t = true -> tag_name t.
Proof.
  unfold tag_nameb. intros H. breflect. assert (Hn : forall c, existsb (fun d => d =c? c) t = false -> c ∉ t).
  { intros c Hc Hm. apply not_true_iff_false in Hc. apply Hc, existsb_exists. exists c. split; [by apply list_elem_of_In | apply Ascii.eqb_refl]. }
  unfold tag_name. split_and!; try done; by apply Hn.
Qed.

Lemma tag_text_chars pre t v c : c ∈ tag_text pre t v -> c = " "%char \/ c ∈ t \/ c = "="%char \/ c ∈ v.
Proof.
  unfold tag_text. destruct pre; cbn [app]; rewrite ?elem_of_cons, elem_of_app, elem_of_cons; tauto.
Qed.

Lemma tags_no_semicolon pre t v : tag_name t -> tag_value v -> ";"%char ∉ tag_text pre t v.
Proof. intros (_ & _ & Ht & _) [_ Hv] H. by apply tag_text_chars in H as [H | [H | [H | H]]]. Qed.

Lemma segments_all (P : gostring -> Prop) t0 v0 l : tags_ok ((t0, v0) :: l) -> (forall pre t v, tag_name t -> tag_value v -> P (tag_text pre t v)) -> Forall P (tag_segments t0 v0 l).
Proof.
  intros Hok HP. unfold tag_segments. constructor; [destruct (Hok t0 v0 ltac:(by left)); by apply HP |]. apply Forall_map, Forall_forall. intros [t v] Htv.
  destruct (Hok t v ltac:(by right)). by apply HP.
Qed.
Lemma tags_split t0 v0 l : tags_ok ((t0, v0) :: l) -> Split (Join (tag_segments t0 v0 l) ";") ";" = tag_segments t0 v0 l.
Proof.
  intros Hok. change (";"%string : gostring) with [";"%char]. apply Split_Join; [done |]. apply segments_all; [done |]. intros. by apply tags_no_semicolon.
Qed.

Lemma elem_of_Join l c : c ∈ Join l ";" -> c = ";"%char \/ exists x, x ∈ l /\ c ∈ x.
Proof.
  induction l as [| x [| y l] IH]; intros H; [by apply not_elem_of_nil in H | right; exists x; split; [by left | done] |].
  cbn [Join] in H. apply elem_of_app in H as [H | H]; [right; exists x; split; [by left | done] |].
  apply elem_of_app in H as [H | H]; [left; by apply list_elem_of_singleton in H |].
  destruct (IH H) as [? | (z & ? & ?)]; [by left | right; exists z; split; [by right | done]].
Qed.
Lemma tags_ascii t0 v0 l : tags_ok ((t0, v0) :: l) -> isASCII (Join (tag_segments t0 v0 l) ";") = true.
Proof.
  intros Hok. unfold isASCII. rewrite forallb_forall. intros c Hc. apply list_elem_of_In, elem_of_Join in Hc as [-> | (x & Hx & Hc)]; [done |].
  assert (H : Forall (fun x => forall c, c ∈ x -> is_ascii c = true) (tag_segments t0 v0 l)).
  { apply segments_all; [done |]. intros pre t v (Ht & _) [Hv _] d Hd. rewrite forallb_forall in Ht, Hv.
    apply tag_text_chars in Hd as [-> | [H | [-> | H]]]; try done; apply visible_ascii; [apply Ht | apply Hv]; by apply list_elem_of_In. }
  rewrite Forall_forall in H. by apply (H x).
Qed.

Lemma fold_tags (l : list (gostring * gostring)) m :
  tags_ok l -> NoDup (map fst l) -> (forall t, t ∈ map fst l -> m !! t = None) ->
  foldl (fun r p => parsePair p r) (m, false) (map (fun tv => tag_text true (fst tv) (snd tv)) l) = (foldl (fun m tv => <[fst tv := snd tv]> m) m l, false).
Proof.
  revert m. induction l as [| [t v] l IH]; intros m Hl Hnd Hm; [done |]. cbn [map foldl fst snd]. cbn [map] in Hnd, Hm. apply NoDup_cons in Hnd as [Hn Hnd].
  destruct (Hl t v ltac:(by left)) as ((H1 & H2 & _ & H3) & H4 & _). rewrite parsePair_tag by done. rewrite (Hm t) by by left.
  rewrite bool_decide_false by apply is_Some_None. cbn [orb]. apply IH; [intros t' v' H; apply Hl; by right | done |].
  intros t' Ht'. destruct (decide (t' = t)) as [-> | Hne]; [done |]. rewrite lookup_insert_ne by done. apply Hm. by right.
Qed.
Lemma tags_parse t0 v0 l : tags_ok ((t0, v0) :: l) -> NoDup (t0 :: map fst l) ->
  parseTagValueListDup (Join (tag_segments t0 v0 l) ";") = (foldl (fun m tv => <[fst tv := snd tv]> m) {[t0 := v0]} l, false).
Proof.
  intros Hok Hnd. unfold parseTagValueListDup. rewrite reencode_ascii by by apply tags_ascii. rewrite tags_split by done. apply NoDup_cons in Hnd as [Hn Hnd].
  unfold tag_segments. cbn [foldl]. destruct (Hok t0 v0 ltac:(by left)) as ((H1 & H2 & _ & H3) & H4 & _). rewrite parsePair_tag by done.
  rewrite lookup_empty, bool_decide_false by apply is_Some_None. cbn [orb]. apply fold_tags; [intros t v H; apply Hok; by right | done |].
  intros t Ht. apply lookup_singleton_ne. by intros <-.
Qed.

Definition tag_list (sig : DKIMSignature) : list (gostring * gostring) :=
  [("a" : gostring, Algorithm sig); ("c" : gostring, Canonicalize sig); ("d" : gostring, Domain sig); ("s" : gostring, Selector sig);
    ("t" : gostring, FormatUint (Timestamp sig)); ("bh" : gostring, BodyHash sig); ("h" : gostring, Join (SignedHeaders sig) ":");
    ("b" : gostring, Signature sig)].
Lemma buildHeader_segments sig : buildHeader sig = Join (tag_segments "v" "1" (tag_list sig)) ";".
Proof.
  unfold buildHeader, tag_segments, tag_list, tag_text. cbn [map fst snd Join String.list_ascii_of_string].
  repeat (rewrite <- ?app_assoc; cbn [app]). done.
Qed.

(** A signature whose text can be read back. *)
Record printable (sig : DKIMSignature) : Prop := {
  pr_alg : tag_value (Algorithm sig);
  pr_canon : tag_value (Canonicalize sig);
  pr_domain : tag_value (Domain sig);
  pr_selector : tag_value (Selector sig);
  pr_time : 0 <= Timestamp sig;
  pr_bh : tag_value (BodyHash sig);
  pr_h : tag_value (Join (SignedHeaders sig) ":");
  pr_b : tag_value (Signature sig)
}.

Lemma visible_digit c : is_digit c = true -> visible c = true.
Proof. unfold is_digit, visible, in_range. intros H. breflect. apply andb_true_iff. split; apply Z.leb_le; lia. Qed.

Lemma tag_value_format n : 0 <= n -> tag_value (FormatUint n).
Proof.
  intros Hn. split; [| by apply digits_not_in]. pose proof (FormatUint_digits n Hn) as H. rewrite forallb_forall in *.
  intros c Hc. by apply visible_digit, H.
Qed.

Lemma printable_values sig t v : printable sig -> (t, v) ∈ tag_list sig -> tag_value v.
Proof.
  intros [] H. unfold tag_list in H. repeat (apply elem_of_cons in H as [[= -> ->] | H]; [try done; by apply tag_value_format |]).
  by apply not_elem_of_nil in H.
Qed.

Lemma printable_ok sig : printable sig -> tags_ok (("v" : gostring, "1" : gostring) :: tag_list sig).
Proof.
  intros Hp t v H. split.
  - apply tag_name_spec. assert (Hn : forallb tag_nameb (map fst (("v" : gostring, "1" : gostring) :: tag_list sig)) = true) by (vm_compute; reflexivity).
    rewrite forallb_forall in Hn. apply Hn, list_elem_of_In, list_elem_of_fmap. by exists (t, v).
  - apply elem_of_cons in H as [[= -> ->] | H]; [| by apply (printable_values sig t v)]. split; [done |]. apply (bool_decide_eq_false_1 _). vm_compute. reflexivity.
Qed.

Lemma segments_split sig : printable sig -> Split (buildHeader sig) ";" = tag_segments "v" "1" (tag_list sig).
Proof. intros Hp. rewrite buildHeader_segments. by apply tags_split, printable_ok. Qed.

Lemma build_ascii sig : printable sig -> isASCII (buildHeader sig) = true.
Proof. intros Hp. rewrite buildHeader_segments. by apply tags_ascii, printable_ok. Qed.

Definition tags_of (sig : DKIMSignature) : gmap gostring gostring :=
  foldl (fun m tv => <[fst tv := snd tv]> m) {["v" : gostring := "1" : gostring]} (tag_list sig).

Lemma parse_build sig : printable sig -> parseTagValueListDup (buildHeader sig) = (tags_of sig, false).
Proof.
  intros Hp. rewrite buildHeader_segments, tags_parse; [done | by apply printable_ok |]. apply (bool_decide_unpack _). vm_compute. exact I.
Qed.

Ltac tag_lookup := unfold tags_of, tag_list; cbn [foldl fst snd];
  repeat first [rewrite lookup_insert_eq | rewrite lookup_insert_ne by discriminate | rewrite lookup_singleton_ne by discriminate | rewrite lookup_singleton_eq].

Lemma tags_of_lookup sig :
  tags_of sig !! ("v" : gostring) = Some ("1" : gostring) /\ tags_of sig !! ("a" : gostring) = Some (Algorithm sig) /\
  tags_of sig !! ("c" : gostring) = Some (Canonicalize sig) /\ tags_of sig !! ("d" : gostring) = Some (Domain sig) /\
  tags_of sig !! ("s" : gostring) = Some (Selector sig) /\ tags_of sig !! ("t" : gostring) = Some (FormatUint (Timestamp sig)) /\
  tags_of sig !! ("bh" : gostring) = Some (BodyHash sig) /\ tags_of sig !! ("h" : gostring) = Some (Join (SignedHeaders sig) ":") /\
  tags_of sig !! ("b" : gostring) = Some (Signature sig) /\ tags_of sig !! ("q" : gostring) = None /\
  tags_of sig !! ("x" : gostring) = None /\ tags_of sig !! ("l" : gostring) = None.
Proof. split_and!; by tag_lookup. Qed.

Lemma format_length f n acc k : 0 <= n < 10 ^ Z.of_nat (S k) -> (length (format_go f n acc) <= length acc + S k)%nat.
Proof.
  revert n acc k. induction f as [| f IH]; intros n acc k Hn; cbn [format_go]; [lia |]. destruct (Z.ltb_spec n 10); [cbn [length]; lia |].
  destruct k as [| k]; [change (10 ^ Z.of_nat 1) with 10 in Hn; lia |]. etransitivity; [apply (IH _ _ k) | cbn [length]; lia].
  rewrite Nat2Z.inj_succ, Z.pow_succ_r in Hn by lia. Z.to_euclidean_division_equations. lia.
Qed.

Lemma parseStrictUint_format n : 0 <= n < 10 ^ 18 -> parseStrictUint (FormatUint n) = Some n.
Proof.
  intros Hn. unfold parseStrictUint. rewrite bool_decide_false by apply FormatUint_nonempty. cbn [orb].
  pose proof (format_length (S (Z.to_nat (Z.log2 n))) n [] 17 Hn) as Hl. fold (FormatUint n) in Hl. cbn [length Nat.add] in Hl.
  rewrite (proj2 (Nat.ltb_ge 18 _)) by done. pose proof (ParseUint_FormatUint n (10 ^ 18) ltac:(lia)) as H. unfold ParseUint in H.
  destruct (FormatUint n); [done |]. destruct (digits_val _ _); [| done]. destruct (_ <=? _); [| done]. by injection H as ->.
Qed.

(** A field name as the signer lists it. *)
Definition field_name (h : gostring) : bool :=
  negb (bool_decide (h = [])) && forallb (fun c => visible c && negb (in_set ":;" c) && (ascii_lower c =c? c)) h.

Lemma field_name_spec h : field_name h = true -> h <> [] /\ forallb visible h = true /\ (":"%char ∉ h) /\ (";"%char ∉ h) /\ ToLower h = h.
Proof.
  unfold field_name. intros [Hn Hh]%andb_true_iff. apply negb_true_iff, bool_decide_eq_false in Hn. rewrite forallb_forall in Hh.
  assert (Hv : forallb visible h = true) by (apply forallb_forall; intros c Hc; apply Hh in Hc; breflect; done).
  assert (Hc : forall c, in_set ":;" c = true -> c ∉ h).
  { intros c Hs Hin. apply list_elem_of_In, Hh in Hin. rewrite Hs in Hin. by rewrite andb_false_r in Hin. }
  split_and!; [done | done | by apply Hc | by apply Hc |]. unfold ToLower. rewrite all_visible_ascii by done.
  clear -Hh. induction h as [| c h IH]; [done |]. cbn [map]. f_equal; [| apply IH; intros x Hx; apply Hh; by right].
  specialize (Hh c ltac:(by left)). apply andb_true_iff in Hh as [_ Hh]. by apply Ascii.eqb_eq.
Qed.

Lemma parseHeaderList_join hs : Forall (fun h => field_name h = true) hs -> hs <> [] -> parseHeaderList (Join hs ":") = hs.
Proof.
  intros Hf Hne. unfold parseHeaderList. change (":"%string : gostring) with [":"%char].
  rewrite Split_Join; [| done | eapply Forall_impl; [exact Hf |]; intros h Hh; by apply field_name_spec].
  clear Hne. induction Hf as [| h hs Hh Hf IH]; [done |]. cbn [map]. destruct (field_name_spec h Hh) as (Hn & Hv & _ & _ & Hl).
  rewrite Hl, TrimSpace_visible by done. rewrite filter_cons_True by done. by rewrite IH.
Qed.

Lemma signed_names headers : Forall (fun h => field_name h = true) (dkimSignedHeaderList headers).
Proof.
  unfold dkimSignedHeaderList. repeat (apply Forall_app; split); [repeat constructor | | repeat constructor].
  apply Forall_forall. intros h Hh. apply list_elem_of_filter in Hh as [_ Hh].
  assert (H : forallb field_name dkimOptionalSignedHeaders = true) by (vm_compute; reflexivity). rewrite forallb_forall in H.
  by apply H, list_elem_of_In.
Qed.

Lemma tag_value_join hs : Forall (fun h => field_name h = true) hs -> tag_value (Join hs ":").
Proof.
  induction 1 as [| h hs Hh Hf IH]; [by split; [| apply not_elem_of_nil] |]. destruct (field_name_spec h Hh) as (_ & Hv & _ & Hs & _).
  destruct hs as [| h' hs]; [by split |]. change (Join (h :: h' :: hs) ":") with (h ++ (":"%char :: Join (h' :: hs) ":")).
  destruct IH as [I1 I2]. split; [rewrite forallb_app; cbn [forallb]; by rewrite Hv, I1 |].
  rewrite elem_of_app, elem_of_cons. by intros [H | [H | H]].
Qed.

Lemma base64_tag_value bs : tag_value (encode StdEncoding bs).
Proof.
  split; [apply std_visible |]. intros H. apply encode_chars in H; [| apply StdEncoding_valid]. destruct H as [H | H]; [| done].
  revert H. apply (bool_decide_eq_false_1 _). vm_compute. reflexivity.
Qed.

Lemma build_head sig : exists r, buildHeader sig = "v"%char :: "="%char :: "1"%char :: r.
Proof. by eexists. Qed.

Lemma build_prefix sig : buildHeader sig = buildHeader (with_signature [] sig) ++ Signature sig.
Proof.
  unfold buildHeader, with_signature. cbn [Algorithm Canonicalize Domain Selector Timestamp BodyHash SignedHeaders Signature].
  repeat (rewrite <- app_assoc; f_equal).
Qed.

Lemma build_last sig : Signature sig <> [] -> forallb visible (Signature sig) = true -> exists y d, buildHeader sig = y ++ [d] /\ visible d = true.
Proof.
  intros Hne Hv. destruct (exists_last Hne) as (y & d & E). exists (buildHeader (with_signature [] sig) ++ y), d.
  split; [by rewrite build_prefix, E, app_assoc |]. rewrite E, forallb_app in Hv. apply andb_true_iff in Hv as [_ Hv]. cbn [forallb] in Hv.
  by rewrite andb_true_r in Hv.
Qed.

Lemma parse_signature sig : printable sig -> Domain sig <> [] -> Selector sig <> [] -> BodyHash sig <> [] -> Signature sig <> [] ->
  Canonicalize sig = ("relaxed/simple" : gostring) -> Timestamp sig < 10 ^ 18 ->
  Forall (fun h => field_name h = true) (SignedHeaders sig) -> SignedHeaders sig <> [] ->
  exists sig', parseDKIMSignature (buildHeader sig) = Some sig' /\ Domain sig' = Domain sig /\ Selector sig' = Selector sig /\
  Algorithm sig' = Algorithm sig /\ HeaderCanon sig' = ("relaxed" : gostring) /\ BodyCanon sig' = ("simple" : gostring) /\ Expiration sig' = 0 /\
  SignedHeaders sig' = SignedHeaders sig /\ BodyHash sig' = BodyHash sig /\ Signature sig' = Signature sig /\ BodyLength sig' = -1.
Proof.
  intros Hp Hd Hs Hbh Hb Hc Ht Hh Hhne. unfold parseDKIMSignature.
  assert (E : TrimSpace (TrimPrefix (buildHeader sig) "DKIM-Signature:") = buildHeader sig).
  { destruct (build_head sig) as [r Er]. destruct (build_last sig Hb (proj1 (pr_b _ Hp))) as (y & d & Ed & Hvd).
    assert (Ep : TrimPrefix (buildHeader sig) "DKIM-Signature:" = buildHeader sig) by (rewrite Er; reflexivity).
    rewrite Ep. by eapply TrimSpace_bounded. }
  rewrite E, parse_build by done. destruct (tags_of_lookup sig) as (Lv & La & Lc & Ld & Ls & Lt & Lbh & Lh & Lb & Lq & Lx & Ll).
  unfold optional_tag. rewrite Lv, La, Lc, Lq, Lt, Lx, Ll, Ld, Ls, Lbh, Lb, Lh, Hc. rewrite parseStrictUint_format by (split; [apply (pr_time _ Hp) | done]).
  change (parse_canon "relaxed/simple") with (Some (("relaxed" : gostring), ("simple" : gostring))). cbn iota beta.
  rewrite (bool_decide_true (("1" : gostring) = ("1" : gostring))) by done. rewrite !bool_decide_false by done. cbn [negb orb].
  eexists. split; [reflexivity |]. cbn [Domain Selector Algorithm HeaderCanon BodyCanon Expiration SignedHeaders BodyHash Signature BodyLength].
  rewrite parseHeaderList_join by done. by split_and!.
Qed.

(** The signature is not part of what is hashed. *)
Lemma without_sig_same sig sg : printable sig -> tag_value sg -> dkimHeaderWithoutSig (buildHeader (with_signature sg sig)) = dkimHeaderWithoutSig (buildHeader sig).
Proof.
  intros Hp Hsg. assert (Hp' : printable (with_signature sg sig)) by (destruct Hp; constructor; cbn; done).
  unfold dkimHeaderWithoutSig. by rewrite !segments_split.
Qed.

Lemma field_for_hash_same sig sg : printable sig -> tag_value sg ->
  dkimSignatureFieldForHash (buildHeader (with_signature sg sig)) "relaxed" = dkimSignatureFieldForHash (buildHeader sig) "relaxed".
Proof.
  intros Hp Hsg. assert (Hp' : printable (with_signature sg sig)) by (destruct Hp; constructor; cbn; done). unfold dkimSignatureFieldForHash.
  assert (Hno : forall sig, printable sig -> EqualFold (take 15 (buildHeader sig)) "DKIM-Signature:" = false).
  { clear. intros sig Hp. unfold EqualFold. pose proof (build_ascii sig Hp) as Ha. assert (Ht : isASCII (take 15 (buildHeader sig)) = true).
    { unfold isASCII in *. rewrite <- (take_drop 15 (buildHeader sig)), forallb_app in Ha. by apply andb_true_iff in Ha as [? _]. }
    rewrite Ht. change (isASCII "DKIM-Signature:") with true. cbn [andb]. apply bool_decide_eq_false. destruct (build_head sig) as [r ->]. discriminate. }
  rewrite !Hno, !andb_false_r by done. by rewrite without_sig_same.
Qed.
End Build.

(** ** Signing and verifying *)
Section RoundTrip.
Context {U : UnicodeTables} {C : Crypto} {K : KeyFormats} {R : DNSResolver}.
Implicit Types (headers : headerMap) (body : gostring).

(** No two field names of the map differ in case only. *)
Definition case_unique headers : Prop :=
  forall k k', is_Some (headers !! k) -> is_Some (headers !! k') -> ToLower k = ToLower k' -> k = k'.
Definition walks (iter : headerMap -> list (gostring * list gostring)) : Prop := forall m, iter m ≡ₚ map_to_list m.

Lemma find_unique {A} (p : A -> bool) (l l' : list A) : l ≡ₚ l' -> (forall x y, x ∈ l -> y ∈ l -> p x = true -> p y = true -> x = y) ->
  List.find p l = List.find p l'.
Proof.
  intros Hp Hu. destruct (List.find p l) as [x |] eqn:E.
  - apply find_some in E as [Hx Px]. destruct (List.find p l') as [y |] eqn:E'.
    + apply find_some in E' as [Hy Py]. f_equal. apply Hu; try done; [by apply list_elem_of_In |]. rewrite Hp. by apply list_elem_of_In.
    + apply list_elem_of_In in Hx. rewrite Hp in Hx. apply list_elem_of_In in Hx. by rewrite (find_none _ _ E' _ Hx) in Px.
  - symmetry. destruct (List.find p l') as [y |] eqn:E'; [| done]. apply find_some in E' as [Hy Py].
    apply list_elem_of_In in Hy. rewrite <- Hp in Hy. apply list_elem_of_In in Hy. by rewrite (find_none _ _ E _ Hy) in Py.
Qed.

Lemma find_field_walk iter iter' headers name : walks iter -> walks iter' -> case_unique headers -> find_field iter headers name = find_field iter' headers name.
Proof.
  intros Hw Hw' Hu. unfold find_field. rewrite (find_unique _ (iter headers) (iter' headers)); [done | by rewrite (Hw headers), (Hw' headers) |].
  intros [k v] [k' v'] Hx Hy Px Py. cbn [fst] in Px, Py. apply bool_decide_eq_true in Px, Py. rewrite (Hw headers) in Hx, Hy.
  apply elem_of_map_to_list in Hx, Hy. assert (k = k') as -> by (apply Hu; [by eexists | by eexists | congruence]). congruence.
Qed.

Lemma canonicalizeHeaders_walk iter iter' headers hs canon : walks iter -> walks iter' -> case_unique headers ->
  canonicalizeHeaders iter headers hs canon = canonicalizeHeaders iter' headers hs canon.
Proof.
  intros Hw Hw' Hu. unfold canonicalizeHeaders. generalize (∅ : gmap gostring nat). induction hs as [| h hs IH]; intros used; [done |].
  cbn [canonicalize_fields]. rewrite (find_field_walk iter iter') by done. destruct (find_field iter' headers h). by rewrite IH.
Qed.

(** What the signer needs: names that may stand in a tag, and a key for its algorithm
    whose public half is published. *)
Record signer_ok (s : DKIMSigner) (key : PublicKey) : Prop := {
  so_domain : token (sg_domain s);
  so_selector : token (sg_selector s);
  so_algorithm : sg_algorithm s = algorithm_of key;
  so_sound h sg : sg_sign s h = Some sg -> sg <> [] /\
  match key with KeyRSA k => VerifyPKCS1v15 k h sg | KeyEd25519 k => ed25519_Verify k h sg end = true
}.

Lemma unsigned_printable s key unix headers body : signer_ok s key -> 0 <= unix -> printable (unsigned s unix headers body).
Proof.
  intros [Hd Hs Ha _] Hu. constructor; cbn [unsigned Algorithm Canonicalize Domain Selector Timestamp BodyHash SignedHeaders Signature].
  - rewrite Ha. destruct key; split; try reflexivity; apply (bool_decide_eq_false_1 _); vm_compute; reflexivity.
  - split; [reflexivity |]. apply (bool_decide_eq_false_1 _). vm_compute. reflexivity.
  - apply Hd.
  - apply Hs.
  - done.
  - apply base64_tag_value.
  - apply tag_value_join, signed_names.
  - split; [done | apply not_elem_of_nil].
Qed.

(** C33: a message signed here is verified: with the signer's key published (or
    cached), [Verify] of the same fields and body answers pass for the header that
    [Sign] made, in whatever order the two walk the fields. *)
Theorem dkim_sign_verify s key unix iter iter' headers body header now pick asked c c' :
  signer_ok s key -> 0 <= unix < 10 ^ 18 -> walks iter -> walks iter' -> case_unique headers ->
  Sign iter s unix headers body = Some header ->
  fetchPublicKey now pick asked (sg_domain s) (sg_selector s) c = (Ok key, c') ->
  exists sig, Verify now pick iter' asked headers body header c = (DKIMPass, Some sig, c') /\ Domain sig = sg_domain s.
Proof.
  intros Hok Hu Hw Hw' Hcu Hsign Hkey. pose proof (unsigned_printable s key unix headers body Hok ltac:(lia)) as Hp.
  set (sig := unsigned s unix headers body) in *. unfold Sign in Hsign. fold sig in Hsign. change (HeaderCanon sig) with ("relaxed" : gostring) in Hsign.
  set (data := canonicalizeHeaders iter headers (SignedHeaders sig) "relaxed" ++ dkimSignatureFieldForHash (buildHeader sig) "relaxed") in *.
  destruct (negb _); [done |]. destruct (sg_sign s (sha256 data)) as [sg |] eqn:Esg; [| done]. injection Hsign as <-.
  destruct (so_sound _ _ Hok _ _ Esg) as [Hne Hver]. set (b := encode StdEncoding sg). pose proof (base64_tag_value sg) as Hb. fold b in Hb.
  assert (Hbne : b <> []) by by apply encode_nonempty. set (sig2 := with_signature b sig).
  assert (Hp2 : printable sig2) by (destruct Hp; constructor; cbn; done).
  destruct (parse_signature sig2 Hp2) as (sig' & Eparse & Ed & Es & Ea & Ehc & Ebc & Ex & Ehs & Ebh & Esig & El).
  { apply (so_domain _ _ Hok). } { apply (so_selector _ _ Hok). }
  { apply encode_nonempty. intros E. pose proof (sha256_length (canonicalizeBody body "simple")) as Hl. rewrite E in Hl. done. }
  { done. } { done. } { cbn. lia. } { apply signed_names. } { done. }
  exists sig'. split; [| done]. unfold Verify. rewrite Eparse.
  assert (Halg : (Algorithm sig' =s? "rsa-sha256") || (Algorithm sig' =s? "ed25519-sha256") = true).
  { rewrite Ea. change (Algorithm sig2) with (sg_algorithm s). rewrite (so_algorithm _ _ Hok). by destruct key. }
  rewrite Halg, Ehs. change (existsb (fun h : gostring => h =s? "from") (SignedHeaders sig2)) with true. cbn [negb].
  rewrite Ex. change (0 <? 0) with false. cbn [andb]. rewrite Ed, Es. change (Domain sig2) with (sg_domain s). change (Selector sig2) with (sg_selector s).
  rewrite Hkey, El, Ebc, Ebh, Ehc, Ea, Esig. change (0 <=? -1) with false. cbn [andb].
  change (BodyHash sig2) with (sha256Hash (canonicalizeBody body "simple")). rewrite (bool_decide_true (_ = _)) by done. cbn [negb].
  change (Algorithm sig2) with (sg_algorithm s). rewrite (so_algorithm _ _ Hok), (bool_decide_true (_ = _)) by done. cbn [negb].
  unfold sig2 at 2. rewrite field_for_hash_same by done. change (SignedHeaders sig2) with (SignedHeaders sig).
  rewrite (canonicalizeHeaders_walk iter' iter) by done. fold data. unfold verify_signature. change (Signature sig2) with b. unfold b.
  rewrite decode_encode by apply StdEncoding_valid. destruct key; by rewrite Hver.
Qed.
End RoundTrip.

(** ** Witness

    A toy scheme, in which a signature is the marked digest. *)
Module Toy.
#[export] Existing Instance ascii_tables.
#[export] Existing Instance toy_crypto.
Definition marked (h sg : gostring) : bool := sg =s? ("S"%char :: h).
#[export] Instance toy_keys : KeyFormats := {|
  RSAKey := unit; ParsePKIXPublicKey := fun _ => Some (Some tt); ParsePKCS1PublicKey := fun _ => None; pem_Decode := fun _ => None;
  BitLen := fun _ => 2048; VerifyPKCS1v15 := fun _ => marked; ed25519_Verify := fun _ => marked |}.
#[export] Instance no_dns : DNSResolver := {| LookupTXT _ _ := Ok []; LookupIP _ _ := Ok []; LookupMX _ _ := Ok [] |}.
Definition signer : DKIMSigner := {|
  sg_domain := "example.org"; sg_selector := "s1"; sg_algorithm := "rsa-sha256"; sg_sign := fun h => Some ("S"%char :: h) |}.
Definition key : PublicKey := KeyRSA tt.
Definition fields : headerMap := {["From" : gostring := [("a@example.org" : gostring)]]}.
Definition cache : gmap gostring dkimCacheEntry := {[key_name "s1" "example.org" := {| cachedKey := key; key_expiresAt := 100 |}]}.
Definition signed_header : gostring := match Sign map_to_list signer 7 fields "hello" with Some h => h | None => [] end.

Lemma signer_fine : signer_ok signer key.
Proof.
  constructor; try reflexivity.
  - split; [split; [reflexivity | apply (bool_decide_eq_false_1 _); vm_compute; reflexivity] | done].
  - split; [split; [reflexivity | apply (bool_decide_eq_false_1 _); vm_compute; reflexivity] | done].
  - intros h sg [= <-]. split; [done |]. cbn. unfold marked. by apply bool_decide_eq_true.
Qed.
End Toy.

Lemma dkim_sign_verify_witness :
  exists sig, Verify (U := ascii_tables) (C := toy_crypto) (K := Toy.toy_keys) (R := Toy.no_dns) 0 (fun _ => []) map_to_list [] Toy.fields "hello" Toy.signed_header Toy.cache
    = (DKIMPass, Some sig, Toy.cache) /\ Domain sig = sg_domain Toy.signer.
Proof.
  apply (dkim_sign_verify (U := ascii_tables) (C := toy_crypto) (K := Toy.toy_keys) (R := Toy.no_dns) Toy.signer Toy.key 7 map_to_list).
  - exact Toy.signer_fine.
  - lia.
  - intros m. reflexivity.
  - intros m. reflexivity.
  - intros k k' [v H] [v' H'] _. unfold Toy.fields in *. apply lookup_singleton_Some in H as [<- _], H' as [<- _]. reflexivity.
  - vm_compute. reflexivity.
  - reflexivity.
Defined.
