(* ===== verification/Dmarc.v ===== *)
(** * internal/auth: DMARC

    dmarc.go: records, the search for the record that applies, alignment, sampling
    and the policy that is applied.  The public suffix list is the class
    [PublicSuffix]; a resolver that can tell that a domain does not exist is an
    optional argument, as in the code. *)
From S2P Require Import Prelude GoLib Utf8 Scram Spf Dkim.

Inductive DMARCResult := DMARCNone | DMARCPass | DMARCFail | DMARCPermError | DMARCTempError.
#[export] Instance DMARCResult_eq_dec : EqDecision DMARCResult.
Proof. solve_decision. Defined.

Definition dmarc_string (r : DMARCResult) : gostring :=
  match r with
  | DMARCNone => "none" | DMARCPass => "pass" | DMARCFail => "fail" | DMARCPermError => "permerror" | DMARCTempError => "temperror"
  end.

(** Policies and alignment modes are strings, as in the code. *)
Definition DMARCPolicyNone : gostring := "none".
Definition DMARCPolicyQuarantine : gostring := "quarantine".
Definition DMARCPolicyReject : gostring := "reject".
Definition DMARCAlignmentRelaxed : gostring := "r".
Definition DMARCAlignmentStrict : gostring := "s".

Record DMARCRecord := {
  Version : gostring; Policy : gostring; SubdomainPolicy : gostring; NonExistentPolicy : gostring;
  AlignmentDKIM : gostring; AlignmentSPF : gostring; Percentage : Z; ReportAggregateURI : list gostring;
  ReportForensicURI : list gostring; ReportInterval : Z; FailureReports : list gostring }.

Class PublicSuffix := { EffectiveTLDPlusOne : gostring -> option gostring }.

Section Dmarc.
Context {U : UnicodeTables} {P : PublicSuffix} {C : Crypto}.

(** ** Records *)
Definition blanks : gostring := [" "%char; TAB].
Definition isDMARCRecord (record : gostring) : bool :=
  let rest := TrimLeft record blanks in
  if negb (HasPrefix rest "v") then false
  else
  let rest := TrimLeft (drop 1 rest) blanks in
  if negb (HasPrefix rest "=") then false
  else
  let rest := TrimLeft (drop 1 rest) blanks in
  if negb (HasPrefix rest "DMARC1") then false
  else match TrimLeft (drop 6 rest) blanks with [] => true | c :: _ => c =c? ";" end.

Definition non_empty_parts (s : gostring) (sep : ascii) : list gostring := filter (fun p => p <> []) (map TrimSpace (Split s sep)).
Definition parseURIList (s : gostring) : list gostring := non_empty_parts s ",".
Definition parseFailureOptions (s : gostring) : list gostring :=
  match non_empty_parts s ":" with [] => [("0" : gostring)] | l => l end.

Definition dmarcHasValidRua (uris : list gostring) : bool :=
  existsb (fun u => Nat.ltb 7 (length u) && EqualFold (take 7 u) "mailto:") uris.

Definition is_policy (p : gostring) : bool := (p =s? DMARCPolicyNone) || (p =s? DMARCPolicyQuarantine) || (p =s? DMARCPolicyReject).
Definition is_mode (a : gostring) : bool := (a =s? DMARCAlignmentRelaxed) || (a =s? DMARCAlignmentStrict).

Definition parseDMARCRecord (record : gostring) : option DMARCRecord :=
  let tags := parseTagValueList record in
  let get {A : Type} (t : string) (dflt : A) (f : gostring -> A) : A := match tags !! (t : gostring) with Some v => f v | None => dflt end in
  let number (dflt lo hi : Z) (v : gostring) : Z := match Atoi v with Ok n => if (lo <=? n) && (n <=? hi) then n else dflt | Err _ => dflt end in
  let version := get "v" ("DMARC1" : gostring) id in
  let policy := get "p" [] ToLower in
  let sp := get "sp" [] ToLower in
  let np := get "np" [] ToLower in
  let adkim := get "adkim" DMARCAlignmentRelaxed ToLower in
  let aspf := get "aspf" DMARCAlignmentRelaxed ToLower in
  let rua := get "rua" [] parseURIList in
  if negb (version =s? "DMARC1") then None
  else if negb (is_policy policy) && negb (dmarcHasValidRua rua) then None
  else Some {|
    Version := version; Policy := if is_policy policy then policy else DMARCPolicyNone;
    SubdomainPolicy := if is_policy sp then sp else []; NonExistentPolicy := if is_policy np then np else [];
    AlignmentDKIM := if is_mode adkim then adkim else DMARCAlignmentRelaxed;
    AlignmentSPF := if is_mode aspf then aspf else DMARCAlignmentRelaxed;
    Percentage := get "pct" 100 (number 100 0 100); ReportAggregateURI := rua; ReportForensicURI := get "ruf" [] parseURIList;
    ReportInterval := get "ri" 86400 (number 86400 1 max_int64); FailureReports := get "fo" [("0" : gostring)] parseFailureOptions |}.

(** ** Alignment and sampling *)
Definition isOrganizationalDomainMatch (domain1 domain2 : gostring) : bool :=
  let domain1 := ToLower domain1 in
  let domain2 := ToLower domain2 in
  if domain1 =s? domain2 then true
  else match EffectiveTLDPlusOne domain1, EffectiveTLDPlusOne domain2 with
  | Some org1, Some org2 => org1 =s? org2
  | _, _ => false
  end.

Definition checkAlignment (authDomain fromDomain mode : gostring) : bool :=
  if bool_decide (authDomain = []) then false
  else if mode =s? DMARCAlignmentStrict then EqualFold authDomain fromDomain
  else isOrganizationalDomainMatch authDomain fromDomain.

(** The first eight bytes of the digest as a number, modulo 100. *)
Fixpoint big_endian (acc : Z) (s : gostring) : Z := match s with [] => acc | c :: r => big_endian (acc * 256 + bz c) r end.
Definition shouldApplyPolicy (percentage : Z) (key : gostring) : bool :=
  if 100 <=? percentage then true
  else if percentage <=? 0 then false
  else big_endian 0 (take 8 (sha256 key)) mod 100 <? percentage.

(** ** The record that applies *)
Inductive dmarc_error := FromResolver (e : goerr) | errDMARCMultipleRecords | errNoDMARC.
Definition dmarc_temporary (e : dmarc_error) : bool := match e with FromResolver e => isTemporaryError e | _ => false end.

(** What the cache holds for a domain. *)
Inductive CachedPolicy := NoRecord | MultipleRecords | TheRecord (r : DMARCRecord).
Record dmarcCacheEntry := { cached : CachedPolicy; dm_expiresAt : Z }.
Abbreviation dmarcCache := (gmap gostring dmarcCacheEntry).
Definition dmarc_ttl : Z := 5 * minute.
Definition dmarc_maxSize : Z := 10000.

Definition dmarc_cache_get (now : Z) (domain : gostring) (c : dmarcCache) : option CachedPolicy :=
  match c !! domain with
  | Some e => if dm_expiresAt e <? now then None else Some (cached e)
  | None => None
  end.
Definition dmarc_evictOldest (now : Z) (pick : dmarcCache -> gostring) (c : dmarcCache) : dmarcCache :=
  let c := filter (fun kv => ~ dm_expiresAt (snd kv) < now) c in
  if dmarc_maxSize <=? Z.of_nat (size c) then base.delete (pick c) c else c.
Definition dmarc_cache_set (now : Z) (pick : dmarcCache -> gostring) (domain : gostring) (p : CachedPolicy) (c : dmarcCache) : dmarcCache :=
  let c := if dmarc_maxSize <=? Z.of_nat (size c) then dmarc_evictOldest now pick c else c in
  <[domain := {| cached := p; dm_expiresAt := now + dmarc_ttl |}]> c.

Section Evaluate.
Context {R : DNSResolver} (domainExists : option (gostring -> result goerr bool)) (now : Z) (pick : dmarcCache -> gostring).

(** The questions asked so far and the cache. *)
Record EvalState := { ev_asked : list Query; ev_cache : dmarcCache }.

Definition lookupDMARC (domain : gostring) (st : EvalState) : result dmarc_error DMARCRecord * EvalState :=
  let query := "_dmarc." ++ domain in
  (match LookupTXT (ev_asked st) query with
  | Err e => Err (FromResolver e)
  | Ok txt =>
      match filter (fun r => isDMARCRecord r = true) txt with
      | [r] => match parseDMARCRecord r with Some rec => Ok rec | None => Err errNoDMARC end
      | [] => Err errNoDMARC
      | _ => Err errDMARCMultipleRecords
      end
  end, {| ev_asked := ev_asked st ++ [QTXT query]; ev_cache := ev_cache st |}).

(** [None] is a failure that may pass. *)
Definition policyRecord (domain : gostring) (st : EvalState) : option CachedPolicy * EvalState :=
  match dmarc_cache_get now domain (ev_cache st) with
  | Some p => (Some p, st)
  | None =>
      let '(r, st) := lookupDMARC domain st in
      let store p := (Some p, {| ev_asked := ev_asked st; ev_cache := dmarc_cache_set now pick domain p (ev_cache st) |}) in
      match r with
      | Ok rec => store (TheRecord rec)
      | Err e =>
          if dmarc_temporary e then (None, st)
          else match e with errDMARCMultipleRecords => store MultipleRecords | _ => store NoRecord end
      end
  end.

(** ** Evaluation *)
Record DMARCEvaluation := {
  EResult : DMARCResult; EPolicy : gostring; AppliedPolicy : gostring; EDomain : gostring; Explanation : gostring;
  Disposition : gostring; ERecord : option DMARCRecord; PolicyDomain : gostring; SPFAligned : bool; DKIMAligned : bool }.

Definition no_policy (res : DMARCResult) (policy fromDomain explanation : gostring) : DMARCEvaluation := {|
  EResult := res; EPolicy := policy; AppliedPolicy := []; EDomain := fromDomain; Explanation := explanation; Disposition := [];
  ERecord := None; PolicyDomain := []; SPFAligned := false; DKIMAligned := false |}.

Record DKIMSignatureResult := { sr_result : DKIMResult; sr_domain : gostring }.

(** The policy for a message that fails, before sampling. *)
Definition policy_to_apply (record : DMARCRecord) (fromOrg : bool) (fromDomain : gostring) : gostring :=
  let policy := if negb (SubdomainPolicy record =s? []) && fromOrg then SubdomainPolicy record else Policy record in
  if negb (NonExistentPolicy record =s? []) && fromOrg then
  match domainExists with
  | Some f => match f fromDomain with Ok false => NonExistentPolicy record | _ => policy end
  | None => policy
  end
  else policy.

(** A message outside the sample gets the next lower policy. *)
Definition lower_policy (p : gostring) : gostring := if p =s? DMARCPolicyReject then DMARCPolicyQuarantine else DMARCPolicyNone.

Definition disposition (p : gostring) : gostring :=
  if p =s? DMARCPolicyQuarantine then "quarantine" else if p =s? DMARCPolicyReject then "reject" else "none".

Definition evaluateWithRecord (fromDomain sampleKey : gostring) (spfResult : SPFResult) (spfDomain : gostring)
  (sigs : list DKIMSignatureResult) (record : option DMARCRecord) (fromOrg : bool) : DMARCEvaluation :=
  match record with
  | None => no_policy DMARCNone DMARCPolicyNone fromDomain "No DMARC record found"
  | Some record =>
      if negb (Version record =s? "DMARC1") then no_policy DMARCPermError [] fromDomain "Invalid DMARC version"
      else
      let spfPassed := bool_decide (spfResult = SPFPass) && checkAlignment spfDomain fromDomain (AlignmentSPF record) in
      let dkimPassed := existsb (fun sg => bool_decide (sr_result sg = DKIMPass) && checkAlignment (sr_domain sg) fromDomain (AlignmentDKIM record)) sigs in
      let policyDomain := ToLower fromDomain in
      let policyDomain := if fromOrg then match EffectiveTLDPlusOne policyDomain with Some org => org | None => policyDomain end else policyDomain in
      let mk res applied explanation disp := {|
        EResult := res; EPolicy := Policy record; AppliedPolicy := applied; EDomain := fromDomain; Explanation := explanation;
        Disposition := disp; ERecord := Some record; PolicyDomain := policyDomain; SPFAligned := spfPassed; DKIMAligned := dkimPassed |} in
      if spfPassed || dkimPassed then
      mk DMARCPass DMARCPolicyNone (if spfPassed then "SPF aligned" else "DKIM aligned" : gostring) ("none" : gostring)
      else
      let policy := policy_to_apply record fromOrg fromDomain in
      let '(policy, explanation) :=
      if Percentage record <? 100 then
      if negb (shouldApplyPolicy (Percentage record) (fromDomain ++ "|" ++ sampleKey))
      then (lower_policy policy, "DMARC policy not applied due to pct=" ++ FormatUint (Percentage record))
      else (policy, "DMARC policy applied (pct=" ++ FormatUint (Percentage record) ++ ")")
      else (policy, "DMARC check failed" : gostring) in
      mk DMARCFail policy explanation (disposition policy)
  end.

Definition EvaluateSignatures (fromDomain sampleKey : gostring) (spfResult : SPFResult) (spfDomain : gostring)
  (sigs : list DKIMSignatureResult) (st : EvalState) : DMARCEvaluation * EvalState :=
  let temp := no_policy DMARCTempError [] fromDomain "DNS lookup failed" in
  let multiple := no_policy DMARCNone DMARCPolicyNone fromDomain "Multiple DMARC records found" in
  let sampleKey := if bool_decide (sampleKey = []) then spfDomain ++ concat (map (fun sg => "|" ++ sr_domain sg) sigs) else sampleKey in
  let done record fromOrg st := (evaluateWithRecord fromDomain sampleKey spfResult spfDomain sigs record fromOrg, st) in
  match policyRecord fromDomain st with
  | (None, st) => (temp, st)
  | (Some MultipleRecords, st) => (multiple, st)
  | (Some (TheRecord r), st) => done (Some r) false st
  | (Some NoRecord, st) =>
      match EffectiveTLDPlusOne (ToLower fromDomain) with
      | Some org =>
          if EqualFold org fromDomain then done None false st
          else match policyRecord org st with
          | (None, st) => (temp, st)
          | (Some MultipleRecords, st) => (multiple, st)
          | (Some (TheRecord r), st) => done (Some r) true st
          | (Some NoRecord, st) => done None false st
          end
      | None => done None false st
      end
  end.

Definition Evaluate (fromDomain : gostring) (spfResult : SPFResult) (spfDomain : gostring) (dkimResult : DKIMResult) (dkimDomain : gostring)
  (st : EvalState) : DMARCEvaluation * EvalState :=
  EvaluateSignatures fromDomain [] spfResult spfDomain [{| sr_result := dkimResult; sr_domain := dkimDomain |}] st.
End Evaluate.
End Dmarc.
