(* ===== verification/AuthStages.v ===== *)
(** * internal/smtp: the stages that authenticate the sender

    auth_pipeline.go: SPF, DKIM and DMARC, as stages of the message pipeline, and
    what their verdicts are.
    [AuthContext] has the fields of the message context that they read and write;
    spam scores, which are floating point numbers, and the aggregate report are left
    out, and the error of a failed signature is recorded without its cause.  The cache of each is threaded through. *)
From S2P Require Import Prelude GoLib Utf8 Base64 Scram SmtpSession GoNet Spf SpfProps Dkim DkimProps Dmarc.

Record SPFOutcome := { spf_Result : gostring; spf_Domain : gostring; spf_Explanation : gostring }.
Record DKIMOutcome := { Valid : bool; dkim_Domain : gostring; dkim_Selector : gostring; dkim_Error : gostring }.
Record DMARCOutcome := { dmarc_Result : gostring; dmarc_Policy : gostring; dmarc_Percentage : Z }.

Record AuthContext := {
  RemoteIP : gostring; CFrom : gostring; CData : gostring; CHeaders : headerMap;
  CSPF : SPFOutcome; CDKIM : DKIMOutcome; CDMARC : DMARCOutcome;
  CRejected : bool; CRejectionCode : Z; CRejectionMessage : gostring; CQuarantine : bool }.

Definition set_spf (o : SPFOutcome) (c : AuthContext) : AuthContext := {|
  RemoteIP := RemoteIP c; CFrom := CFrom c; CData := CData c; CHeaders := CHeaders c; CSPF := o; CDKIM := CDKIM c; CDMARC := CDMARC c;
  CRejected := CRejected c; CRejectionCode := CRejectionCode c; CRejectionMessage := CRejectionMessage c; CQuarantine := CQuarantine c |}.
Definition set_dkim (o : DKIMOutcome) (c : AuthContext) : AuthContext := {|
  RemoteIP := RemoteIP c; CFrom := CFrom c; CData := CData c; CHeaders := CHeaders c; CSPF := CSPF c; CDKIM := o; CDMARC := CDMARC c;
  CRejected := CRejected c; CRejectionCode := CRejectionCode c; CRejectionMessage := CRejectionMessage c; CQuarantine := CQuarantine c |}.
Definition set_dmarc (o : DMARCOutcome) (quarantine : bool) (c : AuthContext) : AuthContext := {|
  RemoteIP := RemoteIP c; CFrom := CFrom c; CData := CData c; CHeaders := CHeaders c; CSPF := CSPF c; CDKIM := CDKIM c; CDMARC := o;
  CRejected := CRejected c; CRejectionCode := CRejectionCode c; CRejectionMessage := CRejectionMessage c; CQuarantine := quarantine |}.
Definition reject550 (msg : gostring) (c : AuthContext) : AuthContext := {|
  RemoteIP := RemoteIP c; CFrom := CFrom c; CData := CData c; CHeaders := CHeaders c; CSPF := CSPF c; CDKIM := CDKIM c; CDMARC := CDMARC c;
  CRejected := true; CRejectionCode := 550; CRejectionMessage := msg; CQuarantine := CQuarantine c |}.

Definition extractDomain (email : gostring) : gostring := match Split email "@" with [_; d] => d | _ => [] end.

Section Stages.
Context {U : UnicodeTables} {Q : GoQuote} {N : NetMail} {P : PublicSuffix} {C : Crypto} {K : KeyFormats} {R : DNSResolver}.
Context (now : Z).

(** ** SPF *)
Definition AuthSPFStage (iter : gmap gostring cacheEntry -> list (gostring * cacheEntry)) (ctx : AuthContext) (c : spfCache) : PipelineResult * AuthContext * spfCache :=
  let domain := extractDomain (CFrom ctx) in
  if bool_decide (domain = []) then (ResultAccept, set_spf {| spf_Result := "none"; spf_Domain := []; spf_Explanation := [] |} ctx, c)
  else
  let '(r, c) := CheckSPF now iter (RemoteIP ctx) domain (CFrom ctx) c in
  (ResultAccept, match r with
  | Some (res, explanation, _) => set_spf {| spf_Result := spf_string res; spf_Domain := domain; spf_Explanation := explanation |} ctx
  | None => ctx
  end, c).

(** ** DKIM *)
Section DkimStage.
Context (pick : gmap gostring dkimCacheEntry -> gostring) (iter : headerMap -> list (gostring * list gostring)).

(** The loop over the signatures: the first that passes ends it. *)
Fixpoint dkim_loop (sigs : list gostring) (ctx : AuthContext) (c : gmap gostring dkimCacheEntry) : AuthContext * gmap gostring dkimCacheEntry :=
  match sigs with
  | [] => (ctx, c)
  | dkimHeader :: r =>
      match Verify now pick iter [] (CHeaders ctx) (CData ctx) dkimHeader c with
      | (DKIMPass, Some sig, c) =>
          (set_dkim {| Valid := true; dkim_Domain := Domain sig; dkim_Selector := Selector sig; dkim_Error := [] |} ctx, c)
      | (_, sig, c) =>
          let domain := match sig with Some sig => Domain sig | None => [] end in
          dkim_loop r (set_dkim {| Valid := false; dkim_Domain := domain; dkim_Selector := []; dkim_Error := "verification failed" |} ctx) c
      end
  end.

Definition signature_fields (h : headerMap) : list gostring :=
  match h !! ("DKIM-Signature" : gostring) with
  | Some l => l
  | None => match h !! ("Dkim-Signature" : gostring) with Some l => l | None => [] end
  end.

Definition AuthDKIMStage (ctx : AuthContext) (c : gmap gostring dkimCacheEntry) : PipelineResult * AuthContext * gmap gostring dkimCacheEntry :=
  match signature_fields (CHeaders ctx) with
  | [] => (ResultAccept, set_dkim {| Valid := false; dkim_Domain := []; dkim_Selector := []; dkim_Error := "no DKIM signature" |} ctx, c)
  | sigs => let '(ctx, c) := dkim_loop sigs ctx c in (ResultAccept, ctx, c)
  end.
End DkimStage.

(** ** DMARC *)
Definition mapSPFResult (result : gostring) : SPFResult :=
  let r := ToLower result in
  if r =s? "pass" then SPFPass else if r =s? "fail" then SPFFail else if r =s? "softfail" then SPFSoftFail
  else if r =s? "neutral" then SPFNeutral else if r =s? "temperror" then SPFTempError else if r =s? "permerror" then SPFPermError else SPFNone.

Definition mapDKIMResult (d : DKIMOutcome) : DKIMResult :=
  if Valid d then DKIMPass else if negb (bool_decide (dkim_Error d = [])) then DKIMFail else DKIMNone.

(** The domain of the author: of the one From field, or of the envelope when there is
    none. *)
Definition author_domain (ctx : AuthContext) (froms : list gostring) : gostring :=
  match froms with
  | [] => extractDomain (CFrom ctx)
  | v :: _ =>
      match ParseAddress v with
      | Some a => match LastIndexByte a "@" with Some (S _ as i) => ToLower (drop (S i) a) | _ => [] end
      | None => []
      end
  end.

Definition AuthDMARCStage (domainExists : option (gostring -> result goerr bool)) (pick : gmap gostring dmarcCacheEntry -> gostring)
  (ctx : AuthContext) (c : gmap gostring dmarcCacheEntry) : PipelineResult * AuthContext * gmap gostring dmarcCacheEntry :=
  let froms := fromHeaderValues (CHeaders ctx) in
  if Nat.ltb 1 (length froms) then (ResultReject, reject550 "5.6.0 Multiple From header fields" ctx, c)
  else
  let fromDomain := author_domain ctx froms in
  if bool_decide (fromDomain = []) then
  (ResultAccept, set_dmarc {| dmarc_Result := "none"; dmarc_Policy := []; dmarc_Percentage := 0 |} (CQuarantine ctx) ctx, c)
  else
  let '(ev, st) := Evaluate domainExists now pick fromDomain (mapSPFResult (spf_Result (CSPF ctx))) (spf_Domain (CSPF ctx))
  (mapDKIMResult (CDKIM ctx)) (dkim_Domain (CDKIM ctx)) {| ev_asked := []; ev_cache := c |} in
  let outcome := {| dmarc_Result := dmarc_string (EResult ev); dmarc_Policy := AppliedPolicy ev; dmarc_Percentage := 100 |} in
  if AppliedPolicy ev =s? DMARCPolicyReject then
  (ResultReject, reject550 ("DMARC policy rejection: " ++ Explanation ev) (set_dmarc outcome (CQuarantine ctx) ctx), ev_cache st)
  else (ResultAccept, set_dmarc outcome (CQuarantine ctx || (AppliedPolicy ev =s? DMARCPolicyQuarantine)) ctx, ev_cache st).
End Stages.

(** ** Canonicalization keeps everything but white space *)
Definition solid (c : ascii) : bool := negb (is_wsp c || (bz c =? 13) || (bz c =? 10)).
Abbreviation solids := (List.filter solid).

Lemma solids_app a b : solids (a ++ b) = solids a ++ solids b.
Proof. induction a as [| c a IH]; [done |]. cbn [List.filter app]. rewrite IH. by destruct (solid c). Qed.

Lemma solids_rev a : solids (rev a) = rev (solids a).
Proof. induction a as [| c a IH]; [done |]. cbn [rev List.filter]. rewrite solids_app, IH. cbn [List.filter]. destruct (solid c); [done |]. by rewrite app_nil_r. Qed.

Lemma strip_step a b c d t : strip_crlfs (a :: b :: c :: d :: t) =
  if (bz a =? 10) && (bz b =? 13) && (bz c =? 10) && (bz d =? 13) then strip_crlfs (c :: d :: t) else a :: b :: c :: d :: t.
Proof. reflexivity. Qed.

Lemma solids_strip r : solids (strip_crlfs r) = solids r.
Proof.
  enough (H : forall n r, (length r <= n)%nat -> solids (strip_crlfs r) = solids r) by by apply (H (length r)).
  clear r. induction n as [| n IH]; intros r Hr; [by destruct r; [| cbn in Hr; lia] |].
  destruct r as [| a [| b [| c [| d t]]]]; try done. rewrite strip_step.
  destruct (_ && _) eqn:E; [| done]. rewrite IH by (cbn [length] in *; lia). breflect. cbn [List.filter].
  assert (Hs : forall x, bz x = 10 \/ bz x = 13 -> solid x = false).
  { intros x [Hx | Hx]; unfold solid; rewrite Hx; cbn; by rewrite !orb_true_r. }
  by rewrite (Hs a), (Hs b) by auto.
Qed.

Lemma solids_with_crlf b : solids (with_crlf b) = solids b.
Proof. unfold with_crlf. destruct (endsWithCRLF b); [done |]. rewrite solids_app. change (solids Dkim.CRLF) with (@nil ascii). apply app_nil_r. Qed.

Lemma solids_collapse w l : solids (collapse_wsp w l) = solids l.
Proof.
  revert w. induction l as [| c l IH]; intros w; [done |]. cbn [collapse_wsp List.filter]. destruct (is_wsp c) eqn:Ew.
  - rewrite IH. unfold solid. by rewrite Ew.
  - rewrite solids_app. destruct w; cbn [List.filter app]; change (solid " ") with false; cbn iota; by rewrite IH.
Qed.

Lemma solids_line l : solids (relaxed_line l) = solids l.
Proof.
  unfold relaxed_line. rewrite solids_collapse. unfold TrimSuffix. destruct (HasSuffix l [byte_of 13]) eqn:E; [| done].
  unfold HasSuffix in E. apply HasPrefix_true in E as [r E]. apply (f_equal (@rev ascii)) in E. rewrite rev_involutive in E.
  rewrite E. cbn [rev app]. rewrite !length_app. cbn [length]. rewrite Nat.add_sub, take_app_length, solids_app. by rewrite app_nil_r.
Qed.

Lemma solids_join l : solids (Join l Dkim.CRLF) = solids (concat l).
Proof.
  induction l as [| x [| y l] IH]; [done | cbn; by rewrite app_nil_r |].
  change (Join (x :: y :: l) Dkim.CRLF) with (x ++ Dkim.CRLF ++ Join (y :: l) Dkim.CRLF). rewrite !solids_app, IH. cbn [concat]. by rewrite !solids_app.
Qed.

Lemma solids_split s : solids (concat (Split s (byte_of 10))) = solids s.
Proof.
  induction s as [| c s IH]; [done |]. cbn [Split]. destruct (Ascii.eqb_spec c (byte_of 10)) as [-> | _]; [cbn [concat app List.filter]; by rewrite IH |].
  destruct (Split s (byte_of 10)) as [| f fs] eqn:E; cbn [concat app] in *; cbn [List.filter].
  - by rewrite <- IH.
  - rewrite <- IH. done.
Qed.

Lemma strip_keeps_crlf t : exists t', strip_crlfs (byte_of 10 :: byte_of 13 :: t) = byte_of 10 :: byte_of 13 :: t'.
Proof.
  enough (H : forall n t, (length t <= n)%nat -> exists t', strip_crlfs (byte_of 10 :: byte_of 13 :: t) = byte_of 10 :: byte_of 13 :: t') by by apply (H (length t)).
  clear t. induction n as [| n IH]; intros t Ht; (destruct t as [| c [| d t]]; [by eexists .. |]); [cbn in Ht; lia |].
  rewrite strip_step. destruct (_ && _) eqn:E; [| by eexists]. breflect. assert (c = byte_of 10) as -> by (by apply bz_inj).
  assert (d = byte_of 13) as -> by (by apply bz_inj). apply IH. cbn in Ht. lia.
Qed.

Lemma with_crlf_end b : exists y, with_crlf b = y ++ Dkim.CRLF.
Proof.
  unfold with_crlf, endsWithCRLF, HasSuffix. destruct (HasPrefix _ _) eqn:E; [| by eexists]. apply HasPrefix_true in E as [r E].
  exists (rev r). apply (f_equal (@rev ascii)) in E. rewrite rev_involutive in E. rewrite E, rev_app_distr. by rewrite rev_involutive.
Qed.

Lemma canonical_solids body canon : solids (canonicalizeBody body canon) = solids body.
Proof.
  unfold canonicalizeBody. case_bool_decide.
  - unfold canonicalizeBodyRelaxed. case_bool_decide; [by subst |]. set (out := Join _ _).
    assert (Ho : solids (rev (strip_crlfs (rev (with_crlf out)))) = solids body).
    { rewrite solids_rev, solids_strip, <- solids_rev, rev_involutive, solids_with_crlf. unfold out. rewrite solids_join, <- (solids_split body).
      generalize (Split body (byte_of 10)). induction l as [| x l IH]; [done |]. cbn [map concat]. by rewrite !solids_app, IH, solids_line. }
    destruct (Nat.eqb_spec (length (rev (strip_crlfs (rev (with_crlf out))))) 2) as [E | _]; [| done]. rewrite <- Ho.
    destruct (with_crlf_end out) as [y Ey]. rewrite Ey, rev_app_distr in E |- *. change (rev Dkim.CRLF ++ rev y) with (byte_of 10 :: byte_of 13 :: rev y) in E |- *. destruct (strip_keeps_crlf (rev y)) as [t' Et].
    rewrite Et in E |- *. rewrite length_rev in E. cbn in E. assert (t' = []) as -> by (destruct t'; [done | cbn in E; lia]). reflexivity.
  - unfold canonicalizeBodySimple. case_bool_decide; [by subst |]. by rewrite solids_with_crlf, solids_rev, solids_strip, <- solids_rev, rev_involutive.
Qed.

(** ** The DKIM stage *)
Section Stage.
Context {U : UnicodeTables} {C : Crypto} {K : KeyFormats} {R : DNSResolver}.
Context (now : Z) (pick : gmap gostring dkimCacheEntry -> gostring) (iter : headerMap -> list (gostring * list gostring)).

Lemma sha256Hash_inj x y : sha256Hash x = sha256Hash y -> sha256 x = sha256 y.
Proof.
  unfold sha256Hash. intros H. apply (f_equal (decode StdEncoding)) in H. rewrite !decode_encode in H by apply StdEncoding_valid. congruence.
Qed.

(** What a pass says about the body: without l= its digest is the one in bh. *)
Lemma verify_pass_hash asked headers body h sig c c' : Verify now pick iter asked headers body h c = (DKIMPass, Some sig, c') ->
  parseDKIMSignature h = Some sig /\ (BodyLength sig = -1 -> sha256Hash (canonicalizeBody body (BodyCanon sig)) = BodyHash sig).
Proof.
  unfold Verify. destruct (parseDKIMSignature h) as [sig' |]; [| done]. destruct (negb _); [done |]. destruct (negb _); [done |].
  destruct (_ && _); [done |]. destruct (fetchPublicKey _ _ _ _ _ _) as [[key | t] c1]; [| by destruct t].
  cbn zeta. destruct ((0 <=? BodyLength sig') && _); [done |]. case_bool_decide as Eh; cbn [negb]; [| done].
  destruct (negb _); [done |]. intros H. assert (sig' = sig) as -> by (by destruct (verify_signature _ _ _); injection H). split; [done |].
  intros El. rewrite El in Eh. exact Eh.
Qed.

(** A valid outcome comes from a signature that passed over the data of the
    message. *)
Lemma dkim_loop_valid sigs ctx c ctx' c' : Valid (CDKIM ctx) = false -> dkim_loop now pick iter sigs ctx c = (ctx', c') -> Valid (CDKIM ctx') = true ->
  exists h sig c1 c2, h ∈ sigs /\ Verify now pick iter [] (CHeaders ctx) (CData ctx) h c1 = (DKIMPass, Some sig, c2).
Proof.
  revert ctx c. induction sigs as [| h r IH]; intros ctx c Hv; cbn [dkim_loop]; [by intros [= <- <-]; rewrite Hv |].
  destruct (Verify now pick iter [] (CHeaders ctx) (CData ctx) h c) as [[res sig] c1] eqn:E. intros H Hv'.
  assert (Hnext : forall o, Valid o = false -> dkim_loop now pick iter r (set_dkim o ctx) c1 = (ctx', c') ->
    exists h' sig c1 c2, h' ∈ h :: r /\ Verify now pick iter [] (CHeaders ctx) (CData ctx) h' c1 = (DKIMPass, Some sig, c2)).
  { intros o Ho Hl. destruct (IH (set_dkim o ctx) c1 Ho Hl Hv') as (h' & sg & a & b & Hin & Hp). exists h', sg, a, b. split; [by right | exact Hp]. }
  destruct res, sig as [sg |]; try (eapply Hnext; [| exact H]; done).
  exists h, sg, c, c1. split; [by left | done].
Qed.

(** the DKIM stage hands the whole message to the verifier as its body.  For a
    message that arrives with a header block and signatures made as RFC 6376 says, each
    over the canonical form of the body alone, no signature is found valid, unless
    SHA-256 gives the same digest for that body and for the whole message, which are
    different texts. *)
Theorem dkim_stage_hashes_header hdr body ctx c : CData ctx = hdr ++ CRLF ++ CRLF ++ body -> solids hdr <> [] ->
  Valid (CDKIM ctx) = false ->
  (forall h sig, h ∈ signature_fields (CHeaders ctx) -> parseDKIMSignature h = Some sig ->
    BodyLength sig = -1 /\ BodyHash sig = sha256Hash (canonicalizeBody body (BodyCanon sig))) ->
  Valid (CDKIM (snd (fst (AuthDKIMStage now pick iter ctx c)))) = false \/
  exists canon, canonicalizeBody (CData ctx) canon <> canonicalizeBody body canon /\
  sha256 (canonicalizeBody (CData ctx) canon) = sha256 (canonicalizeBody body canon).
Proof.
  intros Hd Hs Hv Hh. unfold AuthDKIMStage. destruct (signature_fields (CHeaders ctx)) as [| h0 hs] eqn:Ef; [by left |].
  destruct (dkim_loop now pick iter (h0 :: hs) ctx c) as [ctx' c'] eqn:El. cbn [fst snd].
  destruct (Valid (CDKIM ctx')) eqn:Ev; [right | by left].
  destruct (dkim_loop_valid _ _ _ _ _ Hv El Ev) as (h & sig & c1 & c2 & Hin & Hp).
  destruct (verify_pass_hash _ _ _ _ _ _ _ Hp) as [Eparse Ehash]. destruct (Hh h sig Hin Eparse) as [Hl Hb].
  exists (BodyCanon sig). split.
  - intros E. apply (f_equal solids) in E. rewrite !canonical_solids, Hd, !solids_app in E. apply (f_equal length) in E.
    rewrite !length_app in E. destruct (solids hdr); [done |]. cbn [length] in E. lia.
  - apply sha256Hash_inj. by rewrite (Ehash Hl), Hb.
Qed.
End Stage.

Definition signed_message : gostring := "From: a@example.org" ++ CRLF ++ CRLF ++ "hello".
Definition arriving : AuthContext := {|
  RemoteIP := []; CFrom := "a@example.org"; CData := signed_message;
  CHeaders := {["DKIM-Signature" : gostring := [Toy.signed_header]]};
  CSPF := {| spf_Result := []; spf_Domain := []; spf_Explanation := [] |};
  CDKIM := {| Valid := false; dkim_Domain := []; dkim_Selector := []; dkim_Error := [] |};
  CDMARC := {| dmarc_Result := []; dmarc_Policy := []; dmarc_Percentage := 0 |};
  CRejected := false; CRejectionCode := 0; CRejectionMessage := []; CQuarantine := false |}.

Lemma dkim_stage_hashes_header_witness :
  let A := fun ctx => AuthDKIMStage (U := ascii_tables) (C := toy_crypto) (K := Toy.toy_keys) (R := Toy.no_dns) 0 (fun _ => []) map_to_list ctx Toy.cache in
  Valid (CDKIM (snd (fst (A arriving)))) = false \/
  exists canon, canonicalizeBody (CData arriving) canon <> canonicalizeBody "hello" canon /\
  sha256 (Crypto := toy_crypto) (canonicalizeBody (CData arriving) canon) = sha256 (Crypto := toy_crypto) (canonicalizeBody "hello" canon).
Proof.
  apply (dkim_stage_hashes_header (U := ascii_tables) (C := toy_crypto) (K := Toy.toy_keys) (R := Toy.no_dns) 0 (fun _ => []) map_to_list "From: a@example.org" "hello").
  - reflexivity.
  - vm_compute. discriminate.
  - reflexivity.
  - intros h sig Hin Hp. assert (h = Toy.signed_header) as -> by (by apply list_elem_of_singleton).
    vm_compute in Hp. injection Hp as <-. split; vm_compute; reflexivity.
Defined.

(** The signature itself is good: over the body alone it verifies. *)
Example arriving_is_signed :
  fst (fst (Verify (U := ascii_tables) (C := toy_crypto) (K := Toy.toy_keys) (R := Toy.no_dns) 0 (fun _ => []) map_to_list [] Toy.fields "hello" Toy.signed_header Toy.cache)) = DKIMPass.
Proof. vm_compute. reflexivity. Qed.

(** ** DMARC *)
Section DmarcReading.
Context {U : UnicodeTables} {P : PublicSuffix} {C : Crypto} {N : NetMail}.
Context (z : Zone) (domainExists : option (gostring -> result goerr bool)) (now : Z) (pick : gmap gostring dmarcCacheEntry -> gostring).
#[local] Instance zone_answers : DNSResolver := zone_resolver z.

(** What is published for a domain: one valid record, or none that counts. *)
Inductive published (d : gostring) : option DMARCRecord -> Prop :=
  | Pub_one txt s r : zone_txt z ("_dmarc." ++ d) = Ok txt -> filter (fun r => isDMARCRecord r = true) txt = [s] ->
  parseDMARCRecord s = Some r -> published d (Some r)
  | Pub_bad txt s : zone_txt z ("_dmarc." ++ d) = Ok txt -> filter (fun r => isDMARCRecord r = true) txt = [s] ->
  parseDMARCRecord s = None -> published d None
  | Pub_none txt : zone_txt z ("_dmarc." ++ d) = Ok txt -> filter (fun r => isDMARCRecord r = true) txt = [] -> published d None
  | Pub_missing e : zone_txt z ("_dmarc." ++ d) = Err e -> isTemporaryError e = false -> published d None.

(** The record that governs a domain, and whether it is that of the organization. *)
Inductive governs (d : gostring) : DMARCRecord -> bool -> Prop :=
  | Gov_own r : published d (Some r) -> governs d r false
  | Gov_org org r : published d None -> EffectiveTLDPlusOne (ToLower d) = Some org -> EqualFold org d = false ->
  published org (Some r) -> governs d r true.

(** SPF or some signature passed for a domain that is aligned. *)
Definition aligned_pass (d : gostring) (r : DMARCRecord) (spfResult : SPFResult) (spfDomain : gostring) (sigs : list DKIMSignatureResult) : Prop :=
  (spfResult = SPFPass /\ checkAlignment spfDomain d (AlignmentSPF r) = true) \/
  exists sg, sg ∈ sigs /\ sr_result sg = DKIMPass /\ checkAlignment (sr_domain sg) d (AlignmentDKIM r) = true.

Definition in_sample (r : DMARCRecord) (key : gostring) : Prop := 100 <= Percentage r \/ shouldApplyPolicy (Percentage r) key = true.

Lemma policyRecord_zone d st : dmarc_cache_get now d (ev_cache st) = None ->
  match fst (policyRecord now pick d st) with
  | Some (TheRecord r) => published d (Some r)
  | Some NoRecord => published d None
  | _ => forall o, ~ published d o
  end.
Proof.
  intros Hc. unfold policyRecord, lookupDMARC. rewrite Hc. cbn [LookupTXT zone_resolver zone_answers].
  destruct (zone_txt z _) as [txt | e] eqn:Et.
  - destruct (filter _ txt) as [| s [| s' rest]] eqn:Ef; cbn.
    + by eapply Pub_none.
    + destruct (parseDMARCRecord s) as [r |] eqn:Ep; cbn; [by eapply Pub_one | by eapply Pub_bad].
    + intros o H. inversion H; congruence.
  - cbn. destruct (isTemporaryError e) eqn:Ee; cbn; [intros o H; inversion H; congruence | by eapply Pub_missing].
Qed.

Lemma published_fun d o o' : published d o -> published d o' -> o = o'.
Proof. intros H H'. inversion H; inversion H'; congruence. Qed.

Lemma governs_fun d r b r' b' : governs d r b -> governs d r' b' -> r = r' /\ b = b'.
Proof.
  intros H H'. inversion H as [? P1 | ? ? P1 E1 F1 P2]; inversion H' as [? Q1 | ? ? Q1 E2 F2 Q2]; subst.
  - pose proof (published_fun _ _ _ P1 Q1). by simplify_eq.
  - pose proof (published_fun _ _ _ P1 Q1). by simplify_eq.
  - pose proof (published_fun _ _ _ P1 Q1). by simplify_eq.
  - simplify_eq. pose proof (published_fun _ _ _ P2 Q2). by simplify_eq.
Qed.

Lemma parse_version s r : parseDMARCRecord s = Some r -> Version r = ("DMARC1" : gostring).
Proof.
  unfold parseDMARCRecord. cbn zeta. case_bool_decide as Ev; cbn [negb]; [| done]. destruct (_ && _); [done |]. intros [= <-]. exact Ev.
Qed.

Lemma governs_version d r b : governs d r b -> Version r = ("DMARC1" : gostring).
Proof. intros [? H | ? ? ? ? ? H]; inversion H; by eapply parse_version. Qed.

Lemma aligned_bool d r spfResult spfDomain sigs :
  bool_decide (spfResult = SPFPass) && checkAlignment spfDomain d (AlignmentSPF r) ||
  existsb (fun sg => bool_decide (sr_result sg = DKIMPass) && checkAlignment (sr_domain sg) d (AlignmentDKIM r)) sigs = true <->
  aligned_pass d r spfResult spfDomain sigs.
Proof.
  unfold aligned_pass. rewrite orb_true_iff, andb_true_iff, bool_decide_eq_true, existsb_exists. split.
  - intros [H | (sg & Hin & H)]; [by left | right]. apply andb_true_iff in H as [H1 H2]. apply bool_decide_eq_true in H1. exists sg.
    split_and!; [by apply list_elem_of_In | done | done].
  - intros [H | (sg & Hin & H1 & H2)]; [by left | right]. exists sg. split; [by apply list_elem_of_In |]. by rewrite H1, H2.
Qed.

(** The evaluation of a message against a record. *)
Lemma evaluate_reject d key spfResult spfDomain sigs r org : Version r = ("DMARC1" : gostring) ->
  AppliedPolicy (evaluateWithRecord domainExists d key spfResult spfDomain sigs (Some r) org) = DMARCPolicyReject <->
  ~ aligned_pass d r spfResult spfDomain sigs /\ policy_to_apply domainExists r org d = DMARCPolicyReject /\ in_sample r (d ++ "|" ++ key).
Proof.
  intros Hv. unfold evaluateWithRecord. rewrite bool_decide_true by done. cbn [negb]. rewrite <- aligned_bool.
  set (sp := bool_decide (spfResult = SPFPass) && _). set (dk := existsb _ sigs).
  destruct (sp || dk); cbn [AppliedPolicy]; [split; [discriminate | by intros [H _]; destruct H] |].
  set (p := policy_to_apply domainExists r org d). unfold in_sample.
  assert (Hlow : lower_policy p <> DMARCPolicyReject) by (unfold lower_policy; case_bool_decide; discriminate).
  destruct (Z.ltb_spec (Percentage r) 100); cbn [AppliedPolicy].
  - destruct (shouldApplyPolicy _ _) eqn:Es; cbn [negb AppliedPolicy].
    + split; [intros E; split_and!; [done | done | by right] | by intros (_ & ? & _)].
    + split; [done |]. intros (_ & _ & [H2 | H2]); [lia | congruence].
  - split; [intros E; split_and!; [done | done | left; lia] | by intros (_ & ? & _)].
Qed.

Lemma no_policy_reject res p d x : AppliedPolicy (no_policy res p d x) <> DMARCPolicyReject.
Proof. discriminate. Qed.

Lemma no_record_reject d key spfResult spfDomain sigs org :
  AppliedPolicy (evaluateWithRecord domainExists d key spfResult spfDomain sigs None org) <> DMARCPolicyReject.
Proof. discriminate. Qed.

(** After a domain was found to have no record, the cache says nothing of another. *)
Lemma cache_after_none d org asked : org <> d ->
  dmarc_cache_get now org (ev_cache (snd (policyRecord now pick d {| ev_asked := asked; ev_cache := ∅ |}))) = None.
Proof.
  intros Hne. unfold policyRecord, dmarc_cache_get at 2. cbn [ev_cache]. rewrite lookup_empty.
  destruct (lookupDMARC d _) as [res st] eqn:El. assert (Ec : ev_cache st = ∅) by by injection El as _ <-.
  assert (Hs : forall p, dmarc_cache_get now org (dmarc_cache_set now pick d p (ev_cache st)) = None).
  { intros p. rewrite Ec. unfold dmarc_cache_get, dmarc_cache_set. rewrite map_size_empty. change (dmarc_maxSize <=? Z.of_nat 0) with false.
    cbn iota. by rewrite lookup_insert_ne, lookup_empty by done. }
  assert (He : dmarc_cache_get now org (ev_cache st) = None) by (rewrite Ec; unfold dmarc_cache_get; by rewrite lookup_empty).
  destruct res as [r | e]; cbn [snd ev_cache]; [apply Hs |]. destruct (dmarc_temporary e); [exact He |]. destruct e; apply Hs.
Qed.

(** An answer that was stored is the answer of the next search. *)
Lemma policyRecord_again d st st' p : dmarc_cache_get now d (ev_cache st) = None -> policyRecord now pick d st = (Some p, st') ->
  policyRecord now pick d st' = (Some p, st').
Proof.
  intros H0. unfold policyRecord. rewrite H0. destruct (lookupDMARC d st) as [res st1].
  assert (Hs : forall q, dmarc_cache_get now d (dmarc_cache_set now pick d q (ev_cache st1)) = Some q).
  { intros q. unfold dmarc_cache_get, dmarc_cache_set. rewrite lookup_insert_eq. cbn [dm_expiresAt cached]. rewrite (proj2 (Z.ltb_ge _ _)); [done |]. unfold dmarc_ttl, minute, second. lia. }
  assert (Hgo : forall q, (Some q, {| ev_asked := ev_asked st1; ev_cache := dmarc_cache_set now pick d q (ev_cache st1) |}) = (Some p, st') ->
    dmarc_cache_get now d (ev_cache st') = Some p) by (intros q [= <- <-]; apply Hs).
  intros H. assert (E : dmarc_cache_get now d (ev_cache st') = Some p); [| by rewrite E].
  destruct res as [r | e]; [by apply (Hgo (TheRecord r)) |]. destruct (dmarc_temporary e); [done |]. destruct e; by eapply Hgo.
Qed.

Lemma EvaluateSignatures_reject d key spfResult spfDomain sigs :
  let full := if bool_decide (key = []) then spfDomain ++ concat (map (fun sg => "|" ++ sr_domain sg) sigs) else key in
  AppliedPolicy (fst (EvaluateSignatures domainExists now pick d key spfResult spfDomain sigs {| ev_asked := []; ev_cache := ∅ |})) = DMARCPolicyReject <->
  exists r org, governs d r org /\ ~ aligned_pass d r spfResult spfDomain sigs /\
  policy_to_apply domainExists r org d = DMARCPolicyReject /\ in_sample r (d ++ "|" ++ full).
Proof.
  intros full. set (st0 := {| ev_asked := []; ev_cache := ∅ |}). unfold EvaluateSignatures. fold full.
  assert (H0 : dmarc_cache_get now d (ev_cache st0) = None) by (unfold dmarc_cache_get; cbn; by rewrite lookup_empty).
  pose proof (policyRecord_zone d st0 H0) as Hd.
  (* one direction is the evaluation of the record that governs, the other has none *)
    assert (Hgov : forall r org, governs d r org ->
    AppliedPolicy (evaluateWithRecord domainExists d full spfResult spfDomain sigs (Some r) org) = DMARCPolicyReject <->
    exists r org, governs d r org /\ ~ aligned_pass d r spfResult spfDomain sigs /\ policy_to_apply domainExists r org d = DMARCPolicyReject /\ in_sample r (d ++ "|" ++ full)).
  { intros r org Hg. rewrite evaluate_reject by by eapply governs_version. split; [by eauto |].
    intros (r' & org' & Hg' & H). by destruct (governs_fun _ _ _ _ _ Hg Hg') as [<- <-]. }
  assert (Hno : forall e : DMARCEvaluation, AppliedPolicy e <> DMARCPolicyReject -> (forall r org, ~ governs d r org) ->
    AppliedPolicy e = DMARCPolicyReject <->
    exists r org, governs d r org /\ ~ aligned_pass d r spfResult spfDomain sigs /\ policy_to_apply domainExists r org d = DMARCPolicyReject /\ in_sample r (d ++ "|" ++ full)).
  { intros e He Hn. split; [done |]. intros (r & org & Hg & _). by destruct (Hn r org). }
  destruct (policyRecord now pick d st0) as [o st1] eqn:Ep. cbn [fst] in Hd. destruct o as [[| | r] |].
  - destruct (EffectiveTLDPlusOne (ToLower d)) as [org |] eqn:Eo; cycle 1.
    { apply Hno; [discriminate |]. intros r' b Hg. inversion Hg as [? P1 | ? ? P1 E1 F1 P2]; [by pose proof (published_fun _ _ _ Hd P1) | congruence]. }
    destruct (EqualFold org d) eqn:Ef.
    { apply Hno; [discriminate |]. intros r' b Hg. inversion Hg as [? P1 | ? ? P1 E1 F1 P2]; [by pose proof (published_fun _ _ _ Hd P1) | congruence]. }
    destruct (decide (org = d)) as [-> | Hne].
    { (* the organization is the domain itself: the cached answer *)
        assert (Hno' : forall r b, ~ governs d r b).
      { intros r' b Hg. inversion Hg as [? P1 | ? ? P1 E1 F1 P2]; [by pose proof (published_fun _ _ _ Hd P1) |]. simplify_eq. by pose proof (published_fun _ _ _ Hd P2). }
      rewrite (policyRecord_again d st0 st1 NoRecord H0 Ep). apply Hno; [discriminate | done]. }
    pose proof (cache_after_none d org [] Hne) as Hc. fold st0 in Hc. rewrite Ep in Hc. cbn [snd] in Hc. pose proof (policyRecord_zone org st1 Hc) as Ho.
    assert (Hn : (forall r, ~ published org (Some r)) -> forall r b, ~ governs d r b).
    { intros Hp r' b Hg. inversion Hg as [? P1 | ? ? P1 E1 F1 P2]; [by pose proof (published_fun _ _ _ Hd P1) |]. simplify_eq. by apply (Hp r'). }
    destruct (policyRecord now pick org st1) as [[[| | r'] |] st2]; cbn [fst] in Ho |- *.
    + apply Hno; [discriminate |]. apply Hn. intros r' Hp. by pose proof (published_fun _ _ _ Ho Hp).
    + apply Hno; [discriminate |]. apply Hn. intros r'. apply Ho.
    + apply Hgov. by eapply Gov_org.
    + apply Hno; [discriminate |]. apply Hn. intros r'. apply Ho.
  - apply Hno; [discriminate |]. intros r b Hg. inversion Hg as [? P1 | ? ? P1]; by eapply Hd.
  - apply Hgov. by apply Gov_own.
  - apply Hno; [discriminate |]. intros r b Hg. inversion Hg as [? P1 | ? ? P1]; by eapply Hd.
Qed.

(** the DMARC stage, with nothing cached, refuses a message exactly when it has
    several From fields, or when a record governs the domain of its author (its own,
    or that of its organization), neither SPF nor the signature passed for an aligned
    domain, the policy that applies is reject and the message is in the sample. *)
Theorem dmarc_stage_rejects_iff ctx :
  let froms := fromHeaderValues (CHeaders ctx) in
  let d := author_domain ctx froms in
  let sigs := [{| sr_result := mapDKIMResult (CDKIM ctx); sr_domain := dkim_Domain (CDKIM ctx) |}] in
  fst (fst (AuthDMARCStage now domainExists pick ctx ∅)) = ResultReject <->
  (1 < length froms)%nat \/ d <> [] /\ exists r org, governs d r org /\
  ~ aligned_pass d r (mapSPFResult (spf_Result (CSPF ctx))) (spf_Domain (CSPF ctx)) sigs /\
  policy_to_apply domainExists r org d = DMARCPolicyReject /\
  in_sample r (d ++ "|" ++ spf_Domain (CSPF ctx) ++ "|" ++ dkim_Domain (CDKIM ctx)).
Proof.
  intros froms d sigs. unfold AuthDMARCStage. fold froms. destruct (Nat.ltb_spec 1 (length froms)) as [Hf | Hf].
  { cbn [fst]. split; [by left | done]. }
  fold d. case_bool_decide as Hd; [cbn [fst]; split; [done | intros [? | [? _]]; [lia | done]] |].
  pose proof (EvaluateSignatures_reject d [] (mapSPFResult (spf_Result (CSPF ctx))) (spf_Domain (CSPF ctx)) sigs) as H.
  rewrite bool_decide_true in H by done. cbn [map concat sr_domain sigs] in H. cbn zeta in H. rewrite app_nil_r in H.
  unfold Evaluate. fold sigs. destruct (EvaluateSignatures _ _ _ _ _ _ _ _ _) as [ev st]. cbn [fst] in H.
  case_bool_decide as Ep; cbn [fst].
  - split; [| done]. intros _. right. split; [done |]. by apply H.
  - split; [done |]. intros [? | [_ Hx]]; [lia |]. by apply H in Hx.
Qed.

(** Records are well formed: whatever is published, a record that is used has one of
    the three policies, alignment modes that exist, and a percentage. *)
Theorem parsed_record_ok s r : parseDMARCRecord s = Some r ->
  is_policy (Policy r) = true /\ (SubdomainPolicy r = [] \/ is_policy (SubdomainPolicy r) = true) /\
  (NonExistentPolicy r = [] \/ is_policy (NonExistentPolicy r) = true) /\ is_mode (AlignmentDKIM r) = true /\
  is_mode (AlignmentSPF r) = true /\ 0 <= Percentage r <= 100 /\ 0 < ReportInterval r.
Proof.
  assert (Hn : forall (o : option gostring) dflt lo hi, lo <= dflt <= hi ->
    lo <= match o with Some v => match Atoi v with Ok n => if (lo <=? n) && (n <=? hi) then n else dflt | Err _ => dflt end | None => dflt end <= hi).
  { intros [v |] dflt lo hi H; [| done]. destruct (Atoi v) as [n | e]; [| done]. destruct (_ && _) eqn:E; [| done]. breflect. lia. }
  unfold parseDMARCRecord. cbn zeta. destruct (negb _); [done |]. destruct (_ && _); [done |]. intros [= <-].
  cbn [Policy SubdomainPolicy NonExistentPolicy AlignmentDKIM AlignmentSPF Percentage ReportInterval]. split_and!.
  - match goal with |- is_policy (if is_policy ?p then _ else _) = true => by destruct (is_policy p) eqn:E end.
  - match goal with |- context [if is_policy ?p then _ else _] => destruct (is_policy p) eqn:E; [by right | by left] end.
  - match goal with |- context [if is_policy ?p then _ else _] => destruct (is_policy p) eqn:E; [by right | by left] end.
  - match goal with |- is_mode (if is_mode ?p then _ else _) = true => by destruct (is_mode p) eqn:E end.
  - match goal with |- is_mode (if is_mode ?p then _ else _) = true => by destruct (is_mode p) eqn:E end.
  - apply (Hn _ 100 0 100). lia.
  - apply (Hn _ 100 0 100). lia.
  - apply (Z.lt_le_trans _ 1); [lia |]. apply (Hn _ 86400 1 max_int64). unfold max_int64. lia.
Qed.
End DmarcReading.
