(* ===== verification/Arc.v ===== *)
(** * internal/auth: ARC

    arc.go: the chain of seals that forwarders add to a message (RFC 8617), its
    validation and the seal of this server; and the stage that validates a chain
    (smtp/auth_pipeline.go).  Tag lists, canonical forms, keys and signatures are
    those of Dkim.v.  [order n] is the order in which the n-th loop over the fields
    walks the map: Go chooses it anew for every loop.  [asked] are the questions to
    the resolver so far; its answers may depend on them.  Error texts are kept where
    [isTemporaryError] reads them. *)
From S2P Require Import Prelude GoLib Utf8 Base64 Scram Spf Dkim.

Definition arcMaxInstance : Z := 50.
Definition arcSignedHeaderCandidates : list gostring :=
  [("from" : gostring); ("to" : gostring); ("cc" : gostring); ("subject" : gostring); ("date" : gostring); ("message-id" : gostring); ("in-reply-to" : gostring);
   ("references" : gostring); ("mime-version" : gostring); ("content-type" : gostring); ("content-transfer-encoding" : gostring);
   ("list-id" : gostring); ("reply-to" : gostring); ("sender" : gostring); ("dkim-signature" : gostring)].

Record ARCSet := {
  Instance : Z; AAR : gostring; AMS : gostring; AS : gostring; Validated : bool; MessageSignatureValid : bool; SealSignatureValid : bool }.
Record ARCChain := {
  Sets : list ARCSet; ChainValid : bool; ChainLength : Z; CV : gostring; SealDomain : gostring; SealSelector : gostring }.
Record headerEntry := { Name : gostring; Value : gostring }.
#[export] Instance headerEntry_eq_dec : EqDecision headerEntry.
Proof. solve_decision. Defined.

Definition empty_set : ARCSet := {| Instance := 0; AAR := []; AMS := []; AS := []; Validated := false; MessageSignatureValid := false; SealSignatureValid := false |}.
Definition with_instance (i : Z) (s : ARCSet) : ARCSet := {|
  Instance := i; AAR := AAR s; AMS := AMS s; AS := AS s; Validated := Validated s; MessageSignatureValid := MessageSignatureValid s; SealSignatureValid := SealSignatureValid s |}.
Definition with_verdicts (validated ams as_ : bool) (s : ARCSet) : ARCSet := {|
  Instance := Instance s; AAR := AAR s; AMS := AMS s; AS := AS s; Validated := validated; MessageSignatureValid := ams; SealSignatureValid := as_ |}.

Definition aar_name : gostring := "arc-authentication-results".
Definition ams_name : gostring := "arc-message-signature".
Definition as_name : gostring := "arc-seal".
Definition arc_names : list gostring := [aar_name; ams_name; as_name].

(** The leading i= tag, or 0. *)
Definition extractInstance (header : gostring) : Z :=
  let h := TrimSpace header in
  if negb (HasPrefix h "i") then 0 else
  let rest := TrimSpace (drop 1 h) in
  if negb (HasPrefix rest "=") then 0 else
  let rest := drop 1 rest in
  match Index rest ";" with
  | None => 0
  | Some end_ => match Atoi (TrimSpace (take end_ rest)) with Ok n => if n <? 1 then 0 else n | Err _ => 0 end
  end.

(** One set after a field of it was seen. *)
Definition put_field (h : headerEntry) (s : ARCSet) : ARCSet :=
  let s := with_instance (extractInstance (Value h)) s in
  if Name h =s? aar_name then {| Instance := Instance s; AAR := Value h; AMS := AMS s; AS := AS s; Validated := Validated s; MessageSignatureValid := MessageSignatureValid s; SealSignatureValid := SealSignatureValid s |}
  else if Name h =s? ams_name then {| Instance := Instance s; AAR := AAR s; AMS := Value h; AS := AS s; Validated := Validated s; MessageSignatureValid := MessageSignatureValid s; SealSignatureValid := SealSignatureValid s |}
  else if Name h =s? as_name then {| Instance := Instance s; AAR := AAR s; AMS := AMS s; AS := Value h; Validated := Validated s; MessageSignatureValid := MessageSignatureValid s; SealSignatureValid := SealSignatureValid s |}
  else s.
Definition group_step (sets : gmap Z ARCSet) (h : headerEntry) : gmap Z ARCSet :=
  let i := extractInstance (Value h) in
  if i =? 0 then sets else <[i := put_field h (default empty_set (sets !! i))]> sets.
Definition groupARCHeaders (headers : list headerEntry) : gmap Z ARCSet := foldl group_step ∅ headers.

(** How many fields of each name every instance has. *)
Definition counts_step (c : gmap Z (nat * nat * nat)) (h : headerEntry) : gmap Z (nat * nat * nat) :=
  let i := extractInstance (Value h) in
  let '(aar, ams, as_) := default (0, 0, 0)%nat (c !! i) in
  <[i := if Name h =s? aar_name then (S aar, ams, as_) else if Name h =s? ams_name then (aar, S ams, as_) else if Name h =s? as_name then (aar, ams, S as_) else (aar, ams, as_)]> c.
Definition arcStructureValid (all : list headerEntry) (sets : gmap Z ARCSet) : bool :=
  forallb (fun h => negb (extractInstance (Value h) =? 0)) all &&
  forallb (fun kv => let '(aar, ams, as_) := snd kv in Nat.eqb aar 1 && Nat.eqb ams 1 && Nat.eqb as_ 1 && bool_decide (is_Some (sets !! fst kv)))
    (map_to_list (foldl counts_step ∅ all)).

(** The value with an emptied b= tag. *)
Definition strip_tag (p : gostring) : gostring :=
  let trimmed := TrimSpace p in
  match Index trimmed "=" with
  | Some (S _ as i) =>
      if TrimSpace (take i trimmed) =s? "b"
      then take (length p - length (TrimLeft p [" "%char; TAB; byte_of 13; byte_of 10])) p ++ "b=" else p
  | _ => p
  end.
Definition arcStripB (value : gostring) : gostring := Join (map strip_tag (Split value ";")) ";".

Definition arcCanons (c : gostring) : gostring * gostring :=
  if bool_decide (c = []) then ("simple" : gostring, "simple" : gostring) else
  let '(h, b) := match Index c "/" with Some i => (take i c, drop (S i) c) | None => (c, "simple" : gostring) end in
  (if h =s? "relaxed" then h else "simple" : gostring, if b =s? "relaxed" then b else "simple" : gostring).

Definition tag (params : gmap gostring gostring) (t : gostring) : gostring := default [] (params !! t).
Definition extractSealInfo (as_ : gostring) : gostring * gostring := let params := parseTagValueList as_ in (tag params "d", tag params "s").

Section Arc.
Context {U : UnicodeTables} {C : Crypto} {K : KeyFormats} {R : DNSResolver}.
Context (order : nat -> headerMap -> list (gostring * list gostring)) (resolver : bool).

Definition extractARCHeaders (walk : list (gostring * list gostring)) : list headerEntry :=
  concat (map (fun kv => let lowerName := ToLower (fst kv) in
    if (lowerName =s? aar_name) || (lowerName =s? ams_name) || (lowerName =s? as_name)
    then map (fun v => {| Name := lowerName; Value := v |}) (snd kv) else []) walk).

Definition determineNextInstance (walk : list (gostring * list gostring)) : Z :=
  wrap_i64 (foldl (fun m h => let inst := extractInstance (Value h) in if m <? inst then inst else m) 0 (extractARCHeaders walk) + 1).

Definition determineCV (walk : list (gostring * list gostring)) : gostring :=
  let '(_, cv) := foldl (fun (acc : Z * gostring) h =>
    if negb (Name h =s? as_name) then acc else
    let inst := extractInstance (Value h) in
    if fst acc <? inst then (inst, tag (parseTagValueList (Value h)) "cv") else acc) (0, []) (extractARCHeaders walk) in
  if bool_decide (cv = []) then "none" else cv.

(** ** What is hashed *)
Definition arcFieldForHash (name value canon : gostring) : gostring := TrimSuffix (canonicalizeHeader name value canon) CRLF.
Definition arcAMSInput (iter : headerMap -> list (gostring * list gostring)) (ams : gostring) (headers : headerMap) (signed : list gostring) (hc : gostring) : gostring :=
  let list := List.filter (fun l => negb (bool_decide (l = []) || HasPrefix l "arc-")) (map (fun h => ToLower (TrimSpace h)) signed) in
  canonicalizeHeaders iter headers list hc ++ arcFieldForHash "ARC-Message-Signature" (arcStripB ams) hc.

Definition seal_fields (aar ams : gostring) : gostring :=
  canonicalizeHeaderRelaxed "ARC-Authentication-Results" aar ++ canonicalizeHeaderRelaxed "ARC-Message-Signature" ams.
Definition set_fields (set : ARCSet) : gostring := seal_fields (AAR set) (AMS set) ++ canonicalizeHeaderRelaxed "ARC-Seal" (AS set).
Definition arcSealInput (sets : gmap Z ARCSet) (aar ams as_ : gostring) (instance : Z) : gostring :=
  concat (map (fun k => set_fields (default empty_set (sets !! k))) (seqZ 1 (instance - 1)))
  ++ seal_fields aar ams ++ arcFieldForHash "ARC-Seal" (arcStripB as_) "relaxed".

Definition computeBodyHash (body canon : gostring) : gostring := sha256Hash (canonicalizeBody body canon).

(** ** Keys *)
Definition rsa_key (record : gostring) : option RSAKey :=
  match parseDKIMPublicKey record with Some (KeyRSA k) => Some k | _ => None end.
Definition fetchARCPublicKeyCtx (domain selector : gostring) (asked : list Query) : result goerr RSAKey * list Query :=
  if negb resolver then (Err (OtherError "no DNS resolver configured"), asked) else
  let query := key_name selector domain in
  (match LookupTXT asked query with
  | Err e => Err e
  | Ok records => match omap rsa_key records with k :: _ => Ok k | [] => Err (OtherError "no valid ARC public key found") end
  end, asked ++ [QTXT query]).
Definition verifyRSASignature (k : RSAKey) (data signature : gostring) : bool := verify_signature (KeyRSA k) data signature.

(** ** Validation *)
Definition foreign_algorithm (params : gmap gostring gostring) : bool := negb (EqualFold (tag params "a") "rsa-sha256") && negb (bool_decide (tag params "a" = [])).
Definition incomplete (params : gmap gostring gostring) : bool :=
  bool_decide (tag params "b" = []) || bool_decide (tag params "d" = []) || bool_decide (tag params "s" = []).

Definition validateAMS (iter : headerMap -> list (gostring * list gostring)) (ams : gostring) (headers : headerMap) (body : gostring) (asked : list Query)
  : result goerr bool * list Query :=
  if bool_decide (ams = []) then (Ok false, asked) else
  let params := parseTagValueList ams in
  if incomplete params then (Ok false, asked)
  else if foreign_algorithm params then (Ok false, asked) else
  let '(hc, bc) := arcCanons (tag params "c") in
  if bool_decide (tag params "bh" = []) || negb (computeBodyHash body bc =s? tag params "bh") then (Ok false, asked) else
  match fetchARCPublicKeyCtx (tag params "d") (tag params "s") asked with
  | (Err e, asked) => (Err e, asked)
  | (Ok pubKey, asked) => (Ok (verifyRSASignature pubKey (arcAMSInput iter ams headers (parseHeaderList (tag params "h")) hc) (tag params "b")), asked)
  end.

Definition complete_set (s : option ARCSet) : bool :=
  match s with
  | Some s => negb (bool_decide (AAR s = [])) && negb (bool_decide (AMS s = [])) && negb (bool_decide (AS s = []))
  | None => false
  end.

Definition validateAS (walk : list (gostring * list gostring)) (as_ : gostring) (instance : Z) (asked : list Query) : result goerr bool * list Query :=
  if bool_decide (as_ = []) then (Ok false, asked) else
  let params := parseTagValueList as_ in
  if incomplete params then (Ok false, asked)
  else if foreign_algorithm params then (Ok false, asked)
  else if negb (extractInstance as_ =? instance) then (Ok false, asked) else
  let sets := groupARCHeaders (extractARCHeaders walk) in
  if negb (forallb (fun k => complete_set (sets !! k)) (seqZ 1 instance)) then (Ok false, asked) else
  match fetchARCPublicKeyCtx (tag params "d") (tag params "s") asked with
  | (Err e, asked) => (Err e, asked)
  | (Ok pubKey, asked) =>
      let cur := default empty_set (sets !! instance) in
      (Ok (verifyRSASignature pubKey (arcSealInput sets (AAR cur) (AMS cur) as_ instance) (tag params "b")), asked)
  end.

(** The cv= tag the seal of an instance must have. *)
Definition cv_ok (i : Z) (as_ : gostring) : bool :=
  let cv := ToLower (tag (parseTagValueList as_) "cv") in
  if i =? 1 then cv =s? "none" else if 1 <? i then cv =s? "pass" else true.

(** The loop over the instances; [base] numbers the walks. *)
Fixpoint validate_sets (base : nat) (sets : gmap Z ARCSet) (headers : headerMap) (body : gostring) (highest : Z) (instances : list Z) (chainOK : bool) (done : list ARCSet) (asked : list Query)
  : result goerr (bool * list ARCSet) * list Query :=
  match instances with
  | [] => (Ok (chainOK, done), asked)
  | i :: rest =>
      let arcSet := with_instance i (default empty_set (sets !! i)) in
      let '(ams, asked) := validateAMS (order base) (AMS arcSet) headers body asked in
      match (match ams with Err e => if (i =? highest) && isTemporaryError e then Some e else None | Ok _ => None end) with
      | Some e => (Err e, asked)
      | None =>
          let amsValid := match ams with Ok b => b | Err _ => false end in
          let '(seal, asked) := validateAS (order (S base) headers) (AS arcSet) i asked in
          match (match seal with Err e => if isTemporaryError e then Some e else None | Ok _ => None end) with
          | Some e => (Err e, asked)
          | None =>
              let asValid := match seal with Ok b => b | Err _ => false end in
              let arcSet := with_verdicts (asValid && (amsValid || negb (i =? highest))) amsValid asValid arcSet in
              validate_sets (2 + base) sets headers body highest rest
              (chainOK && negb (negb asValid || (i =? highest) && negb amsValid) && cv_ok i (AS arcSet)) (done ++ [arcSet]) asked
          end
      end
  end.

Definition sorted_instances (sets : gmap Z ARCSet) : list Z := merge_sort Z.le (map fst (map_to_list sets)).
Definition in_sequence (instances : list Z) : bool :=
  forallb (fun p => let '(idx, i) := p in (i =? Z.of_nat idx + 1) && (i <=? arcMaxInstance)) (imap pair instances).

Definition failed_chain (sets : list ARCSet) (len : Z) : ARCChain := {| Sets := sets; ChainValid := false; ChainLength := len; CV := "fail"; SealDomain := []; SealSelector := [] |}.

Definition arc_Validate (base : nat) (headers : headerMap) (body : gostring) (asked : list Query) : result goerr ARCChain * list Query :=
  match extractARCHeaders (order base headers) with
  | [] => (Ok {| Sets := []; ChainValid := false; ChainLength := 0; CV := "none"; SealDomain := []; SealSelector := [] |}, asked)
  | arcHeaders =>
      let arcSets := groupARCHeaders arcHeaders in
      let len := Z.of_nat (size arcSets) in
      let instances := sorted_instances arcSets in
      let highest := List.last instances 0 in
      if negb (arcStructureValid arcHeaders arcSets && (Z.of_nat (length instances) <=? arcMaxInstance) && in_sequence instances) then
      (Ok (failed_chain (map (fun i => with_instance i (default empty_set (arcSets !! i))) instances) len), asked)
      else match validate_sets (S base) arcSets headers body highest instances true [] asked with
      | (Err e, asked) => (Err e, asked)
      | (Ok (chainOK, sets), asked) =>
          (Ok (if chainOK then
            let '(d, s) := extractSealInfo (AS (List.last sets empty_set)) in
            {| Sets := sets; ChainValid := true; ChainLength := len; CV := "pass"; SealDomain := d; SealSelector := s |}
            else failed_chain sets len), asked)
      end
  end.

(** ** Sealing *)
(** The key signs a digest; there may be none. *)
Record ARCSigner := { privateKey : option (gostring -> option gostring); s_domain : gostring; s_selector : gostring }.

Definition signRSA (key : gostring -> option gostring) (data : gostring) : option gostring := encode StdEncoding <$> key (sha256 data).

Definition arcSignedHeaders (walk : list (gostring * list gostring)) : list gostring :=
  let present := map (fun kv => ToLower (fst kv)) (List.filter (fun kv => negb (bool_decide (snd kv = []))) walk) in
  List.filter (fun h => existsb (fun p => p =s? h) present) arcSignedHeaderCandidates.

Definition ams_text (s : ARCSigner) (instance unix : Z) (signed : list gostring) (bodyHash : gostring) : gostring :=
  "i=" ++ FormatUint instance ++ "; a=rsa-sha256; c=relaxed/relaxed; d=" ++ s_domain s ++ "; s=" ++ s_selector s ++ "; t=" ++ FormatUint unix
  ++ "; h=" ++ Join signed ":" ++ "; bh=" ++ bodyHash ++ "; b=".
Definition createAMS (s : ARCSigner) (key : gostring -> option gostring) (unix : Z) (headers : headerMap) (body : gostring) (instance : Z) : option gostring :=
  let signed := arcSignedHeaders (order 3 headers) in
  let ams := ams_text s instance unix signed (computeBodyHash body "relaxed") in
  (fun signature => ams ++ signature) <$> signRSA key (arcAMSInput (order 4) ams headers signed "relaxed").

Definition as_text (s : ARCSigner) (instance unix : Z) (cv : gostring) : gostring :=
  "i=" ++ FormatUint instance ++ "; a=rsa-sha256; t=" ++ FormatUint unix ++ "; cv=" ++ cv ++ "; d=" ++ s_domain s ++ "; s=" ++ s_selector s ++ "; b=".
Definition createASWith (s : ARCSigner) (key : gostring -> option gostring) (unix : Z) (headers : headerMap) (aar ams cv : gostring) (instance : Z) : option gostring :=
  let as_ := as_text s instance unix cv in
  let sets := groupARCHeaders (extractARCHeaders (order 5 headers)) in
  (fun signature => as_ ++ signature) <$> signRSA key (arcSealInput sets aar ams as_ instance).

Definition chainCVForSigning (headers : headerMap) (body : gostring) (asked : list Query) : option gostring * list Query :=
  match extractARCHeaders (order 2 headers) with
  | [] => (Some ("none" : gostring), asked)
  | _ =>
      if negb resolver then (Some ("fail" : gostring), asked) else
      match arc_Validate 6 headers body asked with
      | (Err _, asked) => (None, asked)
      | (Ok chain, asked) => (Some (if CV chain =s? "pass" then ("pass" : gostring) else "fail"), asked)
      end
  end.

Definition space_line_ends (s : gostring) : gostring := map (fun c => if (bz c =? 13) || (bz c =? 10) then " "%char else c) s.

(** [unix] is the clock for the message signature, [unix'] for the seal. *)
Definition signWithCV (s : ARCSigner) (unix unix' : Z) (headers : headerMap) (body authResults : gostring) (instance : Z) (cv : gostring) (asked : list Query)
  : option ARCSet * list Query :=
  match privateKey s with
  | None => (None, asked)
  | Some key =>
      if (instance <? 1) || (arcMaxInstance <? instance) then (None, asked)
      else if negb (instance =? determineNextInstance (order 1 headers)) then (None, asked) else
      let '(cv, asked) :=
      if bool_decide (cv = []) then chainCVForSigning headers body asked
      else (if (cv =s? "none") || (cv =s? "pass") || (cv =s? "fail") then Some cv else None, asked) in
      (cv ← cv;
        let aar := "i=" ++ FormatUint instance ++ "; " ++ TrimSpace (space_line_ends authResults) in
        ams ← createAMS s key unix headers body instance;
        as_ ← createASWith s key unix' headers aar ams cv instance;
        Some {| Instance := instance; AAR := aar; AMS := ams; AS := as_; Validated := false; MessageSignatureValid := false; SealSignatureValid := false |}, asked)
  end.
Definition arc_Sign (s : ARCSigner) (unix unix' : Z) (headers : headerMap) (body authResults : gostring) (instance : Z) (asked : list Query) : option ARCSet * list Query :=
  signWithCV s unix unix' headers body authResults instance [] asked.

Definition seal_map (set : ARCSet) : headerMap :=
  <["ARC-Authentication-Results" : gostring := [AAR set]]> (<["ARC-Message-Signature" : gostring := [AMS set]]> {["ARC-Seal" : gostring := [AS set]]}).
Definition SealWithCV (s : ARCSigner) (unix unix' : Z) (headers : headerMap) (body authResults cv : gostring) (asked : list Query) : option headerMap * list Query :=
  let instance := determineNextInstance (order 0 headers) in
  let '(set, asked) := signWithCV s unix unix' headers body authResults instance cv asked in
  ((fun set => union_with (fun new old => Some (new ++ old)) (seal_map set) headers) <$> set, asked).
Definition Seal (s : ARCSigner) (unix unix' : Z) (headers : headerMap) (body authResults : gostring) (asked : list Query) : option headerMap * list Query :=
  SealWithCV s unix unix' headers body authResults [] asked.

(** ** The stage *)
Record ARCOutcome := { o_Result : gostring; o_ChainValid : bool; o_ChainLength : Z; o_SealDomain : gostring; o_SealSelector : gostring }.
Definition AuthARCStage (headers : headerMap) (data : gostring) : ARCOutcome :=
  match fst (arc_Validate 0 headers data []) with
  | Err _ => {| o_Result := "temperror"; o_ChainValid := false; o_ChainLength := 0; o_SealDomain := []; o_SealSelector := [] |}
  | Ok c => {| o_Result := CV c; o_ChainValid := ChainValid c; o_ChainLength := ChainLength c; o_SealDomain := SealDomain c; o_SealSelector := SealSelector c |}
  end.
End Arc.
