(* ===== verification/ArcProps.v ===== *)
(** * Properties of ARC

    What a chain that passes is made of, what its validation costs at most, and that
    the seal of this server extends a valid chain to a valid chain and never makes a
    broken chain valid. *)
From S2P Require Import Prelude GoLib Utf8 Base64 Scram Spf Dkim DkimProps Arc.

(** ** The sets of a list of fields *)
Definition inst (h : headerEntry) : Z := extractInstance (Value h).
Definition field_values (name : gostring) (k : Z) (l : list headerEntry) : list gostring := map Value (filter (fun h => Name h = name /\ inst h = k) l).
Definition set_of (k : Z) (l : list headerEntry) : ARCSet := {|
  Instance := k; AAR := List.last (field_values aar_name k l) []; AMS := List.last (field_values ams_name k l) []; AS := List.last (field_values as_name k l) [];
  Validated := false; MessageSignatureValid := false; SealSignatureValid := false |}.
Definition has_instance (k : Z) (l : list headerEntry) : Prop := Exists (fun h => inst h = k) l.
#[export] Instance has_instance_dec k l : Decision (has_instance k l).
Proof. unfold has_instance. apply _. Defined.
Definition named (l : list headerEntry) : Prop := Forall (fun h => Name h ∈ arc_names) l.

Lemma field_values_snoc name k l h : field_values name k (l ++ [h]) = field_values name k l ++ (if decide (Name h = name /\ inst h = k) then [Value h] else []).
Proof. unfold field_values. rewrite filter_app, map_app. f_equal. rewrite filter_cons, filter_nil. by destruct (decide _). Qed.
Lemma field_values_perm name k l l' : l ≡ₚ l' -> field_values name k l ≡ₚ field_values name k l'.
Proof. intros H. unfold field_values. apply Permutation_map. by rewrite H. Qed.
Lemma field_values_app name k l l' : field_values name k (l ++ l') = field_values name k l ++ field_values name k l'.
Proof. unfold field_values. by rewrite filter_app, map_app. Qed.
Lemma field_values_none name k l : ~ has_instance k l -> field_values name k l = [].
Proof.
  intros H. unfold field_values. induction l as [| h l IH]; [done |].
  rewrite filter_cons_False; [apply IH; intros Hx; apply H; by right |]. intros [_ Hi]. apply H. by left.
Qed.

Lemma has_instance_snoc k l h : has_instance k (l ++ [h]) <-> has_instance k l \/ inst h = k.
Proof. unfold has_instance. rewrite Exists_app, Exists_cons, Exists_nil. tauto. Qed.

Lemma field_values_same name l h : Name h = name -> field_values name (inst h) (l ++ [h]) = field_values name (inst h) l ++ [Value h].
Proof. intros H. by rewrite field_values_snoc, decide_True. Qed.
Lemma field_values_other name k l h : Name h <> name -> field_values name k (l ++ [h]) = field_values name k l.
Proof. intros H. rewrite field_values_snoc, decide_False, app_nil_r; [done |]. by intros [? _]. Qed.

Lemma put_field_set h l : Name h ∈ arc_names -> put_field h (set_of (inst h) l) = set_of (inst h) (l ++ [h]).
Proof.
  intros Hn. assert (Hc : Name h = aar_name \/ Name h = ams_name \/ Name h = as_name).
  { apply list_elem_of_In in Hn. cbn in Hn. naive_solver. }
  unfold put_field, set_of. fold (inst h). destruct Hc as [Hc | [Hc | Hc]]; rewrite (field_values_same _ l h Hc), last_last;
    rewrite !field_values_other by (rewrite Hc; discriminate); rewrite Hc; reflexivity.
Qed.

Lemma group_lookup l k : named l -> groupARCHeaders l !! k = if decide (k <> 0 /\ has_instance k l) then Some (set_of k l) else None.
Proof.
  induction l as [| h l IH] using rev_ind; intros Hn.
  { unfold groupARCHeaders. cbn [foldl]. rewrite lookup_empty, decide_False; [done |]. intros [_ H]. by apply Exists_nil in H. }
  apply Forall_app in Hn as [Hn Hh]. apply Forall_cons in Hh as [Hh _]. specialize (IH Hn).
  unfold groupARCHeaders. rewrite foldl_app. cbn [foldl]. fold (groupARCHeaders l). unfold group_step. fold (inst h).
  destruct (Z.eqb_spec (inst h) 0) as [E0 | E0].
  - rewrite IH. assert (Hset : k <> 0 -> set_of k (l ++ [h]) = set_of k l).
    { intros Hk. unfold set_of. rewrite !field_values_snoc, !decide_False, !app_nil_r by (intros [_ ?]; congruence). done. }
    destruct (decide (k <> 0 /\ has_instance k l)) as [[Hk Hi] | Hno].
    + rewrite decide_True by (split; [done | apply has_instance_snoc; by left]). by rewrite Hset.
    + rewrite decide_False; [done |]. rewrite has_instance_snoc. intros [Hk [Hi | Hi]]; [by apply Hno | congruence].
  - destruct (decide (k = inst h)) as [-> | Hk].
    + rewrite lookup_insert_eq, decide_True by (split; [done | apply has_instance_snoc; by right]). f_equal. rewrite IH.
      destruct (decide _) as [Hd | Hd]; [cbn [default]; by apply put_field_set |]. rewrite <- put_field_set by done. cbn [default].
      assert (Hno : ~ has_instance (inst h) l) by tauto. unfold put_field, set_of. rewrite !field_values_none by done. reflexivity.
    + rewrite lookup_insert_ne, IH by done. assert (Hset : set_of k (l ++ [h]) = set_of k l).
      { unfold set_of. rewrite !field_values_snoc, !decide_False, !app_nil_r by (intros [_ ?]; congruence). done. }
      rewrite Hset. destruct (decide (k <> 0 /\ has_instance k l)) as [[H1 H2] | Hno].
      * rewrite decide_True; [done |]. split; [done |]. apply has_instance_snoc. by left.
      * rewrite decide_False; [done |]. rewrite has_instance_snoc. intros [H1 [H2 | H2]]; [by apply Hno | congruence].
Qed.

(** Every instance has exactly one field of each name, and every field an instance. *)
Definition well_formed (l : list headerEntry) : Prop :=
  forall h, h ∈ l -> inst h <> 0 /\ forall name, name ∈ arc_names -> length (field_values name (inst h) l) = 1%nat.

Definition counts_of (k : Z) (l : list headerEntry) : nat * nat * nat :=
  (length (field_values aar_name k l), length (field_values ams_name k l), length (field_values as_name k l)).
Lemma counts_lookup l k : named l -> foldl counts_step ∅ l !! k = if decide (has_instance k l) then Some (counts_of k l) else None.
Proof.
  induction l as [| h l IH] using rev_ind; intros Hn.
  { cbn [foldl]. rewrite lookup_empty, decide_False; [done |]. intros H. by apply Exists_nil in H. }
  apply Forall_app in Hn as [Hn Hh]. apply Forall_cons in Hh as [Hh _]. specialize (IH Hn). rewrite foldl_app. cbn [foldl].
  remember (foldl counts_step ∅ l) as c eqn:Ec. clear Ec. unfold counts_step. fold (inst h).
  assert (Hdef : default (0, 0, 0)%nat (c !! k) = counts_of k l).
  { rewrite IH. destruct (decide _) as [Hi | Hi]; [done |]. unfold counts_of. by rewrite !field_values_none. }
  destruct (decide (k = inst h)) as [-> | Hk].
  - rewrite Hdef. unfold counts_of at 1. rewrite lookup_insert_eq, decide_True by (apply has_instance_snoc; by right). f_equal.
    assert (Hc : Name h = aar_name \/ Name h = ams_name \/ Name h = as_name) by (apply list_elem_of_In in Hh; cbn in Hh; naive_solver).
    unfold counts_of. destruct Hc as [Hc | [Hc | Hc]]; rewrite (field_values_same _ l h Hc), length_app; cbn [length];
      rewrite !field_values_other by (rewrite Hc; discriminate); rewrite Hc, Nat.add_1_r; reflexivity.
  - destruct (default _ (c !! inst h)) as [[a b] d]. rewrite lookup_insert_ne, IH by done. assert (Hset : counts_of k (l ++ [h]) = counts_of k l).
    { unfold counts_of. rewrite !field_values_snoc, !decide_False, !app_nil_r by (intros [_ ?]; congruence). done. }
    rewrite Hset. destruct (decide (has_instance k l)) as [H1 | Hno].
    + rewrite decide_True; [done |]. apply has_instance_snoc. by left.
    + rewrite decide_False; [done |]. rewrite has_instance_snoc. intros [H2 | H2]; [by apply Hno | congruence].
Qed.

Lemma structure_spec l : named l -> arcStructureValid l (groupARCHeaders l) = true <-> well_formed l.
Proof.
  intros Hn. unfold arcStructureValid. rewrite andb_true_iff, !forallb_forall. split.
  - intros [Hz Hc] h Hh. apply list_elem_of_In in Hh as Hh'. specialize (Hz h Hh'). fold (inst h) in Hz. assert (H0 : inst h <> 0) by (intros E; by rewrite E in Hz).
    split; [done |]. assert (Hi : has_instance (inst h) l) by (apply Exists_exists; by exists h).
    assert (Hin : In (inst h, counts_of (inst h) l) (map_to_list (foldl counts_step ∅ l))).
    { apply list_elem_of_In, elem_of_map_to_list. rewrite counts_lookup, decide_True by done. done. }
    specialize (Hc _ Hin). cbn [fst snd] in Hc. unfold counts_of in Hc. breflect. intros name Hname. apply list_elem_of_In in Hname. cbn in Hname.
    destruct Hname as [<- | [<- | [<- | []]]]; done.
  - intros Hw. split.
    + intros h Hh. apply list_elem_of_In in Hh. apply negb_true_iff, Z.eqb_neq. by apply Hw.
    + intros [k c] Hin. apply list_elem_of_In, elem_of_map_to_list in Hin. rewrite counts_lookup in Hin by done. destruct (decide _) as [Hi | Hi]; [| done]. injection Hin as <-.
      apply Exists_exists in Hi as Hi'. destruct Hi' as (h & Hh & <-). destruct (Hw h Hh) as [H0 Hlen]. cbn [fst snd]. unfold counts_of.
      rewrite !Hlen by (apply list_elem_of_In; cbn; tauto). cbn [Nat.eqb andb]. apply bool_decide_eq_true. rewrite group_lookup, decide_True by done. by eexists.
Qed.

Lemma has_instance_perm k l l' : l ≡ₚ l' -> has_instance k l <-> has_instance k l'.
Proof. intros H. unfold has_instance. by rewrite H. Qed.
Lemma well_formed_perm l l' : l ≡ₚ l' -> well_formed l -> well_formed l'.
Proof.
  intros Hp Hw h Hh. rewrite <- Hp in Hh. destruct (Hw h Hh) as [H0 Hl]. split; [done |]. intros name Hn. rewrite <- (Hl name Hn).
  symmetry. by apply Permutation_length, field_values_perm.
Qed.
Lemma singleton_perm {A} (l l' : list A) : length l = 1%nat -> l ≡ₚ l' -> l = l'.
Proof. intros Hl Hp. destruct l as [| x [| ? ?]]; try done. by apply Permutation_singleton_l in Hp. Qed.
Lemma set_of_perm k l l' : l ≡ₚ l' -> well_formed l -> has_instance k l -> set_of k l = set_of k l'.
Proof.
  intros Hp Hw Hi. apply Exists_exists in Hi as (h & Hh & <-). destruct (Hw h Hh) as [_ Hl].
  assert (He : forall name, name ∈ arc_names -> field_values name (inst h) l = field_values name (inst h) l').
  { intros name Hn. apply singleton_perm; [by apply Hl | by apply field_values_perm]. }
  unfold set_of. by rewrite !He by (apply list_elem_of_In; cbn; tauto).
Qed.
Lemma group_perm l l' : named l -> well_formed l -> l ≡ₚ l' -> groupARCHeaders l = groupARCHeaders l'.
Proof.
  intros Hn Hw Hp. apply map_eq. intros k. assert (Hn' : named l') by (unfold named; by rewrite <- Hp). rewrite !group_lookup by done.
  pose proof (has_instance_perm k l l' Hp) as Hi. destruct (decide (k <> 0 /\ has_instance k l)) as [[Hk H] | H].
  - rewrite decide_True by tauto. f_equal. by apply set_of_perm.
  - rewrite decide_False; [done | tauto].
Qed.

(** ** The instances in order *)
Lemma in_sequence_spec l : in_sequence l = true <-> forall idx i, l !! idx = Some i -> i = Z.of_nat idx + 1 /\ i <= arcMaxInstance.
Proof.
  unfold in_sequence. rewrite forallb_forall. split.
  - intros H idx i Hi. assert (Hin : In (idx, i) (imap pair l)) by (apply list_elem_of_In, elem_of_lookup_imap; by exists idx, i).
    specialize (H _ Hin). cbn in H. breflect. lia.
  - intros H [idx i] Hin. apply list_elem_of_In, elem_of_lookup_imap in Hin as (idx' & i' & [= -> ->] & Hi). destruct (H _ _ Hi). apply andb_true_iff. split; [by apply Z.eqb_eq | by apply Z.leb_le].
Qed.
Lemma in_sequence_seq l : in_sequence l = true -> l = seqZ 1 (Z.of_nat (length l)).
Proof.
  rewrite in_sequence_spec. intros H. apply list_eq. intros idx. destruct (l !! idx) as [i |] eqn:E.
  - symmetry. apply lookup_seqZ. apply lookup_lt_Some in E as Hlt. destruct (H _ _ E). lia.
  - symmetry. apply lookup_seqZ_ge. apply lookup_ge_None in E. lia.
Qed.
Lemma seq_in_sequence n : n <= arcMaxInstance -> in_sequence (seqZ 1 n) = true.
Proof. intros Hn. apply in_sequence_spec. intros idx i [-> Hi]%lookup_seqZ. lia. Qed.

Lemma instance_keys (sets : gmap Z ARCSet) k : k ∈ sorted_instances sets <-> is_Some (sets !! k).
Proof.
  unfold sorted_instances. rewrite merge_sort_Permutation. rewrite list_elem_of_fmap. split.
  - intros ([k' s] & -> & H). apply elem_of_map_to_list in H. by eexists.
  - intros [s H]. exists (k, s). split; [done |]. by apply elem_of_map_to_list.
Qed.
Lemma sorted_instances_seq (sets : gmap Z ARCSet) n : (forall k, is_Some (sets !! k) <-> 1 <= k <= n) -> sorted_instances sets = seqZ 1 n.
Proof.
  intros H. apply (StronglySorted_unique Z.le).
  - unfold sorted_instances. apply (StronglySorted_merge_sort Z.le).
  - apply Sorted_StronglySorted; [intros ? ? ?; lia |]. clear. unfold seqZ. generalize (Z.to_nat n), 0%nat. intros m. induction m as [| m IH]; intros a; [constructor |].
    cbn [seq fmap list_fmap]. constructor; [apply IH |]. destruct m; cbn; constructor. lia.
  - apply NoDup_Permutation.
    + unfold sorted_instances. rewrite merge_sort_Permutation. apply NoDup_fst_map_to_list.
    + apply NoDup_seqZ.
    + intros k. rewrite instance_keys, H, elem_of_seqZ. lia.
Qed.
Lemma sorted_size (sets : gmap Z ARCSet) : length (sorted_instances sets) = size sets.
Proof. unfold sorted_instances. rewrite merge_sort_Permutation, length_map. apply length_map_to_list. Qed.

(** ** The fields of a message *)
Section Fields.
Context {U : UnicodeTables}.
Implicit Types headers : headerMap.

Definition arc_entries (kv : gostring * list gostring) : list headerEntry :=
  let lowerName := ToLower (fst kv) in
  if (lowerName =s? aar_name) || (lowerName =s? ams_name) || (lowerName =s? as_name) then map (fun v => {| Name := lowerName; Value := v |}) (snd kv) else [].
Lemma extract_entries walk : extractARCHeaders walk = concat (map arc_entries walk).
Proof. done. Qed.
Lemma extract_named walk : named (extractARCHeaders walk).
Proof.
  rewrite extract_entries. apply Forall_concat, Forall_map, Forall_forall. intros kv _. unfold arc_entries.
  destruct (_ || _) eqn:E; [| constructor]. apply Forall_map, Forall_forall. intros v _. cbn [Name].
  apply list_elem_of_In. cbn. apply orb_true_iff in E as [[E | E]%orb_true_iff | E]; apply bool_decide_eq_true in E; auto.
Qed.
Lemma extract_perm w w' : w ≡ₚ w' -> extractARCHeaders w ≡ₚ extractARCHeaders w'.
Proof. intros H. rewrite !extract_entries. by rewrite H. Qed.

(** The ARC fields of a message, in some order. *)
Definition arc_fields headers : list headerEntry := extractARCHeaders (map_to_list headers).
Lemma fields_perm iter headers : walks iter -> extractARCHeaders (iter headers) ≡ₚ arc_fields headers.
Proof. intros H. apply extract_perm, H. Qed.

Lemma entries_app k (a b : list gostring) : arc_entries (k, a ++ b) = arc_entries (k, a) ++ arc_entries (k, b).
Proof. unfold arc_entries. cbn [fst snd]. destruct (_ || _); [by rewrite map_app | done]. Qed.

Lemma concat_union (f : gostring * list gostring -> list headerEntry) (m1 m2 : headerMap) : (forall k a b, f (k, a ++ b) = f (k, a) ++ f (k, b)) ->
  concat (map f (map_to_list (union_with (fun new old => Some (new ++ old)) m1 m2))) ≡ₚ concat (map f (map_to_list m1)) ++ concat (map f (map_to_list m2)).
Proof.
  intros Hf. revert m2. induction m1 as [| k a m1 Hk IH] using map_ind; intros m2.
  { rewrite map_to_list_empty. cbn [map concat app]. by rewrite (left_id_L ∅ (union_with _)). }
  rewrite (map_to_list_insert m1) by done. cbn [map concat]. destruct (m2 !! k) as [b |] eqn:Eb.
  - rewrite <- (insert_delete_id m2 k b Eb). rewrite <- (insert_union_with _ _ _ _ _ _ (a ++ b)) by done.
    assert (Hd : delete k m2 !! k = None) by apply lookup_delete_eq. rewrite map_to_list_insert, (map_to_list_insert (delete k m2)) by (rewrite ?lookup_union_with, ?Hk, ?Hd; done).
    cbn [map concat]. rewrite Hf, IH. solve_Permutation.
  - rewrite <- insert_union_with_l by done. rewrite map_to_list_insert by (rewrite lookup_union_with, Hk, Eb; done). cbn [map concat]. rewrite IH. solve_Permutation.
Qed.
End Fields.

(** ** The texts of a seal *)
Lemma visible_format n : 0 <= n -> forallb visible (FormatUint n) = true.
Proof. intros Hn. by apply tag_value_format. Qed.

Lemma extractInstance_text n rest : 1 <= n <= max_int64 -> extractInstance ("i=" ++ FormatUint n ++ ";"%char :: rest) = n.
Proof.
  intros Hn. pose proof (visible_format n ltac:(lia)) as Hv.
  assert (H1 : exists s, TrimSpace ("i=" ++ FormatUint n ++ ";"%char :: rest) = "i"%char :: "="%char :: FormatUint n ++ ";"%char :: s).
  { destruct (TrimSpace_prefix ("i=" ++ FormatUint n ++ [";"%char]) "i" ";" ("="%char :: FormatUint n ++ [";"%char]) ("i=" ++ FormatUint n) rest) as [s E]; [done | done | done | done |].
    exists s. rewrite <- !app_assoc in E. exact E. }
  destruct H1 as [s H1]. unfold extractInstance. rewrite H1. change (HasPrefix ("i"%char :: _) "i") with true. cbn [negb drop]. rewrite ?drop_0.
  assert (H2 : exists s', TrimSpace ("="%char :: FormatUint n ++ ";"%char :: s) = "="%char :: FormatUint n ++ ";"%char :: s').
  { destruct (TrimSpace_prefix ("="%char :: FormatUint n ++ [";"%char]) "=" ";" (FormatUint n ++ [";"%char]) ("="%char :: FormatUint n) s) as [s' E]; [done | done | done | done |].
    exists s'. cbn [app] in E. rewrite <- !app_assoc in E. exact E. }
  destruct H2 as [s' ->]. change (HasPrefix ("="%char :: _) "=") with true. cbn [negb drop]. rewrite drop_0.
  change (";"%string : gostring) with [";"%char]. rewrite Index_app by (apply tag_value_format; lia). rewrite take_app_length, TrimSpace_visible by done.
  rewrite Atoi_FormatUint by lia. by rewrite (proj2 (Z.ltb_ge n 1)) by lia.
Qed.

Lemma trimmed_tag pre t v : tag_name t -> forallb visible v = true -> TrimSpace (tag_text pre t v) = t ++ "="%char :: v.
Proof.
  intros (Ht & _) Hv. unfold tag_text. assert (Hall : forallb visible (t ++ "="%char :: v) = true) by (rewrite forallb_app; cbn [forallb]; by rewrite Ht, Hv).
  destruct pre; cbn [app]; rewrite ?TrimSpace_blank; by rewrite TrimSpace_visible.
Qed.
Lemma strip_tag_text pre t v : tag_name t -> forallb visible v = true ->
  strip_tag (tag_text pre t v) = if t =s? "b" then take (length (tag_text pre t v) - length (TrimLeft (tag_text pre t v) [" "%char; TAB; byte_of 13; byte_of 10])) (tag_text pre t v) ++ "b=" else tag_text pre t v.
Proof.
  intros Ht Hv. unfold strip_tag. rewrite trimmed_tag by done. destruct Ht as (Ht & He & _ & Hne). change ("="%string : gostring) with ["="%char].
  rewrite Index_app by done. destruct (length t) eqn:El; [by destruct t |]. rewrite <- El, take_app_length, TrimSpace_visible by done. done.
Qed.
Lemma strip_b v : forallb visible v = true -> strip_tag (tag_text true "b" v) = tag_text true "b" [].
Proof.
  intros Hv. rewrite strip_tag_text; [| by apply tag_name_spec | done]. change (("b" : gostring) =s? "b") with true. cbn iota.
  unfold tag_text. cbn [app]. change (TrimLeft (" "%char :: _ ++ _) _) with ("b"%char :: "="%char :: v). cbn [length String.list_ascii_of_string app].
  replace (S (S (S (length v))) - S (S (length v)))%nat with 1%nat by lia. reflexivity.
Qed.

(** The signature is the last tag, and emptied for the hash. *)
Definition sealed (t0 v0 : gostring) (l : list (gostring * gostring)) (sg : gostring) : gostring := Join (tag_segments t0 v0 (l ++ [("b" : gostring, sg)])) ";".
Lemma Join_cons2 x y (l : list gostring) (sep : gostring) : Join (x :: y :: l) sep = x ++ sep ++ Join (y :: l) sep.
Proof. done. Qed.
Lemma sealed_app t0 v0 l sg : sealed t0 v0 l sg = sealed t0 v0 l [] ++ sg.
Proof.
  unfold sealed, tag_segments. rewrite !map_app. cbn [map fst snd]. generalize (tag_text false t0 v0), (map (fun tv : gostring * gostring => tag_text true tv.1 tv.2) l).
  intros x L. revert x. induction L as [| y L IH]; intros x; cbn [app].
  - cbn [Join]. rewrite <- !app_assoc. unfold tag_text. cbn [app]. done.
  - rewrite !Join_cons2, IH. by rewrite <- !app_assoc.
Qed.
Definition seal_tags_ok (t0 v0 : gostring) (l : list (gostring * gostring)) : Prop := tags_ok ((t0, v0) :: l) /\ NoDup (("b" : gostring) :: t0 :: map fst l).
Lemma sealed_ok t0 v0 l sg : seal_tags_ok t0 v0 l -> tag_value sg -> tags_ok ((t0, v0) :: l ++ [("b" : gostring, sg)]) /\ NoDup (t0 :: map fst (l ++ [("b" : gostring, sg)])).
Proof.
  intros [Hok Hnd] Hsg. split.
  - intros t v. rewrite app_comm_cons, elem_of_app, list_elem_of_singleton. intros [H | [= -> ->]]; [by apply Hok |]. split; [by apply tag_name_spec | done].
  - rewrite map_app. cbn [map fst]. rewrite app_comm_cons, <- Permutation_cons_append. done.
Qed.
Lemma strip_sealed t0 v0 l sg : seal_tags_ok t0 v0 l -> tag_value sg -> arcStripB (sealed t0 v0 l sg) = sealed t0 v0 l [].
Proof.
  intros Hs Hsg. destruct (sealed_ok t0 v0 l sg Hs Hsg) as [Hok _]. destruct Hs as [Hl Hnd]. unfold arcStripB, sealed. rewrite tags_split by done. f_equal.
  apply NoDup_cons in Hnd as [Hb _]. unfold tag_segments. rewrite !map_app. cbn [map]. rewrite map_app, map_map. cbn [map fst snd]. f_equal; [| f_equal].
  - destruct (Hl t0 v0 ltac:(by left)) as [? [? _]]. rewrite strip_tag_text, bool_decide_false; [done | | done | done]. intros ->. apply Hb. by left.
  - apply map_ext_in. intros [t v] Hin. apply list_elem_of_In in Hin. destruct (Hl t v ltac:(by right)) as [? [? _]]. cbn [fst snd].
    rewrite strip_tag_text, bool_decide_false; [done | | done | done]. intros ->. apply Hb. right. apply list_elem_of_fmap. by exists ("b" : gostring, v).
  - f_equal. apply strip_b, Hsg.
Qed.

Section Texts.
Context (s : ARCSigner).
Definition ams_tags (unix : Z) (signed : list gostring) (bodyHash : gostring) : list (gostring * gostring) :=
  [("a" : gostring, "rsa-sha256" : gostring); ("c" : gostring, "relaxed/relaxed" : gostring); ("d" : gostring, s_domain s); ("s" : gostring, s_selector s);
    ("t" : gostring, FormatUint unix); ("h" : gostring, Join signed ":"); ("bh" : gostring, bodyHash)].
Definition as_tags (unix : Z) (cv : gostring) : list (gostring * gostring) :=
  [("a" : gostring, "rsa-sha256" : gostring); ("t" : gostring, FormatUint unix); ("cv" : gostring, cv); ("d" : gostring, s_domain s); ("s" : gostring, s_selector s)].
Lemma ams_sealed i unix signed bh sg : ams_text s i unix signed bh ++ sg = sealed "i" (FormatUint i) (ams_tags unix signed bh) sg.
Proof.
  unfold ams_text, sealed, tag_segments, ams_tags, tag_text. cbn [map fst snd Join String.list_ascii_of_string app].
  repeat (rewrite <- ?app_assoc; cbn [app]). done.
Qed.
Lemma as_sealed i unix cv sg : as_text s i unix cv ++ sg = sealed "i" (FormatUint i) (as_tags unix cv) sg.
Proof.
  unfold as_text, sealed, tag_segments, as_tags, tag_text. cbn [map fst snd Join String.list_ascii_of_string app].
  repeat (rewrite <- ?app_assoc; cbn [app]). done.
Qed.
End Texts.

(** ** The loop over the sets *)
Section Validation.
Context {U : UnicodeTables} {C : Crypto} {K : KeyFormats} {R : DNSResolver}.
Context (order : nat -> headerMap -> list (gostring * list gostring)) (resolver : bool).
Implicit Types (headers : headerMap) (body : gostring) (asked : list Query) (sets : gmap Z ARCSet).
#[local] Abbreviation set_at sets i := (default empty_set (sets !! i)).

Lemma validate_sets_sound base sets headers body highest insts ok done asked done' asked' :
  validate_sets order resolver base sets headers body highest insts ok done asked = (Ok (true, done'), asked') ->
  ok = true /\ map AS done' = map AS done ++ map (fun i => AS (set_at sets i)) insts /\
  forall i, i ∈ insts -> cv_ok i (AS (set_at sets i)) = true /\
  (exists n a, fst (validateAS resolver (order n headers) (AS (set_at sets i)) i a) = Ok true) /\
  (i = highest -> exists n a, fst (validateAMS resolver (order n) (AMS (set_at sets i)) headers body a) = Ok true).
Proof.
  revert base ok done asked. induction insts as [| i insts IH]; intros base ok done asked; cbn [validate_sets].
  { intros [= -> -> ->]. rewrite app_nil_r. split_and!; try done. intros i Hi. by apply not_elem_of_nil in Hi. }
  cbn [with_instance AMS AS].
  destruct (validateAMS resolver (order base) (AMS (set_at sets i)) headers body asked) as [ams asked1] eqn:Ea.
  destruct (match ams with Ok _ => _ | Err _ => _ end) as [e |] eqn:Eerr; [done |].
  destruct (validateAS resolver (order (S base) headers) (AS (set_at sets i)) i asked1) as [seal asked2] eqn:Es.
  destruct (match seal with Ok _ => _ | Err _ => _ end) as [e |] eqn:Eerr2; [done |].
  intros H. apply IH in H as (Hok & Hdone & Hall). apply andb_true_iff in Hok as [[Hok Hbad]%andb_true_iff Hcv]. split; [done |]. cbn [with_verdicts AS] in *. split.
  { rewrite Hdone, map_app. cbn [map AS]. by rewrite <- app_assoc. }
  apply negb_true_iff, orb_false_iff in Hbad as [Hseal Hams]. apply negb_false_iff in Hseal. destruct seal as [seal | e]; [subst seal | done].
  intros j [-> | Hj]%elem_of_cons; [| by apply Hall]. split; [done |]. split; [exists (S base), asked1; by rewrite Es |]. intros ->. rewrite Z.eqb_refl in Hams. cbn [andb] in Hams.
  apply negb_false_iff in Hams. destruct ams as [ams | e]; [subst ams | done]. exists base, asked. by rewrite Ea.
Qed.

Lemma validate_sets_complete base sets headers body highest insts ok done asked :
  (forall i, i ∈ insts -> cv_ok i (AS (set_at sets i)) = true /\ forall n a, fst (validateAS resolver (order n headers) (AS (set_at sets i)) i a) = Ok true) ->
  (forall n a, fst (validateAMS resolver (order n) (AMS (set_at sets highest)) headers body a) = Ok true) ->
  exists done' asked', validate_sets order resolver base sets headers body highest insts ok done asked = (Ok (ok, done'), asked') /\
  map AS done' = map AS done ++ map (fun i => AS (set_at sets i)) insts.
Proof.
  intros Hall Hams. revert base ok done asked. induction insts as [| i insts IH]; intros base ok done asked; cbn [validate_sets].
  { exists done, asked. by rewrite app_nil_r. }
  cbn [with_instance AMS AS]. destruct (Hall i ltac:(by left)) as [Hcv Hseal].
  destruct (validateAMS resolver (order base) (AMS (set_at sets i)) headers body asked) as [ams asked1] eqn:Ea.
  assert (Hh : i = highest -> ams = Ok true) by (intros ->; specialize (Hams base asked); by rewrite Ea in Hams).
  destruct (match ams with Ok _ => _ | Err _ => _ end) as [e |] eqn:Eerr.
  { exfalso. destruct ams as [b | e']; [done |]. destruct (Z.eqb_spec i highest) as [E | E]; [by specialize (Hh E) | done]. }
  specialize (Hseal (S base) asked1). destruct (validateAS resolver (order (S base) headers) (AS (set_at sets i)) i asked1) as [seal asked2] eqn:Es.
  cbn [fst] in Hseal. subst seal. cbn iota. cbn [with_verdicts AS]. change (AS (with_instance i (set_at sets i))) with (AS (set_at sets i)). rewrite Hcv.
  assert (Hok : ok && negb (negb true || (i =? highest) && negb match ams with Ok b => b | Err _ => false end) && true = ok).
  { destruct (Z.eqb_spec i highest) as [E | E]; [rewrite (Hh E) |]; cbn; by rewrite !andb_true_r. }
  rewrite Hok. destruct (IH ltac:(intros j Hj; apply Hall; by right) (2 + base)%nat ok
    (done ++ [with_verdicts (true && (match ams with Ok b => b | Err _ => false end || negb (i =? highest))) match ams with Ok b => b | Err _ => false end true (with_instance i (set_at sets i))]) asked2)
    as (done' & asked' & E & Hd).
  exists done', asked'. split; [exact E |]. rewrite Hd, map_app. cbn [map AS with_verdicts with_instance]. by rewrite <- app_assoc.
Qed.

Lemma validate_sets_cost base sets headers body highest insts ok done asked :
  (length (snd (validate_sets order resolver base sets headers body highest insts ok done asked)) <= length asked + 2 * length insts)%nat.
Proof.
  assert (Hf : forall d s a, (length (snd (fetchARCPublicKeyCtx resolver d s a)) <= S (length a))%nat).
  { intros d s a. unfold fetchARCPublicKeyCtx. destruct (negb resolver); cbn [snd]; [lia |]. rewrite length_app. cbn [length]. lia. }
  assert (Ha : forall it ams a, (length (snd (validateAMS resolver it ams headers body a)) <= S (length a))%nat).
  { intros it ams a. unfold validateAMS. repeat (split_if; [cbn [snd]; lia |]). destruct (arcCanons _). split_if; [cbn [snd]; lia |].
    match goal with |- context [fetchARCPublicKeyCtx ?r ?d ?s ?x] => specialize (Hf d s x); destruct (fetchARCPublicKeyCtx r d s x) as [[] ?] end; cbn [snd] in *; lia. }
  assert (Hs : forall w x i a, (length (snd (validateAS resolver w x i a)) <= S (length a))%nat).
  { intros w x i a. unfold validateAS. repeat (split_if; [cbn [snd]; lia |]).
    match goal with |- context [fetchARCPublicKeyCtx ?r ?d ?s ?x] => specialize (Hf d s x); destruct (fetchARCPublicKeyCtx r d s x) as [[] ?] end; cbn [snd] in *; lia. }
  revert base ok done asked. induction insts as [| i insts IH]; intros base ok done asked; cbn [validate_sets length]; [cbn [snd]; lia |].
  match goal with |- context [validateAMS ?r ?it ?m ?h ?b ?x] => specialize (Ha it m x); destruct (validateAMS r it m h b x) as [ams a1] end. cbn [snd] in Ha.
  destruct (match ams with Ok _ => _ | Err _ => _ end); [cbn [snd]; lia |].
  match goal with |- context [validateAS ?r ?w ?m ?j ?x] => specialize (Hs w m j x); destruct (validateAS r w m j x) as [seal a2] end. cbn [snd] in Hs.
  destruct (match seal with Ok _ => _ | Err _ => _ end); [cbn [snd]; lia |]. etransitivity; [apply IH | lia].
Qed.

Lemma seqZ_snoc n : 1 <= n -> seqZ 1 n = seqZ 1 (n - 1) ++ [n].
Proof.
  intros Hn. replace n with (n - 1 + 1) at 1 by lia. rewrite seqZ_app by lia. f_equal. rewrite seqZ_cons, seqZ_nil by lia. f_equal. lia.
Qed.
Lemma last_seqZ n : 1 <= n -> List.last (seqZ 1 n) 0 = n.
Proof. intros Hn. rewrite seqZ_snoc by done. apply last_last. Qed.

(** The sets of a walk are those of instances 1 to [n]. *)
Definition chain_of (l : list headerEntry) (n : Z) : Prop := well_formed l /\ forall k, is_Some (groupARCHeaders l !! k) <-> 1 <= k <= n.

Lemma validate_some base headers body asked : extractARCHeaders (order base headers) <> [] ->
  arc_Validate order resolver base headers body asked =
  let arcHeaders := extractARCHeaders (order base headers) in
  let arcSets := groupARCHeaders arcHeaders in
  let len := Z.of_nat (size arcSets) in
  let instances := sorted_instances arcSets in
  let highest := List.last instances 0 in
  if negb (arcStructureValid arcHeaders arcSets && (Z.of_nat (length instances) <=? arcMaxInstance) && in_sequence instances) then
  (Ok (failed_chain (map (fun i => with_instance i (set_at arcSets i)) instances) len), asked)
  else match validate_sets order resolver (S base) arcSets headers body highest instances true [] asked with
  | (Err e, asked) => (Err e, asked)
  | (Ok (chainOK, sets), asked) =>
      (Ok (if chainOK then
        let '(d, s) := extractSealInfo (AS (List.last sets empty_set)) in
        {| Sets := sets; ChainValid := true; ChainLength := len; CV := "pass"; SealDomain := d; SealSelector := s |}
        else failed_chain sets len), asked)
  end.
Proof. intros H. unfold arc_Validate. by destruct (extractARCHeaders (order base headers)). Qed.

Lemma validate_pass_inv base headers body asked chain asked' :
  arc_Validate order resolver base headers body asked = (Ok chain, asked') -> ChainValid chain = true ->
  let l := extractARCHeaders (order base headers) in let sets := groupARCHeaders l in
  exists n, 1 <= n <= arcMaxInstance /\ ChainLength chain = n /\ chain_of l n /\
  forall i, 1 <= i <= n -> cv_ok i (AS (set_at sets i)) = true /\
  (exists m a, fst (validateAS resolver (order m headers) (AS (set_at sets i)) i a) = Ok true) /\
  (i = n -> exists m a, fst (validateAMS resolver (order m) (AMS (set_at sets i)) headers body a) = Ok true).
Proof.
  intros H Hv l sets. pose proof (extract_named (order base headers)) as Hn. fold l in Hn.
  assert (Hne : l <> []) by (intros E; unfold arc_Validate in H; fold l in H; rewrite E in H; by injection H as <- _).
  rewrite validate_some in H by done. fold l in H. cbn zeta in H. fold sets in H.
  destruct (negb _) eqn:Ec; [by injection H as <- _ |]. apply negb_false_iff, andb_true_iff in Ec as [[Hst Hlen]%andb_true_iff Hseq]. apply Z.leb_le in Hlen.
  apply structure_spec in Hst; [| done]. pose proof (in_sequence_seq _ Hseq) as Eseq. fold sets in Eseq. set (n := Z.of_nat (length (sorted_instances sets))) in *.
  assert (Hkeys : forall k, is_Some (sets !! k) <-> 1 <= k <= n) by (intros k; rewrite <- instance_keys, Eseq, elem_of_seqZ; lia).
  assert (Hpos : 1 <= n).
  { destruct (exists_last Hne) as (l0 & h0 & El). assert (Hh : h0 ∈ l) by (rewrite El, elem_of_app; right; by left). destruct (Hst h0 Hh) as [H0 _]. assert (is_Some (sets !! inst h0)); [| apply Hkeys in H1; lia].
    unfold sets. rewrite group_lookup, decide_True; [by eexists | | done]. split; [done |]. apply Exists_exists. by exists h0. }
  exists n. split; [lia |]. rewrite Eseq, last_seqZ in H by done.
  destruct (validate_sets _ _ _ _ _ _ _ _ _ _ _) as [[[ok dn] | e] a] eqn:Eloop; [| done]. injection H as <- <-.
  destruct ok; [| done]. cbn [ChainLength]. split; [unfold n; by rewrite sorted_size |]. split; [by split |].
  apply validate_sets_sound in Eloop as (_ & _ & Hall). intros i Hi. apply Hall, elem_of_seqZ. lia.
Qed.

Lemma validate_pass_intro base headers body asked n :
  let l := extractARCHeaders (order base headers) in let sets := groupARCHeaders l in
  1 <= n <= arcMaxInstance -> chain_of l n ->
  (forall i, 1 <= i <= n -> cv_ok i (AS (set_at sets i)) = true /\ forall m a, fst (validateAS resolver (order m headers) (AS (set_at sets i)) i a) = Ok true) ->
  (forall m a, fst (validateAMS resolver (order m) (AMS (set_at sets n)) headers body a) = Ok true) ->
  exists chain asked', arc_Validate order resolver base headers body asked = (Ok chain, asked') /\ ChainValid chain = true /\ CV chain = ("pass" : gostring) /\
  ChainLength chain = n /\ (SealDomain chain, SealSelector chain) = extractSealInfo (AS (set_at sets n)).
Proof.
  intros l sets Hn [Hw Hkeys] Hall Hams. pose proof (extract_named (order base headers)) as Hnm. fold l in Hnm.
  assert (Hne : l <> []).
  { intros E. assert (H1 : is_Some (groupARCHeaders l !! 1)) by (apply Hkeys; lia). rewrite E in H1. by destruct H1. }
  rewrite validate_some by done. cbn zeta. fold l. fold sets. pose proof (sorted_instances_seq sets n Hkeys) as Eseq.
  assert (Hst : arcStructureValid l sets = true) by by apply structure_spec. rewrite Hst, Eseq, seq_in_sequence, length_seqZ, Z2Nat.id by lia. rewrite (proj2 (Z.leb_le n arcMaxInstance)) by lia. cbn [andb negb].
  rewrite last_seqZ by lia.
  destruct (validate_sets_complete (S base) sets headers body n (seqZ 1 n) true [] asked) as (done & asked' & E & Hd).
  { intros i Hi. apply Hall. apply elem_of_seqZ in Hi. lia. } { done. }
  rewrite E. eexists _, _. split; [reflexivity |]. cbn [map app] in Hd.
  assert (Hl : AS (List.last done empty_set) = AS (set_at sets n)).
  { rewrite seqZ_snoc, map_app in Hd by lia. cbn [map] in Hd. destruct done as [| x done _] using rev_ind; [by destruct (map _ (seqZ 1 (n - 1))) |].
    rewrite map_app in Hd. cbn [map] in Hd. apply app_inj_tail in Hd as [_ Hd]. by rewrite last_last. }
  rewrite Hl. destruct (extractSealInfo (AS (set_at sets n))) as [d s]. cbn [ChainValid CV ChainLength SealDomain SealSelector]. split_and!; try done.
  rewrite <- sorted_size, Eseq, length_seqZ. lia.
Qed.
End Validation.

(** ** What a passing chain is *)
Section Sound.
Context {U : UnicodeTables} {C : Crypto} {K : KeyFormats} {R : DNSResolver}.
Implicit Types (headers : headerMap) (body : gostring) (sets : gmap Z ARCSet).
#[local] Abbreviation set_at sets i := (default empty_set (sets !! i)).

(** The resolver has given the key for a domain and a selector. *)
Definition published (k : RSAKey) (domain selector : gostring) : Prop :=
  exists asked records, LookupTXT asked (key_name selector domain) = Ok records /\ k ∈ omap rsa_key records.
(** The seal of an instance is a signature over the sets up to it. *)
Definition seal_verified sets (i : Z) : Prop :=
  let cur := set_at sets i in let params := parseTagValueList (AS cur) in
  exists k, published k (tag params "d") (tag params "s") /\ verifyRSASignature k (arcSealInput sets (AAR cur) (AMS cur) (AS cur) i) (tag params "b") = true.
(** A message signature is one over the named fields and the body. *)
Definition message_verified headers body (ams : gostring) : Prop :=
  let params := parseTagValueList ams in let canons := arcCanons (tag params "c") in
  computeBodyHash body (snd canons) = tag params "bh" /\
  exists k iter, walks iter /\ published k (tag params "d") (tag params "s") /\
  verifyRSASignature k (arcAMSInput iter ams headers (parseHeaderList (tag params "h")) (fst canons)) (tag params "b") = true.

Lemma fetched_published resolver d s a k a' : fetchARCPublicKeyCtx resolver d s a = (Ok k, a') -> published k d s.
Proof.
  unfold fetchARCPublicKeyCtx. destruct (negb resolver); [done |]. intros H. exists a. destruct (LookupTXT a (key_name s d)) as [records | e]; [| done].
  exists records. split; [done |]. destruct (omap rsa_key records) as [| x ks] eqn:E; [done |]. injection H as <- _. by left.
Qed.

Lemma validateAS_inv resolver walk as_ i a : fst (validateAS resolver walk as_ i a) = Ok true ->
  let sets := groupARCHeaders (extractARCHeaders walk) in let params := parseTagValueList as_ in
  exists k, published k (tag params "d") (tag params "s") /\ verifyRSASignature k (arcSealInput sets (AAR (set_at sets i)) (AMS (set_at sets i)) as_ i) (tag params "b") = true.
Proof.
  unfold validateAS. repeat (split_if; [done |]). destruct (fetchARCPublicKeyCtx _ _ _ _) as [[k | e] a'] eqn:Ef; [| done]. intros [= H].
  exists k. split; [by eapply fetched_published | done].
Qed.
Lemma validateAMS_inv resolver iter ams headers body a : walks iter -> fst (validateAMS resolver iter ams headers body a) = Ok true -> message_verified headers body ams.
Proof.
  intros Hw. unfold validateAMS, message_verified. repeat (split_if; [done |]). destruct (arcCanons _) as [hc bc]. destruct (_ || _) eqn:Eb; [done |].
  apply orb_false_iff in Eb as [_ Eb]. apply negb_false_iff, bool_decide_eq_true in Eb.
  destruct (fetchARCPublicKeyCtx _ _ _ _) as [[k | e] a'] eqn:Ef; [| done]. intros [= H]. cbn [fst snd]. split; [done |].
  exists k, iter. split; [done |]. split; [by eapply fetched_published | done].
Qed.

Lemma same_sets iter iter' headers : walks iter -> walks iter' -> well_formed (extractARCHeaders (iter headers)) ->
  groupARCHeaders (extractARCHeaders (iter' headers)) = groupARCHeaders (extractARCHeaders (iter headers)).
Proof.
  intros H H' Hw. symmetry. apply group_perm; [apply extract_named | done |]. by rewrite !fields_perm.
Qed.
End Sound.

(** C31: A chain that passes is what it claims to be, in whatever order the fields are
    walked: its sets are numbered 1 to n with n at most 50, every one of them has
    exactly one field of each of the three kinds and there are no others, every
    seal is a signature under a published key over all sets up to its own and says
    that the chain was valid when it was added, and the newest message signature is
    one over the body and the fields it names. *)
Theorem arc_pass_sound {U : UnicodeTables} {C : Crypto} {K : KeyFormats} {R : DNSResolver} order resolver base headers body asked chain asked' :
  (forall m, walks (order m)) -> arc_Validate order resolver base headers body asked = (Ok chain, asked') -> ChainValid chain = true ->
  let fields := arc_fields headers in let sets := groupARCHeaders fields in let n := ChainLength chain in
  1 <= n <= 50 /\
  (forall h, h ∈ fields -> 1 <= inst h <= n) /\
  (forall i name, 1 <= i <= n -> name ∈ arc_names -> exists v, field_values name i fields = [v]) /\
  (forall i, 1 <= i <= n -> seal_verified sets i /\ ToLower (tag (parseTagValueList (AS (set_of i fields))) "cv") = if i =? 1 then "none" else "pass") /\
  message_verified headers body (AMS (set_of n fields)).
Proof.
  intros Ho Hv Hc fields sets n. destruct (validate_pass_inv order resolver base headers body asked chain asked' Hv Hc) as (n' & Hn & En & [Hw Hkeys] & Hall).
  fold n in En. subst n'. pose proof (fields_perm (order base) headers (Ho base)) as Hp. pose proof (extract_named (order base headers)) as Hnm.
  assert (Hw' : well_formed fields) by by eapply well_formed_perm. assert (Es : groupARCHeaders (extractARCHeaders (order base headers)) = sets) by by apply group_perm.
  assert (Hnm' : named fields) by apply extract_named. rewrite Es in *.
  assert (Hset : forall i, 1 <= i <= n -> has_instance i fields /\ sets !! i = Some (set_of i fields)).
  { intros i Hi. apply Hkeys in Hi as [s Hs]. unfold sets in Hs |- *. rewrite group_lookup in * by done. by destruct (decide _) as [[_ H] |]. }
  assert (Hseal : forall m, groupARCHeaders (extractARCHeaders (order m headers)) = sets) by (intros m; rewrite (same_sets (order base)) by done; exact Es).
  split; [exact Hn |]. split_and!.
  - intros h Hh. apply Hkeys. unfold sets. rewrite group_lookup, decide_True; [by eexists | | done]. split; [by apply Hw' |]. apply Exists_exists. by exists h.
  - intros i name Hi Hname. destruct (Hset i Hi) as [Hh _]. apply Exists_exists in Hh as (h & Hh & <-). destruct (Hw' h Hh) as [_ Hl]. specialize (Hl name Hname).
    destruct (field_values name (inst h) fields) as [| v [| ? ?]]; try done. by exists v.
  - intros i Hi. destruct (Hall i Hi) as (Hcv & (m & a & Has) & _). destruct (Hset i Hi) as [_ E]. split.
    + apply validateAS_inv in Has. cbn zeta in Has. rewrite Hseal in Has. exact Has.
    + rewrite E in Hcv. cbn [default] in Hcv. unfold cv_ok in Hcv. cbn zeta in Hcv. destruct (Z.eqb_spec i 1); [by apply bool_decide_eq_true in Hcv |].
      rewrite (proj2 (Z.ltb_lt 1 i)) in Hcv by lia. by apply bool_decide_eq_true in Hcv.
  - destruct (Hall n ltac:(lia)) as (_ & _ & Ham). destruct (Ham eq_refl) as (m & a & Hm). apply validateAMS_inv in Hm; [| done]. destruct (Hset n ltac:(lia)) as [_ E]. by rewrite E in Hm.
Qed.

(** Validating a chain costs at most a hundred questions to the resolver,
    whatever fields a message brings (every signature that is checked needs one
    question), and none when the fields are not a chain of at most fifty sets. *)
Theorem arc_cost_bounded {U : UnicodeTables} {C : Crypto} {K : KeyFormats} {R : DNSResolver} order resolver base headers body asked :
  let cost := (length (snd (arc_Validate order resolver base headers body asked)) - length asked)%nat in
  (cost <= 100)%nat /\
  (50 < Z.of_nat (size (groupARCHeaders (extractARCHeaders (order base headers)))) \/ ~ well_formed (extractARCHeaders (order base headers)) -> cost = 0%nat).
Proof.
  intros cost. unfold cost. clear cost. destruct (decide (extractARCHeaders (order base headers) = [])) as [E | E].
  { unfold arc_Validate. rewrite E. cbn [snd]. split; [lia | intros _; lia]. }
  rewrite validate_some by done. cbn zeta. pose proof (extract_named (order base headers)) as Hnm. set (l := extractARCHeaders (order base headers)) in *.
  destruct (negb _) eqn:Ec; [cbn [snd]; split; [lia | intros _; lia] |].
  apply negb_false_iff, andb_true_iff in Ec as [[Hst Hlen]%andb_true_iff _]. apply Z.leb_le in Hlen. unfold arcMaxInstance in Hlen. apply structure_spec in Hst; [| done].
  split; [| intros [H | H]; [rewrite sorted_size in Hlen; lia | done]].
  match goal with |- context [validate_sets ?a ?b ?c ?d ?e ?f ?g ?h ?i ?j ?k] => pose proof (validate_sets_cost a b c d e f g h i j k) as Hcost;
    destruct (validate_sets a b c d e f g h i j k) as [[[ok dn] | x] a'] end; cbn [snd] in *; lia.
Qed.

(** ** Sealing *)
Lemma foldl_inst l m0 : let r := foldl (fun m h => let i := extractInstance (Value h) in if m <? i then i else m) m0 l in
  m0 <= r /\ (forall h, h ∈ l -> inst h <= r) /\ (r = m0 \/ exists h, h ∈ l /\ r = inst h).
Proof.
  revert m0. induction l as [| x l IH]; intros m0; cbn [foldl]; [split_and!; [lia | intros h Hh; by apply not_elem_of_nil in Hh | by left] |]. fold (inst x).
  destruct (IH (if m0 <? inst x then inst x else m0)) as (H1 & H2 & H3). cbn zeta in *. destruct (Z.ltb_spec m0 (inst x)); split_and!; try lia.
  - intros h [-> | Hh]%elem_of_cons; [done | by apply H2].
  - right. destruct H3 as [H3 | (h & Hh & E)]; [exists x; split; [by left | done] | exists h; split; [by right | done]].
  - intros h [-> | Hh]%elem_of_cons; [lia | by apply H2].
  - destruct H3 as [H3 | (h & Hh & E)]; [by left | right; exists h; split; [by right | done]].
Qed.

Ltac tag_of := unfold tag, ams_tags, as_tags; cbn [foldl fst snd app];
  repeat first [rewrite lookup_insert_eq | rewrite lookup_insert_ne by discriminate | rewrite lookup_singleton_ne by discriminate | rewrite lookup_singleton_eq]; reflexivity.
Ltac plain_value := split; [reflexivity | apply (bool_decide_eq_false_1 _); vm_compute; reflexivity].

Section Sealing.
Context {U : UnicodeTables} {C : Crypto} {K : KeyFormats} {R : DNSResolver}.
Implicit Types (headers : headerMap) (body : gostring) (sets : gmap Z ARCSet).
#[local] Abbreviation set_at sets i := (default empty_set (sets !! i)).

(** The answers of the resolver do not change. *)
Definition stable : Prop := forall asked name, LookupTXT asked name = LookupTXT [] name.

Lemma next_instance walk n : 0 <= n < max_int64 -> chain_of (extractARCHeaders walk) n -> determineNextInstance walk = n + 1.
Proof.
  intros Hn [Hw Hkeys]. unfold determineNextInstance. set (l := extractARCHeaders walk) in *. destruct (foldl_inst l 0) as (H0 & Hle & Hex). cbn zeta in *.
  set (r := foldl _ 0 l) in *. assert (Hnm : named l) by apply extract_named.
  assert (Hin : forall h, h ∈ l -> 1 <= inst h <= n).
  { intros h Hh. apply Hkeys. rewrite group_lookup, decide_True; [by eexists | | done]. split; [by apply Hw |]. apply Exists_exists. by exists h. }
  assert (E : r = n); [| rewrite E; unfold wrap_i64, max_int64 in *; rewrite Z.mod_small; lia].
  destruct (decide (n = 0)) as [-> | Hnz]; [destruct Hex as [? | (h & Hh & ->)]; [done | specialize (Hin h Hh); lia] |].
  destruct (proj2 (Hkeys n) ltac:(lia)) as [x Hx]. rewrite group_lookup in Hx by done. destruct (decide _) as [[_ Hi] |]; [| done].
  apply Exists_exists in Hi as (h & Hh & Eh). specialize (Hle h Hh). destruct Hex as [? | (h' & Hh' & Eh')]; [lia |]. specialize (Hin h' Hh'). lia.
Qed.

Lemma sealInput_agree sets sets' aar ams as_ i : (forall k, 1 <= k < i -> sets !! k = sets' !! k) -> arcSealInput sets aar ams as_ i = arcSealInput sets' aar ams as_ i.
Proof.
  intros H. unfold arcSealInput. do 2 f_equal. apply map_ext_in. intros k Hk. apply list_elem_of_In, elem_of_seqZ in Hk. by rewrite H by lia.
Qed.

Lemma fetch_stable resolver d s a a' : stable -> fst (fetchARCPublicKeyCtx resolver d s a) = fst (fetchARCPublicKeyCtx resolver d s a').
Proof. intros H. unfold fetchARCPublicKeyCtx. destruct (negb resolver); [done |]. cbn [fst]. by rewrite (H a), (H a'). Qed.

Lemma validateAS_agree resolver w w' as_ i a a' : stable ->
  (forall k, 1 <= k <= i -> groupARCHeaders (extractARCHeaders w) !! k = groupARCHeaders (extractARCHeaders w') !! k) -> 1 <= i ->
  fst (validateAS resolver w as_ i a) = fst (validateAS resolver w' as_ i a').
Proof.
  intros Hst Hk Hi. unfold validateAS. repeat (split_if; [done |]). cbn zeta.
  assert (Hf : forallb (fun k => complete_set (groupARCHeaders (extractARCHeaders w) !! k)) (seqZ 1 i) = forallb (fun k => complete_set (groupARCHeaders (extractARCHeaders w') !! k)) (seqZ 1 i)).
  { apply eq_true_iff_eq. rewrite !forallb_forall. split; intros H k Hin; pose proof Hin as Hin'; apply list_elem_of_In, elem_of_seqZ in Hin'; [rewrite <- Hk by lia | rewrite Hk by lia]; by apply H. }
  rewrite Hf. split_if; [done |]. set (params := parseTagValueList as_). pose proof (fetch_stable resolver (tag params "d") (tag params "s") a a' Hst) as He.
  destruct (fetchARCPublicKeyCtx resolver (tag params "d") (tag params "s") a) as [x1 a1], (fetchARCPublicKeyCtx resolver (tag params "d") (tag params "s") a') as [x2 a2].
  cbn [fst] in He. subst x2. destruct x1 as [k | e]; [| done]. cbn [fst]. rewrite (Hk i) by lia. do 2 f_equal. apply sealInput_agree. intros j Hj. apply Hk. lia.
Qed.

Lemma validateAMS_agree resolver iter iter' ams headers body a a' : stable -> walks iter -> walks iter' -> case_unique headers ->
  fst (validateAMS resolver iter ams headers body a) = fst (validateAMS resolver iter' ams headers body a').
Proof.
  intros Hst Hw Hw' Hu. unfold validateAMS. repeat (split_if; [done |]). destruct (arcCanons _) as [hc bc]. split_if; [done |].
  set (params := parseTagValueList ams). pose proof (fetch_stable resolver (tag params "d") (tag params "s") a a' Hst) as He.
  destruct (fetchARCPublicKeyCtx resolver (tag params "d") (tag params "s") a) as [x1 a1], (fetchARCPublicKeyCtx resolver (tag params "d") (tag params "s") a') as [x2 a2].
  cbn [fst] in He. subst x2. destruct x1 as [k | e]; [| done]. cbn [fst]. unfold arcAMSInput. by rewrite (canonicalizeHeaders_walk iter iter').
Qed.

(** The verdict does not depend on the order of the fields. *)
Definition seals_good (resolver : bool) headers (n : Z) : Prop :=
  chain_of (arc_fields headers) n /\
  forall i, 1 <= i <= n -> cv_ok i (AS (set_at (groupARCHeaders (arc_fields headers)) i)) = true /\
  forall w a, w ≡ₚ map_to_list headers -> fst (validateAS resolver w (AS (set_at (groupARCHeaders (arc_fields headers)) i)) i a) = Ok true.

Lemma chain_perm l l' n : named l -> l ≡ₚ l' -> chain_of l n -> chain_of l' n.
Proof. intros Hn Hp [Hw Hk]. split; [by eapply well_formed_perm |]. by rewrite <- (group_perm l l'). Qed.

Lemma pass_seals order resolver base headers body asked chain asked' : stable -> (forall m, walks (order m)) ->
  arc_Validate order resolver base headers body asked = (Ok chain, asked') -> ChainValid chain = true -> seals_good resolver headers (ChainLength chain).
Proof.
  intros Hst Ho Hv Hc. destruct (validate_pass_inv order resolver base headers body asked chain asked' Hv Hc) as (n & Hn & -> & Hch & Hall).
  pose proof (extract_named (order base headers)) as Hnm. pose proof (fields_perm (order base) headers (Ho base)) as Hp.
  assert (Es : groupARCHeaders (extractARCHeaders (order base headers)) = groupARCHeaders (arc_fields headers)) by (apply group_perm; [done | apply Hch | done]).
  rewrite Es in Hall. split; [by eapply chain_perm |]. intros i Hi. destruct (Hall i Hi) as (Hcv & (m & a & Hm) & _). split; [done |]. intros w a' Hw. rewrite <- Hm.
  assert (Eg : forall w', w' ≡ₚ map_to_list headers -> groupARCHeaders (extractARCHeaders w') = groupARCHeaders (arc_fields headers)).
  { intros w' H'. symmetry. apply group_perm; [apply extract_named | | by apply extract_perm]. eapply well_formed_perm; [exact Hp | apply Hch]. }
  apply validateAS_agree; [done | | lia]. intros k _. rewrite !Eg; [done | apply Ho | done].
Qed.

Lemma group_walk w headers n : chain_of (arc_fields headers) n -> w ≡ₚ map_to_list headers -> groupARCHeaders (extractARCHeaders w) = groupARCHeaders (arc_fields headers).
Proof. intros [Hw _] H. symmetry. apply group_perm; [apply extract_named | done | symmetry; by apply extract_perm]. Qed.

Lemma good_passes order resolver base headers body asked n : (forall m, walks (order m)) -> 1 <= n <= arcMaxInstance -> seals_good resolver headers n ->
  (forall m a, fst (validateAMS resolver (order m) (AMS (set_at (groupARCHeaders (arc_fields headers)) n)) headers body a) = Ok true) ->
  exists chain asked', arc_Validate order resolver base headers body asked = (Ok chain, asked') /\ ChainValid chain = true /\ CV chain = ("pass" : gostring) /\
  ChainLength chain = n /\ (SealDomain chain, SealSelector chain) = extractSealInfo (AS (set_at (groupARCHeaders (arc_fields headers)) n)).
Proof.
  intros Ho Hn [Hch Hall] Hams. assert (Es : groupARCHeaders (extractARCHeaders (order base headers)) = groupARCHeaders (arc_fields headers)) by (eapply group_walk; [done | apply Ho]).
  destruct (validate_pass_intro order resolver base headers body asked n) as (chain & asked' & H); [done | | | |]; rewrite ?Es in *.
  - eapply chain_perm; [apply extract_named | symmetry; apply fields_perm, Ho | done].
  - intros i Hi. destruct (Hall i Hi) as [Hcv Hv]. split; [done |]. intros m a. apply Hv, Ho.
  - done.
  - by exists chain, asked'.
Qed.

Lemma pass_transfer order order' resolver base base' headers body asked asked1 chain a' : stable -> (forall m, walks (order m)) -> (forall m, walks (order' m)) -> case_unique headers ->
  arc_Validate order resolver base headers body asked = (Ok chain, a') -> ChainValid chain = true ->
  exists chain' a'', arc_Validate order' resolver base' headers body asked1 = (Ok chain', a'') /\ CV chain' = ("pass" : gostring).
Proof.
  intros Hst Ho Ho' Hu Hv Hc. pose proof (pass_seals order resolver base headers body asked chain a' Hst Ho Hv Hc) as Hg.
  destruct (validate_pass_inv order resolver base headers body asked chain a' Hv Hc) as (n & Hn & En & Hch & Hall). rewrite En in Hg.
  destruct (good_passes order' resolver base' headers body asked1 n) as (chain' & a'' & H1 & _ & H2 & _); [done | done | done | | by exists chain', a''].
  intros m a. destruct (Hall n ltac:(lia)) as (_ & _ & Ham). destruct (Ham eq_refl) as (m0 & a0 & H0). rewrite <- H0.
  rewrite (group_walk (order base headers) headers n) by (try apply Ho; apply Hg). by apply validateAMS_agree.
Qed.

(** *** The new set *)
Definition entries_of (set : ARCSet) : list headerEntry :=
  [{| Name := aar_name; Value := AAR set |}; {| Name := ams_name; Value := AMS set |}; {| Name := as_name; Value := AS set |}].
Definition sealed_headers (set : ARCSet) headers : headerMap := union_with (fun new old => Some (new ++ old)) (seal_map set) headers.

Lemma sealed_fields set headers : arc_fields (sealed_headers set headers) ≡ₚ entries_of set ++ arc_fields headers.
Proof.
  unfold arc_fields, sealed_headers. rewrite !extract_entries, concat_union by apply entries_app. apply Permutation_app; [| done].
  unfold seal_map. rewrite !map_to_list_insert, map_to_list_singleton by (rewrite ?lookup_insert_ne, ?lookup_singleton_ne by discriminate; done). reflexivity.
Qed.

Lemma entries_values name k i set : extractInstance (AAR set) = i -> extractInstance (AMS set) = i -> extractInstance (AS set) = i ->
  field_values name k (entries_of set) = if decide (k = i) then (if decide (name = aar_name) then [AAR set] else if decide (name = ams_name) then [AMS set] else if decide (name = as_name) then [AS set] else []) else [].
Proof.
  intros H1 H2 H3. unfold field_values, entries_of. rewrite !filter_cons, filter_nil. unfold inst. cbn [Name Value]. rewrite H1, H2, H3.
  assert (N1 : aar_name <> ams_name) by discriminate. assert (N2 : aar_name <> as_name) by discriminate. assert (N3 : ams_name <> as_name) by discriminate.
  repeat case_decide; cbn [map Value]; naive_solver.
Qed.

Lemma sealed_chain set headers n : 0 <= n -> chain_of (arc_fields headers) n ->
  extractInstance (AAR set) = n + 1 -> extractInstance (AMS set) = n + 1 -> extractInstance (AS set) = n + 1 ->
  let l := arc_fields (sealed_headers set headers) in
  chain_of l (n + 1) /\ (forall k, 1 <= k <= n -> groupARCHeaders l !! k = groupARCHeaders (arc_fields headers) !! k) /\
  groupARCHeaders l !! (n + 1) = Some {| Instance := n + 1; AAR := AAR set; AMS := AMS set; AS := AS set; Validated := false; MessageSignatureValid := false; SealSignatureValid := false |}.
Proof.
  intros Hn [Hw Hk] H1 H2 H3 l. set (l' := entries_of set ++ arc_fields headers). pose proof (sealed_fields set headers) as Hp. fold l l' in Hp.
  assert (Hnm : named (arc_fields headers)) by apply extract_named. assert (Hnl : named l) by apply extract_named. assert (Hnl' : named l') by (unfold named; by rewrite <- Hp).
  assert (Hold : forall k, has_instance k (arc_fields headers) -> 1 <= k <= n).
  { intros k Hi. apply Hk. rewrite group_lookup, decide_True; [by eexists | | done]. split; [| done]. apply Exists_exists in Hi as (h & Hh & <-). by apply Hw. }
  assert (Hvals : forall name k, field_values name k l' = field_values name k (entries_of set) ++ field_values name k (arc_fields headers)) by (intros; apply field_values_app).
  assert (Hnew : forall name, field_values name (n + 1) (arc_fields headers) = []) by (intros; apply field_values_none; intros Hi; apply Hold in Hi; lia).
  assert (Hw' : well_formed l').
  { intros h Hh. apply elem_of_app in Hh as [Hh | Hh].
    - assert (Ei : inst h = n + 1). { unfold entries_of in Hh. unfold inst. repeat (apply elem_of_cons in Hh as [-> | Hh]; [done |]). by apply not_elem_of_nil in Hh. }
      rewrite Ei. split; [lia |]. intros name Hname. rewrite Hvals, Hnew, app_nil_r, (entries_values _ _ (n + 1)), decide_True by done.
      apply list_elem_of_In in Hname. cbn in Hname. destruct Hname as [<- | [<- | [<- | []]]]; reflexivity.
    - destruct (Hw h Hh) as [H0 Hlen]. split; [done |]. intros name Hname. rewrite Hvals, (entries_values _ _ (n + 1)) by done.
      assert (inst h <= n) by (apply Hold, Exists_exists; by exists h). rewrite decide_False by lia. by apply Hlen. }
  assert (Hhas : forall k, has_instance k l' <-> k = n + 1 \/ has_instance k (arc_fields headers)).
  { intros k. unfold l', has_instance, entries_of. rewrite Exists_app, !Exists_cons, Exists_nil. unfold inst at 1 2 3. cbn [Value]. rewrite H1, H2, H3. naive_solver. }
  rewrite <- (group_perm l' l) by (try done; by symmetry).
  assert (Hlook : forall k, 1 <= k <= n -> groupARCHeaders l' !! k = groupARCHeaders (arc_fields headers) !! k).
  { intros k Hi. rewrite !group_lookup by done. destruct (decide (k <> 0 /\ has_instance k (arc_fields headers))) as [[? ?] | Hno].
    - rewrite decide_True by (split; [done |]; apply Hhas; by right). unfold set_of. rewrite !Hvals, !(entries_values _ _ (n + 1)), !decide_False by (try done; lia). done.
    - rewrite decide_False; [done |]. rewrite Hhas. intros [? [? | ?]]; [lia | by apply Hno]. }
  assert (Hlast : groupARCHeaders l' !! (n + 1) = Some (set_of (n + 1) l')) by (rewrite group_lookup, decide_True by first [done | split; [lia | apply Hhas; by left]]; done).
  split; [split; [by eapply well_formed_perm |] |].
  - intros k. rewrite <- (group_perm l' l) by (try done; by symmetry). destruct (decide (k = n + 1)) as [-> | Hne]; [rewrite Hlast; split; [lia | by eexists] |].
    split; [| intros; rewrite Hlook by lia; apply Hk; lia]. intros [x Hx]. rewrite group_lookup in Hx by done. destruct (decide _) as [[_ Hi] |]; [| done].
    apply Hhas in Hi as [? | Hi]; [done |]. apply Hold in Hi. lia.
  - split; [done |]. rewrite Hlast. f_equal. unfold set_of. rewrite !Hvals, !Hnew, !app_nil_r, !(entries_values _ _ (n + 1)) by done. destruct (decide (n + 1 = n + 1)); [reflexivity | done].
Qed.

(** *** Its signatures *)
Record arc_signer_ok (s : ARCSigner) (sign : gostring -> option gostring) (k : RSAKey) : Prop := {
  as_key : privateKey s = Some sign;
  as_domain : token (s_domain s);
  as_selector : token (s_selector s);
  as_sound h sg : sign h = Some sg -> sg <> [] /\ VerifyPKCS1v15 k h sg = true;
  as_published : exists records ks, LookupTXT [] (key_name (s_selector s) (s_domain s)) = Ok records /\ omap rsa_key records = k :: ks
}.

Lemma tags_ok_cons t v l : tag_nameb t = true -> tag_value v -> tags_ok l -> tags_ok ((t, v) :: l).
Proof. intros Ht Hv Hl t' v' [[= -> ->] | H]%elem_of_cons; [split; [by apply tag_name_spec | done] | by apply Hl]. Qed.
Lemma tags_ok_nil : tags_ok [].
Proof. intros t v H. by apply not_elem_of_nil in H. Qed.

Section Signer.
Context (s : ARCSigner) (sign : gostring -> option gostring) (k : RSAKey) (Hs : arc_signer_ok s sign k).

Lemma ams_tags_ok i unix signed body : 0 <= i -> 0 <= unix -> Forall (fun h => field_name h = true) signed ->
  seal_tags_ok "i" (FormatUint i) (ams_tags s unix signed (computeBodyHash body "relaxed")).
Proof.
  intros Hi Hu Hf. split.
  - destruct (as_domain _ _ _ Hs), (as_selector _ _ _ Hs). unfold ams_tags.
    repeat (apply tags_ok_cons; [reflexivity | first [by apply tag_value_format | done | plain_value | apply base64_tag_value | by apply tag_value_join] |]). apply tags_ok_nil.
  - apply (bool_decide_unpack _). vm_compute. exact I.
Qed.
Lemma as_tags_ok i unix cv : 0 <= i -> 0 <= unix -> tag_value cv -> seal_tags_ok "i" (FormatUint i) (as_tags s unix cv).
Proof.
  intros Hi Hu Hcv. split.
  - destruct (as_domain _ _ _ Hs), (as_selector _ _ _ Hs). unfold as_tags.
    repeat (apply tags_ok_cons; [reflexivity | first [by apply tag_value_format | done | plain_value] |]). apply tags_ok_nil.
  - apply (bool_decide_unpack _). vm_compute. exact I.
Qed.

Lemma sealed_parse t0 v0 l sg : seal_tags_ok t0 v0 l -> tag_value sg ->
  parseTagValueList (sealed t0 v0 l sg) = foldl (fun m tv => <[fst tv := snd tv]> m) {[t0 := v0]} (l ++ [("b" : gostring, sg)]).
Proof. intros H Hsg. destruct (sealed_ok t0 v0 l sg H Hsg) as [H1 H2]. unfold parseTagValueList, sealed. by rewrite tags_parse. Qed.

Lemma signer_fetch a : stable -> exists a', fetchARCPublicKeyCtx true (s_domain s) (s_selector s) a = (Ok k, a').
Proof.
  intros Hst. destruct (as_published _ _ _ Hs) as (records & ks & H1 & H2). unfold fetchARCPublicKeyCtx. cbn [negb]. rewrite Hst, H1, H2. by eexists.
Qed.

Lemma signed_ok data sg : sign (sha256 data) = Some sg -> verifyRSASignature k data (encode StdEncoding sg) = true /\ encode StdEncoding sg <> [] /\ tag_value (encode StdEncoding sg).
Proof.
  intros H. destruct (as_sound _ _ _ Hs _ _ H) as [Hne Hv]. split_and!; [| by apply encode_nonempty | apply base64_tag_value].
  unfold verifyRSASignature, verify_signature. by rewrite decode_encode by apply StdEncoding_valid.
Qed.
Lemma signRSA_inv data b : signRSA sign data = Some b -> exists sg, b = encode StdEncoding sg /\ sign (sha256 data) = Some sg.
Proof. unfold signRSA. destruct (sign (sha256 data)) as [sg |]; [| done]. intros [= <-]. by exists sg. Qed.

Lemma seal_incomplete_tags params b : tag params "b" = b -> b <> [] -> tag params "d" = s_domain s -> tag params "s" = s_selector s -> tag params "a" = ("rsa-sha256" : gostring) ->
  incomplete params = false /\ foreign_algorithm params = false.
Proof.
  intros Eb Hb Ed Es Ha. unfold foreign_algorithm, incomplete. rewrite Ha, Eb, Ed, Es. split; [| reflexivity].
  destruct (as_domain _ _ _ Hs), (as_selector _ _ _ Hs). by rewrite !bool_decide_false.
Qed.

(** The seal. *)
Lemma new_seal_valid w i unix cv aar ams sets as_ a : stable -> 1 <= i <= max_int64 -> 0 <= unix -> tag_value cv ->
  (fun signature => as_text s i unix cv ++ signature) <$> signRSA sign (arcSealInput sets aar ams (as_text s i unix cv) i) = Some as_ ->
  let sets' := groupARCHeaders (extractARCHeaders w) in
  (forall j, 1 <= j < i -> sets' !! j = sets !! j) -> forallb (fun j => complete_set (sets' !! j)) (seqZ 1 i) = true ->
  AAR (set_at sets' i) = aar -> AMS (set_at sets' i) = ams ->
  fst (validateAS true w as_ i a) = Ok true /\ extractInstance as_ = i /\ tag (parseTagValueList as_) "cv" = cv /\ extractSealInfo as_ = (s_domain s, s_selector s).
Proof.
  intros Hst Hi Hu Hcv Hsign sets' Hag Hcomp Haar Hams. destruct (signRSA sign _) as [b |] eqn:Eb; [| done]. assert (E : as_ = as_text s i unix cv ++ b) by (symmetry; apply (inj Some), Hsign). clear Hsign. subst as_. apply signRSA_inv in Eb as (sg & -> & Eb).
  destruct (signed_ok _ _ Eb) as (Hver & Hne & Htv). pose proof (as_tags_ok i unix cv ltac:(lia) Hu Hcv) as Hok.
  set (b := encode StdEncoding sg) in *. assert (Einst : extractInstance (as_text s i unix cv ++ b) = i).
  { unfold as_text. rewrite <- !app_assoc. by apply (extractInstance_text i). }
  rewrite as_sealed in *. pose proof (sealed_parse _ _ _ b Hok Htv) as Ep.
  assert (Tb : tag (parseTagValueList (sealed "i" (FormatUint i) (as_tags s unix cv) b)) "b" = b) by (rewrite Ep; tag_of).
  assert (Td : tag (parseTagValueList (sealed "i" (FormatUint i) (as_tags s unix cv) b)) "d" = s_domain s) by (rewrite Ep; tag_of).
  assert (Ts : tag (parseTagValueList (sealed "i" (FormatUint i) (as_tags s unix cv) b)) "s" = s_selector s) by (rewrite Ep; tag_of).
  assert (Ta : tag (parseTagValueList (sealed "i" (FormatUint i) (as_tags s unix cv) b)) "a" = ("rsa-sha256" : gostring)) by (rewrite Ep; tag_of).
  split_and!; [| done | rewrite Ep; tag_of | unfold extractSealInfo; by rewrite Td, Ts].
  destruct (seal_incomplete_tags _ b Tb Hne Td Ts Ta) as [Hinc Hfor]. unfold validateAS. rewrite bool_decide_false; cycle 1.
  { intros E. rewrite sealed_app in E. by apply app_eq_nil in E as [_ E]. }
  cbn zeta. rewrite Hinc, Hfor, Einst, Z.eqb_refl, Tb, Td, Ts. cbn [negb]. fold sets'. rewrite Hcomp. cbn [negb].
  destruct (signer_fetch a Hst) as [a' ->]. cbn [fst]. rewrite Haar, Hams. f_equal. etrans; [| exact Hver]. f_equal. rewrite (sealInput_agree sets' sets) by done.
  unfold arcSealInput. do 3 f_equal. rewrite strip_sealed by done. rewrite <- (app_nil_r (as_text s i unix cv)), as_sealed, strip_sealed; [done | done |].
  split; [done | apply not_elem_of_nil].
Qed.

(** The message signature: the fields it names are the same in the sealed message. *)
Lemma canonicalize_same iter iter' headers headers' hs canon : (forall h, h ∈ hs -> find_field iter' headers' h = find_field iter headers h) ->
  canonicalizeHeaders iter' headers' hs canon = canonicalizeHeaders iter headers hs canon.
Proof.
  intros H. unfold canonicalizeHeaders. generalize (∅ : gmap gostring nat). induction hs as [| h hs IH]; intros used; [done |].
  cbn [canonicalize_fields]. rewrite H by by left. destruct (find_field iter headers h). rewrite IH; [done |]. intros h' Hh'. apply H. by right.
Qed.

Lemma find_same {A} (p : A -> bool) (l l' : list A) : (forall x, p x = true -> x ∈ l <-> x ∈ l') -> (forall x y, x ∈ l -> y ∈ l -> p x = true -> p y = true -> x = y) ->
  List.find p l = List.find p l'.
Proof.
  intros Hsame Hu. destruct (List.find p l) as [x |] eqn:E.
  - apply find_some in E as [Hx Px]. apply list_elem_of_In in Hx. destruct (List.find p l') as [y |] eqn:E'.
    + apply find_some in E' as [Hy Py]. f_equal. apply Hu; try done. apply Hsame; [done |]. by apply list_elem_of_In.
    + apply Hsame in Hx; [| done]. apply list_elem_of_In in Hx. by rewrite (find_none _ _ E' _ Hx) in Px.
  - symmetry. destruct (List.find p l') as [y |] eqn:E'; [| done]. apply find_some in E' as [Hy Py].
    apply list_elem_of_In, Hsame, list_elem_of_In in Hy; [| done]. by rewrite (find_none _ _ E _ Hy) in Py.
Qed.

Lemma sealed_lookup set headers key : ToLower key ∉ arc_names -> sealed_headers set headers !! key = headers !! key.
Proof.
  intros Hk. unfold sealed_headers. rewrite lookup_union_with. assert (E : seal_map set !! key = None); [| rewrite E; by destruct (headers !! key)].
  unfold seal_map. apply lookup_insert_None. split; [apply lookup_insert_None; split; [apply lookup_singleton_None |] |]; intros <-; apply Hk, list_elem_of_In; cbn; auto.
Qed.
Lemma find_sealed iter iter' set headers h : walks iter -> walks iter' -> case_unique headers -> ToLower h = h -> h ∉ arc_names ->
  find_field iter' (sealed_headers set headers) h = find_field iter headers h.
Proof.
  intros Hw Hw' Hu Hl Hn. unfold find_field. rewrite sealed_lookup by by rewrite Hl. rewrite (find_same _ (iter headers) (iter' (sealed_headers set headers))); [done | |].
  - intros [k' v] Hp. cbn [fst] in Hp. apply bool_decide_eq_true in Hp. rewrite (Hw headers), (Hw' (sealed_headers set headers)), !elem_of_map_to_list, sealed_lookup; [done |]. by rewrite Hp, Hl.
  - intros [k1 v1] [k2 v2] H1 H2 P1 P2. cbn [fst] in P1, P2. apply bool_decide_eq_true in P1, P2. rewrite (Hw headers) in H1, H2. apply elem_of_map_to_list in H1, H2.
    assert (k1 = k2) as -> by (apply Hu; [by eexists | by eexists | congruence]). congruence.
Qed.

Lemma candidates_names : Forall (fun h => field_name h = true /\ h ∉ arc_names) arcSignedHeaderCandidates.
Proof.
  assert (H : forallb (fun h => field_name h && negb (bool_decide (h ∈ arc_names))) arcSignedHeaderCandidates = true) by (vm_compute; reflexivity).
  rewrite forallb_forall in H. apply Forall_forall. intros h Hh. apply list_elem_of_In in Hh. specialize (H h Hh). breflect. done.
Qed.
Lemma signed_candidates walk : Forall (fun h => field_name h = true /\ h ∉ arc_names) (arcSignedHeaders walk).
Proof.
  unfold arcSignedHeaders. apply Forall_forall. intros h Hh. apply list_elem_of_In, filter_In in Hh as [Hh _]. apply list_elem_of_In in Hh.
  pose proof candidates_names as Hc. rewrite Forall_forall in Hc. by apply Hc.
Qed.

Lemma ams_list hs : Forall (fun h => field_name h = true) hs -> forall h, h ∈ List.filter (fun l => negb (bool_decide (l = []) || HasPrefix l "arc-")) (map (fun h => ToLower (TrimSpace h)) hs) -> h ∈ hs.
Proof.
  intros Hf h Hh. apply list_elem_of_In, filter_In in Hh as [Hh _]. apply in_map_iff in Hh as (x & Ex & Hx). apply list_elem_of_In in Hx. rewrite Forall_forall in Hf.
  destruct (field_name_spec x (Hf x Hx)) as (_ & Hv & _ & _ & Hl). rewrite TrimSpace_visible, Hl in Ex by done. by subst h.
Qed.
Lemma parse_signed hs : Forall (fun h => field_name h = true) hs -> parseHeaderList (Join hs ":") = hs.
Proof. intros H. destruct hs as [| h hs]; [reflexivity |]. by apply parseHeaderList_join. Qed.

Lemma new_ams_valid iter iter' i unix headers headers' body signed ams a : stable -> 1 <= i <= max_int64 -> 0 <= unix -> Forall (fun h => field_name h = true) signed ->
  (forall h, h ∈ signed -> find_field iter' headers' h = find_field iter headers h) ->
  (fun signature => ams_text s i unix signed (computeBodyHash body "relaxed") ++ signature)
  <$> signRSA sign (arcAMSInput iter (ams_text s i unix signed (computeBodyHash body "relaxed")) headers signed "relaxed") = Some ams ->
  fst (validateAMS true iter' ams headers' body a) = Ok true /\ extractInstance ams = i /\ ams <> [].
Proof.
  intros Hst Hi Hu Hf Hfind Hsign. set (bh := computeBodyHash body "relaxed") in *. destruct (signRSA sign _) as [b |] eqn:Eb; [| done].
  assert (E : ams = ams_text s i unix signed bh ++ b) by (symmetry; apply (inj Some), Hsign). clear Hsign. subst ams. apply signRSA_inv in Eb as (sg & -> & Eb).
  destruct (signed_ok _ _ Eb) as (Hver & Hne & Htv). pose proof (ams_tags_ok i unix signed body ltac:(lia) Hu Hf) as Hok. fold bh in Hok.
  set (b := encode StdEncoding sg) in *. assert (Einst : extractInstance (ams_text s i unix signed bh ++ b) = i).
  { unfold ams_text. rewrite <- !app_assoc. by apply (extractInstance_text i). }
  assert (Hnil : ams_text s i unix signed bh ++ b <> []) by (intros [_ E]%app_eq_nil; done).
  split_and!; [| done | done]. rewrite ams_sealed in *. pose proof (sealed_parse _ _ _ b Hok Htv) as Ep.
  assert (Ht : let params := parseTagValueList (sealed "i" (FormatUint i) (ams_tags s unix signed bh) b) in
    tag params "b" = b /\ tag params "d" = s_domain s /\ tag params "s" = s_selector s /\ tag params "a" = ("rsa-sha256" : gostring) /\
    tag params "c" = ("relaxed/relaxed" : gostring) /\ tag params "bh" = bh /\ tag params "h" = Join signed ":").
  { cbn zeta. rewrite Ep. split_and!; tag_of. }
  cbn zeta in Ht. destruct Ht as (Tb & Td & Ts & Ta & Tc & Tbh & Th).
  destruct (seal_incomplete_tags _ b Tb Hne Td Ts Ta) as [Hinc Hfor]. unfold validateAMS. rewrite bool_decide_false by done.
  cbn zeta. rewrite Hinc, Hfor, Tb, Td, Ts, Tc, Tbh, Th. change (arcCanons "relaxed/relaxed") with (("relaxed" : gostring), ("relaxed" : gostring)).
  assert (Hbh : bh <> []).
  { apply encode_nonempty. intros E. pose proof (sha256_length (canonicalizeBody body "relaxed")) as Hl. rewrite E in Hl. done. }
  fold bh. rewrite (bool_decide_false (bh = [])) by done. rewrite (bool_decide_true (bh = bh)) by done. cbn [negb orb].
  destruct (signer_fetch a Hst) as [a' ->]. cbn [fst]. f_equal. etrans; [| exact Hver]. f_equal. rewrite parse_signed by done. unfold arcAMSInput.
  rewrite (canonicalize_same iter iter' headers headers'); [| intros h Hh; apply Hfind; by eapply ams_list]. f_equal. f_equal. rewrite strip_sealed by done.
  rewrite <- (app_nil_r (ams_text s i unix signed bh)), ams_sealed, strip_sealed; [done | done |]. split; [done | apply not_elem_of_nil].
Qed.
End Signer.

Lemma validateAS_complete resolver w as_ i a : fst (validateAS resolver w as_ i a) = Ok true -> forallb (fun j => complete_set (groupARCHeaders (extractARCHeaders w) !! j)) (seqZ 1 i) = true.
Proof. unfold validateAS. repeat (split_if; [done |]). cbn zeta. destruct (forallb _ _); [done |]. by cbn. Qed.

Lemma validate_cases order resolver base headers body asked chain a' : arc_Validate order resolver base headers body asked = (Ok chain, a') ->
  (extractARCHeaders (order base headers) = [] /\ CV chain = ("none" : gostring) /\ ChainLength chain = 0) \/ ChainValid chain = true \/ CV chain = ("fail" : gostring).
Proof.
  destruct (decide (extractARCHeaders (order base headers) = [])) as [E | E].
  { unfold arc_Validate. rewrite E. intros [= <- _]. by left. }
  rewrite validate_some by done. cbn zeta. destruct (negb _); [intros [= <- _]; by right; right |].
  destruct (validate_sets _ _ _ _ _ _ _ _ _ _ _) as [[[ok dn] | e] a]; [| done]. intros [= <- _]. destruct ok; [| by right; right]. right. left.
  done.
Qed.

(** A chain that has not failed, at length [n]: nothing is sealed yet, or all seals are good. *)
Lemma not_failed order base headers body asked chain a' : stable -> (forall m, walks (order m)) ->
  arc_Validate order true base headers body asked = (Ok chain, a') -> CV chain <> ("fail" : gostring) ->
  0 <= ChainLength chain <= arcMaxInstance /\ seals_good true headers (ChainLength chain) /\ (ChainLength chain = 0 <-> arc_fields headers = []) /\
  (ChainLength chain <> 0 -> ChainValid chain = true).
Proof.
  intros Hst Ho Hv Hcv. pose proof (fields_perm (order base) headers (Ho base)) as Hp. destruct (validate_cases _ _ _ _ _ _ _ _ Hv) as [(E & _ & ->) | [Hc | Hc]]; [| | done].
  - rewrite E in Hp. apply Permutation_nil_l in Hp. split; [unfold arcMaxInstance; lia |]. split; [| by split].
    split; [| intros i Hi; lia]. rewrite <- Hp. split; [intros h Hh; by apply not_elem_of_nil in Hh |]. intros k. split; [intros [x Hx]; done | lia].
  - pose proof (pass_seals order true base headers body asked chain a' Hst Ho Hv Hc) as Hg. destruct (validate_pass_inv _ _ _ _ _ _ _ _ Hv Hc) as (n & Hn & En & _). rewrite En in *.
    split; [lia |]. split; [done |]. split; [| done]. split; [lia |]. intros E. destruct Hg as [[_ Hk] _]. rewrite E in Hk. destruct (proj2 (Hk 1) ltac:(lia)) as [x Hx]. done.
Qed.

(** What the signer says of the chain it received. *)
Lemma signing_cv order order' base headers body asked asked1 chain a' : stable -> (forall m, walks (order m)) -> (forall m, walks (order' m)) -> case_unique headers ->
  arc_Validate order' true base headers body asked = (Ok chain, a') -> CV chain <> ("fail" : gostring) ->
  exists a'', chainCVForSigning order true headers body asked1 = (Some (if decide (ChainLength chain = 0) then ("none" : gostring) else "pass"), a'').
Proof.
  intros Hst Ho Ho' Hu Hv Hcv. destruct (not_failed order' base headers body asked chain a' Hst Ho' Hv Hcv) as (_ & _ & Hz & Hpass). unfold chainCVForSigning.
  pose proof (fields_perm (order 2%nat) headers (Ho 2%nat)) as Hp. destruct (decide (ChainLength chain = 0)) as [E | E].
  - apply Hz in E. rewrite E in Hp. apply Permutation_nil_r in Hp. rewrite Hp. by eexists.
  - destruct (extractARCHeaders (order 2%nat headers)) as [| x l] eqn:El; [exfalso; apply E, Hz; by apply Permutation_nil_l in Hp |]. cbn [negb].
    destruct (pass_transfer order' order true base 6%nat headers body asked asked1 chain a' Hst Ho' Ho Hu Hv (Hpass E)) as (c & a'' & -> & ->). by eexists.
Qed.
End Sealing.

Section Extend.
Context {U : UnicodeTables} {C : Crypto} {K : KeyFormats} {R : DNSResolver}.
Implicit Types headers : headerMap.
#[local] Abbreviation set_at sets i := (default empty_set (sets !! i)).

Lemma sealed_passes headers order order' base' s sign k unix unix' body aar ams as_ cv n asked2 : stable -> (forall m, walks (order m)) -> (forall m, walks (order' m)) ->
  case_unique headers -> arc_signer_ok s sign k -> 0 <= unix -> 0 <= unix' -> 0 <= n < 50 -> seals_good true headers n -> extractInstance aar = n + 1 ->
  cv = (if decide (n = 0) then ("none" : gostring) else "pass") ->
  createAMS order s sign unix headers body (n + 1) = Some ams -> createASWith order s sign unix' headers aar ams cv (n + 1) = Some as_ ->
  let set := {| Instance := n + 1; AAR := aar; AMS := ams; AS := as_; Validated := false; MessageSignatureValid := false; SealSignatureValid := false |} in
  exists chain' a2, arc_Validate order' true base' (sealed_headers set headers) body asked2 = (Ok chain', a2) /\ ChainValid chain' = true /\ CV chain' = ("pass" : gostring) /\
  ChainLength chain' = n + 1 /\ SealDomain chain' = s_domain s /\ SealSelector chain' = s_selector s.
Proof.
  intros Hst Ho Ho' Hu Hs Hx Hx' Hn Hg Haar Ecv Eams Eas set. set (headers' := sealed_headers set headers). assert (Hi : 1 <= n + 1 <= max_int64) by (unfold max_int64; lia).
  assert (Htv : tag_value cv) by (rewrite Ecv; destruct (decide (n = 0)); split; try done; apply (bool_decide_eq_false_1 _); vm_compute; reflexivity).
  unfold createAMS in Eams. cbn zeta in Eams. pose proof (signed_candidates (order 3%nat headers)) as Hc. set (signed := arcSignedHeaders (order 3%nat headers)) in *.
  assert (Hams : forall m a, fst (validateAMS true (order' m) ams headers' body a) = Ok true /\ extractInstance ams = n + 1 /\ ams <> []).
  { intros m a. apply (new_ams_valid s sign k Hs (order 4%nat) (order' m) (n + 1) unix headers headers' body signed ams a); try done; [eapply Forall_impl; [exact Hc | by intros ? []] |].
    intros h Hh. rewrite Forall_forall in Hc. destruct (Hc h Hh) as [Hf Hna]. destruct (field_name_spec h Hf) as (_ & _ & _ & _ & Hl). by apply find_sealed. }
  destruct (Hams 0%nat []) as (_ & Hiams & Hnams).
  assert (Hfirst : extractInstance as_ = n + 1 /\ as_ <> []).
  { clear Eams Hams. unfold createASWith in Eas. cbn zeta in Eas. destruct (signRSA sign _) as [b |]; [| done]. assert (E : as_ = as_text s (n + 1) unix' cv ++ b) by (symmetry; apply (inj Some), Eas).
    subst as_. split; [unfold as_text; rewrite <- !app_assoc; by apply (extractInstance_text (n + 1)) | done]. }
  destruct Hfirst as [Hias Hnas]. destruct (sealed_chain set headers n ltac:(lia) (proj1 Hg) Haar Hiams Hias) as (Hch & Hold & Hlast). cbn zeta in Hch, Hold, Hlast. fold headers' in Hch, Hold, Hlast.
  assert (Hw : forall w, w ≡ₚ map_to_list headers' -> groupARCHeaders (extractARCHeaders w) = groupARCHeaders (arc_fields headers')) by (intros w Hw; by eapply group_walk).
  assert (Hnaar : aar <> []) by (intros ->; change (extractInstance []) with 0 in Haar; lia).
  assert (Hcomp : forallb (fun j => complete_set (groupARCHeaders (arc_fields headers') !! j)) (seqZ 1 (n + 1)) = true).
  { rewrite seqZ_snoc, forallb_app by lia. replace (n + 1 - 1) with n by lia. apply andb_true_iff. split.
    - apply forallb_forall. intros j Hj. apply list_elem_of_In, elem_of_seqZ in Hj. rewrite Hold by lia. destruct (proj2 Hg n ltac:(lia)) as [_ Hv].
      specialize (Hv (map_to_list headers) [] ltac:(done)). apply validateAS_complete in Hv. rewrite forallb_forall in Hv. apply Hv. apply list_elem_of_In, elem_of_seqZ. lia.
    - cbn [forallb]. rewrite Hlast. cbn [complete_set AAR AMS AS set]. by rewrite !bool_decide_false. }
  assert (Hseal : forall w a, w ≡ₚ map_to_list headers' -> fst (validateAS true w as_ (n + 1) a) = Ok true /\ extractInstance as_ = n + 1 /\
    tag (parseTagValueList as_) "cv" = cv /\ extractSealInfo as_ = (s_domain s, s_selector s)).
  { intros w a Hww. eapply (new_seal_valid s sign k Hs w (n + 1) unix' cv aar ams (groupARCHeaders (extractARCHeaders (order 5%nat headers)))); try done; rewrite (Hw w Hww).
    - intros j Hj. rewrite Hold by lia. symmetry. rewrite (group_walk _ headers n); [done | apply Hg | apply Ho].
    - done.
    - by rewrite Hlast.
    - by rewrite Hlast. }
  destruct (Hseal (map_to_list headers') [] ltac:(done)) as (_ & _ & Tcv & Tinfo).
  assert (Elast : AS (set_at (groupARCHeaders (arc_fields headers')) (n + 1)) = as_) by by rewrite Hlast.
  destruct (good_passes order' true base' headers' body asked2 (n + 1)) as (chain' & a2 & E & Hval & Hpass & Hl & Hinfo); [done | unfold arcMaxInstance; lia | | |].
  - split; [done |]. intros i Hii. destruct (decide (i = n + 1)) as [-> | Hne].
    + rewrite Elast. split; [| intros w a Hww; by apply Hseal]. unfold cv_ok. rewrite Tcv, Ecv. destruct (decide (n = 0)) as [-> | Hnz]; [reflexivity |].
      rewrite (proj2 (Z.eqb_neq (n + 1) 1)), (proj2 (Z.ltb_lt 1 (n + 1))) by lia. reflexivity.
    + rewrite Hold by lia. destruct (proj2 Hg i ltac:(lia)) as [Hcvi Hvi]. split; [done |]. intros w a Hww. rewrite <- (Hvi (map_to_list headers) a ltac:(done)).
      apply validateAS_agree; [done | | lia]. intros j Hj. rewrite (Hw w Hww). by rewrite Hold by lia.
  - intros m a. rewrite Hlast. by apply Hams.
  - exists chain', a2. rewrite Elast, Tinfo in Hinfo. injection Hinfo as <- <-. done.
Qed.
(** In a chain that passes every seal that is there says what it must. *)
Lemma passing_seal order base headers body asked chain a' as_ i : (forall m, walks (order m)) -> arc_Validate order true base headers body asked = (Ok chain, a') -> ChainValid chain = true ->
  {| Name := as_name; Value := as_ |} ∈ arc_fields headers -> extractInstance as_ = i -> cv_ok i as_ = true.
Proof.
  intros Ho Hv Hc Hin Ei. destruct (validate_pass_inv _ _ _ _ _ _ _ _ Hv Hc) as (n & Hn & _ & [Hw Hk] & Hall). set (e := {| Name := as_name; Value := as_ |}) in *.
  rewrite <- (fields_perm _ _ (Ho base)) in Hin. set (l := extractARCHeaders (order base headers)) in *. assert (Hnm : named l) by apply extract_named.
  destruct (Hw e Hin) as [H0 Hlen]. change (inst e) with (extractInstance as_) in *. rewrite Ei in *. specialize (Hlen as_name ltac:(apply list_elem_of_In; cbn; auto)).
  assert (Hl : groupARCHeaders l !! i = Some (set_of i l)) by (rewrite group_lookup, decide_True; [done | | done]; split; [done |]; apply Exists_exists; by exists e).
  assert (Eas : AS (set_of i l) = as_).
  { assert (Hv1 : as_ ∈ field_values as_name i l) by (apply list_elem_of_fmap; exists e; split; [done |]; by apply list_elem_of_filter).
    unfold set_of. cbn [AS]. destruct (field_values as_name i l) as [| v [| ? ?]]; try done. apply list_elem_of_singleton in Hv1. by subst v. }
  destruct (Hall i) as [Hcv _]; [apply Hk; rewrite Hl; by eexists |]. rewrite Hl in Hcv. change (cv_ok i (AS (set_of i l)) = true) in Hcv. by rewrite Eas in Hcv.
Qed.
Lemma fail_seal s sign k i unix b : arc_signer_ok s sign k -> 1 <= i <= max_int64 -> 0 <= unix -> tag_value b ->
  extractInstance (as_text s i unix "fail" ++ b) = i /\ cv_ok i (as_text s i unix "fail" ++ b) = false.
Proof.
  intros Hs Hi Hu Hb. split; [unfold as_text; rewrite <- !app_assoc; by apply (extractInstance_text i) |].
  rewrite as_sealed. unfold cv_ok. rewrite (sealed_parse "i" (FormatUint i)) by first [done | apply (as_tags_ok s sign k Hs); [lia | done | plain_value]].
  assert (Et : tag (foldl (fun m tv => <[fst tv := snd tv]> m) {["i" : gostring := FormatUint i]} (as_tags s unix "fail" ++ [("b" : gostring, b)])) "cv" = ("fail" : gostring)) by tag_of.
  rewrite Et. destruct (Z.eqb_spec i 1); [done |]. by rewrite (proj2 (Z.ltb_lt 1 i)) by lia.
Qed.
(** What the signer says of a chain that has failed. *)
Lemma failed_cv order order' base headers body asked asked1 chain a' cv a'' : stable -> (forall m, walks (order m)) -> (forall m, walks (order' m)) -> case_unique headers ->
  arc_Validate order' true base headers body asked = (Ok chain, a') -> CV chain = ("fail" : gostring) -> chainCVForSigning order true headers body asked1 = (Some cv, a'') -> cv = ("fail" : gostring).
Proof.
  intros Hst Ho Ho' Hu Hv Hf Ecv. unfold chainCVForSigning in Ecv. pose proof (fields_perm (order 2%nat) headers (Ho 2%nat)) as Hp. destruct (extractARCHeaders (order 2%nat headers)) as [| x l] eqn:El.
  - exfalso. apply Permutation_nil_l in Hp. unfold arc_Validate in Hv. assert (E : extractARCHeaders (order' base headers) = []); [| rewrite E in Hv; by injection Hv as <- _].
    pose proof (fields_perm (order' base) headers (Ho' base)) as Hq. rewrite <- Hp in Hq. by apply Permutation_nil_r in Hq.
  - cbn [negb] in Ecv. destruct (arc_Validate order true 6%nat headers body asked1) as [[c | e] a5] eqn:Eown; [| done]. injection Ecv as <- _.
    destruct (bool_decide _) eqn:Ep; [| done]. exfalso. apply bool_decide_eq_true in Ep. destruct (validate_cases _ _ _ _ _ _ _ _ Eown) as [(_ & E & _) | [E | E]]; [by rewrite E in Ep | | by rewrite E in Ep].
    destruct (pass_transfer order order' true 6%nat base headers body asked1 asked c a5 Hst Ho Ho' Hu Eown E) as (c' & a6 & E' & Hp'). rewrite Hv in E'. injection E' as <- _. by rewrite Hf in Hp'.
Qed.
End Extend.

(** C32: The seal of this server extends a chain: when a message has no ARC fields, or
    a chain that passes and is shorter than fifty sets, [Seal] with a key that is
    published makes a message whose chain has one set more and passes, sealed by
    this server, whatever the order in which the fields are walked and whatever
    results are recorded. *)
Theorem seal_extends_chain {U : UnicodeTables} {C : Crypto} {K : KeyFormats} {R : DNSResolver} order order' base base' s sign k unix unix' headers body results asked asked1 asked2 chain a' :
  stable -> (forall m, walks (order m)) -> (forall m, walks (order' m)) -> case_unique headers -> arc_signer_ok s sign k -> (forall h, is_Some (sign h)) -> 0 <= unix -> 0 <= unix' ->
  arc_Validate order' true base headers body asked = (Ok chain, a') -> CV chain <> ("fail" : gostring) -> ChainLength chain < 50 ->
  exists headers' a1 chain' a2, Seal order true s unix unix' headers body results asked1 = (Some headers', a1) /\
    arc_Validate order' true base' headers' body asked2 = (Ok chain', a2) /\ ChainValid chain' = true /\ CV chain' = ("pass" : gostring) /\
    ChainLength chain' = ChainLength chain + 1 /\ SealDomain chain' = s_domain s /\ SealSelector chain' = s_selector s.
Proof.
  intros Hst Ho Ho' Hu Hs Htot Hx Hx' Hv Hcv Hlen. destruct (not_failed order' base headers body asked chain a' Hst Ho' Hv Hcv) as (Hn & Hg & _).
  destruct (signing_cv order order' base headers body asked asked1 chain a' Hst Ho Ho' Hu Hv Hcv) as [a1 Ecv]. set (n := ChainLength chain) in *.
  set (cv := if decide (n = 0) then ("none" : gostring) else "pass") in *. clear Hv Hcv.
  assert (Hi : 1 <= n + 1 <= max_int64) by (unfold max_int64; lia).
  assert (Hnext : forall m, determineNextInstance (order m headers) = n + 1).
  { intros m. apply next_instance; [unfold max_int64; lia |]. eapply chain_perm; [apply extract_named | symmetry; apply fields_perm, Ho | apply Hg]. }
  set (aar := "i=" ++ FormatUint (n + 1) ++ "; " ++ TrimSpace (space_line_ends results)).
  assert (Hsig : forall data, exists b, signRSA sign data = Some b) by (intros data; unfold signRSA; destruct (Htot (sha256 data)) as [x ->]; by eexists).
  assert (Hams : exists ams, createAMS order s sign unix headers body (n + 1) = Some ams).
  { unfold createAMS. match goal with |- context [signRSA sign ?d] => destruct (Hsig d) as [b ->] end. by eexists. }
  destruct Hams as [ams Eams].
  assert (Has : exists as_, createASWith order s sign unix' headers aar ams cv (n + 1) = Some as_).
  { unfold createASWith. match goal with |- context [signRSA sign ?d] => destruct (Hsig d) as [b ->] end. by eexists. }
  destruct Has as [as_ Eas].
  set (set := {| Instance := n + 1; AAR := aar; AMS := ams; AS := as_; Validated := false; MessageSignatureValid := false; SealSignatureValid := false |}).
  assert (Eseal : Seal order true s unix unix' headers body results asked1 = (Some (sealed_headers set headers), a1)).
  { unfold Seal, SealWithCV, signWithCV. rewrite (as_key _ _ _ Hs), !Hnext, Z.eqb_refl. rewrite (proj2 (Z.ltb_ge (n + 1) 1)), (proj2 (Z.ltb_ge arcMaxInstance (n + 1))) by (unfold arcMaxInstance; lia).
    cbn [orb negb]. rewrite bool_decide_true, Ecv by done. cbn [mbind option_bind]. fold aar. rewrite Eams. cbn [mbind option_bind]. rewrite Eas. done. }
  destruct (sealed_passes headers order order' base' s sign k unix unix' body aar ams as_ cv n asked2) as (chain' & a2 & H); first [done | lia | by apply (extractInstance_text (n + 1)) | idtac].
  by exists (sealed_headers set headers), a1, chain', a2.
Qed.

(** A seal never mends a chain: when the chain of a message has failed, whatever
    [Seal] makes of the message does not pass either. *)
Theorem seal_never_mends {U : UnicodeTables} {C : Crypto} {K : KeyFormats} {R : DNSResolver} order order' base base' s sign k unix unix' headers body results asked asked1 asked2 chain a' headers' a1 chain' a2 :
  stable -> (forall m, walks (order m)) -> (forall m, walks (order' m)) -> case_unique headers -> arc_signer_ok s sign k -> 0 <= unix' ->
  arc_Validate order' true base headers body asked = (Ok chain, a') -> CV chain = ("fail" : gostring) ->
  Seal order true s unix unix' headers body results asked1 = (Some headers', a1) ->
  arc_Validate order' true base' headers' body asked2 = (Ok chain', a2) -> ChainValid chain' = false.
Proof.
  intros Hst Ho Ho' Hu Hs Hx Hv Hf Hseal Hv'. destruct (ChainValid chain') eqn:Hc; [exfalso | done].
  unfold Seal, SealWithCV in Hseal. destruct (signWithCV _ _ _ _ _ _ _ _ _ _ _) as [[set |] a3] eqn:Esig; [| done]. injection Hseal as Eh _. fold (sealed_headers set headers) in Eh.
  unfold signWithCV in Esig. rewrite (as_key _ _ _ Hs) in Esig. set (i := determineNextInstance (order 0%nat headers)) in *.
  destruct (_ || _) eqn:Ei; [done |]. apply orb_false_iff in Ei as [Ei1 Ei2]. apply Z.ltb_ge in Ei1, Ei2. unfold arcMaxInstance in Ei2. destruct (negb _); [done |]. rewrite bool_decide_true in Esig by done.
  destruct (chainCVForSigning order true headers body asked1) as [[cv |] a4] eqn:Ecv; [| done]. assert (cv = ("fail" : gostring)) as -> by exact (failed_cv order order' base headers body asked asked1 chain a' cv a4 Hst Ho Ho' Hu Hv Hf Ecv).
  cbn [mbind option_bind] in Esig. destruct (createAMS _ _ _ _ _ _ _) as [ams |] eqn:Eams; [| done]. cbn [mbind option_bind] in Esig.
  destruct (createASWith _ _ _ _ _ _ _ _ _) as [as_ |] eqn:Eas; [| done]. cbn [mbind option_bind] in Esig. assert (Has : AS set = as_) by (by injection Esig as <- _). clear Esig.
  unfold createASWith in Eas. cbn zeta in Eas. destruct (signRSA sign _) as [b |] eqn:Eb; [| done]. assert (E : as_ = as_text s i unix' "fail" ++ b) by (symmetry; apply (inj Some), Eas).
  apply signRSA_inv in Eb as (sg & -> & _). destruct (fail_seal s sign k i unix' (encode StdEncoding sg) Hs) as [E1 E2]; [unfold max_int64; lia | done | apply base64_tag_value |].
  rewrite <- E in E1, E2. assert (Hcv : cv_ok i as_ = true); [| congruence]. eapply (passing_seal order' base' headers'); [done | exact Hv' | done | | done].
  rewrite <- Eh, (sealed_fields set headers), <- Has. apply elem_of_app. left. by right; right; left.
Qed.

(** ** Examples

    A forwarder with the toy scheme of DkimProps.v, and a resolver that has its key. *)
Section ArcExamples.
#[local] Existing Instance ascii_tables.
#[local] Existing Instance toy_crypto.
#[local] Existing Instance Toy.toy_keys.
#[local] Instance arc_dns : DNSResolver := {| LookupTXT _ _ := Ok [("v=DKIM1; p=QUJD" : gostring)]; LookupIP _ _ := Ok []; LookupMX _ _ := Ok [] |}.
Definition arc_order (n : nat) (h : headerMap) : list (gostring * list gostring) := map_to_list h.
Definition arc_sign (h : gostring) : option gostring := Some ("S"%char :: h).
Definition forwarder : ARCSigner := {| privateKey := Some arc_sign; s_domain := "relay.example"; s_selector := "arc" |}.
Definition arc_once : headerMap := default ∅ (fst (Seal arc_order true forwarder 7 8 Toy.fields "hello" "spf=pass" [])).

Lemma some_default {A B} (x : option A * B) (d : A) : bool_decide (is_Some (fst x)) = true -> x = (Some (default d (fst x)), snd x).
Proof. destruct x as [[a |] b]; [done |]. by intros H%bool_decide_eq_true%is_Some_None. Qed.
Definition chain_at (headers : headerMap) (body : gostring) : ARCChain := match fst (arc_Validate arc_order true 0 headers body []) with Ok c => c | Err _ => failed_chain [] 0 end.
Lemma chain_at_ok headers body : is_ok (fst (arc_Validate arc_order true 0 headers body [])) = true ->
  arc_Validate arc_order true 0 headers body [] = (Ok (chain_at headers body), snd (arc_Validate arc_order true 0 headers body [])).
Proof. unfold chain_at. by destruct (arc_Validate arc_order true 0 headers body []) as [[c | e] a]. Qed.
Lemma arc_walks m : walks (arc_order m).
Proof. intros h. reflexivity. Qed.
Lemma case_unique_check headers : NoDup (map (fun kv => ToLower (fst kv)) (map_to_list headers)) -> case_unique headers.
Proof.
  intros Hn k k' [v Hv] [v' Hv'] E. apply elem_of_map_to_list in Hv, Hv'. revert Hn Hv Hv'. generalize (map_to_list headers). intros l. induction l as [| x l IH]; intros Hn H H'; [by apply not_elem_of_nil in H |].
  cbn [map] in Hn. apply NoDup_cons in Hn as [Hx Hn]. apply elem_of_cons in H as [<- | H], H' as [H' | H'].
  - by injection H'.
  - exfalso. apply Hx, list_elem_of_fmap. exists (k', v'). split; [exact E | done].
  - exfalso. subst x. apply Hx, list_elem_of_fmap. exists (k, v). split; [symmetry; exact E | done].
  - by apply IH.
Qed.
Lemma forwarder_ok : arc_signer_ok (R := arc_dns) forwarder arc_sign tt.
Proof.
  constructor; [reflexivity | | | |].
  - split; [plain_value | done].
  - split; [plain_value | done].
  - intros h sg [= <-]. split; [done |]. cbn. unfold Toy.marked. by apply bool_decide_eq_true.
  - exists [("v=DKIM1; p=QUJD" : gostring)], []. split; [reflexivity | vm_compute; reflexivity].
Qed.

Lemma seal_extends_chain_witness : exists headers' a1 chain' a2, Seal arc_order true forwarder 17 18 arc_once "hello" "dkim=pass" [] = (Some headers', a1) /\
  arc_Validate arc_order true 0 headers' "hello" [] = (Ok chain', a2) /\ ChainValid chain' = true /\ CV chain' = ("pass" : gostring) /\
  ChainLength chain' = ChainLength (chain_at arc_once "hello") + 1 /\ SealDomain chain' = s_domain forwarder /\ SealSelector chain' = s_selector forwarder.
Proof.
  apply (seal_extends_chain (K := Toy.toy_keys) arc_order arc_order 0 0 forwarder arc_sign tt 17 18 arc_once "hello" "dkim=pass" [] [] [] (chain_at arc_once "hello") (snd (arc_Validate arc_order true 0 arc_once "hello" []))).
  - intros asked name. reflexivity.
  - exact arc_walks.
  - exact arc_walks.
  - apply case_unique_check, (bool_decide_unpack _). vm_compute. exact I.
  - exact forwarder_ok.
  - intros h. by eexists.
  - lia.
  - lia.
  - apply chain_at_ok. vm_compute. reflexivity.
  - vm_compute. discriminate.
  - vm_compute. reflexivity.
Defined.

Lemma arc_pass_sound_witness : 1 <= ChainLength (chain_at arc_once "hello") <= 50 /\ seal_verified (groupARCHeaders (arc_fields arc_once)) 1.
Proof.
  destruct (arc_pass_sound arc_order true 0 arc_once "hello" [] (chain_at arc_once "hello") (snd (arc_Validate arc_order true 0 arc_once "hello" []))) as (H1 & _ & _ & H2 & _).
  - exact arc_walks.
  - apply chain_at_ok. vm_compute. reflexivity.
  - vm_compute. reflexivity.
  - split; [exact H1 |]. apply H2. split; [done |]. apply H1.
Defined.

Definition arc_twice : headerMap := default ∅ (fst (Seal arc_order true forwarder 17 18 arc_once "changed" [] [])).
Lemma seal_never_mends_witness : ChainValid (chain_at arc_twice "changed") = false.
Proof.
  apply (seal_never_mends (K := Toy.toy_keys) arc_order arc_order 0 0 forwarder arc_sign tt 17 18 arc_once "changed" [] [] [] [] (chain_at arc_once "changed") (snd (arc_Validate arc_order true 0 arc_once "changed" []))
    arc_twice (snd (Seal arc_order true forwarder 17 18 arc_once "changed" [] [])) (chain_at arc_twice "changed") (snd (arc_Validate arc_order true 0 arc_twice "changed" []))).
  - intros asked name. reflexivity.
  - exact arc_walks.
  - exact arc_walks.
  - apply case_unique_check, (bool_decide_unpack _). vm_compute. exact I.
  - exact forwarder_ok.
  - lia.
  - apply chain_at_ok. vm_compute. reflexivity.
  - vm_compute. reflexivity.
  - apply some_default. vm_compute. reflexivity.
  - apply chain_at_ok. vm_compute. reflexivity.
Defined.

(** The stage of the pipeline hands the whole message to the validator where it
    expects the body: a chain that passes fails there. *)
Example arc_stage_hashes_header : o_Result (AuthARCStage arc_order true arc_once "hello") = ("pass" : gostring) /\
  o_Result (AuthARCStage arc_order true arc_once ("From: a@example.org" ++ CRLF ++ CRLF ++ "hello")) = ("fail" : gostring).
Proof. vm_compute. done. Qed.
End ArcExamples.
