(* ===== verification/Totp.v ===== *)
(** * internal/auth: one-time passwords

    totp.go: secrets in base32, the address for an authenticator, codes of RFC 6238
    and their check within one time step of the clock.  Base32, the big-endian
    numbers and the escapes of net/url are written out; HMAC with SHA-1 is the class
    [HmacSha1].  The random source is an argument ([None]: it fails). *)
From S2P Require Import Prelude GoLib Utf8 Base64 Scram DkimProps.

(** ** Positional numbers *)
Fixpoint radix (b : Z) (n : nat) (v : Z) : list Z := match n with O => [] | S n => radix b n (v / b) ++ [v mod b] end.
Definition of_radix (b : Z) (l : list Z) : Z := foldl (fun a d => a * b + d) 0 l.

(** ** encoding/base32 *)
Definition base32_alphabet : gostring := "ABCDEFGHIJKLMNOPQRSTUVWXYZ234567".
Definition base32_char (d : Z) : ascii := nth (Z.to_nat d) base32_alphabet "?"%char.
(** Digits for that many bytes, and back. *)
Definition digits_for (bytes : nat) : nat := match bytes with 0 => 0 | 1 => 2 | 2 => 4 | 3 => 5 | 4 => 7 | _ => 8 end%nat.
Definition bytes_for (digits : nat) : nat := match digits with 2 => 1 | 4 => 2 | 5 => 3 | 7 => 4 | 8 => 5 | _ => 0 end%nat.
Definition fill (n : nat) (l : list Z) : list Z := take n (l ++ repeat 0 n).
Definition encode_group (bs : gostring) : gostring := take (digits_for (length bs)) (map base32_char (radix 32 8 (of_radix 256 (fill 5 (map bz bs))))).
Definition decode_group (digits : list Z) : gostring := take (bytes_for (length digits)) (map byte_of (radix 256 5 (of_radix 32 (fill 8 digits)))).

(** Without padding. *)
Fixpoint base32_encode_go (fuel : nat) (bs : gostring) : gostring :=
  match fuel, bs with
  | S fuel, _ :: _ => encode_group (take 5 bs) ++ base32_encode_go fuel (drop 5 bs)
  | _, _ => []
  end.
Definition base32_encode (bs : gostring) : gostring := base32_encode_go (length bs) bs.

(** Up to eight digits, what follows them, and whether padding has ended the input. *)
Fixpoint read_quantum (k : nat) (digits : list Z) (src : gostring) : option (list Z * gostring * bool) :=
  match k with
  | O => Some (digits, src, false)
  | S k =>
      match src with
      | [] => None
      | c :: src =>
          let j := length digits in
          if (c =c? pad_char) && Nat.leb 2 j && Nat.ltb (length src) 8 then
            if Nat.ltb (length src + j) 7 then None
            else if negb (forallb (fun d => d =c? pad_char) (take (7 - j) src)) then None
            else if Nat.eqb j 3 || Nat.eqb j 6 then None
            else Some (digits, src, true)
          else match IndexByte base32_alphabet c with
          | None => None
          | Some d => read_quantum k (digits ++ [Z.of_nat d]) src
          end
      end
  end.
Fixpoint base32_decode_go (fuel : nat) (src : gostring) : option gostring :=
  match fuel, src with
  | S fuel, _ :: _ =>
      match read_quantum 8 [] src with
      | None => None
      | Some (digits, rest, ended) => if ended then Some (decode_group digits) else (fun r => decode_group digits ++ r) <$> base32_decode_go fuel rest
      end
  | _, _ => Some []
  end.
Definition base32_decode (s : gostring) : option gostring := let src := List.filter not_newline s in base32_decode_go (length src) src.

(** ** net/url *)
Definition hex_upper (n : Z) : ascii := byte_of (if n <? 10 then 48 + n else 55 + n).
Definition unreserved (c : ascii) : bool :=
  in_range 97 122 c || in_range 65 90 c || in_range 48 57 c || in_set "-_.~" c.
Definition percent (c : ascii) : gostring := ["%"%char; hex_upper (bz c / 16); hex_upper (bz c mod 16)].
Definition PathEscape (s : gostring) : gostring := concat (map (fun c => if unreserved c || in_set "$&+=:@" c then [c] else percent c) s).
Definition QueryEscape (s : gostring) : gostring := concat (map (fun c => if unreserved c then [c] else if c =c? " " then ["+"%char] else percent c) s).

(** ** Secrets *)
Definition TOTPDefaultPeriod : Z := 30.
Definition TOTPDefaultDigits : nat := 6.
Definition TOTPSecretLength : nat := 20.
Inductive TOTPAlgorithm := TOTPAlgorithmSHA1 | TOTPAlgorithmSHA256.

Definition GenerateTOTPSecret (random : option gostring) : option gostring := base32_encode <$> random.

(** The parameters of the address are sorted by name. *)
Definition GenerateTOTPUri (secret account issuer : gostring) (algo : TOTPAlgorithm) : gostring :=
  let algorithm : gostring := match algo with TOTPAlgorithmSHA256 => "SHA256" | TOTPAlgorithmSHA1 => "SHA1" end in
  "otpauth://totp/" ++ PathEscape issuer ++ ":" ++ PathEscape account ++ "?algorithm=" ++ QueryEscape algorithm ++ "&digits=" ++ FormatUint (Z.of_nat TOTPDefaultDigits)
  ++ "&issuer=" ++ QueryEscape issuer ++ "&period=" ++ FormatUint TOTPDefaultPeriod ++ "&secret=" ++ QueryEscape secret.

Class HmacSha1 := {
  hmac_sha1 : gostring -> gostring -> gostring;      (* key, message *)
  hmac_sha1_length k m : length (hmac_sha1 k m) = 20%nat
}.

Section Totp.
Context {U : UnicodeTables} {C : Crypto} {S1 : HmacSha1}.

Definition decodeTOTPSecret (secret : gostring) : option gostring :=
  let secretUpper := ToUpper (TrimSpace secret) in
  let padding : gostring := match (length secretUpper mod 8)%nat with 2 => "======" | 4 => "====" | 5 => "===" | 7 => "=" | _ => "" end%nat in
  base32_decode (secretUpper ++ padding).

(** ** Codes *)
(** The four bytes at the offset in the last half byte, without their first bit. *)
Definition truncate (hash : gostring) : Z :=
  let offset := Z.to_nat (Z.land (bz (List.last hash (byte_of 0))) 15) in
  Z.land (of_radix 256 (map bz (take 4 (drop offset hash)))) (2 ^ 31 - 1).
(** [%0*d]. *)
Definition padded_number (digits : nat) (n : Z) : gostring := let s := FormatUint n in repeat "0"%char (digits - length s) ++ s.

Definition computeTOTP (key : gostring) (timeStep : Z) (digits : nat) (algo : TOTPAlgorithm) : gostring :=
  let buf := map byte_of (radix 256 8 timeStep) in
  let hash := match algo with TOTPAlgorithmSHA256 => hmac key buf | TOTPAlgorithmSHA1 => hmac_sha1 key buf end in
  padded_number digits (truncate hash mod 10 ^ Z.of_nat digits).

(** The steps that are tried, in their order. *)
Definition steps_tried (timeStep : Z) : list Z := (if timeStep <? 1 then [] else [timeStep - 1]) ++ [timeStep; timeStep + 1].

Definition ValidateTOTPAtWithStep (secret code : gostring) (unix : Z) (algo : TOTPAlgorithm) : bool * Z :=
  if negb (Nat.eqb (length code) TOTPDefaultDigits) then (false, -1) else
  match decodeTOTPSecret secret with
  | None => (false, -1)
  | Some key =>
      if unix <? 0 then (false, -1) else
      match List.find (fun ts => computeTOTP key ts TOTPDefaultDigits algo =s? code) (steps_tried (unix / TOTPDefaultPeriod)) with
      | Some ts => if max_int64 <? ts then (false, -1) else (true, ts)
      | None => (false, -1)
      end
  end.
Definition ValidateTOTPAt (secret code : gostring) (unix : Z) (algo : TOTPAlgorithm) : bool := fst (ValidateTOTPAtWithStep secret code unix algo).
Definition ValidateTOTP (secret code : gostring) (unix : Z) : bool := ValidateTOTPAt secret code unix TOTPAlgorithmSHA1.
End Totp.

(** ** Properties *)
Lemma of_radix_app b l d : of_radix b (l ++ [d]) = of_radix b l * b + d.
Proof. unfold of_radix. by rewrite foldl_app. Qed.
Lemma of_radix_radix b n v : 0 < b -> of_radix b (radix b n v) = v mod b ^ Z.of_nat n.
Proof.
  intros Hb. revert v. induction n as [| n IH]; intros v; [cbn; by rewrite Z.mod_1_r |]. cbn [radix]. rewrite of_radix_app, IH, Nat2Z.inj_succ, Z.pow_succ_r by lia.
  rewrite Z.rem_mul_r by (try lia; apply Z.pow_pos_nonneg; lia). lia.
Qed.
Lemma radix_length b n v : length (radix b n v) = n.
Proof. revert v. induction n as [| n IH]; intros v; [done |]. cbn [radix]. rewrite length_app, IH. cbn. lia. Qed.
Lemma radix_range b n v : 0 < b -> Forall (fun d => 0 <= d < b) (radix b n v).
Proof.
  intros Hb. revert v. induction n as [| n IH]; intros v; [constructor |]. cbn [radix]. apply Forall_app. split; [apply IH |].
  constructor; [by apply Z.mod_pos_bound | constructor].
Qed.
Lemma of_radix_bound b l : 0 < b -> Forall (fun d => 0 <= d < b) l -> 0 <= of_radix b l < b ^ Z.of_nat (length l).
Proof.
  intros Hb. induction l as [| d l IH] using rev_ind; intros H; [done |]. apply Forall_app in H as [Hl Hd]. apply Forall_cons in Hd as [Hd _].
  specialize (IH Hl). rewrite of_radix_app, length_app. cbn [length]. rewrite Nat.add_1_r, Nat2Z.inj_succ, Z.pow_succ_r by lia. nia.
Qed.
Lemma radix_of_radix b l : 0 < b -> Forall (fun d => 0 <= d < b) l -> radix b (length l) (of_radix b l) = l.
Proof.
  intros Hb. induction l as [| d l IH] using rev_ind; intros H; [done |]. apply Forall_app in H as [Hl Hd]. apply Forall_cons in Hd as [Hd _].
  rewrite length_app. cbn [length]. rewrite Nat.add_1_r. cbn [radix]. rewrite of_radix_app. rewrite Z.div_add_l, (Z.div_small d), Z.add_0_r by lia. rewrite IH by done. f_equal.
  rewrite Z.add_comm, Z.mod_add, Z.mod_small by lia. done.
Qed.

Lemma base32_digit d : 0 <= d < 32 -> IndexByte base32_alphabet (base32_char d) = Some (Z.to_nat d) /\ (base32_char d =c? pad_char) = false /\
  not_newline (base32_char d) = true /\ ascii_upper (base32_char d) = base32_char d /\ visible (base32_char d) = true.
Proof.
  intros Hd. assert (H : forallb (fun n => bool_decide (IndexByte base32_alphabet (base32_char (Z.of_nat n)) = Some n) && negb (base32_char (Z.of_nat n) =c? pad_char) && not_newline (base32_char (Z.of_nat n))
    && (ascii_upper (base32_char (Z.of_nat n)) =c? base32_char (Z.of_nat n)) && visible (base32_char (Z.of_nat n))) (seq 0 32) = true) by (vm_compute; reflexivity).
  rewrite forallb_forall in H. specialize (H (Z.to_nat d) ltac:(apply in_seq; lia)). rewrite Z2Nat.id in H by lia. apply andb_true_iff in H as [H H5]. apply andb_true_iff in H as [H H4].
  apply andb_true_iff in H as [H H3]. apply andb_true_iff in H as [H1 H2]. apply bool_decide_eq_true in H1. apply negb_true_iff in H2. apply Ascii.eqb_eq in H4. done.
Qed.
Lemma read_quantum_digits k digits ds rest : length ds = k -> Forall (fun d => 0 <= d < 32) ds -> read_quantum k digits (map base32_char ds ++ rest) = Some (digits ++ ds, rest, false).
Proof.
  revert digits ds. induction k as [| k IH]; intros digits ds Hl Hf; destruct ds as [| d ds]; try done; cbn [read_quantum map app]; [by rewrite app_nil_r |].
  apply Forall_cons in Hf as [Hd Hf]. destruct (base32_digit d Hd) as (-> & -> & _). cbn [andb]. rewrite Z2Nat.id by lia. rewrite IH; [by rewrite <- app_assoc | by injection Hl | done].
Qed.

Lemma bytes_range (bs : gostring) : Forall (fun d => 0 <= d < 256) (map bz bs).
Proof. apply Forall_map, Forall_forall. intros c _. apply bz_range. Qed.
Lemma map_bytes (bs : gostring) : map byte_of (map bz bs) = bs.
Proof. rewrite map_map. rewrite <- (map_id bs) at 2. apply map_ext. intros c. apply byte_of_bz. Qed.

Lemma group_roundtrip bs : length bs = 5%nat -> exists ds, encode_group bs = map base32_char ds /\ length ds = 8%nat /\ Forall (fun d => 0 <= d < 32) ds /\ decode_group ds = bs.
Proof.
  intros Hl. set (v := of_radix 256 (map bz bs)). exists (radix 32 8 v). pose proof (bytes_range bs) as Hr.
  assert (Hfill : forall n (l : list Z), length l = n -> fill n l = l) by (intros n l <-; apply take_app_length).
  assert (Hv : 0 <= v < 32 ^ Z.of_nat 8) by (pose proof (of_radix_bound 256 (map bz bs) ltac:(lia) Hr) as H; rewrite length_map, Hl in H; exact H).
  split_and!; [| apply radix_length | by apply radix_range |].
  - unfold encode_group. rewrite Hfill by by rewrite length_map. rewrite Hl. cbn [digits_for]. apply take_ge. by rewrite length_map, radix_length.
  - unfold decode_group. rewrite radix_length, Hfill by apply radix_length. cbn [bytes_for]. rewrite of_radix_radix, Z.mod_small by lia.
    rewrite take_ge by (by rewrite length_map, radix_length). unfold v. rewrite <- Hl. rewrite <- (length_map bz bs), radix_of_radix by (done || lia). apply map_bytes.
Qed.

Definition base32_text (s : gostring) : Prop := Forall (fun c => exists d, 0 <= d < 32 /\ c = base32_char d) s.
Lemma encode_groups m bs fuel : length bs = (5 * m)%nat -> (m <= fuel)%nat -> length (base32_encode_go fuel bs) = (8 * m)%nat /\ base32_text (base32_encode_go fuel bs) /\
  forall fuel', (8 * m <= fuel')%nat -> base32_decode_go fuel' (base32_encode_go fuel bs) = Some bs.
Proof.
  revert bs fuel. induction m as [| m IH]; intros bs fuel Hl Hf.
  { destruct bs; [| done]. destruct fuel; cbn; split_and!; try done; try constructor; by intros [| ?] _. }
  destruct fuel as [| fuel]; [lia |].
  assert (Hgo : base32_encode_go (S fuel) bs = encode_group (take 5 bs) ++ base32_encode_go fuel (drop 5 bs)) by (destruct bs; [done | reflexivity]). rewrite Hgo.
  destruct (group_roundtrip (take 5 bs)) as (ds & Eg & Hds & Hr & Hdec); [rewrite length_take; lia |].
  destruct (IH (drop 5 bs) fuel) as (H1 & H2 & H3); [rewrite length_drop; lia | lia |]. rewrite Eg. split_and!.
  - rewrite length_app, length_map, Hds, H1. lia.
  - apply Forall_app. split; [| done]. apply Forall_map. eapply Forall_impl; [exact Hr |]. intros d Hd. by exists d.
  - intros fuel' Hf'. destruct fuel' as [| fuel']; [lia |]. destruct ds as [| d ds0] eqn:Ed; [done |]. cbn [base32_decode_go]. rewrite <- Ed in *.
    destruct (map base32_char ds ++ base32_encode_go fuel (drop 5 bs)) eqn:Em; [rewrite Ed in Em; done |]. rewrite <- Em. rewrite read_quantum_digits by done. cbn [app].
    rewrite H3 by lia. cbn [fmap option_fmap option_map]. by rewrite Hdec, take_drop.
Qed.

Section TotpProps.
Context {U : UnicodeTables} {C : Crypto} {S1 : HmacSha1}.

Lemma secret_decodes random : length random = TOTPSecretLength -> decodeTOTPSecret (base32_encode random) = Some random.
Proof.
  intros Hl. destruct (encode_groups 4 random (length random)) as (H1 & H2 & H3); [done | rewrite Hl; unfold TOTPSecretLength; lia |]. fold (base32_encode random) in *.
  unfold decodeTOTPSecret. set (s := base32_encode random) in *.
  assert (Hc : forall c, In c s -> not_newline c = true /\ ascii_upper c = c /\ visible c = true).
  { intros c Hin. apply list_elem_of_In in Hin. unfold base32_text in H2. rewrite Forall_forall in H2. destruct (H2 c Hin) as (d & Hd & ->). by destruct (base32_digit d Hd) as (_ & _ & ? & ? & ?). }
  assert (Hv : forallb visible s = true) by (apply forallb_forall; intros c Hin; by apply Hc).
  rewrite TrimSpace_visible by done. unfold ToUpper. assert (Ha : isASCII s = true) by (apply forallb_forall; intros c Hin; apply visible_ascii; by apply Hc). rewrite Ha.
  assert (Eup : map ascii_upper s = s) by (rewrite <- (map_id s) at 2; apply map_ext_in; intros c Hin; by apply Hc). rewrite Eup, H1. cbn [Nat.mul Nat.add Nat.modulo Nat.divmod fst snd Nat.sub].
  change (base32_decode (s ++ []) = Some random). rewrite app_nil_r. unfold base32_decode.
  assert (Ef : List.filter not_newline s = s). { clear -Hc. induction s as [| c s IH]; [done |]. cbn [List.filter]. rewrite (proj1 (Hc c (or_introl eq_refl))). rewrite IH; [done |]. intros d Hd. apply Hc. by right. }
  rewrite Ef. apply H3. rewrite H1. lia.
Qed.

Lemma code_length key ts algo : length (computeTOTP key ts TOTPDefaultDigits algo) = TOTPDefaultDigits.
Proof.
  unfold computeTOTP, padded_number. set (n := _ mod _). assert (Hn : 0 <= n < 10 ^ Z.of_nat 6) by (apply Z.mod_pos_bound; reflexivity).
  pose proof (format_length (S (Z.to_nat (Z.log2 n))) n [] 5 Hn) as Hl. fold (FormatUint n) in Hl. cbn [length Nat.add] in Hl. rewrite length_app, repeat_length. unfold TOTPDefaultDigits. lia.
Qed.

(** The first of some steps that has a property. *)
Lemma find_first {A} (p : A -> bool) l x : List.find p l = Some x <-> exists l1 l2, l = l1 ++ x :: l2 /\ p x = true /\ forall y, y ∈ l1 -> p y = false.
Proof.
  induction l as [| a l IH]; cbn [List.find].
  - split; [done |]. intros (l1 & l2 & E & _). by destruct l1.
  - destruct (p a) eqn:E.
    + split; [intros [= ->]; exists [], l; split_and!; try done; intros y Hy; by apply not_elem_of_nil in Hy |].
      intros (l1 & l2 & El & Hx & Hl). destruct l1 as [| b l1]; [by injection El as -> _ |]. injection El as -> _. by rewrite (Hl b) in E by by left.
    + rewrite IH. split.
      * intros (l1 & l2 & -> & Hx & Hl). exists (a :: l1), l2. split_and!; try done. intros y [-> | Hy]%elem_of_cons; [done | by apply Hl].
      * intros (l1 & l2 & El & Hx & Hl). destruct l1 as [| b l1]; [injection El as -> _; congruence |]. injection El as -> ->. exists l1, l2. split_and!; try done. intros y Hy. apply Hl. by right.
Qed.

Lemma steps_tried_spec (p : Z -> bool) t ts : 0 <= t -> List.find p (steps_tried t) = Some ts <->
  0 <= ts /\ t - 1 <= ts <= t + 1 /\ p ts = true /\ forall x, 0 <= x -> t - 1 <= x < ts -> p x = false.
Proof.
  intros Ht. unfold steps_tried. destruct (Z.ltb_spec t 1) as [H1 | H1]; cbn [app List.find].
  - assert (t = 0) as -> by lia. destruct (p 0) eqn:E0; [| destruct (p (0 + 1)) eqn:E1].
    + split; [intros [= <-]; split_and!; try done; lia |]. intros (H & H' & Hp & Hx). destruct (decide (ts = 0)) as [-> | Hne]; [done |]. rewrite (Hx 0) in E0 by lia. done.
    + split; [intros [= <-]; split_and!; try done; intros x ? ?; by replace x with 0 by lia |]. intros (H & H' & Hp & Hx). assert (ts = 0 \/ ts = 1) as [-> | ->] by lia; [congruence | done].
    + split; [done |]. intros (H & H' & Hp & Hx). assert (ts = 0 \/ ts = 0 + 1) as [-> | ->] by lia; congruence.
  - destruct (p (t - 1)) eqn:E0; [| destruct (p t) eqn:E1; [| destruct (p (t + 1)) eqn:E2]].
    + split; [intros [= <-]; split_and!; try done; lia |]. intros (H & H' & Hp & Hx). destruct (decide (ts = t - 1)) as [-> | Hne]; [done |]. rewrite (Hx (t - 1)) in E0 by lia. done.
    + split; [intros [= <-]; split_and!; try done; try lia; intros x ? ?; by replace x with (t - 1) by lia |]. intros (H & H' & Hp & Hx).
      assert (ts = t - 1 \/ ts = t \/ ts = t + 1) as [-> | [-> | ->]] by lia; [congruence | done |]. rewrite (Hx t) in E1 by lia. done.
    + split; [intros [= <-]; split_and!; try done; try lia; intros x ? ?; assert (x = t - 1 \/ x = t) as [-> | ->] by lia; done |]. intros (H & H' & Hp & Hx).
      assert (ts = t - 1 \/ ts = t \/ ts = t + 1) as [-> | [-> | ->]] by lia; [congruence | congruence | done].
    + split; [done |]. intros (H & H' & Hp & Hx). assert (ts = t - 1 \/ ts = t \/ ts = t + 1) as [-> | [-> | ->]] by lia; congruence.
Qed.
End TotpProps.

(** C18: A code is accepted for a time step exactly when it is the code of that step,
    the step is at most one away from the clock, and no earlier step that is tried
    has the same code. *)
Theorem totp_check_exact {U : UnicodeTables} {C : Crypto} {S1 : HmacSha1} secret code unix algo ts : 0 <= unix <= max_int64 ->
  ValidateTOTPAtWithStep secret code unix algo = (true, ts) <->
  exists key, decodeTOTPSecret secret = Some key /\ 0 <= ts /\ unix / 30 - 1 <= ts <= unix / 30 + 1 /\ computeTOTP key ts 6 algo = code /\
    forall x, 0 <= x -> unix / 30 - 1 <= x < ts -> computeTOTP key x 6 algo <> code.
Proof.
  intros Hu. assert (H30 : 0 <= unix / 30 /\ unix / 30 + 1 <= max_int64) by (unfold max_int64 in *; Z.to_euclidean_division_equations; lia).
  unfold ValidateTOTPAtWithStep. change TOTPDefaultPeriod with 30. rewrite (proj2 (Z.ltb_ge unix 0)) by lia. split.
  - destruct (negb _); [done |]. destruct (decodeTOTPSecret secret) as [key |]; [| done]. destruct (List.find _ _) as [t |] eqn:Ef; [| done]. destruct (Z.ltb_spec max_int64 t); [done |]. intros [= ->].
    apply steps_tried_spec in Ef as (H1 & H2 & H3 & H4); [| lia]. exists key. split_and!; try done; try lia; [by apply bool_decide_eq_true in H3 |].
    intros x Hx Hlt. exact (bool_decide_eq_false_1 _ (H4 x Hx Hlt)).
  - intros (key & Hk & H0 & Hr & Hc & Hfirst). rewrite Hk. assert (Hl : length code = TOTPDefaultDigits) by (rewrite <- Hc; apply code_length). rewrite Hl, Nat.eqb_refl. cbn [negb].
    assert (Ef : List.find (fun ts => computeTOTP key ts TOTPDefaultDigits algo =s? code) (steps_tried (unix / 30)) = Some ts).
    { apply steps_tried_spec; [lia |]. split_and!; try lia; [by apply bool_decide_eq_true |]. intros x Hx Hlt. by apply bool_decide_eq_false, Hfirst. }
    rewrite Ef. destruct (Z.ltb_spec max_int64 ts); [lia | done].
Qed.

(** Whoever has the secret gets in: a code computed from the bytes of a generated
    secret for a step at most one away from the clock is accepted. *)
Theorem totp_provisioned {U : UnicodeTables} {C : Crypto} {S1 : HmacSha1} random secret unix ts algo : length random = TOTPSecretLength ->
  GenerateTOTPSecret (Some random) = Some secret -> 0 <= unix <= max_int64 -> 0 <= ts -> unix / 30 - 1 <= ts <= unix / 30 + 1 ->
  ValidateTOTPAt secret (computeTOTP random ts 6 algo) unix algo = true.
Proof.
  intros Hl Hs Hu H0 Hr. assert (Es : secret = base32_encode random) by (symmetry; apply (inj Some), Hs). subst secret. clear Hs.
  assert (H30 : 0 <= unix / 30 /\ unix / 30 + 1 <= max_int64) by (unfold max_int64 in *; Z.to_euclidean_division_equations; lia).
  unfold ValidateTOTPAt, ValidateTOTPAtWithStep. rewrite (secret_decodes random Hl), code_length, Nat.eqb_refl. cbn [negb]. rewrite (proj2 (Z.ltb_ge unix 0)) by lia. change TOTPDefaultPeriod with 30.
  destruct (List.find _ _) as [t |] eqn:Ef.
  - apply steps_tried_spec in Ef as (H1 & H2 & _); [| lia]. destruct (Z.ltb_spec max_int64 t); [lia | done].
  - exfalso. assert (Hin : In ts (steps_tried (unix / 30))).
    { unfold steps_tried. destruct (Z.ltb_spec (unix / 30) 1); cbn; lia. }
    pose proof (find_none _ _ Ef ts Hin) as Hn. by apply bool_decide_eq_false in Hn.
Qed.

(** ** Examples *)
Section TotpExamples.
#[local] Existing Instance ascii_tables.
#[local] Existing Instance toy_crypto.
Definition toy_digest (k m : gostring) : gostring := take 20 (rev m ++ rev m ++ rev m ++ k ++ repeat (byte_of 7) 20).
Lemma toy_digest_length k m : length (toy_digest k m) = 20%nat.
Proof. unfold toy_digest. rewrite length_take, !length_app, repeat_length. lia. Qed.
#[local] Instance toy_hmac_sha1 : HmacSha1 := {| hmac_sha1 := toy_digest; hmac_sha1_length := toy_digest_length |}.
Definition totp_random : gostring := "12345678901234567890".

(** The secret of the test vectors of RFC 6238. *)
Example totp_secret : GenerateTOTPSecret (Some totp_random) = Some ("GEZDGNBVGY3TQOJQGEZDGNBVGY3TQOJQ" : gostring).
Proof. vm_compute. reflexivity. Qed.
Example totp_uri : GenerateTOTPUri "GEZA" "ann@example.org" "My Mail" TOTPAlgorithmSHA1 =
  ("otpauth://totp/My%20Mail:ann@example.org?algorithm=SHA1&digits=6&issuer=My+Mail&period=30&secret=GEZA" : gostring).
Proof. vm_compute. reflexivity. Qed.
Lemma totp_provisioned_witness : ValidateTOTPAt "GEZDGNBVGY3TQOJQGEZDGNBVGY3TQOJQ" (computeTOTP totp_random 36 6 TOTPAlgorithmSHA1) 1111 TOTPAlgorithmSHA1 = true.
Proof. apply (totp_provisioned totp_random); [reflexivity | vm_compute; reflexivity | unfold max_int64; lia | lia | vm_compute; split; discriminate]. Defined.
Definition totp_code : gostring := computeTOTP totp_random 37 6 TOTPAlgorithmSHA1.
Lemma totp_check_exact_witness : ValidateTOTPAtWithStep "GEZDGNBVGY3TQOJQGEZDGNBVGY3TQOJQ" totp_code 1111 TOTPAlgorithmSHA1 = (true, 37) /\
  exists key, decodeTOTPSecret "GEZDGNBVGY3TQOJQGEZDGNBVGY3TQOJQ" = Some key /\ computeTOTP key 37 6 TOTPAlgorithmSHA1 = totp_code.
Proof.
  assert (Hu : 0 <= 1111 <= max_int64) by (unfold max_int64; lia).
  assert (Hv : ValidateTOTPAtWithStep "GEZDGNBVGY3TQOJQGEZDGNBVGY3TQOJQ" totp_code 1111 TOTPAlgorithmSHA1 = (true, 37)) by (vm_compute; reflexivity).
  split; [exact Hv |]. destruct (proj1 (totp_check_exact "GEZDGNBVGY3TQOJQGEZDGNBVGY3TQOJQ" totp_code 1111 TOTPAlgorithmSHA1 37 Hu) Hv) as (key & H1 & _ & _ & H2 & _). exists key. split; [exact H1 | exact H2].
Defined.
End TotpExamples.
