(* ===== verification/Greylist.v ===== *)
(** * internal/smtp: greylisting

    The stage of pipeline.go.  [iter] is the order in which the table is walked when
    it is full; the walk stops in the middle, so what remains depends on it.  A
    recipient list is handled one triplet after the other.  The step relation
    [gl_step] has messages from anywhere at times that do not go back; its log of
    attempts is what the theorems speak of. *)
From S2P Require Import Prelude GoLib GoNet.

Record greylistEntry := { firstSeen : Z; lastSeen : Z; allowed : bool }.
Record GreylistStage := { greylist : gmap gostring greylistEntry; lastCleanup : Z; maxEntries : Z; delay : Z }.

Definition day : Z := 24 * hour.
Definition greylistExpired (e : greylistEntry) (now : Z) : bool :=
  if allowed e then
    let last := if lastSeen e =? zero_time then firstSeen e else lastSeen e in
    36 * day <? time_sub now last
  else 6 * hour <? time_sub now (firstSeen e).

Definition greylistClient (ip : gostring) : gostring :=
  match To4 ip with
  | Some v4 => IPString (Mask v4 (cidr_bytes 4 24)) ++ "/24"
  | None =>
      match To16 ip with
      | Some v6 => IPString (Mask v6 (cidr_bytes 16 64)) ++ "/64"
      | None => "unknown"
      end
  end.

Section Greylist.
Context {U : UnicodeTables}.

Definition triplet (ip from recipient : gostring) : gostring :=
  greylistClient ip ++ "|" ++ ToLower from ++ "|" ++ ToLower recipient.

(** The emergency cleanup: old entries first, down to half, then arbitrary ones. *)
Fixpoint drop_old (cutoff half : Z) (keys : list (gostring * greylistEntry)) (m : gmap gostring greylistEntry) : gmap gostring greylistEntry :=
  match keys with
  | [] => m
  | (k, e) :: r =>
      let m := if firstSeen e <? cutoff then base.delete k m else m in
      if Z.of_nat (size m) <? half then m else drop_old cutoff half r m
  end.
Fixpoint drop_any (max : Z) (keys : list (gostring * greylistEntry)) (m : gmap gostring greylistEntry) : gmap gostring greylistEntry :=
  match keys with
  | [] => m
  | (k, _) :: r => if Z.of_nat (size m) <? max then m else drop_any max r (base.delete k m)
  end.

Definition make_room (now : Z) (iter iter' : gmap gostring greylistEntry -> list (gostring * greylistEntry)) (s : GreylistStage) : gmap gostring greylistEntry :=
  let m := greylist s in
  if maxEntries s <=? Z.of_nat (size m) then
  let m := drop_old (now - 5 * minute) (Z.quot (maxEntries s) 2) (iter m) m in
  drop_any (maxEntries s) (iter' m) m
  else m.

Definition cleanup (now : Z) (s : GreylistStage) (m : gmap gostring greylistEntry) : gmap gostring greylistEntry * Z :=
  if 10 * minute <? time_sub now (lastCleanup s)
  then (filter (fun kv => greylistExpired (snd kv) now = false) m, now)
  else (m, lastCleanup s).

(** One triplet: the table and whether the message is deferred for it. *)
Definition seen (now dly : Z) (key : gostring) (m : gmap gostring greylistEntry) : gmap gostring greylistEntry * bool :=
  let new := (<[key := {| firstSeen := now; lastSeen := now; allowed := false |}]> m, true) in
  match m !! key with
  | Some e =>
      if greylistExpired e now then new
      else if negb (allowed e) && (time_sub now (firstSeen e) <? dly) then (m, true)
      else (<[key := {| firstSeen := firstSeen e; lastSeen := now; allowed := true |}]> m, false)
  | None => new
  end.

Fixpoint all_seen (now dly : Z) (keys : list gostring) (m : gmap gostring greylistEntry) : gmap gostring greylistEntry * bool :=
  match keys with
  | [] => (m, false)
  | k :: r =>
      let '(m, d) := seen now dly k m in
      let '(m, d') := all_seen now dly r m in (m, d || d')
  end.

(** [Process]: [true] is that the message is deferred with 451. *)
Definition Process (now : Z) iter iter' (ip from : gostring) (to : list gostring) (s : GreylistStage) : bool * GreylistStage :=
  let '(m, last) := cleanup now s (make_room now iter iter' s) in
  let '(m, deferred) := all_seen now (delay s) (map (triplet ip from) to) m in
  (deferred, {| greylist := m; lastCleanup := last; maxEntries := maxEntries s; delay := delay s |}).

Definition NewGreylistStage (now : Z) (d : Z) : GreylistStage :=
  {| greylist := ∅; lastCleanup := now; maxEntries := 50000; delay := if 0 <? d then d else 5 * minute |}.

(** ** Messages over time *)
Record History := { stage : GreylistStage; clock : Z; attempts : list (Z * gostring) }.

(** A message at time [now]. *)
Definition message (now : Z) iter iter' (ip from : gostring) (to : list gostring) (h : History) : History :=
  {| stage := snd (Process now iter iter' ip from to (stage h)); clock := now;
    attempts := attempts h ++ map (fun r => (now, triplet ip from r)) to |}.

Inductive gl_step : History -> History -> Prop :=
  | GL_message now iter iter' ip from to h : clock h <= now -> gl_step h (message now iter iter' ip from to h).

(** Every entry goes back to an attempt; one that was allowed waited for the delay. *)
Record entry_ok (dly t : Z) (log : list (Z * gostring)) (k : gostring) (e : greylistEntry) : Prop := {
  eo_first : (firstSeen e, k) ∈ log;
  eo_time : firstSeen e <= lastSeen e <= t;
  eo_waited : allowed e = true -> firstSeen e + dly <= lastSeen e
}.
Definition table_ok (dly t : Z) (log : list (Z * gostring)) (m : gmap gostring greylistEntry) : Prop := forall k e, m !! k = Some e -> entry_ok dly t log k e.

Implicit Types (m : gmap gostring greylistEntry) (log : list (Z * gostring)) (key k : gostring).

Lemma entry_ok_later dly t t' log log' k e : entry_ok dly t log k e -> t <= t' -> log ⊆ log' -> entry_ok dly t' log' k e.
Proof. intros [H1 H2 H3] Ht Hl. constructor; [by apply Hl | lia | done]. Qed.

Lemma table_ok_submap dly t log m m' : table_ok dly t log m -> m' ⊆ m -> table_ok dly t log m'.
Proof. intros H Hs k e He. apply H. by eapply lookup_weaken. Qed.

Lemma drop_old_sub cutoff half keys m : drop_old cutoff half keys m ⊆ m.
Proof.
  revert m. induction keys as [| [k e] r IH]; intros m; [done |]. cbn [drop_old]. set (m1 := if firstSeen e <? cutoff then _ else m).
  assert (m1 ⊆ m) by (unfold m1; destruct (_ <? _); [apply delete_subseteq | done]). destruct (_ <? half); [done |]. by etransitivity; [apply IH |].
Qed.

Lemma drop_any_sub mx keys m : drop_any mx keys m ⊆ m.
Proof.
  revert m. induction keys as [| [k e] r IH]; intros m; [done |]. cbn [drop_any]. destruct (_ <? mx); [done |].
  etransitivity; [apply IH | apply delete_subseteq].
Qed.

Lemma prepared_sub now iter iter' s : fst (cleanup now s (make_room now iter iter' s)) ⊆ greylist s.
Proof.
  assert (H : make_room now iter iter' s ⊆ greylist s).
  { unfold make_room. destruct (_ <=? _); [| done]. etransitivity; [apply drop_any_sub | apply drop_old_sub]. }
  unfold cleanup. destruct (_ <? _); cbn [fst]; [| done]. etransitivity; [apply map_filter_subseteq | done].
Qed.

Lemma seen_cases now dly key m : 0 <= dly <= max_int64 ->
  (exists e, m !! key = Some e /\ snd (seen now dly key m) = false /\ (allowed e = true \/ firstSeen e + dly <= now) /\
    fst (seen now dly key m) = <[key := {| firstSeen := firstSeen e; lastSeen := now; allowed := true |}]> m) \/
  (snd (seen now dly key m) = true /\ (fst (seen now dly key m) = m /\ is_Some (m !! key) \/
    fst (seen now dly key m) = <[key := {| firstSeen := now; lastSeen := now; allowed := false |}]> m)).
Proof.
  intros Hd. unfold seen. destruct (m !! key) as [e |] eqn:E; [| right; cbn; by auto].
  destruct (greylistExpired e now); [right; cbn; by auto |]. destruct (negb (allowed e) && _) eqn:Ew; [right; cbn; eauto |].
  left. exists e. split_and!; [done | done | | done]. apply andb_false_iff in Ew as [Ew | Ew]; [left; by apply negb_false_iff |].
  right. apply Z.ltb_ge in Ew. unfold time_sub in Ew. unfold min_int64 in *. lia.
Qed.

Lemma seen_ok now dly t log key m : 0 <= dly <= max_int64 -> t <= now -> (now, key) ∈ log ->
  table_ok dly t log m \/ table_ok dly now log m -> table_ok dly now log (fst (seen now dly key m)).
Proof.
  intros Hd Ht Hl Hm. assert (Hm' : table_ok dly now log m) by (destruct Hm as [Hm |]; [intros k e He; eapply entry_ok_later; [by apply Hm | done | done] | done]).
  destruct (seen_cases now dly key m Hd) as [(e & He & _ & Hw & ->) | (_ & [[-> _] | ->])]; [| done |]; intros k e' He'.
  - destruct (decide (k = key)) as [-> | Hne]; [| rewrite lookup_insert_ne in He' by done; by apply Hm'].
    rewrite lookup_insert_eq in He'. injection He' as <-. destruct (Hm' key e He) as [H1 H2 H3].
    constructor; cbn [firstSeen lastSeen allowed]; [done | lia |]. intros _. destruct Hw as [Hw | Hw]; [specialize (H3 Hw); lia | lia].
  - destruct (decide (k = key)) as [-> | Hne]; [| rewrite lookup_insert_ne in He' by done; by apply Hm'].
    rewrite lookup_insert_eq in He'. injection He' as <-. constructor; cbn; [done | lia | done].
Qed.

Lemma all_seen_ok now dly log keys m : 0 <= dly <= max_int64 -> (forall k, k ∈ keys -> (now, k) ∈ log) ->
  table_ok dly now log m -> table_ok dly now log (fst (all_seen now dly keys m)).
Proof.
  intros Hd. revert m. induction keys as [| k r IH]; intros m Hl Hm; [done |]. cbn [all_seen].
  pose proof (seen_ok now dly now log k m Hd ltac:(lia) ltac:(apply Hl; by left) (or_introl Hm)) as H1. destruct (seen now dly k m) as [m1 d]. cbn [fst] in H1.
  specialize (IH m1 ltac:(intros; apply Hl; by right) H1). by destruct (all_seen now dly r m1).
Qed.

Definition gl_init (now d : Z) : History := {| stage := NewGreylistStage now d; clock := now; attempts := [] |}.
Definition history_ok (dly : Z) (h : History) : Prop := delay (stage h) = dly /\ table_ok dly (clock h) (attempts h) (greylist (stage h)).

Lemma Process_table now iter iter' ip from to s :
  greylist (snd (Process now iter iter' ip from to s)) =
  fst (all_seen now (delay s) (map (triplet ip from) to) (fst (cleanup now s (make_room now iter iter' s)))) /\
  fst (Process now iter iter' ip from to s) =
  snd (all_seen now (delay s) (map (triplet ip from) to) (fst (cleanup now s (make_room now iter iter' s)))) /\
  delay (snd (Process now iter iter' ip from to s)) = delay s /\ maxEntries (snd (Process now iter iter' ip from to s)) = maxEntries s.
Proof. unfold Process. destruct (cleanup now s _) as [m last]. cbn [fst]. by destruct (all_seen _ _ _ _). Qed.

Lemma step_ok dly h h' : 0 <= dly <= max_int64 -> history_ok dly h -> gl_step h h' -> history_ok dly h'.
Proof.
  intros Hd [Hdl Hm] Hs. inversion Hs as [now iter iter' ip from to h0 Hc]; subst h0 h'. unfold history_ok, message. cbn [stage clock attempts].
  destruct (Process_table now iter iter' ip from to (stage h)) as (Et & _ & Ed & _). rewrite Et, Ed. split; [done |]. rewrite Hdl.
  apply all_seen_ok; [done | |].
  - intros k (r & -> & Hr)%list_elem_of_fmap. apply elem_of_app. right. apply list_elem_of_fmap. by exists r.
  - eapply table_ok_submap; [| apply prepared_sub]. intros k e He. eapply entry_ok_later; [by apply Hm | done |]. set_solver.
Qed.

Lemma reachable_ok now0 d h : 0 <= d <= max_int64 -> star gl_step (gl_init now0 d) h -> history_ok (delay (stage (gl_init now0 d))) h.
Proof.
  intros Hd Hr. assert (Hdly : 0 <= delay (stage (gl_init now0 d)) <= max_int64).
  { cbn. destruct (Z.ltb_spec 0 d); [lia |]. unfold max_int64, minute, second. lia. }
  revert Hr. apply (star_invariant gl_step (history_ok _)); [| by intros; eapply step_ok].
  split; [done |]. intros k e He. cbn in He. by rewrite lookup_empty in He.
Qed.

Lemma all_seen_accepts now dly log keys m : 0 <= dly <= max_int64 -> table_ok dly now log m -> snd (all_seen now dly keys m) = false ->
  forall k, k ∈ keys -> exists t, (t, k) ∈ log /\ t + dly <= now.
Proof.
  intros Hd. revert m. induction keys as [| k r IH]; intros m Hm Hs x Hx; [by apply not_elem_of_nil in Hx |]. cbn [all_seen] in Hs.
  pose proof (seen_cases now dly k m Hd) as Hc. destruct (seen now dly k m) as [m1 d] eqn:E. destruct (all_seen now dly r m1) as [m2 d'] eqn:E2.
  cbn [fst snd] in *. apply orb_false_iff in Hs as [-> ->]. destruct Hc as [(e & He & _ & Hw & ->) | [? _]]; [| done]. destruct (Hm k e He) as [H1 H2 H3].
  apply elem_of_cons in Hx as [-> | Hx].
  - exists (firstSeen e). split; [done |]. destruct Hw as [Hw | Hw]; [specialize (H3 Hw); lia | done].
  - apply (IH (<[k := {| firstSeen := firstSeen e; lastSeen := now; allowed := true |}]> m)); [| by rewrite E2 | done]. intros k' e' He'.
    destruct (decide (k' = k)) as [-> | Hne]; [| rewrite lookup_insert_ne in He' by done; by apply Hm].
    rewrite lookup_insert_eq in He'. injection He' as <-. constructor; cbn [firstSeen lastSeen allowed]; [done | lia |].
    intros _. destruct Hw as [Hw | Hw]; [specialize (H3 Hw); lia | lia].
Qed.

(** Whatever arrived before, a message is let through only if each of its triplets
    was attempted before, at least the delay earlier. *)
Theorem greylist_only_retries now0 d h now iter iter' ip from to s' : 0 <= d <= max_int64 ->
  star gl_step (gl_init now0 d) h -> clock h <= now -> Process now iter iter' ip from to (stage h) = (false, s') ->
  forall r, r ∈ to -> exists t, (t, triplet ip from r) ∈ attempts h /\ t + delay (stage h) <= now.
Proof.
  intros Hd Hr Hc Hp r Hin. pose proof (reachable_ok now0 d h Hd Hr) as [Hdl Hm]. destruct (Process_table now iter iter' ip from to (stage h)) as (_ & Es & _).
  rewrite Hp in Es. cbn [fst] in Es. eapply (all_seen_accepts now (delay (stage h)) (attempts h) _ (fst (cleanup now (stage h) (make_room now iter iter' (stage h))))).
  - rewrite Hdl. cbn. destruct (Z.ltb_spec 0 d); [lia |]. unfold max_int64, minute, second. lia.
  - eapply table_ok_submap; [| apply prepared_sub]. rewrite Hdl. intros k e He. eapply entry_ok_later; [by apply Hm | done | done].
  - done.
  - apply list_elem_of_fmap. by exists r.
Qed.

(** ** Retries *)
Section Retry.
Context (dly t0 t1 : Z).
Hypothesis Hdly : 0 <= dly <= max_int64.
Hypothesis Hwindow : t0 <= t1 /\ t1 - t0 + dly <= 6 * hour.
Hypothesis Hepoch : 0 <= t0.

(** An entry that a message of time [t0] leaves behind. *)
Definition tried (e : greylistEntry) : Prop :=
  if allowed e then t0 <= lastSeen e <= t1 else t0 - dly <= firstSeen e <= t0.

Lemma tried_not_expired e now : tried e -> now <= t1 -> greylistExpired e now = false.
Proof.
  unfold tried, greylistExpired. unfold hour, minute, second in *. intros He Hn. destruct (allowed e).
  - rewrite (proj2 (Z.eqb_neq (lastSeen e) zero_time)) by (unfold zero_time, second; lia). apply Z.ltb_ge. unfold time_sub, day, hour, minute, second, min_int64, max_int64. lia.
  - apply Z.ltb_ge. unfold time_sub, min_int64, max_int64. lia.
Qed.

(** The table knows the key. *)
Definition known (k : gostring) m : Prop := exists e, m !! k = Some e /\ tried e.

Lemma seen_known now key k m : t0 <= now <= t1 -> known k m -> known k (fst (seen now dly key m)).
Proof.
  intros Hn (e & He & Ht). unfold seen. destruct (decide (k = key)) as [<- | Hne].
  - rewrite He, (tried_not_expired e now) by (done || lia). destruct (negb (allowed e) && _); cbn [fst]; [by exists e |].
    eexists. rewrite lookup_insert_eq. split; [done |]. cbn. lia.
  - assert (Hother : forall x, known k (<[key := x]> m)) by (intros x; exists e; by rewrite lookup_insert_ne).
    destruct (m !! key) as [e' |]; [| apply Hother]. destruct (greylistExpired e' now); [apply Hother |].
    destruct (_ && _); [by exists e | apply Hother].
Qed.

Lemma all_seen_known now keys k m : t0 <= now <= t1 -> known k m -> known k (fst (all_seen now dly keys m)).
Proof.
  intros Hn. revert m. induction keys as [| x r IH]; intros m Hk; [done |]. cbn [all_seen].
  pose proof (seen_known now x k m Hn Hk) as H1. destruct (seen now dly x m) as [m1 d]. specialize (IH m1 H1). by destruct (all_seen now dly r m1).
Qed.

(** With room in the table nothing that was just tried is forgotten. *)
Lemma prepared_known now iter iter' s k : t0 <= now <= t1 -> Z.of_nat (size (greylist s)) < maxEntries s -> known k (greylist s) ->
  known k (fst (cleanup now s (make_room now iter iter' s))).
Proof.
  intros Hn Hroom (e & He & Ht). unfold make_room. rewrite (proj2 (Z.leb_gt _ _)) by lia. unfold cleanup. destruct (_ <? _); cbn [fst]; [| by exists e].
  exists e. split; [| done]. apply map_lookup_filter_Some. split; [done |]. apply tried_not_expired; [done | lia].
Qed.

(** A message leaves an entry for each of its triplets. *)
Lemma seen_tries key m : (forall e, m !! key = Some e -> firstSeen e <= t0) -> known key (fst (seen t0 dly key m)).
Proof.
  intros Hm. unfold seen. assert (Hnew : known key (<[key := {| firstSeen := t0; lastSeen := t0; allowed := false |}]> m)).
  { eexists. rewrite lookup_insert_eq. split; [done |]. cbn. lia. }
  destruct (m !! key) as [e |] eqn:E; [| exact Hnew]. destruct (greylistExpired e t0) eqn:Ex; [exact Hnew |].
  destruct (negb (allowed e) && _) eqn:Ew; cbn [fst]; [| eexists; rewrite lookup_insert_eq; split; [done | cbn; lia]].
  exists e. split; [done |]. apply andb_true_iff in Ew as [Ea Ew]. apply negb_true_iff in Ea. apply Z.ltb_lt in Ew. unfold tried. rewrite Ea.
  specialize (Hm e eq_refl). unfold time_sub, min_int64, max_int64 in *. lia.
Qed.

Lemma seen_first now key m k e : (forall k e, m !! k = Some e -> firstSeen e <= now) -> fst (seen now dly key m) !! k = Some e -> firstSeen e <= now.
Proof.
  intros Hm. unfold seen.
  assert (Hins : forall x, firstSeen x <= now -> <[key := x]> m !! k = Some e -> firstSeen e <= now).
  { intros x Hx [[_ <-] | [_ He]]%lookup_insert_Some; [done | by eapply Hm]. }
  destruct (m !! key) as [e' |] eqn:E; [| by apply Hins]. destruct (greylistExpired e' now); [by apply Hins |].
  destruct (_ && _); [by apply Hm |]. apply Hins. cbn. by eapply Hm.
Qed.

Lemma all_seen_tries keys m k : (forall k e, m !! k = Some e -> firstSeen e <= t0) -> k ∈ keys -> known k (fst (all_seen t0 dly keys m)).
Proof.
  revert m. induction keys as [| x r IH]; intros m Hm Hk; [by apply not_elem_of_nil in Hk |]. cbn [all_seen].
  pose proof (seen_tries x m (Hm x)) as H1. pose proof (fun k e => seen_first t0 x m k e Hm) as H2. destruct (seen t0 dly x m) as [m1 d]. cbn [fst] in *.
  assert (H : known k (fst (all_seen t0 dly r m1))); [| by destruct (all_seen t0 dly r m1)].
  apply elem_of_cons in Hk as [-> | Hk]; [apply all_seen_known; [lia | done] | by apply IH].
Qed.

(** A known key passes once the delay is over. *)
Lemma all_seen_passes keys m : t0 + dly <= t1 -> (forall k, k ∈ keys -> known k m) -> snd (all_seen t1 dly keys m) = false.
Proof.
  intros Hw. revert m. induction keys as [| k r IH]; intros m Hm; [done |]. cbn [all_seen]. destruct (Hm k ltac:(by left)) as (e & He & Ht).
  assert (Hkeep : forall k', k' ∈ r -> known k' (fst (seen t1 dly k m))) by (intros k' Hk'; apply seen_known; [lia | apply Hm; by right]).
  unfold seen in *. rewrite He, (tried_not_expired e t1) in * by (done || lia).
  assert (Hd : negb (allowed e) && (time_sub t1 (firstSeen e) <? dly) = false).
  { unfold tried in Ht. apply andb_false_iff. destruct (allowed e); [by left | right]. apply Z.ltb_ge. unfold time_sub, min_int64, max_int64 in *. lia. }
  rewrite Hd in *. cbn [fst] in Hkeep. specialize (IH _ Hkeep). destruct (all_seen t1 dly r _) as [m2 d2]. exact IH.
Qed.

(** Other messages, none after [t1], while the table has room. *)
Inductive room_step : History -> History -> Prop :=
  | Room now iter iter' ip from to h : clock h <= now <= t1 -> Z.of_nat (size (greylist (stage h))) < maxEntries (stage h) ->
  room_step h (message now iter iter' ip from to h).

Lemma room_known (keys : list gostring) h h' : star room_step h h' ->
  t0 <= clock h -> delay (stage h) = dly -> (forall k, k ∈ keys -> known k (greylist (stage h))) ->
  t0 <= clock h' /\ delay (stage h') = dly /\ forall k, k ∈ keys -> known k (greylist (stage h')).
Proof.
  intros Hs Hc Hd Hk. revert Hs. apply (star_invariant room_step (fun h => t0 <= clock h /\ delay (stage h) = dly /\ forall k, k ∈ keys -> known k (greylist (stage h)))); [done |].
  intros a b (Ha & Hda & Hka) Hab. inversion Hab as [now iter iter' ip from to a0 Hn Hroom]; subst a0 b. unfold message. cbn [stage clock].
  destruct (Process_table now iter iter' ip from to (stage a)) as (Et & _ & Ed & _). rewrite Et, Ed. split_and!; [lia | done |].
  intros k Hin. rewrite Hda. apply all_seen_known; [lia |]. apply prepared_known; [lia | done | by apply Hka].
Qed.
End Retry.

End Greylist.

