(* ===== verification/RateLimit.v ===== *)
(** * internal/ratelimit: per-IP, per-user, global and connection limits

    The whole of ratelimit.go but its locks, tickers and statistics views.  Every
    operation runs under the mutex of the table it changes (CheckMessage holds
    all three), so operations are atomic transitions here.  [now] is the
    limiter's clock and [wall] the clock [time.Until] reads.

    Go iterates a map in an unspecified order and [sort.Slice] may permute equal
    elements: [iter] is the order one eviction sees, any permutation of the map,
    and the sort is a stable one, so every outcome of the code is the outcome for
    some [iter].  Address parsing of package [net] is the class [NetIP]. *)
From S2P Require Import Prelude GoLib.

Class NetIP := {
  SplitHostPort : gostring -> option gostring;      (* the host *)
  ParseIP : gostring -> option gostring;            (* the 16 byte form *)
  IPString : gostring -> gostring                   (* of a 4 or 16 byte address *)
}.

Record Config := {
  IPPerMinute : Z; IPPerHour : Z; IPPerDay : Z; IPConnections : Z;
  UserPerMinute : Z; UserPerHour : Z; UserPerDay : Z; UserMaxRecipients : Z;
  GlobalPerMinute : Z; GlobalPerHour : Z;
  CleanupInterval : Z
}.

Definition DefaultConfig : Config := {|
  IPPerMinute := 30; IPPerHour := 500; IPPerDay := 5000; IPConnections := 10;
  UserPerMinute := 60; UserPerHour := 1000; UserPerDay := 5000; UserMaxRecipients := 100;
  GlobalPerMinute := 10000; GlobalPerHour := 100000; CleanupInterval := 5 * minute |}.

Record globalBucket := {
  gMinuteCount : Z; gMinuteReset : Z; gHourCount : Z; gHourReset : Z }.
Record ipBucket := {
  minuteCount : Z; minuteReset : Z; hourCount : Z; hourReset : Z; dayCount : Z; dayReset : Z }.
Record userBucket := {
  uMinuteCount : Z; uMinuteReset : Z; uHourCount : Z; uHourReset : Z;
  uDayCount : Z; uDayReset : Z; sentToday : Z }.
Record connCounter := { count : Z; until : Z }.

(** The persistent bucket "ratelimit_users"; [None] when there is no database
    (or its bucket could not be created: both read as empty and drop writes). *)
Abbreviation Store := (option (gmap gostring gostring)).

Record RateLimiter := {
  bolt : Store;
  config : Config;
  ipCounters : gmap gostring ipBucket;
  userCounters : gmap gostring userBucket;
  connLimits : gmap gostring connCounter;
  global : globalBucket;
  maxEntries : Z
}.

(** The reason of a refusal carries the limit (and the count) it prints. *)
Inductive Reason :=
  | RIPMinute (n : Z) | RIPHour (n : Z) | RIPDay (n : Z)
  | RUserMinute (n : Z) | RUserHour (n : Z) | RUserDay (n : Z)
  | RGlobalMinute (n : Z) | RGlobalHour (n : Z)
  | RRecipients (n max : Z) | RConnections (n max : Z).
Inductive Result :=
  | Allowed
  | Refused (reason : Reason) (retryAfter : Z).
Definition allowed (r : Result) : bool := match r with Allowed => true | Refused _ _ => false end.

Definition defaultMaxEntries : Z := 100000.
Definition capEntries (rl : RateLimiter) : Z :=
  if 0 <? maxEntries rl then maxEntries rl else defaultMaxEntries.

Definition day : Z := 24 * hour.

Definition New (db : Store) (cfg : option Config) (now : Z) : RateLimiter := {|
  bolt := db; config := default DefaultConfig cfg; ipCounters := ∅; userCounters := ∅;
  connLimits := ∅;
  global := {| gMinuteCount := 0; gMinuteReset := now + minute; gHourCount := 0; gHourReset := now + hour |};
  maxEntries := 0 |}.

(** Record updates. *)
Definition with_bolt (db : Store) (rl : RateLimiter) : RateLimiter := {|
  bolt := db; config := config rl; ipCounters := ipCounters rl; userCounters := userCounters rl;
  connLimits := connLimits rl; global := global rl; maxEntries := maxEntries rl |}.
Definition with_ip (m : gmap gostring ipBucket) (rl : RateLimiter) : RateLimiter := {|
  bolt := bolt rl; config := config rl; ipCounters := m; userCounters := userCounters rl;
  connLimits := connLimits rl; global := global rl; maxEntries := maxEntries rl |}.
Definition with_user (m : gmap gostring userBucket) (rl : RateLimiter) : RateLimiter := {|
  bolt := bolt rl; config := config rl; ipCounters := ipCounters rl; userCounters := m;
  connLimits := connLimits rl; global := global rl; maxEntries := maxEntries rl |}.
Definition with_conn (m : gmap gostring connCounter) (rl : RateLimiter) : RateLimiter := {|
  bolt := bolt rl; config := config rl; ipCounters := ipCounters rl; userCounters := userCounters rl;
  connLimits := m; global := global rl; maxEntries := maxEntries rl |}.
Definition with_global (g : globalBucket) (rl : RateLimiter) : RateLimiter := {|
  bolt := bolt rl; config := config rl; ipCounters := ipCounters rl; userCounters := userCounters rl;
  connLimits := connLimits rl; global := g; maxEntries := maxEntries rl |}.

Definition SetConfig (cfg : option Config) (rl : RateLimiter) : RateLimiter :=
  match cfg with
  | None => rl
  | Some c => {| bolt := bolt rl; config := c; ipCounters := ipCounters rl;
                 userCounters := userCounters rl; connLimits := connLimits rl; global := global rl;
                 maxEntries := maxEntries rl |}
  end.

(** ** Eviction *)
Record evictCand := { key : gostring; busy : bool; at_ : Z }.

Section Evict.
Context (now : Z).

(** The order of [sort.Slice]: expired before live, idle before busy, old
    before new. *)
Definition cand_less (x y : evictCand) : bool :=
  let ei := at_ x <? now in
  let ej := at_ y <? now in
  if negb (Bool.eqb ei ej) then ei
  else if negb (Bool.eqb (busy x) (busy y)) then negb (busy x)
  else at_ x <? at_ y.

Fixpoint cand_insert (x : evictCand) (l : list evictCand) : list evictCand :=
  match l with
  | [] => [x]
  | y :: r => if cand_less y x then y :: cand_insert x r else x :: l
  end.
Definition cand_sort (l : list evictCand) : list evictCand := foldr cand_insert [] l.

Definition evictKeys (cands : list evictCand) (max : Z) : list gostring :=
  let free := Z.quot max 10 in
  let free := if free <? 1 then 1 else free in
  let sorted := cand_sort cands in
  map key (take (Z.to_nat (Z.min free (Z.of_nat (length cands)))) sorted).

Definition delete_keys {V} (ks : list gostring) (m : gmap gostring V) : gmap gostring V :=
  foldr (fun k m => base.delete k m) m ks.

(** Making room in a full map. *)
Definition make_room {V} (cap : Z) (cand : gostring -> V -> evictCand)
  (iter : gmap gostring V -> list (gostring * V)) (m : gmap gostring V) : gmap gostring V :=
  if cap <=? Z.of_nat (size m)
  then delete_keys (evictKeys (map (fun kv => cand kv.1 kv.2) (iter m)) cap) m
  else m.
End Evict.

(** ** Keys *)
Section Keys.
Context {U : UnicodeTables} {N : NetIP}.

(** [To4] of a 16 byte address, and the mask of the first 64 bits. *)
Definition To4 (a : gostring) : option gostring :=
  if (take 12 a =s? (repeat (byte_of 0) 10 ++ [byte_of 255; byte_of 255])) then Some (drop 12 a) else None.
Definition Mask64 (a : gostring) : gostring := take 8 a ++ repeat (byte_of 0) 8.

Definition ipKey (ip : gostring) : gostring :=
  let ip := match SplitHostPort ip with Some host => host | None => ip end in
  let ip := TrimSuffix (TrimPrefix ip "[") "]" in
  let ip := match IndexByte ip "%" with Some i => take i ip | None => ip end in
  match ParseIP ip with
  | None => ip
  | Some addr => match To4 addr with
  | Some v4 => IPString v4
  | None => IPString (Mask64 addr) ++ "/64"
  end
  end.

Definition userKey (user : gostring) : gostring := ToLower (TrimSpace user).
End Keys.

(** ** Persistence of the daily quota *)

(** [binary.BigEndian] on 8 bytes. *)
Definition put_u64 (n : Z) : gostring :=
  map (fun i => byte_of (Z.shiftr n (8 * i) mod 256)) [7; 6; 5; 4; 3; 2; 1; 0].
Definition get_u64 (v : gostring) : Z := fold_left (fun acc c => acc * 256 + bz c) v 0.

Definition load_u64 (db : Store) (k : gostring) : option Z :=
  m ← db; v ← m !! k; if (length v =? 8)%nat then Some (get_u64 v) else None.

Definition sent_key (user : gostring) : gostring := user ++ ":sent_today".
Definition reset_key (user : gostring) : gostring := user ++ ":day_reset".

(** The count, and the end of its window ([None]: the zero time). *)
Definition loadUserSentToday (user : gostring) (db : Store) : Z * option Z :=
  (match load_u64 db (sent_key user) with
   | Some c => if max_int64 <? c then max_int64 else c
   | None => 0
   end,
   wrap_i64 <$> load_u64 db (reset_key user)).

Definition saveUserSentToday (user : gostring) (n : Z) (reset : Z) (db : Store) : Store :=
  match db with
  | None => None
  | Some m =>
      let n := if n <? 0 then 0 else n in
      let m := <[sent_key user := put_u64 n]> m in
      if reset =? zero_time then Some m
      else Some (<[reset_key user := put_u64 (wrap_u64 (wrap_i64 reset))]> m)
  end.

(** ** Buckets *)
Section Ops.
Context {U : UnicodeTables} {N : NetIP}.
Context (now wall : Z).
Context (iter : forall V, gmap gostring V -> list (gostring * V)).

(** Seconds until [reset], at least 1 or else [dflt]. *)
Definition retry (reset dflt : Z) : Z :=
  let secs := dur_secs (time_sub reset wall) in if secs <? 1 then dflt else secs.

Definition fresh_ip : ipBucket := {|
  minuteCount := 0; minuteReset := now + minute; hourCount := 0; hourReset := now + hour;
  dayCount := 0; dayReset := now + day |}.

(** Reset the expired windows. *)
Definition roll_ip (b : ipBucket) : ipBucket := {|
  minuteCount := if minuteReset b <? now then 0 else minuteCount b;
  minuteReset := if minuteReset b <? now then now + minute else minuteReset b;
  hourCount := if hourReset b <? now then 0 else hourCount b;
  hourReset := if hourReset b <? now then now + hour else hourReset b;
  dayCount := if dayReset b <? now then 0 else dayCount b;
  dayReset := if dayReset b <? now then now + day else dayReset b |}.

Definition ipBucketLocked (k : gostring) (rl : RateLimiter) : ipBucket * RateLimiter :=
  match ipCounters rl !! k with
  | None =>
      let m := make_room now (capEntries rl)
      (fun k b => {| key := k; busy := false; at_ := dayReset b |}) (iter _) (ipCounters rl) in
      (fresh_ip, with_ip (<[k := fresh_ip]> m) rl)
  | Some b => (roll_ip b, with_ip (<[k := roll_ip b]> (ipCounters rl)) rl)
  end.

Definition ipLimit (cfg : Config) (b : ipBucket) : Result :=
  if (0 <? IPPerMinute cfg) && (IPPerMinute cfg <=? minuteCount b)
  then Refused (RIPMinute (IPPerMinute cfg)) (retry (minuteReset b) 1)
  else if (0 <? IPPerHour cfg) && (IPPerHour cfg <=? hourCount b)
  then Refused (RIPHour (IPPerHour cfg)) (retry (hourReset b) 60)
  else if (0 <? IPPerDay cfg) && (IPPerDay cfg <=? dayCount b)
  then Refused (RIPDay (IPPerDay cfg)) (retry (dayReset b) 3600)
  else Allowed.

Definition commit_ip (b : ipBucket) : ipBucket := {|
  minuteCount := minuteCount b + 1; minuteReset := minuteReset b; hourCount := hourCount b + 1;
  hourReset := hourReset b; dayCount := dayCount b + 1; dayReset := dayReset b |}.

Definition CheckIP (ip : gostring) (rl : RateLimiter) : Result * RateLimiter :=
  let k := ipKey ip in
  let '(b, rl) := ipBucketLocked k rl in
  let r := ipLimit (config rl) b in
  (r, if allowed r then with_ip (<[k := commit_ip b]> (ipCounters rl)) rl else rl).

(** *** Users *)
Definition fresh_user (sent reset : Z) : userBucket := {|
  uMinuteCount := 0; uMinuteReset := now + minute; uHourCount := 0; uHourReset := now + hour;
  uDayCount := 0; uDayReset := reset; sentToday := sent |}.

(** A new bucket, with the persisted quota when its window is still open and
    not further ahead than a day. *)
Definition restore_user (user : gostring) (db : Store) : userBucket :=
  match db with
  | None => fresh_user 0 (now + day)
  | Some _ =>
      match loadUserSentToday user db with
      | (sent, None) => fresh_user sent (now + day)
      | (sent, Some reset) =>
          if (now <? reset) && (time_sub reset now <=? day) then fresh_user sent reset
          else fresh_user 0 (now + day)
      end
  end.

Definition roll_user (b : userBucket) : userBucket := {|
  uMinuteCount := if uMinuteReset b <? now then 0 else uMinuteCount b;
  uMinuteReset := if uMinuteReset b <? now then now + minute else uMinuteReset b;
  uHourCount := if uHourReset b <? now then 0 else uHourCount b;
  uHourReset := if uHourReset b <? now then now + hour else uHourReset b;
  uDayCount := if uDayReset b <? now then 0 else uDayCount b;
  uDayReset := if uDayReset b <? now then now + day else uDayReset b;
  sentToday := if uDayReset b <? now then 0 else sentToday b |}.

Definition userBucketLocked (user : gostring) (rl : RateLimiter) : userBucket * RateLimiter :=
  match userCounters rl !! user with
  | None =>
      let m := make_room now (capEntries rl)
      (fun k b => {| key := k; busy := false; at_ := uDayReset b |}) (iter _) (userCounters rl) in
      let b := restore_user user (bolt rl) in
      (b, with_user (<[user := b]> m) rl)
  | Some b =>
      let b' := roll_user b in
      let rl := with_user (<[user := b']> (userCounters rl)) rl in
      (b', if uDayReset b <? now
        then with_bolt (saveUserSentToday user 0 (uDayReset b') (bolt rl)) rl else rl)
  end.

Definition userLimit (cfg : Config) (b : userBucket) : Result :=
  if (0 <? UserPerMinute cfg) && (UserPerMinute cfg <=? uMinuteCount b)
  then Refused (RUserMinute (UserPerMinute cfg)) (retry (uMinuteReset b) 1)
  else if (0 <? UserPerHour cfg) && (UserPerHour cfg <=? uHourCount b)
  then Refused (RUserHour (UserPerHour cfg)) (retry (uHourReset b) 60)
  else if (0 <? UserPerDay cfg) && (UserPerDay cfg <=? sentToday b)
  then Refused (RUserDay (UserPerDay cfg)) (retry (uDayReset b) 3600)
  else Allowed.

Definition count_user (b : userBucket) : userBucket := {|
  uMinuteCount := uMinuteCount b + 1; uMinuteReset := uMinuteReset b; uHourCount := uHourCount b + 1;
  uHourReset := uHourReset b; uDayCount := uDayCount b + 1; uDayReset := uDayReset b;
  sentToday := sentToday b + 1 |}.

Definition commitUser (user : gostring) (b : userBucket) (rl : RateLimiter) : RateLimiter :=
  let b' := count_user b in
  with_bolt (saveUserSentToday user (sentToday b') (uDayReset b') (bolt rl))
  (with_user (<[user := b']> (userCounters rl)) rl).

Definition CheckUser (user : gostring) (rl : RateLimiter) : Result * RateLimiter :=
  let user := userKey user in
  let '(b, rl) := userBucketLocked user rl in
  let r := userLimit (config rl) b in
  (r, if allowed r then commitUser user b rl else rl).

(** *** Global *)
Definition resetGlobal (g : globalBucket) : globalBucket := {|
  gMinuteCount := if gMinuteReset g <? now then 0 else gMinuteCount g;
  gMinuteReset := if gMinuteReset g <? now then now + minute else gMinuteReset g;
  gHourCount := if gHourReset g <? now then 0 else gHourCount g;
  gHourReset := if gHourReset g <? now then now + hour else gHourReset g |}.

Definition globalLimit (cfg : Config) (g : globalBucket) : Result :=
  if (0 <? GlobalPerMinute cfg) && (GlobalPerMinute cfg <=? gMinuteCount g)
  then Refused (RGlobalMinute (GlobalPerMinute cfg)) (retry (gMinuteReset g) 1)
  else if (0 <? GlobalPerHour cfg) && (GlobalPerHour cfg <=? gHourCount g)
  then Refused (RGlobalHour (GlobalPerHour cfg)) (retry (gHourReset g) 60)
  else Allowed.

Definition commitGlobal (g : globalBucket) : globalBucket := {|
  gMinuteCount := gMinuteCount g + 1; gMinuteReset := gMinuteReset g;
  gHourCount := gHourCount g + 1; gHourReset := gHourReset g |}.

Definition CheckGlobal (rl : RateLimiter) : Result * RateLimiter :=
  let g := resetGlobal (global rl) in
  let r := globalLimit (config rl) g in
  (r, with_global (if allowed r then commitGlobal g else g) rl).

(** *** One message against all limits *)
Definition checkIPAndGlobal (k : gostring) (rl : RateLimiter) : Result * RateLimiter :=
  let '(b, rl) := ipBucketLocked k rl in
  let r := ipLimit (config rl) b in
  if negb (allowed r) then (r, rl) else
  let g := resetGlobal (global rl) in
  let rl := with_global g rl in
  let r := globalLimit (config rl) g in
  if negb (allowed r) then (r, rl) else
  (Allowed, with_global (commitGlobal g) (with_ip (<[k := commit_ip b]> (ipCounters rl)) rl)).

Definition CheckMessage (user ip : gostring) (rl : RateLimiter) : Result * RateLimiter :=
  let user := userKey user in
  if user =s? [] then checkIPAndGlobal (ipKey ip) rl else
  let '(ub, rl) := userBucketLocked user rl in
  let r := userLimit (config rl) ub in
  if negb (allowed r) then (r, rl) else
  let '(r, rl) := checkIPAndGlobal (ipKey ip) rl in
  if negb (allowed r) then (r, rl) else (Allowed, commitUser user ub rl).

Definition CheckRecipients (n : Z) (rl : RateLimiter) : Result :=
  let cfg := config rl in
  if (0 <? UserMaxRecipients cfg) && (UserMaxRecipients cfg <? n)
  then Refused (RRecipients n (UserMaxRecipients cfg)) 0 else Allowed.

(** *** Connections *)
Definition CheckConnection (ip : gostring) (rl : RateLimiter) : Result * RateLimiter :=
  let ip := ipKey ip in
  match connLimits rl !! ip with
  | None =>
      let m := make_room now (capEntries rl)
      (fun k c => {| key := k; busy := 0 <? count c; at_ := until c |}) (iter _) (connLimits rl) in
      (Allowed, with_conn (<[ip := {| count := 1; until := now + minute |}]> m) rl)
  | Some c =>
      if (count c =? 0) && (until c <? now)
      then (Allowed, with_conn (<[ip := {| count := 1; until := now + minute |}]> (connLimits rl)) rl)
      else
      let cfg := config rl in
      if (0 <? IPConnections cfg) && (IPConnections cfg <=? count c)
      then
      let secs := dur_secs (time_sub (until c) now) in
      (Refused (RConnections (count c) (IPConnections cfg)) (if secs <? 1 then 10 else secs), rl)
      else (Allowed, with_conn (<[ip := {| count := count c + 1; until := until c |}]> (connLimits rl)) rl)
  end.

Definition ReleaseConnection (ip : gostring) (rl : RateLimiter) : RateLimiter :=
  let ip := ipKey ip in
  match connLimits rl !! ip with
  | Some c => if 0 <? count c
      then with_conn (<[ip := {| count := count c - 1; until := until c |}]> (connLimits rl)) rl
      else rl
  | None => rl
  end.

Definition cleanup (rl : RateLimiter) : RateLimiter :=
  let rl := with_ip (filter (fun kv => negb ((dayReset kv.2 <? now) && (hourReset kv.2 + hour <? now)) = true)
    (ipCounters rl)) rl in
  let rl := with_user (filter (fun kv => negb (uDayReset kv.2 <? now) = true) (userCounters rl)) rl in
  with_conn (filter (fun kv => negb ((until kv.2 <? now) && (count kv.2 =? 0)) = true) (connLimits rl)) rl.
End Ops.

(** ** Eviction lemmas *)
Section EvictLemmas.
Context (now : Z).

Lemma cand_insert_perm x l : cand_insert now x l ≡ₚ x :: l.
Proof.
  induction l as [| y l IH]; simpl; [done |]. split_if; [| done]. by rewrite IH, Permutation_swap.
Qed.
Lemma cand_sort_perm l : cand_sort now l ≡ₚ l.
Proof. induction l as [| x l IH]; simpl; [done |]. by rewrite cand_insert_perm, IH. Qed.

(** Nothing that comes later is before what comes earlier. *)
Definition not_before (x y : evictCand) : Prop := cand_less now y x = false.

Lemma cand_less_asym x y : cand_less now x y = true -> cand_less now y x = false.
Proof.
  unfold cand_less. destruct (at_ x <? now), (at_ y <? now), (busy x), (busy y); simpl; try done;
    intros H; breflect; apply Z.ltb_ge; lia.
Qed.

Lemma not_before_trans x y z : not_before x y -> not_before y z -> not_before x z.
Proof.
  unfold not_before, cand_less.
  destruct (at_ x <? now), (at_ y <? now), (at_ z <? now), (busy x), (busy y), (busy z); simpl; try done;
    intros; breflect; apply Z.ltb_ge; lia.
Qed.

Lemma cand_insert_sorted x l :
  StronglySorted not_before l -> StronglySorted not_before (cand_insert now x l).
Proof.
  induction 1 as [| y l Hs IH Hf]; simpl; [by repeat constructor |].
  destruct (cand_less now y x) eqn:E.
  - constructor; [done |]. rewrite cand_insert_perm. constructor; [by apply cand_less_asym | done].
  - constructor; [by constructor |]. constructor; [done |].
    eapply Forall_impl; [exact Hf |]. intros z Hz. by eapply not_before_trans.
Qed.
Lemma cand_sort_sorted l : StronglySorted not_before (cand_sort now l).
Proof. induction l; simpl; [constructor | by apply cand_insert_sorted]. Qed.

Lemma sorted_take_drop n l x y :
  StronglySorted not_before l -> x ∈ take n l -> y ∈ drop n l -> not_before x y.
Proof.
  intros Hs. revert n. induction Hs as [| z l Hs IH Hf]; intros [| n] Hx Hy; simpl in *; try set_solver.
  apply elem_of_cons in Hx as [-> | Hx]; [| eauto].
  rewrite Forall_forall in Hf. apply Hf. rewrite <-(take_drop n l). set_solver.
Qed.

Lemma delete_keys_lookup {V} (ks : list gostring) (m : gmap gostring V) (k : gostring) :
  delete_keys ks m !! k = if decide (k ∈ ks) then None else m !! k.
Proof.
  induction ks as [| j ks IH]; simpl; [by destruct (decide (k ∈ [])); [set_solver |] |].
  destruct (decide (j = k)) as [-> | Hne].
  - rewrite lookup_delete_eq. destruct (decide (k ∈ k :: ks)); [done | set_solver].
  - rewrite lookup_delete_ne, IH by done.
    destruct (decide (k ∈ ks)), (decide (k ∈ j :: ks)); set_solver.
Qed.

Lemma delete_keys_size {V} (ks : list gostring) (m : gmap gostring V) :
  NoDup ks -> (forall k, k ∈ ks -> is_Some (m !! k)) ->
  (size (delete_keys ks m) + length ks = size m)%nat.
Proof.
  intros Hnd. induction Hnd as [| k ks Hk Hnd IH]; intros Hin; simpl; [lia |].
  destruct (Hin k) as [v Hv]; [set_solver |].
  assert (Hl : delete_keys ks m !! k = Some v)
    by (rewrite delete_keys_lookup; destruct (decide (k ∈ ks)); done).
  pose proof (map_size_delete_Some k (delete_keys ks m) ltac:(by exists v)) as Hs.
  assert (0 < size (delete_keys ks m))%nat.
  { assert (size (delete_keys ks m) <> 0%nat); [| lia]. rewrite map_size_non_empty_iff.
    intros He. by rewrite He, lookup_empty in Hl. }
  rewrite Hs. rewrite <-(IH ltac:(set_solver)). lia.
Qed.

Section Room.
Context {V : Type} (cap : Z) (cand : gostring -> V -> evictCand).
Context (iter : gmap gostring V -> list (gostring * V)) (m : gmap gostring V).
Hypothesis Hcap : 1 <= cap.
Hypothesis Hkey : forall k v, key (cand k v) = k.
Hypothesis Hiter : iter m ≡ₚ map_to_list m.

Let cands := map (fun kv => cand kv.1 kv.2) (iter m).

Lemma cands_keys : map key cands ≡ₚ (map_to_list m).*1.
Proof.
  unfold cands. rewrite map_map, Hiter. generalize (map_to_list m) as l.
  induction l as [| [k v] l IH]; simpl; [done |]. by rewrite Hkey, IH.
Qed.

Lemma sorted_keys : map key (cand_sort now cands) ≡ₚ (map_to_list m).*1.
Proof. rewrite <-cands_keys. apply Permutation_map, cand_sort_perm. Qed.

Lemma evict_sub n k : k ∈ map key (take n (cand_sort now cands)) -> is_Some (m !! k).
Proof.
  intros H. apply list_elem_of_In, in_map_iff in H as (c & <- & Hc).
  assert (Hk : key c ∈ (map_to_list m).*1).
  { rewrite <-sorted_keys. apply list_elem_of_In, in_map, list_elem_of_In.
    apply list_elem_of_In in Hc. by apply elem_of_take_sub in Hc. }
  apply list_elem_of_fmap in Hk as ([k v] & -> & Hkv). apply elem_of_map_to_list in Hkv. by exists v.
Qed.

Lemma evict_NoDup n : NoDup (map key (take n (cand_sort now cands))).
Proof.
  assert (H : NoDup (map key (cand_sort now cands)))
    by (rewrite sorted_keys; apply NoDup_fst_map_to_list).
  rewrite <-(take_drop n (cand_sort now cands)), map_app in H. by apply NoDup_app in H as (? & _).
Qed.

Lemma make_room_lookup_None k : m !! k = None -> make_room now cap cand iter m !! k = None.
Proof.
  intros H. unfold make_room. split_if; [| done]. rewrite delete_keys_lookup. by case_decide.
Qed.

Lemma make_room_sub k v : make_room now cap cand iter m !! k = Some v -> m !! k = Some v.
Proof. unfold make_room. split_if; [| done]. rewrite delete_keys_lookup. by case_decide. Qed.

(** There is room for one more afterwards. *)
Lemma make_room_size :
  Z.of_nat (size m) <= cap -> Z.of_nat (size (make_room now cap cand iter m)) < cap.
Proof.
  intros Hs. unfold make_room. destruct (Z.leb_spec cap (Z.of_nat (size m))); [| lia].
  fold cands. unfold evictKeys. set (free := if Z.quot cap 10 <? 1 then 1 else Z.quot cap 10).
  assert (Hf : 1 <= free) by (unfold free; split_if; breflect; lia).
  assert (Hlen : length cands = size m).
  { unfold cands. rewrite length_map, Hiter. apply length_map_to_list. }
  set (n := Z.to_nat (Z.min free (Z.of_nat (length cands)))).
  pose proof (delete_keys_size _ m (evict_NoDup n) (evict_sub n)) as Hd.
  rewrite length_map, length_take in Hd.
  rewrite (Permutation_length (cand_sort_perm cands)) in Hd. lia.
Qed.

(** What is dropped is no better than what is kept. *)
Lemma make_room_order k v k' v' :
  m !! k = Some v -> make_room now cap cand iter m !! k = None ->
  make_room now cap cand iter m !! k' = Some v' ->
  cand_less now (cand k' v') (cand k v) = false.
Proof.
  intros Hk Hgone Hkept. pose proof (make_room_sub _ _ Hkept) as Hk'.
  unfold make_room in *. destruct (cap <=? Z.of_nat (size m)); [| congruence].
  fold cands in Hgone, Hkept. rewrite delete_keys_lookup in Hgone, Hkept.
  unfold evictKeys in *. set (n := Z.to_nat _) in *.
  destruct (decide (k ∈ map key (take n (cand_sort now cands)))) as [Hin |]; [| congruence].
  destruct (decide (k' ∈ map key (take n (cand_sort now cands)))) as [| Hout]; [done |].
  assert (Hc : forall j w, m !! j = Some w -> cand j w ∈ cand_sort now cands).
  { intros j w Hj. rewrite cand_sort_perm. unfold cands. apply list_elem_of_In, in_map_iff.
    exists (j, w). split; [done |]. apply list_elem_of_In. rewrite Hiter. by apply elem_of_map_to_list. }
  assert (Hinj : forall c, c ∈ cand_sort now cands -> exists j w, m !! j = Some w /\ c = cand j w).
  { intros c. rewrite cand_sort_perm. unfold cands. intros H. apply list_elem_of_In, in_map_iff in H as ([j w] & <- & H).
    apply list_elem_of_In in H. rewrite Hiter in H. apply elem_of_map_to_list in H. eauto. }
  apply (sorted_take_drop n (cand_sort now cands)); [apply cand_sort_sorted | |].
  - apply list_elem_of_In, in_map_iff in Hin as (c & Hck & Hc1). apply list_elem_of_In in Hc1.
    destruct (Hinj c) as (j & w & Hj & ->); [by apply elem_of_take_sub in Hc1 |].
    rewrite Hkey in Hck. subst j. by simplify_eq.
  - pose proof (Hc k' v' Hk') as H. rewrite <-(take_drop n (cand_sort now cands)) in H.
    apply elem_of_app in H as [H | H]; [| done]. destruct Hout.
    apply list_elem_of_In, in_map_iff. exists (cand k' v'). split; [done |]. by apply list_elem_of_In.
Qed.
End Room.
End EvictLemmas.
