(* ===== verification/RateLimitProps.v ===== *)
(** * internal/ratelimit: what the limiter guarantees

    The abstract limiter is a table of counts, as they stand at a given time:
    [ip_usage], [user_usage], [global_usage] and [slots].  The theorems state the
    operations against it, the bound on the tables, the order of eviction, and
    that the persisted daily quota survives eviction, cleanup and restart. *)
From S2P Require Import Prelude GoLib RateLimit.

Record usage := { per_minute : Z; per_hour : Z; per_day : Z }.

Section Views.
Context (now : Z).

Definition user_bucket (rl : RateLimiter) (u : gostring) : userBucket :=
  match userCounters rl !! u with
  | Some b => roll_user now b
  | None => restore_user now u (bolt rl)
  end.
Definition ip_bucket (rl : RateLimiter) (k : gostring) : ipBucket :=
  match ipCounters rl !! k with Some b => roll_ip now b | None => fresh_ip now end.

Definition ip_usage (rl : RateLimiter) (k : gostring) : usage :=
  let b := ip_bucket rl k in
  {| per_minute := minuteCount b; per_hour := hourCount b; per_day := dayCount b |}.
(** The daily count is the persisted quota. *)
Definition user_usage (rl : RateLimiter) (u : gostring) : usage :=
  let b := user_bucket rl u in
  {| per_minute := uMinuteCount b; per_hour := uHourCount b; per_day := sentToday b |}.
Definition global_usage (rl : RateLimiter) : Z * Z :=
  let g := resetGlobal now (global rl) in (gMinuteCount g, gHourCount g).
End Views.

Definition spend (n : Z) (u : usage) : usage :=
  {| per_minute := per_minute u + n; per_hour := per_hour u + n; per_day := per_day u + n |}.

(** A limit of 0 or less is no limit. *)
Definition below (limit used : Z) : bool := (limit <=? 0) || (used <? limit).
Definition user_fits (cfg : Config) (u : usage) : bool :=
  below (UserPerMinute cfg) (per_minute u) && below (UserPerHour cfg) (per_hour u) &&
  below (UserPerDay cfg) (per_day u).
Definition ip_fits (cfg : Config) (u : usage) : bool :=
  below (IPPerMinute cfg) (per_minute u) && below (IPPerHour cfg) (per_hour u) &&
  below (IPPerDay cfg) (per_day u).
Definition global_fits (cfg : Config) (g : Z * Z) : bool :=
  below (GlobalPerMinute cfg) g.1 && below (GlobalPerHour cfg) g.2.

Lemma below_test limit used : negb ((0 <? limit) && (limit <=? used)) = below limit used.
Proof.
  unfold below. destruct (Z.ltb_spec 0 limit), (Z.leb_spec limit used), (Z.leb_spec limit 0),
    (Z.ltb_spec used limit); simpl; lia.
Qed.

Ltac limit_cases :=
  rewrite <-?below_test; repeat match goal with |- context [(0 <? ?l) && (?l <=? ?c)] =>
    destruct ((0 <? l) && (l <=? c)) end; done.

Section Spec.
Context {U : UnicodeTables} {N : NetIP}.
Context (now wall : Z) (iter : forall V, gmap gostring V -> list (gostring * V)).

Lemma ipLimit_spec cfg rl k : allowed (ipLimit wall cfg (ip_bucket now rl k)) = ip_fits cfg (ip_usage now rl k).
Proof. unfold ipLimit, ip_fits, ip_usage. simpl. limit_cases. Qed.
Lemma userLimit_spec cfg rl u :
  allowed (userLimit wall cfg (user_bucket now rl u)) = user_fits cfg (user_usage now rl u).
Proof. unfold userLimit, user_fits, user_usage. simpl. limit_cases. Qed.
Lemma globalLimit_spec cfg rl :
  allowed (globalLimit wall cfg (resetGlobal now (global rl))) = global_fits cfg (global_usage now rl).
Proof. unfold globalLimit, global_fits, global_usage. simpl. limit_cases. Qed.

(** Rolling twice at the same time is rolling once. *)
Lemma roll_ip_idem b : roll_ip now (roll_ip now b) = roll_ip now b.
Proof.
  unfold roll_ip, minute, hour, day, hour, minute, second. destruct b; simpl.
  f_equal; repeat split_if; breflect; try lia.
Qed.
Lemma roll_user_idem b : roll_user now (roll_user now b) = roll_user now b.
Proof.
  unfold roll_user, minute, hour, day, hour, minute, second. destruct b; simpl.
  f_equal; repeat split_if; breflect; try lia.
Qed.
Lemma roll_fresh_ip : roll_ip now (fresh_ip now) = fresh_ip now.
Proof.
  unfold roll_ip, fresh_ip, day, hour, minute, second. simpl. f_equal; repeat split_if; breflect; try lia.
Qed.
Lemma resetGlobal_idem g : resetGlobal now (resetGlobal now g) = resetGlobal now g.
Proof.
  unfold resetGlobal, hour, minute, second. destruct g; simpl. f_equal; repeat split_if; breflect; try lia.
Qed.

Lemma make_room_noop {V : Type} (cap : Z) (cand : gostring -> V -> evictCand)
  (it : gmap gostring V -> list (gostring * V)) (m : gmap gostring V) :
  Z.of_nat (size m) < cap -> make_room now cap cand it m = m.
Proof. intros H. unfold make_room. by destruct (Z.leb_spec cap (Z.of_nat (size m))); [lia |]. Qed.

(** Looking an IP up: the bucket as it stands now, and no count changed. *)
Lemma ipBucketLocked_spec k rl :
  Z.of_nat (size (ipCounters rl)) < capEntries rl ->
  fst (ipBucketLocked now iter k rl) = ip_bucket now rl k /\
  snd (ipBucketLocked now iter k rl) = with_ip (<[k := ip_bucket now rl k]> (ipCounters rl)) rl.
Proof.
  intros H. unfold ipBucketLocked, ip_bucket. destruct (ipCounters rl !! k); [done |].
  rewrite make_room_noop by done. done.
Qed.

Lemma ip_bucket_insert m k b k' rl :
  ip_bucket now (with_ip (<[k := b]> m) rl) k' =
  if decide (k = k') then roll_ip now b else ip_bucket now (with_ip m rl) k'.
Proof.
  unfold ip_bucket. simpl. destruct (decide (k = k')) as [-> |]; [by rewrite lookup_insert_eq |].
  by rewrite lookup_insert_ne.
Qed.

Lemma roll_ip_bucket rl k : roll_ip now (ip_bucket now rl k) = ip_bucket now rl k.
Proof. unfold ip_bucket. destruct (ipCounters rl !! k); [apply roll_ip_idem | apply roll_fresh_ip]. Qed.

Lemma ipBucketLocked_usage k k' rl :
  Z.of_nat (size (ipCounters rl)) < capEntries rl ->
  ip_bucket now (snd (ipBucketLocked now iter k rl)) k' = ip_bucket now rl k'.
Proof.
  intros H. destruct (ipBucketLocked_spec k rl H) as [_ ->]. rewrite ip_bucket_insert.
  destruct (decide (k = k')) as [-> |]; [apply roll_ip_bucket | done].
Qed.

Lemma roll_commit_ip rl k : roll_ip now (commit_ip (ip_bucket now rl k)) = commit_ip (ip_bucket now rl k).
Proof.
  pose proof (roll_ip_bucket rl k) as H. destruct (ip_bucket now rl k).
  unfold roll_ip, commit_ip in *. simpl in *. injection H as H1 H2 H3 H4 H5 H6.
  unfold day, hour, minute, second in *.
  f_equal; repeat split_if; breflect; simpl in *; try lia; congruence.
Qed.
End Spec.

(** ** The store *)
Lemma put_u64_length n : length (put_u64 n) = 8%nat.
Proof. done. Qed.

Lemma get_put_u64 n : 0 <= n < 2 ^ 64 -> get_u64 (put_u64 n) = n.
Proof.
  intros Hn. unfold get_u64, put_u64. cbn [map fold_left].
  rewrite !bz_byte_of by (apply Z.mod_pos_bound; lia). rewrite !Z.shiftr_div_pow2 by lia.
  assert (Hstep : forall k k', 0 <= k -> k' = k + 1 ->
    n / 2 ^ (8 * k') * 256 + (n / 2 ^ (8 * k)) mod 256 = n / 2 ^ (8 * k)).
  { intros k k' Hk ->. replace (2 ^ (8 * (k + 1))) with (2 ^ (8 * k) * 256)
      by (replace (8 * (k + 1)) with (8 * k + 8) by lia; by rewrite Z.pow_add_r by lia).
    rewrite <-Z.div_div by lia. pose proof (Z.div_mod (n / 2 ^ (8 * k)) 256). lia. }
  assert (H7 : (0 * 256 + (n / 2 ^ (8 * 7)) mod 256) = n / 2 ^ (8 * 7)).
  { rewrite Z.mod_small; [lia |]. split; [apply Z.div_pos; lia |].
    apply Z.div_lt_upper_bound; [lia |]. change (2 ^ (8 * 7) * 256) with (2 ^ 64). lia. }
  rewrite H7, (Hstep 6 7), (Hstep 5 6), (Hstep 4 5), (Hstep 3 4), (Hstep 2 3), (Hstep 1 2), (Hstep 0 1) by lia.
  by rewrite Z.div_1_r.
Qed.

Lemma sent_reset_ne u v : sent_key u <> reset_key v.
Proof.
  unfold sent_key, reset_key. intros H. apply (f_equal (@rev ascii)) in H.
  rewrite !rev_app_distr in H. done.
Qed.

(** A time whose nanoseconds fit in 64 bits (years 1678 to 2262) is stored
    exactly. *)
Definition storable (t : Z) : Prop := min_int64 <= t <= max_int64.

Lemma wrap_storable t : storable t -> wrap_i64 (wrap_u64 (wrap_i64 t)) = t.
Proof.
  unfold storable, wrap_i64, wrap_u64, min_int64, max_int64.
  change (2 ^ 63) with 9223372036854775808. change (2 ^ 64) with 18446744073709551616.
  intros H. Z.to_euclidean_division_equations. lia.
Qed.
Lemma storable_nonzero t : storable t -> (t =? zero_time) = false.
Proof.
  unfold storable, zero_time, min_int64, second. intros H. apply Z.eqb_neq.
  change (2 ^ 63) with 9223372036854775808 in H. lia.
Qed.

Lemma load_insert_eq m k n :
  0 <= n < 2 ^ 64 -> load_u64 (Some (<[k := put_u64 n]> m)) k = Some n.
Proof.
  intros Hn. unfold load_u64. cbn [mbind option_bind]. rewrite lookup_insert_eq.
  cbn [mbind option_bind]. rewrite put_u64_length, get_put_u64 by done. done.
Qed.
Lemma load_insert_ne m k v k' : k <> k' -> load_u64 (Some (<[k := v]> m)) k' = load_u64 (Some m) k'.
Proof. intros H. unfold load_u64. cbn [mbind option_bind]. by rewrite lookup_insert_ne. Qed.

Lemma load_save_eq u n r m :
  0 <= n <= max_int64 -> storable r ->
  loadUserSentToday u (saveUserSentToday u n r (Some m)) = (n, Some r).
Proof.
  intros Hn Hr. unfold saveUserSentToday, loadUserSentToday. rewrite storable_nonzero by done.
  destruct (Z.ltb_spec n 0); [lia |]. pose proof (sent_reset_ne u u).
  rewrite load_insert_ne, !load_insert_eq by (first [congruence
    | unfold max_int64 in *; lia | unfold wrap_u64; apply Z.mod_pos_bound; lia]).
  destruct (Z.ltb_spec max_int64 n); [lia |]. do 2 f_equal. cbn [fmap option_fmap option_map].
  by rewrite wrap_storable.
Qed.

Lemma load_save_ne u v n r db :
  u <> v -> loadUserSentToday v (saveUserSentToday u n r db) = loadUserSentToday v db.
Proof.
  intros Hne. destruct db as [m |]; [| done].
  assert (H1 : sent_key u <> sent_key v) by (intros H; by apply app_inv_tail in H).
  assert (H2 : reset_key u <> reset_key v) by (intros H; by apply app_inv_tail in H).
  pose proof (sent_reset_ne u v). pose proof (sent_reset_ne v u).
  unfold saveUserSentToday, loadUserSentToday. split_if; by rewrite !load_insert_ne by congruence.
Qed.

Lemma save_None u n r : saveUserSentToday u n r None = None.
Proof. done. Qed.
Lemma save_Some u n r m : exists m', saveUserSentToday u n r (Some m) = Some m'.
Proof. unfold saveUserSentToday. split_if; eauto. Qed.

Lemma restore_save_ne now u v n r db :
  u <> v -> restore_user now v (saveUserSentToday u n r db) = restore_user now v db.
Proof.
  intros Hne. unfold restore_user. rewrite load_save_ne by done.
  destruct db as [m |]; [| done]. by destruct (save_Some u n r m) as [m' ->].
Qed.

(** ** Users *)
Section Users.
Context {U : UnicodeTables} {N : NetIP}.
Context (now : Z) (iter : forall V, gmap gostring V -> list (gostring * V)).

Lemma roll_restored u db : roll_user now (restore_user now u db) = restore_user now u db.
Proof.
  assert (H : forall s r, now <= r -> roll_user now (fresh_user now s r) = fresh_user now s r).
  { intros s r Hr. unfold roll_user, fresh_user, hour, minute, second. simpl.
    f_equal; repeat split_if; breflect; try lia. }
  unfold restore_user, day, hour, minute, second. repeat case_match; breflect; apply H; lia.
Qed.

Lemma roll_user_bucket rl u : roll_user now (user_bucket now rl u) = user_bucket now rl u.
Proof.
  unfold user_bucket. destruct (userCounters rl !! u); [apply roll_user_idem | apply roll_restored].
Qed.

Lemma user_bucket_insert m u b u' rl :
  user_bucket now (with_user (<[u := b]> m) rl) u' =
  if decide (u = u') then roll_user now b else user_bucket now (with_user m rl) u'.
Proof.
  unfold user_bucket. simpl. destruct (decide (u = u')) as [-> |]; [by rewrite lookup_insert_eq |].
  by rewrite lookup_insert_ne.
Qed.

(** Writing the quota of [u] to the store does not show in another user's
    bucket, nor in that of [u] while it is in memory. *)
Lemma user_bucket_save u n r u' rl :
  u <> u' \/ is_Some (userCounters rl !! u') ->
  user_bucket now (with_bolt (saveUserSentToday u n r (bolt rl)) rl) u' = user_bucket now rl u'.
Proof.
  intros H. unfold user_bucket. simpl. destruct (userCounters rl !! u') eqn:E; [done |].
  destruct H as [H | [b H]]; [by apply restore_save_ne | congruence].
Qed.

Definition roomy (rl : RateLimiter) : Prop :=
  Z.of_nat (size (ipCounters rl)) < capEntries rl /\ Z.of_nat (size (userCounters rl)) < capEntries rl.

Lemma userBucketLocked_fst u rl : fst (userBucketLocked now iter u rl) = user_bucket now rl u.
Proof. unfold userBucketLocked, user_bucket. by destruct (userCounters rl !! u). Qed.

Lemma userBucketLocked_usage u u' rl :
  Z.of_nat (size (userCounters rl)) < capEntries rl ->
  user_bucket now (snd (userBucketLocked now iter u rl)) u' = user_bucket now rl u'.
Proof.
  intros H. unfold userBucketLocked. destruct (userCounters rl !! u) as [b |] eqn:E.
  - assert (Hi : user_bucket now (with_user (<[u := roll_user now b]> (userCounters rl)) rl) u' =
      user_bucket now rl u').
    { rewrite user_bucket_insert. destruct (decide (u = u')) as [<- |]; [| done].
      unfold user_bucket. rewrite E. apply roll_user_idem. }
    cbv zeta. cbn [snd]. destruct (uDayReset b <? now); [| exact Hi].
    rewrite user_bucket_save; [exact Hi |]. destruct (decide (u = u')) as [<- |]; [right | by left].
    simpl. rewrite lookup_insert_eq. eauto.
  - rewrite make_room_noop by done. cbn [snd]. rewrite user_bucket_insert.
    destruct (decide (u = u')) as [<- |]; [| done]. rewrite roll_restored. unfold user_bucket. by rewrite E.
Qed.

Lemma userBucketLocked_rest u rl :
  config (snd (userBucketLocked now iter u rl)) = config rl /\
  ipCounters (snd (userBucketLocked now iter u rl)) = ipCounters rl /\
  global (snd (userBucketLocked now iter u rl)) = global rl /\
  capEntries (snd (userBucketLocked now iter u rl)) = capEntries rl.
Proof. unfold userBucketLocked. repeat case_match; done. Qed.

Lemma count_user_rolled rl u : roll_user now (count_user (user_bucket now rl u)) = count_user (user_bucket now rl u).
Proof.
  pose proof (roll_user_bucket rl u) as H. destruct (user_bucket now rl u).
  unfold roll_user, count_user in *. simpl in *. injection H as H1 H2 H3 H4 H5 H6 H7.
  unfold day, hour, minute, second in *.
  f_equal; repeat split_if; breflect; simpl in *; try lia; congruence.
Qed.

Lemma commitUser_usage u u' rl rl0 :
  (forall v, user_bucket now rl v = user_bucket now rl0 v) ->
  user_bucket now (commitUser u (user_bucket now rl0 u) rl) u' =
  if decide (u = u') then count_user (user_bucket now rl0 u) else user_bucket now rl0 u'.
Proof.
  intros Hv. unfold commitUser. cbv zeta.
  set (b' := count_user (user_bucket now rl0 u)).
  change (bolt rl) with (bolt (with_user (<[u := b']> (userCounters rl)) rl)).
  rewrite user_bucket_save.
  - rewrite user_bucket_insert. destruct (decide (u = u')) as [<- |]; [apply count_user_rolled |].
    rewrite <-Hv. done.
  - destruct (decide (u = u')) as [<- |]; [right | by left]. simpl. rewrite lookup_insert_eq. eauto.
Qed.
End Users.

(** ** One message against all limits *)
Definition one (b : bool) : Z := if b then 1 else 0.
Definition add2 (n : Z) (g : Z * Z) : Z * Z := (g.1 + n, g.2 + n).

Section Messages.
Context {U : UnicodeTables} {N : NetIP}.
Context (now wall : Z) (iter : forall V, gmap gostring V -> list (gostring * V)).

Lemma spend_0 u : spend (one false) u = u.
Proof. destruct u. unfold spend. simpl. by rewrite !Z.add_0_r. Qed.
Lemma add2_0 g : add2 (one false) g = g.
Proof. destruct g. unfold add2. simpl. by rewrite !Z.add_0_r. Qed.

Lemma ip_bucket_insert_global g m k b k' rl :
  ip_bucket now (with_global g (with_ip (<[k := b]> m) rl)) k' =
  if decide (k = k') then roll_ip now b else ip_bucket now (with_ip m rl) k'.
Proof. apply (ip_bucket_insert now m k b k' rl). Qed.

Lemma commitGlobal_usage rl1 m rl :
  global_usage now (with_global (commitGlobal (resetGlobal now (global rl))) (with_ip m rl1)) =
  add2 (one true) (global_usage now rl).
Proof.
  unfold global_usage, add2, commitGlobal, resetGlobal, hour, minute, second. simpl.
  f_equal; repeat split_if; breflect; try lia.
Qed.

Definition same_users (rl rl' : RateLimiter) : Prop :=
  userCounters rl' = userCounters rl /\ bolt rl' = bolt rl /\ config rl' = config rl.

Lemma same_users_bucket rl rl' u : same_users rl rl' -> user_bucket now rl' u = user_bucket now rl u.
Proof. intros (H1 & H2 & _). unfold user_bucket. by rewrite H1, H2. Qed.

Lemma checkIPAndGlobal_spec k rl :
  Z.of_nat (size (ipCounters rl)) < capEntries rl ->
  let '(r, rl') := checkIPAndGlobal now wall iter k rl in
  let ok := ip_fits (config rl) (ip_usage now rl k) && global_fits (config rl) (global_usage now rl) in
  allowed r = ok /\
  (forall k', ip_usage now rl' k' = spend (one (ok && bool_decide (k' = k))) (ip_usage now rl k')) /\
  global_usage now rl' = add2 (one ok) (global_usage now rl) /\ same_users rl rl'.
Proof.
  intros Hs. unfold checkIPAndGlobal.
  pose proof (ipBucketLocked_spec now iter k rl Hs) as [H1 H2].
  pose proof (fun k' => ipBucketLocked_usage now iter k k' rl Hs) as H3.
  destruct (ipBucketLocked now iter k rl) as [b rl1]. simpl in H1, H2, H3. subst b.
  assert (Hcfg : config rl1 = config rl /\ global rl1 = global rl /\ same_users rl rl1) by (by subst rl1).
  destruct Hcfg as (Hc & Hg & Hu). rewrite Hc.
  pose proof (ipLimit_spec now wall (config rl) rl k) as Hr1.
  pose proof (globalLimit_spec now wall (config rl) rl) as Hr2.
  rewrite <-Hr1, <-Hr2. set (r1 := ipLimit _ _ _) in *.
  assert (Hglob : global_usage now rl1 = global_usage now rl) by (unfold global_usage; by rewrite Hg).
  destruct (allowed r1) eqn:E1; cbn [negb andb].
  2: { split_and!; [done | | | done].
    - intros k'. unfold ip_usage. rewrite H3. symmetry. apply spend_0.
    - rewrite Hglob. symmetry. apply add2_0. }
  cbn [config with_global]. rewrite Hg, Hc. set (r2 := globalLimit _ _ _) in *.
  destruct (allowed r2) eqn:E2; cbn [negb].
  - split_and!; [done | | | done].
    + intros k'. cbn [andb]. unfold ip_usage.
      rewrite ip_bucket_insert_global, roll_commit_ip.
      rewrite bool_decide_decide. destruct (decide (k = k')) as [<- | Hne].
      * by rewrite decide_True by done.
      * rewrite decide_False by congruence. rewrite <-(H3 k'). rewrite spend_0. done.
    + apply commitGlobal_usage.
  - split_and!; [done | | | done].
    + intros k'. unfold ip_usage. rewrite spend_0, <-(H3 k'). done.
    + unfold global_usage. cbn [global with_global]. rewrite resetGlobal_idem. symmetry. apply add2_0.
Qed.

(** [CheckMessage] is atomic.  A message is allowed exactly when it fits
    the user's, the address's and the global limits as they stand at the time of
    the call; then it is counted once against each of the three and against
    nothing else, and when any of them refuses it nothing is counted anywhere,
    in particular not against the user's daily quota. *)
Theorem check_message_atomic user ip rl :
  roomy rl -> userKey user <> [] ->
  let u := userKey user in
  let k := ipKey ip in
  let '(r, rl') := CheckMessage now wall iter user ip rl in
  let ok := user_fits (config rl) (user_usage now rl u) && ip_fits (config rl) (ip_usage now rl k) &&
  global_fits (config rl) (global_usage now rl) in
  allowed r = ok /\
  (forall u', user_usage now rl' u' = spend (one (ok && bool_decide (u' = u))) (user_usage now rl u')) /\
  (forall k', ip_usage now rl' k' = spend (one (ok && bool_decide (k' = k))) (ip_usage now rl k')) /\
  global_usage now rl' = add2 (one ok) (global_usage now rl).
Proof.
  intros [Hip Hus] Hu. cbv zeta. unfold CheckMessage. rewrite bool_decide_false by done.
  set (u := userKey user). set (k := ipKey ip).
  pose proof (userBucketLocked_fst now iter u rl) as H1.
  pose proof (fun u' => userBucketLocked_usage now iter u u' rl Hus) as H2.
  pose proof (userBucketLocked_rest now iter u rl) as (H3 & H4 & H5 & H6).
  destruct (userBucketLocked now iter u rl) as [ub rl1]. cbn [fst snd] in *. subst ub.
  assert (Hipu : forall k', ip_usage now rl1 k' = ip_usage now rl k')
    by (intros k'; unfold ip_usage, ip_bucket; by rewrite H4).
  assert (Hglu : global_usage now rl1 = global_usage now rl) by (unfold global_usage; by rewrite H5).
  rewrite H3. pose proof (userLimit_spec now wall (config rl) rl u) as Hr1. rewrite <-Hr1.
  set (r1 := userLimit _ _ _) in *. destruct (allowed r1) eqn:E1; cbn [negb andb].
  2: { split_and!; [done | | |]; intros; rewrite ?spend_0, ?add2_0; try done.
    unfold user_usage. by rewrite H2. }
  pose proof (checkIPAndGlobal_spec k rl1 ltac:(by rewrite H4, H6)) as Hs.
  destruct (checkIPAndGlobal now wall iter k rl1) as [r2 rl2].
  rewrite H3, Hglu, Hipu in Hs. destruct Hs as (Ha & Hi & Hg & Hsu). cbv zeta in *.
  assert (Hub : forall u', user_bucket now rl2 u' = user_bucket now rl u')
    by (intros u'; by rewrite (same_users_bucket rl1), H2).
  rewrite <-Ha in *. destruct (allowed r2) eqn:E2; cbn [negb andb].
  - split_and!; [done | | |].
    + intros u'. unfold user_usage. rewrite commitUser_usage by exact Hub.
      rewrite bool_decide_decide. destruct (decide (u = u')) as [<- | Hne];
        [by rewrite decide_True by done | rewrite decide_False by congruence; by rewrite spend_0].
    + intros k'. rewrite <-Hipu. apply Hi.
    + exact Hg.
  - split_and!; [done | | |].
    + intros u'. unfold user_usage. by rewrite Hub, spend_0.
    + intros k'. rewrite <-Hipu. apply Hi.
    + exact Hg.
Qed.
End Messages.

(** ** Bounded tables *)
Section Bounded.
Context {U : UnicodeTables} {N : NetIP}.

(** Every operation on the tables, at any time and for any iteration order. *)
Inductive op :=
  | OpMessage (user ip : gostring) | OpIP (ip : gostring) | OpUser (user : gostring) | OpGlobal
  | OpConnect (ip : gostring) | OpRelease (ip : gostring) | OpCleanup | OpConfig (c : Config).
Definition apply_op (now wall : Z) (iter : forall V, gmap gostring V -> list (gostring * V))
  (o : op) (rl : RateLimiter) : RateLimiter :=
  match o with
  | OpMessage u ip => snd (CheckMessage now wall iter u ip rl)
  | OpIP ip => snd (CheckIP now wall iter ip rl)
  | OpUser u => snd (CheckUser now wall iter u rl)
  | OpGlobal => snd (CheckGlobal now wall rl)
  | OpConnect ip => snd (CheckConnection now iter ip rl)
  | OpRelease ip => ReleaseConnection ip rl
  | OpCleanup => cleanup now rl
  | OpConfig c => SetConfig (Some c) rl
  end.

(** The iteration order is some order of the map's entries. *)
Definition map_order (iter : forall V, gmap gostring V -> list (gostring * V)) : Prop :=
  forall V (m : gmap gostring V), iter V m ≡ₚ map_to_list m.

Definition bounded (rl : RateLimiter) : Prop :=
  Z.of_nat (size (ipCounters rl)) <= capEntries rl /\
  Z.of_nat (size (userCounters rl)) <= capEntries rl /\
  Z.of_nat (size (connLimits rl)) <= capEntries rl.

Lemma capEntries_pos rl : 1 <= capEntries rl.
Proof. unfold capEntries, defaultMaxEntries. split_if; breflect; lia. Qed.

Lemma size_insert_le {V} (m : gmap gostring V) k v c :
  Z.of_nat (size m) <= c -> (m !! k = None -> Z.of_nat (size m) < c) ->
  Z.of_nat (size (<[k := v]> m)) <= c.
Proof.
  intros H1 H2. destruct (m !! k) eqn:E.
  - rewrite map_size_insert_Some by eauto. done.
  - rewrite map_size_insert_None by done. specialize (H2 eq_refl). lia.
Qed.

Lemma size_filter_le {V} (P : gostring * V -> Prop) `{forall x, Decision (P x)} (m : gmap gostring V) c :
  Z.of_nat (size m) <= c -> Z.of_nat (size (filter P m)) <= c.
Proof.
  intros Hc. assert (size (filter P m) <= size m)%nat; [| lia].
  apply map_subseteq_size, map_filter_subseteq.
Qed.

Section Step.
Context (now wall : Z) (iter : forall V, gmap gostring V -> list (gostring * V)).
Context (Hiter : map_order iter).

Lemma ipBucketLocked_bounded k rl :
  bounded rl -> bounded (snd (ipBucketLocked now iter k rl)) /\
  is_Some (ipCounters (snd (ipBucketLocked now iter k rl)) !! k).
Proof.
  intros (H1 & H2 & H3). unfold ipBucketLocked. destruct (ipCounters rl !! k) as [b |] eqn:E; simpl.
  - split; [| by rewrite lookup_insert_eq]. split_and!; try done. apply size_insert_le; [done | congruence].
  - split; [| by rewrite lookup_insert_eq].
    assert (Hr := make_room_size now (capEntries rl)
      (fun k b => {| key := k; busy := false; at_ := dayReset b |}) (iter ipBucket) (ipCounters rl)
      (capEntries_pos rl) ltac:(done) (Hiter _ _) H1).
    split_and!; try done. apply size_insert_le; [simpl; unfold capEntries in *; simpl in *; lia | done].
Qed.

Lemma userBucketLocked_bounded u rl :
  bounded rl -> bounded (snd (userBucketLocked now iter u rl)) /\
  is_Some (userCounters (snd (userBucketLocked now iter u rl)) !! u).
Proof.
  intros (H1 & H2 & H3). unfold userBucketLocked. destruct (userCounters rl !! u) as [b |] eqn:E; cbn [snd].
  - assert (Hs : Z.of_nat (size (<[u := roll_user now b]> (userCounters rl))) <= capEntries rl)
      by (apply size_insert_le; [done | congruence]).
    split_if; (split; [by split_and! | simpl; by rewrite lookup_insert_eq]).
  - split; [| simpl; by rewrite lookup_insert_eq].
    assert (Hr := make_room_size now (capEntries rl)
      (fun k b => {| key := k; busy := false; at_ := uDayReset b |}) (iter userBucket) (userCounters rl)
      (capEntries_pos rl) ltac:(done) (Hiter _ _) H2).
    split_and!; try done. apply size_insert_le; [simpl; unfold capEntries in *; simpl in *; lia | done].
Qed.

Lemma insert_ip_bounded k b g rl :
  bounded rl -> is_Some (ipCounters rl !! k) ->
  bounded (with_global g (with_ip (<[k := b]> (ipCounters rl)) rl)).
Proof.
  intros (H1 & H2 & H3) [c Hk]. split_and!; try done. apply size_insert_le; [done | congruence].
Qed.

Lemma commitUser_bounded u b rl :
  bounded rl -> is_Some (userCounters rl !! u) -> bounded (commitUser u b rl).
Proof.
  intros (H1 & H2 & H3) [c Hu]. split_and!; try done. apply size_insert_le; [done | congruence].
Qed.

Lemma checkIPAndGlobal_bounded k rl :
  bounded rl -> bounded (snd (checkIPAndGlobal now wall iter k rl)) /\
  userCounters (snd (checkIPAndGlobal now wall iter k rl)) = userCounters rl.
Proof.
  intros Hb. unfold checkIPAndGlobal. pose proof (ipBucketLocked_bounded k rl Hb) as [H1 H2].
  assert (Hu : userCounters (snd (ipBucketLocked now iter k rl)) = userCounters rl)
    by (unfold ipBucketLocked; by destruct (ipCounters rl !! k)).
  destruct (ipBucketLocked now iter k rl) as [b rl1]. cbn [fst snd] in *.
  repeat split_if; cbn [snd]; split; try done. by apply (insert_ip_bounded k _ _ (with_global _ rl1)).
Qed.

Lemma CheckConnection_bounded ip rl : bounded rl -> bounded (snd (CheckConnection now iter ip rl)).
Proof.
  intros (H1 & H2 & H3). unfold CheckConnection.
  destruct (connLimits rl !! ipKey ip) as [c |] eqn:E.
  - repeat split_if; cbn [snd]; split_and!; try done; (apply size_insert_le; [done | congruence]).
  - assert (Hr := make_room_size now (capEntries rl)
      (fun k c => {| key := k; busy := 0 <? count c; at_ := until c |}) (iter connCounter) (connLimits rl)
      (capEntries_pos rl) ltac:(done) (Hiter _ _) H3).
    split_and!; try done. apply size_insert_le; [simpl; unfold capEntries in *; simpl in *; lia | done].
Qed.

Lemma apply_op_bounded o rl : bounded rl -> bounded (apply_op now wall iter o rl).
Proof.
  intros Hb. destruct o as [u ip | ip | u | | ip | ip | | c]; simpl.
  - unfold CheckMessage. pose proof (checkIPAndGlobal_bounded (ipKey ip)) as Hc.
    split_if; [by apply Hc |].
    pose proof (userBucketLocked_bounded (userKey u) rl Hb) as [H1 H2].
    destruct (userBucketLocked now iter (userKey u) rl) as [ub rl1]. cbn [snd] in *.
    split_if; [done |]. specialize (Hc rl1 H1) as [Hc1 Hc2].
    destruct (checkIPAndGlobal now wall iter (ipKey ip) rl1) as [r2 rl2]. cbn [snd] in *.
    split_if; [done |]. apply commitUser_bounded; [done | by rewrite Hc2].
  - unfold CheckIP. pose proof (ipBucketLocked_bounded (ipKey ip) rl Hb) as [H1 H2].
    destruct (ipBucketLocked now iter (ipKey ip) rl) as [b rl1]. cbn [snd] in *. split_if; [| done].
    by apply (insert_ip_bounded _ _ (global rl1)).
  - unfold CheckUser. pose proof (userBucketLocked_bounded (userKey u) rl Hb) as [H1 H2].
    destruct (userBucketLocked now iter (userKey u) rl) as [b rl1]. cbn [snd] in *. split_if; [| done].
    by apply commitUser_bounded.
  - done.
  - by apply CheckConnection_bounded.
  - unfold ReleaseConnection. destruct (connLimits rl !! ipKey ip) eqn:E; [| done]. split_if; [| done].
    destruct Hb as (H1 & H2 & H3). split_and!; try done. apply size_insert_le; [done | congruence].
  - destruct Hb as (H1 & H2 & H3). split_and!; by apply size_filter_le.
  - done.
Qed.
End Step.

(** Operations in order, each with its clocks and iteration order. *)
Record event := { e_now : Z; e_wall : Z; e_iter : forall V, gmap gostring V -> list (gostring * V); e_op : op }.
Definition apply_event (rl : RateLimiter) (e : event) : RateLimiter :=
  apply_op (e_now e) (e_wall e) (e_iter e) (e_op e) rl.

(** none of the three tables ever has more entries than its cap, whatever
    addresses and users a flood invents, and whatever order map iteration takes
    during eviction. *)
Theorem tables_bounded db cfg t0 events :
  (forall e, e ∈ events -> map_order (e_iter e)) ->
  let rl := fold_left apply_event events (New db cfg t0) in
  Z.of_nat (size (ipCounters rl)) <= capEntries rl /\
  Z.of_nat (size (userCounters rl)) <= capEntries rl /\
  Z.of_nat (size (connLimits rl)) <= capEntries rl.
Proof.
  intros He. change (bounded (fold_left apply_event events (New db cfg t0))).
  assert (Hb : bounded (New db cfg t0)) by (split_and!; done).
  revert Hb He. generalize (New db cfg t0). induction events as [| e events IH]; intros rl Hb He; [done |].
  apply IH; [apply apply_op_bounded; [apply He; set_solver | done] | set_solver].
Qed.

(** eviction drops the least valuable entries: an entry is dropped only if
    no entry that stays is expired while it is not, or idle while it is busy,
    or older; so a counter with open connections goes only when every counter
    that stays is live and has open connections too. *)
Theorem eviction_order now iter rl ip k c k' c' :
  map_order iter -> connLimits rl !! ipKey ip = None ->
  let m := connLimits (snd (CheckConnection now iter ip rl)) in
  connLimits rl !! k = Some c -> m !! k = None -> m !! k' = Some c' -> k' <> ipKey ip ->
  (until c' < now -> until c < now) /\
  ((until c' < now <-> until c < now) -> 0 < count c -> 0 < count c') /\
  ((until c' < now <-> until c < now) -> (0 < count c <-> 0 < count c') -> until c <= until c').
Proof.
  intros Hi Hnew. unfold CheckConnection. rewrite Hnew. cbn [snd connLimits with_conn].
  intros Hk Hgone Hkept Hne. rewrite lookup_insert_ne in Hkept by done.
  assert (Hg : k <> ipKey ip) by congruence. rewrite lookup_insert_ne in Hgone by done.
  pose proof (make_room_order now (capEntries rl)
    (fun k c => {| key := k; busy := 0 <? count c; at_ := until c |}) (iter connCounter) (connLimits rl)
    ltac:(done) (Hi _ _) k c k' c' Hk Hgone Hkept) as H.
  unfold cand_less in H. simpl in H.
  destruct (Z.ltb_spec (until c') now), (Z.ltb_spec (until c) now); simpl in H; try done;
    destruct (Z.ltb_spec 0 (count c')), (Z.ltb_spec 0 (count c)); simpl in H; try done; breflect;
    split_and!; intros; try lia.
Qed.
End Bounded.

(** ** Connection slots *)
Section Slots.
Context {U : UnicodeTables} {N : NetIP}.

Definition slots (rl : RateLimiter) (k : gostring) : Z :=
  match connLimits rl !! k with Some c => count c | None => 0 end.

Lemma slots_insert rl m k c k' :
  slots (with_conn (<[k := c]> m) rl) k' = if decide (k = k') then count c else slots (with_conn m rl) k'.
Proof.
  unfold slots. simpl. destruct (decide (k = k')) as [-> |]; [by rewrite lookup_insert_eq |].
  by rewrite lookup_insert_ne.
Qed.

Lemma slots_cleanup now rl k : slots (cleanup now rl) k = slots rl k.
Proof.
  unfold slots, cleanup. simpl. destruct (connLimits rl !! k) as [c |] eqn:E.
  - destruct (decide (negb ((until c <? now) && (count c =? 0)) = true)) as [H | H].
    + by rewrite (map_lookup_filter_Some_2 _ _ _ c E H).
    + rewrite map_lookup_filter_None_2; [| right; intros c' Hc'; rewrite E in Hc'; by simplify_eq].
      apply not_true_is_false, negb_false_iff, andb_true_iff in H as [_ H]. by apply Z.eqb_eq in H.
  - by rewrite map_lookup_filter_None_2 by (by left).
Qed.

(** the connection table counts open connections per address.  A
    connection is refused exactly when the address has used up its slots; an
    accepted one takes one slot of its address and of no other; a release gives
    one back, never more than were taken; and the periodic cleanup, which
    removes entries, changes no count. *)
Theorem connection_slots now iter ip rl :
  Z.of_nat (size (connLimits rl)) < capEntries rl ->
  let k := ipKey ip in
  let '(r, rl') := CheckConnection now iter ip rl in
  allowed r = below (IPConnections (config rl)) (slots rl k) /\
  (forall k', slots rl' k' = slots rl k' + one (allowed r && bool_decide (k' = k))) /\
  (forall k', slots (ReleaseConnection ip rl) k' =
    slots rl k' - one (bool_decide (k' = k) && (0 <? slots rl k))) /\
  (forall k', slots (cleanup now rl) k' = slots rl k').
Proof.
  intros Hs. cbv zeta. unfold CheckConnection, ReleaseConnection. set (k := ipKey ip).
  destruct (connLimits rl !! k) as [c |] eqn:E.
  - assert (Hk : slots rl k = count c) by (unfold slots; by rewrite E).
    assert (Hrel : forall k', slots (if 0 <? count c
      then with_conn (<[k := {| count := count c - 1; until := until c |}]> (connLimits rl)) rl else rl) k' =
      slots rl k' - one (bool_decide (k' = k) && (0 <? count c))).
    { intros k'. destruct (0 <? count c); [| rewrite andb_false_r; simpl; lia].
      rewrite slots_insert, andb_true_r, bool_decide_decide. destruct (decide (k = k')) as [<- |].
      - rewrite decide_True by done. rewrite Hk. done.
      - rewrite decide_False by congruence. simpl. rewrite Z.sub_0_r. done. }
    rewrite Hk, <-below_test.
    destruct ((count c =? 0) && (until c <? now)) eqn:E0; breflect.
    + split_and!; [| | exact Hrel | apply slots_cleanup].
      * match goal with H : count c = 0 |- _ => rewrite H end. simpl allowed.
        destruct (Z.ltb_spec 0 (IPConnections (config rl))), (Z.leb_spec (IPConnections (config rl)) 0); simpl; lia.
      * intros k'. rewrite slots_insert, bool_decide_decide. simpl. destruct (decide (k = k')) as [<- |].
        -- rewrite decide_True by done. rewrite Hk. simpl. lia.
        -- rewrite decide_False by congruence. simpl. rewrite Z.add_0_r. done.
    + destruct ((0 <? IPConnections (config rl)) && (IPConnections (config rl) <=? count c)); simpl;
        (split_and!; [done | | exact Hrel | apply slots_cleanup]); intros k'; [lia |].
      rewrite slots_insert, bool_decide_decide. destruct (decide (k = k')) as [<- |].
      * rewrite decide_True by done. rewrite Hk. done.
      * rewrite decide_False by congruence. simpl. rewrite Z.add_0_r. done.
  - assert (Hk : slots rl k = 0) by (unfold slots; by rewrite E).
    rewrite (make_room_noop now) by done. split_and!; [| | | apply slots_cleanup].
    + rewrite Hk. unfold below. simpl. destruct (Z.leb_spec (IPConnections (config rl)) 0),
        (Z.ltb_spec 0 (IPConnections (config rl))); simpl; lia.
    + intros k'. rewrite slots_insert, bool_decide_decide. simpl. destruct (decide (k = k')) as [<- |].
      * rewrite decide_True by done. rewrite Hk. done.
      * rewrite decide_False by congruence. simpl. rewrite Z.add_0_r. done.
    + intros k'. rewrite Hk, andb_false_r. simpl. lia.
Qed.
End Slots.

(** ** The daily quota outlives the process *)
Section Quota.
Context {U : UnicodeTables} {N : NetIP}.

(** What the store says of a user. *)
Definition record_ok (now : Z) (rec : Z * option Z) : Prop :=
  match rec.2 with
  | None => rec.1 = 0
  | Some r => 0 <= rec.1 <= max_int64 /\ storable r /\ r <= now + day
  end.

(** A bucket in memory is what the store has, or unused since its window
    started with the store's window over. *)
Definition bucket_ok (now : Z) (rec : Z * option Z) (b : userBucket) : Prop :=
  0 <= sentToday b <= max_int64 /\ storable (uDayReset b) /\ uDayReset b <= now + day /\
  (rec = (sentToday b, Some (uDayReset b)) \/
    (sentToday b = 0 /\ match rec.2 with Some r => r <= now | None => True end)).

Definition quota_inv (now : Z) (rl : RateLimiter) : Prop :=
  bolt rl <> None /\ 0 < UserPerDay (config rl) <= max_int64 /\
  forall u, record_ok now (loadUserSentToday u (bolt rl)) /\
  forall b, userCounters rl !! u = Some b -> bucket_ok now (loadUserSentToday u (bolt rl)) b.

Lemma quota_later now now' rl : now <= now' -> quota_inv now rl -> quota_inv now' rl.
Proof.
  intros Hle (Hb & Hc & H). split_and!; try done; [lia.. |]. intros u. destruct (H u) as [H1 H2]. split.
  - unfold record_ok in *. repeat case_match; try done. destruct H1 as (? & ? & ?). split_and!; try done; lia.
  - intros b Hu. destruct (H2 b Hu) as (H3 & H4 & H5 & H6). split_and!; try done; try lia.
    destruct H6 as [H6 | [H6 H7]]; [by left | right]. split; [done |]. repeat case_match; try done. lia.
Qed.

Lemma quota_users now rl rl' :
  bolt rl' = bolt rl -> config rl' = config rl ->
  (forall u b, userCounters rl' !! u = Some b -> userCounters rl !! u = Some b) ->
  quota_inv now rl -> quota_inv now rl'.
Proof.
  intros H1 H2 H3 (Hb & Hc & H). unfold quota_inv. rewrite H1, H2. split_and!; try done; [lia.. |].
  intros u. destruct (H u) as [Hr Hm]. split; [done |]. eauto.
Qed.

(** Writing a user's bucket through. *)
Lemma quota_write now u b rl :
  quota_inv now rl -> 0 <= sentToday b <= max_int64 -> storable (uDayReset b) -> uDayReset b <= now + day ->
  quota_inv now (with_bolt (saveUserSentToday u (sentToday b) (uDayReset b) (bolt rl))
    (with_user (<[u := b]> (userCounters rl)) rl)).
Proof.
  intros (Hb & Hc & H) H1 H2 H3. destruct (bolt rl) as [m |] eqn:Em; [| done].
  destruct (save_Some u (sentToday b) (uDayReset b) m) as [m' Hm'].
  assert (Hl : loadUserSentToday u (Some m') = (sentToday b, Some (uDayReset b)))
    by (rewrite <-Hm'; by apply load_save_eq).
  unfold quota_inv. cbn [bolt with_bolt config userCounters with_user]. rewrite Hm'. split_and!; try done; [lia.. |].
  intros v. destruct (decide (u = v)) as [<- | Hne].
  - rewrite Hl. split; [done |]. intros b' Hb'. rewrite lookup_insert_eq in Hb'. simplify_eq.
    split_and!; try done; [lia.. |]. by left.
  - assert (Hv : loadUserSentToday v (Some m') = loadUserSentToday v (Some m))
      by (rewrite <-Hm'; by apply load_save_ne).
    rewrite Hv. destruct (H v) as [Hr Hbk]. split; [done |]. intros b'. rewrite lookup_insert_ne by done.
    apply Hbk.
Qed.

Lemma storable_day now : storable now -> now + day <= max_int64 -> storable (now + day).
Proof. unfold storable, day, hour, minute, second. lia. Qed.

Lemma restored_ok now u rl :
  quota_inv now rl -> storable now -> now + day <= max_int64 ->
  bucket_ok now (loadUserSentToday u (bolt rl)) (restore_user now u (bolt rl)).
Proof.
  intros (Hb & Hc & H) Hn Hd. destruct (H u) as [Hr _]. unfold restore_user.
  destruct (bolt rl) as [m |]; [| done]. pose proof (storable_day now Hn Hd) as Hs.
  assert (Hmax : 0 <= max_int64) by (unfold max_int64; lia).
  destruct (loadUserSentToday u (Some m)) as [n [r |]]; unfold record_ok in Hr; simpl in Hr.
  - destruct Hr as (H1 & H2 & H3). unfold time_sub.
    destruct ((now <? r) && _) eqn:E; breflect; unfold bucket_ok; simpl.
    + split_and!; try done; [lia.. |]. by left.
    + split_and!; try done; [lia.. |]. right. split; [done |].
      destruct E as [E | E]; breflect; [lia |]. exfalso.
      unfold day, hour, minute, second, max_int64, min_int64, storable in *.
      destruct (Z_le_gt_dec r now); [| lia]. lia.
  - subst n. unfold bucket_ok. simpl. split_and!; try done; [lia.. |]. by right.
Qed.

Lemma userBucketLocked_quota now iter u rl :
  map_order iter -> quota_inv now rl -> storable now -> now + day <= max_int64 ->
  let '(b, rl') := userBucketLocked now iter u rl in
  quota_inv now rl' /\ userCounters rl' !! u = Some b /\ config rl' = config rl /\
  bucket_ok now (loadUserSentToday u (bolt rl')) b.
Proof.
  intros Hi Hq Hn Hd. pose proof (restored_ok now u rl Hq Hn Hd) as Hres.
  pose proof Hq as (Hb & Hc & H). destruct (H u) as [Hr Hbk]. unfold userBucketLocked.
  destruct (userCounters rl !! u) as [b |] eqn:E.
  - specialize (Hbk b eq_refl) as (H1 & H2 & H3 & H4). cbv zeta.
    destruct (Z.ltb_spec (uDayReset b) now) as [Hx | Hx].
    + assert (Hw : quota_inv now (with_bolt (saveUserSentToday u (sentToday (roll_user now b))
        (uDayReset (roll_user now b)) (bolt rl)) (with_user (<[u := roll_user now b]> (userCounters rl)) rl))).
      { apply quota_write; [done | ..]; simpl; destruct (Z.ltb_spec (uDayReset b) now); try lia;
          unfold max_int64 in *; try lia. by apply storable_day. }
      simpl sentToday in Hw. destruct (Z.ltb_spec (uDayReset b) now); [| lia].
      split_and!; [exact Hw | simpl; by rewrite lookup_insert_eq | done |].
      destruct Hw as (_ & _ & Hw). destruct (Hw u) as [_ Hw']. apply Hw'. simpl. by rewrite lookup_insert_eq.
    + assert (Hok : bucket_ok now (loadUserSentToday u (bolt rl)) (roll_user now b)).
      { unfold bucket_ok, roll_user. simpl. destruct (Z.ltb_spec (uDayReset b) now); [lia |]. done. }
      split_and!; [| simpl; by rewrite lookup_insert_eq | done | done].
      split_and!; try done; [simpl; lia.. |]. intros v. simpl. destruct (H v) as [Hrv Hbv]. split; [done |].
      intros b'. destruct (decide (u = v)) as [<- |]; [| by rewrite lookup_insert_ne; auto].
      rewrite lookup_insert_eq. intros [= <-]. done.
  - split_and!; [| simpl; by rewrite lookup_insert_eq | done | exact Hres].
    split_and!; try done; [simpl; lia.. |]. intros v. simpl. destruct (H v) as [Hrv Hbv]. split; [done |].
    intros b'. destruct (decide (u = v)) as [<- |].
    + rewrite lookup_insert_eq. intros [= <-]. exact Hres.
    + rewrite lookup_insert_ne by done. intros Hm. apply make_room_sub in Hm. auto.
Qed.

Lemma userLimit_day wall cfg b :
  0 < UserPerDay cfg -> allowed (userLimit wall cfg b) = true -> sentToday b < UserPerDay cfg.
Proof.
  intros Hp. unfold userLimit. repeat split_if; simpl; try done. breflect.
  match goal with H : _ \/ _ |- _ => destruct H; breflect; lia end.
Qed.

Lemma commitUser_quota now wall u b rl :
  quota_inv now rl -> userCounters rl !! u = Some b -> allowed (userLimit wall (config rl) b) = true ->
  quota_inv now (commitUser u b rl).
Proof.
  intros Hq Hb Ha. pose proof Hq as (_ & Hc & H). destruct (H u) as [_ Hbk].
  destruct (Hbk b Hb) as (H1 & H2 & H3 & _). apply userLimit_day in Ha; [| lia].
  apply (quota_write now u (count_user b)); simpl; try done; lia.
Qed.

Lemma checkIPAndGlobal_users now wall iter k rl :
  same_users rl (snd (checkIPAndGlobal now wall iter k rl)).
Proof.
  unfold checkIPAndGlobal, ipBucketLocked. destruct (ipCounters rl !! k); repeat split_if; done.
Qed.

Lemma same_users_quota now rl rl' : same_users rl rl' -> quota_inv now rl -> quota_inv now rl'.
Proof. intros (H1 & H2 & H3). apply quota_users; try done. by rewrite H1. Qed.

Definition op_ok (o : op) : Prop :=
  match o with OpConfig c => 0 < UserPerDay c <= max_int64 | _ => True end.

Lemma apply_op_quota now wall iter o rl :
  map_order iter -> op_ok o -> storable now -> now + day <= max_int64 ->
  quota_inv now rl -> quota_inv now (apply_op now wall iter o rl).
Proof.
  intros Hi Ho Hn Hd Hq. destruct o as [u ip | ip | u | | ip | ip | | c]; simpl.
  - unfold CheckMessage. split_if; [by apply (same_users_quota now rl), Hq; apply checkIPAndGlobal_users |].
    pose proof (userBucketLocked_quota now iter (userKey u) rl Hi Hq Hn Hd) as Hu.
    destruct (userBucketLocked now iter (userKey u) rl) as [b rl1]. destruct Hu as (H1 & H2 & H3 & _).
    destruct (allowed (userLimit wall (config rl1) b)) eqn:E1; [| done]. cbn [negb].
    pose proof (checkIPAndGlobal_users now wall iter (ipKey ip) rl1) as Hs.
    destruct (checkIPAndGlobal now wall iter (ipKey ip) rl1) as [r2 rl2]. cbn [snd] in Hs.
    pose proof (same_users_quota now _ _ Hs H1) as H4. split_if; [done |]. cbn [snd].
    destruct Hs as (Hu & _ & Hcf).
    apply (commitUser_quota now wall); [done | by rewrite Hu | by rewrite Hcf].
  - unfold CheckIP, ipBucketLocked. destruct (ipCounters rl !! ipKey ip); split_if;
      by apply (same_users_quota now rl).
  - unfold CheckUser. pose proof (userBucketLocked_quota now iter (userKey u) rl Hi Hq Hn Hd) as Hu.
    destruct (userBucketLocked now iter (userKey u) rl) as [b rl1]. destruct Hu as (H1 & H2 & H3 & _).
    cbn [snd]. split_if; [| done]. by apply (commitUser_quota now wall).
  - by apply (same_users_quota now rl).
  - unfold CheckConnection. repeat case_match; by apply (same_users_quota now rl).
  - unfold ReleaseConnection. repeat case_match; by apply (same_users_quota now rl).
  - apply (quota_users now rl); try done. intros u b. simpl. rewrite map_lookup_filter_Some. by intros [? _].
  - destruct Hq as (H1 & H2 & H3). done.
Qed.

(** Events in the order of their times, the clock within the range a timestamp
    can be stored in. *)
Fixpoint in_order (now : Z) (es : list event) : Prop :=
  match es with
  | [] => True
  | e :: r => now <= e_now e /\ in_order (e_now e) r
  end.
Definition event_ok (e : event) : Prop :=
  map_order (e_iter e) /\ op_ok (e_op e) /\ storable (e_now e) /\ e_now e + day <= max_int64.

Lemma events_quota now es rl :
  quota_inv now rl -> in_order now es -> Forall event_ok es ->
  quota_inv (match last es with Some e => e_now e | None => now end) (fold_left apply_event es rl).
Proof.
  revert now rl. induction es as [| e es IH]; intros now rl Hq Ho Hok; [done |].
  destruct Ho as [Hle Ho]. inversion Hok as [| ? ? (H1 & H2 & H3 & H4) Hok']; subst.
  specialize (IH (e_now e) (apply_event rl e)).
  assert (Hq' : quota_inv (e_now e) (apply_event rl e))
    by (apply apply_op_quota; try done; by apply (quota_later now)).
  specialize (IH Hq' Ho Hok'). simpl. rewrite last_cons. destruct (last es); done.
Qed.

(** with a database, a user's daily count survives the loss of memory.  For
    any history of operations and any later time, the count a bucket restored
    from the store starts with (after a restart, an eviction or a cleanup) is
    the count the bucket in memory has; neither a fresh quota nor a stale one
    appears.  (Only at the very nanosecond the window ends do the two differ:
    the bucket in memory still counts, a restored one starts anew.) *)
Theorem quota_survives_restart cfg t0 events now u :
  0 < UserPerDay cfg <= max_int64 -> storable t0 -> in_order t0 events -> Forall event_ok events ->
  storable now -> now + day <= max_int64 ->
  (match last events with Some e => e_now e | None => t0 end) <= now ->
  let rl := fold_left apply_event events (New (Some ∅) (Some cfg) t0) in
  (forall b, userCounters rl !! u = Some b -> uDayReset b <> now) ->
  sentToday (restore_user now u (bolt rl)) = sentToday (user_bucket now rl u).
Proof.
  intros Hc Ht Ho Hok Hn Hd Hlast rl Hne.
  assert (Hq : quota_inv now rl).
  { eapply quota_later; [exact Hlast |]. by apply events_quota. }
  unfold user_bucket. destruct (userCounters rl !! u) as [b |] eqn:E; [| done].
  pose proof Hq as (Hb & _ & H). destruct (H u) as [Hr Hbk]. specialize (Hbk b E) as (H1 & H2 & H3 & H4).
  specialize (Hne b eq_refl). unfold restore_user, roll_user. destruct (bolt rl) as [m |]; [| done].
  cbn [sentToday].
  destruct H4 as [H4 | [Hz H4]].
  - rewrite H4. unfold time_sub.
    destruct (Z.ltb_spec now (uDayReset b)), (Z.ltb_spec (uDayReset b) now); try lia; simpl; [| done].
    destruct (Z.leb_spec (Z.max min_int64 (Z.min max_int64 (uDayReset b - now))) day); [done |].
    unfold min_int64, max_int64, day, hour, minute, second in *; lia.
  - rewrite Hz. destruct (loadUserSentToday u (Some m)) as [n [r |]]; simpl in *.
    + destruct (Z.ltb_spec now r); [lia |]. simpl. by destruct (uDayReset b <? now).
    + unfold record_ok in Hr. simpl in Hr. subst n. by destruct (uDayReset b <? now).
Qed.
End Quota.

(** ** Witnesses *)
Module Examples.
#[export] Existing Instance ascii_tables.
(** Addresses are their own canonical form. *)
#[export] Instance verbatim_ip : NetIP :=
  {| SplitHostPort := fun _ => None; ParseIP := fun _ => None; IPString := id |}.
Definition list_order (V : Type) (m : gmap gostring V) : list (gostring * V) := map_to_list m.
Lemma list_order_ok : map_order list_order.
Proof. by intros V m. Qed.

(** One message per minute and user, two per day. *)
Definition strict : Config := {|
  IPPerMinute := 3; IPPerHour := 0; IPPerDay := 0; IPConnections := 1; UserPerMinute := 1;
  UserPerHour := 0; UserPerDay := 2; UserMaxRecipients := 0; GlobalPerMinute := 0; GlobalPerHour := 0;
  CleanupInterval := 0 |}.
Definition msg (t : Z) : event :=
  {| e_now := t; e_wall := t; e_iter := list_order; e_op := OpMessage "Ann " "192.0.2.1" |}.
(** The second message is refused by the minute limit. *)
Definition history : list event := [msg 10; msg 20; msg (2 * minute)].
Definition limiter : RateLimiter := fold_left apply_event history (New (Some ∅) (Some strict) 0).
Example history_counts : sentToday (user_bucket (3 * minute) limiter "ann") = 2 /\
  per_minute (ip_usage (2 * minute) limiter "192.0.2.1") = 1.
Proof. vm_compute. done. Qed.
End Examples.
Import Examples.

Lemma check_message_atomic_witness :
  allowed (fst (CheckMessage (3 * minute) (3 * minute) list_order "ann" "192.0.2.9" limiter)) = false /\
  user_usage (3 * minute) (snd (CheckMessage (3 * minute) (3 * minute) list_order "ann" "192.0.2.9" limiter)) "ann" =
    spend 0 (user_usage (3 * minute) limiter "ann").
Proof.
  pose proof (check_message_atomic (3 * minute) (3 * minute) list_order "ann" "192.0.2.9" limiter) as H.
  assert (Hr : roomy limiter) by (split; vm_compute; reflexivity).
  specialize (H Hr ltac:(discriminate)). cbv zeta in H.
  destruct (CheckMessage (3 * minute) (3 * minute) list_order "ann" "192.0.2.9" limiter) as [r rl'] eqn:E.
  destruct H as (Ha & Hu & _). split; [cbn [fst]; rewrite Ha; vm_compute; reflexivity |].
  cbn [snd]. rewrite Hu. vm_compute. reflexivity.
Defined.

Lemma tables_bounded_witness : Z.of_nat (size (userCounters limiter)) <= capEntries limiter.
Proof.
  refine (proj1 (proj2 (tables_bounded (Some ∅) (Some strict) 0 history _))).
  intros e He. unfold history in He.
  repeat (apply elem_of_cons in He as [-> | He]; [exact list_order_ok |]). by apply elem_of_nil in He.
Defined.

(** Two slots, one taken by an open connection, one idle: the idle one goes. *)
Definition crowded : RateLimiter := {|
  bolt := None; config := strict; ipCounters := ∅; userCounters := ∅;
  connLimits := <[("a" : gostring) := {| count := 0; until := 50 |}]>
                  (<[("b" : gostring) := {| count := 1; until := 50 |}]> ∅);
  global := global (New None None 0); maxEntries := 2 |}.
Lemma eviction_order_witness :
  connLimits (snd (CheckConnection 10 list_order "c" crowded)) !! ("a" : gostring) = None /\
  (((50 < 10) <-> (50 < 10)) -> (0 < 0) -> 0 < 1).
Proof.
  split; [vm_compute; reflexivity |].
  refine (proj1 (proj2 (eviction_order 10 list_order crowded "c" "a" {| count := 0; until := 50 |} "b"
    {| count := 1; until := 50 |} list_order_ok _ _ _ _ _)));
    (vm_compute; reflexivity) || discriminate.
Defined.

Lemma connection_slots_witness :
  allowed (fst (CheckConnection 10 list_order "b" (with_conn (delete ("a" : gostring) (connLimits crowded)) crowded))) = false.
Proof.
  pose proof (connection_slots 10 list_order "b" (with_conn (delete ("a" : gostring) (connLimits crowded)) crowded)) as H.
  specialize (H ltac:(vm_compute; reflexivity)). cbv zeta in H.
  destruct (CheckConnection 10 list_order "b" _) as [r rl']. destruct H as (H & _).
  cbn [fst]. rewrite H. vm_compute. reflexivity.
Defined.

Lemma quota_survives_restart_witness :
  sentToday (restore_user (3 * minute) "ann" (bolt limiter)) = 2.
Proof.
  transitivity (sentToday (user_bucket (3 * minute) limiter "ann")); [| vm_compute; reflexivity].
  refine (quota_survives_restart strict 0 history (3 * minute) "ann" _ _ _ _ _ _ _ _).
  - split; [reflexivity | discriminate].
  - split; discriminate.
  - repeat split; discriminate.
  - repeat constructor; try exact list_order_ok; discriminate.
  - split; discriminate.
  - discriminate.
  - discriminate.
  - intros b Hb. vm_compute in Hb. injection Hb as <-. discriminate.
Defined.
