(* ===== verification/ImapSeq.v ===== *)
(** * internal/imap: sequence sets and the session's sequence view

    parser.go (sequence sets) and seqview.go (the per-session snapshot of UIDs
    that gives message sequence numbers their meaning).  The mail store is the
    list of UIDs [liveUIDs] returns, or an error; a session has its snapshot, the
    counters of the selected mailbox and the untagged responses it wrote. *)
From S2P Require Import Prelude GoLib.

Definition wrap_u32 (z : Z) : Z := z mod 2 ^ 32.

(** ** parser.go *)

(** 0 is "*". *)
Record SeqRange := { Start : Z; End_ : Z }.

#[export] Instance SeqRange_eq_dec : EqDecision SeqRange.
Proof. solve_decision. Defined.

Inductive seq_error := ErrInvalidSet | ErrInvalidRange | ErrInvalidNumber.

Definition parseSeqNumber (s : gostring) : result seq_error Z :=
  if s =s? "*" then Ok 0 else
  match ParseUint s max_uint32 with
  | Ok n => if n =? 0 then Err ErrInvalidNumber else Ok n
  | Err _ => Err ErrInvalidNumber
  end.

(** One element of the set. *)
Definition parsePart (part : gostring) : result seq_error SeqRange :=
  if ContainsByte part ":" then
    match Split part ":" with
    | [a; b] => let* start := parseSeqNumber a in
                let* end_ := parseSeqNumber b in
                Ok {| Start := start; End_ := end_ |}
    | _ => Err ErrInvalidRange
    end
  else let* n := parseSeqNumber part in Ok {| Start := n; End_ := n |}.

Fixpoint parseParts (parts : list gostring) : result seq_error (list SeqRange) :=
  match parts with
  | [] => Ok []
  | p :: r =>
      let p := TrimSpace p in
      if p =s? [] then Err ErrInvalidSet
      else let* x := parsePart p in let* xs := parseParts r in Ok (x :: xs)
  end.

Definition ParseSequenceSet (set : gostring) : result seq_error (list SeqRange) :=
  match Split set "," with
  | [p] => if TrimSpace p =s? [] then Ok [] else parseParts [p]
  | parts => parseParts parts
  end.

Definition Contains (r : SeqRange) (seqNum maxSeq : Z) : bool :=
  let start := if Start r =? 0 then maxSeq else Start r in
  let end_ := if End_ r =? 0 then maxSeq else End_ r in
  let '(start, end_) := if end_ <? start then (end_, start) else (start, end_) in
  (start <=? seqNum) && (seqNum <=? end_).

(** ** seqview.go *)
Record Mailbox := { Exists : Z; Recent : Z }.

(** The untagged responses the view writes. *)
Inductive untagged := EXPUNGE (n : Z) | EXISTS (n : Z) | RECENT (n : Z).

Record Session := {
  snap : list Z;
  snapOn : bool;
  selected : Mailbox;
  inSelected : bool;             (* State () = StateSelected *)
  written : list untagged
}.

(** The store's answer: the UIDs of the mailbox in sequence order, or an error. *)
Definition Live : Type := option (list Z).

Definition snapInit (live : Live) (s : Session) : Session :=
  match live with
  | Some u => {| snap := u; snapOn := true;
                 selected := {| Exists := Z.of_nat (length u); Recent := Recent (selected s) |};
                 inSelected := inSelected s; written := written s |}
  | None => {| snap := []; snapOn := false; selected := selected s; inSelected := inSelected s;
               written := written s |}
  end.

(** [sort.Search]: the least index in [lo, hi) at which [f] holds, or [hi].  The
    interval halves, so its length is fuel enough. *)
Fixpoint search (fuel : nat) (f : nat -> bool) (lo hi : nat) : nat :=
  match fuel with
  | O => lo
  | S n =>
      if (lo <? hi)%nat then
        let h := ((lo + hi) / 2)%nat in
        if negb (f h) then search n f (h + 1) hi else search n f lo h
      else lo
  end.
Definition Search (n : nat) (f : nat -> bool) : nat := search (S n) f 0 n.

Definition snapSeq (s : Session) (uid : Z) : option Z :=
  let i := Search (length (snap s)) (fun i => uid <=? nth i (snap s) 0) in
  if (i <? length (snap s))%nat && (nth i (snap s) 0 =? uid)
  then Some (wrap_u32 (Z.of_nat i + 1)) else None.

(** The live sequence number of every UID (a later one would replace an earlier
    one). *)
Fixpoint liveSeq_go (i : Z) (live : list Z) (m : gmap Z Z) : gmap Z Z :=
  match live with
  | [] => m
  | u :: r => liveSeq_go (i + 1) r (<[u := wrap_u32 (i + 1)]> m)
  end.
Definition liveSeq (live : list Z) : gmap Z Z := liveSeq_go 0 live ∅.

(** The live numbers of the snapshot's messages whose session number is in the
    set. *)
Fixpoint selectLive (i : Z) (uids : list Z) (ranges : list SeqRange) (total : Z) (m : gmap Z Z) : list Z :=
  match uids with
  | [] => []
  | uid :: r =>
      (if existsb (fun x => Contains x (wrap_u32 (i + 1)) total) ranges
       then match m !! uid with Some ls => [ls] | None => [] end else [])
      ++ selectLive (i + 1) r ranges total m
  end.

Inductive view_error := ParseError (e : seq_error) | StoreError.

Definition seqToLive (s : Session) (live : Live) (set : gostring) : result view_error gostring :=
  if negb (snapOn s) then Ok set else
  match ParseSequenceSet set with
  | Err e => Err (ParseError e)
  | Ok [] => Ok []
  | Ok ranges =>
      match live with
      | None => Err StoreError
      | Some l =>
          let out := selectLive 0 (snap s) ranges (wrap_u32 (Z.of_nat (length (snap s)))) (liveSeq l) in
          Ok (Join (map FormatUint out) ",")
      end
  end.

Definition liveSeqsToSession (s : Session) (live : Live) (seqs : list Z) : list Z :=
  if negb (snapOn s) || (length seqs =? 0)%nat then seqs else
  match live with
  | None => seqs
  | Some l =>
      omap (fun q => if (q =? 0) || (Z.of_nat (length l) <? q) then None
                     else uid ← l !! Z.to_nat (q - 1); snapSeq s uid) seqs
  end.

(** Positions of the snapshot that are not live, and the UIDs that are. *)
Fixpoint partition_live (i : Z) (uids : list Z) (live : gset Z) : list Z * list Z :=
  match uids with
  | [] => ([], [])
  | u :: r =>
      let '(gone, kept) := partition_live (i + 1) r live in
      if bool_decide (u ∈ live) then (gone, u :: kept) else (i :: gone, kept)
  end.

Definition syncSelected (live : Live) (s : Session) : Session :=
  if negb (snapOn s) || negb (inSelected s) then s else
  match live with
  | None => s
  | Some l =>
      let '(gone, kept) := partition_live 0 (snap s) (list_to_set l) in
      let out := map (fun g => EXPUNGE (g + 1)) (rev gone) in
      let have : gset Z := list_to_set kept in
      let recent := if Z.of_nat (length kept) <? Recent (selected s) then Z.of_nat (length kept)
                    else Recent (selected s) in
      let new := List.filter (fun u => negb (bool_decide (u ∈ have))) l in
      let kept := kept ++ new in
      let added := Z.of_nat (length new) in
      {| snap := kept; snapOn := snapOn s;
         selected := {| Exists := Z.of_nat (length kept);
                        Recent := if 0 <? added then recent + added else recent |};
         inSelected := inSelected s;
         written := written s ++ out ++
           (if 0 <? added then [EXISTS (Z.of_nat (length kept)); RECENT (recent + added)] else []) |}
  end.

Section SyncAllowed.
Context {U : UnicodeTables}.
Definition syncAllowed (command : gostring) (args : list gostring) : bool :=
  let no_sync : list gostring := ["FETCH" : gostring; "STORE" : gostring; "SEARCH" : gostring;
    "SORT" : gostring; "THREAD" : gostring] in
  let closing : list gostring := ["SELECT" : gostring; "EXAMINE" : gostring; "CLOSE" : gostring;
    "UNSELECT" : gostring; "LOGOUT" : gostring; "STARTTLS" : gostring; "COMPRESS" : gostring] in
  if bool_decide (command ∈ no_sync ++ closing) then false
  else if command =s? "UID" then
  match args with
  | a :: _ => negb (bool_decide (ToUpper a ∈ no_sync))
  | [] => true
  end
  else true.
End SyncAllowed.

Definition seqSetInRange (s : Session) (set : gostring) : bool :=
  match ParseSequenceSet set with
  | Err _ => true
  | Ok ranges =>
      if negb (snapOn s) then true else
      let total := wrap_u32 (Z.of_nat (length (snap s))) in
      forallb (fun r => if (Start r =? 0) || (End_ r =? 0) then true
                        else Z.min (Start r) (End_ r) <=? total) ranges
  end.

(** ** Binary search *)
Lemma search_spec fuel f lo hi :
  (forall i j, (i <= j)%nat -> f i = true -> f j = true) -> (lo <= hi)%nat -> (hi - lo < fuel)%nat ->
  let r := search fuel f lo hi in
  (lo <= r <= hi)%nat /\ (forall i, (lo <= i < r)%nat -> f i = false) /\ ((r < hi)%nat -> f r = true).
Proof.
  intros Hmono. revert lo hi. induction fuel as [| n IH]; intros lo hi Hle Hf; cbn [search]; [lia |].
  destruct (Nat.ltb_spec lo hi) as [Hlt | Hge]; [| split_and!; [lia | lia | intros; lia | intros; lia]].
  set (h := ((lo + hi) / 2)%nat).
  assert (Hh : (lo <= h < hi)%nat).
  { unfold h. split; [apply Nat.div_le_lower_bound; lia | apply Nat.Div0.div_lt_upper_bound; lia]. }
  destruct (f h) eqn:Eh; cbn [negb].
  - destruct (IH lo h) as (H1 & H2 & H3); [lia | lia |]. split_and!; [lia | lia | done |].
    intros Hr. destruct (decide (search n f lo h < h)%nat) as [H4 | H4]; [by apply H3 |].
    by replace (search n f lo h) with h by lia.
  - destruct (IH (h + 1)%nat hi) as (H1 & H2 & H3); [lia | lia |]. split_and!; [lia | lia | | done].
    intros i Hi. destruct (decide (i <= h)%nat) as [Hih | Hih]; [| apply H2; lia].
    destruct (f i) eqn:Ei; [| done]. by rewrite (Hmono i h Hih Ei) in Eh.
Qed.

(** Strictly ascending UIDs. *)
Definition ascending (l : list Z) : Prop := StronglySorted Z.lt l.

Lemma ascending_nth l i j :
  ascending l -> (i < j)%nat -> (j < length l)%nat -> nth i l 0 < nth j l 0.
Proof.
  intros Hs. revert i j. induction Hs as [| x l Hs IH Hf]; intros i j Hij Hj; simpl in *; [lia |].
  destruct i as [| i], j as [| j]; try lia.
  - rewrite Forall_forall in Hf. apply Hf, list_elem_of_In, nth_In. lia.
  - apply IH; lia.
Qed.

Definition small (l : list Z) : Prop := Z.of_nat (length l) < 2 ^ 32.

Lemma wrap_u32_small z : 0 <= z < 2 ^ 32 -> wrap_u32 z = z.
Proof. apply Z.mod_small. Qed.

(** in a snapshot of ascending UIDs the binary search finds exactly the
    messages of the snapshot, each at its position counted from 1. *)
Theorem snapSeq_position s uid q :
  ascending (snap s) -> small (snap s) ->
  snapSeq s uid = Some q <-> (1 <= q /\ snap s !! Z.to_nat (q - 1) = Some uid).
Proof.
  intros Hs Hl. unfold snapSeq, Search. set (l := snap s) in *. set (f := fun i => uid <=? nth i l 0).
  (* beyond the end the predicate is irrelevant: search a monotone one *)
  set (g := fun i => (length l <=? i)%nat || f i).
  assert (Hfg : forall fuel lo hi, (hi <= length l)%nat -> search fuel f lo hi = search fuel g lo hi).
  { induction fuel as [| n IH]; intros lo hi Hhi; cbn [search]; [done |].
    destruct (Nat.ltb_spec lo hi) as [Hlt | _]; [| done].
    assert (Hh : ((lo + hi) / 2 < hi)%nat) by (apply Nat.Div0.div_lt_upper_bound; lia).
    assert (Hg : g ((lo + hi) / 2)%nat = f ((lo + hi) / 2)%nat)
      by (unfold g; by destruct (Nat.leb_spec (length l) ((lo + hi) / 2)); [lia |]).
    rewrite Hg, !IH by lia. done. }
  rewrite Hfg by lia.
  destruct (search_spec (S (length l)) g 0 (length l)) as (H1 & H2 & H3); [| lia | lia |].
  { unfold g, f. intros i j Hij Hi. apply orb_true_iff. apply orb_true_iff in Hi as [Hi | Hi]; breflect;
      [left; apply Nat.leb_le; lia |]. destruct (decide (length l <= j)%nat); [left; by apply Nat.leb_le |].
    right. apply Z.leb_le. destruct (decide (i = j)) as [-> |]; [done |].
    pose proof (ascending_nth l i j Hs). lia. }
  set (r := search (S (length l)) g 0 (length l)) in *. unfold small in Hl. split.
  - intros H. destruct (Nat.ltb_spec r (length l)); [| done]. simpl in H.
    destruct (Z.eqb_spec (nth r l 0) uid) as [He |]; [| done]. rewrite wrap_u32_small in H by lia. injection H as <-.
    split; [lia |]. replace (Z.to_nat (Z.of_nat r + 1 - 1)) with r by lia.
    rewrite <-He. by destruct (nth_lookup_or_length l r 0); [| lia].
  - intros [Hq Hu]. apply lookup_lt_Some in Hu as Hlen. apply (nth_lookup_Some l _ 0) in Hu.
    set (p := Z.to_nat (q - 1)) in *.
    assert (Hr : r = p).
    { destruct (lt_eq_lt_dec r p) as [[Hlt | Heq] | Hgt]; [| done |].
      - specialize (H3 ltac:(lia)). unfold g, f in H3.
        destruct (Nat.leb_spec (length l) r); [lia |]. simpl in H3. breflect.
        pose proof (ascending_nth l r p Hs Hlt Hlen). lia.
      - specialize (H2 p ltac:(lia)). unfold g, f in H2. rewrite Hu in H2.
        destruct (Nat.leb_spec (length l) p); [lia |]. simpl in H2. breflect. lia. }
    rewrite Hr, Hu, Z.eqb_refl. destruct (Nat.ltb_spec p (length l)); [| lia]. simpl.
    rewrite wrap_u32_small by lia. f_equal. lia.
Qed.

(** ** Printing and parsing numbers *)
Definition single (n : Z) : SeqRange := {| Start := n; End_ := n |}.
Definition in_u32 (n : Z) : Prop := 1 <= n <= max_uint32.

Lemma digit_visible c : is_digit c = true -> visible c = true.
Proof. unfold is_digit, visible, in_range. intros H. breflect. apply andb_true_iff. split; apply Z.leb_le; lia. Qed.

Lemma TrimSpace_FormatUint n : 0 <= n -> TrimSpace (FormatUint n) = FormatUint n.
Proof.
  intros Hn. rewrite <-(app_nil_r (FormatUint n)) at 1. apply TrimSpace_line; [| apply FormatUint_nonempty | done].
  pose proof (FormatUint_digits n Hn) as Hd. rewrite forallb_true_iff in *. auto using digit_visible.
Qed.

Lemma parsePart_FormatUint n : in_u32 n -> parsePart (FormatUint n) = Ok (single n).
Proof.
  intros [H1 H2]. unfold parsePart. 
  assert (Hcolon : ContainsByte (FormatUint n) ":" = false).
  { unfold ContainsByte, in_set. apply not_true_is_false. intros H. apply existsb_true_iff in H as (c & Hc & He).
    apply Ascii.eqb_eq in He as ->. by apply (digits_not_in ":"%char n); [| lia |]. }
  rewrite Hcolon. unfold parseSeqNumber. rewrite bool_decide_false.
  - rewrite ParseUint_FormatUint by lia. destruct (Z.eqb_spec n 0); [lia | done].
  - intros He. pose proof (FormatUint_digits n ltac:(lia)) as Hd. by rewrite He in Hd.
Qed.

Lemma parseParts_print ns : Forall in_u32 ns -> parseParts (map FormatUint ns) = Ok (map single ns).
Proof.
  induction 1 as [| n ns Hn Hns IH]; simpl; [done |]. destruct Hn as [Hn1 Hn2].
  rewrite TrimSpace_FormatUint by lia. rewrite bool_decide_false by apply FormatUint_nonempty.
  rewrite parsePart_FormatUint by done. simpl. by rewrite IH.
Qed.

Lemma ParseSequenceSet_print ns :
  Forall in_u32 ns -> ParseSequenceSet (Join (map FormatUint ns) ",") = Ok (map single ns).
Proof.
  intros Hns. destruct ns as [| n ns]; [done |].
  unfold ParseSequenceSet. change (Join (map FormatUint (n :: ns)) ",") with (Join (map FormatUint (n :: ns)) [","%char]).
  rewrite Split_Join; [| done |].
  2: { apply Forall_forall. intros f Hf. apply list_elem_of_In, in_map_iff in Hf as (k & <- & Hk).
       rewrite Forall_forall in Hns. apply list_elem_of_In in Hk. destruct (Hns k Hk). apply digits_not_in; [done | lia]. }
  destruct ns as [| m ns]; [| exact (parseParts_print (n :: m :: ns) Hns)].
  pose proof (parseParts_print [n] Hns) as H. cbn [map] in H |- *.
  inversion Hns as [| ? ? [Hn _] _]; subst. rewrite TrimSpace_FormatUint by lia.
  by rewrite bool_decide_false by apply FormatUint_nonempty.
Qed.

(** ** Session numbers to live numbers *)
Lemma liveSeq_go_lookup i live m u :
  NoDup live -> liveSeq_go i live m !! u =
    match list_find (fun x => x = u) live with
    | Some (j, _) => Some (wrap_u32 (i + Z.of_nat j + 1))
    | None => m !! u
    end.
Proof.
  intros Hnd. revert i m. induction Hnd as [| v live Hv Hnd IH]; intros i m; simpl; [done |].
  rewrite IH. destruct (decide (v = u)) as [-> | Hne].
  - destruct (list_find (fun x => x = u) live) as [[j x] |] eqn:E.
    + apply list_find_Some in E as (Hj & -> & _). destruct Hv. by eapply list_elem_of_lookup_2.
    + simpl. rewrite lookup_insert_eq. do 2 f_equal. lia.
  - destruct (list_find (fun x => x = u) live) as [[j x] |]; simpl.
    + do 2 f_equal. lia.
    + by rewrite lookup_insert_ne.
Qed.

Lemma liveSeq_lookup live u q :
  NoDup live -> small live ->
  liveSeq live !! u = Some q <-> (1 <= q /\ live !! Z.to_nat (q - 1) = Some u).
Proof.
  intros Hnd Hl. unfold liveSeq. rewrite liveSeq_go_lookup, lookup_empty by done. unfold small in Hl.
  destruct (list_find (fun x => x = u) live) as [[j x] |] eqn:E.
  - apply list_find_Some in E as (Hj & -> & _). apply lookup_lt_Some in Hj as Hlen.
    rewrite wrap_u32_small by lia. split.
    + intros [= <-]. split; [lia |]. by replace (Z.to_nat (0 + Z.of_nat j + 1 - 1)) with j by lia.
    + intros [Hq Hu]. f_equal. pose proof (NoDup_lookup live j _ u Hnd Hj Hu). lia.
  - split; [done |]. intros [_ Hu]. apply list_find_None in E. rewrite Forall_forall in E.
    destruct (E u); [by eapply list_elem_of_lookup_2 | done].
Qed.

Lemma elem_of_selectLive i uids ranges total m q :
  q ∈ selectLive i uids ranges total m <->
  exists j uid, uids !! j = Some uid /\
    existsb (fun x => Contains x (wrap_u32 (i + Z.of_nat j + 1)) total) ranges = true /\ m !! uid = Some q.
Proof.
  revert i. induction uids as [| u uids IH]; intros i; simpl.
  { split; [by intros ?%elem_of_nil | by intros (j & uid & ? & _)]. }
  rewrite elem_of_app, IH. split.
  - intros [H | (j & uid & H1 & H2 & H3)].
    + exists 0%nat, u. destruct (existsb _ ranges) eqn:E; [| set_solver].
      destruct (m !! u) eqn:Em; [| set_solver]. apply list_elem_of_singleton in H as ->.
      split_and!; [done | by rewrite Z.add_0_r | done].
    + exists (S j), uid. split_and!; try done. by replace (i + Z.of_nat (S j) + 1) with (i + 1 + Z.of_nat j + 1) by lia.
  - intros ([| j] & uid & H1 & H2 & H3); simplify_eq/=.
    + left. rewrite Z.add_0_r in H2. rewrite H2, H3. set_solver.
    + right. exists j, uid. split_and!; try done. by replace (i + 1 + Z.of_nat j + 1) with (i + Z.of_nat (S j) + 1) by lia.
Qed.

(** The message at position [i] of [l] is named by the set. *)
Definition addressed (l : list Z) (ranges : list SeqRange) (uid : Z) : Prop :=
  exists i, l !! i = Some uid /\
    existsb (fun r => Contains r (Z.of_nat i + 1) (Z.of_nat (length l))) ranges = true.

Lemma Contains_single n q total : 1 <= n -> Contains (single n) q total = (n =? q).
Proof.
  intros Hn. unfold Contains, single. simpl. destruct (Z.eqb_spec n 0); [lia |].
  rewrite Z.ltb_irrefl. destruct (Z.eqb_spec n q) as [-> |]; [by rewrite Z.leb_refl |].
  destruct (Z.leb_spec n q), (Z.leb_spec q n); simpl; lia.
Qed.

(** The translated set names the same messages. *)
Lemma seqToLive_addresses s live set ranges uid :
  snapOn s = true -> ParseSequenceSet set = Ok ranges -> ranges <> [] ->
  small (snap s) -> NoDup live -> small live ->
  exists out ranges', seqToLive s (Some live) set = Ok out /\ ParseSequenceSet out = Ok ranges' /\
    (addressed live ranges' uid <-> addressed (snap s) ranges uid /\ uid ∈ live).
Proof.
  intros Hon Hp Hne Hs Hnd Hl. unfold seqToLive. rewrite Hon, Hp. cbn [negb].
  destruct ranges as [| r0 rs]; [done |]. set (ranges := r0 :: rs) in *.
  rewrite (wrap_u32_small (Z.of_nat (length (snap s)))) by (unfold small in Hs; lia).
  set (out := selectLive 0 (snap s) ranges (Z.of_nat (length (snap s))) (liveSeq live)).
  assert (Hout : Forall in_u32 out).
  { apply Forall_forall. intros q Hq. apply elem_of_selectLive in Hq as (j & v & _ & _ & Hm).
    apply liveSeq_lookup in Hm as [H1 H2]; [| done..]. apply lookup_lt_Some in H2.
    unfold small, in_u32, max_uint32 in *. lia. }
  eexists _, (map single out). split_and!; [done | by apply ParseSequenceSet_print |].
  unfold addressed, small in *. split.
  - intros (i & Hi & He). apply existsb_true_iff in He as (r & Hr & Hc).
    apply list_elem_of_In, in_map_iff in Hr as (q & <- & Hq). apply list_elem_of_In in Hq.
    rewrite Forall_forall in Hout. destruct (Hout q Hq) as [Hq1 _].
    rewrite Contains_single in Hc by done. apply Z.eqb_eq in Hc as ->.
    apply elem_of_selectLive in Hq as (j & v & Hj & Hx & Hm).
    apply liveSeq_lookup in Hm as [_ Hm]; [| done..].
    replace (Z.to_nat (Z.of_nat i + 1 - 1)) with i in Hm by lia. simplify_eq.
    split; [| by eapply list_elem_of_lookup_2]. exists j. split; [done |].
    apply lookup_lt_Some in Hj. by rewrite wrap_u32_small in Hx by lia.
  - intros [(j & Hj & Hx) Hu]. apply list_elem_of_lookup in Hu as [i Hi]. exists i. split; [done |].
    apply lookup_lt_Some in Hj as Hlj. apply lookup_lt_Some in Hi as Hli.
    apply existsb_true_iff. exists (single (Z.of_nat i + 1)). split.
    + apply list_elem_of_In, in_map, list_elem_of_In, elem_of_selectLive. exists j, uid. split_and!; [done | |].
      * by rewrite wrap_u32_small by lia.
      * apply liveSeq_lookup; [done | done |]. split; [lia |]. by replace (Z.to_nat (Z.of_nat i + 1 - 1)) with i by lia.
    + rewrite Contains_single by lia. apply Z.eqb_refl.
Qed.

(** a session's sequence set is translated into a set of live numbers that
    names exactly the same messages, less those that other sessions expunged
    meanwhile: whatever was expunged or added, a command never acts on a message
    the client did not name. *)
Theorem seqToLive_same_messages s live set ranges uid :
  snapOn s = true -> ParseSequenceSet set = Ok ranges -> ranges <> [] ->
  small (snap s) -> NoDup live -> small live ->
  exists out ranges', seqToLive s (Some live) set = Ok out /\ ParseSequenceSet out = Ok ranges' /\
    (addressed live ranges' uid <-> addressed (snap s) ranges uid /\ uid ∈ live).
Proof. apply seqToLive_addresses. Qed.

(** ** Announcing the changes *)

(** What a client does with the untagged responses: it keeps one entry per
    message, the UID where it knows it.  [None] is a protocol violation: EXPUNGE
    of a number that does not exist, EXISTS that shrinks the mailbox, RECENT
    above the number of messages. *)
Definition client_step (u : untagged) (c : list (option Z)) : option (list (option Z)) :=
  match u with
  | EXPUNGE n => if (1 <=? n) && (n <=? Z.of_nat (length c))
                 then Some (delete (Z.to_nat (n - 1)) c) else None
  | EXISTS n => if Z.of_nat (length c) <=? n
                then Some (c ++ replicate (Z.to_nat n - length c) None) else None
  | RECENT n => if n <=? Z.of_nat (length c) then Some c else None
  end.
Fixpoint replay (us : list untagged) (c : list (option Z)) : option (list (option Z)) :=
  match us with
  | [] => Some c
  | u :: r => c' ← client_step u c; replay r c'
  end.

Lemma replay_app us vs c : replay (us ++ vs) c = c' ← replay us c; replay vs c'.
Proof.
  revert c. induction us as [| u us IH]; intros c; simpl; [done |].
  destruct (client_step u c); simpl; [apply IH | done].
Qed.

Definition expunges (gone : list Z) : list untagged := map (fun g => EXPUNGE (g + 1)) (rev gone).

Lemma replay_expunges i uids live gone kept pre :
  0 <= i -> length pre = Z.to_nat i -> partition_live i uids live = (gone, kept) ->
  replay (expunges gone) (pre ++ map Some uids) = Some (pre ++ map Some kept).
Proof.
  revert i gone kept pre. induction uids as [| u uids IH]; intros i gone kept pre Hi Hpre H; simpl in H.
  { simplify_eq. by rewrite app_nil_r. }
  destruct (partition_live (i + 1) uids live) as [gone' kept'] eqn:E.
  specialize (IH (i + 1) gone' kept' (pre ++ [Some u]) ltac:(lia)).
  rewrite <-!app_assoc in IH. simpl in IH. rewrite length_app in IH. simpl in IH.
  specialize (IH ltac:(lia) E). case_bool_decide; simplify_eq; [done |].
  unfold expunges in *. simpl. rewrite map_app, replay_app, IH. simpl.
  rewrite length_app. simpl.
  destruct (Z.leb_spec 1 (i + 1)); [| lia].
  destruct (Z.leb_spec (i + 1) (Z.of_nat (length pre + S (length (map Some kept))))); [| lia]. simpl.
  replace (Z.to_nat (i + 1 - 1)) with (length pre) by lia.
  by rewrite delete_middle.
Qed.

Lemma partition_kept i uids live gone kept :
  partition_live i uids live = (gone, kept) -> kept = List.filter (fun u => bool_decide (u ∈ live)) uids.
Proof.
  revert i gone kept. induction uids as [| u uids IH]; intros i gone kept H; simpl in *; [by simplify_eq |].
  destruct (partition_live (i + 1) uids live) as [gone' kept'] eqn:E. apply IH in E as ->.
  by case_bool_decide; simplify_eq.
Qed.

Lemma ascending_filter (f : Z -> bool) l : ascending l -> ascending (List.filter f l).
Proof.
  induction 1 as [| x l Hs IH Hf]; simpl; [constructor |]. destruct (f x); [| done]. constructor; [done |].
  apply Forall_forall. intros y Hy. rewrite Forall_forall in Hf. apply Hf.
  apply list_elem_of_In in Hy. apply filter_In in Hy as [Hy _]. by apply list_elem_of_In.
Qed.

Lemma elem_of_filter_b (f : Z -> bool) l x : x ∈ List.filter f l <-> x ∈ l /\ f x = true.
Proof. rewrite !list_elem_of_In. apply filter_In. Qed.

#[export] Instance Zlt_antisymm : AntiSymm (=) Z.lt.
Proof. intros x y H1 H2. lia. Qed.

Lemma ascending_NoDup l : ascending l -> NoDup l.
Proof.
  induction 1 as [| x l Hs IH Hf]; constructor; [| done]. intros Hx. rewrite Forall_forall in Hf.
  specialize (Hf x Hx). lia.
Qed.

Lemma ascending_app l k :
  ascending l -> ascending k -> (forall x y, x ∈ l -> y ∈ k -> x < y) -> ascending (l ++ k).
Proof.
  intros Hl Hk. induction Hl as [| x l Hs IH Hf]; intros H; simpl; [done |]. constructor.
  - apply IH. set_solver.
  - apply Forall_app. split; [done |]. apply Forall_forall. intros y Hy. apply H; set_solver.
Qed.

Lemma ascending_ext l k : ascending l -> ascending k -> (forall x, x ∈ l <-> x ∈ k) -> l = k.
Proof.
  intros Hl Hk H. eapply (StronglySorted_unique Z.lt); [done | done |].
  apply NoDup_Permutation; auto using ascending_NoDup.
Qed.

(** synchronisation keeps client and server in step.  Replaying the
    announcements, a client that had the old snapshot meets no invalid number and
    ends with as many messages as the new snapshot, every message it knows at the
    position the server has it; what was announced is consistent with the
    counters; and when the store numbers new messages above the old ones, the new
    snapshot is the mailbox. *)
Theorem sync_replays s live :
  snapOn s = true -> inSelected s = true ->
  let s' := syncSelected (Some live) s in
  (exists us c, written s' = written s ++ us /\ replay us (map Some (snap s)) = Some c /\
     length c = length (snap s') /\ (forall i uid, c !! i = Some (Some uid) -> snap s' !! i = Some uid)) /\
  Exists (selected s') = Z.of_nat (length (snap s')) /\
  Recent (selected s') <= Exists (selected s') /\
  (ascending (snap s) -> ascending live ->
   (forall u v, u ∈ live -> (u ∉ snap s) -> v ∈ snap s -> v < u) -> snap s' = live).
Proof.
  intros Hon Hsel. unfold syncSelected. rewrite Hon, Hsel. cbn [negb orb].
  destruct (partition_live 0 (snap s) (list_to_set live)) as [gone kept] eqn:E.
  pose proof (replay_expunges 0 (snap s) _ gone kept [] ltac:(lia) eq_refl E) as Hrep.
  pose proof (partition_kept _ _ _ _ _ E) as Hk. cbn [app] in Hrep.
  set (new := List.filter _ live). cbn [snap written selected Exists Recent].
  set (recent := if Z.of_nat (length kept) <? Recent (selected s) then _ else _).
  assert (Hrec : recent <= Z.of_nat (length kept)).
  { unfold recent. destruct (Z.ltb_spec (Z.of_nat (length kept)) (Recent (selected s))); lia. }
  split_and!.
  - destruct (Z.ltb_spec 0 (Z.of_nat (length new))) as [Hnew | Hnew].
    + eexists _, (map Some kept ++ replicate (length new) None). split_and!; [done | | |].
      * fold (expunges gone). rewrite replay_app, Hrep. simpl. rewrite length_map, length_app.
        destruct (Z.leb_spec (Z.of_nat (length kept)) (Z.of_nat (length kept + length new))); [| lia]. simpl.
        rewrite length_app, length_map, length_replicate.
        replace (Z.to_nat (Z.of_nat (length kept + length new)) - length kept)%nat with (length new) by lia.
        destruct (Z.leb_spec (recent + Z.of_nat (length new)) (Z.of_nat (length kept + length new))); [done | lia].
      * by rewrite !length_app, length_map, length_replicate.
      * intros i uid H. apply lookup_app_Some in H as [H | [_ H]].
        -- rewrite list_lookup_fmap in H. destruct (kept !! i) eqn:Ei; simplify_eq/=.
           by apply lookup_app_l_Some.
        -- apply lookup_replicate in H as [H _]. done.
    + assert (Hnil : new = []) by (destruct new; [done | simpl in Hnew; lia]). rewrite Hnil, !app_nil_r.
      eexists _, (map Some kept). split_and!; [done | exact Hrep | by rewrite length_map |].
      intros i uid H. rewrite list_lookup_fmap in H. by destruct (kept !! i); simplify_eq/=.
  - done.
  - rewrite length_app. split_if; lia.
  - intros Ha Hl Hord. assert (Hkept : forall u, u ∈ kept <-> u ∈ snap s /\ u ∈ live).
    { intros u. rewrite Hk, elem_of_filter_b, bool_decide_eq_true, elem_of_list_to_set. done. }
    apply ascending_ext; [| done |].
    + apply ascending_app; [rewrite Hk; by apply ascending_filter | by apply ascending_filter |].
      intros x y Hx Hy. unfold new in Hy. rewrite elem_of_filter_b in Hy. destruct Hy as [Hy Hny]. breflect.
      rewrite elem_of_list_to_set in Hny. apply Hkept in Hx as [Hx _]. apply Hord; try done.
      intros Hs. apply Hny, Hkept. done.
    + intros u. rewrite elem_of_app. unfold new. rewrite elem_of_filter_b, negb_true_iff, bool_decide_eq_false.
      rewrite elem_of_list_to_set. destruct (decide (u ∈ kept)) as [Hu | Hu]; [| tauto].
      split; [| by left]. intros _. by apply Hkept in Hu as [_ ?].
Qed.

(** ** Witnesses *)
Definition ex_session : Session := {|
  snap := [3; 5; 9; 12]; snapOn := true; selected := {| Exists := 4; Recent := 4 |};
  inSelected := true; written := [] |}.
Definition ex_live : list Z := [3; 9; 12; 20].

Lemma ex_ascending : ascending (snap ex_session).
Proof. repeat constructor. Defined.
Lemma ex_live_ascending : ascending ex_live.
Proof. repeat constructor. Defined.

Lemma snapSeq_position_witness : snapSeq ex_session 9 = Some 3.
Proof.
  apply (snapSeq_position ex_session 9 3); [exact ex_ascending | reflexivity |].
  split; [discriminate | reflexivity].
Defined.

(** Numbers 2 to 4 of the session are UIDs 5, 9 and 12; 5 is gone. *)
Lemma seqToLive_same_messages_witness :
  seqToLive ex_session (Some ex_live) "4,2:3" = Ok ("2,3" : gostring) /\
  exists out ranges', seqToLive ex_session (Some ex_live) "4,2:3" = Ok out /\
    ParseSequenceSet out = Ok ranges' /\
    (addressed ex_live ranges' 12 <->
     addressed (snap ex_session) [{| Start := 4; End_ := 4 |}; {| Start := 2; End_ := 3 |}] 12 /\ 12 ∈ ex_live).
Proof.
  split; [vm_compute; reflexivity |].
  apply (seqToLive_same_messages ex_session ex_live "4,2:3"
           [{| Start := 4; End_ := 4 |}; {| Start := 2; End_ := 3 |}] 12);
    [reflexivity | vm_compute; reflexivity | discriminate | reflexivity
    | exact (ascending_NoDup _ ex_live_ascending) | reflexivity].
Defined.

Lemma sync_replays_witness :
  written (syncSelected (Some ex_live) ex_session) = [EXPUNGE 2; EXISTS 4; RECENT 4] /\
  snap (syncSelected (Some ex_live) ex_session) = ex_live.
Proof.
  split; [vm_compute; reflexivity |].
  destruct (sync_replays ex_session ex_live eq_refl eq_refl) as (_ & _ & _ & H).
  apply H; [exact ex_ascending | exact ex_live_ascending |].
  intros u v Hu Hn Hv. apply list_elem_of_In in Hu, Hv. simpl in Hu, Hv.
  assert (Hn' : ~ In u (snap ex_session)) by (intros Hin; apply Hn, list_elem_of_In, Hin).
  simpl in Hn'. lia.
Defined.
