(* ===== verification/ImapNames.v ===== *)
(** * internal/imap: mailbox names, quoted arguments and literals

    utf7.go (modified UTF-7), mailbox_names.go (quoting and the rules for names)
    and literals.go (command literals).  Unicode normalisation comes from a
    package outside the repository: the class [Normalizer]. *)
From S2P Require Import Prelude GoLib Base64 Utf8 SmtpData.

(** ** Modified UTF-7 (utf7.go) *)
Definition mutf7_alphabet : gostring :=
  "ABCDEFGHIJKLMNOPQRSTUVWXYZabcdefghijklmnopqrstuvwxyz0123456789+,".
Definition mutf7Enc : encoding := {| alphabet := mutf7_alphabet; padded := false; strict := false |}.
Definition mutf7Strict : encoding := {| alphabet := mutf7_alphabet; padded := false; strict := true |}.

(** [utf16.EncodeRune] and the fallback: the 16 bit units of a rune. *)
Definition utf16_units (r : Z) : list Z :=
  if (65536 <=? r) && (r <=? 1114111)
  then [55296 + (r - 65536) / 1024; 56320 + (r - 65536) mod 1024]
  else [r mod 65536].

Definition printable (r : Z) : bool := (32 <=? r) && (r <=? 126).

Definition unit_bytes (u : Z) : gostring := [byte_of (u / 256); byte_of (u mod 256)].

Definition flush (run : list Z) : gostring :=
  match run with
  | [] => []
  | _ => "&" ++ encode mutf7Enc (concat (map unit_bytes run)) ++ "-"
  end.

Fixpoint encode_go (rs : list Z) (run : list Z) : gostring :=
  match rs with
  | [] => flush run
  | r :: rs =>
      if printable r
      then flush run ++ (if r =? 38 then "&-" : gostring else encode_rune r) ++ encode_go rs []
      else encode_go rs (run ++ utf16_units r)
  end.
Definition encodeMUTF7 (name : gostring) : gostring := encode_go (runes name) [].

(** [utf16.DecodeRune]. *)
Definition utf16_pair (a b : Z) : Z :=
  if (55296 <=? a) && (a <? 56320) && (56320 <=? b) && (b <? 57344)
  then (a - 55296) * 1024 + (b - 56320) + 65536 else rune_error.
Definition is_surrogate (r : Z) : bool := (55296 <=? r) && (r <? 57344).

(** Big-endian units of an even number of bytes. *)
Fixpoint bytes_units (raw : gostring) : option (list Z) :=
  match raw with
  | [] => Some []
  | [_] => None
  | a :: b :: t => us ← bytes_units t; Some (bz a * 256 + bz b :: us)
  end.

(** The text of a shifted run. *)
Fixpoint decode_units (us : list Z) : option gostring :=
  match us with
  | [] => Some []
  | u :: t =>
      if is_surrogate u then
        match t with
        | [] => None
        | v :: t' =>
            let r := utf16_pair u v in
            if r =? rune_error then None
            else rest ← decode_units t'; Some (encode_rune r ++ rest)
        end
      else if printable u then None
      else rest ← decode_units t; Some (encode_rune u ++ rest)
  end.

(** The bytes up to the first [&], and the rest. *)
Fixpoint plain_span (s : gostring) : gostring * gostring :=
  match s with
  | [] => ([], [])
  | c :: t => if c =c? "&" then ([], s) else let '(p, r) := plain_span t in (c :: p, r)
  end.

(** Every round consumes at least one byte. *)
Fixpoint decode_go (fuel : nat) (s : gostring) : option gostring :=
  match fuel, s with
  | O, _ => Some []
  | S _, [] => Some []
  | S n, c :: t =>
      if negb (c =c? "&") then
        let '(p, r) := plain_span s in
        if valid_utf8 p then rest ← decode_go n r; Some (p ++ rest) else None
      else
        end_ ← IndexByte t "-";
        let enc := take end_ t in
        let r := drop (end_ + 1) t in
        if enc =s? [] then rest ← decode_go n r; Some ("&" ++ rest)
        else
          raw ← decode mutf7Strict enc;
          us ← bytes_units raw;
          text ← decode_units us;
          rest ← decode_go n r; Some (text ++ rest)
  end.

Definition decodeMUTF7 (s : gostring) : option gostring :=
  match IndexByte s "&" with
  | None => if valid_utf8 s then Some s else None
  | Some _ => decode_go (length s) s
  end.

Section Flags.
Context {U : UnicodeTables}.

Definition systemFlags : list (gostring * gostring) :=
  [("\seen" : gostring, "\Seen" : gostring); ("\answered" : gostring, "\Answered" : gostring);
    ("\flagged" : gostring, "\Flagged" : gostring); ("\deleted" : gostring, "\Deleted" : gostring);
    ("\draft" : gostring, "\Draft" : gostring)].

Definition keyword_char (c : ascii) : bool :=
  negb ((bz c <=? 32) || (127 <=? bz c) || in_set ("(){%*\]" ++ [byte_of 34]) c).

Definition checkFlag (f : gostring) : option gostring :=
  if HasPrefix f "\" then snd <$> find (fun kv => bool_decide (kv.1 = ToLower f)) systemFlags
  else if 255 <? Z.of_nat (length f) then None
  else if forallb keyword_char f then Some f else None.

Fixpoint checkFlags (flags : list gostring) : option (list gostring) :=
  match flags with
  | [] => Some []
  | f :: r => g ← checkFlag f; rest ← checkFlags r; Some (g :: rest)
  end.
End Flags.

(** ** mailbox_names.go *)
Class Normalizer := { NFC : gostring -> gostring; NFD : gostring -> gostring }.

Definition is_blank (c : ascii) : bool := (c =c? " ") || (bz c =? 9).

Fixpoint drop_while (f : ascii -> bool) (s : gostring) : gostring :=
  match s with
  | c :: t => if f c then drop_while f t else s
  | [] => []
  end.
Fixpoint take_while (f : ascii -> bool) (s : gostring) : gostring :=
  match s with
  | c :: t => if f c then c :: take_while f t else []
  | [] => []
  end.

Fixpoint skipWords (line : gostring) (n : nat) : gostring :=
  match n with
  | O => line
  | S n => skipWords (drop_while (fun c => negb (is_blank c)) (drop_while is_blank line)) n
  end.

Definition DQUOTE : ascii := byte_of 34.

(** The text of a quoted string whose opening quote has been read, and what is
    left after the closing one. *)
Fixpoint quoted (s : gostring) : gostring * gostring :=
  match s with
  | [] => ([], [])
  | c :: t =>
      if c =c? DQUOTE then ([], t)
      else if (c =c? "\") && (match t with [] => false | _ => true end) then
        match t with
        | d :: t' => let '(q, r) := quoted t' in (d :: q, r)
        | [] => ([], [])
        end
      else let '(q, r) := quoted t in (c :: q, r)
  end.

(** Every round consumes at least one byte. *)
Fixpoint splitQuoted_go (fuel : nat) (rest : gostring) : list gostring :=
  match fuel, rest with
  | O, _ => []
  | S _, [] => []
  | S n, c :: t =>
      if is_blank c then splitQuoted_go n t
      else if c =c? DQUOTE then let '(q, r) := quoted t in q :: splitQuoted_go n r
      else take_while (fun c => negb (is_blank c)) rest
           :: splitQuoted_go n (drop_while (fun c => negb (is_blank c)) rest)
  end.
Definition splitQuotedArgs (rest : gostring) : list gostring := splitQuoted_go (length rest) rest.

(** The replacer escapes backslash and quote. *)
Definition escape (c : ascii) : gostring :=
  if (c =c? "\") || (c =c? DQUOTE) then ["\"%char; c] else [c].
Definition quoteMailbox (name : gostring) : gostring :=
  [DQUOTE] ++ concat (map escape name) ++ [DQUOTE].

Section Names.
Context {U : UnicodeTables} {N : Normalizer}.

Definition normMailbox (name : gostring) : gostring := NFC name.

(** [names]: what the store lists for the user ([None]: an error, or no store). *)
Definition resolveStoredName (names : option (list gostring)) (nfc : gostring) : gostring :=
  if isASCII nfc then nfc else
  match names with
  | None => nfc
  | Some l =>
      if bool_decide (nfc ∈ l) then nfc
      else match find (fun n => negb (n =s? []) && (normMailbox n =s? nfc)) l with
      | Some n => n
      | None => nfc
      end
  end.

Definition patternForms (p : gostring) : list gostring :=
  let c := normMailbox p in
  let d := NFD c in
  if negb (d =s? c) then [c; d] else [c].

Definition canonMailbox (name : gostring) : gostring :=
  if (5 <=? length name)%nat && EqualFold (take 5 name) "INBOX" &&
  ((length name =? 5)%nat || match name !! 5%nat with Some c => c =c? "/" | None => false end)
  then "INBOX" ++ drop 5 name else name.

Definition checkNewMailboxName (name : gostring) : option gostring :=
  let name := canonMailbox (TrimRight name "/") in
  if name =s? [] then None
  else if ContainsAny name "*%" then None
  else if existsb (fun seg => (seg =s? []) || (seg =s? ".") || (seg =s? "..")) (Split name "/") then None
  else if existsb (fun r => (r <? 32) || (r =? 127)) (runes name) then None
  else Some name.

(** The wire name of a command argument; [None] is answered with BAD. *)
Definition mboxArg (names : option (list gostring)) (arg : gostring) : option gostring :=
  name ← decodeMUTF7 arg; Some (resolveStoredName names (normMailbox (canonMailbox name))).

Definition regroupArgs (command line : gostring) (args : list gostring) : list gostring :=
  if bool_decide (command ∈ (["LOGIN" : gostring; "SELECT" : gostring; "EXAMINE" : gostring;
    "CREATE" : gostring; "DELETE" : gostring; "RENAME" : gostring; "SUBSCRIBE" : gostring;
    "UNSUBSCRIBE" : gostring; "STATUS" : gostring; "LSUB" : gostring; "COPY" : gostring;
    "MOVE" : gostring; "APPEND" : gostring] : list gostring))
  then splitQuotedArgs (skipWords line 2)
  else if command =s? "UID" then
  match args with
  | a :: _ => if (ToUpper a =s? "COPY") || (ToUpper a =s? "MOVE")
      then a :: splitQuotedArgs (skipWords line 3) else args
  | [] => args
  end
  else args.
End Names.

(** ** literals.go *)
Definition maxArgLiteral : Z := 64 * 1024.
Definition maxArgLiteralTotal : Z := 256 * 1024.
Definition maxArgLiteralCount : Z := 32.
Definition maxCommandLineLength : Z := 64 * 1024.

Definition parseLiteralSize (spec : gostring) : option (Z * bool) :=
  let nonSync := HasSuffix spec "+" in
  match ParseUint (if nonSync then TrimSuffix spec "+" else spec) max_uint32 with
  | Ok n => Some (n, nonSync)
  | Err _ => None
  end.

Definition trailingLiteral (line : gostring) : option (gostring * Z * bool) :=
  if negb (HasSuffix line "}") then None else
  open ← LastIndexByte line "{";
  '(size, ns) ← parseLiteralSize (take (length line - 1 - (open + 1)) (drop (open + 1) line));
  Some (take open line, size, ns).

(** What the session sends while it resolves the literals. *)
Inductive lit_reply := Continuation | ByeTooLarge | BadTooBig (tag : gostring) | BadContent (tag : gostring).
Inductive lit_result :=
  | LitLine (line : gostring)      (* ok *)
  | LitRefused                     (* reply already sent *)
  | LitFatal                       (* the connection must close *)
  | LitIoError.

Definition count_byte (s : gostring) (c : ascii) : nat := length (List.filter (fun d => d =c? c) s).

Section Literals.
Context {U : UnicodeTables}.
(** The buffer size of the connection's reader. *)
Context (bufsize : nat).

(** [None]: the line is too long, or the connection ended. *)
Fixpoint readLine_go (fuel : nat) (line s : gostring) : option (gostring * gostring) :=
  match fuel with
  | O => None
  | S f =>
      match ReadSlice bufsize s with
      | SliceErr => None
      | SliceLine chunk rest =>
          if maxCommandLineLength <? Z.of_nat (length line + length chunk) then None
          else Some (TrimRight (line ++ chunk) CRLF, rest)
      | SliceFull chunk rest =>
          if maxCommandLineLength <? Z.of_nat (length line + length chunk) then None
          else readLine_go f (line ++ chunk) rest
      end
  end.
Definition readLine (s : gostring) : option (gostring * gostring) := readLine_go (S (length s)) [] s.

Fixpoint resolve_go (fuel : nat) (tag : gostring) (count total : Z) (line input : gostring)
  (out : list lit_reply) : lit_result * gostring * list lit_reply :=
  match fuel with
  | O => (LitIoError, input, out)
  | S f =>
      match trailingLiteral line with
      | None => (LitLine line, input, out)
      | Some (prefix, n, nonSync) =>
          if Nat.odd (count_byte prefix DQUOTE) then (LitLine line, input, out) else
          if (maxArgLiteralCount <=? count) || (maxArgLiteral <? n) || (maxArgLiteralTotal <? total + n)
          then if nonSync then (LitFatal, input, out ++ [ByeTooLarge])
          else (LitRefused, input, out ++ [BadTooBig tag])
          else
          let out := if nonSync then out else out ++ [Continuation] in
          if Z.of_nat (length input) <? n then (LitIoError, [], out) else
          let data := take (Z.to_nat n) input in
          match readLine (drop (Z.to_nat n) input) with
          | None => (LitIoError, [], out)
          | Some (rest, input) =>
              if ContainsByte data CR || ContainsByte data LF || ContainsByte data NUL
              then (LitRefused, input, out ++ [BadContent tag])
              else resolve_go f tag (count + 1) (total + n) (prefix ++ quoteMailbox data ++ rest) input out
          end
      end
  end.

(** At most [maxArgLiteralCount] literals are read, so the rounds are bounded. *)
Definition resolveLiterals (line input : gostring) : lit_result * gostring * list lit_reply :=
  match Fields line with
  | tag :: cmd :: _ =>
      if EqualFold cmd "APPEND" then (LitLine line, input, [])
      else resolve_go (Z.to_nat maxArgLiteralCount + 2) tag 0 0 line input []
  | _ => (LitLine line, input, [])
  end.
End Literals.

(** ** Modified UTF-7 round trip *)
Lemma mutf7_valid e : e = mutf7Enc \/ e = mutf7Strict -> valid_encoding e.
Proof.
  intros [-> | ->]; (split_and!; [done | | done]; eapply bool_decide_unpack; vm_compute; exact I).
Qed.

Lemma strict_decode_encode bs : decode mutf7Strict (encode mutf7Enc bs) = Some bs.
Proof.
  assert (He : encode mutf7Enc bs = encode mutf7Strict bs).
  { induction bs as [| a | a b | a b c t IH] using triple_ind; try done. simpl. by rewrite IH. }
  rewrite He. apply decode_encode, mutf7_valid. by right.
Qed.

Lemma encode_no_dash bs : "-"%char ∉ encode mutf7Enc bs.
Proof.
  intros H. destruct (encode_chars mutf7Enc (mutf7_valid _ (or_introl eq_refl)) bs _ H) as [Hc | Hc]; [| done].
  refine (bool_decide_unpack ("-"%char ∉ mutf7_alphabet) _ Hc). vm_compute. exact I.
Qed.

Definition wide (r : Z) : Prop := scalar r /\ printable r = false.

Lemma bytes_units_flat us :
  Forall (fun u => 0 <= u < 65536) us -> bytes_units (concat (map unit_bytes us)) = Some us.
Proof.
  induction 1 as [| u us Hu Hus IH]; simpl; [done |]. rewrite IH. simpl. do 2 f_equal.
  rewrite !bz_byte_of by (Z.to_euclidean_division_equations; lia).
  Z.to_euclidean_division_equations; lia.
Qed.

Lemma units_range r : scalar r -> Forall (fun u => 0 <= u < 65536) (utf16_units r).
Proof.
  intros [Hr Hs]. unfold utf16_units. split_if; breflect.
  - repeat constructor; Z.to_euclidean_division_equations; lia.
  - repeat constructor; apply Z.mod_pos_bound; lia.
Qed.

Lemma decode_units_app r us :
  wide r -> decode_units (utf16_units r ++ us) = rest ← decode_units us; Some (encode_rune r ++ rest).
Proof.
  intros [[Hr Hs] Hp]. unfold utf16_units.
  destruct ((65536 <=? r) && (r <=? 1114111)) eqn:E; breflect.
  - set (a := 55296 + (r - 65536) / 1024). set (b := 56320 + (r - 65536) mod 1024).
    assert (Ha : 55296 <= a < 56320) by (unfold a; Z.to_euclidean_division_equations; lia).
    assert (Hb : 56320 <= b < 57344) by (unfold b; Z.to_euclidean_division_equations; lia).
    assert (Hpair : utf16_pair a b = r).
    { unfold utf16_pair. destruct (Z.leb_spec 55296 a); [| lia]. destruct (Z.ltb_spec a 56320); [| lia].
      destruct (Z.leb_spec 56320 b); [| lia]. destruct (Z.ltb_spec b 57344); [| lia]. simpl.
      unfold a, b. Z.to_euclidean_division_equations; lia. }
    cbn [app decode_units]. unfold is_surrogate.
    destruct (Z.leb_spec 55296 a); [| lia]. destruct (Z.ltb_spec a 57344); [| lia]. simpl andb. cbv iota zeta.
    rewrite Hpair. destruct (Z.eqb_spec r rune_error); [unfold rune_error in *; lia | done].
  - rewrite Z.mod_small by (destruct E; breflect; lia). cbn [app decode_units]. rewrite Hp.
    unfold is_surrogate. destruct (Z.leb_spec 55296 r), (Z.ltb_spec r 57344); simpl; try done. lia.
Qed.

Lemma decode_units_runs rs :
  Forall wide rs -> decode_units (concat (map utf16_units rs)) = Some (encode_runes rs).
Proof.
  induction 1 as [| r rs Hr Hrs IH]; [done |]. cbn [map concat]. rewrite decode_units_app, IH by done. done.
Qed.

Lemma units_nonempty rs : rs <> [] -> concat (map utf16_units rs) <> [].
Proof. destruct rs as [| r rs]; [done |]. intros _. simpl. unfold utf16_units. by split_if. Qed.

Lemma plain_span_spec s p r : plain_span s = (p, r) -> s = p ++ r /\ (length r <= length s)%nat.
Proof.
  revert p r. induction s as [| c s IH]; intros p r H; simpl in H; [by simplify_eq |].
  split_if; [by simplify_eq |]. destruct (plain_span s) as [p' r'] eqn:Es. injection H as <- <-.
  destruct (IH p' r' eq_refl) as [-> Hl]. simpl. rewrite length_app in *. split; [done | lia].
Qed.

Lemma plain_span_first c s p r :
  (c =c? "&") = false -> plain_span (c :: s) = (p, r) -> (length r <= length s)%nat.
Proof.
  intros Hc H. simpl in H. rewrite Hc in H. destruct (plain_span s) as [p' r'] eqn:E. simplify_eq.
  by apply plain_span_spec in E as [_ ?].
Qed.

(** More fuel than bytes changes nothing. *)
Lemma decode_go_fuel n m s : (length s <= n)%nat -> (length s <= m)%nat -> decode_go n s = decode_go m s.
Proof.
  revert m s. induction n as [| n IH]; intros m s Hn Hm.
  { destruct s; [by destruct m | simpl in Hn; lia]. }
  destruct m as [| m]; [destruct s; [done | simpl in Hm; lia] |].
  destruct s as [| c t]; [done |]. cbn [decode_go]. simpl in Hn, Hm.
  destruct (c =c? "&") eqn:Ec; cbn [negb].
  - destruct (IndexByte t "-") as [e |]; [| done]. simpl.
    assert (Hd : (length (drop (e + 1) t) <= length t)%nat) by (rewrite length_drop; lia).
    split_if; [by rewrite (IH m) by lia |].
    repeat match goal with |- context [?o ≫= _] => destruct o; simpl; [| done] end.
    by rewrite (IH m) by lia.
  - destruct (plain_span (c :: t)) as [p r] eqn:Es. apply plain_span_first in Es; [| done].
    by rewrite (IH m) by lia.
Qed.

Definition decode_all (s : gostring) : option gostring := decode_go (length s) s.

Definition plain_char (c : ascii) : bool := printable (bz c) && negb (c =c? "&").

Lemma valid_cons_ascii c p : bz c < 128 -> valid_utf8 (c :: p) = valid_utf8 p.
Proof.
  intros Hc. pose proof (bz_range c). unfold valid_utf8. cbn [length valid_go]. unfold decode_rune.
  destruct (Z.ltb_spec (bz c) 128); [| lia].
  destruct (Z.eqb_spec (bz c) rune_error); [unfold rune_error in *; lia |]. done.
Qed.

(** One round on plain text. *)
Lemma decode_go_plain n c t :
  (c =c? "&") = false -> decode_go (S n) (c :: t) =
    let '(p, r) := plain_span (c :: t) in
    if valid_utf8 p then rest ← decode_go n r; Some (p ++ rest) else None.
Proof. intros H. cbn [decode_go]. by rewrite H. Qed.

(** One round on a shift whose end is known. *)
Lemma decode_go_shift n enc t :
  ("-"%char ∉ enc) -> decode_go (S n) ("&"%char :: enc ++ "-"%char :: t) =
    if enc =s? [] then rest ← decode_go n t; Some ("&" ++ rest)
    else raw ← decode mutf7Strict enc; us ← bytes_units raw; text ← decode_units us;
         rest ← decode_go n t; Some (text ++ rest).
Proof.
  intros H. cbn [decode_go]. rewrite Ascii.eqb_refl. cbn [negb].
  rewrite IndexByte_app by done. cbn [mbind option_bind]. rewrite take_app_length.
  replace (length enc + 1)%nat with (length (enc ++ ["-"%char])) by (by rewrite length_app).
  replace (enc ++ "-"%char :: t) with ((enc ++ ["-"%char]) ++ t) by (by rewrite <-app_assoc).
  by rewrite drop_app_length.
Qed.

Lemma decode_all_plain c t : plain_char c = true -> decode_all (c :: t) = r ← decode_all t; Some (c :: r).
Proof.
  unfold plain_char, printable. intros H. breflect. unfold decode_all.
  assert (Hc : (c =c? "&") = false) by (by apply Ascii.eqb_neq).
  change (length (c :: t)) with (S (length t)). rewrite decode_go_plain by done.
  cbn [plain_span]. rewrite Hc. destruct (plain_span t) as [p r] eqn:Es. rewrite valid_cons_ascii by lia.
  destruct t as [| d t]; [by simplify_eq/= |].
  destruct (Ascii.eqb_spec d "&"%char) as [-> | Hd].
  - simpl in Es. injection Es as <- <-. change (valid_utf8 []) with true. cbv iota.
    by destruct (decode_go (length ("&"%char :: t)) ("&"%char :: t)).
  - apply Ascii.eqb_neq in Hd. change (length (d :: t)) with (S (length t)).
    rewrite (decode_go_plain (length t)) by done. rewrite Es. destruct (valid_utf8 p); [| done].
    pose proof (plain_span_first _ _ _ _ Hd Es) as Hr.
    rewrite (decode_go_fuel (S (length t)) (length t)) by lia. by destruct (decode_go (length t) r).
Qed.

Lemma decode_all_amp t : decode_all ("&-" ++ t) = r ← decode_all t; Some ("&"%char :: r).
Proof.
  unfold decode_all. change ("&-" ++ t) with ("&"%char :: [] ++ "-"%char :: t).
  change (length ("&"%char :: [] ++ "-"%char :: t)) with (S (S (length t))).
  rewrite decode_go_shift by set_solver. rewrite bool_decide_true by done.
  by rewrite (decode_go_fuel (S (length t)) (length t)) by lia.
Qed.

Lemma decode_all_flush rs t :
  Forall wide rs ->
  decode_all (flush (concat (map utf16_units rs)) ++ t) = r ← decode_all t; Some (encode_runes rs ++ r).
Proof.
  intros Hw. destruct rs as [| r0 rs]; [simpl; by destruct (decode_all t) |].
  set (us := concat (map utf16_units (r0 :: rs))).
  assert (Hne : us <> []) by (by apply units_nonempty).
  set (b64 := encode mutf7Enc (concat (map unit_bytes us))).
  assert (Hfl : flush us ++ t = "&"%char :: b64 ++ "-"%char :: t).
  { unfold flush. fold b64. destruct us; [done |]. by rewrite <-!app_assoc. }
  rewrite Hfl. unfold decode_all.
  change (length ("&"%char :: b64 ++ "-"%char :: t)) with (S (length (b64 ++ "-"%char :: t))).
  rewrite decode_go_shift by apply encode_no_dash. rewrite bool_decide_false.
  2: { unfold b64. intros He. eapply encode_nonempty; [| exact He]. by destruct us. }
  unfold b64. rewrite strict_decode_encode. cbn [mbind option_bind].
  rewrite bytes_units_flat.
  2: { unfold us. clear -Hw. induction Hw as [| r l [Hr _] Hl IH]; simpl; [constructor |].
       apply Forall_app. split; [by apply units_range | done]. }
  cbn [mbind option_bind]. unfold us. rewrite decode_units_runs by done. cbn [mbind option_bind].
  rewrite (decode_go_fuel _ (length t)) by (rewrite ?length_app; simpl; lia). done.
Qed.

Lemma encode_go_decode rs run :
  Forall scalar rs -> Forall wide run ->
  decode_all (encode_go rs (concat (map utf16_units run))) = Some (encode_runes run ++ encode_runes rs).
Proof.
  intros Hrs. revert run. induction Hrs as [| r rs Hr Hrs IH]; intros run Hrun; cbn [encode_go].
  { rewrite <-(app_nil_r (flush _)). by rewrite decode_all_flush by done. }
  destruct (printable r) eqn:Ep.
  - rewrite decode_all_flush by done. specialize (IH [] ltac:(constructor)). cbn [map concat] in IH.
    cbn [encode_runes map concat] in *. unfold printable in Ep. breflect.
    assert (He : encode_rune r = [byte_of r]).
    { rewrite encode_rune_sum by done. destruct (Z.ltb_spec r 128); [done | lia]. }
    destruct (Z.eqb_spec r 38) as [-> | Hne].
    + rewrite decode_all_amp, IH. done.
    + rewrite He. cbn [app]. rewrite decode_all_plain, IH; [done |].
      unfold plain_char. rewrite bz_byte_of by lia. unfold printable.
      destruct (Z.leb_spec 32 r), (Z.leb_spec r 126); try lia. cbn [andb].
      apply negb_true_iff, Ascii.eqb_neq. intros E. apply (f_equal bz) in E. rewrite bz_byte_of in E by lia.
      vm_compute in E. lia.
  - replace (concat (map utf16_units run) ++ utf16_units r) with (concat (map utf16_units (run ++ [r])))
      by (rewrite map_app, concat_app; simpl; by rewrite app_nil_r).
    rewrite IH by (apply Forall_app_2; [done | by apply Forall_singleton]).
    unfold encode_runes. rewrite map_app, concat_app. simpl. by rewrite app_nil_r, <-app_assoc.
Qed.

Lemma IndexByte_None s c : IndexByte s c = None -> c ∉ s.
Proof.
  induction s as [| d s IH]; simpl; intros H; [set_solver |].
  destruct (Ascii.eqb_spec d c); [done |]. destruct (IndexByte s c); [done |]. set_solver.
Qed.

Lemma decode_all_no_amp s : ("&"%char ∉ s) -> decode_all s = if valid_utf8 s then Some s else None.
Proof.
  intros H. destruct s as [| c t]; [done |]. unfold decode_all. cbn [length decode_go].
  apply not_elem_of_cons in H as [Hc Ht].
  destruct (Ascii.eqb_spec c "&"%char); [done |]. cbn [negb].
  assert (Hs : forall u, ("&"%char ∉ u) -> plain_span u = (u, [])).
  { induction u as [| d u IH]; intros Hu; simpl; [done |]. apply not_elem_of_cons in Hu as [H1 H2].
    destruct (Ascii.eqb_spec d "&"%char); [done |]. by rewrite IH. }
  rewrite Hs by set_solver. destruct (valid_utf8 (c :: t)); [| done].
  destruct (length t); simpl; by rewrite app_nil_r.
Qed.

(** every mailbox name survives the wire: decoding the modified UTF-7 form
    of a valid UTF-8 name gives the name back, whatever mixture of printable,
    control, ampersand, basic-plane and supplementary characters it has. *)
Theorem mutf7_roundtrip name : valid_utf8 name = true -> decodeMUTF7 (encodeMUTF7 name) = Some name.
Proof.
  intros Hv. destruct (runes_valid name Hv) as [He Hs].
  pose proof (encode_go_decode (runes name) [] Hs ltac:(constructor)) as H. cbn [map concat app encode_runes] in H.
  change (concat (map encode_rune (runes name))) with (encode_runes (runes name)) in H. rewrite He in H.
  unfold decodeMUTF7, encodeMUTF7. destruct (IndexByte _ "&") eqn:Ei; [exact H |].
  apply IndexByte_None in Ei. rewrite decode_all_no_amp in H by done. exact H.
Qed.

(** "Entwürfe & 😀" *)
Definition ex_name : gostring := "Entw" ++ [byte_of 195; byte_of 188] ++ "rfe & " ++
  [byte_of 240; byte_of 159; byte_of 152; byte_of 128].
Lemma mutf7_roundtrip_witness :
  encodeMUTF7 ex_name = "Entw&APw-rfe &- &2D3eAA-" /\ decodeMUTF7 (encodeMUTF7 ex_name) = Some ex_name.
Proof. split; [vm_compute; reflexivity | apply mutf7_roundtrip; vm_compute; reflexivity]. Defined.

(** ** Quoted arguments *)
Lemma quoted_escape name t : quoted (concat (map escape name) ++ DQUOTE :: t) = (name, t).
Proof.
  induction name as [| c name IH]; [done |]. cbn [map concat]. rewrite <-app_assoc.
  unfold escape at 1. destruct (Ascii.eqb_spec c "\"%char) as [-> | H1]; [| destruct (Ascii.eqb_spec c DQUOTE) as [-> | H2]].
  - cbn [orb app]. simpl quoted. change (quoted (concat (map escape name) ++ DQUOTE :: t)) with
      (quoted (concat (map escape name) ++ DQUOTE :: t)). by rewrite IH.
  - cbn [orb app]. simpl quoted. by rewrite IH.
  - cbn [orb app quoted]. destruct (Ascii.eqb_spec c DQUOTE); [done |].
    destruct (Ascii.eqb_spec c "\"%char); [done |]. cbn [andb]. by rewrite IH.
Qed.

Lemma splitQuoted_fuel n m s : (length s <= n)%nat -> (length s <= m)%nat -> splitQuoted_go n s = splitQuoted_go m s.
Proof.
  assert (Hdw : forall f s, (length (drop_while f s) <= length s)%nat).
  { intros f. induction s0 as [| c s0 IH]; simpl; [lia |]. destruct (f c); simpl; lia. }
  assert (Hq : forall k s, (length s <= k)%nat -> (length (quoted s).2 <= length s)%nat).
  { induction k as [| k IH]; intros [| c u] Hk; simpl in *; try lia.
    destruct (c =c? DQUOTE); [simpl; lia |].
    destruct ((c =c? "\") && _).
    - destruct u as [| d u']; [simpl; lia |]. specialize (IH u'). destruct (quoted u'). simpl in *. lia.
    - specialize (IH u). destruct (quoted u). simpl in *. lia. }
  revert m s. induction n as [| n IH]; intros m s Hn Hm.
  { destruct s; [by destruct m | simpl in Hn; lia]. }
  destruct m as [| m]; [destruct s; [done | simpl in Hm; lia] |].
  destruct s as [| c t]; [done |]. cbn [splitQuoted_go]. cbn [length] in Hn, Hm.
  destruct (is_blank c) eqn:Eb; [apply IH; lia |]. destruct (c =c? DQUOTE) eqn:Eq.
  - specialize (Hq (length t) t ltac:(lia)). destruct (quoted t) as [q r]. simpl in Hq. f_equal. apply IH; lia.
  - f_equal. cbn [drop_while]. rewrite Eb. cbn [negb]. pose proof (Hdw (fun c => negb (is_blank c)) t). apply IH; lia.
Qed.

Lemma splitQuoted_quote name t : splitQuotedArgs (quoteMailbox name ++ t) = name :: splitQuotedArgs t.
Proof.
  unfold splitQuotedArgs, quoteMailbox. rewrite <-!app_assoc. cbn [app length splitQuoted_go].
  change (is_blank DQUOTE) with false. rewrite Ascii.eqb_refl. cbv iota. rewrite quoted_escape. f_equal.
  apply splitQuoted_fuel; [rewrite length_app; simpl; lia | lia].
Qed.

(** quoting and argument splitting are inverse: a list of mailbox names (or
    credentials) rendered as quoted strings and split again is the same list,
    whatever bytes they contain: spaces, quotes and backslashes included. *)
Theorem quote_split_roundtrip args : splitQuotedArgs (Join (map quoteMailbox args) " ") = args.
Proof.
  induction args as [| a args IH]; [done |]. destruct args as [| b args].
  - cbn [map Join]. rewrite <-(app_nil_r (quoteMailbox a)). by rewrite splitQuoted_quote.
  - change (Join (map quoteMailbox (a :: b :: args)) " ") with
      (quoteMailbox a ++ " "%char :: Join (map quoteMailbox (b :: args)) " ").
    rewrite splitQuoted_quote. f_equal. rewrite <-IH at 2.
    unfold splitQuotedArgs. cbn [length splitQuoted_go]. done.
Qed.

(** ** Names a client may create *)
Section NewNames.
Context {U : UnicodeTables}.

(** a name accepted for CREATE or RENAME is not empty and has no wildcard, no
    control character and no empty, "." or ".." hierarchy level, so mapped onto
    directories it stays below the user's root. *)
Theorem new_mailbox_name_safe name n :
  checkNewMailboxName name = Some n ->
  n <> [] /\ (forall c, c ∈ n -> c <> "*"%char /\ c <> "%"%char) /\
  (forall seg, seg ∈ Split n "/" -> seg <> [] /\ seg <> ("." : gostring) /\ seg <> (".." : gostring)) /\
  (forall r, r ∈ runes n -> 32 <= r /\ r <> 127).
Proof.
  unfold checkNewMailboxName. cbv zeta. set (m := canonMailbox _). intros H. repeat split_if; try done.
  injection H as <-. breflect. split_and!; [done | | |].
  - intros c Hc. unfold ContainsAny in *.
    assert (Hn : in_set "*%" c = false).
    { destruct (in_set "*%" c) eqn:Ec; [| done]. exfalso.
      assert (existsb (in_set "*%") m = true) by (apply existsb_true_iff; eauto). congruence. }
    unfold in_set in Hn. simpl in Hn. breflect. split; congruence.
  - intros seg Hseg.
    match goal with H : existsb ?f (Split m "/") = false |- _ =>
      assert (Hs : f seg = false) by (destruct (f seg) eqn:Es; [| done]; exfalso;
      assert (existsb f (Split m "/") = true) by (apply existsb_true_iff; eauto); congruence) end.
    simpl in Hs. breflect. split_and!; done.
  - intros r Hr.
    match goal with H : existsb ?f (runes m) = false |- _ =>
      assert (Hs : f r = false) by (destruct (f r) eqn:Es; [| done]; exfalso;
      assert (existsb f (runes m) = true) by (apply existsb_true_iff; eauto); congruence) end.
    simpl in Hs. breflect. split; lia.
Qed.
End NewNames.

#[export] Existing Instance ascii_tables.

Lemma new_mailbox_name_safe_witness :
  checkNewMailboxName "inbox/a b/" = Some ("INBOX/a b" : gostring) /\ ("INBOX/a b" : gostring) <> [] /\
  checkNewMailboxName "a/../b" = None.
Proof.
  split; [vm_compute; reflexivity |]. split; [| vm_compute; reflexivity].
  refine (proj1 (new_mailbox_name_safe "inbox/a b/" "INBOX/a b" _)). vm_compute. reflexivity.
Defined.

(** ** Literals *)
Section LiteralLemmas.
Context {U : UnicodeTables} (bufsize : nat).

Lemma count_byte_app s t c : count_byte (s ++ t) c = (count_byte s c + count_byte t c)%nat.
Proof. unfold count_byte. by rewrite List.filter_app, length_app. Qed.

(** Escaping keeps the quotes of the text, and adds the two delimiters. *)
Lemma count_quotes data : count_byte (quoteMailbox data) DQUOTE = S (S (count_byte data DQUOTE)).
Proof.
  unfold quoteMailbox. rewrite !count_byte_app. change (count_byte [DQUOTE] DQUOTE) with 1%nat.
  assert (H : count_byte (concat (map escape data)) DQUOTE = count_byte data DQUOTE); [| lia].
  induction data as [| c data IH]; [done |]. cbn [map concat]. rewrite count_byte_app, IH.
  unfold count_byte, escape. destruct (Ascii.eqb_spec c DQUOTE) as [-> | H1]; [done |].
  destruct (Ascii.eqb_spec c "\"%char) as [-> | H2]; [done |]. simpl.
  by destruct (Ascii.eqb_spec c DQUOTE).
Qed.

(** after a literal argument that contains an odd number of double quotes
    (each kept, escaped, in the line) the next literal of the command is taken
    for text inside a quoted string: the line goes to the handlers with the
    marker in it, no continuation request is sent, and the octets of the literal
    stay on the connection to be read as the next commands. *)
Theorem literal_after_quote_is_ignored fuel tag count total line p data mid n nonSync input out :
  trailingLiteral line = Some (p ++ quoteMailbox data ++ mid, n, nonSync) ->
  Nat.even (count_byte p DQUOTE) = true -> Nat.even (count_byte mid DQUOTE) = true ->
  Nat.odd (count_byte data DQUOTE) = true ->
  resolve_go bufsize (S fuel) tag count total line input out = (LitLine line, input, out).
Proof.
  intros Ht Hp Hm Hd. cbn [resolve_go]. rewrite Ht.
  assert (Ho : Nat.odd (count_byte (p ++ quoteMailbox data ++ mid) DQUOTE) = true).
  { rewrite !count_byte_app, count_quotes, !Nat.odd_add.
    unfold Nat.odd in *. rewrite Hp, Hm. cbn [Nat.even]. by rewrite Hd. }
  by rewrite Ho.
Qed.
End LiteralLemmas.

(** A user name that holds one double quote, then a password literal: the
    password is never read. *)
Definition ex_login : gostring := "a LOGIN {3}".
Definition ex_input : gostring := ("x" ++ [DQUOTE] ++ "y {6}") ++ CRLF ++ "secret" ++ CRLF.
Lemma literal_after_quote_is_ignored_witness :
  resolve_go 4096 1 "a" 1 3 ("a LOGIN " ++ quoteMailbox ("x" ++ [DQUOTE] ++ "y") ++ " {6}")
    ("secret" ++ CRLF) [Continuation]
  = (LitLine ("a LOGIN " ++ quoteMailbox ("x" ++ [DQUOTE] ++ "y") ++ " {6}"), "secret" ++ CRLF, [Continuation]) /\
  resolveLiterals 4096 ex_login ex_input =
    (LitLine ("a LOGIN " ++ quoteMailbox ("x" ++ [DQUOTE] ++ "y") ++ " {6}"), "secret" ++ CRLF, [Continuation]).
Proof.
  split; [| vm_compute; reflexivity].
  apply (literal_after_quote_is_ignored 4096 0 "a" 1 3 _ "a LOGIN " ("x" ++ [DQUOTE] ++ "y") " " 6 false);
    vm_compute; reflexivity.
Defined.
