(* ===== verification/SieveParse.v ===== *)
(** * internal/sieve/parser.go: the Sieve parser

    The abstract syntax, the parser and its correctness: it is total, bounds the
    nesting of what it returns, and reads back every script that is printed in
    the concrete syntax.

    [Parser.pos] is represented by the input that is left, [p.input[p.pos:]];
    [Parser.depth], which every caller restores, by the number of levels that
    may still be opened.  The loops have the length of the remaining input as
    fuel; [EFuel], which marks running out of it, is shown never to occur. *)
From S2P Require Import Prelude GoLib.

(** ** Abstract syntax *)
Record StringValue := {
  sv_value : gostring;
  IsLiteral : bool;
  Quoted : bool;
  Bare : bool
}.

#[warnings="-register-all"]
Inductive Value :=
  | VString (s : StringValue)
  | VNumber (n : Z)
  | VTag (t : gostring)
  | VList (l : list gostring)
  | VTestList (tests : list (list Value)).

#[warnings="-register-all"]
Inductive Command := MkCommand {
  Name : gostring;
  Tag : gostring;
  Arguments_ : list Value;
  Block : option (list Command)
}.

Definition MaxNesting : nat := 32.

Inductive parse_error :=
  | EIdentifier | EMissingSemicolonBefore (word : gostring) | EMissingSemicolon
  | EBlockNesting | ETestNesting | EUnclosedBlock | ETagName | EUnexpectedChar
  | EUnclosedTests | EEmptyTest | ETestName | EUnexpectedInTests
  | EUnterminatedString | EEndOfLine | EUnterminatedText | EUnclosedList
  | ENumber | ENumberRange | EUnterminatedComment
  | EFuel.

#[export] Instance parse_error_eq_dec : EqDecision parse_error.
Proof. solve_decision. Defined.

(** The input that is left and the [unterminated] flag. *)
Record Parser := { rest : gostring; unterminated : bool }.

Definition at_ (p : Parser) (s : gostring) : Parser := {| rest := s; unterminated := unterminated p |}.

Abbreviation parser A := (Parser -> result parse_error (A * Parser)).

(** ** Character classes *)
Definition isAlpha (c : ascii) : bool := in_range 97 122 c || in_range 65 90 c.
Definition isDigit (c : ascii) : bool := in_range 48 57 c.
Definition isAlnum (c : ascii) : bool := isAlpha c || isDigit c.
Definition isAlnumUnderscore (c : ascii) : bool := isAlnum c || (c =c? "_").
Definition LFb : ascii := byte_of 10.
Definition CRb : ascii := byte_of 13.
Definition TABb : ascii := byte_of 9.
Definition QUOTE : ascii := byte_of 34.
Definition isWhitespace (c : ascii) : bool :=
  (c =c? " ") || (c =c? TABb) || (c =c? CRb) || (c =c? LFb).

Definition starts (s : gostring) (f : ascii -> bool) : bool :=
  match s with c :: _ => f c | [] => false end.
Definition at_char (s : gostring) (c : ascii) : bool := starts s (fun d => d =c? c).

(** The longest prefix of bytes in [f], and what follows it. *)
Fixpoint span (f : ascii -> bool) (s : gostring) : gostring * gostring :=
  match s with
  | c :: s' => if f c then let '(a, b) := span f s' in (c :: a, b) else ([], s)
  | [] => ([], [])
  end.

(** After the opening of a bracketed comment: what follows its end. *)
Fixpoint comment_end (s : gostring) : option gostring :=
  match s with
  | c :: s' =>
      match s' with
      | d :: s'' => if (c =c? "*") && (d =c? "/") then Some s'' else comment_end s'
      | [] => None
      end
  | [] => None
  end.

Fixpoint skip_go (fuel : nat) (s : gostring) : gostring * bool :=
  match fuel with
  | O => (s, false)
  | S f =>
      match s with
      | [] => ([], false)
      | c :: s' =>
          if isWhitespace c then skip_go f s'
          else if c =c? "#" then skip_go f (snd (span (fun d => negb (d =c? LFb)) s))
          else if (c =c? "/") && at_char s' "*" then
            match comment_end (drop 1 s') with
            | Some s'' => skip_go f s''
            | None => ([], true)
            end
          else (s, false)
      end
  end.

Definition skipWhitespaceAndComments (p : Parser) : Parser :=
  let '(s, u) := skip_go (length (rest p)) (rest p) in
  {| rest := s; unterminated := unterminated p || u |}.

(** ** Tokens *)
Definition parseIdentifier : parser gostring := fun p =>
  let '(w, s) := span isAlnumUnderscore (rest p) in
  match w with [] => Err EIdentifier | _ => Ok (w, at_ p s) end.

Definition parseTag : parser gostring := fun p =>
  if negb (at_char (rest p) ":") then Err ETagName else
  let '(w, s) := span isAlnumUnderscore (drop 1 (rest p)) in
  match w with [] => Err ETagName | _ => Ok (w, at_ p s) end.

(** The rest of a quoted string, after its opening quote. *)
Fixpoint string_go (s : gostring) : option (gostring * gostring) :=
  match s with
  | [] => None
  | c :: s' =>
      let plain := match string_go s' with
                   | Some (v, r) => Some (c :: v, r)
                   | None => None
                   end in
      if c =c? "\" then
        match s' with
        | d :: s'' => match string_go s'' with
                      | Some (v, r) => Some (d :: v, r)
                      | None => None
                      end
        | [] => plain
        end
      else if c =c? QUOTE then Some ([], s')
      else plain
  end.

Definition quotedValue (v : gostring) : StringValue :=
  {| sv_value := v; IsLiteral := false; Quoted := true; Bare := false |}.
Definition literalValue (v : gostring) : StringValue :=
  {| sv_value := v; IsLiteral := true; Quoted := false; Bare := false |}.
Definition bareValue (v : gostring) : StringValue :=
  {| sv_value := v; IsLiteral := false; Quoted := false; Bare := true |}.

Definition parseString : parser StringValue := fun p =>
  if negb (at_char (rest p) QUOTE) then Err EUnterminatedString else
  match string_go (drop 1 (rest p)) with
  | Some (v, s) => Ok (quotedValue v, at_ p s)
  | None => Err EUnterminatedString
  end.

(** The lines of a multi-line string; a line is cut at its line feed. *)
Fixpoint text_go (fuel : nat) (acc : gostring) (s : gostring) : option (gostring * gostring) :=
  match fuel with
  | O => None
  | S f =>
      match IndexByte s LFb with
      | None => None
      | Some e =>
          let line := take (S e) s in
          let s := drop (S e) s in
          if TrimRight line [CRb; LFb] =s? "." then Some (acc, s)
          else text_go f (acc ++ (if HasPrefix line ".." then drop 1 line else line)) s
      end
  end.

Definition parseMultiline : parser StringValue := fun p =>
  let '(_, s) := span (fun c => (c =c? " ") || (c =c? TABb)) (drop 1 (rest p)) in
  let s := if at_char s "#" then snd (span (fun d => negb (d =c? LFb)) s)
           else if at_char s CRb then drop 1 s else s in
  if negb (at_char s LFb) then Err EEndOfLine else
  let s := drop 1 s in
  match text_go (length s) [] s with
  | Some (v, s) => Ok (literalValue v, at_ p s)
  | None => Err EUnterminatedText
  end.

Definition bare_in_list (c : ascii) : bool :=
  negb (isWhitespace c) && negb (c =c? ",") && negb (c =c? "]").

Fixpoint list_go (fuel : nat) (acc : list gostring) (p : Parser)
  : result parse_error (list gostring * Parser) :=
  match fuel with
  | O => Err EFuel
  | S f =>
      match rest p with
      | [] => Err EUnclosedList
      | c :: s =>
          if c =c? "]" then Ok (acc, at_ p s) else
          let p := skipWhitespaceAndComments p in
          match rest p with
          | [] => Err EUnclosedList
          | d :: _ =>
              let* (v, p) :=
                if d =c? QUOTE then let* (sv, p) := parseString p in Ok (sv_value sv, p)
                else let '(w, s) := span bare_in_list (rest p) in Ok (w, at_ p s) in
              let p := skipWhitespaceAndComments p in
              let p := if at_char (rest p) "," then at_ p (drop 1 (rest p)) else p in
              list_go f (acc ++ [v]) p
          end
      end
  end.

Definition parseStringList : parser (list gostring) := fun p =>
  if negb (at_char (rest p) "[") then Err EUnclosedList else
  let p := at_ p (drop 1 (rest p)) in
  list_go (S (length (rest p))) [] p.

Definition quantifier (c : ascii) : Z :=
  if (c =c? "K") || (c =c? "k") then 10
  else if (c =c? "M") || (c =c? "m") then 20
  else if (c =c? "G") || (c =c? "g") then 30
  else 0.

Definition parseNumber : parser Z := fun p =>
  let '(sign, s) := if at_char (rest p) "-" then (["-"%char], drop 1 (rest p)) else ([], rest p) in
  let '(ds, s) := span isDigit s in
  match ParseInt (sign ++ ds) with
  | Err _ => Err ENumber
  | Ok n =>
      match s with
      | c :: s' =>
          let shift := quantifier c in
          if negb (shift =? 0) && negb (starts s' isAlnumUnderscore) then
            if (Z.shiftr max_int64 shift <? n) || (n <? Z.shiftr min_int64 shift)
            then Err ENumberRange else Ok (Z.shiftl n shift, at_ p s')
          else Ok (n, at_ p s)
      | [] => Ok (n, at_ p s)
      end
  end.

(** ** Arguments and test lists

    [args] and [tests] are the inner and the outer loop of [parseTestList], for
    a parser [arg] of the arguments inside the list. *)
Section TestList.
Variable arg : parser (option Value).

Fixpoint args_go (fuel : nat) (acc : list Value) (p : Parser)
  : result parse_error (list Value * Parser) :=
  match fuel with
  | O => Err EFuel
  | S f =>
      let p := skipWhitespaceAndComments p in
      match rest p with
      | [] => Err EUnclosedTests
      | c :: _ =>
          if (c =c? ",") || (c =c? ")") then Ok (acc, p)
          else if (c =c? ";") || (c =c? "{") || (c =c? "}") then Err EUnexpectedInTests
          else
          let* (v, p) := arg p in
          args_go f (match v with Some v => acc ++ [v] | None => acc end) p
      end
  end.

Fixpoint tests_go (fuel : nat) (acc : list (list Value)) (afterComma : bool) (p : Parser)
  : result parse_error (list (list Value) * Parser) :=
  match fuel with
  | O => Err EFuel
  | S f =>
      let p := skipWhitespaceAndComments p in
      match rest p with
      | [] => Err EUnclosedTests
      | c :: s =>
          if c =c? ")" then
          match acc, afterComma with
          | _ :: _, false => Ok (acc, at_ p s)
          | _, _ => Err EEmptyTest
          end
          else if negb (isAlpha c) then Err ETestName
          else
          let* (test, p) := args_go (S (length (rest p))) [] p in
          if at_char (rest p) "," then tests_go f (acc ++ [test]) true (at_ p (drop 1 (rest p)))
          else tests_go f (acc ++ [test]) false p
      end
  end.

Definition parseTestList : parser (list (list Value)) := fun p =>
  let p := at_ p (drop 1 (rest p)) in
  tests_go (S (length (rest p))) [] false p.
End TestList.

Section Parse.
Context {U : UnicodeTables}.

(** One argument, for a parser [testList] of test lists; [None] is the nil value
    at the end of the input. *)
Definition argument (testList : parser (list (list Value))) (p : Parser)
  : result parse_error (option Value * Parser) :=
  let p := skipWhitespaceAndComments p in
  match rest p with
  | [] => Ok (None, p)
  | c :: s =>
      if c =c? ":" then let* (t, p) := parseTag p in Ok (Some (VTag t), p)
      else if c =c? QUOTE then let* (v, p) := parseString p in Ok (Some (VString v), p)
      else if c =c? "(" then let* (ts, p) := testList p in Ok (Some (VTestList ts), p)
      else if c =c? "[" then let* (l, p) := parseStringList p in Ok (Some (VList l), p)
      else if isDigit c || ((c =c? "-") && starts s isDigit) then
      let* (n, p) := parseNumber p in Ok (Some (VNumber n), p)
      else
      let '(word, s) := span isAlnumUnderscore (rest p) in
      match word with
      | [] => Err EUnexpectedChar
      | _ =>
          if EqualFold word "text" && at_char s ":"
          then let* (v, p) := parseMultiline (at_ p s) in Ok (Some (VString v), p)
          else Ok (Some (VString (bareValue word)), at_ p s)
      end
  end.

(** [levels] is [MaxNesting - depth]. *)
Fixpoint parseArgument (levels : nat) : parser (option Value) :=
  argument (match levels with
  | O => fun _ => Err ETestNesting
  | S l => parseTestList (parseArgument l)
  end).

(** ** Commands and blocks *)
Definition isConditional (name : gostring) : bool := (name =s? "if") || (name =s? "elsif").

(** An identifier where no test is allowed. *)
Definition misplaced (name : gostring) (bare : bool) (v : option Value) : option gostring :=
  match v with
  | Some (VString sv) =>
      if bare && negb (IsLiteral sv) && negb (isConditional name) then Some (sv_value sv) else None
  | _ => None
  end.

Fixpoint arguments_go (fuel levels : nat) (name : gostring) (acc : list Value) (p : Parser)
  : result parse_error (list Value * Parser) :=
  match fuel with
  | O => Err EFuel
  | S f =>
      match rest p with
      | [] => Ok (acc, p)
      | c :: _ =>
          if (c =c? ";") || (c =c? "{") then Ok (acc, p) else
          let bare := isAlpha c in
          let* (v, p) := parseArgument levels p in
          match misplaced name bare v with
          | Some w => Err (EMissingSemicolonBefore w)
          | None =>
              arguments_go f levels name (match v with Some v => acc ++ [v] | None => acc end)
              (skipWhitespaceAndComments p)
          end
      end
  end.

(** The loop of [parseBlock], for a parser [cmd] of the commands inside. *)
Section BlockLoop.
Variable cmd : parser (option Command).

Fixpoint block_go (fuel : nat) (acc : list Command) (p : Parser)
  : result parse_error (list Command * Parser) :=
  match fuel with
  | O => Err EFuel
  | S f =>
      match rest p with
      | [] => Err EUnclosedBlock
      | c :: s =>
          if c =c? "}" then Ok (acc, at_ p s) else
          let p := skipWhitespaceAndComments p in
          match rest p with
          | [] => Err EUnclosedBlock
          | d :: s =>
              if d =c? "}" then Ok (acc, at_ p s) else
              let* (c, p) := cmd p in
              block_go f (match c with Some c => acc ++ [c] | None => acc end) p
          end
      end
  end.
End BlockLoop.

(** One command, for a parser [block] of its block. *)
Definition command (levels : nat) (block : parser (list Command)) (p : Parser)
  : result parse_error (option Command * Parser) :=
  let p := skipWhitespaceAndComments p in
  match rest p with
  | [] => Ok (None, p)
  | c :: _ =>
      if negb (isAlpha c) then Err EIdentifier else
      let* (name, p) := parseIdentifier p in
      let name := ToLower name in
      let p := skipWhitespaceAndComments p in
      let* (tag, p) :=
      if at_char (rest p) ":"
      then let* (t, p) := parseTag p in Ok (t, skipWhitespaceAndComments p)
      else Ok ([], p) in
      let* (args, p) := arguments_go (S (length (rest p))) levels name [] p in
      let* (block, p) :=
      if at_char (rest p) "{" then let* (cs, p) := block p in Ok (Some cs, p)
      else Ok (None, p) in
      let cmd := MkCommand name tag args block in
      if at_char (rest p) ";" then Ok (Some cmd, at_ p (drop 1 (rest p)))
      else match block with
      | None => Err EMissingSemicolon
      | Some _ => Ok (Some cmd, p)
      end
  end.

Definition parseBlock (cmd : parser (option Command)) : parser (list Command) := fun p =>
  let p := at_ p (drop 1 (rest p)) in
  block_go cmd (S (length (rest p))) [] p.

Fixpoint parseCommand (levels : nat) : parser (option Command) :=
  command levels (match levels with
  | O => fun _ => Err EBlockNesting
  | S l => parseBlock (parseCommand l)
  end).

Fixpoint script_go (fuel : nat) (acc : list Command) (p : Parser)
  : result parse_error (list Command) :=
  match fuel with
  | O => Err EFuel
  | S f =>
      match rest p with
      | [] => if unterminated p then Err EUnterminatedComment else Ok acc
      | _ =>
          let p := skipWhitespaceAndComments p in
          match rest p with
          | [] => if unterminated p then Err EUnterminatedComment else Ok acc
          | _ =>
              let* (c, p) := parseCommand MaxNesting p in
              script_go f (match c with Some c => acc ++ [c] | None => acc end) p
          end
      end
  end.

Definition NewParser (script : gostring) : Parser := {| rest := script; unterminated := false |}.
Definition Parse (script : gostring) : result parse_error (list Command) :=
  script_go (S (length script)) [] (NewParser script).
End Parse.

(** ** Nesting *)
Definition max_depth {A} (f : A -> nat) (l : list A) : nat := foldr (fun x n => Nat.max (f x) n) 0%nat l.

Fixpoint value_depth (v : Value) : nat :=
  match v with
  | VTestList ts => S (max_depth (max_depth value_depth) ts)
  | _ => 0%nat
  end.
Fixpoint command_depth (c : Command) : nat :=
  Nat.max (max_depth value_depth (Arguments_ c))
    (match Block c with Some cs => S (max_depth command_depth cs) | None => 0%nat end).

Lemma max_depth_le {A} (f : A -> nat) l n : (max_depth f l <= n)%nat <-> Forall (fun x => (f x <= n)%nat) l.
Proof.
  induction l as [| x l IH]; simpl; [split; [constructor | lia] |].
  rewrite Forall_cons, <- IH. lia.
Qed.

(** ** Totality

    A parser meets [post k Q] at [p] when it does not run out of fuel, consumes
    at least [k] bytes and returns a value that satisfies [Q]. *)
Definition post {A} (k : nat) (Q : A -> Prop) (p : Parser) (r : result parse_error (A * Parser)) : Prop :=
  match r with
  | Ok (a, p') => (length (rest p') + k <= length (rest p))%nat /\ Q a
  | Err e => e <> EFuel
  end.

Lemma post_bind {A B} k k1 (Q : A -> Prop) (Q' : B -> Prop) p m (f : A * Parser -> result parse_error (B * Parser)) :
  post k1 Q p m ->
  (forall a p', (length (rest p') + k1 <= length (rest p))%nat -> Q a -> post k Q' p (f (a, p'))) ->
  post k Q' p (rbind m f).
Proof. destruct m as [[a p'] | e]; simpl; [| done]. intros [H1 H2] H. by apply H. Qed.

Lemma post_ret {A} k (Q : A -> Prop) p a p' :
  (length (rest p') + k <= length (rest p))%nat -> Q a -> post k Q p (Ok (a, p')).
Proof. done. Qed.

Lemma post_weaken {A} k k' (Q Q' : A -> Prop) p p' r :
  post k Q p r -> (length (rest p) + k' <= length (rest p') + k)%nat -> (forall a, Q a -> Q' a) -> post k' Q' p' r.
Proof. destruct r as [[a q] | e]; simpl; [| done]. intros [H1 H2] H3 H4. split; [lia | auto]. Qed.

Lemma span_length f s : (length (snd (span f s)) <= length s)%nat.
Proof.
  induction s as [| c s IH]; simpl; [done |]. destruct (f c); [| done].
  destruct (span f s); simpl in *; lia.
Qed.

Lemma span_split f s a b : span f s = (a, b) ->
  s = a ++ b /\ Forall (fun c => f c = true) a /\ starts b f = false.
Proof.
  revert a b. induction s as [| c s IH]; intros a b; simpl; [intros [= <- <-]; repeat constructor |].
  destruct (f c) eqn:E; [| intros [= <- <-]; simpl; repeat constructor; done].
  destruct (span f s) as [a' b']; intros [= <- <-]. destruct (IH a' b') as (-> & H & H'); [done |].
  repeat split; try done. by constructor.
Qed.

Lemma comment_end_length s r : comment_end s = Some r -> (length r < length s)%nat.
Proof.
  induction s as [| c s IH]; simpl; [done |]. destruct s as [| d s]; [done |].
  destruct ((c =c? "*") && (d =c? "/")); [intros [= <-]; simpl; lia |]. intros H. apply IH in H. simpl in *. lia.
Qed.

Lemma skip_go_length n s : (length (fst (skip_go n s)) <= length s)%nat.
Proof.
  revert s. induction n as [| n IH]; intros s; simpl; [done |]. destruct s as [| c s]; [done |].
  destruct (isWhitespace c); [pose proof (IH s); simpl; lia |].
  destruct (c =c? "#").
  { etransitivity; [apply IH |]. apply (span_length (fun d => negb (d =c? LFb)) (c :: s)). }
  destruct ((c =c? "/") && at_char s "*"); [| done].
  destruct (comment_end (drop 1 s)) as [r |] eqn:E; simpl; [| lia].
  apply comment_end_length in E. rewrite length_drop in E. pose proof (IH r). lia.
Qed.

Lemma skip_length p : (length (rest (skipWhitespaceAndComments p)) <= length (rest p))%nat.
Proof.
  unfold skipWhitespaceAndComments. pose proof (skip_go_length (length (rest p)) (rest p)) as H.
  destruct (skip_go _ _); done.
Qed.

Lemma post_skip {A} k (Q : A -> Prop) p r : post k Q (skipWhitespaceAndComments p) r -> post k Q p r.
Proof. intros H. eapply post_weaken; [done | pose proof (skip_length p); lia | done]. Qed.

Lemma at_char_length s c : at_char s c = true -> length s = S (length (drop 1 s)).
Proof. by destruct s. Qed.

Lemma starts_cons s f : starts s f = true -> exists c t, s = c :: t /\ f c = true.
Proof. destruct s as [| c t]; [done |]. eauto. Qed.

Lemma parseTag_post p : at_char (rest p) ":" = true -> post 2 (fun _ => True) p (parseTag p).
Proof.
  intros H. unfold parseTag. rewrite H. cbn [negb]. destruct (span _ _) as [w s] eqn:E.
  destruct w as [| c w]; [done |]. apply span_split in E as [E _].
  apply at_char_length in H. apply post_ret; [| done].
  apply (f_equal length) in E. rewrite length_app in E. simpl in *. lia.
Qed.

Lemma parseIdentifier_post p : post 1 (fun _ => True) p (parseIdentifier p).
Proof.
  unfold parseIdentifier. destruct (span _ _) as [w s] eqn:E. destruct w as [| c w]; [done |].
  apply span_split in E as [E _]. apply post_ret; [| done].
  apply (f_equal length) in E. rewrite length_app in E. simpl in *. lia.
Qed.

Lemma string_go_length s v r : string_go s = Some (v, r) -> (length r < length s)%nat.
Proof.
  revert v r. induction s as [s IH] using (induction_ltof1 _ (@length ascii)); unfold ltof in IH.
  intros v r. destruct s as [| c s]; simpl; [done |].
  assert (Hplain : forall v r, match string_go s with Some (v, r) => Some (c :: v, r) | None => None end = Some (v, r) ->
    (length r < S (length s))%nat).
  { intros v' r'. destruct (string_go s) as [[v1 r1] |] eqn:E; [| done]. intros [= <- <-].
    apply IH in E; [| simpl; lia]. lia. }
  destruct (c =c? "\").
  - destruct s as [| d s]; [apply Hplain |]. destruct (string_go s) as [[v1 r1] |] eqn:E; [| done].
    intros [= <- <-]. apply IH in E; simpl in *; lia.
  - destruct (c =c? QUOTE); [intros [= <- <-]; lia | apply Hplain].
Qed.

Lemma parseString_post p : post 1 (fun _ => True) p (parseString p).
Proof.
  unfold parseString. destruct (at_char (rest p) QUOTE) eqn:H; cbn [negb]; [| done].
  destruct (string_go _) as [[v s] |] eqn:E; [| done]. apply string_go_length in E.
  apply at_char_length in H. simpl. split; [lia | done].
Qed.

Lemma text_go_length n acc s v r : text_go n acc s = Some (v, r) -> (length r <= length s)%nat.
Proof.
  revert acc s v r. induction n as [| n IH]; intros acc s v r; simpl; [done |].
  destruct (IndexByte s LFb) as [e |]; [| done]. destruct (bool_decide _).
  - intros [= <- <-]. rewrite length_drop. lia.
  - intros H. apply IH in H. rewrite length_drop in H. lia.
Qed.

Lemma parseMultiline_post p : post 0 (fun _ => True) p (parseMultiline p).
Proof.
  unfold parseMultiline. destruct (span _ (drop 1 (rest p))) as [w s] eqn:E.
  assert (H : (length s <= length (rest p))%nat).
  { apply span_split in E as [E _]. apply (f_equal length) in E. rewrite length_app, length_drop in E. lia. }
  set (s' := if at_char s "#" then _ else _).
  assert (H' : (length s' <= length s)%nat).
  { unfold s'. destruct (at_char s "#"); [apply span_length |]. destruct (at_char s CRb); [rewrite length_drop |]; lia. }
  destruct (at_char s' LFb); [| done]. cbn [negb]. destruct (text_go _ _ _) as [[v r] |] eqn:Et; [| done].
  apply text_go_length in Et. rewrite length_drop in Et. simpl. split; [lia | done].
Qed.

(** What may start white space or a comment. *)
Definition blank (c : ascii) : bool := isWhitespace c || (c =c? "#") || (c =c? "/").

Lemma skip_id p : starts (rest p) blank = false -> skipWhitespaceAndComments p = p.
Proof.
  destruct p as [[| c s] u]; unfold skipWhitespaceAndComments; simpl; [by destruct u |].
  unfold blank. intros [[Hw Hh]%orb_false_iff Hs]%orb_false_iff. rewrite Hw, Hh, Hs. cbn [andb].
  by rewrite orb_false_r.
Qed.

Lemma skip_go_suffix n s : exists pre, s = pre ++ fst (skip_go n s).
Proof.
  revert s. induction n as [| n IH]; intros s; simpl; [by exists [] |].
  destruct s as [| c s]; [by exists [] |].
  destruct (isWhitespace c); [destruct (IH s) as [pre H]; exists (c :: pre); simpl; by f_equal |].
  destruct (c =c? "#").
  { destruct (span _ (c :: s)) as [a b] eqn:E. destruct (IH b) as [pre H]. exists (a ++ pre).
    apply span_split in E as [-> _]. cbn [snd]. rewrite <- app_assoc. by f_equal. }
  destruct ((c =c? "/") && at_char s "*"); [| by exists []].
  destruct (comment_end (drop 1 s)) as [r |] eqn:E; [| exists (c :: s); by rewrite app_nil_r].
  assert (Hr : exists pre, drop 1 s = pre ++ r).
  { clear IH. revert E. generalize (drop 1 s). clear. induction l as [| x l IH]; simpl; [done |].
    destruct l as [| y l]; [done |]. destruct ((x =c? "*") && (y =c? "/")).
    - intros [= <-]. by exists [x; y].
    - intros H. destruct (IH H) as [pre Hp]. exists (x :: pre). by rewrite Hp. }
  destruct Hr as [pre Hp]. destruct (IH r) as [pre' H]. exists (c :: take 1 s ++ pre ++ pre').
  simpl. f_equal. rewrite <- (take_drop 1 s) at 1. rewrite Hp, <- !app_assoc. repeat f_equal. done.
Qed.

Lemma skip_same p : length (rest (skipWhitespaceAndComments p)) = length (rest p) ->
  rest (skipWhitespaceAndComments p) = rest p.
Proof.
  unfold skipWhitespaceAndComments. destruct (skip_go_suffix (length (rest p)) (rest p)) as [pre H].
  destruct (skip_go _ _) as [s u]. simpl in *. intros Hl. rewrite H, length_app in Hl.
  destruct pre; [done | simpl in Hl; lia].
Qed.

Lemma skip_go_head n s c t : (length s <= n)%nat -> fst (skip_go n s) = c :: t -> isWhitespace c = false.
Proof.
  revert s. induction n as [| n IH]; intros s Hn; simpl; [destruct s; [done | simpl in Hn; lia] |].
  destruct s as [| d s]; [done |]. destruct (isWhitespace d) eqn:Hw; [intros H; apply (IH s); [simpl in Hn; lia | done] |].
  destruct (d =c? "#") eqn:Hh.
  { intros H. revert H. apply IH. cbn [span]. breflect. subst d. cbn [negb].
    change (("#" =c? LFb)) with false. cbn [negb].
    pose proof (span_length (fun d => negb (d =c? LFb)) s). destruct (span _ s). simpl in *. lia. }
  destruct ((d =c? "/") && at_char s "*"); [| by intros [= <- <-]].
  destruct (comment_end (drop 1 s)) as [r |] eqn:E; [| done].
  apply comment_end_length in E. rewrite length_drop in E. apply IH. simpl in Hn. lia.
Qed.

Lemma skip_head p c t : rest (skipWhitespaceAndComments p) = c :: t -> isWhitespace c = false.
Proof.
  unfold skipWhitespaceAndComments. pose proof (skip_go_head (length (rest p)) (rest p) c t (Nat.le_refl _)) as H.
  destruct (skip_go _ _) as [s u]. simpl in *. done.
Qed.

Lemma comma_length p : (length (rest (if at_char (rest p) "," then at_ p (drop 1 (rest p)) else p)) <= length (rest p))%nat.
Proof. destruct (at_char _ _); [simpl; rewrite length_drop |]; lia. Qed.

(** One element of a string list leaves less than it found: the first byte was
    blank, or it starts the element, or it is the comma after an empty one. *)
Definition list_element (p : Parser) : result parse_error (gostring * Parser) :=
  match rest p with
  | d :: _ =>
      if d =c? QUOTE then let* (sv, p) := parseString p in Ok (sv_value sv, p)
      else let '(w, s) := span bare_in_list (rest p) in Ok (w, at_ p s)
  | [] => Err EUnclosedList
  end.
Definition after_element (p : Parser) : Parser :=
  let p := skipWhitespaceAndComments p in
  if at_char (rest p) "," then at_ p (drop 1 (rest p)) else p.

Lemma after_element_length p : (length (rest (after_element p)) <= length (rest p))%nat.
Proof.
  unfold after_element. pose proof (skip_length p). destruct (at_char _ _); [simpl; rewrite length_drop |]; lia.
Qed.

Lemma list_element_length p v p' : list_element p = Ok (v, p') -> (length (rest p') <= length (rest p))%nat.
Proof.
  unfold list_element. destruct (rest p) as [| d t] eqn:Hp; [done |]. destruct (d =c? QUOTE).
  - pose proof (parseString_post p) as H. destruct (parseString p) as [[sv q] | e]; [| done].
    simpl in *. intros [= <- <-]. rewrite Hp in H. simpl in H. lia.
  - pose proof (span_length bare_in_list (d :: t)). destruct (span _ _) as [w s]. intros [= <- <-]. done.
Qed.

Lemma list_element_progress p v p' : starts (rest p) isWhitespace = false -> at_char (rest p) "]" = false ->
  list_element p = Ok (v, p') -> (length (rest (after_element p')) < length (rest p))%nat.
Proof.
  intros Hw Hc. unfold list_element. destruct (rest p) as [| d t] eqn:Hp; [done |]. simpl in Hw, Hc.
  destruct (d =c? QUOTE).
  - pose proof (parseString_post p) as H. destruct (parseString p) as [[sv q] | e]; [| done].
    simpl in *. intros [= <- <-]. rewrite Hp in H. pose proof (after_element_length q). simpl in *. lia.
  - assert (Hb : bare_in_list d = negb (d =c? ",")) by (unfold bare_in_list; rewrite Hw, Hc; by destruct (d =c? ",")).
    cbn [span]. rewrite Hb. destruct (d =c? ",") eqn:Hd; cbn [negb].
    + intros [= <- <-]. unfold after_element. rewrite skip_id; simpl; [rewrite Hd; simpl; rewrite ?drop_0; simpl; lia |].
      breflect. by subst d.
    + destruct (span _ t) as [w s] eqn:E. intros [= <- <-]. pose proof (after_element_length (at_ p s)).
      pose proof (span_length bare_in_list t) as H'. rewrite E in H'. simpl in *. lia.
Qed.

Lemma list_go_post n acc p : (length (rest p) < n)%nat -> post 1 (fun _ => True) p (list_go n acc p).
Proof.
  revert acc p. induction n as [| n IH]; intros acc p Hn; [lia |]. cbn [list_go].
  destruct (rest p) as [| c s] eqn:Hp; [done |].
  destruct (c =c? "]") eqn:Hc; [apply post_ret; [simpl; rewrite Hp; simpl; lia | done] |].
  pose proof (skip_length p) as Hl. pose proof (skip_same p) as Hsame. pose proof (skip_head p) as Hd.
  set (p1 := skipWhitespaceAndComments p) in *.
  assert (Hstep : forall v q, list_element p1 = Ok (v, q) -> (length (rest (after_element q)) < length (rest p))%nat).
  { intros v q E. destruct (Nat.eq_dec (length (rest p1)) (length (rest p))) as [He | He].
    - rewrite <- He. eapply list_element_progress; [| | done].
      + destruct (rest p1) as [| d t] eqn:E1; [done |]. exact (Hd d t eq_refl).
      + rewrite (Hsame He), Hp. exact Hc.
    - pose proof (list_element_length _ _ _ E). pose proof (after_element_length q). lia. }
  unfold list_element in Hstep. destruct (rest p1) as [| d t]; [done |].
  destruct (if d =c? QUOTE then _ else _) as [[v q] | e] eqn:E.
  - specialize (Hstep _ _ eq_refl). cbn [rbind]. fold (after_element q).
    eapply post_weaken; [apply IH; rewrite Hp in *; simpl in *; lia | lia | done].
  - simpl. destruct (d =c? QUOTE); [| by destruct (span _ _)].
    pose proof (parseString_post p1) as H. by destruct (parseString p1) as [[? ?] | ?]; simplify_eq/=.
Qed.

Lemma parseStringList_post p : post 1 (fun _ => True) p (parseStringList p).
Proof.
  unfold parseStringList. destruct (at_char (rest p) "[") eqn:H; cbn [negb]; [| done].
  eapply post_weaken; [apply list_go_post; simpl; lia | | done]. simpl. rewrite length_drop. lia.
Qed.

Lemma parseNumber_post p : starts (rest p) (fun c => isDigit c || (c =c? "-")) = true ->
  post 1 (fun _ => True) p (parseNumber p).
Proof.
  intros Hs. unfold parseNumber.
  destruct (if at_char (rest p) "-" then _ else _) as [sign s] eqn:E.
  destruct (span isDigit s) as [ds r] eqn:E2.
  assert (H : (length r + 1 <= length (rest p))%nat).
  { apply starts_cons in Hs as (c & t & Hp & Hc). rewrite Hp in *. simpl in E.
    pose proof (span_length isDigit s) as Hl. rewrite E2 in Hl. simpl in *.
    destruct (c =c? "-"); simplify_eq/=; [rewrite ?drop_0 in *; lia |]. rewrite orb_false_r in Hc.
    cbn [span] in E2. rewrite Hc in E2. destruct (span isDigit t) as [a b] eqn:E3. simplify_eq.
    pose proof (span_length isDigit t) as H3. rewrite E3 in H3. simpl in *. lia. }
  destruct (ParseInt _) as [m |]; [| done]. destruct r as [| d r]; [by apply post_ret |].
  destruct (negb _ && negb _); [destruct (_ || _); [done |] |]; apply post_ret; simpl in *; try done; lia.
Qed.

Definition opt_all {A} (Q : A -> Prop) (o : option A) : Prop :=
  match o with Some a => Q a | None => True end.

Lemma snoc_opt {A} (Q : A -> Prop) acc v : Forall Q acc -> opt_all Q v ->
  Forall Q (match v with Some v => acc ++ [v] | None => acc end).
Proof. destruct v; simpl; [| done]. intros H1 H2. apply Forall_app; auto. Qed.

Ltac by_bytes :=
  intros c; destruct c as [[] [] [] [] [] [] [] []]; vm_compute; (done || discriminate).

Lemma alpha_not_blank c : isAlpha c = true -> blank c = false.
Proof. revert c. by_bytes. Qed.
Lemma alpha_not_delim c : isAlpha c = true -> (c =c? ",") || (c =c? ")") = false.
Proof. revert c. by_bytes. Qed.

Section Totality.
Context {U : UnicodeTables}.

(** A parser of arguments that may open [l] more levels. *)
Definition arg_ok (l : nat) (arg : parser (option Value)) : Prop :=
  forall p, rest p <> [] -> post 1 (opt_all (fun v => (value_depth v <= l)%nat)) p (arg p).

Lemma args_go_post l arg n acc p :
  arg_ok l arg -> (length (rest p) < n)%nat -> Forall (fun v => (value_depth v <= l)%nat) acc ->
  post 0 (Forall (fun v => (value_depth v <= l)%nat)) p (args_go arg n acc p) /\
  (starts (rest p) isAlpha = true -> post 1 (fun _ => True) p (args_go arg n acc p)).
Proof.
  intros Harg. revert acc p. induction n as [| n IH]; intros acc p Hn Hacc; [lia |]. cbn [args_go].
  set (p1 := skipWhitespaceAndComments p). pose proof (skip_length p) as Hl. fold p1 in Hl.
  assert (Hid : starts (rest p) isAlpha = true -> p1 = p).
  { intros Hs. apply skip_id. apply starts_cons in Hs as (c & t & -> & Hc). simpl.
    by apply alpha_not_blank. }
  destruct (rest p1) as [| c t] eqn:Hp1; [done |].
  destruct ((c =c? ",") || (c =c? ")")) eqn:Hc.
  { split; [by apply post_ret; [rewrite Hp1; lia |] |]. intros Hs. rewrite (Hid Hs) in Hp1. rewrite Hp1 in Hs.
    simpl in Hs. by rewrite alpha_not_delim in Hc. }
  destruct (_ || _ || _); [done |].
  assert (H : post 1 (Forall (fun v => (value_depth v <= l)%nat)) p (let* (v, p) := arg p1 in
    args_go arg n (match v with Some v => acc ++ [v] | None => acc end) p)).
  { eapply post_bind; [eapply post_weaken; [apply (Harg p1); by rewrite Hp1 | rewrite Hp1; apply Nat.add_le_mono_r, Hl | done] |].
    intros v q Hq Hv. destruct (IH (match v with Some v => acc ++ [v] | None => acc end) q) as [H _]; [lia | by apply snoc_opt |].
    eapply post_weaken; [done | lia | done]. }
  split; [| intros _]; eapply post_weaken; try done; lia.
Qed.

Lemma tests_go_post l arg n acc comma p :
  arg_ok l arg -> (length (rest p) < n)%nat -> Forall (Forall (fun v => (value_depth v <= l)%nat)) acc ->
  post 1 (Forall (Forall (fun v => (value_depth v <= l)%nat))) p (tests_go arg n acc comma p).
Proof.
  intros Harg. revert acc comma p. induction n as [| n IH]; intros acc comma p Hn Hacc; [lia |]. cbn [tests_go].
  apply post_skip. set (p1 := skipWhitespaceAndComments p). pose proof (skip_length p) as Hl. fold p1 in Hl.
  destruct (rest p1) as [| c t] eqn:Hp1; [done |]. destruct (c =c? ")").
  { destruct acc, comma; try done. apply post_ret; [simpl; rewrite Hp1; simpl; lia | done]. }
  destruct (isAlpha c) eqn:Hc; cbn [negb]; [| done].
  destruct (args_go_post l arg (S (length (c :: t))) [] p1 Harg) as [H1 H2]; [by rewrite Hp1; simpl; lia | constructor |].
  specialize (H2 ltac:(by rewrite Hp1)).
  destruct (args_go _ _ _ _) as [[test q] | e]; [| done]. cbn [rbind]. simpl in H1, H2. destruct H1 as [H1 Htest].
  assert (Hacc' : Forall (Forall (fun v => (value_depth v <= l)%nat)) (acc ++ [test])).
  { apply Forall_app; split; [done |]. by repeat constructor. }
  destruct (at_char (rest q) ","); eapply post_weaken; try (apply IH; [| done]); try done;
    simpl; rewrite ?length_drop, ?Hp1 in *; simpl in *; lia.
Qed.

Lemma parseTestList_post l arg p : arg_ok l arg ->
  post 1 (fun ts => (value_depth (VTestList ts) <= S l)%nat) p (parseTestList arg p).
Proof.
  intros H. unfold parseTestList.
  eapply post_weaken; [apply (tests_go_post l); [done | simpl; lia | constructor] | simpl; rewrite length_drop; lia |].
  intros ts Hts. simpl. apply le_n_S. apply max_depth_le. eapply Forall_impl; [done |].
  intros t Ht. by apply max_depth_le.
Qed.

Lemma argument_ok l tl :
  (forall p, post 1 (fun ts => (value_depth (VTestList ts) <= l)%nat) p (tl p)) -> arg_ok l (argument tl).
Proof.
  intros Htl p Hne. unfold argument.
  destruct (rest (skipWhitespaceAndComments p)) as [| c t] eqn:Hp1.
  { apply post_ret; [| done]. rewrite Hp1. destruct (rest p); simpl; [done | lia]. }
  set (p1 := skipWhitespaceAndComments p) in *. apply post_skip. fold p1.
  assert (Hv : forall (A : Type) (m : result parse_error (A * Parser)) (k : A -> Value) (Q : A -> Prop),
    post 1 Q p1 m -> (forall a, Q a -> (value_depth (k a) <= l)%nat) ->
    post 1 (opt_all (fun v => (value_depth v <= l)%nat)) p1 (let* (a, p) := m in Ok (Some (k a), p))).
  { intros A m k Q Hm Hk. eapply post_bind; [done |]. intros a q Hq Ha. apply post_ret; [done |].
    by apply Hk. }
  assert (H0 : forall v : Value, value_depth v = 0%nat -> (value_depth v <= l)%nat) by (intros v ->; lia).
  destruct (c =c? ":") eqn:E1.
  { eapply Hv; [eapply post_weaken; [apply parseTag_post; rewrite Hp1; by simpl | lia | done] |].
    intros; by apply H0. }
  destruct (c =c? QUOTE); [eapply Hv; [apply parseString_post |]; intros; by apply H0 |].
  destruct (c =c? "("); [eapply Hv; [apply Htl | done] |].
  destruct (c =c? "["); [eapply Hv; [apply parseStringList_post |]; intros; by apply H0 |].
  destruct (isDigit c || _) eqn:Ed.
  { eapply Hv; [apply parseNumber_post; rewrite Hp1; simpl | intros; by apply H0].
    destruct (isDigit c); [done |]. simpl in *. by apply andb_true_iff in Ed as [-> _]. }
  destruct (span isAlnumUnderscore (c :: t)) as [w s] eqn:E. destruct w as [| x w]; [done |].
  apply span_split in E as [E _]. apply (f_equal length) in E. rewrite length_app in E. simpl in E.
  destruct (EqualFold _ _ && _).
  - apply post_bind with (k1 := 1%nat) (Q := fun _ => True); [eapply post_weaken; [apply parseMultiline_post | | done] |]; [simpl; rewrite Hp1; simpl; lia |].
    intros v q Hq _. apply post_ret; [done |]. simpl. lia.
  - apply post_ret; [simpl; rewrite Hp1; simpl; lia |]. simpl. lia.
Qed.

Lemma parseArgument_ok l : arg_ok l (parseArgument l).
Proof.
  induction l as [| l IH]; cbn [parseArgument]; apply argument_ok; intros p; [done |].
  by apply parseTestList_post.
Qed.

Lemma arguments_go_post n l name acc p :
  (length (rest p) < n)%nat -> Forall (fun v => (value_depth v <= l)%nat) acc ->
  post 0 (Forall (fun v => (value_depth v <= l)%nat)) p (arguments_go n l name acc p).
Proof.
  revert acc p. induction n as [| n IH]; intros acc p Hn Hacc; [lia |]. cbn [arguments_go].
  destruct (rest p) as [| c t] eqn:Hp; [by apply post_ret; [lia |] |].
  destruct (_ || _); [by apply post_ret; [lia |] |].
  eapply post_bind; [apply parseArgument_ok; by rewrite Hp |]. intros v q Hq Hv.
  destruct (misplaced _ _ _); [done |]. pose proof (skip_length q).
  eapply post_weaken; [apply IH; [rewrite Hp in Hq; simpl in *; lia | by apply snoc_opt] | lia | done].
Qed.

(** A parser of commands that may open [l] more levels. *)
Definition cmd_ok (l : nat) (cmd : parser (option Command)) : Prop :=
  forall p, rest p <> [] -> post 1 (opt_all (fun c => (command_depth c <= l)%nat)) p (cmd p).

Lemma block_go_post l cmd n acc p :
  cmd_ok l cmd -> (length (rest p) < n)%nat -> Forall (fun c => (command_depth c <= l)%nat) acc ->
  post 1 (Forall (fun c => (command_depth c <= l)%nat)) p (block_go cmd n acc p).
Proof.
  intros Hcmd. revert acc p. induction n as [| n IH]; intros acc p Hn Hacc; [lia |]. cbn [block_go].
  destruct (rest p) as [| c t] eqn:Hp; [done |].
  destruct (c =c? "}"); [apply post_ret; [simpl; rewrite Hp; simpl; lia | done] |].
  apply post_skip. pose proof (skip_length p) as Hl.
  destruct (rest (skipWhitespaceAndComments p)) as [| d s] eqn:Hp1; [done |].
  destruct (d =c? "}"); [apply post_ret; [simpl; rewrite Hp1; simpl; lia | done] |].
  eapply post_bind; [apply Hcmd; by rewrite Hp1 |]. intros v q Hq Hv.
  eapply post_weaken; [apply IH; [rewrite Hp, Hp1 in *; simpl in *; lia | by apply snoc_opt] | lia | done].
Qed.

Lemma command_ok l block :
  (forall p, post 1 (fun cs => (S (max_depth command_depth cs) <= l)%nat) p (block p)) -> cmd_ok l (command l block).
Proof.
  intros Hb p Hne. unfold command. pose proof (skip_length p) as Hl.
  destruct (rest (skipWhitespaceAndComments p)) as [| c t] eqn:Hp1.
  { apply post_ret; [| done]. rewrite Hp1. destruct (rest p); simpl; [done | lia]. }
  apply post_skip. destruct (isAlpha c); cbn [negb]; [| done].
  eapply post_bind; [apply parseIdentifier_post |]. intros name p2 H2 _.
  pose proof (skip_length p2) as Hl2.
  apply post_bind with (k1 := 1%nat) (Q := fun _ : gostring => True).
  { destruct (at_char (rest (skipWhitespaceAndComments p2)) ":") eqn:Hc; [| apply post_ret; [lia | done]].
    pose proof (parseTag_post _ Hc) as Ht. destruct (parseTag _) as [[t' q] | e]; [| done].
    simpl in *. pose proof (skip_length q). split; [lia | done]. }
  intros tag p3 H3 _.
  apply post_bind with (k1 := 1%nat) (Q := Forall (fun v => (value_depth v <= l)%nat)).
  { eapply post_weaken; [apply arguments_go_post; [lia | constructor] | lia | done]. }
  intros args p4 H4 Hargs.
  apply post_bind with (k1 := 1%nat)
    (Q := fun b => (match b with Some cs => S (max_depth command_depth cs) | None => 0%nat end <= l)%nat).
  { destruct (at_char (rest p4) "{"); [| apply post_ret; [lia | lia]].
    apply post_bind with (k1 := 1%nat) (Q := fun cs => (S (max_depth command_depth cs) <= l)%nat); [eapply post_weaken; [apply Hb | | done] |]; [lia |].
    intros cs q Hq Hcs. by apply post_ret. }
  intros b p5 H5 Hdepth.
  assert (Hcmd : (command_depth (MkCommand (ToLower name) tag args b) <= l)%nat).
  { cbn [command_depth Arguments_ Block]. apply Nat.max_lub; [by apply max_depth_le | done]. }
  destruct (at_char (rest p5) ";"); [by apply post_ret; [simpl; rewrite length_drop; lia |] |].
  destruct b; [by apply post_ret | done].
Qed.

Lemma parseCommand_ok l : cmd_ok l (parseCommand l).
Proof.
  induction l as [| l IH]; cbn [parseCommand]; apply command_ok; intros p; [done |]. unfold parseBlock.
  eapply post_weaken; [apply (block_go_post l); [done | simpl; lia | constructor] | simpl; rewrite length_drop; lia |].
  intros cs H. by apply le_n_S, max_depth_le.
Qed.

Lemma script_go_post n acc p :
  (length (rest p) < n)%nat -> Forall (fun c => (command_depth c <= MaxNesting)%nat) acc ->
  match script_go n acc p with
  | Ok cs => Forall (fun c => (command_depth c <= MaxNesting)%nat) cs
  | Err e => e <> EFuel
  end.
Proof.
  revert acc p. induction n as [| n IH]; intros acc p Hn Hacc; [lia |]. cbn [script_go].
  destruct (rest p) as [| c t] eqn:Hp; [by destruct (unterminated p) |].
  pose proof (skip_length p) as Hl.
  destruct (rest (skipWhitespaceAndComments p)) as [| d s] eqn:Hp1; [by destruct (unterminated _) |].
  pose proof (parseCommand_ok MaxNesting (skipWhitespaceAndComments p) ltac:(by rewrite Hp1)) as H.
  destruct (parseCommand _ _) as [[v q] | e]; [| done]. cbn [rbind]. simpl in H. destruct H as [H1 H2].
  apply IH; [rewrite Hp, Hp1 in *; simpl in *; lia | by apply snoc_opt].
Qed.

(** C40: the parser returns for every input, a script or an error of its own: no
    loop stops making progress, and what it returns nests blocks and test lists
    at most [MaxNesting] deep, so that neither the parser nor anything that
    recurses over the script can exhaust the stack. *)
Theorem parse_total script :
  match Parse script with
  | Ok cs => Forall (fun c => (command_depth c <= MaxNesting)%nat) cs
  | Err e => e <> EFuel
  end.
Proof. apply script_go_post; [simpl; lia | constructor]. Qed.
End Totality.

(** ** Concrete syntax

    A printer, and the scripts it can print: identifiers and tags are words of
    the lexer, a command keeps its first tag in [Tag], a word stands only where
    a test is expected, numbers are those of [int64], and the nesting is within
    [levels].  Multi-line strings are left out: they are printed quoted. *)
Definition escape (c : ascii) : gostring :=
  if (c =c? QUOTE) || (c =c? "\") then ["\"%char; c] else [c].
Definition quote (s : gostring) : gostring := QUOTE :: concat (map escape s) ++ [QUOTE].

Fixpoint print_value (v : Value) : gostring :=
  match v with
  | VString s => if Bare s then sv_value s else quote (sv_value s)
  | VNumber n => FormatUint n
  | VTag t => ":"%char :: t
  | VList l => "["%char :: Join (map quote l) [","%char] ++ ["]"%char]
  | VTestList ts =>
      "("%char :: Join (map (fun t => concat (map (fun v => " "%char :: print_value v) t)) ts) [","%char] ++ [")"%char]
  end.
Definition print_args (vs : list Value) : gostring := concat (map (fun v => " "%char :: print_value v) vs).

Definition print_tag (t : gostring) : gostring :=
  match t with [] => [] | _ => " "%char :: ":"%char :: t end.

Fixpoint print_command (c : Command) : gostring :=
  Name c ++ print_tag (Tag c) ++ print_args (Arguments_ c) ++
  match Block c with
  | None => [";"%char]
  | Some cs => " "%char :: "{"%char :: concat (map print_command cs) ++ ["}"%char]
  end.
Definition print_script (cs : list Command) : gostring := concat (map print_command cs).

Definition word (s : gostring) : bool :=
  match s with [] => false | _ => forallb isAlnumUnderscore s end.
Definition identifier (s : gostring) : bool := starts s isAlpha && word s.
Definition is_bare (v : Value) : bool := match v with VString s => Bare s | _ => false end.
Definition is_tag (v : Value) : bool := match v with VTag _ => true | _ => false end.
Definition head_is (f : Value -> bool) (vs : list Value) : bool := match vs with v :: _ => f v | [] => false end.

Definition value_ok (tests_ok : list (list Value) -> bool) (v : Value) : bool :=
  match v with
  | VString s => negb (IsLiteral s) && (if Bare s then identifier (sv_value s) && negb (Quoted s) else Quoted s)
  | VNumber n => (0 <=? n) && (n <=? max_int64)
  | VTag t => word t
  | VList _ => true
  | VTestList ts => tests_ok ts
  end.
Definition tests_ok (arg_ok : Value -> bool) (ts : list (list Value)) : bool :=
  negb (bool_decide (length ts = 0%nat)) && forallb (fun t => head_is is_bare t && forallb arg_ok t) ts.
Fixpoint wf_value (levels : nat) : Value -> bool :=
  value_ok (match levels with O => fun _ => false | S l => tests_ok (wf_value l) end).
Lemma wf_value_eq l : wf_value l = value_ok (match l with O => fun _ => false | S l => tests_ok (wf_value l) end).
Proof. by destruct l. Qed.

Definition tag_ok (t : gostring) (args : list Value) : bool :=
  match t with [] => negb (head_is is_tag args) | _ => word t end.

Section Wf.
Context {U : UnicodeTables}.
Definition header_ok (levels : nat) (c : Command) : bool :=
  identifier (Name c) && (ToLower (Name c) =s? Name c) &&
  tag_ok (Tag c) (Arguments_ c) &&
  forallb (wf_value levels) (Arguments_ c) &&
  (isConditional (Name c) || forallb (fun v => negb (is_bare v)) (Arguments_ c)).
Fixpoint wf_command (levels : nat) (c : Command) : bool :=
  header_ok levels c &&
  match Block c with
  | None => true
  | Some cs => match levels with O => false | S l => forallb (wf_command l) cs end
  end.
End Wf.

(** *** Tokens read back what was printed *)
Definition follows (k : gostring) : bool := negb (starts k (fun c => isAlnumUnderscore c || (c =c? ":"))).

Lemma span_app f a b : forallb f a = true -> starts b f = false -> span f (a ++ b) = (a, b).
Proof.
  induction a as [| c a IH]; simpl; intros Ha Hb.
  - destruct b as [| d b]; [done |]. simpl in *. by rewrite Hb.
  - apply andb_true_iff in Ha as [-> Ha]. by rewrite IH.
Qed.

Lemma follows_word k : follows k = true -> starts k isAlnumUnderscore = false /\ at_char k ":" = false.
Proof. destruct k as [| c k]; [done |]. intros H. by apply negb_true_iff, orb_false_iff in H. Qed.

Lemma string_go_quote s k : string_go (concat (map escape s) ++ QUOTE :: k) = Some (s, k).
Proof.
  induction s as [| c s IH]; [done |]. cbn [map concat]. rewrite <- app_assoc.
  unfold escape at 1. destruct ((c =c? QUOTE) || (c =c? "\")) eqn:E.
  - cbn [app string_go]. change ("\" =c? "\") with true. cbn iota. by rewrite IH.
  - apply orb_false_iff in E as [E1 E2]. cbn [app string_go]. rewrite E1, E2, IH. done.
Qed.

Lemma parseString_quote s k u :
  parseString {| rest := quote s ++ k; unterminated := u |} = Ok (quotedValue s, {| rest := k; unterminated := u |}).
Proof.
  unfold parseString, quote. cbn [rest app]. change (at_char (QUOTE :: _) QUOTE) with true. cbn [negb drop].
  rewrite drop_0, <- app_assoc. cbn [app]. by rewrite string_go_quote.
Qed.

Lemma skip_space k u : starts k blank = false ->
  skipWhitespaceAndComments {| rest := " "%char :: k; unterminated := u |} = {| rest := k; unterminated := u |}.
Proof.
  intros H. unfold skipWhitespaceAndComments. cbn [rest length skip_go]. change (isWhitespace " ") with true. cbn iota.
  pose proof (skip_id {| rest := k; unterminated := u |} H) as Hs. unfold skipWhitespaceAndComments in Hs.
  cbn [rest unterminated] in *. exact Hs.
Qed.

Lemma list_go_print n acc l k u : (length (Join (map quote l) [","%char]) < n)%nat ->
  list_go n acc {| rest := Join (map quote l) [","%char] ++ "]"%char :: k; unterminated := u |}
  = Ok (acc ++ l, {| rest := k; unterminated := u |}).
Proof.
  revert n acc. induction l as [| s l IH]; intros n acc Hn.
  - destruct n as [| n]; [simpl in Hn; lia |]. cbn [map Join app list_go rest].
    change (("]" =c? "]")) with true. cbn iota. by rewrite app_nil_r.
  - destruct n as [| n]; [simpl in Hn; lia |].
    assert (Hstep : forall rest', starts rest' blank = false ->
      list_go (S n) acc {| rest := quote s ++ rest'; unterminated := u |} =
      list_go n (acc ++ [s]) {| rest := if at_char rest' "," then drop 1 rest' else rest'; unterminated := u |}).
    { intros r Hr. cbn [list_go rest]. rewrite skip_id by done. unfold quote at 1. cbn [app]. cbn iota.
      change (QUOTE =c? "]") with false. change (QUOTE =c? QUOTE) with true. cbn iota.
      unfold quote at 1. cbn [rest app]. change (QUOTE =c? QUOTE) with true. cbn iota.
      rewrite parseString_quote. cbn [rbind]. rewrite skip_id by done. cbn [rest at_ unterminated sv_value quotedValue].
      by destruct (at_char r ","). }
    destruct l as [| s2 l].
    + cbn [map Join]. rewrite Hstep by done. cbn [at_char starts]. change ("]" =c? ",") with false. cbn iota.
      destruct n as [| n]; [simpl in Hn; lia |]. cbn [list_go rest]. change (("]" =c? "]")) with true. by cbn iota.
    + cbn [map Join] in *. rewrite <- !app_assoc. cbn [app]. rewrite Hstep by done. cbn [at_char starts].
      change ("," =c? ",") with true. cbn iota. cbn [drop]. rewrite drop_0.
      change (match map quote l with [] => quote s2 | y :: r => quote s2 ++ [","%char] ++ Join (y :: r) [","%char] end)
        with (Join (map quote (s2 :: l)) [","%char]) in *.
      rewrite IH; [by rewrite <- app_assoc |]. rewrite !length_app in Hn. simpl in *. lia.
Qed.

Lemma isDigit_is_digit c : isDigit c = is_digit c.
Proof. done. Qed.

Lemma alnum_not_quantified c : isAlnumUnderscore c = false -> quantifier c = 0.
Proof. revert c. by_bytes. Qed.
Lemma digit_alnum c : isDigit c = true -> isAlnumUnderscore c = true /\ (c =c? "-") = false.
Proof. revert c. by_bytes. Qed.

Lemma parseNumber_print n k u : 0 <= n <= max_int64 -> follows k = true ->
  parseNumber {| rest := FormatUint n ++ k; unterminated := u |} = Ok (n, {| rest := k; unterminated := u |}).
Proof.
  intros Hn Hk. apply follows_word in Hk as [Hk _]. unfold parseNumber. cbn [rest].
  pose proof (FormatUint_digits n ltac:(lia)) as Hd. pose proof (FormatUint_nonempty n) as Hne.
  assert (Hs : at_char (FormatUint n ++ k) "-" = false).
  { destruct (FormatUint n) as [| c t]; [done |]. simpl in *. apply andb_true_iff in Hd as [Hd _].
    by apply digit_alnum in Hd as [_ Hd]. }
  rewrite Hs, span_app; [| done |]; cycle 1.
  { destruct k as [| c k]; [done |]. simpl in *. destruct (isDigit c) eqn:E; [| done]. by apply digit_alnum in E as [E _]; congruence. }
  cbn [app]. pose proof (Atoi_FormatUint n Hn) as Ha. unfold Atoi in Ha. rewrite Ha.
  destruct k as [| c k]; [done |]. by rewrite (alnum_not_quantified c Hk).
Qed.

(** The first byte of an argument: it starts no white space, and no delimiter. *)
Definition value_head (c : ascii) : bool :=
  negb (blank c) && negb (in_set ",);{}" c).

Lemma alpha_head c : isAlpha c = true -> value_head c = true.
Proof. revert c. by_bytes. Qed.
Lemma digit_head c : isDigit c = true -> value_head c = true.
Proof. revert c. by_bytes. Qed.

Lemma print_value_head l v : wf_value l v = true -> exists c t, print_value v = c :: t /\ value_head c = true /\
  isAlpha c = is_bare v /\ (c =c? ":") = is_tag v.
Proof.
  rewrite wf_value_eq. intros H. destruct v as [s | n | t | xs | ts]; cbn [value_ok print_value is_bare is_tag] in *.
  - apply andb_true_iff in H as [_ H]. destruct (Bare s); [| by exists QUOTE; eauto].
    apply andb_true_iff in H as [H _]. unfold identifier in H. apply andb_true_iff in H as [H _].
    destruct (sv_value s) as [| c t]; [done |]. exists c, t. cbn [starts] in H. repeat split; [by apply alpha_head | done |].
    revert H. clear. revert c. by_bytes.
  - pose proof (FormatUint_digits n ltac:(breflect; lia)) as Hd. pose proof (FormatUint_nonempty n) as Hne.
    destruct (FormatUint n) as [| c t]; [done |]. exists c, t. simpl in Hd. apply andb_true_iff in Hd as [Hd _].
    rewrite <- isDigit_is_digit in Hd. repeat split; [by apply digit_head | |]; revert Hd; clear; revert c; by_bytes.
  - by exists ":"%char, t.
  - by eexists _, _.
  - by eexists _, _.
Qed.

Section RoundTrip.
Context {U : UnicodeTables}.

(** [arg] reads back the printed values that satisfy [ok]. *)
Definition reads (arg : parser (option Value)) (ok : Value -> bool) : Prop :=
  forall v k u, ok v = true -> follows k = true ->
  arg {| rest := print_value v ++ k; unterminated := u |} = Ok (Some v, {| rest := k; unterminated := u |}).

Lemma args_go_print l arg n acc vs d k u :
  reads arg (wf_value l) -> forallb (wf_value l) vs = true -> (d =c? ",") || (d =c? ")") = true ->
  (length (print_args vs) < n)%nat ->
  args_go arg n acc {| rest := print_args vs ++ d :: k; unterminated := u |}
  = Ok (acc ++ vs, {| rest := d :: k; unterminated := u |}).
Proof.
  intros Harg Hvs Hd. revert n acc Hvs. induction vs as [| v vs IH]; intros n acc Hvs Hn;
    (destruct n as [| n]; [lia |]).
  - cbn [print_args map concat app args_go]. rewrite skip_id.
    + cbn [rest]. by rewrite Hd, app_nil_r.
    + simpl. apply orb_true_iff in Hd as [Hd | Hd]; apply Ascii.eqb_eq in Hd; by subst d.
  - simpl in Hvs. apply andb_true_iff in Hvs as [Hv Hvs].
    destruct (print_value_head l v Hv) as (c & t & Hp & Hc & _).
    assert (Hf : follows (print_args vs ++ d :: k) = true).
    { destruct vs as [| w vs]; [| done]. simpl. apply orb_true_iff in Hd as [Hd | Hd]; apply Ascii.eqb_eq in Hd; by subst d. }
    unfold print_args in *. cbn [map concat] in *. rewrite <- app_assoc. cbn [app args_go].
    unfold value_head in Hc. apply andb_true_iff in Hc as [Hb Hs]. apply negb_true_iff in Hb, Hs.
    rewrite skip_space by (rewrite Hp; done). cbn [rest].
    rewrite Hp. cbn [app]. unfold in_set in Hs. cbn [existsb String.list_ascii_of_string] in Hs.
    rewrite !orb_false_r in Hs. rewrite !(Ascii.eqb_sym _ c) in Hs.
    repeat (apply orb_false_iff in Hs as [? Hs]).
    repeat match goal with H : (c =c? _) = false |- _ => rewrite H; clear H end. cbn [orb].
    change (c :: t ++ ?x) with ((c :: t) ++ x). rewrite <- Hp, Harg by done. cbn [rbind].
    rewrite IH; [by rewrite <- app_assoc | done |]. rewrite length_app in Hn. simpl in Hn. lia.
Qed.

Lemma print_args_head l t : head_is is_bare t = true -> forallb (wf_value l) t = true ->
  exists c s, print_args t = " "%char :: c :: s /\ isAlpha c = true.
Proof.
  destruct t as [| v t]; [done |]. simpl. intros Hb H. apply andb_true_iff in H as [Hv _].
  destruct (print_value_head l v Hv) as (c & s & Hp & _ & Ha & _). exists c, (s ++ print_args t).
  unfold print_args. cbn [map concat]. rewrite Hp. split; [done |]. congruence.
Qed.

Lemma tests_go_print l arg n acc comma ts k u :
  reads arg (wf_value l) -> ts <> [] ->
  forallb (fun t => head_is is_bare t && forallb (wf_value l) t) ts = true ->
  (length (Join (map print_args ts) [","%char]) < n)%nat ->
  tests_go arg n acc comma {| rest := Join (map print_args ts) [","%char] ++ ")"%char :: k; unterminated := u |}
  = Ok (acc ++ ts, {| rest := k; unterminated := u |}).
Proof.
  intros Harg. revert n acc comma. induction ts as [| t ts IH]; intros n acc comma Hne Hts Hn; [done |].
  simpl in Hts. apply andb_true_iff in Hts as [Ht Hts]. apply andb_true_iff in Ht as [Hb Ht].
  destruct (print_args_head l t Hb Ht) as (c & s & Hp & Hc).
  destruct n as [| n]; [simpl in Hn; lia |].
  assert (Hstep : forall d k', (d =c? ",") || (d =c? ")") = true ->
    tests_go arg (S n) acc comma {| rest := print_args t ++ d :: k'; unterminated := u |} =
    if d =c? "," then tests_go arg n (acc ++ [t]) true {| rest := k'; unterminated := u |}
  else tests_go arg n (acc ++ [t]) false {| rest := d :: k'; unterminated := u |}).
  { intros d k' Hd. cbn [tests_go].
    assert (Hsk : skipWhitespaceAndComments {| rest := print_args t ++ d :: k'; unterminated := u |}
    = {| rest := c :: s ++ d :: k'; unterminated := u |}).
    { rewrite Hp. cbn [app]. apply skip_space. simpl. by apply alpha_not_blank. }
    rewrite Hsk. cbn [rest]. rewrite Hc. cbn [negb].
    pose proof (alpha_not_delim c Hc) as Hcd. apply orb_false_iff in Hcd as [_ Hcd]. rewrite Hcd.
    (* the argument loop skips the space itself *)
      assert (Ha : forall m, args_go arg (S m) [] {| rest := c :: s ++ d :: k'; unterminated := u |} =
      args_go arg (S m) [] {| rest := print_args t ++ d :: k'; unterminated := u |}).
    { intros m. cbn [args_go]. rewrite Hsk. rewrite skip_id; [done |]. simpl. by apply alpha_not_blank. }
    rewrite Ha, (args_go_print l) by (try done; rewrite Hp; simpl; rewrite ?length_app; simpl; lia).
    cbn [rbind rest app]. cbn [at_char starts]. destruct (d =c? ","); [| done]. cbn [drop]. by rewrite drop_0. }
  destruct ts as [| t2 ts].
  - cbn [map Join]. rewrite Hstep by done. change (")" =c? ",") with false. cbn iota.
    destruct n as [| n]; [cbn [map Join] in Hn; rewrite Hp in Hn; simpl in Hn; lia |].
    cbn [tests_go]. rewrite skip_id by done. cbn [rest]. change (")" =c? ")") with true. cbn iota. by destruct acc.
  - cbn [map Join] in *. rewrite <- !app_assoc. cbn [app]. rewrite Hstep by done.
    change ("," =c? ",") with true. cbn iota.
    change (match map print_args ts with [] => print_args t2 | y :: r => print_args t2 ++ [","%char] ++ Join (y :: r) [","%char] end)
      with (Join (map print_args (t2 :: ts)) [","%char]) in *.
    rewrite IH; [by rewrite <- app_assoc | done | done |]. rewrite !length_app in Hn. simpl in *. lia.
Qed.

Lemma word_alnum t : word t = true -> t <> [] /\ forallb isAlnumUnderscore t = true.
Proof. by destruct t. Qed.

Lemma argument_print tl tok :
  (forall ts k u, tok ts = true -> tl {| rest := print_value (VTestList ts) ++ k; unterminated := u |}
    = Ok (ts, {| rest := k; unterminated := u |})) ->
  reads (argument tl) (value_ok tok).
Proof.
  intros Htl v k u Hv Hk. pose proof Hk as Hk2. apply follows_word in Hk2 as [Hk1 Hk2].
  unfold argument. destruct v as [s | n | t | xs | ts]; cbn [value_ok] in Hv.
  - apply andb_true_iff in Hv as [Hlit Hv]. apply negb_true_iff in Hlit. destruct s as [v lit q b].
    cbn [IsLiteral Bare Quoted sv_value print_value] in *. subst lit.
    destruct b.
    + apply andb_true_iff in Hv as [Hv Hq]. apply negb_true_iff in Hq. subst q.
      apply andb_true_iff in Hv as [Ha Hw]. apply word_alnum in Hw as [Hne Hw].
      destruct v as [| c t]; [done |]. cbn [starts] in Ha. rewrite skip_id by (simpl; by apply alpha_not_blank).
      cbn [rest app].
      assert (Hc : (c =c? ":") = false /\ (c =c? QUOTE) = false /\ (c =c? "(") = false /\ (c =c? "[") = false /\
        isDigit c = false /\ (c =c? "-") = false).
      { revert Ha. clear. revert c. by_bytes. }
      destruct Hc as (-> & -> & -> & -> & -> & ->). cbn [orb andb].
      change (c :: t ++ k) with ((c :: t) ++ k). rewrite span_app by done. rewrite Hk2, andb_false_r. done.
    + subst q. rewrite skip_id by done. cbn [rest]. unfold quote at 1. cbn [app].
      change (QUOTE =c? ":") with false. change (QUOTE =c? QUOTE) with true. cbn iota.
      rewrite parseString_quote. done.
  - apply andb_true_iff in Hv as [H1 H2]. apply Z.leb_le in H1, H2. cbn [print_value].
    pose proof (FormatUint_digits n H1) as Hd. pose proof (FormatUint_nonempty n) as Hne.
    pose proof (parseNumber_print n k u (conj H1 H2) Hk) as Hp.
    destruct (FormatUint n) as [| c t]; [done |]. cbn [forallb] in Hd. apply andb_true_iff in Hd as [Hd _].
    assert (Hc : (c =c? ":") = false /\ (c =c? QUOTE) = false /\ (c =c? "(") = false /\ (c =c? "[") = false /\
      blank c = false).
    { revert Hd. clear. revert c. by_bytes. }
    destruct Hc as (H3 & H4 & H5 & H6 & H7). rewrite skip_id by done. cbn [rest app].
    rewrite H3, H4, H5, H6, isDigit_is_digit, Hd. cbn [orb]. cbn [app] in Hp. by rewrite Hp.
  - rewrite skip_id by done. cbn [rest print_value app]. change (":" =c? ":") with true. cbn iota.
    unfold parseTag. cbn [rest at_char starts]. change (":" =c? ":") with true. cbn [negb drop]. rewrite drop_0.
    apply word_alnum in Hv as [Hne Hw]. rewrite span_app by done. by destruct t.
  - rewrite skip_id by done. cbn [rest print_value app].
    change ("[" =c? ":") with false. change ("[" =c? QUOTE) with false. change ("[" =c? "(") with false.
    change ("[" =c? "[") with true. cbn iota. unfold parseStringList. cbn [rest at_char starts].
    change ("[" =c? "[") with true. cbn [negb drop at_ rest unterminated]. rewrite drop_0, <- app_assoc. cbn [app].
    unfold at_. cbn [unterminated]. rewrite list_go_print; [done |]. rewrite !length_app. simpl. lia.
  - rewrite skip_id by done. specialize (Htl ts k u Hv). cbn [print_value rest app] in *.
    change ("(" =c? ":") with false. change ("(" =c? QUOTE) with false. change ("(" =c? "(") with true.
    cbn iota. by rewrite Htl.
Qed.

Lemma parseArgument_print l : reads (parseArgument l) (wf_value l).
Proof.
  induction l as [| l IH]; cbn [parseArgument wf_value]; apply argument_print; [done |].
  intros ts k u Ht. unfold parseTestList, tests_ok in *. apply andb_true_iff in Ht as [Hne Ht].
  cbn [print_value rest app drop at_ unterminated]. rewrite drop_0, <- app_assoc. cbn [app].
  fold print_args. apply (tests_go_print l); [done | | done |].
  - intros ->. done.
  - rewrite length_app. lia.
Qed.
Lemma at_mk a b u : at_ {| rest := a; unterminated := u |} b = {| rest := b; unterminated := u |}.
Proof. done. Qed.

(** After the arguments of a command: its end, or its block. *)
Definition ends_args (k : gostring) : Prop :=
  exists s, (k = ";"%char :: s \/ k = " "%char :: "{"%char :: s).
Definition trim_args (k : gostring) : gostring :=
  match k with c :: s => if c =c? " " then s else k | [] => k end.

Lemma ends_args_follows k : ends_args k -> follows k = true.
Proof. by intros [s [-> | ->]]. Qed.
Lemma ends_args_skip k u : ends_args k ->
  skipWhitespaceAndComments {| rest := k; unterminated := u |} = {| rest := trim_args k; unterminated := u |}.
Proof. intros [s [-> | ->]]; [by rewrite skip_id | by rewrite skip_space]. Qed.

Lemma skip_args l vs k u : forallb (wf_value l) vs = true -> ends_args k ->
  skipWhitespaceAndComments {| rest := print_args vs ++ k; unterminated := u |}
  = {| rest := match vs with [] => trim_args k | v :: vs => print_value v ++ print_args vs ++ k end; unterminated := u |}.
Proof.
  intros Hvs Hk. destruct vs as [| v vs]; [by apply ends_args_skip |]. simpl in Hvs.
  apply andb_true_iff in Hvs as [Hv _]. destruct (print_value_head l v Hv) as (c & t & Hp & Hc & _).
  unfold print_args. cbn [map concat]. rewrite <- app_assoc. cbn [app]. apply skip_space. rewrite Hp. simpl.
  unfold value_head in Hc. apply andb_true_iff in Hc as [Hc _]. by apply negb_true_iff in Hc.
Qed.

Lemma arguments_go_print l name n acc vs k u :
  forallb (wf_value l) vs = true -> isConditional name || forallb (fun v => negb (is_bare v)) vs = true ->
  ends_args k -> (length (print_args vs) < n)%nat ->
  arguments_go n l name acc (skipWhitespaceAndComments {| rest := print_args vs ++ k; unterminated := u |})
  = Ok (acc ++ vs, {| rest := trim_args k; unterminated := u |}).
Proof.
  intros Hvs Hbare Hk. revert n acc Hvs Hbare. induction vs as [| v vs IH]; intros n acc Hvs Hbare Hn;
    (destruct n as [| n]; [lia |]); rewrite (skip_args l) by done.
  - cbn [arguments_go rest]. rewrite app_nil_r. by destruct Hk as [s [-> | ->]].
  - cbn [forallb] in Hvs. apply andb_true_iff in Hvs as [Hv Hvs].
    destruct (print_value_head l v Hv) as (c & t & Hp & Hc & Hal & _).
    assert (Hf : follows (print_args vs ++ k) = true).
    { destruct vs as [| w vs]; [by apply ends_args_follows | done]. }
    pose proof (parseArgument_print l v (print_args vs ++ k) u Hv Hf) as Hpa.
    cbn [arguments_go rest]. rewrite Hp in *. cbn [app] in *.
    unfold value_head in Hc. apply andb_true_iff in Hc as [_ Hs]. apply negb_true_iff in Hs.
    unfold in_set in Hs. cbn [existsb String.list_ascii_of_string] in Hs.
    rewrite !orb_false_r in Hs. rewrite !(Ascii.eqb_sym _ c) in Hs.
    repeat (apply orb_false_iff in Hs as [? Hs]).
    repeat match goal with H : (c =c? _) = false |- _ => rewrite H; clear H end. cbn [orb].
    rewrite Hpa. cbn [rbind].
    assert (Hm : misplaced name (isAlpha c) (Some v) = None).
    { rewrite Hal. destruct v as [sv | | | |]; try done. simpl. destruct (Bare sv) eqn:Eb; [| done]. cbn [andb].
      destruct (isConditional name) eqn:Ec; [by rewrite andb_false_r |]. simpl in Hbare. by rewrite Eb in Hbare. }
    rewrite Hm, IH; [by rewrite <- app_assoc | done | |].
    + destruct (isConditional name); [done |]. simpl in *. by apply andb_true_iff in Hbare as [_ Hbare].
    + unfold print_args in *. cbn [map concat] in Hn. rewrite length_app in Hn. simpl in Hn. lia.
Qed.

(** The block after the arguments of a printed command. *)
Definition print_block (b : option (list Command)) : gostring :=
  match b with
  | None => [";"%char]
  | Some cs => " "%char :: "{"%char :: concat (map print_command cs) ++ ["}"%char]
  end.

Lemma print_command_eq c : print_command c =
  Name c ++ print_tag (Tag c) ++ print_args (Arguments_ c) ++ print_block (Block c).
Proof. by destruct c. Qed.

(** [cmd] reads back the printed commands that satisfy [ok]. *)
Definition cmd_reads (cmd : parser (option Command)) (ok : Command -> bool) : Prop :=
  forall c k u, ok c = true -> at_char k ";" = false ->
  cmd {| rest := print_command c ++ k; unterminated := u |} = Ok (Some c, {| rest := k; unterminated := u |}).

Lemma identifier_parts s : identifier s = true ->
  exists c t, s = c :: t /\ isAlpha c = true /\ forallb isAlnumUnderscore (c :: t) = true.
Proof.
  unfold identifier. intros H. apply andb_true_iff in H as [H1 H2]. destruct s as [| c t]; [done |]. eauto.
Qed.

Lemma block_ends_args b k : ends_args (print_block b ++ k).
Proof. destruct b as [cs |]; simpl; eexists; eauto. Qed.

(** The tag of a printed command, or none, is read before its arguments. *)
Lemma tag_print l tag vs k u :
  tag_ok tag vs = true ->
  forallb (wf_value l) vs = true -> ends_args k ->
  let p := skipWhitespaceAndComments
  {| rest := print_tag tag ++ print_args vs ++ k; unterminated := u |} in
  (if at_char (rest p) ":" then let* (t, p) := parseTag p in Ok (t, skipWhitespaceAndComments p) else Ok ([], p))
  = Ok (tag, skipWhitespaceAndComments {| rest := print_args vs ++ k; unterminated := u |}).
Proof.
  intros Htag Hvs Hk. destruct tag as [| c t]; cbn zeta; cbn [tag_ok print_tag] in *.
  - cbn [app]. rewrite (skip_args l) by done. cbn [rest]. destruct vs as [| v vs].
    + by destruct Hk as [s [-> | ->]].
    + cbn [forallb] in Hvs. apply andb_true_iff in Hvs as [Hv Hvs].
      destruct (print_value_head l v Hv) as (c & t & Hp & _ & _ & Ht). rewrite Hp. cbn [app at_char starts].
      simpl in Htag. rewrite Ht. destruct (is_tag v); done.
  - cbn [app]. rewrite skip_space by done. cbn [rest at_char starts]. change (":" =c? ":") with true. cbn iota.
    unfold parseTag. cbn [rest at_char starts]. change (":" =c? ":") with true. cbn [negb drop]. rewrite ?drop_0.
    apply word_alnum in Htag as [_ Hw].
    assert (Hst : starts (print_args vs ++ k) isAlnumUnderscore = false).
    { destruct vs as [| v vs]; [| done]. by destruct Hk as [s [-> | ->]]. }
    change (c :: t ++ ?x) with ((c :: t) ++ x). rewrite span_app by done. done.
Qed.

Lemma command_print l block bok :
  (forall cs k u, bok cs = true -> block {| rest := "{"%char :: concat (map print_command cs) ++ "}"%char :: k; unterminated := u |}
    = Ok (cs, {| rest := k; unterminated := u |})) ->
  cmd_reads (command l block) (fun c => header_ok l c && match Block c with None => true | Some cs => bok cs end).
Proof.
  intros Hblock [name tag args b] k u Hok Hk. cbn [Block] in Hok. apply andb_true_iff in Hok as [Hh Hb].
  unfold header_ok in Hh. cbn [Name Tag Arguments_] in Hh.
  apply andb_true_iff in Hh as [Hh H]. apply andb_true_iff in Hh as [Hh H0].
  apply andb_true_iff in Hh as [Hh H1]. apply andb_true_iff in Hh as [Hh H2]. apply bool_decide_eq_true in H2.
  rewrite print_command_eq. cbn [Name Tag Arguments_ Block].
  destruct (identifier_parts name Hh) as (c & t & Hn & Ha & Hw).
  unfold command. rewrite skip_id by (rewrite Hn; simpl; by apply alpha_not_blank). cbn [rest].
  rewrite <- !app_assoc. rewrite Hn at 1. cbn [app]. rewrite Ha. cbn [negb].
  unfold parseIdentifier. cbn [rest]. rewrite span_app; [| by rewrite Hn |]; cycle 1.
  { destruct tag; [| done]. destruct args; [| done]. by destruct b. }
  rewrite Hn at 1. cbn [rbind]. rewrite !at_mk, H2.
  pose proof (block_ends_args b k) as Hends.
  pose proof (tag_print l tag args (print_block b ++ k) u H1 H0 Hends) as Ht. cbn zeta in Ht. rewrite Ht. cbn [rbind].
  rewrite arguments_go_print; [| done | done | done |]; cycle 1.
  { rewrite (skip_args l) by done. cbn [rest]. destruct args as [| v vs]; [simpl; lia |].
    unfold print_args. cbn [map concat]. rewrite !length_app. destruct b; simpl; lia. }
  cbn [rbind app rest]. destruct b as [cs |]; cbn [print_block].
  - cbn [app trim_args]. change (" " =c? " ") with true. cbn iota. cbn [at_char starts].
    change ("{" =c? "{") with true. cbn iota. rewrite <- app_assoc. cbn [app].
    rewrite Hblock by done. cbn [rbind rest]. by rewrite Hk.
  - cbn [app trim_args]. change (";" =c? " ") with false. cbn iota. cbn [at_char starts rest].
    change (";" =c? "{") with false. cbn [rbind rest starts]. change (";" =c? ";") with true. cbn iota.
    cbn [drop]. by rewrite ?drop_0.
Qed.

Lemma print_command_head l c : header_ok l c = true -> exists x t, print_command c = x :: t /\ isAlpha x = true.
Proof.
  unfold header_ok. intros H. do 4 apply andb_true_iff in H as [H _].
  destruct (identifier_parts _ H) as (x & t & Hn & Ha & _). rewrite print_command_eq, Hn. by eexists _, _.
Qed.

Lemma alpha_not_punct c : isAlpha c = true -> (c =c? ";") = false /\ (c =c? "}") = false.
Proof. revert c. by_bytes. Qed.

Lemma block_go_print l cmd ok n acc cs k u :
  cmd_reads cmd ok -> (forall c, ok c = true -> header_ok l c = true) -> forallb ok cs = true ->
  (length (concat (map print_command cs)) < n)%nat ->
  block_go cmd n acc {| rest := concat (map print_command cs) ++ "}"%char :: k; unterminated := u |}
  = Ok (acc ++ cs, {| rest := k; unterminated := u |}).
Proof.
  intros Hcmd Hhead. revert n acc. induction cs as [| c cs IH]; intros n acc Hok Hn; (destruct n as [| n]; [lia |]).
  - cbn [map concat app block_go rest]. rewrite app_nil_r. by change ("}" =c? "}") with true.
  - cbn [forallb] in Hok. apply andb_true_iff in Hok as [Hc Hok].
    destruct (print_command_head l c (Hhead c Hc)) as (x & t & Hp & Ha). pose proof (alpha_not_punct x Ha) as [H1 H2].
    cbn [map concat] in *. rewrite <- app_assoc.
    assert (Hk' : at_char (concat (map print_command cs) ++ "}"%char :: k) ";" = false).
    { destruct cs as [| d cs]; [done |]. cbn [forallb] in Hok. apply andb_true_iff in Hok as [Hd _].
      destruct (print_command_head l d (Hhead d Hd)) as (y & s & Hq & Hy). cbn [map concat]. rewrite Hq. simpl.
      by apply alpha_not_punct in Hy as [-> _]. }
    pose proof (Hcmd c _ u Hc Hk') as Hrd. cbn [block_go].
    rewrite skip_id by (rewrite Hp; simpl; by apply alpha_not_blank). cbn [rest]. rewrite Hrd.
    rewrite Hp. cbn [app]. rewrite H2. cbn [rbind].
    rewrite IH; [by rewrite <- app_assoc | done |]. rewrite length_app, Hp in Hn. simpl in Hn. lia.
Qed.

Lemma wf_command_header l c : wf_command l c = true -> header_ok l c = true.
Proof. destruct l; cbn [wf_command]; intros H; by apply andb_true_iff in H as [H _]. Qed.

Lemma parseCommand_print l : cmd_reads (parseCommand l) (wf_command l).
Proof.
  induction l as [| l IH]; intros c k u Hc Hk; cbn [parseCommand].
  - apply (command_print 0 _ (fun _ => false)); [done | | done]. by destruct c as [? ? ? []].
  - apply (command_print (S l) _ (forallb (wf_command l))); [| by destruct c as [? ? ? []] | done].
    intros cs k' u' Hcs. unfold parseBlock, at_. cbn [rest drop unterminated]. rewrite ?drop_0.
    apply (block_go_print l) with (ok := wf_command l); [done | apply wf_command_header | done |].
    rewrite length_app. lia.
Qed.

(** C39: what is printed in the concrete syntax is read back as it was: every
    script of words, quoted strings with any octets, numbers, tags, string lists
    and nested tests and blocks within the nesting limit. *)
Theorem parse_print cs : forallb (wf_command MaxNesting) cs = true -> Parse (print_script cs) = Ok cs.
Proof.
  unfold Parse, print_script. intros Hok.
  assert (H : forall cs n acc, forallb (wf_command MaxNesting) cs = true ->
    (length (concat (map print_command cs)) < n)%nat ->
    script_go n acc (NewParser (concat (map print_command cs))) = Ok (acc ++ cs)).
  { clear. unfold NewParser. induction cs as [| c cs IH]; intros n acc Hok Hn; (destruct n as [| n]; [lia |]).
    - cbn [map concat script_go rest unterminated]. by rewrite app_nil_r.
    - cbn [forallb] in Hok. apply andb_true_iff in Hok as [Hc Hok].
      destruct (print_command_head _ c (wf_command_header _ c Hc)) as (x & t & Hp & Ha).
      cbn [map concat] in *.
      assert (Hk' : at_char (concat (map print_command cs)) ";" = false).
      { destruct cs as [| d cs]; [done |]. cbn [forallb] in Hok. apply andb_true_iff in Hok as [Hd _].
        destruct (print_command_head _ d (wf_command_header _ d Hd)) as (y & s & Hq & Hy). cbn [map concat]. rewrite Hq.
        simpl. by apply alpha_not_punct in Hy as [-> _]. }
      pose proof (parseCommand_print MaxNesting c _ false Hc Hk') as Hrd.
      cbn [script_go]. rewrite skip_id by (rewrite Hp; simpl; by apply alpha_not_blank). cbn [rest]. rewrite Hrd.
      rewrite Hp. cbn [app rbind].
      rewrite IH; [by rewrite <- app_assoc | done |]. rewrite length_app, Hp in Hn. simpl in Hn. lia. }
  rewrite H; [done | done | lia].
Qed.
End RoundTrip.

#[export] Existing Instance ascii_tables.

Definition ex_word (w : gostring) : Value := VString (bareValue w).
Definition ex_str (s : gostring) : Value := VString (quotedValue s).
Definition ex_script : list Command :=
  [ MkCommand "require" [] [VList [("fileinto" : gostring); ("copy" : gostring)]] None;
    MkCommand "if" []
      [ex_word "allof"; VTestList [[ex_word "not"; ex_word "header"; VTag "is"; ex_str "subject"; ex_str [QUOTE; "\"%char]];
                                   [ex_word "size"; VTag "over"; VNumber 102400]]]
      (Some [MkCommand "fileinto" "copy" [ex_str "Big"] None; MkCommand "stop" [] [] None]) ].

Lemma parse_print_witness : Parse (print_script ex_script) = Ok ex_script.
Proof. apply (parse_print ex_script). vm_compute. reflexivity. Defined.
