(* ===== verification/SieveMatch.v ===== *)
(** * internal/sieve: the matchers

    The bounded [:matches] matcher of interpreter.go ([globTokens], [matchAt],
    [globMatchBudget]) and the numeric comparator of match.go, with their
    reference semantics: the glob matcher decides the usual meaning of a pattern
    over Unicode characters, and [numericCompare] compares numbers of any size. *)
From S2P Require Import Prelude GoLib Utf8.

(** ** The glob matcher of interpreter.go *)
Inductive globTok := Star | AnyChar | Lit (lit : gostring).

Fixpoint globTokens_go (fuel : nat) (glob : gostring) : list globTok :=
  match fuel with
  | O => []
  | S f =>
      match glob with
      | [] => []
      | c :: t =>
          if c =c? "*" then Star :: globTokens_go f t
          else if c =c? "?" then AnyChar :: globTokens_go f t
          else if c =c? "\" then
            match t with
            | [] => [Lit "\"]
            | _ => let size := rune_size t in Lit (take size t) :: globTokens_go f (drop size t)
            end
          else let size := rune_size glob in Lit (take size glob) :: globTokens_go f (drop size glob)
      end
  end.
Definition globTokens (glob : gostring) : list globTok := globTokens_go (length glob) glob.

Abbreviation globSegment := (list globTok).

(** [None] is -1; the second component is [*steps]. *)
Fixpoint matchAt (g : globSegment) (v : gostring) (pos : nat) (steps : Z) : option nat * Z :=
  match g with
  | [] => (Some pos, steps)
  | t :: g =>
      let steps := steps + 1 in
      if (length v <=? pos)%nat then (None, steps) else
      match t with
      | AnyChar => matchAt g v (pos + rune_size (drop pos v))%nat steps
      | Lit l => if HasPrefix (drop pos v) l then matchAt g v (pos + length l)%nat steps else (None, steps)
      | Star => matchAt g v pos steps
      end
  end.

Fixpoint literal (g : globSegment) : option gostring :=
  match g with
  | [] => Some []
  | AnyChar :: _ => None
  | Star :: g => literal g
  | Lit l :: g => (fun s => l ++ s) <$> literal g
  end.

(** The tokens between the stars: the first segment and the others. *)
Fixpoint segments (ts : list globTok) : globSegment * list globSegment :=
  match ts with
  | [] => ([], [])
  | Star :: ts => let '(s, segs) := segments ts in ([], s :: segs)
  | t :: ts => let '(s, segs) := segments ts in (t :: s, segs)
  end.

Definition maxGlobSteps : Z := Z.shiftl 64 20.
Inductive glob_error := EGlobSteps.

(** Where the last [n] characters before [sStart] start. *)
Fixpoint walk_back (n : nat) (v : gostring) (sStart : nat) : option nat :=
  match n with
  | O => Some sStart
  | S n => if (sStart =? 0)%nat then None
           else walk_back n v (sStart - snd (decode_last_rune (take sStart v)))%nat
  end.

(** The search for a segment with a "?", from [s] on. *)
Fixpoint scan (fuel : nat) (seg : globSegment) (v : gostring) (s sStart : nat) (steps : Z)
  : result glob_error (option nat * Z) :=
  match fuel with
  | O => Ok (None, steps)
  | S f =>
      if (sStart <=? s)%nat then Ok (None, steps)
      else if maxGlobSteps <? steps then Err EGlobSteps
      else
        let '(end_, steps) := matchAt seg v s steps in
        let next := scan f seg v (s + rune_size (drop s v))%nat sStart steps in
        match end_ with
        | Some e => if (e <=? sStart)%nat then Ok (Some e, steps) else next
        | None => next
        end
  end.

Fixpoint middle (segs : list globSegment) (v : gostring) (pos sStart : nat) (steps : Z) : result glob_error bool :=
  match segs with
  | [] => Ok true
  | [] :: segs => middle segs v pos sStart steps
  | seg :: segs =>
      match literal seg with
      | Some lit =>
          match Index (take (sStart - pos) (drop pos v)) lit with
          | None => Ok false
          | Some idx => middle segs v (pos + idx + length lit)%nat sStart (steps + Z.of_nat (idx + length lit))
          end
      | None =>
          let* (found, steps) := scan (length v) seg v pos sStart steps in
          match found with
          | None => Ok false
          | Some e => middle segs v e sStart steps
          end
      end
  end.

Definition globMatchBudget (glob value : gostring) : result glob_error bool :=
  let '(first, others) := segments (globTokens glob) in
  match others with
  | [] => Ok (bool_decide (fst (matchAt first value 0 0) = Some (length value)))
  | s :: r =>
      let last := List.last others [] in
      match matchAt first value 0 0 with
      | (None, _) => Ok false
      | (Some pos, steps) =>
          match walk_back (length last) value (length value) with
          | None => Ok false
          | Some sStart =>
              if (sStart <? pos)%nat then Ok false else
              let '(e, steps) := matchAt last value sStart steps in
              if bool_decide (e = Some (length value))
              then middle (removelast others) value pos sStart steps
              else Ok false
          end
      end
  end.

(** ** What a pattern means: characters, over Unicode scalar values *)
Inductive gtok := GStar | GAny | GLit (r : Z).

Fixpoint pattern (rs : list Z) : list gtok :=
  match rs with
  | [] => []
  | r :: rs =>
      if r =? 42 then GStar :: pattern rs
      else if r =? 63 then GAny :: pattern rs
      else if r =? 92 then
        match rs with
        | [] => [GLit 92]
        | r' :: rs' => GLit r' :: pattern rs'
        end
      else GLit r :: pattern rs
  end.

Inductive gmatch : list gtok -> list Z -> Prop :=
  | gm_nil : gmatch [] []
  | gm_lit r g rs : gmatch g rs -> gmatch (GLit r :: g) (r :: rs)
  | gm_any r g rs : gmatch g rs -> gmatch (GAny :: g) (r :: rs)
  | gm_star_none g rs : gmatch g rs -> gmatch (GStar :: g) rs
  | gm_star_one r g rs : gmatch (GStar :: g) rs -> gmatch (GStar :: g) (r :: rs).

(** *** Segments *)
Definition tok_ok (t : gtok) (r : Z) : bool :=
  match t with GAny => true | GLit x => x =? r | GStar => false end.
Fixpoint seg_ok (g : list gtok) (b : list Z) : bool :=
  match g, b with
  | [], _ => true
  | t :: g, r :: b => tok_ok t r && seg_ok g b
  | _ :: _, [] => false
  end.
Definition star_free (g : list gtok) : Prop := Forall (fun t => t <> GStar) g.

(** The leftmost place of a segment. *)
Fixpoint find_seg (g : list gtok) (b : list Z) : option nat :=
  if seg_ok g b then Some 0%nat
  else match b with [] => None | _ :: b => S <$> find_seg g b end.

Fixpoint mids_ok (segs : list (list gtok)) (b : list Z) : bool :=
  match segs with
  | [] => true
  | g :: segs =>
      match find_seg g b with
      | Some i => mids_ok segs (drop (i + length g) b)
      | None => false
      end
  end.

Lemma gmatch_nil rs : gmatch [] rs <-> rs = [].
Proof. split; [by inversion 1 | intros ->; constructor]. Qed.

Lemma seg_ok_length g b : seg_ok g b = true -> (length g <= length b)%nat.
Proof.
  revert b. induction g as [| t g IH]; intros [| r b]; simpl; try done; [lia |].
  intros H. apply andb_true_iff in H as [_ H]. apply IH in H. lia.
Qed.

Lemma seg_ok_take g b n : (length g <= n)%nat -> seg_ok g (take n b) = seg_ok g b.
Proof.
  revert b n. induction g as [| t g IH]; intros b n Hn; [by destruct (take n b), b |].
  destruct n as [| n]; [simpl in Hn; lia |]. destruct b as [| r b]; [done |]. simpl in *. by rewrite IH by lia.
Qed.

Lemma gmatch_seg g k rs : star_free g ->
  gmatch (g ++ k) rs <-> seg_ok g rs = true /\ gmatch k (drop (length g) rs).
Proof.
  intros Hg. revert rs. induction Hg as [| t g Ht Hg IH]; intros rs; simpl; [rewrite drop_0; split; [done | by intros [_ ?]] |].
  destruct rs as [| r rs]; simpl.
  - split; [inversion 1; by subst | by intros [? _]].
  - destruct t as [| | x]; [done | |].
    + simpl. rewrite <- IH. split; [by inversion 1; subst | by constructor].
    + simpl. split.
      * inversion 1; subst. rewrite Z.eqb_refl. by apply IH.
      * intros [H1 H2]. apply andb_true_iff in H1 as [H1 H3]. apply Z.eqb_eq in H1. subst. constructor. by apply IH.
Qed.

Lemma gmatch_star k rs : gmatch (GStar :: k) rs <-> exists i, (i <= length rs)%nat /\ gmatch k (drop i rs).
Proof.
  split.
  - remember (GStar :: k) as g eqn:E. intros H. induction H; simplify_eq.
    + exists 0%nat. rewrite drop_0. split; [lia | done].
    + destruct IHgmatch as (i & Hi & Hm); [done |]. exists (S i). simpl. split; [lia | done].
  - intros (i & Hi & Hm). revert rs Hi Hm. induction i as [| i IH]; intros rs Hi Hm.
    + rewrite drop_0 in Hm. by constructor.
    + destruct rs as [| r rs]; [simpl in Hi; lia |]. apply gm_star_one, IH; [simpl in Hi; lia | done].
Qed.

Lemma find_seg_some g b i : find_seg g b = Some i -> (i + length g <= length b)%nat /\ seg_ok g (drop i b) = true.
Proof.
  revert i. induction b as [| r b IH]; intros i; cbn [find_seg].
  - destruct (seg_ok g []) eqn:E; [| done]. intros [= <-]. apply seg_ok_length in E as Hl. simpl in *. split; [lia | done].
  - destruct (seg_ok g (r :: b)) eqn:E.
    + intros [= <-]. apply seg_ok_length in E as Hl. rewrite drop_0. split; [lia | done].
    + intros H. apply fmap_Some in H as (j & Hj & ->). apply IH in Hj as [H1 H2]. simpl. split; [lia | done].
Qed.

Lemma find_seg_leftmost g b j : (j <= length b)%nat -> seg_ok g (drop j b) = true ->
  exists i, find_seg g b = Some i /\ (i <= j)%nat.
Proof.
  revert j. induction b as [| r b IH]; intros j Hj Hm; cbn [find_seg].
  - simpl in Hj. assert (j = 0%nat) as -> by lia. rewrite drop_0 in Hm. rewrite Hm. eauto.
  - destruct (seg_ok g (r :: b)) eqn:E; [exists 0%nat; split; [done | lia] |].
    destruct j as [| j]; [rewrite drop_0 in Hm; congruence |]. simpl in Hm, Hj.
    destruct (IH j) as (i & -> & Hi); [lia | done |]. exists (S i). split; [done | lia].
Qed.

(** Leaving out characters in front does not lose a match. *)
Lemma mids_ok_mono segs b j : mids_ok segs (drop j b) = true -> mids_ok segs b = true.
Proof.
  revert b j. induction segs as [| g segs IH]; intros b j; [done |]. cbn [mids_ok].
  destruct (decide (j <= length b)%nat) as [Hj | Hj]; cycle 1.
  { rewrite (drop_ge b j) by lia. destruct (find_seg g []) as [i |] eqn:E; [| done]. intros H.
    apply find_seg_some in E as [E1 E2]. simpl in E1. assert (g = []) as -> by (destruct g; simpl in *; [done | lia]).
    assert (i = 0%nat) as -> by lia. destruct b; cbn [find_seg seg_ok length Nat.add]; rewrite drop_0; [done |].
    apply (IH _ (S (length b))). rewrite drop_ge by (simpl; lia). done. }
  destruct (find_seg g (drop j b)) as [i |] eqn:E; [| done]. intros H.
  apply find_seg_some in E as [E1 E2]. rewrite drop_drop in E2. rewrite length_drop in E1.
  destruct (find_seg_leftmost g b (j + i)%nat) as (i0 & -> & Hi0); [lia | done |].
  apply (IH _ (j + i - i0)%nat). rewrite drop_drop in *. by replace (i0 + length g + (j + i - i0))%nat with (j + (i + length g))%nat by lia.
Qed.

Fixpoint star_join (mids : list (list gtok)) (last : list gtok) : list gtok :=
  match mids with
  | [] => GStar :: last
  | m :: mids => GStar :: m ++ star_join mids last
  end.

(** Leftmost matching of the inner segments decides the pattern. *)
Lemma star_join_spec mids last b : Forall star_free mids -> star_free last ->
  gmatch (star_join mids last) b <->
  (length last <= length b)%nat /\ seg_ok last (drop (length b - length last) b) = true /\
  mids_ok mids (take (length b - length last) b) = true.
Proof.
  intros Hms Hl. revert b. induction Hms as [| m mids Hm Hms IH]; intros b; cbn [star_join].
  - rewrite gmatch_star. split.
    + intros (i & Hi & Hg). rewrite <- (app_nil_r last) in Hg. apply gmatch_seg in Hg as [H1 H2]; [| done].
      apply gmatch_nil in H2. rewrite drop_drop in H2. apply seg_ok_length in H1 as H3.
      apply (f_equal length) in H2. rewrite length_drop in H2, H3. simpl in H2.
      assert (length b - length last = i)%nat as -> by lia. split; [lia | done].
    + intros (H1 & H2 & _). exists (length b - length last)%nat. split; [lia |].
      rewrite <- (app_nil_r last) at 1. apply gmatch_seg; [done |]. split; [done |]. apply gmatch_nil.
      rewrite drop_drop. apply drop_ge. lia.
  - rewrite gmatch_star. set (n := (length b - length last)%nat).
    assert (Hshift : forall j, (j + length last <= length b)%nat ->
      drop (length (drop j b) - length last) (drop j b) = drop n b /\
      take (length (drop j b) - length last) (drop j b) = drop j (take n b)).
    { intros j Hj. rewrite length_drop, drop_drop, take_drop_commute. unfold n. split; f_equal; [lia |]. f_equal. lia. }
    split.
    + intros (i & Hi & Hg). apply gmatch_seg in Hg as [H1 H2]; [| done]. rewrite drop_drop in H2.
      apply IH in H2 as (H3 & H4 & H5). apply seg_ok_length in H1 as H6. rewrite length_drop in H3, H6.
      destruct (Hshift (i + length m)%nat) as [E1 E2]; [lia |]. rewrite E1 in H4. rewrite E2 in H5.
      split; [lia |]. split; [done |]. cbn [mids_ok].
      assert (H7 : seg_ok m (drop i (take n b)) = true).
      { replace n with (i + (n - i))%nat by (unfold n; lia).
        rewrite <- take_drop_commute, seg_ok_take by (unfold n; lia). done. }
      destruct (find_seg_leftmost m (take n b) i) as (i0 & -> & Hi0); [rewrite length_take; unfold n; lia | done |].
      apply (mids_ok_mono _ _ (i - i0)). rewrite drop_drop.
      by replace (i0 + length m + (i - i0))%nat with (i + length m)%nat by lia.
    + intros (H1 & H2 & H3). cbn [mids_ok] in H3. destruct (find_seg m (take n b)) as [i |] eqn:E; [| done].
      apply find_seg_some in E as [E1 E2]. rewrite length_take in E1.
      exists i. split; [lia |]. apply gmatch_seg; [done |]. split.
      * replace n with (i + (n - i))%nat in E2 by lia. rewrite <- take_drop_commute, seg_ok_take in E2 by lia. done.
      * rewrite drop_drop. apply IH. destruct (Hshift (i + length m)%nat) as [-> ->]; [unfold n in *; lia |].
        rewrite length_drop. split; [unfold n in *; lia | done].
Qed.

(** ** The matcher on encoded text *)
Definition enc_tok (t : gtok) : globTok :=
  match t with GStar => Star | GAny => AnyChar | GLit r => Lit (encode_rune r) end.
Definition tok_scalar (t : gtok) : Prop := match t with GLit r => scalar r | _ => True end.

Lemma encode_length_pos r : scalar r -> (1 <= length (encode_rune r))%nat.
Proof. intros H. destruct (encode_shape r H) as (c & t & -> & _). simpl. lia. Qed.

Lemma encode_runes_cons r rs : encode_runes (r :: rs) = encode_rune r ++ encode_runes rs.
Proof. done. Qed.

Lemma encode_runes_nil rs : Forall scalar rs -> encode_runes rs = [] -> rs = [].
Proof.
  destruct 1 as [| r rs Hr Hrs]; [done |]. rewrite encode_runes_cons. intros H.
  apply (f_equal length) in H. rewrite length_app in H. pose proof (encode_length_pos r Hr). simpl in H. lia.
Qed.

Lemma runes_le_bytes rs : Forall scalar rs -> (length rs <= length (encode_runes rs))%nat.
Proof.
  induction 1 as [| r rs Hr Hrs IH]; [simpl; lia |]. rewrite encode_runes_cons, length_app.
  pose proof (encode_length_pos r Hr). simpl. lia.
Qed.

Lemma rune_size_encode r k : scalar r -> rune_size (encode_rune r ++ k) = length (encode_rune r).
Proof. intros H. unfold rune_size. by rewrite decode_encode_rune. Qed.

(** The first byte of an encoded rune is an ASCII byte only for that rune. *)
Lemma encode_ascii r c t : scalar r -> encode_rune r = c :: t -> bz c < 128 -> r = bz c /\ t = [].
Proof.
  intros Hr He Hc. pose proof (decode_encode_rune r [] Hr) as Hd. rewrite He in Hd. simpl in Hd.
  destruct (Z.ltb_spec (bz c) 128); [| lia]. injection Hd as -> Hl. by destruct t.
Qed.

Lemma encode_not_ascii r c t d : scalar r -> encode_rune r = c :: t -> bz d < 128 -> r <> bz d -> (c =c? d) = false.
Proof.
  intros Hr He Hd Hne. apply Ascii.eqb_neq. intros ->. by destruct (encode_ascii r d t Hr He Hd).
Qed.

Lemma pattern_length gs : (length (pattern gs) <= length gs)%nat.
Proof.
  induction gs as [gs IH] using (induction_ltof1 _ (@length Z)); unfold ltof in IH.
  destruct gs as [| r gs]; [done |]. cbn [pattern].
  destruct (r =? 42); [specialize (IH gs); simpl in *; lia |].
  destruct (r =? 63); [specialize (IH gs); simpl in *; lia |].
  destruct (r =? 92); [| specialize (IH gs); simpl in *; lia].
  destruct gs as [| r' gs]; [simpl; lia |]. specialize (IH gs). simpl in *. lia.
Qed.

Lemma pattern_scalar gs : Forall scalar gs -> Forall tok_scalar (pattern gs).
Proof.
  induction gs as [gs IH] using (induction_ltof1 _ (@length Z)); unfold ltof in IH. intros H.
  destruct gs as [| r gs]; [constructor |]. apply Forall_cons in H as [Hr H]. cbn [pattern].
  destruct (r =? 42); [constructor; [done | apply IH; [simpl; lia | done]] |].
  destruct (r =? 63); [constructor; [done | apply IH; [simpl; lia | done]] |].
  destruct (r =? 92); [| constructor; [done | apply IH; [simpl; lia | done]]].
  destruct gs as [| r' gs]; [repeat constructor; simpl; lia |]. apply Forall_cons in H as [Hr' H].
  constructor; [done | apply IH; [simpl; lia | done]].
Qed.

Lemma globTokens_spec gs : Forall scalar gs -> globTokens (encode_runes gs) = map enc_tok (pattern gs).
Proof.
  intros Hgs. unfold globTokens.
  assert (H : forall n gs, Forall scalar gs -> (length (encode_runes gs) <= n)%nat ->
    globTokens_go n (encode_runes gs) = map enc_tok (pattern gs)); [| by apply H].
  clear. induction n as [| n IH]; intros gs Hgs Hn.
  { rewrite (encode_runes_nil gs Hgs); [done |]. destruct (encode_runes gs); [done | simpl in Hn; lia]. }
  destruct Hgs as [| r gs Hr Hgs]; [done |]. rewrite encode_runes_cons, length_app in *.
  pose proof (encode_length_pos r Hr) as Hpos. destruct (encode_rune r) as [| c t] eqn:He; [simpl in Hpos; lia |].
  cbn [app globTokens_go pattern]. simpl in Hn.
  destruct (Z.eqb_spec r 42) as [-> | H42].
  { vm_compute in He. injection He as <- <-. cbn [app]. change ("*" =c? "*") with true. cbn [map enc_tok].
    f_equal. apply IH; [done | simpl in Hn; lia]. }
  rewrite (encode_not_ascii r c t "*" Hr He) by done.
  destruct (Z.eqb_spec r 63) as [-> | H63].
  { vm_compute in He. injection He as <- <-. cbn [app]. change ("?" =c? "?") with true. cbn [map enc_tok].
    f_equal. apply IH; [done | simpl in Hn; lia]. }
  rewrite (encode_not_ascii r c t "?" Hr He) by done.
  destruct (Z.eqb_spec r 92) as [-> | H92].
  { vm_compute in He. injection He as <- <-. cbn [app]. change ("\" =c? "\") with true. cbn iota.
    destruct Hgs as [| r' gs Hr' Hgs]; [done |]. rewrite encode_runes_cons, length_app in *.
    rewrite rune_size_encode by done. rewrite take_app_exact, drop_app_exact by done.
    pose proof (encode_length_pos r' Hr'). destruct (encode_rune r') as [| c' t'] eqn:He'; [simpl in *; lia |].
    cbn [app map enc_tok]. rewrite He'. f_equal. apply IH; [done | simpl in *; lia]. }
  rewrite (encode_not_ascii r c t "\" Hr He) by done.
  change (c :: t ++ encode_runes gs) with ((c :: t) ++ encode_runes gs). rewrite <- He.
  rewrite rune_size_encode by done. rewrite take_app_exact, drop_app_exact by done.
  cbn [map enc_tok]. f_equal. apply IH; [done | simpl in Hn; lia].
Qed.

Fixpoint gsegments (ts : list gtok) : list gtok * list (list gtok) :=
  match ts with
  | [] => ([], [])
  | GStar :: ts => let '(s, segs) := gsegments ts in ([], s :: segs)
  | t :: ts => let '(s, segs) := gsegments ts in (t :: s, segs)
  end.

Lemma segments_spec ts : segments (map enc_tok ts) = (map enc_tok (gsegments ts).1, map (map enc_tok) (gsegments ts).2).
Proof.
  induction ts as [| t ts IH]; [done |]. cbn [map segments gsegments]. rewrite IH.
  by destruct t; cbn [enc_tok]; destruct (gsegments ts).
Qed.

Definition seg_inv (s : list gtok) : Prop := star_free s /\ Forall tok_scalar s.

Lemma gsegments_inv ts : Forall tok_scalar ts ->
  seg_inv (gsegments ts).1 /\ Forall seg_inv (gsegments ts).2 /\
  ts = (gsegments ts).1 ++ concat (map (cons GStar) (gsegments ts).2).
Proof.
  induction 1 as [| t ts Ht Hts (I1 & I2 & I3)]; [repeat constructor |]. cbn [gsegments].
  destruct (gsegments ts) as [s segs]. cbn [fst snd] in *.
  destruct t as [| | r]; cbn [fst snd map concat app].
  - split_and!; [repeat constructor | by constructor | by rewrite I3 at 1].
  - split_and!; [destruct I1; split; by constructor | done | by rewrite I3 at 1].
  - split_and!; [destruct I1; split; by constructor | done | by rewrite I3 at 1].
Qed.

Lemma star_join_concat mids last : star_join mids last = concat (map (cons GStar) (mids ++ [last])).
Proof. induction mids as [| m mids IH]; simpl; [by rewrite app_nil_r |]. by rewrite IH. Qed.

Abbreviation off a := (length (encode_runes a)).

Lemma off_app a b : off (a ++ b) = (off a + off b)%nat.
Proof. by rewrite encode_runes_app, length_app. Qed.

Lemma drop_off a b : drop (off a) (encode_runes (a ++ b)) = encode_runes b.
Proof. rewrite encode_runes_app. by apply drop_app_exact. Qed.

Lemma HasPrefix_encode r k x : scalar r -> scalar x -> HasPrefix (encode_rune r ++ k) (encode_rune x) = (x =? r).
Proof.
  intros Hr Hx. destruct (Z.eqb_spec x r) as [-> | Hne]; [apply HasPrefix_app |].
  apply not_true_iff_false. intros H. apply HasPrefix_true in H as [k' H].
  by destruct (encode_prefix r x k k' Hr Hx H).
Qed.

Lemma matchAt_spec g a b steps : seg_inv g -> Forall scalar b ->
  exists steps', matchAt (map enc_tok g) (encode_runes (a ++ b)) (off a) steps
    = (if seg_ok g b then Some (off (a ++ take (length g) b)) else None, steps') /\
    steps <= steps' <= steps + Z.of_nat (length g).
Proof.
  intros [Hf Hs]. revert a b steps. induction g as [| t g IH]; intros a b steps Hb.
  { exists steps. cbn [map matchAt seg_ok length]. rewrite take_0, app_nil_r. split; [by destruct b | lia]. }
  apply Forall_cons in Hf as [Ht Hf]. apply Forall_cons in Hs as [Hts Hs]. specialize (IH Hf Hs).
  cbn [map matchAt]. destruct Hb as [| r b Hr Hb].
  { rewrite app_nil_r, Nat.leb_refl. cbn [seg_ok]. exists (steps + 1). split; [done |]. simpl. lia. }
  assert (Hlt : (length (encode_runes (a ++ r :: b)) <=? off a)%nat = false).
  { apply Nat.leb_gt. rewrite encode_runes_app, encode_runes_cons, !length_app.
    pose proof (encode_length_pos r Hr). lia. }
  rewrite Hlt, drop_off, encode_runes_cons. clear Hlt.
  destruct (IH (a ++ [r]) b (steps + 1) Hb) as (steps' & E & Hst).
  assert (Eo : off (a ++ [r]) = (off a + length (encode_rune r))%nat).
  { rewrite off_app. unfold encode_runes at 2. simpl. by rewrite app_nil_r. }
  rewrite <- !app_assoc in E. cbn [app] in E. rewrite Eo in E.
  destruct t as [| | x]; cbn [enc_tok seg_ok tok_ok length firstn]; [done | |].
  - rewrite rune_size_encode by done. rewrite E. exists steps'. split; [done |]. lia.
  - rewrite HasPrefix_encode by done. destruct (Z.eqb_spec x r) as [-> | Hne]; cbn [andb].
    + rewrite E. exists steps'. split; [done |]. lia.
    + exists (steps + 1). split; [done |]. lia.
Qed.

Lemma walk_back_spec n a c : Forall scalar a ->
  walk_back n (encode_runes (a ++ c)) (off a) =
  if (n <=? length a)%nat then Some (off (take (length a - n) a)) else None.
Proof.
  revert a c. induction n as [| n IH]; intros a c Ha; cbn [walk_back].
  { by rewrite Nat.sub_0_r, firstn_all. }
  destruct a as [| r a _] using rev_ind; [done |]. apply Forall_app in Ha as [Ha Hr].
  apply Forall_cons in Hr as [Hr _]. pose proof (encode_length_pos r Hr) as Hpos.
  assert (Eo : encode_runes (a ++ [r]) = encode_runes a ++ encode_rune r).
  { rewrite encode_runes_app. unfold encode_runes at 2. simpl. by rewrite app_nil_r. }
  destruct (Nat.eqb_spec (off (a ++ [r])) 0) as [H0 | _]; [rewrite Eo, length_app in H0; lia |].
  rewrite encode_runes_app, take_app_exact by done. rewrite Eo, decode_last_encode by done.
  rewrite length_app, Nat.add_sub, <- app_assoc. specialize (IH a ([r] ++ c) Ha).
  rewrite !encode_runes_app in IH. unfold encode_runes at 2 in IH. simpl in IH. rewrite app_nil_r in IH.
  rewrite IH, length_app. cbn [length]. rewrite Nat.add_1_r.
  destruct (Nat.leb_spec n (length a)), (Nat.leb_spec (S n) (S (length a))); try lia; [| done].
  rewrite Nat.sub_succ, take_app_le by lia. done.
Qed.

(** *** Literal segments *)
Lemma HasPrefix_runes ls b : Forall scalar ls -> Forall scalar b ->
  HasPrefix (encode_runes b) (encode_runes ls) = seg_ok (map GLit ls) b.
Proof.
  intros Hls. revert b. induction Hls as [| x ls Hx Hls IH]; intros b Hb; [by destruct (encode_runes b), b |].
  rewrite encode_runes_cons. cbn [map seg_ok tok_ok]. destruct Hb as [| r b Hr Hb].
  { pose proof (encode_length_pos x Hx). by destruct (encode_rune x); [simpl in *; lia |]. }
  rewrite encode_runes_cons. apply eq_iff_eq_true. rewrite andb_true_iff, HasPrefix_true. split.
  - intros [k H]. rewrite <- app_assoc in H. destruct (encode_prefix r x _ _ Hr Hx H) as [-> Hk].
    rewrite Z.eqb_refl, <- IH by done. split; [done |]. apply HasPrefix_true. by exists k.
  - intros [H1 H2]. apply Z.eqb_eq in H1. subst x. rewrite <- IH in H2 by done. apply HasPrefix_true in H2 as [k ->].
    exists k. by rewrite <- app_assoc.
Qed.

Lemma Index_skip t k lit c l : Forall (fun d => cont d = true) t -> lit = c :: l -> cont c = false ->
  Index (t ++ k) lit = Nat.add (length t) <$> Index k lit.
Proof.
  intros Ht -> Hc. induction Ht as [| d t Hd Ht IH]; [by destruct (Index _ _) |].
  cbn [app Index]. assert (Hp : HasPrefix (d :: t ++ k) (c :: l) = false).
  { cbn [HasPrefix]. destruct (Ascii.eqb_spec c d) as [-> | _]; [congruence | done]. }
  rewrite Hp, IH. by destruct (Index k _).
Qed.

Lemma Index_runes ls b : ls <> [] -> Forall scalar ls -> Forall scalar b ->
  Index (encode_runes b) (encode_runes ls) = (fun i => off (take i b)) <$> find_seg (map GLit ls) b.
Proof.
  intros Hne Hls. induction 1 as [| r b Hr Hb IH].
  { cbn [Index find_seg encode_runes map concat]. fold (encode_runes ls).
    pose proof (HasPrefix_runes ls [] Hls ltac:(constructor)) as H. cbn in H. unfold encode_runes in *. rewrite H.
    by destruct ls. }
  pose proof (HasPrefix_runes ls (r :: b) Hls ltac:(by constructor)) as Hp.
  destruct (encode_shape r Hr) as (c & t & He & Hc & Ht & _). rewrite encode_runes_cons, He in *. cbn [app Index find_seg] in *.
  rewrite Hp. destruct (seg_ok (map GLit ls) (r :: b)); [done |].
  destruct Hls as [| x ls Hx Hls]; [done |]. destruct (encode_shape x Hx) as (y & u & Hey & Hy & _).
  rewrite (Index_skip t _ _ y (u ++ encode_runes ls)); [| done | by rewrite encode_runes_cons, Hey | done].
  rewrite IH. destruct (find_seg _ b) as [i |]; [| done]. simpl. f_equal.
  rewrite encode_runes_cons, He. simpl. by rewrite length_app.
Qed.

Lemma literal_spec g lit : seg_inv g -> literal (map enc_tok g) = Some lit ->
  exists ls, g = map GLit ls /\ lit = encode_runes ls /\ Forall scalar ls.
Proof.
  intros [Hf Hs]. revert lit. induction g as [| t g IH]; intros lit; [intros [= <-]; by exists [] |].
  apply Forall_cons in Hf as [Ht Hf]. apply Forall_cons in Hs as [Hts Hs].
  destruct t as [| | x]; [done | done |]. cbn [map enc_tok literal]. intros H.
  apply fmap_Some in H as (l & Hl & ->). destruct (IH Hf Hs l Hl) as (ls & -> & -> & Hls).
  exists (x :: ls). split_and!; [done | done | by constructor].
Qed.

Lemma seg_ok_app g b c : seg_ok g b = seg_ok g (b ++ c) && (length g <=? length b)%nat.
Proof.
  revert b. induction g as [| t g IH]; intros [| r b]; simpl; try done.
  - by rewrite andb_false_r.
  - rewrite (IH b). by rewrite andb_assoc.
Qed.

Lemma seg_ok_lits ls b : seg_ok (map GLit ls) b = true -> take (length ls) b = ls.
Proof.
  revert b. induction ls as [| x ls IH]; intros [| r b]; simpl; try done.
  intros H. apply andb_true_iff in H as [H1 H2]. apply Z.eqb_eq in H1. subst. f_equal. by apply IH.
Qed.

(** *** Segments with a "?" *)
Lemma off_take_le n b : (off (take n b) <= off b)%nat.
Proof. rewrite <- (take_drop n b) at 2. rewrite off_app. lia. Qed.

Lemma end_in_range g b c : Forall scalar (b ++ c) -> seg_ok g (b ++ c) = true ->
  (off (take (length g) (b ++ c)) <=? off b)%nat = (length g <=? length b)%nat.
Proof.
  intros Hs Hg. apply seg_ok_length in Hg as Hl. rewrite length_app in Hl. apply Forall_app in Hs as [Hb Hc].
  destruct (Nat.leb_spec (length g) (length b)) as [H | H].
  - apply Nat.leb_le. rewrite take_app_le by lia. apply off_take_le.
  - apply Nat.leb_gt. rewrite take_app_ge, off_app by lia.
    pose proof (runes_le_bytes (take (length g - length b) c) ltac:(by apply Forall_take)) as Hr.
    rewrite length_take in Hr. lia.
Qed.

Lemma scan_spec n g a b c steps :
  g <> [] -> seg_inv g -> Forall scalar (b ++ c) -> (length b <= n)%nat ->
  steps + Z.of_nat (length g) * Z.of_nat (length b) <= maxGlobSteps ->
  exists steps', scan n (map enc_tok g) (encode_runes (a ++ b ++ c)) (off a) (off (a ++ b)) steps
    = Ok ((fun i => off (a ++ take (i + length g) b)) <$> find_seg g b, steps') /\
    steps' <= steps + Z.of_nat (length g) * Z.of_nat (length b).
Proof.
  intros Hne Hg. revert a b steps. induction n as [| n IH]; intros a b steps Hs Hn Hmax.
  { destruct b; [| simpl in Hn; lia]. exists steps. cbn [scan find_seg]. destruct g; [done |]. split; [done | simpl; lia]. }
  cbn [scan]. destruct b as [| r b].
  { rewrite app_nil_r, Nat.leb_refl. exists steps. cbn [find_seg]. destruct g; [done |]. split; [done | simpl; lia]. }
  pose proof Hs as Hs'. cbn [app] in Hs. apply Forall_cons in Hs as [Hr Hs]. pose proof (encode_length_pos r Hr) as Hpos.
  assert (Hlt : (off (a ++ r :: b) <=? off a)%nat = false).
  { apply Nat.leb_gt. rewrite off_app, encode_runes_cons, length_app. lia. }
  rewrite Hlt. destruct (Z.ltb_spec maxGlobSteps steps) as [| _]; [lia |].
  destruct (matchAt_spec g a (r :: b ++ c) steps Hg Hs') as (st & E & Hst). cbn [app]. rewrite E.
  assert (Hrange : forall e, seg_ok g (r :: b ++ c) = true -> e = off (a ++ take (length g) (r :: b ++ c)) ->
    (e <=? off (a ++ r :: b))%nat = (length g <=? length (r :: b))%nat).
  { intros e Hok ->. rewrite !off_app. rewrite <- (end_in_range g (r :: b) c) by done. cbn [app].
    apply eq_iff_eq_true. rewrite !Nat.leb_le. lia. }
  assert (Hnext : exists steps', scan n (map enc_tok g) (encode_runes (a ++ r :: b ++ c))
      (off a + rune_size (drop (off a) (encode_runes (a ++ r :: b ++ c)))) (off (a ++ r :: b)) st
    = Ok ((fun i => off (a ++ take (i + length g) (r :: b))) <$> (S <$> find_seg g b), steps') /\
    steps' <= steps + Z.of_nat (length g) * Z.of_nat (length (r :: b))).
  { rewrite drop_off, encode_runes_cons, rune_size_encode by done.
    destruct (IH (a ++ [r]) b st Hs) as (st' & E' & Hst'); [simpl in Hn; lia | simpl in *; lia |].
    rewrite <- !app_assoc in E'. cbn [app] in E'.
    assert (Eo : off (a ++ [r]) = (off a + length (encode_rune r))%nat).
    { rewrite off_app. unfold encode_runes at 2. simpl. by rewrite app_nil_r. }
    rewrite Eo in E'. rewrite E'. exists st'. split; [| simpl in *; lia]. f_equal. f_equal.
    destruct (find_seg g b) as [i |]; [| done]. simpl. by rewrite <- app_assoc. }
  cbn [find_seg]. rewrite (seg_ok_app g (r :: b) c). cbn [app].
  destruct (seg_ok g (r :: b ++ c)) eqn:Eok; [| done]. rewrite (Hrange _ eq_refl eq_refl). cbn [andb].
  destruct (Nat.leb_spec (length g) (length (r :: b))) as [Hl | Hl]; [| done].
  exists st. split; [| simpl in *; nia]. cbn [fmap option_fmap option_map Nat.add]. do 3 f_equal.
  change (r :: b ++ c) with ((r :: b) ++ c). by rewrite take_app_le by lia.
Qed.

(** *** The inner segments and the whole pattern *)
Definition total (segs : list (list gtok)) : Z := foldr (fun s n => Z.of_nat (length s) + n) 0 segs.

Lemma total_nonneg segs : 0 <= total segs.
Proof. induction segs; simpl; lia. Qed.

Lemma middle_spec segs a b c steps :
  Forall seg_inv segs -> Forall scalar (b ++ c) ->
  steps + total segs * (Z.of_nat (off (a ++ b ++ c)) + 1) <= maxGlobSteps ->
  middle (map (map enc_tok) segs) (encode_runes (a ++ b ++ c)) (off a) (off (a ++ b)) steps = Ok (mids_ok segs b).
Proof.
  intros Hsegs. revert a b steps. induction Hsegs as [| g segs Hg Hsegs IH]; intros a b steps Hs Hmax; [done |].
  set (v := encode_runes (a ++ b ++ c)) in *. pose proof (total_nonneg segs) as Ht. cbn [total foldr] in Hmax. fold (total segs) in Hmax.
  destruct g as [| t g].
  { cbn [map middle mids_ok find_seg length]. replace (find_seg [] b) with (Some 0%nat) by (by destruct b).
    rewrite drop_0. apply IH; [done |]. fold v. simpl in Hmax. lia. }
  set (G := t :: g) in *. assert (HG : G <> []) by done.
  assert (Hstep : forall i steps', find_seg G b = Some i -> steps' <= steps + Z.of_nat (length G) * (Z.of_nat (length v) + 1) ->
    middle (map (map enc_tok) segs) v (off (a ++ take (i + length G) b)) (off (a ++ b)) steps'
    = Ok (mids_ok segs (drop (i + length G) b))).
  { intros i steps' Hf Hst. specialize (IH (a ++ take (i + length G) b) (drop (i + length G) b) steps').
    rewrite <- !app_assoc, (app_assoc (take _ b)), take_drop in IH. apply IH; [| fold v; nia].
    apply Forall_app in Hs as [Hb Hc]. apply Forall_app. split; [by apply Forall_drop | done]. }
  assert (Hb : Forall scalar b) by (by apply Forall_app in Hs as [Hb _]).
  assert (Hbv : (length b <= off b /\ off b <= length v)%nat).
  { split; [by apply runes_le_bytes |]. unfold v. rewrite !off_app. lia. }
  cbn [map middle mids_ok]. fold v. change (map enc_tok G) with (enc_tok t :: map enc_tok g) at 1. cbn iota.
  destruct (literal (map enc_tok G)) as [lit |] eqn:El.
  - destruct (literal_spec G lit Hg El) as (ls & HGl & -> & Hls).
    assert (Hslice : take (off (a ++ b) - off a) (drop (off a) v) = encode_runes b).
    { unfold v. rewrite drop_off, (encode_runes_app b c). apply take_app_exact. rewrite off_app. lia. }
    rewrite Hslice, Index_runes, <- HGl by (try done; by intros ->).
    destruct (find_seg G b) as [i |] eqn:Ef; [| done]. cbn [fmap option_fmap option_map].
    apply find_seg_some in Ef as Hi. destruct Hi as [Hi1 Hi2].
    assert (Hlen : length ls = length G) by (by rewrite HGl, length_map).
    assert (Eo : (off (take i b) + off ls = off (take (i + length G) b))%nat).
    { rewrite <- take_take_drop, off_app. do 2 f_equal. rewrite HGl in Hi2. by rewrite <- Hlen, seg_ok_lits. }
    rewrite <- Nat.add_assoc, Eo, <- off_app. apply Hstep; [done |].
    pose proof (off_take_le (i + length G) b). assert (1 <= length G)%nat by (unfold G; simpl; lia). nia.
  - destruct (scan_spec (length v) G a b c steps HG Hg Hs) as (st & E & Hst); [lia | nia |].
    fold v in E. rewrite E. cbn [rbind]. destruct (find_seg G b) as [i |] eqn:Ef; [| done].
    cbn [fmap option_fmap option_map]. apply Hstep; [done | nia].
Qed.

Lemma total_concat segs : total segs <= Z.of_nat (length (concat (map (cons GStar) segs))).
Proof. induction segs as [| s segs IH]; simpl; [lia |]. rewrite length_app. lia. Qed.

(** A pattern without a star is one segment that matches all of the value. *)
Lemma single_segment f rs : seg_inv f -> Forall scalar rs ->
  fst (matchAt (map enc_tok f) (encode_runes rs) 0 0) = Some (off rs) <-> gmatch f rs.
Proof.
  intros Hf Hrs. destruct (matchAt_spec f [] rs 0 Hf Hrs) as (st & E & _). cbn [app] in E.
  change (off []) with 0%nat in E. rewrite E. cbn [fst].
  pose proof (gmatch_seg f [] rs (proj1 Hf)) as Hg. rewrite app_nil_r, gmatch_nil in Hg. rewrite Hg.
  destruct (seg_ok f rs); [| split; [done | by intros [? _]]].
  split; [intros [= H]; split; [done |] | intros [_ H]; do 2 f_equal].
  - rewrite <- (take_drop (length f) rs) in H at 2. rewrite off_app in H.
    apply encode_runes_nil; [by apply Forall_drop |]. apply length_zero_iff_nil. lia.
  - rewrite <- (take_drop (length f) rs) at 2. rewrite H. by rewrite app_nil_r.
Qed.

(** Offsets of character counts are ordered as the counts. *)
Lemma off_take_lt rs i j : Forall scalar rs -> (j <= length rs)%nat ->
  (off (take i rs) <? off (take j rs))%nat = negb (j <=? i)%nat.
Proof.
  intros Hrs Hj. destruct (Nat.leb_spec j i) as [H | H]; cbn [negb].
  - apply Nat.ltb_ge. replace j with (j `min` i)%nat by lia. rewrite <- take_take. apply off_take_le.
  - apply Nat.ltb_lt. replace j with (i + (j - i))%nat by lia. rewrite <- take_take_drop, off_app.
    pose proof (runes_le_bytes (take (j - i) (drop i rs)) ltac:(by apply Forall_take, Forall_drop)) as Hr.
    rewrite length_take, length_drop in Hr. lia.
Qed.

(** What the matcher does when there is a star. *)
Lemma several_segments f mids last rs :
  seg_inv f -> Forall seg_inv mids -> seg_inv last -> Forall scalar rs ->
  (Z.of_nat (length f) + total mids + Z.of_nat (length last)) * (Z.of_nat (off rs) + 1) <= maxGlobSteps ->
  exists b,
    match matchAt (map enc_tok f) (encode_runes rs) 0 0 with
    | (None, _) => Ok false
    | (Some pos, steps) =>
        match walk_back (length last) (encode_runes rs) (off rs) with
        | None => Ok false
        | Some sStart =>
            if (sStart <? pos)%nat then Ok false else
            let '(e, steps) := matchAt (map enc_tok last) (encode_runes rs) sStart steps in
            if bool_decide (e = Some (off rs)) then middle (map (map enc_tok) mids) (encode_runes rs) pos sStart steps
            else Ok false
        end
    end = Ok b /\
    (b = true <-> gmatch (f ++ star_join mids last) rs).
Proof.
  intros I1 I2 I4 Hrs Hmax.
  destruct (matchAt_spec f [] rs 0 I1 Hrs) as (st1 & E1 & Hst1). cbn [app] in E1. change (off []) with 0%nat in E1.
  pose proof (gmatch_seg f (star_join mids last) rs (proj1 I1)) as Hiff.
  rewrite star_join_spec in Hiff by first [apply I4 | eapply Forall_impl; [exact I2 | by intros ? []]].
  setoid_rewrite Hiff. clear Hiff.
  rewrite E1. destruct (seg_ok f rs) eqn:Ef; [| eexists; split; [reflexivity |]; split; [done | by intros [? _]]].
  apply seg_ok_length in Ef as Hfl. set (n := length rs) in *. set (m := length last) in *.
  pose proof (walk_back_spec m rs [] Hrs) as Hw. rewrite app_nil_r in Hw. rewrite Hw. fold n.
  rewrite length_drop. fold n.
  destruct (Nat.leb_spec m n) as [Hmn | Hmn]; cycle 1.
  { eexists. split; [reflexivity |]. split; [done |]. intros (_ & ? & _). lia. }
  rewrite off_take_lt by done. destruct (Nat.leb_spec (length f) (n - m)) as [Hle | Hle]; cbn [negb]; cycle 1.
  { eexists. split; [reflexivity |]. split; [done |]. intros (_ & ? & _). lia. }
  (* the pieces: the first segment, the middle, the last *)
  set (a := take (length f) rs). set (b := take (n - length f - m) (drop (length f) rs)). set (c := drop (n - m) rs).
  assert (Hab : a ++ b = take (n - m) rs) by (unfold a, b; rewrite take_take_drop; f_equal; lia).
  assert (Hrs' : rs = a ++ b ++ c) by (rewrite app_assoc, Hab; unfold c; by rewrite take_drop).
  assert (Hlast : drop (n - length f - m) (drop (length f) rs) = c) by (unfold c; rewrite drop_drop; f_equal; lia).
  rewrite Hlast, <- Hab. fold b.
  destruct (matchAt_spec last (a ++ b) c st1 I4) as (st2 & E2 & Hst2); [by apply Forall_drop |].
  rewrite <- app_assoc, <- Hrs' in E2. rewrite E2.
  destruct (seg_ok last c) eqn:El; cycle 1.
  { eexists. split; [reflexivity |]. split; [done |]. by intros (_ & _ & ? & _). }
  assert (Htake : take (length last) c = c) by (apply take_ge; unfold c; rewrite length_drop; fold m; lia).
  rewrite Htake, <- app_assoc, <- Hrs', bool_decide_eq_true_2 by done. exists (mids_ok mids b). split.
  - rewrite Hrs' at 1. apply middle_spec; [done | |].
    + rewrite Hrs' in Hrs. by apply Forall_app in Hrs as [_ Hrs].
    + rewrite <- Hrs'. pose proof (total_nonneg mids). nia.
  - split; [intros ->; split_and!; first [done | lia] | by intros (_ & _ & _ & ?)].
Qed.

Lemma total_app a b : total (a ++ b) = total a + total b.
Proof. induction a as [| x a IH]; simpl; lia. Qed.

(** The matcher on the encoded characters of a pattern and a value. *)
Lemma globMatchBudget_runes gs rs :
  Forall scalar gs -> Forall scalar rs ->
  Z.of_nat (length gs) * (Z.of_nat (off rs) + 1) <= maxGlobSteps ->
  exists b, globMatchBudget (encode_runes gs) (encode_runes rs) = Ok b /\ (b = true <-> gmatch (pattern gs) rs).
Proof.
  intros Hgs Hrs Hmax. unfold globMatchBudget. rewrite globTokens_spec, segments_spec by done.
  destruct (gsegments_inv (pattern gs) (pattern_scalar gs Hgs)) as (I1 & I2 & I3).
  pose proof (pattern_length gs) as Hpl.
  destruct (gsegments (pattern gs)) as [f others]. cbn [fst snd] in *. rewrite I3 in *. clear I3.
  destruct (list_eq_nil_dec others) as [-> | Hne].
  { cbn [map concat]. rewrite app_nil_r. eexists. split; [reflexivity |].
    rewrite bool_decide_eq_true. by apply single_segment. }
  destruct (exists_last Hne) as (mids & last & ->). apply Forall_app in I2 as [I2 I4]. apply Forall_cons in I4 as [I4 _].
  assert (Hd : exists s r, map (map enc_tok) (mids ++ [last]) = s :: r) by (destruct mids; simpl; eauto).
  destruct Hd as (s0 & r0 & Hd). rewrite Hd, <- Hd. clear Hd s0 r0.
  rewrite map_app. cbn [map]. rewrite List.last_last, removelast_last, length_map, <- star_join_concat.
  apply several_segments; try done.
  pose proof (total_concat (mids ++ [last])) as Htot. rewrite total_app in Htot. cbn [total foldr] in Htot.
  rewrite length_app in Hpl. nia.
Qed.

(** [:matches] means what it should.  For a key and a value that are valid
    UTF-8, within the step budget, the linear matcher (anchored first and last
    segment, leftmost inner segments, byte search for literal ones) answers true
    exactly when the value's characters match the pattern: "*" any sequence, "?"
    one character, a backslash the next character itself. *)
Theorem globMatch_meaning glob value :
  valid_utf8 glob = true -> valid_utf8 value = true ->
  Z.of_nat (length glob) * (Z.of_nat (length value) + 1) <= maxGlobSteps ->
  exists b, globMatchBudget glob value = Ok b /\ (b = true <-> gmatch (pattern (runes glob)) (runes value)).
Proof.
  intros Hg Hv Hmax. destruct (runes_valid glob Hg) as [Eg Sg]. destruct (runes_valid value Hv) as [Ev Sv].
  pose proof (globMatchBudget_runes _ _ Sg Sv) as H. rewrite Eg, Ev in H. apply H.
  pose proof (runes_le_bytes (runes glob) Sg) as Hl. rewrite Eg in Hl. nia.
Qed.

(** A key with an escape, a wildcard and a two byte character, and one that the
    value does not match. *)
Definition ex_key : gostring := "caf?*\*" ++ [byte_of 195; byte_of 169].
Definition ex_value : gostring := "caf" ++ [byte_of 195; byte_of 169] ++ " menu*" ++ [byte_of 195; byte_of 169].

Lemma globMatch_meaning_witness :
  globMatchBudget ex_key ex_value = Ok true /\ gmatch (pattern (runes ex_key)) (runes ex_value) /\
  globMatchBudget "a*b*c" "acb" = Ok false.
Proof.
  assert (H : globMatchBudget ex_key ex_value = Ok true) by (vm_compute; reflexivity).
  split; [exact H |]. split; [| vm_compute; reflexivity].
  destruct (globMatch_meaning ex_key ex_value eq_refl eq_refl ltac:(vm_compute; discriminate)) as (b & E & Hb).
  apply Hb. congruence.
Defined.

(** ** The numeric comparator of match.go *)
Fixpoint leadingDigits (s : gostring) : gostring :=
  match s with
  | c :: s' => if is_digit c then c :: leadingDigits s' else []
  | [] => []
  end.

(** [strings.Compare]. *)
Fixpoint Compare (a b : gostring) : Z :=
  match a, b with
  | [], [] => 0
  | [], _ :: _ => -1
  | _ :: _, [] => 1
  | c :: a, d :: b => if bz c <? bz d then -1 else if bz d <? bz c then 1 else Compare a b
  end.

Definition numericCompare (a b : gostring) : Z :=
  let da := leadingDigits a in
  let db := leadingDigits b in
  match da, db with
  | [], [] => 0
  | [], _ => 1
  | _, [] => -1
  | _, _ =>
      let da := TrimLeft da "0" in
      let db := TrimLeft db "0" in
      if negb (length da =? length db)%nat then (if (length da <? length db)%nat then -1 else 1)
      else Compare da db
  end.

(** What a string is worth under i;ascii-numeric: the number its leading digits
    write, or, without one, more than any number ([None]). *)
Fixpoint digits_num (acc : Z) (s : gostring) : Z :=
  match s with
  | [] => acc
  | c :: s => digits_num (10 * acc + (bz c - 48)) s
  end.
Definition numeric_value (s : gostring) : option Z :=
  match leadingDigits s with [] => None | d => Some (digits_num 0 d) end.

Definition sign (c : comparison) : Z := match c with Lt => -1 | Eq => 0 | Gt => 1 end.
Definition compare_values (a b : option Z) : comparison :=
  match a, b with
  | Some x, Some y => (x ?= y)
  | Some _, None => Lt
  | None, Some _ => Gt
  | None, None => Eq
  end.

Lemma leadingDigits_digits s : Forall (fun c => 48 <= bz c <= 57) (leadingDigits s).
Proof.
  induction s as [| c s IH]; simpl; [constructor |]. destruct (is_digit c) eqn:E; [| constructor].
  constructor; [| done]. unfold is_digit, in_range in E. breflect. lia.
Qed.

Lemma digits_num_range s acc : Forall (fun c => 48 <= bz c <= 57) s -> 0 <= acc ->
  acc * 10 ^ Z.of_nat (length s) <= digits_num acc s < (acc + 1) * 10 ^ Z.of_nat (length s).
Proof.
  intros H. revert acc. induction H as [| c s Hc Hs IH]; intros acc Ha; cbn [digits_num length]; [lia |].
  rewrite Nat2Z.inj_succ, Z.pow_succ_r by lia. specialize (IH (10 * acc + (bz c - 48)) ltac:(lia)).
  pose proof (Z.pow_pos_nonneg 10 (Z.of_nat (length s)) ltac:(lia) ltac:(lia)). nia.
Qed.

Lemma digits_num_trim s : digits_num 0 (TrimLeft s "0") = digits_num 0 s.
Proof.
  induction s as [| c s IH]; [done |]. cbn [TrimLeft].
  destruct (in_set "0" c) eqn:E; [| done]. unfold in_set in E. simpl in E. rewrite orb_false_r in E. breflect. subst c.
  rewrite IH. done.
Qed.

Lemma TrimLeft_head s c t : TrimLeft s "0" = c :: t -> Forall (fun c => 48 <= bz c <= 57) s -> 49 <= bz c <= 57.
Proof.
  intros E H. induction H as [| d s Hd Hs IH]; [done |]. cbn [TrimLeft] in E.
  destruct (in_set "0" d) eqn:Ed; [by apply IH |]. injection E as -> ->. unfold in_set in Ed. simpl in Ed.
  rewrite orb_false_r in Ed. breflect. assert (bz c <> 48); [| lia]. intros H. apply Ed. apply bz_inj. by rewrite H.
Qed.

Lemma TrimLeft_digits s : Forall (fun c => 48 <= bz c <= 57) s -> Forall (fun c => 48 <= bz c <= 57) (TrimLeft s "0").
Proof. induction 1 as [| c s Hc Hs IH]; [constructor |]. cbn [TrimLeft]. destruct (in_set _ _); [done | by constructor]. Qed.

(** Among digit strings without leading zeros the longer one is greater. *)
Lemma longer_greater a b : Forall (fun c => 48 <= bz c <= 57) a -> Forall (fun c => 48 <= bz c <= 57) b ->
  (length (TrimLeft a "0") < length (TrimLeft b "0"))%nat -> digits_num 0 a < digits_num 0 b.
Proof.
  intros Ha Hb Hl. rewrite <- (digits_num_trim a), <- (digits_num_trim b).
  pose proof (TrimLeft_digits a Ha) as Ha'. pose proof (TrimLeft_digits b Hb) as Hb'.
  destruct (TrimLeft b "0") as [| c t] eqn:E; [simpl in Hl; lia |]. pose proof (TrimLeft_head b c t E Hb) as Hc.
  pose proof (digits_num_range _ 0 Ha' ltac:(lia)) as R1. cbn [digits_num]. apply Forall_cons in Hb' as [_ Ht].
  pose proof (digits_num_range t (10 * 0 + (bz c - 48)) Ht ltac:(lia)) as R2. cbn [length] in Hl.
  pose proof (Z.pow_le_mono_r 10 (Z.of_nat (length (TrimLeft a "0"))) (Z.of_nat (length t)) ltac:(lia) ltac:(lia)).
  pose proof (Z.pow_pos_nonneg 10 (Z.of_nat (length t)) ltac:(lia) ltac:(lia)). nia.
Qed.

Lemma Compare_digits a b acc : length a = length b -> Forall (fun c => 48 <= bz c <= 57) a ->
  Forall (fun c => 48 <= bz c <= 57) b -> 0 <= acc -> Compare a b = sign (digits_num acc a ?= digits_num acc b).
Proof.
  intros Hl Ha. revert b acc Hl. induction Ha as [| c a Hc Ha IH]; intros [| d b] acc Hl Hb Hacc; try done.
  - simpl. by rewrite Z.compare_refl.
  - apply Forall_cons in Hb as [Hd Hb]. cbn [Compare digits_num]. simpl in Hl. injection Hl as Hl.
    assert (Hstep : forall x y, x + 1 <= y -> 0 <= x -> forall s t : gostring, length s = length t ->
      Forall (fun c => 48 <= bz c <= 57) s -> Forall (fun c => 48 <= bz c <= 57) t -> digits_num x s < digits_num y t).
    { intros x y Hxy Hx s t Hst Hs Ht. pose proof (digits_num_range s x Hs Hx). pose proof (digits_num_range t y Ht ltac:(lia)).
      rewrite Hst in *. pose proof (Z.pow_pos_nonneg 10 (Z.of_nat (length t)) ltac:(lia) ltac:(lia)). nia. }
    destruct (Z.ltb_spec (bz c) (bz d)) as [H1 | H1].
    { pose proof (Hstep (10 * acc + (bz c - 48)) (10 * acc + (bz d - 48)) ltac:(lia) ltac:(lia) a b Hl Ha Hb) as Hlt.
      apply Z.compare_lt_iff in Hlt. by rewrite Hlt. }
    destruct (Z.ltb_spec (bz d) (bz c)) as [H2 | H2].
    { pose proof (Hstep (10 * acc + (bz d - 48)) (10 * acc + (bz c - 48)) ltac:(lia) ltac:(lia) b a ltac:(lia) Hb Ha) as Hlt.
      apply Z.compare_gt_iff in Hlt. by rewrite Hlt. }
    replace (bz d) with (bz c) by lia. apply IH; [done | done | lia].
Qed.

(** i;ascii-numeric compares the numbers that the leading digits write,
    whatever their length or leading zeros, and a string without a number is
    greater than every number and equal to every other such string. *)
Theorem numericCompare_value a b :
  numericCompare a b = sign (compare_values (numeric_value a) (numeric_value b)).
Proof.
  unfold numericCompare, numeric_value. pose proof (leadingDigits_digits a) as Ha. pose proof (leadingDigits_digits b) as Hb.
  destruct (leadingDigits a) as [| c s], (leadingDigits b) as [| d t]; try done. cbn [compare_values].
  set (x := c :: s) in *. set (y := d :: t) in *.
  destruct (Nat.eqb_spec (length (TrimLeft x "0")) (length (TrimLeft y "0"))) as [E | E]; cbn [negb].
  - rewrite (Compare_digits _ _ 0 E), !digits_num_trim; [done | by apply TrimLeft_digits.. | lia].
  - destruct (Nat.ltb_spec (length (TrimLeft x "0")) (length (TrimLeft y "0"))) as [Hlt | Hge].
    + pose proof (longer_greater x y Ha Hb Hlt) as H. apply Z.compare_lt_iff in H. by rewrite H.
    + pose proof (longer_greater y x Hb Ha ltac:(lia)) as H. apply Z.compare_gt_iff in H. by rewrite H.
Qed.
