(* ===== verification/SieveCompile.v ===== *)
(** * internal/sieve/compile.go: validation of Sieve scripts

    The argument specifications of commands and tests, the typed form of an
    argument sequence ([parseArgs]), the tests ([buildTest]) and the validation
    of a script ([checkScript], [Compile]).

    Go maps that are only looked up are association lists.  A type assertion or
    an index that would panic is the error [CPanic].  [net/mail] and [regexp] are
    the classes [NetMail] and [Regexp]; nothing is assumed of them.  The envelope
    test writes its lower-cased part names back into the parsed list; they are
    then fixed by lower-casing, so a test can be rebuilt from it. *)
From S2P Require Import Prelude GoLib SieveParse.

(** [regexp.Compile] succeeds, and [MatchString] of the compiled pattern. *)
Class Regexp := {
  regexpCompile : gostring -> bool;
  regexpMatch : gostring -> gostring -> bool
}.

Inductive argKind := kNone | kString | kNumber | kStrList.
Record tagSpec := { tkind : argKind; text_ : gostring }.
Record cmdSpec := { cext : gostring; ctags : list (gostring * tagSpec); cpos : list argKind }.

(** A tag without an argument has the nil value. *)
Record parsedArgs := { ptags : list (gostring * option Value); ppos : list Value }.

Abbreviation env := (list gostring).

Inductive compile_error :=
  | CRequires (ext : gostring) | CExpected (k : argKind) | CListTooLong | CElementTooLong
  | CTagAfterPositional | CUnknownTag | CDuplicateTag | CTagNeedsArgument | CArgumentCount
  | CMissingTest | CNotATest | CTestNesting | CTakesNoArguments | CNeedsTestList | CTooManyTests
  | CUnsupportedTest | CSizeTags | CMatchTypes | CRelation | CComparator | CNumericMatch
  | CPatternTooLong | CBadRegex | CAddressParts | CEnvelopePart | CBodyModes
  | CWithoutIf | CMissingBlock | CElseArguments | CRequirePosition | CUnknownCommand
  | CUnexpectedBlock | CRedirectAddress | CVacationTags | CRequireArgument | CRequireMissing
  | CUnsupportedExtension | CBlockNesting | CScriptTooLarge | CSyntax (e : parse_error)
  | CPanic.

Definition maxScriptSize : Z := 1024 * 1024.
Definition maxPatternLen : Z := 1024.
Definition maxKeyLen : Z := 4096.
Definition maxListEntries : Z := 1000.

Fixpoint assoc {A} (k : gostring) (l : list (gostring * A)) : option A :=
  match l with
  | [] => None
  | (k', a) :: l => if k' =s? k then Some a else assoc k l
  end.
Definition mem (k : gostring) (l : list gostring) : bool := existsb (fun x => x =s? k) l.

Definition supportedExtensions : list gostring :=
  [("fileinto" : gostring); ("reject" : gostring); ("vacation" : gostring); ("vacation-seconds" : gostring);
   ("envelope" : gostring); ("body" : gostring); ("relational" : gostring); ("regex" : gostring);
   ("imap4flags" : gostring); ("copy" : gostring); ("mailbox" : gostring); ("comparator-i;octet" : gostring);
   ("comparator-i;ascii-casemap" : gostring); ("comparator-i;ascii-numeric" : gostring)].

(** ** Typed arguments *)
Definition has (pa : parsedArgs) (tag : gostring) : bool :=
  match assoc tag (ptags pa) with Some _ => true | None => false end.
Definition str (pa : parsedArgs) (tag : gostring) : gostring :=
  match assoc tag (ptags pa) with Some (Some (VString sv)) => sv_value sv | _ => [] end.

Definition listOf (v : option Value) : list gostring :=
  match v with
  | Some (VString s) => [sv_value s]
  | Some (VList l) => l
  | _ => []
  end.
Definition tagValue (pa : parsedArgs) (tag : gostring) : option Value :=
  match assoc tag (ptags pa) with Some v => v | None => None end.

Definition fullArgs (cmd : Command) : list Value :=
  match Tag cmd with [] => Arguments_ cmd | _ => VTag (Tag cmd) :: Arguments_ cmd end.

Definition need (e : env) (ext : gostring) : result compile_error unit :=
  if negb (ext =s? []) && negb (mem ext e) then Err (CRequires ext) else Ok tt.

Definition fits (s : gostring) : bool := Z.of_nat (length s) <=? maxKeyLen * 16.

Definition checkKind (v : Value) (k : argKind) : result compile_error unit :=
  match k with
  | kNone => Ok tt
  | kString =>
      match v with
      | VString s => if negb (Bare s) && fits (sv_value s) then Ok tt else Err (CExpected kString)
      | _ => Err (CExpected kString)
      end
  | kNumber =>
      match v with
      | VNumber n => if 0 <=? n then Ok tt else Err (CExpected kNumber)
      | _ => Err (CExpected kNumber)
      end
  | kStrList =>
      match v with
      | VString s => if negb (Bare s) && fits (sv_value s) then Ok tt else Err (CExpected kStrList)
      | VList l =>
          if maxListEntries <? Z.of_nat (length l) then Err CListTooLong
          else if forallb fits l then Ok tt else Err CElementTooLong
      | _ => Err (CExpected kStrList)
      end
  end.

Fixpoint checkPos (vs : list Value) (ks : list argKind) : result compile_error unit :=
  match ks, vs with
  | k :: ks, v :: vs => let* _ := checkKind v k in checkPos vs ks
  | _, _ => Ok tt
  end.

Section Compile.
Context {U : UnicodeTables} {N : NetMail} {R : Regexp}.

Fixpoint parseArgs_go (spec : cmdSpec) (e : env) (args : list Value) (pa : parsedArgs)
  : result compile_error parsedArgs :=
  match args with
  | [] => Ok pa
  | VTag t :: rest =>
      match ppos pa with
      | _ :: _ => Err CTagAfterPositional
      | [] =>
          let tag := ToLower t in
          match assoc tag (ctags spec) with
          | None => Err CUnknownTag
          | Some ts =>
              let* _ := need e (text_ ts) in
              if has pa tag then Err CDuplicateTag else
              match tkind ts with
              | kNone => parseArgs_go spec e rest {| ptags := ptags pa ++ [(tag, None)]; ppos := ppos pa |}
              | k =>
                  match rest with
                  | [] => Err CTagNeedsArgument
                  | v :: rest =>
                      let* _ := checkKind v k in
                      parseArgs_go spec e rest {| ptags := ptags pa ++ [(tag, Some v)]; ppos := ppos pa |}
                  end
              end
          end
      end
  | v :: rest => parseArgs_go spec e rest {| ptags := ptags pa; ppos := ppos pa ++ [v] |}
  end.

Definition parseArgs (args : list Value) (spec : cmdSpec) (e : env) : result compile_error parsedArgs :=
  let* _ := need e (cext spec) in
  let* pa := parseArgs_go spec e args {| ptags := []; ppos := [] |} in
  if negb (length (ppos pa) =? length (cpos spec))%nat then Err CArgumentCount else
  let* _ := checkPos (ppos pa) (cpos spec) in Ok pa.

(** ** Specifications *)
Definition tag_ (name : gostring) (k : argKind) (ext : gostring) : gostring * tagSpec :=
  (name, {| tkind := k; text_ := ext |}).

Definition cmdSpecs : list (gostring * cmdSpec) :=
  [ (("require" : gostring), {| cext := []; ctags := []; cpos := [kStrList] |});
    (("stop" : gostring), {| cext := []; ctags := []; cpos := [] |});
    (("discard" : gostring), {| cext := []; ctags := []; cpos := [] |});
    (("keep" : gostring), {| cext := []; ctags := [tag_ "flags" kStrList "imap4flags"]; cpos := [] |});
    (("fileinto" : gostring), {| cext := "fileinto";
      ctags := [tag_ "copy" kNone "copy"; tag_ "flags" kStrList "imap4flags"; tag_ "create" kNone "mailbox"];
      cpos := [kString] |});
    (("redirect" : gostring), {| cext := []; ctags := [tag_ "copy" kNone "copy"]; cpos := [kString] |});
    (("reject" : gostring), {| cext := "reject"; ctags := []; cpos := [kString] |});
    (("vacation" : gostring), {| cext := "vacation";
      ctags := [tag_ "days" kNumber []; tag_ "seconds" kNumber "vacation-seconds"; tag_ "subject" kString [];
        tag_ "from" kString []; tag_ "addresses" kStrList []; tag_ "mime" kNone []; tag_ "handle" kString []];
      cpos := [kString] |});
    (("addflag" : gostring), {| cext := "imap4flags"; ctags := []; cpos := [kStrList] |});
    (("setflag" : gostring), {| cext := "imap4flags"; ctags := []; cpos := [kStrList] |});
    (("removeflag" : gostring), {| cext := "imap4flags"; ctags := []; cpos := [kStrList] |}) ].

Definition matchTags (extra : list (gostring * tagSpec)) : list (gostring * tagSpec) :=
  extra ++ [tag_ "is" kNone []; tag_ "contains" kNone []; tag_ "matches" kNone []; tag_ "regex" kNone "regex";
    tag_ "count" kString "relational"; tag_ "value" kString "relational"; tag_ "comparator" kString []].

Definition addrPartTags : list (gostring * tagSpec) :=
  [tag_ "localpart" kNone []; tag_ "domain" kNone []; tag_ "all" kNone []].

Definition testSpecs : list (gostring * cmdSpec) :=
  [ (("exists" : gostring), {| cext := []; ctags := []; cpos := [kStrList] |});
    (("size" : gostring), {| cext := []; ctags := [tag_ "over" kNumber []; tag_ "under" kNumber []]; cpos := [] |});
    (("header" : gostring), {| cext := []; ctags := matchTags []; cpos := [kStrList; kStrList] |});
    (("address" : gostring), {| cext := []; ctags := matchTags addrPartTags; cpos := [kStrList; kStrList] |});
    (("envelope" : gostring), {| cext := "envelope"; ctags := matchTags addrPartTags; cpos := [kStrList; kStrList] |});
    (("body" : gostring), {| cext := "body";
      ctags := matchTags [tag_ "raw" kNone []; tag_ "text" kNone []; tag_ "content" kStrList []]; cpos := [kStrList] |});
    (("hasflag" : gostring), {| cext := "imap4flags"; ctags := matchTags []; cpos := [kStrList] |}) ].

(** ** Tests *)
Record matchSpec := { mType : gostring; Relation : gostring; Comparator : gostring }.

#[warnings="-register-all"]
Inductive Test :=
  | HeaderTest (Headers KeyList : list gostring) (ms : matchSpec)
  | AddressTest (Headers : list gostring) (Part : gostring) (Match : matchSpec) (Keys : list gostring)
  | EnvelopeTest (Parts : list gostring) (Part : gostring) (Match : matchSpec) (Keys : list gostring)
  | BodyTest (Mode : gostring) (Types : list gostring) (Match : matchSpec) (Keys : list gostring)
  | HasflagTest (Match : matchSpec) (Keys : list gostring)
  | SizeTest (over : bool) (Size : Z)
  | AllOf (ts : list Test)
  | AnyOf (ts : list Test)
  | ConstTest (b : bool)
  | NotTest (t : Test)
  | ExistsTest (names : list gostring).

Definition normComparator (c : gostring) : result compile_error gostring :=
  if c =s? [] then Ok ("i;ascii-casemap" : gostring)
  else if (c =s? "i;ascii-casemap") || (c =s? "i;octet") || (c =s? "i;ascii-numeric") then Ok c
  else Err CComparator.

Definition matchTypes : list gostring :=
  [("is" : gostring); ("contains" : gostring); ("matches" : gostring); ("regex" : gostring);
    ("count" : gostring); ("value" : gostring)].
Definition relations : list gostring :=
  [("gt" : gostring); ("ge" : gostring); ("lt" : gostring); ("le" : gostring); ("eq" : gostring); ("ne" : gostring)].

(** The last of [names] that is given, or [d], and how many are. *)
Definition oneOf (pa : parsedArgs) (names : list gostring) (d : gostring) : gostring * nat :=
  let given := List.filter (has pa) names in (List.last given d, length given).

Definition checkKey (ty k : gostring) : result compile_error unit :=
  if (ty =s? "regex") && (maxPatternLen <? Z.of_nat (length k)) then Err CPatternTooLong
  else if (ty =s? "regex") && negb (regexpCompile k) then Err CBadRegex
  else if (ty =s? "matches") && (maxPatternLen <? Z.of_nat (length k)) then Err CPatternTooLong
  else Ok tt.
Fixpoint checkKeys (ty : gostring) (keys : list gostring) : result compile_error unit :=
  match keys with
  | [] => Ok tt
  | k :: keys => let* _ := checkKey ty k in checkKeys ty keys
  end.

Definition buildMatch (pa : parsedArgs) (e : env) (keys : list gostring) : result compile_error matchSpec :=
  let '(ty, found) := oneOf pa matchTypes "is" in
  if (1 <? found)%nat then Err CMatchTypes else
  let relational := (ty =s? "count") || (ty =s? "value") in
  let rel := if relational then ToLower (str pa ty) else [] in
  if relational && negb (mem rel relations) then Err CRelation else
  let* cmp := normComparator (str pa "comparator") in
  let* _ := if cmp =s? "i;ascii-numeric" then
  let* _ := need e "comparator-i;ascii-numeric" in
  if (ty =s? "contains") || (ty =s? "matches") || (ty =s? "regex") then Err CNumericMatch else Ok tt
  else Ok tt in
  let* _ := checkKeys ty keys in
  Ok {| mType := ty; Relation := rel; Comparator := cmp |}.

Definition identName (args : list Value) : result compile_error gostring :=
  match args with
  | [] => Err CMissingTest
  | VString s :: _ => if Quoted s || IsLiteral s then Err CNotATest else Ok (ToLower (sv_value s))
  | _ :: _ => Err CNotATest
  end.

Definition addrPartOf (pa : parsedArgs) : result compile_error gostring :=
  let '(part, n) := oneOf pa [("localpart" : gostring); ("domain" : gostring); ("all" : gostring)] "all" in
  if (1 <? n)%nat then Err CAddressParts else Ok part.

Fixpoint envelopeParts (parts : list gostring) : result compile_error (list gostring) :=
  match parts with
  | [] => Ok []
  | p :: ps =>
      let p := ToLower p in
      if negb (p =s? "from") && negb (p =s? "to") then Err CEnvelopePart else
      let* ps := envelopeParts ps in Ok (p :: ps)
  end.

Definition numberOf (pa : parsedArgs) (tag : gostring) : result compile_error Z :=
  match tagValue pa tag with Some (VNumber n) => Ok n | _ => Err CPanic end.

(** A test that is not built from other tests. *)
Definition simpleTest (name : gostring) (rest : list Value) (e : env) : result compile_error Test :=
  match assoc name testSpecs with
  | None => Err CUnsupportedTest
  | Some spec =>
      let* pa := parseArgs rest spec e in
      if name =s? "exists" then
      match ppos pa with v :: _ => Ok (ExistsTest (listOf (Some v))) | [] => Err CPanic end
      else if name =s? "size" then
      if Bool.eqb (has pa "over") (has pa "under") then Err CSizeTags
      else if has pa "over" then let* n := numberOf pa "over" in Ok (SizeTest true n)
      else let* n := numberOf pa "under" in Ok (SizeTest false n)
      else
      match ppos pa with
      | [] => Err CPanic
      | v0 :: _ =>
          let keys := listOf (list.last (ppos pa)) in
          let* ms := buildMatch pa e keys in
          if name =s? "header" then Ok (HeaderTest (listOf (Some v0)) keys ms)
          else if name =s? "address" then
          let* part := addrPartOf pa in Ok (AddressTest (listOf (Some v0)) part ms keys)
          else if name =s? "envelope" then
          let* part := addrPartOf pa in
          let* parts := envelopeParts (listOf (Some v0)) in Ok (EnvelopeTest parts part ms keys)
          else if name =s? "body" then
          let '(mode, n) := oneOf pa [("raw" : gostring); ("text" : gostring); ("content" : gostring)] "text" in
          if (1 <? n)%nat then Err CBodyModes else
          Ok (BodyTest mode (if mode =s? "content" then listOf (tagValue pa "content") else []) ms keys)
          else if name =s? "hasflag" then Ok (HasflagTest ms keys)
          else Err CUnsupportedTest
      end
  end.

Fixpoint mapM {A B} (f : A -> result compile_error B) (l : list A) : result compile_error (list B) :=
  match l with
  | [] => Ok []
  | x :: l => let* y := f x in let* ys := mapM f l in Ok (y :: ys)
  end.

(** [levels] is the number of nested tests still allowed, [MaxNesting + 1 - depth]. *)
Fixpoint buildTest (levels : nat) (args : list Value) (e : env) : result compile_error Test :=
  match levels with
  | O => Err CTestNesting
  | S l =>
      let* name := identName args in
      let rest := drop 1 args in
      if (name =s? "true") || (name =s? "false") then
      match rest with [] => Ok (ConstTest (name =s? "true")) | _ => Err CTakesNoArguments end
      else if name =s? "not" then let* t := buildTest l rest e in Ok (NotTest t)
      else if (name =s? "allof") || (name =s? "anyof") then
      match rest with
      | [VTestList tests] =>
          if (length tests =? 0)%nat then Err CNeedsTestList
          else if maxListEntries <? Z.of_nat (length tests) then Err CTooManyTests
          else let* subs := mapM (fun t => buildTest l t e) tests in
          Ok (if name =s? "allof" then AllOf subs else AnyOf subs)
      | _ => Err CNeedsTestList
      end
      else simpleTest name rest e
  end.

Definition testLevels : nat := S MaxNesting.

(** ** Commands *)
Definition compileCommand (cmd : Command) (e : env) : result compile_error parsedArgs :=
  match assoc (Name cmd) cmdSpecs with
  | None => Err CUnknownCommand
  | Some spec =>
      if Name cmd =s? "require" then Err CUnknownCommand else
      match Block cmd with
      | Some _ => Err CUnexpectedBlock
      | None =>
          let e := if (Name cmd =s? "vacation") && mem "vacation-seconds" e && negb (mem "vacation" e)
          then [("vacation" : gostring); ("vacation-seconds" : gostring)] else e in
          let* pa := parseArgs (fullArgs cmd) spec e in
          if Name cmd =s? "redirect" then
          match ppos pa with
          | VString s :: _ => match ParseAddress (sv_value s) with
          | Some _ => Ok pa
          | None => Err CRedirectAddress
          end
          | _ => Err CPanic
          end
          else if (Name cmd =s? "vacation") && has pa "days" && has pa "seconds" then Err CVacationTags
          else Ok pa
      end
  end.

Definition conditional (name : gostring) : bool := (name =s? "if") || (name =s? "elsif") || (name =s? "else").

(** The loop of [checkCommands], for a check [inner] of the nested blocks. *)
Section CheckLoop.
Variable inner : list Command -> result compile_error unit.
Variable e : env.

Definition checkConditional (prev : gostring) (cmd : Command) : result compile_error unit :=
  if negb (Name cmd =s? "if") && negb (prev =s? "if") && negb (prev =s? "elsif") then Err CWithoutIf else
  match Block cmd with
  | None => Err CMissingBlock
  | Some cs =>
      let* _ := if Name cmd =s? "else" then
      match fullArgs cmd with [] => Ok tt | _ => Err CElseArguments end
      else let* _ := buildTest testLevels (fullArgs cmd) e in Ok tt in
      inner cs
  end.

Fixpoint check_go (prev : gostring) (cmds : list Command) : result compile_error unit :=
  match cmds with
  | [] => Ok tt
  | cmd :: cmds =>
      let* _ := if conditional (Name cmd) then checkConditional prev cmd
      else if Name cmd =s? "require" then Err CRequirePosition
      else let* _ := compileCommand cmd e in Ok tt in
      check_go (Name cmd) cmds
  end.
End CheckLoop.

(** [levels] is [MaxNesting + 1 - depth]. *)
Fixpoint checkCommands (levels : nat) (e : env) (cmds : list Command) : result compile_error unit :=
  match levels with
  | O => Err CBlockNesting
  | S l => check_go (checkCommands l e) e [] cmds
  end.

Fixpoint requireArgs (args : list Value) : result compile_error (list gostring) :=
  match args with
  | [] => Ok []
  | VString s :: args => if Bare s then Err CRequireArgument
      else let* r := requireArgs args in Ok (sv_value s :: r)
  | VList l :: args => let* r := requireArgs args in Ok (l ++ r)
  | _ :: _ => Err CRequireArgument
  end.

Definition requireExtensions (cmd : Command) : result compile_error (list gostring) :=
  let* exts := requireArgs (fullArgs cmd) in
  match exts with
  | [] => Err CRequireMissing
  | _ => if forallb (fun x => mem x supportedExtensions) exts then Ok exts else Err CUnsupportedExtension
  end.

(** The leading [require] commands, then the rest of the script. *)
Fixpoint checkScript_go (e : env) (cmds : list Command) : result compile_error env :=
  match cmds with
  | cmd :: rest =>
      if Name cmd =s? "require" then
      match Block cmd with
      | Some _ => Err CUnexpectedBlock
      | None => let* exts := requireExtensions cmd in checkScript_go (e ++ exts) rest
      end
      else let* _ := checkCommands (S MaxNesting) e cmds in Ok e
  | [] => let* _ := checkCommands (S MaxNesting) e [] in Ok e
  end.
Definition checkScript (cmds : list Command) : result compile_error env := checkScript_go [] cmds.

(** The commands and the extensions that [Validate] records on the script. *)
Definition Compile (source : gostring) : result compile_error (list Command * env) :=
  if maxScriptSize <? Z.of_nat (length source) then Err CScriptTooLarge else
  match Parse source with
  | Err e => Err (CSyntax e)
  | Ok cmds => let* e := checkScript cmds in Ok (cmds, e)
  end.
End Compile.
