(* ===== verification/SieveExec.v ===== *)
(** * internal/sieve/interpreter.go and match.go: running Sieve scripts

    The interpreter: match types and comparators, tests, commands, the actions of
    a run and how they are completed by the implicit keep, and the outcome that
    internal/server/server_sieve_delivery.go makes of them.

    [i.ctx.Headers] is the list of its entries in the order the map is iterated.
    [late n] tells whether the deadline has passed when [n] operations have been
    charged.  The MIME and address functions of the Go library are the class
    [MessageStd]; nothing is assumed of them. *)
From S2P Require Import Prelude GoLib Base64 SieveParse SieveMatch SieveCompile.

Class MessageStd := {
  (** [mail.ReadMessage]: the header names. *)
  ReadMessage : gostring -> option (list gostring);
  (** [mime.WordDecoder.DecodeHeader], [mime.ParseMediaType] (type and boundary). *)
  DecodeHeader : gostring -> option gostring;
  ParseMediaType : gostring -> option (gostring * gostring);
  (** The parts of a multipart body, up to the first error: content type,
      transfer encoding and octets; the octets of a quoted-printable reader, up to
      [maxBodyScan] of them; [strconv.Quote]. *)
  multipartParts : gostring -> gostring -> list (gostring * gostring * gostring);
  decodeQuotedPrintable : gostring -> option gostring;
  Quote : gostring -> gostring
}.

Definition maxRegexInput : nat := Z.to_nat (256 * 1024).
Definition maxBodyScan : nat := Z.to_nat (1024 * 1024).
Definition maxMIMEDepth : nat := 8.
Definition maxMIMEParts : nat := 256.
Definition maxFlags : nat := 64.
Definition maxRedirects : nat := 16.
Definition maxActions : nat := 256.
Definition maxRunOps : Z := 200000.
Definition MaxVacationDays : Z := 3650.

Record MessageContext := {
  From : gostring; To : list gostring; Headers : list (gostring * list gostring);
  Body : gostring; Size : Z; BodyIsFullMessage : bool
}.

Record VacationAction := {
  Subject : gostring; VBody : gostring; Days : Z; Seconds : Z; SecondsSet : bool;
  Addresses : list gostring; VFrom : gostring; Mime : bool; Handle : gostring
}.

Inductive Action :=
  | KeepAction (Flags : gostring)
  | FileintoAction (Folder : gostring) (Copy : bool) (Flags : gostring)
  | RejectAction (Message : gostring)
  | DiscardAction
  | RedirectAction (Address : gostring) (Copy : bool)
  | StopAction
  | Vacation (v : VacationAction).

Inductive run_error :=
  | ROperations | RDeadline | RGlobSteps | RRegex
  | RTooManyActions | RTooManyRedirects | RRejectConflict
  | RCompile (e : compile_error) | RWithoutIf | RMatchType | RRedirect | RPanic.

(** The part of the interpreter that changes during a run. *)
Record Interpreter := {
  redirected : list gostring;
  stopped : bool;
  flags : list gostring;
  ops : Z;
  sinceClock : Z;
  vacHandles : list gostring
}.

Definition set_stopped (i : Interpreter) : Interpreter := {|
  redirected := redirected i; stopped := true; flags := flags i; ops := ops i;
  sinceClock := sinceClock i; vacHandles := vacHandles i |}.
Definition set_redirected (r : list gostring) (i : Interpreter) : Interpreter := {|
  redirected := r; stopped := stopped i; flags := flags i; ops := ops i;
  sinceClock := sinceClock i; vacHandles := vacHandles i |}.
Definition set_flags (f : list gostring) (i : Interpreter) : Interpreter := {|
  redirected := redirected i; stopped := stopped i; flags := f; ops := ops i;
  sinceClock := sinceClock i; vacHandles := vacHandles i |}.
Definition set_clock (o s : Z) (i : Interpreter) : Interpreter := {|
  redirected := redirected i; stopped := stopped i; flags := flags i; ops := o;
  sinceClock := s; vacHandles := vacHandles i |}.
Definition set_vacHandles (h : list gostring) (i : Interpreter) : Interpreter := {|
  redirected := redirected i; stopped := stopped i; flags := flags i; ops := ops i;
  sinceClock := sinceClock i; vacHandles := h |}.

Definition start : Interpreter := {|
  redirected := []; stopped := false; flags := []; ops := 0; sinceClock := 0; vacHandles := [] |}.

Abbreviation run A := (Interpreter -> result run_error (A * Interpreter)).

Definition asciiLower (s : gostring) : gostring := map ascii_lower s.

Definition relationHolds (rel : gostring) (c : Z) : bool :=
  if rel =s? "gt" then 0 <? c
  else if rel =s? "ge" then 0 <=? c
  else if rel =s? "lt" then c <? 0
  else if rel =s? "le" then c <=? 0
  else if rel =s? "eq" then c =? 0
  else if rel =s? "ne" then negb (c =? 0)
  else false.

Definition splitAddr (addr part : gostring) : gostring :=
  let at_ := LastIndexByte addr "@" in
  if part =s? "localpart" then match at_ with Some n => take n addr | None => addr end
  else if part =s? "domain" then match at_ with Some n => drop (S n) addr | None => [] end
  else addr.

Section Run.
Context {U : UnicodeTables} {N : NetMail} {R : Regexp} {M : MessageStd}.
Variable late : Z -> bool.
Variable ctx : MessageContext.
Variable extensions : env.

(** ** Matching (match.go) *)
Definition tick (n : Z) : run unit := fun i =>
  let o := ops i + n in
  if maxRunOps <? o then Err ROperations else
  let s := sinceClock i + n in
  if 256 <=? s then
  if late o then Err RDeadline else Ok (tt, set_clock o 0 i)
  else Ok (tt, set_clock o s i).

Definition matchOne (ms : matchSpec) (cmp nv nk rawV rawK : gostring) (fold : bool) : result run_error bool :=
  if mType ms =s? "is" then
  if cmp =s? "i;ascii-numeric" then Ok (numericCompare rawV rawK =? 0) else Ok (nv =s? nk)
  else if mType ms =s? "contains" then Ok (Contains nv nk)
  else if mType ms =s? "matches" then
  match globMatchBudget nk nv with Ok b => Ok b | Err _ => Err RGlobSteps end
  else if mType ms =s? "regex" then
  let rawV := take maxRegexInput rawV in
  let pat := if fold then "(?i)" ++ rawK else rawK in
  if regexpCompile pat then Ok (regexpMatch pat rawV) else Err RRegex
  else if mType ms =s? "value" then
  let c := if cmp =s? "i;ascii-numeric" then numericCompare rawV rawK else Compare nv nk in
  Ok (relationHolds (Relation ms) c)
  else Err RMatchType.

Fixpoint countKeys (rel n : gostring) (keys : list gostring) (i : Interpreter) : result run_error (bool * Interpreter) :=
  match keys with
  | [] => Ok (false, i)
  | k :: keys =>
      let* (_, i) := tick 1 i in
      if relationHolds rel (numericCompare n k) then Ok (true, i) else countKeys rel n keys i
  end.

Fixpoint matchKeys (ms : matchSpec) (cmp : gostring) (fold : bool) (v : gostring) (keys : list gostring)
  (i : Interpreter) : result run_error (bool * Interpreter) :=
  let norm s := if fold then asciiLower s else s in
  match keys with
  | [] => Ok (false, i)
  | k :: keys =>
      let* (_, i) := tick 1 i in
      let* ok := matchOne ms cmp (norm v) (norm k) v k fold in
      if ok then Ok (true, i) else matchKeys ms cmp fold v keys i
  end.

Fixpoint matchAll (ms : matchSpec) (cmp : gostring) (fold : bool) (values keys : list gostring)
  (i : Interpreter) : result run_error (bool * Interpreter) :=
  match values with
  | [] => Ok (false, i)
  | v :: values =>
      let* (ok, i) := matchKeys ms cmp fold v keys i in
      if ok then Ok (true, i) else matchAll ms cmp fold values keys i
  end.

Definition matchValues (ms : matchSpec) (values keys : list gostring) : run bool := fun i =>
  let cmp : gostring := if Comparator ms =s? [] then "i;ascii-casemap" else Comparator ms in
  let fold := cmp =s? "i;ascii-casemap" in
  if mType ms =s? "count" then countKeys (Relation ms) (FormatUint (Z.of_nat (length values))) keys i
  else matchAll ms cmp fold values keys i.

(** ** Values of the tests (match.go) *)
Definition headerValues (names : list gostring) : list gostring :=
  concat (map (fun '(key, vals) =>
    if existsb (fun n => negb (n =s? []) && EqualFold key n) names then vals else []) (Headers ctx)).

Definition decodedHeaderValues (names : list gostring) : list gostring :=
  map (fun v => if Contains v "=?" then default v (DecodeHeader v) else v) (headerValues names).

Definition addressValues (names : list gostring) (part : gostring) : list gostring :=
  concat (map (fun raw => match ParseAddressList raw with
  | Some l => map (fun a => splitAddr a part) l
  | None => []
  end) (headerValues names)).

Definition bare_path (a : gostring) : gostring := TrimSuffix (TrimPrefix a "<") ">".

Definition envelopeValues (parts : list gostring) (part : gostring) : list gostring :=
  concat (map (fun p : gostring =>
    if p =s? "from" then [splitAddr (bare_path (From ctx)) part]
    else if p =s? "to" then map (fun a => splitAddr (bare_path a) part) (To ctx)
    else []) parts).

Definition looksLikeFullMessage : bool :=
  match Headers ctx, Body ctx with
  | [], _ | _, [] => false
  | _, _ =>
      match ReadMessage (Body ctx) with
      | None => false
      | Some names => (length names =? length (Headers ctx))%nat &&
          forallb (fun k => existsb (fun '(hk, _) => EqualFold k hk) (Headers ctx)) names
      end
  end.

Definition CRLFCRLF : gostring := [CRb; LFb; CRb; LFb].
Definition messageBody : gostring :=
  let body := take maxBodyScan (Body ctx) in
  if BodyIsFullMessage ctx || looksLikeFullMessage then
  match Index body CRLFCRLF with
  | Some n => drop (n + 4) body
  | None => match Index body [LFb; LFb] with
  | Some n => drop (n + 2) body
  | None => []
  end
  end
  else body.

Fixpoint topHeader_go (name : gostring) (hs : list (gostring * list gostring)) : gostring :=
  match hs with
  | [] => []
  | (k, v :: _) :: hs => if EqualFold k name then v else topHeader_go name hs
  | (_, []) :: hs => topHeader_go name hs
  end.
Definition topHeader (name : gostring) : gostring := topHeader_go name (Headers ctx).

Definition decodeCTE (cte data : gostring) : gostring :=
  let enc := ToLower (TrimSpace cte) in
  if enc =s? "base64" then
  default data (decode StdEncoding (List.filter (fun c => negb (isWhitespace c)) data))
  else if enc =s? "quoted-printable" then
  default data (decodeQuotedPrintable data)
  else data.

(** [levels] is [maxMIMEDepth - depth]; [out] is the list of parts so far. *)
Fixpoint collectParts (levels : nat) (ctype cte body : gostring) (out : list (gostring * gostring))
  : list (gostring * gostring) :=
  if (maxMIMEParts <=? length out)%nat then out else
  let '(media, boundary) :=
  match ParseMediaType ctype with
  | Some (m, b) => if ctype =s? [] then (("text/plain" : gostring), b) else (m, b)
  | None => (("text/plain" : gostring), [])
  end in
  let leaf := out ++ [(ToLower media, decodeCTE cte body)] in
  if HasPrefix media "multipart/" && negb (boundary =s? []) then
  match levels with
  | O => leaf
  | S l =>
      fold_left (fun out '(ct, ce, data) => collectParts l ct ce (take maxBodyScan data) out)
      (take maxMIMEParts (multipartParts boundary body)) out
  end
  else leaf.

Definition typeMatches (ctype : gostring) (types : list gostring) : bool :=
  existsb (fun t => let t := ToLower (TrimSpace t) in
    (t =s? []) || (t =s? ctype) || (negb (ContainsByte t "/") && HasPrefix ctype (t ++ "/"))) types.

Definition bodyValues (mode : gostring) (types : list gostring) : list gostring :=
  let raw := messageBody in
  if mode =s? "raw" then [raw]
  else
  let parts := collectParts maxMIMEDepth (topHeader "Content-Type") (topHeader "Content-Transfer-Encoding") raw [] in
  concat (map (fun '(ctype, text) =>
    if (mode =s? "text") && negb (HasPrefix ctype "text/") then []
    else if (mode =s? "content") && negb (typeMatches ctype types) then []
    else [text]) parts).

(** ** Tests (interpreter.go) *)
Section EvaluateLists.
Variable evaluate : Test -> run bool.
Fixpoint evalAll (ts : list Test) (i : Interpreter) : result run_error (bool * Interpreter) :=
  match ts with
  | [] => Ok (true, i)
  | t :: ts => let* (ok, i) := evaluate t i in if ok then evalAll ts i else Ok (false, i)
  end.
Fixpoint evalAny (ts : list Test) (i : Interpreter) : result run_error (bool * Interpreter) :=
  match ts with
  | [] => Ok (false, i)
  | t :: ts => let* (ok, i) := evaluate t i in if ok then Ok (true, i) else evalAny ts i
  end.
End EvaluateLists.

Definition evaluateHeaderTest (hs keys : list gostring) (ms : matchSpec) : run bool := fun i =>
  match normComparator (Comparator ms) with
  | Err e => Err (RCompile e)
  | Ok cmp =>
      let ty : gostring := if mType ms =s? [] then "is" else mType ms in
      matchValues {| mType := ty; Relation := Relation ms; Comparator := cmp |} (decodedHeaderValues hs) keys i
  end.

Fixpoint evaluateTest (t : Test) (i : Interpreter) : result run_error (bool * Interpreter) :=
  let* (_, i) := tick 1 i in
  match t with
  | HeaderTest hs keys ms => evaluateHeaderTest hs keys ms i
  | AddressTest hs part ms keys => matchValues ms (addressValues hs part) keys i
  | EnvelopeTest parts part ms keys => matchValues ms (envelopeValues parts part) keys i
  | BodyTest mode types ms keys => matchValues ms (bodyValues mode types) keys i
  | HasflagTest ms keys => matchValues ms (flags i) keys i
  | SizeTest over n => Ok (if over then n <? Size ctx else Size ctx <? n, i)
  | AllOf ts => evalAll evaluateTest ts i
  | AnyOf ts => evalAny evaluateTest ts i
  | ConstTest b => Ok (b, i)
  | NotTest t => let* (b, i) := evaluateTest t i in Ok (negb b, i)
  | ExistsTest names =>
      Ok (forallb (fun n => existsb (fun '(k, _) => EqualFold k n) (Headers ctx)) names, i)
  end.

(** ** Actions (interpreter.go) *)
Definition validFlag (f : gostring) : bool :=
  if (64 <? length f)%nat then false else
  let body := TrimPrefix f "\" in
  negb (body =s? []) &&
  forallb (fun c => (32 <? bz c) && (bz c <? 127) && negb (in_set ("(){%*]\" ++ [QUOTE]) c)) body.

Fixpoint normFlags_go (fs : list gostring) (out : list gostring) : list gostring :=
  match fs with
  | [] => out
  | f :: fs =>
      if negb (validFlag f) || mem (ToLower f) (map ToLower out) then normFlags_go fs out
      else let out := out ++ [f] in
      if (maxFlags <=? length out)%nat then out else normFlags_go fs out
  end.
Definition normFlags (l : list gostring) : list gostring := normFlags_go (concat (map Fields l)) [].

Definition editFlags (op : gostring) (l : list gostring) (i : Interpreter) : Interpreter :=
  let add := normFlags l in
  if op =s? "setflag" then set_flags add i
  else if op =s? "addflag" then set_flags (normFlags (flags i ++ add)) i
  else if op =s? "removeflag" then
  set_flags (List.filter (fun f => negb (existsb (fun r => EqualFold f r) add)) (flags i)) i
  else i.

Definition actionFlags (pa : parsedArgs) (i : Interpreter) : gostring :=
  if has pa "flags" then Join (normFlags (listOf (tagValue pa "flags"))) " " else Join (flags i) " ".

(** [strings.FieldsFunc] at slashes and backslashes. *)
Fixpoint path_segments (cur s : gostring) : list gostring :=
  match s with
  | [] => match cur with [] => [] | _ => [rev cur] end
  | c :: s => if (c =c? "/") || (c =c? "\") then
      match cur with [] => path_segments [] s | _ => rev cur :: path_segments [] s end
      else path_segments (c :: cur) s
  end.

Definition validFileintoFolder (name : gostring) : bool :=
  valid_utf8 name && negb (HasPrefix name "/") && negb (HasPrefix name "\") &&
  forallb (fun r => negb ((r <? 32) || (r =? 127))) (runes name) &&
  forallb (fun seg => negb ((seg =s? "..") || (seg =s? "."))) (path_segments [] name).

(** The first positional argument, asserted to be a string. *)
Definition firstString (pa : parsedArgs) : result run_error gostring :=
  match ppos pa with VString s :: _ => Ok (sv_value s) | _ => Err RPanic end.

Definition executeFileinto (pa : parsedArgs) : run (list Action) := fun i =>
  let* folder := firstString pa in
  if folder =s? [] then Ok ([], i)
  else if negb (validFileintoFolder folder) then Ok ([KeepAction (actionFlags pa i)], i)
  else Ok ([FileintoAction folder (has pa "copy") (actionFlags pa i)], i).

Definition executeRedirect (pa : parsedArgs) : run (list Action) := fun i =>
  let* address := firstString pa in
  if address =s? [] then Ok ([], i) else
  match ParseAddress address with
  | None => Err RRedirect
  | Some a =>
      if existsb (fun prev => EqualFold prev a) (redirected i) then Ok ([], i)
      else Ok ([RedirectAction a (has pa "copy")], set_redirected (redirected i ++ [a]) i)
  end.

Definition vac0 : VacationAction := {|
  Subject := []; VBody := []; Days := 7; Seconds := 0; SecondsSet := false;
  Addresses := []; VFrom := []; Mime := false; Handle := [] |}.

(** One tag of a vacation command and the argument after it: the action, and
    whether the argument was taken. *)
Definition vacationTag (t : gostring) (next : option Value) (v : VacationAction) : VacationAction * bool :=
  let s := match next with Some (VString sv) => Some (sv_value sv) | _ => None end in
  let n := match next with Some (VNumber n) => Some n | _ => None end in
  let upd sub days secs set addrs from mime handle : VacationAction :=
  {| Subject := sub; VBody := VBody v; Days := days; Seconds := secs; SecondsSet := set;
    Addresses := addrs; VFrom := from; Mime := mime; Handle := handle |} in
  if t =s? "subject" then
  match s with
  | Some x => (upd x (Days v) (Seconds v) (SecondsSet v) (Addresses v) (VFrom v) (Mime v) (Handle v), true)
  | None => (v, false)
  end
  else if t =s? "from" then
  match s with
  | Some x => (upd (Subject v) (Days v) (Seconds v) (SecondsSet v) (Addresses v) x (Mime v) (Handle v), true)
  | None => (v, false)
  end
  else if t =s? "handle" then
  match s with
  | Some x => (upd (Subject v) (Days v) (Seconds v) (SecondsSet v) (Addresses v) (VFrom v) (Mime v) x, true)
  | None => (v, false)
  end
  else if t =s? "addresses" then
  match next with
  | Some (VList l) => (upd (Subject v) (Days v) (Seconds v) (SecondsSet v) l (VFrom v) (Mime v) (Handle v), true)
  | Some (VString sv) =>
      (upd (Subject v) (Days v) (Seconds v) (SecondsSet v) [sv_value sv] (VFrom v) (Mime v) (Handle v), true)
  | _ => (v, false)
  end
  else if t =s? "days" then
  match n with
  | Some x => (upd (Subject v) x (Seconds v) (SecondsSet v) (Addresses v) (VFrom v) (Mime v) (Handle v), true)
  | None => (v, false)
  end
  else if t =s? "seconds" then
  match n with
  | Some x => (upd (Subject v) (Days v) x true (Addresses v) (VFrom v) (Mime v) (Handle v), true)
  | None => (upd (Subject v) (Days v) (Seconds v) true (Addresses v) (VFrom v) (Mime v) (Handle v), false)
  end
  else if t =s? "mime" then
  (upd (Subject v) (Days v) (Seconds v) (SecondsSet v) (Addresses v) (VFrom v) true (Handle v), false)
  else (v, false).

Definition set_body (b : gostring) (v : VacationAction) : VacationAction :=
  {| Subject := Subject v; VBody := b; Days := Days v; Seconds := Seconds v; SecondsSet := SecondsSet v;
    Addresses := Addresses v; VFrom := VFrom v; Mime := Mime v; Handle := Handle v |}.
Definition set_window (d s : Z) (v : VacationAction) : VacationAction :=
  {| Subject := Subject v; VBody := VBody v; Days := d; Seconds := s; SecondsSet := SecondsSet v;
    Addresses := Addresses v; VFrom := VFrom v; Mime := Mime v; Handle := Handle v |}.

Fixpoint vacationArgs (args : list Value) (v : VacationAction) : VacationAction :=
  match args with
  | [] => v
  | VTag t :: rest =>
      let '(v, taken) := vacationTag (ToLower t) (head rest) v in
      match rest with
      | _ :: rest' => if taken then vacationArgs rest' v else vacationArgs rest v
      | [] => v
      end
  | VString s :: rest => vacationArgs rest (if VBody v =s? [] then set_body (sv_value s) v else v)
  | VNumber n :: rest => vacationArgs rest (set_window n (Seconds v) v)
  | _ :: rest => vacationArgs rest v
  end.

Definition executeVacation (cmd : Command) : run (list Action) := fun i =>
  let v := vacationArgs (fullArgs cmd) vac0 in
  let days := if (Days v <? 1) && negb (SecondsSet v) then 1 else Days v in
  let v := set_window (Z.min days MaxVacationDays) (Z.min (Seconds v) (MaxVacationDays * 86400)) v in
  if (Subject v =s? []) && (VBody v =s? []) then Ok ([], i) else
  let handle := if Handle v =s? []
  then [byte_of 0] ++ Quote (Subject v) ++ [byte_of 0] ++ Quote (VBody v) ++ [byte_of 0] ++
  (if Mime v then "true" : gostring else "false")
  else Handle v in
  if mem handle (vacHandles i) then Ok ([], i)
  else Ok ([Vacation v], set_vacHandles (vacHandles i ++ [handle]) i).

(** ** Commands (interpreter.go) *)
Definition executeCommand (cmd : Command) : run (list Action) := fun i =>
  let* (_, i) := tick 1 i in
  match compileCommand cmd extensions with
  | Err e => Err (RCompile e)
  | Ok pa =>
      let name := Name cmd in
      if name =s? "stop" then Ok ([StopAction], set_stopped i)
      else if name =s? "discard" then Ok ([DiscardAction], i)
      else if name =s? "keep" then Ok ([KeepAction (actionFlags pa i)], i)
      else if name =s? "fileinto" then executeFileinto pa i
      else if name =s? "redirect" then executeRedirect pa i
      else if name =s? "reject" then let* m := firstString pa in Ok ([RejectAction m], i)
      else if name =s? "vacation" then executeVacation cmd i
      else if (name =s? "addflag") || (name =s? "setflag") || (name =s? "removeflag") then
      match ppos pa with
      | v :: _ => Ok ([], editFlags name (listOf (Some v)) i)
      | [] => Err RPanic
      end
      else Err (RCompile CUnknownCommand)
  end.

(** The loop of [executeCommands], for a [cond] that runs one if/elsif/else. *)
Section CommandLoop.
Variable cond : Command -> run (bool * list Action).

Fixpoint commands_go (cmds : list Command) (inChain chainTaken : bool) (i : Interpreter)
  : result run_error (list Action * Interpreter) :=
  match cmds with
  | [] => Ok ([], i)
  | cmd :: cmds =>
      if stopped i then Ok ([], i) else
      let branch inChain i :=
      let* (r, i) := cond cmd i in
      let* (rest, i) := commands_go cmds inChain (fst r) i in Ok (snd r ++ rest, i) in
      if Name cmd =s? "if" then branch true i
      else if (Name cmd =s? "elsif") || (Name cmd =s? "else") then
      if negb inChain then Err RWithoutIf else
      let inChain := negb (Name cmd =s? "else") in
      if chainTaken then commands_go cmds inChain chainTaken i else branch inChain i
      else if Name cmd =s? "require" then commands_go cmds false chainTaken i
      else
      let* (actions, i) := executeCommand cmd i in
      let* (rest, i) := commands_go cmds false chainTaken i in Ok (actions ++ rest, i)
  end.
End CommandLoop.

Fixpoint executeConditional (cmd : Command) (i : Interpreter)
  : result run_error ((bool * list Action) * Interpreter) :=
  let* (result, i) :=
  if negb (Name cmd =s? "else") then
  match buildTest testLevels (Arguments_ cmd) extensions with
  | Err e => Err (RCompile e)
  | Ok t => evaluateTest t i
  end
  else Ok (true, i) in
  match Block cmd with
  | Some cs =>
      if result then let* (actions, i) := commands_go executeConditional cs false false i in Ok ((true, actions), i)
      else Ok ((false, []), i)
  | None => Ok ((result, []), i)
  end.

Definition executeCommands (cmds : list Command) : run (list Action) :=
  commands_go executeConditional cmds false false.
End Run.

(** ** The actions of a run *)
Definition delivers (a : Action) : bool :=
  match a with KeepAction _ | FileintoAction _ _ _ | RedirectAction _ _ => true | _ => false end.
Definition is_discard (a : Action) : bool := match a with DiscardAction => true | _ => false end.
Definition is_reject (a : Action) : bool := match a with RejectAction _ => true | _ => false end.
Definition is_redirect (a : Action) : bool := match a with RedirectAction _ _ => true | _ => false end.

Definition dropCancelledDiscard (all : list Action) : list Action :=
  if existsb delivers all then List.filter (fun a => negb (is_discard a)) all else all.

Definition checkActions (all : list Action) : result run_error unit :=
  if (maxActions <? length all)%nat then Err RTooManyActions
  else if (maxRedirects <? length (List.filter is_redirect all))%nat then Err RTooManyRedirects
  else if existsb is_reject all && existsb delivers all then Err RRejectConflict
  else Ok tt.

(** Whether an action ends the search for :copy actions, and whether it is one. *)
Definition cancels_keep (a : Action) : bool :=
  match a with
  | FileintoAction _ copy _ | RedirectAction _ copy => negb copy
  | KeepAction _ | DiscardAction | RejectAction _ => true
  | StopAction | Vacation _ => false
  end.
Definition is_copy (a : Action) : bool :=
  match a with FileintoAction _ copy _ | RedirectAction _ copy => copy | _ => false end.

Definition keepWithCopies (all : list Action) (fl : gostring) : list Action :=
  if existsb cancels_keep all then all
  else if existsb is_copy all then all ++ [KeepAction fl] else all.

Section Execute.
Context {U : UnicodeTables} {N : NetMail} {R : Regexp} {M : MessageStd}.

(** The run without the [defer]: [exts] are the extensions that [Validate]
    recorded, if it did. *)
Definition execute (late : Z -> bool) (script : list Command) (exts : option env) (msg : MessageContext)
  : result run_error (list Action) :=
  let* e := match exts with
  | Some e => Ok e
  | None => match checkScript script with Ok e => Ok e | Err e => Err (RCompile e) end
  end in
  let* (all, i) := executeCommands late msg e script start in
  let all := dropCancelledDiscard all in
  let* _ := checkActions all in
  let implicitFlags := Join (flags i) " " in
  match all with
  | [] => Ok [KeepAction implicitFlags]
  | _ => Ok (keepWithCopies all implicitFlags)
  end.

Definition Execute (late : Z -> bool) (script : list Command) (exts : option env) (msg : MessageContext)
  : list Action * option run_error :=
  match execute late script exts msg with
  | Ok actions => (actions, None)
  | Err e => ([KeepAction []], Some e)
  end.

(** ** What delivery makes of them (server_sieve_delivery.go) *)
Record sieveOutcome := {
  okeep : bool; okeepFlags : list gostring; ofolders : list gostring;
  ofolderFlags : list (gostring * list gostring);
  oredirects : list gostring; orejected : bool; orejectMsg : gostring; ovacation : option VacationAction
}.

(** The map [folderFlags]. *)
Fixpoint set_assoc (k : gostring) (f : list gostring -> list gostring) (l : list (gostring * list gostring))
  : list (gostring * list gostring) :=
  match l with
  | [] => [(k, f [])]
  | (k', v) :: l => if k' =s? k then (k', f v) :: l else (k', v) :: set_assoc k f l
  end.

Fixpoint mergeFlags_go (fl : list gostring) (fs : list gostring) : list gostring :=
  match fs with
  | [] => fl
  | f :: fs => mergeFlags_go (if existsb (fun h => EqualFold h f) fl then fl else fl ++ [f]) fs
  end.
Definition mergeFlags (fl : list gostring) (l : gostring) : list gostring := mergeFlags_go fl (Fields l).

(** One action: the outcome so far and [implicitKeep]. *)
Definition outcome_step (s : sieveOutcome * bool) (a : Action) : sieveOutcome * bool :=
  let '(o, ik) := s in
  match a with
  | KeepAction fl =>
      ({| okeep := true; okeepFlags := mergeFlags (okeepFlags o) fl; ofolders := ofolders o;
        ofolderFlags := ofolderFlags o; oredirects := oredirects o; orejected := orejected o;
        orejectMsg := orejectMsg o; ovacation := ovacation o |}, ik)
  | FileintoAction f _ fl =>
      ({| okeep := okeep o; okeepFlags := okeepFlags o; ofolders := ofolders o ++ [f];
        ofolderFlags := set_assoc f (fun old => mergeFlags old fl) (ofolderFlags o);
        oredirects := oredirects o; orejected := orejected o;
        orejectMsg := orejectMsg o; ovacation := ovacation o |}, false)
  | RedirectAction a _ =>
      ({| okeep := okeep o; okeepFlags := okeepFlags o; ofolders := ofolders o;
        ofolderFlags := ofolderFlags o; oredirects := oredirects o ++ [a]; orejected := orejected o;
        orejectMsg := orejectMsg o; ovacation := ovacation o |}, false)
  | DiscardAction => (o, false)
  | RejectAction m =>
      ({| okeep := okeep o; okeepFlags := okeepFlags o; ofolders := ofolders o;
        ofolderFlags := ofolderFlags o; oredirects := oredirects o; orejected := true;
        orejectMsg := m; ovacation := ovacation o |}, false)
  | Vacation v =>
      ({| okeep := okeep o; okeepFlags := okeepFlags o; ofolders := ofolders o;
        ofolderFlags := ofolderFlags o; oredirects := oredirects o; orejected := orejected o;
        orejectMsg := orejectMsg o; ovacation := Some v |}, ik)
  | StopAction => (o, ik)
  end.

Definition outcome0 : sieveOutcome :=
  {| okeep := false; okeepFlags := []; ofolders := []; ofolderFlags := []; oredirects := [];
    orejected := false; orejectMsg := []; ovacation := None |}.

Definition keep_if (k : bool) (o : sieveOutcome) : sieveOutcome :=
  {| okeep := okeep o || k; okeepFlags := okeepFlags o; ofolders := ofolders o; ofolderFlags := ofolderFlags o;
    oredirects := oredirects o; orejected := orejected o; orejectMsg := orejectMsg o; ovacation := ovacation o |}.

Definition sieveOutcomeOf (actions : list Action) : sieveOutcome :=
  let '(o, ik) := fold_left outcome_step actions (outcome0, true) in keep_if ik o.
End Execute.
