(* ===== verification/SieveProps.v ===== *)
(** * Properties of the Sieve interpreter

    A validated script never fails for a reason that validation should have
    found; if/elsif/else runs the first branch that holds; and the actions of a
    run, completed by the implicit keep, decide where the message goes. *)
From S2P Require Import Prelude GoLib Utf8 SieveParse SieveMatch SieveCompile SieveExec.

Section Props.
Context {U : UnicodeTables} {N : NetMail} {R : Regexp} {M : MessageStd}.
Variable late : Z -> bool.
Variable ctx : MessageContext.

(** ** Validated scripts do not go wrong
    
    The errors a validated script may still meet: the limits of a run, a regular
    expression that the case-insensitivity flag makes invalid, and combinations
    of actions that only the run shows. *)
Definition budget (e : run_error) : bool :=
  match e with
  | ROperations | RDeadline | RGlobSteps | RRegex
  | RTooManyActions | RTooManyRedirects | RRejectConflict => true
  | RCompile _ | RWithoutIf | RMatchType | RRedirect | RPanic => false
  end.

(** [r] fails, if at all, for one of those reasons. *)
Definition sound {A} (r : result run_error A) : Prop :=
  match r with Ok _ => True | Err e => budget e = true end.

Lemma sound_bind {A B} (m : result run_error A) (f : A -> result run_error B) :
  sound m -> (forall a, m = Ok a -> sound (f a)) -> sound (rbind m f).
Proof. destruct m; simpl; auto. Qed.

Lemma bind_ok {E A B} (m : result E A) (f : A -> result E B) b :
  rbind m f = Ok b -> exists a, m = Ok a /\ f a = Ok b.
Proof. destruct m; simpl; [eauto | done]. Qed.

Lemma tick_sound n i : sound (tick late n i).
Proof. unfold tick. repeat split_if; done. Qed.

(** *** Matching *)
Lemma mem_true k l : mem k l = true <-> k ∈ l.
Proof.
  unfold mem. rewrite existsb_true_iff. split.
  - intros (x & Hx & H). apply bool_decide_eq_true in H. by subst.
  - intros H. exists k. split; [done |]. by apply bool_decide_eq_true.
Qed.

Lemma matchOne_sound ms cmp nv nk v k fold :
  mType ms ∈ matchTypes -> mType ms <> "count" -> sound (matchOne ms cmp nv nk v k fold).
Proof.
  intros Hin Hne. unfold matchOne.
  destruct (bool_decide_reflect (mType ms = "is")); [by destruct (_ =s? _) |].
  destruct (bool_decide_reflect (mType ms = "contains")); [done |].
  destruct (bool_decide_reflect (mType ms = "matches")); [by destruct (globMatchBudget _ _) |].
  destruct (bool_decide_reflect (mType ms = "regex")); [by destruct (regexpCompile _) |].
  destruct (bool_decide_reflect (mType ms = "value")); [done |].
  exfalso. unfold matchTypes in Hin. set_unfold. naive_solver.
Qed.

Lemma matchValues_sound ms values keys i : mType ms ∈ matchTypes -> sound (matchValues late ms values keys i).
Proof.
  intros Hin. unfold matchValues. destruct (bool_decide_reflect (mType ms = "count")) as [Hc | Hc].
  - revert i. induction keys as [| k keys IH]; intros i; simpl; [done |].
    apply sound_bind; [apply tick_sound |]. intros [_ i'] _. by destruct (relationHolds _ _).
  - set (cmp := if bool_decide _ then _ else _). set (fold := bool_decide (cmp = _)).
    revert i. induction values as [| v values IH]; intros i; simpl; [done |].
    apply sound_bind; [| intros [[] i'] _; [done | apply IH]].
    clear IH. revert i. induction keys as [| k keys IH]; intros i; simpl; [done |].
    apply sound_bind; [apply tick_sound |]. intros [_ i'] _.
    apply sound_bind; [by apply matchOne_sound |]. intros [] _; [done | apply IH].
Qed.

(** *** Tests *)
Lemma oneOf_in pa names d s n : oneOf pa names d = (s, n) -> s ∈ d :: names.
Proof.
  unfold oneOf. intros [= <- <-].
  assert (H : forall l : list gostring, (forall x, x ∈ l -> x ∈ names) -> List.last l d ∈ d :: names).
  { induction l as [| x l IH]; intros Hl; [left |]. destruct l as [| y l].
    - right. apply Hl. by left.
    - apply IH. intros z Hz. apply Hl. by right. }
  apply H. intros x Hx. apply list_elem_of_In, List.filter_In in Hx as [Hx _]. by apply list_elem_of_In.
Qed.

Lemma normComparator_idem s c : normComparator s = Ok c -> normComparator c = Ok c.
Proof.
  unfold normComparator. destruct (bool_decide_reflect (s = [])) as [_ | Hne]; [by intros [= <-] |].
  intros H. match type of H with (if ?b then _ else _) = _ => destruct b eqn:Eo end; [| done].
  injection H as <-. rewrite (bool_decide_eq_false_2 (s = [])) by done. by rewrite Eo.
Qed.

Lemma buildMatch_type pa e keys ms : buildMatch pa e keys = Ok ms ->
  mType ms ∈ matchTypes /\ exists c, normComparator (Comparator ms) = Ok c.
Proof.
  unfold buildMatch. destruct (oneOf pa matchTypes "is") as [ty n] eqn:E. apply oneOf_in in E.
  split_if; [done |]. split_if; [done |]. intros H. apply bind_ok in H as (cmp & Hc & H).
  apply bind_ok in H as (u1 & _ & H). apply bind_ok in H as (u2 & _ & H). injection H as <-. cbn [mType Comparator].
  split.
  - apply list_elem_of_In in E. destruct E as [<- | E]; [by left | by apply list_elem_of_In].
  - exists cmp. by apply normComparator_idem in Hc.
Qed.

Definition test_sound (t : Test) : Prop := forall i, sound (evaluateTest late ctx t i).

Lemma simpleTest_sound name rest e t : simpleTest name rest e = Ok t -> test_sound t.
Proof.
  unfold simpleTest. destruct (assoc name testSpecs) as [spec |]; [| done].
  intros H. apply bind_ok in H as (pa & _ & H).
  split_if. { destruct (ppos pa); [done |]. injection H as <-. intros i. simpl. apply sound_bind; [apply tick_sound |]. by intros []. }
  split_if.
  { split_if; [done |]. split_if; apply bind_ok in H as (n & _ & H); injection H as <-; intros i; simpl;
      (apply sound_bind; [apply tick_sound |]; by intros []). }
  destruct (ppos pa) as [| v0 vs]; [done |]. apply bind_ok in H as (ms & Hm & H).
  apply buildMatch_type in Hm as [Hty [c Hc]].
  assert (Hv : forall values keys i, sound (let* (_, i') := tick late 1 i in matchValues late ms values keys i')).
  { intros. apply sound_bind; [apply tick_sound |]. intros [_ i'] _. by apply matchValues_sound. }
  split_if.
  { injection H as <-. intros i. simpl. apply sound_bind; [apply tick_sound |]. intros [_ i'] _.
    unfold evaluateHeaderTest. rewrite Hc. apply matchValues_sound. cbn [mType]. split_if; [unfold matchTypes; by left | done]. }
  split_if. { apply bind_ok in H as (p & _ & H). injection H as <-. intros i. apply Hv. }
  split_if. { apply bind_ok in H as (p & _ & H). apply bind_ok in H as (ps & _ & H). injection H as <-. intros i. apply Hv. }
  split_if. { destruct (oneOf _ _ _) as [mode n]. split_if; [done |]. injection H as <-. intros i. apply Hv. }
  split_if; [| done]. injection H as <-. intros i. simpl. apply sound_bind; [apply tick_sound |]. intros [_ i'] _.
  by apply matchValues_sound.
Qed.

Lemma mapM_ok {A B} (f : A -> result compile_error B) l ys : mapM f l = Ok ys -> Forall2 (fun x y => f x = Ok y) l ys.
Proof.
  revert ys. induction l as [| x l IH]; intros ys; cbn [mapM]; [intros [= <-]; constructor |].
  intros H. apply bind_ok in H as (y & Hy & H). apply bind_ok in H as (ys' & Hys & H). injection H as <-. by constructor; auto.
Qed.

Lemma evalAll_sound ts i : Forall test_sound ts -> sound (evalAll (evaluateTest late ctx) ts i).
Proof.
  intros H. revert i. induction H as [| t ts Ht Hts IH]; intros i; simpl; [done |].
  apply sound_bind; [apply Ht |]. intros [[] i'] _; [apply IH | done].
Qed.
Lemma evalAny_sound ts i : Forall test_sound ts -> sound (evalAny (evaluateTest late ctx) ts i).
Proof.
  intros H. revert i. induction H as [| t ts Ht Hts IH]; intros i; simpl; [done |].
  apply sound_bind; [apply Ht |]. intros [[] i'] _; [done | apply IH].
Qed.

Lemma buildTest_sound l args e t : buildTest l args e = Ok t -> test_sound t.
Proof.
  revert args t. induction l as [| l IH]; intros args t; cbn [buildTest]; [done |].
  intros H. apply bind_ok in H as (name & _ & H).
  split_if. { destruct (drop 1 args); [| done]. injection H as <-. intros i. simpl. apply sound_bind; [apply tick_sound |]. by intros []. }
  split_if.
  { apply bind_ok in H as (t' & Ht & H). injection H as <-. intros i. simpl. apply sound_bind; [apply tick_sound |].
    intros [_ i'] _. apply sound_bind; [by apply (IH (drop 1 args)) | by intros []]. }
  split_if; [| by apply simpleTest_sound in H].
  destruct (drop 1 args) as [| [] [| ]]; try done. do 2 (split_if; [done |]).
  apply bind_ok in H as (subs & Hs & H). injection H as <-. apply mapM_ok in Hs.
  assert (Hall : Forall test_sound subs).
  { clear -Hs IH. induction Hs as [| x y xs ys Hxy Hs IH2]; constructor; [by apply (IH x) | done]. }
  intros i. split_if; simpl; (apply sound_bind; [apply tick_sound |]); intros [_ i'] _;
    [by apply evalAll_sound | by apply evalAny_sound].
Qed.

(** *** Commands *)
Lemma assoc_in {A} k (l : list (gostring * A)) a : assoc k l = Some a -> k ∈ map fst l.
Proof.
  induction l as [| [k' b] l IH]; simpl; [done |]. destruct (bool_decide_reflect (k' = k)) as [-> | _]; [by left |].
  intros H. right. by apply IH.
Qed.

Lemma parseArgs_pos args spec e pa : parseArgs args spec e = Ok pa ->
  length (ppos pa) = length (cpos spec) /\ checkPos (ppos pa) (cpos spec) = Ok tt.
Proof.
  unfold parseArgs. intros H. apply bind_ok in H as (u & _ & H). apply bind_ok in H as (pa' & _ & H).
  destruct (Nat.eqb_spec (length (ppos pa')) (length (cpos spec))) as [Hl | _]; [| done]. cbn [negb] in H.
  apply bind_ok in H as ([] & Hc & H). by injection H as <-.
Qed.

Lemma parseArgs_string args spec e pa : parseArgs args spec e = Ok pa -> cpos spec = [kString] ->
  exists s, ppos pa = [VString s].
Proof.
  intros H Hp. apply parseArgs_pos in H as [Hl Hc]. rewrite Hp in *.
  destruct (ppos pa) as [| v [| ]]; try done. simpl in Hc. destruct v; try done. by eexists.
Qed.

Lemma compileCommand_ok cmd e pa : compileCommand cmd e = Ok pa ->
  exists spec e', assoc (Name cmd) cmdSpecs = Some spec /\ Name cmd <> "require" /\
  parseArgs (fullArgs cmd) spec e' = Ok pa /\
  (Name cmd = "redirect" -> exists s r, ppos pa = VString s :: r /\ ParseAddress (sv_value s) <> None).
Proof.
  unfold compileCommand. destruct (assoc (Name cmd) cmdSpecs) as [spec |] eqn:Ea; [| done].
  destruct (bool_decide_reflect (Name cmd = "require")) as [_ | Hreq]; [done |].
  destruct (Block cmd); [done |]. intros H. apply bind_ok in H as (pa' & Hp & H).
  eexists spec, _. split; [done |]. split; [done |].
  destruct (bool_decide_reflect (Name cmd = "redirect")) as [Hr | Hr].
  - destruct (ppos pa') as [| [] r] eqn:Epos; try done. destruct (ParseAddress _) eqn:Ep; [| done]. injection H as <-.
    split; [done |]. intros _. rewrite Epos. eexists _, _. split; [done |]. by rewrite Ep.
  - match type of H with (if ?b then _ else _) = _ => destruct b end; [done |]. injection H as <-. done.
Qed.

Lemma executeCommand_sound cmd e pa i : compileCommand cmd e = Ok pa -> sound (executeCommand late e cmd i).
Proof.
  intros Hc. unfold executeCommand. apply sound_bind; [apply tick_sound |]. intros [_ i'] _. rewrite Hc.
  apply compileCommand_ok in Hc as (spec & e' & Ha & Hreq & Hp & Hred).
  assert (Hstr : forall n : gostring, Name cmd = n -> (exists sp, assoc n cmdSpecs = Some sp /\ cpos sp = [kString]) ->
    exists s, ppos pa = [VString s]).
  { intros n Hn (sp & Hsp & Hpos). rewrite Hn, Hsp in Ha. injection Ha as ->. by eapply parseArgs_string. }
  assert (Hflag : forall n : gostring, Name cmd = n -> (exists sp, assoc n cmdSpecs = Some sp /\ cpos sp = [kStrList]) ->
    ppos pa <> []).
  { intros n Hn (sp & Hsp & Hpos). rewrite Hn, Hsp in Ha. injection Ha as ->. apply parseArgs_pos in Hp as [Hl _].
    rewrite Hpos in Hl. by destruct (ppos pa). }
  destruct (bool_decide_reflect (Name cmd = "stop")); [done |].
  destruct (bool_decide_reflect (Name cmd = "discard")); [done |].
  destruct (bool_decide_reflect (Name cmd = "keep")); [done |].
  destruct (bool_decide_reflect (Name cmd = "fileinto")) as [Hn |].
  { destruct (Hstr _ Hn) as [s Hs]; [eexists; split; reflexivity |].
    unfold executeFileinto, firstString. rewrite Hs. simpl. by repeat split_if. }
  destruct (bool_decide_reflect (Name cmd = "redirect")) as [Hn |].
  { destruct (Hred Hn) as (s & r & Hs & Hpa). unfold executeRedirect, firstString. rewrite Hs. simpl.
    split_if; [done |]. destruct (ParseAddress _); [by split_if | done]. }
  destruct (bool_decide_reflect (Name cmd = "reject")) as [Hn |].
  { destruct (Hstr _ Hn) as [s Hs]; [eexists; split; reflexivity |]. unfold firstString. by rewrite Hs. }
  destruct (bool_decide_reflect (Name cmd = "vacation")); [unfold executeVacation; by repeat split_if |].
  destruct (_ || _ || _) eqn:Ef.
  - assert (Hne : ppos pa <> []).
    { apply orb_true_iff in Ef as [Ef | Ef]; [apply orb_true_iff in Ef as [Ef | Ef] |];
        apply bool_decide_eq_true in Ef; (eapply Hflag; [exact Ef | eexists; split; reflexivity]). }
    by destruct (ppos pa).
  - exfalso. apply assoc_in in Ha. apply orb_false_iff in Ef as [Ef Ef3]. apply orb_false_iff in Ef as [Ef1 Ef2].
    apply bool_decide_eq_false in Ef1, Ef2, Ef3. cbn [map fst cmdSpecs] in Ha. set_unfold. naive_solver.
Qed.

(** The chain of the run is open whenever the validator saw an if or elsif before. *)
Definition chain_ok (prev : gostring) (inChain : bool) : Prop :=
  prev = "if" \/ prev = "elsif" -> inChain = true.

Lemma fullArgs_test cmd l e t : buildTest l (fullArgs cmd) e = Ok t -> Arguments_ cmd = fullArgs cmd.
Proof.
  unfold fullArgs. destruct (Tag cmd); [done |]. destruct l as [| l]; [done |]. cbn [buildTest identName]. done.
Qed.

Definition block_sound (e : env) (cs : list Command) : Prop :=
  forall i, sound (commands_go late e (executeConditional late ctx e) cs false false i).

Lemma conditional_sound inner e prev cmd i :
  (forall cs, inner cs = Ok tt -> block_sound e cs) ->
  checkConditional inner e prev cmd = Ok tt -> sound (executeConditional late ctx e cmd i).
Proof.
  intros Hin. unfold checkConditional. split_if; [done |]. destruct (Block cmd) as [cs |] eqn:Eb; [| done].
  intros H. apply bind_ok in H as ([] & Ht & Hcs). specialize (Hin cs Hcs).
  destruct cmd as [name tag args b]. cbn [Block] in Eb. subst b. cbn [executeConditional Name Arguments_ Block] in *.
  assert (Hrest : forall (m : result run_error (bool * Interpreter)), sound m ->
    sound (let* (result, i0) := m in
    if result then let* (actions, i1) := commands_go late e (executeConditional late ctx e) cs false false i0 in
    Ok ((true, actions), i1)
    else Ok ((false, []), i0))).
  { intros m Hm. apply sound_bind; [done |]. intros [[] i'] _; [| done].
    apply sound_bind; [apply Hin |]. by intros []. }
  apply Hrest. destruct (bool_decide_reflect (name = "else")) as [Hn | Hn]; cbn [negb]; [done |].
  apply bind_ok in Ht as (t & Ht & _). pose proof (fullArgs_test _ _ _ _ Ht) as Hf. cbn [Arguments_] in Hf.
  rewrite Hf, Ht. by eapply buildTest_sound.
Qed.

Lemma check_go_sound inner e prev cmds inChain taken i :
  (forall cs, inner cs = Ok tt -> block_sound e cs) -> check_go inner e prev cmds = Ok tt -> chain_ok prev inChain ->
  sound (commands_go late e (executeConditional late ctx e) cmds inChain taken i).
Proof.
  intros Hin. revert prev inChain taken i. induction cmds as [| cmd cmds IH]; intros prev inChain taken i H Hch; [done |].
  cbn [check_go] in H. apply bind_ok in H as ([] & Hc & H). cbn [commands_go]. split_if; [done |].
  assert (Hbranch : forall ic j, conditional (Name cmd) = true -> chain_ok (Name cmd) ic ->
    sound (let* (r, i0) := executeConditional late ctx e cmd j in
    let* (rest, i1) := commands_go late e (executeConditional late ctx e) cmds ic (fst r) i0 in Ok (snd r ++ rest, i1))).
  { intros ic j Hcond Hic. rewrite Hcond in Hc. apply sound_bind; [by eapply conditional_sound |].
    intros [r i'] _. apply sound_bind; [by eapply IH | by intros []]. }
  unfold conditional in Hc, Hbranch.
  destruct (bool_decide_reflect (Name cmd = "if")) as [Hif | Hif]; [by apply Hbranch |].
  destruct (bool_decide_reflect (Name cmd = "elsif")) as [Hei | Hei]; cbn [orb] in *.
  { assert (Hic : inChain = true).
    { apply Hch. unfold checkConditional in Hc. rewrite Hei in Hc.
      destruct (bool_decide_reflect (prev = "if")), (bool_decide_reflect (prev = "elsif")); [by left | by left | by right | done]. }
    rewrite Hic. cbn [negb]. rewrite Hei. change (bool_decide (("elsif" : gostring) = "else")) with false. cbn [negb].
    assert (Hok : chain_ok (Name cmd) true) by done. destruct taken; [by eapply IH | by apply Hbranch]. }
  destruct (bool_decide_reflect (Name cmd = "else")) as [Hel | Hel]; cbn [orb] in *.
  { assert (Hic : inChain = true).
    { apply Hch. unfold checkConditional in Hc. rewrite Hel in Hc.
      destruct (bool_decide_reflect (prev = "if")), (bool_decide_reflect (prev = "elsif")); [by left | by left | by right | done]. }
    rewrite Hic. cbn [negb].
    assert (Hok : chain_ok (Name cmd) false) by (intros [? | ?]; congruence).
    destruct taken; [by eapply IH | by apply Hbranch]. }
  assert (Hok : chain_ok (Name cmd) false) by (intros [? | ?]; congruence).
  destruct (bool_decide_reflect (Name cmd = "require")) as [Hr | Hr]; [by eapply IH |].
  apply bind_ok in Hc as (pa & Hpa & _). apply sound_bind; [by eapply executeCommand_sound |].
  intros [acts i'] _. apply sound_bind; [by eapply IH | by intros []].
Qed.

Lemma checkCommands_sound l e cmds : checkCommands l e cmds = Ok tt -> block_sound e cmds.
Proof.
  revert cmds. induction l as [| l IH]; intros cmds; cbn [checkCommands]; [done |]. intros H i.
  eapply check_go_sound; [exact IH | exact H |]. by intros [|].
Qed.

Lemma checkScript_go_sound e0 cmds e taken i : checkScript_go e0 cmds = Ok e ->
  sound (commands_go late e (executeConditional late ctx e) cmds false taken i).
Proof.
  revert e0 taken i. induction cmds as [| cmd cmds IH]; intros e0 taken i H; [done |]. cbn [checkScript_go] in H.
  destruct (bool_decide_reflect (Name cmd = "require")) as [Hr | Hr].
  - destruct (Block cmd); [done |]. apply bind_ok in H as (exts & _ & H). cbn [commands_go]. split_if; [done |].
    rewrite Hr. cbn. by eapply IH.
  - apply bind_ok in H as ([] & Hc & H). injection H as ->. cbn [checkCommands] in Hc.
    eapply check_go_sound; [apply checkCommands_sound | exact Hc |]. by intros [|].
Qed.

Lemma checkActions_sound all : sound (checkActions all).
Proof. unfold checkActions. by repeat split_if. Qed.

(** C37: a script that validation accepted never fails at run time for a reason
    validation should have found: no unknown command, test or tag, no missing
    require, no wrong argument, no misplaced else, no failed type assertion, no
    invalid redirect address.  What remains are the limits of a run and the
    combinations of actions that only the run shows. *)
Theorem validated_never_goes_wrong script e exts err :
  checkScript script = Ok e -> (exts = None \/ exts = Some e) ->
  execute late script exts ctx = Err err -> budget err = true.
Proof.
  intros Hc Hexts H. pose proof (checkScript_go_sound [] script e false start Hc) as Hs.
  assert (Hall : sound (execute late script exts ctx)); [| by rewrite H in Hall].
  unfold execute. assert (Hx : (match exts with Some e => Ok e | None => match checkScript script with Ok e => Ok e | Err e => Err (RCompile e) end end : result run_error env) = Ok e).
  { destruct Hexts as [-> | ->]; [by rewrite Hc | done]. }
  rewrite Hx. cbn [rbind]. apply sound_bind; [exact Hs |]. intros [all i] _.
  apply sound_bind; [apply checkActions_sound |]. intros [] _. by destruct (dropCancelledDiscard all).
Qed.

(** ** if / elsif / else *)

(** Evaluating tests only spends operations. *)
Definition same_but_clock (i i' : Interpreter) : Prop :=
  redirected i' = redirected i /\ stopped i' = stopped i /\ flags i' = flags i /\ vacHandles i' = vacHandles i.

#[local] Instance same_refl : Reflexive same_but_clock.
Proof. by intros i. Qed.
#[local] Instance same_trans : Transitive same_but_clock.
Proof. intros i j k (A1 & A2 & A3 & A4) (B1 & B2 & B3 & B4). unfold same_but_clock. by rewrite B1, B2, B3, B4. Qed.

Definition frames {A} (i : Interpreter) (r : result run_error (A * Interpreter)) : Prop :=
  match r with Ok (_, i') => same_but_clock i i' | Err _ => True end.

Lemma frames_bind {A B} i (m : result run_error (A * Interpreter)) (f : A * Interpreter -> result run_error (B * Interpreter)) :
  frames i m -> (forall a j, frames j (f (a, j))) -> frames i (rbind m f).
Proof.
  destruct m as [[a j] | e]; simpl; [| done]. intros H1 H2. specialize (H2 a j).
  destruct (f (a, j)) as [[b k] | ?]; simpl in *; [| done]. by transitivity j.
Qed.

Lemma tick_frames n i : frames i (tick late n i).
Proof. unfold tick. by repeat split_if. Qed.

Lemma matchValues_frames ms values keys i : frames i (matchValues late ms values keys i).
Proof.
  unfold matchValues. destruct (mType ms =s? "count").
  - revert i. induction keys as [| k keys IH]; intros i; simpl; [reflexivity |].
    apply frames_bind; [apply tick_frames |]. intros _ j. destruct (relationHolds _ _); [by simpl | apply IH].
  - set (cmp := if bool_decide _ then _ else _). set (fold := bool_decide (cmp = _)).
    revert i. induction values as [| v values IH]; intros i; simpl; [reflexivity |].
    apply frames_bind; [| intros [] j; [by simpl | apply IH]].
    clear IH. revert i. induction keys as [| k keys IH]; intros i; simpl; [reflexivity |].
    apply frames_bind; [apply tick_frames |]. intros _ j. destruct (matchOne _ _ _ _ _ _ _) as [[] | ?]; simpl; [done | apply IH | done].
Qed.

(** Rule induction over tests, with the hypothesis for every test of a list. *)
Fixpoint Test_rect_all (P : Test -> Prop)
  (Hall : forall ts, Forall P ts -> P (AllOf ts)) (Hany : forall ts, Forall P ts -> P (AnyOf ts))
  (Hnot : forall t, P t -> P (NotTest t))
  (Hleaf : forall t, (match t with AllOf _ | AnyOf _ | NotTest _ => False | _ => True end) -> P t) (t : Test) : P t :=
  let fix go (ts : list Test) : Forall P ts :=
  match ts with
  | [] => List.Forall_nil P
  | t :: ts => List.Forall_cons P t ts (Test_rect_all P Hall Hany Hnot Hleaf t) (go ts)
  end in
  match t return P t with
  | AllOf ts => Hall ts (go ts)
  | AnyOf ts => Hany ts (go ts)
  | NotTest t => Hnot t (Test_rect_all P Hall Hany Hnot Hleaf t)
  | t => Hleaf t ltac:(exact I)
  end.

Lemma evaluateTest_frames t i : frames i (evaluateTest late ctx t i).
Proof.
  revert i. induction t as [ts IH | ts IH | t IH | t Ht] using Test_rect_all; intros i.
  - cbn [evaluateTest]. apply frames_bind; [apply tick_frames |]. intros _ j. revert j.
    induction IH as [| t ts H1 H2 IH2]; intros j; simpl; [reflexivity |].
    apply frames_bind; [apply H1 |]. intros [] k; [apply IH2 | by simpl].
  - cbn [evaluateTest]. apply frames_bind; [apply tick_frames |]. intros _ j. revert j.
    induction IH as [| t ts H1 H2 IH2]; intros j; simpl; [reflexivity |].
    apply frames_bind; [apply H1 |]. intros [] k; [by simpl | apply IH2].
  - cbn [evaluateTest]. apply frames_bind; [apply tick_frames |]. intros _ j.
    apply frames_bind; [apply IH |]. by intros b k.
  - destruct t; try done; cbn [evaluateTest]; (apply frames_bind; [apply tick_frames |]); intros _ j;
      try apply matchValues_frames; try done.
    unfold evaluateHeaderTest. destruct (normComparator _); [apply matchValues_frames | done].
Qed.

Section Chains.
Variable e : env.
Abbreviation loop := (commands_go late e (executeConditional late ctx e)).

(** The test of a branch; an else holds. *)
Definition holds (b : Command) : run bool := fun i =>
  if Name b =s? "else" then Ok (true, i)
  else match buildTest testLevels (Arguments_ b) e with
  | Err err => Err (RCompile err)
  | Ok t => evaluateTest late ctx t i
  end.

(** The reference: the block of the first branch whose test holds; the tests
    after it are not evaluated. *)
Fixpoint first_branch (bs : list Command) (i : Interpreter) : result run_error (list Action * Interpreter) :=
  match bs with
  | [] => Ok ([], i)
  | b :: bs =>
      let* (v, i) := holds b i in
      if v then executeCommands late ctx e (default [] (Block b)) i else first_branch bs i
  end.

(** The branches after the if: elsif, and an else at most at the end. *)
Fixpoint tail_ok (bs : list Command) : bool :=
  match bs with
  | [] => true
  | b :: bs => (Name b =s? "elsif") && tail_ok bs || (Name b =s? "else") && bool_decide (length bs = 0%nat)
  end.
Definition continues (cmds : list Command) : bool :=
  match cmds with c :: _ => (Name c =s? "elsif") || (Name c =s? "else") | [] => false end.

Lemma executeConditional_eq cmd i : executeConditional late ctx e cmd i =
  let* (v, i) := holds cmd i in
  if v then let* (actions, i) := executeCommands late ctx e (default [] (Block cmd)) i in Ok ((true, actions), i)
  else Ok ((false, []), i).
Proof.
  destruct cmd as [name tag args b]. unfold holds. cbn [executeConditional Name Arguments_ Block].
  destruct (name =s? "else"); cbn [negb rbind].
  - destruct b as [cs |]; [done |]. done.
  - destruct (buildTest _ _ _); [| done]. destruct (evaluateTest _ _ _ _) as [[v j] | ]; [| done]. cbn [rbind].
    destruct b as [cs |]; [by destruct v |]. by destruct v.
Qed.

Lemma holds_frames b i : frames i (holds b i).
Proof. unfold holds. destruct (_ =s? _); [by simpl |]. destruct (buildTest _ _ _); [apply evaluateTest_frames | done]. Qed.

Lemma loop_taken_irrelevant cmds t t' i : loop cmds false t i = loop cmds false t' i.
Proof.
  revert t t' i. induction cmds as [| c cmds IH]; intros t t' i; [done |]. cbn [commands_go].
  destruct (stopped i); [done |]. destruct (Name c =s? "if"); [done |].
  destruct (_ || _); [done |]. destruct (Name c =s? "require"); [apply IH |].
  destruct (executeCommand _ _ _ _) as [[a j] |]; [| done]. cbn [rbind]. by rewrite (IH t t').
Qed.

Lemma loop_not_continuing cmds ic t i : continues cmds = false -> loop cmds ic t i = loop cmds false false i.
Proof.
  destruct cmds as [| c cmds]; [done |]. intros H. cbn [continues] in H. cbn [commands_go].
  destruct (stopped i); [done |]. destruct (Name c =s? "if"); [done |]. rewrite H.
  destruct (Name c =s? "require"); [apply loop_taken_irrelevant |].
  destruct (executeCommand _ _ _ _) as [[a j] |]; [| done]. cbn [rbind]. by rewrite (loop_taken_irrelevant _ t false).
Qed.

Lemma loop_stopped cmds ic t i : stopped i = true -> loop cmds ic t i = Ok ([], i).
Proof. intros H. destruct cmds; cbn [commands_go]; [done | by rewrite H]. Qed.

Lemma tail_ok_head b bs : tail_ok (b :: bs) = true ->
  (Name b =s? "if") = false /\ (Name b =s? "elsif") || (Name b =s? "else") = true /\
  tail_ok bs = true /\ ((Name b =s? "else") = true -> bs = []).
Proof.
  cbn [tail_ok]. intros H. apply orb_true_iff in H as [H | H]; apply andb_true_iff in H as [Hn H].
  - apply bool_decide_eq_true in Hn. rewrite Hn. split_and!; try done.
  - apply bool_decide_eq_true in Hn, H. apply length_zero_iff_nil in H. subst bs. rewrite Hn. split_and!; done.
Qed.

(** Once a branch was taken the rest of the chain is skipped. *)
Lemma loop_taken tl rest i : tail_ok tl = true -> continues rest = false -> forall ic, (tl = [] \/ ic = true) ->
  loop (tl ++ rest) ic true i = loop rest false false i.
Proof.
  intros Ht Hr. revert i. induction tl as [| b tl IH]; intros i ic Hic; [by apply loop_not_continuing |].
  destruct Hic as [? | ->]; [done |]. apply tail_ok_head in Ht as (H1 & H2 & H3 & H4).
  cbn [app commands_go]. destruct (stopped i) eqn:Es; [by rewrite loop_stopped |].
  rewrite H1, H2. cbn [negb]. apply IH; [done |]. destruct (Name b =s? "else"); [left; by apply H4 | by right].
Qed.

Lemma loop_branches tl rest i : tail_ok tl = true -> continues rest = false -> stopped i = false ->
  forall ic, (tl = [] \/ ic = true) ->
  loop (tl ++ rest) ic false i =
  let* (acts, i) := first_branch tl i in let* (r, i) := loop rest false false i in Ok (acts ++ r, i).
Proof.
  intros Ht Hr. revert i. induction tl as [| b tl IH]; intros i Hs ic Hic.
  - cbn [app first_branch rbind]. rewrite loop_not_continuing by done. by destruct (loop rest false false i) as [[? ?] |].
  - destruct Hic as [? | ->]; [done |]. apply tail_ok_head in Ht as (H1 & H2 & H3 & H4).
    cbn [app commands_go first_branch]. rewrite Hs, H1, H2. cbn [negb]. rewrite executeConditional_eq.
    pose proof (holds_frames b i) as Hfr. destruct (holds b i) as [[[] j] | ?]; [| | done]; cbn [rbind].
    + destruct (executeCommands _ _ _ _ _) as [[acts k] |]; [| done]. cbn [rbind fst snd].
      rewrite loop_taken; [done | done | done |]. destruct (Name b =s? "else"); [left; by apply H4 | by right].
    + cbn [fst snd app]. rewrite IH; [| done | | destruct (Name b =s? "else"); [left; by apply H4 | by right]].
      * destruct (first_branch tl j) as [[acts k] |]; [| done]. cbn [rbind]. by destruct (loop rest false false k) as [[? ?] |].
      * destruct Hfr as (_ & -> & _). done.
Qed.

(** an if with its elsif and else branches runs the block of the first
    branch whose test holds and no other, does not evaluate the tests after it,
    and then goes on with what follows the chain, unless the block stopped the
    script. *)
Theorem chain_first_branch hd tl rest ic taken i :
  Name hd = "if" -> tail_ok tl = true -> continues rest = false -> stopped i = false ->
  loop (hd :: tl ++ rest) ic taken i =
  let* (acts, i) := first_branch (hd :: tl) i in let* (r, i) := loop rest false false i in Ok (acts ++ r, i).
Proof.
  intros Hn Ht Hr Hs. cbn [commands_go first_branch]. rewrite Hs, (bool_decide_eq_true_2 _ Hn), executeConditional_eq.
  pose proof (holds_frames hd i) as Hfr. destruct (holds hd i) as [[[] j] | ?]; [| | done]; cbn [rbind].
  - destruct (executeCommands _ _ _ _ _) as [[acts k] |]; [| done]. cbn [rbind fst snd].
    rewrite loop_taken; [done | done | done | by right].
  - cbn [fst snd app]. rewrite loop_branches; [| done | done | by destruct Hfr as (_ & -> & _) | by right].
    destruct (first_branch tl j) as [[acts k] |]; [| done]. cbn [rbind]. by destruct (loop rest false false k) as [[? ?] |].
Qed.
End Chains.
End Props.

(** ** Where the message goes *)
Definition is_keep (a : Action) : bool := match a with KeepAction _ => true | _ => false end.
(** A delivery that replaces the implicit keep, or a rejection. *)
Definition hard (a : Action) : bool :=
  match a with FileintoAction _ copy _ | RedirectAction _ copy => negb copy | RejectAction _ => true | _ => false end.
Definition folders_of (all : list Action) : list gostring :=
  concat (map (fun a => match a with FileintoAction f _ _ => [f] | _ => [] end) all).
Definition redirects_of (all : list Action) : list gostring :=
  concat (map (fun a => match a with RedirectAction a _ => [a] | _ => [] end) all).

(** The implicit keep of a run is cancelled by such an action, and by a discard
    when nothing is delivered at all. *)
Definition cancelled (raw : list Action) : bool :=
  existsb hard raw || existsb is_discard raw && negb (existsb delivers raw).

Section Outcome.
Context {U : UnicodeTables} {N : NetMail} {R : Regexp} {M : MessageStd}.

Definition ends_keep (a : Action) : bool :=
  match a with FileintoAction _ _ _ | RedirectAction _ _ | DiscardAction | RejectAction _ => true | _ => false end.

Lemma fold_outcome all o ik :
  let '(o', ik') := fold_left outcome_step all (o, ik) in
  okeep o' = okeep o || existsb is_keep all /\ ik' = ik && negb (existsb ends_keep all) /\
  ofolders o' = ofolders o ++ folders_of all /\ oredirects o' = oredirects o ++ redirects_of all /\
  orejected o' = orejected o || existsb is_reject all.
Proof.
  revert o ik. induction all as [| a all IH]; intros o ik.
  - simpl. rewrite !orb_false_r, andb_true_r, !app_nil_r. done.
  - cbn [fold_left]. destruct (outcome_step (o, ik) a) as [o1 ik1] eqn:E. specialize (IH o1 ik1).
    destruct (fold_left outcome_step all (o1, ik1)) as [o2 ik2]. destruct IH as (-> & -> & -> & -> & ->).
    unfold folders_of, redirects_of.
    destruct a; simpl in E; injection E as <- <-; cbn [okeep ofolders oredirects orejected existsb is_keep ends_keep is_reject map concat];
      rewrite ?orb_true_r, ?orb_false_l, ?orb_true_l, ?andb_false_r, ?andb_true_r, ?app_nil_l, <- ?app_assoc; done.
Qed.

Lemma outcome_spec all :
  let o := sieveOutcomeOf all in
  okeep o = existsb is_keep all || negb (existsb ends_keep all) /\
  ofolders o = folders_of all /\ oredirects o = redirects_of all /\ orejected o = existsb is_reject all.
Proof.
  unfold sieveOutcomeOf. pose proof (fold_outcome all outcome0 true) as H.
  destruct (fold_left outcome_step all (outcome0, true)) as [o ik]. destruct H as (H1 & H2 & H3 & H4 & H5).
  cbn zeta. cbn [keep_if okeep ofolders oredirects orejected]. by rewrite H1, H2, H3, H4, H5.
Qed.

Lemma existsb_drop_discard f all : f DiscardAction = false -> existsb f (dropCancelledDiscard all) = existsb f all.
Proof.
  intros Hf. unfold dropCancelledDiscard. destruct (existsb delivers all); [| done].
  induction all as [| a all IH]; [done |]. cbn [List.filter]. destruct a; simpl in *; rewrite ?IH; try done.
  by rewrite Hf.
Qed.

Lemma discard_left all : existsb is_discard (dropCancelledDiscard all) = existsb is_discard all && negb (existsb delivers all).
Proof.
  unfold dropCancelledDiscard. destruct (existsb delivers all) eqn:E; cbn [negb].
  - rewrite andb_false_r. clear E. induction all as [| a all IH]; [done |]. by destruct a.
  - by rewrite andb_true_r.
Qed.

Lemma lists_drop_discard all : folders_of (dropCancelledDiscard all) = folders_of all /\
  redirects_of (dropCancelledDiscard all) = redirects_of all.
Proof.
  unfold dropCancelledDiscard, folders_of, redirects_of. destruct (existsb delivers all); [| done].
  induction all as [| a all [IH1 IH2]]; [done |]. cbn [List.filter]. destruct a; simpl; rewrite ?IH1, ?IH2; done.
Qed.

Lemma existsb_or f g h (all : list Action) : (forall a, h a = f a || g a) -> existsb h all = existsb f all || existsb g all.
Proof.
  intros H. induction all as [| a all IH]; [done |]. simpl. rewrite H, IH.
  by destruct (f a), (g a), (existsb f all), (existsb g all).
Qed.

(** The completed list of actions. *)
Definition complete (raw : list Action) (fl : gostring) : list Action :=
  match dropCancelledDiscard raw with
  | [] => [KeepAction fl]
  | all => keepWithCopies all fl
  end.

Lemma complete_spec raw fl :
  existsb is_keep (complete raw fl) || negb (existsb ends_keep (complete raw fl)) = existsb is_keep raw || negb (cancelled raw) /\
  folders_of (complete raw fl) = folders_of raw /\ redirects_of (complete raw fl) = redirects_of raw /\
  existsb is_reject (complete raw fl) = existsb is_reject raw.
Proof.
  unfold complete, cancelled. set (all := dropCancelledDiscard raw).
  assert (H1 : existsb is_keep all = existsb is_keep raw) by (by apply existsb_drop_discard).
  assert (H2 : existsb hard all = existsb hard raw) by (by apply existsb_drop_discard).
  assert (H3 : existsb is_reject all = existsb is_reject raw) by (by apply existsb_drop_discard).
  assert (H4 : existsb is_discard all = existsb is_discard raw && negb (existsb delivers raw)) by apply discard_left.
  destruct (lists_drop_discard raw) as [H5 H6]. fold all in H5, H6. rewrite <- H1, <- H2, <- H3, <- H4, <- H5, <- H6.
  clearbody all. clear.
  assert (Hc : existsb cancels_keep all = existsb is_keep all || (existsb hard all || existsb is_discard all)).
  { rewrite <- (existsb_or hard is_discard (fun a => hard a || is_discard a)) by done.
    apply existsb_or. by intros []; simpl; rewrite ?orb_false_r. }
  assert (He : existsb ends_keep all = existsb is_copy all || (existsb hard all || existsb is_discard all)).
  { rewrite <- (existsb_or hard is_discard (fun a => hard a || is_discard a)) by done.
    apply existsb_or. intros []; simpl; try done; by destruct Copy. }
  destruct all as [| a all']; [done |]. set (all := a :: all') in *. unfold keepWithCopies. rewrite Hc.
  destruct (existsb is_keep all) eqn:Ek; cbn [orb]; [by rewrite Ek |].
  destruct (existsb hard all || existsb is_discard all) eqn:Eh; cbn [negb orb].
  - split_and!; try done. by rewrite Ek, He, orb_true_r.
  - destruct (existsb is_copy all) eqn:Ec.
    + rewrite !existsb_app. unfold folders_of, redirects_of. rewrite !map_app, !concat_app. simpl.
      rewrite !app_nil_r, !orb_false_r, orb_true_r. done.
    + split_and!; try done. by rewrite Ek, He.
Qed.

End Outcome.

(** ** Witnesses *)
#[export] Existing Instance plain_mail.
#[export] Instance ex_regexp : Regexp :=
  {| regexpCompile := fun _ => true; regexpMatch := fun p v => GoLib.Contains v p |}.
#[export] Instance ex_mime : MessageStd := {|
  ReadMessage := fun _ => None; DecodeHeader := fun _ => None;
  ParseMediaType := fun _ => None; multipartParts := fun _ _ => []; decodeQuotedPrintable := fun _ => None;
  Quote := fun s => s |}.

Definition ex_msg : MessageContext := {|
  From := "a@x.example"; To := [("b@y.example" : gostring)];
  Headers := [(("Subject" : gostring), [("Hello" : gostring)])];
  Body := "text"; Size := 100; BodyIsFullMessage := false |}.

Definition cmd0 (name : gostring) (args : list Value) : Command := MkCommand name [] args None.
Definition ex_require (exts : list gostring) : Command := cmd0 "require" [VList exts].

(** A header test that holds, a copy, a redirect and a stop. *)
Definition ex_if : Command :=
  MkCommand "if" [] [ex_word "header"; VTag "matches"; ex_str "subject"; ex_str "h?ll*"]
    (Some [MkCommand "fileinto" "copy" [ex_str "A"] None]).
Definition ex_else : Command := MkCommand "else" [] [] (Some [cmd0 "discard" []]).
Definition ex_filter : list Command :=
  [ex_require [("fileinto" : gostring); ("copy" : gostring)]; ex_if; ex_else; cmd0 "stop" []].
Definition ex_exts : env := [("fileinto" : gostring); ("copy" : gostring)].

(** A script with both a rejection and a delivery is stopped at run time. *)
Definition ex_conflict : list Command :=
  [ex_require [("reject" : gostring)]; cmd0 "reject" [ex_str "no"]; cmd0 "keep" []].

Lemma validated_never_goes_wrong_witness :
  execute (fun _ => false) ex_conflict None ex_msg = Err RRejectConflict /\ budget RRejectConflict = true.
Proof.
  assert (H : execute (fun _ => false) ex_conflict None ex_msg = Err RRejectConflict) by (vm_compute; reflexivity).
  split; [exact H |].
  refine (validated_never_goes_wrong (fun _ => false) ex_msg ex_conflict [("reject" : gostring)] None RRejectConflict _ _ H).
  - vm_compute. reflexivity.
  - left. reflexivity.
Defined.

Lemma chain_first_branch_witness :
  commands_go (fun _ => false) ex_exts (executeConditional (fun _ => false) ex_msg ex_exts)
    (ex_if :: [ex_else] ++ [cmd0 "stop" []]) false false start
  = (let* (acts, i) := first_branch (fun _ => false) ex_msg ex_exts (ex_if :: [ex_else]) start in
     let* (r, i) := commands_go (fun _ => false) ex_exts (executeConditional (fun _ => false) ex_msg ex_exts)
                      [cmd0 "stop" []] false false i in Ok (acts ++ r, i)).
Proof.
  refine (chain_first_branch (fun _ => false) ex_msg ex_exts ex_if [ex_else] [cmd0 "stop" []] false false start _ _ _ _);
    vm_compute; reflexivity.
Defined.

Definition ex_actions : list Action := [FileintoAction "A" true []; StopAction; KeepAction []].

(** ** Two places where the implicit keep is not what the comments say *)

(** A discard cancels the implicit keep (the comment of [dropCancelledDiscard]),
    but beside a copy it is dropped before the copies restore the keep: the
    message is filed and also kept. *)
Definition ex_copy_discard : list Command :=
  [ex_require [("fileinto" : gostring); ("copy" : gostring)];
   MkCommand "fileinto" "copy" [ex_str "A"] None; cmd0 "discard" []].
Theorem discard_lost_beside_copy :
  exists actions, execute (fun _ => false) ex_copy_discard None ex_msg = Ok actions /\
    okeep (sieveOutcomeOf actions) = true.
Proof. exists [FileintoAction "A" true []; KeepAction []]. split; vm_compute; reflexivity. Qed.

(** The implicit keep carries the flags of addflag (the comment of [Execute]),
    but not when the script stops: the list of actions is then not empty, so no
    keep is added and the delivery keeps the message without flags. *)
Definition ex_flag_stop : list Command :=
  [ex_require [("imap4flags" : gostring)]; cmd0 "addflag" [ex_str "\Flagged"]; cmd0 "stop" []].
Theorem flags_lost_at_stop :
  exists actions, execute (fun _ => false) ex_flag_stop None ex_msg = Ok actions /\
    okeep (sieveOutcomeOf actions) = true /\ okeepFlags (sieveOutcomeOf actions) = [].
Proof. exists [StopAction]. split; [| split]; vm_compute; reflexivity. Qed.
