(* ===== verification/Bolt.v ===== *)
(** * The key-value store under the databases

    The databases of the server are bbolt files: named buckets of byte keys, with
    transactions that take effect as a whole, and cursors that walk a bucket in
    the byte order of its keys.  A bucket is a finite map here; this file has the
    order of its cursor and the integer keys of internal/storage ([itob], [btoi]),
    whose byte order is the numeric one. *)
From S2P Require Import Prelude GoLib Utf8.

(** ** Byte order *)
Fixpoint lex_leb (a b : gostring) : bool :=
  match a, b with
  | [], _ => true
  | _ :: _, [] => false
  | x :: a', y :: b' => (bz x <? bz y) || ((bz x =? bz y) && lex_leb a' b')
  end.

Definition lex_le (a b : gostring) : Prop := lex_leb a b = true.

#[export] Instance lex_le_dec : RelDecision lex_le.
Proof. intros a b. unfold Decision, lex_le. destruct (lex_leb a b); [by left | by right]. Defined.

#[export] Instance lex_le_total : Total lex_le.
Proof.
  intros a. induction a as [| x a IH]; intros [| y b]; unfold lex_le; simpl; [by left | by left | by right |].
  destruct (Z.ltb_spec (bz x) (bz y)); [by left |]. destruct (Z.ltb_spec (bz y) (bz x)); [by right |].
  replace (bz x =? bz y) with true by (symmetry; apply Z.eqb_eq; lia).
  replace (bz y =? bz x) with true by (symmetry; apply Z.eqb_eq; lia). apply IH.
Qed.

#[export] Instance lex_le_trans : Transitive lex_le.
Proof.
  intros a. induction a as [| x a IH]; intros [| y b] [| z c]; unfold lex_le; simpl; try done.
  intros H1 H2. apply orb_true_iff in H1, H2. rewrite !andb_true_iff, !Z.ltb_lt, !Z.eqb_eq in *.
  apply orb_true_iff. rewrite andb_true_iff, Z.ltb_lt, Z.eqb_eq.
  destruct H1 as [H1 | [H1 H1']], H2 as [H2 | [H2 H2']]; [left; lia .. |]. right. split; [lia |]. by eapply IH.
Qed.

(** The cursor over a bucket with byte string keys, and over one whose keys are
    the encodings of numbers. *)
Definition cursor {A} (m : gmap gostring A) : list (gostring * A) :=
  omap (fun k => (fun v => (k, v)) <$> m !! k) (merge_sort lex_le (elements (dom m))).

Definition keys {A} (m : gmap Z A) : list Z := merge_sort Z.le (elements (dom m)).

Section Keys.
Context {A : Type}.
Implicit Types m : gmap Z A.

Lemma elem_of_keys m k : k ∈ keys m <-> is_Some (m !! k).
Proof.
  unfold keys. rewrite (merge_sort_Permutation Z.le (elements (dom m))).
  by rewrite elem_of_elements, elem_of_dom.
Qed.

Lemma keys_NoDup m : NoDup (keys m).
Proof. unfold keys. rewrite merge_sort_Permutation. apply NoDup_elements. Qed.

Lemma keys_sorted m : StronglySorted Z.le (keys m).
Proof. apply (StronglySorted_merge_sort Z.le). Qed.

Lemma sorted_eq (l l' : list Z) : NoDup l -> NoDup l' -> StronglySorted Z.le l -> StronglySorted Z.le l' ->
  (forall k, k ∈ l <-> k ∈ l') -> l = l'.
Proof. intros N N' S S' H. apply (StronglySorted_unique Z.le); [done | done |]. by apply NoDup_Permutation. Qed.

Lemma filter_sorted (P : Z -> Prop) `{forall x, Decision (P x)} l :
  StronglySorted Z.le l -> StronglySorted Z.le (filter P l).
Proof.
  induction 1 as [| a l Hs IH Ha]; [constructor |]. rewrite filter_cons. destruct (decide (P a)); [| done].
  constructor; [done |]. apply Forall_forall. intros x Hx. apply list_elem_of_filter in Hx as [_ Hx].
  rewrite Forall_forall in Ha. by apply Ha.
Qed.

(** Deleting a key takes it out of the walk and leaves the others in place. *)
Lemma keys_delete m k : keys (delete k m) = filter (fun j => j <> k) (keys m).
Proof.
  apply sorted_eq; try apply keys_NoDup; try apply keys_sorted.
  - by apply NoDup_filter, keys_NoDup.
  - apply filter_sorted, keys_sorted.
  - intros j. rewrite list_elem_of_filter, !elem_of_keys, lookup_delete_is_Some.
    split; intros [? ?]; by split; auto.
Qed.

Lemma keys_same_dom {B} m (m' : gmap Z B) : (forall k, is_Some (m !! k) <-> is_Some (m' !! k)) -> keys m = keys m'.
Proof.
  intros H. apply sorted_eq; try (unfold keys; rewrite merge_sort_Permutation; apply NoDup_elements);
    try apply (StronglySorted_merge_sort Z.le).
  intros k. unfold keys. rewrite !merge_sort_Permutation, !elem_of_elements, !elem_of_dom. apply H.
Qed.

(** A fresh greatest key is walked last. *)
Lemma keys_insert_last m k v : (forall j, is_Some (m !! j) -> j < k) -> keys (<[k := v]> m) = keys m ++ [k].
Proof.
  intros H. assert (Hnew : k ∉ keys m) by (intros Hk%elem_of_keys; specialize (H _ Hk); lia).
  apply sorted_eq; [apply keys_NoDup | | apply keys_sorted | |].
  - apply NoDup_app. split; [apply keys_NoDup |]. split; [| apply NoDup_singleton].
    intros x Hx ->%list_elem_of_singleton. by apply Hnew.
  - pose proof (keys_sorted m) as Hs. assert (Hlt : Forall (fun j => j < k) (keys m)).
    { apply Forall_forall. intros j Hj. by apply H, elem_of_keys. }
    revert Hs Hlt. generalize (keys m). clear. induction l as [| a l IH]; intros Hs Hlt; [repeat constructor |].
    inversion Hs as [| ? ? Hl Ha]; subst. apply Forall_cons in Hlt as [Hk Hlt]. simpl. constructor; [by apply IH |].
    apply Forall_app. split; [done |]. constructor; [lia | constructor].
  - intros j. rewrite elem_of_app, list_elem_of_singleton, !elem_of_keys, lookup_insert_is_Some.
    split; [intros [-> | [_ ?]]; auto | intros [? | ->]; [| by left]].
    destruct (decide (k = j)); auto.
Qed.

Lemma keys_empty : keys (∅ : gmap Z A) = [].
Proof. unfold keys. by rewrite dom_empty_L, elements_empty. Qed.
End Keys.

Section Cursor.
Context {A : Type}.
Implicit Types m : gmap gostring A.

Lemma elem_of_cursor m k v : (k, v) ∈ cursor m <-> m !! k = Some v.
Proof.
  unfold cursor. rewrite list_elem_of_omap. setoid_rewrite merge_sort_Permutation.
  setoid_rewrite elem_of_elements. setoid_rewrite elem_of_dom. setoid_rewrite fmap_Some. split.
  - intros (j & _ & w & Hw & [= -> ->]). done.
  - intros H. exists k. split; [by eexists |]. by exists v.
Qed.

Lemma cursor_keys (b : gmap gostring A) : NoDup (map fst (cursor b)).
Proof.
  unfold cursor. assert (Hn : NoDup (merge_sort lex_le (elements (dom b)))) by (rewrite merge_sort_Permutation; apply NoDup_elements).
  revert Hn. generalize (merge_sort lex_le (elements (dom b))). induction l as [| k l IH]; intros Hn; [apply NoDup_nil_2 |].
  apply NoDup_cons in Hn as [Hk Hn]. cbn [omap list_omap]. destruct (b !! k) as [v |]; [| by apply IH]. cbn [fmap option_fmap option_map map fst].
  apply NoDup_cons. split; [| by apply IH]. intros Hin. apply list_elem_of_fmap in Hin as ([j w] & E & Hj). cbn [fst] in E. subst j.
  apply list_elem_of_omap in Hj as (i & Hi & E). destruct (b !! i); [| done]. injection E as -> _. done.
Qed.

Lemma cursor_empty : cursor (∅ : gmap gostring A) = [].
Proof. unfold cursor. by rewrite dom_empty_L, elements_empty. Qed.
End Cursor.

(** ** Integer keys *)
Definition byte_at (v s : Z) : ascii := byte_of (Z.land (Z.shiftr v s) 255).
Definition itob (v : Z) : gostring := [byte_at v 24; byte_at v 16; byte_at v 8; byte_at v 0].
Definition btoi (b : gostring) : Z :=
  match b with
  | b0 :: b1 :: b2 :: b3 :: _ =>
      Z.lor (Z.lor (Z.lor (Z.shiftl (bz b0) 24) (Z.shiftl (bz b1) 16)) (Z.shiftl (bz b2) 8)) (bz b3)
  | _ => 0
  end.

Lemma bz_byte_at v s : 0 <= s -> bz (byte_at v s) = (v / 2 ^ s) mod 256.
Proof.
  intros Hs. unfold byte_at. rewrite Z.shiftr_div_pow2 by done. change 255 with (2 ^ 8 - 1).
  rewrite land_mod by lia. change (2 ^ 8) with 256. apply bz_byte_of, Z.mod_pos_bound. lia.
Qed.

Lemma btoi_sum b0 b1 b2 b3 r :
  btoi (b0 :: b1 :: b2 :: b3 :: r) = bz b0 * 2 ^ 24 + bz b1 * 2 ^ 16 + bz b2 * 2 ^ 8 + bz b3.
Proof.
  pose proof (bz_range b0). pose proof (bz_range b1). pose proof (bz_range b2). pose proof (bz_range b3).
  unfold btoi. change 24 with (8 + 8 + 8) at 1. change 16 with (8 + 8) at 1.
  rewrite <- !Z.shiftl_shiftl, <- !Z.shiftl_lor by lia.
  rewrite !lor_shiftl_add by lia. lia.
Qed.

(** The encoding of a 32 bit number is read back, and is ordered as the number. *)
Lemma btoi_itob v : 0 <= v <= max_uint32 -> btoi (itob v) = v.
Proof.
  intros Hv. unfold itob. rewrite btoi_sum, !bz_byte_at by lia. unfold max_uint32 in Hv.
  change (2 ^ 24) with 16777216. change (2 ^ 16) with 65536. change (2 ^ 8) with 256. change (2 ^ 0) with 1.
  change (2 ^ 32 - 1) with 4294967295 in Hv. Z.div_mod_to_equations. lia.
Qed.

Lemma itob_ordered v w : 0 <= v <= max_uint32 -> 0 <= w <= max_uint32 -> lex_leb (itob v) (itob w) = (v <=? w).
Proof.
  intros Hv Hw. unfold itob. cbn [lex_leb]. rewrite !bz_byte_at by lia. unfold max_uint32 in *.
  change (2 ^ 24) with 16777216. change (2 ^ 16) with 65536. change (2 ^ 8) with 256. change (2 ^ 0) with 1.
  change (2 ^ 32 - 1) with 4294967295 in *. apply Bool.eq_iff_eq_true.
  rewrite !orb_true_iff, !andb_true_iff, !orb_true_iff, !andb_true_iff, !Z.ltb_lt, !Z.eqb_eq, Z.leb_le. Z.div_mod_to_equations. lia.
Qed.
