(* ===== verification/Accounts.v ===== *)
(** * internal/db/db.go: accounts, domains, aliases and revoked tokens

    [DB] has the buckets of the server database that hold the accounts, the
    domains, the aliases and the revoked tokens (the queue bucket is in Queue.v).
    A row is the value its JSON decodes to, or a value that does not decode; what a
    write keeps of a text is what encoding/json keeps of it ([json_string]: bytes
    that are not UTF-8 become U+FFFD), while keys are kept byte for byte.  Every
    exported method is one bbolt transaction and one function here, with the time
    it reads as an argument; [RecordLogin] is its two transactions.  The buckets
    exist from [Open] on (initBuckets), so the tests for a missing bucket do not
    arise.  Errors of the disk, keys over bbolt's limit and times that JSON cannot
    print are left out. *)
From S2P Require Import Prelude GoLib Utf8 Bolt.

(** ** Data *)
Record AccountData := {
  Email : gostring;
  LocalPart : gostring;
  Domain : gostring;
  PasswordHash : gostring;
  APOPHash : gostring;
  TOTPSecret : gostring;
  TOTPEnabled : bool;
  TOTPLastUsedStep : Z;
  QuotaUsed : Z;
  QuotaLimit : Z;
  MaxMessageSize : Z;
  ForwardTo : gostring;
  ForwardKeepCopy : bool;
  SieveScript : gostring;
  VacationSettings : gostring;
  IsAdmin : bool;
  IsActive : bool;
  CreatedAt : Z;
  UpdatedAt : Z;
  LastLoginAt : Z;
  TokensValidAfter : Z
}.

Record DomainData := {
  Name : gostring;
  MaxAccounts : Z;
  MaxMailboxSize : Z;
  DKIMSelector : gostring;
  DKIMPublicKey : gostring;
  DKIMPrivateKey : gostring;
  Settings : gmap gostring gostring;
  CatchAllTarget : gostring;
  DomainActive : bool;
  DomainCreatedAt : Z;
  DomainUpdatedAt : Z
}.

Record AliasData := {
  Alias : gostring;
  Target : gostring;
  AliasDomain : gostring;
  AliasActive : bool;
  AliasCreatedAt : Z
}.

Inductive Row (A : Type) := Stored (a : A) | Corrupt.
Arguments Stored {A} a.
Arguments Corrupt {A}.

Record DB := {
  accounts : gmap gostring (Row AccountData);
  domains : gmap gostring (Row DomainData);
  aliases : gmap gostring (Row AliasData);
  revoked : gmap gostring (Row Z);
  lastRevokedPurge : Z
}.

Inductive DbErr :=
  | ErrAccountExists | ErrDomainExists | ErrAliasExists
  | ErrDomainNotFound | ErrDomainAccountLimit
  | ErrAccountNotFound | ErrAliasNotFound | ErrAliasConflict
  | ErrInvalidName | ErrLastActiveAdmin
  | ErrKeyNotFound                 (* "key not found" *)
  | ErrUnmarshal                   (* the stored value does not decode *)
  | ErrQuotaOverflow | ErrQuotaExceeded
  | ErrRecent                      (* errRecent of RecordLogin *)
  | ErrCallback.                   (* an error of the caller's function *)

(** ** Updates *)
Definition set_quota (v : Z) (a : AccountData) : AccountData := {|
  Email := Email a; LocalPart := LocalPart a; Domain := Domain a; PasswordHash := PasswordHash a; APOPHash := APOPHash a;
  TOTPSecret := TOTPSecret a; TOTPEnabled := TOTPEnabled a; TOTPLastUsedStep := TOTPLastUsedStep a; QuotaUsed := v;
  QuotaLimit := QuotaLimit a; MaxMessageSize := MaxMessageSize a; ForwardTo := ForwardTo a; ForwardKeepCopy := ForwardKeepCopy a;
  SieveScript := SieveScript a; VacationSettings := VacationSettings a; IsAdmin := IsAdmin a; IsActive := IsActive a;
  CreatedAt := CreatedAt a; UpdatedAt := UpdatedAt a; LastLoginAt := LastLoginAt a; TokensValidAfter := TokensValidAfter a |}.

Definition set_totp_step (v : Z) (a : AccountData) : AccountData := {|
  Email := Email a; LocalPart := LocalPart a; Domain := Domain a; PasswordHash := PasswordHash a; APOPHash := APOPHash a;
  TOTPSecret := TOTPSecret a; TOTPEnabled := TOTPEnabled a; TOTPLastUsedStep := v; QuotaUsed := QuotaUsed a;
  QuotaLimit := QuotaLimit a; MaxMessageSize := MaxMessageSize a; ForwardTo := ForwardTo a; ForwardKeepCopy := ForwardKeepCopy a;
  SieveScript := SieveScript a; VacationSettings := VacationSettings a; IsAdmin := IsAdmin a; IsActive := IsActive a;
  CreatedAt := CreatedAt a; UpdatedAt := UpdatedAt a; LastLoginAt := LastLoginAt a; TokensValidAfter := TokensValidAfter a |}.

Definition set_times (created updated login : Z) (a : AccountData) : AccountData := {|
  Email := Email a; LocalPart := LocalPart a; Domain := Domain a; PasswordHash := PasswordHash a; APOPHash := APOPHash a;
  TOTPSecret := TOTPSecret a; TOTPEnabled := TOTPEnabled a; TOTPLastUsedStep := TOTPLastUsedStep a; QuotaUsed := QuotaUsed a;
  QuotaLimit := QuotaLimit a; MaxMessageSize := MaxMessageSize a; ForwardTo := ForwardTo a; ForwardKeepCopy := ForwardKeepCopy a;
  SieveScript := SieveScript a; VacationSettings := VacationSettings a; IsAdmin := IsAdmin a; IsActive := IsActive a;
  CreatedAt := created; UpdatedAt := updated; LastLoginAt := login; TokensValidAfter := TokensValidAfter a |}.

Definition set_valid_after (v : Z) (a : AccountData) : AccountData := {|
  Email := Email a; LocalPart := LocalPart a; Domain := Domain a; PasswordHash := PasswordHash a; APOPHash := APOPHash a;
  TOTPSecret := TOTPSecret a; TOTPEnabled := TOTPEnabled a; TOTPLastUsedStep := TOTPLastUsedStep a; QuotaUsed := QuotaUsed a;
  QuotaLimit := QuotaLimit a; MaxMessageSize := MaxMessageSize a; ForwardTo := ForwardTo a; ForwardKeepCopy := ForwardKeepCopy a;
  SieveScript := SieveScript a; VacationSettings := VacationSettings a; IsAdmin := IsAdmin a; IsActive := IsActive a;
  CreatedAt := CreatedAt a; UpdatedAt := UpdatedAt a; LastLoginAt := LastLoginAt a; TokensValidAfter := v |}.

Definition set_ident (domain localPart : gostring) (a : AccountData) : AccountData := {|
  Email := Email a; LocalPart := localPart; Domain := domain; PasswordHash := PasswordHash a; APOPHash := APOPHash a;
  TOTPSecret := TOTPSecret a; TOTPEnabled := TOTPEnabled a; TOTPLastUsedStep := TOTPLastUsedStep a; QuotaUsed := QuotaUsed a;
  QuotaLimit := QuotaLimit a; MaxMessageSize := MaxMessageSize a; ForwardTo := ForwardTo a; ForwardKeepCopy := ForwardKeepCopy a;
  SieveScript := SieveScript a; VacationSettings := VacationSettings a; IsAdmin := IsAdmin a; IsActive := IsActive a;
  CreatedAt := CreatedAt a; UpdatedAt := UpdatedAt a; LastLoginAt := LastLoginAt a; TokensValidAfter := TokensValidAfter a |}.

Definition set_updated (now : Z) (a : AccountData) : AccountData := set_times (CreatedAt a) now (LastLoginAt a) a.
Definition set_login (t : Z) (a : AccountData) : AccountData := set_times (CreatedAt a) (UpdatedAt a) t a.

Definition set_accounts f (d : DB) : DB := {|
  accounts := f (accounts d); domains := domains d; aliases := aliases d; revoked := revoked d; lastRevokedPurge := lastRevokedPurge d |}.
Definition set_domains f (d : DB) : DB := {|
  accounts := accounts d; domains := f (domains d); aliases := aliases d; revoked := revoked d; lastRevokedPurge := lastRevokedPurge d |}.
Definition set_aliases f (d : DB) : DB := {|
  accounts := accounts d; domains := domains d; aliases := f (aliases d); revoked := revoked d; lastRevokedPurge := lastRevokedPurge d |}.
Definition set_revoked f (d : DB) : DB := {|
  accounts := accounts d; domains := domains d; aliases := aliases d; revoked := f (revoked d); lastRevokedPurge := lastRevokedPurge d |}.
Definition set_purged (t : Z) (d : DB) : DB := {|
  accounts := accounts d; domains := domains d; aliases := aliases d; revoked := revoked d; lastRevokedPurge := t |}.

(** ** What JSON keeps of a value *)
Definition json_string (s : gostring) : gostring := encode_runes (runes s).

Definition json_account (a : AccountData) : AccountData := {|
  Email := json_string (Email a); LocalPart := json_string (LocalPart a); Domain := json_string (Domain a);
  PasswordHash := json_string (PasswordHash a); APOPHash := json_string (APOPHash a);
  TOTPSecret := json_string (TOTPSecret a); TOTPEnabled := TOTPEnabled a; TOTPLastUsedStep := TOTPLastUsedStep a;
  QuotaUsed := QuotaUsed a; QuotaLimit := QuotaLimit a; MaxMessageSize := MaxMessageSize a;
  ForwardTo := json_string (ForwardTo a); ForwardKeepCopy := ForwardKeepCopy a;
  SieveScript := json_string (SieveScript a); VacationSettings := json_string (VacationSettings a);
  IsAdmin := IsAdmin a; IsActive := IsActive a; CreatedAt := CreatedAt a; UpdatedAt := UpdatedAt a;
  LastLoginAt := LastLoginAt a; TokensValidAfter := TokensValidAfter a |}.

(** A map is written in the order of its keys; of keys that become equal the last
    one read stays. *)
Definition json_settings (m : gmap gostring gostring) : gmap gostring gostring :=
  list_to_map (rev (map (fun '(k, v) => (json_string k, json_string v)) (cursor m))).

Definition json_domain (x : DomainData) : DomainData := {|
  Name := json_string (Name x); MaxAccounts := MaxAccounts x; MaxMailboxSize := MaxMailboxSize x;
  DKIMSelector := json_string (DKIMSelector x); DKIMPublicKey := json_string (DKIMPublicKey x);
  DKIMPrivateKey := json_string (DKIMPrivateKey x); Settings := json_settings (Settings x);
  CatchAllTarget := json_string (CatchAllTarget x); DomainActive := DomainActive x;
  DomainCreatedAt := DomainCreatedAt x; DomainUpdatedAt := DomainUpdatedAt x |}.

Definition json_alias (x : AliasData) : AliasData := {|
  Alias := json_string (Alias x); Target := json_string (Target x); AliasDomain := json_string (AliasDomain x);
  AliasActive := AliasActive x; AliasCreatedAt := AliasCreatedAt x |}.

(** ** Names and keys *)
Definition validName (s forbidden : gostring) : bool := negb (s =s? []) && negb (ContainsAny s forbidden).

Definition validAccountNames (domain local : gostring) : bool := validName domain "/:" && validName local "/".

Definition AccountKey (domain localPart : gostring) : gostring := domain ++ "/" ++ localPart.

(** The database after [Open] on a new file. *)
Definition initBuckets : DB := {|
  accounts := ∅; domains := ∅; aliases := ∅; revoked := ∅; lastRevokedPurge := 0 |}.

(** [Get], for the bucket given: the value under a key, decoded. *)
Definition Get {A} (b : gmap gostring (Row A)) (key : gostring) : result DbErr A :=
  match b !! key with
  | None => Err ErrKeyNotFound
  | Some Corrupt => Err ErrUnmarshal
  | Some (Stored a) => Ok a
  end.

(** Delete the entries that satisfy [p] (the keys are collected first). *)
Definition delete_where {A} (p : gostring -> A -> bool) (b : gmap gostring A) : gmap gostring A :=
  foldl (fun m k => delete k m) b (map fst (List.filter (fun '(k, v) => p k v) (cursor b))).

(** [Cursor.Seek]: the entries from the first key at or after [k] on. *)
Fixpoint seek {A} (k : gostring) (l : list (gostring * A)) : list (gostring * A) :=
  match l with
  | [] => []
  | e :: l' => if lex_leb k (fst e) then l else seek k l'
  end.

(** The entries up to the first one whose key does not have the prefix. *)
Fixpoint while_prefix {A} (p : gostring) (l : list (gostring * A)) : list (gostring * A) :=
  match l with
  | [] => []
  | e :: l' => if HasPrefix (fst e) p then e :: while_prefix p l' else []
  end.

Section Accounts.
Context {U : UnicodeTables}.

Definition hasKeyFold {A} (b : gmap gostring A) (key : gostring) : bool :=
  match b !! key with
  | Some _ => true
  | None => existsb (fun '(k, _) => EqualFold k key) (cursor b)
  end.

Definition accountShadowsAlias (d : DB) (domain local : gostring) : bool :=
  hasKeyFold (aliases d) (domain ++ ":" ++ local).

(** ** Accounts *)
Definition stamp (now : Z) (a : AccountData) : AccountData :=
  set_times (if CreatedAt a =? zero_time then now else CreatedAt a) now (LastLoginAt a) a.

Definition CreateAccount (now : Z) (account : AccountData) (d : DB) : result DbErr unit * DB :=
  if negb (validAccountNames (Domain account) (LocalPart account)) then (Err ErrInvalidName, d) else
  let account := stamp now account in
  let key := AccountKey (Domain account) (LocalPart account) in
  if hasKeyFold (accounts d) key || accountShadowsAlias d (Domain account) (LocalPart account)
  then (Err ErrAccountExists, d)
  else (Ok tt, set_accounts <[key := Stored (json_account account)]> d).

Definition count_prefix {A} (b : gmap gostring A) (prefix : gostring) : Z :=
  Z.of_nat (length (while_prefix prefix (seek prefix (cursor b)))).

Definition CreateAccountInDomain (now : Z) (account : AccountData) (d : DB) : result DbErr unit * DB :=
  if negb (validAccountNames (Domain account) (LocalPart account)) then (Err ErrInvalidName, d) else
  let account := stamp now account in
  let key := AccountKey (Domain account) (LocalPart account) in
  match domains d !! Domain account with
  | None => (Err ErrDomainNotFound, d)
  | Some Corrupt => (Err ErrUnmarshal, d)
  | Some (Stored domain) =>
      if hasKeyFold (accounts d) key || accountShadowsAlias d (Domain account) (LocalPart account)
      then (Err ErrAccountExists, d)
      else if (0 <? MaxAccounts domain) &&
      (MaxAccounts domain <=? count_prefix (accounts d) (AccountKey (Domain account) []))
      then (Err ErrDomainAccountLimit, d)
      else (Ok tt, set_accounts <[key := Stored (json_account account)]> d)
  end.

Definition GetAccount (domain localPart : gostring) (d : DB) : result DbErr AccountData :=
  Get (accounts d) (AccountKey domain localPart).

(** The counters of the stored row that an update keeps. *)
Definition keep_counters (stored account : AccountData) : AccountData :=
  let account := set_quota (QuotaUsed stored) account in
  let account := if TOTPLastUsedStep account <? TOTPLastUsedStep stored
  then set_totp_step (TOTPLastUsedStep stored) account else account in
  let account := if LastLoginAt account <? LastLoginAt stored
  then set_login (LastLoginAt stored) account else account in
  if TokensValidAfter account <? TokensValidAfter stored
  then set_valid_after (TokensValidAfter stored) account else account.

Definition UpdateAccount (now : Z) (account : AccountData) (d : DB) : result DbErr AccountData * DB :=
  let account := set_updated now account in
  let key := AccountKey (Domain account) (LocalPart account) in
  match accounts d !! key with
  | None => (Err ErrAccountNotFound, d)
  | Some row =>
      let account := match row with Stored stored => keep_counters stored account | Corrupt => account end in
      (Ok account, set_accounts <[key := Stored (json_account account)]> d)
  end.

Definition otherActiveAdminTx (d : DB) (skip : AccountData -> bool) : bool :=
  existsb (fun '(_, v) => match v with
  | Stored a => IsAdmin a && IsActive a && negb (skip a)
  | Corrupt => false
  end) (cursor (accounts d)).

Definition same_ident (domain localPart : gostring) (a : AccountData) : bool :=
  (Domain a =s? domain) && (LocalPart a =s? localPart).

(** What [mutateAccount] writes for the row [old] that [fn] made [acct] of. *)
Definition settle_account (now : Z) (old acct : AccountData) : AccountData :=
  let acct := set_ident (Domain old) (LocalPart old) acct in
  let acct := set_quota (QuotaUsed old) acct in
  let acct := if TOTPLastUsedStep acct <? TOTPLastUsedStep old then set_totp_step (TOTPLastUsedStep old) acct else acct in
  let acct := if TokensValidAfter acct <? TokensValidAfter old then set_valid_after (TokensValidAfter old) acct else acct in
  set_updated now acct.

Definition mutateAccount (now : Z) (domain localPart : gostring) (keepAdmin : bool)
  (fn : AccountData -> result DbErr AccountData) (d : DB) : result DbErr AccountData * DB :=
  let key := AccountKey domain localPart in
  match accounts d !! key with
  | None => (Err ErrAccountNotFound, d)
  | Some Corrupt => (Err ErrUnmarshal, d)
  | Some (Stored old) =>
      match fn old with
      | Err e => (Err e, d)
      | Ok acct =>
          if keepAdmin && (IsAdmin old && IsActive old) && (negb (IsAdmin acct) || negb (IsActive acct)) &&
          negb (otherActiveAdminTx d (same_ident (Domain old) (LocalPart old)))
          then (Err ErrLastActiveAdmin, d)
          else let acct := settle_account now old acct in
          (Ok acct, set_accounts <[key := Stored (json_account acct)]> d)
      end
  end.

Definition MutateAccount now domain localPart fn d := mutateAccount now domain localPart false fn d.
Definition MutateAccountKeepAdmin now domain localPart fn d := mutateAccount now domain localPart true fn d.

(** [now] is the login's time, [stamp_now] the clock's when the row is written. *)
Definition RecordLogin (stamp_now : Z) (domain localPart : gostring) (now minInterval : Z) (d : DB) : result DbErr unit * DB :=
  let recent := match GetAccount domain localPart d with
  | Ok acct => time_sub now (LastLoginAt acct) <? minInterval
  | Err _ => false
  end in
  if recent then (Ok tt, d) else
  let '(r, d) := MutateAccount stamp_now domain localPart
  (fun a => if time_sub now (LastLoginAt a) <? minInterval then Err ErrRecent
    else Ok (set_login now a)) d in
  match r with
  | Ok _ | Err ErrRecent | Err ErrAccountNotFound => (Ok tt, d)
  | Err e => (Err e, d)
  end.

(** ** Counters *)

Definition IncrementQuota (now : Z) (domain localPart : gostring) (delta : Z) (d : DB) : result DbErr unit * DB :=
  let key := AccountKey domain localPart in
  match Get (accounts d) key with
  | Err e => (Err e, d)
  | Ok account =>
      let used := if QuotaUsed account <? 0 then 0 else QuotaUsed account in
      if (0 <? delta) && (max_int64 - delta <? used) then (Err ErrQuotaOverflow, d)
      else if (0 <? delta) && (0 <? QuotaLimit account) && (QuotaLimit account <? wrap_i64 (used + delta))
      then (Err ErrQuotaExceeded, d)
      else let used := if (delta <? 0) && (wrap_i64 (used + delta) <? 0) then 0 else wrap_i64 (used + delta) in
      (Ok tt, set_accounts <[key := Stored (json_account (set_updated now (set_quota used account)))]> d)
  end.

Definition ReconcileQuota (now : Z) (domain localPart : gostring) (used : Z) (d : DB) : result DbErr unit * DB :=
  let used := if used <? 0 then 0 else used in
  let key := AccountKey domain localPart in
  match Get (accounts d) key with
  | Err e => (Err e, d)
  | Ok account => (Ok tt, set_accounts <[key := Stored (json_account (set_updated now (set_quota used account)))]> d)
  end.

Definition ConsumeTOTPStep (now : Z) (domain localPart : gostring) (expectedLast newStep : Z) (d : DB) : result DbErr bool * DB :=
  let key := AccountKey domain localPart in
  match Get (accounts d) key with
  | Err e => (Err e, d)
  | Ok account =>
      if negb (TOTPLastUsedStep account =? expectedLast) || (newStep <=? expectedLast) then (Ok false, d)
      else (Ok true, set_accounts <[key := Stored (json_account (set_updated now (set_totp_step newStep account)))]> d)
  end.

(** ** Revoked tokens *)
Definition revokedPurgeEvery : Z := minute.

Definition expired (now : Z) (v : Row Z) : bool :=
  match v with Corrupt => true | Stored expiry => expiry <? now end.

Definition purgeExpiredRevoked (now : Z) (b : gmap gostring (Row Z)) : gmap gostring (Row Z) :=
  delete_where (fun _ v => expired now v) b.

(** [nowNs] is the first reading of the clock, [now] the one of the sweep. *)
Definition StoreRevokedToken (nowNs now : Z) (tokenHash : gostring) (expiry : Z) (d : DB) : DB :=
  let d := set_revoked <[tokenHash := Stored expiry]> d in
  if revokedPurgeEvery <=? wrap_i64 (nowNs - lastRevokedPurge d)
  then set_revoked (purgeExpiredRevoked now) (set_purged nowNs d)
  else d.

Definition IsTokenRevoked (now : Z) (tokenHash : gostring) (d : DB) : bool * DB :=
  match revoked d !! tokenHash with
  | None => (false, d)
  | Some v => if expired now v then (false, set_revoked (delete tokenHash) d) else (true, d)
  end.

Definition CleanupRevokedTokens (now : Z) (d : DB) : DB := set_revoked (purgeExpiredRevoked now) d.

(** ** Deletion of accounts *)
Definition deleteAliasesTargeting (p : gostring -> bool) (b : gmap gostring (Row AliasData)) : gmap gostring (Row AliasData) :=
  delete_where (fun _ v => match v with Stored a => p (TrimSpace (Target a)) | Corrupt => false end) b.

Definition drop_account (domain localPart : gostring) (d : DB) : DB :=
  set_aliases (deleteAliasesTargeting (fun t => EqualFold t (localPart ++ "@" ++ domain)))
  (set_accounts (delete (AccountKey domain localPart)) d).

Definition DeleteAccount (domain localPart : gostring) (d : DB) : DB := drop_account domain localPart d.

Definition DeleteAccountKeepAdmin (domain localPart : gostring) (d : DB) : result DbErr unit * DB :=
  match accounts d !! AccountKey domain localPart with
  | None => (Err ErrAccountNotFound, d)
  | Some row =>
      if match row with Stored a => IsAdmin a && IsActive a | Corrupt => false end &&
      negb (otherActiveAdminTx d (same_ident domain localPart))
      then (Err ErrLastActiveAdmin, d)
      else (Ok tt, drop_account domain localPart d)
  end.

(** ** Domains *)
Definition stamp_domain (now : Z) (x : DomainData) : DomainData := {|
  Name := Name x; MaxAccounts := MaxAccounts x; MaxMailboxSize := MaxMailboxSize x; DKIMSelector := DKIMSelector x;
  DKIMPublicKey := DKIMPublicKey x; DKIMPrivateKey := DKIMPrivateKey x; Settings := Settings x;
  CatchAllTarget := CatchAllTarget x; DomainActive := DomainActive x;
  DomainCreatedAt := if DomainCreatedAt x =? zero_time then now else DomainCreatedAt x; DomainUpdatedAt := now |}.

Definition touch_domain (now : Z) (x : DomainData) : DomainData := {|
  Name := Name x; MaxAccounts := MaxAccounts x; MaxMailboxSize := MaxMailboxSize x; DKIMSelector := DKIMSelector x;
  DKIMPublicKey := DKIMPublicKey x; DKIMPrivateKey := DKIMPrivateKey x; Settings := Settings x;
  CatchAllTarget := CatchAllTarget x; DomainActive := DomainActive x;
  DomainCreatedAt := DomainCreatedAt x; DomainUpdatedAt := now |}.

Definition CreateDomain (now : Z) (domain : DomainData) (d : DB) : result DbErr unit * DB :=
  if negb (validName (Name domain) "/:") then (Err ErrInvalidName, d) else
  if hasKeyFold (domains d) (Name domain) then (Err ErrDomainExists, d)
  else (Ok tt, set_domains <[Name domain := Stored (json_domain (stamp_domain now domain))]> d).

Definition GetDomain (name : gostring) (d : DB) : result DbErr DomainData := Get (domains d) name.

Definition UpdateDomain (now : Z) (domain : DomainData) (d : DB) : result DbErr unit * DB :=
  match domains d !! Name domain with
  | None => (Err ErrDomainNotFound, d)
  | Some _ => (Ok tt, set_domains <[Name domain := Stored (json_domain (touch_domain now domain))]> d)
  end.

Definition deletePrefixFold {A} (name : gostring) (exact : bool) (b : gmap gostring A) : gmap gostring A :=
  delete_where (fun k _ =>
    if (length k <? length name)%nat || negb (EqualFold (take (length name) k) name) then false
    else negb (exact && negb (length k =? length name)%nat)) b.

Definition in_domain (name : gostring) (a : AccountData) : bool := EqualFold (Domain a) name.

(** Does the address end in the domain, after at least one byte? *)
Definition targets_domain (name t : gostring) : bool :=
  let suffix := "@" ++ name in
  (length suffix <? length t)%nat && EqualFold (drop (length t - length suffix) t) suffix.

Definition deleteDomain (name : gostring) (keepAdmin : bool) (d : DB) : result DbErr unit * DB :=
  let inDomain := existsb (fun '(_, v) => match v with
  | Stored a => IsAdmin a && IsActive a && in_domain name a
  | Corrupt => false
  end) (cursor (accounts d)) in
  if keepAdmin && inDomain && negb (otherActiveAdminTx d (in_domain name)) then (Err ErrLastActiveAdmin, d)
  else
  let d := set_domains (deletePrefixFold name true) d in
  let d := set_accounts (deletePrefixFold (AccountKey name []) false) d in
  let d := set_aliases (deletePrefixFold (name ++ ":") false) d in
  (Ok tt, set_aliases (deleteAliasesTargeting (targets_domain name)) d).

Definition DeleteDomain name d := deleteDomain name false d.
Definition DeleteDomainKeepAdmin name d := deleteDomain name true d.

(** ** Aliases *)
Definition AliasKey (domain localPart : gostring) : gostring := domain ++ ":" ++ ToLower localPart.

Definition GetAlias (domain localPart : gostring) (d : DB) : result DbErr AliasData :=
  Get (aliases d) (AliasKey domain localPart).

Definition ResolveAlias (domain localPart : gostring) (d : DB) : result DbErr gostring :=
  let* alias := GetAlias domain localPart d in
  if AliasActive alias then Ok (Target alias) else Ok [].

(** The key an address has in the alias bucket; [None] when it has no local part
    or no at sign. *)
Definition address_key (cur : gostring) : option gostring :=
  match LastIndexByte cur "@" with
  | Some (S at_) => Some (drop (S (S at_)) cur ++ ":" ++ ToLower (take (S at_) cur))
  | _ => None
  end.

(** The row under a key, or the first one under the key in another letter case. *)
Definition get_fold {A} (b : gmap gostring A) (k : gostring) : option A :=
  match b !! k with
  | Some v => Some v
  | None => snd <$> List.find (fun '(kk, _) => EqualFold kk k) (cursor b)
  end.

Fixpoint aliasCycle (depth : nat) (b : gmap gostring (Row AliasData)) (self cur : gostring) : bool :=
  match depth with
  | O => true
  | S depth' =>
      match address_key cur with
      | None => false
      | Some k =>
          if ToLower k =s? self then true else
          match get_fold b k with
          | Some (Stored next) => if AliasActive next then aliasCycle depth' b self (TrimSpace (Target next)) else false
          | _ => false
          end
      end
  end.

Definition aliasCycleTx (b : gmap gostring (Row AliasData)) (selfKey target : gostring) : bool :=
  aliasCycle 32 b (ToLower selfKey) (TrimSpace target).

Definition targets_itself (alias : AliasData) : bool :=
  let t := ToLower (Target alias) in
  (t =s? ToLower (Alias alias)) || (t =s? ToLower (Alias alias ++ "@" ++ AliasDomain alias)).

Definition stamp_alias (now : Z) (x : AliasData) : AliasData := {|
  Alias := Alias x; Target := Target x; AliasDomain := AliasDomain x; AliasActive := AliasActive x;
  AliasCreatedAt := if AliasCreatedAt x =? zero_time then now else AliasCreatedAt x |}.

Definition CreateAlias (now : Z) (alias : AliasData) (d : DB) : result DbErr unit * DB :=
  if negb (validName (AliasDomain alias) "/:") || negb (validName (Alias alias) "/") then (Err ErrInvalidName, d) else
  if targets_itself alias then (Err ErrAliasConflict, d) else
  let key := AliasKey (AliasDomain alias) (Alias alias) in
  if negb (hasKeyFold (domains d) (AliasDomain alias)) then (Err ErrDomainNotFound, d) else
  if hasKeyFold (aliases d) key then (Err ErrAliasExists, d) else
  if hasKeyFold (accounts d) (AccountKey (AliasDomain alias) (Alias alias)) then (Err ErrAliasConflict, d) else
  if aliasCycleTx (aliases d) key (Target alias) then (Err ErrAliasConflict, d)
  else (Ok tt, set_aliases <[key := Stored (json_alias (stamp_alias now alias))]> d).

Definition UpdateAlias (alias : AliasData) (d : DB) : result DbErr unit * DB :=
  if targets_itself alias then (Err ErrAliasConflict, d) else
  let key := AliasKey (AliasDomain alias) (Alias alias) in
  match aliases d !! key with
  | None => (Err ErrAliasNotFound, d)
  | Some _ =>
      if aliasCycleTx (aliases d) key (Target alias) then (Err ErrAliasConflict, d)
      else (Ok tt, set_aliases <[key := Stored (json_alias alias)]> d)
  end.

Definition DeleteAlias (domain localPart : gostring) (d : DB) : DB :=
  set_aliases (delete (AliasKey domain localPart)) d.
End Accounts.

(** ** Walks in pages *)
Definition iterPageSize : nat := 256.

(** One page of [iterate]: the entries of a bucket after the last key delivered. *)
Definition next_page {A} (prefix : gostring) (after : option gostring) (b : gmap gostring A) : list (gostring * A) :=
  let from := match after with
              | None => seek prefix (cursor b)
              | Some a => match seek a (cursor b) with
                          | (k, v) :: l => if k =s? a then l else (k, v) :: l
                          | [] => []
                          end
              end in
  take iterPageSize (while_prefix prefix from).

Section Iterate.
Context {St A E : Type} (bucket : St -> gmap gostring A).

Definition callback := gostring -> A -> St -> result E unit * St.

(** The callbacks of one page, up to the first error. *)
Fixpoint run_page (fn : callback) (page : list (gostring * A)) (st : St) : result E unit * St :=
  match page with
  | [] => (Ok tt, st)
  | (k, v) :: page' =>
      match fn k v st with
      | (Ok _, st) => run_page fn page' st
      | (Err e, st) => (Err e, st)
      end
  end.

(** [None]: more pages than [fuel]. *)
Fixpoint iterate (fuel : nat) (prefix : gostring) (fn : callback) (after : option gostring) (st : St) : option (result E unit * St) :=
  match fuel with
  | O => None
  | S fuel' =>
      let page := next_page prefix after (bucket st) in
      match run_page fn page st with
      | (Err e, st) => Some (Err e, st)
      | (Ok _, st) =>
          if (length page <? iterPageSize)%nat then Some (Ok tt, st)
          else match last page with
          | Some (k, _) => iterate fuel' prefix fn (Some k) st
          | None => Some (Ok tt, st)
          end
      end
  end.

Definition ForEachPrefix fuel prefix fn st := iterate fuel prefix fn None st.
Definition ForEach fuel fn st := iterate fuel [] fn None st.
End Iterate.

(** The callback of the listings: decode the value and append it. *)
Definition collect {A} : @callback (DB * list A) (Row A) DbErr := fun _ v '(d, l) =>
  match v with
  | Stored a => (Ok tt, (d, l ++ [a]))
  | Corrupt => (Err ErrUnmarshal, (d, l))
  end.

Definition ListAccountsByDomain (fuel : nat) (domain : gostring) (d : DB) :=
  ForEachPrefix (fun st : DB * list AccountData => accounts (fst st)) fuel (domain ++ "/") collect (d, []).
Definition ListDomains (fuel : nat) (d : DB) :=
  ForEach (fun st : DB * list DomainData => domains (fst st)) fuel collect (d, []).
Definition ListAliases (fuel : nat) (d : DB) :=
  ForEach (fun st : DB * list AliasData => aliases (fst st)) fuel collect (d, []).
