(* ===== verification/AccountsProps.v ===== *)
(** * Properties of the accounts database

    The operations as one step function over [DB]; the invariant every operation
    preserves; the counters each operation owns; the last administrator; the graph
    of the aliases; and walks in pages: [iterate] copies a bucket out in pages of 256
    entries and runs the callbacks between the read transactions, and when the
    callbacks leave the bucket alone this is one walk.  Names are ASCII where letter
    case matters: with other letters [ToLower] and [EqualFold] are different foldings.
    The claims are applied to a domain with an administrator, a user and an alias. *)
From S2P Require Import Prelude GoLib Utf8 Bolt Accounts.

(** ** Buckets *)
Lemma lookup_foldl_delete {A} (ks : list gostring) (b : gmap gostring A) k :
  foldl (fun m k => delete k m) b ks !! k = if bool_decide (k ∈ ks) then None else b !! k.
Proof.
  revert b. induction ks as [| j ks IH]; intros b; cbn [foldl].
  - rewrite bool_decide_eq_false_2; [done |]. apply not_elem_of_nil.
  - rewrite IH. destruct (decide (k = j)) as [-> | Hne].
    + rewrite (bool_decide_eq_true_2 (j ∈ j :: ks)) by constructor. rewrite lookup_delete_eq. by case_bool_decide.
    + rewrite lookup_delete_ne by done. rewrite (bool_decide_ext (k ∈ j :: ks) (k ∈ ks)); [done |]. rewrite elem_of_cons. naive_solver.
Qed.

(** [delete_where] removes exactly the entries that satisfy the test. *)
Lemma lookup_delete_where {A} (p : gostring -> A -> bool) (b : gmap gostring A) k :
  delete_where p b !! k = match b !! k with Some v => if p k v then None else Some v | None => None end.
Proof.
  unfold delete_where. rewrite lookup_foldl_delete.
  assert (Hin : forall v, b !! k = Some v -> (k ∈ map fst (List.filter (fun '(k, v) => p k v) (cursor b)) <-> p k v = true)).
  { intros v Hv. rewrite list_elem_of_In, in_map_iff. split.
    - intros ([j w] & E & Hw%filter_In). simpl in E. subst j. destruct Hw as [Hw Hp].
      apply list_elem_of_In, elem_of_cursor in Hw. congruence.
    - intros Hp. exists (k, v). split; [done |]. apply filter_In. split; [| done]. by apply list_elem_of_In, elem_of_cursor. }
  destruct (b !! k) as [v |] eqn:E.
  - specialize (Hin v eq_refl). case_bool_decide as H; rewrite Hin in H; [by rewrite H |]. by destruct (p k v).
  - by case_bool_decide.
Qed.

Lemma delete_where_sub {A} (p : gostring -> A -> bool) (b : gmap gostring A) : delete_where p b ⊆ b.
Proof.
  apply map_subseteq_spec. intros k v. rewrite lookup_delete_where. destruct (b !! k); [| done]. by destruct (p k a).
Qed.

Section Keys.
Context {U : UnicodeTables}.

Definition ascii_keys {A} (b : gmap gostring A) : Prop := forall k, is_Some (b !! k) -> isASCII k = true.

(** No two keys are equal up to letter case. *)
Definition fold_unique {A} (b : gmap gostring A) : Prop :=
  forall k1 k2, is_Some (b !! k1) -> is_Some (b !! k2) -> lowered k1 = lowered k2 -> k1 = k2.

Lemma hasKeyFold_iff {A} (b : gmap gostring A) key : ascii_keys b -> isASCII key = true ->
  hasKeyFold b key = true <-> exists k, is_Some (b !! k) /\ lowered k = lowered key.
Proof.
  intros Hb Hk. unfold hasKeyFold. destruct (b !! key) as [v |] eqn:E.
  - split; [| done]. intros _. exists key. by rewrite E.
  - rewrite existsb_true_iff. split.
    + intros ([k v] & Hin%elem_of_cursor & Hf). exists k. split; [by eexists |]. apply EqualFold_ascii in Hf; [done | | done]. by apply Hb; eexists.
    + intros (k & [v Hv] & Hl). exists (k, v). split; [by apply elem_of_cursor |]. apply EqualFold_ascii; [by apply Hb; eexists | done | done].
Qed.

Lemma hasKeyFold_false {A} (b : gmap gostring A) key : ascii_keys b -> isASCII key = true ->
  hasKeyFold b key = false -> forall k, is_Some (b !! k) -> lowered k <> lowered key.
Proof.
  intros Hb Hk Hf k Hs Hl. assert (hasKeyFold b key = true); [| congruence]. apply hasKeyFold_iff; [done | done |]. by exists k.
Qed.

Lemma fold_unique_sub {A} (b b' : gmap gostring A) : b' ⊆ b -> fold_unique b -> fold_unique b'.
Proof.
  intros Hs Hu k1 k2 [v1 H1] [v2 H2]. apply Hu; eexists; eapply lookup_weaken; eassumption.
Qed.

Lemma fold_unique_new {A} (b : gmap gostring A) key v :
  (forall k, is_Some (b !! k) -> lowered k <> lowered key) -> fold_unique b -> fold_unique (<[key := v]> b).
Proof.
  intros Hn Hu k1 k2 H1 H2 E. apply lookup_insert_is_Some in H1, H2.
  destruct H1 as [<- | [N1 H1]], H2 as [<- | [N2 H2]]; [done | | |].
  - exfalso. by apply (Hn k2).
  - exfalso. by apply (Hn k1).
  - by apply Hu.
Qed.

Lemma fold_unique_same {A} (b : gmap gostring A) key v : is_Some (b !! key) -> fold_unique b -> fold_unique (<[key := v]> b).
Proof.
  intros Hs Hu k1 k2 H1 H2. apply lookup_insert_is_Some in H1, H2.
  apply Hu; [destruct H1 as [<- | [_ ?]] | destruct H2 as [<- | [_ ?]]]; assumption.
Qed.

Lemma get_fold_unique {A} (b : gmap gostring A) k k' v : ascii_keys b -> fold_unique b -> isASCII k = true ->
  b !! k' = Some v -> lowered k' = lowered k -> get_fold b k = Some v.
Proof.
  intros Hb Hu Hk Hv E. unfold get_fold. destruct (b !! k) as [w |] eqn:Ek.
  - assert (k' = k) as -> by (apply Hu; [by eexists | by eexists | done]). congruence.
  - destruct (List.find _ _) as [[j w] |] eqn:Ef.
    + apply find_some in Ef as [Hin Hf]. apply list_elem_of_In, elem_of_cursor in Hin.
      apply EqualFold_ascii in Hf; [| by apply Hb; eexists | done].
      assert (j = k') as -> by (apply Hu; [by eexists | by eexists | congruence]). cbn. congruence.
    + exfalso. pose proof (find_none _ _ Ef (k', v)) as Hn. cbn beta iota in Hn.
      assert (EqualFold k' k = true) as Ht by (apply EqualFold_ascii; [by apply Hb; eexists | done | done]).
      rewrite Ht in Hn. discriminate Hn. by apply list_elem_of_In, elem_of_cursor.
Qed.
End Keys.

(** ** Keys of accounts *)
Lemma validName_spec s f : validName s f = true <-> s <> [] /\ forall c, c ∈ s -> c ∉ f.
Proof.
  unfold validName, ContainsAny. rewrite andb_true_iff, !negb_true_iff, bool_decide_eq_false. apply and_iff_compat_l.
  split.
  - intros H c Hc Hf. assert (existsb (in_set f) s = true); [| congruence]. apply existsb_true_iff. exists c. split; [done |].
    unfold in_set. apply existsb_true_iff. exists c. split; [done |]. by apply Ascii.eqb_eq.
  - intros H. apply not_true_iff_false. rewrite existsb_true_iff. intros (c & Hc & Hf). unfold in_set in Hf.
    apply existsb_true_iff in Hf as (d & Hd & ->%Ascii.eqb_eq). by apply (H c).
Qed.

(** A text with one separator splits at it in one way. *)
Lemma split_unique (c : ascii) (a b a' b' : gostring) : c ∉ a -> c ∉ b -> a ++ c :: b = a' ++ c :: b' -> a = a' /\ b = b'.
Proof.
  revert a'. induction a as [| x a IH]; intros [| y a'] Ha Hb E; simplify_eq/=.
  - done.
  - exfalso. apply Hb. apply elem_of_app. right. constructor.
  - exfalso. apply Ha. constructor.
  - destruct (IH a') as [-> ->]; [set_solver | done | done |]. done.
Qed.

Lemma AccountKey_inj d l d' l' : validAccountNames d l = true -> AccountKey d l = AccountKey d' l' -> d = d' /\ l = l'.
Proof.
  unfold validAccountNames. rewrite andb_true_iff, !validName_spec. intros [[_ Hd] [_ Hl]]. unfold AccountKey.
  apply split_unique; [intros H; by apply (Hd _ H); repeat constructor | intros H; by apply (Hl _ H); repeat constructor].
Qed.

(** ** Operations *)
Inductive Op :=
  | OCreateAccount (now : Z) (a : AccountData)
  | OCreateAccountInDomain (now : Z) (a : AccountData)
  | OUpdateAccount (now : Z) (a : AccountData)
  | OMutateAccount (now : Z) (domain localPart : gostring) (keepAdmin : bool) (fn : AccountData -> result DbErr AccountData)
  | ORecordLogin (stamp_now : Z) (domain localPart : gostring) (now minInterval : Z)
  | OIncrementQuota (now : Z) (domain localPart : gostring) (delta : Z)
  | OReconcileQuota (now : Z) (domain localPart : gostring) (used : Z)
  | OConsumeTOTPStep (now : Z) (domain localPart : gostring) (expectedLast newStep : Z)
  | OStoreRevokedToken (nowNs now : Z) (tokenHash : gostring) (expiry : Z)
  | OIsTokenRevoked (now : Z) (tokenHash : gostring)
  | OCleanupRevokedTokens (now : Z)
  | ODeleteAccount (domain localPart : gostring)
  | ODeleteAccountKeepAdmin (domain localPart : gostring)
  | OCreateDomain (now : Z) (x : DomainData)
  | OUpdateDomain (now : Z) (x : DomainData)
  | ODeleteDomain (name : gostring) (keepAdmin : bool)
  | OCreateAlias (now : Z) (x : AliasData)
  | OUpdateAlias (x : AliasData)
  | ODeleteAlias (domain localPart : gostring).

(** The names an operation brings are ASCII. *)
Definition plain (o : Op) : bool :=
  match o with
  | OCreateAccount _ a | OCreateAccountInDomain _ a | OUpdateAccount _ a => isASCII (Domain a) && isASCII (LocalPart a)
  | OCreateDomain _ x | OUpdateDomain _ x => isASCII (Name x)
  | ODeleteDomain name _ => isASCII name
  | OCreateAlias _ x | OUpdateAlias x => isASCII (AliasDomain x) && isASCII (Alias x) && isASCII (Target x)
  | _ => true
  end.

Section Invariant.
Context {U : UnicodeTables}.

Definition exec (o : Op) (d : DB) : DB :=
  match o with
  | OCreateAccount now a => snd (CreateAccount now a d)
  | OCreateAccountInDomain now a => snd (CreateAccountInDomain now a d)
  | OUpdateAccount now a => snd (UpdateAccount now a d)
  | OMutateAccount now dom loc keep fn => snd (mutateAccount now dom loc keep fn d)
  | ORecordLogin sn dom loc now mi => snd (RecordLogin sn dom loc now mi d)
  | OIncrementQuota now dom loc delta => snd (IncrementQuota now dom loc delta d)
  | OReconcileQuota now dom loc used => snd (ReconcileQuota now dom loc used d)
  | OConsumeTOTPStep now dom loc e s => snd (ConsumeTOTPStep now dom loc e s d)
  | OStoreRevokedToken n now h e => StoreRevokedToken n now h e d
  | OIsTokenRevoked now h => snd (IsTokenRevoked now h d)
  | OCleanupRevokedTokens now => CleanupRevokedTokens now d
  | ODeleteAccount dom loc => DeleteAccount dom loc d
  | ODeleteAccountKeepAdmin dom loc => snd (DeleteAccountKeepAdmin dom loc d)
  | OCreateDomain now x => snd (CreateDomain now x d)
  | OUpdateDomain now x => snd (UpdateDomain now x d)
  | ODeleteDomain name keep => snd (deleteDomain name keep d)
  | OCreateAlias now x => snd (CreateAlias now x d)
  | OUpdateAlias x => snd (UpdateAlias x d)
  | ODeleteAlias dom loc => DeleteAlias dom loc d
  end.

Definition run (ops : list Op) (d : DB) : DB := foldl (fun d o => exec o d) d ops.

(** ** The graph of the aliases *)

(** Node [n] (a key in lower case) forwards to node [m]. *)
Definition forwards (b : gmap gostring (Row AliasData)) (n m : gostring) : Prop :=
  exists k a k', b !! k = Some (Stored a) /\ lowered k = n /\ AliasActive a = true /\
  address_key (TrimSpace (Target a)) = Some k' /\ lowered k' = m.

Definition acyclic (b : gmap gostring (Row AliasData)) : Prop := forall n, ~ tc (forwards b) n n.

Lemma forwards_sub b b' n m : b' ⊆ b -> forwards b' n m -> forwards b n m.
Proof. intros Hs (k & a & k' & Hk & H). exists k, a, k'. split; [| done]. by eapply lookup_weaken. Qed.

Lemma acyclic_sub b b' : b' ⊆ b -> acyclic b -> acyclic b'.
Proof.
  intros Hs Ha n Hn. apply (Ha n). revert Hn. generalize n at 2 4. intros m Hn. induction Hn as [x y H | x y z H _ IH].
  - apply tc_once. by eapply forwards_sub.
  - eapply tc_l; [by eapply forwards_sub | done].
Qed.

Definition target_ascii (r : Row AliasData) : Prop := match r with Stored a => isASCII (Target a) = true | Corrupt => True end.

Lemma address_key_ascii cur k : isASCII cur = true -> address_key cur = Some k -> isASCII k = true.
Proof.
  intros Hc. unfold address_key. destruct (LastIndexByte cur "@") as [[| n] |]; [done | | done]. intros [= <-].
  rewrite !isASCII_app. rewrite ToLower_ascii by (by apply isASCII_take). rewrite isASCII_drop by done.
  cbn [andb]. refine (eq_trans (isASCII_app [_] _) _). rewrite lowered_ascii; [done |]. by apply isASCII_take.
Qed.

(** A walk that ends without meeting [s] leaves it out of reach. *)
Lemma aliasCycle_sound depth b s cur k :
  ascii_keys b -> fold_unique b -> map_Forall (fun _ => target_ascii) b -> isASCII cur = true ->
  aliasCycle depth b s cur = false -> address_key cur = Some k -> ~ rtc (forwards b) (lowered k) s.
Proof.
  intros Hb Hu Ht. revert cur k. induction depth as [| depth IH]; intros cur k Hc; [done |]. cbn [aliasCycle].
  intros Hw Hk. rewrite Hk in Hw. pose proof (address_key_ascii _ _ Hc Hk) as Hka. rewrite ToLower_ascii in Hw by done.
  case_bool_decide as Es; [done |]. intros Hr. inversion Hr as [| ? m ? Hf Hrest]; [congruence |].
  subst. destruct Hf as (j & a & k' & Hj & Ej & Ha & Hk' & <-).
  rewrite (get_fold_unique b k j (Stored a)) in Hw by done. rewrite Ha in Hw.
  refine (IH _ _ _ Hw Hk' Hrest). apply TrimSpace_ascii. exact (Ht _ _ Hj).
Qed.

Section NewEdge.
Context (b : gmap gostring (Row AliasData)) (key : gostring) (x : AliasData).
Hypothesis Hfresh : forall k, is_Some (b !! k) -> lowered k = lowered key -> k = key.
Let b' := <[key := Stored x]> b.

Lemma forwards_other n m : n <> lowered key -> forwards b' n m -> forwards b n m.
Proof.
  intros Hn (k & a & k' & Hk & E & H). exists k, a, k'. split; [| done]. subst b'. rewrite lookup_insert_ne in Hk; [done |].
  intros <-. by subst n.
Qed.

Lemma forwards_own m : forwards b' (lowered key) m -> AliasActive x = true /\
  exists k, address_key (TrimSpace (Target x)) = Some k /\ lowered k = m.
Proof.
  intros (k & a & k' & Hk & E & Ha & Hk' & Em). destruct (decide (k = key)) as [-> | Hne].
  - subst b'. rewrite lookup_insert_eq in Hk. injection Hk as ->. split; [done |]. by exists k'.
  - subst b'. rewrite lookup_insert_ne in Hk by done. exfalso. apply Hne, Hfresh; [by eexists | done].
Qed.

Lemma reach_other n : rtc (forwards b') n (lowered key) -> rtc (forwards b) n (lowered key).
Proof.
  intros H. remember (lowered key) as s eqn:Es. induction H as [n | n m s H _ IH]; [apply rtc_refl |]. specialize (IH Es). subst s.
  destruct (decide (n = lowered key)) as [-> | Hn]; [apply rtc_refl |]. eapply rtc_l; [by apply forwards_other | by apply IH].
Qed.

Lemma path_splits n m : tc (forwards b') n m -> tc (forwards b) n m \/
  (rtc (forwards b') n (lowered key) /\ exists z, forwards b' (lowered key) z /\ rtc (forwards b') z m).
Proof.
  induction 1 as [n m H | n y m H Ht IH].
  - destruct (decide (n = lowered key)) as [-> | Hn]; [right; split; [apply rtc_refl |]; exists m; split; [done | apply rtc_refl] |].
    left. by apply tc_once, forwards_other.
  - destruct (decide (n = lowered key)) as [-> | Hn]; [right; split; [apply rtc_refl |]; exists y; split; [done | by apply tc_rtc] |].
    destruct IH as [IH | (IH & Hz)]; [left; eapply tc_l; [by apply forwards_other | done] |].
    right. split; [by eapply rtc_l | done].
Qed.

(** An edge whose target does not lead back keeps the graph acyclic. *)
Lemma acyclic_insert : acyclic b ->
  (forall k, address_key (TrimSpace (Target x)) = Some k -> ~ rtc (forwards b) (lowered k) (lowered key)) -> acyclic b'.
Proof.
  intros Ha Hx n Hn. apply path_splits in Hn as [Hn | (Hs & z & Hz & Hzn)]; [by apply (Ha n) |].
  apply forwards_own in Hz as (_ & k & Hk & <-). apply (Hx k Hk), reach_other. by etrans.
Qed.
End NewEdge.
End Invariant.

(** ** The invariant *)
Lemma split_first (c : ascii) (a b a' b' : gostring) : c ∉ a -> c ∉ a' -> a ++ c :: b = a' ++ c :: b' -> a = a' /\ b = b'.
Proof.
  revert a'. induction a as [| x a IH]; intros [| y a'] Ha Ha' E; simplify_eq/=; [done | set_solver.. |].
  destruct (IH a') as [-> ->]; [set_solver | set_solver | done |]. done.
Qed.

Lemma lowered_key (sep : ascii) (d l : gostring) : ascii_lower sep = sep -> lowered (d ++ sep :: l) = lowered d ++ sep :: lowered l.
Proof. intros H. rewrite map_app. cbn [map]. by rewrite H. Qed.

Lemma colon_lowered d : (":"%char ∈ lowered d) <-> ":"%char ∈ d.
Proof. apply lowered_sep; apply (lower_only ":"); done. Qed.
Lemma slash_lowered d : ("/"%char ∈ lowered d) <-> "/"%char ∈ d.
Proof. apply lowered_sep; apply (lower_only "/"); done. Qed.

Lemma valid_no_sep d : validName d "/:" = true -> (":"%char ∉ d) /\ ("/"%char ∉ d).
Proof. rewrite validName_spec. intros [_ H]. split; intros Hc; apply (H _ Hc); repeat constructor. Qed.

Definition acct_ok (k : gostring) (r : Row AccountData) : Prop :=
  exists dom loc, k = AccountKey dom loc /\ validAccountNames dom loc = true /\ isASCII k = true /\
    match r with Stored a => Domain a = dom /\ LocalPart a = loc | Corrupt => True end.

Definition dom_ok (k : gostring) (r : Row DomainData) : Prop :=
  validName k "/:" = true /\ isASCII k = true /\ match r with Stored x => Name x = k | Corrupt => True end.

Definition alias_ok (k : gostring) (r : Row AliasData) : Prop :=
  exists dom loc, k = dom ++ ":" ++ lowered loc /\ validName dom "/:" = true /\ validName loc "/" = true /\
    isASCII k = true /\ target_ascii r.

Definition hosted (d : DB) (dom : gostring) : Prop := exists k, is_Some (domains d !! k) /\ lowered k = lowered dom.

Section Preservation.
Context {U : UnicodeTables}.

Record Consistent (d : DB) : Prop := {
  acct_rows : map_Forall acct_ok (accounts d);
  dom_rows : map_Forall dom_ok (domains d);
  alias_rows : map_Forall alias_ok (aliases d);
  acct_unique : fold_unique (accounts d);
  dom_unique : fold_unique (domains d);
  alias_unique : fold_unique (aliases d);
  no_shadow : forall dom loc k, is_Some (accounts d !! AccountKey dom loc) -> is_Some (aliases d !! k) ->
  map ascii_lower (dom ++ ":" ++ loc) <> lowered k;
  alias_hosted : forall dom loc, is_Some (aliases d !! (dom ++ ":" ++ loc)) -> ":"%char ∉ dom -> hosted d dom;
  no_cycle : acyclic (aliases d)
}.

Lemma acct_ascii d : Consistent d -> ascii_keys (accounts d).
Proof. intros C k [r Hr]. by destruct (acct_rows _ C _ _ Hr) as (? & ? & -> & _ & ? & _). Qed.
Lemma dom_ascii d : Consistent d -> ascii_keys (domains d).
Proof. intros C k [r Hr]. by destruct (dom_rows _ C _ _ Hr) as (_ & ? & _). Qed.
Lemma alias_ascii d : Consistent d -> ascii_keys (aliases d).
Proof. intros C k [r Hr]. by destruct (alias_rows _ C _ _ Hr) as (? & ? & -> & _ & _ & ? & _). Qed.
Lemma alias_targets d : Consistent d -> map_Forall (fun _ => target_ascii) (aliases d).
Proof. intros C k r Hr. by destruct (alias_rows _ C _ _ Hr) as (? & ? & -> & _ & _ & _ & ?). Qed.

(** Taking rows away, while the domains of the aliases that are left stay. *)
Lemma cons_sub d d' : Consistent d -> accounts d' ⊆ accounts d -> domains d' ⊆ domains d -> aliases d' ⊆ aliases d ->
  (forall dom loc, is_Some (aliases d' !! (dom ++ ":" ++ loc)) -> ":"%char ∉ dom -> hosted d' dom) -> Consistent d'.
Proof.
  intros C Sa Sd Sl Hh.
  assert (up : forall A (m m' : gmap gostring A) k, m' ⊆ m -> is_Some (m' !! k) -> is_Some (m !! k)).
  { intros A m m' k S [v Hv]. exists v. by eapply lookup_weaken. }
  split.
  - intros k r Hr. apply (acct_rows _ C). by eapply lookup_weaken.
  - intros k r Hr. apply (dom_rows _ C). by eapply lookup_weaken.
  - intros k r Hr. apply (alias_rows _ C). by eapply lookup_weaken.
  - eapply fold_unique_sub; [exact Sa | apply C].
  - eapply fold_unique_sub; [exact Sd | apply C].
  - eapply fold_unique_sub; [exact Sl | apply C].
  - intros dom loc k H1 H2. apply (no_shadow _ C); [exact (up _ _ _ _ Sa H1) | exact (up _ _ _ _ Sl H2)].
  - exact Hh.
  - eapply acyclic_sub; [exact Sl | apply C].
Qed.

Lemma cons_less d d' : Consistent d -> accounts d' ⊆ accounts d -> domains d' = domains d -> aliases d' ⊆ aliases d -> Consistent d'.
Proof.
  intros C Sa Sd Sl. eapply cons_sub; [exact C | exact Sa | by rewrite Sd | exact Sl |].
  intros dom loc [v Hv] Hc. destruct (alias_hosted _ C dom loc) as (k & Hk & E); [exists v; by eapply lookup_weaken | done |].
  exists k. by rewrite Sd.
Qed.

(** A row of an account is replaced. *)
Lemma cons_account_same d key r r' : Consistent d -> accounts d !! key = Some r -> acct_ok key r' ->
  Consistent (set_accounts <[key := r']> d).
Proof.
  intros C Hr Hok. split; try apply C; cbn [accounts aliases domains set_accounts].
  - apply map_Forall_insert_2; [done | apply C].
  - apply fold_unique_same; [by eexists | apply C].
  - intros dom loc k H. apply (no_shadow _ C). apply lookup_insert_is_Some in H as [H | [_ H]]; [| done].
    rewrite <- H. by eexists.
Qed.

Lemma cons_account_new d dom loc a : Consistent d -> validAccountNames dom loc = true -> isASCII dom = true -> isASCII loc = true ->
  Domain a = dom -> LocalPart a = loc ->
  hasKeyFold (accounts d) (AccountKey dom loc) || accountShadowsAlias d dom loc = false ->
  Consistent (set_accounts <[AccountKey dom loc := Stored (json_account a)]> d).
Proof.
  intros C Hv Hd Hl Ed El [H1 H2]%orb_false_iff. unfold accountShadowsAlias in H2.
  assert (Hk : forall c, is_ascii c = true -> isASCII (dom ++ c :: loc) = true).
  { intros c Hc. rewrite isASCII_app. cbn [isASCII forallb]. unfold isASCII in *. by rewrite Hd, Hc, Hl. }
  split; try apply C; cbn [accounts aliases domains set_accounts].
  - apply map_Forall_insert_2; [| apply C]. exists dom, loc. split_and!; [done | done | by apply Hk | |];
      cbn [json_account Domain LocalPart]; unfold json_string; rewrite reencode_ascii by congruence; done.
  - apply fold_unique_new; [| apply C]. apply hasKeyFold_false; [by apply acct_ascii | by apply Hk | done].
  - intros dom' loc' k H Ha. apply lookup_insert_is_Some in H as [H | [_ H]]; [| by apply (no_shadow _ C)].
    apply AccountKey_inj in H as [<- <-]; [| done]. intros E. symmetry in E. revert E.
    apply (hasKeyFold_false (aliases d) _ (alias_ascii _ C)); [by apply Hk | done | done].
Qed.

(** A row rewritten with the identity it has. *)
Lemma cons_touch d key old a : Consistent d -> accounts d !! key = Some (Stored old) ->
  Domain a = Domain old -> LocalPart a = LocalPart old -> Consistent (set_accounts <[key := Stored (json_account a)]> d).
Proof.
  intros C Hr Ed El. eapply cons_account_same; [done | exact Hr |]. destruct (acct_rows _ C _ _ Hr) as (dom & loc & -> & Hv & Ha & Hd & Hl).
  exists dom, loc. split_and!; [done | done | done | |]; cbn [json_account Domain LocalPart]; unfold json_string;
    unfold AccountKey in Ha; rewrite !isASCII_app in Ha; breflect; rewrite reencode_ascii; congruence.
Qed.

Lemma cons_domain d name x : Consistent d -> validName name "/:" = true -> isASCII name = true -> Name x = name ->
  (is_Some (domains d !! name) \/ hasKeyFold (domains d) name = false) -> Consistent (set_domains <[name := Stored (json_domain x)]> d).
Proof.
  intros C Hv Ha En Hs. split; try apply C; cbn [accounts aliases domains set_domains].
  - apply map_Forall_insert_2; [| apply C]. split_and!; [done | done |]. cbn [json_domain Name]. unfold json_string. rewrite reencode_ascii; congruence.
  - destruct Hs as [Hs | Hs]; [apply fold_unique_same; [done | apply C] |]. apply fold_unique_new; [| apply C].
    apply hasKeyFold_false; [by apply dom_ascii | done | done].
  - intros dom loc H Hc. destruct (alias_hosted _ C dom loc H Hc) as (k & Hk & E). exists k. split; [| done].
    apply lookup_insert_is_Some. destruct (decide (name = k)); auto.
Qed.

Lemma cons_alias d dom loc x : Consistent d -> validName dom "/:" = true -> validName loc "/" = true ->
  isASCII dom = true -> isASCII loc = true -> isASCII (Target x) = true -> hosted d dom ->
  (is_Some (aliases d !! AliasKey dom loc) \/
    hasKeyFold (aliases d) (AliasKey dom loc) = false /\ hasKeyFold (accounts d) (AccountKey dom loc) = false) ->
  aliasCycleTx (aliases d) (AliasKey dom loc) (Target x) = false ->
  Consistent (set_aliases <[AliasKey dom loc := Stored (json_alias x)]> d).
Proof.
  intros C Hv Hvl Hd Hl Ht Hh Hs Hw. assert (EK : AliasKey dom loc = dom ++ ":" ++ lowered loc) by (unfold AliasKey; by rewrite ToLower_ascii).
  assert (Hka : isASCII (AliasKey dom loc) = true).
  { rewrite EK, !isASCII_app, Hd, lowered_ascii; done. }
  assert (Hte : Target (json_alias x) = Target x) by (cbn [json_alias Target]; unfold json_string; by rewrite reencode_ascii).
  assert (Huniq : forall k, is_Some (aliases d !! k) -> lowered k = lowered (AliasKey dom loc) -> k = AliasKey dom loc).
  { intros k Hk E. destruct Hs as [Hs | [Hs _]]; [by apply (alias_unique _ C)|].
    exfalso. by apply (hasKeyFold_false _ _ (alias_ascii _ C) Hka Hs k Hk). }
  split; try apply C; cbn [accounts aliases domains set_aliases].
  - apply map_Forall_insert_2; [| apply C]. exists dom, loc. split_and!; [done | done | done | done |]. unfold target_ascii. by rewrite Hte.
  - destruct Hs as [Hs | [Hs _]]; [apply fold_unique_same; [done | apply C] |]. apply fold_unique_new; [| apply C].
    apply hasKeyFold_false; [by apply alias_ascii | done | done].
  - intros dom' loc' k Ha H. apply lookup_insert_is_Some in H as [<- | [_ H]]; [| by apply (no_shadow _ C)].
    destruct Hs as [Hs | [_ Hs]]; [by apply (no_shadow _ C) |]. intros E. destruct Ha as [r Hr].
    destruct (acct_rows _ C _ _ Hr) as (dm & lc & Ek & Hvn & _ & _). symmetry in Ek. apply AccountKey_inj in Ek as [-> ->]; [| done].
    unfold validAccountNames in Hvn. apply andb_true_iff in Hvn as [Hvn _]. rewrite EK in E.
    change (lowered (dom' ++ ":"%char :: loc') = lowered (dom ++ ":"%char :: lowered loc)) in E. rewrite !(lowered_key ":") in E by done. rewrite lowered_idem in E.
    apply split_first in E as [E1 E2]; [| rewrite colon_lowered; by apply valid_no_sep ..].
    assert (Hak : isASCII (AccountKey dom loc) = true) by (unfold AccountKey; rewrite !isASCII_app, Hd, Hl; done).
    refine (hasKeyFold_false _ _ (acct_ascii _ C) Hak Hs _ (ex_intro _ _ Hr) _). unfold AccountKey.
    change (lowered (dom' ++ "/"%char :: loc') = lowered (dom ++ "/"%char :: loc)). rewrite !lowered_key by done. congruence.
  - intros dom' loc' H Hc. apply lookup_insert_is_Some in H as [H | [_ H]]; [| by apply (alias_hosted _ C dom' loc')].
    rewrite EK in H. apply split_first in H as [<- _]; [done | | done]. by apply valid_no_sep.
  - apply acyclic_insert; [done | apply C |]. rewrite Hte. intros k Hk. unfold aliasCycleTx in Hw. rewrite (ToLower_ascii (AliasKey _ _)) in Hw by done.
    exact (aliasCycle_sound 32 _ _ _ _ (alias_ascii _ C) (alias_unique _ C) (alias_targets _ C) (TrimSpace_ascii _ Ht) Hw Hk).
Qed.

(** [deletePrefixFold] takes exactly the keys that are, or begin with, the name up
    to letter case. *)
Lemma lookup_deletePrefixFold {A} (name : gostring) (exact : bool) (b : gmap gostring A) k : isASCII name = true -> isASCII k = true ->
  forall v, deletePrefixFold name exact b !! k = Some v <->
  b !! k = Some v /\ ~ (if exact then lowered k = lowered name else exists r, lowered k = lowered name ++ r).
Proof.
  intros Hn Hk v. unfold deletePrefixFold. rewrite lookup_delete_where. destruct (b !! k) as [w |]; [| naive_solver].
  assert (Hp : (if (length k <? length name)%nat || negb (EqualFold (take (length name) k) name) then false
    else negb (exact && negb (length k =? length name)%nat)) = true <->
    if exact then lowered k = lowered name else exists r, lowered k = lowered name ++ r).
  { assert (Hf : EqualFold (take (length name) k) name = true <-> take (length name) (lowered k) = lowered name).
    { rewrite EqualFold_ascii by (done || by apply isASCII_take). by rewrite firstn_map. }
    destruct (Nat.ltb_spec (length k) (length name)) as [Hl | Hl]; cbn [orb].
    - split; [done |]. destruct exact; [intros E | intros [r E]]; apply (f_equal length) in E; rewrite ?length_app, !length_map in E; lia.
    - destruct (EqualFold (take (length name) k) name); cbn [negb].
      + destruct Hf as [Hf _]. specialize (Hf eq_refl). destruct exact; cbn [andb negb].
        * rewrite negb_involutive, Nat.eqb_eq. split.
          -- intros El. rewrite <- Hf. rewrite take_ge; [done |]. rewrite length_map. lia.
          -- intros E. apply (f_equal length) in E. by rewrite !length_map in E.
        * split; [| done]. intros _. exists (drop (length name) (lowered k)). rewrite <- Hf at 1. by rewrite take_drop.
      + split; [done |]. intros H. apply Hf. destruct exact; [rewrite H | destruct H as [r ->]];
          rewrite <- (length_map ascii_lower name); [by rewrite take_ge by lia | by rewrite take_app_length]. }
  destruct (if _ || _ then _ else _) eqn:E.
  - split; [done |]. intros [_ H]. exfalso. by apply H, Hp.
  - split; [| by intros [-> _]]. intros ->. split; [done |]. rewrite <- Hp. done.
Qed.

Lemma cons_deleteDomain d name keep : Consistent d -> isASCII name = true -> Consistent (snd (deleteDomain name keep d)).
Proof.
  intros C Hn. unfold deleteDomain. cbv zeta. destruct (keep && _ && _); [done |]. cbn [snd].
  assert (Hnc : isASCII (name ++ ":") = true) by (by rewrite isASCII_app, Hn).
  eapply cons_sub; [exact C | apply delete_where_sub.. | |].
  - cbn [aliases set_aliases]. etrans; apply delete_where_sub.
  - intros dom loc [v Hv] Hc. cbn [aliases set_aliases set_accounts set_domains] in Hv.
    pose proof (lookup_weaken _ _ _ _ Hv (delete_where_sub _ _)) as Hv1.
    assert (Hka : isASCII (dom ++ ":" ++ loc) = true).
    { apply (alias_ascii _ C). exists v. exact (lookup_weaken _ _ _ _ Hv1 (delete_where_sub _ _)). }
    apply lookup_deletePrefixFold in Hv1 as [Hv1 Hnot]; [| done | done].
    destruct (alias_hosted _ C dom loc) as (k & [w Hk] & E); [by eexists | done |].
    exists k. split; [| done]. exists w. cbn [domains set_aliases set_accounts set_domains].
    apply lookup_deletePrefixFold; [done | by apply (dom_ascii _ C); eexists |]. split; [done |]. intros En. apply Hnot.
    exists (lowered loc). rewrite !map_app. cbn. by rewrite <- En, E, <- app_assoc.
Qed.

Lemma keep_counters_ident stored a : Domain (keep_counters stored a) = Domain a /\ LocalPart (keep_counters stored a) = LocalPart a.
Proof. unfold keep_counters. by repeat split_if. Qed.

Lemma settle_ident now old a : Domain (settle_account now old a) = Domain old /\ LocalPart (settle_account now old a) = LocalPart old.
Proof. unfold settle_account. by repeat split_if. Qed.

Lemma Get_Ok {A} (b : gmap gostring (Row A)) k a : Get b k = Ok a -> b !! k = Some (Stored a).
Proof. unfold Get. destruct (b !! k) as [[] |]; naive_solver. Qed.

Lemma cons_mutate d now dom loc keep fn : Consistent d -> Consistent (snd (mutateAccount now dom loc keep fn d)).
Proof.
  intros C. unfold mutateAccount. destruct (accounts d !! _) as [[old |] |] eqn:E; [| done..].
  destruct (fn old) as [acct | e]; [| done]. split_if; [done |]. cbn [snd].
  eapply cons_touch; [done | exact E | apply settle_ident ..].
Qed.

Lemma cons_update d now a : Consistent d -> Consistent (snd (UpdateAccount now a d)).
Proof.
  intros C. unfold UpdateAccount. cbn [Domain LocalPart set_updated set_times].
  destruct (accounts d !! _) as [row |] eqn:E; [| done]. cbn [snd].
  eapply cons_account_same; [done | exact E |]. destruct (acct_rows _ C _ _ E) as (dom & loc & Ek & Hv & Ha & Hi).
  symmetry in Ek. apply AccountKey_inj in Ek as [-> ->]; [| done]. exists (Domain a), (LocalPart a).
  assert (Hi' : forall x, x = match row with Stored stored => keep_counters stored (set_updated now a) | Corrupt => set_updated now a end ->
    Domain x = Domain a /\ LocalPart x = LocalPart a).
  { intros x ->. destruct row; [apply (keep_counters_ident a0 (set_updated now a)) | done]. }
  destruct (Hi' _ eq_refl) as [E1 E2]. unfold AccountKey in Ha. rewrite !isASCII_app in Ha. breflect.
  split_and!; [done | done | unfold AccountKey; rewrite !isASCII_app; by repeat (apply andb_true_iff; split) | |];
    cbn [json_account Domain LocalPart]; unfold json_string; rewrite ?E1, ?E2; by apply reencode_ascii.
Qed.

Lemma cons_login d sn dom loc now mi : Consistent d -> Consistent (snd (RecordLogin sn dom loc now mi d)).
Proof.
  intros C. unfold RecordLogin. cbv zeta. split_if; [done |]. unfold MutateAccount.
  pose proof (cons_mutate d sn dom loc false (fun a => if time_sub now (LastLoginAt a) <? mi then Err ErrRecent else Ok (set_login now a)) C) as H.
  destruct (mutateAccount _ _ _ _ _ _) as [[r | e] d']; [done |]. by destruct e.
Qed.

Lemma cons_create_alias d now x : Consistent d -> plain (OCreateAlias now x) = true -> Consistent (snd (CreateAlias now x d)).
Proof.
  intros C Hp. cbn [plain] in Hp. unfold CreateAlias. handler; cbn [snd]; try done.
  apply (cons_alias d _ _ (stamp_alias now x)); try done; [| by right].
  apply (hasKeyFold_iff (domains d)); [by apply dom_ascii | done | done].
Qed.

Lemma cons_update_alias d x : Consistent d -> plain (OUpdateAlias x) = true -> Consistent (snd (UpdateAlias x d)).
Proof.
  intros C Hp. cbn [plain] in Hp. unfold UpdateAlias. split_if; [done |]. destruct (aliases d !! _) as [row |] eqn:Er; [| done].
  split_if; [done |]. cbn [snd]. destruct (alias_rows _ C _ _ Er) as (dom & loc & Ek & Hv & Hl & Ha & _).
  rewrite Ek in Er, E0 |- *. rewrite Ek, !isASCII_app in Ha. breflect.
  assert (Hla : isASCII loc = true).
  { unfold isASCII in *. rewrite forallb_true_iff in *. intros c Hc. assert (Hl' : ascii_lower c ∈ lowered loc) by (apply list_elem_of_fmap; by exists c).
    match goal with H : forall x, x ∈ map ascii_lower loc -> _ |- _ => specialize (H _ Hl') end.
    unfold is_ascii, ascii_lower in *. split_if; [apply Z.ltb_lt; breflect; lia | done]. }
  assert (EK : dom ++ ":" ++ lowered loc = AliasKey dom loc) by (unfold AliasKey; by rewrite ToLower_ascii). rewrite EK in *.
  apply (cons_alias d dom loc x); try done; [| left; by eexists].
  apply (alias_hosted _ C dom (lowered loc)); [rewrite EK; by eexists | by apply valid_no_sep].
Qed.

(** Every operation keeps the invariant. *)
Lemma exec_consistent o d : Consistent d -> plain o = true -> Consistent (exec o d).
Proof.
  intros C Hp. destruct o; cbn [exec].
  - unfold CreateAccount. split_if; [done |]. cbv zeta. split_if; [done |]. cbn [snd plain] in *.
    apply andb_true_iff in Hp as [? ?]. apply negb_false_iff in E. by apply (cons_account_new d _ _ (stamp now a)).
  - unfold CreateAccountInDomain. split_if; [done |]. cbv zeta. destruct (domains d !! _) as [[x |] |]; [| done..].
    split_if; [done |]. split_if; [done |]. cbn [snd plain] in *.
    apply andb_true_iff in Hp as [? ?]. apply negb_false_iff in E. by apply (cons_account_new d _ _ (stamp now a)).
  - by apply cons_update.
  - by apply cons_mutate.
  - by apply cons_login.
  - unfold IncrementQuota. cbv zeta. destruct (Get _ _) as [a | e] eqn:E; [| done]. apply Get_Ok in E. repeat (split_if; try done);
      cbn [snd]; by eapply cons_touch.
  - unfold ReconcileQuota. cbv zeta. destruct (Get _ _) as [a | e] eqn:E; [| done]. apply Get_Ok in E. by eapply cons_touch.
  - unfold ConsumeTOTPStep. cbv zeta. destruct (Get _ _) as [a | e] eqn:E; [| done]. apply Get_Ok in E. split_if; [done |]. by eapply cons_touch.
  - unfold StoreRevokedToken. cbv zeta. split_if; by eapply cons_less.
  - unfold IsTokenRevoked. destruct (_ !! _); [| done]. split_if; [| done]. by eapply cons_less.
  - by eapply cons_less.
  - eapply cons_less; [done | apply delete_subseteq | done | apply delete_where_sub].
  - unfold DeleteAccountKeepAdmin. destruct (_ !! _); [| done]. split_if; [done |].
    eapply cons_less; [done | apply delete_subseteq | done | apply delete_where_sub].
  - unfold CreateDomain. handler; cbn [snd]; try done. apply (cons_domain d _ (stamp_domain now x)); try done. by right.
  - unfold UpdateDomain. destruct (domains d !! Name x) as [r |] eqn:E; [| done]. cbn [snd].
    apply (cons_domain d _ (touch_domain now x)); try done; [| by left; eexists]. apply (dom_rows _ C _ _ E).
  - by apply cons_deleteDomain.
  - by apply cons_create_alias.
  - by apply cons_update_alias.
  - eapply cons_less; [done | done | done | apply delete_subseteq].
Qed.

Lemma initial_consistent : Consistent initBuckets.
Proof.
  split; cbn [accounts domains aliases initBuckets]; try apply map_Forall_empty; try (intros k1 k2 [v Hv]; by rewrite lookup_empty in Hv).
  - intros dom loc k [v Hv]. by rewrite lookup_empty in Hv.
  - intros n Hn. assert (Hf : exists m, forwards ∅ n m) by (inversion Hn; eauto). destruct Hf as (m & k & a & k' & Hk & _). by rewrite lookup_empty in Hk.
Qed.
End Preservation.

(** ** The last administrator *)
Definition active_admin (r : Row AccountData) : bool :=
  match r with Stored a => IsAdmin a && IsActive a | Corrupt => false end.

Definition has_admin (d : DB) : Prop := exists k r, accounts d !! k = Some r /\ active_admin r = true.

(** The operations that the code guards with "keep an administrator", and those
    that do not touch who is one. *)
Definition admin_safe (o : Op) : bool :=
  match o with
  | OUpdateAccount _ _ | ODeleteAccount _ _ => false
  | OMutateAccount _ _ _ keep _ | ODeleteDomain _ keep => keep
  | _ => true
  end.

Section Admin.
Context {U : UnicodeTables}.

Lemma otherActiveAdmin_spec d skip : otherActiveAdminTx d skip = true <->
  exists k a, accounts d !! k = Some (Stored a) /\ IsAdmin a = true /\ IsActive a = true /\ skip a = false.
Proof.
  unfold otherActiveAdminTx. rewrite existsb_true_iff. split.
  - intros ([k [a |]] & Hin%elem_of_cursor & H); [| done]. exists k, a. breflect. auto.
  - intros (k & a & Hk & H1 & H2 & H3). exists (k, Stored a). split; [by apply elem_of_cursor |]. by rewrite H1, H2, H3.
Qed.

(** An account that is not the one at the key survives what happens there. *)
Lemma admin_insert d key r : has_admin d -> (active_admin r = true \/ match accounts d !! key with Some r' => active_admin r' = false | None => True end) ->
  has_admin (set_accounts <[key := r]> d).
Proof.
  intros (k & r0 & Hk & Ha) H. destruct (decide (k = key)) as [-> | Hne].
  - rewrite Hk in H. destruct H as [H | H]; [| congruence]. exists key, r. split; [apply lookup_insert_eq | done].
  - exists k, r0. split; [| done]. cbn [accounts set_accounts]. by rewrite lookup_insert_ne.
Qed.

Lemma admin_touch d key old a : has_admin d -> accounts d !! key = Some (Stored old) ->
  IsAdmin a = IsAdmin old -> IsActive a = IsActive old -> has_admin (set_accounts <[key := Stored (json_account a)]> d).
Proof.
  intros Hh Hk E1 E2. apply admin_insert; [done |]. rewrite Hk. cbn [active_admin]. cbn [json_account IsAdmin IsActive]. rewrite E1, E2.
  by destruct (IsAdmin old && IsActive old); auto.
Qed.

Lemma settle_admin now old a : IsAdmin (settle_account now old a) = IsAdmin a /\ IsActive (settle_account now old a) = IsActive a.
Proof. unfold settle_account. by repeat split_if. Qed.

Lemma other_key d key old k a : Consistent d -> accounts d !! key = Some (Stored old) -> accounts d !! k = Some (Stored a) ->
  same_ident (Domain old) (LocalPart old) a = false -> k <> key.
Proof.
  intros C Ho Ha Hs ->. rewrite Ho in Ha. injection Ha as <-. unfold same_ident in Hs. rewrite !bool_decide_eq_true_2 in Hs; done.
Qed.

Lemma admin_mutate d now dom loc fn : Consistent d -> has_admin d -> has_admin (snd (mutateAccount now dom loc true fn d)).
Proof.
  intros C Hh. unfold mutateAccount. destruct (accounts d !! _) as [[old |] |] eqn:E; [| done..].
  destruct (fn old) as [acct | e]; [| done]. destruct (IsAdmin old && IsActive old) eqn:Eo; cbn [andb].
  - destruct (negb (IsAdmin acct) || negb (IsActive acct)) eqn:En; cbn [andb].
    + destruct (otherActiveAdminTx d _) eqn:Ex; [| done]. cbn [negb snd]. apply otherActiveAdmin_spec in Ex as (k & a & Hk & H1 & H2 & H3).
      exists k, (Stored a). cbn [accounts set_accounts]. rewrite lookup_insert_ne; [by cbn [active_admin]; rewrite H1, H2 |].
      symmetry. by eapply other_key.
    + cbn [snd]. apply admin_insert; [done |]. left. cbn [active_admin json_account IsAdmin IsActive].
      destruct (settle_admin now old acct) as [-> ->]. by destruct (IsAdmin acct), (IsActive acct).
  - cbn [snd]. apply admin_insert; [done |]. right. by rewrite E.
Qed.

Lemma admin_login d sn dom loc now mi : has_admin d -> has_admin (snd (RecordLogin sn dom loc now mi d)).
Proof.
  intros Hh. unfold RecordLogin. cbv zeta. split_if; [done |]. unfold MutateAccount, mutateAccount. cbv zeta.
  destruct (accounts d !! _) as [[old |] |] eqn:Eo; [| done..]. destruct (time_sub now (LastLoginAt old) <? mi); [done |]. cbn [andb snd fst].
  by eapply admin_touch; [done | exact Eo | rewrite (proj1 (settle_admin sn old _)) | rewrite (proj2 (settle_admin sn old _))].
Qed.

(** What deleting an account leaves in place. *)
Lemma admin_drop d dom loc k r : accounts d !! k = Some r -> active_admin r = true -> k <> AccountKey dom loc -> has_admin (drop_account dom loc d).
Proof. intros Hk Ha Hne. exists k, r. split; [| done]. cbn [drop_account accounts set_aliases set_accounts]. by rewrite lookup_delete_ne. Qed.

Lemma admin_delete d dom loc : Consistent d -> has_admin d -> has_admin (snd (DeleteAccountKeepAdmin dom loc d)).
Proof.
  intros C Hh. unfold DeleteAccountKeepAdmin. destruct (accounts d !! AccountKey dom loc) as [row |] eqn:E; [| done].
  destruct (match row with Stored a => IsAdmin a && IsActive a | Corrupt => false end) eqn:Er; cbn [andb].
  - destruct (otherActiveAdminTx d _) eqn:Ex; [| done]. cbn [negb snd]. apply otherActiveAdmin_spec in Ex as (k & a & Hk & H1 & H2 & H3).
    apply (admin_drop d dom loc k (Stored a)); [done | by cbn [active_admin]; rewrite H1, H2 |]. intros ->.
    destruct (acct_rows _ C _ _ Hk) as (dm & lc & Ek & Hv & _ & Ed & El). symmetry in Ek. apply AccountKey_inj in Ek as [-> ->]; [| done].
    unfold same_ident in H3. rewrite !bool_decide_eq_true_2 in H3; done.
  - destruct Hh as (k & r & Hk & Ha). cbn [snd]. apply (admin_drop d dom loc k r); [done | done |]. intros ->.
    assert (row = r) as -> by congruence. unfold active_admin in Ha. congruence.
Qed.

(** A key begins with a domain's prefix, up to letter case, when it is of the domain. *)
Lemma key_in_domain dom loc name r : "/"%char ∉ dom -> "/"%char ∉ loc ->
  lowered (AccountKey dom loc) = lowered (AccountKey name []) ++ r -> lowered dom = lowered name.
Proof.
  intros Hd Hl E. unfold AccountKey in E. change (lowered (dom ++ "/"%char :: loc) = lowered (name ++ "/"%char :: []) ++ r) in E.
  rewrite !lowered_key in E by done. rewrite <- app_assoc in E. cbn [map app] in E.
  apply split_unique in E as [E _]; [done | by rewrite slash_lowered | by rewrite slash_lowered].
Qed.

Lemma admin_domain d name : Consistent d -> isASCII name = true -> has_admin d -> has_admin (snd (deleteDomain name true d)).
Proof.
  intros C Hn Hh. unfold deleteDomain. cbv zeta. destruct (true && _ && _) eqn:Eg; [done |]. cbn [snd].
  assert (Hsurv : exists k a, accounts d !! k = Some (Stored a) /\ IsAdmin a = true /\ IsActive a = true /\ in_domain name a = false).
  { apply andb_false_iff in Eg as [Eg | Eg]; [| by apply negb_false_iff, otherActiveAdmin_spec in Eg].
    cbn [andb] in Eg. destruct Hh as (k & r & Hk & Ha). destruct r as [a |]; [| done]. cbn [active_admin] in Ha. apply andb_true_iff in Ha as [H1 H2].
    exists k, a. split_and!; [done.. |]. apply not_true_iff_false. intros Hi. assert (Ht : existsb (fun '(_, v) => match v with
      | Stored a => IsAdmin a && IsActive a && in_domain name a | Corrupt => false end) (cursor (accounts d)) = true); [| congruence].
    apply existsb_true_iff. exists (k, Stored a). split; [by apply elem_of_cursor |]. by rewrite H1, H2, Hi. }
  destruct Hsurv as (k & a & Hk & H1 & H2 & H3). exists k, (Stored a). split; [| by cbn [active_admin]; rewrite H1, H2].
  cbn [accounts set_aliases set_accounts set_domains]. destruct (acct_rows _ C _ _ Hk) as (dm & lc & -> & Hv & Ha & Ed & El).
  assert (Hnk : isASCII (AccountKey name []) = true) by (unfold AccountKey; rewrite !isASCII_app, Hn; done).
  apply lookup_deletePrefixFold; [done | done |]. split; [done |]. intros [r Er].
  unfold validAccountNames in Hv. apply andb_true_iff in Hv as [Hv1 Hv2]. apply key_in_domain in Er; cycle 1.
  { by apply valid_no_sep. } { apply validName_spec in Hv2 as [_ Hv2]. intros Hc. apply (Hv2 _ Hc). repeat constructor. }
  unfold in_domain in H3. rewrite <- not_true_iff_false in H3. apply H3. unfold AccountKey in Ha. rewrite !isASCII_app in Ha. breflect.
  apply EqualFold_ascii; [congruence | done | congruence].
Qed.
End Admin.

(** ** Counters *)

(** What a charge of [delta] bytes does to a mailbox with this limit, over the
    integers. *)
Definition charge (limit delta used : Z) : Z :=
  let u := Z.max 0 used in
  if (0 <? delta) && ((max_int64 <? u + delta) || ((0 <? limit) && (limit <? u + delta))) then used
  else Z.max 0 (u + delta).

Definition int64 (z : Z) : Prop := min_int64 <= z <= max_int64.

(** The numbers a charge adds are 64 bit integers. *)
Definition charge_fits (a : AccountData) (o : Op) : Prop :=
  match o with OIncrementQuota _ _ _ delta => int64 (QuotaUsed a) /\ int64 delta | _ => True end.

(** The usage of the account at [k] after an operation. *)
Definition quota_after (o : Op) (k : gostring) (a : AccountData) : Z :=
  match o with
  | OIncrementQuota _ dom loc delta => if k =s? AccountKey dom loc then charge (QuotaLimit a) delta (QuotaUsed a) else QuotaUsed a
  | OReconcileQuota _ dom loc used => if k =s? AccountKey dom loc then Z.max 0 used else QuotaUsed a
  | _ => QuotaUsed a
  end.

Section Counters.
Context {U : UnicodeTables}.

Lemma wrap_i64_small z : int64 z -> wrap_i64 z = z.
Proof.
  unfold int64, wrap_i64, min_int64, max_int64. intros H. change (2 ^ 64) with 18446744073709551616. change (2 ^ 63) with 9223372036854775808 in *.
  rewrite Z.mod_small; lia.
Qed.

Lemma keep_counters_mono s a : QuotaUsed (keep_counters s a) = QuotaUsed s /\
  TOTPLastUsedStep s <= TOTPLastUsedStep (keep_counters s a) /\ TokensValidAfter s <= TokensValidAfter (keep_counters s a).
Proof.
  unfold keep_counters. cbv zeta. repeat split_if; cbn [QuotaUsed TOTPLastUsedStep TokensValidAfter set_quota set_totp_step set_login set_times set_valid_after] in *;
    breflect; lia.
Qed.

Lemma settle_mono now s a : QuotaUsed (settle_account now s a) = QuotaUsed s /\
  TOTPLastUsedStep s <= TOTPLastUsedStep (settle_account now s a) /\ TokensValidAfter s <= TokensValidAfter (settle_account now s a).
Proof.
  unfold settle_account. cbv zeta. repeat split_if;
    cbn [QuotaUsed TOTPLastUsedStep TokensValidAfter set_quota set_totp_step set_updated set_ident set_times set_valid_after] in *; breflect; lia.
Qed.

(** What a step may do to the counters of a row. *)
Definition counters (a a' : AccountData) (quota : Z) : Prop :=
  QuotaUsed a' = quota /\ TOTPLastUsedStep a <= TOTPLastUsedStep a' /\ TokensValidAfter a <= TokensValidAfter a'.

Lemma counters_refl a : counters a a (QuotaUsed a).
Proof. split_and!; [done | lia | lia]. Qed.

(** A row written at [key] concerns the account there and no other. *)
Lemma insert_counters d key r k a a' q : accounts d !! k = Some (Stored a) ->
  accounts (set_accounts <[key := r]> d) !! k = Some (Stored a') ->
  (k <> key -> q = QuotaUsed a) -> (k = key -> forall b, r = Stored b -> counters a b q) -> counters a a' q.
Proof.
  intros Hk Hk' Hne He. cbn [accounts set_accounts] in Hk'. destruct (decide (k = key)) as [-> | Hd].
  - rewrite lookup_insert_eq in Hk'. injection Hk' as Hk'. by apply He.
  - rewrite lookup_insert_ne in Hk' by done. rewrite Hk in Hk'. injection Hk' as <-. rewrite (Hne Hd). apply counters_refl.
Qed.

Lemma same_counters (d d' : DB) k a a' : accounts d !! k = Some (Stored a) -> accounts d' ⊆ accounts d -> accounts d' !! k = Some (Stored a') ->
  counters a a' (QuotaUsed a).
Proof.
  intros Hk Hs Hk'. apply (lookup_weaken _ (accounts d)) in Hk'; [| done]. rewrite Hk in Hk'. injection Hk' as <-. apply counters_refl.
Qed.

Lemma create_counters d key r k a a' : accounts d !! k = Some (Stored a) -> hasKeyFold (accounts d) key = false ->
  accounts (set_accounts <[key := r]> d) !! k = Some (Stored a') -> counters a a' (QuotaUsed a).
Proof.
  intros Hk Hf Hk'. eapply insert_counters; [exact Hk | exact Hk' | done |]. intros ->. exfalso. unfold hasKeyFold in Hf. by rewrite Hk in Hf.
Qed.

Lemma mutate_counters d now dom loc keep fn k a a' : accounts d !! k = Some (Stored a) ->
  accounts (snd (mutateAccount now dom loc keep fn d)) !! k = Some (Stored a') -> counters a a' (QuotaUsed a).
Proof.
  intros Hk. unfold mutateAccount. destruct (accounts d !! AccountKey dom loc) as [[old |] |] eqn:E; [| by apply (same_counters d) ..].
  destruct (fn old) as [acct | e]; [| by apply (same_counters d)]. split_if; [by apply (same_counters d) |]. cbn [snd]. intros Hk'.
  eapply insert_counters; [exact Hk | exact Hk' | done |]. intros -> b [= <-]. rewrite Hk in E. injection E as ->.
  apply (settle_mono now old acct).
Qed.

Lemma increment_counters d now dom loc delta k a a' : int64 (QuotaUsed a) -> int64 delta -> accounts d !! k = Some (Stored a) ->
  accounts (snd (IncrementQuota now dom loc delta d)) !! k = Some (Stored a') ->
  counters a a' (if k =s? AccountKey dom loc then charge (QuotaLimit a) delta (QuotaUsed a) else QuotaUsed a).
Proof.
  intros Hq Hd Hk. unfold IncrementQuota. cbv zeta. case_bool_decide as Ek.
  2:{ destruct (Get _ _) as [old |]; [| by apply (same_counters d)]. do 2 (split_if; [by apply (same_counters d) |]). cbn [snd]. intros Hk'.
    eapply insert_counters; [exact Hk | exact Hk' | done | by intros ->]. }
  subst k. unfold Get. rewrite Hk. set (u := if QuotaUsed a <? 0 then 0 else QuotaUsed a).
  assert (Hu : u = Z.max 0 (QuotaUsed a)) by (unfold u; destruct (Z.ltb_spec (QuotaUsed a) 0); lia). rewrite Hu. clear u Hu.
  unfold int64, min_int64, max_int64 in Hq, Hd. unfold charge. unfold max_int64 at 1 2. set (u := Z.max 0 (QuotaUsed a)) in *.
  destruct (Z.ltb_spec 0 delta) as [Hp | Hp]; cbn [andb].
  - destruct (Z.ltb_spec (2 ^ 63 - 1 - delta) u) as [Ho | Ho].
    { replace (2 ^ 63 - 1 <? u + delta) with true by (symmetry; apply Z.ltb_lt; lia). cbn [orb]. by apply (same_counters d). }
    replace (2 ^ 63 - 1 <? u + delta) with false by (symmetry; apply Z.ltb_ge; lia). cbn [orb].
    rewrite wrap_i64_small by (unfold int64, min_int64, max_int64; lia).
    destruct ((0 <? QuotaLimit a) && (QuotaLimit a <? u + delta)); [by apply (same_counters d) |]. cbn [snd].
    replace (delta <? 0) with false by (symmetry; apply Z.ltb_ge; lia). cbn [andb]. intros Hk'.
    eapply insert_counters; [exact Hk | exact Hk' | done |]. intros _ b [= <-].
    split_and!; cbn [QuotaUsed TOTPLastUsedStep TokensValidAfter json_account set_updated set_times set_quota]; lia.
  - rewrite wrap_i64_small by (unfold int64, min_int64, max_int64; lia). cbn [snd]. intros Hk'.
    eapply insert_counters; [exact Hk | exact Hk' | done |]. intros _ b [= <-].
    split_and!; cbn [QuotaUsed TOTPLastUsedStep TokensValidAfter json_account set_updated set_times set_quota]; [| lia | lia].
    destruct (Z.ltb_spec delta 0), (Z.ltb_spec (u + delta) 0); cbn [andb]; lia.
Qed.

Lemma login_counters d sn dom loc now mi k a a' : accounts d !! k = Some (Stored a) ->
  accounts (snd (RecordLogin sn dom loc now mi d)) !! k = Some (Stored a') -> counters a a' (QuotaUsed a).
Proof.
  intros Hk. unfold RecordLogin. cbv zeta. split_if; [by apply (same_counters d) |]. unfold MutateAccount.
  pose proof (mutate_counters d sn dom loc false (fun a => if time_sub now (LastLoginAt a) <? mi then Err ErrRecent else Ok (set_login now a)) k a a' Hk) as H.
  destruct (mutateAccount _ _ _ _ _ _) as [[r | e] d']; [done |]. by destruct e.
Qed.

Lemma drop_sub dom loc d : accounts (drop_account dom loc d) ⊆ accounts d.
Proof. apply delete_subseteq. Qed.

Lemma step_counters o d k a a' : charge_fits a o -> accounts d !! k = Some (Stored a) ->
  accounts (exec o d) !! k = Some (Stored a') -> counters a a' (quota_after o k a).
Proof.
  intros Hd Hk. destruct o; cbn [exec quota_after].
  - unfold CreateAccount. split_if; [by apply (same_counters d) |]. cbv zeta. split_if; [by apply (same_counters d) |]. apply orb_false_iff in E0 as [E0 _].
    by apply create_counters.
  - unfold CreateAccountInDomain. split_if; [by apply (same_counters d) |]. cbv zeta. destruct (domains d !! _) as [[x |] |]; [| by apply (same_counters d) ..].
    split_if; [by apply (same_counters d) |]. split_if; [by apply (same_counters d) |]. apply orb_false_iff in E0 as [E0 _]. by apply create_counters.
  - unfold UpdateAccount. cbv zeta. set (key := AccountKey _ _). destruct (accounts d !! key) as [row |] eqn:E; [| by apply (same_counters d)]. cbn [snd].
    intros Hk'. eapply insert_counters; [exact Hk | exact Hk' | done |]. intros -> b [= <-]. rewrite Hk in E. injection E as <-.
    apply (keep_counters_mono a (set_updated now a0)).
  - by apply mutate_counters.
  - by apply login_counters.
  - destruct Hd. by apply increment_counters.
  - unfold ReconcileQuota. cbv zeta. destruct (Get _ _) as [old |] eqn:E; cbn [snd].
    + apply Get_Ok in E. intros Hk'. eapply insert_counters; [exact Hk | exact Hk' | |].
      * intros Hne. by rewrite bool_decide_eq_false_2.
      * intros -> b [= <-]. rewrite Hk in E. injection E as ->. rewrite bool_decide_eq_true_2 by done.
        split_and!; cbn [QuotaUsed TOTPLastUsedStep TokensValidAfter json_account set_updated set_times set_quota]; [| lia | lia].
        destruct (Z.ltb_spec used 0); lia.
    + rewrite bool_decide_eq_false_2; [by apply (same_counters d) |]. intros ->. unfold Get in E. by rewrite Hk in E.
  - unfold ConsumeTOTPStep. cbv zeta. destruct (Get _ _) as [old |] eqn:E; [| by apply (same_counters d)]. apply Get_Ok in E.
    split_if; [by apply (same_counters d) |]. cbn [snd]. intros Hk'. eapply insert_counters; [exact Hk | exact Hk' | done |]. intros -> b [= <-].
    rewrite Hk in E. injection E as ->. breflect. subst.
    split_and!; cbn [QuotaUsed TOTPLastUsedStep TokensValidAfter json_account set_updated set_times set_totp_step]; [done | lia | lia].
  - unfold StoreRevokedToken. cbv zeta. split_if; by apply (same_counters d).
  - unfold IsTokenRevoked. destruct (revoked d !! _); [| by apply (same_counters d)]. split_if; by apply (same_counters d).
  - by apply (same_counters d).
  - apply (same_counters d); [done | apply drop_sub].
  - unfold DeleteAccountKeepAdmin. destruct (accounts d !! AccountKey _ _); [| by apply (same_counters d)]. split_if; [by apply (same_counters d) |].
    apply (same_counters d); [done | apply drop_sub].
  - unfold CreateDomain. repeat split_if; by apply (same_counters d).
  - unfold UpdateDomain. destruct (domains d !! _); by apply (same_counters d).
  - unfold deleteDomain. cbv zeta. destruct (keepAdmin && _ && _); [by apply (same_counters d) |]. apply (same_counters d); [done | apply delete_where_sub].
  - unfold CreateAlias. cbv zeta. repeat split_if; by apply (same_counters d).
  - unfold UpdateAlias. cbv zeta. split_if; [by apply (same_counters d) |]. destruct (aliases d !! _); [| by apply (same_counters d)]. split_if; by apply (same_counters d).
  - by apply (same_counters d).
Qed.

Lemma increment_keeps d now dom loc delta k a a' : accounts d !! k = Some (Stored a) ->
  accounts (snd (IncrementQuota now dom loc delta d)) !! k = Some (Stored a') ->
  TOTPLastUsedStep a' = TOTPLastUsedStep a /\ TokensValidAfter a' = TokensValidAfter a.
Proof.
  intros Hk. unfold IncrementQuota. cbv zeta. destruct (Get _ _) as [old |] eqn:E; [| by cbn [snd]; rewrite Hk; intros [= ->]].
  apply Get_Ok in E. do 2 (split_if; [by cbn [snd]; rewrite Hk; intros [= ->] |]). cbn [snd accounts set_accounts].
  destruct (decide (k = AccountKey dom loc)) as [-> | Hne].
  - rewrite lookup_insert_eq. rewrite Hk in E. injection E as ->. by intros [= <-].
  - rewrite lookup_insert_ne by done. rewrite Hk. by intros [= ->].
Qed.

(** The replay guard and the revocation cut-off only move forward. *)
Lemma step_forward o d k a a' : accounts d !! k = Some (Stored a) -> accounts (exec o d) !! k = Some (Stored a') ->
  TOTPLastUsedStep a <= TOTPLastUsedStep a' /\ TokensValidAfter a <= TokensValidAfter a'.
Proof.
  intros Hk Hk'. assert (Hc : (exists now dom loc delta, o = OIncrementQuota now dom loc delta) \/ charge_fits a o).
  { destruct o; try (by right). left. eauto. }
  destruct Hc as [(now & dom & loc & delta & ->) | Hc].
  - destruct (increment_keeps _ _ _ _ _ _ _ _ Hk Hk') as [-> ->]. lia.
  - apply (step_counters o d k a a' Hc Hk Hk').
Qed.

(** Is there an account at [k] after each of the operations? *)
Fixpoint kept (k : gostring) (ops : list Op) (d : DB) : bool :=
  match ops with
  | [] => true
  | o :: ops => match accounts (exec o d) !! k with Some (Stored _) => kept k ops (exec o d) | _ => false end
  end.

Lemma run_forward k ops d a a' : accounts d !! k = Some (Stored a) -> kept k ops d = true -> accounts (run ops d) !! k = Some (Stored a') ->
  TOTPLastUsedStep a <= TOTPLastUsedStep a' /\ TokensValidAfter a <= TokensValidAfter a'.
Proof.
  revert d a. induction ops as [| o ops IH]; intros d a Hk Hkept Hk'.
  - cbn in Hk'. rewrite Hk in Hk'. injection Hk' as ->. lia.
  - cbn [kept] in Hkept. destruct (accounts (exec o d) !! k) as [[b |] |] eqn:Eb; [| done..].
    pose proof (step_forward _ _ _ _ _ Hk Eb). pose proof (IH _ _ Eb Hkept Hk'). lia.
Qed.

Lemma consume_true now dom loc e s d d' : ConsumeTOTPStep now dom loc e s d = (Ok true, d') ->
  exists a a', accounts d !! AccountKey dom loc = Some (Stored a) /\ accounts d' !! AccountKey dom loc = Some (Stored a') /\
  TOTPLastUsedStep a = e /\ TOTPLastUsedStep a' = s /\ e < s.
Proof.
  unfold ConsumeTOTPStep. cbv zeta. destruct (Get _ _) as [a |] eqn:E; [| done]. apply Get_Ok in E. split_if; [done |]. intros [= <-]. breflect.
  exists a, (json_account (set_updated now (set_totp_step s a))). split_and!; [done | apply lookup_insert_eq | done | done | lia].
Qed.
End Counters.

(** * Claims *)
Section Claims.
Context {U : UnicodeTables}.

Lemma run_consistent ops d : Consistent d -> forallb plain ops = true -> Consistent (run ops d).
Proof.
  revert d. induction ops as [| o ops IH]; intros d C Hp; [done |]. cbn [forallb] in Hp. apply andb_true_iff in Hp as [H1 H2].
  apply (IH (exec o d)); [by apply exec_consistent | done].
Qed.


Lemma admin_step o d : Consistent d -> plain o = true -> admin_safe o = true -> has_admin d -> has_admin (exec o d).
Proof.
  intros C Hp Hs Hh. destruct o; cbn [exec admin_safe] in *; try discriminate Hs; try (subst; assumption).
  - unfold CreateAccount. split_if; [done |]. cbv zeta. split_if; [done |]. apply orb_false_iff in E0 as [E0 _]. cbn [snd].
    apply admin_insert; [done |]. right. unfold hasKeyFold in E0. by destruct (accounts d !! _).
  - unfold CreateAccountInDomain. split_if; [done |]. cbv zeta. destruct (domains d !! _) as [[x |] |]; [| done..].
    do 2 (split_if; [done |]). apply orb_false_iff in E0 as [E0 _]. cbn [snd].
    apply admin_insert; [done |]. right. unfold hasKeyFold in E0. by destruct (accounts d !! _).
  - subst. by apply admin_mutate.
  - by apply admin_login.
  - unfold IncrementQuota. cbv zeta. destruct (Get _ _) as [old |] eqn:E; [| done]. apply Get_Ok in E. do 2 (split_if; [done |]). by eapply admin_touch.
  - unfold ReconcileQuota. cbv zeta. destruct (Get _ _) as [old |] eqn:E; [| done]. apply Get_Ok in E. by eapply admin_touch.
  - unfold ConsumeTOTPStep. cbv zeta. destruct (Get _ _) as [old |] eqn:E; [| done]. apply Get_Ok in E. split_if; [done |]. by eapply admin_touch.
  - unfold StoreRevokedToken. cbv zeta. by split_if.
  - unfold IsTokenRevoked. destruct (revoked d !! _); [| done]. by split_if.
  - by apply admin_delete.
  - unfold CreateDomain. by repeat split_if.
  - unfold UpdateDomain. by destruct (domains d !! _).
  - subst. by apply admin_domain.
  - unfold CreateAlias. cbv zeta. by repeat split_if.
  - unfold UpdateAlias. cbv zeta. split_if; [done |]. destruct (aliases d !! _); [| done]. by split_if.
Qed.

(** C16: An installation that has an active administrator still has one after any
    sequence of operations, when updates, deletions of accounts and deletions of
    domains go through their "keep an administrator" forms. *)
Theorem admin_kept ops d : Consistent d -> forallb plain ops = true -> forallb admin_safe ops = true -> has_admin d -> has_admin (run ops d).
Proof.
  revert d. induction ops as [| o ops IH]; intros d C Hp Hs Hh; [done |]. cbn [forallb] in Hp, Hs. apply andb_true_iff in Hp as [H1 H2], Hs as [H3 H4].
  apply (IH (exec o d)); [by apply exec_consistent | done | done | by apply admin_step].
Qed.

(** C17: A step of the one-time code is accepted once: after a login used it, no later
    login of the account can use the same or an earlier one, whatever operations run
    in between while the account exists. *)
Theorem totp_step_once now now' dom loc e s e' s' ops d d1 d2 :
  ConsumeTOTPStep now dom loc e s d = (Ok true, d1) -> kept (AccountKey dom loc) ops d1 = true ->
  ConsumeTOTPStep now' dom loc e' s' (run ops d1) = (Ok true, d2) -> s < s'.
Proof.
  intros H1 Hk H2. apply consume_true in H1 as (_ & a1 & _ & Ha1 & _ & <- & _). apply consume_true in H2 as (a2 & _ & Ha2 & _ & <- & _ & H).
  pose proof (run_forward _ _ _ _ _ Ha1 Hk Ha2). lia.
Qed.

(** Each counter of an account belongs to its operation: the usage moves only by
    a charge, which over the integers adds the bytes, never goes below zero and is
    refused beyond the limit or 64 bits, or by a recount; the replay guard and the
    cut-off of the sessions never move back. *)
Theorem counters_owned o d k a a' : charge_fits a o -> accounts d !! k = Some (Stored a) -> accounts (exec o d) !! k = Some (Stored a') ->
  QuotaUsed a' = quota_after o k a /\ TOTPLastUsedStep a <= TOTPLastUsedStep a' /\ TokensValidAfter a <= TokensValidAfter a'.
Proof. apply step_counters. Qed.

(** Deleting a domain leaves nothing of it: no domain of that name in any letter
    case, no account in it, no alias in it and no alias with a target in it. *)
Theorem deleted_domain_gone name keep d d' : Consistent d -> isASCII name = true -> deleteDomain name keep d = (Ok tt, d') ->
  (forall k, is_Some (domains d' !! k) -> lowered k <> lowered name) /\
  (forall k a, accounts d' !! k = Some (Stored a) -> lowered (Domain a) <> lowered name) /\
  (forall dom loc, is_Some (aliases d' !! (dom ++ ":" ++ loc)) -> lowered dom <> lowered name) /\
  (forall k a, aliases d' !! k = Some (Stored a) -> targets_domain name (TrimSpace (Target a)) = false).
Proof.
  intros C Hn. unfold deleteDomain. cbv zeta. destruct (keep && _ && _); [done |]. intros [= <-].
  cbn [domains accounts aliases set_aliases set_accounts set_domains]. split_and!.
  - intros k [v Hv]. apply lookup_deletePrefixFold in Hv as [_ Hv]; [done | done |].
    apply (dom_ascii _ C). exists v. exact (lookup_weaken _ _ _ _ Hv (delete_where_sub _ _)).
  - intros k a Hk. pose proof (lookup_weaken _ _ _ _ Hk (delete_where_sub _ _)) as Hk0.
    destruct (acct_rows _ C _ _ Hk0) as (dm & lc & -> & _ & Ha & Ed & _). rewrite Ed.
    apply lookup_deletePrefixFold in Hk as [_ Hk]; [| by unfold AccountKey; rewrite !isASCII_app, Hn | done].
    intros E. apply Hk. exists (lowered lc). unfold AccountKey. rewrite !map_app, E. cbn. by rewrite <- app_assoc.
  - intros dom loc [v Hv]. pose proof (lookup_weaken _ _ _ _ Hv (delete_where_sub _ _)) as Hv1.
    pose proof (lookup_weaken _ _ _ _ Hv1 (delete_where_sub _ _)) as Hv0.
    apply lookup_deletePrefixFold in Hv1 as [_ Hv1]; [| by rewrite isASCII_app, Hn | by apply (alias_ascii _ C); eexists].
    intros E. apply Hv1. exists (lowered loc). rewrite !map_app, E. cbn. by rewrite <- app_assoc.
  - intros k a Hk. unfold deleteAliasesTargeting in Hk. rewrite lookup_delete_where in Hk.
    destruct (_ !! k) as [v |]; [| done]. destruct v as [a0 |]; [| done]. destruct (targets_domain _ _) eqn:E; [done |]. by injection Hk as <-.
Qed.

(** ** Revoked tokens *)

(** The clock of an operation on the revoked tokens has not passed [e], and a token
    stored again is not stored for a shorter time. *)
Definition before (h : gostring) (e : Z) (o : Op) : Prop :=
  match o with
  | OStoreRevokedToken _ now h' e' => now <= e /\ (h' = h -> e <= e')
  | OIsTokenRevoked now _ | OCleanupRevokedTokens now => now <= e
  | _ => True
  end.

Definition revoked_until (h : gostring) (e : Z) (d : DB) : Prop := exists e', revoked d !! h = Some (Stored e') /\ e <= e'.

Lemma purge_keeps now h e b e' : b !! h = Some (Stored e') -> e <= e' -> now <= e -> purgeExpiredRevoked now b !! h = Some (Stored e').
Proof.
  intros Hb He Hn. unfold purgeExpiredRevoked. rewrite lookup_delete_where, Hb. cbn [expired].
  destruct (Z.ltb_spec e' now); [lia | done].
Qed.

Lemma step_revoked o d h e : before h e o -> revoked_until h e d -> revoked_until h e (exec o d).
Proof.
  intros Hb (e' & He & Hle). assert (Hsame : forall d', revoked d' = revoked d -> revoked_until h e d') by (intros d' E; exists e'; by rewrite E).
  destruct o; cbn [exec before] in *; unfold CreateAccount, CreateAccountInDomain, UpdateAccount, mutateAccount, IncrementQuota, ReconcileQuota,
    ConsumeTOTPStep, DeleteAccountKeepAdmin, CreateDomain, UpdateDomain, deleteDomain, CreateAlias, UpdateAlias; cbv zeta;
    try (apply Hsame; repeat (case_match; try done); done).
  - apply Hsame. unfold RecordLogin, MutateAccount, mutateAccount. cbv zeta. repeat (case_match; simplify_eq/=; try done).
  - destruct Hb as [Hn Hs]. unfold StoreRevokedToken. cbv zeta.
    assert (Hst : exists e'', <[tokenHash := Stored expiry]> (revoked d) !! h = Some (Stored e'') /\ e <= e'').
    { destruct (decide (tokenHash = h)) as [-> | Hne]; [exists expiry; rewrite lookup_insert_eq; split; [done | by apply Hs] |].
      exists e'. by rewrite lookup_insert_ne. }
    destruct Hst as (e'' & Hst & Hle'). split_if; exists e''; (split; [| done]); [| done]. by apply (purge_keeps _ h e).
  - unfold IsTokenRevoked. destruct (revoked d !! tokenHash) as [v |] eqn:Ev; [| by apply Hsame]. split_if; [| by apply Hsame].
    exists e'. split; [| done]. cbn [snd revoked set_revoked]. rewrite lookup_delete_ne; [done |]. intros ->. rewrite He in Ev. injection Ev as <-.
    cbn [expired] in E. breflect. lia.
  - exists e'. split; [| done]. by apply (purge_keeps _ h e).
Qed.

(** A revoked token stays revoked until it expires, through any operations and
    sweeps whose clock has not passed the expiry. *)
Theorem token_stays_revoked nowNs now now' h e ops d : now <= e -> now' <= e -> Forall (before h e) ops ->
  fst (IsTokenRevoked now' h (run ops (StoreRevokedToken nowNs now h e d))) = true.
Proof.
  intros Hn Hn' Ho. assert (H0 : revoked_until h e (StoreRevokedToken nowNs now h e d)).
  { unfold StoreRevokedToken. cbv zeta. assert (Hst : <[h := Stored e]> (revoked d) !! h = Some (Stored e)) by apply lookup_insert_eq.
    split_if; exists e; (split; [| lia]); [| done]. apply (purge_keeps _ h e); [done | lia | done]. }
  assert (H : revoked_until h e (run ops (StoreRevokedToken nowNs now h e d))).
  { revert H0. generalize (StoreRevokedToken nowNs now h e d). clear - Ho. induction Ho as [| o ops Hb _ IH]; intros d H; [done |].
    apply (IH (exec o d)). by apply step_revoked. }
  destruct H as (e' & He & Hle). unfold IsTokenRevoked. rewrite He. cbn [expired]. by destruct (Z.ltb_spec e' now'); [lia |].
Qed.
End Claims.

(** ** Order *)
Lemma lex_leb_refl a : lex_leb a a = true.
Proof. induction a as [| x a IH]; [done |]. cbn [lex_leb]. rewrite Z.eqb_refl, IH. by rewrite orb_true_r. Qed.

Lemma lex_antisym a b : lex_leb a b = true -> lex_leb b a = true -> a = b.
Proof.
  revert b. induction a as [| x a IH]; intros [| y b]; cbn [lex_leb]; try done. intros H1 H2. breflect.
  destruct H1 as [H1 | H1], H2 as [H2 | H2]; breflect; try lia. f_equal; [by apply bz_inj | by apply IH].
Qed.

Lemma prefix_lex s p : HasPrefix s p = true -> lex_leb p s = true.
Proof.
  intros [r ->]%HasPrefix_true. induction p as [| x p IH]; [done |]. cbn [app lex_leb]. rewrite Z.eqb_refl, IH. by rewrite orb_true_r.
Qed.

(** The keys with a prefix are contiguous. *)
Lemma prefix_between p j k : lex_leb p j = true -> lex_leb j k = true -> HasPrefix k p = true -> HasPrefix j p = true.
Proof.
  revert j k. induction p as [| x p IH]; intros j k H1 H2 Hk; [by destruct j |].
  destruct j as [| y j]; [done |]. destruct k as [| z k]; [done |]. cbn [lex_leb HasPrefix] in *.
  apply andb_true_iff in Hk as [->%Ascii.eqb_eq Hk]. breflect. destruct H1 as [H1 | H1], H2 as [H2 | H2]; breflect; try lia.
  apply andb_true_iff. split; [apply Ascii.eqb_eq; by apply bz_inj |]. by apply (IH j k).
Qed.

Section Walk.
Context {A : Type}.
Implicit Types (b : gmap gostring A) (l : list (gostring * A)).

(** Entries in the order of their keys, no key twice. *)
Definition ordered l : Prop := StronglySorted (fun e f => lex_leb (fst e) (fst f) = true /\ fst e <> fst f) l.

Lemma cursor_ordered b : ordered (cursor b).
Proof.
  unfold cursor, ordered. assert (Hn : NoDup (merge_sort lex_le (elements (dom b)))) by (rewrite merge_sort_Permutation; apply NoDup_elements).
  pose proof (StronglySorted_merge_sort lex_le (elements (dom b))) as Hs. revert Hn Hs. generalize (merge_sort lex_le (elements (dom b))).
  induction l as [| k l IH]; intros Hn Hs; [constructor |]. apply NoDup_cons in Hn as [Hk Hn]. inversion Hs as [| ? ? Hs' Hf]; subst.
  cbn [omap list_omap]. destruct (b !! k) as [v |]; [| by apply IH]. cbn [fmap option_fmap option_map]. constructor; [by apply IH |].
  apply Forall_forall. intros [j w] (i & Hi & E)%list_elem_of_omap. destruct (b !! i); [| done]. injection E as -> <-. cbn [fst].
  rewrite Forall_forall in Hf. split; [by apply Hf |]. by intros ->.
Qed.

Lemma length_cursor b : (length (cursor b) <= size b)%nat.
Proof.
  unfold cursor. rewrite <- (size_dom b). etrans; [| apply Nat.eq_le_incl; apply (Permutation_length (merge_sort_Permutation lex_le (elements (dom b))))].
  generalize (merge_sort lex_le (elements (dom b))). induction l as [| k l IH]; [done |]. cbn [omap list_omap length].
  destruct (b !! k); cbn [fmap option_fmap option_map length]; lia.
Qed.

Lemma ordered_app l1 l2 : ordered (l1 ++ l2) -> ordered l2 /\ forall e f, e ∈ l1 -> f ∈ l2 -> lex_leb (fst e) (fst f) = true /\ fst e <> fst f.
Proof.
  induction l1 as [| x l1 IH]; intros H; [by split; [| intros e f He%not_elem_of_nil] |]. inversion H as [| ? ? Hs Hf]; subst.
  destruct (IH Hs) as [H1 H2]. split; [done |]. intros e f He Hff. apply elem_of_cons in He as [-> | He]; [| by apply H2].
  rewrite Forall_forall in Hf. apply Hf, elem_of_app. by right.
Qed.

Lemma seek_split k l1 e l2 : ordered (l1 ++ e :: l2) -> fst e = k -> seek k (l1 ++ e :: l2) = e :: l2.
Proof.
  intros Ho <-. induction l1 as [| x l1 IH]; cbn [app seek]; [by rewrite lex_leb_refl |]. inversion Ho as [| ? ? Hs Hf]; subst.
  rewrite Forall_forall in Hf. destruct (Hf e) as [H1 H2]; [apply elem_of_app; right; constructor |].
  destruct (lex_leb (fst e) (fst x)) eqn:E; [| by apply IH]. exfalso. apply H2. by apply lex_antisym.
Qed.

Lemma seek_suffix k l : exists l0, l = l0 ++ seek k l.
Proof.
  induction l as [| e l [l0 IH]]; [by exists [] |]. cbn [seek]. destruct (lex_leb k (fst e)); [by exists [] |].
  exists (e :: l0). cbn [app]. by rewrite <- IH.
Qed.

Lemma while_split p l l1 e l2 : while_prefix p l = l1 ++ e :: l2 -> exists l3, l = l1 ++ e :: l3 /\ while_prefix p l3 = l2.
Proof.
  revert l. induction l1 as [| x l1 IH]; intros [| y l]; cbn [while_prefix app]; try done; destruct (HasPrefix (fst y) p); try done;
    intros [= -> H]; [by exists l |]. apply IH in H as (l3 & -> & H). by exists l3.
Qed.

(** The walk from the prefix on meets exactly the entries that have it. *)
Lemma while_seek p l : ordered l -> while_prefix p (seek p l) = List.filter (fun e => HasPrefix (fst e) p) l.
Proof.
  assert (Hw : forall l, ordered l -> (forall e, e ∈ l -> lex_leb p (fst e) = true) -> while_prefix p l = List.filter (fun e => HasPrefix (fst e) p) l).
  { clear l. induction l as [| e l IH]; intros Ho Hp; [done |]. cbn [while_prefix List.filter]. inversion Ho as [| ? ? Hs Hf]; subst.
    destruct (HasPrefix (fst e) p) eqn:E; [f_equal; apply IH; [done | intros f Hff; apply Hp; by constructor] |].
    symmetry. clear IH. rewrite Forall_forall in Hf. assert (Hnone : forall f, f ∈ l -> HasPrefix (fst f) p = false).
    { intros f Hff. apply not_true_iff_false. intros Ht. destruct (Hf f Hff) as [Hle _]. apply not_true_iff_false in E. apply E.
      refine (prefix_between _ _ _ _ Hle Ht). apply Hp. constructor. }
    clear - Hnone. induction l as [| f l IH]; [done |]. cbn [List.filter]. rewrite Hnone by constructor. apply IH. intros g Hg. apply Hnone. by constructor. }
  induction l as [| e l IH]; intros Ho; [done |]. cbn [seek]. destruct (lex_leb p (fst e)) eqn:E.
  - apply Hw; [done |]. inversion Ho as [| ? ? Hs Hf]; subst. rewrite Forall_forall in Hf. intros f [-> | Hff]%elem_of_cons; [done |].
    eapply (lex_le_trans p (fst e) (fst f)); [done |]. apply Hf. done.
  - cbn [List.filter]. assert (HasPrefix (fst e) p = false) as ->.
    { apply not_true_iff_false. intros Ht%prefix_lex. congruence. }
    apply IH. by inversion Ho.
Qed.

(** What is left of a walk after the last key delivered. *)
Definition remaining (p : gostring) (after : option gostring) b : list (gostring * A) :=
  while_prefix p match after with
  | None => seek p (cursor b)
  | Some a => match seek a (cursor b) with
  | (k, v) :: l => if k =s? a then l else (k, v) :: l
  | [] => []
  end
  end.

Lemma next_page_remaining p after b : next_page p after b = take iterPageSize (remaining p after b).
Proof. done. Qed.

Lemma remaining_next p after b R1 k v R2 : remaining p after b = R1 ++ (k, v) :: R2 -> remaining p (Some k) b = R2.
Proof.
  intros H. unfold remaining in H. apply while_split in H as (l3 & Hl & HR).
  assert (Hc : exists l0, cursor b = l0 ++ R1 ++ (k, v) :: l3).
  { destruct after as [a |].
    - destruct (seek_suffix a (cursor b)) as [l0 E]. destruct (seek a (cursor b)) as [| [k0 v0] l]; [by destruct R1 |].
      case_bool_decide; [exists (l0 ++ [(k0, v0)]); rewrite E, <- app_assoc; cbn [app]; by rewrite Hl | exists l0; by rewrite <- Hl].
    - destruct (seek_suffix p (cursor b)) as [l0 E]. exists l0. by rewrite <- Hl. }
  destruct Hc as [l0 Hc]. unfold remaining. pose proof (cursor_ordered b) as Ho. rewrite Hc, app_assoc in Ho |- *.
  rewrite (seek_split k _ (k, v) l3 Ho eq_refl). by rewrite bool_decide_eq_true_2.
Qed.
End Walk.

Section Iterate.
Context {St A E : Type} (bucket : St -> gmap gostring A) (fn : @callback St A E).
Hypothesis Hfn : forall k v st, bucket (snd (fn k v st)) = bucket st.

Lemma run_page_app l1 l2 st : run_page fn (l1 ++ l2) st =
  match run_page fn l1 st with (Ok _, st) => run_page fn l2 st | (Err e, st) => (Err e, st) end.
Proof.
  revert st. induction l1 as [| [k v] l1 IH]; intros st; [done |]. cbn [app run_page]. destruct (fn k v st) as [[u | e] st']; [apply IH | done].
Qed.

Lemma run_page_bucket l st : bucket (snd (run_page fn l st)) = bucket st.
Proof.
  revert st. induction l as [| [k v] l IH]; intros st; [done |]. cbn [run_page]. specialize (Hfn k v st).
  destruct (fn k v st) as [[u | e] st']; [rewrite IH; exact Hfn | exact Hfn].
Qed.

Lemma iterate_remaining fuel p after st : (length (remaining p after (bucket st)) < fuel * iterPageSize)%nat ->
  iterate bucket fuel p fn after st = Some (run_page fn (remaining p after (bucket st)) st).
Proof.
  revert after st. induction fuel as [| fuel IH]; intros after st Hf; [lia |]. cbn [iterate]. rewrite next_page_remaining.
  set (R := remaining p after (bucket st)) in *. replace (run_page fn R st) with (run_page fn (take iterPageSize R ++ drop iterPageSize R) st) by (by rewrite take_drop).
  rewrite run_page_app.
  pose proof (run_page_bucket (take iterPageSize R) st) as Hb. destruct (run_page fn (take iterPageSize R) st) as [[u | e] st'] eqn:Er; [| done].
  cbn [snd] in Hb. destruct (Nat.ltb_spec (length (take iterPageSize R)) iterPageSize) as [Hl | Hl].
  - rewrite length_take in Hl. rewrite drop_ge by lia. by destruct u.
  - rewrite length_take in Hl. assert (Hlast : exists R1 k v, take iterPageSize R = R1 ++ [(k, v)]).
    { destruct (exists_last (l := take iterPageSize R)) as (R1 & [k v] & ->); [| by exists R1, k, v].
      intros En. apply (f_equal length) in En. rewrite length_take in En. unfold iterPageSize in *. cbn [length] in En. lia. }
    destruct Hlast as (R1 & k & v & Et). rewrite Et, last_snoc.
    assert (Hn : remaining p (Some k) (bucket st') = drop iterPageSize R).
    { rewrite Hb. eapply (remaining_next p after). fold R. rewrite <- (take_drop iterPageSize R) at 1. rewrite Et, <- app_assoc. done. }
    rewrite <- Hn. apply IH. rewrite Hn, length_drop. lia.
Qed.
End Iterate.

(** Reading a bucket in pages of 256 is reading it at once: when the callbacks
    do not change the bucket, enough pages run the callback on exactly the entries
    whose keys have the prefix, each once, in the order of the keys, up to the first
    error. *)
Theorem iterate_is_one_walk {St A E : Type} (bucket : St -> gmap gostring A) (fn : @callback St A E) fuel prefix st :
  (forall k v st, bucket (snd (fn k v st)) = bucket st) -> (size (bucket st) < fuel * iterPageSize)%nat ->
  ForEachPrefix bucket fuel prefix fn st =
    Some (run_page fn (List.filter (fun e => HasPrefix (fst e) prefix) (cursor (bucket st))) st).
Proof.
  intros Hfn Hf. unfold ForEachPrefix. rewrite (iterate_remaining bucket fn Hfn).
  - unfold remaining. by rewrite (while_seek prefix _ (cursor_ordered _)).
  - unfold remaining. rewrite (while_seek prefix _ (cursor_ordered _)). eapply Nat.le_lt_trans; [| exact Hf].
    etrans; [apply filter_length_le | apply length_cursor].
Qed.

(** The listing of a domain's accounts through the pages. *)
Lemma list_accounts_pages fuel domain d : (size (accounts d) < fuel * iterPageSize)%nat ->
  ListAccountsByDomain fuel domain d =
    Some (run_page collect (List.filter (fun e => HasPrefix (fst e) (domain ++ "/")) (cursor (accounts d))) (d, [])).
Proof.
  intros Hf. unfold ListAccountsByDomain, ForEachPrefix.
  rewrite (iterate_remaining (fun st : DB * list AccountData => accounts (fst st)) collect); cbn [fst].
  - unfold remaining. by rewrite (while_seek _ _ (cursor_ordered _)).
  - intros k [a |] [d0 l]; done.
  - unfold remaining. rewrite (while_seek _ _ (cursor_ordered _)). eapply Nat.le_lt_trans; [| exact Hf].
    etrans; [apply filter_length_le | apply length_cursor].
Qed.

#[local] Existing Instance ascii_tables.

Definition sample_account (local : gostring) (admin : bool) : AccountData := {|
  Email := local ++ "@example.org"; LocalPart := local; Domain := "example.org"; PasswordHash := "h"; APOPHash := []; TOTPSecret := [];
  TOTPEnabled := true; TOTPLastUsedStep := 0; QuotaUsed := 0; QuotaLimit := 1000; MaxMessageSize := 0; ForwardTo := [];
  ForwardKeepCopy := false; SieveScript := []; VacationSettings := []; IsAdmin := admin; IsActive := true; CreatedAt := zero_time;
  UpdatedAt := zero_time; LastLoginAt := zero_time; TokensValidAfter := 0 |}.

Definition sample_domain : DomainData := {|
  Name := "example.org"; MaxAccounts := 10; MaxMailboxSize := 0; DKIMSelector := []; DKIMPublicKey := []; DKIMPrivateKey := [];
  Settings := ∅; CatchAllTarget := []; DomainActive := true; DomainCreatedAt := zero_time; DomainUpdatedAt := zero_time |}.

Definition sample_alias : AliasData := {|
  Alias := "Info"; Target := "alice@example.org"; AliasDomain := "example.org"; AliasActive := true; AliasCreatedAt := zero_time |}.

Definition setup : list Op := [
  OCreateDomain 1 sample_domain;
  OCreateAccountInDomain 2 (sample_account "alice" true);
  OCreateAccountInDomain 3 (sample_account "bob" false);
  OCreateAlias 4 sample_alias].

Abbreviation sample := (run setup initBuckets).

(** The rows are there, in another letter case they are refused, and so are an
    alias for a mailbox, a circle of aliases and a charge over the limit. *)
Example sample_rows : (map fst (cursor (accounts sample)), map fst (cursor (aliases sample))) =
  (["example.org/alice" : gostring; "example.org/bob" : gostring], ["example.org:info" : gostring]).
Proof. vm_compute. reflexivity. Qed.

Example sample_refusals :
  fst (CreateAccount 5 (sample_account "ALICE" false) sample) = Err ErrAccountExists /\
  fst (CreateAccount 5 (sample_account "INFO" false) sample) = Err ErrAccountExists /\
  fst (CreateAlias 5 {| Alias := "bob"; Target := "x@y"; AliasDomain := "example.org"; AliasActive := true; AliasCreatedAt := 0 |} sample) = Err ErrAliasConflict /\
  fst (UpdateAlias {| Alias := "info"; Target := "INFO@example.org "; AliasDomain := "example.org"; AliasActive := true; AliasCreatedAt := 0 |} sample) = Err ErrAliasConflict /\
  fst (IncrementQuota 5 "example.org" "bob" 1001 sample) = Err ErrQuotaExceeded /\
  fst (DeleteAccountKeepAdmin "example.org" "alice" sample) = Err ErrLastActiveAdmin /\
  fst (DeleteDomainKeepAdmin "EXAMPLE.org" sample) = Err ErrLastActiveAdmin.
Proof. vm_compute. auto 10. Qed.


Lemma sample_has_admin : has_admin sample.
Proof. exists ("example.org/alice" : gostring), (Stored (set_times 2 2 zero_time (sample_account "alice" true))). split; vm_compute; reflexivity. Qed.

Lemma sample_consistent : Consistent sample.
Proof. apply run_consistent; [apply initial_consistent | vm_compute; reflexivity]. Qed.

Abbreviation attacks := [
  ODeleteAccountKeepAdmin "example.org" "alice"; ODeleteDomain "example.org" true;
  OMutateAccount 9 "example.org" "alice" true (fun a => Ok (sample_account "alice" false))].

Lemma admin_kept_witness : has_admin (run attacks sample).
Proof.
  apply (admin_kept attacks sample); [exact sample_consistent | vm_compute; reflexivity | vm_compute; reflexivity | exact sample_has_admin].
Defined.

Lemma totp_step_once_witness : 7 < 9.
Proof.
  apply (totp_step_once 5 6 "example.org" "bob" 0 7 7 9 [OIncrementQuota 5 "example.org" "bob" 10] sample
    (snd (ConsumeTOTPStep 5 "example.org" "bob" 0 7 sample))
    (snd (ConsumeTOTPStep 6 "example.org" "bob" 7 9 (run [OIncrementQuota 5 "example.org" "bob" 10] (snd (ConsumeTOTPStep 5 "example.org" "bob" 0 7 sample))))));
    vm_compute; reflexivity.
Defined.

Lemma counters_owned_witness : exists a', accounts (exec (OIncrementQuota 5 "example.org" "bob" 600) sample) !! ("example.org/bob" : gostring) = Some (Stored a') /\
  QuotaUsed a' = 600.
Proof.
  set (o := OIncrementQuota 5 "example.org" "bob" 600). set (a := set_times 3 3 zero_time (sample_account "bob" false)).
  exists (set_times 3 5 zero_time (set_quota 600 (sample_account "bob" false))). split; [vm_compute; reflexivity |].
  refine (eq_trans (proj1 (counters_owned o sample "example.org/bob" a (set_times 3 5 zero_time (set_quota 600 (sample_account "bob" false))) _ _ _)) _).
  - split; vm_compute; split; discriminate.
  - vm_compute. reflexivity.
  - vm_compute. reflexivity.
  - vm_compute. reflexivity.
Defined.

Lemma deleted_domain_gone_witness :
  forall k, is_Some (domains (snd (deleteDomain "EXAMPLE.ORG" false sample)) !! k) -> lowered k <> lowered ("EXAMPLE.ORG" : gostring).
Proof.
  refine (proj1 (deleted_domain_gone "EXAMPLE.ORG" false sample (snd (deleteDomain "EXAMPLE.ORG" false sample)) _ _ _)).
  - exact sample_consistent.
  - reflexivity.
  - vm_compute. reflexivity.
Defined.

Lemma token_stays_revoked_witness :
  fst (IsTokenRevoked 90 "t" (run [OCleanupRevokedTokens 80; OStoreRevokedToken (2 * minute) 85 "u" 86] (StoreRevokedToken minute 50 "t" 100 sample))) = true.
Proof.
  apply (token_stays_revoked minute 50 90 "t" 100 [OCleanupRevokedTokens 80; OStoreRevokedToken (2 * minute) 85 "u" 86] sample); [lia | lia |].
  repeat constructor; [vm_compute; discriminate | vm_compute; discriminate | discriminate].
Defined.

Lemma iterate_is_one_walk_witness :
  ForEachPrefix (fun st : gmap gostring (Row Z) * list gostring => fst st) 1 "a" (fun k _ st => (Ok (E := DbErr) tt, (fst st, snd st ++ [k])))
    ({["ab" : gostring := Stored 1; "b" : gostring := Stored 2; "aa" : gostring := Stored 3]}, []) =
  Some (Ok tt, ({["ab" : gostring := Stored 1; "b" : gostring := Stored 2; "aa" : gostring := Stored 3]}, ["aa" : gostring; "ab" : gostring])).
Proof.
  refine (eq_trans (iterate_is_one_walk _ _ 1 "a" _ _ _) _).
  - intros k v [d l]. reflexivity.
  - apply (bool_decide_unpack _). vm_compute. exact I.
  - vm_compute. reflexivity.
Defined.
