(* ===== verification/SieveManager.v ===== *)
(** * internal/sieve/manager.go: the scripts of the users

    [Manager] keeps the scripts of every user, the name of the active one, the
    records persisted in the accounts database when a store is attached, and the
    cache of senders who got a vacation reply.  An operation on one user runs under
    the lock of the manager and is saved before it is acknowledged
    ([mutateUser]): [saved] says whether the transaction that writes the record
    succeeds.  [iter] is the order in which Go walks a map. *)
From S2P Require Import Prelude GoLib Utf8 Base64 Bolt SieveParse SieveMatch SieveCompile SieveExec Accounts.

Definition Script : Type := list Command * env.
Record StoredScript := { Source : gostring; Compiled : Script }.

Record scriptRecord := { Version : Z; Active : gostring; Scripts : list (gostring * gostring) }.
Definition scriptRecordVersion : Z := 1.

Abbreviation UserScripts := (gmap gostring StoredScript).

Record Manager := {
  scripts : gmap gostring UserScripts;
  activeScripts : gmap gostring gostring;
  store : option (gmap gostring (Row scriptRecord));
  vacationCache : gmap gostring Z;
  vacationAccessor : list gostring
}.
Definition set_scripts f (m : Manager) : Manager := {|
  scripts := f (scripts m); activeScripts := activeScripts m; store := store m; vacationCache := vacationCache m; vacationAccessor := vacationAccessor m |}.
Definition set_active f (m : Manager) : Manager := {|
  scripts := scripts m; activeScripts := f (activeScripts m); store := store m; vacationCache := vacationCache m; vacationAccessor := vacationAccessor m |}.
Definition set_store f (m : Manager) : Manager := {|
  scripts := scripts m; activeScripts := activeScripts m; store := f (store m); vacationCache := vacationCache m; vacationAccessor := vacationAccessor m |}.
Definition set_vacation c a (m : Manager) : Manager := {|
  scripts := scripts m; activeScripts := activeScripts m; store := store m; vacationCache := c; vacationAccessor := a |}.

Definition NewManager : Manager := {|
  scripts := ∅; activeScripts := ∅; store := None; vacationCache := ∅; vacationAccessor := [] |}.

Definition vacationMaxSize : nat := Z.to_nat 10000.
Definition maxScriptsPerUser : nat := 100.
Definition maxScriptStoragePerUser : Z := 10 * 1024 * 1024.

Inductive script_error :=
  | ErrCompile (e : compile_error)
  | ErrQuotaMaxScripts | ErrQuotaStorage
  | ErrScriptNotFound | ErrScriptActive | ErrScriptExists
  | ErrScriptStorage
  | ErrNoScripts.                  (* "no scripts found for user" *)

Section Manager.
Context {U : UnicodeTables} {N : NetMail} {R : Regexp} {M : MessageStd}.
Context (iter : UserScripts -> list (gostring * StoredScript)).

Definition CompileScript (source : gostring) : result script_error Script :=
  match Compile source with Ok s => Ok s | Err e => Err (ErrCompile e) end.

Definition user_scripts (userID : gostring) (m : Manager) : UserScripts := default ∅ (scripts m !! userID).

Definition checkScriptQuotaLocked (userID scriptName : gostring) (size : Z) (m : Manager) : option script_error :=
  let userScripts := user_scripts userID m in
  if bool_decide (userScripts !! scriptName = None) && (maxScriptsPerUser <=? base.size userScripts)%nat then Some ErrQuotaMaxScripts
  else
  let total := foldl (fun t '(name, stored) => if name =s? scriptName then t else t + Z.of_nat (length (Source stored))) size (iter userScripts) in
  if maxScriptStoragePerUser <? total then Some ErrQuotaStorage else None.

Definition haveSpace := checkScriptQuotaLocked.

(** ** Persistence *)
Definition record_of (userID : gostring) (m : Manager) : scriptRecord := {|
  Version := scriptRecordVersion;
  Active := json_string (default [] (activeScripts m !! userID));
  Scripts := map (fun '(name, s) => (json_string name, json_string (Source s))) (iter (user_scripts userID m)) |}.

Definition saveUserLocked (saved : bool) (userID : gostring) (m : Manager) : option Manager :=
  if negb saved then None
  else if (base.size (user_scripts userID m) =? 0)%nat then Some (set_store (fmap (delete userID)) m)
  else Some (set_store (fmap <[userID := Stored (record_of userID m)]>) m).

(** A map with the entry another map has, or has not. *)
Definition restore {A} (k : gostring) (old new : gmap gostring A) : gmap gostring A :=
  match old !! k with Some v => <[k := v]> new | None => delete k new end.

Definition mutateUser (saved : bool) (userID : gostring) (fn : Manager -> result script_error Manager) (m : Manager)
  : option script_error * Manager :=
  match fn m with
  | Err e => (Some e, m)
  | Ok m' =>
      if bool_decide (store m = None) || (userID =s? []) then (None, m')
      else match saveUserLocked saved userID m' with
      | Some m' => (None, m')
      | None => (Some ErrScriptStorage, set_active (restore userID (activeScripts m)) (set_scripts (restore userID (scripts m)) m'))
      end
  end.

(** One record of the store; a user already in memory is left alone. *)
Definition loadRecordLocked (userID : gostring) (raw : Row scriptRecord) (m : Manager) : Manager :=
  if bool_decide (is_Some (scripts m !! userID)) then m else
  match raw with
  | Corrupt => m
  | Stored rec =>
      if negb (Version rec =? scriptRecordVersion) then m else
      let loaded := foldl (fun acc '(name, source) =>
        match CompileScript source with
        | Ok script => <[name := {| Source := source; Compiled := script |}]> acc
        | Err _ => acc
        end) ∅ (Scripts rec) in
      if (base.size loaded =? 0)%nat then m
      else
      let m := set_scripts <[userID := loaded]> m in
      if bool_decide (is_Some (loaded !! Active rec)) && negb (Active rec =s? []) then set_active <[userID := Active rec]> m else m
  end.

Definition AttachStore (bolt : gmap gostring (Row scriptRecord)) (m : Manager) : Manager :=
  match store m with
  | Some _ => m
  | None => set_store (fun _ => Some bolt) (foldl (fun m '(k, v) => loadRecordLocked k v m) m (cursor bolt))
  end.

Definition StoreAttached (m : Manager) : bool := bool_decide (is_Some (store m)).

(** ** Operations *)
Definition storeScript (saved : bool) (userID scriptName source : gostring) (enforceQuota : bool) (m : Manager) : option script_error * Manager :=
  match CompileScript source with
  | Err e => (Some e, m)
  | Ok script =>
      mutateUser saved userID (fun m =>
        match (if enforceQuota then checkScriptQuotaLocked userID scriptName (Z.of_nat (length source)) m else None) with
        | Some e => Err e
        | None => Ok (set_scripts <[userID := <[scriptName := {| Source := source; Compiled := script |}]> (user_scripts userID m)]> m)
        end) m
  end.

Definition StoreScript saved userID scriptName source m := storeScript saved userID scriptName source false m.

Definition SetActiveScriptByName (saved : bool) (userID scriptName : gostring) (m : Manager) : option script_error * Manager :=
  mutateUser saved userID (fun m =>
    match scripts m !! userID with
    | None => Err ErrNoScripts
    | Some userScripts =>
        match userScripts !! scriptName with
        | None => Err ErrScriptNotFound
        | Some _ => Ok (set_active <[userID := scriptName]> m)
        end
    end) m.

Definition SetActiveScript (saved1 saved2 : bool) (userID scriptName source : gostring) (m : Manager) : option script_error * Manager :=
  match StoreScript saved1 userID scriptName source m with
  | (Some e, m) => (Some e, m)
  | (None, m) => SetActiveScriptByName saved2 userID scriptName m
  end.

Definition GetActiveScript (userID : gostring) (m : Manager) : option Script :=
  activeName ← activeScripts m !! userID; userScripts ← scripts m !! userID; stored ← userScripts !! activeName; Some (Compiled stored).

Definition HasActiveScript (userID : gostring) (m : Manager) : bool := bool_decide (is_Some (activeScripts m !! userID)).

Definition DeleteScript (saved : bool) (userID scriptName : gostring) (m : Manager) : Manager :=
  snd (mutateUser saved userID (fun m =>
    match scripts m !! userID with
    | None => Ok m
    | Some userScripts =>
        let m := set_scripts <[userID := delete scriptName userScripts]> m in
        Ok (if default [] (activeScripts m !! userID) =s? scriptName then set_active (delete userID) m else m)
    end) m).

Definition deleteInactiveScript (saved : bool) (userID scriptName : gostring) (m : Manager) : option script_error * Manager :=
  mutateUser saved userID (fun m =>
    match user_scripts userID m !! scriptName with
    | None => Err ErrScriptNotFound
    | Some _ =>
        if bool_decide (activeScripts m !! userID = Some scriptName) then Err ErrScriptActive
        else Ok (set_scripts <[userID := delete scriptName (user_scripts userID m)]> m)
    end) m.

Definition deactivateScript (saved : bool) (userID : gostring) (m : Manager) : option script_error * Manager :=
  mutateUser saved userID (fun m => Ok (set_active (delete userID) m)) m.

Definition renameScript (saved : bool) (userID oldName newName : gostring) (m : Manager) : option script_error * Manager :=
  mutateUser saved userID (fun m =>
    let userScripts := user_scripts userID m in
    match userScripts !! oldName with
    | None => Err ErrScriptNotFound
    | Some stored =>
        match userScripts !! newName with
        | Some _ => Err ErrScriptExists
        | None =>
            let m := set_scripts <[userID := delete oldName (<[newName := stored]> userScripts)]> m in
            Ok (if bool_decide (activeScripts m !! userID = Some oldName) then set_active <[userID := newName]> m else m)
        end
    end) m.

Definition ListScripts (userID : gostring) (m : Manager) : list gostring := merge_sort lex_le (map fst (iter (user_scripts userID m))).

Definition GetActiveScriptName (userID : gostring) (m : Manager) : gostring := default [] (activeScripts m !! userID).

Definition GetScript (userID scriptName : gostring) (m : Manager) : option Script := Compiled <$> user_scripts userID m !! scriptName.

Definition scriptSource (userID scriptName : gostring) (m : Manager) : option gostring := Source <$> user_scripts userID m !! scriptName.

Definition GetScriptSource (userID scriptName : gostring) (m : Manager) : gostring := default [] (scriptSource userID scriptName m).

(** The actions for a message; a script that fails keeps it.  [late] is the
    deadline of the run (SieveExec.v). *)
Definition ProcessMessage (late : Z -> bool) (userID : gostring) (msg : MessageContext) (m : Manager) : list Action :=
  match GetActiveScript userID m with
  | None => [KeepAction []]
  | Some (cmds, exts) =>
      match Execute late cmds (Some exts) msg with
      | (actions, None) => actions
      | (_, Some _) => [KeepAction []]
      end
  end.

Definition ValidateScript (source : gostring) : option script_error :=
  match CompileScript source with Ok _ => None | Err e => Some e end.
End Manager.

(** ** Vacation replies *)
Definition day : Z := 24 * hour.

Definition vacationDays (days : Z) : Z := (if MaxVacationDays <? days then MaxVacationDays else days) * day.

Definition GetVacationInterval (days : Z) : Z :=
  let interval := vacationDays days in if interval <? day then day else interval.

Definition ShouldSendVacation (now : Z) (sender : gostring) (days : Z) (m : Manager) : bool :=
  match vacationCache m !! sender with
  | None => true
  | Some lastSent => GetVacationInterval days <=? time_sub now lastSent
  end.

Fixpoint remove_first (s : gostring) (l : list gostring) : list gostring :=
  match l with
  | [] => []
  | x :: l' => if x =s? s then l' else x :: remove_first s l'
  end.

Definition touchVacationLocked (now : Z) (sender : gostring) (m : Manager) : Manager :=
  let '(c, a) :=
    if bool_decide (is_Some (vacationCache m !! sender)) then (vacationCache m, remove_first sender (vacationAccessor m))
    else if (vacationMaxSize <=? base.size (vacationCache m))%nat then
      let n := (vacationMaxSize / 4)%nat in
      (foldl (fun c s => delete s c) (vacationCache m) (take n (vacationAccessor m)), drop n (vacationAccessor m))
    else (vacationCache m, vacationAccessor m) in
  set_vacation (<[sender := now]> c) (a ++ [sender]) m.

Definition RecordVacationSent now sender m := touchVacationLocked now sender m.

Definition CheckAndRecordVacationFor (now : Z) (sender : gostring) (interval : Z) (m : Manager) : bool * Manager :=
  let recent := match vacationCache m !! sender with
                | Some lastSent => time_sub now lastSent <? interval
                | None => false
                end in
  if (0 <? interval) && recent then (false, m) else (true, touchVacationLocked now sender m).

Definition CheckAndRecordVacation (now : Z) (sender : gostring) (days : Z) (m : Manager) : bool * Manager :=
  CheckAndRecordVacationFor now sender (GetVacationInterval days) m.
