(* ===== verification/SieveManagerProps.v ===== *)
(** * Properties of the script manager

    Every stored script compiles and the active one exists; what a restart reads
    back is what was in memory; and a sender gets one vacation reply per window. *)
From S2P Require Import Prelude GoLib Utf8 Base64 Bolt SieveParse SieveMatch SieveCompile SieveExec Accounts SieveManager.

(** ** Operations *)
Inductive MOp :=
  | MStore (saved : bool) (userID scriptName source : gostring) (enforceQuota : bool)
  | MActivate (saved : bool) (userID scriptName : gostring)
  | MDelete (saved : bool) (userID scriptName : gostring)
  | MDeleteInactive (saved : bool) (userID scriptName : gostring)
  | MDeactivate (saved : bool) (userID : gostring)
  | MRename (saved : bool) (userID oldName newName : gostring)
  | MVacation (now : Z) (sender : gostring) (interval : Z).

Definition text (s : gostring) : bool := valid_utf8 s && negb (s =s? []).

(** Names of scripts are texts (validScriptName), scripts are UTF-8. *)
Definition texts (o : MOp) : bool :=
  match o with
  | MStore _ _ name source _ => text name && valid_utf8 source
  | MRename _ _ _ name => text name
  | _ => true
  end.

Section Props.
Context {U : UnicodeTables} {N : NetMail} {R : Regexp} {M : MessageStd}.
Context (iter : UserScripts -> list (gostring * StoredScript)).
Hypothesis Hiter : forall us, iter us ≡ₚ map_to_list us.

Definition mexec (o : MOp) (m : Manager) : Manager :=
  match o with
  | MStore saved u n s q => snd (storeScript iter saved u n s q m)
  | MActivate saved u n => snd (SetActiveScriptByName iter saved u n m)
  | MDelete saved u n => DeleteScript iter saved u n m
  | MDeleteInactive saved u n => snd (deleteInactiveScript iter saved u n m)
  | MDeactivate saved u => snd (deactivateScript iter saved u m)
  | MRename saved u o n => snd (renameScript iter saved u o n m)
  | MVacation now s i => snd (CheckAndRecordVacationFor now s i m)
  end.

Definition mrun (ops : list MOp) (m : Manager) : Manager := foldl (fun m o => mexec o m) m ops.

(** ** The invariant *)
Definition good_script (n : gostring) (s : StoredScript) : Prop :=
  Compile (Source s) = Ok (Compiled s) /\ valid_utf8 (Source s) = true /\ text n = true.

(** What the store has of a user. *)
Definition on_disk (u : gostring) (m : Manager) : option (Row scriptRecord) :=
  if (base.size (user_scripts u m) =? 0)%nat then None else Some (Stored (record_of iter u m)).

Record Sound (m : Manager) : Prop := {
  all_good : forall u n s, user_scripts u m !! n = Some s -> good_script n s;
  active_there : forall u n, activeScripts m !! u = Some n -> is_Some (user_scripts u m !! n);
  durable : forall st, store m = Some st -> forall u, st !! u = if u =s? [] then None else on_disk u m
}.

(** An operation on one user. *)
Definition local_to (u : gostring) (m m' : Manager) : Prop :=
  (forall v, v <> u -> scripts m' !! v = scripts m !! v /\ activeScripts m' !! v = activeScripts m !! v) /\ store m' = store m.

Lemma user_scripts_same u m m' : scripts m' !! u = scripts m !! u -> user_scripts u m' = user_scripts u m.
Proof. unfold user_scripts. by intros ->. Qed.

Lemma on_disk_same u m m' : scripts m' !! u = scripts m !! u -> activeScripts m' !! u = activeScripts m !! u -> on_disk u m' = on_disk u m.
Proof. intros H1 H2. unfold on_disk, record_of. by rewrite (user_scripts_same _ _ _ H1), H2. Qed.

(** What a change does to one user keeps the invariant when it leaves good scripts
    and an active script that exists. *)
Lemma mutate_sound saved u fn m : Sound m ->
  (forall m', fn m = Ok m' -> local_to u m m' /\ (forall n s, user_scripts u m' !! n = Some s -> good_script n s) /\
    (forall n, activeScripts m' !! u = Some n -> is_Some (user_scripts u m' !! n))) ->
  Sound (snd (mutateUser iter saved u fn m)).
Proof.
  intros S H. unfold mutateUser. destruct (fn m) as [m' | e] eqn:Ef; [| done]. destruct (H m' eq_refl) as ((Hloc & Hst) & Hg & Ha). clear H.
  assert (Hgood : forall v n s, user_scripts v m' !! n = Some s -> good_script n s).
  { intros v n s. destruct (decide (v = u)) as [-> | Hv]; [apply Hg |]. rewrite (user_scripts_same v m m') by (by apply Hloc). apply S. }
  assert (Hact : forall v n, activeScripts m' !! v = Some n -> is_Some (user_scripts v m' !! n)).
  { intros v n. destruct (decide (v = u)) as [-> | Hv]; [apply Ha |]. destruct (Hloc v Hv) as [E1 E2].
    rewrite (user_scripts_same v m m' E1), E2. apply S. }
  destruct (bool_decide (store m = None) || (u =s? [])) eqn:Eg; [| unfold saveUserLocked; destruct saved; cbn [negb]].
  - cbn [snd]. split; [done | done |]. rewrite Hst. intros st Es v. apply orb_true_iff in Eg as [Eg | Eg]; apply bool_decide_eq_true in Eg; [congruence |].
    subst u. rewrite (durable _ S _ Es v). destruct (v =s? []) eqn:Ev; [done |]. apply bool_decide_eq_false in Ev.
    symmetry. apply on_disk_same; by apply Hloc.
  - apply orb_false_iff in Eg as [_ Eu]. apply bool_decide_eq_false in Eu.
    destruct (base.size (user_scripts u m') =? 0)%nat eqn:Ez; cbn [snd]; (split; [exact Hgood | exact Hact |]); cbn [store set_store]; rewrite Hst;
      intros st (st0 & Es & ->)%fmap_Some v; (destruct (decide (v = u)) as [-> | Hv];
      [rewrite ?lookup_delete_eq, ?lookup_insert_eq; rewrite bool_decide_eq_false_2 by done; unfold on_disk;
      change (user_scripts u (set_store _ m')) with (user_scripts u m'); by rewrite Ez
      | rewrite ?lookup_delete_ne, ?lookup_insert_ne by done; rewrite (durable _ S _ Es v); destruct (v =s? []); [done |];
      symmetry; by apply on_disk_same; apply Hloc]).
  - (* the change is taken back *)
      assert (Hback : forall v, scripts (set_active (restore u (activeScripts m)) (set_scripts (restore u (scripts m)) m')) !! v = scripts m !! v /\
      activeScripts (set_active (restore u (activeScripts m)) (set_scripts (restore u (scripts m)) m')) !! v = activeScripts m !! v).
    { intros v. cbn [scripts activeScripts set_active set_scripts]. unfold restore. destruct (decide (v = u)) as [-> | Hv].
      - split; [destruct (scripts m !! u) eqn:E | destruct (activeScripts m !! u) eqn:E]; by rewrite ?lookup_insert_eq, ?lookup_delete_eq.
      - destruct (Hloc v Hv) as [E1 E2]. split; [destruct (scripts m !! u) eqn:E | destruct (activeScripts m !! u) eqn:E];
          rewrite ?lookup_insert_ne, ?lookup_delete_ne by done; done. }
    set (mb := set_active _ _) in *. cbn [snd]. split.
    + intros v n s. rewrite (user_scripts_same v m mb) by apply Hback. apply S.
    + intros v n. rewrite (user_scripts_same v m mb) by apply Hback. rewrite (proj2 (Hback v)). apply S.
    + intros st Es v. change (store mb) with (store m') in Es. rewrite Hst in Es. rewrite (durable _ S _ Es v). destruct (v =s? []); [done |].
      symmetry. apply (on_disk_same v m mb); apply Hback.
Qed.

Lemma user_scripts_set u us m : user_scripts u (set_scripts <[u := us]> m) = us.
Proof. unfold user_scripts. cbn [scripts set_scripts]. by rewrite lookup_insert_eq. Qed.

Lemma local_scripts u us m : local_to u m (set_scripts <[u := us]> m).
Proof. split; [| done]. intros v Hv. cbn [scripts activeScripts set_scripts]. by rewrite lookup_insert_ne. Qed.

Lemma local_active u f m m' : local_to u m m' -> (forall v, v <> u -> f (activeScripts m') !! v = activeScripts m' !! v) -> local_to u m (set_active f m').
Proof.
  intros [H Hs] Hf. split; [| done]. intros v Hv. cbn [scripts activeScripts set_active]. rewrite Hf by done. by apply H.
Qed.

Lemma step_sound o m : texts o = true -> Sound m -> Sound (mexec o m).
Proof.
  intros Ht S. destruct o; cbn [mexec texts] in *.
  - unfold storeScript, CompileScript. destruct (Compile source) as [script |] eqn:Ec; [| done].
    apply andb_true_iff in Ht as [Ht Hs]. apply mutate_sound; [done |]. intros m' Hm.
    destruct (if enforceQuota then _ else _); [done |]. injection Hm as <-. split; [apply local_scripts |]. rewrite user_scripts_set. split.
    + intros n s Hn. apply lookup_insert_Some in Hn as [[<- <-] | [_ Hn]]; [by split | by apply (all_good _ S userID)].
    + intros n Hn. apply lookup_insert_is_Some. destruct (decide (scriptName = n)); [by left |]. right. split; [done |]. by apply (active_there _ S userID).
  - apply mutate_sound; [done |]. intros m' Hm. destruct (scripts m !! userID) as [us |] eqn:Eu; [| done].
    destruct (us !! scriptName) as [s |] eqn:En; [| done]. injection Hm as <-. split; [| split].
    + apply local_active; [by split |]. intros v Hv. by rewrite lookup_insert_ne.
    + intros n s0. apply (all_good _ S userID).
    + intros n. cbn [activeScripts set_active]. rewrite lookup_insert_eq. intros [= <-]. exists s. unfold user_scripts. cbn [scripts set_active].
      rewrite Eu. exact En.
  - unfold DeleteScript. apply mutate_sound; [done |]. intros m' Hm. destruct (scripts m !! userID) as [us |] eqn:Eu.
    + assert (Eus : user_scripts userID m = us) by (unfold user_scripts; by rewrite Eu).
      cbv zeta in Hm. cbn [activeScripts set_scripts] in Hm. destruct (default [] (activeScripts m !! userID) =s? scriptName) eqn:Ea.
      * injection Hm as <-. split; [| split].
        -- apply local_active; [apply local_scripts |]. intros v Hv. by rewrite lookup_delete_ne.
        -- intros n s. change (user_scripts userID (set_active _ _)) with (user_scripts userID (set_scripts <[userID := delete scriptName us]> m)).
          rewrite user_scripts_set. intros Hn. apply lookup_delete_Some in Hn as [_ Hn]. apply (all_good _ S userID). by rewrite Eus.
        -- intros n. cbn [activeScripts set_active]. by rewrite lookup_delete_eq.
      * injection Hm as <-. split; [apply local_scripts | split]; rewrite user_scripts_set.
        -- intros n s Hn. apply lookup_delete_Some in Hn as [_ Hn]. apply (all_good _ S userID). by rewrite Eus.
        -- intros n Hn. cbn [activeScripts set_scripts] in Hn. rewrite Hn in Ea. apply bool_decide_eq_false in Ea.
          apply lookup_delete_is_Some. split; [done |]. rewrite <- Eus. by apply (active_there _ S userID).
    + injection Hm as <-. split; [by split | split; [apply (all_good _ S userID) | apply (active_there _ S userID)]].
  - apply mutate_sound; [done |]. intros m' Hm. destruct (user_scripts userID m !! scriptName); [| done]. case_bool_decide as Ea; [done |].
    injection Hm as <-. split; [apply local_scripts | split]; rewrite user_scripts_set.
    + intros n s0 Hn. apply lookup_delete_Some in Hn as [_ Hn]. by apply (all_good _ S userID).
    + intros n Hn. cbn [activeScripts set_scripts] in Hn. apply lookup_delete_is_Some. split; [by intros -> |]. by apply (active_there _ S userID).
  - apply mutate_sound; [done |]. intros m' [= <-]. split; [| split].
    + apply local_active; [by split |]. intros v Hv. by rewrite lookup_delete_ne.
    + apply (all_good _ S userID).
    + intros n. cbn [activeScripts set_active]. by rewrite lookup_delete_eq.
  - apply mutate_sound; [done |]. intros m' Hm. cbv zeta in Hm. destruct (user_scripts userID m !! oldName) as [s |] eqn:Eo; [| done].
    destruct (user_scripts userID m !! newName) eqn:En; [done |]. cbn [activeScripts set_scripts] in Hm.
    set (us := delete oldName (<[newName := s]> (user_scripts userID m))) in *.
    assert (Hgood : forall n s0, us !! n = Some s0 -> good_script n s0).
    { intros n s0 Hn. apply lookup_delete_Some in Hn as [_ Hn]. apply lookup_insert_Some in Hn as [[<- <-] | [_ Hn]]; [| by apply (all_good _ S userID)].
      destruct (all_good _ S userID _ _ Eo) as (? & ? & _). by split. }
    case_bool_decide as Ea; injection Hm as <-.
    + split; [| split].
      * apply local_active; [apply local_scripts |]. intros v Hv. by rewrite lookup_insert_ne.
      * change (user_scripts userID (set_active _ _)) with (user_scripts userID (set_scripts <[userID := us]> m)). by rewrite user_scripts_set.
      * intros n. change (user_scripts userID (set_active _ _)) with (user_scripts userID (set_scripts <[userID := us]> m)).
        rewrite user_scripts_set. cbn [activeScripts set_active]. rewrite lookup_insert_eq. intros [= <-]. unfold us.
        rewrite lookup_delete_ne by congruence. rewrite lookup_insert_eq. by eexists.
    + split; [apply local_scripts | split]; rewrite user_scripts_set; [done |]. intros n Hn. cbn [activeScripts set_scripts] in Hn. unfold us.
      apply lookup_delete_is_Some. split; [congruence |]. apply lookup_insert_is_Some. pose proof (active_there _ S userID n Hn) as Hs.
      destruct (decide (newName = n)); auto.
  - unfold CheckAndRecordVacationFor. split_if; [done |]. cbn [snd]. unfold touchVacationLocked.
    destruct (if bool_decide _ then _ else _) as [c a]. by destruct S as [S1 S2 S3].
Qed.

Lemma run_sound ops m : forallb texts ops = true -> Sound m -> Sound (mrun ops m).
Proof.
  revert m. induction ops as [| o ops IH]; intros m Ht S; [done |]. cbn [forallb] in Ht. apply andb_true_iff in Ht as [H1 H2].
  apply (IH (mexec o m)); [done |]. by apply step_sound.
Qed.

Lemma fresh_sound : Sound (AttachStore ∅ NewManager).
Proof.
  unfold AttachStore. cbn [store NewManager]. rewrite cursor_empty. cbn [foldl]. split.
  - intros u n s. unfold user_scripts. cbn [scripts set_store NewManager]. rewrite lookup_empty. cbn. by rewrite lookup_empty.
  - intros u n. cbn [activeScripts set_store NewManager]. by rewrite lookup_empty.
  - intros st [= <-] u. unfold on_disk, user_scripts. cbn [scripts set_store NewManager]. rewrite !lookup_empty. cbn. by case_bool_decide.
Qed.

(** ** Restart *)
Lemma load_other k raw m u : u <> k -> scripts (loadRecordLocked k raw m) !! u = scripts m !! u /\
  activeScripts (loadRecordLocked k raw m) !! u = activeScripts m !! u.
Proof.
  intros Hu. unfold loadRecordLocked. cbv zeta. case_bool_decide; [done |]. destruct raw as [rec |]; [| done].
  destruct (negb _); [done |]. destruct (_ =? 0)%nat; [done |]. destruct (_ && _); cbn [scripts activeScripts set_scripts set_active];
    by rewrite ?lookup_insert_ne by done.
Qed.

Lemma load_fold_other l m u : u ∉ map fst l ->
  scripts (foldl (fun m '(k, v) => loadRecordLocked k v m) m l) !! u = scripts m !! u /\
  activeScripts (foldl (fun m '(k, v) => loadRecordLocked k v m) m l) !! u = activeScripts m !! u.
Proof.
  revert m. induction l as [| [k v] l IH]; intros m Hu; [done |]. cbn [map fst] in Hu. apply not_elem_of_cons in Hu as [Hk Hu].
  cbn [foldl]. destruct (IH (loadRecordLocked k v m) Hu) as [-> ->]. by apply load_other.
Qed.

Lemma load_fold_self l m u raw : NoDup (map fst l) -> (u, raw) ∈ l -> scripts m !! u = None -> activeScripts m !! u = None ->
  exists m0, scripts m0 !! u = None /\ activeScripts m0 !! u = None /\
  scripts (foldl (fun m '(k, v) => loadRecordLocked k v m) m l) !! u = scripts (loadRecordLocked u raw m0) !! u /\
  activeScripts (foldl (fun m '(k, v) => loadRecordLocked k v m) m l) !! u = activeScripts (loadRecordLocked u raw m0) !! u.
Proof.
  revert m. induction l as [| [k v] l IH]; intros m Hn Hin Hs Ha; [by apply not_elem_of_nil in Hin |]. cbn [map fst] in Hn.
  apply NoDup_cons in Hn as [Hk Hn]. cbn [foldl]. destruct (decide (u = k)) as [-> | Hne].
  - assert (v = raw) as ->.
    { apply elem_of_cons in Hin as [[= ->] | Hin]; [done |]. exfalso. apply Hk. apply list_elem_of_fmap. by exists (k, raw). }
    exists m. split_and!; [done | done | |]; by apply load_fold_other.
  - apply elem_of_cons in Hin as [[= -> ->] | Hin]; [done |]. destruct (load_other k v m u Hne) as [E1 E2].
    apply IH; [done | done | by rewrite E1 | by rewrite E2].
Qed.

(** The scripts of a record, compiled again, are the scripts it was made of. *)
Lemma reload_scripts (us : UserScripts) : (forall n s, us !! n = Some s -> good_script n s) ->
  foldl (fun (acc : UserScripts) '(name, source) => match CompileScript source with
  | Ok script => <[name := {| Source := source; Compiled := script |}]> acc | Err _ => acc end) ∅
  (map (fun '(name, s) => (json_string name, json_string (Source s))) (iter us)) = us.
Proof.
  intros Hg. assert (Hl : forall n s, (n, s) ∈ iter us -> us !! n = Some s) by (intros n s H; rewrite Hiter in H; by apply elem_of_map_to_list).
  assert (Hgen : forall l acc, (forall n s, (n, s) ∈ l -> us !! n = Some s) ->
    foldl (fun (acc : UserScripts) '(name, source) => match CompileScript source with
    | Ok script => <[name := {| Source := source; Compiled := script |}]> acc | Err _ => acc end) acc
    (map (fun '(name, s) => (json_string name, json_string (Source s))) l) =
    foldl (fun (acc : UserScripts) '(n, s) => <[n := s]> acc) acc l).
  { induction l as [| [n s] l IH]; intros acc H; [done |]. cbn [map foldl]. destruct (Hg n s) as (Hc & Hv & Ht); [apply H; constructor |].
    unfold text in Ht. apply andb_true_iff in Ht as [Ht _]. unfold json_string. rewrite (proj1 (runes_valid _ Hv)), (proj1 (runes_valid _ Ht)).
    unfold CompileScript. rewrite Hc. rewrite IH by (intros n' s' H'; apply H; by constructor). by destruct s. }
  rewrite Hgen by done. clear Hgen. assert (Hin : forall n s, us !! n = Some s -> (n, s) ∈ iter us) by (intros n s H; rewrite Hiter; by apply elem_of_map_to_list).
  assert (Hres : forall l acc n s, (forall n s, (n, s) ∈ l -> us !! n = Some s) -> (acc !! n = Some s -> us !! n = Some s) ->
    foldl (fun (acc : UserScripts) '(n, s) => <[n := s]> acc) acc l !! n = Some s -> us !! n = Some s).
  { induction l as [| [n0 s0] l IH]; intros acc n s H Ha; [done |]. cbn [foldl]. apply IH; [intros n' s' H'; apply H; by constructor |].
    intros Hi. apply lookup_insert_Some in Hi as [[<- <-] | [_ Hi]]; [apply H; constructor | by apply Ha]. }
  assert (Hsome : forall l acc n, (exists s, (n, s) ∈ l) \/ is_Some (acc !! n) -> is_Some (foldl (fun (acc : UserScripts) '(n, s) => <[n := s]> acc) acc l !! n)).
  { induction l as [| [n0 s0] l IH]; intros acc n H.
    - destruct H as [[s H] | H]; [by apply not_elem_of_nil in H | done].
    - cbn [foldl]. apply IH. destruct H as [[s H] | H].
      + apply elem_of_cons in H as [[= -> ->] | H]; [right; rewrite lookup_insert_eq; by eexists | left; by exists s].
      + right. apply lookup_insert_is_Some. destruct (decide (n0 = n)); auto. }
  apply map_eq. intros n. destruct (us !! n) as [s |] eqn:E.
  - destruct (Hsome (iter us) ∅ n) as [s' Hs']; [left; exists s; by apply Hin |]. rewrite Hs'.
    symmetry. rewrite <- E. apply (Hres _ _ _ _ Hl) in Hs'; [done |]. by rewrite lookup_empty.
  - apply eq_None_not_Some. intros [s Hs]. apply (Hres _ _ _ _ Hl) in Hs; [congruence | by rewrite lookup_empty].
Qed.

Lemma restart_user st m u : Sound m -> store m = Some st -> u <> [] ->
  user_scripts u (AttachStore st NewManager) = user_scripts u m /\
  activeScripts (AttachStore st NewManager) !! u = activeScripts m !! u.
Proof.
  intros S Es Hu. pose proof (durable _ S _ Es u) as Hd. rewrite bool_decide_eq_false_2 in Hd by done. unfold on_disk in Hd.
  unfold AttachStore. cbn [store NewManager]. set (m1 := foldl _ _ _).
  change (user_scripts u (set_store _ m1)) with (user_scripts u m1). change (activeScripts (set_store (fun _ => Some st) m1)) with (activeScripts m1).
  destruct (base.size (user_scripts u m) =? 0)%nat eqn:Ez.
  - apply Nat.eqb_eq, map_size_empty_inv in Ez. assert (Hn : u ∉ map fst (cursor st)).
    { intros Hin. apply list_elem_of_fmap in Hin as ([k v] & -> & Hin%elem_of_cursor). cbn [fst] in Hd. congruence. }
    destruct (load_fold_other (cursor st) NewManager u Hn) as [E1 E2]. fold m1 in E1, E2. split.
    + unfold user_scripts at 1. rewrite E1, Ez. cbn [scripts NewManager]. by rewrite lookup_empty.
    + rewrite E2. cbn [activeScripts NewManager]. rewrite lookup_empty. symmetry. apply eq_None_not_Some. intros [n Hn'].
      pose proof (active_there _ S _ _ Hn') as [s Hs]. rewrite Ez in Hs. by rewrite lookup_empty in Hs.
  - destruct (load_fold_self (cursor st) NewManager u (Stored (record_of iter u m))) as (m0 & H0 & H0' & E1 & E2);
      [apply cursor_keys | by apply elem_of_cursor | apply lookup_empty | apply lookup_empty |].
    fold m1 in E1, E2. rewrite E2. unfold user_scripts at 1. rewrite E1. clear E1 E2 m1.
    unfold loadRecordLocked. rewrite H0, bool_decide_eq_false_2 by (by intros [? ?]). cbn [Version record_of]. cbv zeta.
    change (negb (scriptRecordVersion =? scriptRecordVersion)) with false. cbv iota. cbn [Scripts record_of].
    rewrite (reload_scripts (user_scripts u m)) by (intros n s; apply (all_good _ S u)). rewrite Ez. cbn [Active record_of].
    destruct (activeScripts m !! u) as [n |] eqn:Ea.
    + cbn [default]. pose proof (active_there _ S _ _ Ea) as [s Hs]. destruct (all_good _ S _ _ _ Hs) as (_ & _ & Ht).
      unfold text in Ht. apply andb_true_iff in Ht as [Ht Hne]. unfold json_string. cbn [default from_option id]. rewrite (proj1 (runes_valid _ Ht)).
      rewrite bool_decide_eq_true_2 by (by eexists). cbn [andb]. rewrite Hne. cbn [scripts activeScripts set_scripts set_active].
      rewrite !lookup_insert_eq. done.
    + cbn [default from_option id]. change (json_string []) with ([] : gostring). rewrite (bool_decide_eq_true_2 ([] = [])) by done.
      cbn [negb]. rewrite andb_false_r. cbn [scripts activeScripts set_scripts]. rewrite lookup_insert_eq. by rewrite H0'.
Qed.
End Props.

(** ** Vacation replies *)

(** The list of the senders, oldest reply first, names the cache. *)
Record LruInv (m : Manager) : Prop := {
  lru_nodup : NoDup (vacationAccessor m);
  lru_dom : forall s, s ∈ vacationAccessor m <-> is_Some (vacationCache m !! s);
  lru_bound : (length (vacationAccessor m) <= vacationMaxSize)%nat
}.

Lemma lru_size m : LruInv m -> base.size (vacationCache m) = length (vacationAccessor m).
Proof.
  intros [Hn Hd _]. rewrite <- (size_dom (vacationCache m)). rewrite <- (size_list_to_set (C := gset gostring) (vacationAccessor m)) by done.
  f_equal. apply set_eq. intros s. by rewrite elem_of_dom, elem_of_list_to_set, Hd.
Qed.

Lemma remove_first_elem s l x : NoDup l -> x ∈ remove_first s l <-> x ∈ l /\ x <> s.
Proof.
  induction l as [| y l IH]; intros Hn; cbn [remove_first]; [set_solver |]. apply NoDup_cons in Hn as [Hy Hn].
  case_bool_decide as E; [subst; set_solver |]. rewrite !elem_of_cons, IH by done. naive_solver.
Qed.

Lemma remove_first_nodup s l : NoDup l -> NoDup (remove_first s l).
Proof.
  induction l as [| y l IH]; intros Hn; cbn [remove_first]; [done |]. pose proof Hn as Hn'. apply NoDup_cons in Hn as [Hy Hn].
  case_bool_decide; [done |]. apply NoDup_cons. split; [| by apply IH]. rewrite remove_first_elem by done. naive_solver.
Qed.

Lemma remove_first_length s l : s ∈ l -> length l = S (length (remove_first s l)).
Proof.
  induction l as [| y l IH]; intros H; [by apply not_elem_of_nil in H |]. cbn [remove_first]. case_bool_decide as E; [done |].
  cbn [length]. f_equal. apply IH. apply elem_of_cons in H as [-> | H]; done.
Qed.

(** The cache and the list after room was made, before the sender is added. *)
Definition make_room (sender : gostring) (m : Manager) : gmap gostring Z * list gostring :=
  if bool_decide (is_Some (vacationCache m !! sender)) then (vacationCache m, remove_first sender (vacationAccessor m))
  else if (vacationMaxSize <=? base.size (vacationCache m))%nat then
    let n := (vacationMaxSize / 4)%nat in
    (foldl (fun c s => delete s c) (vacationCache m) (take n (vacationAccessor m)), drop n (vacationAccessor m))
  else (vacationCache m, vacationAccessor m).

Lemma touch_split now s m : touchVacationLocked now s m =
  set_vacation (<[s := now]> (fst (make_room s m))) (snd (make_room s m) ++ [s]) m.
Proof. unfold touchVacationLocked. fold (make_room s m). by destruct (make_room s m). Qed.

Lemma lookup_evicted {A} (ks : list gostring) (b : gmap gostring A) k :
  foldl (fun m k => delete k m) b ks !! k = if bool_decide (k ∈ ks) then None else b !! k.
Proof.
  revert b. induction ks as [| j ks IH]; intros b; cbn [foldl]; [by rewrite bool_decide_eq_false_2 by apply not_elem_of_nil |].
  rewrite IH. destruct (decide (k = j)) as [-> | Hne].
  - rewrite (bool_decide_eq_true_2 (j ∈ j :: ks)) by constructor. rewrite lookup_delete_eq. by case_bool_decide.
  - rewrite lookup_delete_ne by done. rewrite (bool_decide_ext (k ∈ j :: ks) (k ∈ ks)); [done |]. rewrite elem_of_cons. naive_solver.
Qed.

Lemma room_spec s m : LruInv m -> let '(c, a) := make_room s m in
  NoDup a /\ (s ∉ a) /\ (length a < vacationMaxSize)%nat /\ forall x, x <> s -> (x ∈ a <-> is_Some (c !! x)) /\ (x ∈ a -> c !! x = vacationCache m !! x).
Proof.
  intros I. pose proof (lru_size m I) as Hz. destruct I as [Hn Hd Hb]. unfold make_room. case_bool_decide as Ec.
  - apply Hd in Ec. pose proof (remove_first_length s _ Ec). split_and!; [by apply remove_first_nodup | rewrite remove_first_elem by done; naive_solver | lia |].
    intros x Hx. rewrite remove_first_elem by done. rewrite Hd. naive_solver.
  - destruct (Nat.leb_spec vacationMaxSize (base.size (vacationCache m))) as [Hl | Hl]; cbn [fst snd].
    + assert (Hs : s ∉ vacationAccessor m) by (by rewrite Hd). cbv zeta. set (n := (vacationMaxSize / 4)%nat).
      assert (Hn0 : (0 < n)%nat) by (apply Nat.ltb_lt; vm_compute; reflexivity).
      assert (Hm0 : (0 < vacationMaxSize)%nat) by (apply Nat.ltb_lt; vm_compute; reflexivity).
      pose proof Hn as Hn'. rewrite <- (take_drop n (vacationAccessor m)) in Hn'. apply NoDup_app in Hn' as (H1 & H2 & H3). split_and!; [done | | rewrite length_drop; lia |].
      * intros H. apply Hs. rewrite <- (take_drop n (vacationAccessor m)). apply elem_of_app. by right.
      * intros x Hx. rewrite lookup_evicted. split.
        -- case_bool_decide as Et; [split; [intros H; exfalso; by apply (H2 x) | by intros [? ?]] |].
           rewrite <- Hd. rewrite <- (take_drop n (vacationAccessor m)) at 2. rewrite elem_of_app. split; [by right | by intros [H | H]].
        -- intros H. rewrite bool_decide_eq_false_2; [done |]. intros Ht. by apply (H2 x).
    + split_and!; [done | by rewrite Hd | lia |]. intros x Hx. split; [apply Hd | done].
Qed.

Lemma touch_lru now s m : LruInv m -> LruInv (touchVacationLocked now s m).
Proof.
  intros I. pose proof (room_spec s m I) as H. rewrite touch_split. destruct (make_room s m) as [c a]. destruct H as (H1 & H2 & H3 & H4).
  split; cbn [vacationAccessor vacationCache set_vacation fst snd].
  - apply NoDup_app. split_and!; [done | | apply NoDup_singleton]. intros x Hx ->%list_elem_of_singleton. done.
  - intros x. rewrite elem_of_app, list_elem_of_singleton, lookup_insert_is_Some. destruct (decide (x = s)) as [-> | Hx]; [naive_solver |].
    destruct (H4 x Hx) as [-> _]. naive_solver.
  - rewrite length_app. cbn [length]. lia.
Qed.

(** A sender with at most [k] more recent ones, answered at [t]. *)
Definition recent_at (t : Z) (s : gostring) (k : nat) (m : Manager) : Prop :=
  vacationCache m !! s = Some t /\ exists l1 l2, vacationAccessor m = l1 ++ s :: l2 /\ (length l2 <= k)%nat.

Lemma remove_first_app_l s l1 l2 : s ∈ l1 -> remove_first s (l1 ++ l2) = remove_first s l1 ++ l2.
Proof.
  induction l1 as [| y l1 IH]; intros H; [by apply not_elem_of_nil in H |]. cbn [app remove_first]. case_bool_decide; [done |].
  cbn [app]. f_equal. apply IH. by apply elem_of_cons in H as [-> | H].
Qed.

Lemma remove_first_app_r s l1 l2 : s ∉ l1 -> remove_first s (l1 ++ l2) = l1 ++ remove_first s l2.
Proof.
  induction l1 as [| y l1 IH]; intros H; [done |]. cbn [app remove_first]. apply not_elem_of_cons in H as [H1 H2].
  rewrite bool_decide_eq_false_2 by done. f_equal. by apply IH.
Qed.

Lemma touch_recent now t s s' k m : LruInv m -> s' <> s -> (k < vacationMaxSize - vacationMaxSize / 4)%nat ->
  recent_at t s k m -> recent_at t s (S k) (touchVacationLocked now s' m).
Proof.
  intros I Hne Hk (Hc & l1 & l2 & El & Hl2). pose proof (room_spec s' m I) as Hr. rewrite touch_split.
  assert (Ha : exists l1' l2', snd (make_room s' m) = l1' ++ s :: l2' /\ (length l2' <= k)%nat).
  { pose proof (lru_size m I) as Hz. destruct I as [Hn Hd Hb]. unfold make_room. case_bool_decide as Ec; cbn [snd].
    - apply Hd in Ec. rewrite El in Ec |- *. apply elem_of_app in Ec as [Ec | Ec].
      + exists (remove_first s' l1), l2. rewrite remove_first_app_l by done. done.
      + rewrite El in Hn. apply NoDup_app in Hn as (_ & Hx & Hn). assert (Hs' : s' ∈ l2) by (by apply elem_of_cons in Ec as [-> |]).
        rewrite remove_first_app_r by (intros H; by apply (Hx s')). cbn [remove_first]. rewrite bool_decide_eq_false_2 by done.
        exists l1, (remove_first s' l2). split; [done |]. pose proof (remove_first_length s' l2 Hs'). lia.
    - destruct (Nat.leb_spec vacationMaxSize (base.size (vacationCache m))) as [Hl | Hl]; cbn [snd]; [| by exists l1, l2]. cbv zeta.
      set (n := (vacationMaxSize / 4)%nat) in *. assert (Hlen : (n <= length l1)%nat).
      { rewrite Hz, El, length_app in Hl. cbn [length] in Hl. lia. }
      exists (drop n l1), l2. rewrite El, drop_app_le by done. done. }
  destruct (make_room s' m) as [c a]. cbn [fst snd] in *. destruct Ha as (l1' & l2' & -> & Hl'). destruct Hr as (_ & _ & _ & Hr). split.
  - cbn [vacationCache set_vacation]. rewrite lookup_insert_ne by done. rewrite <- Hc. apply (Hr s); [done |]. apply elem_of_app. right. constructor.
  - cbn [vacationAccessor set_vacation]. exists l1', (l2' ++ [s']). rewrite <- app_assoc. split; [done |]. rewrite length_app. cbn [length]. lia.
Qed.

Lemma touch_self now s m : LruInv m -> recent_at now s 0 (touchVacationLocked now s m).
Proof.
  intros I. rewrite touch_split. split; cbn [vacationCache vacationAccessor set_vacation]; [apply lookup_insert_eq |].
  exists (snd (make_room s m)), []. done.
Qed.

Lemma check_cases now s i m : CheckAndRecordVacationFor now s i m = (false, m) \/
  CheckAndRecordVacationFor now s i m = (true, touchVacationLocked now s m).
Proof. unfold CheckAndRecordVacationFor. cbv zeta. destruct ((0 <? i) && _); auto. Qed.

Lemma check_lru now s i m : LruInv m -> LruInv (snd (CheckAndRecordVacationFor now s i m)).
Proof. intros I. destruct (check_cases now s i m) as [-> | ->]; [done |]. by apply touch_lru. Qed.

Section Claims.
Context {U : UnicodeTables} {N : NetMail} {R : Regexp} {M : MessageStd}.


(** The replies recorded for others, one after the other. *)
Definition replies (l : list (Z * gostring * Z)) (m : Manager) : Manager :=
  foldl (fun m '(now, s, i) => snd (CheckAndRecordVacationFor now s i m)) m l.

(** A sender gets one vacation reply per window: after a reply, the next request
    of the same key within the interval is refused, however many other senders wrote
    in between, as long as fewer than 7500 of them were answered (the cache then
    makes room by forgetting the oldest quarter). *)
Theorem vacation_once t t' s i i' others m m1 :
  LruInv m -> CheckAndRecordVacationFor t s i m = (true, m1) ->
  Forall (fun '(_, s', _) => s' <> s) others -> Z.of_nat (length others) < 7500 -> time_sub t' t < i' -> 0 < i' ->
  fst (CheckAndRecordVacationFor t' s i' (replies others m1)) = false.
Proof.
  intros I Hc Ho Hlen Ht Hi. destruct (check_cases t s i m) as [E | E]; rewrite E in Hc; [done |]. injection Hc as <-. clear E.
  assert (H0 : LruInv (touchVacationLocked t s m) /\ recent_at t s 0 (touchVacationLocked t s m)) by (split; [by apply touch_lru | by apply touch_self]).
  set (room := (vacationMaxSize - vacationMaxSize / 4)%nat). assert (Hroom : Z.of_nat room = 7500) by (vm_compute; reflexivity).
  assert (Hl : (length others < room)%nat) by lia. clear Hlen.
  assert (Hgen : forall l k m2, Forall (fun '(_, s', _) => s' <> s) l -> (k + length l < room)%nat -> LruInv m2 -> recent_at t s k m2 ->
    exists k', recent_at t s k' (replies l m2)).
  { induction l as [| [[now s'] j] l IH]; intros k m2 Hf Hk I2 Hr; [by exists k |]. apply Forall_cons in Hf as [Hs Hf]. cbn [length] in Hk.
    change (replies ((now, s', j) :: l) m2) with (replies l (snd (CheckAndRecordVacationFor now s' j m2))).
    destruct (check_cases now s' j m2) as [-> | ->]; cbn [snd].
    - apply (IH k); [done | lia | done | done].
    - apply (IH (S k)); [done | lia | by apply touch_lru |]. apply touch_recent; [done | done | | done].
      fold room. lia. }
  destruct (Hgen others 0%nat _ Ho Hl (proj1 H0) (proj2 H0)) as [k' [Hc _]].
  unfold CheckAndRecordVacationFor. rewrite Hc. rewrite (proj2 (Z.ltb_lt 0 i') Hi), (proj2 (Z.ltb_lt _ i') Ht). done.
Qed.
End Claims.
