(* ===== verification/ManageSieve.v ===== *)
(** * internal/sieve/managesieve.go: the ManageSieve server

    A session of RFC 5804 over the octets of the connection: [input] is what the
    client has still to be read, [output] what was written.  The reader takes one
    octet at a time and keeps nothing back, so a TLS handshake starts exactly after
    the STARTTLS line; [handshake] is what the connection yields inside TLS.  A
    command is a computation in a state and error monad over the session and what
    the sessions share (the script manager and the failed logins).  Tracing, the
    listeners and deadlines are left out, as is the text of a read error. *)
From S2P Require Import Prelude GoLib Utf8 Base64 Bolt SmtpData SieveParse SieveMatch SieveCompile SieveExec Accounts SieveManager.

Definition DQUOTE : ascii := byte_of 34.
Definition BSLASH : ascii := "\".

(** ** Strings of the protocol *)

(** The words of a line: [cur] is the word being read, [inQuote] and [escaped] the
    state of the quoted string. *)
Fixpoint words_go (cur : gostring) (inQuote escaped : bool) (rs : list Z) : list gostring :=
  match rs with
  | [] => if bool_decide (cur = []) then [] else [cur]
  | ch :: rs =>
      let w := encode_rune ch in
      if escaped then words_go (cur ++ w) inQuote false rs
      else if ch =? 92 then words_go (cur ++ w) inQuote inQuote rs
      else if ch =? 34 then words_go (cur ++ w) (negb inQuote) false rs
      else if ch =? 32 then
        if inQuote then words_go (cur ++ w) inQuote false rs
        else if bool_decide (cur = []) then words_go [] inQuote false rs
        else cur :: words_go [] inQuote false rs
      else words_go (cur ++ w) inQuote false rs
  end.
Definition parseManageSieveLine (line : gostring) : list gostring := words_go [] false false (runes line).

Fixpoint unescape (s : gostring) : gostring :=
  match s with
  | [] => []
  | c :: s' => if c =c? BSLASH then match s' with d :: s'' => d :: unescape s'' | [] => [c] end else c :: unescape s'
  end.

(** A quoted string of at least two octets loses its quotes and escapes. *)
Definition unquoteManageSieveArg (arg : gostring) : gostring :=
  match arg with
  | c :: (_ :: _) as inner =>
      if (c =c? DQUOTE) && bool_decide (last inner = Some DQUOTE) then unescape (removelast inner) else arg
  | _ => arg
  end.

Definition escape_quoted (c : ascii) : gostring := if (c =c? BSLASH) || (c =c? DQUOTE) then [BSLASH; c] else [c].
Definition quoteManageSieveString (v : gostring) : gostring := [DQUOTE] ++ concat (map escape_quoted v) ++ [DQUOTE].

(** Is the rest of a quoted string, after its opening quote, closed by its last octet? *)
Fixpoint closed_at_end (s : gostring) : bool :=
  match s with
  | [] => false
  | c :: s' =>
      if c =c? BSLASH then match s' with _ :: s'' => closed_at_end s'' | [] => false end
      else if c =c? DQUOTE then bool_decide (s' = []) else closed_at_end s'
  end.
Definition quotedStringComplete (arg : gostring) : bool :=
  match arg with c :: (_ :: _) as s => (c =c? DQUOTE) && closed_at_end s | _ => false end.

(** What [validScriptName] complains of. *)
Inductive name_error := NameEmpty | NameTooLong | NameNotUTF8 | NameControl.
Definition name_error_text (e : name_error) : gostring :=
  match e with
  | NameEmpty => "script name cannot be empty"
  | NameTooLong => "script name too long"
  | NameNotUTF8 => "script name is not valid UTF-8"
  | NameControl => "script name contains control characters"
  end.
Definition control_rune (r : Z) : bool :=
  (r <? 32) || (r =? 127) || ((128 <=? r) && (r <? 160)) || (r =? 8232) || (r =? 8233).
Definition validScriptName (name : gostring) : option name_error :=
  if bool_decide (name = []) then Some NameEmpty
  else if (128 <? length name)%nat then Some NameTooLong
  else if negb (valid_utf8 name) then Some NameNotUTF8
  else if existsb control_rune (runes name) then Some NameControl
  else None.

(** ** State *)
Record Config := {
  tlsAvailable : bool;
  authHandler : gostring -> gostring -> bool;
  userResolver : gostring -> gostring;      (* [[]]: no key for the login *)
  maxAuthFailures : Z;
  lockoutDuration : Z
}.

Record Shared := { manager : Manager; authFailures : gmap gostring (list Z) }.
Record Session := { input : gostring; output : gostring; user : gostring; tls : bool; ip : gostring }.
Definition State : Type := Session * Shared.

Definition with_input (i : gostring) (s : Session) : Session := {| input := i; output := output s; user := user s; tls := tls s; ip := ip s |}.
Definition with_user (u : gostring) (s : Session) : Session := {| input := input s; output := output s; user := u; tls := tls s; ip := ip s |}.
Definition with_tls (i : gostring) (s : Session) : Session := {| input := i; output := output s; user := user s; tls := true; ip := ip s |}.
Definition written (o : gostring) (s : Session) : Session := {| input := input s; output := output s ++ o; user := user s; tls := tls s; ip := ip s |}.
Definition with_manager (m : Manager) (g : Shared) : Shared := {| manager := m; authFailures := authFailures g |}.
Definition with_failures (f : gmap gostring (list Z)) (g : Shared) : Shared := {| manager := manager g; authFailures := f |}.

(** What one command meets outside: the clock, whether a change is saved, and the
    octets inside TLS. *)
Record Env := { now : Z; saved : bool; handshake : gostring -> option gostring }.

(** A failed command: an error of the command, or a NO with its code that may end
    the session; [Quit] is LOGOUT. *)
Inductive failure := Plain (msg : gostring) | No (code msg : gostring) (closeConn : bool) | Quit.

Definition M (A : Type) : Type := State -> result failure A * State.
Definition ret {A} (a : A) : M A := fun st => (Ok a, st).
Definition fail {A} (e : failure) : M A := fun st => (Err e, st).
Definition bind {A B} (m : M A) (k : A -> M B) : M B := fun st =>
  match m st with (Ok a, st) => k a st | (Err e, st) => (Err e, st) end.
Notation "'let!' x := m 'in' k" := (bind m (fun x => k)) (at level 10, x name, m at level 100, k at level 200) : go_scope.
Notation "'run!' m 'in' k" := (bind m (fun _ => k)) (at level 10, m at level 100, k at level 200) : go_scope.
Definition get : M State := fun st => (Ok st, st).
Definition update (f : Session -> Session) : M unit := fun '(s, g) => (Ok tt, (f s, g)).
Definition with_shared {A} (f : Shared -> A * Shared) : M A := fun '(s, g) => let '(a, g) := f g in (Ok a, (s, g)).

Definition sendResponse (msg : gostring) : M unit := update (written (if HasSuffix msg CRLF then msg else msg ++ CRLF)).

(** ** Reading *)
Definition maxManageSieveLineLength : nat := Z.to_nat 8192.

(** The octets up to the first LF: [None] at the end of the input or when the line
    grows too long. *)
Fixpoint read_to_lf (room : nat) (s : gostring) : option (gostring * gostring) :=
  match s with
  | [] => None
  | c :: s' =>
      if c =c? LF then Some ([], s')
      else match room with
           | O => None
           | S room' => match read_to_lf room' s' with Some (l, r) => Some (c :: l, r) | None => None end
           end
  end.

Definition readLine (s : gostring) : option (gostring * gostring) :=
  match read_to_lf (S maxManageSieveLineLength) s with
  | None => None
  | Some (line, rest) =>
      let text := TrimRight line [CR] in
      if (maxManageSieveLineLength <? length text)%nat then None else Some (text, rest)
  end.

Definition ReadLine : M (option gostring) := fun '(s, g) =>
  match readLine (input s) with
  | Some (line, rest) => (Ok (Some line), (with_input rest s, g))
  | None => (Ok None, (with_input [] s, g))
  end.

Definition maxManageSieveScriptSize : Z := 1024 * 1024.

(** Exactly [n] octets, or the connection is given up. *)
Definition read_octets (n : nat) : M gostring := fun '(s, g) =>
  if (length (input s) <? n)%nat then (Err (No [] "failed to read script" true), (with_input [] s, g))
  else (Ok (take n (input s)), (with_input (drop n (input s)) s, g)).

Definition readScriptArg (arg : gostring) : M gostring :=
  if HasPrefix arg [DQUOTE] then
    if quotedStringComplete arg then ret (unquoteManageSieveArg arg) else fail (Plain "invalid quoted script")
  else
    let literal := HasPrefix arg "{" && HasSuffix arg "}" in
    let sizeText := if literal then TrimSuffix (TrimSuffix (drop 1 arg) "}") "+" else arg in
    match Atoi sizeText with
    | Err _ => fail (No [] "invalid script size" true)
    | Ok n =>
        if (n <? 0) || (maxManageSieveScriptSize <? n) then fail (No [] "invalid script size" true) else
        let! script := read_octets (Z.to_nat n) in
        if literal then
          let! rest := ReadLine in
          match rest with
          | None => fail (No [] "failed to read end of command" true)
          | Some rest => if bool_decide (TrimSpace rest = []) then ret script else fail (No [] "unexpected data after script literal" true)
          end
        else ret script
    end.

Section Server.
Context {U : UnicodeTables} {N : NetMail} {R : Regexp} {MS : MessageStd}.
Context (iter : UserScripts -> list (gostring * StoredScript)) (walk : gmap gostring (list Z) -> list gostring).
(** The text of an error of the compiler, and of a failed transaction. *)
Context (compileText : compile_error -> gostring) (storeText : gostring).
Context (cfg : Config) (env : Env).

Definition script_error_text (e : script_error) : gostring :=
  match e with
  | ErrCompile e => compileText e
  | ErrQuotaMaxScripts => "too many scripts"
  | ErrQuotaStorage => "script storage quota exceeded"
  | ErrScriptNotFound => "script does not exist"
  | ErrScriptActive => "script is active"
  | ErrScriptExists => "script already exists"
  | ErrScriptStorage => "script storage failure: " ++ storeText
  | ErrNoScripts => "no scripts found for user"
  end.

(** ** Failed logins *)
Definition recent_failures (key : gostring) (f : gmap gostring (list Z)) : list Z :=
  List.filter (fun t => now env - lockoutDuration cfg <? t) (default [] (f !! key)).

Definition authLocked (key : gostring) (g : Shared) : bool * Shared :=
  if maxAuthFailures cfg <=? 0 then (false, g) else
  let recent := recent_failures key (authFailures g) in
  (maxAuthFailures cfg <=? Z.of_nat (length recent),
    with_failures (if bool_decide (recent = []) then delete key (authFailures g) else <[key := recent]> (authFailures g)) g).

Definition maxTracked : nat := Z.to_nat 50000.

Fixpoint evict (keys : list gostring) (f : gmap gostring (list Z)) : gmap gostring (list Z) :=
  match keys with
  | [] => f
  | k :: keys => if (base.size f <? maxTracked)%nat then f else evict keys (delete k f)
  end.

Definition stale (ts : list Z) : bool := match last ts with Some t => t <=? now env - lockoutDuration cfg | None => true end.

Definition recordAuthFailure (key : gostring) (g : Shared) : Shared :=
  if maxAuthFailures cfg <=? 0 then g else
  let f := authFailures g in
  let f := if bool_decide (f !! key = None) && (maxTracked <=? base.size f)%nat
  then let f := base.filter (fun kv => stale (snd kv) = false) f in evict (walk f) f
  else f in
  with_failures (<[key := default [] (f !! key) ++ [now env]]> f) g.

Definition clearAuthFailures (key : gostring) (g : Shared) : Shared := with_failures (delete key (authFailures g)) g.

Definition userLockKey (u : gostring) : gostring := "user:" ++ take 256 (ToLower (TrimSpace u)).

Definition checkedAuth (u password : gostring) : M bool :=
  let key := userLockKey u in
  let! locked := with_shared (authLocked key) in
  if locked then fail (No [] "too many failed authentication attempts" true)
  else if authHandler cfg u password then run! with_shared (fun g => (tt, clearAuthFailures key g)) in ret true
  else run! with_shared (fun g => (tt, recordAuthFailure key g)) in ret false.

Definition sessionUser (login : gostring) : gostring :=
  let key := userResolver cfg login in if bool_decide (key = []) then login else key.

Definition authNeedsTLS (s : Session) : bool := tlsAvailable cfg && negb (tls s).

Definition quoted (s : gostring) : gostring := [DQUOTE] ++ s ++ [DQUOTE].
Definition ok_line (text : gostring) : gostring := "OK " ++ quoted text.

Definition sendCapabilities (ok : gostring) : M unit := fun '(s, g) =>
  let exts := merge_sort lex_le supportedExtensions in
  let sasl := quoted "SASL" ++ " " ++ (if authNeedsTLS s then quoted [] else quoted "PLAIN LOGIN") in
  let lines := [quoted "IMPLEMENTATION" ++ " " ++ quoted "uMailServer"; sasl; quoted "SIEVE" ++ " " ++ quoteManageSieveString (Join exts " ")] ++
  (if tlsAvailable cfg && negb (tls s) then [quoted "STARTTLS"] else []) ++
  [quoted "VERSION" ++ " " ++ quoted "1.0"; ok] in
  sendResponse (Join lines CRLF) (s, g).

(** ** AUTHENTICATE *)
Definition saslStep (challenge : gostring) : M gostring :=
  run! sendResponse (quoteManageSieveString (encode StdEncoding challenge)) in
  let! line := ReadLine in
  match line with
  | None => fail (Plain "authentication failed")
  | Some line =>
      let resp := unquoteManageSieveArg line in
      if resp =s? "*" then fail (No [] "authentication cancelled" false) else ret resp
  end.

Definition finish_auth (u password : gostring) : M unit :=
  let! ok := checkedAuth u password in
  if ok then run! update (with_user (sessionUser u)) in sendResponse (ok_line "Authentication successful")
  else fail (Plain "authentication failed").

Definition cmdAuthenticate (args : list gostring) : M unit :=
  let! st := get in
  if negb (bool_decide (user (fst st) = [])) then fail (No [] "already authenticated" false)
  else if authNeedsTLS (fst st) then fail (No "ENCRYPT-NEEDED" "use STARTTLS before AUTHENTICATE" false)
  else match args with
  | [] => fail (Plain "AUTHENTICATE requires mechanism")
  | mech :: more =>
      let mechanism := ToUpper (unquoteManageSieveArg mech) in
      if mechanism =s? "PLAIN" then
      let! data := (match more with a :: _ => ret (unquoteManageSieveArg a) | [] => saslStep [] end) in
      match decode StdEncoding data with
      | None => fail (Plain "invalid authentication data")
      | Some decoded =>
          match Split decoded (byte_of 0) with
          | authzid :: authcid :: password :: _ =>
              if negb (bool_decide (authzid = [])) && negb (EqualFold authzid authcid)
              then fail (Plain "authorization identity not permitted")
              else finish_auth authcid password
          | _ => fail (Plain "invalid PLAIN authentication format")
          end
      end
      else if mechanism =s? "LOGIN" then
      let! username64 := saslStep "Username:" in
      match decode StdEncoding username64 with
      | None => fail (Plain "invalid username")
      | Some username =>
          let! password64 := saslStep "Password:" in
          match decode StdEncoding password64 with
          | None => fail (Plain "invalid password")
          | Some password => finish_auth username password
          end
      end
      else fail (Plain ("unsupported authentication mechanism: " ++ mechanism))
  end.

(** ** Scripts *)
Definition digits : gostring := "0123456789".
Definition all_digits (s : gostring) : bool := bool_decide (TrimRight (TrimLeft s digits) digits = []).

Definition unauthenticatedScriptCommand (args : list gostring) : failure :=
  No [] "not authenticated"
  match last args with
  | Some l => HasPrefix l "{" || (negb (bool_decide (l = [])) && all_digits l)
  | None => false
  end.

Definition quotaResponseCode (e : script_error) : gostring :=
  match e with ErrQuotaMaxScripts => "QUOTA/MAXSCRIPTS" | ErrQuotaStorage => "QUOTA" | _ => [] end.

(** An operation of the manager on the scripts of the session's user. *)
Definition on_manager (f : Manager -> option script_error * Manager) : M (option script_error) :=
  with_shared (fun g => let '(r, m) := f (manager g) in (r, with_manager m g)).

Definition not_authenticated {A} : M A := fail (Plain "not authenticated").

Definition check_name (name : gostring) : M unit :=
  match validScriptName name with Some e => fail (Plain (name_error_text e)) | None => ret tt end.

Definition validate (content : gostring) : M unit :=
  match ValidateScript content with
  | Some e => fail (Plain ("script validation failed: " ++ script_error_text e))
  | None => ret tt
  end.

Definition cmdPutScript (args : list gostring) : M unit :=
  let! st := get in
  if bool_decide (user (fst st) = []) then fail (unauthenticatedScriptCommand args) else
  match args with
  | name :: script :: _ =>
      let scriptName := unquoteManageSieveArg name in
      let! content := readScriptArg script in
      run! check_name scriptName in
      run! validate content in
      let! r := on_manager (storeScript iter (saved env) (user (fst st)) scriptName content true) in
      match r with
      | Some e => let code := quotaResponseCode e in
          if bool_decide (code = []) then fail (Plain ("failed to store script: " ++ script_error_text e))
          else fail (No code (script_error_text e) false)
      | None => sendResponse (ok_line "Script stored")
      end
  | _ => fail (Plain "PUTSCRIPT requires script-name and script-size")
  end.

Fixpoint send_all (lines : list gostring) : M unit :=
  match lines with
  | [] => ret tt
  | l :: lines => run! sendResponse l in send_all lines
  end.

Definition cmdListScripts : M unit :=
  let! st := get in
  if bool_decide (user (fst st) = []) then not_authenticated else
  let m := manager (snd st) in
  let active := GetActiveScriptName (user (fst st)) m in
  run! send_all (map (fun name => quoteManageSieveString name ++ (if name =s? active then " ACTIVE" else [])) (ListScripts iter (user (fst st)) m)) in
  sendResponse (ok_line "List scripts complete").

Definition cmdSetActive (args : list gostring) : M unit :=
  let! st := get in
  if bool_decide (user (fst st) = []) then not_authenticated else
  match args with
  | [] => fail (Plain "SETACTIVE requires script-name")
  | name :: _ =>
      let scriptName := unquoteManageSieveArg name in
      if bool_decide (scriptName = []) then
      let! r := on_manager (deactivateScript iter (saved env) (user (fst st))) in
      match r with
      | Some e => fail (No [] (script_error_text e) false)
      | None => sendResponse (ok_line "No active script")
      end
      else
      let! r := on_manager (SetActiveScriptByName iter (saved env) (user (fst st)) scriptName) in
      match r with
      | Some ErrScriptStorage => fail (No [] ("failed to set active script: " ++ script_error_text ErrScriptStorage) false)
      | Some ErrScriptNotFound => fail (No "NONEXISTENT" ("failed to set active script: script " ++ Quote scriptName ++ " not found") false)
      | Some e => fail (No "NONEXISTENT" ("failed to set active script: " ++ script_error_text e) false)
      | None => sendResponse (ok_line "Set active script")
      end
  end.

Definition delete_code (e : script_error) : gostring :=
  match e with ErrScriptActive => "ACTIVE" | ErrScriptStorage => [] | _ => "NONEXISTENT" end.

Definition cmdDeleteScript (args : list gostring) : M unit :=
  let! st := get in
  if bool_decide (user (fst st) = []) then not_authenticated else
  match args with
  | [] => fail (Plain "DELETESCRIPT requires script-name")
  | name :: _ =>
      let scriptName := unquoteManageSieveArg name in
      if bool_decide (scriptName = []) then fail (Plain "script name cannot be empty") else
      let! r := on_manager (deleteInactiveScript iter (saved env) (user (fst st)) scriptName) in
      match r with
      | Some e => fail (No (delete_code e) (script_error_text e) false)
      | None => sendResponse (ok_line "Script deleted")
      end
  end.

Definition cmdGetScript (args : list gostring) : M unit :=
  let! st := get in
  if bool_decide (user (fst st) = []) then not_authenticated else
  match args with
  | [] => fail (Plain "GETSCRIPT requires script-name")
  | name :: _ =>
      let scriptName := unquoteManageSieveArg name in
      match scriptSource (user (fst st)) scriptName (manager (snd st)) with
      | None => fail (No "NONEXISTENT" ("script not found: " ++ scriptName) false)
      | Some source =>
          run! sendResponse ("{" ++ FormatUint (Z.of_nat (length source)) ++ "}") in
          run! update (written (source ++ CRLF)) in
          sendResponse (ok_line "Get script complete")
      end
  end.

Definition cmdCheckScript (args : list gostring) : M unit :=
  let! st := get in
  if bool_decide (user (fst st) = []) then fail (unauthenticatedScriptCommand args) else
  match args with
  | [] => fail (Plain "CHECKSCRIPT requires script-size")
  | script :: _ =>
      let! content := readScriptArg script in
      run! validate content in
      sendResponse (ok_line "Script is valid")
  end.

Definition cmdStartTLS (args : list gostring) : M unit :=
  let! st := get in
  if negb (bool_decide (args = [])) then fail (Plain "STARTTLS takes no arguments")
  else if negb (tlsAvailable cfg) || tls (fst st) then fail (Plain "TLS not available")
  else if negb (bool_decide (user (fst st) = [])) then fail (Plain "STARTTLS is only valid before AUTHENTICATE")
  else
  run! sendResponse (ok_line "Begin TLS negotiation now") in
  match handshake env (input (fst st)) with
  | None => fail (No [] "TLS negotiation failed" true)
  | Some inside => run! update (with_tls inside) in sendCapabilities (ok_line "TLS negotiation successful")
  end.

Definition cmdHaveSpace (args : list gostring) : M unit :=
  let! st := get in
  if bool_decide (user (fst st) = []) then not_authenticated else
  match args with
  | [name; sizeText] =>
      run! check_name (unquoteManageSieveArg name) in
      match Atoi sizeText with
      | Err _ => fail (Plain "invalid script size")
      | Ok size =>
          if size <? 0 then fail (Plain "invalid script size")
          else if maxManageSieveScriptSize <? size then fail (No "QUOTA/MAXSIZE" "script exceeds the maximum size" false)
          else match haveSpace iter (user (fst st)) (unquoteManageSieveArg name) size (manager (snd st)) with
          | Some e => fail (No (quotaResponseCode e) (script_error_text e) false)
          | None => sendResponse (ok_line "Putscript would succeed")
          end
      end
  | _ => fail (Plain "HAVESPACE requires script-name and script-size")
  end.

Definition rename_code (e : script_error) : gostring :=
  match e with ErrScriptExists => "ALREADYEXISTS" | ErrScriptStorage => [] | _ => "NONEXISTENT" end.

Definition cmdRenameScript (args : list gostring) : M unit :=
  let! st := get in
  if bool_decide (user (fst st) = []) then not_authenticated else
  match args with
  | [old; new] =>
      let oldName := unquoteManageSieveArg old in
      let newName := unquoteManageSieveArg new in
      if bool_decide (oldName = []) then fail (Plain "script name cannot be empty") else
      run! check_name newName in
      let! r := on_manager (renameScript iter (saved env) (user (fst st)) oldName newName) in
      match r with
      | Some e => fail (No (rename_code e) (script_error_text e) false)
      | None => sendResponse (ok_line "Script renamed")
      end
  | _ => fail (Plain "RENAMESCRIPT requires old-name and new-name")
  end.

(** ** Commands *)
Definition authenticate_command (args : list gostring) : M unit := fun st =>
  let '(locked, st1) := if bool_decide (user (fst st) = []) then let '(b, g) := authLocked (ip (fst st)) (snd st) in (b, (fst st, g)) else (false, st) in
  if locked then (Err (No [] "too many failed authentication attempts" true), st1) else
  match cmdAuthenticate args st1 with
  | (Err (Plain msg), st) =>
      let st := if bool_decide (user (fst st) = []) then (fst st, recordAuthFailure (ip (fst st)) (snd st)) else st in
      (Err (No [] msg true), st)
  | r => r
  end.

Definition dispatchCommand (cmd : gostring) (args : list gostring) : M unit :=
  if cmd =s? "AUTHENTICATE" then authenticate_command args
  else if cmd =s? "CAPABILITY" then
  if negb (bool_decide (args = [])) then fail (Plain "CAPABILITY takes no arguments")
  else sendCapabilities (ok_line "Capability completed")
  else if cmd =s? "STARTTLS" then cmdStartTLS args
  else if cmd =s? "HAVESPACE" then cmdHaveSpace args
  else if cmd =s? "RENAMESCRIPT" then cmdRenameScript args
  else if cmd =s? "LOGOUT" then run! sendResponse (ok_line "Logout successful") in fail Quit
  else if cmd =s? "PUTSCRIPT" then cmdPutScript args
  else if cmd =s? "LISTSCRIPTS" then cmdListScripts
  else if cmd =s? "SETACTIVE" then cmdSetActive args
  else if cmd =s? "DELETESCRIPT" then cmdDeleteScript args
  else if cmd =s? "GETSCRIPT" then cmdGetScript args
  else if cmd =s? "CHECKSCRIPT" then cmdCheckScript args
  else if cmd =s? "NOOP" then sendResponse (ok_line "NOOP completed")
  else fail (Plain ("unknown command: " ++ cmd)).

Definition processCommandSession (line : gostring) : M unit :=
  match parseManageSieveLine line with
  | [] => fail (Plain "invalid command")
  | cmd :: args => dispatchCommand (ToUpper cmd) args
  end.

Definition blank_eol (c : ascii) : ascii := if (c =c? CR) || (c =c? LF) then " "%char else c.

Definition no_line (code msg : gostring) : gostring :=
  "NO " ++ (if bool_decide (code = []) then [] else "(" ++ code ++ ") ") ++ quoteManageSieveString (map blank_eol msg).

(** One round of the loop of [handleConn]; the answer says whether the session goes
    on. *)
Definition round (st : State) : bool * State :=
  match ReadLine st with
  | (Ok (Some line), st) =>
      match processCommandSession line st with
      | (Ok _, st) => (true, st)
      | (Err Quit, st) => (false, st)
      | (Err (Plain msg), st) => (true, snd (sendResponse (no_line [] msg) st))
      | (Err (No code msg close), st) => (negb close, snd (sendResponse (no_line code msg) st))
      end
  | (_, st) => (false, st)
  end.
End Server.
