(* ===== verification/ManageSieveProps.v ===== *)
(** * Properties of the ManageSieve server

    Who may change which scripts, that the octets of a script are never read as
    commands, and that names are read back as they are printed.  The claims about the
    manager and the server are applied to a session that logs in and stores a script. *)
From S2P Require Import Prelude GoLib Utf8 Base64 SmtpData SieveParse SieveMatch SieveCompile SieveExec SieveProps Bolt Accounts SieveManager SieveManagerProps ManageSieve.

(** ** What a change of one user's scripts leaves alone *)
Definition stored_record (v : gostring) (m : Manager) : option (Row scriptRecord) := st ← store m; st !! v.

Definition others_same (u : gostring) (m m' : Manager) : Prop :=
  forall v, v <> u -> scripts m' !! v = scripts m !! v /\ activeScripts m' !! v = activeScripts m !! v /\ stored_record v m' = stored_record v m.

(** What a session of user [u] may do to the manager: nothing before it is
    authenticated. *)
Definition touches (u : gostring) (m m' : Manager) : Prop := if bool_decide (u = []) then m' = m else others_same u m m'.

Lemma touches_refl u m : touches u m m.
Proof. unfold touches. by case_bool_decide. Qed.

Lemma touches_trans u m1 m2 m3 : touches u m1 m2 -> touches u m2 m3 -> touches u m1 m3.
Proof.
  unfold touches. case_bool_decide; [congruence |]. intros H1 H2 v Hv. destruct (H2 v Hv) as (E1 & E2 & E3), (H1 v Hv) as (F1 & F2 & F3). by rewrite E1, E2, E3.
Qed.

Lemma mutate_others iter saved u fn m : (forall m', fn m = Ok m' -> local_to u m m') -> others_same u m (snd (mutateUser iter saved u fn m)).
Proof.
  intros H. unfold mutateUser. destruct (fn m) as [m' |]; [| by intros v Hv]. destruct (H m' eq_refl) as [Hl Hs]. clear H.
  assert (Hrec : forall v, stored_record v m' = stored_record v m) by (intros v; unfold stored_record; by rewrite Hs).
  assert (Hall : others_same u m m') by (intros v Hv; destruct (Hl v Hv); by split_and!).
  destruct (_ || _); [done |]. unfold saveUserLocked. destruct saved; cbn [negb]; [destruct (_ =? 0)%nat |]; cbn [snd]; intros v Hv.
  - destruct (Hl v Hv) as [E1 E2]. split_and!; [done | done |]. unfold stored_record. cbn [store set_store]. rewrite Hs.
    destruct (store m) as [st |]; [| done]. cbn. by rewrite lookup_delete_ne.
  - destruct (Hl v Hv) as [E1 E2]. split_and!; [done | done |]. unfold stored_record. cbn [store set_store]. rewrite Hs.
    destruct (store m) as [st |]; [| done]. cbn. by rewrite lookup_insert_ne.
  - destruct (Hl v Hv) as [E1 E2]. cbn [scripts activeScripts set_active set_scripts]. unfold restore.
    destruct (scripts m !! u), (activeScripts m !! u); rewrite ?lookup_insert_ne, ?lookup_delete_ne by done; split_and!; try done; apply Hrec.
Qed.

Section Frame.
Context {U : UnicodeTables} {N : NetMail} {R : Regexp} {MS : MessageStd}.
Context (iter : UserScripts -> list (gostring * StoredScript)).

Lemma store_others saved u n s q m : others_same u m (snd (storeScript iter saved u n s q m)).
Proof.
  unfold storeScript. destruct (CompileScript s); [| by intros v Hv]. apply mutate_others. intros m' H.
  destruct (if q then _ else _); [done |]. injection H as <-. apply local_scripts.
Qed.

Lemma activate_others saved u n m : others_same u m (snd (SetActiveScriptByName iter saved u n m)).
Proof.
  apply mutate_others. intros m' H. destruct (scripts m !! u) as [us |]; [| done]. destruct (us !! n); [| done]. injection H as <-.
  apply local_active; [by split |]. intros v Hv. by rewrite lookup_insert_ne.
Qed.

Lemma deactivate_others saved u m : others_same u m (snd (deactivateScript iter saved u m)).
Proof.
  apply mutate_others. intros m' [= <-]. apply local_active; [by split |]. intros v Hv. by rewrite lookup_delete_ne.
Qed.

Lemma delete_others saved u n m : others_same u m (snd (deleteInactiveScript iter saved u n m)).
Proof.
  apply mutate_others. intros m' H. destruct (user_scripts u m !! n); [| done]. case_bool_decide; [done |]. injection H as <-. apply local_scripts.
Qed.

Lemma rename_others saved u o n m : others_same u m (snd (renameScript iter saved u o n m)).
Proof.
  apply mutate_others. intros m' H. cbv zeta in H. destruct (user_scripts u m !! o) as [s |]; [| done]. destruct (user_scripts u m !! n); [done |].
  injection H as <-. case_bool_decide; [| apply local_scripts]. apply local_active; [apply local_scripts |]. intros v Hv. by rewrite lookup_insert_ne.
Qed.

(** ** Commands that keep the session's identity *)
Definition frame {A} (m : M A) : Prop := forall s g r s' g', m (s, g) = (r, (s', g')) ->
  user s' = user s /\ ip s' = ip s /\ (tls s = true -> tls s' = true) /\ touches (user s) (manager g) (manager g').

Lemma frame_ret {A} (a : A) : frame (ret a).
Proof. intros s g r s' g' [= <- <- <-]. split_and!; auto using touches_refl. Qed.

Lemma frame_fail {A} e : frame (fail (A := A) e).
Proof. intros s g r s' g' [= <- <- <-]. split_and!; auto using touches_refl. Qed.

Lemma frame_bind {A B} (m : M A) (k : A -> M B) : frame m -> (forall a, frame (k a)) -> frame (bind m k).
Proof.
  intros Hm Hk s g r s' g'. unfold bind. destruct (m (s, g)) as [[a | e] [s1 g1]] eqn:E.
  - intros H. destruct (Hm _ _ _ _ _ E) as (U1 & I1 & T1 & M1). destruct (Hk a _ _ _ _ _ H) as (U2 & I2 & T2 & M2). rewrite U1 in *.
    split_and!; [done | congruence | auto | by eapply touches_trans].
  - intros [= <- <- <-]. exact (Hm _ _ _ _ _ E).
Qed.

Lemma frame_update f : (forall s, user (f s) = user s /\ ip (f s) = ip s /\ (tls s = true -> tls (f s) = true)) -> frame (update f).
Proof. intros H s g r s' g' [= <- <- <-]. destruct (H s) as (? & ? & ?). split_and!; auto using touches_refl. Qed.

Lemma frame_written o : frame (update (written o)).
Proof. by apply frame_update. Qed.

Lemma frame_send msg : frame (sendResponse msg).
Proof. by apply frame_update. Qed.

Lemma frame_read : frame ReadLine.
Proof. intros s g r s' g'. unfold ReadLine. destruct (readLine (input s)) as [[l rest] |]; intros [= <- <- <-]; split_and!; auto using touches_refl. Qed.

Lemma frame_octets n : frame (read_octets n).
Proof. intros s g r s' g'. unfold read_octets. split_if; intros [= <- <- <-]; split_and!; auto using touches_refl. Qed.

Lemma frame_shared {A} (f : Shared -> A * Shared) : (forall g, manager (snd (f g)) = manager g) -> frame (with_shared f).
Proof.
  intros H s g r s' g'. unfold with_shared. specialize (H g). destruct (f g) as [a g1]. intros [= <- <- <-]. cbn [snd] in H. rewrite H.
  split_and!; auto using touches_refl.
Qed.

(** A computation of user [u]. *)
Definition frame_of (u : gostring) {A} (m : M A) : Prop := forall s g r s' g', user s = u -> m (s, g) = (r, (s', g')) ->
  user s' = user s /\ ip s' = ip s /\ (tls s = true -> tls s' = true) /\ touches (user s) (manager g) (manager g').

Lemma frame_any u {A} (m : M A) : frame m -> frame_of u m.
Proof. intros H s g r s' g' _. apply H. Qed.

Lemma frame_of_bind u {A B} (m : M A) (k : A -> M B) : frame_of u m -> (forall a, frame_of u (k a)) -> frame_of u (bind m k).
Proof.
  intros Hm Hk s g r s' g' Hu. unfold bind. destruct (m (s, g)) as [[a | e] [s1 g1]] eqn:E.
  - intros H. destruct (Hm _ _ _ _ _ Hu E) as (U1 & I1 & T1 & M1). rewrite Hu in U1. destruct (Hk a _ _ _ _ _ U1 H) as (U2 & I2 & T2 & M2). rewrite U1, Hu in *.
    split_and!; [congruence | congruence | auto | by eapply touches_trans].
  - intros [= <- <- <-]. exact (Hm _ _ _ _ _ Hu E).
Qed.

Lemma frame_on_manager u f : u <> [] -> (forall m, others_same u m (snd (f m))) -> frame_of u (on_manager f).
Proof.
  intros Hne Hf s g r s' g' Hu. unfold on_manager, with_shared. specialize (Hf (manager g)). destruct (f (manager g)) as [e m]. intros [= <- <- <-].
  rewrite Hu. split_and!; [done | done | done |]. unfold touches. by rewrite bool_decide_eq_false_2.
Qed.

Lemma frame_get {A} (k : State -> M A) : (forall st, frame_of (user (fst st)) (k st)) -> frame (bind get k).
Proof. intros H s g r s' g'. unfold bind, get. intros Hk. exact (H (s, g) s g r s' g' eq_refl Hk). Qed.
End Frame.

Create HintDb frame.
#[export] Hint Resolve frame_ret frame_fail frame_send frame_written frame_read frame_octets : frame.

(** Decompose a command: reads and writes keep the identity, a change of the scripts
    is one of the user's own. *)
Ltac frame_step :=
  match goal with
  | |- frame_of _ (bind _ _) => apply frame_of_bind
  | |- frame (bind get _) => apply frame_get; intros [? ?]; cbn [fst snd]
  | |- frame (bind _ _) => apply frame_bind
  | |- forall _, _ => intros ?
  | |- frame (if ?b then _ else _) => destruct b
  | |- frame_of _ (if bool_decide (?u = []) then _ else _) => destruct (bool_decide_reflect (u = []))
  | |- frame_of _ (if ?b then _ else _) => destruct b
  | |- frame (match ?x with _ => _ end) => destruct x
  | |- frame_of _ (match ?x with _ => _ end) => destruct x
  | |- frame_of _ (on_manager _) => apply frame_on_manager; [assumption | intros ?]
  | |- frame_of _ _ => apply frame_any
  | |- frame _ => solve [auto with frame]
  end.
Ltac frames := repeat frame_step.

Section Session.
Context {U : UnicodeTables} {N : NetMail} {R : Regexp} {MS : MessageStd}.
Context (iter : UserScripts -> list (gostring * StoredScript)) (walk : gmap gostring (list Z) -> list gostring).
Context (compileText : compile_error -> gostring) (storeText : gostring) (cfg : Config).

Lemma frame_script arg : frame (readScriptArg arg).
Proof. unfold readScriptArg. cbv zeta. frames. Qed.

Lemma frame_all lines : frame (send_all lines).
Proof. induction lines as [| l lines IH]; cbn [send_all]; [apply frame_ret |]. apply frame_bind; [apply frame_send | intros _; exact IH]. Qed.

Lemma frame_name name : frame (check_name name).
Proof. unfold check_name. frames. Qed.

Lemma frame_validate c : frame (validate compileText storeText c).
Proof. unfold validate. frames. Qed.

Lemma frame_capabilities ok : frame (sendCapabilities cfg ok).
Proof. intros s g r s' g'. unfold sendCapabilities. apply frame_send. Qed.

Hint Resolve frame_script frame_all frame_name frame_validate frame_capabilities : frame.

Lemma frame_put env args : frame (cmdPutScript iter compileText storeText env args).
Proof. unfold cmdPutScript. frames. apply store_others. Qed.

Lemma frame_list : frame (cmdListScripts iter).
Proof. unfold cmdListScripts, not_authenticated. frames. Qed.

Lemma frame_setactive env args : frame (cmdSetActive iter compileText storeText env args).
Proof. unfold cmdSetActive, not_authenticated. frames; [apply deactivate_others | apply activate_others]. Qed.

Lemma frame_delete env args : frame (cmdDeleteScript iter compileText storeText env args).
Proof. unfold cmdDeleteScript, not_authenticated. frames. apply delete_others. Qed.

Lemma frame_get_script args : frame (cmdGetScript args).
Proof. unfold cmdGetScript, not_authenticated. frames. Qed.

Lemma frame_check args : frame (cmdCheckScript compileText storeText args).
Proof. unfold cmdCheckScript. frames. Qed.

Lemma frame_tls env args : frame (cmdStartTLS cfg env args).
Proof. unfold cmdStartTLS. frames. by apply frame_update. Qed.

Lemma frame_space args : frame (cmdHaveSpace iter compileText storeText args).
Proof. unfold cmdHaveSpace, not_authenticated. frames. Qed.

Lemma frame_rename env args : frame (cmdRenameScript iter compileText storeText env args).
Proof. unfold cmdRenameScript, not_authenticated. frames. apply rename_others. Qed.

(** ** Authentication *)

(** The user of a session was accepted by the password check, inside TLS where the
    server has TLS. *)
Definition accepted (u : gostring) : Prop := exists login password, authHandler cfg login password = true /\ u = sessionUser cfg login.
Definition authorised (s : Session) : Prop := user s = [] \/ accepted (user s) /\ (tlsAvailable cfg = true -> tls s = true).

(** The session and the manager stay as they are, but for the input and the output. *)
Definition quiet {A} (m : M A) : Prop := forall s g r s' g', m (s, g) = (r, (s', g')) ->
  user s' = user s /\ ip s' = ip s /\ tls s' = tls s /\ manager g' = manager g.

Lemma quiet_sasl c : quiet (saslStep c).
Proof.
  intros s g r s' g'. unfold saslStep, bind, sendResponse, update, ReadLine. cbn [input written].
  destruct (readLine (input s)) as [[l rest] |]; [| by intros [= <- <- <-]]. cbv zeta. split_if; by intros [= <- <- <-].
Qed.

(** What AUTHENTICATE may do. *)
Definition auth_post (s s' : Session) (g g' : Shared) : Prop :=
  ip s' = ip s /\ tls s' = tls s /\ manager g' = manager g /\
  (user s' = user s \/ authNeedsTLS cfg s = false /\ user s = [] /\ accepted (user s')).

Lemma finish_post env u p s g r s' g' : authNeedsTLS cfg s = false -> user s = [] -> finish_auth walk cfg env u p (s, g) = (r, (s', g')) -> auth_post s s' g g'.
Proof.
  intros Ht Hu. unfold finish_auth, checkedAuth, bind, with_shared, ret, fail, update, sendResponse. cbv zeta.
  assert (Hl : manager (snd (authLocked cfg env (userLockKey u) g)) = manager g) by (unfold authLocked; by split_if).
  destruct (authLocked cfg env (userLockKey u) g) as [locked g1]. cbn [snd] in Hl. destruct locked; [intros [= <- <- <-]; split_and!; auto |].
  destruct (authHandler cfg u p) eqn:Ea; intros [= <- <- <-]; split_and!; cbn [manager clearAuthFailures with_failures]; auto.
  - right. split_and!; [done | done |]. by exists u, p.
  - unfold recordAuthFailure. by split_if.
Qed.

Lemma auth_post_trans s s1 s2 g g1 g2 : user s1 = user s -> ip s1 = ip s -> tls s1 = tls s -> manager g1 = manager g ->
  auth_post s1 s2 g1 g2 -> auth_post s s2 g g2.
Proof.
  intros Eu Ei Et Em (Hi & Ht & Hm & Ha). split_and!; [congruence | congruence | congruence |]. unfold authNeedsTLS in *. rewrite Eu, Et in Ha. done.
Qed.

(** A quiet step, then the rest. *)
Lemma quiet_then {A B} (m : M A) (k : A -> M B) s g r s' g' : quiet m ->
  (forall a s1 g1, user s1 = user s -> tls s1 = tls s -> k a (s1, g1) = (r, (s', g')) -> auth_post s1 s' g1 g') ->
  bind m k (s, g) = (r, (s', g')) -> auth_post s s' g g'.
Proof.
  intros Hq Hk. unfold bind. destruct (m (s, g)) as [[a | e] [s1 g1]] eqn:E; destruct (Hq _ _ _ _ _ E) as (E1 & E2 & E3 & E4).
  - intros H. apply (auth_post_trans s s1 s' g g1 g'); try done. by apply (Hk a).
  - intros [= <- <- <-]. split_and!; auto.
Qed.

Lemma fail_post {A} e s g r s' g' : fail (A := A) e (s, g) = (r, (s', g')) -> auth_post s s' g g'.
Proof. intros [= <- <- <-]. split_and!; auto. Qed.

Lemma cmdAuthenticate_post env args s g r s' g' : cmdAuthenticate walk cfg env args (s, g) = (r, (s', g')) -> auth_post s s' g g'.
Proof.
  unfold cmdAuthenticate. unfold bind at 1, get. cbn [fst snd]. destruct (bool_decide_reflect (user s = [])) as [Eu |]; cbn [negb]; [| apply fail_post].
  destruct (authNeedsTLS cfg s) eqn:Et; [apply fail_post |]. destruct args as [| mech more]; [apply fail_post |]. cbv zeta.
  assert (Hn : forall s1, tls s1 = tls s -> authNeedsTLS cfg s1 = false) by (intros s1 E; unfold authNeedsTLS in *; by rewrite E).
  split_if.
  - apply quiet_then; [destruct more; [apply quiet_sasl | by intros ? ? ? ? ? [= <- <- <-]] |]. intros data s1 g1 E1 E2.
    destruct (decode StdEncoding data) as [decoded |]; [| apply fail_post].
    destruct (Split decoded (byte_of 0)) as [| authzid [| authcid [| password parts]]]; try apply fail_post.
    split_if; [apply fail_post |]. apply finish_post; [by apply Hn | congruence].
  - split_if; [| apply fail_post]. apply quiet_then; [apply quiet_sasl |]. intros u64 s1 g1 E1 E2.
    destruct (decode StdEncoding u64) as [username |]; [| apply fail_post].
    apply quiet_then; [apply quiet_sasl |]. intros p64 s2 g2 E3 E4. destruct (decode StdEncoding p64) as [password |]; [| apply fail_post].
    apply finish_post; [apply Hn; congruence | congruence].
Qed.

Lemma authenticate_post env args s g r s' g' : authenticate_command walk cfg env args (s, g) = (r, (s', g')) -> auth_post s s' g g'.
Proof.
  unfold authenticate_command. cbn [fst snd].
  assert (Hg : forall g1, manager g1 = manager g -> cmdAuthenticate walk cfg env args (s, g1) = cmdAuthenticate walk cfg env args (s, g1)) by done.
  assert (Hl : manager (snd (authLocked cfg env (ip s) g)) = manager g) by (unfold authLocked; by split_if).
  set (p := if bool_decide (user s = []) then _ else _). assert (Hp : exists b g1, p = (b, (s, g1)) /\ manager g1 = manager g).
  { unfold p. case_bool_decide; [| by exists false, g]. destruct (authLocked cfg env (ip s) g) as [b g1]. by exists b, g1. }
  destruct Hp as (b & g1 & -> & Hm). clear Hg. destruct b; [intros [= <- <- <-]; split_and!; auto |].
  destruct (cmdAuthenticate walk cfg env args (s, g1)) as [r1 [s1 g2]] eqn:E. apply cmdAuthenticate_post in E.
  apply (auth_post_trans s s s1 g g1 g2) in E; try done. destruct r1 as [x | [msg | code msg close |]]; try by intros [= <- <- <-].
  case_bool_decide; intros [= <- <- <-]; [| done]. destruct E as (E1 & E2 & E3 & E4). split_and!; [done | done | | done].
  unfold recordAuthFailure. by split_if.
Qed.

(** ** The session *)
Definition step_post (s s' : Session) (g g' : Shared) : Prop :=
  ip s' = ip s /\ (tls s = true -> tls s' = true) /\ touches (user s) (manager g) (manager g') /\
  (user s' = user s \/ authNeedsTLS cfg s = false /\ user s = [] /\ accepted (user s') /\ tls s' = tls s).

Lemma frame_post {A} (m : M A) s g r s' g' : frame m -> m (s, g) = (r, (s', g')) -> step_post s s' g g'.
Proof. intros Hf E. destruct (Hf _ _ _ _ _ E) as (? & ? & ? & ?). split_and!; auto. Qed.

Lemma dispatch_post env cmd args s g r s' g' :
  dispatchCommand iter walk compileText storeText cfg env cmd args (s, g) = (r, (s', g')) -> step_post s s' g g'.
Proof.
  unfold dispatchCommand. split_if.
  { intros (Hi & Ht & Hm & Ha)%authenticate_post. split_and!; [done | congruence | rewrite Hm; apply touches_refl |].
    destruct Ha as [Ha | (? & ? & ?)]; auto. }
  repeat (split_if; [intros H; eapply frame_post; [| exact H]; auto using frame_tls, frame_space, frame_rename, frame_put, frame_list, frame_setactive,
    frame_delete, frame_get_script, frame_check, frame_send, frame_capabilities; frames; auto using frame_capabilities |]).
  apply frame_post, frame_fail.
Qed.

Lemma step_post_send msg s s1 s' g g1 g' : step_post s s1 g g1 -> snd (sendResponse msg (s1, g1)) = (s', g') -> step_post s s' g g'.
Proof. intros (H1 & H2 & H3 & H4) [= <- <-]. split_and!; done. Qed.

Lemma round_post env s g b s' g' : round iter walk compileText storeText cfg env (s, g) = (b, (s', g')) -> step_post s s' g g'.
Proof.
  unfold round, ReadLine. destruct (readLine (input s)) as [[line rest] |]; [| intros [= <- <- <-]; split_and!; auto using touches_refl].
  set (s0 := with_input rest s). destruct (processCommandSession iter walk compileText storeText cfg env line (s0, g)) as [r [s1 g1]] eqn:E.
  assert (H1 : step_post s s1 g g1).
  { change (step_post s0 s1 g g1). unfold processCommandSession in E. destruct (parseManageSieveLine line) as [| cmd args].
    - revert E. apply frame_post, frame_fail.
    - revert E. apply dispatch_post. }
  destruct r as [x | [msg | code msg close |]]; intros E2; [by injection E2 as _ <- <- | | | by injection E2 as _ <- <-];
    apply (f_equal snd) in E2; exact (step_post_send _ _ _ _ _ _ _ H1 E2).
Qed.

(** One round of a session, with whatever it meets outside. *)
Definition sess_step (st st' : State) : Prop := exists env b, round iter walk compileText storeText cfg env st = (b, st').

Lemma authorised_step s s' g g' : step_post s s' g g' -> authorised s -> authorised s'.
Proof.
  intros (_ & Ht & _ & [Hu | (Hn & _ & Ha & Et)]) H; unfold authorised.
  - rewrite Hu. destruct H as [H | [H1 H2]]; [by left | right]. split; [done |]. intros Hc. by apply Ht, H2.
  - right. split; [done |]. intros Hc. unfold authNeedsTLS in Hn. rewrite Hc in Hn. cbn [andb] in Hn. apply negb_false_iff in Hn. congruence.
Qed.
End Session.

(** C15: A ManageSieve session touches nothing but the scripts of its own user, and
    only once a password of that user was accepted - inside TLS where the server has
    TLS; before that it changes no script at all. *)
Theorem managesieve_own_scripts {U : UnicodeTables} {N : NetMail} {R : Regexp} {MS : MessageStd}
  iter walk compileText storeText cfg s0 g0 s g : user s0 = [] ->
  star (sess_step iter walk compileText storeText cfg) (s0, g0) (s, g) ->
  authorised cfg s /\ (user s = [] -> manager g = manager g0) /\ others_same (user s) (manager g0) (manager g).
Proof.
  intros H0 Hs. remember (s0, g0) as a eqn:Ea. remember (s, g) as b eqn:Eb. revert s g Eb. induction Hs as [a | a b c Hs IH Hc]; intros s g ->.
  - injection Ea as -> ->. split_and!; [by left | done | by intros v Hv].
  - destruct b as [s1 g1]. destruct (IH Ea s1 g1 eq_refl) as (Ha & He & Ho). destruct Hc as (env & x & Hr). apply round_post in Hr.
    split; [by eapply authorised_step |]. destruct Hr as (_ & _ & Ht & Hu). unfold touches in Ht.
    destruct (bool_decide_reflect (user s1 = [])) as [E1 | E1].
    + rewrite Ht, (He E1). split; [done |]. by intros v Hv.
    + destruct Hu as [Hu | (_ & Hu & _)]; [| done]. rewrite Hu. split; [done |]. intros v Hv.
      destruct (Ho v Hv) as (A1 & A2 & A3), (Ht v Hv) as (B1 & B2 & B3). by rewrite B1, B2, B3.
Qed.

(** ** Framing *)
Lemma read_to_lf_line room (l r : gostring) : (LF ∉ l) -> (length l <= room)%nat -> read_to_lf room (l ++ LF :: r) = Some (l, r).
Proof.
  revert room. induction l as [| c l IH]; intros room Hl Hr; [destruct room; reflexivity |]. apply not_elem_of_cons in Hl as [Hc Hl].
  cbn [length] in Hr. destruct room as [| room]; [lia |]. cbn [app read_to_lf]. replace (c =c? LF) with false by (symmetry; apply Ascii.eqb_neq; congruence).
  by rewrite IH by (done || lia).
Qed.

Lemma TrimRight_CR l : (CR ∉ l) -> TrimRight (l ++ [CR]) [CR] = l.
Proof.
  intros Hl. unfold TrimRight. rewrite rev_app_distr. cbn [rev app TrimLeft in_set existsb orb].
  change (CR =c? CR) with true. cbn [orb]. destruct (rev l) as [| d r] eqn:E.
  - apply (f_equal (@rev ascii)) in E. by rewrite rev_involutive in E.
  - assert (Hd : d <> CR). { intros ->. apply Hl. apply list_elem_of_In, in_rev. rewrite E. by left. }
    cbn [TrimLeft in_set existsb]. replace (CR =c? d) with false by (symmetry; apply Ascii.eqb_neq; congruence). cbn [orb].
    rewrite <- E. apply rev_involutive.
Qed.

Lemma readLine_line (l r : gostring) : (CR ∉ l) -> (LF ∉ l) -> (length l <= maxManageSieveLineLength)%nat -> readLine (l ++ CRLF ++ r) = Some (l, r).
Proof.
  intros Hc Hl Hn. unfold readLine. replace (l ++ CRLF ++ r) with ((l ++ [CR]) ++ LF :: r) by (by rewrite <- app_assoc).
  rewrite read_to_lf_line.
  - cbv zeta. rewrite TrimRight_CR by done. by rewrite (proj2 (Nat.ltb_ge _ _) Hn).
  - rewrite elem_of_app, list_elem_of_singleton. intros [H | H]; [done |]. discriminate H.
  - rewrite length_app. cbn [length]. lia.
Qed.

(** Steps that read nothing. *)
Definition keeps_input {A} (m : M A) : Prop := forall s g r s' g', m (s, g) = (r, (s', g')) -> input s' = input s.

Lemma keeps_bind {A B} (m : M A) (k : A -> M B) : keeps_input m -> (forall a, keeps_input (k a)) -> keeps_input (bind m k).
Proof.
  intros Hm Hk s g r s' g'. unfold bind. destruct (m (s, g)) as [[a | e] [s1 g1]] eqn:E; pose proof (Hm _ _ _ _ _ E) as E1.
  - intros H. rewrite (Hk a _ _ _ _ _ H). done.
  - by intros [= <- <- <-].
Qed.
Lemma keeps_ret {A} (a : A) : keeps_input (ret a).
Proof. by intros s g r s' g' [= <- <- <-]. Qed.
Lemma keeps_fail {A} e : keeps_input (fail (A := A) e).
Proof. by intros s g r s' g' [= <- <- <-]. Qed.
Lemma keeps_send msg : keeps_input (sendResponse msg).
Proof. by intros s g r s' g' [= <- <- <-]. Qed.
Lemma keeps_on_manager f : keeps_input (on_manager f).
Proof. intros s g r s' g'. unfold on_manager, with_shared. destruct (f (manager g)). by intros [= <- <- <-]. Qed.

Lemma keeps_name name : keeps_input (check_name name).
Proof. unfold check_name. destruct (validScriptName name); [apply keeps_fail | apply keeps_ret]. Qed.
Lemma keeps_validate {U : UnicodeTables} {N : NetMail} {R : Regexp} {MS : MessageStd} ct stt c : keeps_input (validate ct stt c).
Proof. unfold validate. destruct (ValidateScript c); [apply keeps_fail | apply keeps_ret]. Qed.

(** A script announced as a literal, with its octets and the end of its line, is
    read and nothing else. *)
Definition literal (n : nat) : gostring := "{" ++ FormatUint (Z.of_nat n) ++ "+}".

Lemma readScriptArg_literal octets rest s g : Z.of_nat (length octets) <= maxManageSieveScriptSize -> input s = octets ++ CRLF ++ rest ->
  exists s', readScriptArg (literal (length octets)) (s, g) = (Ok octets, (s', g)) /\ input s' = rest /\ user s' = user s.
Proof.
  intros Hn Hi. unfold readScriptArg, literal. set (F := FormatUint (Z.of_nat (length octets))).
  replace (HasPrefix ("{" ++ F ++ "+}") [DQUOTE]) with false by reflexivity.
  replace (HasPrefix ("{" ++ F ++ "+}") "{") with true by reflexivity.
  assert (Es : HasSuffix ("{" ++ F ++ "+}") "}" = true).
  { change ("{" ++ F ++ "+}") with ("{"%char :: F ++ ["+"%char] ++ ["}"%char]). rewrite app_assoc. exact (HasSuffix_app ("{"%char :: (F ++ ["+"%char])) ["}"%char]). }
  assert (Et : TrimSuffix (TrimSuffix (drop 1 ("{" ++ F ++ "+}")) "}") "+" = F).
  { change (drop 1 ("{" ++ F ++ "+}")) with (F ++ ["+"%char] ++ ["}"%char]). rewrite app_assoc.
    etrans; [exact (f_equal (fun x => TrimSuffix x ["+"%char]) (TrimSuffix_app (F ++ ["+"%char]) ["}"%char])) | exact (TrimSuffix_app F ["+"%char])]. }
  rewrite Es. cbn [andb]. rewrite Et. clear Es Et. unfold F.
  rewrite Atoi_FormatUint by (unfold maxManageSieveScriptSize, max_int64 in *; lia).
  rewrite (proj2 (Z.ltb_ge (Z.of_nat (length octets)) 0)) by lia. rewrite (proj2 (Z.ltb_ge maxManageSieveScriptSize _) Hn). cbn [orb].
  rewrite Nat2Z.id. unfold bind, read_octets. rewrite Hi. rewrite (proj2 (Nat.ltb_ge _ _)) by (rewrite !length_app; lia).
  rewrite take_app_length, drop_app_length. unfold ReadLine. cbn [input with_input].
  pose proof (readLine_line [] rest (not_elem_of_nil _) (not_elem_of_nil _) ltac:(cbn; lia)) as Hr. cbn [app] in Hr. rewrite Hr.
  change (bool_decide (TrimSpace [] = [])) with true. cbv iota. eexists. split; [reflexivity |]. done.
Qed.

(** The octets of a script are never taken for commands: when a client sends
    PUTSCRIPT with a literal and its octets without waiting, the server has either
    read exactly the command, the octets and the end of the line, or it has closed
    the connection - whether the script was stored, refused, or the client was not
    even authenticated. *)
Theorem putscript_in_sync {U : UnicodeTables} {N : NetMail} {R : Regexp} {MS : MessageStd}
  iter walk compileText storeText cfg env line cmd name octets rest s g b s' g' :
  (CR ∉ line) -> (LF ∉ line) -> (length line <= maxManageSieveLineLength)%nat ->
  parseManageSieveLine line = [cmd; name; literal (length octets)] -> ToUpper cmd = "PUTSCRIPT" ->
  Z.of_nat (length octets) <= maxManageSieveScriptSize -> input s = line ++ CRLF ++ octets ++ CRLF ++ rest ->
  round iter walk compileText storeText cfg env (s, g) = (b, (s', g')) -> b = false \/ input s' = rest.
Proof.
  intros Hc Hl Hn Hp Hcmd Ho Hi. unfold round, ReadLine. rewrite Hi, readLine_line by done. set (s0 := with_input _ s).
  unfold processCommandSession. rewrite Hp, Hcmd.
  change (dispatchCommand iter walk compileText storeText cfg env "PUTSCRIPT") with (cmdPutScript iter compileText storeText env).
  unfold cmdPutScript. unfold bind at 1, get. cbn [fst snd]. destruct (bool_decide (user s0 = [])).
  { cbv beta iota delta [fail]. unfold unauthenticatedScriptCommand. cbn [last]. intros H. left. by injection H as <-. }
  unfold bind at 1. destruct (readScriptArg_literal octets rest s0 g Ho eq_refl) as (s1 & -> & E1 & _).
  match goal with |- context [?k (s1, g)] => assert (Hk : keeps_input k) end.
  { apply keeps_bind; [apply keeps_name | intros _]. apply keeps_bind; [apply keeps_validate | intros _].
    apply keeps_bind; [apply keeps_on_manager | intros [e |]; [| apply keeps_send]]. cbv zeta. case_bool_decide; apply keeps_fail. }
  match goal with |- context [?k (s1, g)] => destruct (k (s1, g)) as [r [s2 g2]] eqn:Ek end. apply Hk in Ek.
  destruct r as [x | [msg | code msg close |]]; intros E2; right; injection E2 as _ <- _; cbn [input written]; congruence.
Qed.

(** ** Quoting *)
Lemma unescape_escaped v : unescape (concat (map escape_quoted v)) = v.
Proof.
  induction v as [| c v IH]; [done |]. cbn [map concat]. unfold escape_quoted at 1. destruct ((c =c? BSLASH) || (c =c? DQUOTE)) eqn:E.
  - cbn [app unescape]. change (BSLASH =c? BSLASH) with true. cbv iota. by rewrite IH.
  - apply orb_false_iff in E as [E _]. cbn [app unescape]. by rewrite E, IH.
Qed.

(** A string printed in quotes is read back. *)
Lemma unquote_quote v : unquoteManageSieveArg (quoteManageSieveString v) = v.
Proof.
  unfold unquoteManageSieveArg, quoteManageSieveString. cbn [app]. set (x := concat (map escape_quoted v) ++ [DQUOTE]).
  assert (Hx : exists a l, x = a :: l) by (unfold x; destruct (concat _); cbn [app]; eauto). destruct Hx as (a & l & E). rewrite E. rewrite <- E.
  change (DQUOTE =c? DQUOTE) with true. rewrite bool_decide_eq_true_2 by (unfold x; apply last_snoc). cbn [andb].
  unfold x. rewrite removelast_last. apply unescape_escaped.
Qed.

#[local] Existing Instance ascii_tables.
#[local] Existing Instance plain_mail.
#[local] Existing Instance ex_regexp.
#[local] Existing Instance ex_mime.

Definition in_order (us : UserScripts) : list (gostring * StoredScript) := map_to_list us.

Definition keep_script : gostring := "keep;".

Abbreviation history := [
  MStore true "ann" "main" keep_script true; MActivate true "ann" "main"; MStore false "ann" "lost" keep_script true;
  MStore true "bob" "b" keep_script true; MRename true "ann" "main" "new"].

(** The failed save is taken back, the renamed script stays active. *)
Example history_run :
  (ListScripts in_order "ann" (mrun in_order history (AttachStore ∅ NewManager)), GetActiveScriptName "ann" (mrun in_order history (AttachStore ∅ NewManager)))
  = (["new" : gostring], "new" : gostring).
Proof. vm_compute. reflexivity. Qed.


Lemma empty_lru : LruInv NewManager.
Proof.
  split; cbn [vacationAccessor vacationCache NewManager].
  - apply NoDup_nil_2.
  - intros s. rewrite lookup_empty. split; [intros H; by apply not_elem_of_nil in H | by intros [? ?]].
  - cbn [length]. lia.
Qed.

Lemma vacation_once_witness :
  fst (CheckAndRecordVacationFor (2 * hour) "ann|eve" day (replies [(hour, "ann|mallory" : gostring, day)] (touchVacationLocked hour "ann|eve" NewManager))) = false.
Proof.
  apply (vacation_once hour (2 * hour) "ann|eve" day day [(hour, "ann|mallory" : gostring, day)] NewManager (touchVacationLocked hour "ann|eve" NewManager)).
  - exact empty_lru.
  - reflexivity.
  - repeat constructor. discriminate.
  - vm_compute. reflexivity.
  - vm_compute. reflexivity.
  - vm_compute. reflexivity.
Defined.

(** ** A session *)
Definition no_text (_ : compile_error) : gostring := "syntax error".
Definition sample_cfg : Config := {|
  tlsAvailable := false; authHandler := fun u p => (u =s? "ann") && (p =s? "secret"); userResolver := fun u => u ++ "@example.org";
  maxAuthFailures := 3; lockoutDuration := hour |}.
Definition sample_env : Env := {| now := 0; saved := true; handshake := fun _ => None |}.
Definition no_walk (_ : gmap gostring (list Z)) : list gostring := [].

Definition login_line : gostring :=
  "AUTHENTICATE " ++ quoteManageSieveString "PLAIN" ++ " " ++ quoteManageSieveString (encode StdEncoding (byte_of 0 :: "ann" ++ byte_of 0 :: "secret")).
Definition put_line : gostring := "PUTSCRIPT " ++ quoteManageSieveString "main" ++ " " ++ literal 5.
Definition client : gostring := login_line ++ CRLF ++ put_line ++ CRLF ++ keep_script ++ CRLF ++ "LOGOUT" ++ CRLF.

Definition session0 : Session := {| input := client; output := []; user := []; tls := false; ip := "192.0.2.1" |}.
Definition shared0 : Shared := {| manager := AttachStore ∅ NewManager; authFailures := ∅ |}.
Abbreviation play := (round in_order no_walk no_text "disk full" sample_cfg sample_env).
Abbreviation st1 := (snd (play (session0, shared0))).
Abbreviation st2 := (snd (play st1)).

Example session_stores : (user (fst st2), ListScripts in_order "ann@example.org" (manager (snd st2)), input (fst st2)) =
  ("ann@example.org" : gostring, ["main" : gostring], ("LOGOUT" : gostring) ++ CRLF).
Proof. vm_compute. reflexivity. Qed.

Lemma managesieve_own_scripts_witness : authorised sample_cfg (fst st2) /\ others_same (user (fst st2)) (manager shared0) (manager (snd st2)).
Proof.
  assert (H : star (sess_step in_order no_walk no_text "disk full" sample_cfg) (session0, shared0) (fst st2, snd st2)).
  { rewrite <- surjective_pairing. apply (star_snoc _ _ st1); [apply star_one |]; exists sample_env; eexists; apply surjective_pairing. }
  exact (conj (proj1 (managesieve_own_scripts in_order no_walk no_text "disk full" sample_cfg session0 shared0 (fst st2) (snd st2) eq_refl H))
    (proj2 (proj2 (managesieve_own_scripts in_order no_walk no_text "disk full" sample_cfg session0 shared0 (fst st2) (snd st2) eq_refl H)))).
Defined.

Lemma putscript_in_sync_witness : fst (play st1) = false \/ input (fst st2) = ("LOGOUT" : gostring) ++ CRLF.
Proof.
  apply (putscript_in_sync in_order no_walk no_text "disk full" sample_cfg sample_env put_line "PUTSCRIPT" (quoteManageSieveString "main") keep_script
    (("LOGOUT" : gostring) ++ CRLF) (fst st1) (snd st1) (fst (play st1)) (fst st2) (snd st2)).
  - apply (bool_decide_unpack _). vm_compute. exact I.
  - apply (bool_decide_unpack _). vm_compute. exact I.
  - apply (bool_decide_unpack _). vm_compute. exact I.
  - vm_compute. reflexivity.
  - vm_compute. reflexivity.
  - vm_compute. discriminate.
  - vm_compute. reflexivity.
  - rewrite <- !surjective_pairing. reflexivity.
Defined.
