(* ===== verification/Routing.v ===== *)
(** * internal/server: addresses, routing and logins

    server_rcpt_route.go, the login handlers of server_handlers.go and
    quota_wiring.go, over the accounts database.  A route follows aliases at most
    [maxAliasHops] times, so the recursion is on the hops that are left.  bcrypt and
    the directory server are parameters. *)
From S2P Require Import Prelude GoLib Utf8 Bolt Accounts.

Definition maxAliasHops : nat := 10.

Section Routing.
Context {U : UnicodeTables}.

Definition parseEmail (email : gostring) : gostring * gostring :=
  match LastIndexByte email "@" with
  | None => (email, [])
  | Some at_ => (take at_ email, drop (S at_) email)
  end.

Definition normalizeRcpt (addr : gostring) : gostring * gostring :=
  let '(user, domain) := parseEmail (TrimSpace addr) in (ToLower user, TrimRight (ToLower domain) ".").

Definition normalizeLogin (login : gostring) : gostring :=
  let '(u, d) := normalizeRcpt login in
  if negb (GoLib.Contains login "@") then u else u ++ "@" ++ d.

(** Where mail for an address goes. *)
Inductive route := ToMailbox (user domain : gostring) | ToExternal (addr : gostring).
Inductive route_error := AliasLoop.

Definition active_domain (domain : gostring) (db : DB) : bool :=
  match GetDomain domain db with Ok x => DomainActive x | Err _ => false end.

(** The target of an alias, [[]] when there is none. *)
Definition resolve (domain user : gostring) (db : DB) : gostring :=
  match ResolveAlias domain user db with Ok t => t | Err _ => [] end.

(** The target and the user after the plus address was tried. *)
Definition plus_target (user domain : gostring) (db : DB) : gostring * gostring :=
  let target := resolve domain user db in
  if negb (bool_decide (target = [])) then (target, user) else
  let '(base, _, ok) := Cut user "+" in
  if ok && negb (bool_decide (base = [])) then
  if is_ok (GetAccount domain user db) then ([], user)
  else let t := resolve domain base db in
  if negb (bool_decide (t = [])) then (t, user) else ([], base)
  else ([], user).

Fixpoint route_from (left_ : nat) (seen : list gostring) (user domain : gostring) (db : DB) : result route_error route :=
  let addr := user ++ "@" ++ domain in
  if negb (active_domain domain db) then Ok (ToExternal addr)
  else if bool_decide (addr ∈ seen) then Err AliasLoop
  else match left_ with
  | O => Err AliasLoop
  | S left' =>
      let '(target, user) := plus_target user domain db in
      if negb (bool_decide (target = [])) then
      let '(tUser, tDomain) := normalizeRcpt target in
      if negb (bool_decide (tUser = [])) && negb (bool_decide (tDomain = []))
      then route_from left' (addr :: seen) tUser tDomain db
      else Ok (ToMailbox user domain)
      else Ok (ToMailbox user domain)
  end.

(** Hop 0 to hop [maxAliasHops] may go on, the next one fails. *)
Definition routeRecipient (rcpt : gostring) (db : DB) : result route_error route :=
  let '(user, domain) := normalizeRcpt rcpt in route_from (S maxAliasHops) [] user domain db.

Definition senderAllowed (username from : gostring) (db : DB) : bool :=
  if bool_decide (TrimSpace from = []) then true else
  let '(uUser, uDomain) := normalizeRcpt username in
  let '(fUser, fDomain) := normalizeRcpt from in
  if (fUser =s? uUser) && (fDomain =s? uDomain) then true else
  match routeRecipient from db with
  | Ok (ToMailbox rUser rDomain) => (rUser =s? uUser) && (rDomain =s? uDomain)
  | _ => false
  end.

Definition trim_path (s : gostring) : gostring := TrimRight (TrimLeft s "<> ") "<> ".

Definition routesToMailbox (addr mailbox : gostring) (db : DB) : bool :=
  let addr := trim_path addr in
  let mailbox := trim_path mailbox in
  if EqualFold addr mailbox then true else
  match routeRecipient addr db with
  | Ok (ToMailbox u d) => EqualFold (u ++ "@" ++ d) mailbox
  | _ => false
  end.

(** ** Logins *)
Context (CompareHashAndPassword : gostring -> gostring -> bool).

Inductive auth_error := AuthLookup (e : DbErr) | AuthInactive.

(** [ldap]: the answer of the directory, if one is configured. *)
Definition authenticate (ldap : option (gostring -> gostring -> bool)) (username password : gostring) (db : DB) : result auth_error bool :=
  let username := normalizeLogin username in
  if match ldap with Some f => f username password | None => false end then Ok true else
  let '(user, domain) := parseEmail username in
  match GetAccount domain user db with
  | Err e => Err (AuthLookup e)
  | Ok account =>
      if negb (CompareHashAndPassword (PasswordHash account) password) then Ok false
      else if negb (IsActive account) then Err AuthInactive
      else Ok true
  end.

Definition getUserSecret (username : gostring) (db : DB) : result auth_error gostring :=
  let '(user, domain) := parseEmail (normalizeLogin username) in
  match GetAccount domain user db with
  | Err e => Err (AuthLookup e)
  | Ok account => if IsActive account then Ok (PasswordHash account) else Err AuthInactive
  end.

(** The names of a client certificate. *)
Record Certificate := { EmailAddresses : list gostring; CommonName : gostring }.

Definition authenticateClientCert (cert : option Certificate) (db : DB) : option gostring :=
  match cert with
  | None => None
  | Some cert =>
      let email := match EmailAddresses cert with
      | e :: _ => e
      | [] => if GoLib.Contains (CommonName cert) "@" then CommonName cert else []
      end in
      if bool_decide (email = []) then None else
      let email := normalizeLogin email in
      let '(user, domain) := parseEmail email in
      match GetAccount domain user db with
      | Err _ => None
      | Ok account => if IsActive account then Some email else None
      end
  end.

Definition LastLoginMinInterval : Z := hour.

(** The part of a login event that is stored. *)
Definition recordLoginResult (stamp_now now : Z) (username : gostring) (success : bool) (db : DB) : DB :=
  if success then
  let '(user, domain) := parseEmail (normalizeLogin username) in
  snd (RecordLogin stamp_now domain user now LastLoginMinInterval db)
  else db.

(** The key a login's scripts are stored under ([lookupEmail]: the directory's mail
    address, [[]] when there is none). *)
Definition canonicalSieveUser (login : gostring) (lookupEmail : gostring -> gostring) : gostring :=
  let l := TrimSpace login in
  if GoLib.Contains l "@" then ToLower l else
  let email := TrimSpace (lookupEmail l) in
  if GoLib.Contains email "@" then ToLower email else login.

(** ** Quota (quota_wiring.go) *)
Definition quotaLimit (user : gostring) (db : DB) : Z :=
  let '(local, domain, ok) := Cut (ToLower user) "@" in
  if negb ok then 0 else
  match GetAccount domain local db with Ok account => QuotaLimit account | Err _ => 0 end.

Definition quotaAdjust (now : Z) (user : gostring) (delta : Z) (db : DB) : option DbErr * DB :=
  let '(local, domain, ok) := Cut (ToLower user) "@" in
  if negb ok then (None, db) else
  match IncrementQuota now domain local delta db with
  | (Ok _, db) => (None, db)
  | (Err e, db) => (Some e, db)
  end.
End Routing.

(** ** What the header of a message is, to net/mail

    [mail.ReadMessage]: the header as a map from canonical names to values, [None]
    when it does not parse. *)
Class MailHeader := { ReadHeader : gostring -> option (list (gostring * list gostring)) }.

Definition hdr_values (name : gostring) (h : list (gostring * list gostring)) : list gostring :=
  match List.find (fun e => fst e =s? name) h with Some (_, vs) => vs | None => [] end.
Definition hdr_get (name : gostring) (h : list (gostring * list gostring)) : gostring := default [] (head (hdr_values name h)).
