(* ===== verification/RoutingProps.v ===== *)
(** * Properties of routing

    A route ends in an active local domain or outside of them; mail for an account
    goes to that account; and nobody may send with the address of another account.
    The claims are applied to the domain of AccountsProps.v: its users, its
    alias and an address outside. *)
From S2P Require Import Prelude GoLib Utf8 Bolt Accounts AccountsProps Routing.

Section Routes.
Context {U : UnicodeTables}.

(** Where a route ends. *)
Definition lands (r : route) (db : DB) : Prop :=
  match r with
  | ToMailbox _ domain => active_domain domain db = true
  | ToExternal addr => exists user domain, addr = user ++ "@" ++ domain /\ active_domain domain db = false
  end.

Lemma route_from_lands n seen user domain db r : route_from n seen user domain db = Ok r -> lands r db.
Proof.
  revert seen user domain. induction n as [| n IH]; intros seen user domain; cbn [route_from]; cbv zeta.
  - destruct (active_domain domain db) eqn:Ea; cbn [negb]; [case_bool_decide; done |]. intros [= <-]. by exists user, domain.
  - destruct (active_domain domain db) eqn:Ea; cbn [negb]; [| intros [= <-]; by exists user, domain].
    case_bool_decide; [done |]. destruct (plus_target user domain db) as [target user']. split_if; [| by intros [= <-]].
    destruct (normalizeRcpt target) as [tUser tDomain]. split_if; [apply IH | by intros [= <-]].
Qed.

(** An address as the server writes it: lower case, no blanks, no root dot. *)
Definition canonical (local domain : gostring) : Prop :=
  normalizeRcpt (local ++ "@" ++ domain) = (local, domain).

(** In a consistent database an account's address has no alias. *)
Lemma account_no_alias db domain local a : Consistent db -> GetAccount domain local db = Ok a -> resolve domain local db = [].
Proof.
  intros C Ha. apply Get_Ok in Ha. unfold resolve, ResolveAlias, GetAlias, Get.
  destruct (aliases db !! AliasKey domain local) as [r |] eqn:El; [| done]. exfalso.
  pose proof (acct_ascii _ C _ (ex_intro _ _ Ha)) as Hk. unfold AccountKey in Hk. rewrite !isASCII_app in Hk. breflect.
  refine (no_shadow _ C domain local _ (ex_intro _ _ Ha) (ex_intro _ _ El) _). unfold AliasKey. rewrite ToLower_ascii by done.
  change (lowered (domain ++ ":"%char :: local) = lowered (domain ++ ":"%char :: lowered local)). rewrite !lowered_key by done. by rewrite lowered_idem.
Qed.

(** Mail for the address of an account goes to its mailbox. *)
Lemma route_account db domain local a : Consistent db -> canonical local domain -> active_domain domain db = true ->
  GetAccount domain local db = Ok a -> routeRecipient (local ++ "@" ++ domain) db = Ok (ToMailbox local domain).
Proof.
  intros C Hc Hd Ha. unfold routeRecipient. rewrite Hc. unfold maxAliasHops. cbn [route_from]. cbv zeta. rewrite Hd. cbn [negb].
  rewrite bool_decide_eq_false_2 by apply not_elem_of_nil. unfold plus_target. rewrite (account_no_alias db domain local a C Ha).
  rewrite bool_decide_eq_true_2 by done. cbn [negb]. destruct (Cut local "+") as [[base rest] ok]. rewrite Ha. cbn [is_ok].
  destruct (ok && _); by rewrite bool_decide_eq_true_2.
Qed.
End Routes.

(** C14: Nobody may send with another account's address: a user whose mailbox is not
    that of an account in an active local domain is refused its address as sender. *)
Theorem no_impersonation {U : UnicodeTables} db username local domain a : Consistent db -> canonical local domain ->
  active_domain domain db = true -> GetAccount domain local db = Ok a -> TrimSpace (local ++ "@" ++ domain) <> [] ->
  normalizeRcpt username <> (local, domain) -> senderAllowed username (local ++ "@" ++ domain) db = false.
Proof.
  intros C Hc Hd Ha Hne Hu. unfold senderAllowed. rewrite bool_decide_eq_false_2 by done. destruct (normalizeRcpt username) as [uUser uDomain].
  rewrite Hc. rewrite (route_account db domain local a C Hc Hd Ha).
  assert (Hn : (local =s? uUser) && (domain =s? uDomain) = false).
  { apply andb_false_iff. destruct (decide (local = uUser)) as [-> |]; [| left; by apply bool_decide_eq_false_2].
    right. apply bool_decide_eq_false_2. congruence. }
  by rewrite Hn.
Qed.

(** Every route ends well: a recipient that is routed goes to a mailbox of an
    active local domain, or outside of them all. *)
Theorem route_lands {U : UnicodeTables} db rcpt r : routeRecipient rcpt db = Ok r -> lands r db.
Proof. unfold routeRecipient. destruct (normalizeRcpt rcpt) as [user domain]. apply route_from_lands. Qed.

#[local] Existing Instance ascii_tables.

(** An alias and a subaddress lead to the mailbox, an unknown name of a local
    domain stays local, any other domain is outside. *)
Example sample_routes :
  map (fun rcpt : gostring => routeRecipient rcpt sample)
    ["INFO@Example.ORG" : gostring; "bob+lists@example.org" : gostring; "nobody@example.org" : gostring; "x@elsewhere.net" : gostring] =
  [Ok (ToMailbox "alice" "example.org"); Ok (ToMailbox "bob" "example.org"); Ok (ToMailbox "nobody" "example.org"); Ok (ToExternal "x@elsewhere.net")].
Proof. vm_compute. reflexivity. Qed.

(** The alias's owner may send with it, the other user may not. *)
Example sample_senders :
  (senderAllowed "alice@example.org" "info@example.org" sample, senderAllowed "bob@example.org" "info@example.org" sample,
   senderAllowed "bob@example.org" "Bob@Example.org" sample) = (true, false, true).
Proof. vm_compute. reflexivity. Qed.

Lemma no_impersonation_witness : senderAllowed "bob@example.org" "alice@example.org" sample = false.
Proof.
  refine (no_impersonation sample "bob@example.org" "alice" "example.org" (set_times 2 2 zero_time (sample_account "alice" true)) sample_consistent _ _ _ _ _).
  - vm_compute. reflexivity.
  - vm_compute. reflexivity.
  - vm_compute. reflexivity.
  - vm_compute. discriminate.
  - vm_compute. discriminate.
Defined.

Lemma route_lands_witness : lands (ToMailbox "alice" "example.org") sample.
Proof. apply (route_lands sample "INFO@Example.ORG"). vm_compute. reflexivity. Defined.
