(* ===== verification/MailDb.v ===== *)
(** * internal/storage: mailboxes, messages, changes and access rights

    The metadata database of database.go, changes.go and database_acl.go.
    [Database] is the bbolt file, one field per family of buckets, keyed by the
    byte strings the code builds ([mailboxKey], [messagesBucket], [aclKey], ...),
    so that a collision of keys in the code is one in the model.  A row is the
    value its JSON encodes; a transaction that returns an error changes nothing.
    [now] is the time an operation runs at.  The test mode without a database
    file, threads and subscription lists are left out. *)
From S2P Require Import Prelude GoLib Utf8 Bolt.

(** ** Keys *)
Definition NUL : ascii := byte_of 0.

(** [userKeyEscaper] replaces byte by byte, [userKeyUnescaper] pair by pair. *)
Definition escape_byte (c : ascii) : gostring :=
  if c =c? NUL then [NUL; "z"%char] else if c =c? ":" then [NUL; "c"%char] else [c].
Definition userKeyEscaper (s : gostring) : gostring := concat (map escape_byte s).
Fixpoint userKeyUnescaper (s : gostring) : gostring :=
  match s with
  | a :: (b :: t) as r =>
      if (a =c? NUL) && (b =c? "c") then ":"%char :: userKeyUnescaper t
      else if (a =c? NUL) && (b =c? "z") then NUL :: userKeyUnescaper t
      else a :: userKeyUnescaper r
  | _ => s
  end.
Definition keyUser (user : gostring) : gostring :=
  if negb (ContainsAny user [":"%char; NUL]) then user else userKeyEscaper user.

Definition mailboxKey (user mailbox : gostring) : gostring := "mailbox:" ++ keyUser user ++ ":" ++ mailbox.
Definition messagesBucket (user mailbox : gostring) : gostring := "msgs:" ++ keyUser user ++ ":" ++ mailbox.
Definition changesBucket (user : gostring) : gostring := "changes:" ++ keyUser user.
Definition aclOwnerMailboxPrefix (owner mailbox : gostring) : gostring :=
  "acl:" ++ keyUser owner ++ ":" ++ mailbox ++ ":".
Definition aclKey (owner mailbox grantee : gostring) : gostring :=
  "acl:" ++ keyUser owner ++ ":" ++ mailbox ++ ":" ++ grantee.

#[global] Arguments keyUser : simpl never.
#[global] Arguments mailboxKey : simpl never.
#[global] Arguments messagesBucket : simpl never.
#[global] Arguments changesBucket : simpl never.
#[global] Arguments aclOwnerMailboxPrefix : simpl never.
#[global] Arguments aclKey : simpl never.

(** ** Data *)
(** A mailbox bucket: each of its three keys may be missing. *)
Record MailboxRow := { uidvalidity : option Z; uidnext : option Z; highestmodseq : option Z }.
Definition empty_row : MailboxRow := {| uidvalidity := None; uidnext := None; highestmodseq := None |}.
(** [btoi] and [btoi64] of a missing value are 0. *)
Abbreviation num o := (default 0 o).

Record Mailbox := { Name : gostring; UIDValidity : Z; UIDNext : Z; HighestModSeq : Z }.

Record MessageMetadata := {
  MessageID : gostring;
  UID : Z;
  Flags : list gostring;
  InternalDate : Z;
  Size : Z;
  ModSeq : Z;
  Subject : gostring;
  Date : gostring;
  From : gostring;
  To : gostring;
  InReplyTo : gostring;
  References : list gostring;
  ThreadID : gostring;
  IsThreadRoot : bool
}.

Inductive ChangeType := ChangeTypeMailbox | ChangeTypeEmail | ChangeTypeThread.
Inductive ChangeKind := ChangeKindCreated | ChangeKindUpdated | ChangeKindDestroyed.
#[export] Instance ChangeType_eq_dec : EqDecision ChangeType.
Proof. solve_decision. Defined.

Record ChangeEntry := {
  Seq : Z;
  Type_ : ChangeType;
  Kind : ChangeKind;
  ID : gostring;
  ChMailbox : gostring;
  At : Z
}.
(** A journal bucket: bbolt keeps a sequence number beside the rows. *)
Record Journal := { sequence : Z; entries : gmap Z ChangeEntry }.

Record ACLEntry := { Grantee : gostring; Rights : Z; GrantedAt : Z; GrantedBy : gostring }.

Record Database := {
  mailboxes : gmap gostring MailboxRow;
  messages : gmap gostring (gmap Z MessageMetadata);
  floors : gmap gostring Z;
  acl : gmap gostring ACLEntry;
  changes : gmap gostring Journal
}.
Definition empty_db : Database :=
  {| mailboxes := ∅; messages := ∅; floors := ∅; acl := ∅; changes := ∅ |}.

Definition set_mailboxes f (db : Database) : Database := {|
  mailboxes := f (mailboxes db); messages := messages db; floors := floors db; acl := acl db; changes := changes db |}.
Definition set_messages f (db : Database) : Database := {|
  mailboxes := mailboxes db; messages := f (messages db); floors := floors db; acl := acl db; changes := changes db |}.
Definition set_floors f (db : Database) : Database := {|
  mailboxes := mailboxes db; messages := messages db; floors := f (floors db); acl := acl db; changes := changes db |}.
Definition set_acl f (db : Database) : Database := {|
  mailboxes := mailboxes db; messages := messages db; floors := floors db; acl := f (acl db); changes := changes db |}.
Definition set_changes f (db : Database) : Database := {|
  mailboxes := mailboxes db; messages := messages db; floors := floors db; acl := acl db; changes := f (changes db) |}.

Inductive db_error := ErrTimestampRange | ErrUIDSpaceExhausted | ErrDeleteINBOX | ErrDestinationExists | ErrCallback.

(** ** The change journal *)
Definition unix (now : Z) : Z := now / second.

Definition RecordChange (now : Z) (user : gostring) (ct : ChangeType) (ck : ChangeKind) (id mailbox : gostring)
  (db : Database) : Database :=
  if bool_decide (user = []) then db else
  let j := default {| sequence := 0; entries := ∅ |} (changes db !! changesBucket user) in
  let seq := wrap_u64 (sequence j + 1) in
  let e := {| Seq := seq; Type_ := ct; Kind := ck; ID := id; ChMailbox := mailbox; At := now |} in
  set_changes <[changesBucket user := {| sequence := seq; entries := <[seq := e]> (entries j) |}]> db.

Definition CurrentChangeState (user : gostring) (db : Database) : gostring :=
  FormatUint match changes db !! changesBucket user with Some j => sequence j | None => 0 end.

Definition ParseChangeState (state : gostring) : Z :=
  match ParseUint state max_uint64 with Ok v => v | Err _ => 0 end.

(** The cursor from [start]: rows of the type, until one is beyond the cap. *)
Fixpoint since_go (ct : ChangeType) (max : Z) (rows : list ChangeEntry) (acc : list ChangeEntry) (lastSeq : Z)
  : list ChangeEntry * bool * Z :=
  match rows with
  | [] => (acc, false, lastSeq)
  | e :: r =>
      if bool_decide (Type_ e <> ct) then since_go ct max r acc lastSeq
      else if max <=? Z.of_nat (length acc) then (acc, true, lastSeq)
      else since_go ct max r (acc ++ [e]) (Seq e)
  end.

Definition rows_from (start : Z) (j : Journal) : list ChangeEntry :=
  omap (fun k => entries j !! k) (filter (fun k => start <= k) (keys (entries j))).

Definition GetChangesSince (user : gostring) (ct : ChangeType) (sinceSeq max : Z) (db : Database)
  : list ChangeEntry * bool * Z :=
  if sinceSeq =? max_uint64 then ([], false, sinceSeq) else
  let max := if max <=? 0 then 256 else max in
  match changes db !! changesBucket user with
  | None => ([], false, sinceSeq)
  | Some j => since_go ct max (rows_from (sinceSeq + 1) j) [] sinceSeq
  end.

Definition ChangesRetention : Z := 30 * 24 * hour.
Definition ChangesMaxEntriesPerUser : nat := Z.to_nat 50000.

Definition PruneChanges (now : Z) (user : gostring) (db : Database) : Database :=
  if bool_decide (user = []) then db else
  match changes db !! changesBucket user with
  | None => db
  | Some j =>
      let kept := filter (fun '(_, e) => now - ChangesRetention <= At e) (entries j) in
      let live := size kept in
      let kept :=
        if (live <=? ChangesMaxEntriesPerUser)%nat then kept
        else foldr (fun k m => delete k m) kept (take (live - ChangesMaxEntriesPerUser) (keys kept)) in
      set_changes <[changesBucket user := {| sequence := sequence j; entries := kept |}]> db
  end.

(** ** Flags and rows *)
Section Database.
Context `{U : UnicodeTables}.

Definition isINBOX (name : gostring) : bool := EqualFold name "INBOX".

Definition HasFlag (flags : list gostring) (flag : gostring) : bool := existsb (fun f => EqualFold f flag) flags.
Definition RemoveFlag (flags : list gostring) (flag : gostring) : list gostring :=
  List.filter (fun f => negb (EqualFold f flag)) flags.

Fixpoint normalizeFlags_go (seen : list gostring) (flags : list gostring) : list gostring :=
  match flags with
  | [] => []
  | f :: r =>
      if bool_decide (f = []) || existsb (fun k => k =s? ToLower f) seen then normalizeFlags_go seen r
      else f :: normalizeFlags_go (ToLower f :: seen) r
  end.
Definition normalizeFlags : list gostring -> list gostring := normalizeFlags_go [].

Definition MaxStoredReferences : nat := 100.

Definition with_flags (flags : list gostring) (m : MessageMetadata) : MessageMetadata := {|
  MessageID := MessageID m; UID := UID m; Flags := flags; InternalDate := InternalDate m; Size := Size m;
  ModSeq := ModSeq m; Subject := Subject m; Date := Date m; From := From m; To := To m; InReplyTo := InReplyTo m;
  References := References m; ThreadID := ThreadID m; IsThreadRoot := IsThreadRoot m |}.
Definition with_modseq (s : Z) (m : MessageMetadata) : MessageMetadata := {|
  MessageID := MessageID m; UID := UID m; Flags := Flags m; InternalDate := InternalDate m; Size := Size m;
  ModSeq := s; Subject := Subject m; Date := Date m; From := From m; To := To m; InReplyTo := InReplyTo m;
  References := References m; ThreadID := ThreadID m; IsThreadRoot := IsThreadRoot m |}.
(** The copy that is stored: flags normalised, only the newest references. *)
Definition stored_copy (m : MessageMetadata) : MessageMetadata := {|
  MessageID := MessageID m; UID := UID m; Flags := normalizeFlags (Flags m); InternalDate := InternalDate m;
  Size := Size m; ModSeq := ModSeq m; Subject := Subject m; Date := Date m; From := From m; To := To m;
  InReplyTo := InReplyTo m; References := drop (length (References m) - MaxStoredReferences) (References m);
  ThreadID := ThreadID m; IsThreadRoot := IsThreadRoot m |}.
Definition zero_meta : MessageMetadata := {|
  MessageID := []; UID := 0; Flags := []; InternalDate := zero_time; Size := 0; ModSeq := 0; Subject := []; Date := [];
  From := []; To := []; InReplyTo := []; References := []; ThreadID := []; IsThreadRoot := false |}.

Definition put_row (key : gostring) (r : MailboxRow) : Database -> Database := set_mailboxes <[key := r]>.
Definition row_of (key : gostring) (db : Database) : MailboxRow := default empty_row (mailboxes db !! key).
Definition rows_of (user mailbox : gostring) (db : Database) : gmap Z MessageMetadata :=
  default ∅ (messages db !! messagesBucket user mailbox).
Definition with_uidvalidity (uv : Z) (r : MailboxRow) : MailboxRow :=
  {| uidvalidity := Some uv; uidnext := uidnext r; highestmodseq := highestmodseq r |}.
Definition with_uidnext (n : Z) (r : MailboxRow) : MailboxRow :=
  {| uidvalidity := uidvalidity r; uidnext := Some n; highestmodseq := highestmodseq r |}.
Definition with_highest (n : Z) (r : MailboxRow) : MailboxRow :=
  {| uidvalidity := uidvalidity r; uidnext := uidnext r; highestmodseq := Some n |}.

(** ** UIDVALIDITY *)
(** The floor bucket exists once something was put into it. *)
Definition nextUIDValidityTx (now : Z) (key : gostring) (db : Database) : result db_error Z :=
  let t := unix now in
  if (t <? 0) || (2147483647 <? t) then Err ErrTimestampRange else
  let floor := num (floors db !! key) in
  Ok (if negb (bool_decide (floors db = ∅)) && (t <=? floor) then (floor + 1) mod 2 ^ 32 else t).

Definition recordUIDValidityFloorTx (key : gostring) (db : Database) : Database :=
  match mailboxes db !! key with
  | Some {| uidvalidity := Some uv |} =>
      match floors db !! key with
      | Some cur => if uv <=? cur then db else set_floors <[key := uv]> db
      | None => set_floors <[key := uv]> db
      end
  | _ => db
  end.

(** The mailbox bucket after [CreateBucketIfNotExists] and [ensureUIDValidityTx]. *)
Definition ensureUIDValidityTx (now : Z) (key : gostring) (db : Database) : result db_error MailboxRow :=
  let r := row_of key db in
  match uidvalidity r with
  | Some _ => Ok r
  | None => let* uv := nextUIDValidityTx now key db in Ok (with_uidvalidity uv r)
  end.

(** ** Mailboxes *)
Definition GetMailbox (user mailbox : gostring) (db : Database) : Mailbox :=
  match mailboxes db !! mailboxKey user mailbox with
  | None => {| Name := mailbox; UIDValidity := 1; UIDNext := 1; HighestModSeq := 0 |}
  | Some r => {| Name := mailbox; UIDValidity := num (uidvalidity r); UIDNext := num (uidnext r);
    HighestModSeq := num (highestmodseq r) |}
  end.

Definition make_messages (key : gostring) : Database -> Database :=
  set_messages (fun ms => match ms !! key with Some _ => ms | None => <[key := ∅]> ms end).

Definition CreateMailbox (now : Z) (user mailbox : gostring) (db : Database) : result db_error Database :=
  let key := mailboxKey user mailbox in
  let created := negb (bool_decide (is_Some (uidvalidity (row_of key db)))) in
  let* r := ensureUIDValidityTx now key db in
  let r := {| uidvalidity := uidvalidity r; uidnext := Some (default 1 (uidnext r));
    highestmodseq := Some (default 0 (highestmodseq r)) |} in
  let db := make_messages (messagesBucket user mailbox) (put_row key r db) in
  Ok (if created then RecordChange now user ChangeTypeMailbox ChangeKindCreated mailbox [] db else db).

(** ** Access control entries *)
Definition aclKeyBelongsTo (owner mailbox k : gostring) (e : ACLEntry) : bool :=
  bool_decide (k = aclKey owner mailbox (Grantee e)).

(** The entries of exactly one mailbox, found by a scan of its prefix. *)
Definition acl_scan (owner mailbox : gostring) (db : Database) : list (gostring * ACLEntry) :=
  filter (fun '(k, e) => HasPrefix k (aclOwnerMailboxPrefix owner mailbox) = true /\
    aclKeyBelongsTo owner mailbox k e = true) (cursor (acl db)).

Definition DeleteACL (owner mailbox grantee : gostring) (db : Database) : Database :=
  if negb (bool_decide (grantee = [])) then set_acl (delete (aclKey owner mailbox grantee)) db
  else set_acl (fun m => foldl (fun m k => delete k m) m (map fst (acl_scan owner mailbox db))) db.

Definition GetACL (owner mailbox grantee : gostring) (db : Database) : Z :=
  match acl db !! aclKey owner mailbox grantee with Some e => Rights e | None => 0 end.

Definition SetACL (now : Z) (owner mailbox grantee : gostring) (rights : Z) (grantingUser : gostring) (db : Database)
  : Database :=
  if rights =? 0 then set_acl (delete (aclKey owner mailbox grantee)) db else
  set_acl <[aclKey owner mailbox grantee :=
    {| Grantee := grantee; Rights := rights; GrantedAt := now; GrantedBy := grantingUser |}]> db.

Definition ListACL (owner mailbox : gostring) (db : Database) : list ACLEntry := map snd (acl_scan owner mailbox db).

Definition CanAccess (user owner mailbox : gostring) (required : Z) (db : Database) : bool :=
  bool_decide (user = owner) || (Z.land (GetACL owner mailbox user db) required =? required).

(** ** Deleting and renaming mailboxes *)
Definition DeleteMailbox (now : Z) (user mailbox : gostring) (db : Database) : result db_error Database :=
  if isINBOX mailbox then Err ErrDeleteINBOX else
  let key := mailboxKey user mailbox in
  let existed := bool_decide (is_Some (mailboxes db !! key)) in
  let db := recordUIDValidityFloorTx key db in
  let db := set_messages (delete (messagesBucket user mailbox)) (set_mailboxes (delete key) db) in
  Ok (if existed
    then DeleteACL user mailbox [] (RecordChange now user ChangeTypeMailbox ChangeKindDestroyed mailbox [] db)
    else db).

(** The grants of the old name, each put under the new name and then deleted. *)
Definition move_acl (user oldName newName : gostring) (db : Database) : Database :=
  let prefix := aclOwnerMailboxPrefix user oldName in
  set_acl (fun m => foldl (fun m '(k, e) =>
    delete k (<[aclKey user newName (drop (length prefix) k) := e]> m)) m (acl_scan user oldName db)) db.

Definition RenameMailbox (now : Z) (user oldName newName : gostring) (db : Database) : result db_error Database :=
  if bool_decide (oldName = newName) then Ok db else
  let oldKey := mailboxKey user oldName in
  let oldMsgs := messagesBucket user oldName in
  let newKey := mailboxKey user newName in
  let newMsgs := messagesBucket user newName in
  if bool_decide (is_Some (mailboxes db !! newKey) \/ is_Some (messages db !! newMsgs))
  then Err ErrDestinationExists else
  let* db :=
  match mailboxes db !! oldKey with
  | None =>
      let* uv := nextUIDValidityTx now newKey db in
      Ok (make_messages newMsgs
        (put_row newKey {| uidvalidity := Some uv; uidnext := Some 1; highestmodseq := None |} db))
  | Some r =>
      let floor := num (floors db !! newKey) in
      let r := if negb (bool_decide (floors db = ∅)) && (num (uidvalidity r) <=? floor)
      then with_uidvalidity ((floor + 1) mod 2 ^ 32) r else r in
      let db := put_row newKey r db in
      let db := match messages db !! oldMsgs with Some ms => set_messages <[newMsgs := ms]> db | None => db end in
      let db := recordUIDValidityFloorTx oldKey db in
      let db := set_messages (delete oldMsgs) (set_mailboxes (delete oldKey) db) in
      Ok (move_acl user oldName newName db)
  end in
  Ok (RecordChange now user ChangeTypeMailbox ChangeKindCreated newName []
    (RecordChange now user ChangeTypeMailbox ChangeKindDestroyed oldName [] db)).

(** ** UIDs and modification sequences *)
(** The error aborts the transaction, the UIDVALIDITY it may have set included. *)
Definition GetNextUID (now : Z) (user mailbox : gostring) (db : Database) : result db_error (Z * Database) :=
  let key := mailboxKey user mailbox in
  let* r := ensureUIDValidityTx now key db in
  let uid := num (uidnext r) in
  let uid := if uid =? 0 then 1 else uid in
  if uid =? max_uint32 then Err ErrUIDSpaceExhausted
  else Ok (uid, put_row key (with_uidnext (uid + 1) r) db).

Definition GetNextModSeq (now : Z) (user mailbox : gostring) (db : Database) : result db_error (Z * Database) :=
  let key := mailboxKey user mailbox in
  let* r := ensureUIDValidityTx now key db in
  let modSeq := wrap_u64 (num (highestmodseq r) + 1) in
  Ok (modSeq, put_row key (with_highest modSeq r) db).

Definition GetHighestModSeq (user mailbox : gostring) (db : Database) : Z :=
  num (highestmodseq (row_of (mailboxKey user mailbox) db)).

Definition raiseHighestModSeqTx (user mailbox : gostring) (v : Z) (db : Database) : Database :=
  if v =? 0 then db else
  match mailboxes db !! mailboxKey user mailbox with
  | None => db
  | Some r => if v <=? num (highestmodseq r) then db else put_row (mailboxKey user mailbox) (with_highest v r) db
  end.

Definition getNextModSeqTx (user mailbox : gostring) (db : Database) : Z * Database :=
  let key := mailboxKey user mailbox in
  let modSeq := wrap_u64 (num (highestmodseq (row_of key db)) + 1) in
  (modSeq, put_row key (with_highest modSeq (row_of key db)) db).

(** ** Messages *)
Definition GetMessageUIDs (user mailbox : gostring) (db : Database) : list Z := keys (rows_of user mailbox db).

Definition GetMessageMetadata (user mailbox : gostring) (uid : Z) (db : Database) : MessageMetadata :=
  default zero_meta (rows_of user mailbox db !! uid).

Definition put_message (user mailbox : gostring) (uid : Z) (m : MessageMetadata) (db : Database) : Database :=
  set_messages <[messagesBucket user mailbox := <[uid := m]> (rows_of user mailbox db)]> db.

(** UIDNEXT stays above a stored UID. *)
Definition raise_uidnext (user mailbox : gostring) (uid : Z) (db : Database) : Database :=
  match mailboxes db !! mailboxKey user mailbox with
  | Some r => if negb (uid =? max_uint32) && (num (uidnext r) <=? uid)
      then put_row (mailboxKey user mailbox) (with_uidnext (uid + 1) r) db else db
  | None => db
  end.

Definition StoreMessageMetadata (now : Z) (user mailbox : gostring) (uid : Z) (meta : MessageMetadata) (db : Database)
  : Database :=
  let cp := stored_copy meta in
  let old := rows_of user mailbox db !! uid in
  let '(cp, db) :=
  match old with
  | Some prev =>
      if ModSeq cp <=? ModSeq prev then
      let '(ms, db) := getNextModSeqTx user mailbox (raiseHighestModSeqTx user mailbox (ModSeq prev) db) in
      (with_modseq ms cp, db)
      else (cp, db)
  | None => (cp, db)
  end in
  let db := raiseHighestModSeqTx user mailbox (ModSeq cp) db in
  let db := put_message user mailbox uid cp (raise_uidnext user mailbox uid db) in
  if bool_decide (MessageID meta = []) then db else
  let kind := if bool_decide (is_Some old) then ChangeKindUpdated else ChangeKindCreated in
  let db := RecordChange now user ChangeTypeEmail kind (MessageID meta) mailbox db in
  if bool_decide (ThreadID meta = []) then db else
  let tk := if negb (bool_decide (is_Some old)) && IsThreadRoot meta then ChangeKindCreated else ChangeKindUpdated in
  RecordChange now user ChangeTypeThread tk (ThreadID meta) [] db.

Definition UpdateMessageMetadataFunc (user mailbox : gostring) (uid : Z)
  (fn : MessageMetadata -> option MessageMetadata) (db : Database) : result db_error Database :=
  match rows_of user mailbox db !! uid with
  | None => Ok db
  | Some meta =>
      match fn meta with
      | None => Err ErrCallback
      | Some meta =>
          let meta := with_flags (normalizeFlags (Flags meta)) meta in
          let '(ms, db) := getNextModSeqTx user mailbox db in
          Ok (put_message user mailbox uid (with_modseq ms meta) db)
      end
  end.

Definition ClearRecent (user mailbox : gostring) (db : Database) : Database :=
  match messages db !! messagesBucket user mailbox with
  | None => db
  | Some rows =>
      set_messages <[messagesBucket user mailbox :=
        (fun m => if HasFlag (Flags m) "\Recent" then with_flags (RemoveFlag (Flags m) "\Recent") m else m) <$> rows]> db
  end.

Definition DeleteMessage (now : Z) (user mailbox : gostring) (uid : Z) (db : Database) : Database :=
  match messages db !! messagesBucket user mailbox with
  | None => db
  | Some rows =>
      let db := set_messages <[messagesBucket user mailbox := delete uid rows]> db in
      match rows !! uid with
      | None => db
      | Some meta =>
          if bool_decide (MessageID meta = []) then db else
          let db := RecordChange now user ChangeTypeEmail ChangeKindDestroyed (MessageID meta) mailbox db in
          if bool_decide (ThreadID meta = []) then db
          else RecordChange now user ChangeTypeThread ChangeKindUpdated (ThreadID meta) [] db
      end
  end.

Definition GetMailboxCounts (user mailbox : gostring) (db : Database) : nat * nat * nat :=
  let rows := map_to_list (rows_of user mailbox db) in
  (length rows,
    length (List.filter (fun '(_, m) => HasFlag (Flags m) "\Recent") rows),
    length (List.filter (fun '(_, m) => negb (HasFlag (Flags m) "\Seen")) rows)).

(** [BlobReferenced] for one blob: a message row of some mailbox of the user names
    it (the scan is over the prefix of the user's buckets), or a pending upload
    does. *)
Definition BlobReferenced (pending : gostring -> gostring -> bool) (user id : gostring) (db : Database) : bool :=
  pending user id ||
  existsb (fun '(k, rows) =>
    HasPrefix k ("msgs:" ++ keyUser user ++ ":") && existsb (fun '(_, m) => MessageID m =s? id) (map_to_list rows))
  (map_to_list (messages db)).
End Database.

(** ** Rights *)
Definition ACLLookup : Z := 1.
Definition ACLRead : Z := 2.
Definition ACLSeen : Z := 4.
Definition ACLWrite : Z := 8.
Definition ACLWriteSeen : Z := 16.
Definition ACLDelete : Z := 32.
Definition ACLExpunge : Z := 64.
Definition ACLCreate : Z := 128.

Definition rights_letters : list (Z * ascii) :=
  [(ACLLookup, "l"); (ACLRead, "r"); (ACLSeen, "s"); (ACLWriteSeen, "w"); (ACLWrite, "i"); (ACLDelete, "t");
   (ACLExpunge, "e"); (ACLCreate, "k")]%char.

Definition ACLRights_String (r : Z) : gostring :=
  concat (map (fun '(b, c) => if negb (Z.land r b =? 0) then [c] else []) rights_letters).

(** The loop is over runes; none beyond ASCII is a right. *)
Fixpoint parse_rights (rights : Z) (rs : list Z) : option Z :=
  match rs with
  | [] => Some rights
  | r :: t =>
      match List.find (fun '(_, c) => bz c =? r) rights_letters with
      | Some (b, _) => parse_rights (Z.lor rights b) t
      | None => None
      end
  end.

Definition ParseACLRights (s : gostring) : option (Z * bool) :=
  match s with
  | [] => Some (0, false)
  | c :: t =>
      let negative := c =c? "-" in
      (fun r => (r, negative)) <$> parse_rights 0 (runes (if negative then t else s))
  end.
