(* ===== verification/MailDbProps.v ===== *)
(** * internal/storage: what the metadata database guarantees

    Keys do not collide across users and mailboxes; UIDs and UIDVALIDITY are
    never reused; HIGHESTMODSEQ and UIDNEXT cover every stored message; access
    rights are those granted; a client that polls the change journal misses
    nothing.  The properties of a history are invariants of [db_step], in which
    every operation of the database is a step. *)
From S2P Require Import Prelude GoLib Utf8 Bolt MailDb.

(** ** Keys *)
Lemma escape_no_colon s : ":"%char ∉ userKeyEscaper s.
Proof.
  unfold userKeyEscaper. rewrite list_elem_of_In, in_concat. intros (x & Hx & Hc).
  apply in_map_iff in Hx as (c & <- & _). unfold escape_byte in Hc.
  destruct (Ascii.eqb_spec c NUL); [destruct Hc as [Hc | [Hc | []]]; done |].
  destruct (Ascii.eqb_spec c ":"%char); [destruct Hc as [Hc | [Hc | []]]; done |].
  destruct Hc as [Hc | []]; congruence.
Qed.

Lemma unescape_escape s : userKeyUnescaper (userKeyEscaper s) = s.
Proof.
  induction s as [| c s IH]; [done |]. change (userKeyEscaper (c :: s)) with (escape_byte c ++ userKeyEscaper s).
  unfold escape_byte. destruct (Ascii.eqb_spec c NUL) as [-> | Hc].
  { cbn [app userKeyUnescaper]. rewrite !Ascii.eqb_refl. cbn [andb]. by rewrite IH. }
  destruct (Ascii.eqb_spec c ":"%char) as [-> | Hc'].
  { cbn [app userKeyUnescaper]. rewrite !Ascii.eqb_refl. cbn [andb]. by rewrite IH. }
  cbn [app]. destruct (userKeyEscaper s) as [| b t] eqn:E; cbn [userKeyUnescaper] in *.
  { destruct s; [done |]. simpl in IH. congruence. }
  destruct (Ascii.eqb_spec c NUL) as [-> |]; [done |]. cbn [andb]. by rewrite IH.
Qed.

Lemma keyUser_escaper u : keyUser u = userKeyEscaper u.
Proof.
  unfold keyUser. destruct (ContainsAny u [":"%char; NUL]) eqn:E; [done |]. cbn [negb].
  unfold ContainsAny in E. induction u as [| c u IH]; [done |]. simpl in E. apply orb_false_iff in E as [E1 E2].
  change (userKeyEscaper (c :: u)) with (escape_byte c ++ userKeyEscaper u). rewrite <- IH by done.
  unfold in_set in E1. simpl in E1. apply orb_false_iff in E1 as [Ea Eb]. apply orb_false_iff in Eb as [Eb _].
  unfold escape_byte. rewrite (Ascii.eqb_sym c NUL), Eb, (Ascii.eqb_sym c ":"%char), Ea. done.
Qed.

Lemma keyUser_inj u v : keyUser u = keyUser v -> u = v.
Proof.
  rewrite !keyUser_escaper. intros H. by rewrite <- (unescape_escape u), <- (unescape_escape v), H.
Qed.

Lemma keyUser_no_colon u : ":"%char ∉ keyUser u.
Proof. rewrite keyUser_escaper. apply escape_no_colon. Qed.

(** A key is split at the first colon behind its prefix. *)
Lemma user_rest_inj u v r s : keyUser u ++ ":" ++ r = keyUser v ++ ":" ++ s -> u = v /\ r = s.
Proof.
  intros H. pose proof (Cut_app _ r _ (keyUser_no_colon u)) as H1. pose proof (Cut_app _ s _ (keyUser_no_colon v)) as H2.
  change (keyUser u ++ ":"%char :: r) with (keyUser u ++ ":" ++ r) in H1.
  change (keyUser v ++ ":"%char :: s) with (keyUser v ++ ":" ++ s) in H2.
  rewrite H, H2 in H1. injection H1 as H1 H3. split; [by apply keyUser_inj | done].
Qed.

Lemma mailboxKey_inj u m v n : mailboxKey u m = mailboxKey v n -> u = v /\ m = n.
Proof. intros H. apply (app_inv_head ("mailbox:" : gostring)) in H. by apply user_rest_inj. Qed.
Lemma messagesBucket_inj u m v n : messagesBucket u m = messagesBucket v n -> u = v /\ m = n.
Proof. intros H. apply (app_inv_head ("msgs:" : gostring)) in H. by apply user_rest_inj. Qed.
Lemma changesBucket_inj u v : changesBucket u = changesBucket v -> u = v.
Proof. intros H. apply (app_inv_head ("changes:" : gostring)) in H. by apply keyUser_inj. Qed.

Lemma mailboxKey_ne u m v n : (u, m) <> (v, n) -> mailboxKey u m <> mailboxKey v n.
Proof. intros H E. apply mailboxKey_inj in E as [-> ->]. done. Qed.
Lemma messagesBucket_ne u m v n : (u, m) <> (v, n) -> messagesBucket u m <> messagesBucket v n.
Proof. intros H E. apply messagesBucket_inj in E as [-> ->]. done. Qed.

(** ** What an operation reads back *)
Lemma rows_of_make k u m db : rows_of u m (make_messages k db) = rows_of u m db.
Proof.
  unfold rows_of, make_messages, set_messages. cbn [messages].
  destruct (messages db !! k) eqn:Ek; [done |].
  destruct (decide (k = messagesBucket u m)) as [-> |]; [by rewrite lookup_insert_eq, Ek | by rewrite lookup_insert_ne].
Qed.

Lemma rows_of_put u m uid meta v k db :
  rows_of v k (put_message u m uid meta db) =
  if decide ((u, m) = (v, k)) then <[uid := meta]> (rows_of u m db) else rows_of v k db.
Proof.
  unfold rows_of at 1, put_message, set_messages. cbn [messages].
  destruct (decide _) as [[= <- <-] | H]; [by rewrite lookup_insert_eq | by rewrite lookup_insert_ne by by apply messagesBucket_ne].
Qed.

(** A blob that a row names is referenced. *)
Lemma row_referenced pending u k uid m d : rows_of u k d !! uid = Some m -> BlobReferenced pending u (MessageID m) d = true.
Proof.
  intros Hm. unfold BlobReferenced. apply orb_true_iff. right.
  unfold rows_of in Hm. destruct (messages d !! messagesBucket u k) as [rows |] eqn:Er; [| done]. cbn in Hm.
  apply existsb_exists. exists (messagesBucket u k, rows). split; [by apply list_elem_of_In, elem_of_map_to_list |].
  apply andb_true_iff. split; [unfold messagesBucket; rewrite !app_assoc; apply HasPrefix_app |]. apply existsb_exists. exists (uid, m).
  split; [by apply list_elem_of_In, elem_of_map_to_list |]. by apply bool_decide_eq_true.
Qed.

(** The journal is apart from the other buckets. *)
Section RecordChange.
Context (now : Z) (u : gostring) (ct : ChangeType) (ck : ChangeKind) (id m : gostring) (db : Database).
Lemma mailboxes_RecordChange : mailboxes (RecordChange now u ct ck id m db) = mailboxes db.
Proof. unfold RecordChange. by destruct (bool_decide _). Qed.
Lemma floors_RecordChange : floors (RecordChange now u ct ck id m db) = floors db.
Proof. unfold RecordChange. by destruct (bool_decide _). Qed.
Lemma messages_RecordChange : messages (RecordChange now u ct ck id m db) = messages db.
Proof. unfold RecordChange. by destruct (bool_decide _). Qed.
Lemma acl_RecordChange : acl (RecordChange now u ct ck id m db) = acl db.
Proof. unfold RecordChange. by destruct (bool_decide _). Qed.
End RecordChange.
Create Rewrite HintDb maildb.
#[export] Hint Rewrite mailboxes_RecordChange floors_RecordChange messages_RecordChange acl_RecordChange : maildb.

(** ** Histories *)
Section History.
Context `{U : UnicodeTables}.
(** The greatest modification sequence a caller passes in. *)
Context (M : Z).

Inductive db_op :=
  | OpCreate (now : Z) (u m : gostring)
  | OpDelete (now : Z) (u m : gostring)
  | OpRename (now : Z) (u old new : gostring)
  | OpNextUID (now : Z) (u m : gostring)
  | OpNextModSeq (now : Z) (u m : gostring)
  | OpStore (now : Z) (u m : gostring) (uid : Z) (meta : MessageMetadata)
  | OpUpdate (u m : gostring) (uid : Z) (fn : MessageMetadata -> option MessageMetadata)
  | OpClearRecent (u m : gostring)
  | OpDeleteMessage (now : Z) (u m : gostring) (uid : Z)
  | OpSetACL (now : Z) (o m g : gostring) (rights : Z) (by_ : gostring)
  | OpDeleteACL (o m g : gostring)
  | OpPrune (now : Z) (u : gostring).

Definition ok_or (db : Database) (r : result db_error Database) : Database :=
  match r with Ok db' => db' | Err _ => db end.

Definition exec (o : db_op) (db : Database) : Database :=
  match o with
  | OpCreate now u m => ok_or db (CreateMailbox now u m db)
  | OpDelete now u m => ok_or db (DeleteMailbox now u m db)
  | OpRename now u old new => ok_or db (RenameMailbox now u old new db)
  | OpNextUID now u m => match GetNextUID now u m db with Ok (_, db') => db' | Err _ => db end
  | OpNextModSeq now u m => match GetNextModSeq now u m db with Ok (_, db') => db' | Err _ => db end
  | OpStore now u m uid meta => StoreMessageMetadata now u m uid meta db
  | OpUpdate u m uid fn => ok_or db (UpdateMessageMetadataFunc u m uid fn db)
  | OpClearRecent u m => ClearRecent u m db
  | OpDeleteMessage now u m uid => DeleteMessage now u m uid db
  | OpSetACL now o m g rights by_ => SetACL now o m g rights by_ db
  | OpDeleteACL o m g => DeleteACL o m g db
  | OpPrune now u => PruneChanges now u db
  end.

(** What [GetNextUID] gives out: mailbox, UIDVALIDITY and UID. *)
Definition issues (o : db_op) (db : Database) : list (gostring * Z * Z) :=
  match o with
  | OpNextUID now u m =>
      match GetNextUID now u m db with
      | Ok (uid, db') => [(mailboxKey u m, num (uidvalidity (row_of (mailboxKey u m) db')), uid)]
      | Err _ => []
      end
  | _ => []
  end.

(** Metadata is stored in a mailbox that has a record, as after [GetNextUID]; an
    update changes no modification sequence. *)
Definition op_ok (o : db_op) (db : Database) : Prop :=
  match o with
  | OpStore _ u m uid meta =>
      is_Some (mailboxes db !! mailboxKey u m) /\ 0 <= uid <= max_uint32 /\ 0 <= ModSeq meta <= M
  | _ => True
  end.

Record History := { hdb : Database; hissued : list (gostring * Z * Z); hsteps : Z }.
Definition no_history : History := {| hdb := empty_db; hissued := []; hsteps := 0 |}.

Inductive db_step : History -> History -> Prop :=
  | db_step_op o h :
  op_ok o (hdb h) ->
  db_step h {| hdb := exec o (hdb h); hissued := hissued h ++ issues o (hdb h); hsteps := hsteps h + 1 |}.

(** A UID that cannot be given out again: its UIDVALIDITY is over, or it is below
    UIDNEXT. *)
Definition spent (db : Database) (k : gostring) (uv uid : Z) : Prop :=
  (exists r uv', mailboxes db !! k = Some r /\ uidvalidity r = Some uv' /\
    (uv < uv' \/ uv = uv' /\ uid < num (uidnext r))) \/
  (exists f, floors db !! k = Some f /\ uv <= f).

Record db_inv (n : Z) (iss : list (gostring * Z * Z)) (db : Database) : Prop := {
  inv_floor k f : floors db !! k = Some f -> 0 <= f <= 2147483647 + n;
  inv_uv k r uv : mailboxes db !! k = Some r -> uidvalidity r = Some uv ->
  0 <= uv <= 2147483647 + n /\ (forall f, floors db !! k = Some f -> f < uv);
  inv_issued k uv uid : (k, uv, uid) ∈ iss -> spent db k uv uid;
  inv_nodup : NoDup iss;
  inv_cover u m uid meta : rows_of u m db !! uid = Some meta ->
  exists r, mailboxes db !! mailboxKey u m = Some r /\ ModSeq meta <= num (highestmodseq r) /\
  (uid < num (uidnext r) \/ uid = max_uint32);
  inv_modseq k r : mailboxes db !! k = Some r -> 0 <= num (highestmodseq r) <= M + n /\ 0 <= num (uidnext r)
}.

Lemma db_inv_mono n n' iss db : n <= n' -> db_inv n iss db -> db_inv n' iss db.
Proof.
  intros Hn [I1 I2 I3 I4 I5 I6]. split; [| | done | done | done |].
  - intros k f Hf. specialize (I1 k f Hf). lia.
  - intros k r uv Hr Huv. destruct (I2 k r uv Hr Huv). split; [lia | done].
  - intros k r Hr. specialize (I6 k r Hr). lia.
Qed.

(** The invariant looks at mailboxes, floors and messages only. *)
Lemma db_inv_ext n iss db db' :
  mailboxes db' = mailboxes db -> floors db' = floors db -> messages db' = messages db -> db_inv n iss db -> db_inv n iss db'.
Proof.
  intros E1 E2 E3 [I1 I2 I3 I4 I5 I6]. unfold spent, rows_of in *.
  split; unfold spent, rows_of; rewrite ?E1, ?E2, ?E3; done.
Qed.

(** [r'] may replace the bucket of [k]: no counter goes back, and UIDVALIDITY is
    kept or set above the floor. *)
Definition grows (n : Z) (db : Database) (k : gostring) (r' : MailboxRow) : Prop :=
  let r := row_of k db in
  match uidvalidity r with
  | Some _ => uidvalidity r' = uidvalidity r
  | None => forall uv, uidvalidity r' = Some uv ->
      0 <= uv <= 2147483647 + n /\ (forall f, floors db !! k = Some f -> f < uv)
  end /\
  num (uidnext r) <= num (uidnext r') /\
  num (highestmodseq r) <= num (highestmodseq r') <= M + n.

Lemma row_of_some k db r : mailboxes db !! k = Some r -> row_of k db = r.
Proof. intros H. unfold row_of. by rewrite H. Qed.

Lemma put_row_inv n iss db k r' :
  0 <= M + n -> db_inv n iss db -> grows n db k r' -> db_inv n iss (put_row k r' db).
Proof.
  intros Hn [I1 I2 I3 I4 I5 I6] (G1 & G2 & G3). split; cbn.
  - done.
  - intros j r uv. destruct (decide (k = j)) as [<- | Hj]; [rewrite lookup_insert_eq | rewrite lookup_insert_ne by done; apply I2].
    intros [= <-] Huv. destruct (uidvalidity (row_of k db)) as [uv0 |] eqn:E; [| by apply G1].
    unfold row_of in E. destruct (mailboxes db !! k) as [r0 |] eqn:Er; [| done]. apply (I2 k r0); [done |].
    simpl in E. congruence.
  - intros j uv uid Hin. destruct (I3 _ _ _ Hin) as [(r & uv' & Hr & Huv & Hs) | Hf]; [| by right]. left. cbn.
    destruct (decide (k = j)) as [<- | Hj]; [| exists r, uv'; by rewrite lookup_insert_ne].
    rewrite (row_of_some _ _ _ Hr), Huv in *. exists r', uv'. rewrite lookup_insert_eq.
    split_and!; [done | congruence | lia].
  - done.
  - intros u m uid meta Hm. destruct (I5 u m uid meta Hm) as (r & Hr & H1 & H2).
    destruct (decide (k = mailboxKey u m)) as [-> | Hj]; [| exists r; by rewrite lookup_insert_ne].
    rewrite (row_of_some _ _ _ Hr) in *. exists r'. rewrite lookup_insert_eq. split_and!; [done | lia | lia].
  - intros j r. destruct (decide (k = j)) as [<- | Hj]; [rewrite lookup_insert_eq | rewrite lookup_insert_ne by done; apply I6].
    intros [= <-]. unfold row_of in *. destruct (mailboxes db !! k) as [r0 |] eqn:Er; [| simpl in *; lia].
    specialize (I6 _ _ Er). simpl in *. lia.
Qed.

(** ** The steps preserve the invariant *)
Section Step.
Context (n : Z) (iss : list (gostring * Z * Z)) (db : Database).
Context (Hn : 0 <= n < 2 ^ 31) (HM : 0 <= M) (HMn : M + n + 1 < 2 ^ 64) (I : db_inv n iss db).

Lemma next_uv now k uv : nextUIDValidityTx now k db = Ok uv ->
  0 <= uv <= 2147483647 + (n + 1) /\ (forall f, floors db !! k = Some f -> f < uv).
Proof.
  unfold nextUIDValidityTx. destruct (Z.ltb_spec (unix now) 0); [done |].
  destruct (Z.ltb_spec 2147483647 (unix now)); [done |]. cbn [orb]. intros [= <-].
  destruct (bool_decide_reflect (floors db = ∅)) as [-> | Hne]; cbn [negb andb].
  { split; [lia |]. intros f. by rewrite lookup_empty. }
  destruct (floors db !! k) as [f |] eqn:Ef; cbn [default from_option id].
  - pose proof (inv_floor _ _ _ I _ _ Ef). destruct (Z.leb_spec (unix now) f).
    + rewrite Z.mod_small by lia. split; [lia |]. intros f' [= <-]. lia.
    + split; [lia |]. intros f' [= <-]. lia.
  - destruct (Z.leb_spec (unix now) 0); [rewrite Z.mod_small by lia |]; split; try lia; done.
Qed.

Lemma modseq_range k : 0 <= num (highestmodseq (row_of k db)) <= M + n.
Proof.
  unfold row_of. destruct (mailboxes db !! k) as [r |] eqn:E; [| simpl; lia].
  by destruct (inv_modseq _ _ _ I k r E).
Qed.

Lemma ensure_grows now k r : ensureUIDValidityTx now k db = Ok r ->
  grows (n + 1) db k r /\ is_Some (uidvalidity r) /\
  uidnext r = uidnext (row_of k db) /\ highestmodseq r = highestmodseq (row_of k db).
Proof.
  pose proof (modseq_range k) as Hm. unfold ensureUIDValidityTx, grows.
  destruct (uidvalidity (row_of k db)) as [uv |] eqn:E.
  - intros [= <-]. rewrite E. split_and!; try done; lia.
  - destruct (nextUIDValidityTx now k db) as [uv | e] eqn:En; [| done]. intros [= <-]. simpl.
    split_and!; try done; try lia. intros uv' [= <-]. by eapply next_uv.
Qed.

Lemma lift_inv : db_inv (n + 1) iss db.
Proof. eapply db_inv_mono; [| exact I]. lia. Qed.

Lemma grown_inv k r : grows (n + 1) db k r -> db_inv (n + 1) iss (put_row k r db).
Proof. apply put_row_inv; [lia | apply lift_inv]. Qed.

(** Deleting messages keeps the invariant, whatever else is kept. *)
Lemma fewer_rows_inv N d d' : db_inv N iss d -> mailboxes d' = mailboxes d -> floors d' = floors d ->
  (forall u m uid meta, rows_of u m d' !! uid = Some meta ->
    exists meta', rows_of u m d !! uid = Some meta' /\ ModSeq meta = ModSeq meta') -> db_inv N iss d'.
Proof.
  intros [J1 J2 J3 J4 J5 J6] E1 E2 Hrows. unfold spent in *. split; rewrite ?E1, ?E2; try done.
  - unfold spent. by rewrite E1, E2.
  - intros u m uid meta Hr. destruct (Hrows _ _ _ _ Hr) as (meta' & Hr' & Hs). rewrite Hs. by apply (J5 _ _ _ meta').
Qed.

Lemma make_messages_inv N k d : db_inv N iss d -> db_inv N iss (make_messages k d).
Proof. intros J. eapply fewer_rows_inv; [exact J | done | done |]. intros u m uid meta. rewrite rows_of_make. eauto. Qed.

Lemma create_inv now u m : db_inv (n + 1) iss (exec (OpCreate now u m) db).
Proof.
  cbn [exec]. unfold CreateMailbox. destruct (ensureUIDValidityTx now (mailboxKey u m) db) as [r |] eqn:E; [| apply lift_inv].
  apply ensure_grows in E as (G & _ & E1 & E2). cbn [rbind ok_or].
  set (r' := {| uidvalidity := _ |}). assert (G' : grows (n + 1) db (mailboxKey u m) r').
  { destruct G as (G1 & G2 & G3). split; [exact G1 | split]; subst r'; cbn [uidnext highestmodseq].
    - rewrite E1. destruct (uidnext (row_of (mailboxKey u m) db)); simpl; lia.
    - rewrite E2 in *. by destruct (highestmodseq (row_of (mailboxKey u m) db)). }
  apply grown_inv, (make_messages_inv _ (messagesBucket u m)) in G' as G2.
  destruct (negb _); [| done]. by eapply db_inv_ext, G2; autorewrite with maildb.
Qed.

(** [GetNextUID]: what it gives out is new, and spent afterwards. *)
Lemma next_uid_inv now u m :
  db_inv (n + 1) (iss ++ issues (OpNextUID now u m) db) (exec (OpNextUID now u m) db).
Proof.
  cbn [exec issues]. unfold GetNextUID. set (k := mailboxKey u m).
  destruct (ensureUIDValidityTx now k db) as [r |] eqn:E; [| rewrite app_nil_r; apply lift_inv].
  apply ensure_grows in E as (G & [uv Huv] & E1 & E2). cbn [rbind].
  set (uid := if num (uidnext r) =? 0 then 1 else num (uidnext r)).
  assert (Huid : num (uidnext r) <= uid) by (unfold uid; destruct (Z.eqb_spec (num (uidnext r)) 0); lia).
  destruct (uid =? max_uint32); [rewrite app_nil_r; apply lift_inv |].
  set (r' := with_uidnext (uid + 1) r). assert (G' : grows (n + 1) db k r').
  { destruct G as (G1 & G2 & G3). split; [exact G1 | split; [| exact G3]]. cbn. lia. }
  apply grown_inv in G' as J. unfold row_of. cbn [mailboxes put_row set_mailboxes]. rewrite lookup_insert_eq.
  cbn [default from_option id r' with_uidnext uidvalidity]. rewrite Huv. cbn [default from_option id].
  destruct J as [J1 J2 J3 J4 J5 J6]. split; try done.
  - intros k' uv' uid' [Hin | Hx%list_elem_of_singleton]%elem_of_app; [by apply J3 |].
    injection Hx as -> -> ->. left. exists r', uv. cbn. rewrite lookup_insert_eq. split_and!; try done. right. cbn. lia.
  - apply NoDup_app. split; [done |]. split; [| apply NoDup_singleton].
    intros x Hin ->%list_elem_of_singleton. destruct (inv_issued _ _ _ I _ _ _ Hin) as [(r0 & uv0 & Hr0 & Huv0 & Hs) | (f & Hf & Hle)].
    + destruct G as (G1 & _). unfold row_of in *. rewrite Hr0 in *. cbn in *. rewrite Huv0 in G1. rewrite E1 in *.
      assert (uv0 = uv) by congruence. subst uv0. lia.
    + destruct (J2 k r' uv); [cbn; by rewrite lookup_insert_eq | done |]. specialize (H0 f Hf). lia.
Qed.

Lemma next_modseq_inv now u m : db_inv (n + 1) iss (exec (OpNextModSeq now u m) db).
Proof.
  cbn [exec]. unfold GetNextModSeq. destruct (ensureUIDValidityTx now (mailboxKey u m) db) as [r |] eqn:E; [| apply lift_inv].
  apply ensure_grows in E as (G & _ & E1 & E2). cbn [rbind]. apply grown_inv.
  pose proof (modseq_range (mailboxKey u m)) as Hm. destruct G as (G1 & G2 & _).
  split; [exact G1 | split; [exact G2 |]]. cbn. rewrite E2. unfold wrap_u64. rewrite Z.mod_small by lia. lia.
Qed.

Lemma floor_grows k d :
  exists fs, floors (recordUIDValidityFloorTx k d) = fs /\ mailboxes (recordUIDValidityFloorTx k d) = mailboxes d /\
  messages (recordUIDValidityFloorTx k d) = messages d /\ acl (recordUIDValidityFloorTx k d) = acl d /\
  (forall j, j <> k -> fs !! j = floors d !! j) /\
  (forall f, floors d !! k = Some f -> exists f', fs !! k = Some f' /\ f <= f') /\
  (forall f', fs !! k = Some f' -> floors d !! k = Some f' \/
    exists r, mailboxes d !! k = Some r /\ uidvalidity r = Some f') /\
  (forall r uv, mailboxes d !! k = Some r -> uidvalidity r = Some uv -> exists f', fs !! k = Some f' /\ uv <= f').
Proof.
  eexists. split; [reflexivity |]. unfold recordUIDValidityFloorTx.
  destruct (mailboxes d !! k) as [[[uv |] un hm] |] eqn:Er.
  2: split_and!; try done; [intros f Hf; by exists f | intros; by left | intros ? ? [= <-]; done].
  2: split_and!; try done; [intros f Hf; by exists f | intros; by left].
  destruct (floors d !! k) as [cur |] eqn:Ef; [destruct (Z.leb_spec uv cur) |]; cbn.
  - split_and!; try done; [intros f Hf; exists cur; split; [done | congruence || (simplify_eq; lia)] | intros f Hf; left; congruence |].
    intros ? ? [= <-] [= <-]. by exists cur.
  - split_and!; try done.
    + intros j Hj. by rewrite lookup_insert_ne.
    + intros f [= <-]. exists uv. rewrite lookup_insert_eq. split; [done | lia].
    + rewrite lookup_insert_eq. intros f' [= <-]. right. by eexists.
    + intros ? ? [= <-] [= <-]. exists uv. by rewrite lookup_insert_eq.
  - split_and!; try done.
    + intros j Hj. by rewrite lookup_insert_ne.
    + rewrite lookup_insert_eq. intros f' [= <-]. right. by eexists.
    + intros ? ? [= <-] [= <-]. exists uv. by rewrite lookup_insert_eq.
Qed.

(** Retiring a mailbox: its UIDVALIDITY becomes a floor, its messages go. *)
Definition retire (u m : gostring) (d : Database) : Database :=
  set_messages (delete (messagesBucket u m)) (set_mailboxes (delete (mailboxKey u m))
    (recordUIDValidityFloorTx (mailboxKey u m) d)).

Lemma retire_inv N u m d : db_inv N iss d -> db_inv N iss (retire u m d).
Proof.
  intros J. unfold retire. destruct (floor_grows (mailboxKey u m) d) as (fs & E1 & E2 & E3 & _ & F1 & F2 & F3 & F4).
  destruct J as [J1 J2 J3 J4 J5 J6]. split; cbn; rewrite ?E1, ?E2, ?E3.
  - intros j f Hf. destruct (decide (j = mailboxKey u m)) as [-> | Hj]; [| rewrite F1 in Hf by done; by apply (J1 j)].
    destruct (F3 f Hf) as [Hf' | (r & Hr & Huv)]; [by apply (J1 (mailboxKey u m)) | by apply (J2 _ _ _ Hr Huv)].
  - intros j r uv Hr Huv. apply lookup_delete_Some in Hr as [Hj Hr]. destruct (J2 j r uv Hr Huv). split; [done |].
    intros f. rewrite F1 by done. auto.
  - intros j uv uid Hin. unfold spent. cbn. rewrite E1, E2. destruct (J3 _ _ _ Hin) as [(r & uv' & Hr & Huv & Hs) | (f & Hf & Hle)].
    + destruct (decide (mailboxKey u m = j)) as [<- | Hj]; [| left; exists r, uv'; by rewrite lookup_delete_ne].
      right. destruct (F4 _ _ Hr Huv) as (f' & Hf' & Hle). exists f'. split; [done | lia].
    + right. destruct (decide (mailboxKey u m = j)) as [<- | Hj]; [| exists f; by rewrite F1].
      destruct (F2 _ Hf) as (f' & Hf' & Hle'). exists f'. split; [done | lia].
  - done.
  - intros u' m' uid meta. unfold rows_of. cbn. rewrite E3. destruct (decide ((u, m) = (u', m'))) as [[= <- <-] | Hd].
    + rewrite lookup_delete_eq. cbn. by rewrite lookup_empty.
    + rewrite lookup_delete_ne by by apply messagesBucket_ne. intros Hm.
      rewrite lookup_delete_ne by by apply mailboxKey_ne. by apply J5.
  - intros j r [_ Hr]%lookup_delete_Some. by apply (J6 j).
Qed.

Lemma delete_inv now u m : db_inv (n + 1) iss (exec (OpDelete now u m) db).
Proof.
  cbn [exec]. unfold DeleteMailbox. destruct (isINBOX m); [apply lift_inv |]. cbn [ok_or].
  change (set_messages _ _) with (retire u m db). pose proof (retire_inv _ u m db lift_inv) as J.
  destruct (bool_decide _); [| done]. by eapply db_inv_ext, J; unfold DeleteACL; cbn; autorewrite with maildb.
Qed.

(** The rows of a mailbox put under another name as well. *)
Definition with_rows_of_old (u old new : gostring) (d : Database) : Database :=
  match messages d !! messagesBucket u old with
  | Some ms => set_messages <[messagesBucket u new := ms]> d
  | None => d
  end.

Lemma copied_rows_inv N u old new d r :
  db_inv N iss d -> mailboxes d !! mailboxKey u new = Some r ->
  (forall uid meta, rows_of u old d !! uid = Some meta ->
    ModSeq meta <= num (highestmodseq r) /\ (uid < num (uidnext r) \/ uid = max_uint32)) ->
  db_inv N iss (with_rows_of_old u old new d).
Proof.
  intros [J1 J2 J3 J4 J5 J6] Hr Hold. unfold with_rows_of_old.
  destruct (messages d !! messagesBucket u old) as [ms |] eqn:E; [| done]. split; try done.
  intros u' m' uid meta. unfold rows_of. cbn. destruct (decide ((u, new) = (u', m'))) as [[= <- <-] | Hd].
  - rewrite lookup_insert_eq. cbn. intros Hm. exists r. split; [done |]. apply Hold. unfold rows_of. by rewrite E.
  - rewrite lookup_insert_ne by by apply messagesBucket_ne. apply J5.
Qed.

Lemma rename_inv now u old new : db_inv (n + 1) iss (exec (OpRename now u old new) db).
Proof.
  cbn [exec]. unfold RenameMailbox. destruct (bool_decide_reflect (old = new)) as [-> | Hne]; [apply lift_inv |].
  case_bool_decide as Hfree; [apply lift_inv |].
  assert (Hk : mailboxes db !! mailboxKey u new = None) by (apply eq_None_not_Some; tauto).
  assert (Hb : messages db !! messagesBucket u new = None) by (apply eq_None_not_Some; tauto).
  assert (Hkk : mailboxKey u old <> mailboxKey u new) by (apply mailboxKey_ne; congruence).
  assert (Hbb : messagesBucket u old <> messagesBucket u new) by (apply messagesBucket_ne; congruence).
  destruct (mailboxes db !! mailboxKey u old) as [r |] eqn:Er.
  - cbn [rbind ok_or]. match goal with |- context [put_row _ ?x db] => set (r' := x) end.
    assert (J : db_inv (n + 1) iss (put_row (mailboxKey u new) r' db)).
    { apply grown_inv. unfold grows, row_of. rewrite Hk. cbn [default from_option id empty_row uidvalidity uidnext highestmodseq].
      pose proof (inv_modseq _ _ _ I _ _ Er). pose proof lift_inv as L.
      assert (Hr' : highestmodseq r' = highestmodseq r /\ uidnext r' = uidnext r) by (unfold r'; by destruct (_ && _)).
      destruct Hr' as [-> ->]. split; [| split; [| lia]].
      - intros uv. unfold r'. destruct (bool_decide_reflect (floors db = ∅)) as [E0 | E0]; cbn [negb andb].
        + intros Huv. pose proof (inv_uv _ _ _ I _ _ _ Er Huv) as [H1 _]. rewrite E0. split; [lia |]. intros f. by rewrite lookup_empty.
        + destruct (Z.leb_spec (num (uidvalidity r)) (num (floors db !! mailboxKey u new))) as [Hle | Hlt].
          * cbn [uidvalidity with_uidvalidity]. intros [= <-].
            destruct (floors db !! mailboxKey u new) as [f |] eqn:Ef; cbn [default from_option id].
            -- pose proof (inv_floor _ _ _ I _ _ Ef). rewrite Z.mod_small by lia. split; [lia |]. intros ? [= <-]. lia.
            -- change ((0 + 1) mod 2 ^ 32) with 1. split; [lia | done].
          * intros Huv. rewrite Huv in Hlt. cbn [default from_option id] in Hlt.
            pose proof (inv_uv _ _ _ I _ _ _ Er Huv) as [H1 _]. split; [lia |]. intros f Hf. rewrite Hf in Hlt. done.
      - cbn. lia. }
    assert (J2 : db_inv (n + 1) iss (with_rows_of_old u old new (put_row (mailboxKey u new) r' db))).
    { apply (copied_rows_inv _ _ _ _ _ r'); [done | cbn; by rewrite lookup_insert_eq |].
      intros uid meta Hm. destruct (inv_cover _ _ _ I u old uid meta Hm) as (r0 & Hr0 & H1 & H2).
      assert (r0 = r) as -> by congruence. unfold r'. by destruct (_ && _). }
    apply (retire_inv _ u old) in J2. eapply db_inv_ext, J2; autorewrite with maildb; done.
  - destruct (nextUIDValidityTx now (mailboxKey u new) db) as [uv |] eqn:En; [| apply lift_inv]. cbn [rbind ok_or].
    apply next_uv in En. match goal with |- context [put_row _ ?x db] => set (r' := x) end.
    assert (J : db_inv (n + 1) iss (put_row (mailboxKey u new) r' db)).
    { apply grown_inv. unfold grows, row_of. rewrite Hk. cbn. split; [by intros ? [= <-] | lia]. }
    apply (make_messages_inv _ (messagesBucket u new)) in J. eapply db_inv_ext, J; autorewrite with maildb; done.
Qed.

(** Storing a covered row. *)
Lemma put_message_inv N u m uid meta d r :
  db_inv N iss d -> mailboxes d !! mailboxKey u m = Some r ->
  ModSeq meta <= num (highestmodseq r) -> uid < num (uidnext r) \/ uid = max_uint32 ->
  db_inv N iss (put_message u m uid meta d).
Proof.
  intros [J1 J2 J3 J4 J5 J6] Hr H1 H2. split; try done. intros u' m' uid' meta'. rewrite rows_of_put.
  destruct (decide _) as [[= <- <-] | Hd]; [| apply J5]. cbn.
  rewrite lookup_insert_Some. intros [[<- <-] | [_ Hm]]; [by exists r | by apply J5].
Qed.

(** An update of the record of a mailbox that takes nothing back. *)
Lemma update_row_inv d k r f : db_inv (n + 1) iss d -> mailboxes d !! k = Some r ->
  uidvalidity (f r) = uidvalidity r -> num (uidnext r) <= num (uidnext (f r)) ->
  num (highestmodseq r) <= num (highestmodseq (f r)) <= M + (n + 1) -> db_inv (n + 1) iss (put_row k (f r) d).
Proof.
  intros J Hr E1 E2 E3. apply put_row_inv; [lia | done |]. unfold grows. rewrite (row_of_some _ _ _ Hr).
  split; [| by split]. destruct (uidvalidity r) as [uv |] eqn:E; [done |]. rewrite E1. done.
Qed.

Lemma raise_highest_inv u m v d r : db_inv (n + 1) iss d -> mailboxes d !! mailboxKey u m = Some r -> v <= M + (n + 1) ->
  exists r', db_inv (n + 1) iss (raiseHighestModSeqTx u m v d) /\
  mailboxes (raiseHighestModSeqTx u m v d) !! mailboxKey u m = Some r' /\
  uidnext r' = uidnext r /\ (v <= num (highestmodseq r') \/ v = 0) /\ num (highestmodseq r) <= num (highestmodseq r') /\
  messages (raiseHighestModSeqTx u m v d) = messages d.
Proof.
  intros J Hr Hv. unfold raiseHighestModSeqTx. rewrite Hr. destruct (Z.eqb_spec v 0); [exists r; split_and!; auto; lia |].
  destruct (Z.leb_spec v (num (highestmodseq r))); [exists r; split_and!; auto; lia |].
  exists (with_highest v r). split; [apply (update_row_inv d _ r (with_highest v)); cbn; (done || lia) |].
  cbn. rewrite lookup_insert_eq. split_and!; auto; lia.
Qed.

Lemma raise_uidnext_inv u m uid d r : db_inv (n + 1) iss d -> mailboxes d !! mailboxKey u m = Some r ->
  exists r', db_inv (n + 1) iss (raise_uidnext u m uid d) /\
  mailboxes (raise_uidnext u m uid d) !! mailboxKey u m = Some r' /\
  highestmodseq r' = highestmodseq r /\ (uid < num (uidnext r') \/ uid = max_uint32) /\
  messages (raise_uidnext u m uid d) = messages d.
Proof.
  intros J Hr. unfold raise_uidnext. rewrite Hr. pose proof (inv_modseq _ _ _ J _ _ Hr) as [? ?].
  destruct (Z.eqb_spec uid max_uint32); cbn [negb andb]; [by exists r; split_and!; auto |].
  destruct (Z.leb_spec (num (uidnext r)) uid); [| by exists r; split_and!; auto].
  exists (with_uidnext (uid + 1) r). split; [apply (update_row_inv d _ r (with_uidnext (uid + 1))); cbn; (done || lia) |].
  cbn. rewrite lookup_insert_eq. split_and!; auto. left. lia.
Qed.

Lemma get_next_inv u m r : mailboxes db !! mailboxKey u m = Some r ->
  exists ms d r', getNextModSeqTx u m db = (ms, d) /\ db_inv (n + 1) iss d /\
  mailboxes d !! mailboxKey u m = Some r' /\ highestmodseq r' = Some ms /\ uidnext r' = uidnext r /\
  ms = num (highestmodseq r) + 1 /\ messages d = messages db.
Proof.
  intros Hr. pose proof (inv_modseq _ _ _ I _ _ Hr) as [? ?]. unfold getNextModSeqTx. rewrite (row_of_some _ _ _ Hr).
  unfold wrap_u64. rewrite Z.mod_small by lia. do 3 eexists. split; [reflexivity |].
  split; [apply (update_row_inv db _ r (with_highest (num (highestmodseq r) + 1))); cbn; (done || lia || apply lift_inv) |].
  cbn. rewrite lookup_insert_eq. by split_and!.
Qed.

(** The row that is stored, and the database it is put into. *)
Definition stored_row (u m : gostring) (uid : Z) (meta : MessageMetadata) : MessageMetadata * Database :=
  match rows_of u m db !! uid with
  | Some prev =>
      if ModSeq (stored_copy meta) <=? ModSeq prev
      then let '(ms, d) := getNextModSeqTx u m (raiseHighestModSeqTx u m (ModSeq prev) db) in
      (with_modseq ms (stored_copy meta), d)
      else (stored_copy meta, db)
  | None => (stored_copy meta, db)
  end.

Lemma raise_covered u m v r : mailboxes db !! mailboxKey u m = Some r -> v <= num (highestmodseq r) ->
  raiseHighestModSeqTx u m v db = db.
Proof.
  intros Hr Hv. unfold raiseHighestModSeqTx. rewrite Hr. destruct (v =? 0); [done |].
  by destruct (Z.leb_spec v (num (highestmodseq r))); [| lia].
Qed.

Lemma stored_row_inv u m uid meta r : mailboxes db !! mailboxKey u m = Some r -> 0 <= ModSeq meta <= M ->
  exists r', db_inv (n + 1) iss (snd (stored_row u m uid meta)) /\
  mailboxes (snd (stored_row u m uid meta)) !! mailboxKey u m = Some r' /\
  messages (snd (stored_row u m uid meta)) = messages db /\
  0 <= ModSeq (fst (stored_row u m uid meta)) <= M + (n + 1) /\
  (forall prev, rows_of u m db !! uid = Some prev -> ModSeq prev < ModSeq (fst (stored_row u m uid meta))).
Proof.
  intros Hr HMs. unfold stored_row. destruct (rows_of u m db !! uid) as [prev |] eqn:Ep; cycle 1.
  { exists r. split_and!; cbn; try done; try lia. apply lift_inv. }
  destruct (Z.leb_spec (ModSeq (stored_copy meta)) (ModSeq prev)) as [Hle | Hlt]; cycle 1.
  { exists r. split_and!; cbn in *; try done; try lia; [apply lift_inv |]. intros ? [= <-]. done. }
  destruct (inv_cover _ _ _ I _ _ _ _ Ep) as (r0 & Hr0 & Hcov & _). assert (r0 = r) as -> by congruence.
  rewrite (raise_covered _ _ _ _ Hr Hcov). pose proof (inv_modseq _ _ _ I _ _ Hr) as [? ?].
  destruct (get_next_inv u m r Hr) as (ms & d & r' & -> & J & Hr' & _ & _ & -> & Hmsg).
  exists r'. split_and!; cbn; try done; try lia. intros ? [= <-]. lia.
Qed.

Lemma store_inv now u m uid meta :
  op_ok (OpStore now u m uid meta) db -> db_inv (n + 1) iss (exec (OpStore now u m uid meta) db).
Proof.
  intros ([r Hr] & Huid & HMs). cbn [exec]. unfold StoreMessageMetadata. fold (stored_row u m uid meta).
  destruct (stored_row_inv u m uid meta r Hr HMs) as (r1 & J1 & Hr1 & Hm1 & Hms & _).
  destruct (stored_row u m uid meta) as [cp d1]. cbn [fst snd] in *.
  destruct (raise_highest_inv u m (ModSeq cp) d1 r1 J1 Hr1) as (r2 & J2 & Hr2 & _ & Hc2 & _ & Hm2); [lia |].
  destruct (raise_uidnext_inv u m uid _ r2 J2 Hr2) as (r3 & J3 & Hr3 & Eh & Hu3 & Hm3).
  pose proof (inv_modseq _ _ _ J2 _ _ Hr2) as [? ?].
  pose proof (put_message_inv _ u m uid cp _ r3 J3 Hr3 ltac:(rewrite Eh; lia) Hu3) as J4.
  destruct (bool_decide _); [done |]. destruct (bool_decide _); by eapply db_inv_ext, J4; autorewrite with maildb.
Qed.

Lemma update_inv u m uid fn : db_inv (n + 1) iss (exec (OpUpdate u m uid fn) db).
Proof.
  cbn [exec]. unfold UpdateMessageMetadataFunc. destruct (rows_of u m db !! uid) as [prev |] eqn:Ep; [| apply lift_inv].
  destruct (fn prev) as [meta |]; [| apply lift_inv].
  destruct (inv_cover _ _ _ I _ _ _ _ Ep) as (r & Hr & _ & Hu).
  destruct (get_next_inv u m r Hr) as (ms & d & r' & -> & J & Hr' & Eh & Eu & _ & _). cbn [ok_or].
  apply (put_message_inv _ _ _ _ _ _ r'); [done | done | cbn; rewrite Eh; done | by rewrite Eu].
Qed.

Lemma clear_inv u m : db_inv (n + 1) iss (exec (OpClearRecent u m) db).
Proof.
  cbn [exec]. unfold ClearRecent. destruct (messages db !! messagesBucket u m) as [rows |] eqn:Em; [| apply lift_inv].
  eapply fewer_rows_inv; [apply lift_inv | done | done |]. intros u' m' uid meta. unfold rows_of. cbn.
  destruct (decide ((u, m) = (u', m'))) as [[= <- <-] | Hd]; [| rewrite lookup_insert_ne by (by apply messagesBucket_ne); eauto].
  rewrite lookup_insert_eq, Em. cbn. rewrite lookup_fmap. intros (meta' & -> & ->)%fmap_Some.
  exists meta'. split; [done |]. by destruct (HasFlag _ _).
Qed.

Lemma delete_message_inv now u m uid : db_inv (n + 1) iss (exec (OpDeleteMessage now u m uid) db).
Proof.
  cbn [exec]. unfold DeleteMessage. destruct (messages db !! messagesBucket u m) as [rows |] eqn:Em; [| apply lift_inv].
  assert (J : db_inv (n + 1) iss (set_messages <[messagesBucket u m := delete uid rows]> db)).
  { eapply fewer_rows_inv; [apply lift_inv | done | done |]. intros u' m' uid' meta. unfold rows_of. cbn.
    destruct (decide ((u, m) = (u', m'))) as [[= <- <-] | Hd]; [| rewrite lookup_insert_ne by (by apply messagesBucket_ne); eauto].
    rewrite lookup_insert_eq, Em. cbn. intros [_ H]%lookup_delete_Some. eauto. }
  destruct (rows !! uid); [| done]. destruct (bool_decide _); [done |].
  destruct (bool_decide _); by eapply db_inv_ext, J; autorewrite with maildb.
Qed.

Lemma rows_of_RecordChange now u ct ck id m v k d : rows_of v k (RecordChange now u ct ck id m d) = rows_of v k d.
Proof. unfold rows_of. by autorewrite with maildb. Qed.

Lemma store_reads now u m uid meta :
  rows_of u m (StoreMessageMetadata now u m uid meta db) !! uid = Some (fst (stored_row u m uid meta)).
Proof.
  unfold StoreMessageMetadata. fold (stored_row u m uid meta). destruct (stored_row u m uid meta) as [cp d].
  destruct (bool_decide (MessageID meta = [])); [| destruct (bool_decide (ThreadID meta = []))];
    rewrite ?rows_of_RecordChange, rows_of_put, decide_True by done; apply lookup_insert_eq.
Qed.

(** A fresh UID names no stored message. *)
Lemma next_uid_free now u m uid d : GetNextUID now u m db = Ok (uid, d) -> rows_of u m db !! uid = None.
Proof.
  unfold GetNextUID. destruct (ensureUIDValidityTx now (mailboxKey u m) db) as [r |] eqn:E; [| done].
  apply ensure_grows in E as (_ & _ & Eu & _). cbn [rbind]. rewrite Eu.
  destruct (Z.eqb_spec (if num (uidnext (row_of (mailboxKey u m) db)) =? 0 then 1
    else num (uidnext (row_of (mailboxKey u m) db))) max_uint32) as [| Hmax]; [done |]. intros [= <- _].
  destruct (rows_of u m db !! _) as [mt |] eqn:Em; [| done]. exfalso.
  destruct (inv_cover _ _ _ I _ _ _ _ Em) as (r0 & Hr0 & _ & Hlt). rewrite (row_of_some _ _ _ Hr0) in *.
  pose proof (inv_modseq _ _ _ I _ _ Hr0) as [_ ?]. destruct (Z.eqb_spec (num (uidnext r0)) 0); lia.
Qed.

Lemma step_inv o : op_ok o db -> db_inv (n + 1) (iss ++ issues o db) (exec o db).
Proof.
  intros Ho. destruct o; cbn [issues]; rewrite ?app_nil_r; eauto using create_inv, delete_inv, rename_inv,
    next_modseq_inv, store_inv, update_inv, clear_inv, delete_message_inv.
  - apply next_uid_inv.
  - eapply db_inv_ext, lift_inv; cbn; unfold SetACL; by destruct (_ =? 0).
  - eapply db_inv_ext, lift_inv; cbn; unfold DeleteACL; by destruct (negb _).
  - eapply db_inv_ext, lift_inv; cbn; unfold PruneChanges; destruct (bool_decide _); try done; by destruct (changes db !! _).
Qed.
End Step.

Lemma empty_inv : 0 <= M -> db_inv 0 [] empty_db.
Proof.
  intros HM. split; cbn.
  - intros k f. by rewrite lookup_empty.
  - intros k r uv. by rewrite lookup_empty.
  - intros k uv uid Hin. by apply not_elem_of_nil in Hin.
  - constructor.
  - intros u m uid meta. unfold rows_of. cbn. by rewrite lookup_empty.
  - intros k r. by rewrite lookup_empty.
Qed.

Lemma history_inv h : 0 <= M -> star db_step no_history h -> hsteps h <= 2 ^ 31 -> M + hsteps h < 2 ^ 64 ->
  db_inv (hsteps h) (hissued h) (hdb h).
Proof.
  intros HM Hs. apply (star_invariant db_step (fun h => 0 <= hsteps h /\
    (hsteps h <= 2 ^ 31 -> M + hsteps h < 2 ^ 64 -> db_inv (hsteps h) (hissued h) (hdb h))) no_history); [| | done].
  - split; [done |]. intros _ _. by apply empty_inv.
  - intros h1 h2 [Hp IH] Hst. inversion Hst as [o h1' Ho]; subst. cbn [hsteps hissued hdb] in *. split; [lia |]. intros H1 H2.
    apply step_inv; try done; try lia. apply IH; lia.
Qed.

(** C5: UIDs are never given out twice.  In every history of the database (fewer
    than 2^31 operations, at any clock readings) no triple of mailbox name,
    UIDVALIDITY and UID is issued a second time by GetNextUID, through deletion,
    renaming and re-creation of mailboxes. *)
Theorem uid_never_reissued h :
  0 <= M -> star db_step no_history h -> hsteps h <= 2 ^ 31 -> M + hsteps h < 2 ^ 64 -> NoDup (hissued h).
Proof. intros HM Hs H1 H2. exact (inv_nodup _ _ _ (history_inv h HM Hs H1 H2)). Qed.

(** in every history UIDNEXT and HIGHESTMODSEQ cover every stored message (so
    a fresh UID names no stored message, and a CONDSTORE client that knows
    HIGHESTMODSEQ has seen every message), and storing over a message gives it a
    strictly greater modification sequence. *)
Theorem counters_cover_messages h now u m uid meta :
  0 <= M -> star db_step no_history h -> hsteps h < 2 ^ 31 -> M + hsteps h + 1 < 2 ^ 64 ->
  rows_of u m (hdb h) !! uid = Some meta ->
  ModSeq meta <= HighestModSeq (GetMailbox u m (hdb h)) /\
  (forall uid' db', GetNextUID now u m (hdb h) = Ok (uid', db') -> rows_of u m (hdb h) !! uid' = None) /\
  (forall new, 0 <= uid <= max_uint32 -> 0 <= ModSeq new <= M ->
    exists meta', rows_of u m (StoreMessageMetadata now u m uid new (hdb h)) !! uid = Some meta' /\
    ModSeq meta < ModSeq meta' <= HighestModSeq (GetMailbox u m (StoreMessageMetadata now u m uid new (hdb h)))).
Proof.
  intros HM Hs H1 H2 Hrow. pose proof (history_inv h HM Hs ltac:(lia) ltac:(lia)) as I.
  assert (Hp : 0 <= hsteps h) by (apply (star_invariant db_step (fun h => 0 <= hsteps h) no_history); [done | | done];
    intros ? ? ? Hst; inversion Hst; subst; cbn in *; lia).
  destruct (inv_cover _ _ _ I _ _ _ _ Hrow) as (r & Hr & Hc & _). split; [unfold GetMailbox; by rewrite Hr |]. split.
  - intros uid' db'. apply (next_uid_free (hsteps h) (hissued h)); (done || lia).
  - intros new Huid Hnew. exists (fst (stored_row (hdb h) u m uid new)).
    assert (Hrd := store_reads (hdb h) now u m uid new).
    destruct (stored_row_inv (hsteps h) (hissued h) (hdb h) ltac:(lia) HM ltac:(lia) I u m uid new r Hr Hnew) as (_ & _ & _ & _ & _ & Hlt).
    pose proof (store_inv (hsteps h) (hissued h) (hdb h) ltac:(lia) HM ltac:(lia) I now u m uid new ltac:(by split; [by eexists |])) as I'.
    destruct (inv_cover _ _ _ I' _ _ _ _ Hrd) as (r' & Hr' & Hle & _).
    split; [done |]. split; [by apply Hlt |]. unfold GetMailbox. cbn [exec] in Hr'. by rewrite Hr'.
Qed.
End History.

(** ** Users are isolated *)
(** The owner of the data an operation works on. *)
Definition op_user (o : db_op) : gostring :=
  match o with
  | OpCreate _ u _ | OpDelete _ u _ | OpRename _ u _ _ | OpNextUID _ u _ | OpNextModSeq _ u _ | OpStore _ u _ _ _
  | OpUpdate u _ _ _ | OpClearRecent u _ | OpDeleteMessage _ u _ _ | OpSetACL _ u _ _ _ _ | OpDeleteACL u _ _
  | OpPrune _ u => u
  end.

(** Everything stored for a user: equal in two databases. *)
Record same_data (v : gostring) (db db' : Database) : Prop := {
  same_mailbox m : mailboxes db' !! mailboxKey v m = mailboxes db !! mailboxKey v m;
  same_rows m : messages db' !! messagesBucket v m = messages db !! messagesBucket v m;
  same_floor m : floors db' !! mailboxKey v m = floors db !! mailboxKey v m;
  same_acl m g : acl db' !! aclKey v m g = acl db !! aclKey v m g;
  same_changes : changes db' !! changesBucket v = changes db !! changesBucket v
}.

#[export] Instance same_data_refl v : Reflexive (same_data v).
Proof. by split. Qed.
#[export] Instance same_data_trans v : Transitive (same_data v).
Proof. intros a b c [H1 H2 H3 H4 H5] [K1 K2 K3 K4 K5]. split; intros; by etrans; [by apply K1 || apply K2 || apply K3 || apply K4 || apply K5 |]. Qed.

Lemma foldl_delete_lookup {A} (ks : list gostring) (m : gmap gostring A) x :
  foldl (fun m k => delete k m) m ks !! x = if decide (x ∈ ks) then None else m !! x.
Proof.
  revert m. induction ks as [| k ks IH]; intros m; cbn [foldl]; [by destruct (decide _) as [[]%not_elem_of_nil |] |].
  rewrite IH. destruct (decide (x ∈ ks)), (decide (x ∈ k :: ks)) as [Hin | Hn]; try done; [set_solver | |].
  - apply elem_of_cons in Hin as [-> | ]; [apply lookup_delete_eq | done].
  - apply lookup_delete_ne. set_solver.
Qed.

Lemma aclKey_prefix v m g u p r : aclKey v m g = aclOwnerMailboxPrefix u p ++ r -> v = u /\ m ++ ":" ++ g = p ++ ":" ++ r.
Proof.
  unfold aclKey, aclOwnerMailboxPrefix. rewrite <- !app_assoc. intros H%(app_inv_head ("acl:" : gostring)).
  by apply user_rest_inj in H.
Qed.

Lemma acl_scan_owner u p k e db : (k, e) ∈ acl_scan u p db -> exists r, k = aclOwnerMailboxPrefix u p ++ r.
Proof. intros [[H _] _]%list_elem_of_filter. by apply HasPrefix_true. Qed.

Section Isolation.
Context `{U : UnicodeTables} (u v : gostring) (Huv : u <> v).

Lemma iso_put_row m r db : same_data v db (put_row (mailboxKey u m) r db).
Proof. split; try done. intros k. cbn. apply lookup_insert_ne, mailboxKey_ne. congruence. Qed.

Lemma iso_record now ct ck id m db : same_data v db (RecordChange now u ct ck id m db).
Proof.
  unfold RecordChange. destruct (bool_decide _); [done |]. split; try done. cbn. apply lookup_insert_ne.
  intros ->%changesBucket_inj. done.
Qed.

Lemma iso_messages m f db :
  (forall k, k <> messagesBucket u m -> f (messages db) !! k = messages db !! k) -> same_data v db (set_messages f db).
Proof. intros H. split; try done. intros k. cbn. apply H, messagesBucket_ne. congruence. Qed.

Lemma iso_acl f db :
  (forall k, (forall p r, k <> aclOwnerMailboxPrefix u p ++ r) -> f (acl db) !! k = acl db !! k) ->
  same_data v db (set_acl f db).
Proof. intros H. split; try done. intros m g. cbn. apply H. intros p r E. apply aclKey_prefix in E as [-> _]. done. Qed.

Lemma iso_retire m db : same_data v db (retire u m db).
Proof.
  unfold retire. destruct (floor_grows (mailboxKey u m) db) as (fs & E1 & E2 & E3 & E4 & F1 & _).
  assert (changes (recordUIDValidityFloorTx (mailboxKey u m) db) = changes db) as E5.
  { unfold recordUIDValidityFloorTx. destruct (mailboxes db !! mailboxKey u m) as [[[uv |] ? ?] |]; try done.
    destruct (floors db !! mailboxKey u m); [destruct (_ <=? _) |]; done. }
  split; cbn; rewrite ?E1, ?E2, ?E3, ?E4, ?E5; try done; intros k.
  - apply lookup_delete_ne, mailboxKey_ne. congruence.
  - apply lookup_delete_ne, messagesBucket_ne. congruence.
  - apply F1, mailboxKey_ne. congruence.
Qed.

Lemma iso_make m db : same_data v db (make_messages (messagesBucket u m) db).
Proof.
  apply iso_messages with m. intros k Hk. destruct (messages db !! messagesBucket u m); [done |]. by apply lookup_insert_ne.
Qed.

Lemma iso_acl_key m g f db :
  (forall k, k <> aclKey u m g -> f (acl db) !! k = acl db !! k) -> same_data v db (set_acl f db).
Proof.
  intros H. apply iso_acl. intros k Hk. apply H. intros ->. apply (Hk m g). unfold aclKey, aclOwnerMailboxPrefix.
  by rewrite <- !app_assoc.
Qed.

Lemma iso_set_acl now m g rights by_ db : same_data v db (SetACL now u m g rights by_ db).
Proof.
  unfold SetACL. destruct (_ =? 0); apply (iso_acl_key m g); intros k Hk; [by apply lookup_delete_ne | by apply lookup_insert_ne].
Qed.

Lemma iso_delete_acl m g db : same_data v db (DeleteACL u m g db).
Proof.
  unfold DeleteACL. destruct (negb _); [apply (iso_acl_key m g); intros k Hk; by apply lookup_delete_ne |].
  apply iso_acl. intros k Hk. rewrite foldl_delete_lookup. destruct (decide _) as [Hin |]; [| done].
  apply list_elem_of_fmap in Hin as ([k' e] & -> & Hin). apply acl_scan_owner in Hin as [r ->]. by destruct (Hk m r).
Qed.

Lemma iso_move old new db : same_data v db (move_acl u old new db).
Proof.
  unfold move_acl. apply iso_acl. intros k Hk.
  assert (Hall : forall k' e, (k', e) ∈ acl_scan u old db -> exists r, k' = aclOwnerMailboxPrefix u old ++ r)
    by (intros; by eapply acl_scan_owner).
  revert Hall. generalize (acl_scan u old db) (acl db). clear db. intros L. induction L as [| [k' e] L IH]; intros a Hall; [done |].
  cbn [foldl]. rewrite IH; [| intros; by eapply Hall, list_elem_of_further].
  destruct (Hall k' e (list_elem_of_here _ _)) as [r ->].
  rewrite lookup_delete_ne by by apply not_eq_sym, Hk. apply lookup_insert_ne. intros <-.
  eapply (Hk new). unfold aclKey, aclOwnerMailboxPrefix. by rewrite <- !app_assoc.
Qed.

Lemma iso_store now m uid meta db : same_data v db (StoreMessageMetadata now u m uid meta db).
Proof.
  unfold StoreMessageMetadata. fold (stored_row db u m uid meta).
  assert (Hraise : forall x d, same_data v d (raiseHighestModSeqTx u m x d)).
  { intros x d. unfold raiseHighestModSeqTx. destruct (x =? 0); [done |]. destruct (mailboxes d !! _); [| done].
    destruct (_ <=? _); [done |]. apply iso_put_row. }
  assert (H1 : same_data v db (snd (stored_row db u m uid meta))).
  { unfold stored_row. destruct (rows_of u m db !! uid); [| done]. destruct (_ <=? _); [| done]. cbn.
    etrans; [apply Hraise | apply iso_put_row]. }
  destruct (stored_row db u m uid meta) as [cp d]. cbn in H1. etrans; [exact H1 |]. clear H1.
  assert (H2 : same_data v d (put_message u m uid cp (raise_uidnext u m uid (raiseHighestModSeqTx u m (ModSeq cp) d)))).
  { etrans; [apply Hraise |]. etrans; [| apply iso_messages with m; intros k Hk; by apply lookup_insert_ne].
    unfold raise_uidnext. destruct (mailboxes _ !! _); [| done]. destruct (_ && _); [apply iso_put_row | done]. }
  destruct (bool_decide _); [done |]. destruct (bool_decide _).
  - etrans; [exact H2 | apply iso_record].
  - etrans; [exact H2 |]. etrans; apply iso_record.
Qed.

Lemma iso_create now m db : same_data v db (ok_or db (CreateMailbox now u m db)).
Proof.
  unfold CreateMailbox. destruct (ensureUIDValidityTx _ _ _); [| done]. cbn [rbind ok_or].
  etrans; [apply iso_put_row |]. etrans; [apply iso_make |]. destruct (negb _); [apply iso_record | done].
Qed.

Lemma iso_delete_mailbox now m db : same_data v db (ok_or db (DeleteMailbox now u m db)).
Proof.
  unfold DeleteMailbox. destruct (isINBOX m); [done |]. cbn [ok_or]. change (set_messages _ _) with (retire u m db).
  etrans; [apply iso_retire |]. destruct (bool_decide _); [| done]. etrans; [apply iso_record | apply iso_delete_acl].
Qed.

Lemma iso_rename now old new db : same_data v db (ok_or db (RenameMailbox now u old new db)).
Proof.
  unfold RenameMailbox. destruct (bool_decide _); [done |]. destruct (bool_decide _); [done |].
  assert (Hrec : forall d, same_data v db d -> same_data v db (RecordChange now u ChangeTypeMailbox ChangeKindCreated new []
    (RecordChange now u ChangeTypeMailbox ChangeKindDestroyed old [] d))).
  { intros d H. etrans; [exact H |]. etrans; apply iso_record. }
  destruct (mailboxes db !! mailboxKey u old) as [r |]; cbn [rbind ok_or].
  - apply Hrec. match goal with |- context [put_row _ ?x db] => set (r' := x) end.
    etrans; [apply (iso_put_row new r') |]. set (d := put_row _ _ _).
    change (move_acl u old new _) with (move_acl u old new (retire u old (with_rows_of_old u old new d))).
    etrans; [| apply iso_move]. etrans; [| apply iso_retire]. unfold with_rows_of_old.
    destruct (messages d !! _); [| done]. apply iso_messages with new. intros k Hk. by apply lookup_insert_ne.
  - destruct (nextUIDValidityTx _ _ _); [| done]. apply Hrec. etrans; [apply iso_put_row | apply iso_make].
Qed.

Lemma iso_delete_message now m uid db : same_data v db (DeleteMessage now u m uid db).
Proof.
  unfold DeleteMessage. destruct (messages db !! _) as [rows |]; [| done].
  assert (H1 : same_data v db (set_messages <[messagesBucket u m := delete uid rows]> db))
    by (apply iso_messages with m; intros k Hk; by apply lookup_insert_ne).
  destruct (rows !! uid); [| done]. destruct (bool_decide _); [done |]. etrans; [exact H1 |].
  destruct (bool_decide _); [apply iso_record | etrans; apply iso_record].
Qed.
End Isolation.

Section IsolationTheorem.
Context `{U : UnicodeTables}.

(** users are isolated.  Whatever an operation on one user's data does, all
    that is stored for another user (mailboxes, messages, UIDVALIDITY floors,
    access rights, change journal) stays as it is, although all keys are plain
    strings joined with colons and a user or mailbox name may contain any byte. *)
Theorem users_isolated o v db : op_user o <> v -> same_data v db (exec o db).
Proof.
  intros Hu. destruct o; cbn [op_user exec] in *;
    eauto using iso_create, iso_delete_mailbox, iso_rename, iso_store, iso_delete_message, iso_set_acl, iso_delete_acl.
  - unfold GetNextUID. destruct (ensureUIDValidityTx _ _ _); [| done]. cbn [rbind].
    destruct (_ =? max_uint32); [done | by apply iso_put_row].
  - unfold GetNextModSeq. destruct (ensureUIDValidityTx _ _ _); [| done]. by apply iso_put_row.
  - unfold UpdateMessageMetadataFunc. destruct (rows_of u m db !! uid); [| done]. destruct (fn _); [| done]. cbn [ok_or getNextModSeqTx].
    etrans; [by apply (iso_put_row u) |]. apply (iso_messages u v Hu m). intros k Hk. by apply lookup_insert_ne.
  - unfold ClearRecent. destruct (messages db !! _); [| done]. apply (iso_messages u v Hu m). intros k Hk. by apply lookup_insert_ne.
  - unfold PruneChanges. destruct (bool_decide _); [done |]. destruct (changes db !! changesBucket u); [| done].
    split; try done. cbn. apply lookup_insert_ne. intros E%changesBucket_inj. done.
Qed.
End IsolationTheorem.

(** ** Examples *)
Section Examples.
#[local] Existing Instance ascii_tables.

Definition do_op (o : db_op) (h : History) : History :=
  {| hdb := exec o (hdb h); hissued := hissued h ++ issues o (hdb h); hsteps := hsteps h + 1 |}.

Lemma star_op M h0 h o : star (db_step M) h0 h -> op_ok M o (hdb h) -> star (db_step M) h0 (do_op o h).
Proof. intros H Ho. eapply star_snoc; [exact H |]. by apply db_step_op. Qed.

(** A mailbox that is deleted and created again in the same second. *)
Definition ex_reuse : History :=
  do_op (OpNextUID (1700000000 * second) "u@x" "Work")
  (do_op (OpDelete (1700000000 * second) "u@x" "Work")
    (do_op (OpNextUID (1700000000 * second) "u@x" "Work")
      (do_op (OpCreate (1700000000 * second) "u@x" "Work") no_history))).

Lemma uid_never_reissued_witness :
  NoDup (hissued ex_reuse) /\
  hissued ex_reuse = [("mailbox:u@x:Work" : gostring, 1700000000, 1); ("mailbox:u@x:Work" : gostring, 1700000001, 1)].
Proof.
  split; [| vm_compute; reflexivity]. apply (uid_never_reissued 0 ex_reuse).
  - lia.
  - repeat (apply star_op; [| exact Logic.I]). apply star_refl.
  - vm_compute. discriminate.
  - vm_compute. reflexivity.
Defined.

Definition ex_meta (ms : Z) : MessageMetadata := with_modseq ms zero_meta.

(** A message stored, with a greater sequence than the mailbox had given out. *)
Definition ex_stored : History :=
  do_op (OpStore 0 "u@x" "Work" 7 (ex_meta 5)) (do_op (OpCreate 0 "u@x" "Work") no_history).

Lemma counters_cover_messages_witness :
  rows_of "u@x" "Work" (hdb ex_stored) !! 7 = Some (ex_meta 5) /\
  5 <= HighestModSeq (GetMailbox "u@x" "Work" (hdb ex_stored)) /\
  exists meta', rows_of "u@x" "Work" (StoreMessageMetadata 1 "u@x" "Work" 7 (ex_meta 2) (hdb ex_stored)) !! 7 = Some meta' /\
  5 < ModSeq meta'.
Proof.
  destruct (counters_cover_messages 10 ex_stored 1 "u@x" "Work" 7 (ex_meta 5)) as (H1 & _ & H3).
  - lia.
  - apply star_op; [apply star_op; [apply star_refl | exact Logic.I] |].
    split; [vm_compute; by eexists |]. split; [vm_compute; split; discriminate | vm_compute; split; discriminate].
  - vm_compute. reflexivity.
  - vm_compute. reflexivity.
  - vm_compute. reflexivity.
  - split; [vm_compute; reflexivity |]. split; [exact H1 |].
    destruct (H3 (ex_meta 2)) as (meta' & Hm & Hlt & _); [vm_compute; split; discriminate | vm_compute; split; discriminate |].
    exists meta'. by split.
Defined.

(** User "a" with the mailbox "b:c" beside user "a:b" with the mailbox "c". *)
Lemma users_isolated_witness :
  same_data "a:b" empty_db (exec (OpCreate 0 "a" "b:c") empty_db) /\
  mailboxes (exec (OpCreate 0 "a" "b:c") empty_db) !! mailboxKey "a:b" "c" = None.
Proof. split; [apply (users_isolated (OpCreate 0 "a" "b:c") "a:b" empty_db); discriminate | vm_compute; reflexivity]. Defined.
End Examples.
