(* ===== verification/MailDbAccess.v ===== *)
(** * internal/storage: access rights and the change journal

    The access control rows refine a function from owner, mailbox and grantee to
    rights, as long as no grantee contains a colon; with one, a grant on one
    mailbox is read as a grant on another.  A client that polls the change
    journal gets every change of its type once and in order. *)
From S2P Require Import Prelude GoLib Utf8 Bolt MailDb MailDbProps.

(** ** Access rights *)
Definition plain (g : gostring) : Prop := ":"%char ∉ g.

Lemma last_colon_inj (m g p r : gostring) : plain g -> plain r -> m ++ ":" ++ g = p ++ ":" ++ r -> m = p /\ g = r.
Proof.
  intros Hg Hr H. apply (f_equal (@rev ascii)) in H. rewrite !rev_app_distr in H. cbn in H. rewrite <- !app_assoc in H.
  assert (Hg' : ":"%char ∉ rev g) by (rewrite list_elem_of_In, <- in_rev, <- list_elem_of_In; done).
  assert (Hr' : ":"%char ∉ rev r) by (rewrite list_elem_of_In, <- in_rev, <- list_elem_of_In; done).
  pose proof (Cut_app _ (rev m) _ Hg') as H1. pose proof (Cut_app _ (rev p) _ Hr') as H2. cbn [app] in H.
  rewrite H, H2 in H1. injection H1 as H1 H3.
  split; [by rewrite <- (rev_involutive m), <- H3, rev_involutive | by rewrite <- (rev_involutive g), <- H1, rev_involutive].
Qed.

Lemma aclKey_inj o m g o' m' g' : plain g -> plain g' -> aclKey o m g = aclKey o' m' g' -> (o, m, g) = (o', m', g').
Proof.
  intros Hg Hg' H. unfold aclKey in H. apply (app_inv_head ("acl:" : gostring)) in H. apply user_rest_inj in H as [-> H].
  by apply last_colon_inj in H as [-> ->].
Qed.

Lemma aclKey_split o m g : aclKey o m g = aclOwnerMailboxPrefix o m ++ g.
Proof. unfold aclKey, aclOwnerMailboxPrefix. by rewrite <- !app_assoc. Qed.

(** Rows as [SetACL] writes them, for grantees without a colon. *)
Definition acl_wf (db : Database) : Prop :=
  forall k e, acl db !! k = Some e -> plain (Grantee e) /\ Rights e <> 0 /\ exists o m, k = aclKey o m (Grantee e).

Lemma acl_wf_row db o m g e : acl_wf db -> plain g -> acl db !! aclKey o m g = Some e -> Grantee e = g /\ Rights e <> 0.
Proof.
  intros Hwf Hg He. destruct (Hwf _ _ He) as (Hp & Hr & o' & m' & H). apply aclKey_inj in H; [| done | done]. by simplify_eq.
Qed.

(** The scan of a mailbox finds the rows of that mailbox and no other. *)
Lemma elem_of_acl_scan db o m k e : acl_wf db ->
  (k, e) ∈ acl_scan o m db <-> exists g, plain g /\ k = aclKey o m g /\ acl db !! k = Some e.
Proof.
  intros Hwf. unfold acl_scan. rewrite list_elem_of_filter, elem_of_cursor. unfold aclKeyBelongsTo. rewrite bool_decide_eq_true. split.
  - intros [[_ ->] He]. exists (Grantee e). by destruct (Hwf _ _ He) as (Hp & _).
  - intros (g & Hg & -> & He). destruct (acl_wf_row _ _ _ _ _ Hwf Hg He) as [<- _].
    split; [split; [| done] | done]. rewrite aclKey_split. apply HasPrefix_app.
Qed.

Lemma GetACL_delete o m g o' m' g' db : plain g -> plain g' ->
  GetACL o m g (set_acl (delete (aclKey o' m' g')) db) =
  if decide ((o', m', g') = (o, m, g)) then 0 else GetACL o m g db.
Proof.
  intros Hg Hg'. unfold GetACL. cbn. destruct (decide _) as [[= -> -> ->] | Hne]; [by rewrite lookup_delete_eq |].
  rewrite lookup_delete_ne; [done |]. intros E. by apply aclKey_inj in E.
Qed.

Lemma GetACL_set now o m g o' m' g' rights by_ db : plain g -> plain g' ->
  GetACL o m g (SetACL now o' m' g' rights by_ db) =
  if decide ((o', m', g') = (o, m, g)) then rights else GetACL o m g db.
Proof.
  intros Hg Hg'. unfold SetACL. destruct (Z.eqb_spec rights 0) as [-> | Hr]; [by apply GetACL_delete |].
  unfold GetACL. cbn. destruct (decide _) as [[= -> -> ->] | Hne]; [by rewrite lookup_insert_eq |].
  rewrite lookup_insert_ne; [done |]. intros E. by apply aclKey_inj in E.
Qed.

Lemma GetACL_drop_mailbox o m g o' m' db : acl_wf db -> plain g ->
  GetACL o m g (DeleteACL o' m' [] db) = if decide ((o', m') = (o, m)) then 0 else GetACL o m g db.
Proof.
  intros Hwf Hg. unfold DeleteACL, GetACL. cbn. rewrite foldl_delete_lookup.
  destruct (decide (aclKey o m g ∈ _)) as [Hin | Hn].
  - apply list_elem_of_fmap in Hin as ([k e] & E & Hin). cbn in E. apply elem_of_acl_scan in Hin as (g' & Hg' & -> & _); [| done].
    apply aclKey_inj in E; [| done | done]. simplify_eq. by rewrite decide_True.
  - destruct (decide _) as [[= -> ->] |]; [| done]. destruct (acl db !! aclKey o m g) as [e |] eqn:E; [| done].
    destruct Hn. apply list_elem_of_fmap. exists (aclKey o m g, e). split; [done |].
    apply elem_of_acl_scan; [done |]. by exists g.
Qed.

(** ** Renaming *)
Section Move.
Context {A : Type} (f : gostring -> gostring) (L : list (gostring * A)).
Definition moved (m : gmap gostring A) : gmap gostring A := foldl (fun m '(k, e) => delete k (<[f k := e]> m)) m L.
Context (Hdisj : forall k e k' e', (k, e) ∈ L -> (k', e') ∈ L -> f k <> k').
Context (Hinj : forall k e k' e', (k, e) ∈ L -> (k', e') ∈ L -> f k = f k' -> k = k' /\ e = e').

Lemma moved_other m x : (forall k e, (k, e) ∈ L -> x <> k /\ x <> f k) -> moved m !! x = m !! x.
Proof.
  unfold moved. revert m. clear Hdisj Hinj. induction L as [| [k e] L' IH]; intros m H; [done |]. cbn [foldl].
  rewrite IH by (intros; by eapply H, list_elem_of_further). destruct (H k e (list_elem_of_here _ _)) as [H1 H2].
  by rewrite lookup_delete_ne, lookup_insert_ne by congruence.
Qed.

Lemma moved_both m k e : (k, e) ∈ L -> moved m !! k = None /\ moved m !! f k = Some e.
Proof.
  unfold moved. revert Hdisj Hinj. induction L as [| [k' e'] L' IH] using rev_ind; intros Hdisj Hinj Hin; [by apply not_elem_of_nil in Hin |].
  rewrite foldl_app. cbn [foldl]. assert (Hk' : (k', e') ∈ L' ++ [(k', e')]) by (apply elem_of_app; right; by apply list_elem_of_singleton).
  destruct (decide (k = k')) as [-> | Hne].
  - destruct (Hinj _ _ _ _ Hin Hk' eq_refl) as [_ ->]. split; [apply lookup_delete_eq |].
    rewrite lookup_delete_ne by by apply not_eq_sym, (Hdisj _ _ _ _ Hk' Hk'). apply lookup_insert_eq.
  - apply elem_of_app in Hin as Hin'. destruct Hin' as [Hin' | [= -> ->]%list_elem_of_singleton]; [| done].
    destruct IH as [IH1 IH2]; [| | done |].
    { intros a b c d H1 H2. apply (Hdisj a b c d); apply elem_of_app; by left. }
    { intros a b c d H1 H2. apply (Hinj a b c d); apply elem_of_app; by left. }
    split.
    + rewrite lookup_delete_ne by done. rewrite lookup_insert_ne by apply (Hdisj _ _ _ _ Hk' Hin). done.
    + rewrite lookup_delete_ne by by apply not_eq_sym, (Hdisj _ _ _ _ Hin Hk'). rewrite lookup_insert_ne; [done |].
      intros E. destruct (Hinj _ _ _ _ Hk' Hin E) as [-> _]. done.
Qed.
End Move.

Lemma GetACL_move u old new o m g db : acl_wf db -> plain g -> old <> new ->
  GetACL o m g (move_acl u old new db) =
  if decide ((u, old) = (o, m)) then 0
  else if decide ((u, new) = (o, m)) then (if GetACL u old g db =? 0 then GetACL u new g db else GetACL u old g db)
  else GetACL o m g db.
Proof.
  intros Hwf Hg Hne. unfold move_acl. set (f := fun k => aclKey u new (drop (length (aclOwnerMailboxPrefix u old)) k)).
  unfold GetACL. cbn. change (foldl _ _ _) with (moved f (acl_scan u old db) (acl db)).
  assert (Hf : forall g, f (aclKey u old g) = aclKey u new g).
  { intros g'. unfold f. by rewrite (aclKey_split u old), drop_app_exact by done. }
  assert (Hdisj : forall k e k' e', (k, e) ∈ acl_scan u old db -> (k', e') ∈ acl_scan u old db -> f k <> k').
  { intros k e k' e' (g1 & G1 & -> & _)%elem_of_acl_scan (g2 & G2 & -> & _)%elem_of_acl_scan E; [| done | done].
    rewrite Hf in E. apply aclKey_inj in E; [| done | done]. congruence. }
  assert (Hinj : forall k e k' e', (k, e) ∈ acl_scan u old db -> (k', e') ∈ acl_scan u old db -> f k = f k' -> k = k' /\ e = e').
  { intros k e k' e' (g1 & G1 & -> & H1)%elem_of_acl_scan (g2 & G2 & -> & H2)%elem_of_acl_scan E; [| done | done].
    rewrite !Hf in E. apply aclKey_inj in E; [| done | done]. by simplify_eq. }
  destruct (decide ((u, old) = (o, m))) as [[= <- <-] | H1].
  { destruct (acl db !! aclKey u old g) as [e |] eqn:E.
    - assert (Hin : (aclKey u old g, e) ∈ acl_scan u old db) by (apply elem_of_acl_scan; [done | by exists g]).
      by destruct (moved_both f _ Hdisj Hinj (acl db) _ _ Hin) as [-> _].
    - rewrite moved_other, E; [done |]. intros k e (g1 & G1 & -> & H1)%elem_of_acl_scan; [| done]. rewrite Hf. split.
      + intros E'. congruence.
      + intros E'. apply aclKey_inj in E'; [| done | done]. congruence. }
  destruct (decide ((u, new) = (o, m))) as [[= <- <-] | H2].
  - destruct (acl db !! aclKey u old g) as [e |] eqn:E.
    + assert (Hin : (aclKey u old g, e) ∈ acl_scan u old db) by (apply elem_of_acl_scan; [done | by exists g]).
      destruct (moved_both f _ Hdisj Hinj (acl db) _ _ Hin) as [_ Hm]. rewrite Hf in Hm. rewrite Hm.
      destruct (acl_wf_row _ _ _ _ _ Hwf Hg E) as [_ Hr]. by destruct (Z.eqb_spec (Rights e) 0).
    + cbn. rewrite moved_other; [done |]. intros k e (g1 & G1 & -> & H2)%elem_of_acl_scan; [| done]. rewrite Hf.
      split; intros E'; apply aclKey_inj in E'; try done; congruence.
  - rewrite moved_other; [done |]. intros k e (g1 & G1 & -> & H3)%elem_of_acl_scan; [| done]. rewrite Hf.
    split; intros E'; apply aclKey_inj in E'; try done; congruence.
Qed.

(** ** Access rights against their specification *)
Inductive acl_op :=
  | Grant (now : Z) (o m g : gostring) (rights : Z) (by_ : gostring)
  | DropMailbox (o m : gostring)
  | Move (u old new : gostring).

Definition acl_exec (db : Database) (op : acl_op) : Database :=
  match op with
  | Grant now o m g rights by_ => SetACL now o m g rights by_ db
  | DropMailbox o m => DeleteACL o m [] db
  | Move u old new => if bool_decide (old = new) then db else move_acl u old new db
  end.

(** The abstract state: the rights of a grantee on a mailbox of an owner. *)
Abbreviation rights_of := (gostring -> gostring -> gostring -> Z).
Definition acl_spec (R : rights_of) (op : acl_op) : rights_of := fun o m g =>
  match op with
  | Grant _ o' m' g' rights _ => if decide ((o', m', g') = (o, m, g)) then rights else R o m g
  | DropMailbox o' m' => if decide ((o', m') = (o, m)) then 0 else R o m g
  | Move u old new =>
      if decide (old = new) then R o m g
      else if decide ((u, old) = (o, m)) then 0
      else if decide ((u, new) = (o, m)) then (if R u old g =? 0 then R u new g else R u old g)
      else R o m g
  end.
Definition acl_plain (op : acl_op) : Prop := match op with Grant _ _ _ g _ _ => plain g | _ => True end.

Lemma moved_inv {A} f (L : list (gostring * A)) m k e :
  moved f L m !! k = Some e -> m !! k = Some e \/ exists k', (k', e) ∈ L /\ k = f k'.
Proof.
  unfold moved. induction L as [| [k' e'] L IH] using rev_ind; [by left |]. rewrite foldl_app. cbn [foldl].
  intros [Hk [[<- <-] | [_ H]]%lookup_insert_Some]%lookup_delete_Some.
  - right. exists k'. split; [| done]. apply elem_of_app. right. by apply list_elem_of_singleton.
  - destruct (IH H) as [H' | (k2 & Hin & ->)]; [by left |]. right. exists k2. split; [| done]. apply elem_of_app. by left.
Qed.

Lemma acl_exec_wf db op : acl_wf db -> acl_plain op -> acl_wf (acl_exec db op).
Proof.
  intros Hwf Hp. destruct op as [now o m g rights by_ | o m | u old new]; cbn.
  - unfold SetACL. destruct (Z.eqb_spec rights 0) as [Hz | Hz]; intros k e; cbn.
    + intros [_ He]%lookup_delete_Some. by apply Hwf.
    + intros [[<- <-] | [_ He]]%lookup_insert_Some; [cbn; eauto | by apply Hwf].
  - intros k e. cbn. rewrite foldl_delete_lookup. destruct (decide _); [done | apply Hwf].
  - case_bool_decide; [done |]. intros k e. cbn. set (f := fun k : gostring => aclKey u new (drop (length (aclOwnerMailboxPrefix u old)) k)) in *.
    intros [He | (k' & (g & Hg & -> & He)%elem_of_acl_scan & ->)]%(moved_inv f); [by apply Hwf | | done].
    destruct (acl_wf_row _ _ _ _ _ Hwf Hg He) as [<- Hr]. split_and!; [done | done |]. exists u, new.
    unfold f. by rewrite (aclKey_split u old), drop_app_exact by done.
Qed.

Lemma acl_exec_spec db op o m g : acl_wf db -> acl_plain op -> plain g ->
  GetACL o m g (acl_exec db op) = acl_spec (fun o m g => GetACL o m g db) op o m g.
Proof.
  intros Hwf Hp Hg. destruct op as [now o' m' g' rights by_ | o' m' | u old new]; cbn.
  - by apply GetACL_set.
  - by apply GetACL_drop_mailbox.
  - destruct (decide (old = new)) as [-> | Hne]; [by rewrite bool_decide_eq_true_2 |].
    rewrite bool_decide_eq_false_2 by done. by rewrite GetACL_move.
Qed.

Lemma acl_spec_ext R R' op o m g : (forall o m g, plain g -> R o m g = R' o m g) -> plain g ->
  acl_spec R op o m g = acl_spec R' op o m g.
Proof. intros H Hg. destruct op; cbn; rewrite ?H by done; done. Qed.

Lemma acl_run_spec ops o m g : Forall acl_plain ops -> plain g ->
  acl_wf (foldl acl_exec empty_db ops) /\
  GetACL o m g (foldl acl_exec empty_db ops) = foldl acl_spec (fun _ _ _ => 0) ops o m g.
Proof.
  revert o m g. induction ops as [| op ops IH] using rev_ind; intros o m g Hops Hg.
  { split; [intros k e; cbn; by rewrite lookup_empty | done]. }
  apply Forall_app in Hops as [Hops Hop]. apply Forall_cons in Hop as [Hop _]. rewrite !foldl_app. cbn [foldl].
  destruct (IH o m g Hops Hg) as [Hwf _]. split; [by apply acl_exec_wf |].
  rewrite acl_exec_spec by done. apply acl_spec_ext; [| done]. intros o' m' g' Hg'. by apply IH.
Qed.

Lemma land_superset r q : Z.land r q = q <-> forall i, Z.testbit q i = true -> Z.testbit r i = true.
Proof.
  split.
  - intros H i Hi. rewrite <- H, Z.land_spec in Hi. by apply andb_true_iff in Hi as [? _].
  - intros H. apply Z.bits_inj'. intros i _. rewrite Z.land_spec. specialize (H i).
    destruct (Z.testbit q i); [rewrite H by done; done | apply andb_false_r].
Qed.


(** "lr" on "Work:Old" granted, "Work" renamed and "Work" deleted. *)
Definition ex_grants : list acl_op :=
  [Grant 0 "alice@x" "Work:Old" "bob@x" 3 "alice@x"; Grant 0 "alice@x" "Work" "bob@x" 1 "alice@x";
   Move "alice@x" "Work" "Done"; DropMailbox "alice@x" "Work"].


(** with a colon in a grantee's name the access rows are ambiguous: a grant to
    [c] on the mailbox "a:b" is at the same time a grant to the user "b:c" on the
    mailbox "a", whatever was granted on it before. *)
Theorem colon_grantee_gets_access now owner a b c rights by_ db :
  rights <> 0 -> CanAccess (b ++ ":" ++ c) owner a rights (SetACL now owner (a ++ ":" ++ b) c rights by_ db) = true.
Proof.
  intros Hr. unfold CanAccess, SetACL, GetACL. destruct (Z.eqb_spec rights 0); [done |]. cbn [acl set_acl].
  replace (aclKey owner a (b ++ ":" ++ c)) with (aclKey owner (a ++ ":" ++ b) c)
    by (unfold aclKey; by rewrite <- !app_assoc).
  rewrite lookup_insert_eq, Z.land_diag, Z.eqb_refl. apply orb_true_r.
Qed.

Lemma colon_grantee_gets_access_witness :
  CanAccess "b:c@x" "alice@x" "a" 2 (SetACL 0 "alice@x" "a:b" "c@x" 2 "alice@x" empty_db) = true.
Proof. apply (colon_grantee_gets_access 0 "alice@x" "a" "b" "c@x" 2 "alice@x" empty_db). discriminate. Defined.

(** ** The letters of rights *)
Lemma rights_roundtrip_all :
  forallb (fun r => bool_decide (ParseACLRights (ACLRights_String (Z.of_nat r)) = Some (Z.of_nat r, false))) (seq 0 256) = true.
Proof. vm_compute. reflexivity. Qed.

(** Every set of the eight rights is printed so that it is parsed back. *)
Lemma rights_roundtrip r : 0 <= r < 256 -> ParseACLRights (ACLRights_String r) = Some (r, false).
Proof.
  intros Hr. pose proof rights_roundtrip_all as H. rewrite forallb_forall in H.
  specialize (H (Z.to_nat r) ltac:(apply in_seq; lia)). apply bool_decide_eq_true in H. by rewrite !Z2Nat.id in H by lia.
Qed.

(** ** The change journal *)
(** What is recorded: time, type, kind, id and mailbox. *)
Abbreviation change := (Z * ChangeType * ChangeKind * gostring * gostring)%type.

Section Journal.
Context (user : gostring) (ct : ChangeType).

(** A client that asks from a state on, until it is told there is no more. *)
Fixpoint poll (fuel : nat) (max since : Z) (db : Database) : list ChangeEntry :=
  match fuel with
  | O => []
  | S f => let '(es, more, last) := GetChangesSince user ct since max db in es ++ if more then poll f max last db else []
  end.

Definition of_type (es : list ChangeEntry) : list ChangeEntry := filter (fun e => Type_ e = ct) es.

Definition last_seq (d : Z) (es : list ChangeEntry) : Z := default d (Seq <$> last es).

Lemma since_go_spec max rows acc d : Z.of_nat (length acc) <= max ->
  since_go ct max rows acc d =
  let new := take (Z.to_nat max - length acc) (of_type rows) in
  (acc ++ new, (max <? Z.of_nat (length acc + length (of_type rows))), last_seq d new).
Proof.
  revert acc d. induction rows as [| e rows IH]; intros acc d Hmax.
  { cbn. rewrite take_nil, app_nil_r, Nat.add_0_r. by destruct (Z.ltb_spec max (Z.of_nat (length acc))); [lia |]. }
  cbn [since_go]. unfold of_type. rewrite filter_cons. fold (of_type rows). case_bool_decide as Ht.
  { rewrite decide_False by done. by apply IH. }
  rewrite decide_True by (destruct (decide (Type_ e = ct)); tauto).
  destruct (Z.leb_spec max (Z.of_nat (length acc))) as [Hm | Hm].
  - replace (Z.to_nat max - length acc)%nat with 0%nat by lia. rewrite take_0, app_nil_r. cbn [length last_seq].
    by destruct (Z.ltb_spec max (Z.of_nat (length acc + S (length (of_type rows))))); [| lia].
  - rewrite IH by (rewrite length_app; cbn; lia). rewrite length_app. cbn [length].
    replace (Z.to_nat max - length acc)%nat with (S (Z.to_nat max - (length acc + 1))) by lia. cbn [take].
    rewrite <- app_assoc. cbn [app]. f_equal; [f_equal; f_equal; lia |].
    unfold last_seq. rewrite last_cons. by destruct (last (take _ _)).
Qed.

(** A journal as [RecordChange] writes it. *)
Definition journal_ok (j : Journal) : Prop :=
  0 <= sequence j /\ forall k e, entries j !! k = Some e -> Seq e = k /\ 0 < k <= sequence j.

(** The rows behind a start are the walk over all rows, cut. *)
Lemma rows_from_seq j start : journal_ok j -> rows_from start j = filter (fun e => start <= Seq e) (rows_from 0 j).
Proof.
  intros [_ Hj]. unfold rows_from.
  assert (Hk : forall k, k ∈ keys (entries j) -> exists e, entries j !! k = Some e /\ Seq e = k /\ 0 <= k).
  { intros k [e He]%elem_of_keys. exists e. destruct (Hj _ _ He). split_and!; [done | done | lia]. }
  induction (keys (entries j)) as [| k ks IH]; [done |].
  destruct (Hk k (list_elem_of_here _ _)) as (e & He & Hs & Hp).
  assert (IH' := IH (fun x Hx => Hk x (list_elem_of_further _ _ _ Hx))). rewrite !filter_cons. rewrite (decide_True (P := 0 <= k)) by done.
  cbn [omap list_omap]. rewrite He. rewrite filter_cons, Hs. destruct (decide (start <= k)); [| done].
  cbn [omap list_omap]. rewrite He. by f_equal.
Qed.

Definition ascending (es : list ChangeEntry) : Prop := StronglySorted (fun a b => Seq a < Seq b) es.

Lemma rows_ascending j : journal_ok j -> ascending (rows_from 0 j).
Proof.
  intros [_ Hj]. unfold rows_from, ascending. pose proof (keys_sorted (entries j)) as Hs. pose proof (keys_NoDup (entries j)) as Hn.
  induction Hs as [| k ks Hs IH Hk]; [constructor |]. apply NoDup_cons in Hn as [Hnk Hn]. rewrite filter_cons.
  destruct (decide (0 <= k)); [| by apply IH]. cbn [omap list_omap]. destruct (entries j !! k) as [e |] eqn:He; [| by apply IH].
  constructor; [by apply IH |]. apply Forall_forall. intros e' (k' & Hk' & He')%list_elem_of_omap.
  apply list_elem_of_filter in Hk' as [_ Hk']. destruct (Hj _ _ He) as [-> _]. destruct (Hj _ _ He') as [-> _].
  rewrite Forall_forall in Hk. specialize (Hk _ Hk'). assert (k <> k') by congruence. lia.
Qed.

Lemma increasing_filter P `{forall e, Decision (P e)} es : ascending es -> ascending (filter P es).
Proof.
  unfold ascending. induction 1 as [| e es Hs IH He]; [constructor |]. rewrite filter_cons. destruct (decide (P e)); [| done].
  constructor; [done |]. rewrite Forall_forall in *. intros x [_ Hx]%list_elem_of_filter. by apply He.
Qed.

Lemma filter_all (P : ChangeEntry -> Prop) `{forall e, Decision (P e)} (es : list ChangeEntry) : (forall e, e ∈ es -> P e) -> filter P es = es.
Proof.
  induction es as [| e es IH]; intros Hall; [done |]. rewrite filter_cons, decide_True by (apply Hall, list_elem_of_here).
  f_equal. apply IH. intros y Hy. by apply Hall, list_elem_of_further.
Qed.

Lemma filter_none (P : ChangeEntry -> Prop) `{forall e, Decision (P e)} (es : list ChangeEntry) :
  (forall e, e ∈ es -> ~ P e) -> filter P es = [].
Proof.
  induction es as [| e es IH]; intros Hall; [done |]. rewrite filter_cons, decide_False by (apply Hall, list_elem_of_here).
  apply IH. intros y Hy. by apply Hall, list_elem_of_further.
Qed.

(** Behind the last of the first [n] rows come the others. *)
Lemma filter_behind es n d : ascending es -> (forall e, e ∈ es -> d < Seq e) ->
  filter (fun e => last_seq d (take n es) + 1 <= Seq e) es = drop n es.
Proof.
  intros Hs. revert n d. induction Hs as [| e es Hs IH He]; intros n d Hd; [by rewrite drop_nil |].
  rewrite Forall_forall in He. destruct n as [| n].
  - cbn [take drop]. apply filter_all. intros x Hx. specialize (Hd x Hx). change (last_seq d []) with d. lia.
  - cbn [take drop]. assert (E : last_seq d (e :: take n es) = last_seq (Seq e) (take n es)).
    { unfold last_seq. rewrite last_cons. by destruct (last (take n es)). }
    rewrite E. assert (Hge : Seq e <= last_seq (Seq e) (take n es)).
    { unfold last_seq. destruct (last (take n es)) as [x |] eqn:Ex; cbn; [| lia].
      apply last_Some_elem_of, elem_of_take_sub in Ex. specialize (He x Ex). lia. }
    rewrite filter_cons, decide_False by lia. by apply IH.
Qed.

Lemma filter_comm (P Q : ChangeEntry -> Prop) `{forall e, Decision (P e), forall e, Decision (Q e)} (es : list ChangeEntry) :
  filter P (filter Q es) = filter Q (filter P es).
Proof.
  induction es as [| e es IH]; [done |]. rewrite (filter_cons Q e), (filter_cons P e).
  destruct (decide (P e)), (decide (Q e)); rewrite ?filter_cons, ?decide_True, ?decide_False by done; by rewrite ?IH.
Qed.

Lemma filter_stronger (P Q : ChangeEntry -> Prop) `{forall e, Decision (P e), forall e, Decision (Q e)} (es : list ChangeEntry) :
  (forall e, P e -> Q e) -> filter P (filter Q es) = filter P es.
Proof.
  intros HPQ. induction es as [| e es IH]; [done |]. rewrite (filter_cons Q e).
  destruct (decide (Q e)); rewrite !filter_cons; destruct (decide (P e)); rewrite ?IH; naive_solver.
Qed.

(** Polling returns the rows behind the state, whatever the page size. *)
Lemma poll_spec fuel max since db j : changes db !! changesBucket user = Some j -> journal_ok j -> 0 < max ->
  0 <= since -> sequence j < max_uint64 -> since <= sequence j ->
  (length (of_type (rows_from (since + 1) j)) < fuel)%nat ->
  poll fuel max since db = of_type (rows_from (since + 1) j).
Proof.
  intros Hj Hok Hmax. revert since. induction fuel as [| fuel IH]; intros since Hs Hmx Hle Hf; [lia |].
  cbn [poll]. unfold GetChangesSince. rewrite (proj2 (Z.eqb_neq since max_uint64)) by lia. rewrite (proj2 (Z.leb_gt max 0)) by done.
  rewrite Hj, since_go_spec by (cbn; lia). cbn [length app Nat.add]. rewrite Nat.sub_0_r.
  set (L := of_type (rows_from (since + 1) j)) in *.
  destruct (Z.ltb_spec max (Z.of_nat (length L))) as [Hm | Hm]; [| rewrite app_nil_r; apply take_ge; lia].
  set (d := last_seq since (take (Z.to_nat max) L)).
  assert (Hdrop : of_type (rows_from (d + 1) j) = drop (Z.to_nat max) L).
  { assert (HL : L = filter (fun e => since + 1 <= Seq e) (of_type (rows_from 0 j))).
    { unfold L, of_type. rewrite rows_from_seq by done. apply filter_comm; apply _. }
    assert (Hasc : ascending L) by (rewrite HL; by apply increasing_filter, increasing_filter, rows_ascending).
    assert (Hgt : forall e, e ∈ L -> since < Seq e) by (rewrite HL; intros e [H _]%list_elem_of_filter; lia).
    rewrite <- (filter_behind L (Z.to_nat max) since Hasc Hgt). fold d.
    assert (Hge : since <= d).
    { unfold d, last_seq. destruct (last _) as [x |] eqn:Ex; cbn; [| lia].
      apply last_Some_elem_of, elem_of_take_sub in Ex. specialize (Hgt x Ex). lia. }
    rewrite HL. unfold of_type. rewrite rows_from_seq by done. rewrite filter_comm by apply _.
    symmetry. apply filter_stronger; [apply _ .. |]. intros e. lia. }
  assert (Hd : 0 <= d /\ d <= sequence j).
  { unfold d, last_seq. destruct (last _) as [x |] eqn:Ex; cbn; [| lia].
    apply last_Some_elem_of, elem_of_take_sub in Ex. apply list_elem_of_filter in Ex as [_ Ex].
    apply list_elem_of_omap in Ex as (k & _ & Hk). destruct (proj2 Hok _ _ Hk). lia. }
  rewrite IH, Hdrop, take_drop; [done | | done | |].
  - apply Hd.
  - apply Hd.
  - rewrite Hdrop, length_drop. lia.
Qed.

Definition record (db : Database) (c : change) : Database :=
  let '(now, t, k, id, mb) := c in RecordChange now user t k id mb db.
Definition change_of (e : ChangeEntry) : change := (At e, Type_ e, Kind e, ID e, ChMailbox e).
Definition is_ct (c : change) : Prop := let '(_, t, _, _, _) := c in t = ct.
#[local] Instance is_ct_dec c : Decision (is_ct c).
Proof. destruct c as [[[[now t] k] id] mb]. unfold is_ct. apply _. Defined.

Definition journal (db : Database) : Journal := default {| sequence := 0; entries := ∅ |} (changes db !! changesBucket user).

Lemma rows_from_record j start e : journal_ok j -> Seq e = sequence j + 1 -> start <= Seq e ->
  rows_from start {| sequence := sequence j + 1; entries := <[sequence j + 1 := e]> (entries j) |} = rows_from start j ++ [e].
Proof.
  intros [H0 Hj] Hs Hle. assert (Hfresh : forall k, is_Some (entries j !! k) -> k < sequence j + 1)
    by (intros k [x Hx]; destruct (Hj _ _ Hx); lia).
  unfold rows_from. cbn [entries]. rewrite keys_insert_last by done. rewrite filter_app, omap_app. f_equal.
  - apply list_omap_ext, Forall_Forall2_diag, Forall_forall. intros k [_ Hk%elem_of_keys%Hfresh]%list_elem_of_filter.
    apply lookup_insert_ne. lia.
  - rewrite filter_cons, decide_True by lia. cbn. by rewrite lookup_insert_eq.
Qed.

Lemma record_spec db c : user <> [] -> journal_ok (journal db) -> sequence (journal db) + 1 < max_uint64 ->
  exists e, change_of e = c /\ changes (record db c) !! changesBucket user = Some (journal (record db c)) /\
  journal_ok (journal (record db c)) /\ sequence (journal (record db c)) = sequence (journal db) + 1 /\
  (forall start, start <= sequence (journal db) + 1 -> rows_from start (journal (record db c)) = rows_from start (journal db) ++ [e]).
Proof.
  destruct c as [[[[now t] k] i] mb]. intros Hu Hok Hb. cbn [record]. unfold RecordChange. rewrite bool_decide_eq_false_2 by done.
  fold (journal db). unfold wrap_u64. rewrite Z.mod_small by (unfold max_uint64 in Hb; destruct Hok; lia).
  set (e := {| Seq := _ |}). exists e. split; [done |]. set (j' := {| sequence := sequence (journal db) + 1; entries := _ |}).
  assert (E : forall d, journal (set_changes <[changesBucket user := j']> d) = j')
    by (intros d; unfold journal; cbn [changes set_changes]; by rewrite lookup_insert_eq).
  rewrite E. cbn [changes set_changes]. rewrite lookup_insert_eq. destruct Hok as [Hpos Hok].
  split; [reflexivity |]. split; [split |]; [cbn; lia | | split; [reflexivity |]].
  - intros k' e'. cbn. intros [[<- <-] | [_ H]]%lookup_insert_Some; [cbn; lia |]. destruct (Hok _ _ H). lia.
  - intros start Hs. by apply rows_from_record.
Qed.

Lemma records_spec db cs : user <> [] -> journal_ok (journal db) -> sequence (journal db) + Z.of_nat (length cs) < max_uint64 ->
  let db' := foldl record db cs in
  journal_ok (journal db') /\ sequence (journal db') = sequence (journal db) + Z.of_nat (length cs) /\
  (cs <> [] -> changes db' !! changesBucket user = Some (journal db')) /\
  map change_of (of_type (rows_from (sequence (journal db) + 1) (journal db'))) = filter is_ct cs.
Proof.
  intros Hu Hok. induction cs as [| c cs IH] using rev_ind; intros Hb.
  { cbn. split_and!; [done | lia | done |]. rewrite rows_from_seq by done.
    unfold of_type. rewrite (filter_none _ (rows_from 0 (journal db))); [done |].
    intros e (k & _ & He)%list_elem_of_omap. destruct (proj2 Hok _ _ He). lia. }
  rewrite length_app in Hb. cbn in Hb. destruct IH as (I1 & I2 & _ & I4); [lia |]. rewrite foldl_app. cbn [foldl].
  destruct (record_spec (foldl record db cs) c Hu I1) as (e & He & R1 & R2 & R3 & R4); [lia |].
  cbn. split_and!; [done | rewrite length_app; cbn; lia | done |].
  rewrite R4 by lia. unfold of_type in *. rewrite filter_app, map_app, I4, filter_app. f_equal.
  rewrite !filter_cons. subst c. destruct (decide (Type_ e = ct)) as [H | H].
  - by rewrite (decide_True (P := is_ct (change_of e))).
  - by rewrite (decide_False (P := is_ct (change_of e))).
Qed.

(** a client that synchronises misses nothing.  From the state a client was
    given, polling with any page size returns exactly the changes of its type
    recorded since, in order and once each. *)
Theorem poll_sees_every_change db cs max :
  user <> [] -> journal_ok (journal db) -> sequence (journal db) + Z.of_nat (length cs) < max_uint64 -> 0 < max ->
  map change_of (poll (S (length cs)) max (ParseChangeState (CurrentChangeState user db)) (foldl record db cs)) = filter is_ct cs.
Proof.
  intros Hu Hok Hb Hmax. destruct (records_spec db cs Hu Hok Hb) as (R1 & R2 & R3 & R4).
  assert (E : ParseChangeState (CurrentChangeState user db) = sequence (journal db)).
  { unfold ParseChangeState, CurrentChangeState. replace (match changes db !! changesBucket user with Some j => sequence j | None => 0 end)
      with (sequence (journal db)) by (unfold journal; by destruct (changes db !! _)).
    rewrite ParseUint_FormatUint; [done |]. destruct Hok. lia. }
  rewrite E. clear E. destruct (changes (foldl record db cs) !! changesBucket user) as [j |] eqn:Ej; cycle 1.
  { assert (cs = []) as -> by (destruct cs; [done |]; by specialize (R3 ltac:(done))).
    cbn in *. unfold GetChangesSince. rewrite (proj2 (Z.eqb_neq _ _)) by lia. by rewrite Ej. }
  assert (Ejn : journal (foldl record db cs) = j) by (unfold journal; by rewrite Ej).
  assert (Hlen : length (of_type (rows_from (sequence (journal db) + 1) j)) = length (filter is_ct cs))
    by (rewrite <- R4, length_map, Ejn; done).
  rewrite Ejn in *. rewrite (poll_spec _ max _ _ j); [done | done | done | done | by destruct Hok | lia | lia |].
  rewrite Hlen. pose proof (length_filter is_ct cs). lia.
Qed.
End Journal.

Definition ex_changes : list change :=
  [(10, ChangeTypeEmail, ChangeKindCreated, "m1" : gostring, "INBOX" : gostring);
   (11, ChangeTypeThread, ChangeKindUpdated, "t1" : gostring, [] : gostring);
   (12, ChangeTypeEmail, ChangeKindUpdated, "m1" : gostring, "INBOX" : gostring);
   (13, ChangeTypeEmail, ChangeKindDestroyed, "m1" : gostring, "INBOX" : gostring)].

Lemma poll_sees_every_change_witness :
  map change_of (poll "u@x" ChangeTypeEmail 5 2 0 (foldl (record "u@x") empty_db ex_changes)) =
  filter (is_ct ChangeTypeEmail) ex_changes /\ length (filter (is_ct ChangeTypeEmail) ex_changes) = 3%nat.
Proof.
  split; [| vm_compute; reflexivity].
  apply (poll_sees_every_change "u@x" ChangeTypeEmail empty_db ex_changes 2).
  - discriminate.
  - split; [vm_compute; discriminate |]. intros k e H. vm_compute in H. discriminate.
  - vm_compute. reflexivity.
  - reflexivity.
Defined.
