(* ===== verification/BlobStore.v ===== *)
(** * internal/storage: message bodies

    The content-addressed file store of messagestore.go.  A file is found under
    [basePath/user/id(0:2)/id(2:4)/id]; no component holds a separator, so the path
    is the pair of user and id.  The file system works, but writing the temporary
    file may fail ([written]); the lock of the user makes an operation one step,
    so that publishing the file needs one attempt.  Temporary files, directories
    and fsync are left out, and sizes are summed without wrap-around. *)
From S2P Require Import Prelude GoLib Scram.

(** ** Names *)
Definition validatePathComponent (s : gostring) : bool :=
  negb (bool_decide (s = []) || (s =s? ".") || (s =s? "..") || ContainsAny s "/\").

Definition is_hex (c : ascii) : bool := is_digit c || in_range 97 102 c || in_range 65 70 c.
Definition isLowerHex (s : gostring) : bool := forallb (fun c => is_digit c || in_range 97 102 c) s.
Definition is_base64url (c : ascii) : bool :=
  is_digit c || in_range 97 122 c || in_range 65 90 c || (c =c? "-") || (c =c? "_").

Definition isValidMessageID (messageID : gostring) : bool :=
  if (length messageID <? 64)%nat || (256 <? length messageID)%nat then false
  else if negb (forallb is_hex (take 64 messageID)) then false
  else match drop 64 messageID with
       | [] => true
       | c :: rest =>
           if negb (c =c? "_") then false else
           match IndexByte rest "_" with
           | None => false
           | Some sep =>
               if (sep =? 0)%nat || (sep =? length rest - 1)%nat then false
               else forallb is_digit (take sep rest) && forallb is_base64url (drop (sep + 1) rest)
           end
       end.

(** [hex.EncodeToString]. *)
Definition hex_digit (n : Z) : ascii := byte_of (if n <? 10 then 48 + n else 87 + n).
Definition EncodeToString (s : gostring) : gostring := concat (map (fun c => [hex_digit (bz c / 16); hex_digit (bz c mod 16)]) s).

(** ** Files *)
Record File := { content : gostring; mtime : Z }.
Abbreviation Files := (gmap (gostring * gostring) File).
Definition file_size (f : File) : Z := Z.of_nat (length (content f)).

Inductive store_error :=
| ErrInvalidPath | ErrInvalidID | ErrTooLarge | ErrIO | ErrNotExist | ErrNoChecker | ErrReferenceCheck
| ErrQuotaExceeded (used need limit : Z) | ErrBlobReferenced.

Definition maxMessageSize : Z := 100 * 1024 * 1024.
Definition orphanGCGrace : Z := hour.

Section Store.
Context {C : Crypto}.
Implicit Types (fs : Files) (user data id : gostring).

Definition blob_id data : gostring := EncodeToString (sha256 data).

(** The sizes of the user's files. *)
Definition usage user fs : Z :=
  map_fold (fun (k : gostring * gostring) f n => if bool_decide (k.1 = user) then file_size f + n else n) 0 fs.
Definition UserUsage user fs : result store_error Z :=
  if negb (validatePathComponent user) then Err ErrInvalidPath else Ok (usage user fs).

Definition touchBlob (now : Z) (f : File) : File := {| content := content f; mtime := now |}.

Definition storeMessageLocked (written : bool) (now : Z) user data fs : result store_error gostring * Files :=
  if maxMessageSize <? Z.of_nat (length data) then (Err ErrTooLarge, fs) else
  let messageID := blob_id data in
  if negb written then (Err ErrIO, fs) else
  match fs !! (user, messageID) with
  | Some f =>
      if file_size f =? Z.of_nat (length data) then (Ok messageID, <[(user, messageID) := touchBlob now f]> fs)
      else (Ok messageID, <[(user, messageID) := {| content := data; mtime := now |}]> fs)
  | None => (Ok messageID, <[(user, messageID) := {| content := data; mtime := now |}]> fs)
  end.

Definition StoreMessage (written : bool) (now : Z) user data fs : result store_error gostring * Files :=
  if negb (validatePathComponent user) then (Err ErrInvalidPath, fs) else storeMessageLocked written now user data fs.

Definition StoreMessageWithQuota (written : bool) (now : Z) user data (limit : Z) fs
  : result store_error gostring * Files :=
  if negb (validatePathComponent user) then (Err ErrInvalidPath, fs)
  else if limit <=? 0 then storeMessageLocked written now user data fs
  else
  let messageID := blob_id data in
  let need := Z.of_nat (length data) in
  let used := usage user fs in
  let checked := if limit <? used + need then (Err (ErrQuotaExceeded used need limit), fs)
  else storeMessageLocked written now user data fs in
  match fs !! (user, messageID) with
  | Some f => if file_size f =? need then (Ok messageID, <[(user, messageID) := touchBlob now f]> fs) else checked
  | None => checked
  end.

Definition ReadMessage user id fs : result store_error gostring :=
  if negb (validatePathComponent user) then Err ErrInvalidPath
  else if negb (isValidMessageID id) then Err ErrInvalidID
  else match fs !! (user, id) with
  | None => Err ErrNotExist
  | Some f => if maxMessageSize <? file_size f then Err ErrTooLarge else Ok (content f)
  end.

Definition MessageSize user id fs : result store_error Z :=
  if negb (validatePathComponent user) then Err ErrInvalidPath
  else if negb (isValidMessageID id) then Err ErrInvalidID
  else match fs !! (user, id) with None => Err ErrNotExist | Some f => Ok (file_size f) end.

Definition MessageExists user id fs : bool :=
  validatePathComponent user && isValidMessageID id && bool_decide (is_Some (fs !! (user, id))).

(** [None]: removed. *)
Definition DeleteMessageUnchecked user id fs : option store_error * Files :=
  if negb (validatePathComponent user) then (Some ErrInvalidPath, fs)
  else if negb (isValidMessageID id) then (Some ErrInvalidID, fs)
  else match fs !! (user, id) with
  | None => (Some ErrNotExist, fs)
  | Some _ => (None, delete (user, id) fs)
  end.

(** [checker]: the reference checker, if one is installed; it may fail. *)
Definition DeleteBlob (checker : option (gostring -> gostring -> option bool)) user id fs : option store_error * Files :=
  if negb (validatePathComponent user) then (Some ErrInvalidPath, fs)
  else if negb (isValidMessageID id) then (Some ErrInvalidID, fs)
  else match checker with
  | Some p =>
      match p user id with
      | Some false => DeleteMessageUnchecked user id fs
      | _ => (Some ErrBlobReferenced, fs)
      end
  | None => DeleteMessageUnchecked user id fs
  end.

(** The blobs [GCOrphanBlobs] looks at: canonical names, older than the grace. *)
Definition gc_candidate (now : Z) user (k : gostring * gostring) (f : File) : bool :=
  bool_decide (k.1 = user) && (length k.2 =? 64)%nat && isLowerHex k.2 && negb (now - orphanGCGrace <? mtime f).

Definition GCOrphanBlobs (now : Z) (checker : option (gostring -> gostring -> option bool)) user fs
  : result store_error nat * Files :=
  if negb (validatePathComponent user) then (Err ErrInvalidPath, fs)
  else match checker with
  | None => (Err ErrNoChecker, fs)
  | Some p =>
      let cands := filter (fun kf : (gostring * gostring) * File => gc_candidate now user kf.1 kf.2 = true) (map_to_list fs) in
      if existsb (fun kf : (gostring * gostring) * File => bool_decide (p user kf.1.2 = None)) cands then (Err ErrReferenceCheck, fs)
      else
      let orphans := filter (fun kf : (gostring * gostring) * File => p user kf.1.2 = Some false) cands in
      (Ok (length orphans), foldr (fun kf m => delete kf.1 m) fs orphans)
  end.
End Store.

(** ** Usage *)
Section Usage.
Implicit Types (fs : Files) (user : gostring).

Definition share user (k : gostring * gostring) (o : option File) : Z :=
  match o with Some f => if bool_decide (k.1 = user) then file_size f else 0 | None => 0 end.

Lemma usage_insert user k f fs : fs !! k = None -> usage user (<[k := f]> fs) = share user k (Some f) + usage user fs.
Proof.
  intros H. unfold usage. rewrite map_fold_insert_L; [cbn; by destruct (bool_decide _); lia | | done].
  intros. repeat destruct (bool_decide _); lia.
Qed.

Lemma usage_delete user k fs : usage user (delete k fs) = usage user fs - share user k (fs !! k).
Proof.
  destruct (fs !! k) as [f |] eqn:E; [| rewrite delete_id by done; cbn; lia].
  rewrite <- (insert_delete_id fs k f E) at 2. rewrite usage_insert by apply lookup_delete_eq. lia.
Qed.

Lemma usage_update user k f fs : usage user (<[k := f]> fs) = usage user fs - share user k (fs !! k) + share user k (Some f).
Proof. rewrite <- insert_delete_eq, usage_insert by apply lookup_delete_eq. rewrite usage_delete. lia. Qed.

Lemma share_nonneg user k o : 0 <= share user k o.
Proof. unfold share, file_size. destruct o; [destruct (bool_decide _) |]; lia. Qed.

Lemma usage_delete_le user k fs : usage user (delete k fs) <= usage user fs.
Proof. rewrite usage_delete. pose proof (share_nonneg user k (fs !! k)). lia. Qed.

Lemma usage_deletes_le {A} user (ks : list ((gostring * gostring) * A)) fs :
  usage user (foldr (fun kf m => delete kf.1 m) fs ks) <= usage user fs.
Proof. induction ks as [| k ks IH]; [done |]. cbn. pose proof (usage_delete_le user k.1 (foldr (fun kf m => delete kf.1 m) fs ks)). lia. Qed.
End Usage.

(** ** What operations do to the files *)
Section Steps.
Context {C : Crypto}.
Implicit Types (fs : Files) (user data id : gostring).

(** The file that a store leaves. *)
Definition stored (now : Z) user data fs : File :=
  match fs !! (user, blob_id data) with
  | Some f => if file_size f =? Z.of_nat (length data) then touchBlob now f else {| content := data; mtime := now |}
  | None => {| content := data; mtime := now |}
  end.

Lemma storeMessageLocked_cases written now user data fs :
  (exists e, storeMessageLocked written now user data fs = (Err e, fs)) \/
  Z.of_nat (length data) <= maxMessageSize /\
  storeMessageLocked written now user data fs = (Ok (blob_id data), <[(user, blob_id data) := stored now user data fs]> fs).
Proof.
  unfold storeMessageLocked, stored. destruct (_ <? _) eqn:El; [left; eauto |]. destruct (negb written); [left; eauto |].
  right. split; [lia |]. destruct (fs !! _) as [f |]; [| done]. by destruct (_ =? _).
Qed.

(** With a quota there is one more way to fail; success is a store. *)
Lemma StoreMessageWithQuota_cases written now user data limit fs :
  (exists e, StoreMessageWithQuota written now user data limit fs = (Err e, fs)) \/
  StoreMessageWithQuota written now user data limit fs =
  (Ok (blob_id data), <[(user, blob_id data) := stored now user data fs]> fs) /\
  validatePathComponent user = true /\
  (Z.of_nat (length data) <= maxMessageSize \/
    exists f, fs !! (user, blob_id data) = Some f /\ file_size f = Z.of_nat (length data)) /\
  (0 < limit -> usage user fs + Z.of_nat (length data) <= limit \/
    exists f, fs !! (user, blob_id data) = Some f /\ file_size f = Z.of_nat (length data)).
Proof.
  unfold StoreMessageWithQuota. destruct (validatePathComponent user); cbn [negb]; [| left; eauto].
  pose proof (storeMessageLocked_cases written now user data fs) as H. destruct (limit <=? 0) eqn:El.
  { destruct H as [[e ->] | [Hm ->]]; [left; eauto |]. right. split_and!; [done | done | by left | lia]. }
  assert (Hc : (exists e, (if limit <? usage user fs + Z.of_nat (length data)
    then (Err (ErrQuotaExceeded (usage user fs) (Z.of_nat (length data)) limit), fs)
    else storeMessageLocked written now user data fs) = (Err e, fs)) \/
    (if limit <? usage user fs + Z.of_nat (length data)
    then (Err (ErrQuotaExceeded (usage user fs) (Z.of_nat (length data)) limit), fs)
    else storeMessageLocked written now user data fs) =
    (Ok (blob_id data), <[(user, blob_id data) := stored now user data fs]> fs) /\
    Z.of_nat (length data) <= maxMessageSize /\ usage user fs + Z.of_nat (length data) <= limit).
  { destruct (limit <? _) eqn:Eq; [left; eauto |]. destruct H as [[e ->] | [Hm ->]]; [left; eauto |]. right. split_and!; [done | lia | lia]. }
  assert (Hc' := Hc). destruct (fs !! _) as [f |] eqn:Ef.
  - destruct (file_size f =? _) eqn:Es.
    + right. unfold stored. rewrite Ef, Es. split_and!; [done | done | right | intros _; right]; (exists f; split; [done | lia]).
    + destruct Hc' as [[e ->] | (-> & Hm & Hq)]; [left; eauto |]. right. split_and!; [done | done | by left | by left].
  - destruct Hc' as [[e ->] | (-> & Hm & Hq)]; [left; eauto |]. right. split_and!; [done | done | by left | by left].
Qed.

Lemma DeleteMessageUnchecked_cases user id fs :
  snd (DeleteMessageUnchecked user id fs) = fs \/ snd (DeleteMessageUnchecked user id fs) = delete (user, id) fs.
Proof.
  unfold DeleteMessageUnchecked. destruct (negb _); [by left |]. destruct (negb _); [by left |].
  destruct (fs !! _); [by right | by left].
Qed.

Lemma DeleteBlob_cases checker user id fs :
  snd (DeleteBlob checker user id fs) = fs \/ snd (DeleteBlob checker user id fs) = delete (user, id) fs.
Proof.
  unfold DeleteBlob. destruct (negb _); [by left |]. destruct (negb _); [by left |].
  destruct checker as [p |]; [destruct (p user id) as [[] |] |]; try (by left); apply DeleteMessageUnchecked_cases.
Qed.

(** Everything that changes the files; [limit] is the quota of each user. *)
Inductive blob_step (limit : gostring -> Z) : Files -> Files -> Prop :=
  | Blob_store written now user data fs :
  blob_step limit fs (snd (StoreMessageWithQuota written now user data (limit user) fs))
  | Blob_delete checker user id fs : blob_step limit fs (snd (DeleteBlob checker user id fs))
  | Blob_release user id fs : blob_step limit fs (snd (DeleteMessageUnchecked user id fs))
  | Blob_gc now checker user fs : blob_step limit fs (snd (GCOrphanBlobs now checker user fs)).

(** Every file is named by its content. *)
Definition addressed fs : Prop := forall user id f, fs !! (user, id) = Some f -> id = blob_id (content f).

Lemma addressed_delete k fs : addressed fs -> addressed (delete k fs).
Proof. intros H user id f [_ Hf]%lookup_delete_Some. by eapply H. Qed.

Lemma addressed_stored now user data fs : addressed fs -> addressed (<[(user, blob_id data) := stored now user data fs]> fs).
Proof.
  intros H u id f [[[= <- <-] <-] | [_ Hf]]%lookup_insert_Some; [| by eapply H].
  unfold stored. destruct (fs !! _) as [g |] eqn:Eg; [| done]. destruct (_ =? _); [| done]. by apply (H _ _ _ Eg).
Qed.

Lemma usage_stored now user data fs : file_size (stored now user data fs) = Z.of_nat (length data).
Proof.
  unfold stored. destruct (fs !! _) as [g |] eqn:Eg; [| done]. destruct (_ =? _) eqn:Es; [| done].
  unfold file_size, touchBlob in *. cbn. lia.
Qed.

Definition blob_inv (limit : gostring -> Z) fs : Prop :=
  addressed fs /\ map_Forall (fun _ f => file_size f <= maxMessageSize) fs /\
  forall user, 0 < limit user -> usage user fs <= limit user.

Lemma blob_inv_delete limit k fs : blob_inv limit fs -> blob_inv limit (delete k fs).
Proof.
  intros (A & M & B). split_and!; [by apply addressed_delete | by apply map_Forall_delete |]. intros u Hu.
  pose proof (usage_delete_le u k fs). specialize (B u Hu). lia.
Qed.

Lemma blob_inv_store limit written now user data fs :
  blob_inv limit fs -> blob_inv limit (snd (StoreMessageWithQuota written now user data (limit user) fs)).
Proof.
  intros (A & M & B).
  destruct (StoreMessageWithQuota_cases written now user data (limit user) fs) as [[e ->] | (-> & _ & Hm & Hq)]; [done |].
  split_and!; [by apply addressed_stored | |].
  - apply map_Forall_insert_2; [| done]. rewrite usage_stored. destruct Hm as [| (f & Hf & <-)]; [done |]. by apply (M _ _ Hf).
  - intros u Hu. cbn [snd]. rewrite usage_update. specialize (B u Hu). unfold share. cbn [fst].
    case_bool_decide as Eu; [subst u | destruct (fs !! _); lia]. rewrite usage_stored.
    destruct (Hq Hu) as [Hle | (f & -> & Hs)]; [| lia]. destruct (fs !! _); [unfold file_size |]; lia.
Qed.

Lemma blob_inv_step limit fs fs' : blob_inv limit fs -> blob_step limit fs fs' -> blob_inv limit fs'.
Proof.
  intros H Hs. inversion Hs as [written now user data fs0 | checker user id fs0 | user id fs0 | now checker user fs0]; subst.
  - by apply blob_inv_store.
  - destruct (DeleteBlob_cases checker user id fs) as [-> | ->]; [done | by apply blob_inv_delete].
  - destruct (DeleteMessageUnchecked_cases user id fs) as [-> | ->]; [done | by apply blob_inv_delete].
  - unfold GCOrphanBlobs. destruct (negb _); [done |]. destruct checker as [p |]; [| done].
    destruct (existsb _ _); [done |]. cbn. set (orphans := filter _ _). clearbody orphans.
    induction orphans as [| kf r IH]; [done |]. cbn. by apply blob_inv_delete.
Qed.

Lemma blob_reachable limit fs : star (blob_step limit) ∅ fs -> blob_inv limit fs.
Proof.
  apply star_invariant; [| apply blob_inv_step]. split_and!; [by intros ??? | apply map_Forall_empty |].
  intros u Hu. unfold usage. rewrite map_fold_empty. lia.
Qed.

(** Ids of the store are valid. *)
Lemma hex_digit_hex n : 0 <= n < 16 -> is_hex (hex_digit n) = true.
Proof.
  intros H. unfold hex_digit, is_hex, is_digit, in_range. destruct (n <? 10) eqn:E; rewrite bz_byte_of by lia; lia.
Qed.

Lemma encode_hex s : length (EncodeToString s) = (2 * length s)%nat /\ forallb is_hex (EncodeToString s) = true.
Proof.
  induction s as [| c s [IH1 IH2]]; [done |]. unfold EncodeToString in *. cbn [map concat app length forallb].
  split; [lia |]. rewrite IH2, !hex_digit_hex; [done | |]; pose proof (bz_range c); Z.to_euclidean_division_equations; lia.
Qed.

Lemma hex_digit_inj a b : 0 <= a < 16 -> 0 <= b < 16 -> hex_digit a = hex_digit b -> a = b.
Proof.
  intros Ha Hb H. apply (f_equal bz) in H. unfold hex_digit in H.
  destruct (a <? 10) eqn:?, (b <? 10) eqn:?; rewrite !bz_byte_of in H by lia; lia.
Qed.

Lemma EncodeToString_inj s t : EncodeToString s = EncodeToString t -> s = t.
Proof.
  revert t. induction s as [| c s IH]; intros [| d t]; [done | done | done |]. unfold EncodeToString. cbn [map concat app].
  intros [= H1 H2 H3]. f_equal; [| by apply IH]. apply bz_inj. pose proof (bz_range c). pose proof (bz_range d).
  apply hex_digit_inj in H1; [| Z.to_euclidean_division_equations; lia ..].
  apply hex_digit_inj in H2; [| Z.to_euclidean_division_equations; lia ..]. Z.to_euclidean_division_equations; lia.
Qed.

Lemma deletes_lookup {A} (ks : list ((gostring * gostring) * A)) fs k f :
  foldr (fun kf m => delete kf.1 m) fs ks !! k = Some f <-> fs !! k = Some f /\ ~ exists kf, kf ∈ ks /\ kf.1 = k.
Proof.
  induction ks as [| [k' a] ks IH]; cbn; [set_solver |]. rewrite lookup_delete_Some, IH. set_solver.
Qed.

Lemma size_filter (P : (gostring * gostring) * File -> Prop) `{!forall kf, Decision (P kf)} fs :
  size (filter P fs) = length (filter P (map_to_list fs)).
Proof.
  rewrite map_filter_alt, <- length_map_to_list, map_to_list_to_map; [done |].
  eapply sublist_NoDup; [apply (NoDup_fst_map_to_list fs) | apply fmap_sublist, sublist_filter].
Qed.

Lemma blob_id_valid data : length (blob_id data) = 64%nat /\ isValidMessageID (blob_id data) = true.
Proof.
  destruct (encode_hex (sha256 data)) as [Hl Hx]. fold (blob_id data) in Hl, Hx. rewrite sha256_length in Hl. split; [lia |].
  unfold isValidMessageID. rewrite Hl, take_ge, drop_ge by lia. by rewrite Hx.
Qed.

(** message bodies.  Whatever was stored, deleted and collected, in any order:
    the bodies of a user with a quota never take more than the quota; and a body
    that is stored is read back octet for octet under the id that the store
    returns, unless another body with the same SHA-256 is there already. *)
Theorem bodies_bounded_and_kept (limit : gostring -> Z) fs written now user data id fs' :
  star (blob_step limit) ∅ fs ->
  StoreMessageWithQuota written now user data (limit user) fs = (Ok id, fs') ->
  (forall f, fs !! (user, id) = Some f -> sha256 (content f) = sha256 data -> content f = data) ->
  (forall u, 0 < limit u -> usage u fs' <= limit u) /\ ReadMessage user id fs' = Ok data.
Proof.
  intros Hr Hs Hcol. apply blob_reachable in Hr as Hi. pose proof (blob_inv_store limit written now user data fs Hi) as Hi'.
  destruct Hi as (A & _ & _).
  rewrite Hs in Hi'. destruct Hi' as (A' & M' & B'). split; [done |].
  destruct (StoreMessageWithQuota_cases written now user data (limit user) fs) as [[e E] | (E & Hv & _)]; [congruence |].
  rewrite E in Hs. injection Hs as <- <-. unfold ReadMessage. destruct (blob_id_valid data) as [_ ->]. rewrite Hv. cbn [negb].
  assert (Hl := lookup_insert_eq fs (user, blob_id data) (stored now user data fs)). rewrite Hl.
  rewrite (proj2 (Z.ltb_ge _ _)) by by apply (M' _ _ Hl). f_equal.
  unfold stored. destruct (fs !! _) as [g |] eqn:Eg; [| done]. destruct (_ =? _); [| done].
  apply (Hcol g eq_refl). apply EncodeToString_inj. symmetry. by apply (A _ _ _ Eg).
Qed.

(** collecting garbage.  A collection of a user's bodies that succeeds removes
    exactly the user's bodies that have a canonical name, are older than the grace
    period and have no reference, keeps every other file as it was, and says how
    many it removed; one that fails removes nothing. *)
Theorem gc_removes_orphans now p user fs r fs' :
  GCOrphanBlobs now (Some p) user fs = (r, fs') ->
  match r with
  | Err _ => fs' = fs
  | Ok n => fs' = filter (fun kf => ~ (gc_candidate now user kf.1 kf.2 = true /\ p user kf.1.2 = Some false)) fs /\
      (n + size fs' = size fs)%nat
  end.
Proof.
  unfold GCOrphanBlobs. destruct (negb _); [by intros [= <- <-] |]. destruct (existsb _ _); [by intros [= <- <-] |].
  intros [= <- <-]. rewrite list_filter_filter. set (P := fun kf : (gostring * gostring) * File => _ /\ _).
  assert (E : foldr (fun kf m => delete kf.1 m) fs (filter P (map_to_list fs)) = filter (fun kf => ~ P kf) fs).
  { apply map_eq. intros k. apply option_eq. intros f. rewrite deletes_lookup, map_lookup_filter_Some.
    split; (intros [Hf Hn]; split; [done |]).
    - intros HP. apply Hn. exists (k, f). split; [| done]. apply list_elem_of_filter. by rewrite elem_of_map_to_list.
    - intros ([k' f'] & [HP Hin]%list_elem_of_filter & Ek). cbn in Ek. subst k'. apply elem_of_map_to_list in Hin.
      apply Hn. by replace f with f' by congruence. }
  rewrite E. split; [apply map_filter_ext; unfold P; intros; naive_solver |].
  rewrite size_filter, <- (length_map_to_list fs), <- (Permutation_length (filter_app_complement P (map_to_list fs))).
  by rewrite length_app.
Qed.

(** a copy-qualified id, [<hash>_<uid>_<mailbox>], is accepted as an id of the
    store, but the file of its hash is not found under it: only ids of exactly 64
    characters name files, and reading under a longer one always fails. *)
Theorem qualified_id_never_read limit fs user hash suffix :
  star (blob_step limit) ∅ fs -> length hash = 64%nat -> suffix <> [] ->
  exists e, ReadMessage user (hash ++ suffix) fs = Err e.
Proof.
  intros (A & _)%blob_reachable Hh Hs. unfold ReadMessage. destruct (negb _); [eauto |]. destruct (negb _); [eauto |].
  destruct (fs !! _) as [f |] eqn:Ef; [| eauto]. apply A in Ef. apply (f_equal length) in Ef.
  rewrite length_app, Hh, (proj1 (blob_id_valid _)) in Ef. destruct suffix; [done |]. cbn in Ef. lia.
Qed.
End Steps.

(** ** Examples *)
Section Examples.
#[local] Existing Instance toy_crypto.

Definition limit100 : gostring -> Z := fun _ => 100.
Definition one_file : Files := snd (StoreMessageWithQuota true 5 "ann" "hello" 100 ∅).
Lemma one_file_reachable : star (blob_step limit100) ∅ one_file.
Proof. apply star_one, (Blob_store limit100 true 5 "ann" "hello"). Qed.

Definition two_files : Files := snd (StoreMessageWithQuota true 9 "ann" "a second body" 100 one_file).
Lemma two_files_stored : StoreMessageWithQuota true 9 "ann" "a second body" (limit100 "ann") one_file = (Ok (blob_id "a second body"), two_files).
Proof. apply injective_projections; [vm_compute; reflexivity | reflexivity]. Qed.
Lemma second_is_new : one_file !! (("ann" : gostring), blob_id "a second body") = None.
Proof. vm_compute. reflexivity. Qed.

Example bodies_bounded_and_kept_witness :
  usage "ann" two_files <= 100 /\ ReadMessage "ann" (blob_id "a second body") two_files = Ok ("a second body" : gostring).
Proof.
  destruct (bodies_bounded_and_kept limit100 one_file true 9 "ann" "a second body" _ _ one_file_reachable two_files_stored) as [Hu Hr].
  { intros f Hf. rewrite second_is_new in Hf. discriminate Hf. }
  split; [exact (Hu "ann" ltac:(reflexivity)) | exact Hr].
Defined.

Definition collected : Files := snd (GCOrphanBlobs (2 * hour) (Some (fun _ _ => Some false)) "ann" one_file).
Lemma one_file_collected : GCOrphanBlobs (2 * hour) (Some (fun _ _ => Some false)) "ann" one_file = (Ok 1%nat, collected).
Proof. apply injective_projections; [vm_compute; reflexivity | reflexivity]. Qed.
Example gc_removes_orphans_witness : (1 + size collected = size one_file)%nat /\ size one_file = 1%nat.
Proof.
  split; [| vm_compute; reflexivity].
  exact (proj2 (gc_removes_orphans (2 * hour) (fun _ _ => Some false) "ann" one_file (Ok 1%nat) collected one_file_collected)).
Defined.

Example qualified_id_never_read_witness :
  isValidMessageID (blob_id "hello" ++ ("_7_SU5CT1g" : gostring)) = true /\
  ReadMessage "ann" (blob_id "hello") one_file = Ok ("hello" : gostring) /\
  exists e, ReadMessage "ann" (blob_id "hello" ++ ("_7_SU5CT1g" : gostring)) one_file = Err e.
Proof.
  split; [vm_compute; reflexivity |]. split; [vm_compute; reflexivity |].
  apply (qualified_id_never_read limit100); [apply one_file_reachable | vm_compute; reflexivity | discriminate].
Defined.
End Examples.
