(* ===== verification/Threads.v ===== *)
(** * internal/storage: threads, subscriptions and the listing of mailboxes

    The rest of database.go and thread_record.go.  A conversation is found by the
    references of a message, then by its subject; the first message of a subject
    reserves the thread for those that arrive before it is stored.  [ThreadDb] has
    the buckets of threads, reservations and subscriptions; message rows are those of
    [MailDb].  A thread id is a digest of the subject and the time. *)
From S2P Require Import Prelude GoLib Utf8 Bolt Scram BlobStore MailDb.

Record Thread := {
  TThreadID : gostring;
  TSubject : gostring;
  Participants : list gostring;
  MessageCount : Z;
  UnreadCount : Z;
  LastActivity : Z;
  CreatedAt : Z
}.
Record threadReservation := { RThreadID : gostring; RCreated : Z }.
Record ThreadMessage := {
  TM_MessageID : gostring; TM_UID : Z; TM_Mailbox : gostring; TM_From : gostring; TM_To : gostring; TM_Subject : gostring;
  TM_Date : Z; TM_Flags : list gostring; TM_InReplyTo : gostring; IsRead : bool }.

Record ThreadDb := {
  threads : gmap gostring (gmap gostring Thread);
  reservations : gmap gostring (gmap gostring threadReservation);
  subscriptions : gmap gostring (gset gostring)
}.
Definition empty_threads : ThreadDb := {| threads := ∅; reservations := ∅; subscriptions := ∅ |}.
Definition set_threads f (t : ThreadDb) : ThreadDb := {|
  threads := f (threads t); reservations := reservations t; subscriptions := subscriptions t |}.
Definition set_reservations f (t : ThreadDb) : ThreadDb := {|
  threads := threads t; reservations := f (reservations t); subscriptions := subscriptions t |}.
Definition set_subscriptions f (t : ThreadDb) : ThreadDb := {|
  threads := threads t; reservations := reservations t; subscriptions := f (subscriptions t) |}.

Definition threadBucket (user : gostring) : gostring := "threads:" ++ keyUser user.
Definition threadReservationBucket (user : gostring) : gostring := "threadres:" ++ keyUser user.
Definition subscribedBucket (user : gostring) : gostring := "subscribed:" ++ keyUser user.
Definition threadReservationTTL : Z := 30 * 24 * hour.

(** ** Subjects *)
Definition isDigits (s : gostring) : bool := negb (bool_decide (s = [])) && forallb is_digit s.

Section Threads.
Context {U : UnicodeTables} {C : Crypto}.
Implicit Types (user mailbox subject : gostring) (t : ThreadDb) (db : Database).

(** One round of the loop: the subject behind a reply or forward prefix. *)
Definition strip_prefix subject : option gostring :=
  let upper := ToUpper subject in
  if HasPrefix upper "RE:" then Some (TrimSpace (drop 3 subject))
  else if HasPrefix upper "RE[" then
  match Index subject "]:" with
  | Some idx => if (idx <? 3)%nat || negb (isDigits (drop 3 (take idx subject))) then None else Some (TrimSpace (drop (idx + 2) subject))
  | None => None
  end
  else if HasPrefix upper "FWD:" then Some (TrimSpace (drop 4 subject))
  else if HasPrefix upper "FW:" then Some (TrimSpace (drop 3 subject))
  else None.

Fixpoint normalize_go (fuel : nat) subject : gostring :=
  match fuel, strip_prefix subject with
  | S f, Some rest => normalize_go f rest
  | _, _ => TrimSpace subject
  end.
Definition NormalizeSubject subject : gostring := normalize_go (length subject) (TrimSpace subject).

Definition generateThreadID (now : Z) subject : gostring :=
  EncodeToString (take 16 (sha256 (subject ++ ":" ++ FormatUint now))).

(** ** Finding a thread *)
Definition refers (inReplyTo : gostring) (references : list gostring) (m : MessageMetadata) : bool :=
  negb (bool_decide (inReplyTo = [])) && (MessageID m =s? inReplyTo) ||
  existsb (fun ref => (MessageID m =s? ref) && negb (bool_decide (ThreadID m = []))) references.

Definition rows_in_order user mailbox db : list MessageMetadata :=
  omap (fun uid => rows_of user mailbox db !! uid) (keys (rows_of user mailbox db)).

Definition threadByReferencesTx user mailbox (inReplyTo : gostring) (references : list gostring) db : gostring :=
  match find (refers inReplyTo references) (rows_in_order user mailbox db) with
  | Some m => ThreadID m
  | None => []
  end.

(** The scan for the oldest message of the subject: its thread and its date. *)
Definition oldest_of (normalizedSubject : gostring) (acc : gostring * Z) (m : MessageMetadata) : gostring * Z :=
  if (NormalizeSubject (Subject m) =s? normalizedSubject) && (InternalDate m <? snd acc) then (ThreadID m, InternalDate m) else acc.

Definition threadBySubjectTx (now : Z) user mailbox (normalizedSubject : gostring) db : gostring :=
  if bool_decide (normalizedSubject = []) then []
  else
  let '(threadID, oldestDate) := foldl (oldest_of normalizedSubject) ([], now) (rows_in_order user mailbox db) in
  if negb (bool_decide (threadID = [])) && (threadReservationTTL <? time_sub now oldestDate) then [] else threadID.

Definition reservationKey mailbox (normalizedSubject : gostring) : gostring := mailbox ++ NUL :: normalizedSubject.

Definition reserved (now : Z) user key t : option gostring :=
  r ← default ∅ (reservations t !! threadReservationBucket user) !! key;
  if negb (bool_decide (RThreadID r = [])) && (time_sub now (RCreated r) <=? threadReservationTTL) then Some (RThreadID r) else None.

Definition GetOrCreateThreadID (now : Z) user mailbox subject (inReplyTo : gostring) (references : list gostring) db t : gostring * ThreadDb :=
  let normalizedSubject := NormalizeSubject subject in
  let byRefs := if negb (bool_decide (inReplyTo = [])) || negb (bool_decide (references = []))
  then threadByReferencesTx user mailbox inReplyTo references db else [] in
  if negb (bool_decide (byRefs = [])) then (byRefs, t)
  else
  let bySubject := threadBySubjectTx now user mailbox normalizedSubject db in
  if negb (bool_decide (bySubject = [])) then (bySubject, t)
  else if bool_decide (normalizedSubject = []) then (generateThreadID now subject, t)
  else
  let key := reservationKey mailbox normalizedSubject in
  match reserved now user key t with
  | Some id => (id, t)
  | None =>
      let id := generateThreadID now subject in
      (id, set_reservations (fun m => <[threadReservationBucket user :=
        <[key := {| RThreadID := id; RCreated := now |}]> (default ∅ (m !! threadReservationBucket user))]> m) t)
  end.

(** ** Thread rows *)
Definition threads_of user t : gmap gostring Thread := default ∅ (threads t !! threadBucket user).
Definition put_thread user (th : Thread) : ThreadDb -> ThreadDb :=
  set_threads (fun m => <[threadBucket user := <[TThreadID th := th]> (default ∅ (m !! threadBucket user))]> m).

Definition GetThread user (threadID : gostring) t : option Thread := threads_of user t !! threadID.

Definition GetThreads user (limit offset : Z) t : list Thread :=
  let rows := drop (Z.to_nat offset) (map snd (cursor (threads_of user t))) in
  if 0 <? limit then take (Z.to_nat limit) rows else rows.

Definition GetThreadMessages user mailbox (threadID : gostring) db : list ThreadMessage :=
  map (fun m => {| TM_MessageID := MessageID m; TM_UID := UID m; TM_Mailbox := mailbox; TM_From := From m; TM_To := To m;
    TM_Subject := Subject m; TM_Date := InternalDate m; TM_Flags := Flags m; TM_InReplyTo := InReplyTo m; IsRead := HasFlag (Flags m) "\Seen" |})
  (filter (fun m => ThreadID m = threadID) (rows_in_order user mailbox db)).

Definition UpdateThread user (thread : option Thread) t : option ThreadDb :=
  match thread with
  | None => None
  | Some th => if bool_decide (TThreadID th = []) then None else Some (put_thread user th t)
  end.

Definition DeleteThread user (threadID : gostring) t : ThreadDb :=
  set_threads (fun m => match m !! threadBucket user with None => m | Some b => <[threadBucket user := delete threadID b]> m end) t.

Definition SearchThreads user (query : gostring) t : list Thread :=
  let q := ToLower query in
  filter (fun th => Contains (ToLower (TSubject th)) q || existsb (fun p => Contains (ToLower p) q) (Participants th) = true)
  (map snd (cursor (threads_of user t))).

Definition RecordMessageInThread (now : Z) user (threadID : gostring) subject (from : gostring) (internalDate : Z) (flags : list gostring) t : option ThreadDb :=
  if bool_decide (threadID = []) then None
  else
  let th := default {| TThreadID := threadID; TSubject := NormalizeSubject subject; Participants := []; MessageCount := 0;
    UnreadCount := 0; LastActivity := internalDate; CreatedAt := now |} (threads_of user t !! threadID) in
  let th := {| TThreadID := TThreadID th; TSubject := TSubject th;
    Participants := if bool_decide (from = []) || bool_decide (from ∈ Participants th) then Participants th else Participants th ++ [from];
    MessageCount := MessageCount th + 1;
    UnreadCount := if HasFlag flags "\Seen" then UnreadCount th else UnreadCount th + 1;
    LastActivity := internalDate; CreatedAt := CreatedAt th |} in
  Some (set_threads (fun m => <[threadBucket user := <[threadID := th]> (default ∅ (m !! threadBucket user))]> m) t).

(** ** Subscriptions and listings *)
Definition SetSubscribed user mailbox (subscribed : bool) : ThreadDb -> ThreadDb :=
  set_subscriptions (fun m =>
    let b := default ∅ (m !! subscribedBucket user) in
    <[subscribedBucket user := if subscribed then {[mailbox]} ∪ b else b ∖ {[mailbox]}]> m).
Definition GetSubscribed user mailbox t : bool := bool_decide (mailbox ∈ default ∅ (subscriptions t !! subscribedBucket user)).
Definition ListSubscribed user t : list gostring := merge_sort lex_le (elements (default ∅ (subscriptions t !! subscribedBucket user))).

Definition ListMailboxes user db : list gostring :=
  let prefix := "mailbox:" ++ keyUser user ++ ":" in
  let result := omap (fun '(k, _) =>
    if HasPrefix k prefix then match SplitN3 k ":" with Some (_, _, name) => Some name | None => None end else None)
  (cursor (mailboxes db)) in
  match result with [] => ["INBOX" : gostring] | _ => result end.
End Threads.
