(* ===== verification/ImapStore.v ===== *)
(** * internal/imap: the mail store

    [BboltMailstore] of mailstore.go over the metadata database ([MailDb], [Threads])
    and the message bodies ([BlobStore]).  [MStore] is the state: the two stores, the
    bytes accepted by the quota hook, the junk reports, the disposition notifications
    and the announcements to idling sessions.  The parameters of the section are what
    the server installs: the quota of a user, the quota hook (it may refuse a call,
    depending on the calls before), whether junk reports are taken, and the pending
    uploads that hold blobs.  [iter] is the order in which Go walks a map.
    Reads of the database succeed; [io] says of a message whether its file and its
    row could be written. *)
From S2P Require Import Prelude GoLib Utf8 Bolt ImapSeq Scram BlobStore MailDb Threads.

Inductive note :=
| NewMessage (user mailbox : gostring) (uid seq : Z)
| Expunged (user mailbox : gostring) (seq : Z)
| FlagsChanged (user mailbox : gostring) (uid seq : Z) (flags : list gostring).

Record blobRef := { ref_id : gostring; ref_size : Z }.

Record MStore := {
  db : Database;
  tdb : ThreadDb;
  msgStore : Files;
  adjusted : list (gostring * Z);
  reported : list (gostring * gostring * bool);
  mdnSent : gset gostring;
  mdns : list (gostring * gostring * gostring);
  notes : list note
}.
Definition set_db f (st : MStore) : MStore := {| db := f (db st); tdb := tdb st; msgStore := msgStore st; adjusted := adjusted st;
  reported := reported st; mdnSent := mdnSent st; mdns := mdns st; notes := notes st |}.
Definition set_tdb f (st : MStore) : MStore := {| db := db st; tdb := f (tdb st); msgStore := msgStore st; adjusted := adjusted st;
  reported := reported st; mdnSent := mdnSent st; mdns := mdns st; notes := notes st |}.
Definition set_files f (st : MStore) : MStore := {| db := db st; tdb := tdb st; msgStore := f (msgStore st); adjusted := adjusted st;
  reported := reported st; mdnSent := mdnSent st; mdns := mdns st; notes := notes st |}.
Definition set_adjusted f (st : MStore) : MStore := {| db := db st; tdb := tdb st; msgStore := msgStore st; adjusted := f (adjusted st);
  reported := reported st; mdnSent := mdnSent st; mdns := mdns st; notes := notes st |}.
Definition set_reported f (st : MStore) : MStore := {| db := db st; tdb := tdb st; msgStore := msgStore st; adjusted := adjusted st;
  reported := f (reported st); mdnSent := mdnSent st; mdns := mdns st; notes := notes st |}.
Definition set_mdn sent log (st : MStore) : MStore := {| db := db st; tdb := tdb st; msgStore := msgStore st; adjusted := adjusted st;
  reported := reported st; mdnSent := sent (mdnSent st); mdns := log (mdns st); notes := notes st |}.
Definition notify ns (st : MStore) : MStore := {| db := db st; tdb := tdb st; msgStore := msgStore st; adjusted := adjusted st;
  reported := reported st; mdnSent := mdnSent st; mdns := mdns st; notes := notes st ++ ns |}.

Inductive mstore_error :=
| EStore (e : store_error) | EDb (e : db_error) | ESet (e : seq_error) | EQuotaHook | ERowWrite
| ETooManyMessages | ENonexistent | ETooManyKeywords.

(** What the file system and the database do to one message. *)
Record IO := { file_written : bool; row_written : bool }.

(** ** Patterns of LIST *)
Definition slash : ascii := "/".
Definition is_wild (c : ascii) : bool := (c =c? "*") || (c =c? "%").

(** [cur] has one entry per prefix of the name; a wildcard extends a match over the
    characters it covers, another character over itself. *)
Fixpoint wild_row (c : ascii) (prev : bool) (name : gostring) (cur : list bool) : list bool :=
  match name, cur with
  | x :: name, b :: cur => let v := b || prev && ((c =c? "*") || negb (x =c? slash)) in v :: wild_row c v name cur
  | _, _ => []
  end.
Fixpoint literal_row (c : ascii) (name : gostring) (cur : list bool) : list bool :=
  match name, cur with
  | x :: name, b :: cur => b && (x =c? c) :: literal_row c name cur
  | _, _ => []
  end.
Definition next_row (name : gostring) (cur : list bool) (c : ascii) : list bool :=
  match cur with
  | b :: r => if is_wild c then b :: wild_row c b name r else false :: literal_row c name cur
  | [] => []
  end.
Definition first_row (name : gostring) : list bool := true :: map (fun _ => false) name.
Definition imapWildcardMatch (name pattern : gostring) : bool :=
  List.last (foldl (next_row name) (first_row name) pattern) false.
Definition matchPattern : gostring -> gostring -> bool := imapWildcardMatch.

Section Store.
Context {U : UnicodeTables} {C : Crypto} {N : NetMail}.
Context (quotaLimit : option (gostring -> Z)) (quotaAdjust : option (list (gostring * Z) -> gostring -> Z -> bool)).
Context (junkReport : bool) (pending : gostring -> gostring -> bool) (iter : gmap gostring Z -> list (gostring * Z)).
Implicit Types (user mailbox : gostring) (st : MStore) (uid now : Z).

(** ** Quota and blobs *)
Definition adjustQuota user (delta : Z) st : bool * MStore :=
  match quotaAdjust with
  | Some refuses =>
      if delta =? 0 then (true, st)
      else if refuses (adjusted st) user delta then (false, st)
      else (true, set_adjusted (fun l => l ++ [(user, delta)]) st)
  | None => (true, st)
  end.

Definition storeBlob (written : bool) now user (data : gostring) st : result mstore_error gostring * MStore :=
  let reserved := match quotaAdjust with
  | Some _ => if MessageExists user (blob_id data) (msgStore st) then 0 else Z.of_nat (length data)
  | None => 0
  end in
  match adjustQuota user reserved st with
  | (false, st) => (Err EQuotaHook, st)
  | (true, st) =>
      let stored := match quotaLimit with
      | Some limit => if 0 <? limit user then StoreMessageWithQuota written now user data (limit user) (msgStore st)
          else StoreMessage written now user data (msgStore st)
      | None => StoreMessage written now user data (msgStore st)
      end in
      match stored with
      | (Ok id, fs) => (Ok id, set_files (fun _ => fs) st)
      | (Err e, fs) => (Err (EStore e), snd (adjustQuota user (- reserved) (set_files (fun _ => fs) st)))
      end
  end.

Definition CheckQuota user (need : Z) st : option mstore_error :=
  match quotaLimit with
  | None => None
  | Some limit =>
      if limit user <=? 0 then None
      else match UserUsage user (msgStore st) with
      | Err e => Some (EStore e)
      | Ok used => if limit user <? used + need then Some (EStore (ErrQuotaExceeded used need (limit user))) else None
      end
  end.

Definition candidates (refs : list blobRef) : gmap gostring Z := foldl (fun m r => <[ref_id r := ref_size r]> m) ∅ refs.

(** One blob: kept while a row or an upload of the user names it. *)
Definition release_one user (c : gostring * Z) st : MStore :=
  let '(id, size) := c in
  if BlobReferenced pending user id (db st) then st
  else
  let size := if size <=? 0 then match ReadMessage user id (msgStore st) with Ok data => Z.of_nat (length data) | Err _ => size end else size in
  match DeleteMessageUnchecked user id (msgStore st) with
  | (None, fs) => snd (adjustQuota user (- size) (set_files (fun _ => fs) st))
  | (Some _, _) => st
  end.
Definition releaseBlobsLocked user (refs : list blobRef) st : MStore :=
  foldl (fun st c => release_one user c st) st (iter (candidates refs)).
Definition releaseBlobs : gostring -> list blobRef -> MStore -> MStore := releaseBlobsLocked.

Definition ref_of (meta : MessageMetadata) : blobRef := {| ref_id := MessageID meta; ref_size := Size meta |}.

Definition RollbackAppended now user mailbox (uids : list Z) st : MStore :=
  let '(st, released) := foldl (fun '(st, released) uid =>
    let meta := GetMessageMetadata user mailbox uid (db st) in
    (set_db (DeleteMessage now user mailbox uid) st, released ++ [ref_of meta])) (st, []) uids in
  releaseBlobs user released st.

(** ** Mailboxes *)
Definition hasFlag (flags : list gostring) (flag : gostring) : bool := existsb (fun f => ToUpper f =s? ToUpper flag) flags.

Record MailboxInfo := { MbName : gostring; MbExists : nat; MbRecent : nat; RecentUIDs : list Z; MbUnseen : nat;
  MbUIDValidity : Z; MbUIDNext : Z; MbHighestModSeq : Z }.

Definition mailboxInfo user mailbox (clearRecent : bool) st : result mstore_error MailboxInfo * MStore :=
  let inbox := EqualFold mailbox "INBOX" in
  let mailbox := if inbox then "INBOX" : gostring else mailbox in
  if negb inbox && negb (bool_decide (mailbox ∈ ListMailboxes user (db st))) then (Err ENonexistent, st)
  else
  let mb := GetMailbox user mailbox (db st) in
  let '(exists_, recent, unseen) := GetMailboxCounts user mailbox (db st) in
  let recentUIDs := if clearRecent && (0 <? recent)%nat
  then List.filter (fun uid => hasFlag (Flags (GetMessageMetadata user mailbox uid (db st))) "\Recent") (GetMessageUIDs user mailbox (db st))
  else [] in
  let st := if clearRecent then set_db (ClearRecent user mailbox) st else st in
  (Ok {| MbName := Name mb; MbExists := exists_; MbRecent := recent; RecentUIDs := recentUIDs; MbUnseen := unseen;
    MbUIDValidity := UIDValidity mb; MbUIDNext := UIDNext mb; MbHighestModSeq := GetHighestModSeq user mailbox (db st) |}, st).
Definition SelectMailbox user mailbox st : result mstore_error MailboxInfo * MStore := mailboxInfo user mailbox true st.
Definition ExamineMailbox user mailbox st : result mstore_error MailboxInfo * MStore := mailboxInfo user mailbox false st.

Definition ms_CreateMailbox now user mailbox st : option mstore_error * MStore :=
  match CreateMailbox now user mailbox (db st) with
  | Ok d => (None, set_db (fun _ => d) st)
  | Err e => (Some (EDb e), st)
  end.

Definition ms_DeleteMailbox now user mailbox st : option mstore_error * MStore :=
  let refs := map (fun uid => ref_of (GetMessageMetadata user mailbox uid (db st))) (GetMessageUIDs user mailbox (db st)) in
  match DeleteMailbox now user mailbox (db st) with
  | Err e => (Some (EDb e), st)
  | Ok d => (None, releaseBlobs user refs (set_db (fun _ => d) st))
  end.

Definition ms_RenameMailbox now user (oldName newName : gostring) st : option mstore_error * MStore :=
  match RenameMailbox now user oldName newName (db st) with
  | Ok d => (None, set_db (fun _ => d) st)
  | Err e => (Some (EDb e), st)
  end.

Definition ms_ListMailboxes user (pattern : gostring) st : list gostring :=
  merge_sort lex_le (List.filter (fun mb => matchPattern mb pattern) (ListMailboxes user (db st))).

Definition default_mailboxes : list gostring := ["INBOX" : gostring; "Sent" : gostring; "Drafts" : gostring; "Junk" : gostring; "Trash" : gostring; "Archive" : gostring].
Definition EnsureDefaultMailboxes now user st : MStore :=
  foldl (fun st name => snd (ms_CreateMailbox now user name st)) st default_mailboxes.

(** ** Sequence sets over the live mailbox *)
Definition inSeqRanges (ranges : list SeqRange) (n hi : Z) : bool := existsb (fun r => ImapSeq.Contains r n hi) ranges.
Fixpoint numbered_from (i : Z) (uids : list Z) : list (Z * Z) :=
  match uids with [] => [] | uid :: r => (i, uid) :: numbered_from (i + 1) r end.
(** The messages of a mailbox with their sequence numbers. *)
Definition numbered user mailbox st : list (Z * Z) := numbered_from 1 (GetMessageUIDs user mailbox (db st)).
Definition too_many user mailbox st : bool := 2147483647 <? Z.of_nat (length (GetMessageUIDs user mailbox (db st))).
Definition selected_in (ranges : list SeqRange) user mailbox st : list (Z * Z) :=
  List.filter (fun '(seq, _) => inSeqRanges ranges seq (Z.of_nat (length (GetMessageUIDs user mailbox (db st))))) (numbered user mailbox st).

(** ** FETCH *)
Definition needs_data (item : gostring) : bool :=
  let item := ToUpper item in
  (item =s? "RFC822") || (item =s? "RFC822.HEADER") || (item =s? "RFC822.TEXT") || (item =s? "BODY") || HasPrefix item "BODY[" || HasPrefix item "BODY.PEEK[".
Definition marks_seen (item : gostring) : bool :=
  let item := ToUpper item in (item =s? "RFC822") || (item =s? "RFC822.TEXT") || HasPrefix item "BODY[".

Definition dnt : gostring := "disposition-notification-to:".
Fixpoint split_crlf (fuel : nat) (s : gostring) : list gostring :=
  match fuel, Index s [byte_of 13; byte_of 10] with
  | S f, Some i => take i s :: split_crlf f (drop (i + 2) s)
  | _, _ => [s]
  end.
Fixpoint disposition_line (lines : list gostring) : gostring :=
  match lines with
  | [] => []
  | l :: r =>
      if bool_decide (l = []) then []
      else if (length dnt <? length l)%nat && EqualFold (take (length dnt) l) dnt then TrimSpace (drop (length dnt) l)
      else disposition_line r
  end.
Definition parseDispositionHeader (msgStr : gostring) : gostring := disposition_line (split_crlf (length msgStr) msgStr).

Definition parseMDNAddress (header : gostring) : option gostring :=
  let header := TrimSpace header in
  let fallback :=
  let header := if HasPrefix header "<" && HasSuffix header ">" then drop 1 (take (length header - 1) header) else header in
  if GoLib.Contains header "@" then Some header else None in
  match ParseAddressList header with
  | Some (a :: _) => if GoLib.Contains a "@" then Some a else fallback
  | _ => fallback
  end.

(** [handler]: one is installed; [room]: the semaphore has a slot. *)
Definition checkAndSendMDN (handler room : bool) (messageID from msgData : gostring) st : MStore :=
  if negb handler || bool_decide (messageID ∈ mdnSent st) then st
  else
  let st := set_mdn (fun s => {[messageID]} ∪ s) id st in
  let header := parseDispositionHeader msgData in
  if bool_decide (header = []) then st
  else match parseMDNAddress header with
  | Some mdnTo => if negb (bool_decide (mdnTo = [])) && room then set_mdn id (fun l => l ++ [(from, mdnTo, messageID)]) st else st
  | None => st
  end.
(** The handler failed: the notification may be tried again. *)
Definition mdn_failed (messageID : gostring) st : MStore := set_mdn (fun s => s ∖ {[messageID]}) id st.

Record FetchedMessage := { FSeqNum : Z; FUID : Z; FMeta : MessageMetadata; FData : option gostring }.
Definition getMessage (handler room : bool) user mailbox (items : list gostring) (su : Z * Z) st : FetchedMessage * MStore :=
  let '(seqNum, uid) := su in
  let meta := GetMessageMetadata user mailbox uid (db st) in
  let data := if existsb needs_data items then
  match ReadMessage user (MessageID meta) (msgStore st) with Ok data => Some data | Err _ => None end else None in
  ({| FSeqNum := seqNum; FUID := uid; FMeta := meta; FData := data |},
    match data with
    | Some data => if existsb marks_seen items then checkAndSendMDN handler room (MessageID meta) (From meta) data st else st
    | None => st
    end).

Fixpoint get_messages (handler room : bool) user mailbox (items : list gostring) (sus : list (Z * Z)) st : list FetchedMessage * MStore :=
  match sus with
  | [] => ([], st)
  | su :: r =>
      let '(msg, st) := getMessage handler room user mailbox items su st in
      let '(msgs, st) := get_messages handler room user mailbox items r st in (msg :: msgs, st)
  end.

Definition FetchMessages (handler room : bool) user mailbox (seqSet : gostring) (items : list gostring) st : result mstore_error (list FetchedMessage) * MStore :=
  match ParseSequenceSet seqSet with
  | Err e => (Err (ESet e), st)
  | Ok ranges =>
      if too_many user mailbox st then (Err ETooManyMessages, st)
      else let '(msgs, st) := get_messages handler room user mailbox items (selected_in ranges user mailbox st) st in (Ok msgs, st)
  end.

(** The header section of a message, its last line end included. *)
Definition MessageHeader user mailbox uid st : result store_error gostring :=
  let* data := ReadMessage user (MessageID (GetMessageMetadata user mailbox uid (db st))) (msgStore st) in
  Ok match Index data [byte_of 13; byte_of 10; byte_of 13; byte_of 10] with
  | Some i => take (i + 2) data
  | None => match Index data [byte_of 10; byte_of 10] with Some i => take (i + 1) data | None => data end
  end.

(** ** STORE *)
Inductive FlagOperation := FlagAdd | FlagRemove | FlagReplace.
Definition maxKeywordsPerMessage : nat := 100.
Definition countKeywords (flags : list gostring) : nat := length (List.filter (fun f => negb (HasPrefix f "\")) flags).

(** Adding the flags that are not there yet, one after the other. *)
Definition add_flags (flags : list gostring) : list gostring -> list gostring :=
  foldl (fun acc f => if hasFlag acc f then acc else acc ++ [f]) flags.
Definition normalizeStoreFlags (flags : list gostring) : list gostring :=
  foldl (fun out f => if EqualFold f "\Recent" || hasFlag out f then out else out ++ [f]) [] flags.

Definition apply_flags (op : FlagOperation) (flags old : list gostring) : list gostring :=
  match op with
  | FlagAdd => add_flags old flags
  | FlagRemove => List.filter (fun f => negb (hasFlag flags f)) old
  | FlagReplace => flags ++ (if hasFlag old "\Recent" then ["\Recent" : gostring] else [])
  end.

(** The callback of the update: [None] is errTooManyKeywords. *)
Definition update_flags (op : FlagOperation) (flags : list gostring) (meta : MessageMetadata) : option MessageMetadata :=
  let new := apply_flags op flags (Flags meta) in
  if (maxKeywordsPerMessage <? countKeywords new)%nat && (countKeywords (Flags meta) <? countKeywords new)%nat then None
  else Some (with_flags new meta).

Definition store_one (op : FlagOperation) (flags : list gostring) user mailbox (acc : bool * MStore) (su : Z * Z) : bool * MStore :=
  let '(limit, st) := acc in
  let '(seqNum, uid) := su in
  match UpdateMessageMetadataFunc user mailbox uid (update_flags op flags) (db st) with
  | Err _ => (true, st)
  | Ok d =>
      let new := match rows_of user mailbox (db st) !! uid with Some meta => apply_flags op flags (Flags meta) | None => [] end in
      (limit, notify [FlagsChanged user mailbox uid seqNum new] (set_db (fun _ => d) st))
  end.

Definition StoreFlags user mailbox (seqSet : gostring) (flags : list gostring) (op : FlagOperation) st : option mstore_error * MStore :=
  match ParseSequenceSet seqSet with
  | Err e => (Some (ESet e), st)
  | Ok ranges =>
      let flags := normalizeStoreFlags flags in
      if too_many user mailbox st then (Some ETooManyMessages, st)
      else
      let '(limit, st) := foldl (store_one op flags user mailbox) (false, st) (selected_in ranges user mailbox st) in
      (if limit then Some ETooManyKeywords else None, st)
  end.

(** ** EXPUNGE *)
Definition deleted (meta : MessageMetadata) : bool := hasFlag (Flags meta) "\Deleted".
Definition notifyExpunged user mailbox (seqs : list Z) : MStore -> MStore := notify (map (Expunged user mailbox) (rev seqs)).

Record Removed := { rm_refs : list blobRef; rm_seqs : list Z; rm_uids : list Z }.
Definition expunge_one now user mailbox (acc : Removed * MStore) (su : Z * Z) : Removed * MStore :=
  let '(rm, st) := acc in
  let '(seq, uid) := su in
  let meta := GetMessageMetadata user mailbox uid (db st) in
  if deleted meta then
  ({| rm_refs := rm_refs rm ++ [ref_of meta]; rm_seqs := rm_seqs rm ++ [seq]; rm_uids := rm_uids rm ++ [uid] |},
    set_db (DeleteMessage now user mailbox uid) st)
  else acc.
Definition nothing_removed : Removed := {| rm_refs := []; rm_seqs := []; rm_uids := [] |}.

Definition ExpungeReport now user mailbox st : list Z * list Z * MStore :=
  let '(rm, st) := foldl (expunge_one now user mailbox) (nothing_removed, st) (numbered user mailbox st) in
  (rm_seqs rm, rm_uids rm, notifyExpunged user mailbox (rm_seqs rm) (releaseBlobs user (rm_refs rm) st)).

(** The sequence numbers of [ExpungeUIDs] are those before the first removal. *)
Definition ExpungeUIDs now user mailbox (uids : list Z) st : MStore :=
  let seqOf := list_to_map (map (fun '(seq, uid) => (uid, seq)) (numbered user mailbox st)) : gmap Z Z in
  let '(rm, st) := foldl (fun '(rm, st) uid =>
    let meta := GetMessageMetadata user mailbox uid (db st) in
    if deleted meta then
    ({| rm_refs := rm_refs rm ++ [ref_of meta]; rm_seqs := rm_seqs rm ++ from_option (fun s => [s]) [] (seqOf !! uid); rm_uids := rm_uids rm ++ [uid] |},
      set_db (DeleteMessage now user mailbox uid) st)
    else (rm, st)) (nothing_removed, st) uids in
  notifyExpunged user mailbox (merge_sort Z.le (rm_seqs rm)) (releaseBlobs user (rm_refs rm) st).

(** ** Headers of a message *)
Definition header_text (data : gostring) : gostring :=
  match Index data [byte_of 13; byte_of 10; byte_of 13; byte_of 10] with
  | Some i => take i data
  | None => match Index data [byte_of 10; byte_of 10] with Some i => take i data | None => data end
  end.

Fixpoint crlf_to_lf (s : gostring) : gostring :=
  match s with
  | a :: (b :: t) as r => if (a =c? byte_of 13) && (b =c? byte_of 10) then b :: crlf_to_lf t else a :: crlf_to_lf r
  | _ => s
  end.
Fixpoint drop_folds (s : gostring) : gostring :=
  match s with
  | a :: ((b :: _) as r) =>
      if (a =c? byte_of 10) && ((b =c? " ") || (b =c? byte_of 9)) then drop_folds r else a :: drop_folds r
  | _ => s
  end.
Definition unfoldHeaders (h : gostring) : gostring :=
  if ContainsAny h [byte_of 13; byte_of 10] then drop_folds (crlf_to_lf h) else h.
Definition header_lines (data : gostring) : list gostring :=
  map (fun l => TrimRight l [byte_of 13]) (Split (unfoldHeaders (header_text data)) (byte_of 10)).

Record BasicHeaders := { h_subject : gostring; h_from : gostring; h_to : gostring; h_date : gostring }.
Definition basic_line (h : BasicHeaders) (line : gostring) : BasicHeaders :=
  let lower := ToLower line in
  if HasPrefix lower "subject:" then {| h_subject := TrimSpace (drop 8 line); h_from := h_from h; h_to := h_to h; h_date := h_date h |}
  else if HasPrefix lower "from:" then {| h_subject := h_subject h; h_from := TrimSpace (drop 5 line); h_to := h_to h; h_date := h_date h |}
  else if HasPrefix lower "to:" then {| h_subject := h_subject h; h_from := h_from h; h_to := TrimSpace (drop 3 line); h_date := h_date h |}
  else if HasPrefix lower "date:" then {| h_subject := h_subject h; h_from := h_from h; h_to := h_to h; h_date := TrimSpace (drop 5 line) |}
  else h.
Definition parseMessageHeaders (data : gostring) : BasicHeaders :=
  foldl basic_line {| h_subject := []; h_from := []; h_to := []; h_date := [] |} (header_lines data).

Definition trim_angles (s : gostring) : gostring := TrimRight (TrimLeft s "<>") "<>".
Definition thread_line (acc : gostring * gostring * list gostring) (line : gostring) : gostring * gostring * list gostring :=
  let '(msgID, inReplyTo, references) := acc in
  let lower := ToLower line in
  if HasPrefix lower "message-id:" then (trim_angles (TrimSpace (drop 11 line)), inReplyTo, references)
  else if HasPrefix lower "in-reply-to:" then (msgID, trim_angles (TrimSpace (drop 12 line)), references)
  else if HasPrefix lower "references:" then
  (msgID, inReplyTo, references ++ List.filter (fun r => negb (bool_decide (r = []))) (map trim_angles (Fields (TrimSpace (drop 11 line)))))
  else acc.
Definition parseMessageHeadersExtended (data : gostring) : BasicHeaders * (gostring * gostring * list gostring) :=
  (parseMessageHeaders data, foldl thread_line ([], [], []) (header_lines data)).

(** ** APPEND *)
Definition new_meta (id : gostring) uid (flags : list gostring) (date : Z) (data threadID : gostring) (root : bool) : MessageMetadata :=
  let '(h, (_, inReplyTo, references)) := parseMessageHeadersExtended data in {|
    MessageID := id; UID := uid; Flags := if HasFlag flags "\Recent" then flags else flags ++ ["\Recent" : gostring];
    InternalDate := date; Size := Z.of_nat (length data); ModSeq := 0; Subject := h_subject h; Date := h_date h; From := h_from h; To := h_to h;
    InReplyTo := inReplyTo; References := references; ThreadID := threadID; IsThreadRoot := root |}.

(** From the blob to the row, under the lock of the user. *)
Definition append_locked (io : IO) now user mailbox (flags : list gostring) (date : Z) (data : gostring) st : result mstore_error (Z * MessageMetadata) * MStore :=
  match storeBlob (file_written io) now user data st with
  | (Err e, st) => (Err e, st)
  | (Ok messageID, st) =>
      let ref := [{| ref_id := messageID; ref_size := Z.of_nat (length data) |}] in
      match GetNextUID now user mailbox (db st) with
      | Err e => (Err (EDb e), releaseBlobsLocked user ref st)
      | Ok (uid, d) =>
          let st := set_db (fun _ => d) st in
          let '(h, (_, inReplyTo, references)) := parseMessageHeadersExtended data in
          let '(threadID, td) := GetOrCreateThreadID now user mailbox (h_subject h) inReplyTo references (db st) (tdb st) in
          let st := set_tdb (fun _ => td) st in
          let root := bool_decide (inReplyTo = []) && bool_decide (references = []) in
          let root := if negb root && negb (bool_decide (threadID = []))
          then bool_decide (GetThreadMessages user mailbox threadID (db st) = []) else root in
          let meta := new_meta messageID uid flags date data threadID root in
          if row_written io then (Ok (uid, meta), set_db (StoreMessageMetadata now user mailbox uid meta) st)
          else (Err ERowWrite, releaseBlobsLocked user ref st)
      end
  end.

Definition updateThreadInfo now user (meta : MessageMetadata) st : MStore :=
  match RecordMessageInThread now user (ThreadID meta) (Subject meta) (From meta) (InternalDate meta) (Flags meta) (tdb st) with
  | Some td => set_tdb (fun _ => td) st
  | None => st
  end.

Definition AppendMessageUID (io : IO) now user mailbox (flags : list gostring) (date : Z) (data : gostring) st : result mstore_error (Z * Z) * MStore :=
  match append_locked io now user mailbox flags date data st with
  | (Err e, st) => (Err e, st)
  | (Ok (uid, meta), st) =>
      let st := if bool_decide (ThreadID meta = []) then st else updateThreadInfo now user meta st in
      let n := Z.of_nat (length (GetMessageUIDs user mailbox (db st))) in
      if 2147483647 <? n then (Err ETooManyMessages, st)
      else (Ok (UIDValidity (GetMailbox user mailbox (db st)), uid), notify [NewMessage user mailbox uid n] st)
  end.

(** ** COPY and MOVE *)
Definition IsJunkMailbox (name : gostring) : bool := EqualFold name "Junk" || EqualFold name "Spam".
Definition JunkMoveVerdict (from to : gostring) : bool * bool :=
  if IsJunkMailbox to && negb (IsJunkMailbox from) then (true, true)
  else if IsJunkMailbox from && negb (IsJunkMailbox to) && negb (EqualFold to "Trash") then (false, true)
  else (false, false).

Record Copied := { cp_src : list Z; cp_dst : list Z; cp_refs : list blobRef }.
Definition nothing_copied : Copied := {| cp_src := []; cp_dst := []; cp_refs := [] |}.

Definition copied_meta (id : gostring) uid (meta : MessageMetadata) : MessageMetadata := {|
  MessageID := id; UID := uid; Flags := Flags meta; InternalDate := InternalDate meta; Size := Size meta; ModSeq := 0;
  Subject := Subject meta; Date := Date meta; From := From meta; To := To meta; InReplyTo := InReplyTo meta;
  References := References meta; ThreadID := ThreadID meta; IsThreadRoot := IsThreadRoot meta |}.

Definition copyOne (io : IO) now user (source dest : gostring) uid (cp : Copied) st : result mstore_error Copied * MStore :=
  let meta := GetMessageMetadata user source uid (db st) in
  match ReadMessage user (MessageID meta) (msgStore st) with
  | Err e => (Err (EStore e), st)
  | Ok data =>
      match GetNextUID now user dest (db st) with
      | Err e => (Err (EDb e), st)
      | Ok (newUID, d) =>
          match storeBlob (file_written io) now user data (set_db (fun _ => d) st) with
          | (Err e, st) => (Err e, st)
          | (Ok id, st) =>
              let ref := {| ref_id := id; ref_size := Z.of_nat (length data) |} in
              if row_written io then
              (Ok {| cp_src := cp_src cp ++ [uid]; cp_dst := cp_dst cp ++ [newUID]; cp_refs := cp_refs cp ++ [ref] |},
                set_db (StoreMessageMetadata now user dest newUID (copied_meta id newUID meta)) st)
              else (Err ERowWrite, releaseBlobsLocked user [ref] st)
          end
      end
  end.

(** Copies made before a failure are taken back. *)
Definition undo_copies now user (dest : gostring) (cp : Copied) st : MStore :=
  releaseBlobs user (cp_refs cp) (foldl (fun st uid => set_db (DeleteMessage now user dest uid) st) st (cp_dst cp)).

Fixpoint copy_all (io : Z -> IO) now user (source dest : gostring) (uids : list Z) (cp : Copied) st : result mstore_error Copied * MStore :=
  match uids with
  | [] => (Ok cp, st)
  | uid :: r =>
      match copyOne (io uid) now user source dest uid cp st with
      | (Ok cp, st) => copy_all io now user source dest r cp st
      | (Err e, st) => (Err e, undo_copies now user dest cp st)
      end
  end.

Definition CopyMessagesUIDs (io : Z -> IO) now user (source dest seqSet : gostring) st : result mstore_error (Z * list Z * list Z) * MStore :=
  match ParseSequenceSet seqSet with
  | Err e => (Err (ESet e), st)
  | Ok ranges =>
      if too_many user source st then (Err ETooManyMessages, st)
      else match copy_all io now user source dest (map snd (selected_in ranges user source st)) nothing_copied st with
      | (Err e, st) => (Err e, st)
      | (Ok cp, st) =>
          let '(isSpam, report) := JunkMoveVerdict source dest in
          let st := if report && junkReport then set_reported (fun l => l ++ map (fun r => (user, ref_id r, isSpam)) (cp_refs cp)) st else st in
          (Ok (UIDValidity (GetMailbox user dest (db st)), cp_src cp, cp_dst cp), st)
      end
  end.

(** The originals that were copied are flagged; [row_written] of the write. *)
Definition flag_moved now user (source : gostring) (row : Z -> bool) (acc : option mstore_error * MStore) uid : option mstore_error * MStore :=
  match acc with
  | (Some e, st) => (Some e, st)
  | (None, st) =>
      let meta := GetMessageMetadata user source uid (db st) in
      if deleted meta then (None, st)
      else if row uid then (None, set_db (StoreMessageMetadata now user source uid (with_flags (Flags meta ++ ["\Deleted" : gostring]) meta)) st)
      else (Some ERowWrite, st)
  end.

Definition MoveMessagesUIDs (io : Z -> IO) (row : Z -> bool) now user (source dest seqSet : gostring) st : result mstore_error (Z * list Z * list Z) * MStore :=
  match CopyMessagesUIDs io now user source dest seqSet st with
  | (Err e, st) => (Err e, st)
  | (Ok (validity, src, dst), st) =>
      match foldl (flag_moved now user source row) (None, st) src with
      | (Some e, st) => (Err e, st)
      | (None, st) => (Ok (validity, src, dst), st)
      end
  end.
End Store.
