(* ===== verification/ImapMatch.v ===== *)
(** * internal/imap: does a message match search criteria?

    [SearchCriteria] of types.go and [matchesCriteria] of mailstore.go with the
    decoders of search_decode.go: flags, sizes, dates, header fields and text.
    The struct's boolean, text and date fields are functions of an enumeration of
    their names.  A [None] of the model is a run-time panic: a slice of a string that
    is out of range.  What net/mail, mime, mime/multipart and
    mime/quotedprintable compute is the class [MimeStd]; times are nanoseconds since
    the Unix epoch, and a parsed date is an instant with its zone offset. *)
From S2P Require Import Prelude GoLib Utf8 Bolt ImapSeq Scram BlobStore MailDb Threads ImapStore.

Class MimeStd := {
  (** [mail.ReadMessage]: the lookup of a header field and the body. *)
  ReadMail : gostring -> option ((gostring -> gostring) * gostring);
  (** [mime.WordDecoder.DecodeHeader] with the given conversion of charsets. *)
  DecodeHeader : (gostring -> gostring -> option gostring) -> gostring -> option gostring;
  (** [mime.ParseMediaType]: the type, the lookup of a parameter. *)
  ParseMediaType : gostring -> option (gostring * (gostring -> gostring));
  (** The parts a multipart reader yields before an error: content type, transfer
      encoding and body. *)
  RawParts : gostring -> gostring -> list (gostring * gostring * gostring);
  (** What can be read of a base64 or quoted-printable stream. *)
  Base64Stream : gostring -> gostring;
  QuotedPrintable : gostring -> gostring;
  (** [mail.ParseDate] and [time.Parse] by layout: instant and zone offset. *)
  ParseDate : gostring -> option (Z * Z);
  ParseLayout : gostring -> gostring -> option (Z * Z)
}.

(** ** Criteria *)
Inductive SwitchKey :=
| KAll | KAnswered | KDeleted | KFlagged | KNew | KOld | KRecent | KSeen | KUnanswered | KUndeleted
| KUnflagged | KUnseen | KDraft | KUndraft.
Inductive TextKey := KFrom | KTo | KCc | KBcc | KSubject | KBody | KText.
Inductive DateKey := KBefore | KOn | KSince | KSentBefore | KSentOn | KSentSince.
#[export] Instance SwitchKey_eq : EqDecision SwitchKey.
Proof. solve_decision. Defined.
#[export] Instance TextKey_eq : EqDecision TextKey.
Proof. solve_decision. Defined.
#[export] Instance DateKey_eq : EqDecision DateKey.
Proof. solve_decision. Defined.

Inductive SearchCriteria := {
  switch : SwitchKey -> bool;
  recent : gset Z;
  Keyword : list gostring;
  Unkeyword : list gostring;
  SeqSet : gostring;
  UIDSet : gostring;
  text : TextKey -> gostring;
  Header : gmap gostring gostring;
  date : DateKey -> Z;
  Larger : option Z;               (* LargerSet and Larger *)
  Smaller : option Z;
  Not : option SearchCriteria;
  Or : option (SearchCriteria * SearchCriteria)
}.

Definition set_recent (r : gset Z) (c : SearchCriteria) : SearchCriteria := {|
  switch := switch c; recent := r; Keyword := Keyword c; Unkeyword := Unkeyword c; SeqSet := SeqSet c; UIDSet := UIDSet c;
  text := text c; Header := Header c; date := date c; Larger := Larger c; Smaller := Smaller c; Not := Not c; Or := Or c |}.
Definition set_SeqSet (s : gostring) (c : SearchCriteria) : SearchCriteria := {|
  switch := switch c; recent := recent c; Keyword := Keyword c; Unkeyword := Unkeyword c; SeqSet := s; UIDSet := UIDSet c;
  text := text c; Header := Header c; date := date c; Larger := Larger c; Smaller := Smaller c; Not := Not c; Or := Or c |}.

Definition blank (s : gostring) : bool := bool_decide (s = []).
Definition day : Z := 24 * hour.
Definition midnight (t zone : Z) : Z := (t + zone) / day * day - zone.
Definition civil_midnight (t zone : Z) : Z := (t + zone) / day * day.
Definition IsZero (t : Z) : bool := t =? zero_time.

(** ** Decoding *)
Definition latin5Diff (c : ascii) : option Z :=
  if bz c =? 208 then Some 286 else if bz c =? 221 then Some 304 else if bz c =? 222 then Some 350
  else if bz c =? 240 then Some 287 else if bz c =? 253 then Some 305 else if bz c =? 254 then Some 351 else None.

Section Match.
Context {U : UnicodeTables} {M : MimeStd}.
(** The zone stored with the internal date of a row. *)
Context (zone : MessageMetadata -> Z).
(** The order in which Go walks the map of header keys. *)
Context (walk : gmap gostring gostring -> list (gostring * gostring)).

Definition charsetToUTF8 (charset data : gostring) : option gostring :=
  let cs := ToLower charset in
  if bool_decide (cs ∈ [[] : gostring; "utf-8" : gostring; "utf8" : gostring; "us-ascii" : gostring; "ascii" : gostring])
  then if valid_utf8 data then Some data else None
  else if bool_decide (cs ∈ ["iso-8859-1" : gostring; "latin1" : gostring; "windows-1252" : gostring; "iso-8859-9" : gostring;
    "windows-1254" : gostring; "latin5" : gostring])
  then let turkish := HasSuffix cs "9" || HasSuffix cs "1254" || EqualFold charset "latin5" in
  Some (concat (map (fun c => match latin5Diff c with
  | Some r => if turkish then encode_rune r else encode_rune (bz c)
  | None => encode_rune (bz c)
  end) data))
  else None.

Definition decodeEncodedWords (v : gostring) : gostring := default v (DecodeHeader charsetToUTF8 v).

Definition headerContains (value key : gostring) : bool :=
  let lk := ToLower key in
  GoLib.Contains (ToLower value) lk ||
  (GoLib.Contains value "=?" && GoLib.Contains (ToLower (decodeEncodedWords value)) lk).

Definition decodedHeaderText (msg : gostring) : gostring := decodeEncodedWords (unfoldHeaders (header_text msg)).

Definition read_limit : Z := Z.shiftl 16 20.
Definition is_ws (c : ascii) : bool := in_set [byte_of 13; byte_of 10; byte_of 32; byte_of 9] c.
Definition stripWS (s : gostring) : gostring := List.filter (fun c => negb (is_ws c)) s.

(** The text of a leaf, appended to what was collected. *)
Definition leaf_text (mt : gostring) (params : gostring -> gostring) (ctype cte body out : gostring) : gostring :=
  if negb (HasPrefix mt "text/") && negb (bool_decide (ctype = [])) then out
  else let enc := ToLower (TrimSpace cte) in
  let r := if enc =s? "base64" then Base64Stream (stripWS body)
  else if enc =s? "quoted-printable" then QuotedPrintable body else body in
  match charsetToUTF8 (params "charset") (firstn (Z.to_nat read_limit) r) with
  | Some s => out ++ s ++ [byte_of 10]
  | None => out
  end.

(** Nesting ends below ten levels, so the depth left is the fuel. *)
Fixpoint collectText (levels : nat) (ctype cte body out : gostring) : gostring :=
  match levels with
  | O => out
  | S levels =>
      if read_limit <? Z.of_nat (length out) then out
      else let '(mt, params) := default ("text/plain" : gostring, fun _ => []) (ParseMediaType ctype) in
      if HasPrefix mt "multipart/" && negb (bool_decide (params "boundary" = []))
      then foldl (fun out '(ct, ce, b) => collectText levels ct ce b out) out (RawParts (params "boundary") body)
      else leaf_text mt params ctype cte body out
  end.

Definition decodedBodyText (msg : gostring) : gostring :=
  match ReadMail msg with
  | None => []
  | Some (get, body) => collectText 11 (get "Content-Type") (get "Content-Transfer-Encoding") body []
  end.

Definition parseMessageDate (dateStr : gostring) : option (Z * Z) :=
  let attempt layout (k : option (Z * Z)) := match ParseLayout layout dateStr with Some t => Some t | None => k end in
  match ParseDate dateStr with
  | Some t => Some t
  | None =>
      attempt "Mon, 02 Jan 2006 15:04:05 -0700" (attempt "Mon, 02 Jan 2006 15:04:05" (attempt "Mon, 02 Jan 2006"
        (attempt "02 Jan 2006 15:04:05 -0700" (ParseLayout "02-Jan-2006" dateStr))))
  end.

(** ** The keys one by one *)
Definition is_recent (recent : gset Z) (meta : MessageMetadata) : bool :=
  hasFlag (Flags meta) "\Recent" || bool_decide (UID meta ∈ recent).

Definition switch_holds (recent : gset Z) (meta : MessageMetadata) (k : SwitchKey) : bool :=
  match k with
  | KAll => true
  | KAnswered => hasFlag (Flags meta) "\Answered"
  | KDeleted => hasFlag (Flags meta) "\Deleted"
  | KFlagged => hasFlag (Flags meta) "\Flagged"
  | KSeen => hasFlag (Flags meta) "\Seen"
  | KDraft => hasFlag (Flags meta) "\Draft"
  | KUnanswered => negb (hasFlag (Flags meta) "\Answered")
  | KUndeleted => negb (hasFlag (Flags meta) "\Deleted")
  | KUnflagged => negb (hasFlag (Flags meta) "\Flagged")
  | KUnseen => negb (hasFlag (Flags meta) "\Seen")
  | KUndraft => negb (hasFlag (Flags meta) "\Draft")
  | KNew => is_recent recent meta && negb (hasFlag (Flags meta) "\Seen")
  | KOld => negb (is_recent recent meta)
  | KRecent => is_recent recent meta
  end.

(** A date key, with the argument at midnight UTC. *)
Definition date_holds (meta : MessageMetadata) (k : DateKey) (t : Z) : bool :=
  let sent f := match parseMessageDate (Date meta) with
  | Some (at_, off) => f (civil_midnight at_ off)
  | None => false
  end in
  match k with
  | KBefore => InternalDate meta <? t
  | KSince => t <=? InternalDate meta
  | KOn => midnight (InternalDate meta) (zone meta) =? midnight t 0
  | KSentBefore => sent (fun d => d <? civil_midnight t 0)
  | KSentOn => sent (fun d => d =? civil_midnight t 0)
  | KSentSince => sent (fun d => civil_midnight t 0 <=? d)
  end.

(** CC, BCC, BODY and TEXT look at the message itself; the argument is not empty. *)
Definition body_of (msgStr : gostring) : gostring :=
  match Index msgStr [byte_of 13; byte_of 10; byte_of 13; byte_of 10] with
  | Some i => skipn i msgStr
  | None => match Index msgStr [byte_of 10; byte_of 10] with Some i => skipn i msgStr | None => msgStr end
  end.
Definition content_holds (msgData : gostring) (k : TextKey) (v : gostring) : bool :=
  let msgStr := ToLower msgData in
  match k with
  | KCc => match ReadMail msgData with Some (get, _) => headerContains (get "Cc") v | None => false end
  | KBcc => false
  | KBody => GoLib.Contains (body_of msgStr) (ToLower v) || GoLib.Contains (ToLower (decodedBodyText msgData)) (ToLower v)
  | KText => GoLib.Contains msgStr (ToLower v) ||
      GoLib.Contains (ToLower (decodedHeaderText msgData ++ byte_of 10 :: decodedBodyText msgData)) (ToLower v)
  | _ => true
  end.
Definition meta_holds (meta : MessageMetadata) (k : TextKey) (v : gostring) : bool :=
  match k with
  | KFrom => headerContains (From meta) v
  | KTo => headerContains (To meta) v
  | KSubject => headerContains (Subject meta) v
  | _ => true
  end.
Definition is_content (k : TextKey) : bool := match k with KCc | KBcc | KBody | KText => true | _ => false end.

(** The value the code takes for a header line: where the line was found behind a
    line end, the count starts at the line end. *)
Definition field_index (msgStr headerLine : gostring) : option nat :=
  match Index msgStr (byte_of 13 :: byte_of 10 :: headerLine) with
  | Some i => Some i
  | None => match Index msgStr (byte_of 10 :: headerLine) with Some i => Some i | None => Index msgStr headerLine end
  end.
Definition header_holds (msgData headerName headerValue : gostring) : option bool :=
  let msgStr := ToLower msgData in
  let headerLine := ToLower headerName ++ ":" in
  match field_index msgStr headerLine with
  | None => Some false
  | Some headerIdx =>
      let rest := skipn (headerIdx + length headerLine) msgStr in
      let lineEnd := match Index rest [byte_of 13; byte_of 10] with
      | Some i => i
      | None => match Index rest [byte_of 10] with Some i => i | None => length msgStr end
      end in
      if (length rest <? lineEnd)%nat then None
      else let headerVal := TrimSpace (firstn lineEnd rest) in
      Some (GoLib.Contains headerVal (ToLower headerValue) || headerContains (decodeEncodedWords headerVal) headerValue)
  end.

Fixpoint headers_hold (msgData : gostring) (hs : list (gostring * gostring)) : option bool :=
  match hs with
  | [] => Some true
  | (n, v) :: r =>
      match header_holds msgData n v with
      | Some true => headers_hold msgData r
      | other => other
      end
  end.

(** ** All keys of the criteria *)
Definition switches : list SwitchKey :=
  [KAll; KAnswered; KDeleted; KFlagged; KSeen; KUnanswered; KUndeleted; KUnflagged; KUnseen; KNew; KOld; KRecent; KDraft; KUndraft].
Definition text_keys : list TextKey := [KFrom; KTo; KSubject; KCc; KBcc; KBody; KText].
Definition date_keys : list DateKey := [KBefore; KOn; KSince; KSentBefore; KSentOn; KSentSince].

Definition own_keys_hold (meta : MessageMetadata) (c : SearchCriteria) : bool :=
  forallb (fun k => implb (switch c k) (switch_holds (recent c) meta k)) switches
  && forallb (fun k => hasFlag (Flags meta) k) (Keyword c)
  && forallb (fun k => negb (hasFlag (Flags meta) k)) (Unkeyword c)
  && forallb (fun k => blank (text c k) || meta_holds meta k (text c k)) text_keys
  && match Larger c with Some n => n <? Size meta | None => true end
  && match Smaller c with Some n => Size meta <? n | None => true end
  && forallb (fun k => IsZero (date c k) || date_holds meta k (date c k)) date_keys.

Definition content_keys_hold (msgData : gostring) (c : SearchCriteria) : option bool :=
  if forallb (fun k => blank (text c k) || content_holds msgData k (text c k)) text_keys
  then headers_hold msgData (walk (Header c)) else Some false.

Definition andthen (a : option bool) (b : option bool) : option bool :=
  match a with Some true => b | other => other end.

Fixpoint matchesCriteria (meta : MessageMetadata) (msgData : option gostring) (r : gset Z) (criteria : SearchCriteria) : option bool :=
  let c := set_recent r criteria in
  andthen match Not criteria with
  | Some n => negb <$> matchesCriteria meta msgData r n
  | None => Some true
  end
  (andthen match Or criteria with
  | Some (a, b) => match matchesCriteria meta msgData r a with
  | Some false => matchesCriteria meta msgData r b
  | other => other
  end
  | None => Some true
  end
    (if own_keys_hold meta c then
      match msgData with Some data => content_keys_hold data c | None => Some true end
      else Some false)).
End Match.
