(* ===== verification/ImapSearch.v ===== *)
(** * internal/imap: the SEARCH command

    Tokens, the parser of search programs with its limits, and the evaluation of a
    program over the session's view of the mailbox (commands.go; SearchMessages of
    mailstore.go).  Positions in the token list are the tokens that are left. *)
From S2P Require Import Prelude GoLib Utf8 Bolt ImapSeq ImapNames Scram BlobStore MailDb Threads ImapStore ImapMatch.

(** ** Tokens *)
Record imapToken := { val : gostring; quoted : bool }.

Fixpoint read_quoted (s : gostring) (acc : gostring) : gostring * gostring :=
  match s with
  | [] => (acc, [])
  | c :: r =>
      if c =c? byte_of 34 then (acc, r)
      else if c =c? "\" then match r with
        | d :: r' => read_quoted r' (acc ++ [d])
        | [] => (acc ++ [c], [])
        end
      else read_quoted r (acc ++ [c])
  end.
Definition is_delim (c : ascii) : bool := in_set [byte_of 32; byte_of 9; byte_of 40; byte_of 41; byte_of 34] c.
Fixpoint read_atom (s : gostring) : gostring * gostring :=
  match s with
  | [] => ([], [])
  | c :: r => if is_delim c then ([], s) else let '(a, t) := read_atom r in (c :: a, t)
  end.

(** Every token takes an octet, so the length of the text is fuel enough. *)
Fixpoint tokenize_go (fuel : nat) (s : gostring) : list imapToken :=
  match fuel, s with
  | S n, c :: r =>
      if (c =c? " ") || (c =c? byte_of 9) then tokenize_go n r
      else if (c =c? "(") || (c =c? ")") then {| val := [c]; quoted := false |} :: tokenize_go n r
      else if c =c? byte_of 34 then
        let '(v, t) := read_quoted r [] in {| val := v; quoted := true |} :: tokenize_go n t
      else let '(v, t) := read_atom s in {| val := v; quoted := false |} :: tokenize_go n t
  | _, _ => []
  end.
Definition tokenizeIMAPArgs (s : gostring) : list imapToken := tokenize_go (length s) s.

(** The text behind the first [n] fields of a line. *)
Fixpoint after_fields (line : gostring) (fields : list gostring) (n : nat) : gostring :=
  match n, fields with
  | S n, f :: fs => after_fields (skipn (default 0%nat (Index line f) + length f) line) fs n
  | _, _ => line
  end.
Section Search.
Context {U : UnicodeTables} {M : MimeStd} {NM : NetMail}.
Implicit Types (toks : list imapToken).

Definition commandArgTokens (args : list gostring) (line cmd : gostring) : list imapToken :=
  let fields := Fields line in
  let is_cmd n := match fields !! n with Some f => EqualFold f cmd | None => false end in
  if is_cmd 1%nat then tokenizeIMAPArgs (after_fields line fields 2)
  else if is_cmd 2%nat then tokenizeIMAPArgs (after_fields line fields 3)
  else tokenizeIMAPArgs (Join args " ").

(** ** Dates: [time.Parse] with the layout 2-Jan-2006 *)
Definition months : list gostring :=
  ["jan" : gostring; "feb" : gostring; "mar" : gostring; "apr" : gostring; "may" : gostring; "jun" : gostring;
    "jul" : gostring; "aug" : gostring; "sep" : gostring; "oct" : gostring; "nov" : gostring; "dec" : gostring].
Definition month_days : list Z := [31; 28; 31; 30; 31; 30; 31; 31; 30; 31; 30; 31].
Definition leap (y : Z) : bool := (y mod 4 =? 0) && (negb (y mod 100 =? 0) || (y mod 400 =? 0)).
Definition daysIn (m : nat) (y : Z) : Z := if (m =? 1)%nat && leap y then 29 else nth m month_days 0.
(** Days since 1 January 1970. *)
Definition civil_day (y : Z) (m : nat) (d : Z) : Z :=
  let y' := y - 1 in
  365 * y' + y' / 4 - y' / 100 + y' / 400
  + foldr Z.add 0 (map (fun i => daysIn i y) (seq 0 m)) + (d - 1) - 719162.

Definition take_day (s : gostring) : option (Z * gostring) :=
  match s with
  | a :: b :: r => if is_digit a then
      if is_digit b then Some (10 * (bz a - 48) + (bz b - 48), r) else Some (bz a - 48, b :: r) else None
  | [a] => if is_digit a then Some (bz a - 48, []) else None
  | [] => None
  end.
Definition take_dash (s : gostring) : option gostring :=
  match s with c :: r => if c =c? "-" then Some r else None | [] => None end.
Definition take_month (s : gostring) : option (nat * gostring) :=
  if (length s <? 3)%nat then None
  else i ← list_find (fun m => map ascii_lower (firstn 3 s) = m) months; Some (i.1, skipn 3 s).
Definition parseIMAPDate (dateStr : gostring) : option Z :=
  '(d, s) ← take_day dateStr;
  s ← take_dash s;
  '(m, s) ← take_month s;
  s ← take_dash s;
  if negb (length s =? 4)%nat || negb (forallb is_digit s) then None
  else y ← digits_val 0 s;
  if (1 <=? d) && (d <=? daysIn m y) then Some (civil_day y m d * day) else None.

(** ** Keys *)
Definition isSequenceSetToken (tok : gostring) : bool :=
  negb (bool_decide (tok = [])) && bool_decide (TrimRight (TrimLeft tok "0123456789:,*") "0123456789:,*" = [])
  && is_ok (ParseSequenceSet tok).

Definition switch_key (k : gostring) : option SwitchKey :=
  if k =s? "ALL" then Some KAll else if k =s? "ANSWERED" then Some KAnswered else if k =s? "DELETED" then Some KDeleted
  else if k =s? "FLAGGED" then Some KFlagged else if k =s? "NEW" then Some KNew else if k =s? "OLD" then Some KOld
  else if k =s? "RECENT" then Some KRecent else if k =s? "SEEN" then Some KSeen
  else if k =s? "UNANSWERED" then Some KUnanswered else if k =s? "UNDELETED" then Some KUndeleted
  else if k =s? "UNFLAGGED" then Some KUnflagged else if k =s? "UNSEEN" then Some KUnseen
  else if k =s? "DRAFT" then Some KDraft else if k =s? "UNDRAFT" then Some KUndraft else None.
Definition text_key (k : gostring) : option TextKey :=
  if k =s? "FROM" then Some KFrom else if k =s? "SUBJECT" then Some KSubject else if k =s? "TO" then Some KTo
  else if k =s? "CC" then Some KCc else if k =s? "BCC" then Some KBcc else if k =s? "BODY" then Some KBody
  else if k =s? "TEXT" then Some KText else None.
Definition date_key (k : gostring) : option DateKey :=
  if k =s? "BEFORE" then Some KBefore else if k =s? "ON" then Some KOn else if k =s? "SINCE" then Some KSince
  else if k =s? "SENTBEFORE" then Some KSentBefore else if k =s? "SENTON" then Some KSentOn
  else if k =s? "SENTSINCE" then Some KSentSince else None.

Definition all_criteria : SearchCriteria := {|
  switch := fun k => bool_decide (k = KAll); recent := ∅; Keyword := []; Unkeyword := []; SeqSet := []; UIDSet := [];
  text := fun _ => []; Header := ∅; date := fun _ => zero_time; Larger := None; Smaller := None; Not := None; Or := None |}.

Definition upd {A B} `{EqDecision A} (f : A -> B) (a : A) (b : B) : A -> B := fun x => if bool_decide (x = a) then b else f x.
Definition set_switch k (c : SearchCriteria) : SearchCriteria := {|
  switch := upd (switch c) k true; recent := recent c; Keyword := Keyword c; Unkeyword := Unkeyword c; SeqSet := SeqSet c;
  UIDSet := UIDSet c; text := text c; Header := Header c; date := date c; Larger := Larger c; Smaller := Smaller c;
  Not := Not c; Or := Or c |}.
Definition set_text k v (c : SearchCriteria) : SearchCriteria := {|
  switch := switch c; recent := recent c; Keyword := Keyword c; Unkeyword := Unkeyword c; SeqSet := SeqSet c;
  UIDSet := UIDSet c; text := upd (text c) k v; Header := Header c; date := date c; Larger := Larger c; Smaller := Smaller c;
  Not := Not c; Or := Or c |}.
Definition set_date k t (c : SearchCriteria) : SearchCriteria := {|
  switch := switch c; recent := recent c; Keyword := Keyword c; Unkeyword := Unkeyword c; SeqSet := SeqSet c;
  UIDSet := UIDSet c; text := text c; Header := Header c; date := upd (date c) k t; Larger := Larger c; Smaller := Smaller c;
  Not := Not c; Or := Or c |}.
Definition set_lists kw unkw (c : SearchCriteria) : SearchCriteria := {|
  switch := switch c; recent := recent c; Keyword := Keyword c ++ kw; Unkeyword := Unkeyword c ++ unkw; SeqSet := SeqSet c;
  UIDSet := UIDSet c; text := text c; Header := Header c; date := date c; Larger := Larger c; Smaller := Smaller c;
  Not := Not c; Or := Or c |}.
Definition set_UIDSet s (c : SearchCriteria) : SearchCriteria := {|
  switch := switch c; recent := recent c; Keyword := Keyword c; Unkeyword := Unkeyword c; SeqSet := SeqSet c;
  UIDSet := s; text := text c; Header := Header c; date := date c; Larger := Larger c; Smaller := Smaller c;
  Not := Not c; Or := Or c |}.
Definition set_Header n v (c : SearchCriteria) : SearchCriteria := {|
  switch := switch c; recent := recent c; Keyword := Keyword c; Unkeyword := Unkeyword c; SeqSet := SeqSet c;
  UIDSet := UIDSet c; text := text c; Header := <[n := v]> (Header c); date := date c; Larger := Larger c; Smaller := Smaller c;
  Not := Not c; Or := Or c |}.
Definition set_sizes l s (c : SearchCriteria) : SearchCriteria := {|
  switch := switch c; recent := recent c; Keyword := Keyword c; Unkeyword := Unkeyword c; SeqSet := SeqSet c;
  UIDSet := UIDSet c; text := text c; Header := Header c; date := date c; Larger := l; Smaller := s;
  Not := Not c; Or := Or c |}.

(** The key at the head of [args]: the new criteria and the number of arguments it
    took. *)
Definition parseSearchKey (c : SearchCriteria) (args : list gostring) : SearchCriteria * nat :=
  match args with
  | [] => (c, 0%nat)
  | a0 :: rest =>
      let arg := ToUpper a0 in
      let one f := match rest with v :: _ => (f v, 1%nat) | [] => (c, 0%nat) end in
      match switch_key arg, text_key arg, date_key arg with
      | Some k, _, _ => (set_switch k c, 0%nat)
      | _, Some k, _ => one (fun v => set_text k v c)
      | _, _, Some k => one (fun v => match parseIMAPDate v with Some t => set_date k t c | None => c end)
      | None, None, None =>
          if arg =s? "KEYWORD" then one (fun v => set_lists [v] [] c)
          else if arg =s? "UNKEYWORD" then one (fun v => set_lists [] [v] c)
          else if arg =s? "UID" then one (fun v => set_UIDSet v c)
          else if arg =s? "HEADER" then match rest with n :: v :: _ => (set_Header n v c, 2%nat) | _ => (c, 0%nat) end
          else if arg =s? "LARGER" then one (fun v => match ParseInt v with Ok n => set_sizes (Some n) (Smaller c) c | Err _ => c end)
          else if arg =s? "SMALLER" then one (fun v => match ParseInt v with Ok n => set_sizes (Larger c) (Some n) c | Err _ => c end)
          else if isSequenceSetToken arg then (set_SeqSet arg c, 0%nat)
          else (c, 0%nat)
      end
  end.

Fixpoint parse_criteria (fuel : nat) (c : SearchCriteria) (args : list gostring) : SearchCriteria :=
  match fuel, args with
  | S n, _ :: _ => let '(c, k) := parseSearchKey c args in parse_criteria n c (skipn (S k) args)
  | _, _ => c
  end.
Definition parseSearchCriteria (args : list gostring) : SearchCriteria := parse_criteria (length args) all_criteria args.

Definition searchKeyArity (key : gostring) : option nat :=
  match switch_key key, text_key key, date_key key with
  | Some _, _, _ => Some 0%nat
  | _, Some _, _ | _, _, Some _ => Some 1%nat
  | None, None, None =>
      if bool_decide (key ∈ ["KEYWORD" : gostring; "UNKEYWORD" : gostring; "UID" : gostring; "LARGER" : gostring; "SMALLER" : gostring])
      then Some 1%nat else if key =s? "HEADER" then Some 2%nat else None
  end.

Inductive search_error :=
  | EUnknownKey (k : gostring) | EMissingArgument (k : gostring) | EInvalidDate (s : gostring) | EInvalidSize (s : gostring)
  | EUnbalanced | EMissingKey | ETooComplex | EBadCharset | EUnexpected (s : gostring) | EFuel.

Definition checkSearchKey (vals : list gostring) : option search_error :=
  match vals with
  | [] => None
  | v0 :: rest =>
      let key := ToUpper v0 in
      match searchKeyArity key with
      | None => if isSequenceSetToken v0 then None else Some (EUnknownKey v0)
      | Some arity =>
          if (length vals <? arity + 1)%nat then Some (EMissingArgument v0)
          else match rest with
          | [] => None
          | v1 :: _ =>
              match date_key key with
              | Some _ => match parseIMAPDate v1 with Some _ => None | None => Some (EInvalidDate v1) end
              | None =>
                  if (key =s? "LARGER") || (key =s? "SMALLER") then
                  match ParseInt v1 with
                  | Ok n => if n <? 0 then Some (EInvalidSize v1) else None
                  | Err _ => Some (EInvalidSize v1)
                  end
                  else None
              end
          end
      end
  end.

Definition searchKeyID (vals : list gostring) : gostring :=
  match vals with
  | [] => []
  | v0 :: rest =>
      let key := ToUpper v0 in
      if key =s? "HEADER" then "HEADER:" ++ ToLower (match rest with v :: _ => v | [] => [] end)
      else match text_key key, date_key key with
      | Some _, _ | _, Some _ => key
      | None, None =>
          if bool_decide (key ∈ ["UID" : gostring; "LARGER" : gostring; "SMALLER" : gostring]) then key
          else match searchKeyArity key with None => "SEQSET" | Some _ => [] end
      end
  end.

(** ** Programs *)
Inductive searchExpr : Type := SearchExpr (flat : SearchCriteria) (terms : list searchTerm)
  with searchTerm : Type := TNot (e : searchExpr) | TOr (a b : searchExpr) | TSub (e : searchExpr).
Definition flat (e : searchExpr) : SearchCriteria := match e with SearchExpr c _ => c end.
Definition terms (e : searchExpr) : list searchTerm := match e with SearchExpr _ l => l end.

Definition maxSearchDepth : nat := 64.
Definition maxSearchNodes : nat := 256.

Definition is_open (t : imapToken) : bool := negb (quoted t) && (val t =s? "(").
Definition is_close (t : imapToken) : bool := negb (quoted t) && (val t =s? ")").
Definition is_word (w : gostring) (t : imapToken) : bool := negb (quoted t) && EqualFold (val t) w.

Fixpoint plain_args (n : nat) toks : list gostring :=
  match n, toks with
  | S n, t :: r => if is_open t || is_close t then [] else val t :: plain_args n r
  | _, _ => []
  end.
Definition plainKeyArgs toks : list gostring := plain_args 3 toks.

(** [enter] of the limits: [depth] is that of the caller, [nodes] the count so far. *)
Definition enter (depth nodes : nat) : option search_error :=
  if (maxSearchDepth <? S depth)%nat || (maxSearchNodes <? S nodes)%nat then Some ETooComplex else None.

(** A plain key joins [flat] unless its slot is taken; then it is a term. *)
Definition add_plain (e : searchExpr) (used : gset gostring) (vals : list gostring) : searchExpr * gset gostring * nat :=
  let id := searchKeyID vals in
  if bool_decide (id = []) then
  let '(c, k) := parseSearchKey (flat e) vals in (SearchExpr c (terms e), used, k)
  else if bool_decide (id ∈ used) then
  let '(c, k) := parseSearchKey all_criteria vals in (SearchExpr (flat e) (terms e ++ [TSub (SearchExpr c [])]), used, k)
  else let '(c, k) := parseSearchKey (flat e) vals in (SearchExpr c (terms e), {[id]} ∪ used, k).

Definition parsed : Type := result search_error (searchExpr * list imapToken * nat).

Fixpoint parseSearchOne (fuel : nat) (depth nodes : nat) toks : parsed :=
  match fuel with
  | O => Err EFuel
  | S n =>
      match enter depth nodes with
      | Some e => Err e
      | None =>
          match toks with
          | [] => Err EMissingKey
          | t :: r =>
              if is_open t then parseSearchSeq n (S depth) (S nodes) true r
              else if is_word "NOT" t then
              let* (x, r, nodes) := parseSearchOne n (S depth) (S nodes) r in
              Ok (SearchExpr all_criteria [TNot x], r, nodes)
              else if is_word "OR" t then
              let* (a, r, nodes) := parseSearchOne n (S depth) (S nodes) r in
              let* (b, r, nodes) := parseSearchOne n (S depth) nodes r in
              Ok (SearchExpr all_criteria [TOr a b], r, nodes)
              else if is_close t then Err EMissingKey
              else let vals := plainKeyArgs toks in
              match checkSearchKey vals with
              | Some e => Err e
              | None => let '(c, k) := parseSearchKey all_criteria vals in
                  Ok (SearchExpr c [], skipn (S k) toks, S nodes)
              end
          end
      end
  end
  with parseSearchSeq (fuel : nat) (depth nodes : nat) (inGroup : bool) toks : parsed :=
  match fuel with
  | O => Err EFuel
  | S n =>
      match enter depth nodes with
      | Some e => Err e
      | None => seq_loop n (S depth) (S nodes) inGroup (SearchExpr all_criteria []) ∅ toks
      end
  end
  with seq_loop (fuel : nat) (depth nodes : nat) (inGroup : bool) (e : searchExpr) (used : gset gostring) toks : parsed :=
  match fuel with
  | O => Err EFuel
  | S n =>
      match toks with
      | [] => if inGroup then Err EUnbalanced else Ok (e, [], nodes)
      | t :: r =>
          if is_close t then (if inGroup then Ok (e, r, nodes) else Err EUnbalanced)
          else if is_open t || is_word "NOT" t || is_word "OR" t then
          let* (sub, r, nodes) := parseSearchOne n depth nodes toks in
          seq_loop n depth nodes inGroup (SearchExpr (flat e) (terms e ++ [TSub sub])) used r
          else let vals := plainKeyArgs toks in
          match checkSearchKey vals with
          | Some err => Err err
          | None => let '(e, used, k) := add_plain e used vals in
              seq_loop n depth nodes inGroup e used (skipn (S k) toks)
          end
      end
  end.

Definition searchCharsetSupported (cs : gostring) : bool := bool_decide (ToUpper cs ∈ ["UTF-8" : gostring; "US-ASCII" : gostring]).

(** Each call takes a token or goes one level down without one, at most three times
    in a row. *)
Definition search_fuel toks : nat := 3 * length toks + 3.
Definition parseSearchProgram toks : result search_error searchExpr :=
  let run toks := let* (e, rest, _) := parseSearchSeq (search_fuel toks) 0 0 false toks in
  match rest with [] => Ok e | t :: _ => Err (EUnexpected (val t)) end in
  match toks with
  | t :: cs :: r => if is_word "CHARSET" t then if searchCharsetSupported (val cs) then run r else Err EBadCharset else run toks
  | _ => run toks
  end.

(** ** Evaluation *)
Context (zone : MessageMetadata -> Z) (walk : gmap gostring gostring -> list (gostring * gostring)).
Implicit Types (st : MStore) (user mailbox : gostring).

Inductive search_fault := FView (e : view_error) | FSet (e : seq_error) | FPanic.

Definition needs_content (c : SearchCriteria) : bool :=
  existsb (fun k => is_content k && negb (blank (text c k))) text_keys || negb (bool_decide (Header c = ∅)).

(** One message of the scan: [None] is a panic. *)
Definition scan_one user mailbox (c : SearchCriteria) (seqRanges uidRanges : list SeqRange) (maxSeq maxUID : Z) st (su : Z * Z) : option bool :=
  let '(seqNum, uid) := su in
  if negb (blank (SeqSet c)) && negb (inSeqRanges seqRanges seqNum maxSeq) then Some false
  else if negb (blank (UIDSet c)) && negb (inSeqRanges uidRanges uid maxUID) then Some false
  else let meta := GetMessageMetadata user mailbox uid (db st) in
  if needs_content c then
  match BlobStore.ReadMessage user (MessageID meta) (msgStore st) with
  | Err _ => Some false
  | Ok data => matchesCriteria zone walk meta (Some data) (recent c) c
  end
  else matchesCriteria zone walk meta None (recent c) c.

Fixpoint scan (f : Z * Z -> option bool) (l : list (Z * Z)) : result search_fault (list Z) :=
  match l with
  | [] => Ok []
  | su :: r =>
      match f su with
      | None => Err FPanic
      | Some b => let* rest := scan f r in Ok (if b then su.1 :: rest else rest)
      end
  end.

Definition SearchMessages user mailbox (c : SearchCriteria) st : result search_fault (list Z) :=
  let uids := GetMessageUIDs user mailbox (db st) in
  match ParseSequenceSet (SeqSet c), ParseSequenceSet (UIDSet c) with
  | Err e, _ | _, Err e => Err (FSet e)
  | Ok seqRanges, Ok uidRanges =>
      scan (scan_one user mailbox c seqRanges uidRanges (wrap_u32 (Z.of_nat (length uids))) (foldr Z.max 0 uids) st)
      (numbered_from 1 uids)
  end.

Definition seqFilter (nums set : list Z) (keep : bool) : list Z :=
  List.filter (fun n => Bool.eqb (bool_decide (n ∈ set)) keep) nums.

Definition eval_flat (s : Session) (recentUIDs : gset Z) user mailbox (c : SearchCriteria) st : result search_fault (option (list Z)) :=
  let run c := let* l := SearchMessages user mailbox (set_recent recentUIDs c) st in Ok (Some l) in
  if snapOn s && negb (blank (SeqSet c)) then
  match seqToLive s (Some (GetMessageUIDs user mailbox (db st))) (SeqSet c) with
  | Err e => Err (FView e)
  | Ok live => if bool_decide (live = []) then Ok None else run (set_SeqSet live c)
  end
  else run c.

(** Every term narrows what is left, until nothing is. *)
Definition and_terms (narrow : searchTerm -> list Z -> result search_fault (list Z)) : list Z -> list searchTerm -> result search_fault (list Z) :=
  fix go base ts :=
  match ts with
  | [] => Ok base
  | t :: ts => if bool_decide (base = []) then Ok base else let* base := narrow t base in go base ts
  end.

Fixpoint evalSearch (s : Session) (recentUIDs : gset Z) user mailbox st (e : searchExpr) {struct e} : result search_fault (list Z) :=
  match e with
  | SearchExpr c ts =>
      let* base := eval_flat s recentUIDs user mailbox c st in
      match base with
      | None => Ok []
      | Some base =>
          and_terms (eval_term s recentUIDs user mailbox st) base ts
      end
  end
  with eval_term (s : Session) (recentUIDs : gset Z) user mailbox st (t : searchTerm) (base : list Z) {struct t} : result search_fault (list Z) :=
  match t with
  | TNot x => let* l := evalSearch s recentUIDs user mailbox st x in Ok (seqFilter base l false)
  | TSub x => let* l := evalSearch s recentUIDs user mailbox st x in Ok (seqFilter base l true)
  | TOr a b =>
      let* la := evalSearch s recentUIDs user mailbox st a in
      let* lb := evalSearch s recentUIDs user mailbox st b in
      Ok (seqFilter base (la ++ lb) true)
  end.

(** ** The command *)
Fixpoint return_options (toks : list imapToken) (opts : list gostring) : option (list gostring * list imapToken) :=
  match toks with
  | [] => None
  | t :: r =>
      if is_close t then Some (opts, r)
      else let o := ToUpper (val t) in
      if bool_decide (o ∈ ["MIN" : gostring; "MAX" : gostring; "ALL" : gostring; "COUNT" : gostring])
      then return_options r (opts ++ [o]) else None
  end.
(** [None] is a syntax error; without RETURN there are no options. *)
Definition parseSearchReturn toks : option (option (list gostring) * list imapToken) :=
  match toks with
  | t :: r =>
      if is_word "RETURN" t then
      match r with
      | p :: r => if is_open p then
          '(opts, r) ← return_options r [];
          Some (Some (if bool_decide (opts = []) then ["ALL" : gostring] else opts), r) else None
      | [] => None
      end
      else Some (None, toks)
  | [] => Some (None, toks)
  end.

(** Runs of consecutive numbers as ranges. *)
Fixpoint run_end (last : Z) (l : list Z) : Z * list Z :=
  match l with
  | n :: r => if n =? wrap_u32 (last + 1) then run_end n r else (last, l)
  | [] => (last, [])
  end.
Fixpoint uid_runs (fuel : nat) (l : list Z) : list gostring :=
  match fuel, l with
  | S f, n :: r =>
      let '(m, rest) := run_end n r in
      (if n =? m then FormatUint n else FormatUint n ++ ":" ++ FormatUint m) :: uid_runs f rest
  | _, _ => []
  end.
Definition uidSetString (uids : list Z) : gostring := Join (uid_runs (length uids) uids) ",".

Definition esearchResponse (tag : gostring) (uid : bool) (opts : list gostring) (nums : list Z) : gostring :=
  let want o := bool_decide (o ∈ opts) in
  "ESEARCH (TAG " ++ quoteMailbox tag ++ ")" ++ (if uid then " UID" else [])
  ++ match nums with
  | [] => []
  | n :: _ => (if want "MIN" then " MIN " ++ FormatUint n else [])
      ++ (if want "MAX" then " MAX " ++ FormatUint (List.last nums 0) else [])
      ++ (if want "ALL" then " ALL " ++ uidSetString nums else [])
  end
  ++ (if want "COUNT" then " COUNT " ++ FormatUint (Z.of_nat (length nums)) else []).

(** What the handler answers: untagged data and OK, or a refusal. *)
Inductive search_reply :=
  | Answer (data : gostring)
  | NoMailbox | BadReturn | BadProgram (e : search_error) | BadCharset | Failed (f : search_fault) | FetchFailed (e : mstore_error)
  | Panicked.

Definition search_line (nums : list Z) : gostring := "SEARCH" ++ concat (map (fun n => " " ++ FormatUint n) nums).

(** UID SEARCH reads the UIDs of the positions with a FETCH of UID, which loads no
    message and so triggers no notification. *)
Definition handleSearchWithUIDs (s : Session) (recentUIDs : gset Z) (tag user : gostring) (mailbox : option gostring)
  (args : list gostring) (line : gostring) (uidResults : bool) st : search_reply :=
  match mailbox with
  | None => NoMailbox
  | Some mailbox =>
      match parseSearchReturn (commandArgTokens args line "SEARCH") with
      | None => BadReturn
      | Some (retOpts, toks) =>
          match parseSearchProgram toks with
          | Err EBadCharset => BadCharset
          | Err e => BadProgram e
          | Ok program =>
              let live := GetMessageUIDs user mailbox (db st) in
              match evalSearch s recentUIDs user mailbox st program with
              | Err FPanic => Panicked
              | Err f => Failed f
              | Ok seqs =>
                  let found := if uidResults && negb (bool_decide (seqs = [])) then
                  let* messages := fst (FetchMessages false false user mailbox (Join (map FormatUint seqs) ",") ["UID" : gostring] st) in
                  Ok (List.filter (fun uid => negb (snapOn s) || bool_decide (is_Some (snapSeq s uid))) (map FUID messages))
                  else Ok (if uidResults then seqs else liveSeqsToSession s (Some live) seqs) in
                  match found, retOpts with
                  | Err e, _ => FetchFailed e
                  | Ok nums, Some opts => Answer (esearchResponse tag uidResults opts (merge_sort Z.le nums))
                  | Ok nums, None => Answer (search_line nums)
                  end
              end
          end
      end
  end.
Definition handleSearch (s : Session) (recentUIDs : gset Z) (tag user : gostring) (mailbox : option gostring)
  (args : list gostring) (line : gostring) st : search_reply :=
  handleSearchWithUIDs s recentUIDs tag user mailbox args line false st.
End Search.

#[local] Existing Instance ascii_tables.
Definition t_ (s : gostring) : imapToken := {| val := s; quoted := false |}.
Definition dq : ascii := byte_of 34.
Example tokens_ex : tokenizeIMAPArgs (("FROM " : gostring) ++ dq :: ("a b" : gostring) ++ dq :: (" (NOT SEEN)" : gostring)) =
  [t_ "FROM"; {| val := "a b"; quoted := true |}; t_ "("; t_ "NOT"; t_ "SEEN"; t_ ")"].
Proof. reflexivity. Qed.
Example dates_ex : parseIMAPDate "1-Jan-1970" = Some 0 /\ parseIMAPDate "29-feb-2024" = Some (19782 * day) /\
  parseIMAPDate "29-Feb-2023" = None /\ parseIMAPDate "01-Jan-0001" = Some zero_time.
Proof. vm_compute. auto. Qed.
Example uid_set_ex : uidSetString [1; 2; 3; 7; 9; 10] = ("1:3,7,9:10" : gostring).
Proof. reflexivity. Qed.
