(* ===== verification/ImapBodies.v ===== *)
(** * internal/imap: bodies and quota under interleaving

    Sessions append, copy, expunge, flag and rename at the same time.  [sys_step] has
    one step per critical section: storing a blob takes the guard of the user and
    keeps it until the row is written; rows are removed without the guard, and the
    blobs they named wait in a pool until they are released under it.  The steps are
    the operations of [ImapStore]; the invariant says that no row ever loses its body
    and that what the quota hook was told is what the store holds. *)
From S2P Require Import Prelude GoLib Utf8 Bolt ImapSeq Scram BlobStore MailDb MailDbProps Threads ImapStore.

(** ** Rows after an operation *)
Definition same_blob (a b : MessageMetadata) : Prop := MessageID a = MessageID b /\ Size a = Size b.

(** A database whose rows all name blobs that rows of the same user named before. *)
Definition keeps (d d' : Database) : Prop :=
  forall v k uid m, rows_of v k d' !! uid = Some m -> exists k0 uid0 m0, rows_of v k0 d !! uid0 = Some m0 /\ same_blob m0 m.

Lemma keeps_refl d : keeps d d.
Proof. intros v k uid m H. by exists k, uid, m. Qed.
Lemma keeps_same d d' : messages d' = messages d -> keeps d d'.
Proof. intros E v k uid m H. exists k, uid, m. unfold rows_of in *. by rewrite E in H. Qed.
Lemma keeps_trans d d' d'' : keeps d d' -> keeps d' d'' -> keeps d d''.
Proof.
  intros H H' v k uid m Hm. destruct (H' _ _ _ _ Hm) as (k1 & u1 & m1 & H1 & [E1 E2]). destruct (H _ _ _ _ H1) as (k0 & u0 & m0 & H0 & [F1 F2]).
  exists k0, u0, m0. split; [done |]. split; congruence.
Qed.

Lemma rows_of_set u k rows d v j : rows_of v j (set_messages <[messagesBucket u k := rows]> d) = if decide ((u, k) = (v, j)) then rows else rows_of v j d.
Proof.
  unfold rows_of, set_messages. cbn [messages]. destruct (decide _) as [[= <- <-] | H]; [by rewrite lookup_insert_eq | by rewrite lookup_insert_ne by by apply messagesBucket_ne].
Qed.

Section Rows.
Context {U : UnicodeTables}.

Lemma rows_StoreMessageMetadata now u k uid meta d : exists cp, same_blob meta cp /\ Flags cp = normalizeFlags (Flags meta) /\ UID cp = UID meta /\
  InternalDate cp = InternalDate meta /\ Subject cp = Subject meta /\ From cp = From meta /\
  forall v j, rows_of v j (StoreMessageMetadata now u k uid meta d) = if decide ((u, k) = (v, j)) then <[uid := cp]> (rows_of u k d) else rows_of v j d.
Proof.
  unfold StoreMessageMetadata. fold (stored_row d u k uid meta).
  assert (Hs : exists cp d1, stored_row d u k uid meta = (cp, d1) /\ messages d1 = messages d /\ same_blob meta cp /\ Flags cp = normalizeFlags (Flags meta) /\
    UID cp = UID meta /\ InternalDate cp = InternalDate meta /\ Subject cp = Subject meta /\ From cp = From meta).
  { unfold stored_row. destruct (rows_of u k d !! uid) as [prev |]; [| by eexists _, _]. destruct (_ <=? _); [| by eexists _, _].
    eexists _, _. split; [reflexivity |]. split; [| done]. cbn. unfold raiseHighestModSeqTx. destruct (_ =? _); [done |].
    destruct (mailboxes d !! _); [| done]. by destruct (_ <=? _). }
  destruct Hs as (cp & d1 & -> & Hm & Hb & Hf & F1 & F2 & F3 & F4). exists cp. split_and!; try done. intros v j.
  set (d2 := raise_uidnext u k uid (raiseHighestModSeqTx u k (ModSeq cp) d1)).
  assert (Hm2 : messages d2 = messages d).
  { rewrite <- Hm. unfold d2, raise_uidnext. set (d3 := raiseHighestModSeqTx _ _ _ _).
    assert (H3 : messages d3 = messages d1).
    { unfold d3, raiseHighestModSeqTx. destruct (_ =? _); [done |]. destruct (mailboxes d1 !! _); [| done]. by destruct (_ <=? _). }
    destruct (mailboxes d3 !! _); [| done]. by destruct (_ && _). }
  assert (Hr : forall v j, rows_of v j d2 = rows_of v j d) by (intros; unfold rows_of; by rewrite Hm2).
  assert (Hp : rows_of v j (put_message u k uid cp d2) = if decide ((u, k) = (v, j)) then <[uid := cp]> (rows_of u k d) else rows_of v j d).
  { rewrite rows_of_put. by rewrite !Hr. }
  destruct (bool_decide _); [done |]. destruct (bool_decide _); by rewrite ?rows_of_RecordChange.
Qed.

Lemma rows_DeleteMessage now u k uid d v j :
  rows_of v j (DeleteMessage now u k uid d) = if decide ((u, k) = (v, j)) then delete uid (rows_of u k d) else rows_of v j d.
Proof.
  unfold DeleteMessage. destruct (messages d !! messagesBucket u k) as [rows |] eqn:E.
  - assert (Hr : rows_of u k d = rows) by (unfold rows_of; by rewrite E). rewrite Hr.
    destruct (rows !! uid) as [m |]; [| apply rows_of_set]. destruct (bool_decide _); [apply rows_of_set |].
    destruct (bool_decide _); rewrite ?rows_of_RecordChange; apply rows_of_set.
  - destruct (decide _) as [[= <- <-] | H]; [| done]. unfold rows_of. rewrite E. cbn. by rewrite delete_empty.
Qed.

Lemma keeps_DeleteMessage now u k uid d : keeps d (DeleteMessage now u k uid d).
Proof.
  intros v j i m. rewrite rows_DeleteMessage. destruct (decide _) as [[= <- <-] | H].
  - intros [_ H]%lookup_delete_Some. by exists k, i, m.
  - intros Hm. by exists j, i, m.
Qed.

Lemma rows_Update u k uid fn d d' : UpdateMessageMetadataFunc u k uid fn d = Ok d' ->
  rows_of u k d !! uid = None /\ d' = d \/
  exists m m' cp, rows_of u k d !! uid = Some m /\ fn m = Some m' /\ same_blob m' cp /\ Flags cp = normalizeFlags (Flags m') /\
  forall v j, rows_of v j d' = if decide ((u, k) = (v, j)) then <[uid := cp]> (rows_of u k d) else rows_of v j d.
Proof.
  unfold UpdateMessageMetadataFunc. destruct (rows_of u k d !! uid) as [m |]; [| intros [= <-]; by left].
  destruct (fn m) as [m' |] eqn:Ef; [| done]. unfold getNextModSeqTx. intros [= <-]. right.
  exists m, m', (with_modseq (wrap_u64 (num (highestmodseq (row_of (mailboxKey u k) d)) + 1)) (with_flags (normalizeFlags (Flags m')) m')).
  split_and!; try done. intros v j. by rewrite rows_of_put.
Qed.

Lemma keeps_Update u k uid fn d d' : (forall m m', fn m = Some m' -> same_blob m m') -> UpdateMessageMetadataFunc u k uid fn d = Ok d' -> keeps d d'.
Proof.
  intros Hfn [[_ ->] | (m & m' & cp & Hm & Ef & [E1 E2] & _ & Hr)]%rows_Update; [apply keeps_refl |].
  intros v j i x. rewrite Hr. destruct (decide _) as [[= <- <-] | H]; [| intros Hx; by exists j, i, x].
  intros [[<- <-] | [_ Hx]]%lookup_insert_Some; [| by exists k, i, x]. exists k, uid, m. split; [done |]. destruct (Hfn _ _ Ef). split; congruence.
Qed.

Lemma keeps_ClearRecent u k d : keeps d (ClearRecent u k d).
Proof.
  unfold ClearRecent. destruct (messages d !! messagesBucket u k) as [rows |] eqn:E; [| apply keeps_refl].
  intros v j i m. rewrite rows_of_set. destruct (decide _) as [[= <- <-] | H]; [| intros Hm; by exists j, i, m].
  rewrite lookup_fmap. intros (m0 & Hm0 & ->)%fmap_Some. exists k, i, m0. unfold rows_of. rewrite E. split; [done |]. by destruct (HasFlag _ _).
Qed.

Lemma keeps_delete_bucket u k d : keeps d (set_messages (delete (messagesBucket u k)) d).
Proof.
  intros v j i m. unfold rows_of at 1, set_messages. cbn [messages]. destruct (decide (messagesBucket u k = messagesBucket v j)) as [<- | H].
  - by rewrite lookup_delete_eq.
  - rewrite lookup_delete_ne by done. intros Hm. by exists j, i, m.
Qed.

Lemma messages_floor key d : messages (recordUIDValidityFloorTx key d) = messages d.
Proof. unfold recordUIDValidityFloorTx. destruct (mailboxes d !! key) as [[[] ? ?] |]; [| done ..]. destruct (floors d !! key); [| done]. by destruct (_ <=? _). Qed.

Lemma keeps_DeleteMailbox now u k d d' : DeleteMailbox now u k d = Ok d' -> keeps d d'.
Proof.
  unfold DeleteMailbox. destruct (isINBOX k); [done |]. intros [= <-].
  eapply (keeps_trans d (set_messages (delete (messagesBucket u k)) d)); [apply keeps_delete_bucket |].
  apply keeps_same. destruct (bool_decide _); cbn; autorewrite with maildb; cbn; by rewrite messages_floor.
Qed.

Lemma keeps_RenameMailbox now u old new d d' : RenameMailbox now u old new d = Ok d' -> keeps d d'.
Proof.
  unfold RenameMailbox. destruct (bool_decide (old = new)); [intros [= <-]; apply keeps_refl |].
  destruct (bool_decide _); [done |]. destruct (mailboxes d !! mailboxKey u old) as [r |].
  - cbn [rbind]. intros [= <-]. match goal with |- context [put_row _ ?x d] => set (r' := x) end.
    eapply (keeps_trans d (with_rows_of_old u old new (put_row (mailboxKey u new) r' d))).
    + unfold with_rows_of_old. cbn. destruct (messages d !! messagesBucket u old) as [ms |] eqn:E; [| by apply keeps_same].
      intros v j i m. rewrite rows_of_set. destruct (decide _) as [[= <- <-] | H]; [| intros Hm; by exists j, i, m].
      intros Hm. exists old, i, m. unfold rows_of. by rewrite E.
    + eapply keeps_trans; [apply (keeps_delete_bucket u old) |]. apply keeps_same. autorewrite with maildb. cbn. by rewrite messages_floor.
  - destruct (nextUIDValidityTx now _ d) as [uv |]; [| done]. cbn [rbind]. intros [= <-].
    intros v j i m. rewrite !rows_of_RecordChange, rows_of_make. intros Hm. by exists j, i, m.
Qed.

Lemma keeps_CreateMailbox now u k d d' : CreateMailbox now u k d = Ok d' -> keeps d d'.
Proof.
  unfold CreateMailbox. destruct (ensureUIDValidityTx now (mailboxKey u k) d) as [r |]; [| done]. cbn [rbind]. intros [= <-].
  intros v j i m. destruct (negb _); rewrite ?rows_of_RecordChange, rows_of_make; intros Hm; by exists j, i, m.
Qed.

Lemma keeps_GetNextUID now u k d uid d' : GetNextUID now u k d = Ok (uid, d') -> messages d' = messages d.
Proof. unfold GetNextUID. destruct (ensureUIDValidityTx now _ d); [| done]. cbn [rbind]. destruct (_ =? max_uint32); [done |]. by intros [= <- <-]. Qed.
End Rows.

(** ** What blobs and quota leave alone *)
Section Frames.
Context {U : UnicodeTables} {C : Crypto} (quotaLimit : option (gostring -> Z)) (quotaAdjust : option (list (gostring * Z) -> gostring -> Z -> bool)).
Context (pending : gostring -> gostring -> bool) (iter : gmap gostring Z -> list (gostring * Z)).
Implicit Types st : MStore.

Lemma adjustQuota_frame u d st : db (snd (adjustQuota quotaAdjust u d st)) = db st /\ notes (snd (adjustQuota quotaAdjust u d st)) = notes st.
Proof. unfold adjustQuota. destruct quotaAdjust as [f |]; [| done]. destruct (_ =? _); [done |]. by destruct (f _ _ _). Qed.

Lemma adjustQuota_files u d st : msgStore (snd (adjustQuota quotaAdjust u d st)) = msgStore st.
Proof. unfold adjustQuota. destruct quotaAdjust as [f |]; [| done]. destruct (_ =? _); [done |]. by destruct (f _ _ _). Qed.

Lemma releaseBlobs_frame u refs st : db (releaseBlobsLocked quotaAdjust pending iter u refs st) = db st /\ notes (releaseBlobsLocked quotaAdjust pending iter u refs st) = notes st.
Proof.
  unfold releaseBlobsLocked. generalize (iter (candidates refs)). intros l. revert st. induction l as [| [id size] l IH]; intros st; [done |]. cbn [foldl].
  destruct (IH (release_one quotaAdjust pending u (id, size) st)) as [-> ->]. unfold release_one. destruct (BlobReferenced _ _ _ _); [done |].
  destruct (DeleteMessageUnchecked _ _ _) as [[e |] fs]; [done |]. match goal with |- context [adjustQuota _ _ ?d ?x] => destruct (adjustQuota_frame u d x) as [-> ->] end. done.
Qed.

Lemma storeBlob_frame written now u data st : db (snd (storeBlob quotaLimit quotaAdjust written now u data st)) = db st.
Proof.
  unfold storeBlob. set (reserved := match quotaAdjust with Some _ => _ | None => _ end). destruct (adjustQuota_frame u reserved st) as [H _].
  destruct (adjustQuota quotaAdjust u reserved st) as [[] st1]; [| done]. cbn [snd] in H. set (put := match quotaLimit with Some _ => _ | None => _ end).
  destruct put as [[id | e] fs]; [done |]. cbn [snd]. rewrite <- H. apply (adjustQuota_frame u (- reserved) (set_files (fun _ => fs) st1)).
Qed.

Lemma storeBlob_files written now u data st id st' : storeBlob quotaLimit quotaAdjust written now u data st = (Ok id, st') ->
  id = blob_id data /\ msgStore st' = <[(u, blob_id data) := stored now u data (msgStore st)]> (msgStore st).
Proof.
  unfold storeBlob. set (reserved := match quotaAdjust with Some _ => _ | None => _ end). pose proof (adjustQuota_files u reserved st) as H.
  destruct (adjustQuota quotaAdjust u reserved st) as [[] st1]; [| done]. cbn [snd] in H. rewrite H. set (put := match quotaLimit with Some _ => _ | None => _ end).
  assert (Hput : (exists e, fst put = Err e) \/ put = (Ok (blob_id data), <[(u, blob_id data) := stored now u data (msgStore st)]> (msgStore st))).
  { assert (Hplain : (exists e, fst (StoreMessage written now u data (msgStore st)) = Err e) \/
      StoreMessage written now u data (msgStore st) = (Ok (blob_id data), <[(u, blob_id data) := stored now u data (msgStore st)]> (msgStore st))).
    { unfold StoreMessage. destruct (negb _); [left; by eexists |]. destruct (storeMessageLocked_cases written now u data (msgStore st)) as [[e ->] | [_ ->]]; [left; by eexists | by right]. }
    unfold put. destruct quotaLimit as [limit |]; [| done]. destruct (0 <? limit u); [| done].
    destruct (StoreMessageWithQuota_cases written now u data (limit u) (msgStore st)) as [[e ->] | (-> & _)]; [left; by eexists | by right]. }
  destruct put as [[x | e] fs]; [| done]. intros [= <- <-]. destruct Hput as [[e [=]] | [= -> ->]]. done.
Qed.
End Frames.

(** ** The system *)
Record Sys := {
  sto : MStore;
  guard : gmap gostring gostring;          (* who is between blob and row, and with which content *)
  pool : list (gostring * blobRef)         (* blobs whose rows were removed *)
}.
Definition set_sto f (s : Sys) : Sys := {| sto := f (sto s); guard := guard s; pool := pool s |}.

(** What the quota hook was told about a user. *)
Definition total (u : gostring) (l : list (gostring * Z)) : Z := foldr (fun '(v, d) acc => if bool_decide (v = u) then d + acc else acc) 0 l.

Lemma reserved_app u l l' : total u (l ++ l') = total u l + total u l'.
Proof. unfold total. induction l as [| [v d] l IH]; cbn; [lia |]. rewrite IH. case_bool_decide; lia. Qed.

Section System.
Context {U : UnicodeTables} {C : Crypto} (quotaLimit : option (gostring -> Z)) (refuses : list (gostring * Z) -> gostring -> Z -> bool).
Context (pending : gostring -> gostring -> bool) (iter : gmap gostring Z -> list (gostring * Z)) (D : gostring -> Prop).

Definition ref_of_data (d : gostring) : blobRef := {| ref_id := blob_id d; ref_size := Z.of_nat (length d) |}.

(** Operations of the database that remove no reference. *)
Inductive quiet : Database -> Database -> Prop :=
  | q_uid now u k uid d d' : GetNextUID now u k d = Ok (uid, d') -> quiet d d'
  | q_create now u k d d' : CreateMailbox now u k d = Ok d' -> quiet d d'
  | q_rename now u old new d d' : RenameMailbox now u old new d = Ok d' -> quiet d d'
  | q_clear u k d : quiet d (ClearRecent u k d)
  | q_flags u k uid op flags d d' : UpdateMessageMetadataFunc u k uid (update_flags op flags) d = Ok d' -> quiet d d'.

Inductive sys_step : Sys -> Sys -> Prop :=
  | sy_store written now u data id st s : guard s !! u = None -> D data ->
  storeBlob quotaLimit (Some refuses) written now u data (sto s) = (Ok id, st) ->
  sys_step s {| sto := st; guard := <[u := data]> (guard s); pool := pool s |}
  | sy_refused written now u data e st s : guard s !! u = None -> D data ->
  storeBlob quotaLimit (Some refuses) written now u data (sto s) = (Err e, st) ->
  sys_step s (set_sto (fun _ => st) s)
  | sy_row now u k uid meta data s : guard s !! u = Some data -> MessageID meta = blob_id data -> Size meta = Z.of_nat (length data) ->
  sys_step s {| sto := set_db (StoreMessageMetadata now u k uid meta) (sto s); guard := delete u (guard s); pool := pool s |}
  | sy_give_up u data s : guard s !! u = Some data ->
  sys_step s {| sto := releaseBlobsLocked (Some refuses) pending iter u [ref_of_data data] (sto s); guard := delete u (guard s); pool := pool s |}
  | sy_rewrite now u k uid m meta s : rows_of u k (db (sto s)) !! uid = Some m -> same_blob m meta ->
  sys_step s (set_sto (set_db (StoreMessageMetadata now u k uid meta)) s)
  | sy_quiet d s : quiet (db (sto s)) d -> sys_step s (set_sto (set_db (fun _ => d)) s)
  | sy_delete now u k uid s :
  sys_step s {| sto := set_db (DeleteMessage now u k uid) (sto s); guard := guard s;
    pool := (u, ref_of (GetMessageMetadata u k uid (db (sto s)))) :: pool s |}
  | sy_delete_mailbox now u k d s : DeleteMailbox now u k (db (sto s)) = Ok d ->
  sys_step s {| sto := set_db (fun _ => d) (sto s); guard := guard s;
    pool := map (fun uid => (u, ref_of (GetMessageMetadata u k uid (db (sto s))))) (GetMessageUIDs u k (db (sto s))) ++ pool s |}
  | sy_release u refs s : guard s !! u = None -> Forall (fun r => (u, r) ∈ pool s) refs ->
  sys_step s (set_sto (releaseBlobsLocked (Some refuses) pending iter u refs) s)
  | sy_other st s : db st = db (sto s) -> msgStore st = msgStore (sto s) -> adjusted st = adjusted (sto s) ->
  sys_step s (set_sto (fun _ => st) s).

(** A reference is that of a content in play, or that of a row that was not there. *)
Definition ref_ok (r : blobRef) : Prop := r = {| ref_id := []; ref_size := 0 |} \/ exists d, D d /\ r = ref_of_data d.

Record sys_inv (s : Sys) : Prop := {
  inv_rows u k uid m : rows_of u k (db (sto s)) !! uid = Some m ->
  exists d, D d /\ MessageID m = blob_id d /\ Size m = Z.of_nat (length d) /\ is_Some (msgStore (sto s) !! (u, blob_id d));
  inv_files u id f : msgStore (sto s) !! (u, id) = Some f ->
  D (content f) /\ id = blob_id (content f) /\ validatePathComponent u = true /\ file_size f <= maxMessageSize;
  inv_guard u d : guard s !! u = Some d -> D d /\ is_Some (msgStore (sto s) !! (u, blob_id d));
  inv_pool u r : (u, r) ∈ pool s -> ref_ok r;
  inv_quota u : total u (adjusted (sto s)) = usage u (msgStore (sto s))
}.

Hypothesis collision_free : forall a b, D a -> D b -> blob_id a = blob_id b -> a = b.
Hypothesis releases_accepted : forall l u d, refuses l u d = true -> 0 < d.
Hypothesis iter_walks : forall m, iter m ≡ₚ map_to_list m.

Lemma adjust_cases u delta st b st' : adjustQuota (Some refuses) u delta st = (b, st') ->
  db st' = db st /\ msgStore st' = msgStore st /\ (b = false -> st' = st /\ 0 < delta) /\
  (b = true -> forall v, total v (adjusted st') = total v (adjusted st) + (if bool_decide (u = v) then delta else 0)).
Proof.
  unfold adjustQuota. destruct (Z.eqb_spec delta 0) as [-> | Hd].
  - intros [= <- <-]. split_and!; try done. intros _ v. case_bool_decide; lia.
  - destruct (refuses _ _ _) eqn:Er; intros [= <- <-]; split_and!; try done.
    + intros _. split; [done |]. by eapply releases_accepted.
    + intros _ v. cbn [adjusted set_adjusted]. rewrite reserved_app. cbn. case_bool_decide; lia.
Qed.

(** Storing a content that is in play: its file is there, and the hook is told what the
    files grow by. *)
Lemma storeBlob_cases written now u data s r st : sys_inv s -> D data ->
  storeBlob quotaLimit (Some refuses) written now u data (sto s) = (r, st) ->
  db st = db (sto s) /\
  ((exists e, r = Err e) /\ msgStore st = msgStore (sto s) /\ (forall v, total v (adjusted st) = total v (adjusted (sto s))) \/
    r = Ok (blob_id data) /\ msgStore st = <[(u, blob_id data) := stored now u data (msgStore (sto s))]> (msgStore (sto s)) /\
    validatePathComponent u = true /\ Z.of_nat (length data) <= maxMessageSize /\
    forall v, total v (adjusted st) = usage v (msgStore st)).
Proof.
  intros Hi HD. unfold storeBlob. set (fs := msgStore (sto s)). set (reserved := if MessageExists u (blob_id data) fs then 0 else Z.of_nat (length data)).
  destruct (adjustQuota (Some refuses) u reserved (sto s)) as [b st1] eqn:Ea. destruct (adjust_cases _ _ _ _ _ Ea) as (Hd1 & Hf1 & Hno & Hyes).
  destruct b; cycle 1.
  { destruct (Hno eq_refl) as [-> _]. intros [= <- <-]. split; [done |]. left. split_and!; try done. by eexists. }
  specialize (Hyes eq_refl). rewrite Hf1. fold fs. clear Hno Ea.
  set (put := match quotaLimit with Some limit => if 0 <? limit u then StoreMessageWithQuota written now u data (limit u) fs else StoreMessage written now u data fs
    | None => StoreMessage written now u data fs end).
  assert (Hput : (exists e, put = (Err e, fs)) \/ put = (Ok (blob_id data), <[(u, blob_id data) := stored now u data fs]> fs) /\
    validatePathComponent u = true /\ Z.of_nat (length data) <= maxMessageSize).
  { assert (Hplain : (exists e, StoreMessage written now u data fs = (Err e, fs)) \/
      StoreMessage written now u data fs = (Ok (blob_id data), <[(u, blob_id data) := stored now u data fs]> fs) /\ validatePathComponent u = true /\ Z.of_nat (length data) <= maxMessageSize).
    { unfold StoreMessage. destruct (validatePathComponent u); cbn [negb]; [| left; eauto].
      destruct (storeMessageLocked_cases written now u data fs) as [[e ->] | [Hm ->]]; [left; eauto | right; auto]. }
    unfold put. destruct quotaLimit as [limit |]; [| done]. destruct (0 <? limit u); [| done].
    destruct (StoreMessageWithQuota_cases written now u data (limit u) fs) as [[e ->] | (-> & Hv & Hm & _)]; [left; eauto |]. right. split_and!; [done | done |].
    destruct Hm as [Hm | (f & Hf & <-)]; [done |]. by apply (inv_files s Hi u (blob_id data) f). }
  destruct Hput as [[e ->] | (-> & Hv & Hm)].
  - destruct (adjustQuota (Some refuses) u (- reserved) (set_files (fun _ => fs) st1)) as [b st2] eqn:Ea. intros [= <- <-].
    destruct (adjust_cases _ _ _ _ _ Ea) as (Hd2 & Hf2 & Hno & Hy2). cbn [snd]. split; [by rewrite Hd2, <- Hd1 |]. left. split_and!; [by eexists | by rewrite Hf2 |].
    assert (Hpos : 0 <= reserved) by (unfold reserved; destruct (MessageExists _ _ _); lia).
    intros v. destruct b; [| by destruct (Hno eq_refl); lia]. rewrite (Hy2 eq_refl). cbn [adjusted set_files]. rewrite Hyes. case_bool_decide; lia.
  - intros [= <- <-]. split; [done |]. right. split_and!; try done. intros v. cbn [adjusted msgStore set_files]. rewrite Hyes, usage_update, (inv_quota s Hi v). fold fs.
    unfold share. cbn [fst]. rewrite usage_stored. unfold reserved, MessageExists. rewrite Hv, (proj2 (blob_id_valid data)). cbn [andb].
    destruct (fs !! (u, blob_id data)) as [f |] eqn:Ef; cbn.
    + destruct (inv_files s Hi _ _ _ Ef) as (Hc & Heq & _). rewrite (collision_free _ _ HD Hc Heq) in *. unfold file_size. case_bool_decide; lia.
    + case_bool_decide; lia.
Qed.

Lemma set_sto_same s st : st = sto s -> set_sto (fun _ => st) s = s.
Proof. intros ->. by destruct s. Qed.

Lemma candidates_from refs id size : candidates refs !! id = Some size -> exists r, r ∈ refs /\ id = ref_id r /\ size = ref_size r.
Proof.
  unfold candidates. rewrite <- (rev_involutive refs). generalize (rev refs). intros l. induction l as [| r l IH]; [done |].
  cbn [rev]. rewrite foldl_app. cbn [foldl]. intros [[<- <-] | [_ H]]%lookup_insert_Some.
  - exists r. split_and!; [| done | done]. rewrite elem_of_app, list_elem_of_singleton. by right.
  - destruct (IH H) as (r' & Hr & E). exists r'. split; [| done]. rewrite elem_of_app. by left.
Qed.

(** The bytes that are given back are those of the file. *)
Lemma released_size s u r f : sys_inv s -> ref_ok r -> isValidMessageID (ref_id r) = true -> msgStore (sto s) !! (u, ref_id r) = Some f ->
  (if ref_size r <=? 0 then match ReadMessage u (ref_id r) (msgStore (sto s)) with Ok data => Z.of_nat (length data) | Err _ => ref_size r end
    else ref_size r) = file_size f.
Proof.
  intros Hi [-> | (d & HD & ->)] Hv Hf; [done |]. destruct (inv_files s Hi _ _ _ Hf) as (Hc & Heq & Hp & Hm).
  pose proof (collision_free _ _ HD Hc Heq) as ->. cbn [ref_of_data ref_size ref_id] in *.
  destruct (_ <=? 0); [| done]. unfold ReadMessage. rewrite Hp, Hv, Hf. cbn [negb]. by destruct (_ <? _).
Qed.

Lemma release_one_inv u r s : sys_inv s -> guard s !! u = None -> ref_ok r ->
  sys_inv (set_sto (release_one (Some refuses) pending u (ref_id r, ref_size r)) s).
Proof.
  intros Hi Hg Hr. unfold release_one, set_sto. destruct (BlobReferenced pending u (ref_id r) (db (sto s))) eqn:Eb; [by destruct s |].
  unfold DeleteMessageUnchecked. destruct (validatePathComponent u) eqn:Ev; cbn [negb]; [| by destruct s].
  destruct (isValidMessageID (ref_id r)) eqn:Em; cbn [negb]; [| by destruct s]. set (fs := msgStore (sto s)) in *.
  destruct (fs !! (u, ref_id r)) as [f |] eqn:Ef; [| by destruct s].
  pose proof (released_size s u r f Hi Hr Em Ef) as Hs. fold fs in Hs. rewrite Hs. clear Hs.
  destruct (adjustQuota (Some refuses) u (- file_size f) (set_files (fun _ => delete (u, ref_id r) fs) (sto s))) as [b st] eqn:Ea.
  destruct (adjust_cases _ _ _ _ _ Ea) as (Hd & Hf & Hno & Hyes). cbn [snd]. cbn [db msgStore set_files adjusted] in *.
  assert (Hsz : 0 <= file_size f) by (unfold file_size; lia).
  assert (b = true) as -> by (destruct b; [done |]; destruct (Hno eq_refl); lia). specialize (Hyes eq_refl).
  assert (Hkeep : forall v d, is_Some (fs !! (v, blob_id d)) -> (v, blob_id d) <> (u, ref_id r) -> is_Some (msgStore st !! (v, blob_id d))).
  { intros v d [g Hgf] Hne. exists g. rewrite Hf. by rewrite lookup_delete_ne by congruence. }
  split; cbn [sto guard pool].
  - intros v k uid m Hm. rewrite Hd in Hm. destruct (inv_rows s Hi v k uid m Hm) as (d & HD & E1 & E2 & Hx). exists d. split_and!; [done | done | done |].
    apply Hkeep; [done |]. intros [= -> E]. rewrite <- E, <- E1 in Eb. by rewrite (row_referenced pending _ _ _ _ _ Hm) in Eb.
  - intros v id g. rewrite Hf. intros [_ Hgf]%lookup_delete_Some. by apply (inv_files s Hi).
  - intros v d Hgd. destruct (inv_guard s Hi v d Hgd) as [HD Hx]. split; [done |]. apply Hkeep; [done |]. congruence.
  - apply (inv_pool s Hi).
  - intros v. rewrite Hyes, Hf, usage_delete, Ef, (inv_quota s Hi v). unfold share. cbn [fst]. fold fs. case_bool_decide; lia.
Qed.

Lemma release_one_guard u c s : guard (set_sto (release_one (Some refuses) pending u c) s) = guard s.
Proof. done. Qed.

Lemma release_inv u refs s : sys_inv s -> guard s !! u = None -> Forall ref_ok refs ->
  sys_inv (set_sto (releaseBlobsLocked (Some refuses) pending iter u refs) s).
Proof.
  intros Hi Hg Hr. unfold releaseBlobsLocked.
  assert (Hc : Forall (fun c => exists r, ref_ok r /\ c = (ref_id r, ref_size r)) (iter (candidates refs))).
  { rewrite iter_walks. apply Forall_forall. intros [id size] H%elem_of_map_to_list. apply candidates_from in H as (r & Hin & -> & ->).
    exists r. split; [| done]. by eapply Forall_forall in Hr. }
  revert Hc s Hi Hg. generalize (iter (candidates refs)). intros l Hc. induction Hc as [| c l (r & Hr' & ->) Hl IH]; intros s Hi Hg; cbn [foldl].
  - by destruct s.
  - apply (IH (set_sto (release_one (Some refuses) pending u (ref_id r, ref_size r)) s)); [by apply release_one_inv | done].
Qed.

Lemma row_ref_ok s u k uid : sys_inv s -> ref_ok (ref_of (GetMessageMetadata u k uid (db (sto s)))).
Proof.
  intros Hi. unfold GetMessageMetadata. destruct (rows_of u k (db (sto s)) !! uid) as [m |] eqn:E; [| by left].
  destruct (inv_rows s Hi _ _ _ _ E) as (d & HD & E1 & E2 & _). right. exists d. split; [done |]. unfold ref_of, ref_of_data. cbn. by rewrite E1, E2.
Qed.

Lemma keeps_inv s d g p : sys_inv s -> keeps (db (sto s)) d -> (forall u x, g !! u = Some x -> guard s !! u = Some x) ->
  (forall u r, (u, r) ∈ p -> ref_ok r) -> sys_inv {| sto := set_db (fun _ => d) (sto s); guard := g; pool := p |}.
Proof.
  intros Hi Hk Hg Hp. split; cbn; try apply Hi; try done.
  - intros u k uid m Hm. destruct (Hk _ _ _ _ Hm) as (k0 & uid0 & m0 & H0 & [E1 E2]). destruct (inv_rows s Hi _ _ _ _ H0) as (x & HD & F1 & F2 & Hx).
    exists x. split_and!; [done | congruence | congruence | done].
  - intros u x H. by apply (inv_guard s Hi), Hg.
Qed.

Lemma quiet_keeps_rows d d' : quiet d d' -> keeps d d'.
Proof.
  intros []; eauto using keeps_CreateMailbox, keeps_RenameMailbox, keeps_ClearRecent.
  - eapply keeps_same, keeps_GetNextUID. done.
  - eapply keeps_Update; [| done]. intros m m'. unfold update_flags. destruct (_ && _); [done |]. by intros [= <-].
Qed.

Lemma sys_step_inv s s' : sys_inv s -> sys_step s s' -> sys_inv s'.
Proof.
  intros Hi Hs. inversion Hs as [written now u data id st s0 Hg HD E | written now u data e st s0 Hg HD E | now u k uid meta data s0 Hg E1 E2 | u data s0 Hg
    | now u k uid m meta s0 Hm [E1 E2] | d s0 Hq | now u k uid s0 | now u k d s0 Hd | u refs s0 Hg Hr | st s0 Ed Ef Ea]; subst; clear Hs.
  - destruct (storeBlob_cases _ _ _ _ _ _ _ Hi HD E) as (Hdb & [[[e [=]] _] | (_ & Hf & Hv & Hm & Ht)]).
    assert (Hin : forall v x, is_Some (msgStore (sto s) !! (v, x)) -> is_Some (msgStore st !! (v, x))).
    { intros v x Hx. rewrite Hf. rewrite lookup_insert_is_Some'. by right. }
    split; cbn [sto guard pool].
    + intros v k uid m H. rewrite Hdb in H. destruct (inv_rows s Hi _ _ _ _ H) as (d & ? & ? & ? & ?). exists d. auto.
    + intros v x f. rewrite Hf. intros [[[= <- <-] <-] | [_ H]]%lookup_insert_Some; [| by apply (inv_files s Hi)].
      rewrite usage_stored. unfold stored. destruct (msgStore (sto s) !! (u, blob_id data)) as [g |] eqn:Eg; [| done].
      destruct (_ =? _); [| done]. destruct (inv_files s Hi _ _ _ Eg) as (? & ? & ? & ?). done.
    + intros v d. destruct (decide (v = u)) as [-> | Hne]; [rewrite lookup_insert_eq; intros [= <-] | rewrite lookup_insert_ne by done].
      * split; [done |]. rewrite Hf, lookup_insert_is_Some'. by left.
      * intros H. destruct (inv_guard s Hi _ _ H). auto.
    + apply (inv_pool s Hi).
    + done.
  - destruct (storeBlob_cases _ _ _ _ _ _ _ Hi HD E) as (Hdb & [(_ & Hf & Ht) | ([=] & _)]).
    split; unfold set_sto; cbn [sto guard pool]; rewrite ?Hdb, ?Hf; try apply Hi. intros v. rewrite Ht. apply (inv_quota s Hi).
  - destruct (rows_StoreMessageMetadata now u k uid meta (db (sto s))) as (cp & [F1 F2] & _ & _ & _ & _ & _ & Hrows).
    destruct (inv_guard s Hi _ _ Hg) as [HD Hx]. split; cbn [sto guard pool set_db db msgStore adjusted]; try apply Hi.
    + intros v j i m. rewrite Hrows. destruct (decide _) as [[= <- <-] | Hne]; [| apply (inv_rows s Hi)].
      intros [[<- <-] | [_ H]]%lookup_insert_Some; [| by eapply (inv_rows s Hi)]. exists data. split_and!; [done | congruence | congruence | done].
    + intros v d [_ H]%lookup_delete_Some. by apply (inv_guard s Hi).
  - assert (Hi' : sys_inv {| sto := sto s; guard := delete u (guard s); pool := pool s |}).
    { destruct s as [st g p]. cbn in *. destruct Hi as [I1 I2 I3 I4 I5]. split; cbn in *; try done. intros v d [_ H]%lookup_delete_Some. by apply I3. }
    apply (release_inv u [ref_of_data data] _ Hi'); [apply lookup_delete_eq |]. constructor; [| constructor]. right. exists data.
    split; [by apply (inv_guard s Hi u) | done].
  - destruct (rows_StoreMessageMetadata now u k uid meta (db (sto s))) as (cp & [F1 F2] & _ & _ & _ & _ & _ & Hrows).
    apply (keeps_inv s (StoreMessageMetadata now u k uid meta (db (sto s))) (guard s) (pool s) Hi); [| done | apply (inv_pool s Hi)].
    intros v j i x. rewrite Hrows. destruct (decide _) as [[= <- <-] | Hne]; [| intros H; by exists j, i, x].
    intros [[<- <-] | [_ H]]%lookup_insert_Some; [| by exists k, i, x]. exists k, uid, m. split; [done |]. split; congruence.
  - apply (keeps_inv s d (guard s) (pool s) Hi); [by apply quiet_keeps_rows | done | apply (inv_pool s Hi)].
  - apply (keeps_inv s (DeleteMessage now u k uid (db (sto s)))); [done | apply keeps_DeleteMessage | done |].
    intros v r [[= <- ->] | H]%elem_of_cons; [by apply row_ref_ok | by apply (inv_pool s Hi v)].
  - apply keeps_inv; [done | by eapply keeps_DeleteMailbox | done |]. intros v r [H | H]%elem_of_app; [| by apply (inv_pool s Hi v)].
    apply list_elem_of_In, in_map_iff in H as (uid & [= <- <-] & _). by apply row_ref_ok.
  - apply release_inv; [done | done |]. eapply Forall_impl; [done |]. intros r H. by apply (inv_pool s Hi u).
  - split; unfold set_sto; cbn [sto guard pool]; rewrite ?Ed, ?Ef, ?Ea; apply Hi.
Qed.

Definition sys_init : Sys := {|
  sto := {| db := empty_db; tdb := empty_threads; msgStore := ∅; adjusted := []; reported := []; mdnSent := ∅; mdns := []; notes := [] |};
  guard := ∅; pool := [] |}.

Lemma init_inv : sys_inv sys_init.
Proof.
  split; cbn; try done.
  intros u r H. by apply not_elem_of_nil in H.
Qed.

Lemma reachable_sys_inv s : star sys_step sys_init s -> sys_inv s.
Proof. intros H. refine (star_invariant _ sys_inv _ _ init_inv _ H). intros a b Ha Hb. by eapply sys_step_inv. Qed.


(** a reply is never put into the thread of the message it answers.  The code
    compares the In-Reply-To and References of a message with the stored [MessageID],
    which is the digest of the content, so for identifiers with an at-sign, as RFC 5322
    has them, the search by references finds nothing, whatever is stored. *)
Theorem references_find_no_thread s u k inReplyTo references : star sys_step sys_init s ->
  "@"%char ∈ inReplyTo -> Forall (fun r => "@"%char ∈ r) references ->
  threadByReferencesTx u k inReplyTo references (db (sto s)) = [].
Proof.
  intros Hr%reachable_sys_inv Hi Hrefs. unfold threadByReferencesTx. destruct (find _ _) as [m |] eqn:Ef; [| done]. exfalso.
  apply find_some in Ef as [Hin Hm]. apply list_elem_of_In in Hin. unfold rows_in_order in Hin. apply list_elem_of_omap in Hin as (uid & _ & Hrow).
  destruct (inv_rows s Hr _ _ _ _ Hrow) as (d & _ & Hid & _). destruct (encode_hex (sha256 d)) as [_ Hx]. rewrite forallb_forall in Hx.
  assert (Hno : forall x, "@"%char ∈ x -> (MessageID m =s? x) = false).
  { intros x Hx'. apply bool_decide_eq_false. intros E. rewrite <- E, Hid in Hx'. apply list_elem_of_In, Hx in Hx'. done. }
  unfold refers in Hm. rewrite (Hno inReplyTo Hi), andb_false_r in Hm. cbn [orb] in Hm. apply existsb_exists in Hm as (r & Hr' & E).
  rewrite Forall_forall in Hrefs. rewrite (Hno r) in E by (apply Hrefs; by apply list_elem_of_In). done.
Qed.

(** ** The operations are such steps *)
(** Other sessions may run between the steps; alone, an operation goes through them in
    this order. *)
Lemma storeBlob_id written now u data st id st' :
  storeBlob quotaLimit (Some refuses) written now u data st = (Ok id, st') -> id = blob_id data.
Proof. intros H. by apply storeBlob_files in H as [? _]. Qed.

Lemma append_locked_steps io now u k flags date data s : guard s !! u = None -> D data ->
  star sys_step s (set_sto (fun _ => snd (append_locked quotaLimit (Some refuses) pending iter io now u k flags date data (sto s))) s).
Proof.
  intros Hg HD. unfold append_locked. destruct (storeBlob quotaLimit (Some refuses) (file_written io) now u data (sto s)) as [[id | e] st] eqn:Es;
    [| eapply star_one, sy_refused; done].
  apply storeBlob_id in Es as Hid.
  subst id. assert (Hnext : forall st', star sys_step {| sto := st; guard := <[u := data]> (guard s); pool := pool s |} (set_sto (fun _ => st') s) -> star sys_step s (set_sto (fun _ => st') s)).
  { intros st' H. eapply star_trans; [apply star_one; eapply sy_store; done | done]. }
  assert (Hback : delete u (<[u := data]> (guard s)) = guard s) by (by rewrite delete_insert_id).
  destruct (GetNextUID now u k (db st)) as [[uid d] | e] eqn:Eu; cycle 1.
  { apply Hnext. pose proof (sy_give_up u data {| sto := st; guard := <[u := data]> (guard s); pool := pool s |} (lookup_insert_eq _ _ _)) as H.
    cbn [sto guard pool] in H. rewrite Hback in H. by apply star_one. }
  destruct (parseMessageHeadersExtended data) as [h [[mid inReplyTo] refs]] eqn:Eh.
  destruct (GetOrCreateThreadID _ _ _ _ _ _ _ _) as [threadID td]. set (root := if negb _ && _ then _ else _). set (meta := new_meta _ _ _ _ _ _ _).
  apply Hnext. eapply star_trans; [apply star_one, sy_quiet; eapply q_uid, Eu |].
  eapply star_trans; [apply star_one; apply (sy_other (set_tdb (fun _ => td) (set_db (fun _ => d) st))); done |]. cbn [set_sto sto guard pool].
  set (st1 := set_tdb _ _). destruct (row_written io).
  - pose proof (sy_row now u k uid meta data {| sto := st1; guard := <[u := data]> (guard s); pool := pool s |} (lookup_insert_eq _ _ _)) as H.
    cbn [sto guard pool] in H. rewrite Hback in H. apply star_one, H; unfold meta, new_meta; by rewrite Eh.
  - pose proof (sy_give_up u data {| sto := st1; guard := <[u := data]> (guard s); pool := pool s |} (lookup_insert_eq _ _ _)) as H.
    cbn [sto guard pool] in H. rewrite Hback in H. by apply star_one.
Qed.

Lemma copyOne_steps io now u src dst uid cp s : sys_inv s -> guard s !! u = None ->
  star sys_step s (set_sto (fun _ => snd (copyOne quotaLimit (Some refuses) pending iter io now u src dst uid cp (sto s))) s).
Proof.
  intros Hi Hg. unfold copyOne. set (meta := GetMessageMetadata u src uid (db (sto s))).
  destruct (ReadMessage u (MessageID meta) (msgStore (sto s))) as [data | e] eqn:Er; [| cbn [snd]; rewrite set_sto_same by done; constructor].
  assert (Hdata : D data /\ MessageID meta = blob_id data).
  { unfold ReadMessage in Er. destruct (negb _); [done |]. destruct (negb _); [done |]. destruct (msgStore (sto s) !! _) as [f |] eqn:Ef; [| done].
    destruct (_ <? _); [done |]. injection Er as <-. by destruct (inv_files s Hi _ _ _ Ef) as (? & ? & _). }
  destruct Hdata as [HD Hmid]. destruct (GetNextUID now u dst (db (sto s))) as [[newUID d] | e] eqn:Eu; [| cbn [snd]; rewrite set_sto_same by done; constructor].
  assert (Hsize : Size meta = Z.of_nat (length data)).
  { unfold meta, GetMessageMetadata in *. destruct (rows_of u src (db (sto s)) !! uid) as [m |] eqn:Em.
    - destruct (inv_rows s Hi _ _ _ _ Em) as (x & Hx & E1 & E2 & _). cbn in *. rewrite E2. by rewrite (collision_free x data Hx HD) by congruence.
    - cbn in Er. unfold ReadMessage in Er. by destruct (negb (validatePathComponent u)). }
  eapply star_trans; [apply star_one, sy_quiet; eapply q_uid, Eu |]. set (s1 := set_sto (set_db (fun _ => d)) s).
  change (set_db (fun _ => d) (sto s)) with (sto s1). change (guard s !! u = None) with (guard s1 !! u = None) in Hg.
  assert (Hset : forall st, set_sto (fun _ => st) s = set_sto (fun _ => st) s1) by done. rewrite Hset. clearbody s1. clear Hset.
  destruct (storeBlob quotaLimit (Some refuses) (file_written io) now u data (sto s1)) as [[id | e] st] eqn:Es; [| eapply star_one, sy_refused; done].
  apply storeBlob_id in Es as Hid. subst id.
  eapply star_trans; [apply star_one; eapply sy_store; done |].
  assert (Hback : delete u (<[u := data]> (guard s1)) = guard s1) by (by rewrite delete_insert_id).
  destruct (row_written io).
  - pose proof (sy_row now u dst newUID (copied_meta (blob_id data) newUID meta) data {| sto := st; guard := <[u := data]> (guard s1); pool := pool s1 |} (lookup_insert_eq _ _ _)) as H.
    cbn [sto guard pool] in H. rewrite Hback in H. apply star_one, H; [done | exact Hsize].
  - pose proof (sy_give_up u data {| sto := st; guard := <[u := data]> (guard s1); pool := pool s1 |} (lookup_insert_eq _ _ _)) as H.
    cbn [sto guard pool] in H. rewrite Hback in H. by apply star_one.
Qed.

Lemma expunge_steps now u k sus rm s : (Forall (fun r => (u, r) ∈ pool s) (rm_refs rm)) ->
  let out := foldl (expunge_one now u k) (rm, sto s) sus in
  exists p, star sys_step s {| sto := snd out; guard := guard s; pool := p |} /\ Forall (fun r => (u, r) ∈ p) (rm_refs (fst out)).
Proof.
  revert rm s. induction sus as [| [seq uid] sus IH]; intros rm s Hrm; cbn [foldl].
  { exists (pool s). split; [| done]. destruct s. constructor. }
  cbn [expunge_one]. set (meta := GetMessageMetadata u k uid (db (sto s))). destruct (deleted meta); [| by apply IH].
  set (s1 := {| sto := set_db (DeleteMessage now u k uid) (sto s); guard := guard s; pool := (u, ref_of meta) :: pool s |}).
  set (rm1 := {| rm_refs := _; rm_seqs := _; rm_uids := _ |}).
  assert (Hrm1 : Forall (fun r => (u, r) ∈ pool s1) (rm_refs rm1)).
  { cbn. apply Forall_app. split; [| constructor; [by left | constructor]]. eapply Forall_impl; [done |]. intros r Hr. by right. }
  destruct (IH rm1 s1 Hrm1) as (p & Hp & Hf). exists p. split; [| done]. eapply star_trans; [apply star_one, sy_delete | exact Hp].
Qed.

Lemma ExpungeReport_steps now u k s : guard s !! u = None ->
  exists p, star sys_step s {| sto := snd (ExpungeReport (Some refuses) pending iter now u k (sto s)); guard := guard s; pool := p |}.
Proof.
  intros Hg. unfold ExpungeReport. destruct (expunge_steps now u k (numbered u k (sto s)) nothing_removed s) as (p & Hp & Hf); [constructor |].
  destruct (foldl (expunge_one now u k) (nothing_removed, sto s) (numbered u k (sto s))) as [rm st]. cbn [fst snd] in *.
  exists p. eapply star_trans; [exact Hp |].
  eapply star_trans; [apply star_one, (sy_release u (rm_refs rm)); done |]. apply star_one.
  refine (sy_other (notifyExpunged u k (rm_seqs rm) _) (set_sto _ {| sto := st; guard := guard s; pool := p |}) _ _ _); done.
Qed.
End System.

(** ** A run *)
(** Two sessions: one appends, another appends the same content, the first message is
    flagged and expunged: the blob stays for the second. *)
Section Example.
#[local] Instance ex_tables : UnicodeTables := ascii_tables.
#[local] Instance ex_crypto : Crypto := toy_crypto.
Definition never (l : list (gostring * Z)) (u : gostring) (d : Z) : bool := false.
Definition in_play (d : gostring) : Prop := d = "one".
Definition ex_io : IO := {| file_written := true; row_written := true |}.
Definition ex_append (s : Sys) : Sys :=
  set_sto (fun st => snd (append_locked None (Some never) (fun _ _ => false) map_to_list ex_io 7 "ann" "INBOX" ["\Deleted" : gostring] 5 "one" st)) s.
Definition ex_two : Sys := ex_append (ex_append sys_init).
Definition ex_step := sys_step None never (fun _ _ => false) map_to_list in_play.

Lemma ex_two_reachable : star ex_step sys_init ex_two.
Proof.
  assert (H : forall s, guard s = ∅ -> star ex_step s (ex_append s)).
  { intros s Hg. apply append_locked_steps; [by rewrite Hg | done]. }
  eapply star_trans; apply H; done.
Qed.


Lemma references_find_no_thread_witness :
  threadByReferencesTx "ann" "INBOX" "1@example.org" ["2@example.org" : gostring] (db (sto ex_two)) = [].
Proof.
  apply (references_find_no_thread None never (fun _ _ => false) map_to_list in_play);
    [intros a b -> ->; done | done | done | exact ex_two_reachable | | repeat constructor]; apply (bool_decide_unpack _); vm_compute; exact I.
Defined.
End Example.
