(* ===== verification/ImapSearchProps.v ===== *)
(** * SEARCH answers what the keys say

    [skey] is the abstract syntax of search keys, [spells_seq] the grammar of RFC 3501
    that relates it to tokens, [key_holds] what a key means of one message.  A program
    the parser accepts is the reading of a sequence of keys, and its evaluation (one
    scan of the mailbox per node, sets of sequence numbers, keys merged into one
    criteria record) is the filter of the mailbox by the conjunction of these keys. *)
From Stdlib Require Import Btauto.
From S2P Require Import Prelude GoLib Utf8 Bolt ImapSeq ImapNames Scram BlobStore MailDb MailDbProps Threads ImapStore.
From S2P Require Import ImapStoreProps ImapMatch ImapSearch.

Inductive skey :=
| SSwitch (k : SwitchKey) | SText (k : TextKey) (v : gostring) | SDate (k : DateKey) (t : Z)
| SKeyword (v : gostring) | SUnkeyword (v : gostring) | SUid (set : gostring) | SSeq (set : gostring)
| SHeader (n v : gostring) | SLarger (n : Z) | SSmaller (n : Z)
| SNot (k : skey) | SOr (a b : skey) | SGroup (ks : list skey).

(** Booleans over lists *)
Lemma bool_iff (a b : bool) : (a = true <-> b = true) -> a = b.
Proof. destruct a, b; intuition. Qed.

Lemma forallb_switch {A} `{EqDecision A} (f P : A -> bool) k l : k ∈ l ->
  forallb (fun x => implb (upd f k true x) (P x)) l = forallb (fun x => implb (f x) (P x)) l && P k.
Proof.
  intros Hk. apply bool_iff. rewrite andb_true_iff, !forallb_forall. unfold upd. split.
  - intros H. split.
    + intros x Hx. specialize (H x Hx). case_bool_decide; [| done]. simpl in H. by rewrite H, implb_true_r.
    + apply list_elem_of_In in Hk. specialize (H k Hk). by rewrite bool_decide_true in H by done.
  - intros [H HP] x Hx. case_bool_decide; [subst; by rewrite HP |]. auto.
Qed.

(** A slot that is set from its default adds its own condition. *)
Lemma forallb_slot {A B} `{EqDecision A} (f : A -> B) (P : A -> B -> bool) k v l : k ∈ l -> P k (f k) = true ->
  forallb (fun x => P x (upd f k v x)) l = forallb (fun x => P x (f x)) l && P k v.
Proof.
  intros Hk Hd. apply bool_iff. rewrite andb_true_iff, !forallb_forall. unfold upd. split.
  - intros H. split.
    + intros x Hx. specialize (H x Hx). case_bool_decide; [by subst | done].
    + apply list_elem_of_In in Hk. specialize (H k Hk). by rewrite bool_decide_true in H by done.
  - intros [H HP] x Hx. case_bool_decide; [by subst |]. auto.
Qed.

Lemma forallb_perm {A} (f : A -> bool) (l k : list A) : l ≡ₚ k -> forallb f l = forallb f k.
Proof. induction 1 as [| x l k _ IH | x y l | l k m _ IH _ IH']; simpl; [done | by rewrite IH | by rewrite !andb_assoc, (andb_comm (f y)) | congruence]. Qed.

(** ** Meaning *)
Section Meaning.
Context {U : UnicodeTables} {M : MimeStd}.
Context (zone : MessageMetadata -> Z) (walk : gmap gostring gostring -> list (gostring * gostring)).
Context (walk_all : forall m, walk m ≡ₚ map_to_list m).
Context (s : Session) (recentUIDs : gset Z) (user mailbox : gostring) (st : MStore).

Definition live : list Z := GetMessageUIDs user mailbox (db st).
Definition maxUID : Z := foldr Z.max 0 live.
Definition meta_of (su : Z * Z) : MessageMetadata := GetMessageMetadata user mailbox su.2 (db st).
Definition data_of (su : Z * Z) : option gostring :=
  match BlobStore.ReadMessage user (MessageID (meta_of su)) (msgStore st) with Ok d => Some d | Err _ => None end.
Definition ranges_of (set : gostring) : list SeqRange := match ParseSequenceSet set with Ok r => r | Err _ => [] end.

(** The message at a position of the mailbox as the session numbers it. *)
Definition named (set : gostring) (su : Z * Z) : bool :=
  if snapOn s then existsb (fun qu => (qu.2 =? su.2) && inSeqRanges (ranges_of set) qu.1 (Z.of_nat (length (snap s)))) (numbered_from 1 (snap s))
  else inSeqRanges (ranges_of set) su.1 (Z.of_nat (length live)).
Definition uid_named (set : gostring) (su : Z * Z) : bool := blank set || inSeqRanges (ranges_of set) su.2 maxUID.

Definition with_data (su : Z * Z) (f : gostring -> bool) : bool := match data_of su with Some d => f d | None => false end.
Definition text_holds (k : TextKey) (v : gostring) (su : Z * Z) : bool :=
  blank v || if is_content k then with_data su (fun d => content_holds d k v) else meta_holds (meta_of su) k v.
Definition header_true (n v : gostring) (su : Z * Z) : bool :=
  with_data su (fun d => match header_holds d n v with Some b => b | None => false end).

Fixpoint key_holds (su : Z * Z) (k : skey) : bool :=
  match k with
  | SSwitch k => switch_holds recentUIDs (meta_of su) k
  | SText k v => text_holds k v su
  | SDate k t => IsZero t || date_holds zone (meta_of su) k t
  | SKeyword v => hasFlag (Flags (meta_of su)) v
  | SUnkeyword v => negb (hasFlag (Flags (meta_of su)) v)
  | SUid set => uid_named set su
  | SSeq set => named set su
  | SHeader n v => header_true n v su
  | SLarger n => n <? Size (meta_of su)
  | SSmaller n => Size (meta_of su) <? n
  | SNot k => negb (key_holds su k)
  | SOr a b => key_holds su a || key_holds su b
  | SGroup ks => forallb (key_holds su) ks
  end.

(** Every UID set of the keys is a sequence set. *)
Fixpoint sets_ok (k : skey) : bool :=
  match k with
  | SUid set => is_ok (ParseSequenceSet set)
  | SNot k => sets_ok k
  | SOr a b => sets_ok a && sets_ok b
  | SGroup ks => forallb sets_ok ks
  | _ => true
  end.

(** ** Criteria as conjunctions *)
Definition flat_holds (c : SearchCriteria) (su : Z * Z) : bool :=
  (blank (SeqSet c) || named (SeqSet c) su) && uid_named (UIDSet c) su
  && own_keys_hold zone (meta_of su) (set_recent recentUIDs c)
  && forallb (fun k => negb (is_content k) || text_holds k (text c k) su) text_keys
  && forallb (fun nv => header_true nv.1 nv.2 su) (map_to_list (Header c)).

(** Which slots are set, by the names [searchKeyID] gives them. *)
Definition text_name (k : TextKey) : gostring :=
  match k with KFrom => "FROM" | KTo => "TO" | KCc => "CC" | KBcc => "BCC" | KSubject => "SUBJECT" | KBody => "BODY" | KText => "TEXT" end.
Definition date_name (k : DateKey) : gostring :=
  match k with KBefore => "BEFORE" | KOn => "ON" | KSince => "SINCE" | KSentBefore => "SENTBEFORE" | KSentOn => "SENTON" | KSentSince => "SENTSINCE" end.
Record slots (used : gset gostring) (c : SearchCriteria) : Prop := {
  sl_text : forall k, text c k <> [] -> text_name k ∈ used;
  sl_date : forall k, date c k <> zero_time -> date_name k ∈ used;
  sl_header : forall n, is_Some (Header c !! n) -> ("HEADER:" ++ ToLower n : gostring) ∈ used;
  sl_uid : UIDSet c <> [] -> ("UID" : gostring) ∈ used;
  sl_seq : SeqSet c <> [] -> ("SEQSET" : gostring) ∈ used;
  sl_larger : is_Some (Larger c) -> ("LARGER" : gostring) ∈ used;
  sl_smaller : is_Some (Smaller c) -> ("SMALLER" : gostring) ∈ used
}.
Lemma slots_all used : slots used all_criteria.
Proof. split; simpl; try done; intros ?; rewrite ?lookup_empty; intros [? ?]; done. Qed.
Lemma slots_mono used used' c : used ⊆ used' -> slots used c -> slots used' c.
Proof. intros Hs []; split; eauto. Qed.

(** The plain key that a key name with its arguments is. *)
Definition key_of (vals : list gostring) : option skey :=
  match vals with
  | [v0] => match switch_key (ToUpper v0) with
  | Some k => Some (SSwitch k)
  | None => match searchKeyArity (ToUpper v0) with
  | None => if isSequenceSetToken v0 then Some (SSeq (ToUpper v0)) else None
  | Some _ => None
  end
  end
  | [v0; v] =>
      let key := ToUpper v0 in
      match text_key key, date_key key with
      | Some k, _ => Some (SText k v)
      | None, Some k => SDate k <$> parseIMAPDate v
      | None, None =>
          if key =s? "KEYWORD" then Some (SKeyword v) else if key =s? "UNKEYWORD" then Some (SUnkeyword v)
          else if key =s? "UID" then Some (SUid v)
          else if key =s? "LARGER" then match ParseInt v with Ok n => if n <? 0 then None else Some (SLarger n) | Err _ => None end
          else if key =s? "SMALLER" then match ParseInt v with Ok n => if n <? 0 then None else Some (SSmaller n) | Err _ => None end
          else None
      end
  | [v0; n; v] => if ToUpper v0 =s? "HEADER" then Some (SHeader n v) else None
  | _ => None
  end.

(** *** What each setter adds *)
Ltac unflat := unfold flat_holds, own_keys_hold;
  cbn [set_switch set_text set_date set_lists set_UIDSet set_SeqSet set_Header set_sizes set_recent
    switch recent Keyword Unkeyword SeqSet UIDSet text Header date Larger Smaller].

Lemma in_switches k : k ∈ switches.
Proof. destruct k; unfold switches; set_solver. Qed.
Lemma in_text_keys k : k ∈ text_keys.
Proof. destruct k; unfold text_keys; set_solver. Qed.
Lemma in_date_keys k : k ∈ date_keys.
Proof. destruct k; unfold date_keys; set_solver. Qed.

Lemma flat_switch k c su : flat_holds (set_switch k c) su = flat_holds c su && switch_holds recentUIDs (meta_of su) k.
Proof. unflat. rewrite (forallb_switch (switch c)) by apply in_switches. btauto. Qed.

Lemma flat_text k v c su : text c k = [] -> flat_holds (set_text k v c) su = flat_holds c su && text_holds k v su.
Proof.
  intros Hk. unflat.
  rewrite (forallb_slot (text c) (fun k x => blank x || meta_holds (meta_of su) k x)), (forallb_slot (text c) (fun k x => negb (is_content k) || text_holds k x su))
    by (first [apply in_text_keys | by rewrite Hk; unfold text_holds, blank; rewrite ?bool_decide_true, ?orb_true_r by done]).
  assert ((blank v || meta_holds (meta_of su) k v) && (negb (is_content k) || text_holds k v su) = text_holds k v su) as <-.
  { unfold text_holds. destruct k; cbn [is_content meta_holds negb orb]; btauto. }
  btauto.
Qed.

Lemma flat_date k t c su : date c k = zero_time ->
  flat_holds (set_date k t c) su = flat_holds c su && (IsZero t || date_holds zone (meta_of su) k t).
Proof.
  intros Hk. unflat. rewrite (forallb_slot (date c) (fun k x => IsZero x || date_holds zone (meta_of su) k x)); [btauto | apply in_date_keys |].
  rewrite Hk. unfold IsZero. by rewrite Z.eqb_refl.
Qed.

Lemma flat_lists kw unkw c su : flat_holds (set_lists kw unkw c) su =
  flat_holds c su && (forallb (fun k => hasFlag (Flags (meta_of su)) k) kw && forallb (fun k => negb (hasFlag (Flags (meta_of su)) k)) unkw).
Proof. unflat. rewrite !forallb_app. btauto. Qed.

Lemma flat_uid set c su : UIDSet c = [] -> flat_holds (set_UIDSet set c) su = flat_holds c su && uid_named set su.
Proof. intros Hu. unflat. rewrite Hu. replace (uid_named [] su) with true by reflexivity. btauto. Qed.

Lemma flat_seq set c su : SeqSet c = [] -> set <> [] -> flat_holds (set_SeqSet set c) su = flat_holds c su && named set su.
Proof. intros Hu Hn. unflat. rewrite Hu. unfold blank. rewrite (bool_decide_false (set = [])), bool_decide_true by done. btauto. Qed.

Lemma flat_header n v c su : Header c !! n = None -> flat_holds (set_Header n v c) su = flat_holds c su && header_true n v su.
Proof.
  intros Hn. unflat. rewrite (forallb_perm _ _ _ (map_to_list_insert (Header c) n v Hn)). cbn [forallb fst snd]. btauto.
Qed.

Lemma flat_larger n c su : Larger c = None -> flat_holds (set_sizes (Some n) (Smaller c) c) su = flat_holds c su && (n <? Size (meta_of su)).
Proof. intros Hn. unflat. rewrite Hn. btauto. Qed.
Lemma flat_smaller n c su : Smaller c = None -> flat_holds (set_sizes (Larger c) (Some n) c) su = flat_holds c su && (Size (meta_of su) <? n).
Proof. intros Hn. unflat. rewrite Hn. btauto. Qed.

(** *** The key a plain key is *)
Lemma text_key_name key k : text_key key = Some k -> key = text_name k.
Proof. unfold text_key. repeat (case_bool_decide; [by intros [= <-] |]). done. Qed.
Lemma date_key_name key k : date_key key = Some k -> key = date_name k.
Proof. unfold date_key. repeat (case_bool_decide; [by intros [= <-] |]). done. Qed.
Lemma switch_not_slot key k : switch_key key = Some k -> text_key key = None /\ date_key key = None /\
  key <> "HEADER" /\ key ∉ ["UID" : gostring; "LARGER" : gostring; "SMALLER" : gostring].
Proof.
  unfold switch_key. repeat (case_bool_decide; [intros _; subst; split_and!; [reflexivity.. | done |]; apply (bool_decide_unpack _); vm_compute; reflexivity |]). done.
Qed.

Lemma TrimLeft_all set x : TrimRight (TrimLeft x set) set = [] -> forallb (in_set set) x = true.
Proof.
  induction x as [| c x IH]; [done |]. cbn [TrimLeft forallb]. destruct (in_set set c) eqn:E; [exact IH |].
  unfold TrimRight. intros H. exfalso. apply (f_equal (@rev ascii)) in H. rewrite rev_involutive in H. cbn [rev] in H.
  assert (Ht : forall l, TrimLeft (l ++ [c]) set <> []).
  { induction l as [| d l IHl]; cbn [app TrimLeft]; [by rewrite E |]. by destruct (in_set set d). }
  by apply (Ht (rev x)).
Qed.

Lemma seq_token_upper v : isSequenceSetToken v = true -> ToUpper v = v /\ v <> [].
Proof.
  unfold isSequenceSetToken. rewrite !andb_true_iff. intros [[Hn Ht] _]. apply bool_decide_eq_true_1, TrimLeft_all in Ht.
  split; [| by apply negb_true_iff, bool_decide_eq_false_1 in Hn].
  assert (H : forall c, in_set "0123456789:,*" c = true -> is_ascii c = true /\ ascii_upper c = c).
  { intros c. unfold in_set. cbn. rewrite !orb_true_iff, !Ascii.eqb_eq. intros Hc.
    repeat destruct Hc as [<- | Hc]; try done. }
  unfold ToUpper. replace (isASCII v) with true.
  - clear Hn. induction v as [| c v IH]; [done |]. cbn in Ht |- *. apply andb_true_iff in Ht as [Hc Hv]. destruct (H c Hc) as [_ ->]. by rewrite IH.
  - symmetry. unfold isASCII. rewrite forallb_forall in Ht |- *. intros c Hc. by apply H, Ht.
Qed.

Definition take_slot (id : gostring) (used : gset gostring) : gset gostring := if bool_decide (id = []) then used else {[id]} ∪ used.

(** Criteria the parser builds. *)
Record built (c : SearchCriteria) : Prop := { b_not : Not c = None; b_or : Or c = None; b_seq : is_ok (ParseSequenceSet (SeqSet c)) = true }.
Definition uid_ok (c : SearchCriteria) : bool := is_ok (ParseSequenceSet (UIDSet c)).
Lemma built_all : built all_criteria /\ uid_ok all_criteria = true.
Proof. split; [split |]; reflexivity. Qed.

(** What adding a key to criteria does. *)
Definition adds (c : SearchCriteria) (used : gset gostring) (id : gostring) (key : skey) (c' : SearchCriteria) : Prop :=
  (built c -> built c') /\ (uid_ok c = true -> sets_ok key = true -> uid_ok c' = true) /\
  (slots used c -> id = [] \/ (id ∉ used) ->
    (forall su, flat_holds c' su = flat_holds c su && key_holds su key) /\ slots (take_slot id used) c').

Lemma take_slot_mono x id used : x ∈ used -> x ∈ take_slot id used.
Proof. unfold take_slot. case_bool_decide; set_solver. Qed.
Lemma take_slot_in id used : id <> [] -> id ∈ take_slot id used.
Proof. intros. unfold take_slot. rewrite bool_decide_false by done. set_solver. Qed.

Ltac slots_tac Hs := destruct Hs; split;
  cbn [set_switch set_text set_date set_lists set_UIDSet set_SeqSet set_Header set_sizes text date Header UIDSet SeqSet Larger Smaller];
  unfold upd; intros;
  repeat case_bool_decide; subst; first [by apply take_slot_in; vm_compute | apply take_slot_mono; by eauto | idtac].

Lemma adds_switch c used k : adds c used [] (SSwitch k) (set_switch k c).
Proof. split_and!; [by intros []; split | done |]. intros Hs _. split; [apply flat_switch |]. slots_tac Hs. Qed.
Lemma adds_text c used k v : adds c used (text_name k) (SText k v) (set_text k v c).
Proof.
  split_and!; [by intros []; split | done |]. intros Hs Hid.
  assert (Hn : text_name k <> []) by (by destruct k). destruct Hid as [? | Hid]; [done |]. split.
  - intros su. apply flat_text. destruct (decide (text c k = [])) as [| Hne]; [done |]. by apply (sl_text _ _ Hs) in Hne.
  - slots_tac Hs.
Qed.
Lemma adds_date c used k t : adds c used (date_name k) (SDate k t) (set_date k t c).
Proof.
  split_and!; [by intros []; split | done |]. intros Hs Hid.
  assert (Hn : date_name k <> []) by (by destruct k). destruct Hid as [? | Hid]; [done |]. split.
  - intros su. apply flat_date. destruct (decide (date c k = zero_time)) as [| Hne]; [done |]. by apply (sl_date _ _ Hs) in Hne.
  - slots_tac Hs.
Qed.
Lemma adds_keyword c used v : adds c used [] (SKeyword v) (set_lists [v] [] c).
Proof. split_and!; [by intros []; split | done |]. intros Hs _. split; [intros su; rewrite flat_lists; cbn; btauto |]. slots_tac Hs. Qed.
Lemma adds_unkeyword c used v : adds c used [] (SUnkeyword v) (set_lists [] [v] c).
Proof. split_and!; [by intros []; split | done |]. intros Hs _. split; [intros su; rewrite flat_lists; cbn; btauto |]. slots_tac Hs. Qed.
Lemma adds_uid c used v : adds c used "UID" (SUid v) (set_UIDSet v c).
Proof.
  split_and!; [by intros []; split | done |]. intros Hs Hid. destruct Hid as [? | Hid]; [done |]. split; [| slots_tac Hs].
  intros su. apply flat_uid. destruct (decide (UIDSet c = [])) as [| Hne]; [done |]. by apply (sl_uid _ _ Hs) in Hne.
Qed.
Lemma adds_seq c used v : isSequenceSetToken v = true -> adds c used "SEQSET" (SSeq v) (set_SeqSet v c).
Proof.
  intros Hv. split_and!; [intros []; split; try done | done |].
  { cbn. unfold isSequenceSetToken in Hv. by apply andb_true_iff in Hv as [_ ?]. }
  intros Hs Hid. destruct Hid as [? | Hid]; [done |]. split; [| slots_tac Hs].
  intros su. apply flat_seq; [| by apply seq_token_upper in Hv as [_ ?]].
  destruct (decide (SeqSet c = [])) as [| Hne]; [done |]. by apply (sl_seq _ _ Hs) in Hne.
Qed.
Lemma adds_larger c used n : adds c used "LARGER" (SLarger n) (set_sizes (Some n) (Smaller c) c).
Proof.
  split_and!; [by intros []; split | done |]. intros Hs Hid. destruct Hid as [? | Hid]; [done |]. split; [| slots_tac Hs].
  intros su. apply flat_larger. destruct (Larger c) eqn:E; [| done]. exfalso. apply Hid, (sl_larger _ _ Hs). rewrite E. eauto.
Qed.
Lemma adds_smaller c used n : adds c used "SMALLER" (SSmaller n) (set_sizes (Larger c) (Some n) c).
Proof.
  split_and!; [by intros []; split | done |]. intros Hs Hid. destruct Hid as [? | Hid]; [done |]. split; [| slots_tac Hs].
  intros su. apply flat_smaller. destruct (Smaller c) eqn:E; [| done]. exfalso. apply Hid, (sl_smaller _ _ Hs). rewrite E. eauto.
Qed.
Lemma adds_header c used n v : adds c used ("HEADER:" ++ ToLower n) (SHeader n v) (set_Header n v c).
Proof.
  split_and!; [by intros []; split | done |]. intros Hs Hid. destruct Hid as [? | Hid]; [done |]. split.
  - intros su. apply flat_header. destruct (Header c !! n) eqn:E; [| done]. exfalso. apply Hid, (sl_header _ _ Hs). rewrite E. eauto.
  - slots_tac Hs. match goal with H : is_Some (<[_ := _]> _ !! ?m) |- _ => rename m into x, H into Hx end.
    destruct (decide (x = n)) as [-> |]; [by apply take_slot_in | rewrite lookup_insert_ne in Hx by done; by apply take_slot_mono, sl_header0].
Qed.

Lemma key_adds c used vals c' k : vals <> [] -> checkSearchKey vals = None -> parseSearchKey c vals = (c', k) ->
  (k < length vals)%nat /\ exists key, key_of (firstn (S k) vals) = Some key /\ adds c used (searchKeyID vals) key c'.
Proof.
  destruct vals as [| v0 rest]; [done |]. intros _. unfold checkSearchKey, parseSearchKey, searchKeyID, key_of, searchKeyArity.
  destruct (switch_key (ToUpper v0)) as [sk |] eqn:Es.
  { destruct (switch_not_slot _ _ Es) as (Et & Ed & Hh & Hu). intros _ [= <- <-]. split; [cbn; lia |]. exists (SSwitch sk).
    cbn [firstn]. rewrite Es, Et, Ed, (bool_decide_false _ Hh), (bool_decide_false _ Hu). split; [done | apply adds_switch]. }
  destruct (text_key (ToUpper v0)) as [tk |] eqn:Et.
  { rewrite (text_key_name _ _ Et). destruct rest as [| v rest]; [done |]. intros _ [= <- <-]. split; [cbn; lia |]. exists (SText tk v).
    split; [cbn [firstn]; by rewrite Et |]. replace (text_name tk =s? _) with false by (by destruct tk). apply adds_text. }
  destruct (date_key (ToUpper v0)) as [dk |] eqn:Ed.
  { rewrite (date_key_name _ _ Ed). destruct rest as [| v rest]; [done |]. cbn [length Nat.add Nat.ltb Nat.leb].
    destruct (parseIMAPDate v) as [d |] eqn:Ep; [| done].
    intros _ [= <- <-]. split; [cbn; lia |]. exists (SDate dk d). split; [cbn [firstn]; by rewrite Et, Ed, Ep |].
    replace (date_name dk =s? _) with false by (by destruct dk). apply adds_date. }
  assert (Hcases : ToUpper v0 ∈ ["KEYWORD" : gostring; "UNKEYWORD" : gostring; "UID" : gostring; "LARGER" : gostring; "SMALLER" : gostring]
    \/ ToUpper v0 = "HEADER" \/ searchKeyArity (ToUpper v0) = None).
  { unfold searchKeyArity. rewrite Es, Et, Ed. do 2 (case_bool_decide; [by auto |]). auto. }
  destruct Hcases as [Hin | [Hh | Hn]].
  - rewrite bool_decide_true by done. destruct rest as [| v rest]; [done |]. cbn [length Nat.add Nat.ltb Nat.leb firstn].
    rewrite !elem_of_cons in Hin. destruct Hin as [Hk | [Hk | [Hk | [Hk | [Hk | []%elem_of_nil]]]]]; rewrite Hk in *; cbn -[ParseInt]; rewrite ?Et, ?Ed.
    + intros _ [= <- <-]. split; [lia |]. eexists. split; [done | apply adds_keyword].
    + intros _ [= <- <-]. split; [lia |]. eexists. split; [done | apply adds_unkeyword].
    + intros _ [= <- <-]. split; [lia |]. eexists. split; [done | apply adds_uid].
    + destruct (ParseInt v) as [n |] eqn:Ep; [| done]. destruct (n <? 0) eqn:En; [done |]. intros _ [= <- <-]. split; [lia |].
      exists (SLarger n). split; [cbn -[ParseInt Z.ltb]; by rewrite Ep, En | apply adds_larger].
    + destruct (ParseInt v) as [n |] eqn:Ep; [| done]. destruct (n <? 0) eqn:En; [done |]. intros _ [= <- <-]. split; [lia |].
      exists (SSmaller n). split; [cbn -[ParseInt Z.ltb]; by rewrite Ep, En | apply adds_smaller].
  - rewrite Hh. destruct rest as [| n [| v rest]]; [done.. |]. intros _ [= <- <-]. split; [cbn; lia |]. exists (SHeader n v).
    split; [cbn [firstn]; by rewrite Hh | apply adds_header].
  - unfold searchKeyArity in Hn. rewrite Es, Et, Ed in Hn. case_bool_decide as Hni; [done |]. case_bool_decide as Hnh; [done |].
    rewrite (bool_decide_false (ToUpper v0 ∈ ["UID" : gostring; _; _])) by set_solver.
    pose proof Hni as Hni'. rewrite !elem_of_cons in Hni. rewrite !bool_decide_false by tauto.
    destruct (isSequenceSetToken v0) eqn:Eq; [| done]. destruct (seq_token_upper _ Eq) as [Hup _]. rewrite Hup, Eq in *.
    intros _ [= <- <-]. split; [cbn; lia |]. exists (SSeq v0). cbn [firstn].
    split; [| by apply adds_seq]. rewrite Hup, Es, Et, Ed, (bool_decide_false _ Hni'), (bool_decide_false _ Hnh). by rewrite Eq.
Qed.

(** ** The grammar *)
Definition is_paren (t : imapToken) : bool := is_open t || is_close t.
Inductive spells_one : list imapToken -> skey -> Prop :=
  | sp_plain t args k : is_word "NOT" t = false -> is_word "OR" t = false -> Forall (fun t => is_paren t = false) (t :: args) ->
  key_of (map val (t :: args)) = Some k -> spells_one (t :: args) k
  | sp_not t ts k : is_word "NOT" t = true -> spells_one ts k -> spells_one (t :: ts) (SNot k)
  | sp_or t ts us a b : is_word "NOT" t = false -> is_word "OR" t = true -> spells_one ts a -> spells_one us b -> spells_one (t :: ts ++ us) (SOr a b)
  | sp_group o ts c ks : is_open o = true -> spells_seq ts ks -> is_close c = true -> spells_one (o :: ts ++ [c]) (SGroup ks)
  with spells_seq : list imapToken -> list skey -> Prop :=
  | sp_nil : spells_seq [] []
  | sp_cons ts us k ks : spells_one ts k -> spells_seq us ks -> spells_seq (ts ++ us) (k :: ks).

(** ** Programs, message by message *)
Fixpoint expr_holds (su : Z * Z) (e : searchExpr) : bool :=
  match e with SearchExpr c ts => flat_holds c su && forallb (term_holds su) ts end
  with term_holds (su : Z * Z) (t : searchTerm) : bool :=
  match t with
  | TNot x => negb (expr_holds su x)
  | TOr a b => expr_holds su a || expr_holds su b
  | TSub x => expr_holds su x
  end.

Inductive expr_ok : searchExpr -> Prop :=
  | ok_expr c ts : built c -> uid_ok c = true -> Forall term_ok ts -> expr_ok (SearchExpr c ts)
  with term_ok : searchTerm -> Prop :=
  | ok_not x : expr_ok x -> term_ok (TNot x)
  | ok_or a b : expr_ok a -> expr_ok b -> term_ok (TOr a b)
  | ok_sub x : expr_ok x -> term_ok (TSub x).

(** A program reads as a sequence of keys. *)
Definition reads (e : searchExpr) (ks : list skey) : Prop :=
  (forallb sets_ok ks = true -> expr_ok e) /\ forall su, expr_holds su e = forallb (key_holds su) ks.

Lemma flat_all su : flat_holds all_criteria su = true.
Proof. unfold flat_holds. change (Header all_criteria) with (∅ : gmap gostring gostring). rewrite map_to_list_empty. reflexivity. Qed.
Lemma reads_nil : reads (SearchExpr all_criteria []) [].
Proof. split; [constructor; [apply built_all.. | constructor] |]. intros su. cbn [expr_holds forallb]. by rewrite flat_all. Qed.

Lemma reads_key c k : adds all_criteria ∅ [] k c \/ (exists id, adds all_criteria ∅ id k c) -> reads (SearchExpr c []) [k].
Proof.
  intros [H | [id H]]; destruct H as (Hb & Hu & Hs); destruct built_all as [Ha Hua].
  all: destruct (Hs (slots_all ∅)) as [Hf _]; [set_solver |].
  all: split; [intros Hk; cbn in Hk; rewrite andb_true_r in Hk; constructor; auto |].
  all: intros su; cbn [expr_holds forallb]; by rewrite Hf, flat_all, !andb_true_r.
Qed.

Lemma reads_term e ks t k : reads e ks -> (sets_ok k = true -> term_ok t) -> (forall su, term_holds su t = key_holds su k) ->
  reads (SearchExpr (flat e) (terms e ++ [t])) (ks ++ [k]).
Proof.
  intros [Hok He] Ht Hk. destruct e as [c ts]. cbn [flat terms]. split.
  - rewrite forallb_app. cbn [forallb]. rewrite andb_true_r, andb_true_iff. intros [H1 H2]. specialize (Hok H1).
    inversion Hok; subst. constructor; [done.. |]. apply Forall_app; auto.
  - intros su. specialize (He su). cbn [expr_holds] in *. rewrite !forallb_app, <- He. cbn [forallb]. rewrite Hk. btauto.
Qed.

Lemma reads_plain e ks used id c k : reads e ks -> slots used (flat e) -> adds (flat e) used id k c -> id = [] \/ (id ∉ used) ->
  reads (SearchExpr c (terms e)) (ks ++ [k]).
Proof.
  intros [Hok He] Hsl (Hb & Hu & Hs) Hid. destruct e as [c0 ts]. cbn [flat terms] in *. destruct (Hs Hsl Hid) as [Hf _]. split.
  - rewrite forallb_app. cbn [forallb]. rewrite andb_true_r, andb_true_iff. intros [H1 H2]. specialize (Hok H1).
    inversion Hok; subst. constructor; auto.
  - intros su. specialize (He su). cbn [expr_holds] in *. rewrite forallb_app, <- He, Hf. cbn [forallb]. btauto.
Qed.

Lemma add_plain_reads e ks used vals e' used' k : vals <> [] -> checkSearchKey vals = None -> add_plain e used vals = (e', used', k) ->
  reads e ks -> slots used (flat e) ->
  (k < length vals)%nat /\ exists key, key_of (firstn (S k) vals) = Some key /\ reads e' (ks ++ [key]) /\ slots used' (flat e').
Proof.
  intros Hv Hc Ha Hr Hsl. unfold add_plain in Ha.
  assert (Hplain : forall c j, parseSearchKey (flat e) vals = (c, j) -> searchKeyID vals = [] \/ (searchKeyID vals ∉ used) ->
    (j < length vals)%nat /\ exists key, key_of (firstn (S j) vals) = Some key /\ reads (SearchExpr c (terms e)) (ks ++ [key]) /\
    slots (take_slot (searchKeyID vals) used) c).
  { intros c j Hp Hid. destruct (key_adds (flat e) used vals c j Hv Hc Hp) as (Hj & key & Hk & Hadds). split; [done |].
    exists key. split_and!; [done | by eapply reads_plain |]. by apply Hadds. }
  unfold take_slot in Hplain. case_bool_decide as Hid.
  - destruct (parseSearchKey (flat e) vals) as [c j] eqn:Ep. injection Ha as <- <- <-. apply Hplain; auto.
  - case_bool_decide as Hin.
    + destruct (parseSearchKey all_criteria vals) as [c j] eqn:Ep. injection Ha as <- <- <-.
      destruct (key_adds all_criteria ∅ vals c j Hv Hc Ep) as (Hj & key & Hk & Hadds). split; [done |].
      destruct (reads_key c key) as [Hok Hh]; [eauto |].
      exists key. split_and!; [done | | done]. apply reads_term; [done | |].
      * intros Hs. constructor. apply Hok. cbn. by rewrite Hs.
      * intros su. cbn [term_holds]. rewrite Hh. cbn. by rewrite andb_true_r.
    + destruct (parseSearchKey (flat e) vals) as [c j] eqn:Ep. injection Ha as <- <- <-. apply Hplain; auto.
Qed.

Lemma plain_args_firstn n toks j : (j <= length (plain_args n toks))%nat ->
  firstn j (plain_args n toks) = map val (firstn j toks) /\ Forall (fun t => is_paren t = false) (firstn j toks).
Proof.
  revert toks j. induction n as [| n IH]; intros toks j Hj; [by destruct j; [| cbn in Hj; lia] |].
  destruct toks as [| t r]; cbn [plain_args] in *; [by destruct j; [| cbn in Hj; lia] |]. fold (is_paren t) in *.
  destruct (is_paren t) eqn:E; cbn [length] in Hj; [by destruct j; [| lia] |]. destruct j as [| j]; [done |]. cbn [firstn map].
  destruct (IH r j) as [H1 H2]; [lia |]. rewrite H1. auto.
Qed.

(** A plain key at the head of the tokens. *)
Lemma plain_spells t r j key : is_paren t = false -> is_word "NOT" t = false -> is_word "OR" t = false ->
  (j < length (plainKeyArgs (t :: r)))%nat -> key_of (firstn (S j) (plainKeyArgs (t :: r))) = Some key ->
  spells_one (firstn (S j) (t :: r)) key.
Proof.
  intros Hp Hn Ho Hj Hk. destruct (plain_args_firstn 3 (t :: r) (S j)) as [H1 H2]; [exact Hj |]. unfold plainKeyArgs in Hk. rewrite H1 in Hk.
  cbn [firstn] in *. by apply sp_plain.
Qed.
Lemma plainKeyArgs_cons t r : is_paren t = false -> plainKeyArgs (t :: r) <> [].
Proof. unfold plainKeyArgs, is_paren. cbn [plain_args]. by intros ->. Qed.

(** ** The parser reads the grammar *)
Definition one_sound (n : nat) : Prop := forall d m toks e rest m', parseSearchOne n d m toks = Ok (e, rest, m') ->
  exists front k, toks = front ++ rest /\ spells_one front k /\ reads e [k].
(** The tokens of a sequence, with the closing parenthesis of a group. *)
Definition ends (inGroup : bool) (toks front rest : list imapToken) : Prop :=
  if inGroup then exists c, is_close c = true /\ toks = front ++ c :: rest else toks = front /\ rest = [].
Definition seq_sound (n : nat) : Prop := forall d m g toks e rest m', parseSearchSeq n d m g toks = Ok (e, rest, m') ->
  exists front ks, ends g toks front rest /\ spells_seq front ks /\ reads e ks.
Definition loop_sound (n : nat) : Prop := forall d m g e used toks ks0 e' rest m', seq_loop n d m g e used toks = Ok (e', rest, m') ->
  reads e ks0 -> slots used (flat e) ->
  exists front ks, ends g toks front rest /\ spells_seq front ks /\ reads e' (ks0 ++ ks).

Lemma ends_app g toks front rest pre : ends g toks front rest -> ends g (pre ++ toks) (pre ++ front) rest.
Proof. destruct g; cbn; [intros (c & Hc & ->); exists c; by rewrite app_assoc | by intros [-> ->]]. Qed.

Lemma reads_not x k : reads x [k] -> reads (SearchExpr all_criteria [TNot x]) [SNot k].
Proof.
  intros [Hok Hx]. split.
  - intros H. constructor; [apply built_all.. |]. repeat constructor. by apply Hok.
  - intros su. cbn [expr_holds forallb term_holds key_holds]. rewrite flat_all, Hx. cbn [forallb]. btauto.
Qed.
Lemma reads_or x y a b : reads x [a] -> reads y [b] -> reads (SearchExpr all_criteria [TOr x y]) [SOr a b].
Proof.
  intros [Hok Hx] [Hok' Hy]. split.
  - cbn [forallb sets_ok]. rewrite andb_true_r, andb_true_iff. intros [H1 H2]. constructor; [apply built_all.. |].
    repeat constructor; [apply Hok | apply Hok']; cbn; by rewrite ?H1, ?H2.
  - intros su. cbn [expr_holds forallb term_holds key_holds]. rewrite flat_all, Hx, Hy. cbn [forallb]. btauto.
Qed.
Lemma reads_group e ks : reads e ks -> reads e [SGroup ks].
Proof.
  intros [Hok He]. split; [cbn; rewrite andb_true_r; exact Hok |]. intros su. cbn [forallb key_holds]. by rewrite andb_true_r.
Qed.

Lemma one_step n : one_sound n -> seq_sound n -> one_sound (S n).
Proof.
  intros IH IHs d m toks e rest m'. cbn [parseSearchOne]. destruct (enter d m); [done |]. destruct toks as [| t r]; [done |].
  destruct (is_open t) eqn:Eo; [| destruct (is_word "NOT" t) eqn:En; [| destruct (is_word "OR" t) eqn:Er; [| destruct (is_close t) eqn:Ec; [done |]]]].
  - intros Hp. apply IHs in Hp as (front & ks & (c & Hc & ->) & Hsp & Hr). exists (t :: front ++ [c]), (SGroup ks).
    split_and!; [cbn; by rewrite <- app_assoc | by constructor | by apply reads_group].
  - destruct (parseSearchOne n (S d) (S m) r) as [[[x r1] m1] |] eqn:E1; [| done]. intros [= <- <- <-].
    apply IH in E1 as (front & k & -> & Hsp & Hr). exists (t :: front), (SNot k). split_and!; [done | by constructor | by apply reads_not].
  - destruct (parseSearchOne n (S d) (S m) r) as [[[x r1] m1] |] eqn:E1; [| done]. cbn [rbind].
    destruct (parseSearchOne n (S d) m1 r1) as [[[y r2] m2] |] eqn:E2; [| done]. intros [= <- <- <-].
    apply IH in E1 as (front & a & -> & Ha & Hra). apply IH in E2 as (front' & b & -> & Hb & Hrb).
    exists (t :: front ++ front'), (SOr a b). split_and!; [cbn; by rewrite app_assoc | by constructor | by apply reads_or].
  - destruct (checkSearchKey (plainKeyArgs (t :: r))) eqn:Ek; [done |].
    destruct (parseSearchKey all_criteria (plainKeyArgs (t :: r))) as [c j] eqn:Ep. intros [= <- <- <-].
    assert (Hpar : is_paren t = false) by (unfold is_paren; by rewrite Eo, Ec).
    destruct (key_adds all_criteria ∅ _ c j (plainKeyArgs_cons t r Hpar) Ek Ep) as (Hj & key & Hk & Ha).
    exists (firstn (S j) (t :: r)), key. split_and!; [symmetry; exact (take_drop (S j) (t :: r)) | by apply plain_spells | apply reads_key; eauto].
Qed.

Lemma seq_loop_step n : one_sound n -> loop_sound n -> loop_sound (S n).
Proof.
  intros IH1 IH d m g e used toks ks0 e' rest m'. cbn [seq_loop]. destruct toks as [| t r].
  { destruct g; [done |]. intros [= <- <- <-] Hr _. exists [], []. split_and!; [done | constructor | by rewrite app_nil_r]. }
  destruct (is_close t) eqn:Ec.
  { destruct g; [| done]. intros [= <- <- <-] Hr _. exists [], []. split_and!; [by exists t | constructor | by rewrite app_nil_r]. }
  destruct (is_open t || is_word "NOT" t || is_word "OR" t) eqn:Es.
  - destruct (parseSearchOne n d m (t :: r)) as [[[x r1] m1] |] eqn:E1; [| done]. cbn [rbind]. intros Hl Hr Hsl.
    apply IH1 in E1 as (front & k & -> & Hsp & [Hok Hx]).
    apply (IH _ _ _ _ _ _ (ks0 ++ [k])) in Hl as (front' & ks & He & Hsps & Hr'); [| | by destruct e].
    + exists (front ++ front'), (k :: ks). split_and!; [by apply ends_app | by constructor | by rewrite <- app_assoc in Hr'].
    + apply reads_term; [done | |].
      * intros Hs. constructor. apply Hok. cbn. by rewrite Hs.
      * intros su. cbn [term_holds]. rewrite Hx. cbn. by rewrite andb_true_r.
  - apply orb_false_iff in Es as [[Eo En]%orb_false_iff Er]. assert (Hpar : is_paren t = false) by (unfold is_paren; by rewrite Eo, Ec).
    destruct (checkSearchKey (plainKeyArgs (t :: r))) eqn:Ek; [done |].
    destruct (add_plain e used (plainKeyArgs (t :: r))) as [[e1 used1] j] eqn:Ea. intros Hl Hr Hsl.
    destruct (add_plain_reads e ks0 used _ _ _ _ (plainKeyArgs_cons t r Hpar) Ek Ea Hr Hsl) as (Hj & key & Hk & Hr1 & Hsl1).
    apply (IH _ _ _ _ _ _ (ks0 ++ [key])) in Hl as (front' & ks & He & Hsps & Hr'); [| done..].
    exists (firstn (S j) (t :: r) ++ front'), (key :: ks). split_and!.
    + rewrite <- (take_drop (S j) (t :: r)) at 1. by apply ends_app.
    + constructor; [by apply plain_spells | done].
    + by rewrite <- app_assoc in Hr'.
Qed.

Lemma parser_sound n : one_sound n /\ seq_sound n /\ loop_sound n.
Proof.
  induction n as [| n (IH1 & IH2 & IH3)]; [by split_and!; intros ? |]. split_and!.
  - by apply one_step.
  - intros d m g toks e rest m'. cbn [parseSearchSeq]. destruct (enter d m); [done |]. intros Hl.
    by apply (IH3 _ _ _ _ _ _ []) in Hl; [| apply reads_nil | apply slots_all].
  - by apply seq_loop_step.
Qed.

(** The optional charset in front of the keys. *)
Definition without_charset (toks : list imapToken) : list imapToken :=
  match toks with t :: _ :: r => if is_word "CHARSET" t then r else toks | _ => toks end.

Lemma program_reads toks e : parseSearchProgram toks = Ok e -> exists ks, spells_seq (without_charset toks) ks /\ reads e ks.
Proof.
  assert (Hrun : forall ts e, (let* (e, rest, _) := parseSearchSeq (search_fuel ts) 0 0 false ts in
    match rest with [] => Ok e | t :: _ => Err (EUnexpected (val t)) end) = Ok e -> exists ks, spells_seq ts ks /\ reads e ks).
  { intros ts x. destruct (parseSearchSeq _ _ _ _ ts) as [[[y rest] m] |] eqn:E; [| done]. cbn [rbind]. destruct rest; [| done]. intros [= <-].
    apply (proj1 (proj2 (parser_sound _))) in E as (front & ks & [-> _] & Hs & Hr). eauto. }
  unfold parseSearchProgram, without_charset. destruct toks as [| t [| cs r]]; [apply Hrun.. |].
  destruct (is_word "CHARSET" t); [| apply Hrun]. destruct (searchCharsetSupported (val cs)); [apply Hrun | done].
Qed.

(** ** Evaluation *)
Lemma numbered_lookup i l q u : (q, u) ∈ numbered_from i l <-> exists j, l !! j = Some u /\ q = i + Z.of_nat j.
Proof.
  revert i. induction l as [| x l IH]; intros i; cbn [numbered_from].
  { split; [by intros ?%not_elem_of_nil | by intros (j & ? & _)]. }
  rewrite elem_of_cons, IH. split.
  - intros [[= -> ->] | (j & Hj & ->)]; [exists 0%nat | exists (S j)]; split; cbn; try done; lia.
  - intros ([| j] & Hj & ->); cbn in Hj; [left; injection Hj as ->; f_equal; lia |]. right. exists j. split; [done | lia].
Qed.

Lemma numbered_NoDup i l : NoDup (map fst (numbered_from i l)).
Proof.
  revert i. induction l as [| x l IH]; intros i; cbn; [constructor |]. constructor; [| apply IH].
  intros H. apply list_elem_of_In, in_map_iff in H as ([q u] & Hq & Hin). apply list_elem_of_In, numbered_lookup in Hin as (j & _ & ->). cbn in Hq. lia.
Qed.

Lemma addressed_numbered l rs u : ImapSeq.addressed l rs u <-> existsb (fun qu => (qu.2 =? u) && inSeqRanges rs qu.1 (Z.of_nat (length l))) (numbered_from 1 l) = true.
Proof.
  rewrite existsb_true_iff. unfold ImapSeq.addressed, inSeqRanges. split.
  - intros (i & Hi & Hc). exists (1 + Z.of_nat i, u). split; [apply numbered_lookup; eauto |]. cbn. by rewrite Z.eqb_refl, (Z.add_comm 1).
  - intros ([q x] & Hin & H). cbn in H. apply andb_true_iff in H as [->%Z.eqb_eq Hc]. apply numbered_lookup in Hin as (j & Hj & ->).
    exists j. split; [done |]. by rewrite (Z.add_comm _ 1).
Qed.

Lemma addressed_at l rs q u : NoDup l -> (q, u) ∈ numbered_from 1 l -> ImapSeq.addressed l rs u <-> inSeqRanges rs q (Z.of_nat (length l)) = true.
Proof.
  intros Hnd (j & Hj & ->)%numbered_lookup. unfold ImapSeq.addressed, inSeqRanges. rewrite (Z.add_comm 1). split.
  - intros (i & Hi & Hc). by rewrite (NoDup_lookup _ _ _ _ Hnd Hj Hi).
  - eauto.
Qed.

Lemma Index_bound x sub i : Index x sub = Some i -> (i + length sub <= length x)%nat.
Proof.
  intros H. destruct (Index_split _ _ _ H) as [[b Hb] _]. apply (f_equal length) in Hb as Hl. rewrite !length_app, length_take in Hl.
  destruct (Nat.le_gt_cases i (length x)); [lia |]. rewrite (take_ge x i) in Hb by lia.
  apply (f_equal length) in Hb. rewrite !length_app in Hb. destruct sub; [| cbn in Hb; lia]. exfalso.
  clear Hb Hl b. revert i H H0. induction x as [| c x IH]; intros i; cbn; [by intros [= <-]; lia |]. intros [= <-]. lia.
Qed.
Lemma Index_one_None x c : Index x [c] = None -> c ∉ x.
Proof.
  induction x as [| d x IH]; [intros _; apply not_elem_of_nil |]. cbn [Index HasPrefix]. rewrite andb_true_r.
  destruct (_ =? _)%char eqn:Ec; [done |]. apply Ascii.eqb_neq in Ec. destruct (Index x [c]) eqn:E; [done |]. intros _. apply not_elem_of_cons. auto.
Qed.

(** Where the line was found there is room for the text behind it. *)
Lemma field_index_bound x n i : field_index (x ++ [byte_of 10]) (n ++ [":"%char]) = Some i -> (i + length (n ++ [":"%char]) <= length x)%nat.
Proof.
  unfold field_index. set (hl := n ++ [":"%char]). destruct (Index _ (byte_of 13 :: byte_of 10 :: hl)) as [j |] eqn:E1.
  { intros [= <-]. apply Index_bound in E1. rewrite length_app in E1. cbn [length] in E1. lia. }
  destruct (Index _ (byte_of 10 :: hl)) as [j |] eqn:E2.
  { intros [= <-]. apply Index_bound in E2. rewrite length_app in E2. cbn [length] in E2. lia. }
  intros E3. pose proof (Index_bound _ _ _ E3) as Hb. rewrite length_app in Hb. cbn [length] in Hb.
  destruct (decide (i + length hl = length x + 1)%nat) as [Heq |]; [| lia]. exfalso.
  destruct (Index_split _ _ _ E3) as [[b Hs] _]. assert (b = []) as ->.
  { apply (f_equal length) in Hs. rewrite !length_app, length_take, length_app in Hs. cbn [length] in Hs. apply nil_length_inv. lia. }
  rewrite app_nil_r in Hs. unfold hl in Hs. rewrite app_assoc in Hs. apply app_inj_tail in Hs as [_ Hc]. discriminate Hc.
Qed.

(** A message that ends with a line end never panics. *)
Lemma header_no_panic d n v x : ToLower d = x ++ [byte_of 10] -> header_holds d n v <> None.
Proof.
  intros Hd. unfold header_holds. rewrite Hd. destruct (field_index _ _) as [i |] eqn:Ei; [| done]. apply field_index_bound in Ei.
  match goal with |- context [skipn ?j _] => set (k := j) end. assert (Hk : (k <= length x)%nat) by exact Ei. clearbody k. rewrite skipn_app. replace (k - length x)%nat with 0%nat by lia. cbn [skipn].
  set (y := drop k x). match goal with |- context [if (length ?r <? _)%nat then _ else _] => set (rest := r) end.
  match goal with |- context [if (length rest <? ?e)%nat then _ else _] => set (lineEnd := e) end.
  assert (Hle : (lineEnd <= length rest)%nat).
  { unfold lineEnd. destruct (Index rest [byte_of 13; byte_of 10]) as [j |] eqn:E1; [apply Index_bound in E1; lia |].
    destruct (Index rest [byte_of 10]) as [j |] eqn:E2; [apply Index_bound in E2; lia |].
    apply Index_one_None in E2. exfalso. apply E2. unfold rest. apply elem_of_app. right. by apply list_elem_of_singleton. }
  destruct (Nat.ltb_spec (length rest) lineEnd); [lia | done].
Qed.

(** From here on: the mailbox and the view have fewer than 2^32 messages, and every
    stored message ends with a line end. *)
Definition places : list (Z * Z) := numbered_from 1 live.
Context (small_live : small live) (small_snap : small (snap s)).
Context (ends_line : forall su d, su ∈ places -> data_of su = Some d -> exists x, ToLower d = x ++ [byte_of 10]).

Definition rest_holds (c : SearchCriteria) (su : Z * Z) : bool :=
  own_keys_hold zone (meta_of su) (set_recent recentUIDs c)
  && forallb (fun k => negb (is_content k) || text_holds k (text c k) su) text_keys
  && forallb (fun nv => header_true nv.1 nv.2 su) (map_to_list (Header c)).

Lemma headers_ok su d hs : su ∈ places -> data_of su = Some d ->
  headers_hold d hs = Some (forallb (fun nv => header_true nv.1 nv.2 su) hs).
Proof.
  intros Hin Hd. induction hs as [| [n v] hs IH]; [done |]. cbn [headers_hold forallb fst snd]. unfold header_true at 1, with_data. rewrite Hd.
  destruct (ends_line su d Hin Hd) as [x Hx]. pose proof (header_no_panic d n v x Hx) as Hn. by destruct (header_holds d n v) as [[] |].
Qed.

Lemma content_ok su d c : data_of su = Some d ->
  forallb (fun k => blank (text c k) || content_holds d k (text c k)) text_keys
  = forallb (fun k => negb (is_content k) || text_holds k (text c k) su) text_keys.
Proof.
  intros Hd. apply bool_iff. rewrite !forallb_forall. split; intros H k Hk; specialize (H k Hk); revert H;
    unfold text_holds, with_data; rewrite Hd; destruct k; cbn [is_content negb orb content_holds]; rewrite ?orb_true_r; auto.
Qed.

(** A key that needs the message fails where it cannot be read; without such a key
    the message is not needed. *)
Lemma unreadable_fails su c : data_of su = None -> needs_content c = true -> rest_holds c su = false.
Proof.
  intros Hd. unfold needs_content, rest_holds. rewrite orb_true_iff. intros [Hk | Hh].
  - apply existsb_exists in Hk as (k & Hk & [Hc Hb]%andb_true_iff).
    apply andb_false_iff. left. apply andb_false_iff. right. apply not_true_iff_false. rewrite forallb_forall. intros H. specialize (H k Hk).
    unfold text_holds, with_data in H. apply negb_true_iff in Hb. by rewrite Hc, Hb, Hd in H.
  - apply andb_false_iff. right. apply negb_true_iff, bool_decide_eq_false_1 in Hh. destruct (map_to_list (Header c)) as [| nv l] eqn:E.
    + by apply map_to_list_empty_iff in E.
    + cbn [forallb]. unfold header_true at 1, with_data. by rewrite Hd.
Qed.
Lemma no_content su c : needs_content c = false -> rest_holds c su = own_keys_hold zone (meta_of su) (set_recent recentUIDs c).
Proof.
  unfold needs_content, rest_holds. rewrite orb_false_iff. intros [Hk Hh]. apply negb_false_iff, bool_decide_eq_true_1 in Hh. rewrite Hh, map_to_list_empty.
  assert (Hall : forallb (fun k => negb (is_content k) || text_holds k (text c k) su) text_keys = true).
  { apply forallb_forall. intros k Hin. apply not_true_iff_false in Hk. destruct (is_content k) eqn:Ec; [cbn [negb orb] | done].
    destruct (blank (text c k)) eqn:Eb; [unfold text_holds; by rewrite Eb |]. exfalso. apply Hk, existsb_exists. exists k. by rewrite Ec, Eb. }
  rewrite Hall. cbn [forallb]. btauto.
Qed.

Lemma scan_one_ok c sr ur hi su : su ∈ places -> built c ->
  scan_one zone walk user mailbox (set_recent recentUIDs c) sr ur hi maxUID st su =
  Some ((blank (SeqSet c) || inSeqRanges sr su.1 hi) && (blank (UIDSet c) || inSeqRanges ur su.2 maxUID) && rest_holds c su).
Proof.
  intros Hin [Hnot Hor _]. destruct su as [q u]. unfold scan_one. cbn [fst snd].
  change (SeqSet (set_recent recentUIDs c)) with (SeqSet c). change (UIDSet (set_recent recentUIDs c)) with (UIDSet c).
  destruct (blank (SeqSet c) || inSeqRanges sr q hi) eqn:E1; rewrite <- negb_orb, E1; cbn [negb andb]; [| done].
  destruct (blank (UIDSet c) || inSeqRanges ur u maxUID) eqn:E2; rewrite <- negb_orb, E2; cbn [negb andb]; [| done].
  change (needs_content (set_recent recentUIDs c)) with (needs_content c).
  assert (Hm : forall md, matchesCriteria zone walk (meta_of (q, u)) md recentUIDs (set_recent recentUIDs c) =
    if own_keys_hold zone (meta_of (q, u)) (set_recent recentUIDs c)
    then match md with Some data => content_keys_hold walk data c | None => Some true end else Some false).
  { intros md. unfold matchesCriteria. cbn [set_recent Not Or]. rewrite Hnot, Hor. reflexivity. }
  change (GetMessageMetadata user mailbox u (db st)) with (meta_of (q, u)). cbn [recent set_recent].
  destruct (needs_content c) eqn:En.
  - assert (Hdata : data_of (q, u) = match BlobStore.ReadMessage user (MessageID (meta_of (q, u))) (msgStore st) with Ok d => Some d | Err _ => None end) by done.
    destruct (BlobStore.ReadMessage _ _ _) as [d |]; [| by rewrite unreadable_fails]. rewrite Hm. unfold content_keys_hold, rest_holds.
    rewrite (content_ok (q, u)), (headers_ok (q, u)), (forallb_perm _ _ _ (walk_all (Header c))) by done.
    destruct (own_keys_hold _ _ _); [| done]. by destruct (forallb _ text_keys).
  - rewrite Hm, no_content by done. by destruct (own_keys_hold _ _ _).
Qed.

Definition found (P : Z * Z -> bool) : list Z := map fst (List.filter P places).

Lemma scan_filter f P l : (forall su, su ∈ l -> f su = Some (P su)) -> scan f l = Ok (map fst (List.filter P l)).
Proof.
  induction l as [| su l IH]; intros H; [done |]. cbn [scan]. rewrite H by left. rewrite IH by (intros; apply H; by right). cbn [rbind List.filter].
  by destruct (P su).
Qed.

Lemma found_ext P Q : (forall su, su ∈ places -> P su = Q su) -> found P = found Q.
Proof. intros H. unfold found. f_equal. apply List.filter_ext_in. intros su Hin. by apply H, list_elem_of_In. Qed.

Lemma SearchMessages_ok c rs : built c -> uid_ok c = true -> ParseSequenceSet (SeqSet c) = Ok rs ->
  SearchMessages zone walk user mailbox (set_recent recentUIDs c) st =
  Ok (found (fun su => (blank (SeqSet c) || inSeqRanges rs su.1 (Z.of_nat (length live))) && uid_named (UIDSet c) su && rest_holds c su)).
Proof.
  intros Hb Hu Hr. unfold SearchMessages. cbn [set_recent SeqSet UIDSet]. rewrite Hr. unfold uid_ok in Hu.
  unfold uid_named, ranges_of. destruct (ParseSequenceSet (UIDSet c)) as [ur |]; [| done].
  fold live. rewrite (wrap_u32_small (Z.of_nat (length live))) by (pose proof small_live as Hl; unfold small in Hl; lia). apply scan_filter.
  intros su Hin. by apply scan_one_ok.
Qed.

Lemma flat_rest c su : flat_holds c su = (blank (SeqSet c) || named (SeqSet c) su) && uid_named (UIDSet c) su && rest_holds c su.
Proof. unfold flat_holds, rest_holds. btauto. Qed.

Lemma live_NoDup : NoDup live.
Proof. unfold live, GetMessageUIDs. apply keys_NoDup. Qed.

(** A sequence set in the session's numbers, read against the snapshot. *)
Lemma named_live set out rs su : snapOn s = true -> su ∈ places -> is_ok (ParseSequenceSet set) = true ->
  seqToLive s (Some live) set = Ok out -> ParseSequenceSet out = Ok rs -> named set su = inSeqRanges rs su.1 (Z.of_nat (length live)).
Proof.
  intros Hon Hin Hok Hout Hrs. destruct su as [q u]. unfold named. rewrite Hon. cbn [fst snd].
  unfold ranges_of. destruct (ParseSequenceSet set) as [ranges |] eqn:Ep; [| done]. destruct ranges as [| r0 rest].
  { unfold seqToLive in Hout. rewrite Hon, Ep in Hout. injection Hout as <-. injection Hrs as <-.
    apply not_true_iff_false. rewrite <- addressed_numbered. by intros (i & _ & ?). }
  destruct (seqToLive_addresses s live set (r0 :: rest) u Hon Ep) as (out' & rs' & Ho & Hr & Ha); [done | exact small_snap | apply live_NoDup | exact small_live |].
  rewrite Ho in Hout. injection Hout as ->. rewrite Hr in Hrs. injection Hrs as ->.
  apply bool_iff. rewrite <- addressed_numbered, <- (addressed_at live _ q u) by (first [apply live_NoDup | done]). rewrite Ha.
  split; [intros H; split; [done |] | tauto]. apply numbered_lookup in Hin as (j & Hj & _). by eapply list_elem_of_lookup_2.
Qed.

Lemma found_nil P : found P = [] <-> forall su, su ∈ places -> P su = false.
Proof.
  unfold found. split.
  - intros H%map_eq_nil su Hin. destruct (P su) eqn:E; [| done]. assert (Hf : In su (List.filter P places)) by (apply filter_In; by rewrite <- list_elem_of_In).
    by rewrite H in Hf.
  - intros H. rewrite (List.filter_ext_in _ (fun _ => false)); [generalize places; by intros l; induction l |]. intros su Hin. by apply H, list_elem_of_In.
Qed.

Lemma eval_flat_ok c : built c -> uid_ok c = true ->
  exists base, eval_flat zone walk s recentUIDs user mailbox c st = Ok base /\ default [] base = found (flat_holds c).
Proof.
  intros Hb Hu. unfold eval_flat. fold live. destruct (snapOn s && negb (blank (SeqSet c))) eqn:Eo.
  - apply andb_true_iff in Eo as [Hon Hne%negb_true_iff]. pose proof (b_seq _ Hb) as Hok.
    assert (Hl : exists out rs, seqToLive s (Some live) (SeqSet c) = Ok out /\ ParseSequenceSet out = Ok rs).
    { destruct (ParseSequenceSet (SeqSet c)) as [[| r0 rest] |] eqn:Ep; [| | done].
      - unfold seqToLive. rewrite Hon, Ep. by exists [], [].
      - destruct (seqToLive_addresses s live _ _ 0 Hon Ep) as (out & rs & Ho & Hr & _); [done | exact small_snap | apply live_NoDup | exact small_live | eauto]. }
    destruct Hl as (out & rs & Ho & Hr). rewrite Ho. case_bool_decide as Hout.
    + exists None. split; [done |]. subst out. injection Hr as <-. cbn [default]. symmetry. apply found_nil. intros su Hin.
      by rewrite flat_rest, Hne, (named_live (SeqSet c) [] [] su).
    + rewrite (SearchMessages_ok (set_SeqSet out c) rs); [| split; [apply Hb.. | cbn; by rewrite Hr] | done | done]. cbn [rbind].
      eexists. split; [done |]. cbn [default]. apply found_ext. intros su Hin. cbn [set_SeqSet SeqSet UIDSet].
      rewrite flat_rest, Hne, (named_live (SeqSet c) out rs su) by done. unfold blank. rewrite bool_decide_false by done. reflexivity.
  - destruct (ParseSequenceSet (SeqSet c)) as [rs |] eqn:Ep; [| pose proof (b_seq _ Hb) as H; by rewrite Ep in H].
    rewrite (SearchMessages_ok c rs) by done. eexists. split; [done |]. cbn [default]. apply found_ext. intros su Hin. rewrite flat_rest.
    destruct (blank (SeqSet c)) eqn:Eb; [done |]. rewrite andb_true_r in Eo. unfold named, ranges_of. by rewrite Eo, Ep.
Qed.

Lemma elem_of_found P q : q ∈ found P <-> exists u, (q, u) ∈ places /\ P (q, u) = true.
Proof.
  unfold found. rewrite list_elem_of_In, in_map_iff. split.
  - intros ([q' u] & <- & [Hin Hp]%filter_In). exists u. split; [by apply list_elem_of_In | done].
  - intros (u & Hin%list_elem_of_In & Hp). exists (q, u). split; [done | by apply filter_In].
Qed.

Lemma places_inj q u v : (q, u) ∈ places -> (q, v) ∈ places -> u = v.
Proof. intros (i & Hi & ->)%numbered_lookup (j & Hj & Hq)%numbered_lookup. replace j with i in Hj by lia. congruence. Qed.

Lemma seqFilter_found P (l : list Z) Q keep : (forall q u, (q, u) ∈ places -> bool_decide (q ∈ l) = Q (q, u)) ->
  seqFilter (found P) l keep = found (fun su => P su && Bool.eqb (Q su) keep).
Proof.
  intros H. unfold seqFilter, found. revert H. generalize places as ps. induction ps as [| [q u] ps IH]; intros H; [done |].
  cbn [List.filter]. rewrite <- (H q u) by left. specialize (IH (fun q u Hq => H q u (list_elem_of_further _ _ _ Hq))).
  destruct (P (q, u)); cbn [andb map List.filter fst]; [| exact IH]. destruct (Bool.eqb _ keep); cbn [map fst]; by rewrite IH.
Qed.

Lemma found_mem P q u : (q, u) ∈ places -> bool_decide (q ∈ found P) = P (q, u).
Proof.
  intros Hin. apply bool_iff. rewrite bool_decide_eq_true, elem_of_found. split; [| eauto]. intros (v & Hv & Hp). by rewrite (places_inj _ _ _ Hin Hv).
Qed.

(** Induction on programs. *)
Section ExprInd.
Variables (P : searchExpr -> Prop) (Q : searchTerm -> Prop).
Hypothesis (HE : forall c ts, Forall Q ts -> P (SearchExpr c ts)) (HN : forall x, P x -> Q (TNot x))
  (HO : forall a b, P a -> P b -> Q (TOr a b)) (HS : forall x, P x -> Q (TSub x)).
Fixpoint expr_induction (e : searchExpr) : P e :=
  match e with
  | SearchExpr c ts => HE c ts ((fix go (ts : list searchTerm) : Forall Q ts :=
    match ts with [] => @Forall_nil_2 _ Q | t :: ts => @Forall_cons_2 _ Q t ts (term_induction t) (go ts) end) ts)
  end
  with term_induction (t : searchTerm) : Q t :=
  match t with
  | TNot x => HN x (expr_induction x)
  | TOr a b => HO a b (expr_induction a) (expr_induction b)
  | TSub x => HS x (expr_induction x)
  end.
End ExprInd.

Abbreviation eval := (evalSearch zone walk s recentUIDs user mailbox st).
Abbreviation eval_t := (eval_term zone walk s recentUIDs user mailbox st).

Lemma evalSearch_ok e : expr_ok e -> eval e = Ok (found (fun su => expr_holds su e)).
Proof.
  induction e as [c ts IH | x IH | a b IHa IHb | x IH] using expr_induction
    with (Q := fun t => forall P, term_ok t -> eval_t t (found P) = Ok (found (fun su => P su && term_holds su t))).
  - intros Hok. inversion Hok as [? ? Hb Hu Hts]; subst. cbn [evalSearch]. destruct (eval_flat_ok c Hb Hu) as (base & -> & Hbase). cbn [rbind].
    assert (Hgo : forall P, and_terms eval_t (found P) ts
      = Ok (found (fun su => P su && forallb (term_holds su) ts))).
    { clear Hok base Hbase. induction ts as [| t ts IHts]; intros P.
      - cbn [and_terms]. f_equal. apply found_ext. intros. cbn. by rewrite andb_true_r.
      - apply Forall_cons in IH as [IHt IH]. apply Forall_cons in Hts as [Ht Hts]. cbn [and_terms]. case_bool_decide as He.
        + f_equal. rewrite He. symmetry. rewrite found_nil in He |- *. intros su Hin. by rewrite He.
        + fold (and_terms eval_t). rewrite IHt by done. cbn [rbind]. rewrite IHts by done. f_equal. apply found_ext. intros. cbn [forallb]. btauto. }
    destruct base as [base |]; cbn in Hbase; [subst base; exact (Hgo (flat_holds c)) |].
    f_equal. symmetry in Hbase |- *. rewrite found_nil in Hbase |- *. intros su Hin. cbn [expr_holds]. by rewrite Hbase.
  - intros P Hok. inversion Hok; subst. change (eval_t (TNot x) (found P)) with (let* l := eval x in Ok (seqFilter (found P) l false)). rewrite IH by done. cbn [rbind]. f_equal.
    rewrite (seqFilter_found _ _ (fun su => expr_holds su x)) by (intros q u Hq; exact (found_mem (fun su => expr_holds su x) q u Hq)). apply found_ext. intros. cbn [term_holds]. by destruct (expr_holds su x).
  - intros P Hok. inversion Hok; subst.
    change (eval_t (TOr a b) (found P)) with (let* la := eval a in let* lb := eval b in Ok (seqFilter (found P) (la ++ lb) true)).
    rewrite IHa, IHb by done. cbn [rbind]. f_equal.
    rewrite (seqFilter_found _ _ (fun su => expr_holds su a || expr_holds su b)).
    + apply found_ext. intros. cbn [term_holds]. by destruct (_ || _).
    + intros q u Hin. rewrite <- (found_mem (fun su => expr_holds su a) q u Hin), <- (found_mem (fun su => expr_holds su b) q u Hin). rewrite <- bool_decide_or. apply bool_decide_ext. by rewrite elem_of_app.
  - intros P Hok. inversion Hok; subst. change (eval_t (TSub x) (found P)) with (let* l := eval x in Ok (seqFilter (found P) l true)). rewrite IH by done. cbn [rbind]. f_equal.
    rewrite (seqFilter_found _ _ (fun su => expr_holds su x)) by (intros q u Hq; exact (found_mem (fun su => expr_holds su x) q u Hq)). apply found_ext. intros. cbn [term_holds]. by destruct (expr_holds su x).
Qed.

(** ** Every program within the limits is accepted *)
Definition is_plain (k : skey) : bool := match k with SNot _ | SOr _ _ | SGroup _ => false | _ => true end.
Fixpoint nodes (k : skey) : nat :=
  match k with
  | SNot k => S (nodes k)
  | SOr a b => S (nodes a + nodes b)
  | SGroup ks => S (S (sum_list_with (fun k => if is_plain k then 0%nat else nodes k) ks))
  | _ => 1
  end.
Fixpoint depth (k : skey) : nat :=
  match k with
  | SNot k => S (depth k)
  | SOr a b => S (Nat.max (depth a) (depth b))
  | SGroup ks => S (S (max_list_with (fun k => if is_plain k then 0%nat else depth k) ks))
  | _ => 1
  end.
Definition all_nodes (ks : list skey) : nat := sum_list_with (fun k => if is_plain k then 0%nat else nodes k) ks.
Definition all_depth (ks : list skey) : nat := max_list_with (fun k => if is_plain k then 0%nat else depth k) ks.
Definition within_limits (ks : list skey) : bool := (S (all_depth ks) <=? maxSearchDepth)%nat && (S (all_nodes ks) <=? maxSearchNodes)%nat.

Lemma key_of_plain vals k : key_of vals = Some k -> is_plain k = true /\ vals <> [] /\ (length vals <= 3)%nat.
Proof.
  unfold key_of. destruct vals as [| v0 [| v [| w [| x l]]]]; [done | | | |done].
  - destruct (switch_key _); [intros [= <-]; split_and!; [done | done | cbn; lia] |]. destruct (searchKeyArity _); [done |]. destruct (isSequenceSetToken v0); [| done]. intros [= <-].
    split_and!; [done | done | cbn; lia].
  - destruct (text_key _); [intros [= <-]; split_and!; [done | done | cbn; lia] |]. destruct (date_key _).
    { destruct (parseIMAPDate v); [| done]. intros [= <-]. split_and!; [done | done | cbn; lia]. }
    repeat (case_bool_decide; [first [intros [= <-] | destruct (ParseInt v) as [n |]; [destruct (n <? 0); [done | intros [= <-]] | done]]; split_and!; [done | done | cbn; lia] |]). done.
  - case_bool_decide; [| done]. intros [= <-]. split_and!; [done | done | cbn; lia].
Qed.

(** The arguments a key takes do not depend on what follows. *)
Lemma key_accepted vals k extra c : key_of vals = Some k ->
  checkSearchKey (vals ++ extra) = None /\ snd (parseSearchKey c (vals ++ extra)) = (length vals - 1)%nat.
Proof.
  unfold key_of, checkSearchKey, parseSearchKey. destruct vals as [| v0 [| v [| w [| x l]]]]; [done | | | |done]; cbn [app].
  - destruct (switch_key (ToUpper v0)) as [sk |] eqn:Es.
    { intros _. unfold searchKeyArity. rewrite Es. destruct (switch_not_slot _ _ Es) as (Et & Ed & _ & Hu). destruct extra as [| v1 e]; [done |].
      cbn [length Nat.add Nat.ltb Nat.leb]. rewrite Ed. rewrite !not_elem_of_cons in Hu. rewrite !bool_decide_false by tauto. done. }
    destruct (searchKeyArity (ToUpper v0)) eqn:Ea; [done |]. destruct (isSequenceSetToken v0) eqn:Eq; [| done]. intros _. split; [done |].
    unfold searchKeyArity in Ea. rewrite Es in Ea. destruct (text_key (ToUpper v0)); [done |]. destruct (date_key (ToUpper v0)); [done |].
    case_bool_decide as Hi; [done |]. case_bool_decide as Hh; [done |]. rewrite !not_elem_of_cons in Hi. rewrite !bool_decide_false by tauto.
    destruct (seq_token_upper _ Eq) as [-> _]. by rewrite Eq.
  - destruct (text_key (ToUpper v0)) as [tk |] eqn:Et.
    { intros _. destruct (switch_key (ToUpper v0)) eqn:Es; [apply switch_not_slot in Es as [Es _]; congruence |]. unfold searchKeyArity. rewrite Es, Et.
      rewrite (text_key_name _ _ Et). by destruct tk. }
    destruct (date_key (ToUpper v0)) as [dk |] eqn:Ed.
    { destruct (parseIMAPDate v) eqn:Ep; [| done]. intros _.
      destruct (switch_key (ToUpper v0)) eqn:Es; [apply switch_not_slot in Es as (_ & Es & _); congruence |]. unfold searchKeyArity. by rewrite Es, Et, Ed. }
    repeat (case_bool_decide as Hk; [rewrite Hk in *; cbn -[ParseInt Z.ltb]; try (destruct (ParseInt v) as [n |]; [destruct (n <? 0) |]); done | clear Hk]). done.
  - case_bool_decide as Hk; [| done]. rewrite Hk. done.
Qed.

Lemma plainKeyArgs_app front rest : (length front <= 3)%nat -> Forall (fun t => is_paren t = false) front ->
  exists extra, plainKeyArgs (front ++ rest) = map val front ++ extra.
Proof.
  unfold plainKeyArgs. generalize 3%nat. induction front as [| t front IH]; intros n Hl Hf; [by eexists |].
  destruct n as [| n]; [cbn in Hl; lia |]. inversion Hf as [| ? ? Ht Hr]; subst. unfold is_paren in Ht. cbn [app plain_args map]. rewrite Ht.
  destruct (IH n) as [extra He]; [cbn in Hl; lia | done |]. exists extra. by rewrite He.
Qed.

Scheme spells_one_mut := Induction for spells_one Sort Prop with spells_seq_mut := Induction for spells_seq Sort Prop.
Combined Scheme spells_mut from spells_one_mut, spells_seq_mut.

Definition accepts_one (front : list imapToken) (k : skey) : Prop := forall fuel d n rest,
  (3 * length front <= fuel)%nat -> (d + depth k <= maxSearchDepth)%nat -> (n + nodes k <= maxSearchNodes)%nat ->
  exists e, parseSearchOne fuel d n (front ++ rest) = Ok (e, rest, n + nodes k)%nat /\ reads e [k].
Definition accepts_seq (front : list imapToken) (ks : list skey) : Prop := forall fuel d n g e used ks0 tail rest,
  (3 * length front + 1 <= fuel)%nat -> (d + all_depth ks <= maxSearchDepth)%nat -> (n + all_nodes ks <= maxSearchNodes)%nat ->
  (if g : bool then exists c, is_close c = true /\ tail = c :: rest else tail = [] /\ rest = []) -> reads e ks0 -> slots used (flat e) ->
  exists e', seq_loop fuel d n g e used (front ++ tail) = Ok (e', rest, n + all_nodes ks)%nat /\ reads e' (ks0 ++ ks).

Lemma enter_ok d n : (S d <= maxSearchDepth)%nat -> (S n <= maxSearchNodes)%nat -> enter d n = None.
Proof. intros H1 H2. unfold enter. by destruct (Nat.ltb_spec maxSearchDepth (S d)), (Nat.ltb_spec maxSearchNodes (S n)); try lia. Qed.

Lemma spells_nonempty front k : spells_one front k -> (1 <= length front)%nat.
Proof. intros H; inversion H; subst; cbn; lia. Qed.

Lemma all_depth_cons k ks : all_depth (k :: ks) = Nat.max (if is_plain k then 0 else depth k) (all_depth ks).
Proof. done. Qed.
Lemma all_nodes_cons k ks : all_nodes (k :: ks) = ((if is_plain k then 0 else nodes k) + all_nodes ks)%nat.
Proof. done. Qed.
Lemma not_paren t : is_paren t = false -> is_open t = false /\ is_close t = false.
Proof. apply orb_false_iff. Qed.
Lemma word_not_paren w t : is_word w t = true -> w = "NOT" \/ w = "OR" -> is_open t = false /\ is_close t = false.
Proof.
  unfold is_word, is_open, is_close. intros [-> Hw]%andb_true_iff Hor. cbn [andb].
  split; case_bool_decide as Hv; try done; rewrite Hv in Hw; destruct Hor as [-> | ->]; discriminate Hw.
Qed.
Lemma open_not_close t : is_open t = true -> is_close t = false.
Proof. unfold is_open, is_close. intros [-> Hv]%andb_true_iff. apply bool_decide_eq_true_1 in Hv. by rewrite Hv. Qed.

Lemma accepts_plain t args k : is_word "NOT" t = false -> is_word "OR" t = false -> Forall (fun t => is_paren t = false) (t :: args) ->
  key_of (map val (t :: args)) = Some k -> accepts_one (t :: args) k.
Proof.
  intros Hn Ho Hf Hk fuel d n rest Hfuel Hd Hnodes. destruct (key_of_plain _ _ Hk) as (Hp & _ & Hl). rewrite length_map in Hl.
  destruct (plainKeyArgs_app (t :: args) rest Hl Hf) as [extra He]. destruct fuel as [| f]; [cbn in Hfuel; lia |].
  assert (Hone : nodes k = 1%nat /\ depth k = 1%nat) by (by destruct k). destruct Hone as [Hn1 Hd1]. rewrite Hn1, Hd1 in *.
  cbn [parseSearchOne app]. rewrite enter_ok by lia. inversion Hf as [| ? ? Ht _]; subst. destruct (not_paren t Ht) as [-> ->]. rewrite Hn, Ho.
  change (t :: args ++ rest) with ((t :: args) ++ rest). rewrite He.
  destruct (key_accepted _ _ extra all_criteria Hk) as [Hc Hs]. rewrite Hc. destruct (parseSearchKey all_criteria _) as [c j] eqn:Ep. cbn [snd] in Hs.
  assert (Hv : map val (t :: args) ++ extra <> []) by done.
  destruct (key_adds all_criteria ∅ _ c j Hv Hc Ep) as (_ & key & Hkey & Ha).
  rewrite length_map in Hs. cbn [length] in Hs. replace (S j) with (length (map val (t :: args))) in Hkey by (rewrite length_map; cbn; lia).
  rewrite take_app_length in Hkey. rewrite Hk in Hkey. injection Hkey as <-.
  exists (SearchExpr c []). split; [| apply reads_key; eauto]. replace (S j) with (length (t :: args)) by (cbn; lia). rewrite drop_app_length. do 2 f_equal. lia.
Qed.

Lemma accepts_cons_plain t args us k ks : is_word "NOT" t = false -> is_word "OR" t = false -> Forall (fun t => is_paren t = false) (t :: args) ->
  key_of (map val (t :: args)) = Some k -> accepts_seq us ks -> accepts_seq ((t :: args) ++ us) (k :: ks).
Proof.
  intros Hn Ho Hf Hk IH fuel d n g e used ks0 tail rest Hfuel Hd Hnodes Hg Hr Hsl. destruct (key_of_plain _ _ Hk) as (Hp & _ & Hl). rewrite length_map in Hl.
  rewrite length_app in Hfuel. cbn [length] in Hfuel. destruct fuel as [| f]; [lia |]. rewrite <- app_assoc.
  destruct (plainKeyArgs_app (t :: args) (us ++ tail) Hl Hf) as [extra He]. rewrite all_depth_cons in Hd. rewrite all_nodes_cons in *. rewrite Hp in *.
  cbn [seq_loop app]. inversion Hf as [| ? ? Ht _]; subst. destruct (not_paren t Ht) as [-> ->]. rewrite Hn, Ho. cbn [orb].
  change (t :: args ++ us ++ tail) with ((t :: args) ++ us ++ tail). rewrite He. destruct (key_accepted _ _ extra all_criteria Hk) as [Hc _]. rewrite Hc.
  destruct (add_plain e used (map val (t :: args) ++ extra)) as [[e1 used1] j] eqn:Ea.
  assert (Hj : j = length args).
  { assert (Hcnt : forall c, snd (parseSearchKey c (map val (t :: args) ++ extra)) = length args).
    { intros c. destruct (key_accepted _ _ extra c Hk) as [_ ->]. rewrite length_map. cbn. lia. }
    unfold add_plain in Ea. pose proof (Hcnt (flat e)) as H1. pose proof (Hcnt all_criteria) as H2.
    repeat case_bool_decide; repeat destruct (parseSearchKey _ _); injection Ea as <- <- <-; done. }
  assert (Hv : map val (t :: args) ++ extra <> []) by done.
  destruct (add_plain_reads e ks0 used _ _ _ _ Hv Hc Ea Hr Hsl) as (_ & key & Hkey & Hr1 & Hsl1). subst j.
  replace (S (length args)) with (length (map val (t :: args))) in Hkey by (by rewrite length_map). rewrite take_app_length, Hk in Hkey. injection Hkey as <-.
  change (S (length args)) with (length (t :: args)). rewrite drop_app_length.
  destruct (IH f d n g e1 used1 (ks0 ++ [k]) tail rest) as (e' & He' & Hr'); [lia | lia | lia | done..|]. exists e'. split; [exact He' |]. by rewrite <- app_assoc in Hr'.
Qed.

Lemma accepts_cons_term ts us k ks : (exists t r, ts = t :: r /\ is_close t = false /\ is_open t || is_word "NOT" t || is_word "OR" t = true) ->
  is_plain k = false -> (1 <= length ts)%nat -> accepts_one ts k -> accepts_seq us ks -> accepts_seq (ts ++ us) (k :: ks).
Proof.
  intros (t & r & -> & Hc & Hw) Hp Hlen H1 IH fuel d n g e used ks0 tail rest Hfuel Hd Hnodes Hg Hr Hsl.
  rewrite length_app in Hfuel. destruct fuel as [| f]; [lia |]. rewrite <- app_assoc.
  rewrite all_depth_cons in Hd. rewrite all_nodes_cons in *. rewrite Hp in *.
  cbn [seq_loop app]. rewrite Hc, Hw. change (t :: r ++ us ++ tail) with ((t :: r) ++ us ++ tail).
  destruct (H1 f d n (us ++ tail)) as (x & Hx & [Hok Hxr]); [lia | lia | lia |]. rewrite Hx. cbn [rbind].
  destruct (IH f d (n + nodes k)%nat g (SearchExpr (flat e) (terms e ++ [TSub x])) used (ks0 ++ [k]) tail rest) as (e' & He' & Hr'); [lia | lia | lia | done | | by destruct e |].
  - apply reads_term; [done | |].
    + intros Hs. constructor. apply Hok. cbn. by rewrite Hs.
    + intros su. cbn [term_holds]. rewrite Hxr. cbn. by rewrite andb_true_r.
  - exists e'. split; [| by rewrite <- app_assoc in Hr']. rewrite He'. do 2 f_equal. lia.
Qed.

Lemma parser_accepts : (forall front k, spells_one front k -> accepts_one front k) /\ (forall front ks, spells_seq front ks -> accepts_seq front ks).
Proof.
  apply spells_mut.
  - intros t args k Hn Ho Hf Hk. by apply accepts_plain.
  - intros t ts k Hn _ IH fuel d n rest Hfuel Hd Hnodes. cbn [length depth nodes] in *. destruct fuel as [| f]; [lia |].
    destruct (word_not_paren _ _ Hn ltac:(auto)) as [Hop _]. cbn [parseSearchOne app]. rewrite enter_ok, Hop, Hn by lia.
    destruct (IH f (S d) (S n) rest) as (x & Hx & Hr); [lia.. |]. rewrite Hx. cbn [rbind]. eexists. split; [do 2 f_equal; lia | by apply reads_not].
  - intros t ts us a b Hn Ho _ IHa _ IHb fuel d n rest Hfuel Hd Hnodes. cbn [length depth nodes] in *. rewrite length_app in Hfuel. destruct fuel as [| f]; [lia |].
    destruct (word_not_paren _ _ Ho ltac:(auto)) as [Hop _]. cbn [parseSearchOne app]. rewrite enter_ok, Hop, Hn, Ho by lia. rewrite <- app_assoc.
    destruct (IHa f (S d) (S n) (us ++ rest)) as (x & Hx & Hrx); [lia.. |]. rewrite Hx. cbn [rbind].
    destruct (IHb f (S d) (S n + nodes a)%nat rest) as (y & Hy & Hry); [lia.. |]. rewrite Hy. cbn [rbind].
    eexists. split; [do 2 f_equal; lia | by apply reads_or].
  - intros o ts c ks Hop _ IH Hcl fuel d n rest Hfuel Hd Hnodes. cbn [length depth nodes] in *. rewrite length_app in Hfuel. cbn [length] in Hfuel.
    fold (all_nodes ks) in *. fold (all_depth ks) in *.
    destruct fuel as [| [| f]]; [lia.. |]. cbn [parseSearchOne parseSearchSeq app]. rewrite enter_ok, Hop, enter_ok by lia. rewrite <- app_assoc.
    destruct (IH f (S (S d)) (S (S n)) true (SearchExpr all_criteria []) ∅ [] (c :: rest) rest) as (e & He & Hr); [lia | lia | lia | eauto | apply reads_nil | apply slots_all |].
    exists e. split; [cbn [app]; rewrite He; do 2 f_equal; lia | by apply reads_group].
  - intros fuel d n g e used ks0 tail rest Hfuel _ _ Hg Hr _. exists e. rewrite app_nil_r. split; [| done]. destruct fuel as [| f]; [cbn in Hfuel; lia |].
    cbn [app seq_loop all_nodes sum_list_with]. rewrite Nat.add_0_r. destruct g; [destruct Hg as (c & Hc & ->); by rewrite Hc | by destruct Hg as [-> ->]].
  - intros ts us k ks Hts IH1 _ IH2. pose proof (spells_nonempty _ _ Hts) as Hlen. destruct Hts as [t args k Hn Ho Hf Hk | t ts k Hn ? | t ts us' a b Hn Ho ? ? | o ts c ks' Hop ? ?].
    + by apply accepts_cons_plain.
    + apply accepts_cons_term; [| done..]. destruct (word_not_paren _ _ Hn ltac:(auto)) as [Hop Hcl]. exists t, ts. by rewrite Hop, Hn.
    + apply accepts_cons_term; [| done..]. destruct (word_not_paren _ _ Ho ltac:(auto)) as [Hop Hcl]. exists t, (ts ++ us'). by rewrite Hop, Hn, Ho.
    + apply accepts_cons_term; [| done..]. exists o, (ts ++ [c]). rewrite Hop. split_and!; [done | by apply open_not_close | done].
Qed.

Definition charset_ok (toks : list imapToken) : bool :=
  match toks with t :: cs :: _ => negb (is_word "CHARSET" t) || searchCharsetSupported (val cs) | _ => true end.

Lemma program_accepted toks ks : spells_seq (without_charset toks) ks -> charset_ok toks = true -> within_limits ks = true ->
  exists e, parseSearchProgram toks = Ok e /\ reads e ks.
Proof.
  intros Hsp Hcs [Hd Hn]%andb_true_iff. apply Nat.leb_le in Hd, Hn.
  assert (Hrun : forall ts, spells_seq ts ks -> exists e, (let* (e, rest, _) := parseSearchSeq (search_fuel ts) 0 0 false ts in
    match rest with [] => Ok e | t :: _ => Err (EUnexpected (val t)) end) = Ok e /\ reads e ks).
  { intros ts Hs. unfold search_fuel. replace (3 * length ts + 3)%nat with (S (3 * length ts + 2)) by lia. cbn [parseSearchSeq]. rewrite enter_ok by lia.
    destruct (proj2 parser_accepts ts ks Hs (3 * length ts + 2)%nat 1%nat 1%nat false (SearchExpr all_criteria []) ∅ [] [] []) as (e & He & Hr);
      [lia | lia | lia | done | apply reads_nil | apply slots_all |].
    rewrite app_nil_r in He. rewrite He. cbn [rbind]. eauto. }
  unfold parseSearchProgram, without_charset, charset_ok in *. destruct toks as [| t [| cs r]]; [by apply Hrun.. |].
  destruct (is_word "CHARSET" t); [| by apply Hrun]. cbn [negb orb] in Hcs. rewrite Hcs. by apply Hrun.
Qed.

End Meaning.

(** ** Beyond the limits, and what a search does not find *)
Section Findings.
Context {U : UnicodeTables} {M : MimeStd}.

(** A repeated key is a term of its own, and a term is a scan of the mailbox; the
    limit on nodes does not count it: every number of scans can be asked for. *)
Definition ones (n : nat) : list imapToken := replicate n (t_ "1").

Lemma one_key l : checkSearchKey (("1" : gostring) :: l) = None /\ searchKeyID (("1" : gostring) :: l) = ("SEQSET" : gostring) /\
  forall c, parseSearchKey c (("1" : gostring) :: l) = (set_SeqSet "1" c, 0%nat).
Proof. split_and!; [reflexivity.. |]. intros c. reflexivity. Qed.
Lemma one_token : is_close (t_ "1") = false /\ is_open (t_ "1") = false /\ is_word "NOT" (t_ "1") = false /\ is_word "OR" (t_ "1") = false.
Proof. split_and!; reflexivity. Qed.
Lemma ones_args n : exists l, plainKeyArgs (t_ "1" :: ones n) = ("1" : gostring) :: l.
Proof. eexists. unfold plainKeyArgs. cbn [plain_args]. destruct one_token as (-> & -> & _). reflexivity. Qed.

Lemma ones_loop n fuel d m ts : (n < fuel)%nat ->
  exists e, seq_loop fuel d m false (SearchExpr (set_SeqSet "1" all_criteria) ts) {["SEQSET" : gostring]} (ones n) = Ok (e, [], m)
  /\ length (terms e) = (length ts + n)%nat.
Proof.
  revert fuel ts. induction n as [| n IH]; intros [| fuel] ts Hf; try lia.
  { eexists. split; [reflexivity |]. cbn. lia. }
  cbn [ones replicate seq_loop]. fold (ones n). destruct one_token as (-> & -> & -> & ->). cbn [orb].
  destruct (ones_args n) as [l Hl]. rewrite Hl. destruct (one_key l) as (-> & Hid & Hp). unfold add_plain. rewrite Hid, Hp.
  rewrite (bool_decide_false (("SEQSET" : gostring) = [])), (bool_decide_true (_ ∈ _)) by (first [done | set_solver]). cbn [terms flat skipn].
  destruct (IH fuel (ts ++ [TSub (SearchExpr (set_SeqSet "1" all_criteria) [])])) as (e & He & Hlen); [lia |].
  exists e. split; [exact He |]. rewrite Hlen, length_app. cbn. lia.
Qed.

(** The cap on the cost of a search can be passed: a line of [n + 1] sequence sets is
    accepted for every [n] and becomes a program with [n] terms. *)
Theorem repeated_keys_uncapped n : exists e, parseSearchProgram (ones (S n)) = Ok e /\ length (terms e) = n.
Proof.
  unfold parseSearchProgram. set (run := fun toks => let* (e, rest, _) := parseSearchSeq (search_fuel toks) 0 0 false toks in
    match rest with [] => Ok e | t :: _ => Err (EUnexpected (val t)) end).
  assert (Hrun : exists e, run (ones (S n)) = Ok e /\ length (terms e) = n).
  { unfold run, search_fuel. unfold ones at 1. rewrite length_replicate. replace (3 * S n + 3)%nat with (S (S (3 * n + 4))) by lia.
    cbn [parseSearchSeq]. change (enter 0 0) with (@None search_error). cbn [ones replicate seq_loop]. fold (ones n). destruct one_token as (-> & -> & -> & ->). cbn [orb].
    destruct (ones_args n) as [l Hl]. rewrite Hl. destruct (one_key l) as (-> & Hid & Hp). unfold add_plain. rewrite Hid, Hp.
    rewrite (bool_decide_false (("SEQSET" : gostring) = [])), (bool_decide_false (_ ∈ _)) by (first [done | set_solver]). cbn [terms flat skipn].
    rewrite (right_id_L ∅ (∪)).
    destruct (ones_loop n (3 * n + 4)%nat 1%nat 1%nat []) as (e & He & Hlen); [lia |]. rewrite drop_0, He. exists e. split; [reflexivity | exact Hlen]. }
  destruct n as [| n]; [exact Hrun |]. cbn [ones replicate]. change (is_word "CHARSET" (t_ "1")) with false. exact Hrun.
Qed.

(** HEADER on a message that is one header line without a line end is a slice out of
    range: the session ends. *)
Theorem header_search_panics name value v : isASCII name = true -> isASCII value = true ->
  (byte_of 10 ∉ map ascii_lower (name ++ ":" ++ value)) -> header_holds (name ++ ":" ++ value) name v = None.
Proof.
  intros Hn Hv Hlf. unfold header_holds.
  assert (Hl : ToLower (name ++ ":" ++ value) = map ascii_lower (name ++ ":" ++ value)).
  { unfold ToLower, isASCII in *. rewrite !forallb_app, Hn, Hv. reflexivity. }
  assert (Hln : ToLower name = map ascii_lower name) by (unfold ToLower; by rewrite Hn). rewrite Hl, Hln.
  set (m := map ascii_lower (name ++ ":" ++ value)) in *.
  assert (Hno : forall sub, byte_of 10 ∈ sub -> Index m sub = None).
  { intros sub Hsub. destruct (Index m sub) as [i |] eqn:E; [| done]. destruct (Index_split _ _ _ E) as [[b Hb] _]. exfalso. apply Hlf. rewrite Hb. set_solver. }
  unfold field_index. rewrite !Hno by set_solver.
  assert (H0 : Index m (map ascii_lower name ++ ":") = Some 0%nat).
  { unfold m. rewrite !map_app, app_assoc. change (map ascii_lower ":") with (":" : gostring). generalize (map ascii_lower name ++ (":" : gostring)). intros p.
    assert (Hp : HasPrefix (p ++ map ascii_lower value) p = true) by apply HasPrefix_app. destruct (p ++ map ascii_lower value); cbn [Index]; by rewrite Hp. }
  rewrite H0. cbn [Nat.add]. set (rest := skipn _ m).
  assert (Hrest : forall sub, byte_of 10 ∈ sub -> Index rest sub = None).
  { intros sub Hsub. destruct (Index rest sub) as [i |] eqn:E; [| done]. destruct (Index_split _ _ _ E) as [[b Hb] _]. exfalso. apply Hlf.
    rewrite <- (take_drop (length (map ascii_lower name ++ (":" : gostring))) m). apply elem_of_app. right. fold rest. rewrite Hb. set_solver. }
  rewrite !Hrest by set_solver. destruct (Nat.ltb_spec (length rest) (length m)) as [_ | H]; [done |]. exfalso.
  assert (Hm : (1 <= length m)%nat) by (unfold m; rewrite length_map, length_app; cbn; lia).
  unfold rest in H. rewrite length_drop, length_app in H. cbn in H. lia.
Qed.

(** A message whose internal date has a zone that is not a whole number of days never
    matches ON, whatever the day: midnight there is not midnight UTC. *)
Theorem on_misses_zoned zone meta t : zone meta mod day <> 0 -> date_holds zone meta KOn t = false.
Proof.
  intros Hz. cbn [date_holds]. unfold midnight. rewrite Z.add_0_r, Z.sub_0_r. apply Z.eqb_neq. intros H. apply Hz.
  replace (zone meta) with ((InternalDate meta + zone meta) / day * day - t / day * day) by lia.
  rewrite <- Z.mul_sub_distr_r. by apply Z.mod_mul.
Qed.
End Findings.

(** ** A search *)
Section Example.
#[local] Existing Instance ascii_tables.
#[local] Existing Instance toy_crypto.
#[local] Instance plain_mime : MimeStd := {|
  ReadMail := fun d => Some (fun _ => [], d); DecodeHeader := fun _ v => Some v; ParseMediaType := fun _ => None;
  RawParts := fun _ _ => []; Base64Stream := id; QuotedPrintable := id; ParseDate := fun _ => None; ParseLayout := fun _ _ => None |}.
Definition lf : ascii := byte_of 10.
Definition ex_put (flags : list gostring) (data : gostring) (st : MStore) : MStore :=
  snd (append_locked None None (fun _ _ => false) map_to_list ImapBodies.ex_io 7 "ann" "INBOX" flags 5 (data ++ [lf]) st).
Definition ex_mail : MStore := ex_put ["\Seen" : gostring] ("Subject: blue" : gostring) (ex_put [] ("Subject: red" : gostring) (ImapBodies.sto ImapBodies.sys_init)).
Definition ex_view : Session := {| snap := [2; 9]; snapOn := true; selected := {| Exists := 2; ImapSeq.Recent := 0 |}; inSelected := true; written := [] |}.
Definition ex_toks : list imapToken := [t_ "not"; t_ "1"; t_ "SUBJECT"; {| val := "RED"; quoted := true |}].
Definition ex_keys : list skey := [SNot (SSeq "1"); SText KSubject "RED"].
Abbreviation ex_zone := (fun _ : MessageMetadata => 0).

Lemma ex_spells : spells_seq ex_toks ex_keys.
Proof.
  apply (sp_cons [t_ "not"; t_ "1"] [t_ "SUBJECT"; {| val := "RED"; quoted := true |}]).
  - apply sp_not; [reflexivity |]. apply sp_plain; [reflexivity.. | repeat constructor | reflexivity].
  - apply (sp_cons [t_ "SUBJECT"; {| val := "RED"; quoted := true |}] []); [| constructor]. apply sp_plain; [reflexivity.. | repeat constructor | reflexivity].
Qed.

End Example.
