(* ===== verification/ImapFetch.v ===== *)
(** * internal/imap: what FETCH answers

    fetch_body.go (sections of a message, its MIME tree, the envelope) and the items of
    FETCH (commands.go).  Header fields are read with net/textproto and media types with
    mime: the class [MimeTree].  A multipart is cut at its delimiter lines byte for byte. *)
From S2P Require Import Prelude GoLib Utf8 Bolt ImapSeq ImapNames Scram BlobStore MailDb Threads ImapStore ImapMatch ImapSearch.

Class MimeTree := {
  (** [ReadMIMEHeader] of a header block, then [Values] of a canonical key. *)
  HeaderValues : gostring -> gostring -> list gostring;
  (** [mime.ParseMediaType]: the type and the parameters; [None] is an error. *)
  MediaType : gostring -> option (gostring * gmap gostring gostring)
}.

Definition HeaderGet `{MimeTree} (block key : gostring) : gostring := hd [] (HeaderValues block key).

Definition lf : gostring := [byte_of 10].
Definition CRLF : gostring := [byte_of 13; byte_of 10].
Definition CRLF2 : gostring := [byte_of 13; byte_of 10; byte_of 13; byte_of 10].

(** ** Header and body *)
Definition splitHeaderBody (data : gostring) : gostring * gostring :=
  if HasPrefix data CRLF then (take 2 data, drop 2 data)
  else if HasPrefix data lf then (take 1 data, drop 1 data)
  else match Index data CRLF2 with
  | Some i => (take (i + 4) data, drop (i + 4) data)
  | None => match Index data (lf ++ lf) with
    | Some i => (take (i + 2) data, drop (i + 2) data)
    | None => (data, [])
    end
  end.

(** ** Parts of a multipart *)
(** A line without its LF, and what follows it. *)
Fixpoint cut_line (s : gostring) : gostring * gostring :=
  match s with
  | [] => ([], [])
  | c :: r => if c =c? byte_of 10 then ([], r) else let '(l, n) := cut_line r in (c :: l, n)
  end.

(** Is it a delimiter line, and a closing one? *)
Definition delimiter_line (delim line : gostring) : option bool :=
  let line := TrimRight line [byte_of 13] in
  if HasPrefix line delim then
    let rest := drop (length delim) line in
    let closing := HasPrefix rest "--" in
    let rest := if closing then drop 2 rest else rest in
    if bool_decide (TrimRight rest [byte_of 32; byte_of 9] = []) then Some closing else None
  else None.

(** The line break before a delimiter belongs to it. *)
Definition chop_break (s : gostring) : gostring :=
  match rev s with
  | a :: r =>
      if a =c? byte_of 10 then
        match r with b :: r' => if b =c? byte_of 13 then rev r' else rev r | [] => [] end
      else s
  | [] => []
  end.

(** [cur]: the part that is being read. *)
Fixpoint split_go (fuel : nat) (delim rest : gostring) (cur : option gostring) : list gostring :=
  let finish := from_option (fun c => [c]) [] cur in
  match fuel, rest with
  | S n, _ :: _ =>
      let '(line, next) := cut_line rest in
      match delimiter_line delim line with
      | Some closing => from_option (fun c => [chop_break c]) [] cur ++ (if closing then [] else split_go n delim next (Some []))
      | None => split_go n delim next ((fun c => c ++ take (length rest - length next) rest) <$> cur)
      end
  | _, _ => finish
  end.
Definition splitMultipart (body boundary : gostring) : list gostring := split_go (length body) ("--" ++ boundary) body None.

Section Fetch.
Context {U : UnicodeTables} {T : MimeTree} {NM : NetMail}.

Definition partHeader (entity key : gostring) : gostring := HeaderGet (fst (splitHeaderBody entity)) key.

(** The boundary of a multipart entity. *)
Definition multipart_boundary (entity : gostring) : option gostring :=
  '(mediaType, params) ← MediaType (partHeader entity "Content-Type");
  let boundary := default [] (params !! ("boundary" : gostring)) in
  if HasPrefix mediaType "multipart/" && negb (bool_decide (boundary = [])) then Some boundary else None.
Definition isMultipartEntity (entity : gostring) : bool := bool_decide (is_Some (multipart_boundary entity)).

Definition isRFC822Part (part : gostring) : bool :=
  match MediaType (partHeader part "Content-Type") with
  | Some (mediaType, _) => (mediaType =s? "message/rfc822") || (mediaType =s? "message/global")
  | None => false
  end.

Definition mimeSubpart (entity : gostring) (n : Z) : option gostring :=
  let body := snd (splitHeaderBody entity) in
  match multipart_boundary entity with
  | None => if n =? 1 then Some (CRLF ++ body) else None
  | Some boundary => splitMultipart body boundary !! Z.to_nat (n - 1)
  end.

(** The entity a section names, whether it is the message, and the rest of the
    section; [None]: a numbered part does not exist. *)
Fixpoint resolve_part (fuel : nat) (part : gostring) (isMessage : bool) (section : gostring) : option (gostring * bool * gostring) :=
  match fuel with
  | O => Some (part, isMessage, section)
  | S f =>
      if bool_decide (section = []) then Some (part, isMessage, section)
      else
      let '(head, tail, _) := Cut section "." in
      match Atoi head with
      | Ok n =>
          if n <=? 0 then Some (part, isMessage, section)
          else
          let inner := if isMessage then Some part
          else if isRFC822Part part then Some (snd (splitHeaderBody part))
          else if isMultipartEntity part then Some part else None in
          inner ← inner; sub ← mimeSubpart inner n; resolve_part f sub false tail
      | Err _ => Some (part, isMessage, section)
      end
  end.
Definition resolvePart (data section : gostring) : option (gostring * bool * gostring) :=
  resolve_part (S (length section)) data true section.
Definition bodySectionExists (data section : gostring) : bool := bool_decide (is_Some (resolvePart data section)).

(** ** Header fields *)
Definition trim_set (s set : gostring) : gostring := TrimRight (TrimLeft s set) set.
Fixpoint SplitAfterLF (fuel : nat) (s : gostring) : list gostring :=
  match fuel with
  | O => [s]
  | S f => if ContainsByte s (byte_of 10) then
      let '(l, r) := cut_line s in (l ++ lf) :: SplitAfterLF f r else [s]
  end.
Definition filter_step (names : list gostring) (include : bool) (acc : bool * gostring) (line : gostring) : bool * gostring :=
  let '(keep, out) := acc in
  let trimmed := TrimRight line CRLF in
  if bool_decide (trimmed = []) then acc
  else
  let keep := match line with
  | c :: _ => if (c =c? " ") || (c =c? byte_of 9) then keep
      else Bool.eqb (bool_decide (ToUpper (TrimSpace (fst (fst (Cut trimmed ":")))) ∈ names)) include
  | [] => keep
  end in
  (keep, if keep then out ++ trimmed ++ CRLF else out).
Definition filterHeader (header list : gostring) (include : bool) : gostring :=
  let names := map (fun f => ToUpper (trim_set f [DQUOTE])) (Fields (trim_set (TrimSpace list) "()")) in
  snd (foldl (filter_step names include) (false, []) (SplitAfterLF (length header) header)) ++ CRLF.

Definition bodySection (data section : gostring) : gostring :=
  if bool_decide (section = []) then data
  else match resolvePart data section with
  | None => []
  | Some (part, isMessage, section) =>
      let '(header, body) := splitHeaderBody part in
      let '(header, body) :=
      if negb isMessage && negb (bool_decide (section = [])) && negb (section =s? "MIME") && isRFC822Part part
      then splitHeaderBody body else (header, body) in
      if bool_decide (section = []) then if isMessage then part else body
      else if (section =s? "HEADER") || (section =s? "MIME") then header
      else if section =s? "TEXT" then body
      else if HasPrefix section "HEADER.FIELDS.NOT" then filterHeader header (drop 17 section) false
      else if HasPrefix section "HEADER.FIELDS" then filterHeader header (drop 13 section) true
      else []
  end.

(** ** Items BODY[...] *)
Record bodySectionItem := { peek : bool; section : gostring; partial : option (Z * Z); count : Z }.
Definition max_int32 : Z := 2147483647.

(** [partial]: the origin, clamped, and as the client wrote it. *)
Definition parse_partial (rest : gostring) : option (option (Z * Z) * Z) :=
  if bool_decide (rest = []) then Some (None, -1)
  else if HasPrefix rest "<" && HasSuffix rest ">" then
  let '(originStr, countStr, hasCount) := Cut (drop 1 (take (length rest - 1) rest)) "." in
  match ParseUint originStr max_uint32 with
  | Err _ => None
  | Ok origin =>
      if hasCount then match ParseUint countStr max_uint32 with
      | Ok count => Some (Some (Z.min origin max_int32, origin), Z.min count max_int32)
      | Err _ => None
      end
      else Some (Some (Z.min origin max_int32, origin), -1)
  end
  else None.

Definition parseBodySectionItem (item : gostring) : option bodySectionItem :=
  let up := ToUpper item in
  '(peek, up) ← (if HasPrefix up "BODY.PEEK[" then Some (true, drop 10 up)
    else if HasPrefix up "BODY[" then Some (false, drop 5 up) else None);
  end_ ← IndexByte up "]";
  '(partial, count) ← parse_partial (drop (end_ + 1) up);
  Some {| peek := peek; section := TrimSpace (take end_ up); partial := partial; count := count |}.

Definition literal (name b : gostring) : gostring := name ++ " {" ++ FormatUint (Z.of_nat (length b)) ++ "}" ++ CRLF ++ b.
Definition cut_partial (it : bodySectionItem) (b : gostring) : gostring :=
  match partial it with
  | None => b
  | Some (origin, _) =>
      let b := drop (Z.to_nat origin) b in
      if (0 <=? count it) && (count it <? Z.of_nat (length b)) then take (Z.to_nat (count it)) b else b
  end.
Definition format_item (it : bodySectionItem) (data : gostring) : gostring :=
  literal ("BODY[" ++ section it ++ "]" ++ match partial it with Some (_, echo) => "<" ++ FormatUint echo ++ ">" | None => [] end)
  (cut_partial it (bodySection data (section it))).

(** ** Strings, parameters, addresses *)
Definition needs_literal (c : ascii) : bool := (128 <=? bz c) || (c =c? byte_of 13) || (c =c? byte_of 10) || (bz c =? 0).
Definition imapNString (s : gostring) : gostring :=
  if bool_decide (s = []) then "NIL"
  else if existsb needs_literal s then "{" ++ FormatUint (Z.of_nat (length s)) ++ "}" ++ CRLF ++ s
  else quoteMailbox s.

Definition imapParamList (params : gmap gostring gostring) : gostring :=
  if bool_decide (params = ∅) then "NIL"
  else "(" ++ Join (concat (map (fun '(k, v) => [imapNString (ToUpper k); imapNString v]) (cursor params))) " " ++ ")".

Definition imapDisposition (get : gostring -> gostring) : gostring :=
  match MediaType (get "Content-Disposition") with
  | Some (disp, params) =>
      if bool_decide (get "Content-Disposition" = []) then "NIL"
      else "(" ++ imapNString (ToUpper disp) ++ " " ++ imapParamList params ++ ")"
  | None => "NIL"
  end.

Definition splitAddress (addr : gostring) : gostring * gostring :=
  match LastIndex addr "@" with Some i => (take i addr, drop (i + 1) addr) | None => (addr, []) end.

(** Quoted pairs of a phrase; a backslash before the closing quote stands for itself. *)
Fixpoint unquote_pairs (s : gostring) : gostring :=
  match s with
  | a :: r => if a =c? "\" then match r with b :: r' => b :: unquote_pairs r' | [] => [a] end else a :: unquote_pairs r
  | [] => []
  end.
Definition unquotePhrase (s : gostring) : gostring :=
  let s := TrimSpace s in
  if (2 <=? length s)%nat && HasPrefix s [DQUOTE] && HasSuffix s [DQUOTE] then unquote_pairs (drop 1 (take (length s - 1) s)) else s.

Definition imapOneAddress (s : gostring) : option gostring :=
  let '(name, spec) := match LastIndexByte s "<" with
  | Some lt => if HasSuffix (TrimSpace s) ">" then (unquotePhrase (take lt s), drop lt (TrimSpace s)) else ([], s)
  | None => ([], s)
  end in
  address ← ParseAddress spec;
  if bool_decide (address = []) then None
  else
  let '(local, domain) := splitAddress address in
  let nm := if bool_decide (name = []) then "NIL" : gostring else imapNString name in
  Some ("(" ++ nm ++ " NIL " ++ imapNString local ++ " " ++ imapNString domain ++ ")").

(** The scanner of an address list: [None] is answered with NIL. *)
Inductive scan_mode := Plain | InQuote | InComment (depth : nat).
Record Scan := { cur : gostring; addrs : list gostring; inGroup : bool; angle : nat }.
Definition put_cur (c : gostring) (x : Scan) : Scan := {| cur := cur x ++ c; addrs := addrs x; inGroup := inGroup x; angle := angle x |}.
Definition flush_address (x : Scan) : option Scan :=
  let s := TrimSpace (cur x) in
  if bool_decide (s = []) then Some {| cur := []; addrs := addrs x; inGroup := inGroup x; angle := angle x |}
  else a ← imapOneAddress s; Some {| cur := []; addrs := addrs x ++ [a]; inGroup := inGroup x; angle := angle x |}.

Definition plain_char (c : ascii) (x : Scan) : option (scan_mode * Scan) :=
  if c =c? DQUOTE then Some (InQuote, put_cur [c] x)
  else if c =c? "(" then Some (InComment 1, put_cur [c] x)
  else if c =c? "<" then Some (Plain, put_cur [c] {| cur := cur x; addrs := addrs x; inGroup := inGroup x; angle := S (angle x) |})
  else if c =c? ">" then Some (Plain, put_cur [c] {| cur := cur x; addrs := addrs x; inGroup := inGroup x; angle := pred (angle x) |})
  else if (c =c? ",") && (angle x =? 0)%nat then x ← flush_address x; Some (Plain, x)
  else if (c =c? ":") && (angle x =? 0)%nat && negb (inGroup x) then
  let name := TrimSpace (cur x) in
  if bool_decide (name = []) then None
  else Some (Plain, {| cur := []; addrs := addrs x ++ ["(NIL NIL " ++ imapNString (unquotePhrase name) ++ " NIL)"]; inGroup := true; angle := angle x |})
  else if (c =c? ";") && (angle x =? 0)%nat && inGroup x then
  x ← flush_address x;
  Some (Plain, {| cur := cur x; addrs := addrs x ++ ["(NIL NIL NIL NIL)" : gostring]; inGroup := false; angle := angle x |})
  else Some (Plain, put_cur [c] x).

Fixpoint scan_addresses (v : gostring) (m : scan_mode) (x : Scan) : option (scan_mode * Scan) :=
  match v with
  | [] => Some (m, x)
  | c :: r =>
      match m with
      | Plain => '(m, x) ← plain_char c x; scan_addresses r m x
      | _ =>
          let after := match m with
          | InQuote => if c =c? DQUOTE then Plain else m
          | InComment d => if c =c? "(" then InComment (S d) else if c =c? ")" then match d with S (S d) => InComment (S d) | _ => Plain end else m
          | Plain => m
          end in
          if c =c? "\" then match r with
          | d :: r' => scan_addresses r' m (put_cur [c; d] x)
          | [] => Some (m, put_cur [c] x)
          end
          else scan_addresses r after (put_cur [c] x)
      end
  end.

Definition imapAddressList (v : gostring) : gostring :=
  if bool_decide (TrimSpace v = []) then "NIL"
  else default ("NIL" : gostring) (
    '(m, x) ← scan_addresses v Plain {| cur := []; addrs := []; inGroup := false; angle := 0 |};
    if match m with Plain => false | _ => true end || inGroup x || negb (angle x =? 0)%nat then None
    else x ← flush_address x; if bool_decide (addrs x = []) then None else Some ("(" ++ concat (addrs x) ++ ")")).

Definition imapEnvelope (get : gostring -> gostring) : gostring :=
  let from := imapAddressList (get "From") in
  let or_from (l : gostring) := if l =s? "NIL" then from else l in
  "(" ++ Join [imapNString (get "Date"); imapNString (get "Subject"); from; or_from (imapAddressList (get "Sender"));
    or_from (imapAddressList (get "Reply-To")); imapAddressList (get "To"); imapAddressList (get "Cc"); imapAddressList (get "Bcc");
    imapNString (get "In-Reply-To"); imapNString (get "Message-Id")] " " ++ ")".

(** ** The MIME tree *)
Definition maxBodyStructureDepth : nat := 32.
Definition us_ascii : gmap gostring gostring := {["charset" : gostring := "us-ascii" : gostring]}.
Definition count_lf (s : gostring) : Z := Z.of_nat (count_byte s (byte_of 10)).

(** [levels] is what is left of the depth; a multipart that cannot be split is described
    as text. *)
Definition entity_type (levels : nat) (entity : gostring) : gostring * gmap gostring gostring :=
  let '(mediaType, params) := match MediaType (partHeader entity "Content-Type") with
  | Some (mt, params) => if bool_decide (mt = []) then ("text/plain" : gostring, us_ascii) else (mt, params)
  | None => ("text/plain" : gostring, us_ascii)
  end in
  if (fst (fst (Cut mediaType "/")) =s? "multipart") && (bool_decide (default [] (params !! ("boundary" : gostring)) = []) || (levels =? 0)%nat)
  then ("text/plain" : gostring, us_ascii) else (mediaType, params).

Definition extension (get : gostring -> gostring) : gostring :=
  imapDisposition get ++ " " ++ imapNString (get "Content-Language") ++ " " ++ imapNString (get "Content-Location").

Definition leaf_fields (get : gostring -> gostring) (typ sub : gostring) (params : gmap gostring gostring) (body : gostring) : gostring :=
  let enc := ToUpper (TrimSpace (get "Content-Transfer-Encoding")) in
  let enc := if bool_decide (enc = []) then "7BIT" : gostring else enc in
  Join [imapNString (ToUpper typ); imapNString (ToUpper sub); imapParamList params; imapNString (get "Content-Id");
    imapNString (get "Content-Description"); imapNString enc; FormatUint (Z.of_nat (length body))] " ".

Fixpoint bodyStructureDepth (levels : nat) (ext : bool) (entity : gostring) : gostring :=
  let get := partHeader entity in
  let body := snd (splitHeaderBody entity) in
  let '(mediaType, params) := entity_type levels entity in
  let '(typ, sub, _) := Cut mediaType "/" in
  match levels with
  | S deeper =>
      if typ =s? "multipart" then
      let parts := splitMultipart body (default [] (params !! ("boundary" : gostring))) in
      let parts := if bool_decide (parts = []) then [CRLF] else parts in
      "(" ++ concat (map (bodyStructureDepth deeper ext) parts) ++ " " ++ imapNString (ToUpper sub)
      ++ (if ext then " " ++ imapParamList params ++ " " ++ extension get else []) ++ ")"
      else
      "(" ++ leaf_fields get typ sub params body
      ++ (if (mediaType =s? "message/rfc822") || (mediaType =s? "message/global")
        then " " ++ imapEnvelope (partHeader body) ++ " " ++ bodyStructureDepth deeper ext body ++ " " ++ FormatUint (count_lf body)
        else if typ =s? "text" then " " ++ FormatUint (count_lf body) else [])
      ++ (if ext then " " ++ imapNString (get "Content-Md5") ++ " " ++ extension get else []) ++ ")"
  | O =>
      "(" ++ leaf_fields get typ sub params body
      ++ (if typ =s? "text" then " " ++ FormatUint (count_lf body) else [])
      ++ (if ext then " " ++ imapNString (get "Content-Md5") ++ " " ++ extension get else []) ++ ")"
  end.
Definition bodyStructure (entity : gostring) (ext : bool) : gostring := bodyStructureDepth maxBodyStructureDepth ext entity.

(** ** Messages and items *)
Record Message := { SeqNum : Z; MUID : Z; MFlags : list gostring; meta : MessageMetadata; data : gostring; header : option gostring }.
Definition message_of (f : FetchedMessage) : Message := {|
  SeqNum := FSeqNum f; MUID := FUID f; MFlags := Flags (FMeta f); meta := FMeta f; data := default [] (FData f); header := None |}.

(** The envelope comes from the header that FETCH read, or from the metadata. *)
Definition envelopeHeader (m : Message) (key : gostring) : gostring :=
  match header m with
  | Some hb => partHeader (hb ++ CRLF) key
  | None => if key =s? "Date" then Date (meta m) else if key =s? "Subject" then Subject (meta m)
      else if key =s? "From" then From (meta m) else if key =s? "To" then To (meta m) else []
  end.

(** The civil date of a day counted from 1970-01-01. *)
Definition civil_date (z : Z) : Z * Z * Z :=
  let z := z + 719468 in
  let era := z / 146097 in
  let doe := z mod 146097 in
  let yoe := (doe - doe / 1460 + doe / 36524 - doe / 146096) / 365 in
  let doy := doe - (365 * yoe + yoe / 4 - yoe / 100) in
  let mp := (5 * doy + 2) / 153 in
  let m := if mp <? 10 then mp + 3 else mp - 9 in
  (yoe + era * 400 + (if m <=? 2 then 1 else 0), m, doy - (153 * mp + 2) / 5 + 1).

Definition pad (n : nat) (v : Z) : gostring :=
  let s := FormatUint v in repeat "0"%char (n - length s) ++ s.
Definition month_abbrev (m : Z) : gostring :=
  nth (Z.to_nat (m - 1)) ["Jan" : gostring; "Feb" : gostring; "Mar" : gostring; "Apr" : gostring; "May" : gostring; "Jun" : gostring;
    "Jul" : gostring; "Aug" : gostring; "Sep" : gostring; "Oct" : gostring; "Nov" : gostring; "Dec" : gostring] [].

(** "02-Jan-2006 15:04:05 -0700" of an instant in a zone. *)
Definition format_internal_date (t zone : Z) : gostring :=
  let local := (t + zone) / second in
  let '(y, m, d) := civil_date (local / 86400) in
  let sec := local mod 86400 in
  let off := Z.abs zone / second / 60 in
  pad 2 d ++ "-" ++ month_abbrev m ++ "-" ++ pad 4 y ++ " " ++ pad 2 (sec / 3600) ++ ":" ++ pad 2 (sec mod 3600 / 60) ++ ":" ++ pad 2 (sec mod 60)
  ++ " " ++ (if zone <? 0 then "-" else "+") ++ pad 2 (off / 60) ++ pad 2 (off mod 60).

Context (zone : MessageMetadata -> Z).
Definition format_one (m : Message) (item : gostring) : option gostring :=
  let item := ToUpper item in
  if item =s? "FLAGS" then Some ("FLAGS (" ++ Join (MFlags m) " " ++ ")")
  else if item =s? "INTERNALDATE" then Some ("INTERNALDATE " ++ DQUOTE :: format_internal_date (InternalDate (meta m)) (zone (meta m)) ++ [DQUOTE])
  else if item =s? "RFC822.SIZE" then Some ("RFC822.SIZE " ++ FormatUint (Size (meta m)))
  else if item =s? "UID" then Some ("UID " ++ FormatUint (MUID m))
  else if item =s? "RFC822" then Some (literal "RFC822" (data m))
  else if item =s? "RFC822.HEADER" then Some (literal item (fst (splitHeaderBody (data m))))
  else if item =s? "RFC822.TEXT" then Some (literal item (snd (splitHeaderBody (data m))))
  else if (item =s? "BODY") || (item =s? "BODYSTRUCTURE") then Some (item ++ " " ++ bodyStructure (data m) (item =s? "BODYSTRUCTURE"))
  else if item =s? "ENVELOPE" then Some ("ENVELOPE " ++ imapEnvelope (envelopeHeader m))
  else it ← parseBodySectionItem item; Some (format_item it (data m)).
Definition formatFetchResponse (m : Message) (items : list gostring) : gostring := Join (omap (format_one m) items) " ".

(** ** The items of the command *)
(** Brackets keep an item together; what is not valid UTF-8 becomes U+FFFD. *)
Fixpoint items_go (s : gostring) (depth : nat) (item : gostring) : list gostring :=
  match s with
  | [] => if bool_decide (item = []) then [] else [item]
  | c :: r =>
      let depth := if c =c? "[" then S depth else if c =c? "]" then pred depth else depth in
      if (depth =? 0)%nat && ((c =c? " ") || (c =c? byte_of 9)) then
      (if bool_decide (item = []) then [] else [item]) ++ items_go r depth []
      else items_go r depth (item ++ [c])
  end.
Definition splitFetchItems (s : gostring) : list gostring := items_go (concat (map encode_rune (runes s))) 0 [].
Definition parseFetchItems (args : list gostring) : list gostring :=
  let s := Join args " " in
  splitFetchItems (if HasPrefix s "(" && HasSuffix s ")" then drop 1 (take (length s - 1) s) else s).

Definition fast_items : list gostring := ["FLAGS" : gostring; "INTERNALDATE" : gostring; "RFC822.SIZE" : gostring].
Definition expand_one (it : gostring) : list gostring :=
  let u := ToUpper it in
  if u =s? "FAST" then fast_items
  else if u =s? "ALL" then fast_items ++ ["ENVELOPE" : gostring]
  else if u =s? "FULL" then fast_items ++ ["ENVELOPE" : gostring; "BODY" : gostring]
  else [it].
Definition expandFetchMacros (items : list gostring) : list gostring := concat (map expand_one items).

Definition plain_items : list gostring := ["FLAGS" : gostring; "INTERNALDATE" : gostring; "RFC822.SIZE" : gostring; "UID" : gostring; "RFC822" : gostring;
  "RFC822.HEADER" : gostring; "RFC822.TEXT" : gostring; "BODY" : gostring; "BODYSTRUCTURE" : gostring; "ENVELOPE" : gostring].
Definition known_item (it : gostring) : bool := bool_decide (ToUpper it ∈ plain_items) || bool_decide (is_Some (parseBodySectionItem it)).
(** [None]: every item can be answered. *)
Definition unknownFetchItem (items : list gostring) : option gostring :=
  if bool_decide (items = []) then Some ("()" : gostring) else List.find (fun it => negb (known_item it)) items.
Definition hasFetchItem (items : list gostring) (name : gostring) : bool := existsb (fun it => EqualFold it name) items.

Definition parseFlags (flagsStr : gostring) : list gostring :=
  List.filter (fun f => negb (f =s? "\")) (Fields (trim_set flagsStr "()")).
End Fetch.

Example civil_ex : civil_date 0 = (1970, 1, 1) /\ civil_date 19782 = (2024, 2, 29) /\ civil_date (-1) = (1969, 12, 31).
Proof. vm_compute. auto. Qed.
Example internal_date_ex : format_internal_date ((19782 * 86400 + 3661) * second) (- (90 * 60) * second) = ("28-Feb-2024 23:31:01 -0130" : gostring).
Proof. reflexivity. Qed.
