(* ===== verification/ImapConn.v ===== *)
(** * internal/imap: a connection and its authentication

    [World] is what a command works on: the session ([Conn], the Session struct with the
    unread input and what was written), the mail store, the table of failed logins
    shared by all connections, and the calls of the expunge and login hooks.  A handler
    is a function on worlds.  [readLine] that fails stands for a line too long or the
    end of the connection.  The greeting, STARTTLS, AUTHENTICATE, LOGIN and the limits
    on failed logins are here (server.go, commands.go). *)
From S2P Require Import Prelude GoLib Utf8 Base64 Bolt ImapSeq ImapNames Scram BlobStore MailDb Threads ImapStore ImapMatch ImapSearch.

Inductive State := StateNotAuthenticated | StateAuthenticated | StateSelected | StateLoggedOut.
#[export] Instance State_eq : EqDecision State.
Proof. solve_decision. Defined.

(** The errors whose text a response carries. *)
Inductive cmd_error :=
| CStore (e : mstore_error) | CView (e : view_error) | CSearch (e : search_fault) | CProgram (e : search_error)
| CName | CFlags | CAppend | CList.

Inductive reply :=
| Untagged (s : gostring)                 (* WriteData *)
| Tagged (tag s : gostring)               (* WriteResponse *)
| TaggedErr (tag code : gostring) (e : cmd_error)  (* a response that ends with an error's text *)
| Continue (s : gostring)                 (* WriteContinuation *)
| View (u : untagged).                    (* EXPUNGE, EXISTS and RECENT of the view *)

(** The selected mailbox, and whether EXAMINE selected it. *)
Record Selected := { info : MailboxInfo; ReadOnly : bool }.

Record Conn := {
  state : State;
  user : gostring;
  selected : option Selected;
  view : Session;                          (* snap, snapOn and the counts *)
  syncOnTag : bool;
  tlsActive : bool;
  compressActive : bool;
  preAuthIdleCmds : Z;
  tag : gostring;
  input : gostring;
  out : list reply
}.

Record World := {
  conn : Conn;
  store : MStore;
  failures : gmap gostring (list Z);
  expunged : list (gostring * gostring * Z);
  logins : list (gostring * bool * gostring)
}.

Definition set_conn (f : Conn -> Conn) (w : World) : World := {|
  conn := f (conn w); store := store w; failures := failures w; expunged := expunged w; logins := logins w |}.
Definition set_store (f : MStore -> MStore) (w : World) : World := {|
  conn := conn w; store := f (store w); failures := failures w; expunged := expunged w; logins := logins w |}.
Definition set_failures (f : gmap gostring (list Z) -> gmap gostring (list Z)) (w : World) : World := {|
  conn := conn w; store := store w; failures := f (failures w); expunged := expunged w; logins := logins w |}.
Definition log_expunged (l : list (gostring * gostring * Z)) (w : World) : World := {|
  conn := conn w; store := store w; failures := failures w; expunged := expunged w ++ l; logins := logins w |}.
Definition log_login (l : gostring * bool * gostring) (w : World) : World := {|
  conn := conn w; store := store w; failures := failures w; expunged := expunged w; logins := logins w ++ [l] |}.

Definition set_state (s : State) (c : Conn) : Conn := {|
  state := s; user := user c; selected := selected c; view := view c; syncOnTag := syncOnTag c; tlsActive := tlsActive c;
  compressActive := compressActive c; preAuthIdleCmds := preAuthIdleCmds c; tag := tag c; input := input c; out := out c |}.
Definition set_user (u : gostring) (c : Conn) : Conn := {|
  state := state c; user := u; selected := selected c; view := view c; syncOnTag := syncOnTag c; tlsActive := tlsActive c;
  compressActive := compressActive c; preAuthIdleCmds := preAuthIdleCmds c; tag := tag c; input := input c; out := out c |}.
Definition set_selected (m : option Selected) (c : Conn) : Conn := {|
  state := state c; user := user c; selected := m; view := view c; syncOnTag := syncOnTag c; tlsActive := tlsActive c;
  compressActive := compressActive c; preAuthIdleCmds := preAuthIdleCmds c; tag := tag c; input := input c; out := out c |}.
Definition set_view (v : Session) (c : Conn) : Conn := {|
  state := state c; user := user c; selected := selected c; view := v; syncOnTag := syncOnTag c; tlsActive := tlsActive c;
  compressActive := compressActive c; preAuthIdleCmds := preAuthIdleCmds c; tag := tag c; input := input c; out := out c |}.
Definition set_syncOnTag (b : bool) (c : Conn) : Conn := {|
  state := state c; user := user c; selected := selected c; view := view c; syncOnTag := b; tlsActive := tlsActive c;
  compressActive := compressActive c; preAuthIdleCmds := preAuthIdleCmds c; tag := tag c; input := input c; out := out c |}.
Definition set_transport (tls compress : bool) (c : Conn) : Conn := {|
  state := state c; user := user c; selected := selected c; view := view c; syncOnTag := syncOnTag c; tlsActive := tls;
  compressActive := compress; preAuthIdleCmds := preAuthIdleCmds c; tag := tag c; input := input c; out := out c |}.
Definition set_preAuth (n : Z) (c : Conn) : Conn := {|
  state := state c; user := user c; selected := selected c; view := view c; syncOnTag := syncOnTag c; tlsActive := tlsActive c;
  compressActive := compressActive c; preAuthIdleCmds := n; tag := tag c; input := input c; out := out c |}.
Definition set_tag (t : gostring) (c : Conn) : Conn := {|
  state := state c; user := user c; selected := selected c; view := view c; syncOnTag := syncOnTag c; tlsActive := tlsActive c;
  compressActive := compressActive c; preAuthIdleCmds := preAuthIdleCmds c; tag := t; input := input c; out := out c |}.
Definition set_input (i : gostring) (c : Conn) : Conn := {|
  state := state c; user := user c; selected := selected c; view := view c; syncOnTag := syncOnTag c; tlsActive := tlsActive c;
  compressActive := compressActive c; preAuthIdleCmds := preAuthIdleCmds c; tag := tag c; input := i; out := out c |}.
Definition write (rs : list reply) (c : Conn) : Conn := {|
  state := state c; user := user c; selected := selected c; view := view c; syncOnTag := syncOnTag c; tlsActive := tlsActive c;
  compressActive := compressActive c; preAuthIdleCmds := preAuthIdleCmds c; tag := tag c; input := input c; out := out c ++ rs |}.

(** ** Writing *)
Definition empty_view : Session := {| snap := []; snapOn := false; ImapSeq.selected := {| Exists := 0; ImapSeq.Recent := 0 |};
  inSelected := false; written := [] |}.

Definition WriteData (s : gostring) (w : World) : World := set_conn (write [Untagged s]) w.
Definition WriteContinuation (s : gostring) (w : World) : World := set_conn (write [Continue s]) w.

(** The live UIDs of the selected mailbox. *)
Definition liveUIDs (w : World) : Live :=
  match selected (conn w) with
  | Some m => Some (GetMessageUIDs (user (conn w)) (MbName (info m)) (db (store w)))
  | None => None
  end.

(** syncSelected of the view: what it writes goes to the client, and the counts it
    keeps are those of the selected mailbox. *)
Definition syncView (w : World) : World :=
  let c := conn w in
  let v := view c in
  let v0 := {| snap := snap v; snapOn := snapOn v; ImapSeq.selected := ImapSeq.selected v;
               inSelected := bool_decide (selected c <> None) && bool_decide (state c = StateSelected); written := [] |} in
  let v1 := syncSelected (liveUIDs w) v0 in
  set_conn (fun c => write (map View (written v1)) (set_view v1 c)) w.

(** A tagged response first announces changes, where the command allows it. *)
Definition respond_with (r : gostring -> reply) (w : World) : World :=
  let w := if syncOnTag (conn w) then syncView (set_conn (set_syncOnTag false) w) else w in
  set_conn (fun c => write [r (tag c)] c) w.
Definition respond (s : gostring) : World -> World := respond_with (fun t => Tagged t s).
Definition respond_err (code : gostring) (e : cmd_error) : World -> World := respond_with (fun t => TaggedErr t code e).

Definition Close (w : World) : World := set_conn (set_state StateLoggedOut) w.

Section Connection.
Context {U : UnicodeTables} {N : Normalizer}.
(** Configuration: the reader's buffer, TLS, plain authentication, the limits and the
    check of credentials ([None]: an error). *)
Context (bufsize : nat) (tlsConfigUsable allowPlainAuth : bool) (maxLoginAttempts lockoutDuration : Z).
Context (authFunc : gostring -> gostring -> option bool).
(** The order in which Go walks the table of failures. *)
Context (walkKeys : gmap gostring (list Z) -> list gostring).
Implicit Types (w : World) (now : Z).

(** ** Failed logins *)
Definition maxTrackedAuthKeys : nat := Z.to_nat 50000.
Definition userAuthLimitFactor : Z := 3.
Definition authUserKey (username : gostring) : gostring := "user:" ++ ToLower (TrimSpace username).

Definition lockedKey now (key : gostring) (limit : Z) w : bool * World :=
  if maxLoginAttempts <=? 0 then (false, w) else
  let cutoff := now - lockoutDuration in
  let recent := List.filter (fun ts => cutoff <? ts) (default [] (failures w !! key)) in
  (limit <=? Z.of_nat (length recent),
    set_failures (fun m => if bool_decide (recent = []) then delete key m else <[key := recent]> m) w).

Definition stale (cutoff : Z) (l : list Z) : bool := match last l with None => true | Some t => t <=? cutoff end.
(** Entries are evicted in the order of the walk until the table has room. *)
Fixpoint evict (keys : list gostring) (m : gmap gostring (list Z)) : gmap gostring (list Z) :=
  match keys with
  | [] => m
  | k :: r => if (size m <? maxTrackedAuthKeys)%nat then m else evict r (delete k m)
  end.
Definition recordKey now (key : gostring) w : World :=
  if maxLoginAttempts <=? 0 then w else
  set_failures (fun m =>
    let m := if bool_decide (m !! key = None) && (maxTrackedAuthKeys <=? size m)%nat then
    let m := filter (fun kv => stale (now - lockoutDuration) kv.2 = false) m in evict (walkKeys m) m
    else m in
    <[key := default [] (m !! key) ++ [now]]> m) w.
Definition clearKey (key : gostring) : World -> World := set_failures (delete key).

Definition isAuthLockedOut now ip w : bool * World := lockedKey now ip maxLoginAttempts w.
Definition recordAuthFailure now ip w : World := recordKey now ip w.
Definition clearAuthFailures ip : World -> World := clearKey ip.
Definition isUserLockedOut now username w : bool * World := lockedKey now (authUserKey username) (maxLoginAttempts * userAuthLimitFactor) w.
Definition recordUserFailure now username w : World := recordKey now (authUserKey username) w.
Definition clearUserFailures username : World -> World := clearKey (authUserKey username).

(** ** Capabilities *)
Definition defaultCapabilities : list gostring :=
  ["IMAP4rev1" : gostring; "STARTTLS" : gostring; "AUTH=PLAIN" : gostring; "AUTH=LOGIN" : gostring; "IDLE" : gostring;
    "NAMESPACE" : gostring; "CHILDREN" : gostring; "UIDPLUS" : gostring; "MOVE" : gostring; "ENABLE" : gostring;
    "LITERAL+" : gostring; "SASL-IR" : gostring; "ESEARCH" : gostring; "ID" : gostring; "ACL" : gostring;
    "COMPRESS=DEFLATE" : gostring; "SORT" : gostring; "THREAD=REFERENCES" : gostring; "THREAD=ORDEREDSUBJECT" : gostring;
    "MULTIAPPEND" : gostring; "UNSELECT" : gostring; "LIST-EXTENDED" : gostring; "SPECIAL-USE" : gostring].
Definition sessionCapabilities (c : Conn) : list gostring :=
  let authOK := tlsActive c || allowPlainAuth in
  List.filter (fun cap =>
    negb ((cap =s? "STARTTLS") && (tlsActive c || negb tlsConfigUsable))
    && negb (negb authOK && HasPrefix cap "AUTH=")
    && negb ((cap =s? "COMPRESS=DEFLATE") && compressActive c)) defaultCapabilities
  ++ (if authOK then [] else ["LOGINDISABLED" : gostring]).

Definition greeting (c : Conn) : Conn :=
  write [Tagged "*" ("OK [CAPABILITY " ++ Join (sessionCapabilities c) " " ++ "] uMailServer ready")] c.
Definition NewSession (tls : bool) (i : gostring) : Conn := {|
  state := StateNotAuthenticated; user := []; selected := None; view := empty_view; syncOnTag := false; tlsActive := tls;
  compressActive := false; preAuthIdleCmds := 0; tag := []; input := i; out := [] |}.

Definition handleCapability w : World :=
  respond "OK CAPABILITY completed" (WriteData (concat (("CAPABILITY" : gostring) :: map (fun c => " " ++ c) (sessionCapabilities (conn w)))) w).
Definition handleNoop : World -> World := respond "OK NOOP completed".
Definition handleLogout w : World := Close (respond "OK LOGOUT completed" (WriteData "BYE IMAP4rev1 Server logging out" w)).

(** ** STARTTLS and COMPRESS
    
    [input] is what the reader has buffered.  After a handshake the stream starts anew;
    [after] is what has arrived on it. *)
Definition handleStartTLS (handshake : bool) (after : gostring) w : World :=
  if tlsActive (conn w) then respond "BAD TLS already active" w
  else if negb tlsConfigUsable then respond "NO TLS not available" w
  else if negb (bool_decide (input (conn w) = [])) then Close (respond "BAD STARTTLS must not be pipelined" w)
  else let w := respond "OK Begin TLS negotiation now" w in
  if handshake then set_conn (fun c => set_input after (set_transport true (compressActive c) c)) w else w.

Definition handleCompress (args : list gostring) (after : gostring) w : World :=
  if compressActive (conn w) then respond "BAD Compression already active" w
  else if negb match args with a :: _ => ToUpper a =s? "DEFLATE" | [] => false end
  then respond "BAD COMPRESS requires DEFLATE argument" w
  else if negb (bool_decide (input (conn w) = [])) then respond "BAD COMPRESS must not be pipelined" w
  else set_conn (fun c => set_input after (set_transport (tlsActive c) true c)) (respond "OK Compression active" w).

(** ** Authentication *)
Definition prohibited (c : ascii) : bool := (bz c <? 32) || (bz c =? 127) || (c =c? " ") || (c =c? "/").
Definition normalizeUsername (username : gostring) : option gostring :=
  if bool_decide (username = []) then None
  else let username := ToLower (TrimSpace username) in
  if existsb prohibited username then None else if valid_utf8 username then Some username else None.
Definition normalizePassword (password : gostring) : gostring := password.

Definition authenticateUser now ip (username password okMsg failMsg : gostring) w : World :=
  let '(locked, w) := isAuthLockedOut now ip w in
  if locked then log_login (username, false, "lockout" : gostring) (respond "NO Too many failed authentication attempts" w) else
  match normalizeUsername username with
  | None => respond "NO Invalid username characters" w
  | Some u =>
      let '(locked, w) := isUserLockedOut now u w in
      if locked then log_login (u, false, "lockout" : gostring) (respond "NO Too many failed authentication attempts" w) else
      match authFunc u (normalizePassword password) with
      | Some true =>
          let w := clearUserFailures u (clearAuthFailures ip w) in
          let w := set_conn (fun c => set_state StateAuthenticated (set_user u c)) w in
          let w := log_login (u, true, []) w in
          let w := set_store (fun st => snd (ms_CreateMailbox now u "INBOX" st)) w in
          respond ("OK " ++ okMsg) w
      | _ =>
          let w := recordUserFailure now u (recordAuthFailure now ip w) in
          log_login (u, false, "invalid_credentials" : gostring) (respond ("NO " ++ failMsg) w)
      end
  end.

Definition handleLogin now ip (args : list gostring) w : World :=
  match args with
  | username :: password :: _ =>
      if negb (tlsActive (conn w)) && negb allowPlainAuth then respond "NO LOGIN requires TLS - use STARTTLS first" w
      else authenticateUser now ip username password "LOGIN completed" "Authentication failed" w
  | _ => respond "BAD Missing username or password" w
  end.

(** A line of the client; without one the handler returns an error and the loop ends
    at its next read. *)
Definition with_line (w : World) (k : gostring -> World -> World) : World :=
  match readLine bufsize (input (conn w)) with
  | None => set_conn (set_input []) w
  | Some (line, rest) => k line (set_conn (set_input rest) w)
  end.

(** [strings.SplitN] of the credentials at NUL. *)
Definition plain_credentials now ip (credentials : gostring) w : World :=
  match SplitN3 credentials NUL with
  | None => respond "NO Invalid PLAIN credentials" w
  | Some (authz, authc, pass) =>
      if negb (bool_decide (authz = [])) && negb (EqualFold authz authc) then respond "NO Authorization identity not permitted" w
      else authenticateUser now ip authc pass "AUTHENTICATE completed" "AUTHENTICATE failed" w
  end.
Definition handleAuthPlain now ip (args : list gostring) w : World :=
  let decoded (s : gostring) w := match decode StdEncoding s with
  | None => respond "NO Invalid base64 in AUTHENTICATE PLAIN" w
  | Some creds => plain_credentials now ip creds w
  end in
  let ask := with_line (WriteContinuation [] w) (fun line w =>
    if line =s? "*" then respond "BAD AUTHENTICATE cancelled" w else decoded line w) in
  match args with
  | a :: _ => if bool_decide (a = []) then ask else decoded a w
  | [] => ask
  end.

Definition handleAuthLogin now ip w : World :=
  with_line (WriteContinuation "VXNlcm5hbWU6" w) (fun line w =>
    if line =s? "*" then respond "BAD AUTHENTICATE cancelled" w else
    match decode StdEncoding line with
    | None => respond "NO Invalid base64 username in AUTHENTICATE LOGIN" w
    | Some username =>
        with_line (WriteContinuation "UGFzc3dvcmQ6" w) (fun line w =>
          if line =s? "*" then respond "BAD AUTHENTICATE cancelled" w else
          match decode StdEncoding line with
          | None => respond "NO Invalid base64 password in AUTHENTICATE LOGIN" w
          | Some password => authenticateUser now ip username password "AUTHENTICATE completed" "AUTHENTICATE failed" w
          end)
    end).

Definition handleAuthenticate now ip (args : list gostring) w : World :=
  match args with
  | [] => respond "BAD Missing authentication mechanism" w
  | m :: rest =>
      if negb (tlsActive (conn w)) && negb allowPlainAuth then respond "NO TLS required for authentication" w
      else if ToUpper m =s? "PLAIN" then handleAuthPlain now ip rest w
      else if ToUpper m =s? "LOGIN" then handleAuthLogin now ip w
      else respond "NO Unsupported authentication mechanism" w
  end.
End Connection.
