(* ===== verification/ImapMailboxes.v ===== *)
(** * internal/imap: commands on mailboxes

    SELECT, EXAMINE, CREATE, DELETE, RENAME, SUBSCRIBE, UNSUBSCRIBE, LIST, LSUB, STATUS,
    the access-control commands, and the small commands NAMESPACE, ENABLE, ID, CHECK and
    UNSELECT (commands.go).  Every handler is a function on [World].  The extensions
    that would make [enabledCaps] non-empty are not offered, so HIGHESTMODSEQ is never
    written. *)
From S2P Require Import Prelude GoLib Utf8 Bolt ImapSeq ImapNames Scram BlobStore MailDb Threads ImapStore ImapMatch ImapSearch.
From S2P Require Import ImapConn.

(** ** Arguments and names *)
Section Mailboxes.
Context {U : UnicodeTables} {N : Normalizer} {M : MimeStd}.
Context (zone : MessageMetadata -> Z) (walk : gmap gostring gostring -> list (gostring * gostring)).
Context (quotaAdjust : option (list (gostring * Z) -> gostring -> Z -> bool)).
Context (pending : gostring -> gostring -> bool) (iter : gmap gostring Z -> list (gostring * Z)).
Implicit Types (w : World) (now : Z) (args : list gostring).

Definition me (w : World) : gostring := user (conn w).
Definition listed (pattern : gostring) w : list gostring := ms_ListMailboxes (me w) pattern (store w).
Definition has_name (name : gostring) (l : list gostring) : bool := bool_decide (name ∈ l).

Definition with_mbox (arg : gostring) w (k : gostring -> World -> World) : World :=
  match mboxArg (if bool_decide (me w = []) then None else Some (listed "*" w)) arg with
  | None => respond "BAD invalid modified UTF-7 mailbox name" w
  | Some name => k name w
  end.
Definition mailboxExists (name : gostring) w : bool := (name =s? "INBOX") || has_name name (listed "*" w).

(** ** SELECT and EXAMINE *)
Definition deselect (c : Conn) : Conn :=
  let c := set_syncOnTag false (set_view empty_view (set_selected None c)) in
  if bool_decide (state c = StateSelected) then set_state StateAuthenticated c else c.

(** The snapshot of a mailbox that has just been selected. *)
Definition select_view (mb : MailboxInfo) (live : list Z) : Session :=
  snapInit (Some live) {| snap := []; snapOn := false; ImapSeq.selected := {| Exists := Z.of_nat (MbExists mb); ImapSeq.Recent := Z.of_nat (MbRecent mb) |};
    inSelected := true; written := [] |}.

Definition unseen_criteria : SearchCriteria := {|
  switch := fun k => bool_decide (k = KUnseen); recent := ∅; Keyword := []; Unkeyword := []; SeqSet := []; UIDSet := [];
  text := fun _ => []; Header := ∅; date := fun _ => zero_time; Larger := None; Smaller := None; Not := None; Or := None |}.

Definition firstUnseen (mb : MailboxInfo) w : Z :=
  if (MbUnseen mb =? 0)%nat then 0 else
  match SearchMessages zone walk (me w) (MbName mb) unseen_criteria (store w) with
  | Ok (q :: r) => foldl Z.min q r
  | _ => 0
  end.

Definition select_data (mb : MailboxInfo) (flags : gostring) w : World :=
  let counts := ImapSeq.selected (view (conn w)) in
  let first := firstUnseen mb w in
  let w := WriteData (FormatUint (Exists counts) ++ " EXISTS") w in
  let w := WriteData (FormatUint (ImapSeq.Recent counts) ++ " RECENT") w in
  let w := if 0 <? first then WriteData ("OK [UNSEEN " ++ FormatUint first ++ "] Message " ++ FormatUint first ++ " is first unseen") w else w in
  let w := WriteData ("OK [UIDVALIDITY " ++ FormatUint (MbUIDValidity mb) ++ "] UIDs valid") w in
  let w := WriteData ("OK [UIDNEXT " ++ FormatUint (MbUIDNext mb) ++ "] Predicted next UID") w in
  let w := WriteData "FLAGS (\Answered \Flagged \Deleted \Seen \Draft)" w in
  WriteData flags w.

Definition enter_mailbox (mb : MailboxInfo) (readOnly : bool) w : World :=
  let live := GetMessageUIDs (me w) (MbName mb) (db (store w)) in
  set_conn (fun c => set_state StateSelected (set_syncOnTag false (set_view (select_view mb live)
    (set_selected (Some {| info := mb; ReadOnly := readOnly |}) c)))) w.

Definition handleSelect args w : World :=
  match args with
  | [] => respond "BAD Missing mailbox name" w
  | a :: _ => with_mbox a w (fun name w =>
    match SelectMailbox (me w) name (store w) with
    | (Err e, st) => respond_err "NO" (CStore e) (set_conn deselect (set_store (fun _ => st) w))
    | (Ok mb, st) =>
        let w := enter_mailbox mb false (set_store (fun _ => st) w) in
        let w := select_data mb "OK [PERMANENTFLAGS (\Answered \Flagged \Deleted \Seen \Draft \*)] Flags permitted" w in
        respond "OK [READ-WRITE] SELECT completed" w
    end)
  end.

Definition examineMailbox (name : gostring) w : result mstore_error MailboxInfo * MStore := ExamineMailbox (me w) name (store w).

Definition handleExamine args w : World :=
  match args with
  | [] => respond "BAD Missing mailbox name" w
  | a :: _ => with_mbox a w (fun name w =>
    match examineMailbox name w with
    | (Err e, st) => respond_err "NO" (CStore e) (set_conn deselect (set_store (fun _ => st) w))
    | (Ok mb, st) =>
        let w := enter_mailbox mb true (set_store (fun _ => st) w) in
        let w := select_data mb "OK [PERMANENTFLAGS ()] No permanent flags permitted" w in
        respond "OK [READ-ONLY] EXAMINE completed" w
    end)
  end.

(** Leaving the mailbox: what CLOSE, after its expunge, and UNSELECT do. *)
Definition leave_mailbox (c : Conn) : Conn :=
  set_state StateAuthenticated (set_syncOnTag false (set_view empty_view (set_selected None c))).
Definition handleUnselect w : World := respond "OK UNSELECT completed" (set_conn leave_mailbox w).
Definition handleCheck : World -> World := respond "OK CHECK completed".

(** ** CREATE, DELETE, RENAME *)
Definition stored (r : option mstore_error * MStore) (ok : gostring) w : World :=
  match r with
  | (None, st) => respond ok (set_store (fun _ => st) w)
  | (Some e, st) => respond_err "NO" (CStore e) (set_store (fun _ => st) w)
  end.

Definition handleCreate now args w : World :=
  match args with
  | [] => respond "BAD Missing mailbox name" w
  | a :: _ => with_mbox a w (fun decoded w =>
    match checkNewMailboxName decoded with
    | None => respond_err "NO" CName w
    | Some name =>
        if mailboxExists name w then respond "NO [ALREADYEXISTS] Mailbox already exists" w
        else stored (ms_CreateMailbox now (me w) name (store w)) "OK CREATE completed" w
    end)
  end.

Definition handleDelete now args w : World :=
  match args with
  | [] => respond "BAD Missing mailbox name" w
  | a :: _ => with_mbox a w (fun name w =>
    if name =s? "INBOX" then respond "NO Cannot delete INBOX" w
    else if negb (mailboxExists name w) then respond "NO [NONEXISTENT] Mailbox does not exist" w
    else stored (ms_DeleteMailbox quotaAdjust pending iter now (me w) name (store w)) "OK DELETE completed" w)
  end.

(** The moves of a rename: the mailbox, then those below it.  [None]: one of the new
    names is taken. *)
Fixpoint child_moves (oldName newName : gostring) (have names : list gostring) : option (list (gostring * gostring)) :=
  match names with
  | [] => Some []
  | n :: r =>
      if HasPrefix n (oldName ++ "/") then
      let to := newName ++ drop (length oldName) n in
      if has_name to have then None
      else ms ← child_moves oldName newName have r; Some ((n, to) :: ms)
      else child_moves oldName newName have r
  end.
Fixpoint rename_all now (u : gostring) (moves : list (gostring * gostring)) (st : MStore) : option mstore_error * MStore :=
  match moves with
  | [] => (None, st)
  | (from, to) :: r =>
      match ms_RenameMailbox now u from to st with
      | (None, st) => rename_all now u r st
      | (Some e, st) => (Some e, st)
      end
  end.
(** Subscriptions follow, as they were before the loop. *)
Definition move_subscriptions (u : gostring) (moves : list (gostring * gostring)) (t : ThreadDb) : ThreadDb :=
  let subs := ListSubscribed u t in
  foldl (fun t '(from, to) => if has_name from subs then SetSubscribed u to true (SetSubscribed u from false t) else t) t moves.

Definition handleRename now args w : World :=
  match args with
  | a :: b :: _ => with_mbox a w (fun oldName w =>
    if oldName =s? "INBOX" then respond "NO Cannot rename INBOX" w
    else with_mbox b w (fun decodedNew w =>
      match checkNewMailboxName decodedNew with
      | None => respond_err "NO" CName w
      | Some newName =>
          let names := listed "*" w in
          let have := names ++ ["INBOX" : gostring] in
          if negb (has_name oldName have) then respond "NO [NONEXISTENT] Mailbox does not exist" w
          else if (newName =s? oldName) || has_name newName have then respond "NO [ALREADYEXISTS] Mailbox already exists" w
          else if HasPrefix newName (oldName ++ "/") then respond "NO Cannot rename a mailbox into its own descendant" w
          else match child_moves oldName newName have names with
          | None => respond "NO [ALREADYEXISTS] Mailbox already exists" w
          | Some children =>
              let moves := (oldName, newName) :: children in
              match rename_all now (me w) moves (store w) with
              | (Some e, st) => respond_err "NO" (CStore e) (set_store (fun _ => st) w)
              | (None, st) => respond "OK RENAME completed" (set_store (fun _ => set_tdb (move_subscriptions (me w) moves) st) w)
              end
          end
      end))
  | _ => respond "BAD Missing old or new mailbox name" w
  end.

(** ** Subscriptions *)
Definition set_subscribed (name : gostring) (b : bool) w : World := set_store (set_tdb (SetSubscribed (me w) name b)) w.

Definition handleSubscribe args w : World :=
  match args with
  | [] => respond "BAD Missing mailbox name" w
  | a :: _ => with_mbox a w (fun name w =>
    if bool_decide (name = []) then respond "BAD Empty mailbox name" w
    else if negb (mailboxExists name w) then respond "NO Mailbox not found" w
    else respond "OK SUBSCRIBE completed" (set_subscribed name true w))
  end.

Definition handleUnsubscribe args w : World :=
  match args with
  | [] => respond "BAD Missing mailbox name" w
  | a :: _ => with_mbox a w (fun name w =>
    if bool_decide (name = []) then respond "BAD Empty mailbox name" w
    else respond "OK UNSUBSCRIBE completed" (set_subscribed name false w))
  end.

(** ** LIST *)
Definition foldInboxPattern (p : gostring) : gostring :=
  if (5 <=? length p)%nat && EqualFold (take 5 p) "INBOX" && ((length p =? 5)%nat || match p !! 5%nat with Some c => c =c? "/" | None => false end)
  then "INBOX" ++ drop 5 p else p.

Definition specialUseAttr (name : gostring) : gostring :=
  let n := ToLower name in
  if n =s? "drafts" then "\Drafts"
  else if (n =s? "sent") || (n =s? "sent items") || (n =s? "sent messages") then "\Sent"
  else if (n =s? "trash") || (n =s? "deleted items") || (n =s? "deleted messages") then "\Trash"
  else if (n =s? "junk") || (n =s? "spam") then "\Junk"
  else if (n =s? "archive") || (n =s? "archives") then "\Archive"
  else [].

Record listRequest := { selSubscribed : bool; selSpecialUse : bool; recursive : bool;
  retSubscribed : bool; retSpecial : bool; patterns : list gostring }.

(** Selection options, up to the closing parenthesis; a quoted ")" closes too. *)
Fixpoint selection_options (toks : list imapToken) (sub special rec : bool) : option (bool * bool * bool * list imapToken) :=
  match toks with
  | [] => None
  | t :: r =>
      if val t =s? ")" then Some (sub, special, rec, r)
      else let o := ToUpper (val t) in
      if o =s? "SUBSCRIBED" then selection_options r true special rec
      else if o =s? "SPECIAL-USE" then selection_options r sub true rec
      else if o =s? "RECURSIVEMATCH" then selection_options r sub special true
      else if o =s? "REMOTE" then selection_options r sub special rec
      else None
  end.
Fixpoint pattern_list (toks : list imapToken) : option (list gostring * list imapToken) :=
  match toks with
  | [] => None
  | t :: r => if val t =s? ")" then Some ([], r) else '(ps, rest) ← pattern_list r; Some (val t :: ps, rest)
  end.
Fixpoint list_returns (toks : list imapToken) (sub special : bool) : option (bool * bool) :=
  match toks with
  | [] => None
  | t :: r =>
      if val t =s? ")" then Some (sub, special)
      else let o := ToUpper (val t) in
      if o =s? "SUBSCRIBED" then list_returns r true special
      else if o =s? "CHILDREN" then list_returns r sub special
      else if o =s? "SPECIAL-USE" then list_returns r sub true
      else None
  end.

(** A reference and a pattern joined by the hierarchy delimiter. *)
Definition join_pattern (ref pat : gostring) : gostring :=
  if bool_decide (pat = []) then ref
  else (if negb (bool_decide (ref = [])) && negb (HasSuffix ref "/") then ref ++ "/" else ref) ++ pat.

Definition parseListRequest (toks : list imapToken) : option listRequest :=
  '(sub, special, rec, toks) ← match toks with
  | t :: r => if is_open t then
      '(sub, special, rec, r) ← selection_options r false false false;
      if rec && negb sub && negb special then None else Some (sub, special, rec, r)
      else Some (false, false, false, toks)
  | [] => Some (false, false, false, [])
  end;
  match toks with
  | ref :: t :: r =>
      '(pats, rest) ← (if is_open t then
        '(ps, rest) ← pattern_list r; if bool_decide (ps = []) then None else Some (ps, rest)
        else Some ([val t], r));
      '(rsub, rspecial) ← match rest with
      | [] => Some (false, false)
      | kw :: op :: opts => if EqualFold (val kw) "RETURN" && (val op =s? "(") then list_returns opts false false else None
      | _ => None
      end;
      Some {| selSubscribed := sub; selSpecialUse := special; recursive := rec; retSubscribed := rsub; retSpecial := rspecial;
        patterns := map (join_pattern (val ref)) pats |}
  | _ => None
  end.

Definition decode_patterns (ps : list gostring) : option (list gostring) :=
  mapM (fun p => d ← decodeMUTF7 p; Some (foldInboxPattern (normMailbox d))) ps.

(** Adding what is not there yet. *)
Definition add_new (acc new : list gostring) : list gostring :=
  foldl (fun acc m => if has_name m acc then acc else acc ++ [m]) acc new.
Definition matches_any (ps : list gostring) (m : gostring) : bool := existsb (imapWildcardMatch m) ps.

(** The proper prefixes of a name that end before a delimiter, shortest first. *)
Fixpoint parents_from (done rest : gostring) : list gostring :=
  match rest with
  | [] => []
  | c :: r => (if (c =c? "/") && negb (bool_decide (done = [])) then [done] else []) ++ parents_from (done ++ [c]) r
  end.
Definition parents (m : gostring) : list gostring := parents_from [] m.

(** The names LIST considers: those the patterns find, the subscribed ones that are
    gone, the levels of the hierarchy that are no mailboxes ([implicit]). *)
Definition found_names (req : listRequest) (all subscribed : list gostring) (find : gostring -> list gostring) : list gostring * list gostring :=
  let mailboxes := foldl (fun acc p => add_new acc (find p)) [] (concat (map patternForms (patterns req))) in
  let mailboxes := if selSubscribed req then merge_sort lex_le (add_new mailboxes (List.filter (matches_any (patterns req)) subscribed)) else mailboxes in
  if selSubscribed req || selSpecialUse req then (mailboxes, [])
  else
  let levels := List.filter (fun par => negb (has_name par all) && matches_any (patterns req) par) (concat (map parents all)) in
  let implicit := List.filter (fun par => negb (has_name par mailboxes)) (add_new [] levels) in
  (if bool_decide (implicit = []) then mailboxes else merge_sort lex_le (mailboxes ++ implicit), implicit).

Definition below (parent : gostring) (l : list gostring) : bool := existsb (fun o => HasPrefix o (parent ++ "/")) l.

(** The attributes and the child information of one name; [None]: not selected. *)
Definition list_entry (req : listRequest) (all subscribed implicit : list gostring) (mbox : gostring) : option (list gostring * bool) :=
  let isSub := has_name mbox subscribed in
  let special := specialUseAttr mbox in
  let selected := negb (selSubscribed req) && negb (selSpecialUse req) || selSubscribed req && isSub
  || selSpecialUse req && negb (bool_decide (special = [])) in
  let childInfo := negb selected && recursive req && selSubscribed req && below mbox subscribed in
  if selected || childInfo then
  Some ((if has_name mbox implicit then ["\Noselect" : gostring] else if has_name mbox all then [] else ["\NonExistent" : gostring])
    ++ (if below mbox all then ["\HasChildren" : gostring] else if has_name mbox all then ["\HasNoChildren" : gostring] else [])
    ++ (if (selSubscribed req || retSubscribed req) && isSub then ["\Subscribed" : gostring] else [])
    ++ (if (selSpecialUse req || retSpecial req) && negb (bool_decide (special = [])) then [special] else []), childInfo)
  else None.

Definition quote (s : gostring) : gostring := DQUOTE :: s ++ [DQUOTE].
Definition wire_name (m : gostring) : gostring := quoteMailbox (encodeMUTF7 m).
Definition list_line (attrs : list gostring) (mbox : gostring) (childInfo : bool) : gostring :=
  "LIST (" ++ Join attrs " " ++ ") " ++ quote "/" ++ " " ++ wire_name mbox
  ++ (if childInfo then " (" ++ quote "CHILDINFO" ++ " (" ++ quote "SUBSCRIBED" ++ "))" else []).

Definition list_lines (req : listRequest) w : list gostring :=
  let all := listed "*" w in
  let subscribed := if selSubscribed req || retSubscribed req then ListSubscribed (me w) (tdb (store w)) else [] in
  let '(names, implicit) := found_names req all subscribed (fun p => listed p w) in
  omap (fun m => '(attrs, childInfo) ← list_entry req all subscribed implicit m; Some (list_line attrs m childInfo)) names.

Definition handleListLine args (line : gostring) w : World :=
  match args with
  | _ :: _ :: _ =>
      match parseListRequest (commandArgTokens args line "LIST") with
      | None => respond_err "BAD" CList w
      | Some req =>
          match decode_patterns (patterns req) with
          | None => respond "BAD invalid modified UTF-7 mailbox name" w
          | Some ps =>
              if bool_decide (ps = [[]]) then
              respond "OK LIST completed" (WriteData ("LIST (\Noselect) " ++ quote "/" ++ " " ++ quote []) w)
              else
              let req := {| selSubscribed := selSubscribed req; selSpecialUse := selSpecialUse req; recursive := recursive req;
                retSubscribed := retSubscribed req; retSpecial := retSpecial req; patterns := ps |} in
              respond "OK LIST completed" (foldl (fun w l => WriteData l w) w (list_lines req w))
          end
      end
  | _ => respond "BAD Missing reference or pattern" w
  end.

(** ** LSUB *)
Definition matchMailboxPattern : gostring -> gostring -> bool := imapWildcardMatch.

(** All prefixes of a name that end before a delimiter. *)
Fixpoint levels_from (done rest : gostring) : list gostring :=
  match rest with
  | [] => []
  | c :: r => (if c =c? "/" then [done] else []) ++ levels_from (done ++ [c]) r
  end.

Definition lsub_one (all subscribed : list gostring) (pattern : gostring) (entries : list (gostring * gostring)) (mbox : gostring)
  : list (gostring * gostring) :=
  if matchMailboxPattern (normMailbox mbox) pattern then
  let attrs : gostring := if below mbox all || below mbox subscribed then "\HasChildren" else "\HasNoChildren" in
  entries ++ [(mbox, if negb (has_name mbox all) && negb (EqualFold mbox "INBOX") then "\Noselect " ++ attrs else attrs)]
  else if negb (GoLib.Contains pattern "%") then entries
  else foldl (fun entries parent =>
    if negb (has_name parent subscribed) && negb (has_name parent (map fst entries)) && matchMailboxPattern (normMailbox parent) pattern
    then entries ++ [(parent, "\Noselect \HasChildren" : gostring)] else entries) entries (levels_from [] mbox).

Definition name_le (a b : gostring * gostring) : Prop := lex_le a.1 b.1.
#[export] Instance name_le_dec : RelDecision name_le.
Proof. intros a b. unfold name_le. apply _. Defined.

Definition handleLsub args w : World :=
  match args with
  | r :: p :: _ =>
      match decodeMUTF7 r, decodeMUTF7 p with
      | Some reference, Some pattern =>
          let fullPattern := foldInboxPattern (join_pattern (normMailbox reference) (normMailbox pattern)) in
          let subscribed := ListSubscribed (me w) (tdb (store w)) in
          let entries := foldl (lsub_one (listed "*" w) subscribed fullPattern) [] subscribed in
          let entries := merge_sort name_le entries in
          respond "OK LSUB completed"
          (foldl (fun w '(name, attrs) => WriteData ("LSUB (" ++ attrs ++ ") " ++ quote "/" ++ " " ++ wire_name name) w) w entries)
      | _, _ => respond "BAD invalid modified UTF-7 mailbox name" w
      end
  | _ => respond "BAD Missing reference or pattern" w
  end.

(** ** STATUS *)
Inductive StatusItem := MESSAGES | SRECENT | UIDNEXT | UIDVALIDITY | UNSEEN.
Definition status_item (it : gostring) : option StatusItem :=
  if it =s? "MESSAGES" then Some MESSAGES else if it =s? "RECENT" then Some SRECENT
  else if it =s? "UIDNEXT" then Some UIDNEXT else if it =s? "UIDVALIDITY" then Some UIDVALIDITY
  else if it =s? "UNSEEN" then Some UNSEEN else None.
Definition status_part (mb : MailboxInfo) (it : StatusItem) : gostring :=
  match it with
  | MESSAGES => "MESSAGES " ++ FormatUint (Z.of_nat (MbExists mb))
  | SRECENT => "RECENT " ++ FormatUint (Z.of_nat (MbRecent mb))
  | UIDNEXT => "UIDNEXT " ++ FormatUint (MbUIDNext mb)
  | UIDVALIDITY => "UIDVALIDITY " ++ FormatUint (MbUIDValidity mb)
  | UNSEEN => "UNSEEN " ++ FormatUint (Z.of_nat (MbUnseen mb))
  end.
Definition unknown_item (items : list gostring) : gostring :=
  default [] (List.find (fun it => bool_decide (status_item it = None)) items).

#[export] Instance StatusItem_eq : EqDecision StatusItem.
Proof. solve_decision. Defined.

Definition handleStatus args w : World :=
  match args with
  | a :: ((_ :: _) as rest) => with_mbox a w (fun name w =>
    let list := Join rest " " in
    if negb (HasPrefix list "(") || negb (HasSuffix list ")") then respond "BAD Status items must be a parenthesized list" w
    else
    let items := Fields (ToUpper (drop 1 (take (length list - 1) list))) in
    if bool_decide (items = []) then respond "BAD Missing status items" w
    else match mapM status_item items with
    | None => respond ("BAD Unknown status item " ++ unknown_item items) w
    | Some its =>
        match examineMailbox name w with
        | (Err e, st) => respond_err "NO" (CStore e) (set_store (fun _ => st) w)
        | (Ok mb, st) =>
            respond "OK STATUS completed"
            (WriteData ("STATUS " ++ wire_name name ++ " (" ++ Join (map (status_part mb) its) " " ++ ")") (set_store (fun _ => st) w))
        end
    end)
  | _ => respond "BAD Missing mailbox or status items" w
  end.

(** ** Access control *)
Definition ACLAll : Z := 255.

Definition parseOwnerMailbox (mailbox : gostring) w : gostring * gostring * bool :=
  let '(owner, name, isShared) := match SplitN2 mailbox ":" with
  | (a, Some b) => (a, b, true)
  | (_, None) => (me w, mailbox, false)
  end in
  (owner, match decodeMUTF7 name with Some d => normMailbox (canonMailbox d) | None => name end, isShared).

Definition ownMailboxExists (name : gostring) w : bool := EqualFold name "INBOX" || has_name name (listed name w).

Definition handleGetACL args w : World :=
  match args with
  | [] => respond "BAD GETACL requires a mailbox name" w
  | mailbox :: _ =>
      let '(owner, mb, isShared) := parseOwnerMailbox mailbox w in
      let d := db (store w) in
      if isShared && negb (bool_decide (owner = me w)) && (Z.land (GetACL owner mb (me w) d) ACLLookup =? 0) then respond "NO Access denied" w
      else respond "OK GETACL completed"
      (foldl (fun w e => WriteData ("ACL " ++ mailbox ++ " " ++ Grantee e ++ " " ++ ACLRights_String (Rights e)) w) w (ListACL owner mb d))
  end.

Definition handleSetACL now args w : World :=
  match args with
  | mailbox :: grantee :: rightsStr :: _ =>
      let '(owner, mb, isShared) := parseOwnerMailbox mailbox w in
      if isShared && negb (bool_decide (owner = me w)) then respond "NO Only owner can modify ACL" w
      else if negb (ownMailboxExists mb w) then respond "NO [NONEXISTENT] Mailbox does not exist" w
      else match ParseACLRights rightsStr with
      | None => respond "BAD Invalid rights format" w
      | Some (rights, negative) =>
          let rights := if negative then Z.land (GetACL owner mb grantee (db (store w))) (Z.lnot rights) else rights in
          respond "OK SETACL completed" (set_store (set_db (SetACL now owner mb grantee rights (me w))) w)
      end
  | _ => respond "BAD SETACL requires mailbox, grantee, and rights" w
  end.

Definition handleDeleteACL args w : World :=
  match args with
  | mailbox :: grantee :: _ =>
      let '(owner, mb, isShared) := parseOwnerMailbox mailbox w in
      if isShared && negb (bool_decide (owner = me w)) then respond "NO Only owner can delete ACL" w
      else respond "OK DELETEACL completed" (set_store (set_db (DeleteACL owner mb grantee)) w)
  | _ => respond "BAD DELETEACL requires mailbox and grantee" w
  end.

Definition handleMyRights args w : World :=
  match args with
  | [] => respond "BAD MYRIGHTS requires a mailbox name" w
  | mailbox :: _ =>
      let '(owner, mb, isShared) := parseOwnerMailbox mailbox w in
      let rights := if isShared && negb (bool_decide (owner = me w)) then GetACL owner mb (me w) (db (store w)) else ACLAll in
      respond "OK MYRIGHTS completed" (WriteData ("MYRIGHTS " ++ mailbox ++ " " ++ ACLRights_String rights) w)
  end.

Definition handleListRights args w : World :=
  match args with
  | mailbox :: grantee :: _ =>
      respond "OK LISTRIGHTS completed" (WriteData ("LISTRIGHTS " ++ mailbox ++ " " ++ grantee ++ " l r s w i t e k") w)
  | _ => respond "BAD LISTRIGHTS requires mailbox and grantee" w
  end.

(** ** Small commands *)
Definition handleNamespace w : World :=
  respond "OK NAMESPACE completed" (WriteData ("NAMESPACE ((" ++ quote [] ++ " " ++ quote "/" ++ ")) NIL NIL") w).
Definition handleEnable args w : World :=
  match args with
  | [] => respond "BAD Missing capability name" w
  | _ => respond "OK ENABLE completed" (WriteData "ENABLED" w)
  end.

Definition id_reply : gostring := "ID (" ++ quote "name" ++ " " ++ quote "uMailServer" ++ " " ++ quote "version" ++ " " ++ quote "dev" ++ ")".
Definition handleIDLine (line : gostring) w : World :=
  let rest := TrimSpace (skipWords line 2) in
  let ok w := respond "OK ID completed" (WriteData id_reply w) in
  if EqualFold rest "NIL" then ok w
  else let toks := tokenizeIMAPArgs rest in
  match toks with
  | t :: _ :: _ =>
      if is_open t && match last toks with Some l => is_close l | None => false end then
      let inner := take (length toks - 2) (tail toks) in
      if negb (Nat.even (length inner)) || (60 <? length inner)%nat then respond "BAD ID parameter list must hold field/value pairs (max 30)" w
      else if existsb (fun t => is_open t || is_close t) inner then respond "BAD Invalid ID parameter" w
      else ok w
      else respond "BAD ID parameters must be NIL or a parenthesized list" w
  | _ => respond "BAD ID parameters must be NIL or a parenthesized list" w
  end.
End Mailboxes.
