(* ===== verification/ImapSort.v ===== *)
(** * internal/imap: SORT and THREAD

    sort.go and the two commands (commands.go).  The containers of the REFERENCES
    algorithm are a heap: a list of nodes with their message, parent and children, and
    the table from message ids to nodes.  After the links are made the roots are read as
    trees; pruning, the merge by subject and the sort work on trees.  The walk up from a
    node takes at most as many steps as there are nodes. *)
From S2P Require Import Prelude GoLib Utf8 Bolt ImapSeq ImapNames Scram BlobStore MailDb Threads ImapStore ImapMatch ImapSearch ImapFetch.
From S2P Require Import ImapConn ImapMailboxes.

(** [sort.SliceStable]: equal elements keep their order. *)
Section StableSort.
Context {A : Type} (less : A -> A -> bool).
Fixpoint insert_sorted (x : A) (l : list A) : list A :=
  match l with
  | [] => [x]
  | y :: r => if less y x then y :: insert_sorted x r else x :: l
  end.
Definition stable_sort (l : list A) : list A := foldr insert_sorted [] l.
End StableSort.

Inductive SortField := SArrival | SDate | SFrom | STo | SCc | SSubject | SSize | SUid.
#[export] Instance SortField_eq : EqDecision SortField.
Proof. solve_decision. Defined.
Record SortCriterion := { Field : SortField; Descending : bool }.

Record messageForSort := { seqNum : Z; uid : Z; sdate : Z; from : gostring; to : gostring; cc : gostring; subject : gostring;
  size : Z; arrival : Z }.

Definition str_lt (a b : gostring) : bool := lex_leb a b && negb (lex_leb b a).
Definition field_lt (f : SortField) (a b : messageForSort) : bool :=
  match f with
  | SArrival => arrival a <? arrival b
  | SDate => sdate a <? sdate b
  | SFrom => str_lt (from a) (from b)
  | STo => str_lt (to a) (to b)
  | SCc => str_lt (cc a) (cc b)
  | SSubject => str_lt (subject a) (subject b)
  | SSize => size a <? size b
  | SUid => uid a <? uid b
  end.
Definition criterion_lt (c : SortCriterion) (a b : messageForSort) : bool :=
  if Descending c then field_lt (Field c) b a else field_lt (Field c) a b.
Fixpoint sort_less (criteria : list SortCriterion) (a b : messageForSort) : bool :=
  match criteria with
  | [] => false
  | c :: r => if criterion_lt c a b then true else if criterion_lt c b a then false else sort_less r a b
  end.

Section Sort.
Context {U : UnicodeTables} {M : MimeStd} {T : MimeTree} {NM : NetMail}.

Definition sort_field (arg : gostring) : option SortField :=
  if arg =s? "ARRIVAL" then Some SArrival else if arg =s? "DATE" then Some SDate else if arg =s? "FROM" then Some SFrom
  else if arg =s? "SUBJECT" then Some SSubject else if arg =s? "SIZE" then Some SSize else if arg =s? "UID" then Some SUid
  else if arg =s? "CC" then Some SCc else if arg =s? "TO" then Some STo else None.
Fixpoint sort_criteria (args : list gostring) (descending : bool) : option (list SortCriterion) :=
  match args with
  | [] => Some []
  | a :: r =>
      let a := ToUpper a in
      if a =s? "REVERSE" then sort_criteria r true
      else f ← sort_field a; cs ← sort_criteria r false; Some ({| Field := f; Descending := descending |} :: cs)
  end.
Definition parseSortCriteria (args : list gostring) : option (list SortCriterion) :=
  cs ← sort_criteria args false; if bool_decide (length cs = 0%nat) then None else Some cs.

(** ** Base subjects *)
(** Behind an optional "[blob]". *)
Definition skip_blob (rest : gostring) : gostring :=
  if HasPrefix rest "[" then
  match IndexByte rest "]" with
  | Some end_ => if (0 <? end_)%nat && negb (ContainsAny (drop 1 (take end_ rest)) "[]") then TrimLeft (drop (end_ + 1) rest) " " else rest
  | None => rest
  end
  else rest.
Definition refwd_prefix (p s : gostring) : option gostring :=
  if HasPrefix s p then
  let rest := skip_blob (TrimLeft (drop (length p) s) " ") in
  if HasPrefix rest ":" then Some (TrimSpace (drop 1 rest)) else None
  else None.
Definition trimSubjectPrefix (s : gostring) : gostring * bool :=
  match refwd_prefix "re" s, refwd_prefix "fwd" s, refwd_prefix "fw" s with
  | Some r, _, _ => (r, true)
  | None, Some r, _ => (r, true)
  | None, None, Some r => (r, true)
  | None, None, None =>
      if HasPrefix s "[" then
      match IndexByte s "]" with
      | Some end_ =>
          if (0 <? end_)%nat && negb (ContainsAny (drop 1 (take end_ s)) "[]") then
          let rest := TrimSpace (drop (end_ + 1) s) in
          if bool_decide (rest = []) then (s, false) else (rest, false)
          else (s, false)
      | None => (s, false)
      end
      else (s, false)
  end.

(** Every round that goes on has made the subject shorter. *)
Fixpoint trim_fwd (fuel : nat) (s : gostring) (reply : bool) : gostring * bool :=
  match fuel with
  | O => (s, reply)
  | S f => if HasSuffix s "(fwd)" then trim_fwd f (TrimSpace (TrimSuffix s "(fwd)")) true else (s, reply)
  end.
Fixpoint trim_prefixes (fuel : nat) (s : gostring) (reply : bool) : gostring * bool :=
  match fuel with
  | O => (s, reply)
  | S f =>
      let '(s', refwd) := trimSubjectPrefix s in
      if s' =s? s then (s', reply || refwd) else trim_prefixes f s' (reply || refwd)
  end.
Fixpoint base_go (fuel : nat) (s : gostring) (reply : bool) : gostring * bool :=
  match fuel with
  | O => (s, reply)
  | S f =>
      let '(s1, reply) := trim_fwd (length s) s reply in
      let '(s2, reply) := trim_prefixes (S (length s1)) s1 reply in
      let '(s3, reply) := if HasPrefix s2 "[fwd:" && HasSuffix s2 "]" then (TrimSpace (drop 5 (take (length s2 - 1) s2)), true) else (s2, reply) in
      if s3 =s? s then (s3, reply) else base_go f s3 reply
  end.
Definition baseSubjectReply (subject : gostring) : gostring * bool :=
  let subject := default subject (DecodeHeader (fun _ _ => None) subject) in
  let s := ToLower (Join (Fields subject) " ") in
  base_go (S (length s)) s false.
Definition baseSubject (subject : gostring) : gostring := fst (baseSubjectReply subject).

Definition sentDate (date : gostring) (internal : Z) : Z :=
  match parseMessageDate date with Some (t, _) => t | None => internal end.

Definition fallback_address (header : gostring) : gostring :=
  TrimSpace match IndexByte header "<" with
  | Some l => match IndexByte (drop l header) ">" with
  | Some r => if (0 <? r)%nat then drop (l + 1) (take (l + r) header) else header
  | None => header
  end
  | None => match IndexByte header "," with Some c => take c header | None => header end
  end.
Definition addrMailbox (header : gostring) : gostring :=
  if bool_decide (TrimSpace header = []) then []
  else
  let addr := match ParseAddressList header with Some (a :: _) => a | _ => fallback_address header end in
  match LastIndexByte addr "@" with Some at_ => take at_ addr | None => addr end.

(** A message with its keys; [cc] is its Cc field when a criterion asks for it. *)
Definition for_sort (meta : MessageMetadata) (seq : Z) (cc : option gostring) : messageForSort := {|
  seqNum := seq; uid := UID meta; sdate := sentDate (Date meta) (InternalDate meta); from := ToLower (addrMailbox (From meta));
  to := ToLower (addrMailbox (To meta)); cc := match cc with Some c => ToLower (addrMailbox c) | None => [] end;
  subject := baseSubject (Subject meta); size := Size meta; arrival := InternalDate meta |}.
Definition sortMessagesByKeys (criteria : list SortCriterion) (messages : list (MessageMetadata * Z * option gostring)) : list Z :=
  map seqNum (stable_sort (sort_less criteria) (map (fun '(m, q, c) => for_sort m q c) messages)).

Definition readHeaderFields (hdr : gostring) (key : gostring) : list gostring := HeaderValues (hdr ++ CRLF ++ CRLF) key.

(** ** THREAD: messages *)
Record threadMsg := { num : Z; tseq : Z; msgID : gostring; refs : list gostring; tsubject : gostring; tdate : Z }.

Fixpoint thread_ids (fuel : nat) (v : gostring) : list gostring :=
  match fuel, IndexByte v "<" with
  | S f, Some l =>
      match IndexByte (drop (l + 1) v) ">" with
      | Some r =>
          let id := TrimSpace (take r (drop (l + 1) v)) in
          (if negb (bool_decide (id = [])) && negb (ContainsAny id [byte_of 32; byte_of 9; byte_of 60]) then [id] else [])
          ++ thread_ids f (drop (l + 1 + r + 1) v)
      | None => []
      end
  | _, _ => []
  end.
Definition threadMsgIDs (v : gostring) : list gostring := thread_ids (length v) v.
Definition threadIDs (messageID inReplyTo references : gostring) : gostring * list gostring :=
  (match threadMsgIDs messageID with
  | id :: _ => id
  | [] => let v := TrimSpace messageID in if ContainsAny v [byte_of 32; byte_of 9] then [] else v
  end,
    match threadMsgIDs references with
    | [] => take 1 (threadMsgIDs inReplyTo)
    | refs => refs
    end).
Definition parseThreadHeader (hdr : gostring) : gostring * list gostring * gostring * gostring :=
  let get k := hd [] (readHeaderFields hdr k) in
  let '(id, refs) := threadIDs (get "Message-Id") (get "In-Reply-To") (Join (readHeaderFields hdr "References") " ") in
  (id, refs, get "Subject", get "Date").

(** ** THREAD: containers *)
Record threadNode := { nmsg : option threadMsg; parent : option nat; children : list nat }.
Record Graph := { nodes : list threadNode; table : gmap gostring nat }.
Definition dummy : threadNode := {| nmsg := None; parent := None; children := [] |}.
Definition node (g : Graph) (n : nat) : threadNode := default dummy (nodes g !! n).
Definition set_node (n : nat) (f : threadNode -> threadNode) (g : Graph) : Graph := {| nodes := alter f n (nodes g); table := table g |}.
Definition with_parent (p : option nat) (x : threadNode) : threadNode := {| nmsg := nmsg x; parent := p; children := children x |}.
Definition with_children (f : list nat -> list nat) (x : threadNode) : threadNode := {| nmsg := nmsg x; parent := parent x; children := f (children x) |}.
Definition with_msg (m : threadMsg) (x : threadNode) : threadNode := {| nmsg := Some m; parent := parent x; children := children x |}.

Definition threadLink (p c : nat) (g : Graph) : Graph := set_node p (with_children (fun l => l ++ [c])) (set_node c (with_parent (Some p)) g).
Fixpoint remove_first (c : nat) (l : list nat) : list nat :=
  match l with [] => [] | x :: r => if (x =? c)%nat then r else x :: remove_first c r end.
Definition threadUnlink (c : nat) (g : Graph) : Graph :=
  match parent (node g c) with
  | None => g
  | Some p => set_node c (with_parent None) (set_node p (with_children (remove_first c)) g)
  end.

Fixpoint reaches (fuel : nat) (g : Graph) (from_ to_ : nat) : bool :=
  (to_ =? from_)%nat ||
  match fuel, parent (node g to_) with
  | S f, Some p => reaches f g from_ p
  | _, _ => false
  end.
Definition threadReaches (g : Graph) (from_ to_ : nat) : bool := reaches (length (nodes g)) g from_ to_.

Definition container (id : gostring) (g : Graph) : nat * Graph :=
  match table g !! id with
  | Some c => (c, g)
  | None => (length (nodes g), {| nodes := nodes g ++ [dummy]; table := <[id := length (nodes g)]> (table g) |})
  end.

Definition link_ref (acc : option nat * Graph) (ref : gostring) : option nat * Graph :=
  let '(prev, g) := acc in
  let '(r, g) := container ref g in
  (Some r, match prev with
  | Some p => if bool_decide (parent (node g r) = None) && negb (threadReaches g r p) then threadLink p r g else g
  | None => g
  end).

(** The table's key for a message: its id, unless that is missing or taken. *)
Definition own_key (i : nat) (m : threadMsg) (g : Graph) : gostring :=
  let free := match table g !! msgID m with None => true | Some c => negb (bool_decide (is_Some (nmsg (node g c)))) end in
  if negb (bool_decide (msgID m = [])) && free then msgID m else byte_of 0 :: FormatUint (Z.of_nat i).

Definition thread_one (i : nat) (m : threadMsg) (g : Graph) : Graph :=
  let '(c, g) := container (own_key i m g) g in
  let g := set_node c (with_msg m) g in
  let '(prev, g) := foldl link_ref (None, g) (refs m) in
  match prev with
  | Some p => if negb (threadReaches g c p) && negb (bool_decide (parent (node g c) = Some p)) then threadLink p c (threadUnlink c g) else g
  | None => g
  end.
Definition empty_graph : Graph := {| nodes := []; table := ∅ |}.
Definition thread_graph (msgs : list threadMsg) : Graph := foldl (fun g '(i, m) => thread_one i m g) empty_graph (imap pair msgs).

(** ** THREAD: trees *)
Inductive ThreadTree := TNode (msg : option threadMsg) (subs : list ThreadTree).
Definition tmsg (t : ThreadTree) : option threadMsg := match t with TNode m _ => m end.
Definition tsubs (t : ThreadTree) : list ThreadTree := match t with TNode _ l => l end.

Fixpoint tree_at (fuel : nat) (g : Graph) (n : nat) : ThreadTree :=
  TNode (nmsg (node g n)) (match fuel with S f => map (tree_at f g) (children (node g n)) | O => [] end).
Definition roots_of (g : Graph) : list nat := List.filter (fun n => bool_decide (parent (node g n) = None)) (seq 0 (length (nodes g))).
Definition root_trees (g : Graph) : list ThreadTree := map (tree_at (length (nodes g)) g) (roots_of g).

(** What becomes of one node: it goes, its children take its place, or it stays. *)
Definition keep_or_promote (root : bool) (m : option threadMsg) (subs : list ThreadTree) : list ThreadTree :=
  match m, subs with
  | Some _, _ => [TNode m subs]
  | None, [] => []
  | None, [_] => subs
  | None, _ => if root then [TNode m subs] else subs
  end.
Fixpoint prune_tree (root : bool) (t : ThreadTree) : list ThreadTree :=
  match t with TNode m subs => keep_or_promote root m (concat (map (prune_tree false) subs)) end.
Definition pruneThreadNodes (l : list ThreadTree) (root : bool) : list ThreadTree := concat (map (prune_tree root) l).

Definition threadSubjectOf (t : ThreadTree) : gostring * bool :=
  match tmsg t with
  | Some m => baseSubjectReply (tsubject m)
  | None => match tsubs t with
  | TNode (Some m) _ :: _ => baseSubjectReply (tsubject m)
  | _ => ([], false)
  end
  end.

(** ** THREAD: merging by subject
    
    [slots] are the roots and the dummies made for them; [up] is the dummy a root was put
    under, [merged] the roots that were put under another thread. *)
Record Gather := { slots : list ThreadTree; subjects : gmap gostring (nat * bool); merged : list nat; up : gmap nat nat }.
Definition slot (s : Gather) (i : nat) : ThreadTree := default (TNode None []) (slots s !! i).
Definition is_dummy (t : ThreadTree) : bool := bool_decide (tmsg t = None).

Definition better (slots : list ThreadTree) (entry : option (nat * bool)) (r : ThreadTree) (reply : bool) : bool :=
  match entry with
  | None => true
  | Some (e, ereply) =>
      let e := default (TNode None []) (slots !! e) in
      is_dummy r && negb (is_dummy e) || negb (is_dummy r) && negb (is_dummy e) && ereply && negb reply
  end.
Definition pick_subject (roots : list ThreadTree) (tbl : gmap gostring (nat * bool)) (ir : nat * ThreadTree) : gmap gostring (nat * bool) :=
  let '(i, r) := ir in
  let '(s, reply) := threadSubjectOf r in
  if bool_decide (s = []) then tbl
  else if better roots (tbl !! s) r reply then <[s := (i, reply)]> tbl else tbl.

Definition add_subs (subs : list ThreadTree) (t : ThreadTree) : ThreadTree := TNode (tmsg t) (tsubs t ++ subs).
Definition merge_root (g : Gather) (i : nat) : Gather :=
  let r := slot g i in
  let '(s, reply) := threadSubjectOf r in
  match (if bool_decide (s = []) then None else subjects g !! s) with
  | None => g
  | Some (t, treply) =>
      if (t =? i)%nat then g
      else
      let tt := slot g t in
      let under_t subs := {| slots := alter (add_subs subs) t (slots g); subjects := subjects g; merged := merged g ++ [i]; up := up g |} in
      if is_dummy tt && is_dummy r then under_t (tsubs r)
      else if is_dummy tt then under_t [r]
      else if negb (is_dummy r) && reply && negb treply then under_t [r]
      else {| slots := slots g ++ [TNode None [tt; r]]; subjects := <[s := (length (slots g), false)]> (subjects g);
        merged := merged g ++ [i]; up := <[t := length (slots g)]> (up g) |}
  end.
(** The top of a root; a dummy is never put under another. *)
Definition top (g : Gather) (i : nat) : nat := default i (up g !! i).
Definition add_slot (acc : list nat) (n : nat) : list nat := if bool_decide (n ∈ acc) then acc else acc ++ [n].
Definition threadGatherSubjects (roots : list ThreadTree) : list ThreadTree :=
  let tbl := foldl (pick_subject roots) ∅ (imap pair roots) in
  let g := foldl merge_root {| slots := roots; subjects := tbl; merged := []; up := ∅ |} (seq 0 (length roots)) in
  let tops := map (top g) (List.filter (fun i => negb (bool_decide (i ∈ merged g))) (seq 0 (length roots))) in
  map (slot g) (foldl add_slot [] tops).

(** ** THREAD: order and output *)
Fixpoint threadFirst (t : ThreadTree) : option threadMsg :=
  match t with
  | TNode (Some m) _ => Some m
  | TNode None (c :: _) => threadFirst c
  | TNode None [] => None
  end.
Definition threadMsgBefore (a b : threadMsg) : bool :=
  if negb (tdate a =? tdate b) then tdate a <? tdate b else tseq a <? tseq b.
Definition node_before (a b : ThreadTree) : bool :=
  match threadFirst a, threadFirst b with Some a, Some b => threadMsgBefore a b | _, _ => false end.
Fixpoint sort_tree (t : ThreadTree) : ThreadTree :=
  match t with TNode m subs => TNode m (stable_sort node_before (map sort_tree subs)) end.
Definition sortThreadNodes (l : list ThreadTree) : list ThreadTree := stable_sort node_before (map sort_tree l).

Definition threadReferences (msgs : list threadMsg) : list ThreadTree :=
  sortThreadNodes (threadGatherSubjects (pruneThreadNodes (root_trees (thread_graph msgs)) true)).

Definition subject_before (a b : threadMsg) : bool :=
  let sa := baseSubject (tsubject a) in
  let sb := baseSubject (tsubject b) in
  if negb (sa =s? sb) then str_lt sa sb else threadMsgBefore a b.
(** The first of a run of equal subjects has the others below it. *)
Fixpoint group_subjects (cur : option (threadMsg * list ThreadTree)) (l : list threadMsg) : list ThreadTree :=
  let done := match cur with Some (m, subs) => [TNode (Some m) subs] | None => [] end in
  match l with
  | [] => done
  | m :: r =>
      match cur with
      | Some (h, subs) =>
          if baseSubject (tsubject h) =s? baseSubject (tsubject m) then group_subjects (Some (h, subs ++ [TNode (Some m) []])) r
          else done ++ group_subjects (Some (m, [])) r
      | None => group_subjects (Some (m, [])) r
      end
  end.
Definition threadOrderedSubject (msgs : list threadMsg) : list ThreadTree :=
  sortThreadNodes (group_subjects None (stable_sort subject_before msgs)).

Fixpoint writeThreadMembers (t : ThreadTree) : gostring :=
  match t with
  | TNode m subs =>
      let lists := concat (map (fun c => "(" ++ writeThreadMembers c ++ ")") subs) in
      match m, subs with
      | Some m, [] => FormatUint (num m)
      | Some m, [c] => FormatUint (num m) ++ " " ++ writeThreadMembers c
      | Some m, _ => FormatUint (num m) ++ " " ++ lists
      | None, _ => lists
      end
  end.
Definition formatThreads (roots : list ThreadTree) : gostring := concat (map (fun r => "(" ++ writeThreadMembers r ++ ")") roots).

(** ** The commands *)
Context (zone : MessageMetadata -> Z) (walk : gmap gostring gostring -> list (gostring * gostring)).
Implicit Types (w : World).

Definition badCharsetResponse : gostring := "NO [BADCHARSET (US-ASCII UTF-8)] unsupported charset".
Definition writeSearchParseError (e : search_error) : World -> World :=
  match e with EBadCharset => respond badCharsetResponse | _ => respond_err "BAD" (CProgram e) end.
(** A panic ends the connection. *)
Definition panic w : World := Close w.

(** The messages a program finds, by their live numbers. *)
Definition with_matches (toks : list imapToken) (failed : World -> World) w (k : gostring -> list (Z * Z) -> World -> World) : World :=
  match selected (conn w) with
  | None => respond "NO No mailbox selected" w
  | Some sel =>
      match parseSearchProgram toks with
      | Err e => writeSearchParseError e w
      | Ok program =>
          let mailbox := MbName (info sel) in
          match evalSearch zone walk (view (conn w)) (list_to_set (RecentUIDs (info sel))) (me w) mailbox (store w) program with
          | Err FPanic => panic w
          | Err e => respond_err "NO" (CSearch e) w
          | Ok matched =>
              if too_many (me w) mailbox (store w) then failed w
              else k mailbox (List.filter (fun '(q, _) => bool_decide (q ∈ matched)) (numbered (me w) mailbox (store w))) w
          end
      end
  end.
(** The session's number of a message; without a snapshot, the live one. *)
Definition session_number (q uid : Z) w : option Z := if snapOn (view (conn w)) then snapSeq (view (conn w)) uid else Some q.

Fixpoint criteria_args (toks : list imapToken) : list gostring * list imapToken :=
  match toks with
  | [] => ([], [])
  | t :: r => if is_close t then ([], r) else let '(a, rest) := criteria_args r in (val t :: a, rest)
  end.

Definition message_cc (criteria : list SortCriterion) (mailbox : gostring) (uid : Z) w : option gostring :=
  if existsb (fun c => bool_decide (Field c = SCc)) criteria then
  Some match MessageHeader (me w) mailbox uid (store w) with
  | Ok hdr => hd [] (readHeaderFields hdr "Cc")
  | Err _ => []
  end
  else None.

Definition sort_numbers (criteria : list SortCriterion) (uidResults : bool) (mailbox : gostring) (found : list (Z * Z)) w : list Z :=
  let metas := map (fun '(q, uid) => (GetMessageMetadata (me w) mailbox uid (db (store w)), q, message_cc criteria mailbox uid w)) found in
  let uidOf := list_to_map found : gmap Z Z in
  omap (fun q => uid ← uidOf !! q; sq ← session_number q uid w; Some (if uidResults then uid else sq)) (sortMessagesByKeys criteria metas).

Definition sortCmd (args : list gostring) (line : gostring) (uidResults : bool) w : World :=
  match selected (conn w), commandArgTokens args line "SORT" with
  | None, _ => respond "NO No mailbox selected" w
  | Some _, t :: toks =>
      if negb (is_open t) then respond "BAD invalid sort criteria" w
      else let '(criteriaArgs, rest) := criteria_args toks in
      match rest with
      | charset :: (_ :: _) as keys =>
          if negb (searchCharsetSupported (val charset)) then respond badCharsetResponse w
          else match parseSortCriteria criteriaArgs with
          | None => respond "BAD invalid sort criteria" w
          | Some criteria => with_matches keys (respond "NO unable to fetch messages") w (fun mailbox found w =>
            let w := WriteData ("SORT" ++ concat (map (fun n => " " ++ FormatUint n) (sort_numbers criteria uidResults mailbox found w))) w in
            respond (if uidResults then "OK UID SORT completed" else "OK SORT completed") w)
          end
      | _ => respond "BAD SORT requires a criteria list, a charset and search keys" w
      end
  | Some _, [] => respond "BAD invalid sort criteria" w
  end.

(** What THREAD needs of a message: the header says it, or else the metadata. *)
Definition thread_message (mailbox : gostring) (uidResults : bool) w (qu : Z * Z) : option threadMsg :=
  let '(q, uid) := qu in
  let meta := GetMessageMetadata (me w) mailbox uid (db (store w)) in
  sq ← session_number q uid w;
  let '(id, refs, subject, date) := match MessageHeader (me w) mailbox uid (store w) with
  | Ok hdr => parseThreadHeader hdr
  | Err _ => ([], [], Subject meta, Date meta)
  end in
  Some {| num := if uidResults then uid else sq; tseq := sq; msgID := id; refs := refs; tsubject := subject; tdate := sentDate date (InternalDate meta) |}.

Definition threadCmd (args : list gostring) (line : gostring) (uidResults : bool) w : World :=
  match selected (conn w), commandArgTokens args line "THREAD" with
  | None, _ => respond "NO No mailbox selected" w
  | Some _, algo :: charset :: (_ :: _) as keys =>
      let a := ToUpper (val algo) in
      if quoted algo || negb ((a =s? "REFERENCES") || (a =s? "ORDEREDSUBJECT")) then respond "BAD unsupported THREAD algorithm" w
      else if negb (searchCharsetSupported (val charset)) then respond badCharsetResponse w
      else with_matches keys (respond_err "NO" (CStore ETooManyMessages)) w (fun mailbox found w =>
        let msgs := omap (thread_message mailbox uidResults w) found in
        let roots := if a =s? "REFERENCES" then threadReferences msgs else threadOrderedSubject msgs in
        let w := WriteData ("THREAD" ++ (if bool_decide (length roots = 0%nat) then [] else " " ++ formatThreads roots)) w in
        respond (if uidResults then "OK UID THREAD completed" else "OK THREAD completed") w)
  | Some _, _ => respond "BAD THREAD requires an algorithm, a charset and search keys" w
  end.
End Sort.
