(* ===== verification/ImapForest.v ===== *)
(** * internal/imap: the containers of THREAD are a forest

    A container is linked below another one only if that does not make a loop, and taken
    out of its old place first; so the parents are well founded, parents and children
    agree, and the trees read from the roots hold every container exactly once. *)
From S2P Require Import Prelude GoLib Utf8 Bolt ImapSeq ImapNames Scram BlobStore MailDb Threads ImapStore ImapMatch ImapSearch ImapFetch.
From S2P Require Import ImapConn ImapMailboxes ImapSort.

(** ** Lists *)
Lemma concat_map_NoDup {A B : Type} (f : A -> list B) l :
  NoDup l -> (forall x, x ∈ l -> NoDup (f x)) -> (forall x y b, x ∈ l -> y ∈ l -> b ∈ f x -> b ∈ f y -> x = y) -> NoDup (concat (map f l)).
Proof.
  induction 1 as [| x l Hx Hl IH]; intros Hf Hd; cbn; [constructor |]. apply NoDup_app. split_and!.
  - apply Hf. by left.
  - intros b Hb (y & Hy & Hb')%list_elem_of_In%in_concat. apply in_map_iff in Hy as (z & <- & Hz).
    apply list_elem_of_In in Hb', Hz. destruct Hx. replace x with z; [done |]. symmetry. apply (Hd x z b); set_solver.
  - apply IH; intros; [apply Hf; by right | eapply Hd; eauto; by right].
Qed.
Lemma elem_of_concat_map {A B : Type} (f : A -> list B) l b : b ∈ concat (map f l) <-> exists x, x ∈ l /\ b ∈ f x.
Proof.
  rewrite list_elem_of_In, in_concat. setoid_rewrite in_map_iff. split.
  - intros (y & (x & <- & Hx) & Hb). exists x. by rewrite !list_elem_of_In.
  - intros (x & Hx & Hb). exists (f x). rewrite !list_elem_of_In in *. eauto.
Qed.
Lemma concat_map_omap {A B C : Type} (h : B -> option C) (f : A -> list B) l : concat (map (fun x => omap h (f x)) l) = omap h (concat (map f l)).
Proof. induction l as [| x l IH]; cbn; [done |]. by rewrite omap_app, IH. Qed.

(** ** Walks to the top *)
Section Walks.
Context (par : nat -> option nat).
Definition step (n p : nat) : Prop := par n = Some p.
Definition rooted (n : nat) : Prop := Acc (flip step) n.

Lemma step_fun n p q : step n p -> step n q -> p = q.
Proof. unfold step. congruence. Qed.
Lemma rooted_no_loop n k : rooted n -> ~ nsteps step (S k) n n.
Proof.
  intros H. revert k. induction H as [n _ IH]. intros k Hk. inversion Hk as [| ? ? m ? Hs Hr]; subst.
  apply (IH m Hs k). rewrite <- Nat.add_1_r. eapply nsteps_trans; [exact Hr | by apply nsteps_once].
Qed.
Lemma rooted_nsteps n m k : rooted n -> nsteps step k n m -> rooted m.
Proof. intros H Hk. induction Hk as [| k a b c Hs _ IH]; [done |]. apply IH. by apply (Acc_inv H). Qed.
(** Two walks from one node: one continues the other. *)
Lemma walks_meet k1 k2 n a b : nsteps step k1 n a -> nsteps step (k1 + k2) n b -> nsteps step k2 a b.
Proof.
  induction 1 as [| k x y z Hs Hr IH]; cbn; intros H; [done |]. inversion H as [| ? ? y' ? Hs' Hr']; subst.
  rewrite (step_fun _ _ _ Hs Hs') in *. by apply IH.
Qed.
(** Two siblings (children of one node, or two roots) have nothing below them in common. *)
Lemma siblings_apart a b k1 k2 m : rooted a -> rooted b -> par a = par b -> nsteps step k1 m a -> nsteps step k2 m b -> a = b.
Proof.
  intros Ha Hb He H1 H2. assert (Hgo : forall a b k1 k2, rooted a -> par a = par b -> (k1 <= k2)%nat -> nsteps step k1 m a -> nsteps step k2 m b -> a = b).
  { clear. intros a b k1 k2 Hr He Hk H1 H2. replace k2 with (k1 + (k2 - k1))%nat in H2 by lia. pose proof (walks_meet _ _ _ _ _ H1 H2) as H.
    destruct (k2 - k1)%nat as [| j]; [by inversion H |]. exfalso. inversion H as [| ? ? y ? Hs Hy]; subst.
    assert (Hrb : rooted b) by (by eapply rooted_nsteps). apply (rooted_no_loop b j Hrb). apply nsteps_l with y; [| done].
    unfold step in *. congruence. }
  destruct (le_lt_dec k1 k2); [by apply (Hgo a b k1 k2) |]. symmetry. apply (Hgo b a k2 k1); [done | done | lia | done | done].
Qed.

Context (N : nat) (bounded : forall n p, step n p -> (p < N)%nat).
Lemma walk_nodes n m k : rooted n -> nsteps step k n m ->
  exists l, length l = k /\ NoDup l /\ Forall (fun x => x < N)%nat l /\ Forall (fun x => exists j, nsteps step (S j) n x) l.
Proof.
  intros Hr H. induction H as [n | k n p m Hs Hk IH]; [exists []; split_and!; constructor |].
  destruct IH as (l & Hl & Hd & Hb & Hj); [by apply (Acc_inv Hr) |]. exists (p :: l). split_and!.
  - cbn. by rewrite Hl.
  - constructor; [| done]. rewrite Forall_forall in Hj. intros Hp. destruct (Hj p Hp) as [j Hc].
    apply (rooted_no_loop p j); [by apply (Acc_inv Hr) | done].
  - constructor; [by eapply bounded | done].
  - constructor; [exists 0%nat; by apply nsteps_once |]. apply (Forall_impl _ _ _ Hj). intros x [j Hx]. exists (S j). by eapply nsteps_l.
Qed.
Lemma walk_short n m k : rooted n -> nsteps step k n m -> (k <= N)%nat.
Proof.
  intros Hr H. destruct (walk_nodes _ _ _ Hr H) as (l & <- & Hd & Hb & _). rewrite <- (length_seq N 0).
  apply submseteq_length, NoDup_submseteq; [done |]. rewrite Forall_forall in Hb. intros x Hx. apply elem_of_seq. specialize (Hb x Hx). lia.
Qed.
Lemma walk_root n : rooted n -> exists r k, nsteps step k n r /\ par r = None.
Proof.
  induction 1 as [n _ IH]. destruct (par n) as [p |] eqn:E; [| exists n, 0%nat; split; [constructor | done]].
  destruct (IH p E) as (r & k & Hk & Hr). exists r, (S k). split; [by eapply nsteps_l | done].
Qed.
End Walks.

(** Linking [c], a root, below [p], which is not below [c]; taking [c] out. *)
Lemma rooted_link par par' c p :
  (forall n, rooted par n) -> (forall k, ~ nsteps (step par) k p c) -> par' c = Some p -> (forall n, n <> c -> par' n = par n) -> forall n, rooted par' n.
Proof.
  intros Hr Hc Hp Ho. assert (Hnot : forall n, (forall k, ~ nsteps (step par) k n c) -> rooted par' n).
  { intros n. induction (Hr n) as [n _ IH]. intros Hn. constructor. unfold flip, step. intros q Hq.
    assert (n <> c) by (intros ->; apply (Hn 0%nat); constructor). rewrite Ho in Hq by done. apply IH; [done |].
    intros k Hk. apply (Hn (S k)). by eapply nsteps_l. }
  assert (Hrc : rooted par' c) by (constructor; unfold flip, step; intros q Hq; rewrite Hp in Hq; injection Hq as <-; by apply Hnot).
  intros n. induction (Hr n) as [n _ IH]. destruct (decide (n = c)) as [-> | Hn]; [done |]. constructor. unfold flip, step. intros q Hq.
  rewrite Ho in Hq by done. by apply IH.
Qed.
Lemma rooted_sub par par' : (forall n p, par' n = Some p -> par n = Some p) -> (forall n, rooted par n) -> forall n, rooted par' n.
Proof. intros Hs Hr n. induction (Hr n) as [n _ IH]. constructor. unfold flip, step. intros q Hq. apply IH. by apply Hs. Qed.

(** ** The links stay consistent *)
Implicit Types (g : Graph).
Definition par g (n : nat) : option nat := parent (node g n).
Record forest g : Prop := {
  kids c p : parent (node g c) = Some p <-> c ∈ children (node g p);
  kids_NoDup p : NoDup (children (node g p));
  all_rooted n : rooted (par g) n;
  table_bound k c : table g !! k = Some c -> (c < length (nodes g))%nat
}.
Definition messages g : list threadMsg := omap nmsg (nodes g).

Lemma node_out g n : (length (nodes g) <= n)%nat -> node g n = dummy.
Proof. intros H. unfold node. by rewrite lookup_ge_None_2. Qed.
Lemma node_set n f g m : (n < length (nodes g))%nat -> node (set_node n f g) m = if decide (m = n) then f (node g n) else node g m.
Proof.
  intros H. unfold node, set_node. cbn [nodes]. destruct (decide (m = n)) as [-> | Hn].
  - rewrite list_lookup_alter_eq. by destruct (lookup_lt_is_Some_2 (nodes g) n H) as [x ->].
  - by rewrite list_lookup_alter_ne.
Qed.
Lemma length_set n f g : length (nodes (set_node n f g)) = length (nodes g).
Proof. apply length_alter. Qed.
Lemma messages_set n f g : (forall x, nmsg (f x) = nmsg x) -> messages (set_node n f g) = messages g.
Proof.
  intros Hf. unfold messages, set_node. cbn [nodes]. generalize (nodes g) as l. intros l. revert n.
  induction l as [| x l IH]; intros [| n]; cbn; [done | done | |]; [by rewrite Hf |]. by rewrite IH.
Qed.
Lemma messages_add n m g : (n < length (nodes g))%nat -> nmsg (node g n) = None -> Permutation (messages (set_node n (with_msg m) g)) (m :: messages g).
Proof.
  unfold messages, set_node, node. cbn [nodes]. generalize (nodes g) as l. intros l. revert n.
  induction l as [| x l IH]; intros [| n]; cbn; intros Hl Hn; [lia | lia | by rewrite Hn |].
  destruct (nmsg x); rewrite (IH n) by (done || lia); [constructor | done].
Qed.

Lemma in_range g c p : forest g -> par g c = Some p -> (c < length (nodes g))%nat /\ (p < length (nodes g))%nat.
Proof.
  intros F H. split; apply Nat.lt_nge; intros Hge.
  - unfold par in H. by rewrite node_out in H.
  - apply (kids _ F) in H. rewrite node_out in H by done. by apply elem_of_nil in H.
Qed.

Lemma reaches_walk g f a b k : (k <= f)%nat -> nsteps (step (par g)) k b a -> reaches f g a b = true.
Proof.
  revert f b. induction k as [| k IH]; intros f b Hf Hk; inversion Hk as [| ? ? y ? Hs Hr]; subst.
  - destruct f; cbn [reaches]; by rewrite Nat.eqb_refl.
  - destruct f as [| f]; [lia |]. cbn [reaches]. unfold step, par in Hs. rewrite Hs. rewrite (IH f y) by (done || lia). apply orb_true_r.
Qed.
Lemma unreachable g a b k : forest g -> threadReaches g a b = false -> ~ nsteps (step (par g)) k b a.
Proof.
  intros F H Hk. unfold threadReaches in H. rewrite (reaches_walk g _ a b k) in H; [done | | done].
  eapply walk_short; [| apply (all_rooted _ F) | exact Hk]. intros n p Hs. by eapply in_range.
Qed.

Lemma node_link g p c m : (p < length (nodes g))%nat -> (c < length (nodes g))%nat ->
  parent (node (threadLink p c g) m) = (if decide (m = c) then Some p else parent (node g m))
  /\ children (node (threadLink p c g) m) = (if decide (m = p) then children (node g m) ++ [c] else children (node g m)).
Proof.
  intros Hp Hc. unfold threadLink. rewrite node_set by (by rewrite length_set). rewrite !node_set by done.
  repeat case_decide; subst; done.
Qed.
Lemma forest_link g p c : forest g -> (p < length (nodes g))%nat -> (c < length (nodes g))%nat ->
  parent (node g c) = None -> (forall k, ~ nsteps (step (par g)) k p c) -> forest (threadLink p c g).
Proof.
  intros F Hp Hc Hn Hw. pose proof (fun m => node_link g p c m Hp Hc) as Hm.
  assert (Hnot : forall q, c ∉ children (node g q)) by (intros q Hq%(kids _ F); congruence). split.
  - intros x q. destruct (Hm x) as [-> _]. destruct (Hm q) as [_ ->]. pose proof (kids _ F x q) as K.
    repeat case_decide; subst; rewrite ?elem_of_app, ?list_elem_of_singleton; [set_solver | naive_solver | naive_solver | done].
  - intros q. destruct (Hm q) as [_ ->]. case_decide; [| apply (kids_NoDup _ F)]. apply NoDup_app. split_and!; [apply (kids_NoDup _ F) | set_solver | apply NoDup_singleton].
  - apply (rooted_link (par g) _ c p (all_rooted _ F) Hw).
    + unfold par. destruct (Hm c) as [-> _]. by rewrite decide_True.
    + intros n Hne. unfold par. destruct (Hm n) as [-> _]. by rewrite decide_False.
  - intros k x Hx. unfold threadLink. rewrite !length_set. by apply (table_bound _ F k).
Qed.

Lemma elem_of_remove_first c l x : NoDup l -> x ∈ remove_first c l <-> x ∈ l /\ x <> c.
Proof.
  induction 1 as [| y l Hy Hl IH]; cbn; [set_solver |]. destruct (Nat.eqb_spec y c) as [-> | Hne]; rewrite ?elem_of_cons; [| rewrite IH]; naive_solver.
Qed.
Lemma NoDup_remove_first c l : NoDup l -> NoDup (remove_first c l).
Proof.
  induction 1 as [| y l Hy Hl IH]; cbn; [constructor |]. destruct (y =? c)%nat; [done |]. constructor; [| done].
  rewrite elem_of_remove_first by done. tauto.
Qed.
Lemma node_unlink g c m : forest g ->
  parent (node (threadUnlink c g) m) = (if decide (m = c) then None else parent (node g m))
  /\ children (node (threadUnlink c g) m) = (if decide (par g c = Some m) then remove_first c (children (node g m)) else children (node g m)).
Proof.
  intros F. unfold threadUnlink. destruct (parent (node g c)) as [p |] eqn:E.
  - destruct (in_range g c p F E) as [Hc Hp]. rewrite node_set by (by rewrite length_set). rewrite !node_set by done. unfold par. rewrite E.
    repeat case_decide; simplify_eq; done.
  - unfold par. rewrite E. repeat case_decide; simplify_eq; done.
Qed.
Lemma forest_unlink g c : forest g -> forest (threadUnlink c g).
Proof.
  intros F. pose proof (fun m => node_unlink g c m F) as Hm. split.
  - intros x q. destruct (Hm x) as [-> _]. destruct (Hm q) as [_ ->]. pose proof (kids _ F x q) as K. pose proof (kids_NoDup _ F q). unfold par.
    repeat case_decide; subst; rewrite ?elem_of_remove_first by done; naive_solver.
  - intros q. destruct (Hm q) as [_ ->]. case_decide; [apply NoDup_remove_first |]; apply (kids_NoDup _ F).
  - apply (rooted_sub (par g)); [| apply (all_rooted _ F)]. intros n p. unfold par. destruct (Hm n) as [-> _]. by case_decide.
  - intros k x Hx. unfold threadUnlink in *. destruct (parent (node g c)); rewrite ?length_set; by apply (table_bound _ F k).
Qed.

(** ** One more message *)
Lemma node_dummy g t m : node {| nodes := nodes g ++ [dummy]; table := t |} m = node g m.
Proof.
  unfold node. cbn [nodes]. destruct (decide (m < length (nodes g))%nat); [by rewrite lookup_app_l |].
  rewrite lookup_app_r by lia. rewrite (lookup_ge_None_2 (nodes g)) by lia. by destruct (m - length (nodes g))%nat.
Qed.
(** What [container] does: the node it names is there, nothing else changes. *)
Lemma container_spec id g c g' : forest g -> container id g = (c, g') ->
  forest g' /\ (c < length (nodes g'))%nat /\ (length (nodes g) <= length (nodes g'))%nat /\ messages g' = messages g
  /\ (forall n, node g' n = node g n) /\ (table g !! id = Some c \/ c = length (nodes g))
  /\ (forall k, is_Some (table g' !! k) -> k = id \/ is_Some (table g !! k)).
Proof.
  intros F. unfold container. destruct (table g !! id) as [c0 |] eqn:E; intros [= <- <-].
  - split_and!; auto. by apply (table_bound _ F id).
  - assert (Hn := node_dummy g (<[id := length (nodes g)]> (table g))). split_and!; cbn [nodes table]; rewrite ?length_app; cbn; auto; try lia.
    + split.
      * intros x q. rewrite !Hn. apply (kids _ F).
      * intros q. rewrite Hn. apply (kids_NoDup _ F).
      * apply (rooted_sub (par g)); [| apply (all_rooted _ F)]. intros n p. unfold par. by rewrite Hn.
      * intros k x. cbn [nodes table]. rewrite length_app. cbn. rewrite lookup_insert_Some. intros [[_ <-] | [_ H]]; [lia |].
        apply (table_bound _ F) in H. lia.
    + unfold messages. cbn [nodes]. rewrite omap_app. cbn. by rewrite app_nil_r.
    + intros k. rewrite lookup_insert_is_Some. naive_solver.
Qed.
Lemma forest_msg n m g : forest g -> forest (set_node n (with_msg m) g).
Proof.
  intros F. destruct (decide (n < length (nodes g))%nat) as [H |].
  - assert (Hm : forall x, parent (node (set_node n (with_msg m) g) x) = parent (node g x) /\ children (node (set_node n (with_msg m) g) x) = children (node g x)).
    { intros x. rewrite node_set by done. case_decide; subst; done. } split.
    + intros x q. destruct (Hm x) as [-> _]. destruct (Hm q) as [_ ->]. apply (kids _ F).
    + intros q. destruct (Hm q) as [_ ->]. apply (kids_NoDup _ F).
    + apply (rooted_sub (par g)); [| apply (all_rooted _ F)]. intros x p. unfold par. by destruct (Hm x) as [-> _].
    + intros k x. rewrite length_set. apply (table_bound _ F).
  - replace (set_node n (with_msg m) g) with g; [done |]. destruct g as [ns t]. unfold set_node. cbn [nodes table] in *. f_equal.
    apply list_eq. intros i. destruct (decide (i = n)) as [-> | Hne]; [| by rewrite list_lookup_alter_ne].
    rewrite list_lookup_alter_eq. by rewrite lookup_ge_None_2 by lia.
Qed.

(** The references of a message: the containers grow, the messages stay. *)
Definition grown (ids : list gostring) g g' : Prop :=
  forest g' /\ (length (nodes g) <= length (nodes g'))%nat /\ messages g' = messages g
  /\ (forall k, is_Some (table g' !! k) -> k ∈ ids \/ is_Some (table g !! k)).
Definition prev_ok (acc : option nat * Graph) : Prop := match fst acc with Some p => (p < length (nodes (snd acc)))%nat | None => True end.
Lemma messages_link p c g : messages (threadLink p c g) = messages g.
Proof. unfold threadLink. by rewrite !messages_set. Qed.
Lemma length_link p c g : length (nodes (threadLink p c g)) = length (nodes g).
Proof. unfold threadLink. by rewrite !length_set. Qed.

Lemma link_ref_spec acc ref : forest (snd acc) -> prev_ok acc -> grown [ref] (snd acc) (snd (link_ref acc ref)) /\ prev_ok (link_ref acc ref).
Proof.
  destruct acc as [prev g]. unfold link_ref, prev_ok, grown. cbn [fst snd]. intros F Hp. destruct (container ref g) as [r g'] eqn:E.
  destruct (container_spec _ _ _ _ F E) as (F' & Hr & Hl & Hm & Hn & _ & Hk). cbn [fst snd].
  assert (Hkey : forall k, is_Some (table g' !! k) -> k ∈ [ref] \/ is_Some (table g !! k)) by (intros k [-> | H]%Hk; [left; set_solver | by right]).
  assert (Hsame : (forest g' /\ (length (nodes g) <= length (nodes g'))%nat /\ messages g' = messages g
    /\ (forall k, is_Some (table g' !! k) -> k ∈ [ref] \/ is_Some (table g !! k))) /\ (r < length (nodes g'))%nat) by (split_and!; assumption).
  destruct prev as [p |]; [| exact Hsame]. destruct (_ && _) eqn:Ec; [| exact Hsame].
  apply andb_true_iff in Ec as [Ec1%bool_decide_eq_true Ec2%negb_true_iff]. rewrite length_link, messages_link.
  split; [| exact Hr]. split; [| split; [exact Hl | split; [exact Hm | exact Hkey]]].
  apply forest_link; [exact F' | lia | exact Hr | exact Ec1 |]. intros k. by apply unreachable.
Qed.
Lemma link_refs_spec ids acc : forest (snd acc) -> prev_ok acc -> grown ids (snd acc) (snd (foldl link_ref acc ids)) /\ prev_ok (foldl link_ref acc ids).
Proof.
  revert acc. induction ids as [| r ids IH]; intros acc F Hp; cbn [foldl]; [unfold grown; split_and!; auto |].
  destruct (link_ref_spec acc r F Hp) as [(F1 & L1 & M1 & K1) P1]. destruct (IH _ F1 P1) as [(F2 & L2 & M2 & K2) P2].
  unfold grown. split_and!; [done | lia | congruence | | done]. intros k [H | H]%K2; [left; by right |]. apply K1 in H as [H | H]; [left; set_solver | by right].
Qed.

Definition NUL : ascii := byte_of 0.
(** The ids of a message do not look like the keys THREAD makes up. *)
Definition plain_id (k : gostring) : Prop := hd_error k <> Some NUL.
Definition plain_msg (m : threadMsg) : Prop := Forall plain_id (msgID m :: refs m).
Definition keys_before (i : nat) g : Prop := forall k, is_Some (table g !! k) -> plain_id k \/ exists j, (j < i)%nat /\ k = NUL :: FormatUint (Z.of_nat j).

(** The container a message takes holds no other message. *)
Lemma own_key_free i m g c g' : forest g -> keys_before i g -> container (own_key i m g) g = (c, g') -> nmsg (node g' c) = None.
Proof.
  intros F K E. destruct (container_spec _ _ _ _ F E) as (_ & _ & _ & _ & -> & [Hc | ->] & _); [| by rewrite node_out].
  unfold own_key in Hc. destruct (_ && _) eqn:Ek in Hc.
  - apply andb_true_iff in Ek as [_ Ek]. rewrite Hc in Ek. rewrite negb_true_iff, bool_decide_eq_false in Ek. by apply eq_None_not_Some.
  - exfalso. destruct (K _ (mk_is_Some _ _ Hc)) as [H | (j & Hj & H)]; [by apply H |]. injection H as H. apply FormatUint_inj in H; lia.
Qed.
Lemma thread_one_spec i m g : forest g -> keys_before i g -> plain_msg m ->
  forest (thread_one i m g) /\ keys_before (S i) (thread_one i m g) /\ Permutation (messages (thread_one i m g)) (m :: messages g).
Proof.
  intros F K Hm. unfold thread_one. destruct (container (own_key i m g) g) as [c g1] eqn:E.
  pose proof (own_key_free _ _ _ _ _ F K E) as Hfree. destruct (container_spec _ _ _ _ F E) as (F1 & Hc1 & Hl1 & M1 & _ & _ & K1).
  pose proof (messages_add c m g1 Hc1 Hfree) as M2. pose proof (forest_msg c m g1 F1) as F2. set (g2 := set_node c (with_msg m) g1) in *.
  assert (Hc2 : (c < length (nodes g2))%nat) by (unfold g2; by rewrite length_set).
  destruct (link_refs_spec (refs m) (None, g2) F2 I) as [(F3 & L3 & M3 & K3) P3]. destruct (foldl link_ref (None, g2) (refs m)) as [prev g3] eqn:E3.
  unfold prev_ok in P3. cbn [fst snd] in *. apply Forall_cons in Hm as [Hid Hrefs]. rewrite Forall_forall in Hrefs.
  assert (Kg : keys_before (S i) g3).
  { intros k [H | H]%K3; [left; by apply Hrefs |]. apply K1 in H as [-> | H].
    - unfold own_key. destruct (_ && _); [by left |]. right. exists i. split; [lia | done].
    - destruct (K _ H) as [| (j & Hj & ->)]; [by left |]. right. exists j. split; [lia | done]. }
  assert (Mg : Permutation (messages g3) (m :: messages g)) by (by rewrite M3, M2, M1).
  destruct prev as [p |]; [| done]. destruct (_ && _) eqn:Ec; [| done]. apply andb_true_iff in Ec as [Ec%negb_true_iff _].
  assert (Fu := forest_unlink g3 c F3). assert (Hu : length (nodes (threadUnlink c g3)) = length (nodes g3)) by (unfold threadUnlink; destruct (parent _); rewrite ?length_set; done).
  split_and!.
  - apply forest_link; [done | lia | lia | |].
    + destruct (node_unlink g3 c c F3) as [-> _]. by rewrite decide_True.
    + intros k Hk. apply (unreachable _ _ _ k F3 Ec). clear - F3 Hk. induction Hk as [| k x y z Hs _ IH]; [constructor |]. apply nsteps_l with y; [| done].
      unfold step, par in *. destruct (node_unlink g3 c x F3) as [Hx _]. rewrite Hx in Hs. by case_decide.
  - unfold threadLink, threadUnlink. by destruct (parent (node g3 c)).
  - rewrite messages_link. unfold threadUnlink. destruct (parent (node g3 c)); rewrite ?messages_set; done.
Qed.
Lemma forest_empty : forest empty_graph.
Proof.
  split; [intros c p; split; [done | by intros ?%elem_of_nil] | intros p; apply NoDup_nil_2 | by intros n; constructor | done].
Qed.
Lemma thread_graph_spec msgs : Forall plain_msg msgs -> forest (thread_graph msgs) /\ Permutation (messages (thread_graph msgs)) msgs.
Proof.
  intros H. unfold thread_graph. assert (Hgo : forall l i g, Forall plain_msg l -> forest g -> keys_before i g ->
    forest (foldl (fun g '(i, m) => thread_one i m g) g (imap (fun n => pair (i + n)%nat) l))
    /\ Permutation (messages (foldl (fun g '(i, m) => thread_one i m g) g (imap (fun n => pair (i + n)%nat) l))) (l ++ messages g)).
  { clear. induction l as [| m l IH]; intros i g Hl F K; [done |]. apply Forall_cons in Hl as [Hm Hl]. cbn [imap foldl]. rewrite Nat.add_0_r.
    destruct (thread_one_spec i m g F K Hm) as (F' & K' & P'). destruct (IH (S i) _ Hl F' K') as [F2 P2].
    erewrite (imap_ext (_ ∘ S)); [split; [exact F2 |] | intros; unfold compose; cbn; by rewrite Nat.add_succ_r].
    rewrite P2, P'. cbn. by rewrite Permutation_middle. }
  destruct (Hgo msgs 0%nat empty_graph H forest_empty) as [F P]; [by intros k [? ?] |]. cbn in F, P. rewrite app_nil_r in P. done.
Qed.

(** ** The trees hold every container once *)
Fixpoint members (t : ThreadTree) : list threadMsg := match t with TNode m subs => option_list m ++ concat (map members subs) end.
Fixpoint below (fuel : nat) g (n : nat) : list nat :=
  n :: match fuel with S f => concat (map (below f g) (children (node g n))) | O => [] end.

Lemma members_tree f g n : members (tree_at f g n) = omap (fun x => nmsg (node g x)) (below f g n).
Proof.
  revert n. induction f as [| f IH]; intros n; cbn [tree_at members below]; cbn [map concat omap list_omap].
  - rewrite app_nil_r. by destruct (nmsg (node g n)).
  - rewrite map_map, (map_ext _ _ IH), concat_map_omap. cbn. by destruct (nmsg (node g n)).
Qed.
Lemma elem_of_below f g n m : forest g -> m ∈ below f g n <-> exists k, (k <= f)%nat /\ nsteps (step (par g)) k m n.
Proof.
  intros F. revert n. induction f as [| f IH]; intros n; cbn [below]; rewrite elem_of_cons.
  - split.
    + intros [-> | H%elem_of_nil]; [exists 0%nat; split; [lia | constructor] | done].
    + intros (k & Hk & H). replace k with 0%nat in H by lia. inversion H. by left.
  - rewrite elem_of_concat_map. setoid_rewrite IH. split.
    + intros [-> | (c & Hc & k & Hk & H)]; [exists 0%nat; split; [lia | constructor] |]. exists (S k). split; [lia |].
      apply nsteps_r with c; [done |]. by apply (kids _ F).
    + intros (k & Hk & H). destruct k as [| k]; [inversion H; by left |]. right. apply nsteps_inv_r in H as (c & H & Hs). exists c.
      split; [by apply (kids _ F) |]. exists k. split; [lia | done].
Qed.
Lemma NoDup_below f g n : forest g -> NoDup (below f g n).
Proof.
  intros F. revert n. induction f as [| f IH]; intros n; cbn [below]; [apply NoDup_singleton |]. constructor.
  - rewrite elem_of_concat_map. intros (c & Hc & Hin). apply elem_of_below in Hin as (k & _ & Hk); [| done].
    apply (rooted_no_loop (par g) n k (all_rooted _ F n)). apply nsteps_r with c; [done |]. by apply (kids _ F).
  - apply concat_map_NoDup; [apply (kids_NoDup _ F) | intros; apply IH |]. intros a b m Ha Hb Hma Hmb.
    apply elem_of_below in Hma as (k1 & _ & H1); [| done]. apply elem_of_below in Hmb as (k2 & _ & H2); [| done].
    apply (siblings_apart (par g) a b k1 k2 m); try apply (all_rooted _ F); [| done | done].
    apply (kids _ F) in Ha, Hb. unfold par. congruence.
Qed.
Lemma elem_of_roots g n : n ∈ roots_of g <-> (n < length (nodes g))%nat /\ par g n = None.
Proof. unfold roots_of. rewrite list_elem_of_In, filter_In, bool_decide_eq_true, in_seq. unfold par. split; intros [? ?]; split; (done || lia). Qed.
Lemma roots_cover g : forest g -> Permutation (concat (map (below (length (nodes g)) g) (roots_of g))) (seq 0 (length (nodes g))).
Proof.
  intros F. apply NoDup_Permutation.
  - apply concat_map_NoDup; [apply NoDup_ListNoDup, List.NoDup_filter, NoDup_ListNoDup, NoDup_seq | intros; by apply NoDup_below |]. intros a b m [_ Ha]%elem_of_roots [_ Hb]%elem_of_roots Hma Hmb.
    apply elem_of_below in Hma as (k1 & _ & H1); [| done]. apply elem_of_below in Hmb as (k2 & _ & H2); [| done].
    apply (siblings_apart (par g) a b k1 k2 m); try apply (all_rooted _ F); [congruence | done | done].
  - apply NoDup_seq.
  - intros m. rewrite elem_of_concat_map, elem_of_seq. setoid_rewrite elem_of_roots. split.
    + intros (r & [Hr Hp] & Hin). apply elem_of_below in Hin as (k & _ & Hk); [| done]. split; [lia |]. destruct k; [inversion Hk; subst; lia |].
      inversion Hk as [| ? ? y ? Hs _]; subst. apply (in_range g m y) in Hs; [lia | done].
    + intros [_ Hm]. destruct (walk_root (par g) m (all_rooted _ F m)) as (r & k & Hk & Hr). exists r.
      assert (Hb : forall n p, step (par g) n p -> (p < length (nodes g))%nat) by (intros n p Hs; by eapply in_range).
      split; [split; [| done] |].
      * destruct k as [| k]; [inversion Hk; subst; lia |]. apply nsteps_inv_r in Hk as (y & _ & Hs). by apply Hb in Hs.
      * apply elem_of_below; [done |]. exists k. split; [| done]. eapply walk_short; [exact Hb | apply (all_rooted _ F) | exact Hk].
Qed.
Lemma omap_nodes g : omap (fun x => nmsg (node g x)) (seq 0 (length (nodes g))) = messages g.
Proof.
  unfold messages, node. generalize (nodes g) as l. intros l. induction l as [| x l IH] using rev_ind; [done |].
  rewrite length_app, seq_app, !omap_app. cbn [length seq]. f_equal.
  - rewrite <- IH. apply list_omap_ext, Forall2_same_length_lookup. split; [done |]. intros i a b Ha Hb. rewrite Ha in Hb. injection Hb as <-.
    apply lookup_seq in Ha as [-> Ha]. by rewrite lookup_app_l.
  - cbn. rewrite lookup_app_r by done. by rewrite Nat.sub_diag.
Qed.
Lemma root_trees_members g : forest g -> Permutation (concat (map members (root_trees g))) (messages g).
Proof.
  intros F. unfold root_trees. rewrite map_map, (map_ext _ _ (members_tree _ g)), concat_map_omap.
  rewrite (roots_cover g F). by rewrite omap_nodes.
Qed.
