(* ===== verification/ImapSortProps.v ===== *)
(** * Properties of SORT and THREAD

    SORT is the stable sort by its criteria; the threads of a set of messages hold
    each of them once. *)
From S2P Require Import Prelude GoLib Utf8 Scram ImapSeq ImapNames Bolt MailDb BlobStore Threads ImapStore ImapMatch ImapSearch ImapFetch ImapConn ImapMailboxes ImapSort ImapForest.

(** ** A stable sort *)
Section StableSort.
Context {A : Type} (less : A -> A -> bool).
(** A strict weak order. *)
Class StrictWeak : Prop := {
  less_asym a b : less a b = true -> less b a = false;
  less_neg a b c : less a c = true -> less a b = true \/ less b c = true
}.
Context {SW : StrictWeak}.
Definition not_after (a b : A) : Prop := less b a = false.
Definition equiv (a b : A) : bool := negb (less a b) && negb (less b a).

Lemma not_after_trans a b c : not_after a b -> not_after b c -> not_after a c.
Proof. unfold not_after. intros H1 H2. destruct (less c a) eqn:E; [| done]. destruct (less_neg c b a E); congruence. Qed.
Lemma equiv_spec a b : equiv a b = true <-> not_after a b /\ not_after b a.
Proof. unfold equiv, not_after. rewrite andb_true_iff, !negb_true_iff. tauto. Qed.

Lemma insert_Permutation x l : Permutation (insert_sorted less x l) (x :: l).
Proof. induction l as [| y l IH]; cbn [insert_sorted]; [done |]. destruct (less y x); [| done]. rewrite IH. constructor. Qed.
Lemma stable_sort_Permutation l : Permutation (stable_sort less l) l.
Proof. induction l as [| x l IH]; cbn [stable_sort foldr]; [done |]. rewrite insert_Permutation. by constructor. Qed.

Lemma insert_Sorted x l : StronglySorted not_after l -> StronglySorted not_after (insert_sorted less x l).
Proof.
  induction 1 as [| y l Hs IH Hf]; cbn [insert_sorted]; [by repeat constructor |]. destruct (less y x) eqn:E.
  - constructor; [done |]. apply Forall_forall. intros z Hz. rewrite insert_Permutation in Hz. apply elem_of_cons in Hz as [-> | Hz].
    + by apply less_asym.
    + rewrite Forall_forall in Hf. by apply Hf.
  - constructor; [by constructor |]. constructor; [done |]. apply Forall_forall. intros z Hz. rewrite Forall_forall in Hf. eapply not_after_trans; [exact E | by apply Hf].
Qed.
Lemma stable_sort_Sorted l : StronglySorted not_after (stable_sort less l).
Proof. induction l as [| x l IH]; cbn [stable_sort foldr]; [constructor | by apply insert_Sorted]. Qed.

Lemma insert_stable z x l : List.filter (equiv z) (insert_sorted less x l) = List.filter (equiv z) (x :: l).
Proof.
  induction l as [| y l IH]; cbn [insert_sorted]; [done |]. destruct (less y x) eqn:E; [| done]. cbn [List.filter] in *. rewrite IH.
  destruct (equiv z x) eqn:Ex, (equiv z y) eqn:Ey; try done. exfalso. apply equiv_spec in Ex as [_ X2]. apply equiv_spec in Ey as [Y1 _].
  pose proof (not_after_trans _ _ _ X2 Y1) as H. unfold not_after in H. congruence.
Qed.
Lemma stable_sort_stable z l : List.filter (equiv z) (stable_sort less l) = List.filter (equiv z) l.
Proof. induction l as [| x l IH]; cbn [stable_sort foldr]; [done |]. fold (stable_sort less l). rewrite insert_stable. cbn [List.filter]. by rewrite IH. Qed.
End StableSort.

(** ** SORT *)
#[export] Instance ltb_weak {A : Type} (f : A -> Z) : StrictWeak (fun a b => f a <? f b).
Proof. split; intros; lia. Qed.
Lemma lex_leb_false a b : lex_leb a b = false -> lex_leb b a = true.
Proof. pose proof (total lex_le a b) as [H | H]; unfold lex_le in H; congruence. Qed.
#[export] Instance str_lt_weak {A : Type} (f : A -> gostring) : StrictWeak (fun a b => str_lt (f a) (f b)).
Proof.
  unfold str_lt. split.
  - intros a b [H1 H2%negb_true_iff]%andb_true_iff. apply andb_false_iff. by left.
  - intros a b c [H1 H2%negb_true_iff]%andb_true_iff. destruct (lex_leb (f b) (f a)) eqn:E.
    + right. assert (H3 : lex_leb (f b) (f c) = true) by (apply (transitivity (R := lex_le) (y := f a)); done). rewrite H3. cbn.
      destruct (lex_leb (f c) (f b)) eqn:E2; [| done]. exfalso. assert (H4 : lex_leb (f c) (f a) = true) by (apply (transitivity (R := lex_le) (y := f b)); done). congruence.
    + left. by rewrite (lex_leb_false _ _ E).
Qed.
Lemma field_weak f : StrictWeak (field_lt f).
Proof. destruct f; unfold field_lt; apply _. Qed.
Lemma criterion_weak c : StrictWeak (criterion_lt c).
Proof.
  destruct (field_weak (Field c)) as [H1 H2]. unfold criterion_lt. destruct (Descending c); split; intros a b; try apply H1.
  - intros d H. destruct (H2 d b a H); auto.
  - intros d. apply H2.
Qed.
#[export] Instance sort_less_weak cs : StrictWeak (sort_less cs).
Proof.
  induction cs as [| c cs [I1 I2]]; [by split |]. destruct (criterion_weak c) as [C1 C2]. split; cbn [sort_less].
  - intros a b. destruct (criterion_lt c a b) eqn:E; [intros _; by rewrite (C1 _ _ E) |]. destruct (criterion_lt c b a); [done | apply I1].
  - intros a b d. destruct (criterion_lt c a d) eqn:E1.
    + intros _. destruct (C2 a b d E1) as [-> | ->]; auto.
    + destruct (criterion_lt c d a) eqn:E2; [done |]. intros H. destruct (I2 a b d H) as [H1 | H1].
      * destruct (criterion_lt c a b) eqn:F1; [by left |]. destruct (criterion_lt c b a) eqn:F2; [| by left]. right.
        destruct (C2 b d a F2) as [-> | F3]; [done | congruence].
      * destruct (criterion_lt c b d) eqn:F1; [by right |]. destruct (criterion_lt c d b) eqn:F2; [| by right]. left.
        destruct (C2 d a b F2) as [F3 | ->]; [congruence | done].
Qed.

(** SORT answers every message that was found exactly once; of two answered messages the earlier one never comes
    after the later one in the order of the criteria (first criterion first, REVERSE turned round); and messages no
    criterion tells apart are answered in the order they were found. *)
Theorem sort_exact {U : UnicodeTables} {M : MimeStd} {NM : NetMail} criteria messages :
  exists out,
    sortMessagesByKeys criteria messages = map seqNum out
    /\ Permutation out (map (fun '(m, q, c) => for_sort m q c) messages)
    /\ StronglySorted (fun a b => sort_less criteria b a = false) out
    /\ (forall z, List.filter (equiv (sort_less criteria) z) out
         = List.filter (equiv (sort_less criteria) z) (map (fun '(m, q, c) => for_sort m q c) messages)).
Proof.
  eexists. split; [reflexivity |]. split_and!; [apply stable_sort_Permutation | apply (stable_sort_Sorted _) |].
  intros z. apply (stable_sort_stable _).
Qed.

Definition all_members (l : list ThreadTree) : list threadMsg := concat (map members l).
Lemma all_members_app a b : all_members (a ++ b) = all_members a ++ all_members b.
Proof. unfold all_members. by rewrite map_app, concat_app. Qed.
Lemma all_members_cons a b : all_members (a :: b) = members a ++ all_members b.
Proof. done. Qed.
#[export] Instance all_members_Proper : Proper (Permutation ==> Permutation) all_members.
Proof.
  intros a b H. unfold all_members. induction H; cbn; [done | by rewrite IHPermutation | by rewrite !app_assoc, (Permutation_app_comm (members y)) |].
  etransitivity; eassumption.
Qed.

Section TreeInd.
Context (P : ThreadTree -> Prop) (node_case : forall m subs, Forall P subs -> P (TNode m subs)).
Fixpoint tree_ind (t : ThreadTree) : P t :=
  match t with
  | TNode m subs => node_case m subs ((fix go l : Forall P l := match l with
  | [] => @List.Forall_nil _ P
  | x :: r => @List.Forall_cons _ P x r (tree_ind x) (go r)
  end) subs)
  end.
End TreeInd.

(** ** Pruning and sorting *)
Lemma keep_members root m subs : all_members (keep_or_promote root m subs) = option_list m ++ all_members subs.
Proof. destruct m as [m |]; [unfold all_members; cbn; by rewrite app_nil_r |]. destruct subs as [| x [| y l]], root; unfold all_members; cbn; by rewrite ?app_nil_r. Qed.
Lemma concat_members (h : ThreadTree -> list ThreadTree) subs : Forall (fun t => all_members (h t) = members t) subs ->
  all_members (concat (map h subs)) = all_members subs.
Proof. induction 1 as [| t l Ht _ IH]; [done |]. cbn [map concat]. by rewrite all_members_app, Ht, IH. Qed.
Lemma prune_tree_members t : forall root, all_members (prune_tree root t) = members t.
Proof.
  induction t as [m subs IH] using tree_ind. intros root. cbn [prune_tree members]. rewrite keep_members, concat_members; [done |].
  apply (Forall_impl _ _ _ IH). auto.
Qed.
Lemma prune_members l root : all_members (pruneThreadNodes l root) = all_members l.
Proof. apply concat_members, Forall_forall. intros. apply prune_tree_members. Qed.

Lemma map_members (h : ThreadTree -> ThreadTree) subs : Forall (fun t => Permutation (members (h t)) (members t)) subs -> Permutation (all_members (map h subs)) (all_members subs).
Proof. induction 1 as [| t l Ht _ IH]; [done |]. cbn [map]. rewrite !all_members_cons. by rewrite Ht, IH. Qed.
Lemma sort_tree_members t : Permutation (members (sort_tree t)) (members t).
Proof.
  induction t as [m subs IH] using tree_ind. cbn [sort_tree members]. apply Permutation_app_head. fold (all_members (stable_sort node_before (map sort_tree subs))).
  rewrite stable_sort_Permutation. by apply map_members.
Qed.
Lemma sort_members l : Permutation (all_members (sortThreadNodes l)) (all_members l).
Proof. unfold sortThreadNodes. rewrite stable_sort_Permutation. apply map_members, Forall_forall. intros. apply sort_tree_members. Qed.

(** ** Merging by subject *)
Section Gather.
Context {U : UnicodeTables} {M : MimeStd}.
Context (roots : list ThreadTree).
Definition root (i : nat) : ThreadTree := default (TNode None []) (roots !! i).
Definition has_subject (i : nat) (s : gostring) : Prop := fst (threadSubjectOf (root i)) = s.
Definition is_reply (i : nat) : bool := snd (threadSubjectOf (root i)).

(** The thread picked for a subject: a dummy if there is one; else the first that is no reply. *)
Definition picked (k : nat) (s : gostring) (t : nat) (r : bool) : Prop :=
  (t < k)%nat /\ s <> [] /\ has_subject t s /\ r = is_reply t
  /\ (is_dummy (root t) = false -> forall j, (j < k)%nat -> has_subject j s ->
    is_dummy (root j) = false /\ (r = true -> is_reply j = true) /\ ((j < t)%nat -> is_reply j = true /\ r = false)).
Definition picks (k : nat) (tbl : gmap gostring (nat * bool)) : Prop :=
  forall s, match tbl !! s with Some (t, r) => picked k s t r | None => s <> [] -> forall j, (j < k)%nat -> ~ has_subject j s end.

Lemma picked_next k s t r : picked k s t r -> (has_subject k s -> is_dummy (root t) = false -> is_dummy (root k) = false /\ (r = true -> is_reply k = true)) -> picked (S k) s t r.
Proof.
  intros (Ht & Hs & Hsub & Hr & H) Hk. unfold picked. split_and!; [lia | done | done | done |]. intros Hd j Hj Hsj. destruct (decide (j = k)) as [-> | Hne].
  - destruct (Hk Hsj Hd) as [H1 H2]. split_and!; [done | done | lia].
  - apply H; [done | lia | done].
Qed.
Lemma pick_step k tbl : (k < length roots)%nat -> picks k tbl -> picks (S k) (pick_subject roots tbl (k, root k)).
Proof.
  intros Hl H. unfold pick_subject. destruct (threadSubjectOf (root k)) as [s reply] eqn:E.
  assert (Hs : has_subject k s) by (unfold has_subject; by rewrite E). assert (Hr : is_reply k = reply) by (unfold is_reply; by rewrite E).
  assert (Hother : forall s', s' <> s -> match tbl !! s' with Some (t, r) => picked (S k) s' t r | None => s' <> [] -> forall j, (j < S k)%nat -> ~ has_subject j s' end).
  { intros s' Hne. specialize (H s'). unfold has_subject in Hs. destruct (tbl !! s') as [[t r] |].
    - apply picked_next; [done |]. unfold has_subject. congruence.
    - intros Hn j Hj. destruct (decide (j = k)) as [-> |]; [unfold has_subject; congruence | apply H; [done | lia]]. }
  case_bool_decide as Hemp.
  - intros s'. destruct (decide (s' = s)) as [-> |]; [| by apply Hother]. specialize (H s). subst s. destruct (tbl !! []) as [[t r] |]; [| done].
    by destruct H as (_ & ? & _).
  - destruct (better roots (tbl !! s) (root k) reply) eqn:Eb; intros s'; (destruct (decide (s' = s)) as [-> | Hne]; [| rewrite ?lookup_insert_ne by done; by apply Hother]).
    + rewrite lookup_insert_eq. specialize (H s). unfold picked. split_and!; [lia | done | done | done |]. intros Hd j Hj Hsj.
      destruct (decide (j = k)) as [-> | Hne]; [rewrite Hr; split_and!; [done | done | lia] |].
      unfold better in Eb. rewrite Hd in Eb. destruct (tbl !! s) as [[t r] |]; [| exfalso; apply (H Hemp j); [lia | done]].
      destruct H as (_ & _ & _ & _ & H). cbn in Eb. fold (root t) in Eb. apply andb_true_iff in Eb as [[Ed%negb_true_iff ->]%andb_true_iff ->%negb_true_iff].
      destruct (H Ed j) as (H1 & H2 & _); [lia | done |]. rewrite H2 by done. done.
    + specialize (H s). destruct (tbl !! s) as [[t r] |]; [| done]. apply picked_next; [done |]. intros _ Hd. unfold better in Eb. fold (root t) in Eb.
      rewrite Hd, Hr in *. cbn in Eb. destruct (is_dummy (root k)), r, reply; done.
Qed.
Lemma picks_all : picks (length roots) (foldl (pick_subject roots) ∅ (imap pair roots)).
Proof.
  assert (Hgo : forall l k tbl, drop k roots = l -> picks k tbl -> picks (length roots) (foldl (pick_subject roots) tbl (imap (fun n => pair (k + n)%nat) l))).
  { induction l as [| x l IH]; intros k tbl Hd Hp.
    - cbn. assert (length roots <= k)%nat by (apply (f_equal length) in Hd; rewrite length_drop in Hd; cbn in Hd; lia).
      intros s. specialize (Hp s). destruct (tbl !! s) as [[t r] |]; [| intros Hs j Hj; apply Hp; [done | lia]].
      destruct Hp as (H1 & H2 & H3 & H4 & H5). unfold picked. split_and!; try done; [| intros; apply H5; (done || lia)].
      apply Nat.lt_nge. intros Hge. unfold has_subject, root in H3. rewrite lookup_ge_None_2 in H3 by done. by cbn in H3.
    - assert (Hk : roots !! k = Some x) by (rewrite <- (Nat.add_0_r k), <- lookup_drop, Hd; done). pose proof (lookup_lt_Some _ _ _ Hk) as Hlt.
      cbn [imap foldl]. rewrite Nat.add_0_r. replace x with (root k) by (unfold root; by rewrite Hk).
      erewrite (imap_ext (_ ∘ S)); [apply (IH (S k)) | intros; unfold compose; cbn; by rewrite Nat.add_succ_r].
      + rewrite <- Nat.add_1_r, <- drop_drop, Hd. done.
      + by apply pick_step. }
  apply (Hgo roots 0%nat ∅); [done |]. intros s. rewrite lookup_empty. intros _ j Hj. lia.
Qed.

(** *** What a merge moves *)
Definition weight (g : Gather) (j : nat) : list threadMsg :=
  if decide (j ∈ merged g) then [] else match up g !! j with Some _ => [] | None => members (slot g j) end.
Definition live (g : Gather) (j : nat) : Prop := (j < length (slots g))%nat /\ (j ∉ merged g) /\ up g !! j = None.
Record gathered (i : nat) (g : Gather) : Prop := {
  merged_lt j : j ∈ merged g -> (j < i)%nat;
  up_ok t d : up g !! t = Some d -> (t < i)%nat /\ (length roots <= d < length (slots g))%nat /\ t ∉ merged g;
  slots_grow : (length roots <= length (slots g))%nat;
  new_ok d : (length roots <= d < length (slots g))%nat -> is_dummy (slot g d) = true /\ exists t, up g !! t = Some d;
  entry_ok s t r : subjects g !! s = Some (t, r) -> s <> [] /\ live g t /\ fst (threadSubjectOf (slot g t)) = s
  /\ (is_dummy (slot g t) = false -> forall j, (j < t)%nat -> has_subject j s -> is_dummy (root j) = false /\ is_reply j = true /\ r = false);
  root_kept j : (j < length roots)%nat -> threadSubjectOf (slot g j) = threadSubjectOf (root j) /\ is_dummy (slot g j) = is_dummy (root j);
  weight_kept n : (length (slots g) <= n)%nat -> Permutation (concat (map (weight g) (seq 0 n))) (all_members roots)
}.

Lemma members_add_subs subs t : members (add_subs subs t) = members t ++ all_members subs.
Proof. destruct t as [m l]. cbn. rewrite map_app, concat_app, app_assoc. done. Qed.
Lemma subject_add_subs subs t : fst (threadSubjectOf t) <> [] -> threadSubjectOf (add_subs subs t) = threadSubjectOf t.
Proof. destruct t as [[m |] [| [[x |] l] r]]; done. Qed.
Lemma slot_alter g f t j : (t < length (slots g))%nat -> default (TNode None []) (alter f t (slots g) !! j) = if decide (j = t) then f (slot g t) else slot g j.
Proof.
  intros H. unfold slot. case_decide as E; [subst | by rewrite list_lookup_alter_ne].
  rewrite list_lookup_alter_eq. by destruct (lookup_lt_is_Some_2 (slots g) t H) as [x ->].
Qed.
Lemma move_weight (F F' : nat -> list threadMsg) a b l : NoDup l -> a ∈ l -> b ∈ l -> a <> b ->
  F' a = [] -> Permutation (F' b) (F b ++ F a) -> (forall j, j <> a -> j <> b -> F' j = F j) -> Permutation (concat (map F' l)) (concat (map F l)).
Proof.
  intros Hd Ha Hb Hne H1 H2 H3. rewrite <- !flat_map_concat_map. apply elem_of_Permutation in Ha as [l1 P1]. rewrite P1 in Hd, Hb. rewrite P1. apply NoDup_cons in Hd as [Ha Hd].
  apply elem_of_cons in Hb as [| Hb]; [congruence |]. apply elem_of_Permutation in Hb as [l2 P2]. rewrite P2 in Hd, Ha. rewrite P2.
  apply NoDup_cons in Hd as [Hb Hd]. cbn [flat_map]. rewrite H1, H2. replace (flat_map F' l2) with (flat_map F l2); [cbn; by rewrite app_assoc, (Permutation_app_comm (F a)) |].
  rewrite !flat_map_concat_map. f_equal. apply map_ext_in. intros j Hj%list_elem_of_In. symmetry. apply H3; [set_solver | set_solver].
Qed.

(** Thread [i] goes below thread [t]. *)
Lemma gathered_under i g s t r subs :
  gathered i g -> (i < length roots)%nat -> has_subject i s -> subjects g !! s = Some (t, r) -> t <> i -> Permutation (all_members subs) (members (slot g i)) ->
  gathered (S i) {| slots := alter (add_subs subs) t (slots g); subjects := subjects g; merged := merged g ++ [i]; up := up g |}.
Proof.
  intros G Hi Hs He Hne Hsub. destruct (entry_ok _ _ G _ _ _ He) as (Hs0 & (Hlt & Hm & Hu) & Hts & _).
  assert (Hui : up g !! i = None) by (destruct (up g !! i) eqn:E; [apply (up_ok _ _ G) in E as [? _]; lia | done]).
  assert (Hmi : i ∉ merged g) by (intros H%(merged_lt _ _ G); lia).
  assert (Hti : forall s' t' r', subjects g !! s' = Some (t', r') -> t' <> i).
  { intros s' t' r' H ->. destruct (entry_ok _ _ G _ _ _ H) as (_ & _ & H1 & _). unfold has_subject in Hs. destruct (root_kept _ _ G i Hi) as [H2 _]. congruence. }
  assert (Hslot : forall j, slot {| slots := alter (add_subs subs) t (slots g); subjects := subjects g; merged := merged g ++ [i]; up := up g |} j
    = if decide (j = t) then add_subs subs (slot g t) else slot g j) by (intros; by apply slot_alter).
  assert (Hsame : forall j, threadSubjectOf (if decide (j = t) then add_subs subs (slot g t) else slot g j) = threadSubjectOf (slot g j)
    /\ is_dummy (if decide (j = t) then add_subs subs (slot g t) else slot g j) = is_dummy (slot g j)).
  { intros j. case_decide as E; [subst j | done]. split; [apply subject_add_subs; congruence | by destruct (slot g t)]. }
  split.
  - intros j. cbn [merged]. rewrite elem_of_app, list_elem_of_singleton. intros [H%(merged_lt _ _ G) | ->]; lia.
  - intros a d. cbn [up merged slots]. rewrite length_alter. intros H. destruct (up_ok _ _ G _ _ H) as (H1 & H2 & H3). split_and!; [lia | lia | lia |].
    rewrite elem_of_app, list_elem_of_singleton. intros [? | ->]; [done | lia].
  - cbn [slots]. rewrite length_alter. apply (slots_grow _ _ G).
  - intros d. rewrite Hslot. cbn [up slots]. rewrite length_alter. destruct (Hsame d) as [_ ->]. apply (new_ok _ _ G).
  - intros s' t' r' H. cbn [subjects] in H. rewrite Hslot. destruct (Hsame t') as [-> ->]. destruct (entry_ok _ _ G _ _ _ H) as (H1 & (H2 & H3 & H4) & H5).
    split; [done |]. split; [| done]. unfold live. cbn [up merged slots]. rewrite length_alter. split_and!; [done | | done].
    rewrite elem_of_app, list_elem_of_singleton. intros [? | ?]; [done |]. by apply (Hti s' t' r').
  - intros j Hj. rewrite Hslot. destruct (Hsame j) as [-> ->]. by apply (root_kept _ _ G).
  - intros n. cbn [slots]. rewrite length_alter. intros Hn. rewrite <- (weight_kept _ _ G n Hn). pose proof (slots_grow _ _ G).
    apply (move_weight _ _ i t); [apply NoDup_seq | apply elem_of_seq; lia | apply elem_of_seq; lia | done | | |]; unfold weight; cbn [merged up].
    + rewrite decide_True by set_solver. done.
    + rewrite !decide_False by set_solver. rewrite Hu, Hui, Hslot, decide_True by done. by rewrite members_add_subs, Hsub.
    + intros j Hj1 Hj2. rewrite Hslot, (decide_False (P := j = t)) by done. repeat case_decide; set_solver.
Qed.

(** Threads [t] and [i] go below a new dummy. *)
Lemma gathered_new i g s t r :
  gathered i g -> (i < length roots)%nat -> has_subject i s -> subjects g !! s = Some (t, r) -> (t < i)%nat -> is_dummy (slot g t) = false ->
  gathered (S i) {| slots := slots g ++ [TNode None [slot g t; slot g i]]; subjects := <[s := (length (slots g), false)]> (subjects g);
    merged := merged g ++ [i]; up := <[t := length (slots g)]> (up g) |}.
Proof.
  intros G Hi Hs He Hlt0 Hd. destruct (entry_ok _ _ G _ _ _ He) as (Hs0 & (Hlt & Hm & Hu) & Hts & _). pose proof (slots_grow _ _ G) as Hgrow.
  assert (Hui : up g !! i = None) by (destruct (up g !! i) eqn:E; [apply (up_ok _ _ G) in E as [? _]; lia | done]).
  assert (Hmi : i ∉ merged g) by (intros H%(merged_lt _ _ G); lia).
  set (g' := {| slots := _; subjects := _; merged := _; up := _ |}).
  assert (Eu : up g' = <[t := length (slots g)]> (up g)) by done. assert (Em : merged g' = merged g ++ [i]) by done.
  assert (El : length (slots g') = S (length (slots g))) by (unfold g'; cbn [slots]; rewrite length_app; cbn; lia).
  assert (Hslot : forall j, (j < length (slots g))%nat -> slot g' j = slot g j) by (intros j Hj; unfold slot, g'; cbn [slots]; by rewrite lookup_app_l).
  assert (Hnew : slot g' (length (slots g)) = TNode None [slot g t; slot g i]).
  { unfold slot at 1, g'. cbn [slots]. rewrite lookup_app_r by done. by rewrite Nat.sub_diag. }
  split.
  - intros j. rewrite Em, elem_of_app, list_elem_of_singleton. intros [H%(merged_lt _ _ G) | ->]; lia.
  - intros a d. rewrite El, Eu, Em, lookup_insert_Some, elem_of_app, list_elem_of_singleton.
    intros [[<- <-] | [Hne H]]; [split_and!; try lia; intros [? | ->]; [done | lia] |].
    destruct (up_ok _ _ G _ _ H) as (H1 & H2 & H3). split_and!; try lia. intros [? | ->]; [done | lia].
  - lia.
  - intros d. rewrite El, Eu. intros Hr. destruct (decide (d = length (slots g))) as [-> | Hne].
    + rewrite Hnew. split; [done |]. exists t. apply lookup_insert_eq.
    + rewrite Hslot by lia. destruct (new_ok _ _ G d) as [H1 [a H2]]; [lia |]. split; [done |]. exists a. rewrite lookup_insert_ne; [done |]. intros <-. congruence.
  - intros s' t' r'. cbn [g' subjects]. rewrite lookup_insert_Some. unfold live. rewrite El, Em, Eu, elem_of_app, list_elem_of_singleton.
    intros [[<- [= <- <-]] | [Hne H]].
    + split_and!; [done | lia | | | | rewrite Hnew; done].
      * intros [H%(merged_lt _ _ G) | H]; lia.
      * rewrite lookup_insert_ne by lia. destruct (up g !! length (slots g)) eqn:E; [apply (up_ok _ _ G) in E as [? _]; lia | done].
      * rewrite Hnew. destruct (slot g t) as [[x |] l] eqn:E; [done | done].
    + destruct (entry_ok _ _ G _ _ _ H) as (H1 & (H2 & H3 & H4) & H5 & H6). rewrite Hslot by done.
      assert (t' <> t) by (intros ->; congruence).
      assert (t' <> i) by (intros ->; unfold has_subject in Hs; destruct (root_kept _ _ G i Hi) as [H8 _]; congruence).
      split_and!; [done | lia | | | done | done]; [intros [? | ?]; done | by rewrite lookup_insert_ne].
  - intros j Hj. rewrite Hslot by lia. by apply (root_kept _ _ G).
  - intros n. rewrite El. intros Hn. rewrite <- (weight_kept _ _ G n) by lia.
    set (F := fun j => if decide (j = i) then [] else if decide (j = t) then members (slot g t) ++ members (slot g i) else weight g j).
    assert (Hw : forall j, live g j -> weight g j = members (slot g j)) by (intros j (_ & H1 & H2); unfold weight; by rewrite decide_False, H2).
    transitivity (concat (map F (seq 0 n))).
    + assert (HF : F (length (slots g)) = []).
      { unfold F. rewrite !decide_False by lia. unfold weight. case_decide; [done |]. destruct (up g !! length (slots g)); [done |]. unfold slot. by rewrite lookup_ge_None_2 by lia. }
      apply (move_weight _ _ t (length (slots g))); [apply NoDup_seq | apply elem_of_seq; lia | apply elem_of_seq; lia | lia | | |].
      * unfold weight. rewrite Eu, lookup_insert_eq. by case_decide.
      * rewrite HF. unfold weight, F. rewrite Eu, Em. rewrite decide_False by (rewrite elem_of_app, list_elem_of_singleton; intros [H%(merged_lt _ _ G) | H]; lia).
        rewrite lookup_insert_ne by lia. destruct (up g !! length (slots g)) eqn:E; [apply (up_ok _ _ G) in E as [? _]; lia |]. rewrite Hnew.
        rewrite decide_False, decide_True by (done || lia). cbn. by rewrite !app_nil_r.
      * intros j H1 H2. unfold weight, F. rewrite Eu, Em, (lookup_insert_ne _ t j) by done. destruct (decide (j = i)) as [-> | Hne].
        -- by rewrite decide_True by set_solver.
        -- rewrite (decide_False (P := j = t)) by done. unfold weight. destruct (decide (j ∈ merged g)); [by rewrite decide_True by set_solver |].
          rewrite decide_False by set_solver. destruct (up g !! j); [done |]. destruct (decide (j < length (slots g))%nat) as [Hj |]; [f_equal; by apply Hslot |].
          unfold slot. rewrite !lookup_ge_None_2 by lia. done.
    + apply (move_weight _ _ i t); [apply NoDup_seq | apply elem_of_seq; lia | apply elem_of_seq; lia | lia | | |]; unfold F.
      * by rewrite decide_True.
      * rewrite decide_False, decide_True by (done || lia). rewrite !Hw; [done | |]; unfold live; split_and!; (done || lia).
      * intros j H1 H2. by rewrite !decide_False.
Qed.

Lemma gathered_skip i g : gathered i g -> gathered (S i) g.
Proof.
  intros [H1 H2 H3 H4 H5 H6 H7]. split; [intros j H%H1; lia | | assumption ..].
  intros t d H. destruct (H2 t d H) as (? & ? & ?). split_and!; (done || lia).
Qed.
Lemma gathered_step i g : gathered i g -> (i < length roots)%nat -> gathered (S i) (merge_root g i).
Proof.
  intros G Hi. unfold merge_root. destruct (root_kept _ _ G i Hi) as [Hk1 Hk2]. rewrite Hk1. destruct (threadSubjectOf (root i)) as [s reply] eqn:E.
  assert (Hs : has_subject i s) by (unfold has_subject; by rewrite E). assert (Hr : is_reply i = reply) by (unfold is_reply; by rewrite E).
  case_bool_decide as Hemp; [by apply gathered_skip |]. destruct (subjects g !! s) as [[t r] |] eqn:Es; [| by apply gathered_skip].
  destruct (Nat.eqb_spec t i) as [-> | Hne]; [by apply gathered_skip |].
  assert (Hone : Permutation (all_members [slot g i]) (members (slot g i))) by (unfold all_members; cbn; by rewrite app_nil_r).
  destruct (is_dummy (slot g t)) eqn:Ed; cbn [andb].
  { destruct (is_dummy (slot g i)) eqn:Ei; eapply gathered_under; eauto. unfold is_dummy in Ei. rewrite bool_decide_eq_true in Ei.
    destruct (slot g i) as [m subs]. cbn in Ei. by subst m. }
  destruct (_ && negb r) eqn:Ec; [eapply gathered_under; eauto |]. apply (gathered_new _ _ _ _ r); [done | done | done | done | | done].
  destruct (entry_ok _ _ G _ _ _ Es) as (_ & _ & _ & H). destruct (decide (t < i)%nat) as [| Hge]; [done |]. exfalso.
  destruct (H Ed i) as (D1 & D2 & ->); [lia | done |]. rewrite Hk2, D1, <- Hr, D2 in Ec. done.
Qed.
Lemma gathered_start : gathered 0 {| slots := roots; subjects := foldl (pick_subject roots) ∅ (imap pair roots); merged := []; up := ∅ |}.
Proof.
  split; cbn [slots subjects merged up]; try done.
  - by intros j ?%elem_of_nil.
  - lia.
  - intros s t r H. pose proof (picks_all s) as P. rewrite H in P. destruct P as (P1 & P2 & P3 & P4 & P5). unfold live. cbn [slots merged up].
    split_and!; [done | done | by intros ?%elem_of_nil | done | done |]. intros Hd j Hj Hsj. destruct (P5 Hd j) as (Q1 & _ & Q3); [lia | done |].
    destruct (Q3 Hj). done.
  - intros n Hn. unfold all_members. replace n with (length roots + (n - length roots))%nat by lia. rewrite seq_app, map_app, concat_app.
    replace (concat (map _ (seq (0 + length roots) _))) with (@nil threadMsg).
    + rewrite app_nil_r. apply Permutation_refl'. f_equal. apply list_eq. intros j. unfold weight, slot. cbn [merged up slots].
      repeat match goal with |- context [map ?f ?l] => change (map f l) with (f <$> l) end. rewrite !list_lookup_fmap. destruct (decide (j < length roots)%nat) as [Hj | Hj].
      * rewrite lookup_seq_lt by done. cbn. destruct (lookup_lt_is_Some_2 roots j Hj) as [x ->]. done.
      * rewrite lookup_seq_ge by lia. by rewrite lookup_ge_None_2 by lia.
    + symmetry. apply concat_nil_Forall, Forall_map, Forall_forall. intros j Hj%list_elem_of_In%in_seq. unfold weight, slot. cbn [merged up slots].
      by rewrite lookup_ge_None_2 by lia.
Qed.
Lemma gathered_end : gathered (length roots) (foldl merge_root {| slots := roots; subjects := foldl (pick_subject roots) ∅ (imap pair roots); merged := []; up := ∅ |} (seq 0 (length roots))).
Proof.
  assert (Hgo : forall n i g, (i + n = length roots)%nat -> gathered i g -> gathered (length roots) (foldl merge_root g (seq i n))).
  { induction n as [| n IH]; intros i g Hn G; cbn [seq foldl]; [by replace (length roots) with i by lia |]. apply IH; [lia |]. apply gathered_step; [done | lia]. }
  apply Hgo; [lia | apply gathered_start].
Qed.

(** The threads answered are the live ones. *)
Lemma foldl_add_slot l acc : NoDup acc -> NoDup (foldl add_slot acc l) /\ (forall n, n ∈ foldl add_slot acc l <-> n ∈ acc \/ n ∈ l).
Proof.
  revert acc. induction l as [| x l IH]; intros acc Hd; cbn [foldl]; [set_solver |].
  assert (Hd' : NoDup (add_slot acc x)).
  { unfold add_slot. case_bool_decide; [done |]. apply NoDup_app. split_and!; [done | set_solver | apply NoDup_singleton]. }
  destruct (IH _ Hd') as [H1 H2]. split; [done |]. intros n. rewrite H2. unfold add_slot. case_bool_decide; set_solver.
Qed.
Lemma elem_of_tops g n : gathered (length roots) g ->
  n ∈ map (top g) (List.filter (fun i => negb (bool_decide (i ∈ merged g))) (seq 0 (length roots))) <-> live g n.
Proof.
  intros G. rewrite list_elem_of_In, in_map_iff. setoid_rewrite filter_In. setoid_rewrite negb_true_iff. setoid_rewrite bool_decide_eq_false.
  setoid_rewrite in_seq. pose proof (slots_grow _ _ G) as Hg. unfold live. split.
  - intros (i & <- & Hi & Hm). unfold top. destruct (up g !! i) as [d |] eqn:E; cbn; [| split_and!; (done || lia)].
    destruct (up_ok _ _ G _ _ E) as (_ & Hd & _). split_and!; [lia | intros H%(merged_lt _ _ G); lia |].
    destruct (up g !! d) eqn:E2; [apply (up_ok _ _ G) in E2 as [? _]; lia | done].
  - intros (Hl & Hm & Hu). destruct (decide (n < length roots)%nat) as [Hn |].
    + exists n. unfold top. rewrite Hu. split_and!; (done || lia).
    + destruct (new_ok _ _ G n) as [_ [t Ht]]; [lia |]. exists t. unfold top. rewrite Ht. destruct (up_ok _ _ G _ _ Ht) as (H1 & _ & H3). split_and!; (done || lia).
Qed.
Lemma gather_members : Permutation (all_members (threadGatherSubjects roots)) (all_members roots).
Proof.
  unfold threadGatherSubjects. pose proof gathered_end as G. set (g := foldl merge_root _ _) in *.
  rewrite <- (weight_kept _ _ G (length (slots g))) by lia. set (tops := map (top g) _).
  destruct (foldl_add_slot tops [] NoDup_nil_2) as [Hd Ht].
  assert (P : Permutation (foldl add_slot [] tops) (List.filter (fun j => bool_decide ((j ∉ merged g) /\ up g !! j = None)) (seq 0 (length (slots g))))).
  { apply NoDup_Permutation; [done | apply NoDup_ListNoDup, List.NoDup_filter, NoDup_ListNoDup, NoDup_seq |]. intros n. rewrite Ht, elem_of_nil.
    unfold tops. rewrite elem_of_tops by done. rewrite list_elem_of_In, filter_In, in_seq, bool_decide_eq_true. unfold live. naive_solver lia. }
  unfold all_members. rewrite map_map, <- flat_map_concat_map, P, flat_map_concat_map. apply Permutation_refl'. clear.
  induction (seq 0 (length (slots g))) as [| j l IH]; cbn [List.filter map concat]; [done |]. rewrite <- IH.
  unfold weight at 1. destruct (decide (j ∈ merged g)); [by rewrite bool_decide_eq_false_2 by tauto |]. destruct (up g !! j); [by rewrite bool_decide_eq_false_2 by (intros [_ ?]; done) |].
  by rewrite bool_decide_eq_true_2.
Qed.
End Gather.

Lemma group_members {U : UnicodeTables} {M : MimeStd} l : forall cur,
  Permutation (all_members (group_subjects cur l)) (match cur with Some (m, subs) => m :: all_members subs | None => [] end ++ l).
Proof.
  induction l as [| m l IH]; intros cur; cbn [group_subjects].
  - destruct cur as [[h subs] |]; [| done]. unfold all_members. cbn. by rewrite !app_nil_r.
  - destruct cur as [[h subs] |]; [| by rewrite IH]. case_bool_decide.
    + rewrite IH, all_members_app. unfold all_members at 2. cbn. by rewrite <- app_assoc.
    + rewrite all_members_app, IH. unfold all_members at 1 2. cbn. by rewrite app_nil_r.
Qed.

