(* ===== verification/ImapMessages.v ===== *)
(** * internal/imap: commands on messages

    APPEND with its literals, EXPUNGE, CLOSE, SEARCH, FETCH, STORE, COPY, MOVE, the UID
    variants and IDLE (commands.go, seqview.go).  [io] says what the file system and the
    database do to each message of a command; [mdn] whether a receipt handler is
    installed and has room.  IDLE is driven by the events it waits for; with this store
    a selected mailbox always has a snapshot, so its branch without one is left out. *)
From S2P Require Import Prelude GoLib Utf8 Bolt ImapSeq ImapNames Scram BlobStore MailDb Threads ImapStore ImapMatch ImapSearch ImapFetch.
From S2P Require Import ImapConn ImapMailboxes ImapSort.

Section Messages.
Context {U : UnicodeTables} {N : Normalizer} {M : MimeStd} {T : MimeTree} {NM : NetMail} {C : Crypto}.
Context (bufsize : nat) (expungeHook : bool) (mdnHandler mdnRoom : bool).
Context (zone : MessageMetadata -> Z) (walk : gmap gostring gostring -> list (gostring * gostring)).
Context (quotaLimit : option (gostring -> Z)) (quotaAdjust : option (list (gostring * Z) -> gostring -> Z -> bool)).
Context (junkReport : bool) (pending : gostring -> gostring -> bool) (iter : gmap gostring Z -> list (gostring * Z)).
Implicit Types (w : World) (now : Z) (args : list gostring) (line : gostring).

Definition is_quota (e : mstore_error) : bool := match e with EStore (ErrQuotaExceeded _ _ _) => true | _ => false end.
Definition respond_no (e : mstore_error) : World -> World := respond_err (if is_quota e then "NO [OVERQUOTA]" else "NO") (CStore e).

Definition copyDestination (arg : gostring) w (k : gostring -> World -> World) : World :=
  with_mbox arg w (fun dest w =>
    if dest =s? "INBOX" then k dest w
    else if has_name dest (listed dest w) then k dest w
    else respond "NO [TRYCREATE] Mailbox does not exist" w).

Definition rejectReadOnly w (k : Selected -> World -> World) : World :=
  match selected (conn w) with
  | None => respond "NO No mailbox selected" w
  | Some sel => if ReadOnly sel then respond "NO [READ-ONLY] Mailbox is selected read-only" w else k sel w
  end.

(** ** APPEND *)
Definition maxAppendSize : Z := 50 * 1024 * 1024.
Definition maxMultiAppendTotal : Z := 256 * 1024 * 1024.

Definition discardLiteral (n : Z) w : World :=
  if maxAppendSize <? n then set_conn (set_state StateLoggedOut) (WriteData "BYE Literal too large" w)
  else if Z.of_nat (length (input (conn w))) <? n then set_conn (set_input []) w
  else with_line bufsize (set_conn (fun c => set_input (drop (Z.to_nat n) (input c)) c) w) (fun _ w => w).

Definition appendDateTime (prefix : gostring) : option (option Z) :=
  let prefix := TrimRight prefix " " in
  if negb (HasSuffix prefix [DQUOTE]) then Some None
  else match LastIndexByte (take (length prefix - 1) prefix) DQUOTE with
  | None => Some None
  | Some open =>
      if match last (Fields (take open prefix)) with Some f => EqualFold f "APPEND" | None => false end then Some None
      else match ParseLayout "2-Jan-2006 15:04:05 -0700" (TrimSpace (drop (open + 1) (take (length prefix - 1) prefix))) with
      | Some (t, _) => Some (Some t)
      | None => None
      end
  end.

(** The first argument that opens a parenthesis starts the flag list. *)
Fixpoint append_flags (args : list gostring) : option (list gostring) :=
  match args with
  | [] => Some []
  | a :: r =>
      if HasPrefix a "(" then
      let s := Join args " " in
      end_ ← Index s ")";
      nf ← checkFlags (Fields (drop 1 (take end_ s)));
      if (maxKeywordsPerMessage <? countKeywords (normalizeStoreFlags nf))%nat then None else Some nf
      else append_flags r
  end.

(** The flags, the date and the size of the literal; [None] is a syntax error. *)
Definition parseAppendParams now args line : option (list gostring * Z * Z) :=
  flags ← append_flags args;
  start ← LastIndexByte line "{";
  end_ ← IndexByte (drop start line) "}";
  '(size, _) ← parseLiteralSize (drop (start + 1) (take (start + end_) line));
  date ← appendDateTime (take start line);
  Some (flags, default now date, size).

Record appendMsg := { aflags : list gostring; adate : Z; adata : gostring }.
Definition non_sync line : bool := match trailingLiteral line with Some (_, _, ns) => ns | None => false end.

(** [size] octets of a message, after the continuation that asks for them. *)
Definition read_message (size : Z) line w (k : gostring -> World -> World) : World :=
  let w := if non_sync line then w else WriteContinuation ("Ready for " ++ FormatUint size ++ " octets") w in
  let i := input (conn w) in
  if Z.of_nat (length i) <? size then respond "NO Failed to read message data" (set_conn (set_input []) w)
  else k (take (Z.to_nat size) i) (set_conn (set_input (drop (Z.to_nat size) i)) w).

(** The further messages of MULTIAPPEND, up to the end of the line; each takes a line
    of the input. *)
Fixpoint more_messages (fuel : nat) now (msgs : list appendMsg) (total : Z) w (k : list appendMsg -> Z -> World -> World) : World :=
  match fuel with
  | O => w
  | S f =>
      match readLine bufsize (input (conn w)) with
      | None => respond "NO Failed to read message data" (set_conn (set_input []) w)
      | Some (rest, i) =>
          let w := set_conn (set_input i) w in
          if bool_decide (TrimSpace rest = []) then k msgs total w
          else
          let skipRest w := match trailingLiteral rest with Some (_, n, true) => discardLiteral n w | _ => w end in
          match parseAppendParams now (Fields rest) rest with
          | Some (flags, date, size) =>
              if size =? 0 then skipRest (respond "BAD Invalid MULTIAPPEND message" w)
              else if (maxAppendSize <? size) || (maxMultiAppendTotal <? total + size)
              then skipRest (respond "NO Message too large (limit 50MB)" w)
              else read_message size rest w (fun data w =>
                more_messages f now (msgs ++ [{| aflags := flags; adate := date; adata := data |}]) (total + size) w k)
          | None => skipRest (respond "BAD Invalid MULTIAPPEND message" w)
          end
      end
  end.

(** The messages one after the other; what was stored before a failure is undone. *)
Fixpoint append_all (io : Z -> IO) now (mailbox : gostring) (i : Z) (msgs : list appendMsg) (validity : Z) (uids : list Z) w : World :=
  match msgs with
  | [] =>
      respond (if negb (validity =? 0) && negb (bool_decide (uids = []))
        then "OK [APPENDUID " ++ FormatUint validity ++ " " ++ uidSetString uids ++ "] APPEND completed" else "OK APPEND completed") w
  | m :: r =>
      match AppendMessageUID quotaLimit quotaAdjust pending iter (io i) now (me w) mailbox (aflags m) (adate m) (adata m) (store w) with
      | (Ok (v, uid), st) => append_all io now mailbox (i + 1) r v (if uid =? 0 then uids else uids ++ [uid]) (set_store (fun _ => st) w)
      | (Err e, st) =>
          let w := set_store (fun _ => st) w in
          let w := if bool_decide (uids = []) then w else set_store (RollbackAppended quotaAdjust pending iter now (me w) mailbox uids) w in
          respond_no e w
      end
  end.

Definition store_messages (io : Z -> IO) now (arg : gostring) (msgs : list appendMsg) (total : Z) w : World :=
  copyDestination arg w (fun mailbox w =>
    match (if (1 <? length msgs)%nat then CheckQuota quotaLimit (me w) total (store w) else None) with
    | Some e => respond_no e w
    | None => append_all io now mailbox 0 msgs 0 [] w
    end).

(** Whether the literal of the line was read. *)
Definition handleAppendInner (io : Z -> IO) now args line w : World * bool :=
  match args with
  | a :: ((_ :: _) as params) =>
      match mboxArg (if bool_decide (me w = []) then None else Some (listed "*" w)) a with
      | None => (respond "BAD invalid modified UTF-7 mailbox name" w, false)
      | Some _ =>
          match parseAppendParams now params line with
          | None => (respond_err "BAD" CAppend w, false)
          | Some (flags, date, size) =>
              if size =? 0 then (respond "BAD Missing message data" w, false)
              else if maxAppendSize <? size then (respond "NO Message too large (limit 50MB)" w, false)
              else (read_message size line w (fun data w =>
                more_messages (S (length (input (conn w)))) now [{| aflags := flags; adate := date; adata := data |}] size w
                (store_messages io now a)), true)
          end
      end
  | _ => (respond "BAD Missing mailbox or message data" w, false)
  end.
Definition handleAppend (io : Z -> IO) now args line w : World :=
  let '(w, consumed) := handleAppendInner io now args line w in
  match consumed, trailingLiteral line with
  | false, Some (_, n, true) => discardLiteral n w
  | _, _ => w
  end.

(** ** EXPUNGE and CLOSE *)
Definition expunge_lines (seqs : list Z) w : World :=
  if snapOn (view (conn w)) then w else foldl (fun w q => WriteData (FormatUint q ++ " EXPUNGE") w) w (rev seqs).
Definition call_hook (mailbox : gostring) (uids : list Z) w : World :=
  if expungeHook then log_expunged (map (fun uid => (me w, mailbox, uid)) uids) w else w.

Definition handleExpunge now w : World :=
  rejectReadOnly w (fun sel w =>
    let mailbox := MbName (info sel) in
    let '(seqs, uids, st) := ExpungeReport quotaAdjust pending iter now (me w) mailbox (store w) in
    let w := call_hook mailbox uids (set_store (fun _ => st) w) in
    respond "OK EXPUNGE completed" (expunge_lines seqs w)).

Definition handleClose now w : World :=
  let w := match selected (conn w) with
  | Some sel => if ReadOnly sel then w
      else set_store (fun st => snd (ExpungeReport quotaAdjust pending iter now (me w) (MbName (info sel)) st)) w
  | None => w
  end in
  respond "OK CLOSE completed" (set_conn leave_mailbox w).

(** ** SEARCH *)
Definition search_cmd args line (uidResults : bool) w : World :=
  let sel := selected (conn w) in
  match handleSearchWithUIDs zone walk (view (conn w)) (match sel with Some x => list_to_set (RecentUIDs (info x)) | None => ∅ end)
      (tag (conn w)) (me w) ((fun x => MbName (info x)) <$> sel) args line uidResults (store w) with
  | Answer data => respond "OK SEARCH completed" (WriteData data w)
  | NoMailbox => respond "NO No mailbox selected" w
  | BadReturn => respond_err "BAD" CList w
  | BadProgram e => writeSearchParseError e w
  | BadCharset => respond badCharsetResponse w
  | Failed f => respond_err "NO" (CSearch f) w
  | FetchFailed e => respond_err "NO" (CStore e) w
  | Panicked => panic w
  end.

(** ** FETCH *)
Definition with_flags_of (flags : list gostring) (m : Message) : Message := {|
  SeqNum := SeqNum m; MUID := MUID m; MFlags := flags; meta := meta m; data := data m; header := header m |}.
Definition with_seq (q : Z) (m : Message) : Message := {|
  SeqNum := q; MUID := MUID m; MFlags := MFlags m; meta := meta m; data := data m; header := header m |}.
Definition with_header (h : option gostring) (m : Message) : Message := {|
  SeqNum := SeqNum m; MUID := MUID m; MFlags := MFlags m; meta := meta m; data := data m; header := h |}.

Definition mark_recent (recent : list Z) (m : Message) : Message :=
  if bool_decide (MUID m ∈ recent) && negb (hasFlag (MFlags m) "\Recent") then with_flags_of (MFlags m ++ ["\Recent" : gostring]) m else m.

(** The live numbers of a set of session numbers, and the messages they name, numbered
    as the session knows them. *)
Definition live_set (sel : Selected) (set : gostring) w : result view_error gostring :=
  seqToLive (view (conn w)) (Some (GetMessageUIDs (me w) (MbName (info sel)) (db (store w)))) set.
Definition fetchSel (sel : Selected) (set : gostring) (items : list gostring) w : result cmd_error (list Message) * World :=
  match live_set sel set w with
  | Err e => (Err (CView e), w)
  | Ok live =>
      match FetchMessages mdnHandler mdnRoom (me w) (MbName (info sel)) live items (store w) with
      | (Err e, st) => (Err (CStore e), set_store (fun _ => st) w)
      | (Ok msgs, st) =>
          let msgs := map (fun m => mark_recent (RecentUIDs (info sel)) (message_of m)) msgs in
          let v := view (conn w) in
          (Ok (if snapOn v then omap (fun m => (fun q => with_seq q m) <$> snapSeq v (MUID m)) msgs else msgs), set_store (fun _ => st) w)
      end
  end.
Definition storeSel (sel : Selected) (set : gostring) (flags : list gostring) (op : FlagOperation) w : option cmd_error * World :=
  match live_set sel set w with
  | Err e => (Some (CView e), w)
  | Ok live =>
      let '(err, st) := StoreFlags (me w) (MbName (info sel)) live flags op (store w) in
      (CStore <$> err, set_store (fun _ => st) w)
  end.

(** A numbered part that some message does not have. *)
Definition missing_section (items : list gostring) (msgs : list Message) : option gostring :=
  head (omap (fun item =>
    it ← parseBodySectionItem item;
    match section it with
    | c :: _ => if in_range 49 57 c && existsb (fun m => negb (bodySectionExists (data m) (section it))) msgs then Some (section it) else None
    | [] => None
    end) items).
Definition sets_seen (item : gostring) : bool :=
  match parseBodySectionItem item with Some it => negb (peek it) | None => false end || EqualFold item "RFC822" || EqualFold item "RFC822.TEXT".

Definition see_one (sel : Selected) (acc : list Message * bool * World) (m : Message) : list Message * bool * World :=
  let '(done, seen, w) := acc in
  if hasFlag (MFlags m) "\Seen" then (done ++ [m], seen, w)
  else match storeSel sel (FormatUint (SeqNum m)) ["\Seen" : gostring] FlagAdd w with
  | (None, w) => (done ++ [with_flags_of (MFlags m ++ ["\Seen" : gostring]) m], true, w)
  | (Some _, w) => (done ++ [m], seen, w)
  end.
Definition see_all (sel : Selected) (items : list gostring) (msgs : list Message) w : list Message * bool * World :=
  if existsb sets_seen items && negb (ReadOnly sel) then foldl (see_one sel) ([], false, w) msgs else (msgs, false, w).

Definition load_header (sel : Selected) w (m : Message) : Message :=
  match MessageHeader (me w) (MbName (info sel)) (MUID m) (store w) with Ok hb => with_header (Some hb) m | Err _ => m end.

(** The items of the response: the UID of a UID command takes the place of the flags a
    fetch has changed. *)
Definition resp_items (items : list gostring) (seen uidCmd : bool) : list gostring :=
  if uidCmd && negb (hasFetchItem items "UID") then ("UID" : gostring) :: items
  else if seen && negb (hasFetchItem items "FLAGS") then items ++ ["FLAGS" : gostring] else items.

Definition fetch args (uidCmd : bool) w : World :=
  match args with
  | seqSet :: ((_ :: _) as rest) =>
      match selected (conn w) with
      | None => respond "NO No mailbox selected" w
      | Some sel =>
          let items := expandFetchMacros (parseFetchItems rest) in
          match unknownFetchItem items with
          | Some bad => respond_err "BAD" CList w
          | None =>
              let storeItems := if hasFetchItem items "BODYSTRUCTURE" && negb (hasFetchItem items "BODY") then items ++ ["BODY" : gostring] else items in
              if negb uidCmd && negb (seqSetInRange (view (conn w)) seqSet) then respond "NO Invalid message sequence number" w
              else match fetchSel sel seqSet storeItems w with
              | (Err e, w) => respond_err "NO" e w
              | (Ok msgs, w) =>
                  match missing_section items msgs with
                  | Some sec => respond ("NO [NONEXISTENT] Section " ++ sec ++ " does not exist") w
                  | None =>
                      let '(msgs, seen, w) := see_all sel items msgs w in
                      let msgs := if hasFetchItem items "ENVELOPE" then map (load_header sel w) msgs else msgs in
                      let answer m := FormatUint (SeqNum m) ++ " FETCH (" ++ formatFetchResponse zone m (resp_items items seen uidCmd) ++ ")" in
                      respond "OK FETCH completed" (foldl (fun w m => WriteData (answer m) w) w msgs)
                  end
              end
          end
      end
  | _ => respond "BAD Missing sequence or fetch items" w
  end.
Definition handleFetch args : World -> World := fetch args false.

(** ** STORE *)
Definition store_operation (operation : gostring) : option FlagOperation :=
  if (operation =s? "FLAGS") || (operation =s? "FLAGS.SILENT") then Some FlagReplace
  else if (operation =s? "+FLAGS") || (operation =s? "+FLAGS.SILENT") then Some FlagAdd
  else if (operation =s? "-FLAGS") || (operation =s? "-FLAGS.SILENT") then Some FlagRemove
  else None.
Definition flags_line (uidCmd : bool) (m : Message) : gostring :=
  FormatUint (SeqNum m) ++ " FETCH (" ++ (if uidCmd then "UID " ++ FormatUint (MUID m) ++ " " else []) ++ "FLAGS (" ++ Join (MFlags m) " " ++ "))".

Definition store_cmd args (uidCmd : bool) w : World :=
  match args with
  | seqSet :: op :: ((_ :: _) as rest) =>
      rejectReadOnly w (fun sel w =>
        let operation := ToUpper op in
        match checkFlags (parseFlags (Join rest " ")) with
        | None => respond_err "BAD" CFlags w
        | Some flags =>
            match store_operation operation with
            | None => respond "BAD Invalid STORE operation" w
            | Some op =>
                if negb uidCmd && negb (seqSetInRange (view (conn w)) seqSet) then respond "NO Invalid message sequence number" w
                else match storeSel sel seqSet flags op w with
                | (Some e, w) => respond_err "NO" e w
                | (None, w) =>
                    let w := if HasSuffix operation ".SILENT" then w
                    else match fetchSel sel seqSet ["FLAGS" : gostring] w with
                    | (Ok msgs, w) => foldl (fun w m => WriteData (flags_line uidCmd m) w) w msgs
                    | (Err _, w) => w
                    end in
                    respond "OK STORE completed" w
                end
            end
        end)
  | _ => respond "BAD Missing sequence, operation, or flags" w
  end.
Definition handleStore args : World -> World := store_cmd args false.

(** ** COPY and MOVE *)
Definition copyuid (text : gostring) (validity : Z) (src dst : list Z) : gostring :=
  "OK [COPYUID " ++ FormatUint validity ++ " " ++ uidSetString src ++ " " ++ uidSetString dst ++ "] " ++ text.
Definition reports_uids (validity : Z) (src dst : list Z) : bool :=
  negb (validity =? 0) && (0 <? length src)%nat && (length src =? length dst)%nat.

(** The live set and the destination of COPY and MOVE. *)
Definition with_transfer (set dest : gostring) (sel : Selected) w (k : gostring -> gostring -> World -> World) : World :=
  if negb (seqSetInRange (view (conn w)) set) then respond "NO Invalid message sequence number" w
  else match live_set sel set w with
  | Err _ => respond "BAD Invalid sequence set" w
  | Ok live => copyDestination dest w (fun dest w => k live dest w)
  end.

Definition handleCopy (io : Z -> IO) now args w : World :=
  match args with
  | set :: dest :: _ =>
      match selected (conn w) with
      | None => respond "NO No mailbox selected" w
      | Some sel => with_transfer set dest sel w (fun live dest w =>
        match CopyMessagesUIDs quotaLimit quotaAdjust junkReport pending iter io now (me w) (MbName (info sel)) dest live (store w) with
        | (Err e, st) => respond_no e (set_store (fun _ => st) w)
        | (Ok (validity, src, dst), st) =>
            respond (if reports_uids validity src dst then copyuid "COPY completed" validity src dst else "OK COPY completed")
            (set_store (fun _ => st) w)
        end)
      end
  | _ => respond "BAD Missing sequence or destination" w
  end.

Definition deleted_criteria : SearchCriteria := {|
  switch := fun k => bool_decide (k = KDeleted); recent := ∅; Keyword := []; Unkeyword := []; SeqSet := []; UIDSet := [];
  text := fun _ => []; Header := ∅; date := fun _ => zero_time; Larger := None; Smaller := None; Not := None; Or := None |}.

(** The removal of the deleted messages that [want] accepts. *)
Definition expungeUIDSubset now (sel : Selected) (want : Z -> bool) w : option cmd_error * World :=
  let mailbox := MbName (info sel) in
  match SearchMessages zone walk (me w) mailbox deleted_criteria (store w) with
  | Err e => (Some (CSearch e), w)
  | Ok [] => (None, w)
  | Ok deletedSeqs =>
      if too_many (me w) mailbox (store w) then (Some (CStore ETooManyMessages), w)
      else
      let uidBySeq := list_to_map (numbered (me w) mailbox (store w)) : gmap Z Z in
      let hits := omap (fun q => uid ← uidBySeq !! q; if want uid then Some (q, uid) else None) deletedSeqs in
      if bool_decide (hits = []) then (None, w)
      else
      let w := set_store (ExpungeUIDs quotaAdjust pending iter now (me w) mailbox (map snd hits)) w in
      let w := call_hook mailbox (map snd hits) w in
      (None, expunge_lines (merge_sort Z.le (map fst hits)) w)
  end.

Definition handleMove (io : Z -> IO) (row : Z -> bool) now args w : World :=
  match args with
  | set :: dest :: _ =>
      rejectReadOnly w (fun sel w => with_transfer set dest sel w (fun live dest w =>
        match MoveMessagesUIDs quotaLimit quotaAdjust junkReport pending iter io row now (me w) (MbName (info sel)) dest live (store w) with
        | (Err e, st) => respond_no e (set_store (fun _ => st) w)
        | (Ok (validity, src, dst), st) =>
            let w := set_store (fun _ => st) w in
            let w := if reports_uids validity src dst then WriteData (copyuid "Moved" validity src dst) w else w in
            let '(err, w) := if bool_decide (src = []) then (None, w) else expungeUIDSubset now sel (fun uid => bool_decide (uid ∈ src)) w in
            match err with
            | Some e => respond_err "NO" e w
            | None => respond "OK MOVE completed" w
            end
        end))
  | _ => respond "BAD Missing sequence or destination" w
  end.

(** ** UID commands *)
(** Session numbers of the UIDs in the set. *)
Definition uidSetToSeqSet (sel : Selected) (uidSet : gostring) w : result mstore_error gostring :=
  let v := view (conn w) in
  let live := GetMessageUIDs (me w) (MbName (info sel)) (db (store w)) in
  if snapOn v then
  match ParseSequenceSet uidSet with
  | Err e => Err (ESet e)
  | Ok ranges => Ok (Join (map (fun '(i, _) => FormatUint i) (List.filter (fun '(_, uid) => inSeqRanges ranges uid (List.last (snap v) 0)) (numbered_from 1 (snap v)))) ",")
  end
  else if too_many (me w) (MbName (info sel)) (store w) then Err ETooManyMessages
  else match ParseSequenceSet uidSet with
  | Err e => Err (ESet e)
  | Ok ranges => Ok (Join (map (fun '(i, _) => FormatUint i) (List.filter (fun '(_, uid) => inSeqRanges ranges uid (foldr Z.max 0 live)) (numbered_from 1 live))) ",")
  end.
(** The UID variant of a command: its first argument is a set of UIDs. *)
Definition by_uid args w (k : list gostring -> World -> World) : World :=
  match args, selected (conn w) with
  | [], _ | _, None => k args w
  | a :: r, Some sel =>
      match uidSetToSeqSet sel a w with
      | Err _ => respond "NO Invalid sequence set" w
      | Ok set => k (set :: r) w
      end
  end.

Definition handleUIDExpunge now args w : World :=
  match args with
  | [] => respond "BAD UID EXPUNGE requires a UID set" w
  | a :: _ => rejectReadOnly w (fun sel w =>
    match ParseSequenceSet a with
    | Err _ => respond "BAD Invalid UID set" w
    | Ok ranges =>
        if too_many (me w) (MbName (info sel)) (store w) then respond_err "NO" (CStore ETooManyMessages) w
        else
        let maxUID := foldr Z.max 0 (GetMessageUIDs (me w) (MbName (info sel)) (db (store w))) in
        match expungeUIDSubset now sel (fun uid => inSeqRanges ranges uid maxUID) w with
        | (Some e, w) => respond_err "NO" e w
        | (None, w) => respond "OK UID EXPUNGE completed" w
        end
    end)
  end.

Definition handleUID (io : Z -> IO) (row : Z -> bool) now args line w : World :=
  match args with
  | [] => respond "BAD Missing UID command" w
  | c :: uidArgs =>
      let c := ToUpper c in
      if c =s? "FETCH" then by_uid uidArgs w (fun a => fetch a (negb (bool_decide (uidArgs = []))))
      else if c =s? "STORE" then by_uid uidArgs w (fun a => store_cmd a (negb (bool_decide (uidArgs = []))))
      else if c =s? "COPY" then by_uid uidArgs w (handleCopy io now)
      else if c =s? "MOVE" then by_uid uidArgs w (handleMove io row now)
      else if c =s? "SEARCH" then search_cmd uidArgs line true w
      else if c =s? "SORT" then sortCmd zone walk uidArgs line true w
      else if c =s? "THREAD" then threadCmd zone walk uidArgs line true w
      else if c =s? "EXPUNGE" then handleUIDExpunge now uidArgs w
      else respond "BAD Unknown UID command" w
  end.

(** ** IDLE *)
Inductive idle_event :=
  | Others (st : MStore)           (* other sessions have worked on the store *)
  | Notified (n : note)
  | IdleTimeout
  | HubClosed.
Definition note_mailbox (n : note) : gostring * gostring :=
  match n with NewMessage u m _ _ | Expunged u m _ | FlagsChanged u m _ _ _ => (u, m) end.

Definition notified (n : note) w : World :=
  match selected (conn w) with
  | None => w
  | Some sel =>
      let '(u, m) := note_mailbox n in
      if negb (bool_decide (u = me w)) || negb (bool_decide (m = MbName (info sel))) then w
      else match n with
      | FlagsChanged _ _ uid _ flags =>
          match snapSeq (view (conn w)) uid with
          | Some q => WriteData (FormatUint q ++ " FETCH (UID " ++ FormatUint uid ++ " FLAGS (" ++ Join flags " " ++ "))") w
          | None => w
          end
      | _ => syncView w
      end
  end.

(** The client's line ends IDLE when the events that came before it are done. *)
Fixpoint idle_loop (events : list idle_event) w : World :=
  match events with
  | [] =>
      match readLine bufsize (input (conn w)) with
      | None => respond "OK IDLE terminated" (set_conn (set_input []) w)
      | Some (l, rest) =>
          let w := set_conn (set_input rest) w in
          if ToUpper (TrimSpace l) =s? "DONE" then respond "OK IDLE terminated" w else respond "BAD Expected DONE" w
      end
  | Others st :: r => idle_loop r (set_store (fun _ => st) w)
  | Notified n :: r => idle_loop r (notified n w)
  | IdleTimeout :: _ => Close (WriteData "BYE Autologout; idle for too long" w)
  | HubClosed :: _ => respond "OK IDLE terminated" w
  end.

Definition handleIdle (events : list idle_event) w : World :=
  match state (conn w), selected (conn w) with
  | StateNotAuthenticated, _ | StateLoggedOut, _ => respond "BAD Command not allowed in this state" w
  | _, None => respond "BAD no mailbox selected" w
  | _, Some _ => idle_loop events (syncView (WriteContinuation "idling" w))
  end.
End Messages.
