(* ===== verification/ImapSession.v ===== *)
(** * internal/imap: the session

    The command loop of server.go and the dispatch of commands.go.  [handle_line] is one
    round of [Handle]: a line is read, its literals are resolved, the command runs.  What
    the outside contributes to a command is an [Env]: the time, the address of the client,
    the outcome of a TLS handshake and what arrives on the new stream, the outcomes of
    writes, and the events of an IDLE.  A session that has ended is [StateLoggedOut]. *)
From S2P Require Import Prelude GoLib Utf8 Base64 Bolt ImapSeq ImapNames Scram BlobStore MailDb Threads ImapStore ImapMatch ImapSearch ImapFetch.
From S2P Require Import ImapConn ImapMailboxes ImapSort ImapMessages.

Record Env := {
  now : Z;
  ip : gostring;
  handshake : bool;
  after : gostring;
  io : Z -> IO;
  row : Z -> bool;
  events : list idle_event
}.

(** What the server is configured with. *)
Record Config := {
  bufsize : nat;
  tlsConfigUsable : bool;
  allowPlainAuth : bool;
  maxLoginAttempts : Z;
  lockoutDuration : Z;
  authFunc : gostring -> gostring -> option bool;
  walkKeys : gmap gostring (list Z) -> list gostring;
  expungeHook : bool;
  mdnHandler : bool;
  mdnRoom : bool;
  zone : MessageMetadata -> Z;
  walk : gmap gostring gostring -> list (gostring * gostring);
  quotaLimit : option (gostring -> Z);
  quotaAdjust : option (list (gostring * Z) -> gostring -> Z -> bool);
  junkReport : bool;
  pending : gostring -> gostring -> bool;
  iter : gmap gostring Z -> list (gostring * Z)
}.

Section Session.
Context {U : UnicodeTables} {N : Normalizer} {M : MimeStd} {T : MimeTree} {NM : NetMail} {C : Crypto}.
Context (cfg : Config).
Implicit Types (w : World) (e : Env) (command line : gostring) (args : list gostring).

Definition validTag (tag : gostring) : bool :=
  negb (bool_decide (tag = [])) &&
  forallb (fun c => (32 <? bz c) && (bz c <? 127) && negb (in_set ("(){%*" ++ [DQUOTE] ++ "\+") c)) tag.

Definition maxPreAuthIdleCommands : Z := 20.

(** The commands of a client that has not authenticated. *)
Definition not_authenticated e command args line w : World :=
  if command =s? "CAPABILITY" then handleCapability (tlsConfigUsable cfg) (allowPlainAuth cfg) w
  else if command =s? "STARTTLS" then handleStartTLS (tlsConfigUsable cfg) (handshake e) (after e) w
  else if command =s? "AUTHENTICATE" then
  handleAuthenticate (bufsize cfg) (allowPlainAuth cfg) (maxLoginAttempts cfg) (lockoutDuration cfg) (authFunc cfg) (walkKeys cfg) (now e) (ip e) args w
  else if command =s? "LOGIN" then
  handleLogin (allowPlainAuth cfg) (maxLoginAttempts cfg) (lockoutDuration cfg) (authFunc cfg) (walkKeys cfg) (now e) (ip e) args w
  else if command =s? "NOOP" then handleNoop w
  else if command =s? "LOGOUT" then handleLogout w
  else if command =s? "ID" then handleIDLine line w
  else respond "BAD Command not allowed in this state" w.
Definition handleNotAuthenticated e command args line w : World :=
  if (command =s? "NOOP") || (command =s? "CAPABILITY") then
  let w := set_conn (fun c => set_preAuth (preAuthIdleCmds c + 1) c) w in
  if maxPreAuthIdleCommands <? preAuthIdleCmds (conn w) then Close (WriteData "BYE Too many commands before authentication" w)
  else not_authenticated e command args line w
  else not_authenticated e command args line w.

(** The commands of both authenticated states. *)
Definition common_command e command args line w : option World :=
  if command =s? "CAPABILITY" then Some (handleCapability (tlsConfigUsable cfg) (allowPlainAuth cfg) w)
  else if command =s? "NOOP" then Some (handleNoop w)
  else if command =s? "LOGOUT" then Some (handleLogout w)
  else if command =s? "COMPRESS" then Some (handleCompress args (after e) w)
  else if command =s? "SELECT" then Some (handleSelect (zone cfg) (walk cfg) args w)
  else if command =s? "EXAMINE" then Some (handleExamine (zone cfg) (walk cfg) args w)
  else if command =s? "CREATE" then Some (handleCreate (now e) args w)
  else if command =s? "DELETE" then Some (handleDelete (quotaAdjust cfg) (pending cfg) (iter cfg) (now e) args w)
  else if command =s? "RENAME" then Some (handleRename (now e) args w)
  else if command =s? "SUBSCRIBE" then Some (handleSubscribe args w)
  else if command =s? "UNSUBSCRIBE" then Some (handleUnsubscribe args w)
  else if command =s? "LIST" then Some (handleListLine args line w)
  else if command =s? "LSUB" then Some (handleLsub args w)
  else if command =s? "STATUS" then Some (handleStatus args w)
  else if command =s? "APPEND" then
  Some (handleAppend (bufsize cfg) (quotaLimit cfg) (quotaAdjust cfg) (pending cfg) (iter cfg) (io e) (now e) args line w)
  else if command =s? "NAMESPACE" then Some (handleNamespace w)
  else if command =s? "IDLE" then Some (handleIdle (bufsize cfg) (events e) w)
  else if command =s? "ID" then Some (handleIDLine line w)
  else if command =s? "GETACL" then Some (handleGetACL args w)
  else if command =s? "SETACL" then Some (handleSetACL (now e) args w)
  else if command =s? "DELETEACL" then Some (handleDeleteACL args w)
  else if command =s? "MYRIGHTS" then Some (handleMyRights args w)
  else if command =s? "LISTRIGHTS" then Some (handleListRights args w)
  else None.

Definition handleAuthenticated e command args line w : World :=
  match common_command e command args line w with
  | Some w => w
  | None => if command =s? "ENABLE" then handleEnable args w else respond "BAD Command not recognized" w
  end.

Definition handleSelected e command args line w : World :=
  match common_command e command args line w with
  | Some w => w
  | None =>
      if command =s? "CHECK" then handleCheck w
      else if command =s? "CLOSE" then handleClose (quotaAdjust cfg) (pending cfg) (iter cfg) (now e) w
      else if command =s? "UNSELECT" then handleUnselect w
      else if command =s? "EXPUNGE" then handleExpunge (expungeHook cfg) (quotaAdjust cfg) (pending cfg) (iter cfg) (now e) w
      else if command =s? "SEARCH" then search_cmd (zone cfg) (walk cfg) args line false w
      else if command =s? "SORT" then sortCmd (zone cfg) (walk cfg) args line false w
      else if command =s? "THREAD" then threadCmd (zone cfg) (walk cfg) args line false w
      else if command =s? "FETCH" then handleFetch (mdnHandler cfg) (mdnRoom cfg) (zone cfg) args w
      else if command =s? "STORE" then handleStore (mdnHandler cfg) (mdnRoom cfg) args w
      else if command =s? "COPY" then
      handleCopy (quotaLimit cfg) (quotaAdjust cfg) (junkReport cfg) (pending cfg) (iter cfg) (io e) (now e) args w
      else if command =s? "MOVE" then
      handleMove (expungeHook cfg) (zone cfg) (walk cfg) (quotaLimit cfg) (quotaAdjust cfg) (junkReport cfg) (pending cfg) (iter cfg) (io e) (row e) (now e) args w
      else if command =s? "UID" then
      handleUID (expungeHook cfg) (mdnHandler cfg) (mdnRoom cfg) (zone cfg) (walk cfg) (quotaLimit cfg) (quotaAdjust cfg) (junkReport cfg)
      (pending cfg) (iter cfg) (io e) (row e) (now e) args line w
      else respond "BAD Command not recognized" w
  end.

Definition handleCommand e line w : World :=
  match Fields line with
  | t :: c :: rest =>
      if negb (validTag t) then WriteData "BAD Invalid command tag" w
      else
      let w := set_conn (set_tag t) w in
      let command := ToUpper c in
      let args := regroupArgs command line rest in
      match state (conn w) with
      | StateNotAuthenticated => handleNotAuthenticated e command args line w
      | StateAuthenticated => handleAuthenticated e command args line w
      | StateSelected =>
          let w := set_conn (fun c => set_syncOnTag (snapOn (view c) && syncAllowed command args) c) w in
          set_conn (set_syncOnTag false) (handleSelected e command args line w)
      | StateLoggedOut => w
      end
  | _ => set_conn (write [Tagged "BAD" "Command expected"]) w
  end.

Definition literal_reply (r : lit_reply) : reply :=
  match r with
  | Continuation => Continue "Ready for literal data"
  | ByeTooLarge => Untagged "BYE Literal too large"
  | BadTooBig t => Tagged t "BAD [TOOBIG] Literal too large"
  | BadContent t => Tagged t "BAD Literal with CR, LF or NUL is not supported here"
  end.

(** The first line of the input, with its end, is longer than a line may be. *)
Definition line_too_long (s : gostring) : bool :=
  maxCommandLineLength <? match IndexByte s (byte_of 10) with Some i => Z.of_nat (i + 1) | None => Z.of_nat (length s) end.

Definition handle_line e w : World :=
  if bool_decide (state (conn w) = StateLoggedOut) then w
  else match readLine (bufsize cfg) (input (conn w)) with
  | None => Close (if line_too_long (input (conn w)) then WriteData "BYE Command line too long" w else w)
  | Some (line, rest) =>
      let w := set_conn (set_input rest) w in
      if bool_decide (line = []) then w
      else
      let '(result, i, replies) := resolveLiterals (bufsize cfg) line rest in
      let w := set_conn (fun c => write (map literal_reply replies) (set_input i c)) w in
      match result with
      | LitLine line => handleCommand e line w
      | LitRefused => w
      | LitFatal | LitIoError => Close w
      end
  end.

(** [Handle], on the environments of its rounds. *)
Definition Handle (es : list Env) w : World := foldl (fun w e => handle_line e w) w es.

(** A connection from its greeting on. *)
Definition connect (tls : bool) (i : gostring) (st : MStore) (fl : gmap gostring (list Z)) : World := {|
  conn := greeting (tlsConfigUsable cfg) (allowPlainAuth cfg) (NewSession tls i); store := st; failures := fl; expunged := []; logins := [] |}.

(** ** Steps
    
    A round of the session, or other sessions at work on the store and on the table of
    failed logins. *)
Inductive session_step : World -> World -> Prop :=
  | SRound e w : session_step w (handle_line e w)
  | SOthers st fl w : session_step w {| conn := conn w; store := st; failures := fl; expunged := expunged w; logins := logins w |}.
End Session.
