(* ===== verification/ImapOwn.v ===== *)
(** * internal/imap: what a session may change

    [own u] relates two states of the mail store that agree on everything stored for users
    other than [u]: mailboxes, rows, floors, access rights, change journals, threads,
    subscriptions and message files.  Every operation of the mail store on behalf of
    a user stays inside it.  [quiet] lifts it to worlds: the state, the user and the
    selection of the session stay, or the session ends. *)
From S2P Require Import Prelude GoLib Utf8 Bolt ImapSeq ImapNames Scram BlobStore MailDb MailDbProps Threads ImapStore ImapMatch ImapSearch ImapFetch.
From S2P Require Import ImapConn.

Create HintDb own.

(** ** The mail store *)
Record own_of (v : gostring) (st st' : MStore) : Prop := {
  own_db : same_data v (db st) (db st');
  own_files id : msgStore st' !! (v, id) = msgStore st !! (v, id);
  own_subs : subscriptions (tdb st') !! subscribedBucket v = subscriptions (tdb st) !! subscribedBucket v;
  own_threads : threads (tdb st') !! threadBucket v = threads (tdb st) !! threadBucket v;
  own_res : reservations (tdb st') !! threadReservationBucket v = reservations (tdb st) !! threadReservationBucket v
}.
Definition own (u : gostring) (st st' : MStore) : Prop := forall v, u <> v -> own_of v st st'.

#[export] Instance own_refl u : Reflexive (own u).
Proof. intros st v _. by split. Qed.
#[export] Instance own_trans u : Transitive (own u).
Proof.
  intros a b c H K v Hv. destruct (H v Hv) as [H1 H2 H3 H4 H5], (K v Hv) as [K1 K2 K3 K4 K5]. split; intros; etrans; eauto.
Qed.

Lemma bucket_ne (p : gostring) u v : u <> v -> p ++ keyUser u <> p ++ keyUser v.
Proof. intros H E%app_inv_head. apply H. by apply keyUser_inj. Qed.

Section Own.
Context {U : UnicodeTables} {C : Crypto} {NM : NetMail} (u : gostring).
Context (quotaLimit : option (gostring -> Z)) (quotaAdjust : option (list (gostring * Z) -> gostring -> Z -> bool)).
Context (junkReport : bool) (pending : gostring -> gostring -> bool) (iter : gmap gostring Z -> list (gostring * Z)).
Implicit Types (st : MStore).

Lemma own_set_db f st : (forall v, u <> v -> same_data v (db st) (f (db st))) -> own u st (set_db f st).
Proof. intros H v Hv. split; try done. by apply H. Qed.
Lemma own_op o st : op_user o = u -> own u st (set_db (exec o) st).
Proof. intros E. apply own_set_db. intros v Hv. apply users_isolated. by rewrite E. Qed.
Lemma own_files_only f st : (forall v id, u <> v -> f (msgStore st) !! (v, id) = msgStore st !! (v, id)) -> own u st (set_files f st).
Proof. intros H v Hv. split; try done. intros. by apply H. Qed.
(** Logs of the store belong to nobody. *)
Lemma own_logs st st' : db st' = db st -> msgStore st' = msgStore st -> tdb st' = tdb st -> own u st st'.
Proof. intros E1 E2 E3 v _. split; intros; by rewrite ?E1, ?E2, ?E3. Qed.
Lemma own_tdb st td : (forall v, u <> v -> subscriptions td !! subscribedBucket v = subscriptions (tdb st) !! subscribedBucket v /\
  threads td !! threadBucket v = threads (tdb st) !! threadBucket v /\
  reservations td !! threadReservationBucket v = reservations (tdb st) !! threadReservationBucket v) -> own u st (set_tdb (fun _ => td) st).
Proof. intros H v Hv. destruct (H v Hv) as (H1 & H2 & H3). by split. Qed.

Lemma own_adjust d st : own u st (snd (adjustQuota quotaAdjust u d st)).
Proof. unfold adjustQuota. destruct quotaAdjust; [| done]. destruct (_ =? _); [done |]. by destruct (b _ _ _). Qed.

Lemma stored_lookup written now data fs v id : u <> v -> snd (storeMessageLocked written now u data fs) !! (v, id) = fs !! (v, id).
Proof.
  intros Hv. assert (forall j, (u, j) <> (v, id)) by congruence. unfold storeMessageLocked.
  repeat case_match; cbn; try done; by apply lookup_insert_ne.
Qed.
Lemma own_storeBlob written now data st : own u st (snd (storeBlob quotaLimit quotaAdjust written now u data st)).
Proof.
  unfold storeBlob. set (reserved := match quotaAdjust with Some _ => _ | None => _ end).
  pose proof (own_adjust reserved st) as H. destruct (adjustQuota quotaAdjust u reserved st) as [[] st1]; cbn in H; [| done].
  set (r := match quotaLimit with Some _ => _ | None => _ end).
  assert (Hf : forall v id, u <> v -> snd r !! (v, id) = msgStore st1 !! (v, id)).
  { intros v id Hv. assert (Hne : forall j, (u, j) <> (v, id)) by congruence. unfold r, StoreMessageWithQuota, StoreMessage.
    repeat case_match; cbn; try done; try (by apply stored_lookup); by apply lookup_insert_ne. }
  destruct r as [[id | e] fs]; cbn in *; (etrans; [exact H |]).
  - apply own_files_only. auto.
  - etrans; [| apply own_adjust]. apply own_files_only. auto.
Qed.

Lemma own_release_one c st : own u st (release_one quotaAdjust pending u c st).
Proof.
  unfold release_one. destruct c as [id size]. destruct (BlobReferenced _ _ _ _); [done |].
  unfold DeleteMessageUnchecked. repeat case_match; simplify_eq; try done; (etrans; [| apply own_adjust]; apply own_files_only; intros v j Hv;
    apply lookup_delete_ne; congruence).
Qed.
Lemma own_foldl {A : Type} (f : MStore -> A -> MStore) l st : (forall st x, own u st (f st x)) -> own u st (foldl f st l).
Proof. intros H. revert st. induction l as [| x l IH]; intros st; cbn [foldl]; [done |]. etrans; [apply H | apply IH]. Qed.
Lemma own_release refs st : own u st (releaseBlobsLocked quotaAdjust pending iter u refs st).
Proof. apply own_foldl. intros. apply own_release_one. Qed.

Lemma own_delete now k uid st : own u st (set_db (DeleteMessage now u k uid) st).
Proof. by apply (own_op (OpDeleteMessage now u k uid)). Qed.
Lemma own_store_row now k uid meta st : own u st (set_db (StoreMessageMetadata now u k uid meta) st).
Proof. by apply (own_op (OpStore now u k uid meta)). Qed.
Lemma own_update k uid fn d st : UpdateMessageMetadataFunc u k uid fn (db st) = Ok d -> own u st (set_db (fun _ => d) st).
Proof. intros H. pose proof (own_op (OpUpdate u k uid fn) st eq_refl) as Ho. intros v Hv. destruct (Ho v Hv) as [H1 H2 H3 H4 H5].
  split; try done. cbn [db set_db exec] in *. by rewrite H in H1. Qed.
Lemma own_next_uid now k uid d st : GetNextUID now u k (db st) = Ok (uid, d) -> own u st (set_db (fun _ => d) st).
Proof. intros H. pose proof (own_op (OpNextUID now u k) st eq_refl) as Ho. intros v Hv. destruct (Ho v Hv) as [H1 H2 H3 H4 H5].
  split; try done. cbn [db set_db exec] in *. by rewrite H in H1. Qed.

Lemma own_create now k st : own u st (snd (ms_CreateMailbox now u k st)).
Proof.
  unfold ms_CreateMailbox. pose proof (own_op (OpCreate now u k) st eq_refl) as Ho. cbn [exec] in Ho.
  destruct (CreateMailbox now u k (db st)) eqn:E; [| done]. intros v Hv. destruct (Ho v Hv) as [H1 H2 H3 H4 H5]. split; try done.
  cbn in *. by rewrite E in H1.
Qed.
Lemma own_rename now old new st : own u st (snd (ms_RenameMailbox now u old new st)).
Proof.
  unfold ms_RenameMailbox. pose proof (own_op (OpRename now u old new) st eq_refl) as Ho. cbn [exec] in Ho.
  destruct (RenameMailbox now u old new (db st)) eqn:E; [| done]. intros v Hv. destruct (Ho v Hv) as [H1 H2 H3 H4 H5]. split; try done.
  cbn in *. by rewrite E in H1.
Qed.
Lemma own_delete_mailbox now k st : own u st (snd (ms_DeleteMailbox quotaAdjust pending iter now u k st)).
Proof.
  unfold ms_DeleteMailbox. pose proof (own_op (OpDelete now u k) st eq_refl) as Ho. cbn [exec] in Ho.
  destruct (DeleteMailbox now u k (db st)) eqn:E; [| done]. cbn [snd]. etrans; [| apply own_release].
  intros v Hv. destruct (Ho v Hv) as [H1 H2 H3 H4 H5]. split; try done. cbn in *. by rewrite E in H1.
Qed.
Lemma own_select k clear st : own u st (snd (mailboxInfo u k clear st)).
Proof.
  unfold mailboxInfo. destruct (negb _ && _); [done |]. destruct (GetMailboxCounts _ _ _) as [[? ?] ?]. cbn [snd].
  destruct clear; [| done]. by apply (own_op (OpClearRecent u _)).
Qed.

Lemma own_foldl_pair {A B : Type} (f : B * MStore -> A -> B * MStore) l acc : (forall b st x, own u st (snd (f (b, st) x))) -> own u (snd acc) (snd (foldl f acc l)).
Proof.
  intros H. revert acc. induction l as [| x l IH]; intros [b st]; cbn [foldl]; [done |]. etrans; [apply (H b st x) | apply IH].
Qed.

Lemma own_rollback now k uids st : own u st (RollbackAppended quotaAdjust pending iter now u k uids st).
Proof.
  unfold RollbackAppended. match goal with |- context [foldl ?g _ _] => set (f := g) end.
  assert (H : forall l st rel, own u st (fst (foldl f (st, rel) l))).
  { induction l as [| x l IH]; intros st0 rel; cbn [foldl]; [done |]. unfold f at 2. etrans; [apply (own_delete now k x) | apply IH]. }
  specialize (H uids st []). destruct (foldl f (st, []) uids) as [st1 rel]. cbn in H. etrans; [exact H | apply own_release].
Qed.

Lemma own_store_one op flags k acc su : own u (snd acc) (snd (store_one op flags u k acc su)).
Proof.
  unfold store_one. destruct acc as [b st], su as [q uid]. destruct (UpdateMessageMetadataFunc _ _ _ _ _) eqn:E; [| done]. cbn [snd].
  etrans; [by eapply own_update |]. by apply own_logs.
Qed.
Lemma own_StoreFlags k set flags op st : own u st (snd (StoreFlags u k set flags op st)).
Proof.
  unfold StoreFlags. destruct (ParseSequenceSet set); [| done]. destruct (too_many _ _ _); [done |].
  pose proof (own_foldl_pair (store_one op (normalizeStoreFlags flags) u k) (selected_in a u k st) (false, st)
    (fun b st x => own_store_one _ _ _ (b, st) x)) as H. destruct (foldl _ _ _) as [b st']. exact H.
Qed.

Lemma own_expunge_one now k acc su : own u (snd acc) (snd (expunge_one now u k acc su)).
Proof. unfold expunge_one. destruct acc as [rm st], su as [q uid]. destruct (deleted _); [apply own_delete | done]. Qed.
Lemma own_ExpungeReport now k st : own u st (snd (ExpungeReport quotaAdjust pending iter now u k st)).
Proof.
  unfold ExpungeReport.
  pose proof (own_foldl_pair (expunge_one now u k) (numbered u k st) (nothing_removed, st) (fun b st x => own_expunge_one _ _ (b, st) x)) as H.
  destruct (foldl _ _ _) as [rm st']. cbn in *. etrans; [exact H |]. etrans; [apply own_release |]. by apply own_logs.
Qed.
Lemma own_ExpungeUIDs now k uids st : own u st (ExpungeUIDs quotaAdjust pending iter now u k uids st).
Proof.
  unfold ExpungeUIDs. match goal with |- context [foldl ?g _ _] => set (f := g) end.
  pose proof (own_foldl_pair f uids (nothing_removed, st)) as H. destruct (foldl f _ _) as [rm st'] eqn:E. cbn [snd] in H.
  etrans; [apply H; intros b s x; unfold f; destruct (deleted _); [apply own_delete | done] |].
  etrans; [apply own_release |]. by apply own_logs.
Qed.

Lemma own_mdn handler room id from data st : own u st (checkAndSendMDN handler room id from data st).
Proof. apply own_logs; unfold checkAndSendMDN; repeat case_match; done. Qed.
Lemma own_get_messages handler room k items sus st : own u st (snd (get_messages handler room u k items sus st)).
Proof.
  revert st. induction sus as [| [q uid] r IH]; intros st; cbn [get_messages]; [done |].
  assert (H : own u st (snd (getMessage handler room u k items (q, uid) st))).
  { unfold getMessage. cbn [snd]. repeat case_match; try done; apply own_mdn. }
  destruct (getMessage _ _ _ _ _ _ _) as [m st1]. cbn in H. specialize (IH st1). destruct (get_messages _ _ _ _ _ _ _) as [ms st2].
  cbn in *. by etrans.
Qed.
Lemma own_FetchMessages handler room k set items st : own u st (snd (FetchMessages handler room u k set items st)).
Proof.
  unfold FetchMessages. destruct (ParseSequenceSet set); [| done]. destruct (too_many _ _ _); [done |].
  pose proof (own_get_messages handler room k items (selected_in a u k st) st) as H. by destruct (get_messages _ _ _ _ _ _ _).
Qed.

(** ** Threads and subscriptions *)
Lemma sub_ne v : u <> v -> subscribedBucket u <> subscribedBucket v.
Proof. apply bucket_ne. Qed.
Lemma thr_ne v : u <> v -> threadBucket u <> threadBucket v.
Proof. apply bucket_ne. Qed.
Lemma res_ne v : u <> v -> threadReservationBucket u <> threadReservationBucket v.
Proof. apply bucket_ne. Qed.

Lemma own_subscribed k b st : own u st (set_tdb (SetSubscribed u k b) st).
Proof. intros v Hv. split; try done. cbn. by rewrite lookup_insert_ne by by apply sub_ne. Qed.
Lemma own_threadID now k subject irt refs id td st : GetOrCreateThreadID now u k subject irt refs (db st) (tdb st) = (id, td) -> own u st (set_tdb (fun _ => td) st).
Proof.
  unfold GetOrCreateThreadID. intros H. apply own_tdb. intros v Hv. repeat case_match; simplify_eq; split_and!; try done;
    cbn; by rewrite lookup_insert_ne by by apply res_ne.
Qed.
Lemma own_thread_info now meta st : own u st (updateThreadInfo now u meta st).
Proof.
  unfold updateThreadInfo, RecordMessageInThread. destruct (bool_decide _); [done |]. apply own_tdb. intros v Hv. split_and!; try done.
  cbn. by rewrite lookup_insert_ne by by apply thr_ne.
Qed.

(** ** APPEND, COPY and MOVE *)
Lemma own_append_locked io now k flags date data st : own u st (snd (append_locked quotaLimit quotaAdjust pending iter io now u k flags date data st)).
Proof.
  unfold append_locked. pose proof (own_storeBlob (file_written io) now data st) as H.
  destruct (storeBlob _ _ _ _ _ _ _) as [[id | e] st1]; cbn in H; [| done].
  destruct (GetNextUID now u k (db st1)) as [[uid d] | e] eqn:En; [| cbn; etrans; [exact H | apply own_release]].
  etrans; [exact H |]. etrans; [by eapply own_next_uid |]. clear H.
  destruct (parseMessageHeadersExtended data) as [h [[? irt] refs]].
  destruct (GetOrCreateThreadID _ _ _ _ _ _ _ _) as [tid td] eqn:Et. etrans; [by eapply own_threadID |].
  destruct (row_written io); cbn [snd]; [apply own_store_row | apply own_release].
Qed.
Lemma own_append io now k flags date data st : own u st (snd (AppendMessageUID quotaLimit quotaAdjust pending iter io now u k flags date data st)).
Proof.
  unfold AppendMessageUID. pose proof (own_append_locked io now k flags date data st) as H.
  destruct (append_locked _ _ _ _ _ _ _ _ _ _ _ _) as [[[uid meta] | e] st1]; cbn in H; [| done]. etrans; [exact H |].
  set (st2 := if bool_decide _ then _ else _). assert (own u st1 st2) by (unfold st2; destruct (bool_decide _); [done | apply own_thread_info]).
  destruct (_ <? _); cbn [snd]; [done |]. etrans; [done |]. by apply own_logs.
Qed.

Lemma own_copyOne io now src dst uid cp st : own u st (snd (copyOne quotaLimit quotaAdjust pending iter io now u src dst uid cp st)).
Proof.
  unfold copyOne. destruct (BlobStore.ReadMessage _ _ _) as [data | e]; [| done].
  destruct (GetNextUID now u dst (db st)) as [[nuid d] | e] eqn:En; [| done]. etrans; [by eapply own_next_uid |].
  pose proof (own_storeBlob (file_written io) now data (set_db (fun _ => d) st)) as H.
  destruct (storeBlob _ _ _ _ _ _ _) as [[id | e] st1]; cbn in H; [| done]. etrans; [exact H |].
  destruct (row_written io); cbn [snd]; [apply own_store_row | apply own_release].
Qed.
Lemma own_copy_all io now src dst uids cp st : own u st (snd (copy_all quotaLimit quotaAdjust pending iter io now u src dst uids cp st)).
Proof.
  revert cp st. induction uids as [| uid r IH]; intros cp st; cbn [copy_all]; [done |].
  pose proof (own_copyOne (io uid) now src dst uid cp st) as H. destruct (copyOne _ _ _ _ _ _ _ _ _ _ _ _) as [[cp' | e] st1]; cbn in *; (etrans; [exact H |]); [apply IH |].
  unfold undo_copies. etrans; [| apply own_release]. apply own_foldl. intros. apply own_delete.
Qed.
Lemma own_copy io now src dst set st : own u st (snd (CopyMessagesUIDs quotaLimit quotaAdjust junkReport pending iter io now u src dst set st)).
Proof.
  unfold CopyMessagesUIDs. destruct (ParseSequenceSet set); [| done]. destruct (too_many _ _ _); [done |].
  pose proof (own_copy_all io now src dst (map snd (selected_in a u src st)) nothing_copied st) as H.
  destruct (copy_all _ _ _ _ _ _ _ _ _ _ _ _) as [[cp | e] st1]; cbn in H; [| done].
  destruct (JunkMoveVerdict src dst) as [sp rep]. cbn [snd]. etrans; [exact H |]. destruct (rep && junkReport); [by apply own_logs | done].
Qed.
Lemma own_move io row now src dst set st : own u st (snd (MoveMessagesUIDs quotaLimit quotaAdjust junkReport pending iter io row now u src dst set st)).
Proof.
  unfold MoveMessagesUIDs. pose proof (own_copy io now src dst set st) as H.
  destruct (CopyMessagesUIDs _ _ _ _ _ _ _ _ _ _ _ _) as [[[[v s] d] | e] st1]; cbn in H; [| done].
  pose proof (own_foldl_pair (flag_moved now u src row) s (None, st1)) as Hf. etrans; [exact H |].
  assert (Hd : own u st1 (snd (foldl (flag_moved now u src row) (None, st1) s))).
  { apply Hf. intros b st2 x. unfold flag_moved. destruct b; [done |]. destruct (deleted _); [done |]. destruct (row x); [apply own_store_row | done]. }
  by destruct (foldl _ _ _) as [[e |] st2].
Qed.
End Own.

#[export] Hint Resolve own_refl own_create own_rename own_delete_mailbox own_select own_rollback own_StoreFlags own_ExpungeReport own_ExpungeUIDs
  own_FetchMessages own_subscribed own_append own_copy own_move : own.
