(* ===== verification/ImapQuiet.v ===== *)
(** * internal/imap: what commands do to the session

    [quiet] relates worlds whose session has the same state, user and selection (or has
    ended) and whose store differs only in the data of that user.  Every handler that
    neither authenticates nor selects or leaves a mailbox is quiet; the proofs follow
    the handlers with the tactic [quiet]. *)
From S2P Require Import Prelude GoLib Utf8 Bolt ImapSeq ImapNames Scram BlobStore MailDb MailDbProps Threads ImapStore ImapMatch ImapSearch ImapFetch.
From S2P Require Import ImapConn ImapMailboxes ImapSort ImapMessages ImapOwn.

Record quiet (w w' : World) : Prop := {
  q_state : state (conn w') = state (conn w) \/ state (conn w') = StateLoggedOut;
  q_user : user (conn w') = user (conn w);
  q_sel : selected (conn w') = selected (conn w);
  q_tls : tlsActive (conn w') = tlsActive (conn w);
  q_snap : snapOn (view (conn w')) = snapOn (view (conn w));
  q_own : own (me w) (store w) (store w')
}.
#[export] Instance quiet_refl : Reflexive quiet.
Proof. intros w. split; try done. by left. Qed.
#[export] Instance quiet_trans : Transitive quiet.
Proof.
  intros a b c [H1 H2 H3 H4 H5 H6] [K1 K2 K3 K4 K5 K6]. split; try congruence.
  - destruct H1 as [H1 | H1], K1 as [K1 | K1]; rewrite ?H1 in K1; auto.
  - etrans; [exact H6 |]. unfold me in *. by rewrite H2 in K6.
Qed.

(** ** Writing and reading *)
Lemma quiet_replies rs w : quiet w (set_conn (write rs) w).
Proof. split; try done. by left. Qed.
Lemma quiet_WriteData s w : quiet w (WriteData s w).
Proof. apply quiet_replies. Qed.
Lemma quiet_WriteContinuation s w : quiet w (WriteContinuation s w).
Proof. apply quiet_replies. Qed.
Lemma syncSelected_snapOn live v : snapOn (syncSelected live v) = snapOn v.
Proof. unfold syncSelected. repeat case_match; done. Qed.
Lemma quiet_sync w : quiet w (syncView w).
Proof. split; try done; [by left |]. unfold syncView. cbn. by rewrite syncSelected_snapOn. Qed.
Lemma quiet_syncOnTag b w : quiet w (set_conn (set_syncOnTag b) w).
Proof. split; try done. by left. Qed.
Lemma quiet_respond_with r w : quiet w (respond_with r w).
Proof.
  unfold respond_with. etrans; [| apply (quiet_replies _ (if syncOnTag (conn w) then syncView (set_conn (set_syncOnTag false) w) else w))].
  destruct (syncOnTag _); [| done]. etrans; [apply quiet_syncOnTag | apply quiet_sync].
Qed.
Lemma quiet_respond s w : quiet w (respond s w).
Proof. apply quiet_respond_with. Qed.
Lemma quiet_respond_err code e w : quiet w (respond_err code e w).
Proof. apply quiet_respond_with. Qed.
Lemma quiet_input i w : quiet w (set_conn (set_input i) w).
Proof. split; try done. by left. Qed.
Lemma quiet_drop n w : quiet w (set_conn (fun c => set_input (drop n (input c)) c) w).
Proof. split; try done. by left. Qed.
Lemma quiet_end w : quiet w (set_conn (set_state StateLoggedOut) w).
Proof. split; try done. by right. Qed.
Lemma quiet_Close w : quiet w (Close w).
Proof. apply quiet_end. Qed.
Lemma quiet_store f w : own (me w) (store w) (f (store w)) -> quiet w (set_store f w).
Proof. intros H. split; try done. by left. Qed.
Lemma quiet_expunged l w : quiet w (log_expunged l w).
Proof. split; try done. by left. Qed.
Lemma quiet_foldl {A : Type} (f : World -> A -> World) l w : (forall w x, quiet w (f w x)) -> quiet w (foldl f w l).
Proof. intros H. revert w. induction l as [| x l IH]; intros w; cbn [foldl]; [done |]. etrans; [apply H | apply IH]. Qed.
Lemma quiet_lines {A : Type} (f : A -> gostring) l w : quiet w (foldl (fun w x => WriteData (f x) w) w l).
Proof. apply quiet_foldl. intros. apply quiet_WriteData. Qed.

#[export] Hint Resolve quiet_respond quiet_respond_err quiet_WriteData quiet_WriteContinuation quiet_sync quiet_input quiet_Close quiet_lines quiet_expunged : own.

(** The last step of the goal's world is peeled off; a branch of the handler is a case. *)
Ltac quiet_step :=
  match goal with
  | |- quiet ?w ?w => reflexivity
  | |- quiet _ (respond _ ?x) => etrans; [| apply quiet_respond]
  | |- quiet _ (respond_err _ _ ?x) => etrans; [| apply quiet_respond_err]
  | |- quiet _ (WriteData _ ?x) => etrans; [| apply quiet_WriteData]
  | |- quiet _ (WriteContinuation _ ?x) => etrans; [| apply quiet_WriteContinuation]
  | |- quiet _ (Close ?x) => etrans; [| apply quiet_Close]
  | |- quiet _ (set_conn (set_input _) ?x) => etrans; [| apply quiet_input]
  | |- quiet _ (log_expunged _ ?x) => etrans; [| apply quiet_expunged]
  | |- quiet _ (foldl (fun w y => WriteData _ w) ?x _) => etrans; [| apply quiet_lines]
  | |- quiet _ (let '(_, _) := ?x in _) => destruct x eqn:?
  | |- quiet _ (match ?x with _ => _ end) => destruct x eqn:?
  | |- quiet _ (snd (match ?x with _ => _ end)) => destruct x eqn:?
  end.
Ltac quiet := intros; repeat quiet_step; try (done || eauto with own).

(** The state an operation returns belongs to the user if the operation does. *)
Lemma own_snd {A : Type} u st (r : A * MStore) a st' : r = (a, st') -> own u st (snd r) -> own u st st'.
Proof. by intros ->. Qed.
Ltac own_result :=
  match goal with
  | H : _ = (_, ?st) |- own _ _ ?st => apply (own_snd _ _ _ _ _ H); eauto with own
  | |- own _ _ (?f _) => cbn; eauto with own
  end.
(** A guard that only answers. *)
Ltac refused := match goal with |- quiet _ (if ?b then _ else _) => destruct b eqn:?; [solve [quiet] |] end.
Ltac quiet_stored := etrans; [| apply quiet_store; own_result].

Section Mailboxes.
Context {U : UnicodeTables} {N : Normalizer} {M : MimeStd}.
Context (zone : MessageMetadata -> Z) (walk : gmap gostring gostring -> list (gostring * gostring)).
Context (quotaAdjust : option (list (gostring * Z) -> gostring -> Z -> bool)).
Context (pending : gostring -> gostring -> bool) (iter : gmap gostring Z -> list (gostring * Z)).
Implicit Types (w : World).

Lemma quiet_with_mbox arg w k : (forall name w, quiet w (k name w)) -> quiet w (with_mbox arg w k).
Proof. intros H. unfold with_mbox. destruct (mboxArg _ _); [apply H | quiet]. Qed.
Lemma quiet_stored_result r ok w : own (me w) (store w) (snd r) -> quiet w (stored r ok w).
Proof. intros H. unfold stored. destruct r as [[e |] st]; quiet; by apply quiet_store. Qed.

Lemma quiet_create now args w : quiet w (handleCreate now args w).
Proof.
  unfold handleCreate. destruct args; [quiet |]. apply quiet_with_mbox. quiet. apply quiet_stored_result. eauto with own.
Qed.
Lemma quiet_delete now args w : quiet w (handleDelete quotaAdjust pending iter now args w).
Proof.
  unfold handleDelete. destruct args; [quiet |]. apply quiet_with_mbox. quiet. apply quiet_stored_result. eauto with own.
Qed.

Lemma own_rename_all now u moves st : own u st (snd (rename_all now u moves st)).
Proof.
  revert st. induction moves as [| [a b] r IH]; intros st; cbn [rename_all]; [done |].
  pose proof (own_rename u now a b st) as H. destruct (ms_RenameMailbox now u a b st) as [[e |] st1]; [done |]. etrans; [exact H | apply IH].
Qed.
Lemma own_move_subscriptions u moves st : own u st (set_tdb (move_subscriptions u moves) st).
Proof.
  change (set_tdb (move_subscriptions u moves) st) with (set_tdb (fun _ => move_subscriptions u moves (tdb st)) st).
  unfold move_subscriptions. cbv zeta. generalize (ListSubscribed u (tdb st)). intros subs.
  match goal with |- context [foldl ?f _ _] => set (F := f) end.
  enough (H : forall t, own u (set_tdb (fun _ => t) st) (set_tdb (fun _ => foldl F t moves) st)).
  { specialize (H (tdb st)). by destruct st. }
  induction moves as [| [a b] r IH]; intros t; cbn [foldl]; [done |]. etrans; [| apply IH]. unfold F at 1. destruct (has_name a subs); [| done].
  etrans; [apply (own_subscribed u a false) | apply (own_subscribed u b true)].
Qed.
Lemma quiet_rename now args w : quiet w (handleRename now args w).
Proof.
  unfold handleRename. destruct args as [| a [| b args]]; [quiet | quiet |]. apply quiet_with_mbox. intros old w0. destruct (old =s? _); [quiet |].
  apply quiet_with_mbox. intros new w1. destruct (checkNewMailboxName new) as [to |]; [| quiet].
  cbv zeta. repeat refused. destruct (child_moves _ _ _ _) as [ms |]; [| quiet].
  pose proof (own_rename_all now (me w1) ((old, to) :: ms) (store w1)) as H. destruct (rename_all _ _ _ _) as [[e |] st]; cbn in H; quiet;
    apply quiet_store; [done |]. etrans; [exact H | apply own_move_subscriptions].
Qed.

Lemma quiet_subscribe args w : quiet w (handleSubscribe args w).
Proof. unfold handleSubscribe. destruct args; [quiet |]. apply quiet_with_mbox. quiet. apply quiet_store. eauto with own. Qed.
Lemma quiet_unsubscribe args w : quiet w (handleUnsubscribe args w).
Proof. unfold handleUnsubscribe. destruct args; [quiet |]. apply quiet_with_mbox. quiet. apply quiet_store. eauto with own. Qed.
Lemma quiet_list args line w : quiet w (handleListLine args line w).
Proof. unfold handleListLine. quiet. Qed.
Lemma quiet_lsub args w : quiet w (handleLsub args w).
Proof. unfold handleLsub. quiet. apply quiet_foldl. intros w0 []. quiet. Qed.
Lemma quiet_status args w : quiet w (handleStatus args w).
Proof.
  unfold handleStatus. destruct args as [| a [| b args]]; [quiet | quiet |]. apply quiet_with_mbox. intros name w0.
  repeat refused. destruct (mapM _ _); [| quiet].
  unfold examineMailbox, ExamineMailbox. pose proof (own_select (me w0) name false (store w0)) as H. destruct (mailboxInfo _ _ _ _) as [[mb | e] st]; quiet; by apply quiet_store.
Qed.

Lemma quiet_getacl args w : quiet w (handleGetACL args w).
Proof. unfold handleGetACL. quiet. Qed.
(** Only the owner's entries are written: a name with another owner is refused. *)
Lemma owner_is_user mailbox w owner mb shared : parseOwnerMailbox mailbox w = (owner, mb, shared) ->
  shared && negb (bool_decide (owner = me w)) = false -> owner = me w.
Proof.
  unfold parseOwnerMailbox. destruct (SplitN2 mailbox ":") as [a [b |]]; intros [= <- <- <-] H; [| done].
  cbn in H. by apply negb_false_iff, bool_decide_eq_true in H.
Qed.
Lemma quiet_setacl now args w : quiet w (handleSetACL now args w).
Proof.
  unfold handleSetACL. destruct args as [| a [| b [| c args]]]; [quiet | quiet | quiet |]. destruct (parseOwnerMailbox a w) as [[owner mb] shared] eqn:E.
  destruct (shared && _) eqn:Es; [quiet |]. apply (owner_is_user _ _ _ _ _ E) in Es as ->. destruct (negb _); [quiet |].
  destruct (ParseACLRights c) as [[rights neg] |]; [| quiet]. quiet. apply quiet_store, own_set_db. intros v Hv. by apply iso_set_acl.
Qed.
Lemma quiet_deleteacl args w : quiet w (handleDeleteACL args w).
Proof.
  unfold handleDeleteACL. destruct args as [| a [| b args]]; [quiet | quiet |]. destruct (parseOwnerMailbox a w) as [[owner mb] shared] eqn:E.
  destruct (shared && _) eqn:Es; [quiet |]. apply (owner_is_user _ _ _ _ _ E) in Es as ->. quiet.
  apply quiet_store, own_set_db. intros v Hv. by apply iso_delete_acl.
Qed.
Lemma quiet_myrights args w : quiet w (handleMyRights args w).
Proof. unfold handleMyRights. quiet. Qed.
Lemma quiet_listrights args w : quiet w (handleListRights args w).
Proof. unfold handleListRights. quiet. Qed.
Lemma quiet_namespace w : quiet w (handleNamespace w).
Proof. unfold handleNamespace. quiet. Qed.
Lemma quiet_enable args w : quiet w (handleEnable args w).
Proof. unfold handleEnable. quiet. Qed.
Lemma quiet_id line w : quiet w (handleIDLine line w).
Proof. unfold handleIDLine. quiet. Qed.
End Mailboxes.

Section Messages.
Context {U : UnicodeTables} {N : Normalizer} {M : MimeStd} {T : MimeTree} {NM : NetMail} {C : Crypto}.
Context (bufsize : nat) (expungeHook : bool) (mdnHandler mdnRoom : bool).
Context (zone : MessageMetadata -> Z) (walk : gmap gostring gostring -> list (gostring * gostring)).
Context (quotaLimit : option (gostring -> Z)) (quotaAdjust : option (list (gostring * Z) -> gostring -> Z -> bool)).
Context (junkReport : bool) (pending : gostring -> gostring -> bool) (iter : gmap gostring Z -> list (gostring * Z)).
Implicit Types (w : World).

(** ** SORT, THREAD and SEARCH *)
Lemma quiet_parse_error e w : quiet w (writeSearchParseError e w).
Proof. unfold writeSearchParseError. destruct e; quiet. Qed.
Lemma quiet_with_matches toks failed w k : (forall w, quiet w (failed w)) -> (forall m l w, quiet w (k m l w)) -> quiet w (with_matches zone walk toks failed w k).
Proof.
  intros Hf Hk. unfold with_matches. destruct (selected _); [| quiet]. destruct (parseSearchProgram toks); [| apply quiet_parse_error].
  destruct (evalSearch _ _ _ _ _ _ _ _) as [l | []]; unfold panic; quiet.
Qed.
Lemma quiet_sort args line uid w : quiet w (sortCmd zone walk args line uid w).
Proof.
  unfold sortCmd. destruct (selected _); [| quiet]. destruct (commandArgTokens _ _ _) as [| t toks]; [quiet |]. refused.
  destruct (criteria_args toks) as [cs rest]. destruct rest as [| charset [| key keys]]; [quiet | quiet |]. refused.
  destruct (parseSortCriteria cs); [| quiet]. apply quiet_with_matches; quiet.
Qed.
Lemma quiet_thread args line uid w : quiet w (threadCmd zone walk args line uid w).
Proof.
  unfold threadCmd. destruct (selected _); [| quiet]. destruct (commandArgTokens _ _ _) as [| algo [| charset [| key keys]]]; [quiet | quiet | quiet |].
  cbv zeta. refused. refused. apply quiet_with_matches; quiet.
Qed.
Lemma quiet_search args line uid w : quiet w (search_cmd zone walk args line uid w).
Proof. unfold search_cmd. destruct (handleSearchWithUIDs _ _ _ _ _ _ _ _ _ _ _); try solve [unfold panic; quiet]. apply quiet_parse_error. Qed.

(** ** Continuations *)
Lemma quiet_no e w : quiet w (respond_no e w).
Proof. unfold respond_no. quiet. Qed.
Lemma quiet_copyDestination arg w k : (forall name w, quiet w (k name w)) -> quiet w (copyDestination arg w k).
Proof. intros H. apply quiet_with_mbox. intros. repeat quiet_step; auto. Qed.
Lemma quiet_rejectReadOnly w k : (forall sel w, quiet w (k sel w)) -> quiet w (rejectReadOnly w k).
Proof. intros H. unfold rejectReadOnly. repeat quiet_step; auto. Qed.
Lemma quiet_with_line w k : (forall l w, quiet w (k l w)) -> quiet w (with_line bufsize w k).
Proof. intros H. unfold with_line. destruct (readLine _ _) as [[l rest] |]; [| quiet]. etrans; [apply quiet_input | apply H]. Qed.
Lemma quiet_transfer set dest sel w k : (forall live dest w, quiet w (k live dest w)) -> quiet w (with_transfer set dest sel w k).
Proof. intros H. unfold with_transfer. refused. destruct (live_set _ _ _); [| quiet]. apply quiet_copyDestination. auto. Qed.
Lemma quiet_by_uid args w k : (forall a w, quiet w (k a w)) -> quiet w (by_uid args w k).
Proof. intros H. unfold by_uid. destruct args; [apply H |]. destruct (selected _); [| apply H]. destruct (uidSetToSeqSet _ _ _); [apply H | quiet]. Qed.

(** ** APPEND *)
Lemma quiet_discard n w : quiet w (discardLiteral bufsize n w).
Proof.
  unfold discardLiteral. destruct (_ <? _); [etrans; [apply quiet_WriteData | apply quiet_end] |]. destruct (_ <? _); [quiet |].
  etrans; [apply quiet_drop |]. apply quiet_with_line. quiet.
Qed.
Lemma quiet_read_message size line w k : (forall d w, quiet w (k d w)) -> quiet w (read_message size line w k).
Proof.
  intros H. unfold read_message. destruct (non_sync line); cbv zeta; [| etrans; [apply (quiet_WriteContinuation ("Ready for " ++ FormatUint size ++ " octets")) |]];
    refused; (etrans; [apply quiet_input | apply H]).
Qed.
Lemma quiet_more fuel now msgs total w k : (forall l n w, quiet w (k l n w)) -> quiet w (more_messages bufsize fuel now msgs total w k).
Proof.
  intros H. revert msgs total w. induction fuel as [| f IH]; intros msgs total w; cbn [more_messages]; [done |].
  destruct (readLine _ _) as [[rest i] |]; [| quiet]. etrans; [apply (quiet_input i) |]. set (w1 := set_conn (set_input i) w).
  destruct (bool_decide _); [apply H |].
  assert (Hs : forall w, quiet w (match trailingLiteral rest with Some (_, n, true) => discardLiteral bufsize n w | _ => w end)).
  { intros w2. destruct (trailingLiteral rest) as [[[? n] []] |]; [apply quiet_discard | done | done]. }
  destruct (parseAppendParams _ _ _) as [[[flags date] size] |]; [| etrans; [| apply Hs]; quiet].
  destruct (_ =? _); [etrans; [| apply Hs]; quiet |]. destruct (_ || _); [etrans; [| apply Hs]; quiet |].
  apply quiet_read_message. intros d w2. apply IH.
Qed.
Lemma quiet_append_all io now mailbox i msgs v uids w : quiet w (append_all quotaLimit quotaAdjust pending iter io now mailbox i msgs v uids w).
Proof.
  revert i v uids w. induction msgs as [| m r IH]; intros i v uids w; cbn [append_all]; [quiet |].
  pose proof (own_append (me w) quotaLimit quotaAdjust pending iter (io i) now mailbox (aflags m) (adate m) (adata m) (store w)) as H.
  destruct (AppendMessageUID _ _ _ _ _ _ _ _ _ _ _ _) as [[[v' uid] | e] st]; cbn in H.
  - etrans; [by apply (quiet_store (fun _ => st)) | apply IH].
  - etrans; [| apply quiet_no]. etrans; [by apply (quiet_store (fun _ => st)) |]. destruct (bool_decide _); [done |].
    apply quiet_store. apply own_rollback.
Qed.
Lemma quiet_append io now args line w : quiet w (handleAppend bufsize quotaLimit quotaAdjust pending iter io now args line w).
Proof.
  unfold handleAppend. assert (H : quiet w (fst (handleAppendInner bufsize quotaLimit quotaAdjust pending iter io now args line w))).
  { unfold handleAppendInner. destruct args as [| a [| b args]]; [quiet | quiet |]. destruct (mboxArg _ _) as [name0 |]; [| quiet].
    destruct (parseAppendParams _ _ _) as [[[flags date] size] |]; [| quiet]. destruct (_ =? _); [quiet |]. destruct (_ <? _); [quiet |].
    apply quiet_read_message. intros d w1. apply quiet_more. intros ms n w2. apply quiet_copyDestination. intros name w3.
    match goal with |- quiet _ (match ?x with _ => _ end) => destruct x end; [apply quiet_no | apply quiet_append_all]. }
  destruct (handleAppendInner _ _ _ _ _ _ _ _ _ _) as [w1 []]; cbn in H; [done |].
  destruct (trailingLiteral line) as [[[? n] []] |]; [| done | done]. etrans; [exact H | apply quiet_discard].
Qed.

(** ** EXPUNGE *)
Lemma quiet_expunge_lines seqs w : quiet w (expunge_lines seqs w).
Proof. unfold expunge_lines. quiet. Qed.
Lemma quiet_hook mailbox uids w : quiet w (call_hook expungeHook mailbox uids w).
Proof. unfold call_hook. quiet. Qed.
Lemma quiet_expunge now w : quiet w (handleExpunge expungeHook quotaAdjust pending iter now w).
Proof.
  apply quiet_rejectReadOnly. intros sel w0. cbv zeta.
  pose proof (own_ExpungeReport (me w0) quotaAdjust pending iter now (MbName (info sel)) (store w0)) as H.
  destruct (ExpungeReport _ _ _ _ _ _ _) as [[seqs uids] st]. cbn in H. etrans; [| apply quiet_respond]. etrans; [| apply quiet_expunge_lines].
  etrans; [| apply quiet_hook]. by apply quiet_store.
Qed.

(** ** FETCH and STORE *)
Lemma quiet_fetchSel sel set items w : quiet w (snd (fetchSel mdnHandler mdnRoom sel set items w)).
Proof.
  unfold fetchSel. destruct (live_set _ _ _); [| done].
  pose proof (own_FetchMessages (me w) mdnHandler mdnRoom (MbName (info sel)) a items (store w)) as H.
  destruct (FetchMessages _ _ _ _ _ _ _) as [[msgs | e] st]; cbn [snd] in *; by apply (quiet_store (fun _ => st)).
Qed.
Lemma quiet_storeSel sel set flags op w : quiet w (snd (storeSel sel set flags op w)).
Proof.
  unfold storeSel. destruct (live_set _ _ _); [| done].
  pose proof (own_StoreFlags (me w) (MbName (info sel)) a flags op (store w)) as H. destruct (StoreFlags _ _ _ _ _ _) as [e st]. by apply (quiet_store (fun _ => st)).
Qed.
Lemma quiet_see_all sel items msgs w : quiet w (snd (see_all sel items msgs w)).
Proof.
  unfold see_all. destruct (_ && _); [| done].
  assert (H : forall l acc, quiet (snd acc) (snd (foldl (see_one sel) acc l))).
  { induction l as [| m l IH]; intros [[done_ seen] w0]; cbn [foldl]; [done |]. etrans; [| apply IH]. unfold see_one. destruct (hasFlag _ _); [done |].
    pose proof (quiet_storeSel sel (FormatUint (SeqNum m)) ["\Seen" : gostring] FlagAdd w0) as Hq. by destruct (storeSel _ _ _ _ _) as [[e |] w1]. }
  apply (H msgs ([], false, w)).
Qed.
Lemma quiet_fetch args uid w : quiet w (fetch mdnHandler mdnRoom zone args uid w).
Proof.
  unfold fetch. destruct args as [| a [| b args]]; [quiet | quiet |]. destruct (selected (conn w)) as [sel |]; [| quiet]. cbv zeta.
  destruct (unknownFetchItem _); [quiet |]. refused.
  match goal with |- context [fetchSel _ _ _ _ ?items _] => pose proof (quiet_fetchSel sel a items w) as H end.
  destruct (fetchSel _ _ _ _ _ _) as [[msgs | e] w1]; cbn in H; [| quiet]. etrans; [exact H |].
  destruct (missing_section _ _); [quiet |]. match goal with |- context [see_all _ ?items ?l ?x] => pose proof (quiet_see_all sel items l x) as Hs end.
  destruct (see_all _ _ _ _) as [[ms seen] w2]. quiet.
Qed.
Lemma quiet_store_cmd args uid w : quiet w (store_cmd mdnHandler mdnRoom args uid w).
Proof.
  unfold store_cmd. destruct args as [| a [| op [| b args]]]; [quiet | quiet | quiet |]. apply quiet_rejectReadOnly. intros sel w0. cbv zeta.
  destruct (checkFlags _); [| quiet]. destruct (store_operation _); [| quiet]. refused.
  match goal with |- context [storeSel _ ?s ?f ?o ?x] => pose proof (quiet_storeSel sel s f o x) as H end.
  destruct (storeSel _ _ _ _ _) as [[e |] w1]; cbn in H; [quiet |]. etrans; [| apply quiet_respond]. etrans; [exact H |]. destruct (HasSuffix _ _); [done |].
  pose proof (quiet_fetchSel sel a ["FLAGS" : gostring] w1) as Hf. destruct (fetchSel _ _ _ _ _ _) as [[msgs | e] w2]; cbn in Hf; [| done]. quiet.
Qed.

(** ** COPY, MOVE and UID EXPUNGE *)
Lemma quiet_copy io now args w : quiet w (handleCopy quotaLimit quotaAdjust junkReport pending iter io now args w).
Proof.
  unfold handleCopy. destruct args as [| a [| b args]]; [quiet | quiet |]. destruct (selected _) as [sel |]; [| quiet].
  apply quiet_transfer. intros live dest w0.
  pose proof (own_copy (me w0) quotaLimit quotaAdjust junkReport pending iter io now (MbName (info sel)) dest live (store w0)) as H.
  destruct (CopyMessagesUIDs _ _ _ _ _ _ _ _ _ _ _ _) as [[[[v s] d] | e] st]; cbn in H; (etrans; [| apply quiet_no || apply quiet_respond]); by apply quiet_store.
Qed.
Lemma quiet_subset now sel want w : quiet w (snd (expungeUIDSubset expungeHook zone walk quotaAdjust pending iter now sel want w)).
Proof.
  unfold expungeUIDSubset. destruct (SearchMessages _ _ _ _ _ _) as [[| q l] | e]; [done | | done]. destruct (too_many _ _ _); [done |]. cbv zeta.
  destruct (bool_decide _); [done |]. cbn [snd]. etrans; [| apply quiet_expunge_lines]. etrans; [| apply quiet_hook]. apply quiet_store. apply own_ExpungeUIDs.
Qed.
Lemma quiet_move io row now args w : quiet w (handleMove expungeHook zone walk quotaLimit quotaAdjust junkReport pending iter io row now args w).
Proof.
  unfold handleMove. destruct args as [| a [| b args]]; [quiet | quiet |]. apply quiet_rejectReadOnly. intros sel w0. apply quiet_transfer. intros live dest w1.
  pose proof (own_move (me w1) quotaLimit quotaAdjust junkReport pending iter io row now (MbName (info sel)) dest live (store w1)) as H.
  destruct (MoveMessagesUIDs _ _ _ _ _ _ _ _ _ _ _ _ _) as [[[[v s] d] | e] st]; cbn in H; [| etrans; [| apply quiet_no]; by apply quiet_store].
  etrans; [by apply (quiet_store (fun _ => st)) |]. set (w2 := set_store _ _). cbv zeta. set (w3 := if reports_uids v s d then WriteData (copyuid "Moved" v s d) w2 else w2).
  assert (H3 : quiet w2 w3) by (unfold w3; quiet). etrans; [exact H3 |].
  destruct (bool_decide (s = [])); [quiet |].
  pose proof (quiet_subset now sel (fun uid => bool_decide (uid ∈ s)) w3) as Hs. destruct (expungeUIDSubset _ _ _ _ _ _ _ _ _ _) as [[e |] w4]; quiet.
Qed.
Lemma quiet_uid_expunge now args w : quiet w (handleUIDExpunge expungeHook zone walk quotaAdjust pending iter now args w).
Proof.
  unfold handleUIDExpunge. destruct args as [| a args]; [quiet |]. apply quiet_rejectReadOnly. intros sel w0. destruct (ParseSequenceSet a); [| quiet]. refused.
  cbv zeta. match goal with |- context [expungeUIDSubset _ _ _ _ _ _ _ _ ?want ?x] => pose proof (quiet_subset now sel want x) as H end.
  destruct (expungeUIDSubset _ _ _ _ _ _ _ _ _ _) as [[e |] w1]; quiet.
Qed.

Lemma quiet_uid io row now args line w :
  quiet w (handleUID expungeHook mdnHandler mdnRoom zone walk quotaLimit quotaAdjust junkReport pending iter io row now args line w).
Proof.
  unfold handleUID. destruct args as [| c args]; [quiet |]. cbv zeta.
  repeat match goal with |- quiet _ (if ?b then _ else _) => destruct b end;
    try (apply quiet_by_uid; intros); auto using quiet_fetch, quiet_store_cmd, quiet_copy, quiet_move, quiet_search, quiet_sort, quiet_thread, quiet_uid_expunge.
  quiet.
Qed.
End Messages.
