(* ===== verification/ImapSessionProps.v ===== *)
(** * internal/imap: correctness of the session

    The state machine of a connection: who is authenticated, when a mailbox is selected,
    and whose data a command can change. *)
From S2P Require Import Prelude GoLib Utf8 Base64 Bolt ImapSeq ImapNames Scram BlobStore MailDb MailDbProps Threads ImapStore ImapMatch ImapSearch ImapFetch.
From S2P Require Import ImapConn ImapMailboxes ImapSort ImapMessages ImapSession ImapOwn ImapQuiet.

(** The session is what it was, or has ended. *)
Record steady (w w' : World) : Prop := {
  s_state : state (conn w') = state (conn w) \/ state (conn w') = StateLoggedOut;
  s_user : user (conn w') = user (conn w);
  s_sel : selected (conn w') = selected (conn w);
  s_tls : tlsActive (conn w') = tlsActive (conn w);
  s_snap : snapOn (view (conn w')) = snapOn (view (conn w))
}.
#[export] Instance steady_refl : Reflexive steady.
Proof. intros w. split; try done. by left. Qed.
#[export] Instance steady_trans : Transitive steady.
Proof.
  intros a b c [H1 H2 H3 H4 H5] [K1 K2 K3 K4 K5]. split; try congruence. destruct H1 as [H1 | H1], K1 as [K1 | K1]; rewrite ?H1 in K1; auto.
Qed.
Lemma quiet_steady w w' : quiet w w' -> steady w w'.
Proof. intros []. by split. Qed.
Lemma steady_store f w : steady w (set_store f w).
Proof. split; try done. by left. Qed.

Section Props.
Context {U : UnicodeTables} {N : Normalizer} {M : MimeStd} {T : MimeTree} {NM : NetMail} {C : Crypto}.
Context (cfg : Config).
Implicit Types (w : World) (e : Env).

(** ** Authentication *)
(** The session's user has shown a password, and no password went over a connection
    that may not carry one. *)
Definition verified w : Prop :=
  (tlsActive (conn w) || allowPlainAuth cfg = true) /\ exists p, authFunc cfg (user (conn w)) p = Some true.
Definition session_inv w : Prop :=
  match state (conn w) with
  | StateNotAuthenticated => user (conn w) = [] /\ selected (conn w) = None
  | StateAuthenticated => verified w /\ selected (conn w) = None
  | StateSelected => verified w /\ is_Some (selected (conn w)) /\ snapOn (view (conn w)) = true
  | StateLoggedOut => True
  end.

Lemma inv_steady w w' : session_inv w -> steady w w' -> session_inv w'.
Proof.
  unfold session_inv, verified. intros H [[E | E] E1 E2 E3 E4]; rewrite E; [| done]. by rewrite E1, E2, E3, E4.
Qed.
Lemma inv_ended w : session_inv (Close w).
Proof. done. Qed.

(** What a login can do: the session and the store stay, or the user whose password was
    checked is logged in. *)
Definition login_result w w' : Prop :=
  (steady w w' /\ store w' = store w) \/
  (exists u p, authFunc cfg u p = Some true /\ state (conn w') = StateAuthenticated /\ user (conn w') = u /\
    selected (conn w') = selected (conn w) /\ tlsActive (conn w') = tlsActive (conn w) /\ own u (store w) (store w')).

Lemma store_respond s w : store (respond s w) = store w.
Proof. unfold respond, respond_with, syncView. by destruct (syncOnTag _). Qed.
Lemma steady_respond s w : steady w (respond s w).
Proof. apply quiet_steady, quiet_respond. Qed.
Lemma login_kept s w w' : steady w w' -> store w' = store w -> login_result w (respond s w').
Proof. intros H E. left. split; [etrans; [exact H | apply steady_respond] | by rewrite store_respond]. Qed.

Lemma steady_failures f w : steady w (set_failures f w).
Proof. split; try done. by left. Qed.
Lemma steady_login l w : steady w (log_login l w).
Proof. split; try done. by left. Qed.
Lemma lockedKey_world now key limit w b w1 : lockedKey (maxLoginAttempts cfg) (lockoutDuration cfg) now key limit w = (b, w1) -> steady w w1 /\ store w1 = store w.
Proof. unfold lockedKey. destruct (_ <=? 0); intros [= <- <-]; [done |]. split; [apply steady_failures | done]. Qed.
Lemma recordKey_world now key w : let w1 := recordKey (maxLoginAttempts cfg) (lockoutDuration cfg) (walkKeys cfg) now key w in steady w w1 /\ store w1 = store w.
Proof. unfold recordKey. destruct (_ <=? 0); [done |]. split; [apply steady_failures | done]. Qed.

Lemma authenticateUser_result now ip u p ok bad w :
  login_result w (authenticateUser (maxLoginAttempts cfg) (lockoutDuration cfg) (authFunc cfg) (walkKeys cfg) now ip u p ok bad w).
Proof.
  unfold authenticateUser, isAuthLockedOut. destruct (lockedKey _ _ now ip _ w) as [b w1] eqn:E1. apply lockedKey_world in E1 as [H1 S1].
  assert (Hlog : forall w2 l s, steady w w2 -> store w2 = store w -> login_result w (log_login l (respond s w2))).
  { intros w2 l s H E. left. split; [| by rewrite <- E, <- (store_respond s w2)]. etrans; [exact H |]. etrans; [apply steady_respond | apply steady_login]. }
  destruct b; [by apply Hlog |]. destruct (normalizeUsername u) as [u' |]; [| by apply login_kept].
  unfold isUserLockedOut. destruct (lockedKey _ _ now (authUserKey u') _ w1) as [b w2] eqn:E2. apply lockedKey_world in E2 as [H2 S2].
  assert (H12 : steady w w2) by (by etrans). assert (S12 : store w2 = store w) by congruence. destruct b; [by apply Hlog |].
  destruct (authFunc cfg u' (normalizePassword p)) as [[] |] eqn:Ea.
  2,3: unfold recordUserFailure, recordAuthFailure; destruct (recordKey_world now ip w2) as [H3 S3]; set (w3 := recordKey _ _ _ now ip w2) in *;
    destruct (recordKey_world now (authUserKey u') w3) as [H4 S4]; apply Hlog; [by etrans; [| etrans] | congruence].
  right. exists u', (normalizePassword p). destruct H12 as [_ _ Hs Ht _]. cbv zeta.
  match goal with |- context [respond _ ?x] => set (w5 := x) end. destruct (quiet_respond ("OK " ++ ok) w5) as [_ Ku Ks Kt _ _].
  split_and!; [done | | by rewrite Ku | by rewrite Ks | by rewrite Kt |].
  - unfold respond, respond_with, syncView. by destruct (syncOnTag _).
  - rewrite store_respond. unfold w5. cbn. rewrite S12. apply own_create.
Qed.

Lemma login_after w w1 w2 : steady w w1 -> store w1 = store w -> login_result w1 w2 -> login_result w w2.
Proof.
  intros H S [[H1 S1] | (u & p & Ha & E1 & E2 & E3 & E4 & Ho)]; [left; split; [by etrans | congruence] |].
  right. destruct H as [_ _ Hs Ht _]. exists u, p. rewrite <- S. split_and!; try done; congruence.
Qed.
Lemma login_line w k : (forall l w, login_result w (k l w)) -> login_result w (with_line (bufsize cfg) w k).
Proof.
  intros H. unfold with_line. destruct (readLine _ _) as [[l r] |]; [| left; split; [apply quiet_steady, quiet_input | done]].
  eapply login_after; [apply quiet_steady, (quiet_input r) | done | apply H].
Qed.
Lemma login_continue s w k : (forall l w, login_result w (k l w)) -> login_result w (with_line (bufsize cfg) (WriteContinuation s w) k).
Proof. intros H. eapply login_after; [apply quiet_steady, (quiet_WriteContinuation s) | done | by apply login_line]. Qed.
Lemma login_answer s w : login_result w (respond s w).
Proof. by apply login_kept. Qed.

Lemma plain_result now ip creds w :
  login_result w (plain_credentials (maxLoginAttempts cfg) (lockoutDuration cfg) (authFunc cfg) (walkKeys cfg) now ip creds w).
Proof.
  unfold plain_credentials. destruct (SplitN3 _ _) as [[[a b] c] |]; [| apply login_answer]. destruct (_ && _); [apply login_answer | apply authenticateUser_result].
Qed.
Lemma authPlain_result now ip args w :
  login_result w (handleAuthPlain (bufsize cfg) (maxLoginAttempts cfg) (lockoutDuration cfg) (authFunc cfg) (walkKeys cfg) now ip args w).
Proof.
  unfold handleAuthPlain. cbv zeta.
  assert (Hd : forall s w, login_result w (match decode StdEncoding s with
    | None => respond "NO Invalid base64 in AUTHENTICATE PLAIN" w
    | Some creds => plain_credentials (maxLoginAttempts cfg) (lockoutDuration cfg) (authFunc cfg) (walkKeys cfg) now ip creds w end)).
  { intros s w0. destruct (decode _ _); [apply plain_result | apply login_answer]. }
  destruct args as [| a r]; [| destruct (bool_decide _)]; try apply Hd; apply login_continue; intros l w0; (destruct (l =s? _); [apply login_answer | apply Hd]).
Qed.
Lemma authLogin_result now ip w :
  login_result w (handleAuthLogin (bufsize cfg) (maxLoginAttempts cfg) (lockoutDuration cfg) (authFunc cfg) (walkKeys cfg) now ip w).
Proof.
  apply login_continue. intros l w0. destruct (l =s? _); [apply login_answer |]. destruct (decode _ _) as [name |]; [| apply login_answer].
  apply login_continue. intros l1 w1. destruct (l1 =s? _); [apply login_answer |]. destruct (decode _ _); [apply authenticateUser_result | apply login_answer].
Qed.
(** Credentials are read only where the connection may carry them. *)
Definition may_login w w' : Prop := login_result w w' /\ (steady w w' \/ tlsActive (conn w) || allowPlainAuth cfg = true).
Lemma refused_login s w : may_login w (respond s w).
Proof. split; [apply login_answer | left; apply steady_respond]. Qed.

Lemma login_cmd_result now ip args w :
  may_login w (handleLogin (allowPlainAuth cfg) (maxLoginAttempts cfg) (lockoutDuration cfg) (authFunc cfg) (walkKeys cfg) now ip args w).
Proof.
  unfold handleLogin. destruct args as [| a [| b args]]; [apply refused_login | apply refused_login |].
  destruct (negb _ && negb _) eqn:E; [apply refused_login |]. split; [apply authenticateUser_result |]. right.
  by rewrite <- negb_orb, negb_false_iff in E.
Qed.
Lemma authenticate_result now ip args w :
  may_login w (handleAuthenticate (bufsize cfg) (allowPlainAuth cfg) (maxLoginAttempts cfg) (lockoutDuration cfg) (authFunc cfg) (walkKeys cfg) now ip args w).
Proof.
  unfold handleAuthenticate. destruct args as [| m rest]; [apply refused_login |].
  destruct (negb _ && negb _) eqn:E; [apply refused_login |]. rewrite <- negb_orb, negb_false_iff in E.
  destruct (_ =s? _); [split; [apply authPlain_result | by right] |]. destruct (_ =s? _); [split; [apply authLogin_result | by right] |]. apply refused_login.
Qed.

Lemma inv_login w w' : state (conn w) = StateNotAuthenticated -> session_inv w -> may_login w w' -> session_inv w'.
Proof.
  intros E Hi [Hl Ht]. destruct Hl as [[H _] | (u & p & Ha & E1 & E2 & E3 & E4 & _)]; [by eapply inv_steady |].
  destruct Ht as [Ht | Ht]; [by eapply inv_steady |]. unfold session_inv in *. rewrite E in Hi. rewrite E1. unfold verified. rewrite E2, E3, E4.
  split; [split; [done | by exists p] | by destruct Hi].
Qed.

(** ** Selecting and leaving a mailbox *)
Lemma enter_state mb ro w : let w' := enter_mailbox mb ro w in
  state (conn w') = StateSelected /\ user (conn w') = user (conn w) /\ selected (conn w') = Some {| info := mb; ReadOnly := ro |} /\
  tlsActive (conn w') = tlsActive (conn w) /\ snapOn (view (conn w')) = true /\ store w' = store w.
Proof. done. Qed.

Definition in_session w : Prop := state (conn w) = StateAuthenticated \/ state (conn w) = StateSelected.
Lemma inv_verified w : in_session w -> session_inv w -> verified w.
Proof. unfold session_inv. intros [E | E]; rewrite E; tauto. Qed.

(** SELECT and EXAMINE: nothing happens to the session, it has the mailbox open, or it
    has none. *)
Definition select_result (ro : bool) w w' : Prop :=
  own (me w) (store w) (store w') /\
  (steady w w' \/
    (user (conn w') = user (conn w) /\ tlsActive (conn w') = tlsActive (conn w) /\
      ((exists mb, state (conn w') = StateSelected /\ selected (conn w') = Some {| info := mb; ReadOnly := ro |} /\ snapOn (view (conn w')) = true) \/
        (state (conn w') = (if bool_decide (state (conn w) = StateSelected) then StateAuthenticated else state (conn w)) /\ selected (conn w') = None)))).

Lemma select_data_quiet mb flags w : quiet w (select_data (zone cfg) (walk cfg) mb flags w).
Proof. unfold select_data. cbv zeta. repeat (etrans; [| apply quiet_WriteData]). destruct (0 <? _); repeat (etrans; [| apply quiet_WriteData]); done. Qed.
Lemma select_by_quiet ro w w1 w2 : quiet w1 w2 -> (state (conn w2) = state (conn w1)) -> select_result ro w w1 -> me w1 = me w -> select_result ro w w2.
Proof.
  intros Hq E [Ho H] Em. pose proof (quiet_steady _ _ Hq) as Hs. destruct Hq as [_ Hu Hsel Ht Hv Hown]. rewrite Em in Hown. split; [by etrans |].
  destruct H as [H | (H1 & H2 & H)]; [left; by etrans |]. right. rewrite Hu, Ht. split_and!; try done. rewrite E, Hsel, Hv. done.
Qed.

Lemma state_respond s w : state (conn (respond s w)) = state (conn w).
Proof. unfold respond, respond_with, syncView. by destruct (syncOnTag _). Qed.
Lemma state_respond_err c er w : state (conn (respond_err c er w)) = state (conn w).
Proof. unfold respond_err, respond_with, syncView. by destruct (syncOnTag _). Qed.
Lemma state_select_data mb flags w : state (conn (select_data (zone cfg) (walk cfg) mb flags w)) = state (conn w).
Proof. unfold select_data. cbv zeta. by destruct (0 <? _). Qed.

Lemma select_info ro (get : gostring -> World -> result mstore_error MailboxInfo * MStore) flags ok a w :
  (forall name w, own (me w) (store w) (snd (get name w))) ->
  select_result ro w (with_mbox a w (fun name w =>
    match get name w with
    | (Err er, st) => respond_err "NO" (CStore er) (set_conn deselect (set_store (fun _ => st) w))
    | (Ok mb, st) => respond ok (select_data (zone cfg) (walk cfg) mb flags (enter_mailbox mb ro (set_store (fun _ => st) w)))
    end)).
Proof.
  intros Hg. unfold with_mbox. destruct (mboxArg _ a) as [name |]; [| split; [by rewrite store_respond | left; apply steady_respond]].
  specialize (Hg name w). destruct (get name w) as [[mb | er] st]; cbn in Hg.
  - eapply select_by_quiet; [apply quiet_respond | apply state_respond | | unfold me; by rewrite (q_user _ _ (select_data_quiet _ _ _))].
    eapply select_by_quiet; [apply select_data_quiet | apply state_select_data | | done].
    split; [exact Hg |]. right. split_and!; try done. left. by exists mb.
  - eapply select_by_quiet; [apply quiet_respond_err | apply state_respond_err | |].
    + split; [exact Hg |]. right. unfold deselect. cbn. destruct (bool_decide _) eqn:Eb; cbn; rewrite ?Eb; split_and!; try done; right; done.
    + unfold me, deselect. cbn. by destruct (bool_decide _).
Qed.
Lemma select_cmd args w : select_result false w (handleSelect (zone cfg) (walk cfg) args w).
Proof.
  unfold handleSelect. destruct args as [| a args]; [split; [by rewrite store_respond | left; apply steady_respond] |].
  apply (select_info false (fun name w => SelectMailbox (me w) name (store w))). intros. apply own_select.
Qed.
Lemma examine_cmd args w : select_result true w (handleExamine (zone cfg) (walk cfg) args w).
Proof.
  unfold handleExamine. destruct args as [| a args]; [split; [by rewrite store_respond | left; apply steady_respond] |].
  apply (select_info true examineMailbox). intros. apply own_select.
Qed.
Lemma inv_select ro w w' : in_session w -> session_inv w -> select_result ro w w' -> session_inv w'.
Proof.
  intros Hs Hi [_ [H | (Eu & Et & H)]]; [by eapply inv_steady |]. pose proof (inv_verified w Hs Hi) as Hv. unfold session_inv, verified in *. rewrite Eu, Et.
  destruct H as [(mb & E1 & E2 & E3) | [E1 E2]]; rewrite E1, E2; [by eauto |]. destruct Hs as [E | E]; rewrite E; [rewrite bool_decide_false by done | rewrite bool_decide_true by done]; done.
Qed.

(** CLOSE and UNSELECT. *)
Lemma own_leave now w : own (me w) (store w) (store (handleClose (quotaAdjust cfg) (pending cfg) (iter cfg) now w)).
Proof. unfold handleClose. rewrite store_respond. cbn. destruct (selected _) as [sel |]; [| done]. destruct (ReadOnly sel); [done | apply own_ExpungeReport]. Qed.
Lemma inv_leave w w1 s : in_session w -> session_inv w -> user (conn w1) = user (conn w) -> tlsActive (conn w1) = tlsActive (conn w) ->
  session_inv (respond s (set_conn leave_mailbox w1)).
Proof.
  intros Hs Hi Eu Et. pose proof (inv_verified w Hs Hi) as Hv. destruct (quiet_respond s (set_conn leave_mailbox w1)) as [_ Ku Ks Kt _ _].
  unfold session_inv. rewrite state_respond. cbn [state conn set_conn leave_mailbox set_state]. rewrite Ks. split; [| done].
  unfold verified in *. rewrite Ku, Kt. cbn. by rewrite Eu, Et.
Qed.
Lemma close_user now w : let w' := handleClose (quotaAdjust cfg) (pending cfg) (iter cfg) now w in user (conn w') = user (conn w).
Proof. unfold handleClose. rewrite (q_user _ _ (quiet_respond _ _)). cbn. destruct (selected _) as [sel |]; [| done]. by destruct (ReadOnly sel). Qed.

(** ** IDLE *)
Definition alone (evs : list idle_event) : Prop := Forall (fun ev => match ev with Others _ => False | _ => True end) evs.
Lemma notified_quiet n w : quiet w (notified n w).
Proof. unfold notified. quiet. Qed.
Lemma idle_steady evs w : steady w (idle_loop (bufsize cfg) evs w).
Proof.
  revert w. induction evs as [| ev evs IH]; intros w; cbn [idle_loop].
  - destruct (readLine _ _) as [[l r] |]; apply quiet_steady; quiet.
  - destruct ev; [etrans; [apply (steady_store (fun _ => st)) | apply IH] | etrans; [apply quiet_steady, notified_quiet | apply IH] | |]; apply quiet_steady; quiet.
Qed.
Lemma idle_quiet evs w : alone evs -> quiet w (idle_loop (bufsize cfg) evs w).
Proof.
  intros H. revert w. induction H as [| ev evs Hev H IH]; intros w; cbn [idle_loop]; [quiet |].
  destruct ev; [done | etrans; [apply notified_quiet | apply IH] | quiet | quiet].
Qed.
Lemma idle_cmd_steady evs w : steady w (handleIdle (bufsize cfg) evs w).
Proof.
  unfold handleIdle. assert (H : steady w (idle_loop (bufsize cfg) evs (syncView (WriteContinuation "idling" w)))).
  { etrans; [apply quiet_steady, (quiet_WriteContinuation "idling") |]. etrans; [apply quiet_steady, quiet_sync | apply idle_steady]. }
  destruct (state (conn w)), (selected (conn w)); try exact H; apply steady_respond.
Qed.
Lemma idle_cmd_quiet evs w : alone evs -> quiet w (handleIdle (bufsize cfg) evs w).
Proof.
  intros Ha. unfold handleIdle. assert (H : quiet w (idle_loop (bufsize cfg) evs (syncView (WriteContinuation "idling" w)))).
  { etrans; [apply (quiet_WriteContinuation "idling") |]. etrans; [apply quiet_sync | by apply idle_quiet]. }
  destruct (state (conn w)), (selected (conn w)); try exact H; apply quiet_respond.
Qed.

(** ** Commands *)
(** The invariant is kept, and only the data of the user the session then has is
    touched. *)
Definition acts e w w' : Prop :=
  (session_inv w -> session_inv w') /\ (alone (events e) -> own (me w') (store w) (store w')).

Lemma acts_quiet e w w' : quiet w w' -> acts e w w'.
Proof.
  intros H. split; [intros Hi; eapply inv_steady; [exact Hi | by apply quiet_steady] |]. intros _. unfold me. rewrite (q_user _ _ H). apply (q_own _ _ H).
Qed.
Lemma acts_after e w w1 w2 : quiet w w1 -> store w1 = store w -> acts e w1 w2 -> acts e w w2.
Proof.
  intros Hq Hs [H1 H2]. split; [intros Hi; apply H1; eapply inv_steady; [exact Hi | by apply quiet_steady] |]. intros Ha. rewrite <- Hs. by apply H2.
Qed.
Lemma acts_before e w w1 w2 : quiet w1 w2 -> acts e w w1 -> acts e w w2.
Proof.
  intros Hq [H1 H2]. split; [intros Hi; eapply inv_steady; [by apply H1 | by apply quiet_steady] |]. intros Ha. unfold me in *.
  etrans; [rewrite (q_user _ _ Hq); by apply H2 |]. rewrite (q_user _ _ Hq). apply (q_own _ _ Hq).
Qed.
Lemma acts_login e w w' : state (conn w) = StateNotAuthenticated -> may_login w w' -> acts e w w'.
Proof.
  intros E H. split; [intros Hi; by eapply inv_login |]. intros _. destruct H as [[[_ Hs] | (u & p & _ & _ & Hu & _ & _ & Ho)] _]; [by rewrite Hs |].
  unfold me. by rewrite Hu.
Qed.
Lemma acts_select e ro w w' : in_session w -> select_result ro w w' -> acts e w w'.
Proof.
  intros Hs H. split; [intros Hi; by eapply inv_select |]. intros _. destruct H as [Ho H]. unfold me in *.
  destruct H as [[_ Hu _ _ _] | [Hu _]]; by rewrite Hu.
Qed.
Lemma acts_close e now w : in_session w -> acts e w (handleClose (quotaAdjust cfg) (pending cfg) (iter cfg) now w).
Proof.
  intros Hs. split; [| intros _; unfold me; rewrite close_user; apply own_leave]. intros Hi. unfold handleClose.
  apply (inv_leave w); try done; destruct (selected _) as [sel |]; try done; by destruct (ReadOnly sel).
Qed.
Lemma acts_unselect e w : in_session w -> acts e w (handleUnselect w).
Proof.
  intros Hs. split; [intros Hi; by apply (inv_leave w) |]. intros _. unfold handleUnselect. by rewrite store_respond.
Qed.
Lemma acts_logout e w : acts e w (handleLogout w).
Proof. apply acts_quiet. unfold handleLogout. quiet. Qed.
Lemma acts_starttls e w : state (conn w) = StateNotAuthenticated -> acts e w (handleStartTLS (tlsConfigUsable cfg) (handshake e) (after e) w).
Proof.
  intros E. unfold handleStartTLS. destruct (tlsActive _); [apply acts_quiet; quiet |]. destruct (negb _); [apply acts_quiet; quiet |].
  destruct (negb _); [apply acts_quiet; quiet |]. destruct (handshake e); [| apply acts_quiet; quiet].
  eapply acts_after; [apply (quiet_respond "OK Begin TLS negotiation now") | apply store_respond |].
  set (w1 := respond _ w). assert (E1 : state (conn w1) = StateNotAuthenticated) by (unfold w1; by rewrite state_respond).
  split; [| done]. unfold session_inv. cbn [state conn set_conn set_input set_transport]. by rewrite E1.
Qed.
Lemma acts_compress e args w : acts e w (handleCompress args (after e) w).
Proof.
  unfold handleCompress. destruct (compressActive _); [apply acts_quiet; quiet |]. destruct (negb _); [apply acts_quiet; quiet |].
  destruct (negb _); [apply acts_quiet; quiet |]. apply acts_quiet. etrans; [apply (quiet_respond "OK Compression active") |]. split; try done. by left.
Qed.

Lemma acts_not_authenticated e command args line w : state (conn w) = StateNotAuthenticated -> acts e w (handleNotAuthenticated cfg e command args line w).
Proof.
  intros E. assert (H : forall w, state (conn w) = StateNotAuthenticated -> acts e w (not_authenticated cfg e command args line w)).
  { clear w E. intros w E. unfold not_authenticated, handleCapability, handleNoop.
    repeat match goal with |- acts _ _ (if ?b then _ else _) => destruct b end;
      auto using acts_starttls, acts_logout, acts_login, login_cmd_result, authenticate_result; apply acts_quiet; quiet. apply quiet_id. }
  unfold handleNotAuthenticated. destruct (_ || _); [| by apply H]. cbv zeta. set (w1 := set_conn _ w).
  assert (Hq : quiet w w1) by (split; try done; by left).
  destruct (_ <? _); [apply acts_quiet; etrans; [exact Hq | quiet] |]. eapply acts_after; [exact Hq | done | by apply H].
Qed.

Lemma acts_common e command args line w w' : in_session w -> common_command cfg e command args line w = Some w' -> acts e w w'.
Proof.
  intros Hs H. unfold common_command, handleCapability, handleNoop in H.
  repeat match goal with H : (if ?b then _ else _) = Some _ |- _ => destruct b end; simplify_eq;
    try (apply acts_quiet; eauto using quiet_create, quiet_delete, quiet_rename, quiet_subscribe, quiet_unsubscribe, quiet_list, quiet_lsub,
    quiet_status, quiet_append, quiet_namespace, quiet_id, quiet_getacl, quiet_setacl, quiet_deleteacl, quiet_myrights, quiet_listrights; solve [quiet]).
  - apply acts_logout.
  - apply acts_compress.
  - eapply acts_select; [done | apply select_cmd].
  - eapply acts_select; [done | apply examine_cmd].
  - split; [intros Hi; eapply inv_steady; [done | apply idle_cmd_steady] |]. intros Ha. apply (acts_quiet e), Ha. by apply idle_cmd_quiet.
Qed.

Lemma acts_selected e command args line w : in_session w -> acts e w (handleSelected cfg e command args line w).
Proof.
  intros Hs. unfold handleSelected. destruct (common_command _ _ _ _ _ _) eqn:E; [by eapply acts_common |]. unfold handleCheck, handleFetch, handleStore.
  repeat match goal with |- acts _ _ (if ?b then _ else _) => destruct b end; auto using acts_close, acts_unselect; apply acts_quiet;
    auto using quiet_expunge, quiet_search, quiet_sort, quiet_thread, quiet_fetch, quiet_store_cmd, quiet_copy, quiet_move, quiet_uid; quiet.
Qed.
Lemma acts_authenticated e command args line w : in_session w -> acts e w (handleAuthenticated cfg e command args line w).
Proof.
  intros Hs. unfold handleAuthenticated. destruct (common_command _ _ _ _ _ _) eqn:E; [by eapply acts_common |].
  destruct (_ =s? _); apply acts_quiet; [apply quiet_enable | quiet].
Qed.

Lemma quiet_sync_flag f w : quiet w (set_conn (fun c => set_syncOnTag (f c) c) w).
Proof. split; try done. by left. Qed.
Lemma acts_command e line w : acts e w (handleCommand cfg e line w).
Proof.
  unfold handleCommand. destruct (Fields line) as [| t [| c rest]]; [apply acts_quiet, quiet_replies | apply acts_quiet, quiet_replies |].
  destruct (negb _); [apply acts_quiet; quiet |]. cbv zeta. set (w1 := set_conn (set_tag t) w).
  assert (Hq : quiet w w1) by (split; try done; by left). eapply acts_after; [exact Hq | done |].
  destruct (state (conn w1)) eqn:E; [by apply acts_not_authenticated | apply acts_authenticated; by left | | done].
  eapply acts_before; [apply quiet_syncOnTag |]. eapply acts_after; [apply quiet_sync_flag | done | apply acts_selected; by right].
Qed.
Lemma acts_line e w : acts e w (handle_line cfg e w).
Proof.
  unfold handle_line. destruct (bool_decide _); [by apply acts_quiet |].
  destruct (readLine _ _) as [[line rest] |]; [| apply acts_quiet; quiet]. cbv zeta. destruct (bool_decide _); [apply acts_quiet; quiet |].
  destruct (resolveLiterals _ _ _) as [[r i] replies]. set (w1 := set_conn _ (set_conn _ w)). assert (Hq : quiet w w1) by (split; try done; by left).
  destruct r; [| by apply acts_quiet | apply acts_quiet; etrans; [exact Hq | quiet] | apply acts_quiet; etrans; [exact Hq | quiet]].
  eapply acts_after; [exact Hq | done | apply acts_command].
Qed.

Lemma inv_reachable tls i st fl w : star (session_step cfg) (connect cfg tls i st fl) w -> session_inv w.
Proof.
  apply star_invariant; [done |]. intros a b Hi Hs. destruct Hs as [e w0 | st' fl' w0]; [by apply (acts_line e w0) | done].
Qed.

(** C7: only verified users act.  Whatever bytes a client sends and whatever other
    sessions do meanwhile, a session in an authenticated state belongs to a user whose
    password the server has checked, over a connection that may carry passwords; a
    mailbox is open exactly in the selected state, and then the session has its snapshot
    of it. *)
Theorem session_authenticated tls i st fl w : star (session_step cfg) (connect cfg tls i st fl) w -> in_session w ->
  (tlsActive (conn w) || allowPlainAuth cfg = true) /\ (exists p, authFunc cfg (user (conn w)) p = Some true) /\
  (state (conn w) = StateSelected <-> is_Some (selected (conn w))) /\ (state (conn w) = StateSelected -> snapOn (view (conn w)) = true).
Proof.
  intros H Hs. pose proof (inv_reachable _ _ _ _ _ H) as Hi. destruct (inv_verified w Hs Hi) as [H1 H2]. split; [done |]. split; [done |].
  unfold session_inv in Hi. destruct Hs as [E | E]; rewrite E in Hi |- *; destruct Hi as [_ Hi].
  - rewrite Hi. split; [split; [done | by intros []] | done].
  - destruct Hi as [Hi1 Hi2]. done.
Qed.

(** C8: a command works on its user's data only.  One round of the command loop changes
    nothing that is stored for anyone but the user of the session: no mailbox, message,
    flag, UID counter, access right, journal entry, thread, subscription or message file
    of another user, for every line, literal and environment. *)
Theorem session_touches_own_data e w : alone (events e) ->
  own (user (conn (handle_line cfg e w))) (store w) (store (handle_line cfg e w)).
Proof. intros H. by apply (acts_line e w). Qed.
End Props.
