(* ===== verification/ImapReadOnly.v ===== *)
(** * internal/imap: what message commands change

    A mailbox opened with EXAMINE is not changed by any command on its messages; STORE
    changes the flags of exactly the messages its set names in the session's numbering. *)
From S2P Require Import Prelude GoLib Utf8 Base64 Bolt ImapSeq ImapNames Scram BlobStore MailDb MailDbProps Threads ImapStore ImapMatch ImapSearch ImapFetch.
From S2P Require Import ImapBodies ImapStoreProps ImapConn ImapMailboxes ImapSort ImapMessages ImapSession ImapOwn ImapQuiet ImapSessionProps.

(** The mailboxes, messages, bodies, threads and subscriptions are the same. *)
Record still (w w' : World) : Prop := {
  still_db : db (store w') = db (store w);
  still_files : msgStore (store w') = msgStore (store w);
  still_tdb : tdb (store w') = tdb (store w)
}.
#[export] Instance still_refl : Reflexive still.
Proof. by split. Qed.
#[export] Instance still_trans : Transitive still.
Proof. intros a b c [] []. split; congruence. Qed.
Lemma still_store w w' : store w' = store w -> still w w'.
Proof. intros E. split; by rewrite E. Qed.
Lemma still_respond s w : still w (respond s w).
Proof. apply still_store, store_respond. Qed.
Lemma still_respond_err c e w : still w (respond_err c e w).
Proof. apply still_store. unfold respond_err, respond_with, syncView. by destruct (syncOnTag _). Qed.
Lemma still_lines {A : Type} (f : A -> gostring) l w : still w (foldl (fun w x => WriteData (f x) w) w l).
Proof. revert w. induction l as [| x l IH]; intros w; cbn [foldl]; [done |]. etrans; [| apply IH]. by apply still_store. Qed.
#[export] Hint Resolve still_respond still_respond_err : own.

Section ReadOnly.
Context {U : UnicodeTables} {N : Normalizer} {M : MimeStd} {T : MimeTree} {NM : NetMail} {C : Crypto}.
Context (cfg : Config).
Implicit Types (w : World) (e : Env).

Lemma still_readonly w k sel : selected (conn w) = Some sel -> ReadOnly sel = true -> still w (rejectReadOnly w k).
Proof. intros E R. unfold rejectReadOnly. rewrite E, R. apply still_respond. Qed.

Lemma mdn_still handler room id from data st : let st' := checkAndSendMDN handler room id from data st in db st' = db st /\ msgStore st' = msgStore st /\ tdb st' = tdb st.
Proof. unfold checkAndSendMDN. repeat case_match; done. Qed.
Lemma get_messages_still handler room u k items sus st :
  let st' := snd (get_messages handler room u k items sus st) in db st' = db st /\ msgStore st' = msgStore st /\ tdb st' = tdb st.
Proof.
  revert st. induction sus as [| [q uid] r IH]; intros st; cbn [get_messages]; [done |].
  assert (H : let st' := snd (getMessage handler room u k items (q, uid) st) in db st' = db st /\ msgStore st' = msgStore st /\ tdb st' = tdb st).
  { unfold getMessage. cbn [snd]. destruct (if existsb needs_data items then _ else _); [| done]. destruct (existsb marks_seen items); [apply mdn_still | done]. }
  destruct (getMessage _ _ _ _ _ _ _) as [m st1]. cbn in H. specialize (IH st1). destruct (get_messages _ _ _ _ _ _ _) as [ms st2].
  cbn in *. destruct H as (A1 & A2 & A3), IH as (B1 & B2 & B3). split_and!; congruence.
Qed.
Lemma fetchSel_still handler room sel set items w : still w (snd (fetchSel handler room sel set items w)).
Proof.
  unfold fetchSel. destruct (live_set _ _ _); [| done]. unfold FetchMessages. destruct (ParseSequenceSet a); [| done]. destruct (too_many _ _ _); [done |].
  match goal with |- context [get_messages ?h ?r ?u ?k ?i ?l ?st] => pose proof (get_messages_still h r u k i l st) as H end.
  destruct (get_messages _ _ _ _ _ _ _) as [ms st]. by destruct H as (? & ? & ?).
Qed.
Lemma fetch_still args uid w sel : selected (conn w) = Some sel -> ReadOnly sel = true -> still w (fetch (mdnHandler cfg) (mdnRoom cfg) (zone cfg) args uid w).
Proof.
  intros E R. unfold fetch. destruct args as [| a [| b args]]; [apply still_respond | apply still_respond |]. rewrite E. cbv zeta.
  destruct (unknownFetchItem _); [apply still_respond_err |]. destruct (negb _ && _); [apply still_respond |].
  match goal with |- context [fetchSel _ _ _ _ ?items _] => pose proof (fetchSel_still (mdnHandler cfg) (mdnRoom cfg) sel a items w) as H end.
  destruct (fetchSel _ _ _ _ _ _) as [[msgs | er] w1]; cbn in H; [| etrans; [exact H | apply still_respond_err]]. etrans; [exact H |].
  destruct (missing_section _ _); [apply still_respond |]. unfold see_all. rewrite R, andb_false_r. etrans; [| apply still_respond]. apply still_lines.
Qed.

Lemma search_still args line uid w : still w (search_cmd (zone cfg) (walk cfg) args line uid w).
Proof.
  unfold search_cmd. destruct (handleSearchWithUIDs _ _ _ _ _ _ _ _ _ _ _); auto with own; try (by apply still_store).
  - etrans; [by apply (still_store w (WriteData data w)) | apply still_respond].
  - unfold writeSearchParseError. destruct e; auto with own.
Qed.
Lemma matches_still toks failed w k : (forall w, still w (failed w)) -> (forall m l w, still w (k m l w)) -> still w (with_matches (zone cfg) (walk cfg) toks failed w k).
Proof.
  intros Hf Hk. unfold with_matches. destruct (selected _); [| apply still_respond]. destruct (parseSearchProgram toks) as [p | er].
  - destruct (evalSearch _ _ _ _ _ _ _ _) as [l | []]; auto with own; try (by apply still_store). destruct (too_many _ _ _); auto.
  - unfold writeSearchParseError. destruct er; auto with own.
Qed.
Lemma sort_still args line uid w : still w (sortCmd (zone cfg) (walk cfg) args line uid w).
Proof.
  unfold sortCmd. destruct (selected _); [| apply still_respond]. destruct (commandArgTokens _ _ _) as [| t toks]; [apply still_respond |].
  destruct (negb _); [apply still_respond |]. destruct (criteria_args toks) as [cs rest]. destruct rest as [| c [| key keys]]; [apply still_respond | apply still_respond |].
  destruct (negb _); [apply still_respond |]. destruct (parseSortCriteria cs); [| apply still_respond].
  apply matches_still; [auto with own |]. intros m ms w0. etrans; [| apply still_respond]. by apply still_store.
Qed.
Lemma thread_still args line uid w : still w (threadCmd (zone cfg) (walk cfg) args line uid w).
Proof.
  unfold threadCmd. destruct (selected _); [| apply still_respond].
  destruct (commandArgTokens _ _ _) as [| algo [| c [| key keys]]]; [apply still_respond | apply still_respond | apply still_respond |]. cbv zeta.
  destruct (_ || _); [apply still_respond |]. destruct (negb _); [apply still_respond |].
  apply matches_still; [auto with own |]. intros m ms w0. etrans; [| apply still_respond]. by apply still_store.
Qed.

Lemma by_uid_still args w k : (forall a, still w (k a w)) -> still w (by_uid args w k).
Proof. intros H. unfold by_uid. destruct args; [apply H |]. destruct (selected _); [| apply H]. destruct (uidSetToSeqSet _ _ _); [apply H | apply still_respond]. Qed.
Lemma store_still args uid w sel : selected (conn w) = Some sel -> ReadOnly sel = true -> still w (store_cmd (mdnHandler cfg) (mdnRoom cfg) args uid w).
Proof. intros E R. unfold store_cmd. destruct args as [| a [| b [| c args]]]; try apply still_respond. by apply (still_readonly w _ sel). Qed.
Lemma move_still io row now args w sel : selected (conn w) = Some sel -> ReadOnly sel = true ->
  still w (handleMove (expungeHook cfg) (zone cfg) (walk cfg) (quotaLimit cfg) (quotaAdjust cfg) (junkReport cfg) (pending cfg) (iter cfg) io row now args w).
Proof. intros E R. unfold handleMove. destruct args as [| a [| b args]]; try apply still_respond. by apply (still_readonly w _ sel). Qed.

(** The commands on the messages of the selected mailbox; COPY fills another one. *)
Definition message_commands : list gostring :=
  ["CHECK" : gostring; "CLOSE" : gostring; "UNSELECT" : gostring; "EXPUNGE" : gostring; "SEARCH" : gostring; "SORT" : gostring; "THREAD" : gostring;
    "FETCH" : gostring; "STORE" : gostring; "MOVE" : gostring; "UID" : gostring].
Definition uid_copy (command : gostring) args : bool :=
  (command =s? "UID") && match args with c :: _ => ToUpper c =s? "COPY" | [] => false end.

Lemma not_common e command args line w : command ∈ message_commands -> common_command cfg e command args line w = None.
Proof. intros H. unfold message_commands in H. repeat (apply elem_of_cons in H as [-> | H]; [done |]). by apply not_elem_of_nil in H. Qed.

Lemma uid_still e args line w sel : selected (conn w) = Some sel -> ReadOnly sel = true -> uid_copy "UID" args = false ->
  still w (handleUID (expungeHook cfg) (mdnHandler cfg) (mdnRoom cfg) (zone cfg) (walk cfg) (quotaLimit cfg) (quotaAdjust cfg) (junkReport cfg)
    (pending cfg) (iter cfg) (io e) (row e) (now e) args line w).
Proof.
  intros E R Hc. unfold handleUID. destruct args as [| c args]; [apply still_respond |]. cbv zeta.
  destruct (_ =s? "FETCH"); [apply by_uid_still; intros; by apply (fetch_still _ _ _ sel) |].
  destruct (_ =s? "STORE"); [apply by_uid_still; intros; by apply (store_still _ _ _ sel) |].
  unfold uid_copy in Hc. rewrite (bool_decide_true (_ = _)) in Hc by done. cbn [andb] in Hc. rewrite Hc.
  destruct (_ =s? "MOVE"); [apply by_uid_still; intros; by apply (move_still _ _ _ _ _ sel) |].
  destruct (_ =s? "SEARCH"); [apply search_still |]. destruct (_ =s? "SORT"); [apply sort_still |]. destruct (_ =s? "THREAD"); [apply thread_still |].
  destruct (_ =s? "EXPUNGE"); [| apply still_respond]. unfold handleUIDExpunge. destruct args; [apply still_respond | by apply (still_readonly w _ sel)].
Qed.

(** C22: EXAMINE is read-only.  While a mailbox is selected with EXAMINE, no command on its
    messages (FETCH, STORE, SEARCH, SORT, THREAD, EXPUNGE, CLOSE, MOVE and their UID
    forms, with any arguments) changes a message, a flag, a counter, a body, a thread or
    a subscription of anybody. *)
Theorem examine_changes_nothing e command args line w sel :
  selected (conn w) = Some sel -> ReadOnly sel = true -> command ∈ message_commands -> uid_copy command args = false ->
  still w (handleSelected cfg e command args line w).
Proof.
  intros E R Hc Hu. unfold handleSelected. rewrite (not_common e command args line w Hc). unfold message_commands in Hc.
  repeat (apply elem_of_cons in Hc as [-> | Hc]); [.. | by apply not_elem_of_nil in Hc]; cbn -[respond].
  - apply still_respond.
  - unfold handleClose. rewrite E, R. etrans; [| apply still_respond]. by apply still_store.
  - etrans; [| apply still_respond]. by apply still_store.
  - by apply (still_readonly w _ sel).
  - apply search_still.
  - apply sort_still.
  - apply thread_still.
  - by apply (fetch_still _ _ _ sel).
  - by apply (store_still _ _ _ sel).
  - by apply (move_still _ _ _ _ _ sel).
  - by apply (uid_still e args line w sel).
Qed.
End ReadOnly.

(** ** STORE *)
Section Store.
Context {U : UnicodeTables} {N : Normalizer} {M : MimeStd} {T : MimeTree} {NM : NetMail} {C : Crypto}.
Implicit Types (st : MStore) (w : World).

(** What becomes of a message that is addressed. *)
Definition flagged_row (op : FlagOperation) (flags : list gostring) (m m' : MessageMetadata) : Prop :=
  match update_flags op flags m with
  | Some _ => same_blob m m' /\ Flags m' = normalizeFlags (apply_flags op flags (Flags m))
  | None => m' = m
  end.
Definition refuses_flags (op : FlagOperation) (flags : list gostring) u k st (i : Z) : Prop :=
  exists m, rows_of u k (db st) !! i = Some m /\ update_flags op flags m = None.

Lemma store_one_rows op flags u k b st q uid b' st' : store_one op flags u k (b, st) (q, uid) = (b', st') ->
  (forall v j i, ~ ((u, k) = (v, j) /\ i = uid) -> rows_of v j (db st') !! i = rows_of v j (db st) !! i) /\
  (forall m, rows_of u k (db st) !! uid = Some m -> exists m', rows_of u k (db st') !! uid = Some m' /\ flagged_row op flags m m') /\
  (b' = true <-> b = true \/ refuses_flags op flags u k st uid).
Proof.
  unfold store_one. destruct (UpdateMessageMetadataFunc _ _ _ _ _) as [d | er] eqn:E; intros [= <- <-].
  - assert (Hnot : ~ refuses_flags op flags u k st uid).
    { intros (m & Hm & Hu). unfold UpdateMessageMetadataFunc in E. rewrite Hm in E. by rewrite Hu in E. }
    apply rows_Update in E as [[Hn ->] | (m & m1 & cp & Hm & Hf & [B1 B2] & Hfl & Hr)]; cbn [db set_db notify].
    + split_and!; [done | | tauto]. intros m Hm. by rewrite Hm in Hn.
    + split_and!; [| | tauto].
      * intros v j i Hn. rewrite Hr. destruct (decide _) as [[= <- <-] |]; [| done]. apply lookup_insert_ne. intros <-. by apply Hn.
      * intros m0 Hm0. rewrite Hm in Hm0. injection Hm0 as <-. exists cp. rewrite Hr, decide_True by done. split; [apply lookup_insert_eq |].
        unfold flagged_row. rewrite Hf. unfold update_flags in Hf. destruct (_ && _); [done |]. injection Hf as <-. by split.
  - assert (Hyes : refuses_flags op flags u k st uid).
    { unfold refuses_flags. unfold UpdateMessageMetadataFunc in E. destruct (rows_of u k (db st) !! uid) as [m |]; [| done].
      exists m. split; [done |]. by destruct (update_flags op flags m). }
    split_and!; [done | | tauto]. intros m Hm. exists m. split; [done |]. destruct Hyes as (m1 & Hm1 & Hu). rewrite Hm in Hm1. injection Hm1 as <-.
    unfold flagged_row. by rewrite Hu.
Qed.

Lemma store_fold op flags u k sus b st b' st' : NoDup (map snd sus) -> foldl (store_one op flags u k) (b, st) sus = (b', st') ->
  (forall v j i, ~ ((u, k) = (v, j) /\ i ∈ map snd sus) -> rows_of v j (db st') !! i = rows_of v j (db st) !! i) /\
  (forall i m, i ∈ map snd sus -> rows_of u k (db st) !! i = Some m -> exists m', rows_of u k (db st') !! i = Some m' /\ flagged_row op flags m m') /\
  (b' = true <-> b = true \/ exists i, i ∈ map snd sus /\ refuses_flags op flags u k st i).
Proof.
  revert b st. induction sus as [| [q uid] sus IH]; intros b st Hnd H; cbn [foldl map snd] in *.
  { injection H as <- <-. split_and!; [done | by intros i m Hi%not_elem_of_nil |]. split; [by left |]. intros [? | (i & Hi & _)]; [done | by apply not_elem_of_nil in Hi]. }
  apply NoDup_cons in Hnd as [Hnin Hnd]. destruct (store_one op flags u k (b, st) (q, uid)) as [b1 st1] eqn:E1.
  apply store_one_rows in E1 as (O1 & O2 & O3). destruct (IH b1 st1 Hnd H) as (I1 & I2 & I3).
  assert (Hrow : forall i, i ∈ map snd sus -> rows_of u k (db st1) !! i = rows_of u k (db st) !! i).
  { intros i Hi. apply O1. intros [_ ->]. by apply Hnin. }
  split_and!.
  - intros v j i Hn. rewrite I1 by (intros [E Hi]; apply Hn; split; [done | by right]). apply O1. intros [E ->]. apply Hn. split; [done | by left].
  - intros i m [-> | Hi]%elem_of_cons Hm.
    + destruct (O2 m Hm) as (m' & Hm' & Hf). exists m'. split; [| done]. rewrite I1; [done | by intros []].
    + apply I2; [done |]. by rewrite Hrow.
  - rewrite I3, O3. unfold refuses_flags. split.
    + intros [[? | (m & Hm)] | (i & Hi & m & Hm)]; [by left | right; exists uid; split; [by left | by exists m] |].
      right. exists i. split; [by right |]. exists m. by rewrite Hrow in Hm.
    + intros [? | (i & [-> | Hi]%elem_of_cons & m & Hm)]; [left; by left | left; right; by exists m |].
      right. exists i. split; [done |]. exists m. by rewrite Hrow.
Qed.

Lemma numbered_In i uids q uid : In (q, uid) (numbered_from i uids) <-> exists n : nat, q = i + Z.of_nat n /\ uids !! n = Some uid.
Proof.
  revert i. induction uids as [| x uids IH]; intros i; cbn [numbered_from In].
  - split; [done |]. by intros (n & _ & H).
  - rewrite IH. split.
    + intros [[= <- <-] | (n & -> & H)]; [by exists 0%nat; split; [lia |] | exists (S n); split; [lia | done]].
    + intros ([| n] & -> & H); [left; injection H as ->; f_equal; lia | right; exists n; split; [lia | done]].
Qed.
Lemma selected_addressed ranges u k st uid : uid ∈ map snd (selected_in ranges u k st) <-> ImapSeq.addressed (GetMessageUIDs u k (db st)) ranges uid.
Proof.
  rewrite list_elem_of_In, in_map_iff. unfold selected_in, numbered, ImapSeq.addressed, inSeqRanges. set (uids := GetMessageUIDs u k (db st)). split.
  - intros ([q x] & <- & [(n & -> & Hn)%numbered_In Hc]%List.filter_In). exists n. split; [done |]. by rewrite Z.add_comm in Hc.
  - intros (n & Hn & Hc). exists (Z.of_nat n + 1, uid). split; [done |]. apply List.filter_In. split; [| done]. apply numbered_In. exists n. split; [lia | done].
Qed.
Lemma selected_NoDup ranges u k st : NoDup (map snd (selected_in ranges u k st)).
Proof.
  unfold selected_in, numbered. set (n := Z.of_nat _). generalize 1. pose proof (keys_NoDup (rows_of u k (db st))) as H. fold (GetMessageUIDs u k (db st)) in H. revert H.
  generalize (GetMessageUIDs u k (db st)). clearbody n. induction l as [| x l IH]; intros H i; cbn [numbered_from List.filter]; [constructor |].
  apply NoDup_cons in H as [Hn H]. destruct (inSeqRanges ranges i n); [| by apply IH]. cbn [map snd]. apply NoDup_cons. split; [| by apply IH].
  intros Hx. apply Hn. apply list_elem_of_In, in_map_iff in Hx as ([q y] & <- & [Hin _]%List.filter_In). apply numbered_In in Hin as (m & _ & Hm). by eapply list_elem_of_lookup_2.
Qed.

Lemma live_set_addresses sel set ranges w :
  snapOn (view (conn w)) = true -> small (snap (view (conn w))) -> ParseSequenceSet set = Ok ranges ->
  too_many (me w) (MbName (info sel)) (store w) = false ->
  exists live ranges', live_set sel set w = Ok live /\ ParseSequenceSet live = Ok ranges' /\
  forall uid, is_Some (rows_of (me w) (MbName (info sel)) (db (store w)) !! uid) ->
  ImapSeq.addressed (GetMessageUIDs (me w) (MbName (info sel)) (db (store w))) ranges' uid <-> ImapSeq.addressed (snap (view (conn w))) ranges uid.
Proof.
  intros Hon Hs Hp Hm. unfold live_set. set (live := GetMessageUIDs _ _ _). destruct ranges as [| r rs].
  { exists [], []. unfold seqToLive. rewrite Hon, Hp. split_and!; try done. intros uid _. split; intros (i & _ & H); done. }
  assert (Hl : small live) by (unfold too_many in Hm; fold live in Hm; unfold small; lia).
  assert (Hall : forall uid, exists out ranges', seqToLive (view (conn w)) (Some live) set = Ok out /\ ParseSequenceSet out = Ok ranges' /\
    (ImapSeq.addressed live ranges' uid <-> ImapSeq.addressed (snap (view (conn w))) (r :: rs) uid /\ uid ∈ live)).
  { intros uid. apply seqToLive_addresses; try done. apply keys_NoDup. }
  destruct (Hall 0) as (out & rs' & E1 & E2 & _). exists out, rs'. split_and!; try done. intros uid Huid.
  destruct (Hall uid) as (out2 & rs2 & F1 & F2 & Hiff). rewrite E1 in F1. injection F1 as <-. rewrite E2 in F2. injection F2 as <-.
  rewrite Hiff. split; [tauto |]. intros H. split; [done |]. by apply elem_of_keys.
Qed.

Lemma storeSel_exact sel set ranges flags op w err w' :
  snapOn (view (conn w)) = true -> small (snap (view (conn w))) -> ParseSequenceSet set = Ok ranges ->
  too_many (me w) (MbName (info sel)) (store w) = false -> storeSel sel set flags op w = (err, w') ->
  let rows v j w := rows_of v j (db (store w)) in
  let named := ImapSeq.addressed (snap (view (conn w))) ranges in
  (forall v j i, ~ ((me w, MbName (info sel)) = (v, j) /\ named i) -> rows v j w' !! i = rows v j w !! i) /\
  (forall i m, named i -> rows (me w) (MbName (info sel)) w !! i = Some m ->
    exists m', rows (me w) (MbName (info sel)) w' !! i = Some m' /\ flagged_row op (normalizeStoreFlags flags) m m') /\
  (err = None <-> ~ exists i, named i /\ refuses_flags op (normalizeStoreFlags flags) (me w) (MbName (info sel)) (store w) i).
Proof.
  intros Hon Hs Hp Hm H. cbv zeta. destruct (live_set_addresses sel set ranges w Hon Hs Hp Hm) as (live & ranges' & E1 & E2 & Hadr).
  unfold storeSel in H. rewrite E1 in H. unfold StoreFlags in H. rewrite E2, Hm in H. set (u := me w) in *. set (k := MbName (info sel)) in *.
  destruct (foldl _ _ _) as [b st'] eqn:Ef. injection H as <- <-.
  destruct (store_fold _ _ _ _ _ _ _ _ _ (selected_NoDup ranges' u k (store w)) Ef) as (F1 & F2 & F3). cbn [store set_store].
  assert (Hin : forall i, is_Some (rows_of u k (db (store w)) !! i) -> i ∈ map snd (selected_in ranges' u k (store w)) <-> ImapSeq.addressed (snap (view (conn w))) ranges i).
  { intros i Hi. rewrite selected_addressed. by apply Hadr. }
  split_and!.
  - intros v j i Hn. destruct (rows_of u k (db (store w)) !! i) as [m |] eqn:Ei.
    + apply F1. intros [E Hi]. apply Hn. split; [done |]. apply Hin; [by exists m | done].
    + destruct (decide ((u, k) = (v, j))) as [[= <- <-] | Hne]; [| apply F1; tauto]. apply F1. intros [_ Hi].
      pose proof (selected_rows ranges' u k (store w)) as Hall. rewrite Forall_forall in Hall. destruct (Hall i Hi) as [m Hm2]. congruence.
  - intros i m Hi Hrow. apply F2; [| done]. apply Hin; [by exists m | done].
  - destruct b; cbn; split; try done.
    + intros Hnone. exfalso. apply Hnone. destruct F3 as [F3 _]. destruct (F3 eq_refl) as [? | (i & Hi & Hr)]; [done |].
      exists i. split; [| done]. apply Hin; [| done]. destruct Hr as (m & Hr & _). by exists m.
    + intros _ (i & Hi & Hr). destruct F3 as [_ F3]. discriminate F3. right. exists i. split; [| done]. apply Hin; [| done]. destruct Hr as (m & Hr & _). by exists m.
Qed.

Lemma last_respond s w : last (out (conn (respond s w))) = Some (Tagged (tag (conn w)) s).
Proof. unfold respond, respond_with. cbn. rewrite last_snoc. unfold syncView. by destruct (syncOnTag _). Qed.
Lemma last_respond_err c er w : last (out (conn (respond_err c er w))) = Some (TaggedErr (tag (conn w)) c er).
Proof. unfold respond_err, respond_with. cbn. rewrite last_snoc. unfold syncView. by destruct (syncOnTag _). Qed.

(** C21: STORE changes exactly the messages it names.  In a session that may write, a
    STORE (or UID STORE) with a well-formed set, operation and flag list applies the
    operation to the flags of every message the set names in the session's own numbering,
    whatever other sessions have added or removed since, and leaves every other message
    of every mailbox alone; it answers NO if a message would get more keywords than
    allowed (that message stays as it is), and OK otherwise. *)
Theorem store_exact mdnH mdnR set op f rest uidCmd w sel flags fop ranges :
  selected (conn w) = Some sel -> ReadOnly sel = false -> snapOn (view (conn w)) = true -> small (snap (view (conn w))) ->
  too_many (me w) (MbName (info sel)) (store w) = false ->
  checkFlags (parseFlags (Join (f :: rest) " ")) = Some flags -> store_operation (ToUpper op) = Some fop ->
  ParseSequenceSet set = Ok ranges -> uidCmd = true \/ seqSetInRange (view (conn w)) set = true ->
  let w' := store_cmd mdnH mdnR (set :: op :: f :: rest) uidCmd w in
  let rows v j w := rows_of v j (db (store w)) in
  let named := ImapSeq.addressed (snap (view (conn w))) ranges in
  let refused i := refuses_flags fop (normalizeStoreFlags flags) (me w) (MbName (info sel)) (store w) i in
  (forall v j i, ~ ((me w, MbName (info sel)) = (v, j) /\ named i) -> rows v j w' !! i = rows v j w !! i) /\
  (forall i m, named i -> rows (me w) (MbName (info sel)) w !! i = Some m ->
    exists m', rows (me w) (MbName (info sel)) w' !! i = Some m' /\ flagged_row fop (normalizeStoreFlags flags) m m') /\
  ((~ exists i, named i /\ refused i) -> exists t, last (out (conn w')) = Some (Tagged t "OK STORE completed")) /\
  ((exists i, named i /\ refused i) -> exists t er, last (out (conn w')) = Some (TaggedErr t "NO" er)).
Proof.
  intros E R Hon Hs Hm Hf Hop Hp Hr. cbv zeta. unfold store_cmd, rejectReadOnly. rewrite E, R, Hf, Hop.
  assert (Hg : negb uidCmd && negb (seqSetInRange (view (conn w)) set) = false) by (destruct Hr as [-> | ->]; [done | by rewrite andb_false_r]). rewrite Hg. clear Hg Hr.
  destruct (storeSel sel set flags fop w) as [err w1] eqn:Es.
  destruct (storeSel_exact sel set ranges flags fop w err w1 Hon Hs Hp Hm Es) as (H1 & H2 & H3).
  match goal with |- context [store ?x] => lazymatch x with w => fail | _ => set (w' := x) end end.
  assert (Hst : still w1 w').
  { unfold w'. destruct err as [er |]; [apply still_respond_err |]. etrans; [| apply still_respond]. destruct (HasSuffix _ _); [done |].
    pose proof (fetchSel_still mdnH mdnR sel set ["FLAGS" : gostring] w1) as Hq.
    destruct (fetchSel mdnH mdnR _ _ _ _) as [[msgs | er] w2]; cbn in Hq; [| done]. etrans; [exact Hq | apply still_lines]. }
  destruct Hst as [Hd _ _]. rewrite Hd. split_and!; [done | done | |].
  - intros Hn. apply H3 in Hn as ->. unfold w'. rewrite last_respond. eauto.
  - intros Hn. destruct err as [er |]; [unfold w'; rewrite last_respond_err; eauto |]. exfalso. by apply H3.
Qed.
End Store.
