(* ===== verification/ImapAppendProps.v ===== *)
(** * internal/imap: APPEND and the command stream

    The octets of a message sent without waiting (LITERAL+) are read or skipped, never
    taken for commands. *)
From S2P Require Import Prelude GoLib Utf8 Base64 SmtpData Bolt ImapSeq ImapNames Scram BlobStore MailDb MailDbProps Threads ImapStore ImapMatch ImapSearch ImapFetch.
From S2P Require Import ImapConn ImapMailboxes ImapSort ImapMessages ImapSession ImapOwn ImapQuiet.

Lemma IndexByte_fresh a c b : c ∉ a -> IndexByte (a ++ c :: b) c = Some (length a).
Proof.
  induction a as [| d a IH]; intros H; cbn [app IndexByte length].
  - by rewrite (proj2 (Ascii.eqb_eq c c) eq_refl).
  - destruct (d =c? c) eqn:E; [apply Ascii.eqb_eq in E as ->; set_solver |]. rewrite IH by set_solver. done.
Qed.
Lemma digits_only acc s n : digits_val acc s = Some n -> forallb is_digit s = true.
Proof. revert acc. induction s as [| c s IH]; intros acc; cbn [digits_val forallb]; [done |]. destruct (is_digit c); [by apply IH | done]. Qed.
Lemma ParseUint_digits s max n : ParseUint s max = Ok n -> forallb is_digit s = true.
Proof. unfold ParseUint. destruct s; [done |]. destruct (digits_val 0 _) eqn:E; [| done]. intros _. by eapply digits_only. Qed.

(** A size has no closing brace in it. *)
Lemma size_no_brace spec n ns : parseLiteralSize spec = Some (n, ns) -> "}"%char ∉ spec.
Proof.
  unfold parseLiteralSize. destruct (ParseUint _ _) as [v |] eqn:E; [| done]. intros _ Hin. apply ParseUint_digits in E.
  assert (Hd : forall s, forallb is_digit s = true -> "}"%char ∉ s).
  { intros s Hs Hi. rewrite forallb_true_iff in Hs. by specialize (Hs _ Hi). }
  destruct (HasSuffix spec "+") eqn:Hs; [| by apply (Hd spec)].
  unfold TrimSuffix in E. rewrite Hs in E. apply HasSuffix_true in Hs as [r ->]. 
  rewrite length_app, Nat.add_sub, take_app_length in E. apply elem_of_app in Hin as [Hin | Hin]; [by apply (Hd r) |]. cbn in Hin. set_solver.
Qed.

Lemma trailing_shape line p n ns : trailingLiteral line = Some (p, n, ns) ->
  exists spec, line = p ++ "{"%char :: spec ++ ["}"%char] /\ LastIndexByte line "{" = Some (length p) /\ parseLiteralSize spec = Some (n, ns) /\ "}"%char ∉ spec.
Proof.
  unfold trailingLiteral. destruct (HasSuffix line "}") eqn:Hs; [| done]. cbn [negb]. apply HasSuffix_true in Hs as [l Hl]. cbn in Hl.
  destruct (LastIndexByte line "{") as [open |] eqn:Eo; [| done]. cbn [mbind option_bind].
  pose proof (LastIndexByte_lookup _ _ _ Eo) as Hk. assert (Hlt : (open < length l)%nat).
  { apply lookup_lt_Some in Hk as Hlt. rewrite Hl, length_app in Hlt. cbn in Hlt. destruct (decide (open = length l)) as [-> |]; [| lia].
    rewrite Hl, lookup_app_r in Hk by lia. rewrite Nat.sub_diag in Hk. done. }
  rewrite Hl, lookup_app_l in Hk by done. apply take_drop_middle in Hk.
  set (a := take open l) in *. set (b := drop (S open) l) in *. assert (Ha : length a = open) by (unfold a; rewrite length_take; lia).
  assert (E : line = a ++ "{"%char :: b ++ ["}"%char]) by (by rewrite Hl, <- Hk, <- app_assoc).
  assert (E1 : take open line = a) by (rewrite E; by apply take_app_length').
  assert (E2 : take (length line - 1 - (open + 1)) (drop (open + 1) line) = b).
  { rewrite E. change ("{"%char :: b ++ ["}"%char]) with (["{"%char] ++ b ++ ["}"%char]). rewrite app_assoc, drop_app_length' by (rewrite length_app; cbn; lia).
    apply take_app_length'. rewrite !length_app. cbn. lia. }
  rewrite E1, E2. destruct (parseLiteralSize b) as [[size ns'] |] eqn:Ep; [| done]. cbn. intros [= <- <- <-]. exists b.
  split_and!; [done | by rewrite Ha | done | by eapply size_no_brace].
Qed.

Section Append.
Context {U : UnicodeTables} {N : Normalizer} {M : MimeStd} {T : MimeTree} {NM : NetMail} {C : Crypto}.
Context (bufsize : nat) (quotaLimit : option (gostring -> Z)) (quotaAdjust : option (list (gostring * Z) -> gostring -> Z -> bool)).
Context (pending : gostring -> gostring -> bool) (iter : gmap gostring Z -> list (gostring * Z)).
Implicit Types (w : World).

(** The parser of the parameters reads the size the marker says. *)
Lemma params_size now args line p n ns flags date size :
  trailingLiteral line = Some (p, n, ns) -> parseAppendParams now args line = Some (flags, date, size) -> size = n.
Proof.
  intros (spec & Hl & Ho & Hp & Hb)%trailing_shape. unfold parseAppendParams. destruct (append_flags args); [| done]. cbn [mbind option_bind].
  rewrite Ho. cbn [mbind option_bind]. rewrite Hl. rewrite drop_app_length.
  change ("{"%char :: spec ++ ["}"%char]) with (("{"%char :: spec) ++ "}"%char :: []). rewrite IndexByte_fresh by set_solver. cbn [mbind option_bind].
  assert (E : drop (length p + 1) (take (length p + length ("{"%char :: spec)) (p ++ ("{"%char :: spec) ++ "}"%char :: [])) = spec).
  { rewrite take_app_add, take_app_length. change ("{"%char :: spec) with (["{"%char] ++ spec). rewrite app_assoc. apply drop_app_length'. by rewrite length_app. }
  rewrite E, Hp. cbn. destruct (appendDateTime _); [| done]. cbn. congruence.
Qed.

Lemma readLine_empty rest : (2 <= bufsize)%nat -> readLine bufsize (SmtpData.CRLF ++ rest) = Some ([], rest).
Proof.
  intros Hb. unfold readLine. cbn [readLine_go length]. unfold ReadSlice. destruct bufsize as [| [| b]]; [lia | lia |]. done.
Qed.

(** ** What leaves the unread input alone *)
Lemma input_respond s w : input (conn (respond s w)) = input (conn w).
Proof. unfold respond, respond_with, syncView. by destruct (syncOnTag _). Qed.
Lemma input_respond_err c er w : input (conn (respond_err c er w)) = input (conn w).
Proof. unfold respond_err, respond_with, syncView. by destruct (syncOnTag _). Qed.
Lemma input_append_all io now mailbox i msgs v uids w : input (conn (append_all quotaLimit quotaAdjust pending iter io now mailbox i msgs v uids w)) = input (conn w).
Proof.
  revert i v uids w. induction msgs as [| m r IH]; intros i v uids w; cbn [append_all]; [apply input_respond |].
  destruct (AppendMessageUID _ _ _ _ _ _ _ _ _ _ _ _) as [[[v' uid] | er] st]; [by rewrite IH |]. unfold respond_no. rewrite input_respond_err. by destruct (bool_decide _).
Qed.
Lemma input_store_messages io now arg msgs total w : input (conn (store_messages quotaLimit quotaAdjust pending iter io now arg msgs total w)) = input (conn w).
Proof.
  unfold store_messages, copyDestination, with_mbox. destruct (mboxArg _ _); [| apply input_respond].
  assert (H : forall name w, input (conn (match (if (1 <? length msgs)%nat then CheckQuota quotaLimit (me w) total (store w) else None) with
    | Some er => respond_no er w | None => append_all quotaLimit quotaAdjust pending iter io now name 0 msgs 0 [] w end)) = input (conn w)).
  { intros name w0. destruct (if (_ <? _)%nat then _ else _); [unfold respond_no; apply input_respond_err | apply input_append_all]. }
  destruct (_ =s? _); [apply H |]. destruct (has_name _ _); [apply H | apply input_respond].
Qed.

Lemma discard_exact n w data rest : 0 <= n <= maxAppendSize -> (2 <= bufsize)%nat ->
  input (conn w) = data ++ SmtpData.CRLF ++ rest -> Z.of_nat (length data) = n -> input (conn (discardLiteral bufsize n w)) = rest.
Proof.
  intros Hn Hb Hi Hd. unfold discardLiteral. destruct (Z.ltb_spec maxAppendSize n); [lia |]. rewrite Hi.
  destruct (Z.ltb_spec (Z.of_nat (length (data ++ SmtpData.CRLF ++ rest))) n); [rewrite !length_app in *; lia |].
  unfold with_line. cbn [conn set_conn input set_input]. rewrite Hi. replace (Z.to_nat n) with (length data) by lia. rewrite drop_app_length, readLine_empty by done. done.
Qed.

End Append.
