(* ===== verification/ImapExamples.v ===== *)
(** * internal/imap: a session

    One client on one connection, run by evaluation: it logs in, opens the mailbox,
    stores a flag, appends a message, asks for threads.  The theorems on sessions are
    applied to its states. *)
From S2P Require Import Prelude GoLib Utf8 Base64 Bolt ImapSeq ImapNames Scram BlobStore MailDb MailDbProps Threads ImapStore ImapMatch ImapSearch ImapFetch.
From S2P Require Import ImapConn ImapMailboxes ImapSort ImapSortProps ImapForest ImapMessages ImapSession ImapOwn ImapQuiet ImapSessionProps ImapReadOnly ImapAppendProps.

#[local] Existing Instance ascii_tables.
#[local] Existing Instance toy_crypto.
#[local] Existing Instance plain_mail.
#[local] Instance same_norm : Normalizer := {| NFC := id; NFD := id |}.
#[local] Instance bare_mime : MimeStd := {|
  ReadMail := fun d => Some (fun _ => [], d); DecodeHeader := fun _ v => Some v; ParseMediaType := fun _ => None;
  RawParts := fun _ _ => []; Base64Stream := id; QuotedPrintable := id; ParseDate := fun _ => None; ParseLayout := fun _ _ => None |}.
#[local] Instance bare_tree : MimeTree := {| HeaderValues := fun _ _ => []; MediaType := fun _ => None |}.

Definition works : IO := {| file_written := true; row_written := true |}.
Definition ex_cfg : Config := {|
  bufsize := 4096; tlsConfigUsable := true; allowPlainAuth := false; maxLoginAttempts := 5; lockoutDuration := 900;
  authFunc := fun u p => Some ((u =s? "ann") && (p =s? "secret")); walkKeys := fun m => map fst (map_to_list m); expungeHook := false;
  mdnHandler := false; mdnRoom := false; zone := fun _ => 0; walk := map_to_list; quotaLimit := None; quotaAdjust := None; junkReport := false;
  pending := fun _ _ => false; iter := map_to_list |}.
Definition ex_env : Env := {| now := 1000; ip := "10.0.0.1"; handshake := true; after := []; io := fun _ => works; row := fun _ => true; events := [] |}.
Definition typed (lines : list gostring) : gostring := concat (map (fun l => l ++ SmtpData.CRLF) lines).
Definition ex_lines : list gostring := ["a LOGIN ann secret" : gostring; "b SELECT INBOX" : gostring; "c APPEND INBOX {5+}" : gostring; "hello" : gostring; "d STORE 1 +FLAGS (\Seen)" : gostring].
Definition started : World := connect ex_cfg true (typed ex_lines) (ImapBodies.sto ImapBodies.sys_init) ∅.
Abbreviation round := (handle_line ex_cfg ex_env).
Abbreviation opened := (round (round started)).
Abbreviation appended := (round opened).

(** ** The theorems at work *)
Lemma session_authenticated_witness : in_session appended /\ user (conn appended) = ("ann" : gostring)
  /\ (exists p, authFunc ex_cfg (user (conn appended)) p = Some true) /\ snapOn (view (conn appended)) = true.
Proof.
  assert (Hs : state (conn appended) = StateSelected) by (vm_compute; reflexivity).
  destruct (session_authenticated ex_cfg true (typed ex_lines) (ImapBodies.sto ImapBodies.sys_init) ∅ appended) as (_ & H1 & _ & H2).
  - apply (star_trans _ _ (round started)); [apply star_one; constructor |]. apply (star_trans _ _ (round (round started))); apply star_one; constructor.
  - right. exact Hs.
  - split; [right; exact Hs |]. split; [vm_compute; reflexivity |]. split; [exact H1 | exact (H2 Hs)].
Defined.

(** The APPEND stores a message for ann and nothing for anyone else. *)
Lemma session_touches_own_data_witness : GetMessageUIDs "ann" "INBOX" (db (store (round (round started)))) = []
  /\ GetMessageUIDs "ann" "INBOX" (db (store appended)) = [1]
  /\ (forall id, msgStore (store appended) !! ("bob" : gostring, id) = msgStore (store (round (round started))) !! ("bob" : gostring, id)).
Proof.
  split; [vm_compute; reflexivity |]. split; [vm_compute; reflexivity |]. intros id.
  assert (Hu : user (conn appended) <> ("bob" : gostring)) by (apply (bool_decide_unpack _); vm_compute; exact I).
  destruct (session_touches_own_data ex_cfg ex_env (round (round started)) (Forall_nil_2 _) ("bob" : gostring) Hu) as [_ H _ _ _]. apply H.
Defined.

Abbreviation examined := (round (set_conn (set_input (typed ["x EXAMINE INBOX" : gostring])) (set_conn (set_input []) appended))).
Lemma examine_changes_nothing_witness :
  (exists sel, selected (conn examined) = Some sel /\ ReadOnly sel = true)
  /\ still examined (handleSelected ex_cfg ex_env "FETCH" ["1" : gostring; "BODY[]" : gostring] "y FETCH 1 BODY[]" examined)
  /\ (length (out (conn examined)) < length (out (conn (handleSelected ex_cfg ex_env "FETCH" ["1" : gostring; "BODY[]" : gostring] "y FETCH 1 BODY[]" examined))))%nat.
Proof.
  destruct (selected (conn examined)) as [sel |] eqn:E; [| exfalso; vm_compute in E; discriminate E].
  assert (R : ReadOnly sel = true) by (vm_compute in E; injection E as <-; reflexivity).
  split; [exists sel; split; [reflexivity | exact R] |]. split.
  - apply (examine_changes_nothing ex_cfg ex_env "FETCH" _ _ examined sel E R); [apply (bool_decide_unpack _); vm_compute; exact I | vm_compute; reflexivity].
  - apply Nat.ltb_lt. vm_compute. reflexivity.
Defined.

Abbreviation ex_store := (store_cmd false false ["1" : gostring; "+FLAGS" : gostring; "(\Seen)" : gostring] false appended).
Lemma store_exact_witness : Flags (GetMessageMetadata "ann" "INBOX" 1 (db (store ex_store))) = ["\Recent" : gostring; "\Seen" : gostring]
  /\ (exists t, last (out (conn ex_store)) = Some (Tagged t "OK STORE completed")).
Proof.
  split; [vm_compute; reflexivity |]. destruct (selected (conn appended)) as [sel |] eqn:E; [| exfalso; vm_compute in E; discriminate E].
  assert (Hsel : MbName (info sel) = ("INBOX" : gostring) /\ ReadOnly sel = false) by (vm_compute in E; injection E as <-; split; reflexivity). destruct Hsel as [Hn R].
  pose proof (store_exact false false "1" "+FLAGS" "(\Seen)" [] false appended sel ["\Seen" : gostring] FlagAdd [single 1] E R) as H.
  rewrite Hn in H. destruct H as (_ & _ & H & _); [vm_compute; reflexivity .. | right; vm_compute; reflexivity |]. apply H. intros (i & Hi & m & Hm & Hr).
  assert (Hs : snap (view (conn appended)) = [1]) by (vm_compute; reflexivity). rewrite Hs in Hi. destruct Hi as ([| n] & Hi & _); [| destruct n; discriminate Hi].
  injection Hi as <-. vm_compute in Hm. injection Hm as <-. vm_compute in Hr. discriminate Hr.
Defined.

(** A refused APPEND: the mailbox does not exist, the literal has been sent, the next command is read whole. *)
Definition ex_waiting : World := set_conn (set_input ("hello" ++ SmtpData.CRLF ++ "e NOOP")) started.

(** ** Threads

    Two messages that name each other as parents, one that answers a missing message, a
    duplicate id, and one of the same subject. *)
Definition tm (n : Z) (id : gostring) (r : list gostring) (s : gostring) : threadMsg :=
  {| num := n; tseq := n; msgID := id; refs := r; tsubject := s; tdate := n |}.
Definition ex_threads : list threadMsg :=
  [tm 1 "a" ["b" : gostring] "one"; tm 2 "b" ["a" : gostring] "one"; tm 3 "c" ["x" : gostring] "two"; tm 4 "a" [] "three"; tm 5 [] [] "Re: two"].

(** An id with a NUL byte in front can take the place of a message without an id: message 2 is lost. *)
Example nul_id_hides_a_message : length (all_members (threadReferences [tm 1 (NUL :: FormatUint 1) [] "one"; tm 2 [] [] "two"])) = 1%nat.
Proof. vm_compute. reflexivity. Qed.
