(* ===== verification/Pop3.v ===== *)
(** * internal/pop3: the POP3 session

    The session of server.go: the three states, every command, the lockout table
    and the maildrop locks.  [Mailstore] is the interface of the same name;
    [World] is one session with the parts of the server it shares with others.

    Other sessions and servers work on the same store.  [others] is what they do
    to it before each of the session's next calls of the store: a call of the
    store sees their changes, so that two calls of one command need not see the
    same maildrop.  Writes to the connection succeed; the TLS handshake, the
    certificate and the iteration order of a Go map are fields of [Server].  The
    listener, the drain at shutdown, tracing and logs are left out. *)
From S2P Require Import Prelude GoLib SmtpData.

Record Message := {
  Index : Z;
  UID : gostring;
  BlobID : gostring;
  Size : Z;
  Data : option gostring
}.

(** Errors are [None]; [DeleteMessage] says whether it succeeded. *)
Class Mailstore (St : Type) := {
  Authenticate : gostring -> gostring -> St -> option bool;
  ListMessages : gostring -> St -> option (list (option Message));
  GetMessageData : gostring -> Z -> St -> option gostring;
  DeleteMessage : gostring -> Z -> St -> bool * St
}.

Inductive State := StateAuthorization | StateTransaction | StateUpdate.
#[export] Instance State_eq_dec : EqDecision State.
Proof. solve_decision. Defined.

Record Session := {
  id : gostring;
  state : State;
  user : gostring;
  messages : list (option Message);
  deletedUIDs : gset gostring;
  isTLS : bool;
  lockedUser : gostring;
  failedPass : Z
}.

Definition NewSession (ident : gostring) (tls : bool) : Session := {|
  id := ident; state := StateAuthorization; user := []; messages := []; deletedUIDs := ∅; isTLS := tls; lockedUser := [];
  failedPass := 0 |}.

Record Server := {
  authFunc : option (gostring -> gostring -> option bool);
  quotaRelease : bool;                       (* a quota callback is installed *)
  maxLoginAttempts : Z;
  lockoutDuration : Z;
  requireTLS : bool;
  tlsConfig : bool;
  certificateLoads : bool;                   (* getTLSConfig returns no error *)
  handshake : bool;
  clientIP : gostring;
  mapOrder : gmap gostring (list Z) -> list gostring;
  maxConnections : Z;
  bufsize : nat;
  stream_end : read_error
}.

Record World (St : Type) := {
  sess : Session;
  authFailures : gmap gostring (list Z);
  maildrops : gmap gostring gostring;
  store : St;
  others : list (St -> St);
  released : list (gostring * Z);            (* calls of the quota callback *)
  input : gostring;
  out : gostring
}.
Arguments sess {St}. Arguments authFailures {St}. Arguments maildrops {St}. Arguments store {St}. Arguments others {St}.
Arguments released {St}. Arguments input {St}. Arguments out {St}.

Section Updates.
Context {St : Type}.
Implicit Types w : World St.

Definition set_sess (f : Session -> Session) w : World St := {|
  sess := f (sess w); authFailures := authFailures w; maildrops := maildrops w; store := store w; others := others w;
  released := released w; input := input w; out := out w |}.
Definition set_failures m w : World St := {|
  sess := sess w; authFailures := m; maildrops := maildrops w; store := store w; others := others w;
  released := released w; input := input w; out := out w |}.
Definition set_maildrops m w : World St := {|
  sess := sess w; authFailures := authFailures w; maildrops := m; store := store w; others := others w;
  released := released w; input := input w; out := out w |}.
Definition set_store st w : World St := {|
  sess := sess w; authFailures := authFailures w; maildrops := maildrops w; store := st; others := others w;
  released := released w; input := input w; out := out w |}.
Definition set_input i w : World St := {|
  sess := sess w; authFailures := authFailures w; maildrops := maildrops w; store := store w; others := others w;
  released := released w; input := i; out := out w |}.
Definition release_quota u n w : World St := {|
  sess := sess w; authFailures := authFailures w; maildrops := maildrops w; store := store w; others := others w;
  released := released w ++ [(u, n)]; input := input w; out := out w |}.
Definition write s w : World St := {|
  sess := sess w; authFailures := authFailures w; maildrops := maildrops w; store := store w; others := others w;
  released := released w; input := input w; out := out w ++ s |}.

(** What the others do before the next call of the store. *)
Definition interfere w : World St :=
  match others w with
  | [] => w
  | f :: r => {| sess := sess w; authFailures := authFailures w; maildrops := maildrops w; store := f (store w); others := r;
    released := released w; input := input w; out := out w |}
  end.
End Updates.

Definition with_user (u : gostring) (s : Session) : Session := {|
  id := id s; state := state s; user := u; messages := messages s; deletedUIDs := deletedUIDs s; isTLS := isTLS s;
  lockedUser := lockedUser s; failedPass := failedPass s |}.
Definition with_locked (k : gostring) (s : Session) : Session := {|
  id := id s; state := state s; user := user s; messages := messages s; deletedUIDs := deletedUIDs s; isTLS := isTLS s;
  lockedUser := k; failedPass := failedPass s |}.
Definition with_state (st : State) (s : Session) : Session := {|
  id := id s; state := st; user := user s; messages := messages s; deletedUIDs := deletedUIDs s; isTLS := isTLS s;
  lockedUser := lockedUser s; failedPass := failedPass s |}.
Definition with_deleted (d : gset gostring) (s : Session) : Session := {|
  id := id s; state := state s; user := user s; messages := messages s; deletedUIDs := d; isTLS := isTLS s;
  lockedUser := lockedUser s; failedPass := failedPass s |}.
Definition with_messages (ms : list (option Message)) (s : Session) : Session := {|
  id := id s; state := state s; user := user s; messages := ms; deletedUIDs := deletedUIDs s; isTLS := isTLS s;
  lockedUser := lockedUser s; failedPass := failedPass s |}.
Definition fail_pass (s : Session) : Session := {|
  id := id s; state := state s; user := user s; messages := messages s; deletedUIDs := deletedUIDs s; isTLS := isTLS s;
  lockedUser := lockedUser s; failedPass := failedPass s + 1 |}.
(** What STLS leaves of a session. *)
Definition after_stls (s : Session) : Session := {|
  id := id s; state := StateAuthorization; user := []; messages := []; deletedUIDs := deletedUIDs s; isTLS := true;
  lockedUser := lockedUser s; failedPass := failedPass s |}.
Definition with_data (d : option gostring) (m : Message) : Message := {|
  Index := Index m; UID := UID m; BlobID := BlobID m; Size := Size m; Data := d |}.

(** ** Writing *)

Definition WriteResponse {St} (r : gostring) : World St -> World St := write (r ++ CRLF).
Definition data_line (line : gostring) : gostring := (if HasPrefix line "." then "."%char :: line else line) ++ CRLF.
Definition WriteDataLine {St} (line : gostring) : World St -> World St := write (data_line line).
Definition WriteDataEnd {St} : World St -> World St := write ("." ++ CRLF).
Definition WriteDataLines {St} (ls : list gostring) (w : World St) : World St := foldl (fun w l => WriteDataLine l w) w ls.

Fixpoint stuff_go (atLineStart : bool) (data : gostring) : gostring :=
  match data with
  | [] => []
  | c :: t =>
      (if atLineStart && (c =c? ".") then ["."%char] else []) ++
      c :: stuff_go (if c =c? LF then true else if negb (c =c? CR) then false else atLineStart) t
  end.

Definition dotStuffData (data : gostring) : gostring :=
  if negb (HasPrefix (TrimLeft data CRLF) ".") && negb (Contains data [LF; "."%char]) && negb (Contains data [CR; "."%char])
  then data else stuff_go true data.

(** The octets of [sendTop]: headers, an empty line and the first lines of the
    body; all of a message without an empty line. *)
Definition header_end (content : gostring) : option (nat * nat) :=
  let crlf := (fun i => (i, 4%nat)) <$> GoLib.Index content [CR; LF; CR; LF] in
  match GoLib.Index content [LF; LF], crlf with
  | Some i, Some (j, _) => if (i <? j)%nat then Some (i, 2%nat) else crlf
  | Some i, None => Some (i, 2%nat)
  | None, _ => crlf
  end.

Definition top_octets (data : gostring) (lines : Z) : gostring :=
  match header_end data with
  | None =>
      let stuffed := dotStuffData data in
      stuffed ++ (if negb (bool_decide (stuffed = [])) && negb (HasSuffix stuffed [LF]) then CRLF else [])
  | Some (headerEnd, sepLen) =>
      let body := TrimSuffix (drop (headerEnd + sepLen) data) [LF] in
      let bodyLines := if bool_decide (body = []) then [] else Split body LF in
      dotStuffData (take headerEnd data) ++ CRLF ++ CRLF ++
      concat (map (fun l => data_line (TrimRight l [CR])) (take (Z.to_nat lines) bodyLines))
  end.

(** The octets behind the status line of RETR. *)
Definition retr_octets (data : gostring) : gostring :=
  let stuffed := dotStuffData data in
  stuffed ++ (if negb (HasSuffix stuffed [LF]) then CRLF else []) ++ "." ++ CRLF.

(** How a command ends: the session goes on, or its handler returned an error. *)
Inductive verdict := Continue | EndSession.

Section Server.
Context {U : UnicodeTables} {St : Type} {MS : Mailstore St}.
Context (srv : Server) (now : Z).
Implicit Types w : World St.

(** ** Lockout *)
Definition maxTrackedAuthKeys : Z := 50000.
Definition userAuthLimitFactor : Z := 3.
Definition authUserKey (username : gostring) : gostring := "user:" ++ ToLower (TrimSpace username).

Definition recent (cutoff : Z) (ts : list Z) : list Z := List.filter (fun t => cutoff <? t) ts.

Definition lockedKey (key : gostring) (limit : Z) (m : gmap gostring (list Z)) : bool * gmap gostring (list Z) :=
  if maxLoginAttempts srv <=? 0 then (false, m) else
  let r := recent (now - lockoutDuration srv) (default [] (m !! key)) in
  (limit <=? Z.of_nat (length r), match r with [] => delete key m | _ => <[key := r]> m end).

(** Keys are deleted in the order of the map until there is room. *)
Fixpoint make_room (order : list gostring) (m : gmap gostring (list Z)) : gmap gostring (list Z) :=
  match order with
  | [] => m
  | k :: r => if Z.of_nat (size m) <? maxTrackedAuthKeys then m else make_room r (delete k m)
  end.

Definition recordKey (key : gostring) (m : gmap gostring (list Z)) : gmap gostring (list Z) :=
  if maxLoginAttempts srv <=? 0 then m else
  let m :=
  if negb (bool_decide (is_Some (m !! key))) && (maxTrackedAuthKeys <=? Z.of_nat (size m)) then
  let cutoff := now - lockoutDuration srv in
  let m := filter (fun kv => match last kv.2 with Some t => cutoff <? t | None => false end = true) m in
  make_room (mapOrder srv m) m
  else m in
  <[key := default [] (m !! key) ++ [now]]> m.

Definition isAuthLockedOut (ip : gostring) := lockedKey ip (maxLoginAttempts srv).
Definition isUserLockedOut (username : gostring) :=
  lockedKey (authUserKey username) (maxLoginAttempts srv * userAuthLimitFactor).

(** ** The maildrop lock *)
Definition maildropKey (u : gostring) : gostring := ToLower (TrimSpace u).

Definition acquireMaildrop (u : gostring) (w : World St) : bool * World St :=
  let key := maildropKey u in
  match maildrops w !! key with
  | Some _ => (false, w)
  | None => (true, set_sess (with_locked key) (set_maildrops (<[key := id (sess w)]> (maildrops w)) w))
  end.

Definition releaseMaildrop (w : World St) : World St :=
  let key := lockedUser (sess w) in
  if bool_decide (key = []) then w else
  let w := if bool_decide (maildrops w !! key = Some (id (sess w))) then set_maildrops (delete key (maildrops w)) w else w in
  set_sess (with_locked []) w.

Definition maxFailedPassPerConn : Z := 5.

(** ** AUTHORIZATION *)
Definition credentials_ok (u p : gostring) (st : St) : bool :=
  match authFunc srv with
  | Some f => bool_decide (f u p = Some true)
  | None => bool_decide (Authenticate u p st = Some true)
  end.

Definition handleUSER (args : list gostring) (w : World St) : verdict * World St :=
  match args with
  | [] => (Continue, WriteResponse "-ERR Usage: USER <username>" w)
  | u :: _ =>
      if requireTLS srv && negb (isTLS (sess w)) then (Continue, WriteResponse "-ERR TLS required for authentication" w)
      else (Continue, WriteResponse "+OK" (set_sess (with_user u) w))
  end.

(** Login with verified credentials: the lock, then the snapshot. *)
Definition open_maildrop (w : World St) : verdict * World St :=
  let u := user (sess w) in
  match acquireMaildrop u w with
  | (false, w) =>
      (Continue, set_sess (with_user []) (WriteResponse "-ERR [IN-USE] Maildrop is locked by another session" w))
  | (true, w) =>
      let w := interfere w in
      match ListMessages u (store w) with
      | None => (Continue, WriteResponse "-ERR Unable to load messages" (releaseMaildrop w))
      | Some ms =>
          (Continue, WriteResponse "+OK" (set_sess (fun s => with_state StateTransaction (with_messages ms s)) w))
      end
  end.

Definition handlePASS (args : list gostring) (w : World St) : verdict * World St :=
  match args with
  | [] => (Continue, WriteResponse "-ERR Usage: PASS <password>" w)
  | p :: _ =>
      let u := user (sess w) in
      if bool_decide (u = []) then (Continue, WriteResponse "-ERR USER required first" w)
      else if requireTLS srv && negb (isTLS (sess w))
      then (Continue, WriteResponse "-ERR TLS required for authentication" w)
      else
      let '(locked, m) := isAuthLockedOut (clientIP srv) (authFailures w) in
      let '(locked, m) := if locked then (true, m) else isUserLockedOut u m in
      let w := set_failures m w in
      if locked
      then (Continue, set_sess (with_user []) (WriteResponse "-ERR Too many failed authentication attempts" w))
      else
      let w := match authFunc srv with Some _ => w | None => interfere w end in
      if negb (credentials_ok u p (store w)) then
      let w := set_failures (recordKey (authUserKey u) (recordKey (clientIP srv) (authFailures w))) w in
      let w := set_sess fail_pass w in
      if maxFailedPassPerConn <=? failedPass (sess w)
      then (EndSession, set_sess (with_user []) (WriteResponse "-ERR Too many authentication failures" w))
      else (Continue, set_sess (with_user []) (WriteResponse "-ERR Authentication failed" w))
      else open_maildrop (set_failures (delete (authUserKey u) (delete (clientIP srv) (authFailures w))) w)
  end.

(** [tlsInput] is what the peer sends after the handshake. *)
Definition handleSTLS (tlsInput : gostring) (w : World St) : verdict * World St :=
  if negb (tlsConfig srv) then (Continue, WriteResponse "-ERR Command not available" w)
  else if isTLS (sess w) then (Continue, WriteResponse "-ERR Already using TLS" w)
  else if negb (certificateLoads srv) then (Continue, WriteResponse "-ERR TLS configuration error" w)
  else
  let w := WriteResponse "+OK Begin TLS negotiation" w in
  if negb (handshake srv) then (EndSession, w)
  else (Continue, set_input tlsInput (set_sess after_stls w)).

Definition transaction_commands : list gostring :=
  map String.list_ascii_of_string ["STAT"; "LIST"; "RETR"; "DELE"; "NOOP"; "RSET"; "QUIT"; "UIDL"; "TOP"]%string.

Definition handleAuthorizationCommand (tlsInput command : gostring) (args : list gostring) (w : World St)
  : verdict * World St :=
  if command =s? "USER" then handleUSER args w
  else if command =s? "PASS" then handlePASS args w
  else if command =s? "QUIT" then (EndSession, WriteResponse "+OK" w)
  else if command =s? "STLS" then handleSTLS tlsInput w
  else if command =s? "CAPA" then
  let w := WriteResponse "+OK Capability list follows" w in
  let w := if negb (requireTLS srv) || isTLS (sess w) then WriteDataLine "PASS" (WriteDataLine "USER" w) else w in
  let w := WriteDataLines transaction_commands w in
  let w := if tlsConfig srv && negb (isTLS (sess w)) && certificateLoads srv then WriteDataLine "STLS" w else w in
  (Continue, WriteDataEnd w)
  else (Continue, WriteResponse "-ERR Command not valid in this state" w).

(** ** TRANSACTION *)
Definition marked (s : Session) (m : Message) : bool := bool_decide (UID m ∈ deletedUIDs s).

(** The messages that are listed, with their numbers. *)
Definition listed (s : Session) : list (Z * Message) :=
  omap (fun '(i, o) => match o with Some m => if marked s m then None else Some (Z.of_nat i + 1, m) | None => None end)
  (imap pair (messages s)).

(** The argument of LIST, RETR, UIDL and TOP: a number of the snapshot whose
    message is not marked. *)
Inductive lookup_result := NoSuch | Deleted | Found (index : Z) (m : Message).
Definition resolve (arg : gostring) (s : Session) : lookup_result :=
  match Atoi arg with
  | Err _ => NoSuch
  | Ok index =>
      if (index <? 1) || (Z.of_nat (length (messages s)) <? index) then NoSuch
      else match messages s !! Z.to_nat (index - 1) with
      | Some (Some m) => if marked s m then Deleted else Found index m
      | _ => Deleted
      end
  end.

(** [loadSnapshotMessageData]: the first message with the UID in a fresh listing,
    then its data by number: two calls of the store. *)
Definition position_of (uid : gostring) (current : list (option Message)) : option nat :=
  fst <$> list_find (fun o : option Message => UID <$> o = Some uid) current.

Definition loadSnapshotMessageData (m : Message) (w : World St) : option gostring * World St :=
  let w := interfere w in
  match ListMessages (user (sess w)) (store w) with
  | None => (None, w)
  | Some current =>
      match position_of (UID m) current with
      | None => (None, w)
      | Some i => let w := interfere w in (GetMessageData (user (sess w)) (Z.of_nat i + 1) (store w), w)
      end
  end.

(** The data of a message of the snapshot; it is kept in the snapshot. *)
Definition message_data (index : Z) (m : Message) (w : World St) : option gostring * World St :=
  match Data m with
  | Some d => (Some d, w)
  | None =>
      let '(d, w) := loadSnapshotMessageData m w in
      (d, set_sess (fun s => with_messages (<[Z.to_nat (index - 1) := Some (with_data d m)]> (messages s)) s) w)
  end.

Definition err_no_such : gostring := "-ERR No such message".
Definition err_deleted : gostring := "-ERR Message deleted".

Definition handleSTAT (w : World St) : World St :=
  let l := listed (sess w) in
  WriteResponse ("+OK " ++ FormatInt (Z.of_nat (length l)) ++ " " ++
    FormatInt (foldl (fun n '(_, m) => wrap_i64 (n + Size m)) 0 l)) w.

(** LIST and UIDL: [show] renders a message. *)
Definition handle_listing (show : Message -> gostring) (args : list gostring) (w : World St) : World St :=
  match args with
  | [] =>
      WriteDataEnd (WriteDataLines (map (fun '(i, m) => FormatInt i ++ " " ++ show m) (listed (sess w)))
        (WriteResponse "+OK" w))
  | a :: _ =>
      match resolve a (sess w) with
      | NoSuch => WriteResponse err_no_such w
      | Deleted => WriteResponse err_deleted w
      | Found i m => WriteResponse ("+OK " ++ FormatInt i ++ " " ++ show m) w
      end
  end.

Definition handleRETR (args : list gostring) (w : World St) : World St :=
  match args with
  | [] => WriteResponse "-ERR Usage: RETR <msg>" w
  | a :: _ =>
      match resolve a (sess w) with
      | NoSuch => WriteResponse err_no_such w
      | Deleted => WriteResponse err_deleted w
      | Found i m =>
          match message_data i m w with
          | (None, w) => WriteResponse "-ERR Failed to read message" w
          | (Some d, w) =>
              write (retr_octets d)
              (WriteResponse ("+OK " ++ FormatInt (Z.of_nat (length (dotStuffData d))) ++ " octets") w)
          end
      end
  end.

Definition handleDELE (args : list gostring) (w : World St) : World St :=
  match args with
  | [] => WriteResponse "-ERR Usage: DELE <msg>" w
  | a :: _ =>
      match Atoi a with
      | Err _ => WriteResponse err_no_such w
      | Ok index =>
          if (index <? 1) || (Z.of_nat (length (messages (sess w))) <? index) then WriteResponse err_no_such w
          else match messages (sess w) !! Z.to_nat (index - 1) with
          | Some (Some m) =>
              if marked (sess w) m then WriteResponse "-ERR Message already deleted" w
              else WriteResponse "+OK" (set_sess (fun s => with_deleted ({[UID m]} ∪ deletedUIDs s) s) w)
          | _ => WriteResponse err_no_such w
          end
      end
  end.

Definition handleTOP (args : list gostring) (w : World St) : World St :=
  match args with
  | a :: n :: _ =>
      match Atoi a with
      | Err _ => WriteResponse err_no_such w
      | Ok index =>
          if (index <? 1) || (Z.of_nat (length (messages (sess w))) <? index) then WriteResponse err_no_such w else
          match Atoi n with
          | Err _ => WriteResponse "-ERR Invalid line count" w
          | Ok lines =>
              if lines <? 0 then WriteResponse "-ERR Invalid line count" w else
              match resolve a (sess w) with
              | NoSuch => WriteResponse err_no_such w
              | Deleted => WriteResponse err_deleted w
              | Found i m =>
                  match message_data i m w with
                  | (None, w) => WriteResponse "-ERR Failed to read message" w
                  | (Some d, w) => WriteDataEnd (write (top_octets d lines) (WriteResponse "+OK" w))
                  end
              end
          end
      end
  | _ => WriteResponse "-ERR Usage: TOP <msg> <lines>" w
  end.

(** ** UPDATE *)
(** From the last listed message to the first: [i] is the number of the last one. *)
Fixpoint delete_marked (current : list (option Message)) (i : Z) (failed : bool) (w : World St) : bool * World St :=
  match current with
  | [] => (failed, w)
  | o :: before =>
      match o with
      | Some m =>
          if marked (sess w) m then
          let w := interfere w in
          let '(ok, st) := DeleteMessage (user (sess w)) i (store w) in
          let w := set_store st w in
          let w := if ok && quotaRelease srv && (0 <? Size m) then release_quota (user (sess w)) (Size m) w else w in
          delete_marked before (i - 1) (failed || negb ok) w
          else delete_marked before (i - 1) failed w
      | None => delete_marked before (i - 1) failed w
      end
  end.

Definition handleUpdateCommand (w : World St) : verdict * World St :=
  let w := interfere w in
  match ListMessages (user (sess w)) (store w) with
  | None => (EndSession, WriteResponse "-ERR Unable to update maildrop" (releaseMaildrop w))
  | Some current =>
      let '(failed, w) := delete_marked (rev current) (Z.of_nat (length current)) false w in
      let w := releaseMaildrop w in
      (EndSession, WriteResponse (if failed then "-ERR Unable to delete some messages" else "+OK") w)
  end.

Definition handleTransactionCommand (command : gostring) (args : list gostring) (w : World St) : verdict * World St :=
  if command =s? "STAT" then (Continue, handleSTAT w)
  else if command =s? "LIST" then (Continue, handle_listing (fun m => FormatInt (Size m)) args w)
  else if command =s? "RETR" then (Continue, handleRETR args w)
  else if command =s? "DELE" then (Continue, handleDELE args w)
  else if command =s? "NOOP" then (Continue, WriteResponse "+OK" w)
  else if command =s? "RSET" then (Continue, WriteResponse "+OK" (set_sess (with_deleted ∅) w))
  else if command =s? "UIDL" then (Continue, handle_listing UID args w)
  else if command =s? "TOP" then (Continue, handleTOP args w)
  else if command =s? "QUIT" then handleUpdateCommand (set_sess (with_state StateUpdate) w)
  else if command =s? "CAPA" then
  (Continue, WriteDataEnd (WriteDataLines transaction_commands (WriteResponse "+OK Capability list follows" w)))
  else (Continue, WriteResponse "-ERR Unknown command" w).

(** ** Commands *)
Fixpoint index_blank (s : gostring) : option nat :=
  match s with
  | [] => None
  | c :: t => if (c =c? " ") || (bz c =? 9) then Some 0%nat else S <$> index_blank t
  end.

Definition passArgument (line : gostring) : option gostring :=
  let trimmed := TrimLeft line [" "%char; byte_of 9] in
  match index_blank trimmed with
  | None => None
  | Some i => let pw := drop (i + 1) trimmed in if bool_decide (TrimSpace pw = []) then None else Some pw
  end.

Definition handleCommand (tlsInput line : gostring) (w : World St) : verdict * World St :=
  match Fields line with
  | [] => (Continue, WriteResponse "-ERR Invalid command" w)
  | c :: args =>
      let command := ToUpper c in
      let args := if command =s? "PASS" then match passArgument line with Some pw => [pw] | None => args end else args in
      match state (sess w) with
      | StateAuthorization => handleAuthorizationCommand tlsInput command args w
      | StateTransaction => handleTransactionCommand command args w
      | StateUpdate => handleUpdateCommand w
      end
  end.

(** ** Lines *)
Definition maxCommandLineLength : Z := 8192.
Inductive line_error := errLineTooLong | errRead (e : read_error).

Fixpoint readLine_go (fuel : nat) (line s : gostring) : result line_error gostring * gostring :=
  match fuel with
  | O => (Err (errRead (stream_end srv)), [])
  | S f =>
      match ReadSlice (bufsize srv) s with
      | SliceErr =>
          if maxCommandLineLength <? Z.of_nat (length line + length s) then (Err errLineTooLong, [])
          else (Err (errRead (stream_end srv)), [])
      | SliceFull chunk rest =>
          if maxCommandLineLength <? Z.of_nat (length line + length chunk) then (Err errLineTooLong, rest)
          else readLine_go f (line ++ chunk) rest
      | SliceLine chunk rest =>
          if maxCommandLineLength <? Z.of_nat (length line + length chunk) then (Err errLineTooLong, rest)
          else (Ok (TrimRight (line ++ chunk) CRLF), rest)
      end
  end.
Definition readLine (s : gostring) : result line_error gostring * gostring := readLine_go (S (length s)) [] s.

(** One round of [Handle]; the maildrop lock is released when the loop is left. *)
Definition serveRound (tlsInput : gostring) (w : World St) : verdict * World St :=
  let '(r, rest) := readLine (input w) in
  let w := set_input rest w in
  match r with
  | Err errLineTooLong => (EndSession, releaseMaildrop (WriteResponse "-ERR Line too long" w))
  | Err (errRead _) => (EndSession, releaseMaildrop w)
  | Ok [] => (Continue, w)
  | Ok line =>
      match handleCommand tlsInput line w with
      | (EndSession, w) => (EndSession, releaseMaildrop w)
      | (Continue, w) => (Continue, w)
      end
  end.
End Server.

(** ** The sessions of a server *)
(** What the sessions share, and the sessions by id.  Ids of live sessions are
    distinct, as their pointers are. *)
Record System (St : Type) := {
  sessions : gmap gostring Session;
  sysFailures : gmap gostring (list Z);
  sysMaildrops : gmap gostring gostring;
  sysStore : St;
  shutdown : bool
}.
Arguments sessions {St}. Arguments sysFailures {St}. Arguments sysMaildrops {St}. Arguments sysStore {St}. Arguments shutdown {St}.

Section System.
Context {U : UnicodeTables} {St : Type} {MS : Mailstore St}.
Context (srv : Server).
Implicit Types y : System St.

Definition set_sessions m y : System St := {|
  sessions := m; sysFailures := sysFailures y; sysMaildrops := sysMaildrops y; sysStore := sysStore y; shutdown := shutdown y |}.

(** [handleConnection] up to the command loop. *)
Definition handleConnection (ident : gostring) (tls : bool) y : System St :=
  if shutdown y then y
  else if (0 <? maxConnections srv) && (maxConnections srv <=? Z.of_nat (size (sessions y))) then y
  else set_sessions (<[ident := NewSession ident tls]> (sessions y)) y.

(** The session's view of the system when [received] is what its peer sent. *)
Definition world_of (s : Session) (oth : list (St -> St)) (received : gostring) y : World St := {|
  sess := s; authFailures := sysFailures y; maildrops := sysMaildrops y; store := sysStore y; others := oth; released := [];
  input := received; out := [] |}.

(** A round of a session's loop; a session that ends is removed. *)
Definition serve (now : Z) (ident : gostring) (s : Session) (oth : list (St -> St)) (received tlsInput : gostring) y : System St :=
  let '(v, w) := serveRound srv now tlsInput (world_of s oth received y) in
  {| sessions := match v with Continue => <[ident := sess w]> (sessions y) | EndSession => delete ident (sessions y) end;
    sysFailures := authFailures w; sysMaildrops := maildrops w; sysStore := store w; shutdown := shutdown y |}.

Inductive sys_step : System St -> System St -> Prop :=
  | Sys_connect ident tls y : sessions y !! ident = None -> sys_step y (handleConnection ident tls y)
  | Sys_round now ident s oth received tlsInput y :
  sessions y !! ident = Some s -> sys_step y (serve now ident s oth received tlsInput y)
  | Sys_store (f : St -> St) y :
  sys_step y {| sessions := sessions y; sysFailures := sysFailures y; sysMaildrops := sysMaildrops y;
    sysStore := f (sysStore y); shutdown := shutdown y |}
  | Sys_stop y :
  sys_step y {| sessions := sessions y; sysFailures := sysFailures y; sysMaildrops := sysMaildrops y;
    sysStore := sysStore y; shutdown := true |}.

Definition sys_init (st : St) : System St := {|
  sessions := ∅; sysFailures := ∅; sysMaildrops := ∅; sysStore := st; shutdown := false |}.
End System.
