(* ===== verification/Pop3Props.v ===== *)
(** * internal/pop3: properties of the session

    [MailstoreLaws] is what the session relies on in its store; the theorems on
    UPDATE and RETR are proved from it, and [Pop3Store] shows that the server's
    store has these laws.  The system of all sessions is [sys_step]. *)
From S2P Require Import Prelude GoLib SmtpData Pop3.

(** ** The store *)
Abbreviation uids L := (map (fmap (M := option) UID) L).

Section Views.
Context {St : Type} {MS : Mailstore St}.

(** The data of the message with a UID. *)
Definition data_of (u uid : gostring) (st : St) : option gostring :=
  current ← ListMessages u st; i ← position_of uid current; GetMessageData u (Z.of_nat i + 1) st.
End Views.

Class MailstoreLaws (St : Type) {MS : Mailstore St} := {
  ms_ok : St -> Prop;
  law_unique u st L : ms_ok st -> ListMessages u st = Some L -> NoDup (uids L);
  law_delete u st L i m : ms_ok st -> ListMessages u st = Some L -> L !! i = Some (Some m) ->
    exists st' L', DeleteMessage u (Z.of_nat i + 1) st = (true, st') /\ ms_ok st' /\
      ListMessages u st' = Some L' /\ uids L' = delete i (uids L) /\
      (forall uid, uid <> UID m -> data_of u uid st' = data_of u uid st)
}.

Section Update.
Context {U : UnicodeTables} {St : Type} {MS : Mailstore St} {LS : MailstoreLaws St}.
Context (srv : Server) (now : Z).
Implicit Types w : World St.

Definition unmarked (s : Session) (o : option gostring) : Prop :=
  match o with Some uid => uid ∉ deletedUIDs s | None => True end.
#[local] Instance unmarked_dec s o : Decision (unmarked s o).
Proof. destruct o; apply _. Defined.

(** What the quota callback is told. *)
Definition freed (s : Session) (L : list (option Message)) : list (gostring * Z) :=
  omap (fun o => match o with
  | Some m => if marked s m && quotaRelease srv && (0 <? Size m) then Some (user s, Size m) else None
  | None => None
  end) L.

(** Two worlds that differ in the store and the quota calls only. *)
Definition same_session w w' : Prop :=
  sess w' = sess w /\ maildrops w' = maildrops w /\ out w' = out w /\ others w' = others w.

(** What is left of the maildrop: [kept] in this order, with its data. *)
Definition maildrop_is (kept : list (option gostring)) w w' : Prop :=
  ms_ok (store w') /\
  (exists L', ListMessages (user (sess w)) (store w') = Some L' /\ uids L' = kept) /\
  (forall uid, uid ∉ deletedUIDs (sess w) ->
    data_of (user (sess w)) uid (store w') = data_of (user (sess w)) uid (store w)).

(** One round of the loop: the message at the end of what is left to look at. *)
Lemma delete_one pre m K w :
  others w = [] -> marked (sess w) m = true -> maildrop_is (uids pre ++ Some (UID m) :: K) w w ->
  exists w', delete_marked srv (Some m :: rev pre) (Z.of_nat (length pre + 1)) false w =
  delete_marked srv (rev pre) (Z.of_nat (length pre)) false w' /\
  same_session w w' /\ maildrop_is (uids pre ++ K) w w' /\
  released w' = released w ++ freed (sess w) [Some m].
Proof.
  intros Ho Em (Hok & (L & HL & Hu) & _). cbn [delete_marked]. rewrite Em. unfold interfere. rewrite Ho.
  replace (Z.of_nat (length pre + 1) - 1) with (Z.of_nat (length pre)) by lia.
  replace (Z.of_nat (length pre + 1)) with (Z.of_nat (length pre) + 1) by lia.
  assert (HLi : exists m', L !! length pre = Some (Some m') /\ UID m' = UID m).
  { assert (H : uids L !! length pre = Some (Some (UID m))).
    { rewrite Hu, lookup_app_r by (rewrite length_map; done). by rewrite length_map, Nat.sub_diag. }
    rewrite list_lookup_fmap in H. destruct (L !! length pre) as [[m' |] |]; [| done | done]. exists m'. cbn in H. by simplify_eq. }
  destruct HLi as (m' & HLi & Em'). destruct (law_delete _ _ _ _ _ Hok HL HLi) as (st' & L' & -> & Hok' & HL' & Hu' & Hdata).
  cbn [negb orb andb]. eexists. split; [reflexivity |].
  assert (Hmem : UID m ∈ deletedUIDs (sess w)) by (by apply bool_decide_eq_true in Em).
  unfold same_session, maildrop_is, freed. cbn [omap list_omap]. rewrite Em. cbn [andb].
  destruct (quotaRelease srv && (0 <? Size m)); cbn [set_store release_quota sess maildrops out others store released];
    rewrite ?app_nil_r; (split; [done | split; [| done]]); (split; [done |]); (split; [exists L'; split; [done |] |]).
  2, 4: intros uid Huid; apply Hdata; congruence.
  all: rewrite Hu', Hu; replace (length pre) with (length (uids pre)) by apply length_map; apply delete_middle.
Qed.

Lemma freed_app s L L' : freed s (L ++ L') = freed s L ++ freed s L'.
Proof. apply omap_app. Qed.

Lemma delete_marked_spec pre K w :
  others w = [] -> maildrop_is (uids pre ++ K) w w ->
  exists w', delete_marked srv (rev pre) (Z.of_nat (length pre)) false w = (false, w') /\
  same_session w w' /\ maildrop_is (filter (unmarked (sess w)) (uids pre) ++ K) w w' /\
  released w' = released w ++ freed (sess w) (rev pre).
Proof.
  revert K w. induction pre as [| o pre IH] using rev_ind; intros K w Ho Hd.
  { exists w. cbn. by rewrite app_nil_r. }
  rewrite map_app, <- app_assoc in Hd. cbn [map app] in Hd. rewrite rev_app_distr, length_app. cbn [rev app length].
  rewrite map_app, filter_app, <- app_assoc. cbn [map]. destruct o as [m |]; cycle 1.
  { cbn [delete_marked]. replace (Z.of_nat (length pre + 1) - 1) with (Z.of_nat (length pre)) by lia.
    by apply (IH (None :: K)). }
  destruct (marked (sess w) m) eqn:Em; cycle 1.
  { cbn [delete_marked]. rewrite Em. replace (Z.of_nat (length pre + 1) - 1) with (Z.of_nat (length pre)) by lia.
    change (Some m :: rev pre) with ([Some m] ++ rev pre). rewrite freed_app. unfold freed at 1. cbn [omap list_omap].
    rewrite Em. cbn [andb app fmap option_fmap option_map]. rewrite filter_cons.
    apply bool_decide_eq_false in Em. rewrite decide_True by done. by apply (IH (Some (UID m) :: K)). }
  destruct (delete_one pre m K w Ho Em Hd) as (w1 & -> & (S1 & S2 & S3 & S4) & Hd1 & R1).
  destruct (IH K w1) as (w2 & E2 & (T1 & T2 & T3 & T4) & (D1 & D2 & D3) & R2); [congruence | |].
  { destruct Hd1 as (A & B & _). unfold maildrop_is. by rewrite S1. }
  rewrite S1 in *. exists w2. split; [done |]. split; [split_and!; congruence |]. split.
  - split; [done |]. split.
    + cbn [fmap option_fmap option_map]. rewrite filter_cons, decide_False; [done |]. apply bool_decide_eq_true in Em. cbn. tauto.
    + intros uid Huid. rewrite D3 by done. by apply Hd1.
  - rewrite R2, R1, <- app_assoc. f_equal. change (Some m :: rev pre) with ([Some m] ++ rev pre). by rewrite freed_app.
Qed.

Lemma release_frame w :
  let w' := releaseMaildrop w in
  store w' = store w /\ out w' = out w /\ released w' = released w /\ others w' = others w /\ input w' = input w /\
  user (sess w') = user (sess w) /\ lockedUser (sess w') = [] /\ state (sess w') = state (sess w) /\ id (sess w') = id (sess w).
Proof.
  unfold releaseMaildrop. case_bool_decide as E; [by rewrite E |]. by destruct (bool_decide (maildrops w !! _ = _)).
Qed.

End Update.

(** ** What a command changes *)
Section Effects.
Context {U : UnicodeTables} {St : Type} {MS : Mailstore St}.
Context (srv : Server) (now : Z).
Implicit Types w : World St.

(** Only the snapshot, the marks, the output and the failure table change. *)
Record quiet w w' : Prop := {
  q_id : id (sess w') = id (sess w);
  q_state : state (sess w') = state (sess w);
  q_user : user (sess w') = user (sess w);
  q_tls : isTLS (sess w') = isTLS (sess w);
  q_locked : lockedUser (sess w') = lockedUser (sess w);
  q_maildrops : maildrops w' = maildrops w;
  q_store : others w = [] -> store w' = store w /\ others w' = []
}.
#[local] Instance quiet_refl : Reflexive quiet.
Proof. by split. Qed.
#[local] Instance quiet_trans : Transitive quiet.
Proof.
  intros a b c [A1 A2 A3 A4 A5 A6 A7] [B1 B2 B3 B4 B5 B6 B7]. split; try congruence.
  intros Ho. destruct (A7 Ho) as [E1 E2]. destruct (B7 E2) as [E3 E4]. by split; [congruence |].
Qed.

Lemma quiet_write s w : quiet w (write s w).
Proof. by split. Qed.
Lemma quiet_interfere w : quiet w (interfere w).
Proof. unfold interfere. destruct (others w) eqn:E; [done |]. split; try done. by rewrite E. Qed.
Lemma quiet_failures m w : quiet w (set_failures m w).
Proof. by split. Qed.
Lemma quiet_messages (f : Session -> list (option Message)) w : quiet w (set_sess (fun s => with_messages (f s) s) w).
Proof. by split. Qed.
Lemma quiet_deleted (f : Session -> gset gostring) w : quiet w (set_sess (fun s => with_deleted (f s) s) w).
Proof. by split. Qed.

Lemma WriteDataLines_write ls w : WriteDataLines ls w = write (concat (map data_line ls)) w.
Proof.
  revert w. induction ls as [| l ls IH]; intros w; [destruct w; unfold write; cbn; by rewrite app_nil_r |].
  change (WriteDataLines (l :: ls) w) with (WriteDataLines ls (WriteDataLine l w)). rewrite IH. unfold WriteDataLine, write. cbn.
  by rewrite <- app_assoc.
Qed.

(** Peel the outermost update off. *)
Ltac quiet_step :=
  lazymatch goal with
  | |- quiet ?w ?w => reflexivity
  | |- quiet _ (WriteResponse _ _) => etrans; [| apply quiet_write]
  | |- quiet _ (WriteDataLine _ _) => etrans; [| apply quiet_write]
  | |- quiet _ (WriteDataEnd _) => etrans; [| apply quiet_write]
  | |- quiet _ (write _ _) => etrans; [| apply quiet_write]
  | |- quiet _ (WriteDataLines _ _) => rewrite WriteDataLines_write; etrans; [| apply quiet_write]
  | |- quiet _ (set_failures _ _) => etrans; [| apply quiet_failures]
  | |- quiet _ (interfere _) => etrans; [| apply quiet_interfere]
  end.
Ltac quieten := repeat quiet_step.

Lemma quiet_load m w : quiet w (snd (loadSnapshotMessageData m w)).
Proof.
  unfold loadSnapshotMessageData. destruct (ListMessages _ _); [| cbn; quieten].
  destruct (position_of _ _); cbn; quieten.
Qed.

Lemma quiet_message_data i m w : quiet w (snd (message_data i m w)).
Proof.
  unfold message_data. destruct (Data m); [done |]. pose proof (quiet_load m w) as H.
  destruct (loadSnapshotMessageData m w) as [d w']. cbn in *. etrans; [exact H |].
  apply (quiet_messages (fun s => <[Z.to_nat (i - 1) := Some (with_data d m)]> (messages s))).
Qed.

Lemma quiet_listing show args w : quiet w (handle_listing show args w).
Proof. unfold handle_listing. destruct args; [quieten |]. destruct (resolve _ _); quieten. Qed.

Lemma quiet_retr args w : quiet w (handleRETR args w).
Proof.
  unfold handleRETR. destruct args as [| a args]; [quieten |]. destruct (resolve a (sess w)) as [| | i m]; [quieten | quieten |].
  pose proof (quiet_message_data i m w) as H. destruct (message_data i m w) as [[d |] w']; cbn in H; quieten; done.
Qed.

Lemma quiet_top args w : quiet w (handleTOP args w).
Proof.
  unfold handleTOP. destruct args as [| a [| n args]]; [quieten .. |]. destruct (Atoi a); [| quieten].
  destruct (_ || _); [quieten |]. destruct (Atoi n) as [lines |]; [| quieten]. destruct (lines <? 0); [quieten |].
  destruct (resolve a (sess w)) as [| | i m]; [quieten | quieten |].
  pose proof (quiet_message_data i m w) as H. destruct (message_data i m w) as [[d |] w']; cbn in H; quieten; done.
Qed.

Lemma quiet_dele args w : quiet w (handleDELE args w).
Proof.
  unfold handleDELE. destruct args as [| a args]; [quieten |]. destruct (Atoi a); [| quieten]. destruct (_ || _); [quieten |].
  destruct (messages (sess w) !! _) as [[m |] |]; [| quieten ..]. destruct (marked _ _); [quieten |]. quieten.
  apply (quiet_deleted (fun s => {[UID m]} ∪ deletedUIDs s)).
Qed.

(** Every command of TRANSACTION but QUIT. *)
Lemma transaction_effect (command : gostring) args w :
  command <> ("QUIT" : gostring) -> exists w', handleTransactionCommand srv command args w = (Continue, w') /\ quiet w w'.
Proof.
  intros Hq. unfold handleTransactionCommand. rewrite (bool_decide_eq_false_2 (command = "QUIT")) by done.
  repeat (case_bool_decide; [eexists; split; [reflexivity |]; eauto using quiet_listing, quiet_retr, quiet_top, quiet_dele;
    unfold handleSTAT; quieten; try apply (quiet_deleted (fun _ => ∅)) |]);
    try done. eexists. split; [reflexivity |]. quieten.
Qed.

(** ** Locks and logins *)
(** The session's part of the lock table. *)
Record own_inv w : Prop := {
  oi_held : lockedUser (sess w) <> [] -> maildrops w !! lockedUser (sess w) = Some (id (sess w));
  oi_own k : maildrops w !! k = Some (id (sess w)) -> k = [] \/ lockedUser (sess w) = k
}.

(** What is true of a session that goes on. *)
Record lock_inv w : Prop := {
  li_own : own_inv w;
  li_auth : state (sess w) = StateAuthorization -> lockedUser (sess w) = [];
  li_trans : state (sess w) = StateTransaction ->
  lockedUser (sess w) = maildropKey (user (sess w)) /\ maildrops w !! lockedUser (sess w) = Some (id (sess w)) /\
  (exists p st, credentials_ok srv (user (sess w)) p st = true) /\ (requireTLS srv = true -> isTLS (sess w) = true);
  li_update : state (sess w) <> StateUpdate
}.

(** The locks of other sessions are left alone. *)
Definition frame w w' : Prop :=
  id (sess w') = id (sess w) /\
  forall k i, i <> id (sess w) -> maildrops w' !! k = Some i <-> maildrops w !! k = Some i.

Definition keeps w (r : verdict * World St) : Prop :=
  frame w (snd r) /\ match fst r with Continue => lock_inv (snd r) | EndSession => own_inv (snd r) end.

Lemma frame_refl w : frame w w.
Proof. by split. Qed.
Lemma frame_trans w1 w2 w3 : frame w1 w2 -> frame w2 w3 -> frame w1 w3.
Proof. intros [A1 A2] [B1 B2]. split; [congruence |]. intros k i Hi. rewrite B2 by congruence. by apply A2. Qed.

Lemma quiet_frame w w' : quiet w w' -> frame w w'.
Proof. intros [Q1 Q2 Q3 Q4 Q5 Q6 Q7]. split; [done |]. by rewrite Q6. Qed.

Lemma same_own w w' : id (sess w') = id (sess w) -> lockedUser (sess w') = lockedUser (sess w) -> maildrops w' = maildrops w ->
  own_inv w -> frame w w' /\ own_inv w'.
Proof. intros E1 E2 E3 [O1 O2]. split; [split; [done | by rewrite E3] |]. split; by rewrite E1, E2, E3. Qed.

Lemma quiet_inv w w' : quiet w w' -> lock_inv w -> lock_inv w'.
Proof.
  intros [Q1 Q2 Q3 Q4 Q5 Q6 Q7] [L1 L2 L3 L4]. split; rewrite ?Q1, ?Q2, ?Q3, ?Q4, ?Q5, ?Q6; try done. by eapply same_own.
Qed.

Lemma quiet_keeps w v w' : lock_inv w -> quiet w w' -> keeps w (v, w').
Proof.
  intros L Q. split; [by apply quiet_frame |]. destruct v; cbn; [| apply li_own]; by eapply quiet_inv.
Qed.

(** In AUTHORIZATION everything but the state and the lock may change. *)
Lemma auth_keeps w v w' : lock_inv w -> state (sess w) = StateAuthorization ->
  id (sess w') = id (sess w) -> state (sess w') = StateAuthorization -> lockedUser (sess w') = lockedUser (sess w) ->
  maildrops w' = maildrops w -> keeps w (v, w').
Proof.
  intros [L1 L2 L3 L4] Hs E1 E2 E3 E4. destruct (same_own w w' E1 E3 E4 L1) as [F O]. split; [done |].
  destruct v; [| done]. split; cbn; try done; rewrite E2; try done. rewrite E3. auto.
Qed.

(** A step to a world that keeps the invariant, then a handler. *)
Lemma keeps_after w w1 r : frame w w1 -> keeps w1 r -> keeps w r.
Proof. intros F [K1 K2]. split; [by eapply frame_trans | done]. Qed.

Lemma release_own w : own_inv w -> frame w (releaseMaildrop w) /\ own_inv (releaseMaildrop w).
Proof.
  intros [O1 O2]. unfold releaseMaildrop. case_bool_decide as E; [split; [apply frame_refl | done] |].
  rewrite bool_decide_eq_true_2 by by apply O1. split; split; cbn; try done.
  - intros k i Hi. cbn. split; [by intros [_ ?]%lookup_delete_Some |]. intros Hk. apply lookup_delete_Some.
    split; [| done]. intros <-. rewrite O1 in Hk by done. congruence.
  - intros k [Hk1 Hk2]%lookup_delete_Some. destruct (O2 k Hk2); [by left | done].
Qed.

(** A lock that was just taken is given back. *)
Lemma release_fresh w w1 : let key := maildropKey (user (sess w)) in
  lock_inv w -> state (sess w) = StateAuthorization -> maildrops w !! key = None ->
  maildrops w1 = <[key := id (sess w)]> (maildrops w) -> id (sess w1) = id (sess w) -> state (sess w1) = state (sess w) ->
  lockedUser (sess w1) = key -> forall s, keeps w (Continue, write s (releaseMaildrop w1)).
Proof.
  intros key [[O1 O2] L2 L3 L4] Hs Hf E1 E2 E3 E4 s. specialize (L2 Hs). unfold releaseMaildrop. rewrite E4.
  case_bool_decide as Ek; [| rewrite bool_decide_eq_true_2 by by rewrite E1, E2, lookup_insert_eq];
    (split; [split; cbn; [congruence |]; intros k i Hi; rewrite E1 | split; [split; cbn |..]; cbn; try congruence]).
  - rewrite lookup_insert_Some. split; [by intros [[_ <-] | [_ H]] |]. intros Hk. right. split; [congruence | done].
  - rewrite E1, E2. intros k [[-> _] | [_ Hk]]%lookup_insert_Some; [by left |]. left. destruct (O2 k Hk); congruence.
  - by rewrite delete_insert_id.
  - rewrite E1, E2, delete_insert_id by done. rewrite L2 in O2. done.
Qed.

Lemma open_maildrop_keeps w : lock_inv w -> state (sess w) = StateAuthorization ->
  (exists p st, credentials_ok srv (user (sess w)) p st = true) -> (requireTLS srv = true -> isTLS (sess w) = true) ->
  keeps w (open_maildrop w).
Proof.
  intros L Hs Hc Ht. unfold open_maildrop, acquireMaildrop.
  destruct (maildrops w !! maildropKey (user (sess w))) as [i |] eqn:Em; [by apply auth_keeps |].
  set (w1 := set_sess (with_locked _) _). pose proof (quiet_interfere w1) as Q. pose proof Q as [Q1 Q2 Q3 Q4 Q5 Q6 _].
  destruct (ListMessages _ _) as [ms |] eqn:El; [| by apply (release_fresh w (interfere w1))].
  cbn in Q1, Q2, Q3, Q4, Q5. split; [split |]; cbn.
  - done.
  - rewrite Q6. intros k i Hi. cbn. rewrite lookup_insert_Some. split; [by intros [[_ <-] | [_ H]] |].
    intros Hk. right. split; [congruence | done].
  - split; [split | ..]; cbn; rewrite ?Q1, ?Q3, ?Q4, ?Q5, ?Q6; cbn; try done.
    + intros _. by rewrite lookup_insert_eq.
    + intros k [[-> _] | [_ Hk]]%lookup_insert_Some; [by right |]. destruct (oi_own _ (li_own _ L) _ Hk) as [-> | H]; [by left |].
      left. rewrite <- H. by apply (li_auth _ L).
    + by rewrite lookup_insert_eq.
Qed.

Lemma handleUSER_keeps args w : lock_inv w -> state (sess w) = StateAuthorization -> keeps w (handleUSER srv args w).
Proof. intros L Hs. unfold handleUSER. destruct args; [by apply auth_keeps |]. destruct (_ && _); by apply auth_keeps. Qed.

Lemma handlePASS_keeps args w : lock_inv w -> state (sess w) = StateAuthorization -> keeps w (handlePASS srv now args w).
Proof.
  intros L Hs. unfold handlePASS. destruct args as [| p args]; [by apply auth_keeps |].
  case_bool_decide as Eu; [by apply auth_keeps |]. destruct (_ && _) eqn:Et; [by apply auth_keeps |].
  destruct (isAuthLockedOut _ _ _ _) as [l1 m1]. destruct (if l1 then _ else _) as [l2 m2]. destruct l2; [by apply auth_keeps |].
  set (w1 := match authFunc srv with Some _ => _ | None => _ end).
  assert (Q : quiet w w1) by (unfold w1; destruct (authFunc srv); quieten). destruct (credentials_ok _ _ _ _) eqn:Ec; cbn [negb].
  - set (w2 := set_failures _ w1). assert (Q2 : quiet w w2) by (unfold w2; quieten; exact Q).
    apply (keeps_after w w2); [by apply quiet_frame |]. apply open_maildrop_keeps; cbn.
    + by apply (quiet_inv w).
    + by rewrite (q_state _ _ Q).
    + rewrite (q_user _ _ Q). eauto.
    + rewrite (q_tls _ _ Q). intros Hr. rewrite Hr in Et. by destruct (isTLS (sess w)).
  - destruct Q as [Q1 Q2 Q3 Q4 Q5 Q6 _]. destruct (_ <=? _); apply auth_keeps; cbn; congruence.
Qed.

Lemma authorization_keeps tlsInput command args w : lock_inv w -> state (sess w) = StateAuthorization ->
  keeps w (handleAuthorizationCommand srv now tlsInput command args w).
Proof.
  intros L Hs. unfold handleAuthorizationCommand.
  case_bool_decide; [by apply handleUSER_keeps |]. case_bool_decide; [by apply handlePASS_keeps |].
  case_bool_decide; [by apply auth_keeps |]. case_bool_decide.
  { unfold handleSTLS. destruct (negb _); [by apply auth_keeps |]. destruct (isTLS _); [by apply auth_keeps |].
    destruct (negb _); [by apply auth_keeps |]. destruct (negb _); by apply auth_keeps. }
  case_bool_decide; [| by apply auth_keeps]. apply quiet_keeps; [done |].
  destruct (_ && _); (quieten; destruct (_ || _); quieten).
Qed.

Lemma delete_marked_own before i failed w : own_inv w ->
  let w' := snd (delete_marked srv before i failed w) in frame w w' /\ own_inv w'.
Proof.
  intros O. revert i failed w O. induction before as [| o before IH]; intros i failed w O; cbn [delete_marked].
  { split; [apply frame_refl | done]. }
  destruct o as [m |]; [| by apply IH]. destruct (marked (sess w) m); [| by apply IH].
  destruct (quiet_interfere w) as [Q1 _ _ _ Q5 Q6 _]. destruct (DeleteMessage _ _ _) as [ok st].
  set (w1 := if (_ : bool) then release_quota _ _ _ else _). assert (E : sess w1 = sess (interfere w) /\ maildrops w1 = maildrops w).
  { unfold w1. by destruct (_ && _). }
  destruct E as [E1 E2]. destruct (same_own w w1) as [F1 O1]; [congruence | congruence | done | done |].
  destruct (IH (i - 1) (failed || negb ok) w1 O1) as [F2 O2]. split; [by eapply frame_trans | done].
Qed.

Lemma update_keeps w : own_inv w -> exists w', handleUpdateCommand srv w = (EndSession, w') /\ frame w w' /\ own_inv w'.
Proof.
  intros O. unfold handleUpdateCommand. destruct (quiet_interfere w) as [Q1 _ _ _ Q5 Q6 _].
  destruct (same_own w (interfere w) Q1 Q5 Q6 O) as [F1 O1]. destruct (ListMessages _ _) as [current |].
  - pose proof (delete_marked_own (rev current) (Z.of_nat (length current)) false _ O1) as [F2 O2].
    destruct (delete_marked _ _ _ _ _) as [failed w2]. cbn in F2, O2. destruct (release_own _ O2) as [F3 [O3 O3']].
    eexists. split; [reflexivity |]. split; [| by split].
    apply (frame_trans _ _ _ F1). apply (frame_trans _ _ _ F2). destruct F3 as [A B]. by split.
  - destruct (release_own _ O1) as [F3 [O3 O3']]. eexists. split; [reflexivity |]. split; [| by split].
    apply (frame_trans _ _ _ F1). destruct F3 as [A B]. by split.
Qed.

Lemma handleCommand_keeps tlsInput line w : lock_inv w -> keeps w (handleCommand srv now tlsInput line w).
Proof.
  intros L. unfold handleCommand. destruct (Fields line) as [| c args]; [apply quiet_keeps; [done |]; quieten |].
  set (args' := if (_ : bool) then match _ with Some pw => _ | None => _ end else args). destruct (state (sess w)) eqn:Hs; [by apply authorization_keeps | | by destruct (li_update _ L)].
  destruct (decide (ToUpper c = "QUIT")) as [-> | Hq].
  - destruct (update_keeps (set_sess (with_state StateUpdate) w)) as (w' & E & F & O); [by destruct L as [[] ?] |].
    unfold handleTransactionCommand. cbn -[handleUpdateCommand]. rewrite E. by split.
  - destruct (transaction_effect (ToUpper c) args' w Hq) as (w' & -> & Q). by apply quiet_keeps.
Qed.

(** What a round guarantees to the other sessions and to itself. *)
Lemma serveRound_keeps tlsInput w : lock_inv w ->
  let r := serveRound srv now tlsInput w in
  frame w (snd r) /\
  match fst r with
  | Continue => lock_inv (snd r)
  | EndSession => forall k, maildrops (snd r) !! k = Some (id (sess w)) -> k = []
  end.
Proof.
  intros L. assert (R : forall w1, frame w w1 -> own_inv w1 ->
    frame w (releaseMaildrop w1) /\ (forall k, maildrops (releaseMaildrop w1) !! k = Some (id (sess w)) -> k = [])).
  { intros w1 F O. destruct (release_own _ O) as [F2 [_ O2]]. split; [by eapply frame_trans |]. intros k Hk.
    destruct (release_frame w1) as (_ & _ & _ & _ & _ & _ & R & _). destruct F as [F _]. destruct F2 as [F2 _].
    rewrite F2, F in O2. destruct (O2 k Hk); congruence. }
  unfold serveRound. destruct (readLine _ _) as [r rest].
  assert (F0 : frame w (set_input rest w) /\ own_inv (set_input rest w)) by by apply same_own; destruct L.
  destruct F0 as [F0 O0]. destruct r as [line | [| e]].
  - assert (L0 : lock_inv (set_input rest w)) by by destruct L as [[] ?]. destruct line; [by split |].
    pose proof (handleCommand_keeps tlsInput (a :: line) _ L0) as [K1 K2].
    destruct (handleCommand _ _ _ _ _) as [[] w1]; cbn in K1, K2; [by split |]. apply R; [by eapply frame_trans | done].
  - apply R; destruct O0; [apply F0 | by split].
  - by apply R.
Qed.

(** Nothing but QUIT in TRANSACTION changes the store. *)
Lemma interfere_alone w : others w = [] -> interfere w = w.
Proof. unfold interfere. by intros ->. Qed.

Lemma release_store w : store (releaseMaildrop w) = store w.
Proof. by destruct (release_frame w) as [-> _]. Qed.

Lemma open_maildrop_store w : others w = [] -> store (snd (open_maildrop w)) = store w.
Proof.
  intros Ho. unfold open_maildrop, acquireMaildrop. destruct (maildrops w !! _); [done |]. rewrite interfere_alone by done.
  destruct (ListMessages _ _); [done |]. cbn. by rewrite release_store.
Qed.

Lemma authorization_store tlsInput command args w : others w = [] ->
  store (snd (handleAuthorizationCommand srv now tlsInput command args w)) = store w.
Proof.
  intros Ho. unfold handleAuthorizationCommand. case_bool_decide.
  { unfold handleUSER. destruct args; [done |]. by destruct (_ && _). }
  case_bool_decide.
  { unfold handlePASS. destruct args as [| p args]; [done |]. case_bool_decide; [done |]. destruct (_ && _); [done |].
    destruct (isAuthLockedOut _ _ _ _) as [l1 m1]. destruct (if l1 then _ else _) as [l2 m2]. destruct l2; [done |].
    rewrite interfere_alone by done.
    set (w1 := match authFunc srv with Some _ => _ | None => _ end). assert (E : others w1 = [] /\ store w1 = store w).
    { unfold w1. by destruct (authFunc srv). }
    destruct E as [E1 E2]. destruct (negb _); [by destruct (_ <=? _) |]. by rewrite open_maildrop_store. }
  case_bool_decide; [done |]. case_bool_decide.
  { unfold handleSTLS. destruct (negb _); [done |]. destruct (isTLS _); [done |]. destruct (negb _); [done |]. by destruct (negb _). }
  case_bool_decide; [| done]. destruct (_ && _); destruct (_ || _); by rewrite !WriteDataLines_write.
Qed.

Definition is_quit (line : gostring) : bool :=
  match Fields line with [] => false | c :: _ => ToUpper c =s? "QUIT" end.

Lemma serveRound_store tlsInput w : others w = [] -> state (sess w) <> StateUpdate ->
  (state (sess w) = StateTransaction -> forall line rest, readLine srv (input w) = (Ok line, rest) -> is_quit line = false) ->
  store (snd (serveRound srv now tlsInput w)) = store w.
Proof.
  intros Ho Hs Hq. unfold serveRound. destruct (readLine srv (input w)) as [r rest] eqn:Er.
  destruct r as [[| a line] | [| e]]; [done | | cbn; by rewrite release_store ..].
  set (w1 := set_input rest w). assert (E : store (snd (handleCommand srv now tlsInput (a :: line) w1)) = store w).
  { unfold handleCommand. destruct (Fields (a :: line)) as [| c args] eqn:Ef; [done |]. change (sess w1) with (sess w).
    destruct (state (sess w)) eqn:Est; [by rewrite authorization_store | | done].
    set (args' := if (_ : bool) then match _ with Some pw => _ | None => _ end else args).
    destruct (transaction_effect (ToUpper c) args' w1) as (w' & -> & Q).
    { intros E. specialize (Hq eq_refl _ _ eq_refl). unfold is_quit in Hq. by rewrite Ef, E in Hq. }
    cbn. by apply (q_store _ _ Q). }
  destruct (handleCommand _ _ _ _ _) as [[] w2]; cbn in *; [done | by rewrite release_store].
Qed.
End Effects.

(** ** All sessions of a server *)
Section System.
Context {U : UnicodeTables} {St : Type} {MS : Mailstore St}.
Context (srv : Server).
Implicit Types y : System St.

Definition view (s : Session) y : World St := world_of s [] [] y.

Record sys_inv y : Prop := {
  si_id i s : sessions y !! i = Some s -> id s = i;
  si_session i s : sessions y !! i = Some s -> lock_inv srv (view s y);
  si_live k i : sysMaildrops y !! k = Some i -> k = [] \/ is_Some (sessions y !! i)
}.

(** The invariant of a session depends on its own locks only. *)
Lemma lock_inv_frame w w' : sess w' = sess w ->
  (forall k, maildrops w' !! k = Some (id (sess w)) <-> maildrops w !! k = Some (id (sess w))) ->
  lock_inv srv w -> lock_inv srv w'.
Proof.
  intros E H [[O1 O2] L2 L3 L4]. split; [split | ..]; rewrite E; try done.
  - intros Hk. apply H. auto.
  - intros k Hk. apply O2. by apply H.
  - intros Hs. destruct (L3 Hs) as (A & B & C). split_and!; [done | by apply H | apply C | apply C].
Qed.

Lemma sys_inv_step y y' : sys_step srv y y' -> sys_inv y -> sys_inv y'.
Proof.
  intros [ident tls y0 Hf | now ident s oth received tlsInput y0 Hi | f y0 | y0] [I1 I2 I3];
    [| | split; try done; intros i s Hi; by eapply lock_inv_frame; [| | apply (I2 i s Hi)] ..].
  - unfold handleConnection. destruct (shutdown y0); [by split |]. destruct (_ && _); [by split |]. split; cbn.
    + intros i s [[<- <-] | [_ Hk]]%lookup_insert_Some; [done | by apply I1].
    + intros i s [[<- <-] | [_ Hk]]%lookup_insert_Some; [| by apply (I2 i)]. split; [split | ..]; cbn; try done.
      intros k Hk. destruct (I3 _ _ Hk) as [-> | [s Hs]]; [by left |]. congruence.
    + intros k i Hk. destruct (I3 _ _ Hk) as [-> | [s Hs]]; [by left |]. right. apply lookup_insert_is_Some. destruct (decide (ident = i)); eauto.
  - unfold serve. set (w := world_of s oth received y0). pose proof (I1 _ _ Hi) as Eid.
    assert (L : lock_inv srv w) by (apply (lock_inv_frame (view s y0)); [done | done | by apply (I2 ident)]).
    pose proof (serveRound_keeps srv now tlsInput w L) as [[F1 F2] K].
    destruct (serveRound srv now tlsInput w) as [v w']. cbn in F1, F2, K. rewrite Eid in *.
    assert (Ho : forall i t, i <> ident -> sessions y0 !! i = Some t -> lock_inv srv {| sess := t; authFailures := authFailures w';
      maildrops := maildrops w'; store := store w'; others := []; released := []; input := []; out := [] |}).
    { intros i t Hne Ht. apply (lock_inv_frame (view t y0)); [done | | by apply (I2 i)]. intros k. cbn. apply F2. rewrite (I1 _ _ Ht). done. }
    destruct v; split; cbn.
    + intros i t [[<- <-] | [_ Ht]]%lookup_insert_Some; [done | by apply I1].
    + intros i t [[<- <-] | [Hne Ht]]%lookup_insert_Some; [by apply (lock_inv_frame w') | by apply (Ho i)].
    + intros k i Hk. rewrite lookup_insert_is_Some. destruct (decide (ident = i)) as [-> | Hne]; [right; by left |].
      apply F2 in Hk; [| done]. destruct (I3 _ _ Hk); [by left |]. right. by right.
    + intros i t [_ Ht]%lookup_delete_Some. by apply I1.
    + intros i t [Hne Ht]%lookup_delete_Some. by apply (Ho i).
    + intros k i Hk. destruct (decide (ident = i)) as [<- | Hne]; [left; by apply K |].
      apply F2 in Hk; [| done]. destruct (I3 _ _ Hk); [by left |]. right. by rewrite lookup_delete_ne.
Qed.

Lemma sys_inv_reachable st y : star (sys_step srv) (sys_init st) y -> sys_inv y.
Proof.
  apply star_invariant; [| intros a b Ha Hs; by eapply sys_inv_step].
  split; cbn; intros *; by rewrite lookup_empty.
Qed.

(** the maildrop lock.  However the sessions of a server run, log in, fail and
    drop: two sessions in TRANSACTION never have the same maildrop; the lock of a
    maildrop is held by a live session in TRANSACTION on it, so that a session
    that ended left no lock behind; and a session in TRANSACTION has its user's
    credentials verified, under TLS where the server requires it. *)
Theorem maildrop_lock_sound st y :
  star (sys_step srv) (sys_init st) y ->
  (forall i j s t, sessions y !! i = Some s -> sessions y !! j = Some t ->
    state s = StateTransaction -> state t = StateTransaction -> maildropKey (user s) = maildropKey (user t) -> i = j) /\
  (forall k i, k <> [] -> sysMaildrops y !! k = Some i ->
    exists s, sessions y !! i = Some s /\ state s = StateTransaction /\ maildropKey (user s) = k) /\
  (forall i s, sessions y !! i = Some s -> state s = StateTransaction ->
    (exists p st', credentials_ok srv (user s) p st' = true) /\ (requireTLS srv = true -> isTLS s = true)).
Proof.
  intros [I1 I2 I3]%sys_inv_reachable. split_and!.
  - intros i j s t Hi Hj Hs Ht Hk. destruct (li_trans _ _ (I2 _ _ Hi) Hs) as (A1 & A2 & _).
    destruct (li_trans _ _ (I2 _ _ Hj) Ht) as (B1 & B2 & _). cbn in *. rewrite A1, (I1 _ _ Hi) in A2.
    rewrite B1, (I1 _ _ Hj) in B2. congruence.
  - intros k i Hk Hl. destruct (I3 _ _ Hl) as [? | [s Hs]]; [done |]. exists s. split; [done |].
    pose proof (I2 _ _ Hs) as L. destruct (oi_own _ (li_own _ _ L) k) as [? | E]; [cbn; by rewrite (I1 _ _ Hs) | done |]. cbn in E.
    destruct (state s) eqn:Est; [pose proof (li_auth _ _ L Est); cbn in *; congruence | | by destruct (li_update _ _ L)].
    split; [done |]. destruct (li_trans _ _ L Est) as (A & _). cbn in A. congruence.
  - intros i s Hi Hs. by destruct (li_trans _ _ (I2 _ _ Hi) Hs) as (_ & _ & ? & ?).
Qed.
End System.

(** ** The octets of RETR *)
Section Framing.
Implicit Types (data s rest : gostring) (c : ascii).
#[local] Abbreviation DOT := ("."%char).

(** The client of RFC 1939: a line that is a period alone ends the response, and
    the first period of any other line that starts with one is removed. *)
Fixpoint client_read (bol : bool) s : option (gostring * gostring) :=
  match s with
  | [] => None
  | c :: t =>
      if bol && (c =c? DOT) then
      match t with
      | [] => None
      | d :: u =>
          match u with
          | e :: rest =>
              if (d =c? CR) && (e =c? LF) then Some ([], rest)
              else (fun '(l, r) => (d :: l, r)) <$> client_read (d =c? LF) u
          | [] => None
          end
      end
      else (fun '(l, r) => (c :: l, r)) <$> client_read (c =c? LF) t
  end.

(** Stuffing as the RFC has it: a line starts behind a line feed. *)
Fixpoint rfc_stuff (bol : bool) data : gostring :=
  match data with
  | [] => []
  | c :: t => (if bol && (c =c? DOT) then [DOT] else []) ++ c :: rfc_stuff (c =c? LF) t
  end.

Lemma Contains_pair a b c s :
  Contains (c :: s) [a; b] = (c =c? a) && bool_decide (head s = Some b) || Contains s [a; b].
Proof.
  unfold Contains. cbn [GoLib.Index HasPrefix]. rewrite (Ascii.eqb_sym c a).
  destruct (a =c? c); cbn [andb orb]; [| by destruct (GoLib.Index s _)].
  destruct s as [| d s]; [done |]. cbn [HasPrefix head]. rewrite andb_true_r.
  replace (bool_decide (Some d = Some b)) with (b =c? d)
    by (destruct (Ascii.eqb_spec b d); [rewrite bool_decide_eq_true_2 | rewrite bool_decide_eq_false_2]; congruence).
  destruct (b =c? d); [done |]. by destruct (GoLib.Index (d :: s) _).
Qed.

Lemma not_dot b c t : (b = true -> head (c :: t) <> Some DOT) -> b && (c =c? DOT) = false.
Proof. intros Hh. destruct b; [| done]. apply Ascii.eqb_neq. intros ->. by apply Hh. Qed.

(** The fast path changes nothing. *)
Lemma stuff_plain b data :
  (b = true -> head data <> Some DOT) -> Contains data [LF; DOT] = false -> Contains data [CR; DOT] = false ->
  stuff_go b data = data.
Proof.
  revert b. induction data as [| c t IH]; intros b Hh Hl Hc; [done |]. rewrite Contains_pair in Hl, Hc.
  apply orb_false_iff in Hl as [Hl1 Hl2], Hc as [Hc1 Hc2]. cbn [stuff_go]. rewrite (not_dot b c t Hh).
  cbn [app]. f_equal. apply IH; [| done | done]. intros Hb Ht.
  rewrite Ht, bool_decide_eq_true_2, andb_true_r in Hl1, Hc1 by done. by rewrite Hl1, Hc1 in Hb.
Qed.

Lemma dotStuffData_slow data : dotStuffData data = stuff_go true data.
Proof.
  unfold dotStuffData. destruct (_ && _) eqn:E; [| done].
  apply andb_true_iff in E as [[E1 E2]%andb_true_iff E3]. rewrite negb_true_iff in E1, E2, E3.
  symmetry. apply stuff_plain; [| done | done]. intros _ Hd. destruct data as [| c t]; [done |]. injection Hd as ->.
  by vm_compute in E1.
Qed.

(** Without a line that starts with CR and a period, stuffing is that of the RFC. *)
Lemma stuff_rfc b b' data : Contains data [CR; DOT] = false -> (b = b' \/ head data <> Some DOT) ->
  stuff_go b data = rfc_stuff b' data.
Proof.
  revert b b'. induction data as [| c t IH]; intros b b' Hc Hb; [done |]. rewrite Contains_pair in Hc.
  apply orb_false_iff in Hc as [Hc1 Hc2]. cbn [stuff_go rfc_stuff]. f_equal.
  { destruct Hb as [-> | Hb]; [done |]. by rewrite !(not_dot _ c t). }
  f_equal. apply IH; [done |]. destruct (c =c? LF); [by left |]. destruct (c =c? CR); [right | by left].
  intros Ht. by rewrite Ht in Hc1.
Qed.

(** Where the client is after [data]. *)
Definition bol_after (b : bool) data : bool := match last data with None => b | Some c => c =c? LF end.

Lemma client_stuffed b data tail : tail <> [] ->
  client_read b (rfc_stuff b data ++ tail) = (fun '(l, r) => (data ++ l, r)) <$> client_read (bol_after b data) tail.
Proof.
  intros Ht. revert b. induction data as [| c t IH]; intros b.
  { change (bol_after b []) with b. cbn. by destruct (client_read b tail) as [[]|]. }
  replace (bol_after b (c :: t)) with (bol_after (c =c? LF) t) by (unfold bol_after; rewrite last_cons; by destruct (last t)).
  cbn [rfc_stuff]. destruct (b && (c =c? DOT)) eqn:Eb; cbn [app client_read].
  - apply andb_true_iff in Eb as [-> ->%Ascii.eqb_eq]. change (DOT =c? DOT) with true. change (DOT =c? CR) with false. change (DOT =c? LF) with false.
    cbn [andb]. rewrite IH. destruct (rfc_stuff false t ++ tail) eqn:E; [by apply app_eq_nil in E as [_ ?] |].
    by destruct (client_read _ tail) as [[]|].
  - rewrite IH, Eb. by destruct (client_read _ tail) as [[]|].
Qed.

Lemma last_rfc b data : last (rfc_stuff b data) = last data.
Proof.
  revert b. induction data as [| c t IH]; intros b; [done |]. cbn [rfc_stuff].
  assert (E : last (c :: rfc_stuff (c =c? LF) t) = last (c :: t)) by by rewrite !last_cons, IH.
  destruct (_ && _); cbn [app]; [| done]. rewrite last_cons, E. by rewrite last_cons; destruct (last t).
Qed.

Lemma HasSuffix_last s c : HasSuffix s [c] = bool_decide (last s = Some c).
Proof.
  unfold HasSuffix. cbn [rev app]. destruct s as [| d s _] using rev_ind; [done |]. rewrite rev_unit, last_snoc. cbn.
  rewrite andb_true_r. by destruct (Ascii.eqb_spec c d); [rewrite bool_decide_eq_true_2 | rewrite bool_decide_eq_false_2]; [| congruence ..].
Qed.

(** RETR.  For a message in which no carriage return is followed by a period,
    a client that reads the response up to the line that is a period alone, and
    removes the first period of a line that starts with one, gets the message
    octet for octet, closed by CRLF when it does not end with a line feed,
    whatever its lines are, and is then at the first octet behind the response. *)
Theorem retr_roundtrip data rest :
  Contains data [CR; DOT] = false ->
  client_read true (retr_octets data ++ rest) = Some (data ++ (if HasSuffix data [LF] then [] else CRLF), rest).
Proof.
  intros Hc. unfold retr_octets. rewrite dotStuffData_slow, (stuff_rfc true true) by auto. rewrite !HasSuffix_last, last_rfc.
  rewrite <- app_assoc, client_stuffed by by destruct (negb _). unfold bol_after.
  destruct (last data) as [c |]; [| done]. destruct (decide (c = LF)) as [-> | Hne]; [done |].
  apply Ascii.eqb_neq in Hne as E. rewrite E, bool_decide_eq_false_2 by congruence. done.
Qed.

Example retr_roundtrip_witness :
  client_read true (retr_octets (("A: b" : gostring) ++ CRLF ++ CRLF ++ ("." : gostring) ++ CRLF ++ ("..x" : gostring) ++ CRLF ++ ("end" : gostring)) ++ ("+OK" : gostring)) =
  Some (("A: b" : gostring) ++ CRLF ++ CRLF ++ ("." : gostring) ++ CRLF ++ ("..x" : gostring) ++ CRLF ++ ("end" : gostring) ++ CRLF, ("+OK" : gostring)).
Proof. apply (retr_roundtrip (("A: b" : gostring) ++ CRLF ++ CRLF ++ ("." : gostring) ++ CRLF ++ ("..x" : gostring) ++ CRLF ++ ("end" : gostring)) (("+OK" : gostring))). reflexivity. Defined.

(** A line of a carriage return, a period and more gets a period that the client
    keeps. *)
Example retr_cr_dot :
  client_read true (retr_octets (CR :: (".x" : gostring) ++ CRLF)) = Some (CR :: ("..x" : gostring) ++ CRLF, []).
Proof. reflexivity. Qed.
End Framing.
