(* ===== verification/Pop3Store.v ===== *)
(** * internal/pop3: the store of the server

    [BboltStore] of bbolt_store.go: the POP3 view of INBOX over the metadata
    database ([MailDb]) and the message bodies ([BlobStore]).  [pending] says which
    blobs pending uploads hold, [now] is the time of a journal entry.  Reads and
    writes of the database succeed.  The store is shown to have the laws that the
    session of [Pop3] relies on. *)
From S2P Require Import Prelude GoLib Utf8 Bolt SmtpData Scram BlobStore MailDb MailDbProps Pop3 Pop3Props.

Record BboltStore := { db : Database; msgStore : Files }.

Section Store.
Context {U : UnicodeTables} {C : Crypto} (pending : gostring -> gostring -> bool) (now : Z).
Implicit Types (st : BboltStore) (user : gostring).

Definition INBOX : gostring := "INBOX".

(** Messages flagged as deleted are not part of the maildrop. *)
Definition hidden (meta : MessageMetadata) : bool :=
  existsb (fun f => EqualFold f "\Deleted" || EqualFold f "Deleted") (Flags meta).

Definition bs_Authenticate (username password : gostring) st : option bool := Some false.

Definition bs_ListMessages user st : option (list (option Message)) :=
  Some (omap (fun '(i, uid) =>
    let meta := GetMessageMetadata user INBOX uid (db st) in
    if hidden meta then None
    else Some (Some {| Index := Z.of_nat i + 1; Pop3.UID := FormatUint uid; BlobID := MessageID meta;
      Pop3.Size := MailDb.Size meta; Data := None |}))
    (imap pair (GetMessageUIDs user INBOX (db st)))).

Definition GetMessage user (index : Z) st : option Message :=
  messages ← bs_ListMessages user st;
  if (index <? 1) || (Z.of_nat (length messages) <? index) then None else mjoin (messages !! Z.to_nat (index - 1)).

Definition bs_GetMessageData user (index : Z) st : option gostring :=
  msg ← GetMessage user index st;
  if bool_decide (BlobID msg = []) then None
  else match ReadMessage user (BlobID msg) (msgStore st) with Ok data => Some data | Err _ => None end.

(** The loop that reads the UID back from its digits. *)
Definition uid_of (s : gostring) : Z :=
  foldl (fun uid c => if is_digit c then (uid * 10 + (bz c - 48)) mod 2 ^ 32 else uid) 0 s.

Definition bs_DeleteMessage user (index : Z) st : bool * BboltStore :=
  match GetMessage user index st with
  | None => (false, st)
  | Some msg =>
      let uid := uid_of (Pop3.UID msg) in
      let meta := GetMessageMetadata user INBOX uid (db st) in
      let db' := MailDb.DeleteMessage now user INBOX uid (db st) in
      let files :=
      if negb (bool_decide (MessageID meta = [])) && negb (BlobReferenced pending user (MessageID meta) db')
      then snd (DeleteMessageUnchecked user (MessageID meta) (msgStore st)) else msgStore st in
      (true, {| db := db'; msgStore := files |})
  end.

Definition GetMessageCount user st : option nat := length <$> bs_ListMessages user st.
Definition GetMessageSize user (index : Z) st : option Z := Pop3.Size <$> GetMessage user index st.

Definition bbolt_mailstore : Mailstore BboltStore := {|
  Authenticate := bs_Authenticate; ListMessages := bs_ListMessages; GetMessageData := bs_GetMessageData;
  DeleteMessage := bs_DeleteMessage |}.
End Store.

(** ** The view of the maildrop *)
Section Laws.
Context {U : UnicodeTables} {C : Crypto} (pending : gostring -> gostring -> bool) (now : Z).
Implicit Types (st : BboltStore) (user : gostring).
#[local] Instance mailstore : Mailstore BboltStore := bbolt_mailstore pending now.

Definition meta_of user uid st : MessageMetadata := GetMessageMetadata user INBOX uid (db st).
Definition visible user st : list Z :=
  filter (fun uid => hidden (meta_of user uid st) = false) (GetMessageUIDs user INBOX (db st)).

(** A message of the listing and the UID it stands for. *)
Definition shows user st (o : option Message) (uid : Z) : Prop :=
  exists m, o = Some m /\ Pop3.UID m = FormatUint uid /\ BlobID m = MessageID (meta_of user uid st).

Lemma list_shows user st : exists L, bs_ListMessages user st = Some L /\ Forall2 (shows user st) L (visible user st).
Proof.
  unfold bs_ListMessages, visible. eexists. split; [reflexivity |].
  assert (H : forall (g : nat -> Z -> nat * Z) ks, (forall i x, (g i x).2 = x) ->
    Forall2 (shows user st) (omap (fun '(i, uid) =>
    let meta := GetMessageMetadata user INBOX uid (db st) in
    if hidden meta then None
    else Some (Some {| Index := Z.of_nat i + 1; Pop3.UID := FormatUint uid; BlobID := MessageID meta;
    Pop3.Size := MailDb.Size meta; Data := None |})) (imap g ks))
    (filter (fun uid => hidden (meta_of user uid st) = false) ks)); [| by apply H].
  intros g ks. revert g. induction ks as [| k ks IH]; intros g Hg; [constructor |]. cbn [imap omap list_omap].
  destruct (g 0%nat k) as [i k'] eqn:Eg. pose proof (Hg 0%nat k) as Ek. rewrite Eg in Ek. cbn in Ek. subst k'.
  rewrite filter_cons. destruct (decide _) as [E | E%not_false_is_true]; unfold meta_of in E; cbv zeta; rewrite E.
  - constructor; [by eexists | apply IH; intros; apply Hg].
  - apply IH. intros. apply Hg.
Qed.

Lemma shows_uids user st L vs : Forall2 (shows user st) L vs -> uids L = map (fun uid => Some (FormatUint uid)) vs.
Proof. induction 1 as [| o uid L vs (m & -> & E & _) H IH]; [done |]. cbn. by rewrite E, IH. Qed.

(** UIDs are 32 bit numbers. *)
Definition uids_ok st : Prop := forall user uid, is_Some (rows_of user INBOX (db st) !! uid) -> 0 <= uid <= max_uint32.

Lemma visible_spec user st uid :
  uid ∈ visible user st <-> is_Some (rows_of user INBOX (db st) !! uid) /\ hidden (meta_of user uid st) = false.
Proof. unfold visible, GetMessageUIDs. rewrite list_elem_of_filter, elem_of_keys. tauto. Qed.

Lemma visible_range user st uid : uids_ok st -> uid ∈ visible user st -> 0 <= uid <= max_uint32.
Proof. intros Hok [H _]%visible_spec. by apply (Hok user). Qed.

Lemma visible_NoDup user st : NoDup (visible user st).
Proof. apply NoDup_filter, keys_NoDup. Qed.

Lemma FormatUint_inj_uint32 a b : 0 <= a <= max_uint32 -> 0 <= b <= max_uint32 -> FormatUint a = FormatUint b -> a = b.
Proof. intros [Ha _] [Hb _]. by apply FormatUint_inj. Qed.

Lemma uid_of_digits s a n : digits_val a s = Some n ->
  foldl (fun uid c => if is_digit c then (uid * 10 + (bz c - 48)) mod 2 ^ 32 else uid) (a mod 2 ^ 32) s = n mod 2 ^ 32.
Proof.
  revert a. induction s as [| c s IH]; intros a; cbn [digits_val foldl]; [by intros [= ->] |].
  destruct (is_digit c); [| done]. intros H. rewrite <- (IH _ H). f_equal.
  rewrite <- Zplus_mod_idemp_l, Zmult_mod_idemp_l, Zplus_mod_idemp_l. f_equal. lia.
Qed.

Lemma uid_of_FormatUint uid : 0 <= uid <= max_uint32 -> uid_of (FormatUint uid) = uid.
Proof.
  intros H. pose proof (ParseUint_FormatUint uid max_uint32 H) as P. unfold ParseUint in P.
  destruct (FormatUint uid) eqn:E; [done |]. rewrite <- E in *. destruct (digits_val 0 (FormatUint uid)) as [n |] eqn:Ed; [| done].
  destruct (_ <=? _); [| done]. injection P as ->. unfold uid_of.
  pose proof (uid_of_digits _ _ _ Ed) as Hf. rewrite Z.mod_0_l in Hf by lia. rewrite Hf, Z.mod_small; [done |]. unfold max_uint32 in H. lia.
Qed.

Lemma GetMessage_shows user st L i m : bs_ListMessages user st = Some L -> L !! i = Some (Some m) ->
  GetMessage user (Z.of_nat i + 1) st = Some m.
Proof.
  intros HL Hi. unfold GetMessage. rewrite HL. cbn. apply lookup_lt_Some in Hi as Hlt.
  destruct ((_ <? 1) || _) eqn:E; [apply orb_true_iff in E; lia |]. replace (Z.to_nat (Z.of_nat i + 1 - 1)) with i by lia. by rewrite Hi.
Qed.

(** The body of a message. *)
Definition body user uid st : option gostring :=
  let blob := MessageID (meta_of user uid st) in
  if bool_decide (blob = []) then None
  else match ReadMessage user blob (msgStore st) with Ok data => Some data | Err _ => None end.

Lemma data_of_body user s st d : uids_ok st ->
  data_of user s st = Some d <-> exists uid, uid ∈ visible user st /\ FormatUint uid = s /\ body user uid st = Some d.
Proof.
  intros Hok. change (data_of user s st) with (current ← bs_ListMessages user st; i ← position_of s current;
    bs_GetMessageData user (Z.of_nat i + 1) st).
  destruct (list_shows user st) as (L & HL & HF). rewrite HL. cbn [mbind option_bind].
  assert (Hget : forall i uid, visible user st !! i = Some uid ->
    (exists o, L !! i = Some o /\ Pop3.UID <$> o = Some (FormatUint uid)) /\
    bs_GetMessageData user (Z.of_nat i + 1) st = body user uid st).
  { intros i uid Hi. destruct (Forall2_lookup_r _ _ _ _ _ HF Hi) as (o & Ho & m & -> & E1 & E2).
    split; [exists (Some m); split; [done |]; cbn; by rewrite E1 |].
    unfold bs_GetMessageData. rewrite (GetMessage_shows user st L i m) by done. cbn. by rewrite E2. }
  assert (Hpos : forall i uid, visible user st !! i = Some uid -> position_of (FormatUint uid) L = Some i).
  { intros i uid Hi. destruct (Hget i uid Hi) as [(o & Ho & Eo) _]. unfold position_of. apply fmap_Some. exists (i, o).
    split; [| done]. apply list_find_Some. split_and!; [done | done |]. intros j o' Hj Hlt Eo'.
    destruct (Forall2_lookup_l _ _ _ _ _ HF Hj) as (uid' & Hv & m' & -> & E1 & _). apply (inj Some) in Eo'.
    assert (uid' = uid); [| subst; pose proof (NoDup_lookup _ _ _ _ (visible_NoDup user st) Hv Hi); lia].
    apply FormatUint_inj_uint32; [by eapply visible_range, list_elem_of_lookup_2 .. | congruence]. }
  split.
  - intros (i & Hp & Hd)%bind_Some. unfold position_of in Hp. apply fmap_Some in Hp as ([i' o] & Hf & ->). cbn [fst] in Hd.
    apply list_find_Some in Hf as (Ho & Eo & _). destruct (Forall2_lookup_l _ _ _ _ _ HF Ho) as (uid & Hv & m & -> & E1 & _).
    exists uid. split; [by eapply list_elem_of_lookup_2 |]. split; [apply (inj Some) in Eo; congruence |].
    by rewrite <- (proj2 (Hget _ _ Hv)).
  - intros (uid & (i & Hi)%list_elem_of_lookup & <- & Hb). rewrite (Hpos _ _ Hi). cbn [mbind option_bind]. by rewrite (proj2 (Hget _ _ Hi)).
Qed.

(** ** Deleting *)
Lemma rows_RecordChange t u ct ck i mb d : MailDb.messages (RecordChange t u ct ck i mb d) = MailDb.messages d.
Proof. unfold RecordChange. by case_bool_decide. Qed.

Lemma messages_DeleteMessage user uid d : is_Some (rows_of user INBOX d !! uid) ->
  MailDb.messages (MailDb.DeleteMessage now user INBOX uid d) =
  <[messagesBucket user INBOX := delete uid (rows_of user INBOX d)]> (MailDb.messages d).
Proof.
  unfold MailDb.DeleteMessage, rows_of. destruct (MailDb.messages d !! messagesBucket user INBOX) as [rows |] eqn:Em; cbn;
    [| by rewrite lookup_empty; intros []]. intros [m ->].
  repeat case_bool_decide; rewrite ?rows_RecordChange; done.
Qed.

Lemma filter_absent (x : Z) (l : list Z) : x ∉ l -> filter (fun y => y <> x) l = l.
Proof. induction l as [| y l IH]; [done |]. intros H. rewrite filter_cons, decide_True by set_solver. f_equal. set_solver. Qed.

Lemma filter_ne_delete (l : list Z) i x : NoDup l -> l !! i = Some x -> filter (fun y => y <> x) l = delete i l.
Proof.
  intros HN. revert i. induction HN as [| y l Hy HN IH]; intros i Hi; [done |]. rewrite filter_cons. destruct i as [| i].
  - injection Hi as ->. rewrite decide_False by auto. by apply filter_absent.
  - change ((y :: l) !! S i) with (l !! i) in Hi. change (delete (S i) (y :: l)) with (y :: delete i l).
    rewrite decide_True, (IH i Hi); [done |]. intros ->. apply Hy. by eapply list_elem_of_lookup_2.
Qed.

(** The store after [bs_DeleteMessage] of a listed message. *)
Lemma delete_effect user st L i m : uids_ok st -> bs_ListMessages user st = Some L -> L !! i = Some (Some m) ->
  exists uid st', visible user st !! i = Some uid /\ FormatUint uid = Pop3.UID m /\
  bs_DeleteMessage pending now user (Z.of_nat i + 1) st = (true, st') /\
  MailDb.messages (db st') = <[messagesBucket user INBOX := delete uid (rows_of user INBOX (db st))]> (MailDb.messages (db st)) /\
  (forall id, BlobReferenced pending user id (db st') = true ->
    msgStore st' !! (user, id) = msgStore st !! (user, id)) /\
  (forall id, id <> MessageID (meta_of user uid st) -> msgStore st' !! (user, id) = msgStore st !! (user, id)).
Proof.
  intros Hok HL Hi. destruct (list_shows user st) as (L0 & HL0 & HF). assert (L0 = L) as -> by congruence.
  destruct (Forall2_lookup_l _ _ _ _ _ HF Hi) as (uid & Hv & m' & [= <-] & E1 & E2).
  pose proof (list_elem_of_lookup_2 _ _ _ Hv) as Hin. pose proof (visible_range _ _ _ Hok Hin) as Hr.
  apply visible_spec in Hin as [Hrow _].
  unfold bs_DeleteMessage. rewrite (GetMessage_shows user st L i m HL Hi), E1, uid_of_FormatUint by done.
  eexists uid, _. split; [done |]. split; [done |]. split; [reflexivity |].
  cbn [db msgStore]. split; [by apply messages_DeleteMessage |].
  fold (meta_of user uid st). set (blob := MessageID (meta_of user uid st)).
  destruct (_ && _) eqn:E; [| done].
  destruct (DeleteMessageUnchecked_cases user blob (msgStore st)) as [-> | ->]; [done |].
  split; intros id Hid; apply lookup_delete_ne; intros [= <-]; [| done].
  apply andb_true_iff in E as [_ E%negb_true_iff]. congruence.
Qed.

Lemma rows_after user user' st st' rows : MailDb.messages (db st') = <[messagesBucket user INBOX := rows]> (MailDb.messages (db st)) ->
  rows_of user' INBOX (db st') = if bool_decide (messagesBucket user INBOX = messagesBucket user' INBOX) then rows
  else rows_of user' INBOX (db st).
Proof.
  unfold rows_of. intros ->. case_bool_decide as E; [by rewrite E, lookup_insert_eq | by rewrite lookup_insert_ne].
Qed.

(** A message that is still there keeps its blob. *)
Lemma row_references user uid st :
  is_Some (rows_of user INBOX (db st) !! uid) -> BlobReferenced pending user (MessageID (meta_of user uid st)) (db st) = true.
Proof. intros [m Hm]. unfold meta_of, GetMessageMetadata. rewrite Hm. by eapply row_referenced. Qed.

Section Deletion.
Context (user : gostring) (st st' : BboltStore) (uid : Z).
Hypothesis Hdb : MailDb.messages (db st') =
  <[messagesBucket user INBOX := delete uid (rows_of user INBOX (db st))]> (MailDb.messages (db st)).

Lemma rows_own : rows_of user INBOX (db st') = delete uid (rows_of user INBOX (db st)).
Proof. rewrite (rows_after user user st st' _ Hdb). by rewrite bool_decide_eq_true_2. Qed.

Lemma uids_ok_deleted : uids_ok st -> uids_ok st'.
Proof.
  intros Hok user' k Hk. rewrite (rows_after user user' st st' _ Hdb) in Hk. case_bool_decide; [| by apply (Hok user')].
  apply lookup_delete_is_Some in Hk as [_ Hk]. by apply (Hok user).
Qed.

Lemma meta_other k : k <> uid -> meta_of user k st' = meta_of user k st.
Proof. intros H. unfold meta_of, GetMessageMetadata. by rewrite rows_own, lookup_delete_ne. Qed.

Lemma visible_deleted : visible user st' = filter (fun k => k <> uid) (visible user st).
Proof.
  unfold visible, GetMessageUIDs. rewrite rows_own, keys_delete, !list_filter_filter. apply list_filter_iff.
  intros k. destruct (decide (k = uid)); [naive_solver |]. rewrite meta_other by done. tauto.
Qed.
End Deletion.

#[export] Program Instance mailstore_laws : MailstoreLaws BboltStore := {| ms_ok := uids_ok |}.
Next Obligation.
intros user st L Hok HL. destruct (list_shows user st) as (L0 & HL0 & HF). cbn in HL. assert (L0 = L) as -> by congruence.
rewrite (shows_uids _ _ _ _ HF). apply NoDup_fmap_2_strong; [| apply visible_NoDup].
intros a b Ha Hb E. apply (inj Some) in E. apply FormatUint_inj_uint32; [by eapply visible_range .. | done].
Qed.
Next Obligation.
intros user st L i m Hok HL Hi. destruct (list_shows user st) as (L0 & HL0 & HF). assert (L0 = L) as -> by (cbn in HL; congruence).
destruct (delete_effect user st L i m Hok HL0 Hi) as (uid & st' & Hv & Em & Ed & Hdb & Hf1 & Hf2).
destruct (list_shows user st') as (L' & HL' & HF'). exists st', L'. split; [exact Ed |].
split; [by eapply uids_ok_deleted |]. split; [exact HL' |]. pose proof (visible_deleted _ _ _ _ Hdb) as Hvis. split.
- rewrite (shows_uids _ _ _ _ HF), (shows_uids _ _ _ _ HF'), Hvis, (filter_ne_delete _ i) by (done || apply visible_NoDup).
by rewrite !delete_take_drop, map_app, firstn_map, skipn_map.
- intros s Hs. apply option_eq. intros d. rewrite !data_of_body; [| done | by eapply uids_ok_deleted].
assert (Hin : forall k, k ∈ visible user st' <-> k <> uid /\ k ∈ visible user st)
  by (intros k; by rewrite Hvis, list_elem_of_filter).
setoid_rewrite Hin.
assert (Hb : forall k, k <> uid -> k ∈ visible user st -> body user k st' = body user k st).
{ intros k Hk [Hrow _]%visible_spec. unfold body. rewrite (meta_other _ _ _ _ Hdb) by done. case_bool_decide; [done |].
unfold ReadMessage. rewrite Hf1; [done |]. rewrite <- (meta_other _ _ _ _ Hdb k Hk). apply row_references.
rewrite (rows_own _ _ _ _ Hdb). by rewrite lookup_delete_ne. }
  split; intros (k & Hk & Ek & Hd).
+ exists k. destruct Hk as [Hk1 Hk2]. rewrite Hb in Hd by done. by split_and!.
+ exists k. assert (k <> uid) by congruence. rewrite Hb by done. by split_and!.
Qed.
End Laws.

(** ** Examples *)
Section Examples.
#[local] Existing Instance ascii_tables.
#[local] Instance example_mailstore : Mailstore BboltStore := bbolt_mailstore (fun _ _ => false) 0.
#[local] Instance example_laws : MailstoreLaws BboltStore := mailstore_laws (fun _ _ => false) 0.

Definition ann : gostring := "ann@x".
Definition hash_of (c : ascii) : gostring := repeat c 64.
Definition row (uid : Z) (c : ascii) : MessageMetadata := {|
  MessageID := hash_of c; MailDb.UID := uid; Flags := []; InternalDate := 0; MailDb.Size := 10 * uid; ModSeq := 0;
  Subject := []; Date := []; From := []; To := []; InReplyTo := []; References := []; ThreadID := []; IsThreadRoot := false |}.

(** Three messages, the second and the third with one body. *)
Definition three : BboltStore := {|
  db := {| mailboxes := ∅; floors := ∅; acl := ∅; changes := ∅;
    MailDb.messages := {[ messagesBucket ann INBOX := {[ 1 := row 1 "a"; 2 := row 2 "b"; 3 := row 3 "b" ]} ]} |};
  msgStore := {[ (ann, hash_of "a") := {| content := "first"; mtime := 0 |};
    (ann, hash_of "b") := {| content := "second"; mtime := 0 |} ]} |}.

Lemma three_ok : uids_ok three.
Proof.
  intros user uid. unfold rows_of, three. cbn [db MailDb.messages].
  destruct (decide (messagesBucket ann INBOX = messagesBucket user INBOX)) as [<- | Hne].
  - rewrite lookup_singleton_eq. cbn [default]. intros [m Hm]. unfold Datatypes.id in Hm. unfold max_uint32.
    repeat (apply lookup_insert_Some in Hm as [[<- _] | [_ Hm]]; [lia |]). apply lookup_singleton_Some in Hm as [<- _]. lia.
  - rewrite lookup_singleton_ne by done. cbn. rewrite lookup_empty. by intros [].
Qed.

Definition server : Server := {|
  authFunc := Some (fun u p => Some (p =s? "secret")); quotaRelease := true; maxLoginAttempts := 5; lockoutDuration := hour;
  requireTLS := false; tlsConfig := false; certificateLoads := false; handshake := false; clientIP := "192.0.2.1";
  mapOrder := fun _ => []; maxConnections := 10; bufsize := 4096; stream_end := ReadEOF |}.

(** A session that has marked the message 2. *)
Definition marked_two : Session := with_deleted {[ FormatUint 2 ]} (with_state StateTransaction (with_user ann (NewSession "s1" true))).
Definition quitting (oth : list (BboltStore -> BboltStore)) : World BboltStore := {|
  sess := marked_two; authFailures := ∅; maildrops := ∅; store := three; others := oth; released := []; input := []; out := [] |}.

Definition listing (st : BboltStore) : list (option gostring) := match bs_ListMessages ann st with Some L => uids L | None => [] end.

Lemma quitting_ok : ms_ok (store (quitting [])).
Proof. unfold ms_ok. cbn. apply three_ok. Qed.


(** UPDATE is a listing and then deletions by number, with no lock that the
    other protocols take: when another client expunges the first of three messages
    between the two, QUIT in a session that marked the second message answers +OK,
    deletes the third message, which was never marked, and leaves the second. *)
Theorem quit_race_deletes_unmarked :
  let expunge := fun st => {| db := MailDb.DeleteMessage 0 ann INBOX 1 (db st); msgStore := msgStore st |} in
  let w' := snd (handleTransactionCommand server "QUIT" [] (quitting [fun st => st; expunge])) in
  listing three = [Some (FormatUint 1); Some (FormatUint 2); Some (FormatUint 3)] /\
  deletedUIDs (sess (quitting [])) = {[ FormatUint 2 ]} /\
  out w' = ("+OK" : gostring) ++ CRLF /\ listing (store w') = [Some (FormatUint 2)].
Proof. split_and!; vm_compute; reflexivity. Qed.

(** RETR finds the number of a message in one call of the store and its data in
    the next: when another client expunges the first message between the two, RETR
    of the second message sends the body of the third. *)
Theorem retr_race_serves_other :
  let expunge := fun st => {| db := MailDb.DeleteMessage 0 ann INBOX 1 (db st); msgStore := msgStore st |} in
  let third := {| db := put_message ann INBOX 3 (row 3 "a") (db three); msgStore := msgStore three |} in
  let m := {| Index := 2; Pop3.UID := FormatUint 2; BlobID := hash_of "b"; Pop3.Size := 20; Data := None |} in
  let w := set_store third (quitting [fun st => st; expunge]) in
  data_of ann (FormatUint 2) third = Some ("second" : gostring) /\
  data_of ann (FormatUint 3) third = Some ("first" : gostring) /\
  fst (loadSnapshotMessageData m w) = Some ("first" : gostring).
Proof. split_and!; vm_compute; reflexivity. Qed.

(** A login: the connection, USER, PASS. *)
Definition client_line (ident line : gostring) (y : System BboltStore) : System BboltStore :=
  match sessions y !! ident with Some s => serve server 0 ident s [] (line ++ CRLF) [] y | None => y end.
Definition logged_in : System BboltStore :=
  client_line "s1" "PASS secret" (client_line "s1" "USER ann@x" (handleConnection server "s1" true (sys_init three))).

Lemma client_line_reachable ident line y0 y : star (sys_step server) y0 y -> star (sys_step server) y0 (client_line ident line y).
Proof.
  intros H. unfold client_line. destruct (sessions y !! ident) as [s |] eqn:E; [| done].
  eapply star_snoc; [exact H |]. by apply Sys_round.
Qed.

Lemma logged_in_reachable : star (sys_step server) (sys_init three) logged_in.
Proof. do 2 apply client_line_reachable. apply star_one. by apply Sys_connect. Qed.

Lemma logged_in_lock : sysMaildrops logged_in !! ann = Some ("s1" : gostring).
Proof. vm_compute. reflexivity. Qed.

Example maildrop_lock_sound_witness :
  exists s, sessions logged_in !! ("s1" : gostring) = Some s /\ state s = StateTransaction /\ maildropKey (user s) = ann.
Proof.
  destruct (maildrop_lock_sound server three logged_in logged_in_reachable) as (_ & H & _).
  apply (H ann "s1"); [discriminate | exact logged_in_lock].
Defined.
End Examples.
