(* ===== verification/Dsn.v ===== *)
(** * internal/queue: delivery status notifications

    dsn.go and verp.go: the DSN parameters, the report that is sent back to a
    sender, and its field texts.  The clock, the random boundary and the layout
    of dates are arguments; a report is one byte string, built from the format
    strings of the code. *)
From S2P Require Import Prelude GoLib Utf8 SmtpData.

(** ** Parameters *)
Definition DSNNotifyNever : Z := 1.
Definition DSNNotifySuccess : Z := 2.
Definition DSNNotifyFailure : Z := 4.
Definition DSNNotifyDelay : Z := 8.

Inductive DSNRet := DSNRetFull | DSNRetHeaders.
#[export] Instance DSNRet_eq_dec : EqDecision DSNRet.
Proof. solve_decision. Defined.

Definition HasNotify (n notify : Z) : bool := negb (Z.land n notify =? 0).

Record DSNRecipient := { Original : gostring; DSNAddress : gostring; OriginalRecipient : gostring }.
Record DSN := {
  ReportedDomain : gostring;
  ArrivalDate : Z;
  OriginalFrom : gostring;
  OriginalTo : gostring;
  Recipient : DSNRecipient;
  Action : gostring;
  Status : gostring;
  DiagnosticCode : gostring;
  RemoteMTA : gostring;
  MessageID : gostring;
  EnvID : gostring
}.

(** [strings.Map] with the function that replaces control characters. *)
Definition sanitizeDSNField (s : gostring) : gostring :=
  encode_runes (map (fun r => if (r <? 32) || (r =? 127) then 32 else r) (runes s)).

Definition hex_value (c : ascii) : option Z :=
  if is_digit c then Some (bz c - 48) else if in_range 97 102 c then Some (bz c - 87)
  else if in_range 65 70 c then Some (bz c - 55) else None.

(** [xtextDecode]: an escape of two hexadecimal digits, or the byte itself. *)
Fixpoint xtext_go (v : gostring) : gostring :=
  match v with
  | [] => []
  | c :: t =>
      match t with
      | h :: (l :: u) =>
          match (if c =c? "+" then hex_value h else None), hex_value l with
          | Some a, Some b => byte_of (16 * a + b) :: xtext_go u
          | _, _ => c :: xtext_go t
          end
      | _ => c :: xtext_go t
      end
  end.
Definition xtextDecode (v : gostring) : gostring := if negb (ContainsByte v "+") then v else xtext_go v.

Definition envIDField (envID : gostring) : gostring :=
  if bool_decide (envID = []) then [] else "Original-Envelope-Id: " ++ envID ++ CRLF.

Definition dsnOriginalRecipient (orcpt : gostring) : gostring :=
  let '(typ, addr, ok) := Cut orcpt ";" in
  if negb ok || bool_decide (typ = []) || bool_decide (addr = []) then []
  else "Original-Recipient: " ++ sanitizeDSNField typ ++ "; " ++ sanitizeDSNField (xtextDecode addr) ++ CRLF.

Definition extractHeaders (msg : gostring) : gostring :=
  let crlf := Index msg [CR; LF; CR; LF] in
  let idx := match Index msg [LF; LF], crlf with
             | Some i, Some j => if (i <? j)%nat then Some i else crlf
             | Some i, None => Some i
             | None, _ => crlf
             end in
  match idx with Some i => take i msg | None => msg end.

(** ** strconv.Unquote of a double-quoted literal *)
(** The content between the quotes.  A byte value is kept as a byte; a character
    is encoded.  The fuel is the length of the content. *)
Fixpoint hex_digits (n : nat) (v : Z) (s : gostring) : option (Z * gostring) :=
  match n with
  | O => Some (v, s)
  | S n => match s with c :: t => x ← hex_value c; hex_digits n (16 * v + x) t | [] => None end
  end.
Definition valid_rune (r : Z) : bool := (0 <=? r) && (r <=? 1114111) && negb ((55296 <=? r) && (r <=? 57343)).
Definition octal (c : ascii) : option Z := if in_range 48 55 c then Some (bz c - 48) else None.

(** [UnquoteChar] behind a backslash: the bytes it stands for, and the rest. *)
Definition unquote_escape (c : ascii) (s : gostring) : option (gostring * gostring) :=
  let plain n := Some ([byte_of n], s) in
  let rune n := '(v, r) ← hex_digits n 0 s; if valid_rune v then Some (encode_rune v, r) else None in
  if c =c? "a" then plain 7 else if c =c? "b" then plain 8 else if c =c? "f" then plain 12
  else if c =c? "n" then plain 10 else if c =c? "r" then plain 13 else if c =c? "t" then plain 9
  else if c =c? "v" then plain 11
  else if c =c? "x" then '(v, r) ← hex_digits 2 0 s; Some ([byte_of v], r)
  else if c =c? "u" then rune 4%nat
  else if c =c? "U" then rune 8%nat
  else if c =c? "\" then plain 92
  else if bz c =? 34 then plain 34
  else match octal c, s with
       | Some a, d :: e :: r =>
           b ← octal d; v ← octal e;
           let n := 64 * a + 8 * b + v in if 255 <? n then None else Some ([byte_of n], r)
       | _, _ => None
       end.

Fixpoint unquote_go (fuel : nat) (s : gostring) : option gostring :=
  match fuel, s with
  | S f, c :: t =>
      if c =c? LF then None
      else if c =c? "\" then
        match t with
        | [] => None
        | d :: u => '(b, r) ← unquote_escape d u; (fun o => b ++ o) <$> unquote_go f r
        end
      else if bz c <? 128 then (fun o => c :: o) <$> unquote_go f t
      else let '(r, w) := decode_rune s in (fun o => encode_rune r ++ o) <$> unquote_go f (drop w s)
  | _, _ => Some []
  end.
Definition Unquote (content : gostring) : option gostring := unquote_go (length content) content.

Section Diagnostic.
Context {U : UnicodeTables}.

Definition ParseDSNNotify (value : gostring) : Z :=
  if bool_decide (value = []) then 0 else
  foldl (fun notify token =>
    let token := TrimSpace token in
    Z.lor notify
    (if token =s? "NEVER" then DSNNotifyNever else if token =s? "SUCCESS" then DSNNotifySuccess
      else if token =s? "FAILURE" then DSNNotifyFailure else if token =s? "DELAY" then DSNNotifyDelay else 0))
  0 (Split (ToUpper value) ",").

Definition ParseDSNRet (ret : gostring) : DSNRet := if HasSuffix (ToUpper ret) "HDRS" then DSNRetHeaders else DSNRetFull.

(** [quotedReplyRe]: three digits, a blank and a quoted string to the end. *)
Fixpoint quoted_body (s : gostring) : bool :=
  match s with
  | [] => false
  | c :: t =>
      if bz c =? 34 then bool_decide (t = [])
      else if c =c? "\" then match t with [] => false | d :: u => negb (d =c? LF) && quoted_body u end
      else quoted_body t
  end.
Definition quotedReply (s : gostring) : option (gostring * gostring) :=
  match s with
  | a :: b :: c :: d :: e :: t =>
      if is_digit a && is_digit b && is_digit c && (d =c? " ") && (bz e =? 34) && quoted_body t
      then Some ([a; b; c], take (length t - 1) t) else None
  | _ => None
  end.

Definition maxDiagnosticLen : nat := 500.

Definition diagnosticText (s : gostring) : gostring :=
  let s := match quotedReply s with
  | Some (code, content) => match Unquote content with Some u => code ++ " " ++ u | None => s end
  | None => s
  end in
  let s := TrimSpace s in
  let s := if (5 <=? length s)%nat && EqualFold (take 5 s) "smtp;" then TrimSpace (drop 5 s) else s in
  let s := Join (Fields (sanitizeDSNField s)) " " in
  if (maxDiagnosticLen <? length s)%nat then take maxDiagnosticLen s else s.

(** ** The report *)
Definition maxDSNOriginalSize : Z := 128 * 1024.

(** What is returned of the original message, and its type. *)
Definition original_part (originalMessage : gostring) (ret : DSNRet) : gostring * gostring :=
  if bool_decide (ret = DSNRetFull) && (Z.of_nat (length originalMessage) <=? maxDSNOriginalSize)
  then (originalMessage, "message/rfc822" : gostring) else
  let part := extractHeaders originalMessage in
  let part :=
  if maxDSNOriginalSize <? Z.of_nat (length part) then
  let cut := take (Z.to_nat maxDSNOriginalSize) part in
  match LastIndexByte cut LF with Some i => take i cut | None => cut end
  else part in
  (part, "text/rfc822-headers" : gostring).

Definition line (s : gostring) : gostring := s ++ CRLF.

(** [now] and [date] give the time and the layout of RFC 1123; [boundary] is the
    random part of the boundary. *)
Definition GenerateDSN (now : Z) (date : Z -> gostring) (boundary : gostring) (dsn : DSN) (originalMessage : gostring)
  (ret : DSNRet) : gostring :=
  let '(originalPart, originalType) := original_part originalMessage ret in
  let reportedDomain := sanitizeDSNField (ReportedDomain dsn) in
  let originalFrom := sanitizeDSNField (OriginalFrom dsn) in
  let originalTo := sanitizeDSNField (OriginalTo dsn) in
  let remoteMTA := sanitizeDSNField (RemoteMTA dsn) in
  let rcptOriginal := sanitizeDSNField (Original (Recipient dsn)) in
  let dsnAddress := sanitizeDSNField (DSNAddress (Recipient dsn)) in
  let envID := sanitizeDSNField (xtextDecode (EnvID dsn)) in
  let boundary := "boundary_" ++ boundary in
  line ("From: MAILER-DAEMON@" ++ reportedDomain) ++ line ("To: " ++ originalFrom) ++
  line "Subject: Delivery Status Notification" ++
  line ("Content-Type: multipart/report; report-type=delivery-status; boundary=" ++ boundary) ++
  line ("Date: " ++ date now) ++ line ("Message-ID: " ++ MessageID dsn) ++ line "MIME-Version: 1.0" ++
  line "Auto-Submitted: auto-generated" ++ line [] ++
  line ("--" ++ boundary) ++ line "Content-Type: text/plain" ++ line [] ++
  line ("Delivery to the following recipient " ++ Action dsn ++ ":") ++ line ("    " ++ originalTo) ++ line [] ++
  line ("Action: " ++ Action dsn) ++ line ("Status: " ++ Status dsn) ++ line [] ++
  line ("--" ++ boundary) ++ line "Content-Type: message/delivery-status" ++ line [] ++
  envIDField envID ++ line ("Reporting-MTA: dns; " ++ reportedDomain) ++
  line ("Arrival-Date: " ++ date (ArrivalDate dsn)) ++ line [] ++
  dsnOriginalRecipient (OriginalRecipient (Recipient dsn)) ++ line ("Final-Recipient: rfc822; " ++ rcptOriginal) ++
  line ("Action: " ++ Action dsn) ++ line ("Status: " ++ Status dsn) ++
  (if negb (bool_decide (remoteMTA = [])) && negb (remoteMTA =s? "unknown")
    then line ("Remote-MTA: dns; " ++ remoteMTA) else []) ++
  (let diag := diagnosticText (DiagnosticCode dsn) in
    if bool_decide (diag = []) then [] else line ("Diagnostic-Code: smtp; " ++ diag)) ++
  (if negb (bool_decide (dsnAddress = [])) && negb (dsnAddress =s? rcptOriginal)
    then line ("X-Actual-Recipient: rfc822; " ++ dsnAddress) else []) ++
  CRLF ++ line ("--" ++ boundary) ++ line ("Content-Type: " ++ originalType) ++ line [] ++
  line originalPart ++ CRLF ++ line ("--" ++ boundary ++ "--").

Definition with_outcome (action status : gostring) (d : DSN) : DSN := {|
  ReportedDomain := ReportedDomain d; ArrivalDate := ArrivalDate d; OriginalFrom := OriginalFrom d;
  OriginalTo := OriginalTo d; Recipient := Recipient d; Action := action; Status := status;
  DiagnosticCode := DiagnosticCode d; RemoteMTA := RemoteMTA d; MessageID := MessageID d; EnvID := EnvID d |}.

Definition GenerateDelayDSN (now : Z) (date : Z -> gostring) (boundary : gostring) (dsn : DSN) : gostring :=
  GenerateDSN now date boundary (with_outcome "delayed" "4.0.0" dsn) [] DSNRetHeaders.
End Diagnostic.

(** ** VERP *)
Definition splitEmail (email : gostring) : gostring * gostring :=
  match LastIndexByte email "@" with
  | None => (email, [])
  | Some at_ => (take at_ email, drop (at_ + 1) email)
  end.
Definition EncodeVERP (senderDomain recipient : gostring) : gostring :=
  let '(user, domain) := splitEmail recipient in "bounce-" ++ user ++ "=" ++ domain ++ "@" ++ senderDomain.

(** ** One line per field *)
Definition one_line (s : gostring) : Prop := (CR ∉ s) /\ (LF ∉ s).

Lemma one_line_app a b : one_line a -> one_line b -> one_line (a ++ b).
Proof. unfold one_line. set_solver. Qed.
Lemma one_line_const (s : gostring) : negb (ContainsByte s CR) && negb (ContainsByte s LF) = true -> one_line s.
Proof.
  intros [H1%negb_true_iff H2%negb_true_iff]%andb_true_iff. split; by apply ContainsByte_false.
Qed.
Lemma one_line_printable s : Forall (fun c => 32 <= bz c) s -> one_line s.
Proof. rewrite Forall_forall. intros H. split; intros Hin; apply H in Hin; vm_compute in Hin; done. Qed.

Lemma encode_rune_printable r : 32 <= r -> Forall (fun c => 32 <= bz c) (encode_rune r).
Proof.
  intros Hr. assert (H : exists r', scalar r' /\ 32 <= r' /\ encode_rune r = encode_rune r').
  { destruct (decide (scalar r)) as [Hs | Hs]; [by exists r |]. exists rune_error.
    split; [split; [done | unfold rune_error; lia] |]. split; [done |]. unfold encode_rune.
    replace ((r <? 0) || (1114111 <? r) || ((55296 <=? r) && (r <=? 57343))) with true; [done |].
    symmetry. rewrite !orb_true_iff, andb_true_iff, !Z.ltb_lt, !Z.leb_le. unfold scalar in Hs. lia. }
  destruct H as (r' & Hs & Hr' & ->). destruct (encode_shape r' Hs) as (c & t & E & _ & Ht & H1 & H2 & _). rewrite E.
  constructor; [| eapply Forall_impl; [exact Ht |]; intros d Hd; unfold cont, in_range in Hd; lia].
  destruct t as [| d t]; [| specialize (H2 ltac:(done)); lia]. specialize (H1 eq_refl).
  rewrite encode_rune_sum in E by done. destruct (r' <? 128) eqn:Er; [injection E as <-; rewrite bz_byte_of; lia |].
  destruct (r' <? 2048); [done |]. by destruct (r' <? 65536).
Qed.

Lemma sanitize_one_line s : one_line (sanitizeDSNField s).
Proof.
  apply one_line_printable. unfold sanitizeDSNField, encode_runes. induction (runes s) as [| r rs IH]; [constructor |].
  cbn [map concat]. apply Forall_app. split; [| done]. apply encode_rune_printable.
  destruct ((r <? 32) || (r =? 127)) eqn:E; [lia |]. apply orb_false_iff in E. lia.
Qed.

Lemma Split_line s r : (LF ∉ s) -> Split (line s ++ r) LF = (s ++ [CR]) :: Split r LF.
Proof.
  intros H. replace (line s ++ r) with ((s ++ [CR]) ++ LF :: r) by (unfold line; by rewrite <- !app_assoc).
  apply Split_app. rewrite elem_of_app, list_elem_of_singleton. intros [? | E]; [done |]. discriminate E.
Qed.

Section Report.
Context {U : UnicodeTables}.
Context (now : Z) (date : Z -> gostring) (boundary : gostring).
Hypothesis date_one_line : forall t, one_line (date t).
Hypothesis boundary_one_line : one_line boundary.

Lemma original_part_bounded msg ret : Z.of_nat (length (fst (original_part msg ret))) <= maxDSNOriginalSize.
Proof.
  unfold original_part. destruct (_ && _) eqn:E; [apply andb_true_iff in E; cbn; lia |]. cbn [fst].
  destruct (maxDSNOriginalSize <? _) eqn:El; [| lia].
  assert (H : Z.of_nat (length (take (Z.to_nat maxDSNOriginalSize) (extractHeaders msg))) <= maxDSNOriginalSize)
    by (rewrite length_take; unfold maxDSNOriginalSize in *; lia).
  destruct (LastIndexByte _ LF); [rewrite length_take; lia | done].
Qed.

(** a report is not a way to forge mail.  Whatever bytes the envelope of a
    message and the reply of a remote server hold, the header of the report is
    exactly its eight fields, each on one line, with the empty line behind them;
    and the report returns at most 128 KiB of the original message. *)
Theorem report_header_exact dsn original ret :
  one_line (MessageID dsn) ->
  let header : list gostring :=
  ["From: MAILER-DAEMON@" ++ sanitizeDSNField (ReportedDomain dsn); "To: " ++ sanitizeDSNField (OriginalFrom dsn);
    "Subject: Delivery Status Notification" : gostring;
    "Content-Type: multipart/report; report-type=delivery-status; boundary=boundary_" ++ boundary;
    "Date: " ++ date now; "Message-ID: " ++ MessageID dsn; "MIME-Version: 1.0" : gostring;
    "Auto-Submitted: auto-generated" : gostring] in
  take 9 (Split (GenerateDSN now date boundary dsn original ret) LF) = map (fun l => l ++ [CR]) (header ++ [[]]) /\
  Forall one_line header /\ Z.of_nat (length (fst (original_part original ret))) <= maxDSNOriginalSize.
Proof.
  intros Hid header. assert (Hh : Forall one_line header).
  { unfold header. repeat constructor; try (apply one_line_app; [apply one_line_const; reflexivity |]);
      auto using sanitize_one_line; apply one_line_const; reflexivity. }
  split; [| split; [done | apply original_part_bounded]].
  unfold GenerateDSN. destruct (original_part original ret) as [part type].
  unfold header in Hh. rewrite !Forall_cons in Hh. destruct Hh as (H1 & H2 & H3 & H4 & H5 & H6 & H7 & H8 & _).
  change (("Content-Type: multipart/report; report-type=delivery-status; boundary=" : gostring) ++
    ("boundary_" : gostring) ++ boundary) with
    (("Content-Type: multipart/report; report-type=delivery-status; boundary=boundary_" : gostring) ++ boundary).
  rewrite !Split_line by (done || apply H1 || apply H2 || apply H3 || apply H4 || apply H5 || apply H6 || apply H7 || apply H8).
  reflexivity.
Qed.
End Report.

Section Examples.
#[local] Existing Instance ascii_tables.

Definition forged : DSN := {|
  ReportedDomain := "umailserver"; ArrivalDate := 0; OriginalFrom := "a@x" ++ CRLF ++ "Bcc: victim@y"; OriginalTo := "b@z";
  Recipient := {| Original := "b@z"; DSNAddress := []; OriginalRecipient := [] |}; Action := "failed"; Status := "5.1.1";
  DiagnosticCode := "550 no such user"; RemoteMTA := "mx.z"; MessageID := "<1@umailserver>"; EnvID := [] |}.

Definition epoch (_ : Z) : gostring := "Thu, 01 Jan 1970 00:00:00 +0000".

Lemma report_header_exact_witness :
  take 2 (drop 1 (Split (GenerateDSN 0 epoch "0a" forged "" DSNRetFull) LF)) =
  [("To: a@x  Bcc: victim@y" : gostring) ++ [CR]; ("Subject: Delivery Status Notification" : gostring) ++ [CR]].
Proof.
  destruct (report_header_exact 0 epoch "0a") with (dsn := forged) (original := [] : gostring) (ret := DSNRetFull) as [H _];
    [intros; apply one_line_const; reflexivity .. |].
  apply (f_equal (fun l => take 2 (drop 1 l))) in H. rewrite skipn_firstn_comm, take_take in H. exact H.
Defined.
End Examples.
