(* ===== verification/Queue.v ===== *)
(** * internal/queue: the outbound queue

    The manager of manager.go with the queue rows of internal/db/db.go.
    [Manager] is the shared state: the rows of the queue bucket, the spool files
    and delivered-markers on disk, the channel to the workers and the slots per
    domain.  [Env] is what one operation gets from outside: the time, fresh ids,
    the random delay, and which writes succeed.  [Net] is the outside world of a
    delivery: MX lookups and the SMTP dialogue with a host (connection pool,
    circuit breaker, TLS policy, signing and transport of [deliverToMX]), of which
    the reply matters here.

    Every entry has one recipient: the code makes one entry per recipient.  A row
    is the entry its JSON encodes, or a corrupt value that [GetPendingQueue]
    can only sniff at.  The tickers, metrics, web hooks, tracing and logs are left
    out. *)
From S2P Require Import Prelude GoLib Utf8 Bolt SmtpData Dsn.

Inductive QueueStatus := StPending | StSending | StFailed | StDelivered | StBounced.
#[export] Instance QueueStatus_eq_dec : EqDecision QueueStatus.
Proof. solve_decision. Defined.

Record QueueEntry := {
  ID : gostring;
  From : gostring;
  To : list gostring;
  MessagePath : gostring;
  CreatedAt : Z;
  NextRetry : Z;
  RetryCount : Z;
  LastError : gostring;
  ClaimedAt : Z;
  QStatus : QueueStatus;
  Notify : Z;
  Ret : DSNRet;
  QEnvID : gostring;
  ORCPT : gostring
}.

Inductive Row := Stored (e : QueueEntry) | Corrupt (pendingMarker brace : bool).

Record Config := {
  maxAge : Z;
  claimLease : Z;
  maxRetries : Z;
  maxQueueSize : Z;
  maxPerDomain : Z;
  chanCap : nat;
  dataDir : gostring;
  queueDir : gostring;
  date : Z -> gostring;
  durationString : Z -> gostring
}.

Record Env := {
  now : Z;
  newID : gostring;
  dsnID : gostring;                (* id of a report's queue entry *)
  dsnMessageID : gostring;
  dsnBoundary : gostring;
  jitter : Z -> Z;                 (* the random delay around a base delay *)
  spoolWrites : bool;
  markerWrites : bool;
  updates : nat -> bool            (* which attempts to write the outcome succeed *)
}.

Record Manager := {
  rows : gmap gostring Row;
  files : gmap gostring gostring;
  delivered : gset gostring;       (* ids with a delivered-marker *)
  deliveryChan : list QueueEntry;
  domActive : gmap gostring Z
}.
Definition set_rows f (q : Manager) : Manager := {|
  rows := f (rows q); files := files q; delivered := delivered q; deliveryChan := deliveryChan q; domActive := domActive q |}.
Definition set_files f (q : Manager) : Manager := {|
  rows := rows q; files := f (files q); delivered := delivered q; deliveryChan := deliveryChan q; domActive := domActive q |}.
Definition set_delivered f (q : Manager) : Manager := {|
  rows := rows q; files := files q; delivered := f (delivered q); deliveryChan := deliveryChan q; domActive := domActive q |}.
Definition set_chan f (q : Manager) : Manager := {|
  rows := rows q; files := files q; delivered := delivered q; deliveryChan := f (deliveryChan q); domActive := domActive q |}.
Definition set_active f (q : Manager) : Manager := {|
  rows := rows q; files := files q; delivered := delivered q; deliveryChan := deliveryChan q; domActive := f (domActive q) |}.

Definition with_status (s : QueueStatus) (e : QueueEntry) : QueueEntry := {|
  ID := ID e; From := From e; To := To e; MessagePath := MessagePath e; CreatedAt := CreatedAt e; NextRetry := NextRetry e;
  RetryCount := RetryCount e; LastError := LastError e; ClaimedAt := ClaimedAt e; QStatus := s; Notify := Notify e;
  Ret := Ret e; QEnvID := QEnvID e; ORCPT := ORCPT e |}.
Definition with_times (next claimed : Z) (e : QueueEntry) : QueueEntry := {|
  ID := ID e; From := From e; To := To e; MessagePath := MessagePath e; CreatedAt := CreatedAt e; NextRetry := next;
  RetryCount := RetryCount e; LastError := LastError e; ClaimedAt := claimed; QStatus := QStatus e; Notify := Notify e;
  Ret := Ret e; QEnvID := QEnvID e; ORCPT := ORCPT e |}.
Definition with_error (count : Z) (err : gostring) (e : QueueEntry) : QueueEntry := {|
  ID := ID e; From := From e; To := To e; MessagePath := MessagePath e; CreatedAt := CreatedAt e; NextRetry := NextRetry e;
  RetryCount := count; LastError := err; ClaimedAt := ClaimedAt e; QStatus := QStatus e; Notify := Notify e;
  Ret := Ret e; QEnvID := QEnvID e; ORCPT := ORCPT e |}.

(** ** Queue rows (db.go) *)
Definition EnqueueWithLimit (e : QueueEntry) (maxSize : Z) (m : gmap gostring Row) : option (gmap gostring Row) :=
  if maxSize <=? Z.of_nat (size m) then None else Some (<[ID e := Stored e]> m).

Definition GetQueueEntry (id : gostring) (m : gmap gostring Row) : option QueueEntry :=
  match m !! id with Some (Stored e) => Some e | _ => None end.

(** [None] is ErrQueueEntryNotFound. *)
Definition UpdateQueueEntry (e : QueueEntry) (m : gmap gostring Row) : option (gmap gostring Row) :=
  match m !! ID e with Some _ => Some (<[ID e := Stored e]> m) | None => None end.

Definition ClaimQueueEntry (id : gostring) (t : Z) (m : gmap gostring Row) : option (QueueEntry * gmap gostring Row) :=
  match m !! id with
  | Some (Stored e) =>
      if negb (bool_decide (QStatus e = StPending)) || (t <? NextRetry e) then None
      else let e := with_times (NextRetry e) t (with_status StSending e) in Some (e, <[id := Stored e]> m)
  | _ => None
  end.

Definition stale (t lease : Z) (e : QueueEntry) : bool :=
  bool_decide (QStatus e = StSending) &&
  negb (negb (ClaimedAt e =? zero_time) && (time_sub t (ClaimedAt e) <? lease)).
Definition requeue (t : Z) (e : QueueEntry) : QueueEntry := with_times t zero_time (with_status StPending e).
Definition RequeueStaleClaims (t lease : Z) (m : gmap gostring Row) : gmap gostring Row :=
  (fun r => match r with Stored e => if stale t lease e then Stored (requeue t e) else r | Corrupt _ _ => r end) <$> m.

Definition Dequeue (id : gostring) (m : gmap gostring Row) : gmap gostring Row := delete id m.

(** The due entries in the order of their keys, and how many rows are corrupt. *)
Definition GetPendingQueue (t : Z) (m : gmap gostring Row) : list QueueEntry * nat :=
  let rs := map snd (cursor m) in
  (omap (fun r => match r with
                  | Stored e => if bool_decide (QStatus e = StPending) && (NextRetry e <? t) then Some e else None
                  | Corrupt _ _ => None
                  end) rs,
   length (List.filter (fun r => match r with Corrupt p b => p || negb b | Stored _ => false end) rs)).

(** ** Spool files *)
Definition references (path : gostring) (r : Row) : bool :=
  match r with
  | Stored e => (MessagePath e =s? path) && negb (bool_decide (QStatus e = StDelivered)) && negb (bool_decide (QStatus e = StBounced))
  | Corrupt _ _ => false
  end.
Definition countMessageRefsUnsafe (path : gostring) (m : gmap gostring Row) : nat :=
  length (List.filter (fun kr => references path kr.2) (map_to_list m)).

Definition deleteMessageFileIfUnreferenced (path : gostring) (q : Manager) : Manager :=
  if (countMessageRefsUnsafe path (rows q) =? 0)%nat then set_files (delete path) q else q.

(** ** Error texts *)
Fixpoint digit_run (s : gostring) : gostring * gostring :=
  match s with
  | c :: t => if is_digit c then let '(d, r) := digit_run t in (c :: d, r) else ([], s)
  | [] => ([], [])
  end.
Definition short_run (d : gostring) : bool := (1 <=? length d)%nat && (length d <=? 3)%nat.
Definition re_space (c : ascii) : bool := in_range 9 10 c || in_range 12 13 c || (c =c? " ").

(** [enhancedStatusRe]. *)
Definition enhanced_code (s : gostring) : option gostring :=
  match s with
  | c :: d :: e :: b :: t =>
      if (c =c? "5") && is_digit d && is_digit e && ((b =c? " ") || (b =c? "-")) then
        let t := match t with q :: t' => if bz q =? 34 then t' else t | [] => [] end in
        match t with
        | five :: dot :: t =>
            if (five =c? "5") && (dot =c? ".") then
              let '(a, r) := digit_run t in
              match r with
              | dot2 :: r =>
                  let '(z, r) := digit_run r in
                  if (dot2 =c? ".") && short_run a && short_run z &&
                     match r with [] => true | c :: _ => re_space c || (bz c =? 34) end
                  then Some ("5." ++ a ++ "." ++ z) else None
              | [] => None
              end
            else None
        | _ => None
        end
      else None
  | _ => None
  end.
Definition bounceStatus (lastError : gostring) : gostring := default ("5.0.0" : gostring) (enhanced_code lastError).

Definition tagMX (msg mx : gostring) : gostring := msg ++ " (mx: " ++ mx ++ ")".
(** [mxTagRe] at this place of the text: a host and the closing bracket. *)
Definition mx_tag (s : gostring) : option gostring :=
  if HasPrefix s " (mx: " && HasSuffix s ")" then
    let host := take (length s - 7) (drop 6 s) in
    if negb (bool_decide (host = [])) && forallb (fun c => negb (re_space c || (c =c? "(") || (c =c? ")"))) host
    then Some host else None
  else None.
Fixpoint splitMXTag (s : gostring) : gostring * gostring :=
  match mx_tag s with
  | Some host => ([], host)
  | None => match s with [] => ([], []) | c :: t => let '(text, mx) := splitMXTag t in (c :: text, mx) end
  end.

Definition extractDomain (email : gostring) : gostring := match Split email "@" with [_; d] => d | _ => [] end.

Section Manager.
Context {U : UnicodeTables} (cfg : Config).
Implicit Types (q : Manager) (env : Env).

(** ** Slots per domain *)
Definition active (domain : gostring) q : Z := default 0 (domActive q !! domain).
Definition acquireDomainSlot (domain : gostring) q : bool * Manager :=
  if maxPerDomain cfg <=? 0 then (true, q)
  else if maxPerDomain cfg <=? active domain q then (false, q)
  else (true, set_active <[domain := active domain q + 1]> q).
Definition releaseDomainSlot (domain : gostring) q : Manager :=
  if 1 <? active domain q then set_active <[domain := active domain q - 1]> q else set_active (delete domain) q.

(** ** Enqueueing *)
Definition dispatch (e : QueueEntry) q : Manager :=
  if (length (deliveryChan q) <? chanCap cfg)%nat then set_chan (fun c => c ++ [e]) q else q.
Definition dispatchEntries (es : list QueueEntry) q : Manager := foldl (fun q e => dispatch e q) q es.

(** The loop with its rollback: [done] are the ids stored so far. *)
Fixpoint store_entries (done : list gostring) (es : list QueueEntry) (m : gmap gostring Row) : bool * gmap gostring Row :=
  match es with
  | [] => (true, m)
  | e :: r =>
      match EnqueueWithLimit e (maxQueueSize cfg) m with
      | Some m => store_entries (ID e :: done) r m
      | None => (false, foldr Dequeue m done)
      end
  end.

Definition entry_id (base : gostring) (i : nat) : gostring := base ++ "-" ++ FormatUint (Z.of_nat i).
Definition new_entry (id from recipient path : gostring) (t notify : Z) (ret : DSNRet) (envid orcpt : gostring) : QueueEntry := {|
  ID := id; From := from; To := [recipient]; MessagePath := path; CreatedAt := t; NextRetry := t; RetryCount := 0;
  LastError := []; ClaimedAt := zero_time; QStatus := StPending; Notify := notify; Ret := ret; QEnvID := envid; ORCPT := orcpt |}.

(** The spool file, then the rows, then the workers; on a full queue all is undone. *)
Definition enqueue_entries (written : bool) (path message : gostring) (es : list QueueEntry) q : bool * Manager :=
  if negb written then (false, q) else
  let q := set_files <[path := message]> q in
  match store_entries [] es (rows q) with
  | (true, m) => (true, dispatchEntries es (set_rows (fun _ => m) q))
  | (false, m) => (false, set_files (delete path) (set_rows (fun _ => m) q))
  end.

Definition spool_path (dir base : gostring) : gostring := dir ++ "/" ++ base ++ ".msg".

Definition Enqueue (t : Z) (base : gostring) (written : bool) (from : gostring) (to : list gostring) (message : gostring) q
  : option gostring * Manager :=
  if bool_decide (to = []) then (None, q) else
  let path := spool_path (dataDir cfg ++ "/queue") base in
  let es := imap (fun i r => new_entry (entry_id base i) from r path t 0 DSNRetFull [] []) to in
  let '(ok, q) := enqueue_entries written path message es q in
  (if ok then Some base else None, q).

Record DSNParams := { pRet : gostring; pEnvID : gostring; pORCPT : list gostring }.

Definition dsn_entries (t : Z) (base from path : gostring) (to notify : list gostring) (params : option DSNParams) : list QueueEntry :=
  imap (fun i r =>
    let n := match notify !! i with Some v => ParseDSNNotify v | None => 0 end in
    match params with
    | Some p => new_entry (entry_id base i) from r path t n (ParseDSNRet (pRet p)) (pEnvID p) (default [] (pORCPT p !! i))
    | None => new_entry (entry_id base i) from r path t n DSNRetFull [] []
    end) to.

Definition EnqueueWithDSN (t : Z) (base : gostring) (written : bool) (from : gostring) (to notify : list gostring)
  (params : option DSNParams) (message : gostring) q : option gostring * Manager :=
  if bool_decide (to = []) then (None, q) else
  let path := spool_path (if bool_decide (queueDir cfg = []) then "." : gostring else queueDir cfg) base in
  let '(ok, q) := enqueue_entries written path message (dsn_entries t base from path to notify params) q in
  (if ok then Some base else None, q).

(** ** Reports *)
Definition report (env : Env) (e : QueueEntry) (action status diagnostic remote : gostring) : DSN := {|
  ReportedDomain := "umailserver"; ArrivalDate := CreatedAt e; OriginalFrom := From e; OriginalTo := default [] (head (To e));
  Recipient := {| Original := default [] (head (To e)); DSNAddress := []; OriginalRecipient := ORCPT e |};
  Action := action; Status := status; DiagnosticCode := diagnostic; RemoteMTA := remote; MessageID := dsnMessageID env;
  EnvID := QEnvID e |}.

(** Reports go to the sender with the null reverse path. *)
Definition enqueue_report env (e : QueueEntry) (message : gostring) q : Manager :=
  snd (Enqueue (now env) (dsnID env) (spoolWrites env) [] [From e] message q).

Definition generate env (dsn : DSN) (original : gostring) (ret : DSNRet) : gostring :=
  GenerateDSN (now env) (date cfg) (dsnBoundary env) dsn original ret.

Definition sendSuccessDSN env (e : QueueEntry) q : Manager :=
  if bool_decide (From e = []) then q else
  let original := default [] (files q !! MessagePath e) in
  enqueue_report env e (generate env (report env e "delivered" "2.0.0" [] "unknown") original (Ret e)) q.

Definition sendDelayDSN env (e : QueueEntry) q : Manager :=
  if bool_decide (From e = []) || bool_decide (To e = []) then q else
  let '(text, mx) := splitMXTag (LastError e) in
  enqueue_report env e (GenerateDelayDSN (now env) (date cfg) (dsnBoundary env) (report env e [] [] text mx)) q.

Definition wants_failure (e : QueueEntry) : bool :=
  (Notify e =? 0) || negb (HasNotify (Notify e) DSNNotifyNever) && HasNotify (Notify e) DSNNotifyFailure.

Definition enqueueBounce env (e : QueueEntry) q : Manager :=
  if negb (wants_failure e) then q else
  match files q !! MessagePath e with
  | None => q
  | Some original =>
      if bool_decide (From e = []) then q else
      let '(text, mx) := splitMXTag (LastError e) in
      enqueue_report env e (generate env (report env e "failed" (bounceStatus (LastError e)) text mx) original (Ret e)) q
  end.

(** ** Outcomes *)
Definition persistAttempts : nat := 6.
Inductive persisted := Saved (m : gmap gostring Row) | NotFound | NotSaved.
Fixpoint persist_go (attempts i : nat) (upd : nat -> bool) (e : QueueEntry) (m : gmap gostring Row) : persisted :=
  match attempts with
  | O => NotSaved
  | S n =>
      if upd i then match UpdateQueueEntry e m with Some m => Saved m | None => NotFound end
      else persist_go n (S i) upd e m
  end.
Definition persistEntry env (e : QueueEntry) q : option Manager :=
  match persist_go persistAttempts 0 (updates env) e (rows q) with Saved m => Some (set_rows (fun _ => m) q) | _ => None end.

Definition handleDeliverySuccess env (e : QueueEntry) q : Manager :=
  let q := if markerWrites env then set_delivered (fun s => {[ID e]} ∪ s) q else q in
  let e := with_status StDelivered e in
  match persistEntry env e q with
  | None => q
  | Some q =>
      let q := set_delivered (fun s => s ∖ {[ID e]}) q in
      let q := if HasNotify (Notify e) DSNNotifySuccess then sendSuccessDSN env e q else q in
      deleteMessageFileIfUnreferenced (MessagePath e) q
  end.

Definition retryDelays : list Z :=
  [5 * minute; 15 * minute; 30 * minute; hour; 2 * hour; 4 * hour; 8 * hour; 16 * hour; 24 * hour; 48 * hour].

(** The base delay before the next attempt, after [n] failed ones. *)
Definition base_delay (n : Z) : Z :=
  nth (Z.to_nat (Z.min (n - 1) (Z.of_nat (length retryDelays) - 1))) retryDelays 0.

Definition expired env (e : QueueEntry) : bool :=
  (0 <? maxAge cfg) && negb (CreatedAt e =? zero_time) && (maxAge cfg <=? time_sub (now env) (CreatedAt e)).

Definition expired_text : gostring := " (delivery expired after " ++ durationString cfg (maxAge cfg) ++ ")".

(** The entry after a failed attempt. *)
Definition failed_entry env (errorMsg : gostring) (permanent : bool) (e : QueueEntry) : QueueEntry :=
  let n := RetryCount e + 1 in
  let e := with_error n (if expired env e && negb permanent then errorMsg ++ expired_text else errorMsg) e in
  if permanent || expired env e || (maxRetries cfg <=? n) then with_status StBounced e
  else with_times (now env + jitter env (base_delay n)) (ClaimedAt e) (with_status StPending e).

Definition failDelivery env (e : QueueEntry) (errorMsg : gostring) (permanent : bool) q : Manager :=
  let e := failed_entry env errorMsg permanent e in
  let bounced := bool_decide (QStatus e = StBounced) in
  let q := if bounced then enqueueBounce env e q else q in
  match persistEntry env e q with
  | None => q
  | Some q =>
      if bounced then deleteMessageFileIfUnreferenced (MessagePath e) q
      else if (RetryCount e =? 1) && HasNotify (Notify e) DSNNotifyDelay then sendDelayDSN env e q else q
  end.

(** ** Delivery *)
(** What a host answers: acceptance, a reply code, or no reply (network errors,
    TLS policy, an open circuit); or the attempt panics. *)
Inductive reply := Accepted | Refused (code : Z) (text : gostring) | NoReply (text : gostring) | Panicked (text : gostring).
Inductive mx_answer := MXFound (hosts : list gostring) | MXError (notFound : bool) (text : gostring).
Record Net := {
  LookupMX : gostring -> mx_answer;
  deliverToMX : gostring -> gostring -> gostring -> gostring -> reply   (* from, to, message, host *)
}.

(** [classifySMTPReply]: a reply 5yz is final. *)
Definition permanent_code (code : Z) : bool := (500 <=? code) && (code <=? 599).

Inductive outcome := Delivered_ | Fails (text : gostring) (permanent : bool).

(** The loop over the hosts. *)
Fixpoint try_hosts (net : Net) (from to message : gostring) (seen : list gostring) (hosts : list gostring) (lastErr : gostring)
  : outcome :=
  match hosts with
  | [] => Fails lastErr false
  | h :: r =>
      let mx := TrimSuffix h "." in
      if bool_decide (mx = []) || existsb (fun s => s =s? ToLower mx) seen then try_hosts net from to message seen r lastErr
      else
      let seen := ToLower mx :: seen in
      match deliverToMX net from to message mx with
      | Accepted => Delivered_
      | Refused code text =>
          if permanent_code code then Fails (tagMX text mx) true
          else try_hosts net from to message seen r (tagMX text mx)
      | NoReply text => try_hosts net from to message seen r (tagMX text mx)
      | Panicked text => Fails ("panic during delivery: " ++ text) false
      end
  end.

Definition attempt (net : Net) (e : QueueEntry) (message : gostring) : outcome :=
  let rcpt := default [] (head (To e)) in
  let domain := extractDomain rcpt in
  if bool_decide (domain = []) then Fails "invalid recipient domain" false else
  let go hosts :=
  let hosts := match hosts with [] => [domain] | _ => hosts end in
  match hosts with
  | [h] => if (h =s? ".") || bool_decide (h = [])
      then Fails ("556 5.1.10 recipient domain " ++ domain ++ " does not accept mail (null MX)") true
      else try_hosts net (From e) rcpt message [] hosts []
  | _ => try_hosts net (From e) rcpt message [] hosts []
  end in
  match LookupMX net domain with
  | MXError false text => Fails ("451 4.4.3 MX lookup for " ++ domain ++ " failed: " ++ text) false
  | MXError true _ => go []
  | MXFound hosts => go hosts
  end.

(** What [deliver] does with an entry it has claimed. *)
Definition process env (net : Net) (e : QueueEntry) q : Manager :=
  if bool_decide (ID e ∈ delivered q) then handleDeliverySuccess env e q else
  match files q !! MessagePath e with
  | None => failDelivery env e ("failed to read message: open " ++ MessagePath e ++ ": no such file or directory") true q
  | Some message =>
      match attempt net e message with
      | Delivered_ => handleDeliverySuccess env e q
      | Fails text permanent => failDelivery env e text permanent q
      end
  end.

Definition claimEntry (id : gostring) (t : Z) q : option (QueueEntry * Manager) :=
  '(e, m) ← ClaimQueueEntry id t (rows q); Some (e, set_rows (fun _ => m) q).

(** [slot] is the domain whose slot the worker holds while it works. *)
Definition deliver env (net : Net) (e : QueueEntry) q : Manager :=
  let work q := match claimEntry (ID e) (now env) q with Some (e, q) => process env net e q | None => q end in
  match To e with
  | [] => work q
  | rcpt :: _ =>
      let dom := ToLower (extractDomain rcpt) in
      match acquireDomainSlot dom q with
      | (false, q) => q                               (* handed back to the channel later *)
      | (true, q) => releaseDomainSlot dom (work q)
      end
  end.

(** ** Sweeping and operator commands *)
Definition sweepPendingEntries (t : Z) q : Manager :=
  let q := if 0 <? claimLease cfg then set_rows (RequeueStaleClaims t (claimLease cfg)) q else q in
  dispatchEntries (fst (GetPendingQueue t (rows q))) q.

Definition requeueInterruptedEntries (t : Z) q : Manager :=
  set_rows (fmap (fun r => match r with
  | Stored e => if bool_decide (QStatus e = StSending) then Stored (with_times t (ClaimedAt e) (with_status StPending e)) else r
  | Corrupt _ _ => r end)) q.

Definition RetryEntry (t : Z) (id : gostring) q : option Manager :=
  e ← GetQueueEntry id (rows q);
  let e := with_error 0 [] (with_times t (ClaimedAt e) (with_status StPending e)) in
  let q := set_delivered (fun s => s ∖ {[id]}) q in
  m ← UpdateQueueEntry e (rows q);
  Some (dispatch e (set_rows (fun _ => m) q)).

Definition DropEntry (id : gostring) q : Manager :=
  match GetQueueEntry id (rows q) with
  | None => set_rows (Dequeue id) q
  | Some e => deleteMessageFileIfUnreferenced (MessagePath e) (set_delivered (fun s => s ∖ {[id]}) (set_rows (Dequeue id) q))
  end.

Definition FlushQueue (t : Z) q : option Manager :=
  let failed := omap (fun kr : gostring * Row => match kr.2 with
  | Stored e => if bool_decide (QStatus e = StFailed) then Some (ID e) else None | Corrupt _ _ => None end) (cursor (rows q)) in
  if existsb (fun kr : gostring * Row => match kr.2 with Corrupt _ _ => true | Stored _ => false end) (cursor (rows q)) then None
  else foldl (fun oq id => q ← oq; RetryEntry t id q) (Some q) failed.
End Manager.

(** ** Preparing a message for remote delivery *)
Fixpoint crlf_lines (s : gostring) : gostring :=
  match s with
  | [] => []
  | c :: t =>
      if c =c? CR then
        match t with
        | d :: u => if d =c? LF then CR :: LF :: crlf_lines u else CR :: LF :: crlf_lines t
        | [] => [CR; LF]
        end
      else if c =c? LF then CR :: LF :: crlf_lines t
      else c :: crlf_lines t
  end.

Section Outbound.
Context {U : UnicodeTables}.

Definition header_name (line : gostring) : gostring :=
  ToLower (TrimSpace (match IndexByte line ":" with Some i => take i line | None => line end)).
Definition removed_field (line : gostring) : bool :=
  (header_name line =s? "bcc") || (header_name line =s? "return-path").
Definition is_folded (line : gostring) : bool := match line with c :: _ => (c =c? " ") || (bz c =? 9) | [] => false end.

(** The header line by line, each with its CRLF; the fuel is its length. *)
Fixpoint strip_header (fuel : nat) (skipping : bool) (hdr : gostring) : gostring * bool :=
  match fuel, hdr with
  | S f, _ :: _ =>
      let '(line, rest) := match Index hdr CRLF with Some i => (take (i + 2) hdr, drop (i + 2) hdr) | None => (hdr, []) end in
      let skipping := if is_folded line then skipping else removed_field line in
      let '(out, changed) := strip_header f skipping rest in
      if skipping then (out, changed || negb (is_folded line)) else (line ++ out, changed)
  | _, _ => ([], false)
  end.

Definition prepareOutbound (message : gostring) : gostring :=
  let message := crlf_lines message in
  let '(hdr, rest) := match Index message [CR; LF; CR; LF] with
  | Some i => (take (i + 2) message, drop (i + 2) message)
  | None => (message, [])
  end in
  let '(out, changed) := strip_header (length hdr) false hdr in
  if negb changed then message else out ++ rest.
End Outbound.
