(* ===== verification/QueueProps.v ===== *)
(** * internal/queue: properties of the outbound queue

    What an operation does to the rows, the files and the markers; the system of
    workers that claim and finish entries, in which no message is sent twice; the
    policy for reports; and what a message looks like when it leaves. *)
From S2P Require Import Prelude GoLib Utf8 Bolt SmtpData Dsn Queue.

Section Props.
Context {U : UnicodeTables} (cfg : Config).
Implicit Types (q : Manager) (env : Env) (m : gmap gostring Row) (e r : QueueEntry) (k : gostring).

(** ** Enqueueing *)
Lemma dequeue_lookup done m k :
  foldr Dequeue m done !! k = if bool_decide (k ∈ done) then None else m !! k.
Proof.
  induction done as [| d done IH]; cbn [foldr]; [done |]. unfold Dequeue at 1.
  destruct (decide (d = k)) as [-> | Hne]; [rewrite lookup_delete_eq, bool_decide_eq_true_2 by set_solver; done |].
  rewrite lookup_delete_ne, IH by done. by rewrite (bool_decide_ext (k ∈ d :: done) (k ∈ done)) by set_solver.
Qed.

(** On success the entries are there, on failure all their ids are free. *)
Lemma store_entries_spec done es m :
  NoDup (map ID es) ->
  let '(ok, m') := store_entries cfg done es m in
  (forall k, k ∉ map ID es -> k ∉ done -> m' !! k = m !! k) /\
  (if ok then forall e, e ∈ es -> m' !! ID e = Some (Stored e) else forall k, k ∈ done -> m' !! k = None) /\
  (ok = true -> forall k, k ∉ map ID es -> m' !! k = m !! k) /\
  (ok = false -> forall k, k ∈ map ID es -> m !! k = None -> m' !! k = None).
Proof.
  revert done m. induction es as [| e es IH]; intros done m HN; cbn [store_entries map].
  { split_and!; try done. intros e He. by apply elem_of_nil in He. }
  cbn [map] in HN. apply NoDup_cons in HN as [Hn HN]. unfold EnqueueWithLimit. destruct (_ <=? _).
  { split_and!; try done.
    - intros k _ Hk. by rewrite dequeue_lookup, bool_decide_eq_false_2.
    - intros k Hk. by rewrite dequeue_lookup, bool_decide_eq_true_2.
    - intros _ k _ Hk. rewrite dequeue_lookup, Hk. by destruct (bool_decide _). }
  specialize (IH (ID e :: done) (<[ID e := Stored e]> m) HN).
  destruct (store_entries cfg (ID e :: done) es _) as [ok m']. destruct IH as (H1 & H2 & H3 & H4). split_and!.
  - intros k Hk Hd. rewrite H1 by set_solver. apply lookup_insert_ne. set_solver.
  - destruct ok; [| intros k Hk; apply H2; set_solver]. intros e' [-> | He]%elem_of_cons; [| by apply H2].
    rewrite H3 by done. apply lookup_insert_eq.
  - intros Hok k Hk. rewrite H3 by (done || set_solver). apply lookup_insert_ne. set_solver.
  - intros Hok k Hk Hm. subst ok. destruct (decide (k = ID e)) as [-> | Hne]; [apply H2; set_solver |].
    apply H4; [done | set_solver | by rewrite lookup_insert_ne].
Qed.

Lemma dispatchEntries_frame es q :
  rows (dispatchEntries cfg es q) = rows q /\ files (dispatchEntries cfg es q) = files q /\
  delivered (dispatchEntries cfg es q) = delivered q.
Proof.
  revert q. induction es as [| e es IH]; intros q; [done |]. cbn [dispatchEntries foldl].
  change (foldl _ _ es) with (dispatchEntries cfg es (dispatch cfg e q)). destruct (IH (dispatch cfg e q)) as (-> & -> & ->).
  unfold dispatch. by destruct (_ <? _)%nat.
Qed.

(** What enqueueing [es] with spool file [path] changes. *)
Record enqueued (es : list QueueEntry) (path : gostring) q q' : Prop := {
  enq_other k : k ∉ map ID es -> rows q' !! k = rows q !! k;
  enq_new k : k ∈ map ID es -> rows q !! k = None -> rows q' !! k = None \/ exists e, e ∈ es /\ ID e = k /\ rows q' !! k = Some (Stored e);
  enq_files p : p <> path -> files q' !! p = files q !! p;
  enq_delivered : delivered q' = delivered q
}.

Lemma enqueue_entries_effect written path message es q : NoDup (map ID es) ->
  enqueued es path q (snd (enqueue_entries cfg written path message es q)).
Proof.
  intros HN. unfold enqueue_entries. destruct written; cbn [negb]; [| by split; auto].
  pose proof (store_entries_spec [] es (rows q) HN) as H. cbn [rows set_files].
  destruct (store_entries cfg [] es (rows q)) as [[] m] eqn:E; destruct H as (H1 & H2 & H3 & H4); cbn [snd].
  - destruct (dispatchEntries_frame es (set_rows (fun _ => m) (set_files <[path := message]> q))) as (E1 & E2 & E3).
    split; rewrite ?E1, ?E2, ?E3; cbn.
    + intros k Hk. by apply H3.
    + intros k (e & -> & He)%list_elem_of_fmap _. right. exists e. split_and!; [done | done | by apply H2].
    + intros p Hp. by apply lookup_insert_ne.
    + done.
  - split; cbn.
    + intros k Hk. apply H1; [done | apply not_elem_of_nil].
    + intros k Hk Hn. left. by apply H4.
    + intros p Hp. rewrite lookup_delete_ne by done. by apply lookup_insert_ne.
    + done.
Qed.

(** ** Reports *)
Definition report_id env : gostring := entry_id (dsnID env) 0.

(** A row that is a report on [e]: to its sender, from nobody. *)
Definition is_report env e (o : option Row) : Prop :=
  exists r, o = Some (Stored r) /\ ID r = report_id env /\ QStatus r = StPending /\ From e <> [] /\ From r = [] /\ To r = [From e].

(** At most a report was added. *)
Record reported env e q q' : Prop := {
  rp_rows k : k <> report_id env -> rows q' !! k = rows q !! k;
  rp_new : rows q !! report_id env = None -> rows q' !! report_id env = None \/ is_report env e (rows q' !! report_id env);
  rp_delivered : delivered q' = delivered q
}.

Lemma reported_refl env e q : reported env e q q.
Proof. split; auto. Qed.

Lemma reported_from env e e' q q' : From e = From e' -> reported env e q q' -> reported env e' q q'.
Proof. intros E [P1 P2 P3]. split; [done | | done]. unfold is_report in *. by rewrite E in P2. Qed.

Lemma enqueue_report_effect env e message q : From e <> [] -> reported env e q (enqueue_report cfg env e message q).
Proof.
  intros Hf. unfold enqueue_report, Enqueue. cbn [bool_decide imap]. set (r := new_entry _ _ _ _ _ _ _ _ _).
  rewrite bool_decide_eq_false_2 by done.
  pose proof (enqueue_entries_effect (spoolWrites env) (spool_path (dataDir cfg ++ "/queue") (dsnID env)) message [r] q
    ltac:(cbn; apply NoDup_singleton)) as [E1 E2 _ E4]. cbn [imap].
  destruct (enqueue_entries cfg _ _ _ _ _) as [ok q']. cbn [snd] in *. split; [| | done].
  - intros k Hk. apply E1. cbn. by rewrite list_elem_of_singleton.
  - intros Hn. destruct (E2 (report_id env)) as [? | (e' & He & Ei & Hl)]; [cbn; by rewrite list_elem_of_singleton | done | by left |].
    right. exists e'. apply list_elem_of_singleton in He as ->. split_and!; done.
Qed.

Lemma sendSuccessDSN_effect env e q : reported env e q (sendSuccessDSN cfg env e q).
Proof. unfold sendSuccessDSN. case_bool_decide; [apply reported_refl | by apply enqueue_report_effect]. Qed.

Lemma sendDelayDSN_effect env e q : reported env e q (sendDelayDSN cfg env e q).
Proof.
  unfold sendDelayDSN. case_bool_decide; [apply reported_refl |]. cbn [orb]. case_bool_decide; [apply reported_refl |].
  destruct (splitMXTag _). by apply enqueue_report_effect.
Qed.

Lemma enqueueBounce_effect env e q : reported env e q (enqueueBounce cfg env e q).
Proof.
  unfold enqueueBounce. destruct (negb _); [apply reported_refl |]. destruct (files q !! _); [| apply reported_refl].
  case_bool_decide; [apply reported_refl |]. destruct (splitMXTag _). by apply enqueue_report_effect.
Qed.

Lemma delete_file_frame path q :
  rows (deleteMessageFileIfUnreferenced path q) = rows q /\ delivered (deleteMessageFileIfUnreferenced path q) = delivered q.
Proof. unfold deleteMessageFileIfUnreferenced. by destruct (_ =? _)%nat. Qed.

Lemma persistEntry_cases env e q :
  persistEntry env e q = None /\ ((forall i, (i < persistAttempts)%nat -> updates env i = false) \/ rows q !! ID e = None) \/
  is_Some (rows q !! ID e) /\ persistEntry env e q = Some (set_rows <[ID e := Stored e]> q).
Proof.
  unfold persistEntry. assert (H : forall n i,
    persist_go n i (updates env) e (rows q) = NotSaved /\ (forall j, (i <= j < i + n)%nat -> updates env j = false) \/
    persist_go n i (updates env) e (rows q) = NotFound /\ rows q !! ID e = None \/
    is_Some (rows q !! ID e) /\ persist_go n i (updates env) e (rows q) = Saved (<[ID e := Stored e]> (rows q))).
  { induction n as [| n IH]; intros i; cbn [persist_go]; [left; split; [done |]; lia |].
    destruct (updates env i) eqn:Eu.
    - unfold UpdateQueueEntry. destruct (rows q !! ID e); [right; right; by split; [eexists |] | right; by left].
    - destruct (IH (S i)) as [[E H] | [[E H] | [E H]]]; [left | right; by left | right; by right]. split; [done |].
      intros j Hj. destruct (decide (j = i)) as [-> | ]; [done |]. apply H. lia. }
  destruct (H persistAttempts 0%nat) as [[-> H1] | [[-> H1] | [H1 ->]]].
  - left. split; [done |]. left. intros i Hi. apply H1. lia.
  - left. split; [done |]. by right.
  - right. by split.
Qed.

(** ** Outcomes *)
(** How the row of a finished entry may look. *)
Record finished env e q q' : Prop := {
  fin_other k : k <> report_id env -> k <> ID e -> rows q' !! k = rows q !! k;
  fin_report : rows q !! report_id env = None -> rows q' !! report_id env = None \/ is_report env e (rows q' !! report_id env);
  fin_own : rows q' !! ID e = rows q !! ID e \/
  is_Some (rows q !! ID e) /\ exists r, rows q' !! ID e = Some (Stored r) /\ ID r = ID e /\ QStatus r <> StSending;
  fin_markers k : k <> ID e -> k ∈ delivered q' <-> k ∈ delivered q
}.

Lemma success_effect env e q : report_id env <> ID e ->
  let q' := handleDeliverySuccess cfg env e q in
  finished env e q q' /\
  (rows q' !! ID e = rows q !! ID e /\ delivered q' = (if markerWrites env then {[ID e]} else ∅) ∪ delivered q /\
    ((forall i, (i < persistAttempts)%nat -> updates env i = false) \/ rows q !! ID e = None) \/
    exists r, rows q' !! ID e = Some (Stored r) /\ QStatus r = StDelivered).
Proof.
  intros Hne. unfold handleDeliverySuccess. set (q1 := if markerWrites env then _ else q).
  assert (R1 : rows q1 = rows q) by (unfold q1; by destruct (markerWrites env)).
  assert (D1 : delivered q1 = (if markerWrites env then {[ID e]} else ∅) ∪ delivered q)
    by (unfold q1; destruct (markerWrites env); [done | by rewrite (left_id_L ∅ (∪))]).
  assert (DM : forall k, k <> ID e -> k ∈ delivered q1 <-> k ∈ delivered q) by (rewrite D1; destruct (markerWrites env); set_solver).
  set (e1 := with_status StDelivered e). change (ID e) with (ID e1) in *.
  destruct (persistEntry_cases env e1 q1) as [[-> H] | [Hs ->]].
  { rewrite R1 in H. split; [| left; by rewrite R1]. split; rewrite ?R1; auto. }
  set (q2 := set_delivered _ _). set (q3 := if HasNotify _ _ then _ else q2).
  assert (R3 : reported env e q2 q3).
  { unfold q3. destruct (HasNotify _ _); [| apply reported_refl]. apply (reported_from env e1); [done | apply sendSuccessDSN_effect]. }
  destruct (delete_file_frame (MessagePath e1) q3) as [Er Ed]. destruct R3 as [P1 P2 P3]. rewrite R1 in Hs.
  assert (Hown : rows q3 !! ID e1 = Some (Stored e1)) by (rewrite P1 by done; cbn; by rewrite lookup_insert_eq).
  split; [split; rewrite ?Er, ?Ed |].
  - intros k Hk Hk'. rewrite P1 by done. cbn. rewrite R1. by apply lookup_insert_ne.
  - intros Hn. apply P2. cbn. rewrite R1. by rewrite lookup_insert_ne by done.
  - right. split; [done |]. by exists e1.
  - intros k Hk. rewrite P3. cbn. rewrite <- (DM k Hk). set_solver.
  - right. exists e1. by rewrite Er.
Qed.

Lemma failed_entry_facts env text permanent e :
  ID (failed_entry cfg env text permanent e) = ID e /\ From (failed_entry cfg env text permanent e) = From e /\
  To (failed_entry cfg env text permanent e) = To e /\ MessagePath (failed_entry cfg env text permanent e) = MessagePath e /\
  Notify (failed_entry cfg env text permanent e) = Notify e /\
  QStatus (failed_entry cfg env text permanent e) =
  (if permanent || expired cfg env e || (maxRetries cfg <=? RetryCount e + 1) then StBounced else StPending).
Proof. unfold failed_entry. change (expired cfg env (with_error _ _ e)) with (expired cfg env e). by destruct (_ || _). Qed.

Lemma failure_effect env e text permanent q : report_id env <> ID e ->
  let q' := failDelivery cfg env e text permanent q in finished env e q q' /\ delivered q' = delivered q.
Proof.
  intros Hne. unfold failDelivery. destruct (failed_entry_facts env text permanent e) as (F1 & F2 & F3 & F4 & F5 & F6).
  set (e1 := failed_entry cfg env text permanent e) in *.
  assert (Hst : QStatus e1 <> StSending) by (rewrite F6; by destruct (_ || _)).
  destruct (bool_decide (QStatus e1 = StBounced)).
  - destruct (reported_from env e1 e q _ F2 (enqueueBounce_effect env e1 q)) as [P1 P2 P3]. set (q1 := enqueueBounce cfg env e1 q) in *.
    destruct (persistEntry_cases env e1 q1) as [[-> _] | [Hs ->]]; [split; [| done]; split; rewrite ?P3; auto |].
    destruct (delete_file_frame (MessagePath e1) (set_rows <[ID e1 := Stored e1]> q1)) as [Er Ed].
    rewrite F1 in *. rewrite P1 in Hs by done. split; [split; rewrite ?Er, ?Ed; cbn | by rewrite Ed]; rewrite ?P3; try done.
    + intros k Hk Hk'. rewrite lookup_insert_ne by done. by apply P1.
    + rewrite lookup_insert_ne by done. apply P2.
    + right. split; [done |]. exists e1. by rewrite lookup_insert_eq.
  - destruct (persistEntry_cases env e1 q) as [[-> _] | [Hs ->]]; [split; [| done]; split; auto |].
    set (q2 := set_rows _ q). match goal with |- context [finished env e q ?x] => set (q3 := x) end.
    assert (R3 : reported env e q2 q3).
    { unfold q3. destruct (_ && _); [| apply reported_refl]. apply (reported_from env e1); [done | apply sendDelayDSN_effect]. }
    destruct R3 as [P1 P2 P3]. rewrite F1 in *. split; [split | done]; rewrite ?P3; try done.
    + intros k Hk Hk'. rewrite P1 by done. cbn. rewrite F1. by rewrite lookup_insert_ne.
    + intros Hn. apply P2. cbn. rewrite F1. by rewrite lookup_insert_ne.
    + right. split; [done |]. exists e1. rewrite P1 by done. cbn. rewrite F1. by rewrite lookup_insert_eq.
Qed.

(** Whether finishing an entry sends the message to a host that accepts it. *)
Definition accepts (net : Net) e q : bool :=
  negb (bool_decide (ID e ∈ delivered q)) &&
  match files q !! MessagePath e with Some msg => match attempt net e msg with Delivered_ => true | Fails _ _ => false end | None => false end.

Lemma process_cases env net e q :
  process cfg env net e q = handleDeliverySuccess cfg env e q /\ (accepts net e q = true \/ ID e ∈ delivered q) \/
  accepts net e q = false /\ (ID e ∉ delivered q) /\ exists text permanent, process cfg env net e q = failDelivery cfg env e text permanent q.
Proof.
  unfold process, accepts. case_bool_decide as Ed; [left; by auto |]. cbn [negb andb].
  destruct (files q !! _) as [msg |]; [| right; eauto]. destruct (attempt net e msg); [left; auto | right; eauto].
Qed.

Lemma process_finished env net e q : report_id env <> ID e -> finished env e q (process cfg env net e q).
Proof.
  intros Hne. destruct (process_cases env net e q) as [[-> _] | (_ & _ & text & permanent & ->)];
    [by apply success_effect | by apply failure_effect].
Qed.

(** reports never answer reports.  Whatever becomes of a delivery, the only
    row it adds to the queue is one report to the sender of the message, itself
    with the null sender; a message with the null sender, a report above all,
    adds nothing. *)
Theorem reports_are_final env net e q k r :
  report_id env <> ID e -> rows q !! report_id env = None ->
  rows (process cfg env net e q) !! k = Some (Stored r) ->
  rows q !! k = Some (Stored r) \/ k = ID e \/
  k = report_id env /\ From e <> [] /\ From r = [] /\ To r = [From e].
Proof.
  intros Hne Hn Hk. destruct (process_finished env net e q Hne) as [F1 F2 F3 F4].
  destruct (decide (k = ID e)) as [-> | Hke]; [by right; left |].
  destruct (decide (k = report_id env)) as [-> | Hkr]; [| left; by rewrite <- F1].
  destruct (F2 Hn) as [E | (r' & E & _ & _ & Hf & H1 & H2)]; [congruence |]. right. right. rewrite Hk in E. injection E as <-. done.
Qed.

(** ** Failure *)
Lemma enqueue_report_stored env e message q :
  spoolWrites env = true -> Z.of_nat (size (rows q)) < maxQueueSize cfg ->
  exists r path, rows (enqueue_report cfg env e message q) !! report_id env = Some (Stored r) /\
  From r = [] /\ To r = [From e] /\ QStatus r = StPending /\ NextRetry r = now env /\ MessagePath r = path /\
  files (enqueue_report cfg env e message q) !! path = Some message.
Proof.
  intros Hw Hs. unfold enqueue_report, Enqueue. rewrite bool_decide_eq_false_2 by done. cbn [imap].
  set (path := spool_path _ _). set (r := new_entry _ _ _ _ _ _ _ _ _). unfold enqueue_entries. rewrite Hw. cbn [negb store_entries rows set_files].
  unfold EnqueueWithLimit. rewrite (proj2 (Z.leb_gt _ _)) by done. cbn [snd].
  destruct (dispatchEntries_frame [r] (set_rows (fun _ => <[ID r := Stored r]> (rows q)) (set_files <[path := message]> q))) as (-> & -> & _).
  exists r, path. cbn. rewrite !lookup_insert_eq. done.
Qed.

(** failures are not lost.  After a failed attempt: a permanent failure, a
    message older than the age limit and the last attempt bounce, and the report
    is queued, with the original message or its header, for every sender who did
    not ask otherwise, even when the outcome of the entry cannot be written; any
    other failure leaves the entry pending with one more attempt counted, due
    after the delay of the schedule, and changes no other row. *)
Theorem failure_outcome env e text permanent q original :
  let q' := failDelivery cfg env e text permanent q in
  let final := permanent || expired cfg env e || (maxRetries cfg <=? RetryCount e + 1) in
  report_id env <> ID e -> spoolWrites env = true -> Z.of_nat (size (rows q)) < maxQueueSize cfg ->
  files q !! MessagePath e = Some original ->
  (final = true -> From e <> [] -> wants_failure e = true ->
    exists r dsn, rows q' !! report_id env = Some (Stored r) /\ From r = [] /\ To r = [From e] /\ QStatus r = StPending /\
    OriginalTo dsn = default [] (head (To e)) /\ Action dsn = "failed" /\
    (MessagePath r <> MessagePath e -> files q' !! MessagePath r = Some (generate cfg env dsn original (Ret e)))) /\
  (final = false -> is_Some (rows q !! ID e) -> updates env 0 = true -> HasNotify (Notify e) DSNNotifyDelay = false ->
    exists r, rows q' = <[ID e := Stored r]> (rows q) /\ QStatus r = StPending /\ RetryCount r = RetryCount e + 1 /\
    LastError r = text /\ NextRetry r = now env + jitter env (base_delay (RetryCount e + 1)) /\ files q' = files q).
Proof.
  intros q' final Hne Hw Hs Ho. subst q'. destruct (failed_entry_facts env text permanent e) as (F1 & F2 & F3 & F4 & F5 & F6).
  fold final in F6. unfold failDelivery. set (e1 := failed_entry cfg env text permanent e) in *. split.
  - intros Ef Hfrom Hwants. rewrite Ef in F6. rewrite bool_decide_eq_true_2 by done.
    unfold enqueueBounce. replace (wants_failure e1) with true by (unfold wants_failure in *; by rewrite F5). cbn [negb].
    rewrite F4, Ho, bool_decide_eq_false_2 by congruence. destruct (splitMXTag (LastError e1)) as [diag mx].
    set (dsn := report env e1 _ _ _ _). set (message := generate cfg env dsn original (Ret e1)).
    destruct (enqueue_report_stored env e1 message q Hw Hs) as (r & path & R1 & R2 & R3 & R4 & _ & R5 & R6). rewrite F2 in R3.
    exists r, dsn. assert (Eret : Ret e1 = Ret e) by (unfold e1, failed_entry; by destruct (_ || _)).
    destruct (persistEntry_cases env e1 (enqueue_report cfg env e1 message q)) as [[-> _] | [_ ->]].
    + split_and!; try done; [cbn; by rewrite F3 |]. intros _. rewrite R5, R6. unfold message. by rewrite Eret.
    + destruct (delete_file_frame (MessagePath e) (set_rows <[ID e1 := Stored e1]> (enqueue_report cfg env e1 message q))) as [-> _].
      rewrite F1. split_and!; try done; [cbn; by rewrite lookup_insert_ne by done | cbn; by rewrite F3 |].
      intros Hp. unfold deleteMessageFileIfUnreferenced. destruct (_ =? _)%nat; cbn [files set_files set_rows];
        [rewrite lookup_delete_ne by done |]; rewrite R5, R6; unfold message; by rewrite Eret.
  - intros Ef Hrow Hu Hd. rewrite Ef in F6. rewrite (bool_decide_eq_false_2 (QStatus e1 = StBounced)) by congruence.
    destruct (persistEntry_cases env e1 q) as [[_ [Hn | Hn]] | [_ ->]].
    { specialize (Hn 0%nat ltac:(unfold persistAttempts; lia)). congruence. }
    { rewrite F1 in Hn. rewrite Hn in Hrow. by destruct Hrow. }
    rewrite F5, Hd, andb_false_r, F1. exists e1. split; [done |]. split; [done |].
    unfold e1, failed_entry. change (expired cfg env (with_error _ _ e)) with (expired cfg env e). fold final. rewrite Ef.
    assert (Ex : expired cfg env e = false) by (unfold final in Ef; apply orb_false_iff in Ef as [[_ ->]%orb_false_iff _]; done).
    by rewrite Ex.
Qed.
End Props.

(** ** What leaves the server *)
Section Outbound.
Context {U : UnicodeTables}.
Implicit Types (s a b l hdr message : gostring) (ls : list gostring).

(** Every line end is CRLF. *)
Fixpoint crlf_only s : bool :=
  match s with
  | [] => true
  | c :: t =>
      if c =c? CR then match t with d :: u => (d =c? LF) && crlf_only u | [] => false end
      else negb (c =c? LF) && crlf_only t
  end.

(** Induction over a text, a carriage return with what follows it. *)
Lemma text_ind (P : gostring -> Prop) : P [] -> (forall c s, P s -> (forall d t, s = d :: t -> P t) -> P (c :: s)) -> forall s, P s.
Proof.
  intros H0 H1 s. enough (P s /\ forall d t, s = d :: t -> P t) by tauto. induction s as [| c s [IH1 IH2]]; [by split |].
  split; [by apply H1 |]. by intros d t [= <- <-].
Qed.

Lemma crlf_lines_only s : crlf_only (crlf_lines s) = true.
Proof.
  induction s as [| c s IH1 IH2] using text_ind; [done |]. cbn [crlf_lines]. destruct (c =c? CR) eqn:Ec.
  - destruct s as [| d s]; [done |]. specialize (IH2 d s eq_refl). by destruct (d =c? LF).
  - destruct (c =c? LF) eqn:El; [done |]. cbn [crlf_only]. by rewrite Ec, El.
Qed.

Lemma crlf_only_app a b : crlf_only a = true -> crlf_only (a ++ b) = crlf_only b.
Proof.
  induction a as [| c a IH1 IH2] using text_ind; [done |]. cbn [app crlf_only]. destruct (c =c? CR).
  - destruct a as [| d a]; [done |]. cbn [app]. intros [-> H]%andb_true_iff. cbn [andb]. by apply (IH2 d a).
  - intros [-> H]%andb_true_iff. cbn [andb]. by apply IH1.
Qed.

(** A text cut behind a CRLF. *)
Lemma crlf_only_cut a b : crlf_only (a ++ CRLF ++ b) = true -> crlf_only (a ++ CRLF) = true.
Proof.
  induction a as [| c a IH1 IH2] using text_ind; [done |]. cbn [app crlf_only]. destruct (c =c? CR).
  - destruct a as [| d a]; [done |]. cbn [app]. intros [-> H]%andb_true_iff. cbn [andb]. by apply (IH2 d a).
  - intros [-> H]%andb_true_iff. cbn [andb]. by apply IH1.
Qed.

(** One line, with or without its CRLF. *)
Definition is_line l : Prop := exists a, Contains a CRLF = false /\ (l = a ++ CRLF \/ l = a).

(** The header as lines, and the lines that are kept. *)
Fixpoint header_lines (fuel : nat) hdr : list gostring :=
  match fuel, hdr with
  | S f, _ :: _ =>
      match Index hdr CRLF with Some i => take (i + 2) hdr :: header_lines f (drop (i + 2) hdr) | None => [hdr] end
  | _, _ => []
  end.

(** A line of a field that must not leave the server. *)
Definition private_field (l : gostring) : bool :=
  bool_decide (header_name l = ("bcc" : gostring) \/ header_name l = ("return-path" : gostring)).

Lemma removed_is_private l : removed_field l = private_field l.
Proof. unfold removed_field, private_field. by rewrite bool_decide_or. Qed.

Fixpoint keep (skipping : bool) ls : list gostring :=
  match ls with
  | [] => []
  | l :: r =>
      let skipping := if is_folded l then skipping else private_field l in
      if skipping then keep skipping r else l :: keep skipping r
  end.

Lemma cut_line hdr i : Index hdr CRLF = Some i -> take (i + 2) hdr = take i hdr ++ CRLF.
Proof.
  intros H. destruct (Index_split _ _ _ H) as [[b Hb] _]. assert (Hl : length (take i hdr) = i).
  { apply (f_equal length) in Hb. rewrite length_app in Hb. rewrite length_take in *. cbn in Hb. lia. }
  rewrite Hb at 1. rewrite app_assoc, take_app_le by (rewrite length_app, Hl; cbn; lia).
  apply take_ge. rewrite length_app, Hl. cbn. lia.
Qed.

Lemma header_lines_ok fuel hdr : (length hdr <= fuel)%nat ->
  concat (header_lines fuel hdr) = hdr /\ Forall is_line (header_lines fuel hdr) /\
  (crlf_only hdr = true -> Forall (fun l => crlf_only l = true) (header_lines fuel hdr)).
Proof.
  revert hdr. induction fuel as [| f IH]; intros [| c h] Hl; cbn [header_lines]; try (cbn in Hl; lia); try by split_and!.
  destruct (Index (c :: h) CRLF) as [i |] eqn:Ei; cycle 1.
  { split; [cbn; by rewrite app_nil_r |]. split; [| intros; by constructor]. repeat constructor. exists (c :: h).
    split; [unfold Contains; by rewrite Ei | by right]. }
  destruct (IH (drop (i + 2) (c :: h))) as (H1 & H2 & H3). { rewrite length_drop. cbn [length] in *. lia. }
  pose proof (cut_line _ _ Ei) as Hc. split; [cbn [concat]; by rewrite H1, take_drop |].
  split; [constructor; [| done]; exists (take i (c :: h)); split; [by apply Index_split | by left] |].
  intros Ho. assert (Hline : crlf_only (take (i + 2) (c :: h)) = true).
  { rewrite Hc. rewrite <- (take_drop (i + 2) (c :: h)), Hc, <- app_assoc in Ho. by apply crlf_only_cut in Ho. }
  constructor; [done |]. apply H3. rewrite <- (crlf_only_app (take (i + 2) (c :: h))) by done. by rewrite take_drop.
Qed.

Lemma strip_header_keep fuel skipping hdr :
  strip_header fuel skipping hdr =
  (concat (keep skipping (header_lines fuel hdr)), existsb (fun l => negb (is_folded l) && private_field l) (header_lines fuel hdr)).
Proof.
  revert skipping hdr. induction fuel as [| f IH]; intros sk [| c h]; [done .. |]. cbn [strip_header header_lines].
  assert (Hend : forall sk', strip_header f sk' [] = ([], false)) by by destruct f.
  destruct (Index (c :: h) CRLF) as [i |]; [rewrite IH | rewrite Hend]; cbn [keep existsb];
    match goal with |- context [is_folded ?x] => set (l := x) end; rewrite removed_is_private;
    destruct (is_folded l); cbn [negb andb orb]; [destruct sk | destruct (private_field l) | destruct sk | destruct (private_field l)];
    cbn [concat app]; rewrite ?orb_false_r, ?orb_true_r; done.
Qed.

Lemma keep_all ls : existsb (fun l => negb (is_folded l) && private_field l) ls = false -> keep false ls = ls.
Proof.
  induction ls as [| l ls IH]; [done |]. cbn [existsb keep]. intros [H1 H2]%orb_false_iff.
  destruct (is_folded l); cbn in H1; [by rewrite IH |]. rewrite H1. by rewrite IH.
Qed.

Lemma keep_clean sk ls : keep sk ls `sublist_of` ls /\ Forall (fun l => is_folded l = true \/ private_field l = false) (keep sk ls).
Proof.
  revert sk. induction ls as [| l ls IH]; intros sk; [by split |]. cbn [keep].
  destruct (is_folded l) eqn:Ef; [destruct sk | destruct (private_field l) eqn:Er];
    destruct (IH true) as [T1 T2]; destruct (IH false) as [F1 F2]; (split; [by constructor |]); auto.
Qed.

(** what is sent to a remote host.  Every line end is CRLF; the header lines that
    are sent are header lines of the message, in order, none of which starts a Bcc
    or Return-Path field; everything behind the header is sent as it was. *)
Theorem outbound_clean message :
  exists ls rest,
  crlf_lines message = concat ls ++ rest /\ Forall is_line ls /\ (rest = [] \/ HasPrefix rest CRLF = true) /\
  prepareOutbound message = concat (keep false ls) ++ rest /\ keep false ls `sublist_of` ls /\
  Forall (fun l => is_folded l = true \/ (header_name l <> ("bcc" : gostring) /\ header_name l <> ("return-path" : gostring))) (keep false ls) /\
  crlf_only (prepareOutbound message) = true.
Proof.
  pose proof (crlf_lines_only message) as Ho. unfold prepareOutbound. set (m := crlf_lines message) in *.
  assert (Hcut : exists hdr rest, match Index m [CR; LF; CR; LF] with Some i => (take (i + 2) m, drop (i + 2) m) | None => (m, []) end = (hdr, rest) /\
    m = hdr ++ rest /\ (rest = [] \/ HasPrefix rest CRLF = true) /\ crlf_only hdr = true /\ crlf_only rest = true).
  { destruct (Index m [CR; LF; CR; LF]) as [i |] eqn:Ei; [| exists m, []; by rewrite app_nil_r; split_and!; auto].
    destruct (Index_split _ _ _ Ei) as [[b Hb] _]. assert (Hl : length (take i m) = i).
    { apply (f_equal length) in Hb. rewrite length_app in Hb. rewrite length_take in *. cbn in Hb. lia. }
    change ([CR; LF; CR; LF] ++ b) with (CRLF ++ CRLF ++ b) in Hb.
    assert (Ht : take (i + 2) m = take i m ++ CRLF).
    { rewrite Hb at 1. rewrite app_assoc, take_app_le by (rewrite length_app, Hl; cbn; lia). apply take_ge. rewrite length_app, Hl. cbn. lia. }
    assert (Hd : drop (i + 2) m = CRLF ++ b).
    { rewrite Hb at 1. rewrite app_assoc. rewrite drop_app_ge by (rewrite length_app, Hl; cbn; lia). rewrite length_app, Hl. cbn.
      by rewrite Nat.sub_diag. }
    exists (take (i + 2) m), (drop (i + 2) m). split; [done |]. split; [by rewrite take_drop |].
    split; [right; rewrite Hd; apply HasPrefix_app |]. assert (Hh : crlf_only (take (i + 2) m) = true).
    { rewrite Ht. rewrite Hb in Ho. by apply crlf_only_cut in Ho. }
    split; [done |]. rewrite <- (crlf_only_app (take (i + 2) m)) by done. by rewrite take_drop. }
  destruct Hcut as (hdr & rest & -> & Hm & Hr & Hoh & Hor). rewrite strip_header_keep.
  set (ls := header_lines (length hdr) hdr). destruct (header_lines_ok (length hdr) hdr ltac:(done)) as (H1 & H2 & H3). fold ls in H1, H2, H3.
  destruct (keep_clean false ls) as [K1 K2].
  assert (E : (if negb (existsb (fun l => negb (is_folded l) && private_field l) ls) then m else concat (keep false ls) ++ rest) =
    concat (keep false ls) ++ rest).
  { destruct (existsb _ ls) eqn:Ex; [done |]. cbn. by rewrite (keep_all ls Ex), H1. }
  exists ls, rest. rewrite E, H1. split_and!; try done.
  { eapply Forall_impl; [exact K2 |]. cbn. intros l [? | Hp%bool_decide_eq_false]; [by left | right; tauto]. }
  assert (Hk : crlf_only (concat (keep false ls)) = true).
  { specialize (H3 Hoh). assert (Hf : Forall (fun l => crlf_only l = true) (keep false ls)).
    { rewrite Forall_forall in *. intros l Hl. apply H3. by eapply elem_of_sublist. }
    clear -Hf. induction Hf as [| l r Hl Hr IH]; [done |]. cbn [concat]. by rewrite crlf_only_app. }
  by rewrite crlf_only_app.
Qed.
End Outbound.
