(* ===== verification/QueueSystem.v ===== *)
(** * internal/queue: workers, sweeps and restarts

    [QSys] is the queue with the entries its workers hold and, as a ghost, the ids
    of the entries a remote host has accepted.  A step is an enqueue, a claim, the
    end of a delivery, a sweep, an operator's drop or a restart, in any order. *)
From S2P Require Import Prelude GoLib Utf8 Bolt SmtpData Dsn Queue QueueProps.

Record QSys := { qm : Manager; held : gmap nat QueueEntry; accepted : list gostring }.

Section System.
Context {U : UnicodeTables} (cfg : Config).
Implicit Types (s : QSys) (q : Manager) (env : Env) (e r : QueueEntry) (k id base : gostring) (w : nat).

Definition holds s id : Prop := exists w e, held s !! w = Some e /\ ID e = id.
Definition known s id : Prop :=
  is_Some (rows (qm s) !! id) \/ holds s id \/ id ∈ accepted s \/ id ∈ delivered (qm s).
Definition set_qm q s : QSys := {| qm := q; held := held s; accepted := accepted s |}.

(** The outcome of an accepted message is recorded in one of two ways: the marker
    file, or one of the attempts to write the row. *)
Definition recorded env : Prop := markerWrites env = true \/ exists i, (i < persistAttempts)%nat /\ updates env i = true.

Inductive q_step : QSys -> QSys -> Prop :=
  | Q_enqueue t base written from to message s :
  (forall i, ~ known s (entry_id base i)) ->
  q_step s (set_qm (snd (Enqueue cfg t base written from to message (qm s))) s)
  | Q_enqueue_dsn t base written from to notify params message s :
  (forall i, ~ known s (entry_id base i)) ->
  q_step s (set_qm (snd (EnqueueWithDSN cfg t base written from to notify params message (qm s))) s)
  | Q_claim w t id e q' s :
  held s !! w = None -> claimEntry id t (qm s) = Some (e, q') ->
  q_step s {| qm := q'; held := <[w := e]> (held s); accepted := accepted s |}
  | Q_finish w env net e s :
  held s !! w = Some e -> ~ known s (report_id env) -> (accepts net e (qm s) = true -> recorded env) ->
  q_step s {| qm := process cfg env net e (qm s); held := delete w (held s);
    accepted := accepted s ++ (if accepts net e (qm s) then [ID e] else []) |}
  | Q_sweep t s :
  (forall w e, held s !! w = Some e -> stale t (claimLease cfg) e = false) ->
  q_step s (set_qm (sweepPendingEntries cfg t (qm s)) s)
  | Q_drop id s :
  ~ holds s id -> q_step s (set_qm (DropEntry id (qm s)) s)
  | Q_restart t s :
  q_step s {| qm := requeueInterruptedEntries t (qm s); held := ∅; accepted := accepted s |}.

Definition q_init : QSys := {|
  qm := {| rows := ∅; files := ∅; delivered := ∅; deliveryChan := []; domActive := ∅ |}; held := ∅; accepted := [] |}.

Definition status_at s id (st : QueueStatus) : Prop := exists e, rows (qm s) !! id = Some (Stored e) /\ QStatus e = st.

Record q_inv s : Prop := {
  qi_key k e : rows (qm s) !! k = Some (Stored e) -> ID e = k;
  qi_held w e : held s !! w = Some e ->
  QStatus e = StSending /\ (rows (qm s) !! ID e = Some (Stored e) \/ rows (qm s) !! ID e = None);
  qi_excl w w' e e' : held s !! w = Some e -> held s !! w' = Some e' -> ID e = ID e' -> w = w';
  qi_acc a : a ∈ accepted s ->
  status_at s a StDelivered \/ a ∈ delivered (qm s) \/ rows (qm s) !! a = None /\ ~ holds s a;
  qi_once : NoDup (accepted s)
}.

(** An accepted entry that is held again has its marker. *)
Lemma held_accepted s w e : q_inv s -> held s !! w = Some e -> ID e ∈ accepted s -> ID e ∈ delivered (qm s).
Proof.
  intros I Hw Ha. destruct (qi_held _ I _ _ Hw) as [Hs Hrow].
  destruct (qi_acc _ I _ Ha) as [(r & Hr & Hd) | [? | [_ Hh]]]; [| done | by destruct Hh; exists w, e].
  destruct Hrow; congruence.
Qed.

(** Operations that only add rows under the new ids [ids]. *)
Lemma inv_grow s (ids : list gostring) q' :
  q_inv s -> (forall k, k ∈ ids -> ~ known s k) -> (forall k, k ∉ ids -> rows q' !! k = rows (qm s) !! k) ->
  (forall k, k ∈ ids -> rows q' !! k = None \/ exists e, rows q' !! k = Some (Stored e) /\ ID e = k) ->
  delivered q' = delivered (qm s) -> q_inv (set_qm q' s).
Proof.
  intros [I1 I2 I3 I4 I5] Hfresh Hold Hnew Hd.
  assert (Hk : forall k, known s k -> rows q' !! k = rows (qm s) !! k) by (intros k Hk; apply Hold; intros Hin; by destruct (Hfresh k Hin)).
  split; cbn; try done.
  - intros k e He. destruct (decide (k ∈ ids)) as [Hin | Hin]; [| by apply I1; rewrite <- Hold].
    destruct (Hnew k Hin) as [E | (e' & E & Ei)]; congruence.
  - intros w e Hw. rewrite Hk; [by apply (I2 w) |]. right. left. by exists w, e.
  - intros a Ha. unfold status_at. cbn. rewrite Hk by (right; right; by left). rewrite Hd. by apply I4.
Qed.

Lemma entry_id_inj base i j : entry_id base i = entry_id base j -> i = j.
Proof.
  unfold entry_id. intros H. apply app_inv_head in H. injection H as H.
  assert (E : Z.of_nat i = Z.of_nat j); [| lia].
  pose proof (ParseUint_FormatUint (Z.of_nat i) (Z.of_nat i + Z.of_nat j) ltac:(lia)) as P. rewrite H in P.
  rewrite ParseUint_FormatUint in P by lia. by injection P.
Qed.

Lemma ids_of (f : nat -> gostring -> QueueEntry) base to : (forall i x, ID (f i x) = entry_id base i) ->
  NoDup (map ID (imap f to)) /\ forall k, k ∈ map ID (imap f to) -> exists i, k = entry_id base i.
Proof.
  intros Hf. assert (Hl : forall i k, map ID (imap f to) !! i = Some k -> k = entry_id base i).
  { intros i k. rewrite list_lookup_fmap, list_lookup_imap. destruct (to !! i); cbn; [| done]. intros [= <-]. apply Hf. }
  split.
  - apply NoDup_alt. intros i j k Hi Hj. apply Hl in Hi, Hj. apply (entry_id_inj base). congruence.
  - intros k (i & Hi)%list_elem_of_lookup. exists i. by apply Hl.
Qed.

Lemma inv_enqueued s base path (f : nat -> gostring -> QueueEntry) to written message :
  (forall i x, ID (f i x) = entry_id base i) -> q_inv s -> (forall i, ~ known s (entry_id base i)) ->
  q_inv (set_qm (snd (enqueue_entries cfg written path message (imap f to) (qm s))) s).
Proof.
  intros Hf I Hfresh. destruct (ids_of f base to Hf) as [HN Hids].
  destruct (enqueue_entries_effect cfg written path message (imap f to) (qm s) HN) as [E1 E2 _ E4].
  apply (inv_grow s (map ID (imap f to))); try done.
  - intros k Hk. destruct (Hids k Hk) as [i ->]. apply Hfresh.
  - intros k Hk. destruct (E2 k Hk) as [? | (e & _ & Ei & He)]; [| by left | right; by exists e].
    destruct (rows (qm s) !! k) eqn:Er; [| done]. destruct (Hids k Hk) as [i ->]. destruct (Hfresh i). left. by rewrite Er.
Qed.

Lemma inv_claim s w t id e q' : q_inv s -> held s !! w = None -> claimEntry id t (qm s) = Some (e, q') ->
  q_inv {| qm := q'; held := <[w := e]> (held s); accepted := accepted s |}.
Proof.
  intros [I1 I2 I3 I4 I5] Hw. unfold claimEntry, ClaimQueueEntry. destruct (rows (qm s) !! id) as [[e0 |] |] eqn:E0; [| done | done].
  destruct (_ || _) eqn:Eb; [done |]. apply orb_false_iff in Eb as [Hp%negb_false_iff%bool_decide_eq_true _]. cbn.
  set (e1 := with_times _ _ _). intros [= <- <-]. pose proof (I1 _ _ E0) as Eid. change (ID e0) with (ID e1) in Eid. subst id.
  assert (Hfree : forall w' e', held s !! w' = Some e' -> ID e' <> ID e1).
  { intros w' e' Hw' E. destruct (I2 _ _ Hw') as [Hs Hr]. rewrite E, E0 in Hr. destruct Hr as [Hr | Hr]; [| done]. injection Hr as Hr. congruence. }
  split; cbn; try done.
  - intros k e [[<- [= <-]] | [_ Hk]]%lookup_insert_Some; [done | by apply I1].
  - intros w' e [[<- <-] | [Hne Hw']]%lookup_insert_Some; [rewrite lookup_insert_eq; split; [done | by left] |].
    rewrite lookup_insert_ne by by apply not_eq_sym, (Hfree w'). by apply (I2 w').
  - intros w1 w2 e e' [[<- <-] | [Hn1 H1]]%lookup_insert_Some [[<- <-] | [Hn2 H2]]%lookup_insert_Some Ee; [done | | | by eapply I3].
    + by destruct (Hfree _ _ H2).
    + by destruct (Hfree _ _ H1).
  - intros a Ha. destruct (I4 a Ha) as [(r & Hr & Hd) | [? | [Hn Hh]]]; [left | right; by left | right; right].
    + exists r. cbn. rewrite lookup_insert_ne; [done |]. intros <-. change (ID e1) with (ID e0) in E0. congruence.
    + assert (Hne : ID e1 <> a) by congruence. rewrite lookup_insert_ne by done. split; [done |].
      intros (w' & e' & Hw' & Ea). cbn in Hw'. apply lookup_insert_Some in Hw' as [[_ <-] | [_ Hw']]; [done |].
      apply Hh. by exists w', e'.
Qed.

Lemma inv_sweep s t : q_inv s -> (forall w e, held s !! w = Some e -> stale t (claimLease cfg) e = false) ->
  q_inv (set_qm (sweepPendingEntries cfg t (qm s)) s).
Proof.
  intros I Hst. unfold sweepPendingEntries. set (q1 := if 0 <? claimLease cfg then _ else qm s).
  destruct (dispatchEntries_frame cfg (fst (GetPendingQueue t (rows q1))) q1) as (Er & _ & Ed).
  assert (H : q_inv (set_qm q1 s)).
  { unfold q1. destruct (0 <? _); [| by destruct I]. destruct I as [I1 I2 I3 I4 I5]. split; cbn; try done.
    - intros k e. unfold RequeueStaleClaims. rewrite lookup_fmap. destruct (rows (qm s) !! k) as [[e0 |] |] eqn:E0; cbn; [| done | done].
      intros Hk. apply I1 in E0. destruct (stale _ _ _); injection Hk as <-; done.
    - intros w e Hw. destruct (I2 w e Hw) as [Hs Hr]. split; [done |]. unfold RequeueStaleClaims. rewrite lookup_fmap.
      destruct Hr as [-> | ->]; cbn; [left; by rewrite (Hst _ _ Hw) | by right].
    - intros a Ha. destruct (I4 a Ha) as [(r & Hr & Hd) | [? | [Hn Hh]]]; [left | right; by left | right; right].
      + exists r. cbn. unfold RequeueStaleClaims. rewrite lookup_fmap, Hr. cbn. unfold stale. by rewrite Hd.
      + split; [| done]. unfold RequeueStaleClaims. by rewrite lookup_fmap, Hn. }
  destruct H as [I1 I2 I3 I4 I5]. split; cbn in *; unfold status_at in *; cbn in *; rewrite ?Er, ?Ed; done.
Qed.

Lemma inv_drop s id : q_inv s -> ~ holds s id -> q_inv (set_qm (DropEntry id (qm s)) s).
Proof.
  intros [I1 I2 I3 I4 I5] Hh. unfold DropEntry. set (q1 := match _ with None => _ | Some _ => _ end).
  assert (Er : rows q1 = delete id (rows (qm s))).
  { unfold q1. destruct (GetQueueEntry _ _); [| done]. by destruct (delete_file_frame (MessagePath q) (set_delivered (fun x => x ∖ {[id]}) (set_rows (Dequeue id) (qm s)))) as [-> _]. }
  assert (Ed : forall a, a <> id -> a ∈ delivered (qm s) -> a ∈ delivered q1).
  { intros a Ha Hd. unfold q1. destruct (GetQueueEntry _ _); [| done].
    destruct (delete_file_frame (MessagePath q) (set_delivered (fun x => x ∖ {[id]}) (set_rows (Dequeue id) (qm s)))) as [_ ->]. cbn. set_solver. }
  split; cbn; unfold status_at; cbn; rewrite ?Er; try done.
  - intros k e [_ Hk]%lookup_delete_Some. by apply I1.
  - intros w e Hw. destruct (I2 w e Hw) as [Hs Hr]. split; [done |]. rewrite lookup_delete_ne; [done |].
    intros ->. apply Hh. by exists w, e.
  - intros a Ha. destruct (decide (a = id)) as [-> | Hne]; [right; right; by rewrite lookup_delete_eq |].
    rewrite lookup_delete_ne by done. destruct (I4 a Ha) as [? | [? | ?]]; auto.
Qed.

Lemma inv_restart s t : q_inv s -> q_inv {| qm := requeueInterruptedEntries t (qm s); held := ∅; accepted := accepted s |}.
Proof.
  intros [I1 I2 I3 I4 I5]. split; cbn; try done.
  - intros k e. rewrite lookup_fmap. destruct (rows (qm s) !! k) as [[e0 |] |] eqn:E0; cbn; [| done | done].
    intros Hk. apply I1 in E0. case_bool_decide; injection Hk as <-; done.
  - intros a Ha. destruct (I4 a Ha) as [(r & Hr & Hd) | [? | [Hn Hh]]]; [left | right; by left | right; right].
    + exists r. cbn. rewrite lookup_fmap, Hr. cbn. by rewrite Hd.
    + rewrite lookup_fmap, Hn. split; [done |]. by intros (w & e & Hw & _).
Qed.

(** The entry of the worker that finishes. *)
Lemma finish_accepted s w env net e : q_inv s -> held s !! w = Some e -> report_id env <> ID e ->
  (accepts net e (qm s) = true -> recorded env) -> ID e ∈ accepted s ++ (if accepts net e (qm s) then [ID e] else []) ->
  let q' := process cfg env net e (qm s) in
  (exists r, rows q' !! ID e = Some (Stored r) /\ QStatus r = StDelivered) \/ ID e ∈ delivered q' \/ rows q' !! ID e = None.
Proof.
  intros I Hw Hne Hrec Ha q'. subst q'. destruct (process_cases cfg env net e (qm s)) as [[-> Hc] | (Hna & Hnd & _)]; cycle 1.
  { rewrite Hna, app_nil_r in Ha. destruct Hnd. by eapply held_accepted. }
  destruct (success_effect cfg env e (qm s) Hne) as [_ [(Er & Ed & Hnot) | H]]; [| by left]. right. rewrite Er, Ed.
  destruct Hnot as [Hnot | Hnone]; [| by right]. left. destruct Hc as [Hc | Hc]; [| set_solver].
  destruct (Hrec Hc) as [-> | (i & Hi & Hu)]; [set_solver |].
  rewrite Hnot in Hu by done. done.
Qed.

Lemma inv_finish s w env net e : q_inv s -> held s !! w = Some e -> ~ known s (report_id env) -> (accepts net e (qm s) = true -> recorded env) ->
  q_inv {| qm := process cfg env net e (qm s); held := delete w (held s);
    accepted := accepted s ++ (if accepts net e (qm s) then [ID e] else []) |}.
Proof.
  intros I Hw Hfresh Hrec. assert (Hne : report_id env <> ID e) by (intros E; apply Hfresh; right; left; exists w, e; done).
  pose proof (finish_accepted s w env net e I Hw Hne Hrec) as Hown. pose proof (held_accepted s w e I Hw) as Hacc.
  destruct (process_finished cfg env net e (qm s) Hne) as [F1 F2 F3 F4]. destruct I as [I1 I2 I3 I4 I5].
  assert (Hrid : rows (qm s) !! report_id env = None).
  { destruct (rows (qm s) !! report_id env) eqn:E; [| done]. destruct Hfresh. left. by rewrite E. }
  assert (Hothers : forall w' e', delete w (held s) !! w' = Some e' -> ID e' <> ID e /\ ID e' <> report_id env).
  { intros w' e' [Hn Hw']%lookup_delete_Some. split; [intros E; destruct Hn; by apply (I3 w w' e e') |].
    intros E. apply Hfresh. right. left. by exists w', e'. }
  split; cbn.
  - intros k r Hk. destruct (decide (k = ID e)) as [-> | Hke].
    { destruct F3 as [F3 | (_ & r' & F3 & Ei & _)]; [apply I1; congruence | congruence]. }
    destruct (decide (k = report_id env)) as [-> | Hkr]; [| apply I1; by rewrite <- F1].
    destruct (F2 Hrid) as [E | (r' & E & Ei & _)]; congruence.
  - intros w' e' Hw'. destruct (Hothers _ _ Hw') as [N1 N2]. apply lookup_delete_Some in Hw' as [_ Hw']. rewrite F1 by done. by apply (I2 w').
  - intros w1 w2 e1 e2 [_ H1]%lookup_delete_Some [_ H2]%lookup_delete_Some. by apply I3.
  - intros a Ha. unfold status_at, holds. cbn. destruct (decide (a = ID e)) as [-> | Hae].
    { destruct (Hown Ha) as [? | [? | Hn]]; [by left | right; by left | right; right]. split; [done |].
      intros (w' & e' & Hw' & E). by destruct (Hothers _ _ Hw'). }
    assert (Ha' : a ∈ accepted s) by (apply elem_of_app in Ha as [? | Ha]; [done |]; destruct (accepts _ _ _); set_solver).
    assert (Har : a <> report_id env) by (intros ->; apply Hfresh; right; right; by left).
    rewrite F1, F4 by done. destruct (I4 a Ha') as [? | [? | [? Hh]]]; [by left | right; by left | right; right].
    split; [done |]. intros (w' & e' & [_ Hw']%lookup_delete_Some & E). apply Hh. by exists w', e'.
  - destruct (accepts net e (qm s)) eqn:Eacc; [| by rewrite app_nil_r]. apply NoDup_app. split; [done |].
    split; [| apply NoDup_singleton]. intros x Hx ->%list_elem_of_singleton. apply Hacc in Hx. unfold accepts in Eacc.
    by rewrite bool_decide_eq_true_2 in Eacc.
Qed.

Lemma q_inv_step s s' : q_inv s -> q_step s s' -> q_inv s'.
Proof.
  intros I H. inversion H as [t base written from to message s0 Hf | t base written from to notify params message s0 Hf |
    w t id e q' s0 Hw Hc | w env net e s0 Hw Hf Hr | t s0 Hst | id s0 Hh | t s0]; subst.
  - unfold Enqueue. destruct (bool_decide _); [by destruct I |].
    pose proof (inv_enqueued s base (spool_path (dataDir cfg ++ "/queue") base)
      (fun i x => new_entry (entry_id base i) from x (spool_path (dataDir cfg ++ "/queue") base) t 0 DSNRetFull [] []) to written message
      (fun _ _ => eq_refl) I Hf) as H0. by destruct (enqueue_entries cfg _ _ _ _ _).
  - unfold EnqueueWithDSN. destruct (bool_decide _); [by destruct I |]. unfold dsn_entries. set (path := spool_path _ base).
    match goal with |- context [imap ?f to] => assert (Hid : forall i x, ID (f i x) = entry_id base i) by (intros; by destruct params);
      pose proof (inv_enqueued s base path f to written message Hid I Hf) as H0 end.
    by destruct (enqueue_entries cfg _ _ _ _ _).
  - by eapply inv_claim.
  - by apply inv_finish.
  - by apply inv_sweep.
  - by apply inv_drop.
  - by apply inv_restart.
Qed.

Lemma q_inv_reachable s : star q_step q_init s -> q_inv s.
Proof.
  apply star_invariant; [| apply q_inv_step]. split; cbn; try done; [| apply NoDup_nil_2].
  intros a Ha. by apply elem_of_nil in Ha.
Qed.


(** ** Rows are never removed *)
(** A step other than an operator's drop. *)
Definition own_step s s' : Prop := q_step s s' /\ forall id, s' <> set_qm (DropEntry id (qm s)) s.

Definition grows (m m' : gmap gostring Row) : Prop := forall k, is_Some (m !! k) -> is_Some (m' !! k).

Lemma enqueued_grows s base path (f : nat -> gostring -> QueueEntry) to written message : (forall i x, ID (f i x) = entry_id base i) ->
  (forall i, ~ known s (entry_id base i)) ->
  grows (rows (qm s)) (rows (snd (enqueue_entries cfg written path message (imap f to) (qm s)))).
Proof.
  intros Hf Hfresh k Hk. destruct (ids_of f base to Hf) as [HN Hids].
  destruct (enqueue_entries_effect cfg written path message (imap f to) (qm s) HN) as [E1 _ _ _]. rewrite E1; [done |].
  intros Hin. destruct (Hids k Hin) as [i ->]. apply (Hfresh i). by left.
Qed.

Lemma own_step_grows s s' : own_step s s' -> grows (rows (qm s)) (rows (qm s')).
Proof.
  intros [H Hnd]. inversion H as [t base written from to message s0 Hf | t base written from to notify params message s0 Hf |
    w t id e q' s0 Hw Hc | w env net e s0 Hw Hf Hr | t s0 Hst | id s0 Hh | t s0]; subst; cbn [qm set_qm].
  - unfold Enqueue. destruct (bool_decide _); [by intros k |].
    pose proof (enqueued_grows s base (spool_path (dataDir cfg ++ "/queue") base)
      (fun i x => new_entry (entry_id base i) from x (spool_path (dataDir cfg ++ "/queue") base) t 0 DSNRetFull [] []) to written message
      (fun _ _ => eq_refl) Hf) as H0. by destruct (enqueue_entries cfg _ _ _ _ _).
  - unfold EnqueueWithDSN. destruct (bool_decide _); [by intros k |]. unfold dsn_entries. set (path := spool_path _ base).
    match goal with |- context [imap ?f to] => assert (Hid : forall i x, ID (f i x) = entry_id base i) by (intros; by destruct params);
      pose proof (enqueued_grows s base path f to written message Hid Hf) as H0 end.
    by destruct (enqueue_entries cfg _ _ _ _ _).
  - revert Hc. unfold claimEntry, ClaimQueueEntry. destruct (rows (qm s) !! id) as [[e0 |] |]; [| done | done].
    destruct (_ || _); [done |]. cbn. intros [= _ <-] k Hk. cbn. destruct (decide (id = k)) as [-> | Hne]; [by rewrite lookup_insert_eq |].
    by rewrite lookup_insert_ne.
  - assert (Hne : report_id env <> ID e) by (intros E; apply Hf; right; left; by exists w, e).
    destruct (process_finished cfg env net e (qm s) Hne) as [F1 F2 F3 F4]. intros k Hk.
    destruct (decide (k = report_id env)) as [-> | Hkr]; [destruct Hf; by left |].
    destruct (decide (k = ID e)) as [-> | Hke]; [| by rewrite F1]. destruct F3 as [-> | (_ & r & -> & _)]; [done | by eexists].
  - intros k Hk. unfold sweepPendingEntries. set (q1 := if 0 <? claimLease cfg then _ else qm s).
    destruct (dispatchEntries_frame cfg (fst (GetPendingQueue t (rows q1))) q1) as (-> & _). unfold q1.
    destruct (0 <? _); [| done]. cbn. unfold RequeueStaleClaims. by rewrite lookup_fmap, fmap_is_Some.
  - by destruct (Hnd id).
  - intros k Hk. cbn. by rewrite lookup_fmap, fmap_is_Some.
Qed.

Lemma star_grows s s' : star own_step s s' -> grows (rows (qm s)) (rows (qm s')).
Proof. intros H. induction H as [s | s1 s2 s3 H IH Hs]; [by intros k |]. intros k Hk. eapply own_step_grows, IH; done. Qed.

Lemma grows_size (m m' : gmap gostring Row) : grows m m' -> (size m <= size m')%nat.
Proof.
  intros H. rewrite <- !size_dom. apply subseteq_size. intros k. rewrite !elem_of_dom. apply H.
Qed.

(** finished entries fill the queue.  No delivery, bounce, sweep or restart ever
    removes a row: once as many entries as the size limit were accepted, every
    further message is refused, although all of them may be delivered, until an
    operator drops rows. *)
Theorem finished_entries_fill_queue s s' t base from to message :
  maxQueueSize cfg <= Z.of_nat (size (rows (qm s))) -> star own_step s s' ->
  fst (Enqueue cfg t base true from to message (qm s')) = None.
Proof.
  intros Hfull Hstar. pose proof (grows_size _ _ (star_grows _ _ Hstar)) as Hle. unfold Enqueue. case_bool_decide as Et; [done |].
  unfold enqueue_entries. destruct to as [| x to]; [done |]. cbn [imap negb store_entries rows set_files].
  unfold EnqueueWithLimit. by rewrite (proj2 (Z.leb_le _ _)) by lia.
Qed.
End System.

(** ** Examples *)
Section Examples.
#[local] Existing Instance ascii_tables.

Definition small : Config := {|
  maxAge := 120 * hour; claimLease := 30 * minute; maxRetries := 11; maxQueueSize := 2; maxPerDomain := 5; chanCap := 10;
  dataDir := "d"; queueDir := "d"; date := fun _ => []; durationString := fun _ => "120h0m0s" |}.
Definition at_time (t : Z) : Env := {|
  now := t; newID := "n"; dsnID := "dsn"; dsnMessageID := "<1@x>"; dsnBoundary := "b"; jitter := fun d => d; spoolWrites := true;
  markerWrites := true; updates := fun _ => true |}.
Definition welcoming : Net := {| LookupMX := fun _ => MXFound ["mx.y" : gostring]; deliverToMX := fun _ _ _ _ => Accepted |}.

Definition after_claim (w : nat) (id : gostring) (t : Z) (s : QSys) : QSys :=
  match claimEntry id t (qm s) with
  | Some (e, q) => {| qm := q; held := <[w := e]> (held s); accepted := accepted s |} | None => s end.
Definition after_finish (w : nat) (env : Env) (net : Net) (s : QSys) : QSys :=
  match held s !! w with
  | Some e => {| qm := process small env net e (qm s); held := delete w (held s);
    accepted := accepted s ++ (if accepts net e (qm s) then [ID e] else []) |} | None => s end.

(** One message to two recipients; both are delivered. *)
Definition two_sent : QSys :=
  set_qm (snd (Enqueue small 1 "m" true "a@x" ["b@y" : gostring; "c@y" : gostring] "hello" (qm q_init))) q_init.
Definition one_done : QSys := after_finish 0 (at_time 3) welcoming (after_claim 0 (entry_id "m" 0) 2 two_sent).
Definition both_done : QSys := after_finish 1 (at_time 4) welcoming (after_claim 1 (entry_id "m" 1) 3 one_done).

Definition knownb (s : QSys) (id : gostring) : bool :=
  bool_decide (is_Some (rows (qm s) !! id)) || existsb (fun we : nat * QueueEntry => ID we.2 =s? id) (map_to_list (held s)) ||
  bool_decide (id ∈ accepted s) || bool_decide (id ∈ delivered (qm s)).
Lemma knownb_false s id : knownb s id = false -> ~ known s id.
Proof.
  unfold knownb. rewrite !orb_false_iff. intros [[[H1%bool_decide_eq_false H2] H3%bool_decide_eq_false] H4%bool_decide_eq_false].
  intros [? | [(w & e & Hw & <-) | [? | ?]]]; try done. apply not_true_iff_false in H2. apply H2.
  apply existsb_exists. exists (w, e). split; [by apply list_elem_of_In, elem_of_map_to_list | by apply bool_decide_eq_true].
Qed.

Lemma star_claim s0 s w id t : star (q_step small) s0 s -> held s !! w = None -> star (q_step small) s0 (after_claim w id t s).
Proof.
  intros H Hw. unfold after_claim. destruct (claimEntry id t (qm s)) as [[e q] |] eqn:E; [| done].
  eapply star_snoc; [exact H |]. by eapply Q_claim.
Qed.
Lemma star_finish s0 s w env net : star (q_step small) s0 s -> knownb s (report_id env) = false -> markerWrites env = true ->
  star (q_step small) s0 (after_finish w env net s).
Proof.
  intros H Hk Hm. unfold after_finish. destruct (held s !! w) as [e |] eqn:E; [| done].
  eapply star_snoc; [exact H |]. apply Q_finish; [done | by apply knownb_false | by left].
Qed.
Lemma star_two_sent : star (q_step small) q_init two_sent.
Proof.
  apply star_one, Q_enqueue. intros i [[? Hr] | [(w & e & Hw & _) | [Ha | Ha]]]; cbn in *;
    [by rewrite lookup_empty in Hr | by rewrite lookup_empty in Hw | by apply elem_of_nil in Ha | by apply elem_of_empty in Ha].
Qed.
Lemma star_both_done : star (q_step small) q_init both_done.
Proof.
  unfold both_done, one_done.
  repeat first [apply star_finish; [| vm_compute; reflexivity | reflexivity] | apply star_claim; [| vm_compute; reflexivity]].
  apply star_two_sent.
Qed.


Definition status_of (id : gostring) (q : Manager) : option QueueStatus := QStatus <$> GetQueueEntry id (rows q).

Example finished_entries_fill_queue_witness :
  status_of (entry_id "m" 0) (qm both_done) = Some StDelivered /\ status_of (entry_id "m" 1) (qm both_done) = Some StDelivered /\
  fst (Enqueue small 5 "n" true "a@x" ["d@y" : gostring] "more" (qm both_done)) = None.
Proof.
  split; [vm_compute; reflexivity |]. split; [vm_compute; reflexivity |].
  apply (finished_entries_fill_queue small both_done both_done); [vm_compute; discriminate | apply star_refl].
Defined.

(** [EnqueueWithDSN] stores its entries without the lock that protects the
    spool file: when the first entry is swept up and delivered before the second
    one is stored, the file is deleted; the second recipient's entry then bounces
    without a report to the sender, who was told that the message was queued. *)
Theorem dsn_enqueue_race :
  let path := spool_path "d" "m" in
  let es := dsn_entries 1 "m" "a@x" path ["b@y" : gostring; "c@y" : gostring] [] None in
  let put e q := match EnqueueWithLimit e (maxQueueSize small) (rows q) with Some m => set_rows (fun _ => m) q | None => q end in
  let run id t q := match claimEntry id t q with Some (e, q) => process small (at_time t) welcoming e q | None => q end in
  let q0 := set_files <[path := "hello" : gostring]> (qm q_init) in
  match es with
  | [e0; e1] =>
      let q := run (ID e1) 9 (put e1 (run (ID e0) 5 (put e0 q0))) in
      let q' := run (ID e1) 9 (run (ID e0) 5 (put e1 (put e0 q0))) in
      status_of (ID e0) q = Some StDelivered /\ status_of (ID e1) q = Some StBounced /\ size (rows q) = 2%nat /\
      status_of (ID e0) q' = Some StDelivered /\ status_of (ID e1) q' = Some StDelivered
  | _ => False
  end.
Proof. vm_compute. split_and!; reflexivity. Qed.

(** A message to one recipient that a host refuses for good. *)
Definition refusing : Net := {|
  LookupMX := fun _ => MXFound ["mx.y" : gostring]; deliverToMX := fun _ _ _ _ => Refused 550 "550 5.1.1 no such user" |}.
Definition claimed : QueueEntry := with_times 1 2 (with_status StSending
  (new_entry (entry_id "m" 0) "a@x" "b@y" (spool_path "d/queue" "m") 1 0 DSNRetFull [] [])).
Definition sending : Manager :=
  match claimEntry (entry_id "m" 0) 2 (snd (Enqueue small 1 "m" true "a@x" ["b@y" : gostring] "hello" (qm q_init))) with
  | Some (_, q) => q | None => qm q_init end.
Definition refused : Manager := process small (at_time 3) refusing claimed sending.
Definition report_row : option QueueEntry := GetQueueEntry (report_id (at_time 3)) (rows refused).

Lemma claimed_id : report_id (at_time 3) <> ID claimed.
Proof. vm_compute. discriminate. Qed.

Example reports_are_final_witness :
  exists r, rows refused !! report_id (at_time 3) = Some (Stored r) /\ From r = [] /\ To r = ["a@x" : gostring].
Proof.
  destruct (rows refused !! report_id (at_time 3)) as [[r | p b] |] eqn:E; [| vm_compute in E; discriminate E ..].
  exists r. split; [reflexivity |].
  destruct (reports_are_final small (at_time 3) refusing claimed sending _ r claimed_id ltac:(vm_compute; reflexivity) E)
    as [H | [H | (_ & _ & H1 & H2)]]; [vm_compute in H; discriminate H | by destruct claimed_id | by split].
Defined.

Example failure_outcome_witness :
  exists r, rows (failDelivery small (at_time 3) claimed "451 try later" false sending) = <[ID claimed := Stored r]> (rows sending) /\
  QStatus r = StPending /\ NextRetry r = 3 + 5 * minute /\ RetryCount r = 1.
Proof.
  destruct (failure_outcome small (at_time 3) claimed "451 try later" false sending "hello" claimed_id eq_refl) as [_ H];
    [vm_compute; reflexivity | vm_compute; reflexivity |].
  destruct H as (r & H1 & H2 & H3 & _ & H4 & _); [vm_compute; reflexivity | vm_compute; eexists; reflexivity | reflexivity | vm_compute; reflexivity |].
  exists r. split; [exact H1 |]. split; [exact H2 |]. split; [rewrite H4; vm_compute; reflexivity | rewrite H3; vm_compute; reflexivity].
Defined.
End Examples.
