(* ===== verification/TlsPolicy.v ===== *)
(** * internal/auth: the TLS policies of receiving domains

    mtasts.go and dane.go.  A call of [GetPolicy] reads the clock and asks DNS and a
    web server: [StsEnv] has the answers, and [meanwhile], what other goroutines do to
    the cache between the reading of an entry and the writing of one.  Cache entries
    are pointers that the code compares, so each has a number.  Of TLSA lookups the
    replies of the name server are given ([TlsaEnv]); the verification of certificate
    chains, SHA-512 and the parsing of the policy's URL are parameters.  Logs and the
    JSON of a TLS report are left out. *)
From S2P Require Import Prelude GoLib Utf8 Base64 GoNet Scram SmtpData BlobStore Spf Dkim.

(** ** Addresses that are not contacted ([net.IP]) *)
Definition octet (ip : gostring) (i : nat) : Z := match ip !! i with Some c => bz c | None => -1 end.
Definition is16 (ip : gostring) : bool := Nat.eqb (length ip) 16.
Definition masked (ip : gostring) (i : nat) (m v : Z) : bool := Z.land (octet ip i) m =? v.

Definition IPv4zero : gostring := v4InV6Prefix ++ repeat (byte_of 0) 4.
Definition IPv6unspecified : gostring := repeat (byte_of 0) 16.
Definition IPv6loopback : gostring := repeat (byte_of 0) 15 ++ [byte_of 1].

Definition IsUnspecified (ip : gostring) : bool := ip_equal ip IPv4zero || ip_equal ip IPv6unspecified.
Definition IsLoopback (ip : gostring) : bool :=
  match To4 ip with Some v4 => octet v4 0 =? 127 | None => ip_equal ip IPv6loopback end.
Definition IsPrivate (ip : gostring) : bool :=
  match To4 ip with
  | Some v4 => (octet v4 0 =? 10) || ((octet v4 0 =? 172) && masked v4 1 240 16) || ((octet v4 0 =? 192) && (octet v4 1 =? 168))
  | None => is16 ip && masked ip 0 254 252
  end.
Definition IsMulticast (ip : gostring) : bool :=
  match To4 ip with Some v4 => masked v4 0 240 224 | None => is16 ip && (octet ip 0 =? 255) end.
Definition IsInterfaceLocalMulticast (ip : gostring) : bool := is16 ip && (octet ip 0 =? 255) && masked ip 1 15 1.
Definition IsLinkLocalMulticast (ip : gostring) : bool :=
  match To4 ip with
  | Some v4 => (octet v4 0 =? 224) && (octet v4 1 =? 0) && (octet v4 2 =? 0)
  | None => is16 ip && (octet ip 0 =? 255) && masked ip 1 15 2
  end.
Definition IsLinkLocalUnicast (ip : gostring) : bool :=
  match To4 ip with
  | Some v4 => (octet v4 0 =? 169) && (octet v4 1 =? 254)
  | None => is16 ip && (octet ip 0 =? 254) && masked ip 1 192 128
  end.

Definition cgnatNet : IPNet := {|
  net_ip := v4InV6Prefix ++ [byte_of 100; byte_of 64; byte_of 0; byte_of 0]; net_mask := [byte_of 255; byte_of 192; byte_of 0; byte_of 0] |}.

Definition isBlockedPolicyIP (ip : gostring) : bool :=
  IsLoopback ip || IsPrivate ip || IsLinkLocalUnicast ip || IsLinkLocalMulticast ip || IsUnspecified ip || IsMulticast ip ||
  IsInterfaceLocalMulticast ip || net_contains cgnatNet ip || match To4 ip with Some v4 => octet v4 0 =? 0 | None => false end.

(** ** MTA-STS *)
Definition MTASTSModeEnforce : gostring := "enforce".
Definition MTASTSModeTesting : gostring := "testing".
Definition MTASTSModeNone : gostring := "none".

Record MTASTSPolicy := { Version : gostring; Mode : gostring; MX : list gostring; MaxAge : Z; Raw : gostring }.
Record MTASTSRecord := { RecVersion : gostring; RecID : gostring }.
Record MTASTSCacheEntry := { Policy : option MTASTSPolicy; EntryDomain : gostring; EntryID : gostring; FetchedAt : Z; RecheckAt : Z; ExpiresAt : Z }.
Record MTASTSValidator := { cache : gmap gostring (nat * MTASTSCacheEntry); entries : nat; recheck : Z }.

Definition NewMTASTSValidator : MTASTSValidator := {| cache := ∅; entries := 0; recheck := 0 |}.
Definition put_entry (domain : gostring) (e : MTASTSCacheEntry) (v : MTASTSValidator) : MTASTSValidator := {|
  cache := <[domain := (entries v, e)]> (cache v); entries := S (entries v); recheck := recheck v |}.
Definition set_cache f (v : MTASTSValidator) : MTASTSValidator := {| cache := f (cache v); entries := entries v; recheck := recheck v |}.
Definition with_recheck (t : Z) (e : MTASTSCacheEntry) : MTASTSCacheEntry := {|
  Policy := Policy e; EntryDomain := EntryDomain e; EntryID := EntryID e; FetchedAt := FetchedAt e; RecheckAt := t; ExpiresAt := ExpiresAt e |}.

Record StsEnv := {
  now : Z;
  txt_again : result goerr (list gostring);     (* the TXT records when a cached id is checked *)
  txt : result goerr (list gostring);           (* the TXT records of a fetch *)
  url_ok : bool;                                (* url.Parse *)
  ips : result goerr (list gostring);           (* the addresses of the policy host *)
  dialed : gostring;                            (* the address the transport connects to *)
  response : option (Z * option gostring);      (* status and body; the body may fail to be read *)
  meanwhile : MTASTSValidator -> MTASTSValidator
}.

Inductive sts_error :=
| StsDNS (e : goerr) | StsVersion | StsURL | StsBlocked (ip : gostring) | StsHTTP | StsStatus (code : Z) | StsPolicy.

Definition defaultMTASTSRecheck : Z := hour.
Definition recheckInterval (v : MTASTSValidator) : Z := if 0 <? recheck v then recheck v else defaultMTASTSRecheck.

Definition parseMTASTSRecord (record : gostring) : option MTASTSRecord :=
  let params := parseTagValueList record in
  let version := default [] (params !! ("v" : gostring)) in
  let id := default [] (params !! ("id" : gostring)) in
  if negb (version =s? "STSv1") then None else if bool_decide (id = []) then None else Some {| RecVersion := version; RecID := id |}.

Definition lookupMTASTSRecord (answer : result goerr (list gostring)) : result goerr (option MTASTSRecord) :=
  match answer with
  | Err e => if isTemporaryError e then Err e else Ok None
  | Ok records => match omap parseMTASTSRecord records with [r] => Ok (Some r) | _ => Ok None end
  end.

Section Sts.
Context {U : UnicodeTables}.

Definition with_field (key value : gostring) (p : MTASTSPolicy) : MTASTSPolicy :=
  if key =s? "version" then {| Version := value; Mode := Mode p; MX := MX p; MaxAge := MaxAge p; Raw := Raw p |}
  else if key =s? "mode" then {| Version := Version p; Mode := ToLower value; MX := MX p; MaxAge := MaxAge p; Raw := Raw p |}
  else if key =s? "mx" then {| Version := Version p; Mode := Mode p; MX := MX p ++ [value]; MaxAge := MaxAge p; Raw := Raw p |}
  else p.
Definition with_age (n : Z) (p : MTASTSPolicy) : MTASTSPolicy := {| Version := Version p; Mode := Mode p; MX := MX p; MaxAge := n; Raw := Raw p |}.

(** One line of the file: the policy and whether max_age was seen; [None] when its
    number is not one. *)
Definition policy_line (acc : option (MTASTSPolicy * bool)) (line : gostring) : option (MTASTSPolicy * bool) :=
  match acc with
  | None => None
  | Some (p, seen) =>
      let line := TrimSpace line in
      if bool_decide (line = []) || HasPrefix line "#" then Some (p, seen) else
      match IndexByte line ":" with
      | Some (S idx) =>
          let key := ToLower (TrimSpace (take (S idx) line)) in
          let value := TrimSpace (drop (S (S idx)) line) in
          if key =s? "max_age" then match Atoi value with Ok n => Some (with_age n p, true) | Err _ => None end
          else Some (with_field key value p, seen)
      | _ => Some (p, seen)
      end
  end.

Definition parseMTASTSPolicy (text : gostring) : option MTASTSPolicy :=
  match foldl policy_line (Some ({| Version := []; Mode := []; MX := []; MaxAge := 0; Raw := text |}, false)) (Split text LF) with
  | None => None
  | Some (p, seen) =>
      if negb (Version p =s? "STSv1") then None
      else if negb (Mode p =s? MTASTSModeEnforce) && negb (Mode p =s? MTASTSModeTesting) && negb (Mode p =s? MTASTSModeNone) then None
      else if negb (Mode p =s? MTASTSModeNone) && bool_decide (MX p = []) then None
      else if negb seen then None
      else Some (with_age (Z.min 31557600 (Z.max 86400 (MaxAge p))) p)
  end.

(** The transport looks at the address it connects to, after the resolver's answer
    was looked at. *)
Definition fetchPolicyFile (e : StsEnv) : result sts_error MTASTSPolicy :=
  if negb (url_ok e) then Err StsURL else
  match ips e with
  | Err d => Err (StsDNS d)
  | Ok l =>
      match List.find isBlockedPolicyIP l with
      | Some ip => Err (StsBlocked ip)
      | None =>
          match ParseIP (dialed e) with
          | None => Err (StsBlocked (dialed e))
          | Some ip =>
              if isBlockedPolicyIP ip then Err (StsBlocked ip) else
              match response e with
              | None => Err StsHTTP
              | Some (code, body) =>
                  if negb (code =? 200) then Err (StsStatus code) else
                  match body with
                  | None => Err StsHTTP
                  | Some body => match parseMTASTSPolicy (take (Z.to_nat (64 * 1024)) body) with Some p => Ok p | None => Err StsPolicy end
                  end
              end
          end
      end
  end.

Definition fetchPolicyWithID (e : StsEnv) : result sts_error (option (MTASTSPolicy * gostring)) :=
  match lookupMTASTSRecord (txt e) with
  | Err d => Err (StsDNS d)
  | Ok None => Ok None
  | Ok (Some record) =>
      if negb (RecVersion record =s? "STSv1") then Err StsVersion else
      match fetchPolicyFile e with Err x => Err x | Ok p => Ok (Some (p, RecID record)) end
  end.

(** The entry is asked for again later, when it is still the one that was read. *)
Definition postpone (domain : gostring) (id : nat) (t : Z) (v : MTASTSValidator) : MTASTSValidator :=
  match cache v !! domain with
  | Some (id', cur) => if Nat.eqb id' id then set_cache <[domain := (id', with_recheck t cur)]> v else v
  | None => v
  end.

Definition fetch_and_cache (e : StsEnv) (domain : gostring) (kept : option MTASTSPolicy) (v : MTASTSValidator)
  : result sts_error (option MTASTSPolicy) * MTASTSValidator :=
  let found := fetchPolicyWithID e in
  let v := meanwhile e v in
  match found, kept with
  | Err x, None => (Err x, v)
  | Ok None, None =>
      (Ok None, put_entry domain {| Policy := None; EntryDomain := domain; EntryID := []; FetchedAt := now e; RecheckAt := zero_time; ExpiresAt := now e + 5 * minute |} v)
  | Ok (Some (p, id)), _ =>
      (Ok (Some p), put_entry domain {| Policy := Some p; EntryDomain := domain; EntryID := id; FetchedAt := now e;
        RecheckAt := now e + recheckInterval v; ExpiresAt := now e + MaxAge p * second |} v)
  | _, Some p => (Ok (Some p), v)
  end.

Definition GetPolicy (e : StsEnv) (domain : gostring) (v : MTASTSValidator) : result sts_error (option MTASTSPolicy) * MTASTSValidator :=
  match cache v !! domain with
  | Some (id, c) =>
      if now e <? ExpiresAt c then
      if bool_decide (Policy c = None) || bool_decide (EntryID c = []) || (now e <? RecheckAt c) then (Ok (Policy c), v) else
      match lookupMTASTSRecord (txt_again e) with
      | Ok (Some record) =>
          if RecID record =s? EntryID c then (Ok (Policy c), postpone domain id (now e + recheckInterval v) (meanwhile e v))
          else fetch_and_cache e domain (Policy c) v
      | _ => (Ok (Policy c), postpone domain id (now e + recheckInterval v) (meanwhile e v))
      end
      else fetch_and_cache e domain None v
  | None => fetch_and_cache e domain None v
  end.

(** *** Hosts *)
Definition matchMX (pattern mx : gostring) : bool :=
  let pattern := TrimSuffix (ToLower pattern) "." in
  let mx := TrimSuffix (ToLower mx) "." in
  if pattern =s? mx then true
  else if HasPrefix pattern "*." then
  let suffix := "."%char :: drop 2 pattern in
  if negb (HasSuffix mx suffix) then false
  else let label := TrimSuffix mx suffix in negb (bool_decide (label = [])) && negb (ContainsByte label ".")
  else false.

Definition policy_allows (policy : option MTASTSPolicy) (mx : gostring) : bool :=
  match policy with
  | None => true
  | Some p => if Mode p =s? MTASTSModeNone then true else existsb (fun pattern => matchMX pattern mx) (MX p)
  end.

Definition CheckPolicy (e : StsEnv) (domain mx : gostring) (v : MTASTSValidator) : result sts_error (bool * option MTASTSPolicy) * MTASTSValidator :=
  match GetPolicy e domain v with
  | (Err x, v) => (Err x, v)
  | (Ok policy, v) => (Ok (policy_allows policy mx, policy), v)
  end.

Definition IsMTASTSEnforced (e : StsEnv) (domain : gostring) (v : MTASTSValidator) : result sts_error bool * MTASTSValidator :=
  match GetPolicy e domain v with
  | (Err x, v) => (Err x, v)
  | (Ok policy, v) => (Ok match policy with Some p => Mode p =s? MTASTSModeEnforce | None => false end, v)
  end.

Definition GetCacheStats (t : Z) (v : MTASTSValidator) : nat * nat :=
  (size (cache v), size (filter (fun x => ExpiresAt (snd (snd x)) < t) (cache v))).
Definition ClearCache (v : MTASTSValidator) : MTASTSValidator := set_cache (fun _ => ∅) v.
End Sts.

(** ** DANE *)
Inductive DANEResult := DANENone | DANEValidated | DANEFailed | DANEUnusable.

(** Usage, selector and matching type are octets. *)
Record TLSARecord := { Usage : Z; Selector : Z; MatchingType : Z; Certificate : gostring }.
#[export] Instance TLSARecord_eq_dec : EqDecision TLSARecord.
Proof. solve_decision. Defined.
Definition TLSAUsageDANETA : Z := 2.
Definition TLSAUsageDANEEE : Z := 3.
Definition TLSASelectorFullCert : Z := 0.
Definition TLSASelectorSPKI : Z := 1.
Definition TLSAMatchingTypeFull : Z := 0.
Definition TLSAMatchingTypeSHA256 : Z := 1.
Definition TLSAMatchingTypeSHA512 : Z := 2.

(** A certificate and its subject public key, DER encoded. *)
Record Cert := { DER : gostring; SPKI : gostring }.

(** crypto/sha512 and [x509.Certificate.Verify] (leaf, roots, intermediates, name). *)
Class TlsStd := {
  sha512 : gostring -> gostring;
  Verify : Cert -> list Cert -> list Cert -> gostring -> bool
}.

(** [encoding/hex]: [None] for an odd length or another character. *)
Fixpoint hex_decode (s : gostring) : option gostring :=
  match s with
  | [] => Some []
  | [_] => None
  | a :: b :: s => x ← hex_val a; y ← hex_val b; r ← hex_decode s; Some (byte_of (16 * x + y) :: r)
  end.

(** A reply of the name server: the answers that are TLSA records, with hexadecimal
    data. *)
Record TlsaReply := { Rcode : Z; Truncated : bool; AuthenticatedData : bool; Answer : list (Z * Z * Z * gostring) }.

(** A lookup: an answer of a resolver that knows TLSA records, or the replies over
    UDP and TCP; without a name server there are none. *)
Inductive TlsaEnv :=
| Resolved (r : result goerr (list TLSARecord))
| NoServer
| Exchange (udp tcp : option TlsaReply).

Definition usable_answer (a : Z * Z * Z * gostring) : option TLSARecord :=
  let '(usage, selector, matching, data) := a in
  data ← hex_decode data; Some {| Usage := usage; Selector := selector; MatchingType := matching; Certificate := data |}.

(** [None]: the lookup failed. *)
Definition lookupTLSARecords (e : TlsaEnv) : option (list TLSARecord) :=
  match e with
  | Resolved (Ok l) => Some l
  | Resolved (Err _) | NoServer => None
  | Exchange udp tcp =>
      match (match udp with Some r => if Truncated r then tcp else Some r | None => tcp end) with
      | None => None
      | Some reply =>
          if negb (Rcode reply =? 0) && negb (Rcode reply =? 3) then None
          else if negb (AuthenticatedData reply) then Some []
          else Some (omap usable_answer (Answer reply))
      end
  end.
Definition LookupTLSA (e : TlsaEnv) : option (list TLSARecord) := lookupTLSARecords e.

Definition tlsaUsable (t : TLSARecord) : bool :=
  if negb (Usage t =? TLSAUsageDANETA) && negb (Usage t =? TLSAUsageDANEEE) then false
  else if negb (Selector t =? TLSASelectorFullCert) && negb (Selector t =? TLSASelectorSPKI) then false
  else (MatchingType t =? TLSAMatchingTypeFull) || (MatchingType t =? TLSAMatchingTypeSHA256) || (MatchingType t =? TLSAMatchingTypeSHA512).

Section Dane.
Context {C : Crypto} {T : TlsStd}.

Definition selected_data (selector : Z) (cert : Cert) : option gostring :=
  if selector =? TLSASelectorFullCert then Some (DER cert) else if selector =? TLSASelectorSPKI then Some (SPKI cert) else None.
Definition matched_data (matching : Z) (data : gostring) : option gostring :=
  if matching =? TLSAMatchingTypeFull then Some data
  else if matching =? TLSAMatchingTypeSHA256 then Some (sha256 data)
  else if matching =? TLSAMatchingTypeSHA512 then Some (sha512 data) else None.

Definition tlsaMatchesCert (tlsa : TLSARecord) (cert : Cert) : bool :=
  match selected_data (Selector tlsa) cert with
  | None => false
  | Some data => match matched_data (MatchingType tlsa) data with Some computed => computed =s? Certificate tlsa | None => false end
  end.

Definition validateRecord (tlsa : TLSARecord) (cert : Cert) : bool := tlsaMatchesCert tlsa cert.

Definition anchored (tlsa : TLSARecord) (domain : gostring) (chain : list Cert) (i : nat) (c : Cert) : bool :=
  tlsaMatchesCert tlsa c &&
  match i, chain with
  | O, _ => true
  | S _, leaf :: rest => Verify leaf [c] (take (i - 1) rest ++ drop i rest) (TrimSuffix domain ".")
  | _, [] => false
  end.
Definition validateTA (tlsa : TLSARecord) (domain : gostring) (chain : list Cert) : bool :=
  existsb (fun x => x) (imap (anchored tlsa domain chain) chain).

Definition validates (domain : gostring) (chain : list Cert) (leaf : Cert) (tlsa : TLSARecord) : bool :=
  tlsaUsable tlsa && (if Usage tlsa =? TLSAUsageDANETA then validateTA tlsa domain chain else validateRecord tlsa leaf).

(** The result, and whether an error comes with it. *)
Definition Validate (domain : gostring) (e : TlsaEnv) (chain : list Cert) : DANEResult * bool :=
  match LookupTLSA e with
  | None => (DANEFailed, true)
  | Some [] => (DANENone, false)
  | Some records =>
      match chain with
      | [] => (DANEFailed, true)
      | leaf :: _ =>
          if existsb (validates domain chain leaf) records then (DANEValidated, false)
          else if existsb tlsaUsable records then (DANEFailed, false) else (DANEUnusable, false)
      end
  end.
Definition ValidateMX (mxDomain : gostring) (e : TlsaEnv) (chain : list Cert) := Validate mxDomain e chain.

Inductive DNSSECStatus := DNSSECUnknown | DNSSECSecured | DNSSECInsecure | DNSSECBogus.
Definition ValidateWithDNSSEC (domain : gostring) (e : TlsaEnv) (chain : list Cert) (dnssec : DNSSECStatus) : DANEResult * bool :=
  match dnssec with DNSSECSecured => Validate domain e chain | _ => (DANENone, false) end.

Definition GenerateTLSARecord (cert : Cert) (usage selector matching : Z) : TLSARecord :=
  let data := default [] (selected_data selector cert) in
  {| Usage := usage; Selector := selector; MatchingType := matching; Certificate := default [] (matched_data matching data) |}.
End Dane.

Definition IsDANEAvailable (e : TlsaEnv) : option bool := (fun l => negb (bool_decide (l = []))) <$> LookupTLSA e.

Record DANEPolicy := { HasTLSA : bool; Usages : list Z; ValidRecords : nat }.
Definition count_usage (p : DANEPolicy) (r : TLSARecord) : DANEPolicy :=
  if (Usage r =? TLSAUsageDANETA) || (Usage r =? TLSAUsageDANEEE)
  then {| HasTLSA := HasTLSA p; Usages := if bool_decide (Usage r ∈ Usages p) then Usages p else Usages p ++ [Usage r]; ValidRecords := S (ValidRecords p) |}
  else p.
Definition DANEGetPolicy (e : TlsaEnv) : option DANEPolicy :=
  (fun l => foldl count_usage {| HasTLSA := negb (bool_decide (l = [])); Usages := []; ValidRecords := 0 |} l) <$> LookupTLSA e.

(** *** The text of a record *)
Definition TLSAString (r : TLSARecord) : gostring :=
  FormatUint (Usage r) ++ " " ++ FormatUint (Selector r) ++ " " ++ FormatUint (MatchingType r) ++ " " ++ EncodeToString (Certificate r).

(** [strings.ReplaceAll] with the empty text. *)
Definition without (c : ascii) (s : gostring) : gostring := List.filter (fun d => negb (d =c? c)) s.

Definition parseTLSAHex (hexData : gostring) : option TLSARecord :=
  match hex_decode (without ":" (without " " hexData)) with
  | Some (a :: b :: c :: data) => if bool_decide (data = []) then None
      else Some {| Usage := bz a; Selector := bz b; MatchingType := bz c; Certificate := data |}
  | _ => None
  end.

Definition parseTLSARecord (data : gostring) : option TLSARecord :=
  match Fields data with
  | usage :: selector :: matching :: (_ :: _) as rest =>
      match ParseUint usage 255, ParseUint selector 255, ParseUint matching 255, hex_decode (without ":" (without " " (concat rest))) with
      | Ok u, Ok s, Ok m, Some cert => Some {| Usage := u; Selector := s; MatchingType := m; Certificate := cert |}
      | _, _, _, _ => None
      end
  | _ => parseTLSAHex data
  end.

(** ** Properties of MTA-STS *)
Section StsProps.
Context {U : UnicodeTables}.

(** The hosts a pattern stands for: the host itself, or with a star one more label
    in front of the rest. *)
Definition host_of (name : gostring) : gostring := TrimSuffix (ToLower name) ".".
Definition covers_host (pattern mx : gostring) : Prop :=
  host_of pattern = host_of mx \/
  exists suffix label, host_of pattern = "*." ++ suffix /\ host_of mx = label ++ "." ++ suffix /\ label <> [] /\ "."%char ∉ label.

Lemma matchMX_spec pattern mx : matchMX pattern mx = true <-> covers_host pattern mx.
Proof.
  unfold matchMX, covers_host. fold (host_of pattern) (host_of mx). set (p := host_of pattern). set (h := host_of mx). case_bool_decide as E; [tauto |].
  destruct (HasPrefix p "*.") eqn:Hp.
  2: { split; [done |]. intros [? | (suffix & label & Hs & _)]; [done |]. rewrite Hs, HasPrefix_app in Hp. done. }
  apply HasPrefix_true in Hp as [suffix Hs]. rewrite Hs. change (drop 2 ("*." ++ suffix)) with suffix.
  destruct (HasSuffix h ("."%char :: suffix)) eqn:Hh; cbn [negb].
  - apply HasSuffix_true in Hh as [label Hl]. rewrite Hl, TrimSuffix_app. split.
    + intros [H1 H2]%andb_true_iff. apply negb_true_iff in H1, H2. apply bool_decide_eq_false in H1. apply ContainsByte_false in H2.
      right. by exists suffix, label.
    + intros [? | (s' & l' & Hs' & Hl' & Hne & Hdot)]; [congruence |]. apply (app_inv_head ("*." : gostring)) in Hs' as <-.
      change (label ++ ("." : gostring) ++ suffix = l' ++ ("." : gostring) ++ suffix) in Hl'. rewrite !app_assoc in Hl'. apply app_inv_tail, app_inv_tail in Hl' as ->.
      rewrite bool_decide_eq_false_2 by done. by rewrite (proj2 (ContainsByte_false l' "."%char) Hdot).
  - split; [done |]. intros [? | (s' & l' & Hs' & Hl' & _)]; [congruence |]. apply (app_inv_head ("*." : gostring)) in Hs' as <-.
    change (h = l' ++ ("."%char :: suffix)) in Hl'. rewrite Hl', HasSuffix_app in Hh. done.
Qed.

(** *** A policy file *)
Lemma parsed_policy text p : parseMTASTSPolicy text = Some p ->
  (Mode p = MTASTSModeEnforce \/ Mode p = MTASTSModeTesting \/ Mode p = MTASTSModeNone) /\ (Mode p <> MTASTSModeNone -> MX p <> []) /\
  86400 <= MaxAge p <= 31557600.
Proof.
  unfold parseMTASTSPolicy. destruct (foldl _ _ _) as [[q seen] |]; [| done]. split_if; [done |]. split_if; [done |]. split_if; [done |]. destruct (negb seen); [done |].
  intros [= <-]. cbn. split_and!; [| | lia | lia].
  - destruct (decide (Mode q = MTASTSModeEnforce)); [by left |]. destruct (decide (Mode q = MTASTSModeTesting)); [by right; left |].
    destruct (decide (Mode q = MTASTSModeNone)); [by right; right |]. by rewrite !bool_decide_eq_false_2 in E0.
  - intros Hn Hm. rewrite Hm in E1. by rewrite bool_decide_eq_false_2 in E1.
Qed.

Lemma fetched_policy e p : fetchPolicyFile e = Ok p ->
  exists ip l body, ParseIP (dialed e) = Some ip /\ isBlockedPolicyIP ip = false /\ ips e = Ok l /\ Forall (fun ip => isBlockedPolicyIP ip = false) l /\
  response e = Some (200, Some body) /\ parseMTASTSPolicy (take (Z.to_nat (64 * 1024)) body) = Some p.
Proof.
  unfold fetchPolicyFile. destruct (negb (url_ok e)); [done |]. destruct (ips e) as [l |] eqn:El; [| done]. destruct (List.find isBlockedPolicyIP l) eqn:Ef; [done |].
  destruct (ParseIP (dialed e)) as [ip |] eqn:Ei; [| done]. destruct (isBlockedPolicyIP ip) eqn:Eb; [done |]. destruct (response e) as [[code body] |] eqn:Er; [| done].
  destruct (Z.eqb_spec code 200) as [-> |]; [| done]. cbn [negb]. destruct body as [body |]; [| done]. destruct (parseMTASTSPolicy _) as [q |] eqn:Ep; [| done].
  intros [= <-]. exists ip, l, body. split_and!; try done. apply Forall_forall. intros x Hx. apply list_elem_of_In in Hx. by apply (find_none _ _ Ef).
Qed.

(** *** What stays in force *)

(** Calls that no other call overlaps. *)
Definition undisturbed (e : StsEnv) : Prop := forall v, meanwhile e v = v.
Definition calls_of (calls : list (gostring * StsEnv)) (v : MTASTSValidator) : MTASTSValidator := foldl (fun v c => snd (GetPolicy (snd c) (fst c) v)) v calls.

Definition in_force (p : MTASTSPolicy) (until : Z) (domain : gostring) (v : MTASTSValidator) : Prop :=
  exists id c, cache v !! domain = Some (id, c) /\ Policy c = Some p /\ ExpiresAt c = until.

Lemma fetch_other e d d' kept v : d <> d' -> undisturbed e -> cache (snd (fetch_and_cache e d' kept v)) !! d = cache v !! d.
Proof.
  intros Hd Hu. unfold fetch_and_cache. rewrite Hu. destruct (fetchPolicyWithID e) as [[[p id] |] | x]; destruct kept; cbn; try done; by rewrite lookup_insert_ne by congruence.
Qed.
Lemma postpone_other d d' id t v : d <> d' -> cache (postpone d' id t v) !! d = cache v !! d.
Proof.
  intros Hd. unfold postpone. destruct (cache v !! d') as [[id' cur] |]; [| done]. destruct (Nat.eqb id' id); [| done]. cbn. by rewrite lookup_insert_ne by congruence.
Qed.
Lemma GetPolicy_other e d d' v : d <> d' -> undisturbed e -> cache (snd (GetPolicy e d' v)) !! d = cache v !! d.
Proof.
  intros Hd Hu. unfold GetPolicy. destruct (cache v !! d') as [[id c] |]; [| by apply fetch_other]. destruct (now e <? ExpiresAt c); [| by apply fetch_other].
  destruct (_ || _ || _); [done |]. destruct (lookupMTASTSRecord (txt_again e)) as [[r |] |]; [destruct (RecID r =s? EntryID c); [| by apply fetch_other] | |]; cbn [snd];
    rewrite Hu; by apply postpone_other.
Qed.

Lemma postpone_force p E d id t v : in_force p E d v -> in_force p E d (postpone d id t v).
Proof.
  intros (id' & c & Hc & Hp & He). unfold postpone. rewrite Hc. destruct (Nat.eqb id' id); [| by exists id', c].
  exists id', (with_recheck t c). cbn. rewrite lookup_insert_eq. done.
Qed.

(** While the policy has not expired and no policy file is served, it stays in force
    and is the answer. *)
Lemma GetPolicy_force p E d e v : in_force p E d v -> undisturbed e -> now e < E -> (forall q, fetchPolicyFile e <> Ok q) ->
  fst (GetPolicy e d v) = Ok (Some p) /\ in_force p E d (snd (GetPolicy e d v)).
Proof.
  intros Hf Hu Hn Hq. pose proof Hf as (id & c & Hc & Hp & He). unfold GetPolicy. rewrite Hc, (proj2 (Z.ltb_lt (now e) (ExpiresAt c))) by lia. rewrite Hp.
  assert (Hfetch : fst (fetch_and_cache e d (Some p) v) = Ok (Some p) /\ in_force p E d (snd (fetch_and_cache e d (Some p) v))).
  { unfold fetch_and_cache. rewrite Hu. unfold fetchPolicyWithID. destruct (lookupMTASTSRecord (txt e)) as [[r |] |]; [| done | done]. destruct (negb _); [done |].
    destruct (fetchPolicyFile e) as [q |] eqn:Eq; [destruct (Hq q eq_refl) | done]. }
  destruct (_ || _ || _); [done |]. destruct (lookupMTASTSRecord (txt_again e)) as [[r |] |]; [destruct (RecID r =s? EntryID c); [| exact Hfetch] | |]; cbn [fst snd];
    rewrite Hu; (split; [done | by apply postpone_force]).
Qed.

Lemma calls_force p E d calls v : in_force p E d v -> (forall d' e, (d', e) ∈ calls -> undisturbed e /\ (d' = d -> now e < E /\ forall q, fetchPolicyFile e <> Ok q)) ->
  in_force p E d (calls_of calls v).
Proof.
  revert v. induction calls as [| [d' e] calls IH]; intros v Hf Hc; [done |]. cbn [calls_of foldl fst snd]. apply IH; [| intros d1 e1 H1; apply Hc; by right].
  destruct (Hc d' e) as [Hu Hd]; [by left |]. destruct (decide (d' = d)) as [-> | Hne].
  - destruct (Hd eq_refl). by apply GetPolicy_force.
  - destruct Hf as (id & c & Hcc & Hrest). exists id, c. by rewrite GetPolicy_other.
Qed.
End StsProps.


(** A policy comes only from a public address: the file is taken from a host whose
    resolved addresses and the one connected to are outside the reserved ranges, with
    status 200, and is then well formed. *)
Theorem policy_fetch_public {U : UnicodeTables} e p : fetchPolicyFile e = Ok p ->
  (exists ip, ParseIP (dialed e) = Some ip /\ isBlockedPolicyIP ip = false) /\ (exists l, ips e = Ok l /\ Forall (fun ip => isBlockedPolicyIP ip = false) l) /\
  (exists body, response e = Some (200, Some body)) /\ (Mode p <> MTASTSModeNone -> MX p <> []) /\ 86400 <= MaxAge p <= 31557600.
Proof.
  intros (ip & l & body & H1 & H2 & H3 & H4 & H5 & H6)%fetched_policy. apply parsed_policy in H6 as (_ & H7 & H8). split_and!; eauto; lia.
Qed.

(** *** The reserved ranges of IPv4, in the form of 4 and of 16 octets *)
Definition reserved_v4 (a b : Z) : bool :=
  (a =? 0) || (a =? 10) || (a =? 127) || ((a =? 100) && (64 <=? b) && (b <? 128)) || ((a =? 169) && (b =? 254)) ||
  ((a =? 172) && (16 <=? b) && (b <? 32)) || ((a =? 192) && (b =? 168)) || ((224 <=? a) && (a <? 240)).

Lemma high_nibble c v : v ∈ [16; 224] -> (Z.land (bz c) 240 =? v) = (v <=? bz c) && (bz c <? v + 16).
Proof. intros Hv. destruct c as [[] [] [] [] [] [] [] []]; repeat (apply elem_of_cons in Hv as [-> | Hv]; [vm_compute; reflexivity |]); by apply elem_of_nil in Hv. Qed.
Lemma high_two c : (Z.land (bz c) 192 =? 64) = (64 <=? bz c) && (bz c <? 128).
Proof. destruct c as [[] [] [] [] [] [] [] []]; vm_compute; reflexivity. Qed.
Lemma land_byte_00 c : land_byte c (byte_of 0) = byte_of 0.
Proof. destruct c as [[] [] [] [] [] [] [] []]; vm_compute; reflexivity. Qed.
Lemma land_byte_c0 c : bool_decide (byte_of 64 = land_byte c (byte_of 192)) = (64 <=? bz c) && (bz c <? 128).
Proof. destruct c as [[] [] [] [] [] [] [] []]; vm_compute; reflexivity. Qed.
Lemma byte_is c v : 0 <= v < 256 -> bool_decide (byte_of v = c) = (bz c =? v).
Proof.
  intros Hv. destruct (Z.eqb_spec (bz c) v) as [<- | Hne]; [by rewrite byte_of_bz, bool_decide_eq_true_2 |]. apply bool_decide_eq_false_2. intros <-. by rewrite bz_byte_of in Hne.
Qed.

Lemma cgnat_v4 ip a b c d : To4 ip = Some [a; b; c; d] -> net_contains cgnatNet ip = (bz a =? 100) && (64 <=? bz b) && (bz b <? 128).
Proof.
  intros H4. unfold net_contains. rewrite H4. change (networkNumberAndMask cgnatNet) with
    (Some ([byte_of 100; byte_of 64; byte_of 0; byte_of 0], [byte_of 255; byte_of 192; byte_of 0; byte_of 0])).
  change (Nat.eqb (length [a; b; c; d]) (length [byte_of 100; byte_of 64; byte_of 0; byte_of 0])) with true. cbn [andb]. unfold mask_bytes. cbn [zip_with].
  rewrite !land_byte_ff, !land_byte_00. change (land_byte (byte_of 64) (byte_of 192)) with (byte_of 64).
  rewrite <- (byte_is a 100) by lia. rewrite <- andb_assoc, <- land_byte_c0. destruct (decide (byte_of 100 = a)) as [<- | Hne].
  - rewrite (bool_decide_eq_true_2 (byte_of 100 = byte_of 100)) by done. cbn [andb]. apply bool_decide_ext. split; [congruence | by intros <-].
  - rewrite (bool_decide_eq_false_2 (byte_of 100 = a)) by done. cbn [andb]. apply bool_decide_eq_false_2. congruence.
Qed.

Lemma blocked_v4 ip a b c d : To4 ip = Some [a; b; c; d] -> isBlockedPolicyIP ip = reserved_v4 (bz a) (bz b).
Proof.
  intros H4. unfold isBlockedPolicyIP, IsLoopback, IsPrivate, IsLinkLocalUnicast, IsLinkLocalMulticast, IsMulticast. rewrite H4, (cgnat_v4 ip a b c d H4).
  unfold masked. change (octet [a; b; c; d] 0) with (bz a). change (octet [a; b; c; d] 1) with (bz b). change (octet [a; b; c; d] 2) with (bz c).
  rewrite !high_nibble by set_solver.
  assert (Hip : ip = [a; b; c; d] \/ ip = v4InV6Prefix ++ [a; b; c; d]).
  { unfold To4 in H4. split_if; [left; congruence |]. split_if; [| done]. apply andb_true_iff in E0 as [_ [r ->]%HasPrefix_true]. right. f_equal.
    change (drop 12 (v4InV6Prefix ++ r)) with r in H4. congruence. }
  assert (Hi : IsInterfaceLocalMulticast ip = false) by (destruct Hip as [-> | ->]; done).
  assert (Hu : IsUnspecified ip = true -> bz a = 0).
  { unfold IsUnspecified. destruct Hip as [-> | ->]; intros [Hu | Hu]%orb_true_iff; revert Hu; unfold ip_equal, IPv4zero, IPv6unspecified; cbn [length Nat.eqb andb app v4InV6Prefix repeat];
      intros Hu%bool_decide_eq_true; vm_compute in Hu; inversion Hu; reflexivity. }
  rewrite Hi. unfold reserved_v4. destruct (IsUnspecified ip).
  - rewrite (Hu eq_refl). done.
  - generalize (bz_range a) (bz_range b). lia.
Qed.

(** ** Properties of DANE *)
Section DaneProps.
Context {C : Crypto} {T : TlsStd}.

(** What a record accepts: the certificate itself, or one of the chain that the
    leaf verifies with. *)
Definition accepts (domain : gostring) (chain : list Cert) (t : TLSARecord) : Prop :=
  tlsaUsable t = true /\ exists leaf rest, chain = leaf :: rest /\
  ((Usage t = TLSAUsageDANEEE /\ tlsaMatchesCert t leaf = true) \/
    (Usage t = TLSAUsageDANETA /\ (tlsaMatchesCert t leaf = true \/
      exists i c, rest !! i = Some c /\ tlsaMatchesCert t c = true /\ Verify leaf [c] (take i rest ++ drop (S i) rest) (TrimSuffix domain ".") = true))).

Lemma validateTA_spec t domain leaf rest : validateTA t domain (leaf :: rest) = true <->
  tlsaMatchesCert t leaf = true \/
  exists i c, rest !! i = Some c /\ tlsaMatchesCert t c = true /\ Verify leaf [c] (take i rest ++ drop (S i) rest) (TrimSuffix domain ".") = true.
Proof.
  unfold validateTA. rewrite existsb_exists. setoid_rewrite <- list_elem_of_In. setoid_rewrite elem_of_lookup_imap. split.
  - intros (x & (i & c & -> & Hi) & Hx). unfold anchored in Hx. apply andb_true_iff in Hx as [Hm Hv]. destruct i as [| i]; cbn in Hi.
    + injection Hi as <-. by left.
    + right. exists i, c. cbn [Nat.sub] in Hv. rewrite Nat.sub_0_r in Hv. done.
  - intros [Hm | (i & c & Hi & Hm & Hv)].
    + exists true. split; [| done]. exists 0%nat, leaf. unfold anchored. by rewrite Hm.
    + exists true. split; [| done]. exists (S i), c. split; [| done]. unfold anchored. rewrite Hm. cbn [Nat.sub andb]. by rewrite Nat.sub_0_r, Hv.
Qed.

Lemma validates_spec domain leaf rest t : validates domain (leaf :: rest) leaf t = true <-> accepts domain (leaf :: rest) t.
Proof.
  unfold validates, accepts. rewrite andb_true_iff. split; intros [Hu Hv]; (split; [done |]).
  - exists leaf, rest. split; [done |]. destruct (Z.eqb_spec (Usage t) TLSAUsageDANETA) as [E | E]; [right; split; [done | by apply validateTA_spec] | left].
    split; [| done]. unfold tlsaUsable in Hu. destruct (Z.eqb_spec (Usage t) TLSAUsageDANEEE); [done |]. apply Z.eqb_neq in E. by rewrite E in Hu.
  - destruct Hv as (l & r & [= <- <-] & [[E Hm] | [E Hm]]); rewrite E; cbn [Z.eqb]; [exact Hm | by apply validateTA_spec].
Qed.
End DaneProps.

(** A session is validated exactly when a TLSA record with usable parameters
    accepts the certificates of the server: the leaf itself, or for a trust anchor a
    certificate the leaf verifies with for the host; when there are usable records and
    none accepts, or the lookup fails, or the server shows no certificate, validation fails. *)
Lemma dane_validate_exact {C : Crypto} {T : TlsStd} domain e chain :
  (fst (Validate domain e chain) = DANEValidated <-> exists records, LookupTLSA e = Some records /\ Exists (accepts domain chain) records) /\
  (fst (Validate domain e chain) = DANEFailed <-> LookupTLSA e = None \/
     exists records, LookupTLSA e = Some records /\ ~ Exists (accepts domain chain) records /\ (chain = [] /\ records <> [] \/ Exists (fun t => tlsaUsable t = true) records)).
Proof.
  assert (Hok : forall l, (exists records, Some l = Some records /\ Exists (accepts domain chain) records) <-> Exists (accepts domain chain) l).
  { intros l. split; [by intros (r & [= <-] & Hx) | by exists l]. }
  unfold Validate. destruct (LookupTLSA e) as [[| t l] |].
  - rewrite Hok. split; (split; [done |]); intros Hx; exfalso; [by apply Exists_nil in Hx |].
    destruct Hx as [? | (r & [= <-] & _ & [[_ ?] | Hx])]; [done | done | by apply Exists_nil in Hx].
  - rewrite Hok. destruct chain as [| leaf rest].
    { assert (Hno : ~ Exists (accepts domain []) (t :: l)) by (rewrite Exists_exists; intros (x & _ & _ & lf & r & [=] & _)).
      split; split; try done. intros _. right. exists (t :: l). split_and!; [done | done | by left]. }
    assert (Hv : existsb (validates domain (leaf :: rest) leaf) (t :: l) = true <-> Exists (accepts domain (leaf :: rest)) (t :: l)).
    { rewrite existsb_exists, Exists_exists. setoid_rewrite <- list_elem_of_In. by setoid_rewrite validates_spec. }
    assert (Hu : existsb tlsaUsable (t :: l) = true <-> Exists (fun t => tlsaUsable t = true) (t :: l)).
    { rewrite existsb_exists, Exists_exists. by setoid_rewrite <- list_elem_of_In. }
    rewrite <- Hv. destruct (existsb (validates _ _ _) (t :: l)); [split; [done |]; split; [done |] |].
    + intros [? | (r & [= <-] & Hn & _)]; [done |]. by destruct Hn; apply Hv.
    + assert (Hn : ~ Exists (accepts domain (leaf :: rest)) (t :: l)) by (rewrite <- Hv; done).
      destruct (existsb tlsaUsable (t :: l)); (split; [done |]); (split; [| try done]).
      * intros _. right. exists (t :: l). split_and!; [done | done | right; by apply Hu].
      * done.
      * intros [? | (r & [= <-] & _ & [[? _] | Hx])]; [done | done |]. by apply Hu in Hx.
  - split; split; try done; [intros (r & [=] & _) | by left].
Qed.

(** With a usable record a session is validated or refused. *)
Lemma validate_usable {C : Crypto} {T : TlsStd} domain e chain records : LookupTLSA e = Some records -> Exists (fun t => tlsaUsable t = true) records ->
  fst (Validate domain e chain) = DANEValidated \/ fst (Validate domain e chain) = DANEFailed.
Proof.
  intros Hl Hu. unfold Validate. rewrite Hl. destruct records as [| t l]; [by apply Exists_nil in Hu |]. destruct chain as [| leaf rest]; [by right |].
  destruct (existsb (validates _ _ _) _); [by left |]. replace (existsb tlsaUsable (t :: l)) with true; [by right |]. symmetry. apply existsb_exists.
  apply Exists_exists in Hu as (x & Hx & Hxu). exists x. split; [by apply list_elem_of_In | done].
Qed.

(** *** Generated records *)
Lemma generated_matches {C : Crypto} {T : TlsStd} cert usage selector matching : tlsaUsable (GenerateTLSARecord cert usage selector matching) = true ->
  tlsaMatchesCert (GenerateTLSARecord cert usage selector matching) cert = true.
Proof.
  unfold tlsaUsable, tlsaMatchesCert, GenerateTLSARecord. cbn [Usage Selector MatchingType Certificate]. split_if; [done |]. split_if; [done |]. intros Hm.
  unfold selected_data. destruct (selector =? TLSASelectorFullCert); [| destruct (selector =? TLSASelectorSPKI); [| done]]; cbn [default];
    unfold matched_data; (destruct (matching =? TLSAMatchingTypeFull); [| destruct (matching =? TLSAMatchingTypeSHA256); [| destruct (matching =? TLSAMatchingTypeSHA512); [| done]]]);
    cbn [default]; by apply bool_decide_eq_true_2.
Qed.

(** *** The text of a record *)
Lemma hex_val_digit n : 0 <= n < 16 -> hex_val (hex_digit n) = Some n.
Proof.
  intros Hn. unfold hex_digit, hex_val, is_digit, in_range. destruct (Z.ltb_spec n 10); rewrite bz_byte_of by lia.
  - replace ((48 <=? 48 + n) && (48 + n <=? 57)) with true by lia. f_equal. lia.
  - replace ((48 <=? 87 + n) && (87 + n <=? 57)) with false by lia. replace ((97 <=? 87 + n) && (87 + n <=? 102)) with true by lia. f_equal. lia.
Qed.
Lemma hex_decode_encode s : hex_decode (EncodeToString s) = Some s.
Proof.
  induction s as [| c s IH]; [done |]. unfold EncodeToString in *. cbn [map concat app hex_decode]. pose proof (bz_range c).
  rewrite (hex_val_digit (bz c / 16)) by (split; [apply Z.div_pos | apply Z.div_lt_upper_bound]; lia). rewrite (hex_val_digit (bz c mod 16)) by (by apply Z.mod_pos_bound). cbn [mbind option_bind]. rewrite IH. cbn [mbind option_bind].
  by rewrite <- Z_div_mod_eq_full, byte_of_bz.
Qed.

Definition solid (c : ascii) : bool := in_range 33 126 c.
Lemma fields_word w cur s n : forallb solid w = true -> (length w <= n)%nat -> fields_go n cur (w ++ s) = fields_go (n - length w) (rev w ++ cur) s.
Proof.
  revert cur n. induction w as [| c w IH]; intros cur n Hw Hn; [cbn; by rewrite Nat.sub_0_r |]. cbn [forallb] in Hw. apply andb_true_iff in Hw as [Hc Hw].
  destruct n as [| n]; [cbn in Hn; lia |]. cbn [app fields_go length Nat.sub]. unfold solid, in_range in Hc.
  rewrite decode_ascii by (unfold is_ascii; lia). replace (is_space_rune (bz c)) with false by (unfold is_space_rune; lia). cbn [take drop rev app].
  rewrite IH; [| done | cbn in Hn; lia]. rewrite take_0. cbn [rev app]. by rewrite <- app_assoc.
Qed.
Lemma fields_last w cur n : (length w <= n)%nat -> forallb solid w = true -> rev w ++ cur <> [] -> fields_go n cur w = [rev cur ++ w].
Proof.
  intros Hn Hw Hne. rewrite <- (app_nil_r w) at 1. rewrite fields_word by done. destruct (rev w ++ cur) as [| x l] eqn:E; [done |].
  assert (Hr : rev (x :: l) = rev cur ++ w) by (by rewrite <- E, rev_app_distr, rev_involutive). destruct (n - length w)%nat; cbn [fields_go]; by rewrite Hr.
Qed.
Lemma fields_next w s n : (length w < n)%nat -> forallb solid w = true -> w <> [] -> fields_go n [] (w ++ " "%char :: s) = w :: fields_go (n - length w - 1) [] s.
Proof.
  intros Hn Hw Hne. rewrite fields_word by (done || lia). rewrite app_nil_r. destruct (n - length w)%nat as [| k] eqn:Ek; [lia |]. cbn [fields_go].
  rewrite decode_ascii by done. change (is_space_rune (bz " ")) with true. cbv iota. destruct (rev w) as [| x l] eqn:E; [by apply (f_equal (@rev ascii)) in E; rewrite rev_involutive in E |].
  rewrite <- E, rev_involutive. cbn [drop Nat.sub]. by rewrite Nat.sub_0_r.
Qed.

Lemma solid_digits n : 0 <= n -> forallb solid (FormatUint n) = true.
Proof. intros Hn. apply forallb_forall. intros c Hc. pose proof (FormatUint_digits n Hn) as Hd. rewrite forallb_forall in Hd. apply Hd in Hc. unfold solid, is_digit, in_range in *. lia. Qed.
Lemma solid_hex s : forallb solid (EncodeToString s) = true.
Proof. apply forallb_forall. intros c Hc. pose proof (proj2 (encode_hex s)) as Hh. rewrite forallb_forall in Hh. apply Hh in Hc. unfold solid, is_hex, is_digit, in_range in *. lia. Qed.

Lemma without_none c s : (c ∉ s) -> without c s = s.
Proof.
  unfold without. induction s as [| d s IH]; intros Hc; [done |]. apply not_elem_of_cons in Hc as [H1 H2]. cbn [List.filter]. destruct (Ascii.eqb_spec d c) as [-> |]; [done |].
  cbn [negb]. by rewrite IH.
Qed.
Lemma hex_lacks c s : is_hex c = false -> c ∉ EncodeToString s.
Proof. intros Hc Hin. pose proof (proj2 (encode_hex s)) as Hh. rewrite forallb_forall in Hh. apply list_elem_of_In in Hin. rewrite (Hh _ Hin) in Hc. done. Qed.

(** The text of a TLSA record is read back as the record. *)
Theorem tlsa_print_parse r : 0 <= Usage r <= 255 -> 0 <= Selector r <= 255 -> 0 <= MatchingType r <= 255 -> Certificate r <> [] -> parseTLSARecord (TLSAString r) = Some r.
Proof.
  intros Hu Hs Hm Hc. unfold parseTLSARecord.
  assert (Hf : Fields (TLSAString r) = [FormatUint (Usage r); FormatUint (Selector r); FormatUint (MatchingType r); EncodeToString (Certificate r)]).
  { unfold Fields, TLSAString. set (a := FormatUint (Usage r)). set (b := FormatUint (Selector r)). set (m := FormatUint (MatchingType r)). set (h := EncodeToString (Certificate r)).
    change (fields_go (length (a ++ " "%char :: b ++ " "%char :: m ++ " "%char :: h)) [] (a ++ " "%char :: b ++ " "%char :: m ++ " "%char :: h) = [a; b; m; h]).
    repeat (rewrite ?length_app; cbn [length]).
    rewrite fields_next by (try (apply solid_digits; lia); try apply FormatUint_nonempty; lia). f_equal.
    rewrite fields_next by (try (apply solid_digits; lia); try apply FormatUint_nonempty; lia). f_equal.
    rewrite fields_next by (try (apply solid_digits; lia); try apply FormatUint_nonempty; lia). f_equal.
    rewrite fields_last; [done | lia | apply solid_hex |]. rewrite app_nil_r. intros E. apply (f_equal length) in E. rewrite length_rev in E. unfold h in E.
    rewrite (proj1 (encode_hex (Certificate r))) in E. destruct (Certificate r); [done | cbn in E; lia]. }
  rewrite Hf, !ParseUint_FormatUint by lia. cbn [concat]. rewrite app_nil_r, !(without_none _ (EncodeToString _)) by (by apply hex_lacks). rewrite hex_decode_encode.
  by destruct r.
Qed.

(** ** At concrete inputs *)
Section StsExamples.
#[local] Existing Instance ascii_tables.

Definition sts_file : gostring := "version: STSv1" ++ [LF] ++ "mode: enforce" ++ [LF] ++ "mx: *.mail.example" ++ [LF] ++ "max_age: 604800".
Definition sts_env (t : Z) (records : list gostring) (reachable : bool) : StsEnv := {|
  now := t; txt_again := Ok records; txt := Ok records; url_ok := true; ips := Ok [[byte_of 192; byte_of 0; byte_of 2; byte_of 1]]; dialed := "192.0.2.1";
  response := if reachable then Some (200, Some sts_file) else None; meanwhile := fun v => v |}.
Definition sts_policy : MTASTSPolicy := {| Version := "STSv1"; Mode := "enforce"; MX := ["*.mail.example" : gostring]; MaxAge := 604800; Raw := sts_file |}.

(** The policy is fetched once; blocked or empty answers leave it in force. *)
Abbreviation sts_cached := (snd (GetPolicy (sts_env 0 ["v=STSv1; id=1" : gostring] true) "example.org" NewMTASTSValidator)).
Abbreviation sts_attacks := [("example.org" : gostring, sts_env (2 * hour) [] false); ("example.org" : gostring, sts_env (4 * hour) ["v=STSv1; id=2" : gostring] false)].


(** Overlapping calls: a first lookup that finds no record ends after a second one has
    fetched the policy, and its empty entry takes the place of the policy. *)
Definition sts_slow : StsEnv := {|
  now := 0; txt_again := Ok []; txt := Ok []; url_ok := true; ips := Ok []; dialed := []; response := None;
  meanwhile := fun v => snd (GetPolicy (sts_env 0 ["v=STSv1; id=1" : gostring] true) "example.org" v) |}.
Example overlap_downgrades :
  (fst (GetPolicy (sts_env 1 [] false) "example.org" sts_cached), fst (GetPolicy (sts_env 1 [] false) "example.org" (snd (GetPolicy sts_slow "example.org" NewMTASTSValidator)))) =
  (Ok (Some sts_policy), Ok None).
Proof. vm_compute. reflexivity. Qed.

Lemma policy_fetch_public_witness : exists ip, ParseIP "192.0.2.1" = Some ip /\ isBlockedPolicyIP ip = false.
Proof. exact (proj1 (policy_fetch_public (sts_env 0 [] true) sts_policy ltac:(vm_compute; reflexivity))). Defined.

Lemma tlsa_print_parse_witness : parseTLSARecord (TLSAString {| Usage := 3; Selector := 1; MatchingType := 1; Certificate := "ab" |}) =
  Some {| Usage := 3; Selector := 1; MatchingType := 1; Certificate := "ab" |}.
Proof. apply tlsa_print_parse; cbn; [lia | lia | lia | discriminate]. Defined.
End StsExamples.
