(* ===== verification/Outbound.v ===== *)
(** * internal/queue: the dialogue with a remote host

    manager.go from the choice of a connection to the end of DATA: the pool of idle
    connections per host, the circuit breaker per host, the TLS policies (MTA-STS,
    DANE and a required TLS), STARTTLS, the DKIM signature and the SMTP transaction.
    Every call that leaves the server is numbered and [out] has its answer.  The
    command log [sent] has each command with the TLS session it was sent in.
    crypto/tls is modelled by what it documents: a handshake that verifies certificates
    succeeds only with a chain to the roots for the server name, and one that does
    not verify leaves no verified chain.  One delivery at a time; panics of the
    SMTP library, tracing and logs are left out. *)
From S2P Require Import Prelude GoLib Utf8 Base64 Bolt GoNet Scram CircuitBreaker SmtpData BlobStore Spf Dkim Accounts Routing Dsn Queue TlsPolicy.

(** A TLS session: the certificates of the peer, and whether a chain was verified. *)
Record Session := { peers : list Cert; chains : bool }.
(** A connection: its session, and the SIZE parameter the host announced. *)
Record Client := { session : option Session; size_param : option gostring }.

Inductive smtp_error := ReplyError (code : Z) (text : gostring) | IOError (text : gostring).
(** STARTTLS: refused by a reply, a handshake that fails, a handshake with these
    certificates, and one after which the host refuses EHLO. *)
Inductive tls_answer :=
| TLSRefused (code : Z) (text : gostring)
| TLSBroken
| TLSDone (certs : list Cert)
| TLSNoHello (certs : list Cert) (code : Z) (text : gostring).

(** Why a delivery to a host failed. *)
Inductive mx_error :=
| PolicyRefused (text : gostring)
| PermanentReply (e : smtp_error)
| Failed (e : smtp_error).

Inductive command := MAIL (from : gostring) | RCPT (to : gostring) | DATA | CONTENT (message : gostring).
Record Sent := { to_host : gostring; in_session : option Session; what : command }.

(** The answer to a call: the clock, success, a refusal, a handshake, DNS. *)
Record NetAnswer := {
  a_now : Z; a_ok : bool; a_reply : option smtp_error; a_tls : tls_answer; a_size : option gostring; a_sts : StsEnv; a_tlsa : TlsaEnv; a_secure : bool; a_unix : Z
}.

Record Outbound := {
  pools : gmap gostring (list (Client * Z));
  mxBreakers : gmap gostring CircuitBreaker;
  tlsrptFailures : gmap gostring Z;
  mtasts : MTASTSValidator;
  sent : list Sent;
  asked : nat
}.
Definition with_pool (mx : gostring) (l : list (Client * Z)) (w : Outbound) : Outbound := {|
  pools := <[mx := l]> (pools w); mxBreakers := mxBreakers w; tlsrptFailures := tlsrptFailures w; mtasts := mtasts w; sent := sent w; asked := asked w |}.
Definition with_breaker (mx : gostring) cb (w : Outbound) : Outbound := {|
  pools := pools w; mxBreakers := <[mx := cb]> (mxBreakers w); tlsrptFailures := tlsrptFailures w; mtasts := mtasts w; sent := sent w; asked := asked w |}.
Definition with_failures f (w : Outbound) : Outbound := {|
  pools := pools w; mxBreakers := mxBreakers w; tlsrptFailures := f (tlsrptFailures w); mtasts := mtasts w; sent := sent w; asked := asked w |}.
Definition with_mtasts v (w : Outbound) : Outbound := {|
  pools := pools w; mxBreakers := mxBreakers w; tlsrptFailures := tlsrptFailures w; mtasts := v; sent := sent w; asked := asked w |}.
Definition log (e : Sent) (w : Outbound) : Outbound := {|
  pools := pools w; mxBreakers := mxBreakers w; tlsrptFailures := tlsrptFailures w; mtasts := mtasts w; sent := sent w ++ [e]; asked := asked w |}.
Definition asking (w : Outbound) : Outbound := {|
  pools := pools w; mxBreakers := mxBreakers w; tlsrptFailures := tlsrptFailures w; mtasts := mtasts w; sent := sent w; asked := S (asked w) |}.

(** What the operator configured; [mtastsValidator] and [daneValidator] may be absent,
    [daneSecure] says whether the hook is installed. *)
Record Settings := {
  requireTLS : bool; mtastsValidator : bool; daneValidator : bool; daneSecure : bool; mxPoolSize : nat; mxIdleTimeout : Z;
  mxBreaker : option CircuitBreaker.Config; tlsRootCAs : list Cert
}.

Section Outbound.
Context {U : UnicodeTables} {N : NetMail} {H : MailHeader} {C : Crypto} {T : TlsStd}.
Context (cfg : Settings) (out : nat -> NetAnswer).
(** The database, if there is one, the parsing of a PEM key (algorithm and signature),
    and the order in which Go walks a header map. *)
Context (db : option DB) (parseDKIMKey : gostring -> option (gostring * (gostring -> option gostring))) (iter : headerMap -> list (gostring * list gostring)).
Implicit Types w : Outbound.

Definition ask w : NetAnswer * Outbound := (out (asked w), asking w).

(** ** Signing *)
Definition headers_of (message : gostring) : headerMap := match ReadHeader message with Some h => list_to_map h | None => ∅ end.
Definition parseMessageHeaders := headers_of.
Definition extractMessageBody (message : gostring) : gostring :=
  match Index message (CRLF ++ CRLF) with
  | Some idx => drop (idx + 4) message
  | None => match Index message [LF; LF] with Some idx => drop (idx + 2) message | None => [] end
  end.
Definition fromHeaderDomain (message : gostring) : gostring :=
  match parseMessageHeaders message !! ("From" : gostring) with
  | Some (v :: _) => match ParseAddress v with Some a => extractDomain a | None => [] end
  | _ => []
  end.

Definition signAs (unix : Z) (signDomain selector keyPEM message : gostring) : option gostring :=
  match parseDKIMKey keyPEM with
  | None => None
  | Some (algorithm, sign) =>
      let headers := parseMessageHeaders message in
      if bool_decide (headers = ∅) then None else
      let signer := {| sg_domain := signDomain; sg_selector := selector; sg_algorithm := algorithm; sg_sign := sign |} in
      match Sign iter signer unix headers (extractMessageBody message) with
      | Some signature => Some ("DKIM-Signature: " ++ signature ++ CRLF ++ message)
      | None => None
      end
  end.

Definition signing_domains (from message : gostring) : list gostring :=
  let envDomain := extractDomain from in
  let hd := fromHeaderDomain message in
  let candidates := if bool_decide (hd = []) then [] else [hd] in
  if negb (bool_decide (envDomain = [])) && negb (existsb (fun c => EqualFold c envDomain) candidates) then candidates ++ [envDomain] else candidates.

Fixpoint sign_first (unix : Z) (d : DB) (domains : list gostring) (message : gostring) : option gostring :=
  match domains with
  | [] => None
  | x :: domains =>
      match GetDomain (ToLower x) d with
      | Err _ => sign_first unix d domains message
      | Ok data =>
          if bool_decide (DKIMPrivateKey data = []) || bool_decide (DKIMSelector data = []) then sign_first unix d domains message else
          match signAs unix (ToLower x) (DKIMSelector data) (DKIMPrivateKey data) message with
          | Some signed => Some signed
          | None => sign_first unix d domains message
          end
      end
  end.

Definition signWithDKIM (unix : Z) (from message : gostring) : option gostring :=
  match db with
  | None => None
  | Some d => let message := prepareOutbound message in sign_first unix d (signing_domains from message) message
  end.

(** ** Connections *)
Definition tlsUnverified (c : Client) : bool := match session c with Some s => negb (chains s) | None => false end.

(** The newest connection that is not idle for too long and answers RSET; with
    [strict] not one with an unverified session.  The list is the pool from its end. *)
Fixpoint take_conn (strict : bool) (t : Z) (l : list (Client * Z)) w : option Client * list (Client * Z) * Outbound :=
  match l with
  | [] => (None, [], w)
  | (c, lastUsed) :: l =>
      if mxIdleTimeout cfg <? time_sub t lastUsed then take_conn strict t l w else
      let '(o, w) := ask w in
      if negb (a_ok o) then take_conn strict t l w
      else if strict && tlsUnverified c then let '(o, w) := ask w in take_conn strict (a_now o) l w
      else (Some c, l, w)
  end.

Definition acquireMXConn (strict : bool) (mx : gostring) w : option Client * Outbound :=
  let '(o, w) := ask w in
  let '(c, l, w) := take_conn strict (a_now o) (rev (default [] (pools w !! mx))) w in
  (c, with_pool mx (rev l) w).

Definition createMXConn w : option Client * Outbound :=
  let '(o, w) := ask w in (if a_ok o then Some {| session := None; size_param := a_size o |} else None, w).

Definition releaseMXConn (mx : gostring) (c : Client) (valid : bool) w : Outbound :=
  let pool := default [] (pools w !! mx) in
  if negb valid then w
  else let '(o, w) := ask w in if (length pool <? mxPoolSize cfg)%nat then with_pool mx (pool ++ [(c, a_now o)]) w else w.

Definition withMXConnPolicy (mx : gostring) (strict : bool) (fn : Client -> Outbound -> option mx_error * Client * Outbound) w : option mx_error * Outbound :=
  let '(got, w) := acquireMXConn strict mx w in
  let '(client, w) :=
  match got with
  | Some c => let '(o, w) := ask w in if a_ok o then (Some c, w) else createMXConn w
  | None => createMXConn w
  end in
  match client with
  | None => (Some (Failed (IOError "dial")), w)
  | Some c => let '(err, c, w) := fn c w in (err, releaseMXConn mx c (bool_decide (err = None)) w)
  end.

(** ** TLS *)
Definition recordTLSFailure (domain resultType : gostring) w : Outbound :=
  let key := domain ++ "|" ++ resultType in with_failures (fun m => <[key := default 0 (m !! key) + 1]> m) w.

Definition verifyPeerForHost (certs : list Cert) (host : gostring) : bool :=
  match certs with leaf :: rest => Verify leaf (tlsRootCAs cfg) rest host | [] => false end.

(** A handshake with the host, verified or not; the capabilities are asked for again. *)
Definition handshake (mx : gostring) (insecure : bool) (certs : list Cert) : option Session :=
  if insecure then Some {| peers := certs; chains := false |}
  else if verifyPeerForHost certs mx then Some {| peers := certs; chains := true |} else None.

Definition StartTLS (mx : gostring) (insecure : bool) (c : Client) w : option smtp_error * Client * Outbound :=
  let '(o, w) := ask w in
  match a_tls o with
  | TLSRefused code text => (Some (ReplyError code text), c, w)
  | TLSBroken => (Some (IOError "handshake"), c, w)
  | TLSDone certs =>
      match handshake mx insecure certs with
      | Some s => (None, {| session := Some s; size_param := a_size o |}, w)
      | None => (Some (IOError "certificate"), c, w)
      end
  | TLSNoHello certs code text =>
      match handshake mx insecure certs with
      | Some s => (Some (ReplyError code text), {| session := Some s; size_param := size_param c |}, w)
      | None => (Some (IOError "certificate"), c, w)
      end
  end.

Definition daneRequired w : bool * Outbound :=
  if negb (daneValidator cfg) then (false, w)
  else if negb (daneSecure cfg) then (false, w) else
  let '(o, w) := ask w in
  if negb (a_secure o) then (false, w) else
  let '(o, w) := ask w in
  (match LookupTLSA (a_tlsa o) with Some l => negb (bool_decide (l = [])) | None => false end, w).

(** [true]: the session is refused. *)
Definition checkDANE (mx : gostring) (certs : list Cert) w : bool * Outbound :=
  if negb (daneValidator cfg) then (false, w) else
  let '(o, w) := ask w in
  match LookupTLSA (a_tlsa o) with
  | None | Some [] => (false, w)
  | Some _ =>
      if negb (daneSecure cfg) then (false, w) else
      let '(o, w) := ask w in
      if negb (a_secure o) then (false, w) else
      let '(o, w) := ask w in
      match fst (ValidateWithDNSSEC mx (a_tlsa o) certs DNSSECSecured) with
      | DANEFailed => (true, recordTLSFailure mx "tlsa-invalid" w)
      | _ => (false, w)
      end
  end.

(** ** The transaction *)
Definition permanent (e : smtp_error) : bool := match e with ReplyError code _ => permanent_code code | IOError _ => false end.
Definition classifySMTPReply (e : smtp_error) : mx_error := if permanent e then PermanentReply e else Failed e.

(** A command and the answer to it. *)
Definition issue (mx : gostring) (c : Client) (x : command) w : option mx_error * Outbound :=
  let '(o, w) := ask (log {| to_host := mx; in_session := session c; what := x |} w) in (classifySMTPReply <$> a_reply o, w).

Definition too_large (c : Client) (message : gostring) : bool :=
  match size_param c with
  | Some param => match ParseInt (TrimSpace param) with Ok limit => (0 <? limit) && (limit <? Z.of_nat (length message)) | Err _ => false end
  | None => false
  end.

Definition transaction (mx from to message : gostring) (c : Client) w : option mx_error * Outbound :=
  match issue mx c (MAIL from) w with
  | (Some e, w) => (Some e, w)
  | (None, w) =>
      match issue mx c (RCPT to) w with
      | (Some e, w) => (Some e, w)
      | (None, w) =>
          if too_large c message then (Some (PermanentReply (ReplyError 552 ("5.3.4 message size exceeds remote limit of " ++ default [] (size_param c) ++ " bytes"))), w) else
          match issue mx c DATA w with
          | (Some e, w) => (Some e, w)
          | (None, w) => issue mx c (CONTENT message) w
          end
      end
  end.

(** STARTTLS, unless the connection has TLS, and what follows from its failure. *)
Definition secure_or_fail (mx domain : gostring) (enforceTLS testingMode : bool) (c : Client) w : option mx_error * Client * Outbound :=
  let '(tlsErr, c, w) :=
  match session c with
  | Some _ => (None, c, w)
  | None => StartTLS mx (negb (requireTLS cfg) && negb enforceTLS) c w
  end in
  match tlsErr with
  | Some e =>
      if requireTLS cfg || enforceTLS then
      (Some (PolicyRefused "STARTTLS required but failed"), c, if enforceTLS then recordTLSFailure domain "starttls-not-supported" w else w)
      else
      let w := if testingMode then recordTLSFailure domain "starttls-not-supported" w else w in
      let '(required, w) := daneRequired w in
      if required then (Some (PolicyRefused "DANE requires TLS but STARTTLS failed"), c, recordTLSFailure mx "starttls-not-supported" w)
      else match e with
      | ReplyError _ _ => (None, c, w)
      | IOError _ => (Some (Failed (IOError "STARTTLS handshake failed")), c, w)
      end
  | None =>
      match session c with
      | None => (None, c, w)
      | Some s =>
          let w := if testingMode && negb (chains s) && negb (verifyPeerForHost (peers s) mx) then recordTLSFailure domain "certificate-not-trusted" w else w in
          let '(refused, w) := checkDANE mx (peers s) w in
          (if refused then Some (PolicyRefused "DANE validation failed") else None, c, w)
      end
  end.

Definition dialogue (mx domain from to message : gostring) (enforceTLS testingMode : bool) (c : Client) w : option mx_error * Client * Outbound :=
  match secure_or_fail mx domain enforceTLS testingMode c w with
  | (Some e, c, w) => (Some e, c, w)
  | (None, c, w) => let '(err, w) := transaction mx from to message c w in (err, c, w)
  end.

(** The policy of the recipient's domain: an error, a refusal of the host, or the mode. *)
Definition mode_of (policy : option MTASTSPolicy) : gostring := match policy with Some p => Mode p | None => [] end.

Definition check_sts (domain mx : gostring) w : bool * gostring * Outbound :=
  if negb (mtastsValidator cfg) || bool_decide (domain = []) then (true, [], w) else
  let '(o, w) := ask w in
  match CheckPolicy (a_sts o) domain mx (mtasts w) with
  | (Err _, v) => (true, [], with_mtasts v w)
  | (Ok (allowed, policy), v) => (allowed, mode_of policy, with_mtasts v w)
  end.

Definition doDeliverToMX (from to message mx : gostring) w : option mx_error * Outbound :=
  let domain := extractDomain to in
  let '(allowed, mode, w) := check_sts domain mx w in
  let enforceTLS := mode =s? MTASTSModeEnforce in
  let testingMode := mode =s? MTASTSModeTesting in
  if enforceTLS && negb allowed then (Some (PolicyRefused "MTA-STS policy violation"), recordTLSFailure domain "sts-policy-invalid" w) else
  let w := if testingMode && negb allowed then recordTLSFailure domain "sts-policy-invalid" w else w in
  let message := prepareOutbound message in
  let '(o, w) := ask w in
  let message := default message (signWithDKIM (a_unix o) from message) in
  withMXConnPolicy mx (requireTLS cfg || enforceTLS) (dialogue mx domain from to message enforceTLS testingMode) w.

(** ** The circuit breaker of the host *)
Definition mxBreakerFor (c : CircuitBreaker.Config) (mx : gostring) w : CircuitBreaker := default (New c) (mxBreakers w !! mx).

Inductive host_error := CircuitOpen | HostError (e : mx_error).

(** A refusal by policy or a final reply does not count against the host. *)
Definition deliverToMX (from to message mx : gostring) w : option host_error * Outbound :=
  match mxBreaker cfg with
  | None => let '(err, w) := doDeliverToMX from to message mx w in (HostError <$> err, w)
  | Some c =>
      let cb := mxBreakerFor c mx w in
      let '(o, w) := ask w in
      let '((ok, gen), cb) := allow (a_now o) cb in
      let w := with_breaker mx cb w in
      if negb ok then (Some CircuitOpen, w) else
      let '(err, w) := doDeliverToMX from to message mx w in
      let '(o, w) := ask w in
      let cb := default cb (mxBreakers w !! mx) in
      match err with
      | Some (Failed e) => (Some (HostError (Failed e)), with_breaker mx (recordFailure (a_now o) gen true cb) w)
      | _ => (HostError <$> err, with_breaker mx (recordSuccess gen true cb) w)
      end
  end.
End Outbound.

(** ** Properties *)
Section OutboundProps.
Context {U : UnicodeTables} {N : NetMail} {H : MailHeader} {C : Crypto} {T : TlsStd}.
Context (cfg : Settings) (out : nat -> NetAnswer).
Context (db : option DB) (parseDKIMKey : gostring -> option (gostring * (gostring -> option gostring))) (iter : headerMap -> list (gostring * list gostring)).
Implicit Types w : Outbound.

(** A session with a verified chain was verified for the host. *)
Definition client_ok (mx : gostring) (c : Client) : Prop := forall s, session c = Some s -> chains s = true -> verifyPeerForHost cfg (peers s) mx = true.
Definition pool_ok w : Prop := forall mx l c t, pools w !! mx = Some l -> (c, t) ∈ l -> client_ok mx c.

(** A session authenticated for the host. *)
Definition authenticated (mx : gostring) (c : Client) : Prop := exists s, session c = Some s /\ verifyPeerForHost cfg (peers s) mx = true.

(** A step that sends nothing and leaves the pools alone. *)
Definition quiet w w' : Prop := pools w' = pools w /\ sent w' = sent w.
Lemma quiet_refl w : quiet w w.
Proof. done. Qed.
Lemma quiet_trans a b c : quiet a b -> quiet b c -> quiet a c.
Proof. intros [A1 A2] [B1 B2]. split; congruence. Qed.
Lemma quiet_asking w : quiet w (asking w).
Proof. done. Qed.
Lemma quiet_pool w w' : quiet w w' -> pool_ok w -> pool_ok w'.
Proof. intros [Hp _] Hw mx l c t. rewrite Hp. apply Hw. Qed.

Lemma take_conn_spec strict t l w : let '(c, l', w') := take_conn cfg out strict t l w in
  quiet w w' /\ (forall x, x ∈ l' -> x ∈ l) /\ (forall c', c = Some c' -> (exists u, (c', u) ∈ l) /\ (strict = true -> tlsUnverified c' = false)).
Proof.
  revert t w. induction l as [| [c u] l IH]; intros t w; cbn [take_conn]; [by split_and!|].
  assert (Hgo : forall t1 w1, quiet w w1 -> let '(c0, l', w') := take_conn cfg out strict t1 l w1 in
    quiet w w' /\ (forall x, x ∈ l' -> x ∈ (c, u) :: l) /\ (forall c', c0 = Some c' -> (exists u0, (c', u0) ∈ (c, u) :: l) /\ (strict = true -> tlsUnverified c' = false))).
  { intros t1 w1 Hq. specialize (IH t1 w1). destruct (take_conn _ _ _ _ _ _) as [[c0 l'] w']. destruct IH as (H1 & H2 & H3). split_and!.
    - by eapply quiet_trans.
    - intros x Hx. right. by apply H2.
    - intros c' Hc. destruct (H3 c' Hc) as [[u0 Hu] Hs]. split; [exists u0; by right | done]. }
  destruct (mxIdleTimeout cfg <? time_sub t u); [by apply Hgo |]. unfold ask. destruct (a_ok _); cbn [negb]; [| by apply Hgo].
  destruct (strict && tlsUnverified c) eqn:Es; [by apply Hgo |]. split_and!; [done | intros x Hx; by right |].
  intros c' [= <-]. split; [exists u; by left |]. intros ->. by cbn in Es.
Qed.

Lemma with_pool_ok mx l w : pool_ok w -> (forall c t, (c, t) ∈ l -> client_ok mx c) -> pool_ok (with_pool mx l w).
Proof.
  intros Hw Hl mx' l' c t. cbn. intros [[<- <-] | [_ Hp]]%lookup_insert_Some Hin; [by apply (Hl c t) | by apply (Hw mx' l' c t)].
Qed.

Lemma acquire_spec strict mx w : pool_ok w -> let '(c, w') := acquireMXConn cfg out strict mx w in
  pool_ok w' /\ sent w' = sent w /\ (forall c', c = Some c' -> client_ok mx c' /\ (strict = true -> tlsUnverified c' = false)).
Proof.
  intros Hw. unfold acquireMXConn, ask. change (pools (asking w)) with (pools w). set (l := rev (default [] (pools w !! mx))).
  pose proof (take_conn_spec strict (a_now (out (asked w))) l (asking w)) as Ht. destruct (take_conn _ _ _ _ l (asking w)) as [[c l'] w']. destruct Ht as (Hq & Hl & Hc).
  assert (Hin : forall c t, (c, t) ∈ l -> client_ok mx c).
  { intros c0 t Hct. unfold l in Hct. rewrite list_elem_of_In, <- in_rev, <- list_elem_of_In in Hct. destruct (pools w !! mx) as [l0 |] eqn:E; [| by apply elem_of_nil in Hct].
    by apply (Hw mx l0 c0 t). }
  split_and!.
  - apply with_pool_ok; [by apply (quiet_pool (asking w)) |]. intros c0 t Hct. rewrite list_elem_of_In, <- in_rev, <- list_elem_of_In in Hct. apply (Hin c0 t). by apply Hl.
  - cbn. apply Hq.
  - intros c' Hc'. destruct (Hc c' Hc') as [[u Hu] Hs]. split; [by apply (Hin c' u) | done].
Qed.

Lemma release_spec mx c valid w : pool_ok w -> client_ok mx c -> pool_ok (releaseMXConn cfg out mx c valid w) /\ sent (releaseMXConn cfg out mx c valid w) = sent w.
Proof.
  intros Hw Hc. unfold releaseMXConn, ask. destruct valid; cbn [negb]; [| done]. destruct (_ <? _)%nat; [| done]. split; [| done].
  apply with_pool_ok; [exact Hw |]. intros c' t [Hin | [= -> ->]%list_elem_of_singleton]%elem_of_app; [| done].
  destruct (pools w !! mx) as [l |] eqn:E; [by apply (Hw mx l c' t) | by apply elem_of_nil in Hin].
Qed.

Lemma create_spec mx w : let '(c, w') := createMXConn out w in quiet w w' /\ (forall c', c = Some c' -> session c' = None /\ client_ok mx c').
Proof. unfold createMXConn, ask. split; [done |]. destruct (a_ok _); [| done]. intros c' [= <-]. split; [done |]. by intros s [=]. Qed.

(** A dialogue on a usable connection gives commands of one kind. *)
Lemma withMXConn_spec (P : Sent -> Prop) mx strict fn w : pool_ok w ->
  (forall c w0, client_ok mx c -> (strict = true -> tlsUnverified c = false) ->
    let '(err, c', w1) := fn c w0 in client_ok mx c' /\ pools w1 = pools w0 /\ exists l, sent w1 = sent w0 ++ l /\ Forall P l) ->
  let '(err, w') := withMXConnPolicy cfg out mx strict fn w in pool_ok w' /\ exists l, sent w' = sent w ++ l /\ Forall P l.
Proof.
  intros Hw Hfn. unfold withMXConnPolicy. pose proof (acquire_spec strict mx w Hw) as Ha. destruct (acquireMXConn cfg out strict mx w) as [got w1]. destruct Ha as (Hp1 & Hs1 & Hg).
  assert (Hcl : exists client w2, match got with Some c => let '(o, w) := ask out w1 in if a_ok o then (Some c, w) else createMXConn out w | None => createMXConn out w1 end = (client, w2) /\
    pool_ok w2 /\ sent w2 = sent w /\ (forall c, client = Some c -> client_ok mx c /\ (strict = true -> tlsUnverified c = false))).
  { assert (Hnew : forall w0, pool_ok w0 -> sent w0 = sent w -> exists client w2, createMXConn out w0 = (client, w2) /\ pool_ok w2 /\ sent w2 = sent w /\
      (forall c, client = Some c -> client_ok mx c /\ (strict = true -> tlsUnverified c = false))).
    { intros w0 H0 E0. pose proof (create_spec mx w0) as Hn. destruct (createMXConn out w0) as [c w2]. destruct Hn as [Hq Hn]. exists c, w2.
      split_and!; [done | by apply (quiet_pool w0) | rewrite (proj2 Hq); done |]. intros c' Hc. destruct (Hn c' Hc) as [Hs Hk]. split; [done |]. intros _. unfold tlsUnverified. by rewrite Hs. }
    destruct got as [c |]; [| by apply Hnew]. unfold ask. destruct (a_ok _); [| by apply Hnew]. exists (Some c), (asking w1). split_and!; [done | by apply (quiet_pool w1) | done |].
    intros c' [= <-]. by apply Hg. }
  destruct Hcl as (client & w2 & -> & Hp2 & Hs2 & Hc). destruct client as [c |]; [| split; [done |]; exists []; by rewrite app_nil_r].
  destruct (Hc c eq_refl) as [Hok Hst]. specialize (Hfn c w2 Hok Hst). destruct (fn c w2) as [[err c'] w3]. destruct Hfn as (Hok' & Hp3 & l & Hl & HP).
  assert (Hw3 : pool_ok w3) by (intros m' l' c0 t; rewrite Hp3; apply Hp2). destruct (release_spec mx c' (bool_decide (err = None)) w3 Hw3 Hok') as [Hr1 Hr2].
  split; [done |]. exists l. split; [rewrite Hr2; congruence | done].
Qed.

(** *** TLS *)
Lemma quiet_failure domain kind w : quiet w (recordTLSFailure domain kind w).
Proof. done. Qed.

Lemma StartTLS_spec mx insecure c w : client_ok mx c -> let '(e, c', w') := StartTLS cfg out mx insecure c w in
  quiet w w' /\ client_ok mx c' /\ (e = None -> insecure = false -> authenticated mx c').
Proof.
  intros Hc. assert (Hh : forall certs s sz, handshake cfg mx insecure certs = Some s -> client_ok mx {| session := Some s; size_param := sz |} /\
    (insecure = false -> authenticated mx {| session := Some s; size_param := sz |})).
  { intros certs s sz. unfold handshake. destruct insecure; [intros [= <-]; split; [by intros s [= <-] | done] |].
    destruct (verifyPeerForHost cfg certs mx) eqn:Ev; [| done]. intros [= <-]. split; [by intros s [= <-] | intros _; by eexists]. }
  unfold StartTLS, ask. destruct (a_tls _) as [| | certs | certs code text]; [done | done | |]; destruct (handshake cfg mx insecure certs) as [s |] eqn:Es; try done;
    destruct (Hh certs s (a_size (out (asked w))) Es), (Hh certs s (size_param c) Es); by split_and!.
Qed.

Lemma daneRequired_quiet w : quiet w (snd (daneRequired cfg out w)).
Proof. unfold daneRequired, ask. destruct (negb (daneValidator cfg)); [done |]. destruct (negb (daneSecure cfg)); [done |]. by destruct (negb (a_secure _)). Qed.

Lemma checkDANE_quiet mx certs w : quiet w (snd (checkDANE cfg out mx certs w)).
Proof.
  unfold checkDANE, ask. destruct (negb (daneValidator cfg)); [done |]. destruct (LookupTLSA _) as [[| t l] |]; [done | | done]. destruct (negb (daneSecure cfg)); [done |].
  destruct (negb (a_secure _)); [done |]. by destruct (fst (ValidateWithDNSSEC _ _ _ _)).
Qed.

(** Where TLS is demanded the connection that is used is authenticated. *)
Lemma secure_spec mx domain enforce testing c w : client_ok mx c -> (requireTLS cfg || enforce = true -> tlsUnverified c = false) ->
  let '(e, c', w') := secure_or_fail cfg out mx domain enforce testing c w in
  quiet w w' /\ client_ok mx c' /\ (e = None -> requireTLS cfg || enforce = true -> authenticated mx c').
Proof.
  intros Hc Hs. unfold secure_or_fail.
  assert (Hstep : exists e c1 w1, match session c with Some _ => (None, c, w) | None => StartTLS cfg out mx (negb (requireTLS cfg) && negb enforce) c w end = (e, c1, w1) /\
    quiet w w1 /\ client_ok mx c1 /\ (e = None -> requireTLS cfg || enforce = true -> authenticated mx c1)).
  { destruct (session c) as [s |] eqn:Es.
    - exists None, c, w. split_and!; [done | done | done |]. intros _ Hstr. exists s. split; [done |]. apply Hc; [done |]. specialize (Hs Hstr). unfold tlsUnverified in Hs.
      rewrite Es in Hs. by apply negb_false_iff in Hs.
    - pose proof (StartTLS_spec mx (negb (requireTLS cfg) && negb enforce) c w Hc) as Ht. destruct (StartTLS cfg out mx _ c w) as [[e c1] w1]. destruct Ht as (Hq & Hk & Ha).
      exists e, c1, w1. split_and!; [done | done | done |]. intros He Hstr. apply Ha; [done |]. by rewrite <- negb_orb, Hstr. }
  destruct Hstep as (e & c1 & w1 & -> & Hq & Hk & Ha). destruct e as [e |].
  - destruct (requireTLS cfg || enforce); [destruct enforce; (split_and!; [exact Hq | done | done]) |].
    set (w2 := if testing then _ else _). assert (Hq2 : quiet w w2) by (unfold w2; by destruct testing).
    pose proof (daneRequired_quiet w2) as Hq3. destruct (daneRequired cfg out w2) as [required w3]. cbn [snd] in Hq3.
    assert (Hq03 : quiet w w3) by (by eapply quiet_trans). destruct required; [split_and!; [exact Hq03 | done | done] |]. destruct e; by split_and!.
  - destruct (session c1) as [s |]; [| split_and!; [done | done |]; intros _; by apply Ha]. set (w2 := if testing && _ && _ then _ else _).
    assert (Hq2 : quiet w w2) by (unfold w2; by destruct (testing && _ && _)).
    pose proof (checkDANE_quiet mx (peers s) w2) as Hq3. destruct (checkDANE cfg out mx (peers s) w2) as [refused w3]. cbn [snd] in Hq3.
    split_and!; [by eapply quiet_trans | done |]. intros _. by apply Ha.
Qed.

(** Where DANE demands TLS the connection that is used has passed the check. *)
Lemma secure_dane mx domain enforce testing c w (P : list Cert -> Prop) :
  (forall certs w1, fst (checkDANE cfg out mx certs w1) = false -> P certs) -> (forall w1, fst (daneRequired cfg out w1) = true) ->
  match secure_or_fail cfg out mx domain enforce testing c w with (None, c', _) => exists s, session c' = Some s /\ P (peers s) | _ => True end.
Proof.
  intros Hdane Hreq. unfold secure_or_fail.
  assert (Hstep : exists e c1 w1, match session c with Some _ => (None, c, w) | None => StartTLS cfg out mx (negb (requireTLS cfg) && negb enforce) c w end = (e, c1, w1) /\
    (e = None -> is_Some (session c1))).
  { destruct (session c) as [s |] eqn:Es; [exists None, c, w; split; [done |]; intros _; rewrite Es; by eexists |]. unfold StartTLS, ask.
    destruct (a_tls _) as [| | certs | certs code text]; [by do 3 eexists | by do 3 eexists | |]; destruct (handshake _ _ _ certs); do 3 eexists; (split; [done |]); intros He; try done; by eexists. }
  destruct Hstep as (e & c1 & w1 & -> & Hsome). destruct e as [e |].
  - destruct (_ || _); [by destruct enforce |]. set (w2 := if testing then _ else _). specialize (Hreq w2). destruct (daneRequired cfg out w2) as [required w3]. cbn [fst] in Hreq. by subst.
  - destruct (Hsome eq_refl) as [s Hs]. rewrite Hs. set (w2 := if testing && _ && _ then _ else _). specialize (Hdane (peers s) w2).
    destruct (checkDANE cfg out mx (peers s) w2) as [[|] w3]; [done |]. exists s. split; [done | by apply Hdane].
Qed.

(** *** The transaction *)
Definition sent_on (mx : gostring) (c : Client) (x : Sent) : Prop := to_host x = mx /\ in_session x = session c.

Lemma issue_spec mx c x w : let '(_, w') := issue out mx c x w in pools w' = pools w /\ exists l, sent w' = sent w ++ l /\ Forall (sent_on mx c) l.
Proof. unfold issue, ask. split; [done |]. exists [{| to_host := mx; in_session := session c; what := x |}]. split; [done |]. by repeat constructor. Qed.

Lemma transaction_spec mx from to message c w : let '(_, w') := transaction out mx from to message c w in
  pools w' = pools w /\ exists l, sent w' = sent w ++ l /\ Forall (sent_on mx c) l.
Proof.
  assert (Hcat : forall w0 w1 (r : option mx_error * Outbound), pools w1 = pools w0 /\ (exists l, sent w1 = sent w0 ++ l /\ Forall (sent_on mx c) l) ->
    (let '(_, w') := r in pools w' = pools w1 /\ exists l, sent w' = sent w1 ++ l /\ Forall (sent_on mx c) l) ->
    let '(_, w') := r in pools w' = pools w0 /\ exists l, sent w' = sent w0 ++ l /\ Forall (sent_on mx c) l).
  { intros w0 w1 [e w'] [H1 (l & Hl & HF)] [H2 (l' & Hl' & HF')]. split; [congruence |]. exists (l ++ l'). split; [by rewrite Hl', Hl, app_assoc | by apply Forall_app]. }
  assert (Hsame : forall w0, pools w0 = pools w0 /\ exists l, sent w0 = sent w0 ++ l /\ Forall (sent_on mx c) l).
  { intros w0. split; [done |]. exists []. by rewrite app_nil_r. }
  unfold transaction. pose proof (issue_spec mx c (MAIL from) w) as H1. destruct (issue out mx c (MAIL from) w) as [[e |] w1]; [exact H1 |]. apply (Hcat w w1); [exact H1 |].
  pose proof (issue_spec mx c (RCPT to) w1) as H2. destruct (issue out mx c (RCPT to) w1) as [[e |] w2]; [exact H2 |]. apply (Hcat w1 w2); [exact H2 |].
  destruct (too_large c message); [apply Hsame |].
  pose proof (issue_spec mx c DATA w2) as H3. destruct (issue out mx c DATA w2) as [[e |] w3]; [exact H3 |]. apply (Hcat w2 w3); [exact H3 |]. apply issue_spec.
Qed.

(** A property of the connection after the TLS step is one of all that is sent. *)
Lemma dialogue_spec (Q : Client -> Prop) mx domain from to message enforce testing c w :
  (let '(e, c', w') := secure_or_fail cfg out mx domain enforce testing c w in quiet w w' /\ client_ok mx c' /\ (e = None -> Q c')) ->
  let '(err, c', w') := dialogue cfg out mx domain from to message enforce testing c w in
  client_ok mx c' /\ pools w' = pools w /\ exists l, sent w' = sent w ++ l /\ Forall (fun x => to_host x = mx /\ exists c0, in_session x = session c0 /\ Q c0) l.
Proof.
  unfold dialogue. destruct (secure_or_fail _ _ _ _ _ _ c w) as [[[e |] c1] w1]; intros ([Hp Hs] & Hk & HQ).
  - split_and!; [done | done |]. exists []. by rewrite app_nil_r, Hs.
  - pose proof (transaction_spec mx from to message c1 w1) as Ht. destruct (transaction _ _ _ _ _ c1 w1) as [err w2]. destruct Ht as [H1 (l & Hl & HF)].
    split_and!; [done | congruence |]. exists l. split; [congruence |]. eapply Forall_impl; [exact HF |]. intros x [Hh Hx]. split; [done |]. exists c1. auto.
Qed.

(** *** Deliveries *)
Abbreviation doDeliver := (doDeliverToMX cfg out db parseDKIMKey iter).
Abbreviation deliver := (deliverToMX cfg out db parseDKIMKey iter).

Lemma check_sts_quiet domain mx w : quiet w (snd (check_sts cfg out domain mx w)).
Proof. unfold check_sts, ask. destruct (_ || _); [done |]. by destruct (CheckPolicy _ _ _ _) as [[[allowed policy] |] v]. Qed.

(** What holds of the connections a delivery uses holds of all it sends. *)
Lemma doDeliver_spec (Q : Client -> Prop) from to message mx w : pool_ok w ->
  (forall c w0, client_ok mx c -> let '(allowed, mode, _) := check_sts cfg out (extractDomain to) mx w in
    let enforce := mode =s? MTASTSModeEnforce in let testing := mode =s? MTASTSModeTesting in
    (requireTLS cfg || enforce = true -> tlsUnverified c = false) ->
    let '(e, c', w') := secure_or_fail cfg out mx (extractDomain to) enforce testing c w0 in quiet w0 w' /\ client_ok mx c' /\ (e = None -> Q c')) ->
  let '(err, w') := doDeliver from to message mx w in
  pool_ok w' /\ exists l, sent w' = sent w ++ l /\ Forall (fun x => to_host x = mx /\ exists c, in_session x = session c /\ Q c) l /\
  (let '(allowed, mode, _) := check_sts cfg out (extractDomain to) mx w in mode = MTASTSModeEnforce -> l <> [] -> allowed = true).
Proof.
  intros Hw HQ. unfold doDeliverToMX. pose proof (check_sts_quiet (extractDomain to) mx w) as Hq.
  destruct (check_sts cfg out (extractDomain to) mx w) as [[allowed mode] w1]. cbn [snd] in Hq. set (enforce := mode =s? MTASTSModeEnforce) in *. set (testing := mode =s? MTASTSModeTesting) in *.
  destruct (enforce && negb allowed) eqn:Ea.
  { split; [by apply (quiet_pool w) |]. exists []. rewrite app_nil_r. split_and!; [apply Hq | done | done]. }
  set (w2 := if testing && _ then _ else _). assert (Hq2 : quiet w w2) by (unfold w2; by destruct (testing && _)). unfold ask. set (message' := default _ _).
  pose proof (withMXConn_spec (fun x => to_host x = mx /\ exists c, in_session x = session c /\ Q c) mx (requireTLS cfg || enforce)
    (dialogue cfg out mx (extractDomain to) from to message' enforce testing) (asking w2)) as Hc.
  destruct (withMXConnPolicy _ _ _ _ _ (asking w2)) as [err w3]. destruct Hc as [Hp (l & Hl & HF)].
  - by apply (quiet_pool w).
  - intros c w0 Hok Hstr. apply dialogue_spec. by apply HQ.
  - split; [done |]. exists l. split_and!; [| done |].
    + rewrite Hl. by rewrite (proj2 Hq2 : sent (asking w2) = sent w).
    + intros Hm _. unfold enforce in Ea. rewrite bool_decide_eq_true_2 in Ea by done. by destruct allowed.
Qed.

Lemma doDeliver_pool from to message mx w : pool_ok w -> pool_ok (snd (doDeliver from to message mx w)).
Proof.
  intros Hw. pose proof (doDeliver_spec (fun _ => True) from to message mx w Hw) as Hd. destruct (doDeliver from to message mx w) as [err w']. apply Hd.
  intros c w0 Hok. destruct (check_sts _ _ _ _ w) as [[allowed mode] w1]. intros enforce testing Hs.
  pose proof (secure_spec mx (extractDomain to) (mode =s? MTASTSModeEnforce) (mode =s? MTASTSModeTesting) c w0 Hok Hs) as Hsec.
  destruct (secure_or_fail _ _ _ _ _ _ c w0) as [[e c'] w2]. destruct Hsec as (H1 & H2 & _). done.
Qed.

Lemma deliver_pool from to message mx w : pool_ok w -> pool_ok (snd (deliver from to message mx w)).
Proof.
  intros Hw. unfold deliverToMX. destruct (mxBreaker cfg) as [c |].
  - unfold ask. destruct (allow _ _) as [[ok gen] cb]. destruct (negb ok); [exact Hw |]. set (w1 := with_breaker mx cb (asking w)).
    pose proof (doDeliver_pool from to message mx w1 Hw) as Hp. destruct (doDeliver from to message mx w1) as [err w2]. cbn [snd] in Hp. by destruct err as [[] |].
  - pose proof (doDeliver_pool from to message mx w Hw) as Hp. by destruct (doDeliver from to message mx w) as [err w2].
Qed.

(** Deliveries one after the other: sender, recipient, message and host of each. *)
Definition deliveries (ds : list (gostring * gostring * gostring * gostring)) w : Outbound :=
  foldl (fun w '(from, to, message, mx) => snd (deliver from to message mx w)) w ds.

Lemma deliveries_pool ds w : pools w = ∅ -> pool_ok (deliveries ds w).
Proof.
  intros He. assert (Hw : pool_ok w) by (intros mx l c t; rewrite He; by rewrite lookup_empty). clear He. revert w Hw.
  induction ds as [| [[[from to] message] mx] ds IH]; intros w Hw; [done |]. cbn [deliveries foldl]. apply IH. by apply deliver_pool.
Qed.

(** The policy of the domain is cached, has not expired, and no other file is served. *)
Definition sts_in_force (p : MTASTSPolicy) (domain : gostring) w : Prop :=
  mtastsValidator cfg = true /\ domain <> [] /\ exists until, in_force p until domain (mtasts w) /\
  let e := a_sts (out (asked w)) in undisturbed e /\ now e < until /\ forall q, fetchPolicyFile e <> Ok q.

Lemma check_in_force p domain mx w : sts_in_force p domain w ->
  exists w', check_sts cfg out domain mx w = (policy_allows (Some p) mx, Mode p, w').
Proof.
  intros (Hv & Hd & until & Hf & Hu & Hn & Hq). unfold check_sts, ask. rewrite Hv, bool_decide_eq_false_2 by done. cbn [negb orb].
  destruct (GetPolicy_force p until domain (a_sts (out (asked w))) (mtasts w) Hf Hu Hn Hq) as [Hg _]. unfold CheckPolicy. change (mtasts (asking w)) with (mtasts w).
  destruct (GetPolicy _ _ _) as [r v]. cbn [fst] in Hg. rewrite Hg. by eexists.
Qed.
End OutboundProps.

(** C10: Mail that must be encrypted is never sent in the clear or to a stranger: when
    the operator requires TLS, or the domain of the recipient has an MTA-STS policy in
    force with mode enforce, every command of a delivery goes over a TLS session whose
    certificate was verified for the host - also on connections that other deliveries
    have left in the pool -, and under the policy only to hosts it names. *)
Theorem tls_required_never_plain {U : UnicodeTables} {N : NetMail} {H : MailHeader} {C : Crypto} {T : TlsStd} cfg out db parseDKIMKey iter ds w0 from to message mx p :
  pools w0 = ∅ -> let w := deliveries cfg out db parseDKIMKey iter ds w0 in
  let enforced := sts_in_force cfg out p (extractDomain to) w /\ Mode p = MTASTSModeEnforce in
  requireTLS cfg = true \/ enforced ->
  exists l, sent (snd (doDeliverToMX cfg out db parseDKIMKey iter from to message mx w)) = sent w ++ l /\
    Forall (fun x => to_host x = mx /\ exists s, in_session x = Some s /\ verifyPeerForHost cfg (peers s) mx = true) l /\
    (enforced -> l <> [] -> Exists (fun pattern => covers_host pattern mx) (MX p)).
Proof.
  intros He w enforced Hreq. pose proof (deliveries_pool cfg out db parseDKIMKey iter ds w0 He) as Hw. fold w in Hw.
  pose proof (doDeliver_spec cfg out db parseDKIMKey iter (authenticated cfg mx) from to message mx w Hw) as Hd.
  destruct (doDeliverToMX _ _ _ _ _ _ _ _ _ w) as [err w']. destruct Hd as (_ & l & Hl & HF & Hal).
  - intros c w1 Hok. destruct (check_sts cfg out (extractDomain to) mx w) as [[allowed mode] w2] eqn:Ec. intros enforce testing Hs.
    pose proof (secure_spec cfg out mx (extractDomain to) (mode =s? MTASTSModeEnforce) (mode =s? MTASTSModeTesting) c w1 Hok Hs) as Hsec.
    destruct (secure_or_fail _ _ _ _ _ _ c w1) as [[e c'] w3]. destruct Hsec as (H1 & H2 & H3). split_and!; [done | done |]. intros Hn. apply H3; [done |].
    destruct Hreq as [-> | [Hf Hm]]; [done |]. destruct (check_in_force cfg out p (extractDomain to) mx w Hf) as [w4 E4]. rewrite Ec in E4. injection E4 as _ -> _.
    rewrite Hm, orb_true_r. done.
  - cbn [snd]. exists l. split_and!; [done | |].
    + eapply Forall_impl; [exact HF |]. intros x [Hh (c & Hx & s & Hs & Hv)]. split; [done |]. exists s. split; [congruence | done].
    + intros [Hf Hm] Hne. destruct (check_in_force cfg out p (extractDomain to) mx w Hf) as [w4 E4]. rewrite E4 in Hal. specialize (Hal Hm Hne). unfold policy_allows in Hal.
      rewrite Hm in Hal. change (MTASTSModeEnforce =s? MTASTSModeNone) with false in Hal. apply existsb_exists in Hal as (x & Hx & Hxm). apply Exists_exists. exists x.
      split; [by apply list_elem_of_In | by apply matchMX_spec].
Qed.


(** ** At concrete inputs *)
Section OutboundExamples.
#[local] Existing Instance ascii_tables.
#[local] Existing Instance plain_mail.
#[local] Existing Instance toy_crypto.
#[local] Instance out_header : MailHeader := {| ReadHeader := fun _ => None |}.
#[local] Instance out_tls : TlsStd := {| sha512 := fun s => s; Verify := fun leaf _ _ host => DER leaf =s? host |}.

Definition out_cert : Cert := {| DER := "mx1.mail.example"; SPKI := "key" |}.
Definition out_settings (dane : bool) : Settings := {|
  requireTLS := false; mtastsValidator := true; daneValidator := dane; daneSecure := dane; mxPoolSize := 2; mxIdleTimeout := 60 * second;
  mxBreaker := Some DefaultConfig; tlsRootCAs := [] |}.
Definition out_start (v : MTASTSValidator) : Outbound := {| pools := ∅; mxBreakers := ∅; tlsrptFailures := ∅; mtasts := v; sent := []; asked := 0 |}.

(** The answers of a host with a handshake, at a time, with an answer for TLSA. *)
Definition out_answer (tls : tls_answer) (tlsa : TlsaEnv) (n : nat) : NetAnswer := {|
  a_now := hour; a_ok := true; a_reply := None; a_tls := tls; a_size := None; a_sts := sts_env (2 * hour) [] false; a_tlsa := tlsa; a_secure := true; a_unix := 0 |}.
Definition out_message : gostring := "Subject: Hello" ++ CRLF ++ CRLF ++ "Hi" ++ CRLF.

Abbreviation out_cached := (snd (GetPolicy (sts_env 0 ["v=STSv1; id=1" : gostring] true) "example.org" NewMTASTSValidator)).
Abbreviation out_send tls tlsa dane mx w0 :=
  (doDeliverToMX (out_settings dane) (out_answer tls tlsa) None (fun _ => None) map_to_list "a@here.example" "b@example.org" out_message mx w0).

(** With the policy in force a host that refuses STARTTLS, and one the policy does not
    name, get nothing; a verified one gets the message in its session. *)
Example policy_decides :
  (length (sent (snd (out_send (TLSRefused 502 "no") NoServer false "mx1.mail.example" (out_start out_cached)))),
    length (sent (snd (out_send (TLSDone [out_cert]) NoServer false "evil.example" (out_start out_cached)))),
    map (fun x => chains <$> in_session x) (sent (snd (out_send (TLSDone [out_cert]) NoServer false "mx1.mail.example" (out_start out_cached))))) =
  (0%nat, 0%nat, [Some true; Some true; Some true; Some true]).
Proof. vm_compute. reflexivity. Qed.

(** When the lookup of TLSA records fails, the delivery goes on in the clear. *)
Example tlsa_failure_sends_plain :
  map in_session (sent (snd (out_send (TLSRefused 502 "no") (Exchange (Some {| Rcode := 2; Truncated := false; AuthenticatedData := false; Answer := [] |}) None) true
    "mx1.mail.example" (out_start NewMTASTSValidator)))) = [None; None; None; None].
Proof. vm_compute. reflexivity. Qed.

Lemma tls_required_never_plain_witness : exists l,
  sent (snd (out_send (TLSDone [out_cert]) NoServer false "mx1.mail.example" (deliveries (out_settings false) (out_answer (TLSDone [out_cert]) NoServer) None (fun _ => None) map_to_list [] (out_start out_cached)))) = [] ++ l /\
  Forall (fun x => to_host x = "mx1.mail.example" /\ exists s, in_session x = Some s /\ verifyPeerForHost (out_settings false) (peers s) "mx1.mail.example" = true) l.
Proof.
  destruct (tls_required_never_plain (out_settings false) (out_answer (TLSDone [out_cert]) NoServer) None (fun _ => None) map_to_list [] (out_start out_cached)
    "a@here.example" "b@example.org" out_message "mx1.mail.example" sts_policy eq_refl) as (l & Hl & HF & _).
  - right. split; [| reflexivity]. split; [reflexivity |]. split; [discriminate |]. exists (604800 * second). split; [do 2 eexists; split_and!; vm_compute; reflexivity |].
    split; [done |]. split; [vm_compute; reflexivity | vm_compute; discriminate].
  - exists l. split; [exact Hl | exact HF].
Defined.

Definition out_tlsa : TlsaEnv := Resolved (Ok [{| Usage := 3; Selector := 0; MatchingType := 0; Certificate := "mx1.mail.example" |}]).
End OutboundExamples.
