(* ===== verification/Vacation.v ===== *)
(** * internal/vacation: settings and records of automatic replies

    [Manager] is the state of vacation.go: the settings and the last replies in
    memory, and the files they are kept in.  A settings file holds one JSON value, a
    record file one JSON value per line; a value that does not decode is [Corrupt].
    [saved], [appended] and [compacted] say whether a file could be written.  The
    clock is read several times in one operation, so there are several times in
    the arguments.  [iter] is the order in which Go walks a map, and the headers of
    a message are the entries of a map in that order.  Lines torn by a crash and
    the logs are left out. *)
From S2P Require Import Prelude GoLib Utf8 Base64 Bolt Accounts.

(** ** strings.ReplaceAll, for a text that is not empty *)
Fixpoint replace_go (fuel : nat) (old new s : gostring) : gostring :=
  match fuel, s with
  | O, _ | _, [] => s
  | S fuel', c :: s' =>
      if HasPrefix s old then new ++ replace_go fuel' old new (drop (length old) s) else c :: replace_go fuel' old new s'
  end.
Definition ReplaceAll (s old new : gostring) : gostring := replace_go (length s) old new s.

(** ** Data *)
Record Config := {
  Enabled : bool;
  StartDate : Z;
  EndDate : Z;
  Subject : gostring;
  Message : gostring;
  HTMLMessage : gostring;
  SendInterval : Z;
  ExcludeAddresses : list gostring;
  IgnoreLists : bool;
  IgnoreBulk : bool
}.
#[export] Instance Config_eq_dec : EqDecision Config.
Proof. solve_decision. Defined.

Definition with_interval (i : Z) (c : Config) : Config := {|
  Enabled := Enabled c; StartDate := StartDate c; EndDate := EndDate c; Subject := Subject c; Message := Message c; HTMLMessage := HTMLMessage c;
  SendInterval := i; ExcludeAddresses := ExcludeAddresses c; IgnoreLists := IgnoreLists c; IgnoreBulk := IgnoreBulk c |}.

(** What JSON keeps of the settings. *)
Definition json_config (c : Config) : Config := {|
  Enabled := Enabled c; StartDate := StartDate c; EndDate := EndDate c; Subject := json_string (Subject c); Message := json_string (Message c);
  HTMLMessage := json_string (HTMLMessage c); SendInterval := SendInterval c; ExcludeAddresses := map json_string (ExcludeAddresses c);
  IgnoreLists := IgnoreLists c; IgnoreBulk := IgnoreBulk c |}.

Definition replyRecord : Type := gostring * Z.

Record Manager := {
  configs : gmap gostring Config;
  sentCache : gmap gostring (gmap gostring Z);
  pruneAt : gmap gostring Z;
  configFiles : gmap gostring (Row Config);              (* by file name *)
  replyFiles : gmap gostring (list (Row replyRecord))
}.
Definition set_configs f (m : Manager) : Manager := {|
  configs := f (configs m); sentCache := sentCache m; pruneAt := pruneAt m; configFiles := configFiles m; replyFiles := replyFiles m |}.
Definition set_cache c p (m : Manager) : Manager := {|
  configs := configs m; sentCache := c (sentCache m); pruneAt := p (pruneAt m); configFiles := configFiles m; replyFiles := replyFiles m |}.
Definition set_config_files f (m : Manager) : Manager := {|
  configs := configs m; sentCache := sentCache m; pruneAt := pruneAt m; configFiles := f (configFiles m); replyFiles := replyFiles m |}.
Definition set_reply_files f (m : Manager) : Manager := {|
  configs := configs m; sentCache := sentCache m; pruneAt := pruneAt m; configFiles := configFiles m; replyFiles := f (replyFiles m) |}.

Definition minPruneSize : Z := 1024.
Definition defaultInterval : Z := 7 * (24 * hour).

(** ** File names *)
Definition URLEncoding : encoding := {|
  alphabet := "ABCDEFGHIJKLMNOPQRSTUVWXYZabcdefghijklmnopqrstuvwxyz0123456789-_"; padded := true; strict := false |}.

Definition sanitizeFilename (email : gostring) : gostring := TrimRight (encode URLEncoding email) "=".

Definition unsanitizeFilename (filename : gostring) : gostring :=
  if GoLib.Contains filename "_at_" then ReplaceAll (ReplaceAll filename "_at_" "@") "_" "." else
  let padding := (4 - length filename mod 4)%nat in
  let filename := if (padding <? 4)%nat then filename ++ repeat pad_char padding else filename in
  match decode URLEncoding filename with
  | Some (c :: d) => c :: d
  | _ => filename
  end.

Definition config_file (email : gostring) : gostring := sanitizeFilename email ++ ".json".
Definition repliesPath (user : gostring) : gostring := sanitizeFilename user ++ ".replies".

Section Vacation.
Context {U : UnicodeTables} (iter : forall A : Type, gmap gostring A -> list (gostring * A)).

(** ** Rules *)
Definition normalizeAddress (sender : gostring) : gostring :=
  let addr := TrimSpace sender in
  let addr := if HasPrefix addr "<" && HasSuffix addr ">" then TrimSpace (take (length addr - 2) (drop 1 addr)) else addr in
  ToLower addr.

Definition local_part (addr : gostring) : gostring := match LastIndexByte addr "@" with Some at_ => take at_ addr | None => addr end.

Definition isAutomatedSender (addr : gostring) : bool :=
  if bool_decide (addr = []) then true else
  let local := local_part addr in
  (local =s? "mailer-daemon") || HasPrefix local "owner-" || HasSuffix local "-request".

Definition automated_names : list gostring :=
  ["postmaster" : gostring; "noreply" : gostring; "no-reply" : gostring; "donotreply" : gostring; "do-not-reply" : gostring; "bounce" : gostring; "bounces" : gostring].
Definition IsAutomatedSender (sender : gostring) : bool :=
  let addr := normalizeAddress sender in
  isAutomatedSender addr || bool_decide (local_part addr ∈ automated_names).

Definition hdr (headers : list (gostring * gostring)) (name : gostring) : gostring :=
  match List.find (fun e => fst e =s? name) headers with
  | Some (_, v) => v
  | None => match List.find (fun e => EqualFold (fst e) name) headers with Some (_, v) => v | None => [] end
  end.

(** [[]] is the empty text, that is no field or an empty one. *)
Definition present (headers : list (gostring * gostring)) (name : gostring) : bool := negb (bool_decide (hdr headers name = [])).

Definition in_period (now : Z) (c : Config) : bool :=
  negb (negb (StartDate c =? zero_time) && (now <? StartDate c)) && negb (negb (EndDate c =? zero_time) && (EndDate c <? now)).

(** The code asks again for a precedence of list, bulk or junk under the two options;
    at that point none of them is left. *)
Definition Eligible (config : option Config) (user sender : gostring) (headers : list (gostring * gostring)) (now : Z) : option Config :=
  match config with
  | None => None
  | Some config =>
      if negb (Enabled config) then None else
      if negb (in_period now config) then None else
      let addr := normalizeAddress sender in
      if isAutomatedSender addr then None else
      if addr =s? normalizeAddress user then None else
      if existsb (fun excluded => normalizeAddress excluded =s? addr) (ExcludeAddresses config) then None else
      let precedence := ToLower (TrimSpace (hdr headers "Precedence")) in
      if (precedence =s? "list") || (precedence =s? "bulk") || (precedence =s? "junk") then None else
      if IgnoreLists config && (present headers "List-Id" || present headers "List-Post" || present headers "List-Unsubscribe") then None else
      if IgnoreBulk config && (hdr headers "X-Mailer" =s? "MassMailer") then None else
      let autoSubmitted := TrimSpace (hdr headers "Auto-Submitted") in
      if negb (bool_decide (autoSubmitted = [])) && negb (EqualFold autoSubmitted "no") then None else
      if present headers "X-Auto-Response-Suppress" then None else
      if present headers "X-Mail-Loop" && existsb (fun loopAddr => EqualFold (TrimSpace loopAddr) user) (Split (hdr headers "X-Mail-Loop") ",") then None else
      Some (if SendInterval config <=? 0 then with_interval defaultInterval config else config)
  end.

Definition eligibleConfig (now : Z) (user sender : gostring) headers (m : Manager) : option Config :=
  Eligible (configs m !! user) user sender headers now.

Definition startsNewVacation (prev : option Config) (next : Config) : bool :=
  match prev with
  | None => true
  | Some prev =>
      negb (Enabled prev) || negb (Subject prev =s? Subject next) || negb (Message prev =s? Message next) ||
      negb (HTMLMessage prev =s? HTMLMessage next) || negb (StartDate prev =? StartDate next) || negb (EndDate prev =? EndDate next)
  end.

(** ** Records of replies *)
Definition appendReply (appended : bool) (user sender : gostring) (at_ : Z) (m : Manager) : Manager :=
  if appended then
  set_reply_files (fun fs => <[repliesPath user := default [] (fs !! repliesPath user) ++ [Stored (json_string sender, at_)]]> fs) m
  else m.

Definition reply_lines (cache : gmap gostring Z) : list (Row replyRecord) :=
  map (fun '(sender, at_) => Stored (json_string sender, at_)) (iter Z cache).

Definition rewriteReplies (compacted : bool) (user : gostring) (cache : gmap gostring Z) (m : Manager) : Manager :=
  if compacted then set_reply_files <[repliesPath user := reply_lines cache]> m else m.

Definition recordLocked (appended compacted : bool) (now : Z) (user sender : gostring) (interval : Z) (m : Manager) : Manager :=
  let userCache := <[sender := now]> (default ∅ (sentCache m !! user)) in
  let m := appendReply appended user sender now (set_cache <[user := userCache]> id m) in
  if (Z.of_nat (base.size userCache) <? Z.max (default 0 (pruneAt m !! user)) minPruneSize) || (interval <=? 0) then m else
  let userCache := base.filter (fun e => time_sub now (snd e) < interval) userCache in
  let m := set_cache <[user := userCache]> <[user := 2 * Z.of_nat (base.size userCache)]> m in
  rewriteReplies compacted user userCache m.

Definition forgetReplies (user : gostring) (m : Manager) : Manager :=
  set_reply_files (delete (repliesPath user)) (set_cache (delete user) (delete user) m).

Definition last_sent (user sender : gostring) (m : Manager) : option Z :=
  default ∅ (sentCache m !! user) !! normalizeAddress sender.

Definition ShouldSendAutoReply (now now2 : Z) (user sender : gostring) headers (m : Manager) : bool :=
  match eligibleConfig now user sender headers m with
  | None => false
  | Some config => match last_sent user sender m with
  | Some lastSent => SendInterval config <=? time_sub now2 lastSent
  | None => true
  end
  end.

Definition CheckAndRecordAutoReply (appended compacted : bool) (now now2 now3 : Z) (user sender : gostring) headers (m : Manager) : bool * Manager :=
  match eligibleConfig now user sender headers m with
  | None => (false, m)
  | Some config =>
      if match last_sent user sender m with Some lastSent => time_sub now2 lastSent <? SendInterval config | None => false end then (false, m)
      else (true, recordLocked appended compacted now3 user (normalizeAddress sender) (SendInterval config) m)
  end.

Definition RecordAutoReplySent (appended compacted : bool) (now : Z) (user sender : gostring) (m : Manager) : Manager :=
  recordLocked appended compacted now user (normalizeAddress sender) (match configs m !! user with Some c => SendInterval c | None => 0 end) m.

(** ** Settings *)
Definition default_config : Config := {|
  Enabled := false; StartDate := zero_time; EndDate := zero_time; Subject := "Out of Office";
  Message := "I am currently out of office. I will respond to your email when I return."; HTMLMessage := [];
  SendInterval := defaultInterval; ExcludeAddresses := []; IgnoreLists := true; IgnoreBulk := true |}.
Definition GetConfig (email : gostring) (m : Manager) : Config := default default_config (configs m !! email).

Inductive config_error := SubjectBreaks | BadExclude | NoSubject | NoMessage | NotSaved.

Definition breaks : gostring := [byte_of 13; byte_of 10; byte_of 0].

Definition SetConfig (saved : bool) (email : gostring) (config : Config) (m : Manager) : option config_error * Manager :=
  if ContainsAny (Subject config) breaks then (Some SubjectBreaks, m)
  else if existsb (fun a => ContainsAny a breaks) (ExcludeAddresses config) then (Some BadExclude, m)
  else
  let config := if SendInterval config <=? 0 then with_interval defaultInterval config else config in
  if Enabled config && bool_decide (Subject config = []) then (Some NoSubject, m)
  else if Enabled config && bool_decide (Message config = []) then (Some NoMessage, m)
  else if negb saved then (Some NotSaved, m)
  else
  let m' := set_configs <[email := config]> (set_config_files <[config_file email := Stored (json_config config)]> m) in
  (None, if Enabled config && startsNewVacation (configs m !! email) config then forgetReplies email m' else m').

(** [removed]: the settings file could be removed, or was not there. *)
Definition DeleteConfig (removed : bool) (email : gostring) (m : Manager) : bool * Manager :=
  let m := forgetReplies email (set_configs (delete email) m) in
  if removed then (true, set_config_files (delete (config_file email)) m) else (false, m).

Definition GetAutoReplyMessage (user : gostring) (m : Manager) : gostring * gostring * gostring :=
  match configs m !! user with
  | Some c => if Enabled c then (Subject c, Message c, HTMLMessage c) else ([], [], [])
  | None => ([], [], [])
  end.

Definition ListActiveVacations (now : Z) (m : Manager) : list gostring :=
  map fst (List.filter (fun '(_, c) => Enabled c && in_period now c) (iter Config (configs m))).

(** ** Restart *)
Definition latest_reply (now interval : Z) (latest : gmap gostring Z) (l : Row replyRecord) : gmap gostring Z :=
  match l with
  | Corrupt => latest
  | Stored (sender, at_) =>
      if interval <=? time_sub now at_ then latest
      else if default zero_time (latest !! sender) <? at_ then <[sender := at_]> latest else latest
  end.

Definition loadReplies (compacted : bool) (now : Z) (user : gostring) (interval : Z) (m : Manager) : Manager :=
  let interval := if interval <=? 0 then defaultInterval else interval in
  match replyFiles m !! repliesPath user with
  | None => m
  | Some lines =>
      let latest := foldl (latest_reply now interval) ∅ lines in
      if (base.size latest =? 0)%nat then set_reply_files (delete (repliesPath user)) m
      else set_cache <[user := latest]> id (rewriteReplies compacted user latest m)
  end.

Definition load_config (m : Manager) (f : gostring * Row Config) : Manager :=
  match f with
  | (name, Stored config) => if HasSuffix name ".json" then set_configs <[unsanitizeFilename (TrimSuffix name ".json") := config]> m else m
  | (_, Corrupt) => m
  end.

Definition loadConfigs (compacted : gostring -> bool) (now : gostring -> Z) (m : Manager) : Manager :=
  let m := foldl load_config m (cursor (configFiles m)) in
  foldl (fun m '(email, config) => loadReplies (compacted email) (now email) email (SendInterval config) m) m (iter Config (configs m)).

(** A new process over the files. *)
Definition NewManager (compacted : gostring -> bool) (now : gostring -> Z) (cfgs : gmap gostring (Row Config)) (replies : gmap gostring (list (Row replyRecord))) : Manager :=
  loadConfigs compacted now {| configs := ∅; sentCache := ∅; pruneAt := ∅; configFiles := cfgs; replyFiles := replies |}.
End Vacation.
