(* ===== verification/AutoReply.v ===== *)
(** * internal/server/server_vacation.go: automatic replies

    [Server] is the state the delivery of mail works on, shared with Delivery.v: the
    accounts, the mail store, the outbound queue (there may be none), the Sieve
    scripts, the vacation settings, and the record of who was answered: a map in
    memory that is read from the file on first use, and the lines of that file.
    The calls that reach outside of the server are numbered; [out] says of each what
    the clock reads, which fresh identifiers it gets and whether it succeeds.  The
    parameters [std] are library functions: MIME encodings, layouts of times and
    the JSON of the settings.  A file line torn by a crash, and the goroutine a reply
    is sent in (here it is sent at once), are left out. *)
From S2P Require Import Prelude GoLib Utf8 Bolt Scram BlobStore SmtpData Dsn Queue ImapStore SieveParse SieveMatch SieveCompile SieveExec Accounts SieveManager Routing Vacation.

Record Server := {
  database : DB;
  storage : MStore;
  queue : option Queue.Manager;
  sieveManager : SieveManager.Manager;
  vacationMgr : option Vacation.Manager;
  vacationReplies : option (gmap gostring Z);
  replyLog : list (Accounts.Row (gostring * Z));
  calls : nat
}.
Definition with_database d (w : Server) : Server := {|
  database := d; storage := storage w; queue := queue w; sieveManager := sieveManager w; vacationMgr := vacationMgr w;
  vacationReplies := vacationReplies w; replyLog := replyLog w; calls := calls w |}.
Definition with_storage s (w : Server) : Server := {|
  database := database w; storage := s; queue := queue w; sieveManager := sieveManager w; vacationMgr := vacationMgr w;
  vacationReplies := vacationReplies w; replyLog := replyLog w; calls := calls w |}.
Definition with_queue q (w : Server) : Server := {|
  database := database w; storage := storage w; queue := Some q; sieveManager := sieveManager w; vacationMgr := vacationMgr w;
  vacationReplies := vacationReplies w; replyLog := replyLog w; calls := calls w |}.
Definition with_sieve m (w : Server) : Server := {|
  database := database w; storage := storage w; queue := queue w; sieveManager := m; vacationMgr := vacationMgr w;
  vacationReplies := vacationReplies w; replyLog := replyLog w; calls := calls w |}.
Definition with_replies r (w : Server) : Server := {|
  database := database w; storage := storage w; queue := queue w; sieveManager := sieveManager w; vacationMgr := vacationMgr w;
  vacationReplies := Some r; replyLog := replyLog w; calls := calls w |}.
Definition with_log f (w : Server) : Server := {|
  database := database w; storage := storage w; queue := queue w; sieveManager := sieveManager w; vacationMgr := vacationMgr w;
  vacationReplies := vacationReplies w; replyLog := f (replyLog w); calls := calls w |}.
Definition called (w : Server) : Server := {|
  database := database w; storage := storage w; queue := queue w; sieveManager := sieveManager w; vacationMgr := vacationMgr w;
  vacationReplies := vacationReplies w; replyLog := replyLog w; calls := S (calls w) |}.

(** A new process: nothing in memory. *)
Definition restarted (w : Server) : Server := {|
  database := database w; storage := storage w; queue := queue w; sieveManager := sieveManager w; vacationMgr := vacationMgr w;
  vacationReplies := None; replyLog := replyLog w; calls := calls w |}.

(** What one call gets from outside. *)
Record Outside := { o_now : Z; o_id : gostring; o_messageID : gostring; o_boundary : gostring; o_ok : bool }.

(** The settings of [sendVacationReplyCtx]. *)
Record settings := {
  s_enabled : bool; s_subject : gostring; s_message : gostring; s_start : gostring; s_end : gostring;
  s_interval : Z; s_exclude : list gostring; s_lists : bool; s_bulk : bool
}.

(** The library functions. *)
Class ReplyStd := {
  QEncode : gostring -> gostring;                   (* mime.QEncoding.Encode *)
  quotedPrintable : gostring -> gostring;           (* mime/quotedprintable *)
  rfc1123 : Z -> gostring;                          (* Time.Format *)
  parseDate : gostring -> option Z;                 (* time.Parse, 2006-01-02 *)
  parseRFC3339 : gostring -> option Z;
  unmarshalSettings : gostring -> option settings;  (* encoding/json *)
  marshalConfig : Vacation.Config -> gostring
}.

Definition defaultVacationInterval : Z := 7 * (24 * hour).

(** ** Texts *)
Definition sanitizeHeaderValue (s : gostring) : gostring := List.filter (fun c => negb (c =c? CR) && negb (c =c? LF)) s.

Definition mailHost (addr : gostring) : gostring :=
  match LastIndexByte addr "@" with
  | Some at_ => if (S at_ <? length addr)%nat then sanitizeHeaderValue (trim_path (drop (S at_) addr)) else "localhost"
  | None => "localhost"
  end.

(** CRLF and CR become LF, then every LF becomes CRLF. *)
Fixpoint vacationBody (s : gostring) : gostring :=
  match s with
  | [] => []
  | c :: s' =>
      if c =c? CR then match s' with d :: s'' => if d =c? LF then CRLF ++ vacationBody s'' else CRLF ++ vacationBody s' | [] => CRLF end
      else if c =c? LF then CRLF ++ vacationBody s' else c :: vacationBody s'
  end.

(** The lines of a text whose line ends are CRLF. *)
Definition crlf_split (s : gostring) : list gostring := map (fun l => TrimSuffix l [CR]) (Split s LF).

Section Reply.
Context {U : UnicodeTables} {N : NetMail} {R : Regexp} {M : MessageStd} {H : MailHeader} {C : Crypto} {RS : ReplyStd}.
Context (qcfg : Queue.Config) (hasDataDir : bool) (iter : forall A : Type, gmap gostring A -> list (gostring * A)).
Context (out : nat -> Outside).
Implicit Types w : Server.

Definition vacationBodyEncoded (s : gostring) : gostring * gostring :=
  let body := vacationBody s in
  let plain := forallb (fun line => (length line <=? 998)%nat && isASCII line) (crlf_split body) in
  if plain then ("7bit" : gostring, body) else ("quoted-printable" : gostring, quotedPrintable body).

Definition norm_address (a : gostring) : gostring :=
  ToLower (ReplaceAll (TrimSuffix (TrimPrefix (TrimSpace a) "<") ">") "|" "__").
Definition vacationDedupKey (recipient sender : gostring) : gostring := norm_address recipient ++ "|" ++ norm_address sender.

Definition format_bool (b : bool) : gostring := if b then "true" else "false".
Definition sieveVacationHandle (va : VacationAction) : gostring :=
  if negb (bool_decide (Handle va = [])) then "h:" ++ Handle va
  else "d:" ++ EncodeToString (take 16 (sha256 (Quote (SieveExec.Subject va) ++ [byte_of 0] ++ Quote (VBody va) ++ [byte_of 0] ++ format_bool (Mime va)))).
Definition sieveVacationKey (recipient sender : gostring) (va : VacationAction) : gostring :=
  vacationDedupKey recipient sender ++ "|" ++ sieveVacationHandle va.

(** One field of a header, on a line of its own. *)
Definition field (name value : gostring) : gostring := name ++ ": " ++ value ++ CRLF.

Definition autoReplyHeaders (from to subject : gostring) (now : Z) (host transferEncoding : gostring) : gostring :=
  field "From" (sanitizeHeaderValue from) ++ field "To" (sanitizeHeaderValue to) ++ field "Subject" (QEncode (sanitizeHeaderValue subject)) ++
  field "Date" (rfc1123 now) ++ field "Message-ID" ("<vacation." ++ FormatInt now ++ "@" ++ host ++ ">") ++ field "MIME-Version" "1.0" ++
  field "Content-Type" "text/plain; charset=utf-8" ++ field "Content-Transfer-Encoding" transferEncoding ++
  field "Auto-Submitted" "auto-replied" ++ field "Precedence" "bulk" ++ field "X-Auto-Response-Suppress" "All".

(** ** Rules on the message *)
Definition vacationSuppressedByHeaders (h : list (gostring * list gostring)) : bool :=
  let as_ := TrimSpace (hdr_get "Auto-Submitted" h) in
  (negb (bool_decide (as_ = [])) && negb (EqualFold as_ "no")) ||
  bool_decide (ToLower (TrimSpace (hdr_get "Precedence" h)) ∈ ["bulk" : gostring; "list" : gostring; "junk" : gostring]) ||
  existsb (fun name => negb (bool_decide (TrimSpace (hdr_get name h) = [])))
  ["List-Id" : gostring; "List-Post" : gostring; "List-Unsubscribe" : gostring; "X-Auto-Response-Suppress" : gostring].

Definition own_address (mailbox rcpt : gostring) (extra : list gostring) (db : DB) (a : gostring) : bool :=
  EqualFold a mailbox || EqualFold a rcpt ||
  existsb (fun e => match ParseAddress (TrimSpace e) with Some ea => EqualFold ea a | None => false end) extra ||
  routesToMailbox a mailbox db.

(** The addresses of a header, field by field; a field that does not parse has none. *)
Definition header_addresses (h : list (gostring * list gostring)) : list gostring :=
  concat (map (fun name => concat (map (fun v => default [] (ParseAddressList v)) (hdr_values name h)))
    ["To" : gostring; "Cc" : gostring; "Bcc" : gostring; "Resent-To" : gostring; "Resent-Cc" : gostring; "Resent-Bcc" : gostring]).

Definition vacationMatchedAddress (h : list (gostring * list gostring)) (mailbox rcpt : gostring) (extra : list gostring) (db : DB) : gostring :=
  default [] (List.find (own_address mailbox rcpt extra db) (header_addresses h)).

Definition parseVacationDate (v : gostring) : option (Z * bool) :=
  match parseDate v with
  | Some d => Some (d, true)
  | None => match parseRFC3339 v with Some d => Some (d, false) | None => None end
  end.

(** ** Calls to outside *)
Definition ask w : Outside * Server := (out (calls w), called w).

(** [Enqueue] on the server's queue. *)
Definition enqueue (from : gostring) (to : list gostring) (message : gostring) w : bool * Server :=
  match queue w with
  | None => (false, w)
  | Some q =>
      let '(o, w) := ask w in
      let '(r, q) := Enqueue qcfg (o_now o) (o_id o) (o_ok o) from to message q in
      (bool_decide (is_Some r), with_queue q w)
  end.

(** ** Who was answered *)
Definition load_reply (now : Z) (m : gmap gostring Z) (l : Accounts.Row (gostring * Z)) : gmap gostring Z :=
  match l with
  | Accounts.Corrupt => m
  | Accounts.Stored (key, until) =>
      if until <=? now then m
      else if default zero_time (m !! key) <? until then <[key := until]> m else m
  end.

(** The map, read from the file if there is none. *)
Definition loadVacationRepliesLocked w : gmap gostring Z * Server :=
  match vacationReplies w with
  | Some m => (m, w)
  | None =>
      if hasDataDir then let '(o, w) := ask w in
      let m := if o_ok o then foldl (load_reply (o_now o)) ∅ (replyLog w) else ∅ in (m, with_replies m w)
      else (∅, with_replies ∅ w)
  end.

Definition persistVacationReplyLocked (key : gostring) (until : Z) w : Server :=
  if hasDataDir then let '(o, w) := ask w in
  if o_ok o then with_log (fun l => l ++ [Accounts.Stored (json_string key, until)]) w else w
  else w.

Definition rewriteVacationRepliesLocked (m : gmap gostring Z) w : Server :=
  if hasDataDir then let '(o, w) := ask w in
  if o_ok o then with_log (fun _ => map (fun '(k, u) => Accounts.Stored (json_string k, u)) (iter Z m)) w else w
  else w.

Definition live_replies (now : Z) (m : gmap gostring Z) : gmap gostring Z := base.filter (fun e => now - 48 * hour <= snd e) m.

Definition cleanupVacationRepliesLocked (m : gmap gostring Z) w : Server :=
  let '(o, w) := ask w in
  let m := live_replies (o_now o) m in
  rewriteVacationRepliesLocked m (with_replies m w).

(** The hourly sweep: a map that was not read yet is an empty one here. *)
Definition cleanupVacationReplies w : Server :=
  let '(o, w) := ask w in
  match vacationReplies w with
  | Some m => let m := live_replies (o_now o) m in rewriteVacationRepliesLocked m (with_replies m w)
  | None => rewriteVacationRepliesLocked ∅ w
  end.

Definition claimVacationReply (key : gostring) (now interval : Z) w : bool * Server :=
  let interval := if interval <=? 0 then defaultVacationInterval else interval in
  let '(m, w) := loadVacationRepliesLocked w in
  if match m !! key with Some until => now <? until | None => false end then (false, w)
  else
  let until := now + interval in
  let m := <[key := until]> m in
  let w := persistVacationReplyLocked key until (with_replies m w) in
  (true, if (100 <? base.size m)%nat then cleanupVacationRepliesLocked m w else w).

(** ** Replies of scripts *)
Definition or_text (s d : gostring) : gostring := if bool_decide (s = []) then d else s.

Definition handleSieveVacationAs (sender recipient matched : gostring) (va : VacationAction) w : Server :=
  if bool_decide (queue w = None) then w else
  if IsAutomatedSender sender || EqualFold (trim_path sender) recipient then w else
  let sendInterval := wrap_i64 (Seconds va * second) in
  let '(o, w) := ask w in
  let now := o_now o in
  let '(may, w) := if 0 <? sendInterval then claimVacationReply (sieveVacationKey recipient sender va) now sendInterval w else (true, w) in
  if negb may then w else
  let subject := or_text (SieveExec.Subject va) "Automated reply" in
  let body := or_text (VBody va) "I'm currently on vacation and will reply when I return." in
  let fromAddr := or_text (VFrom va) (or_text matched recipient) in
  let '(cte, encodedBody) := vacationBodyEncoded body in
  let vacationMsg := autoReplyHeaders fromAddr sender subject now (mailHost recipient) cte ++
  field "X-Mail-Loop" ("<" ++ sanitizeHeaderValue recipient ++ ">") ++ CRLF ++ encodedBody in
  snd (enqueue [] [sender] vacationMsg w).

Definition sieveVacationReply (mailbox rcpt from data : gostring) (va : VacationAction) w : Server :=
  let h := default [] (ReadHeader data) in
  let matched := vacationMatchedAddress h mailbox rcpt (Addresses va) (database w) in
  if bool_decide (matched = []) || vacationSuppressedByHeaders h then w else
  let window := if SecondsSet va then wrap_i64 (Seconds va * second) else wrap_i64 (Days va * (24 * hour)) in
  let '(o, w) := ask w in
  let '(may, m) := CheckAndRecordVacationFor (o_now o) (sieveVacationKey rcpt from va) window (sieveManager w) in
  let w := with_sieve m w in
  if may then handleSieveVacationAs from rcpt matched va w else w.

(** ** Replies of the account's settings *)
Record vacationMsgInfo := { i_messageID : gostring; i_subject : gostring; i_references : list gostring; i_headers : list (gostring * gostring) }.
Definition no_info : vacationMsgInfo := {| i_messageID := []; i_subject := []; i_references := []; i_headers := [] |}.

Definition parseThreadHeaders (data : gostring) : gostring * list gostring :=
  match ReadHeader data with
  | None => ([], [])
  | Some h =>
      (TrimSpace (hdr_get "In-Reply-To" h),
        List.filter (fun ref => negb (bool_decide (ref = []))) (map TrimSpace (concat (map Fields (hdr_values "References" h)))))
  end.

Definition vacationInfoFromMessage (data : gostring) : vacationMsgInfo :=
  match ReadHeader data with
  | None => no_info
  | Some h => {|
    i_messageID := sanitizeHeaderValue (TrimSpace (hdr_get "Message-Id" h));
    i_subject := sanitizeHeaderValue (TrimSpace (hdr_get "Subject" h));
    i_references := snd (parseThreadHeaders data);
    i_headers := omap (fun '(k, vs) => match vs with v :: _ => Some (k, v) | [] => None end) h |}
  end.

Definition config_of (s : settings) : Vacation.Config := {|
  Enabled := true;
  StartDate := if bool_decide (s_start s = []) then zero_time else match parseVacationDate (s_start s) with Some (t, _) => t | None => zero_time end;
  EndDate := if bool_decide (s_end s = []) then zero_time else
  match parseVacationDate (s_end s) with Some (t, dateOnly) => if dateOnly then t + 24 * hour - 1 else t | None => zero_time end;
  Subject := s_subject s; Message := s_message s; HTMLMessage := []; SendInterval := s_interval s; ExcludeAddresses := s_exclude s;
  IgnoreLists := s_lists s; IgnoreBulk := s_bulk s |}.

(** The first reference and the last nineteen, when there are more than twenty. *)
Definition cap_refs (refs : list gostring) : list gostring :=
  if (20 <? length refs)%nat then take 1 refs ++ drop (length refs - 19) refs else refs.

Definition reply_text (s : settings) (recipientEmail senderEmail origRcpt : gostring) (info : vacationMsgInfo) (now : Z) (db : DB) : gostring :=
  let subject := or_text (TrimSpace (sanitizeHeaderValue (s_subject s))) "Auto: Out of Office" in
  let subject := if bool_decide (TrimSpace (s_subject s) = []) && negb (bool_decide (i_subject info = [])) then "Auto: " ++ i_subject info else subject in
  let fromAddr := match ParseAddress (TrimSpace origRcpt) with
  | Some a => if negb (bool_decide (origRcpt = [])) && routesToMailbox a recipientEmail db then a else recipientEmail
  | None => recipientEmail
  end in
  let extra := if bool_decide (i_messageID info = []) then [] else
  field "In-Reply-To" (i_messageID info) ++
  field "References" (sanitizeHeaderValue (Join (cap_refs (i_references info ++ [i_messageID info])) " ")) in
  let '(cte, encodedBody) := vacationBodyEncoded (s_message s) in
  autoReplyHeaders fromAddr senderEmail subject now (mailHost recipientEmail) cte ++ extra ++ CRLF ++ encodedBody.

Definition sendVacationReplyCtx (recipientEmail senderEmail origRcpt : gostring) (info : vacationMsgInfo) (settingsJSON : gostring) w : Server :=
  match unmarshalSettings settingsJSON with
  | None => w
  | Some s =>
      if negb (s_enabled s) then w else
      let '(o, w) := ask w in
      let now := o_now o in
      if IsAutomatedSender senderEmail then w else
      match Eligible (Some (config_of s)) recipientEmail senderEmail (i_headers info) now with
      | None => w
      | Some eff =>
          if negb (bool_decide (origRcpt = [])) && EqualFold (trim_path senderEmail) (trim_path origRcpt) then w else
          if routesToMailbox senderEmail recipientEmail (database w) then w else
          let '(may, w) := claimVacationReply (vacationDedupKey recipientEmail senderEmail) now (SendInterval eff) w in
          if negb may then w else
          snd (enqueue [] [senderEmail] (reply_text s recipientEmail senderEmail origRcpt info now (database w)) w)
      end
  end.

Definition effectiveVacationSettings (email accountSettings : gostring) w : gostring :=
  if negb (bool_decide (accountSettings = [])) then accountSettings else
  match vacationMgr w with
  | None => accountSettings
  | Some m => let cfg := Vacation.GetConfig email m in if Enabled cfg then marshalConfig cfg else []
  end.
End Reply.
