(* ===== verification/AutoReplyProps.v ===== *)
(** * Properties of vacation settings and automatic replies

    The name of a settings file leads back to its user, and a restart restores the
    settings.  Who was answered stays recorded through sweeps and restarts, until the
    window of the reply has passed. *)
From S2P Require Import Prelude GoLib Utf8 Base64 Bolt Scram BlobStore SmtpData Dsn Queue ImapStore SieveParse SieveMatch SieveCompile SieveExec Accounts SieveManager Routing AutoReply Vacation.

(** ** Names of files *)
Lemma URLEncoding_valid : valid_encoding URLEncoding.
Proof. split_and!; [done | | done]. eapply bool_decide_unpack. vm_compute. exact I. Qed.

Definition RawURL : encoding := {| alphabet := alphabet URLEncoding; padded := false; strict := false |}.

Lemma RawURL_valid : valid_encoding RawURL.
Proof. exact URLEncoding_valid. Qed.

(** Bounds of the sextets of a group. *)
Ltac group_bounds a b c :=
  pose proof (bz_range a); pose proof (bz_range b); pose proof (bz_range c); Z.to_euclidean_division_equations; lia.

(** The padded form fills the last group of four. *)
Lemma encode_raw x : exists k, encode URLEncoding x = encode RawURL x ++ repeat pad_char k /\ (k <= 2)%nat /\
  ((length (encode RawURL x) + k) mod 4 = 0)%nat.
Proof.
  induction x as [| a | a b | a b c t (k & IH & Hk & Hm)] using triple_ind.
  - exists 0%nat. split_and!; [reflexivity | lia | reflexivity].
  - exists 2%nat. split_and!; [reflexivity | lia | reflexivity].
  - exists 1%nat. split_and!; [reflexivity | lia | reflexivity].
  - exists k. split_and!; [cbn [encode app]; by rewrite IH | done |].
    cbn [encode app length]. replace (S (S (S (S (length (encode RawURL t))))) + k)%nat with (length (encode RawURL t) + k + 1 * 4)%nat by lia.
    by rewrite Nat.Div0.mod_add.
Qed.

Lemma raw_no_pad x : pad_char ∉ encode RawURL x.
Proof.
  assert (Hs : forall n, 0 <= n < 64 -> pad_char <> sextet_char RawURL n).
  { intros n Hn E. pose proof (sextet_not_pad RawURL RawURL_valid n Hn) as Hp. rewrite <- E in Hp. done. }
  induction x as [| a | a b | a b c t IH] using triple_ind; cbn [encode padded RawURL app]; rewrite ?not_elem_of_cons; split_and?;
    try apply not_elem_of_nil; try exact IH; apply Hs; group_bounds a a a || group_bounds a b a || group_bounds a b c.
Qed.

Lemma TrimRight_repeat s c k : (c ∉ s) -> TrimRight (s ++ repeat c k) [c] = s.
Proof.
  intros Hs. unfold TrimRight. rewrite rev_app_distr.
  assert (Hr : rev (repeat c k) = repeat c k).
  { induction k as [| k IH]; [done |]. cbn [repeat rev]. rewrite IH. symmetry. apply repeat_cons. }
  rewrite Hr. clear Hr. assert (Hc : in_set [c] c = true) by (cbn; by rewrite Ascii.eqb_refl).
  induction k as [| k IH]; [| cbn [repeat app TrimLeft]; by rewrite Hc].
  cbn [repeat app]. destruct (rev s) as [| d r] eqn:E; [cbn; by rewrite <- (rev_involutive s), E |].
  assert (Hd : d <> c). { intros ->. apply Hs. apply list_elem_of_In, in_rev. rewrite E. by left. }
  cbn [TrimLeft]. assert (Hi : in_set [c] d = false) by (cbn; rewrite orb_false_r; apply Ascii.eqb_neq; congruence).
  rewrite Hi, <- E. apply rev_involutive.
Qed.

Lemma sanitize_raw x : sanitizeFilename x = encode RawURL x.
Proof. unfold sanitizeFilename. destruct (encode_raw x) as (k & -> & _). apply (TrimRight_repeat _ pad_char), raw_no_pad. Qed.

(** In the name of an ASCII address an underscore only ends a group of four. *)
Lemma sextet_bar n : 0 <= n < 64 -> sextet_char RawURL n = "_"%char -> n = 63.
Proof.
  intros Hn E. pose proof (sextet_roundtrip RawURL RawURL_valid n Hn) as Hr. rewrite E in Hr.
  change (char_sextet RawURL "_") with (Some 63) in Hr. congruence.
Qed.

Lemma bar_places x i : isASCII x = true -> encode RawURL x !! i = Some "_"%char -> (i mod 4 = 3)%nat.
Proof.
  assert (Hb : forall d, is_ascii d = true -> 0 <= bz d < 128) by (intros d Hd; unfold is_ascii in Hd; pose proof (bz_range d); lia).
  revert i. induction x as [| a | a b | a b c t IH] using triple_ind; intros i Hx; unfold isASCII in Hx; cbn [forallb] in Hx; breflect;
    repeat match goal with Hd : is_ascii ?d = true |- _ => apply Hb in Hd end; cbn [encode padded RawURL app].
  - done.
  - destruct i as [| [| i]]; [| | done]; intros [= E]; apply sextet_bar in E; try group_bounds a a a; exfalso; revert E; group_bounds a a a.
  - destruct i as [| [| [| i]]]; [| | | done]; intros [= E]; apply sextet_bar in E; try group_bounds a b a; exfalso; revert E; group_bounds a b a.
  - destruct i as [| [| [| [| i]]]]; [| | | done |].
    1-3: intros [= E]; apply sextet_bar in E; try group_bounds a b c; exfalso; revert E; group_bounds a b c.
    intros E. change (S (S (S (S i)))) with (4 + i)%nat. replace (4 + i)%nat with (i + 1 * 4)%nat by lia. rewrite Nat.Div0.mod_add. by apply IH.
Qed.

Lemma no_legacy_mark x : isASCII x = true -> GoLib.Contains (encode RawURL x) "_at_" = false.
Proof.
  intros Hx. destruct (GoLib.Contains _ _) eqn:E; [exfalso | done]. unfold GoLib.Contains in E.
  destruct (Index (encode RawURL x) "_at_") as [i |] eqn:Ei; [| done]. destruct (Index_split _ _ _ Ei) as [[r Hr] _].
  assert (Hl : (i <= length (encode RawURL x))%nat).
  { pose proof (f_equal length Hr) as Hlen. rewrite length_app, length_take, length_app in Hlen. cbn in Hlen. lia. }
  assert (Ha : encode RawURL x !! i = Some "_"%char).
  { rewrite Hr, lookup_app_r by (rewrite length_take; lia). rewrite length_take, Nat.min_l, Nat.sub_diag by done. done. }
  assert (Hb : encode RawURL x !! (i + 3)%nat = Some "_"%char).
  { rewrite Hr, lookup_app_r by (rewrite length_take; lia). rewrite length_take, Nat.min_l by done. by replace (i + 3 - i)%nat with 3%nat by lia. }
  apply bar_places in Ha, Hb; [| done | done].
  pose proof (Nat.div_mod_eq i 4). pose proof (Nat.div_mod_eq (i + 3) 4). lia.
Qed.

Lemma unsanitize_sanitize x : isASCII x = true -> x <> [] -> unsanitizeFilename (sanitizeFilename x) = x.
Proof.
  intros Hx Hne. rewrite sanitize_raw. unfold unsanitizeFilename. rewrite no_legacy_mark by done. cbv zeta.
  destruct (encode_raw x) as (k & He & Hk & Hm). set (n := length (encode RawURL x)) in *.
  assert (Hp : (if (4 - n mod 4 <? 4)%nat then encode RawURL x ++ repeat pad_char (4 - n mod 4) else encode RawURL x) = encode URLEncoding x).
  { rewrite He. pose proof (Nat.div_mod_eq n 4). pose proof (Nat.div_mod_eq (n + k) 4). pose proof (Nat.mod_upper_bound n 4).
    destruct (Nat.ltb_spec (4 - n mod 4) 4); [f_equal; f_equal; lia |]. replace k with 0%nat by lia. by rewrite app_nil_r. }
  rewrite Hp, (decode_encode URLEncoding URLEncoding_valid). by destruct x.
Qed.

(** ** Restart *)
Section Restart.
Context {U : UnicodeTables} (iter : forall A : Type, gmap gostring A -> list (gostring * A)).

(** The operations that change something; a settings file is removed without an
    error. *)
Inductive Op :=
  | OSetConfig (saved : bool) (email : gostring) (config : Config)
  | ODeleteConfig (email : gostring)
  | OCheckAndRecord (appended compacted : bool) (now now2 now3 : Z) (user sender : gostring) (headers : list (gostring * gostring))
  | ORecordSent (appended compacted : bool) (now : Z) (user sender : gostring).

Definition exec (m : Manager) (o : Op) : Manager :=
  match o with
  | OSetConfig saved email config => snd (SetConfig saved email config m)
  | ODeleteConfig email => snd (DeleteConfig true email m)
  | OCheckAndRecord a c n n2 n3 user sender h => snd (CheckAndRecordAutoReply iter a c n n2 n3 user sender h m)
  | ORecordSent a c n user sender => RecordAutoReplySent iter a c n user sender m
  end.

Definition empty_dir : Manager := {| configs := ∅; sentCache := ∅; pruneAt := ∅; configFiles := ∅; replyFiles := ∅ |}.

(** The addresses settings are made for. *)
Definition plain_op (o : Op) : bool :=
  match o with
  | OSetConfig _ email _ | ODeleteConfig email => isASCII email && negb (bool_decide (email = []))
  | _ => true
  end.

(** Every user with settings has a file with them, and there are no others. *)
Record Filed (m : Manager) : Prop := {
  has_file e c : configs m !! e = Some c -> isASCII e = true /\ e <> [] /\ configFiles m !! config_file e = Some (Stored (json_config c));
  has_user n r : configFiles m !! n = Some r -> exists e c, configs m !! e = Some c /\ n = config_file e
}.

Lemma config_name e : isASCII e = true -> e <> [] -> unsanitizeFilename (TrimSuffix (config_file e) ".json") = e.
Proof. intros Ha He. unfold config_file. rewrite TrimSuffix_app. by apply unsanitize_sanitize. Qed.

Lemma config_file_inj e e' : isASCII e = true -> e <> [] -> isASCII e' = true -> e' <> [] -> config_file e = config_file e' -> e = e'.
Proof. intros Ha He Ha' He' E. rewrite <- (config_name e), <- (config_name e') by done. by rewrite E. Qed.

Lemma rewriteReplies_configs c u cache m : configs (rewriteReplies iter c u cache m) = configs m /\ configFiles (rewriteReplies iter c u cache m) = configFiles m.
Proof. unfold rewriteReplies. by destruct c. Qed.

Lemma recordLocked_configs a c n u s i m : configs (recordLocked iter a c n u s i m) = configs m /\ configFiles (recordLocked iter a c n u s i m) = configFiles m.
Proof.
  unfold recordLocked. cbv zeta. unfold appendReply. destruct a; (split_if; [done |]);
    match goal with |- context [rewriteReplies iter ?c ?u ?k ?m'] => destruct (rewriteReplies_configs c u k m') as [-> ->] end; done.
Qed.

Lemma loadReplies_configs c n u i m : configs (loadReplies iter c n u i m) = configs m.
Proof.
  unfold loadReplies. destruct (replyFiles m !! repliesPath u); [| done]. cbv zeta. split_if; [done |].
  match goal with |- context [rewriteReplies iter ?c ?u ?k ?m'] => exact (proj1 (rewriteReplies_configs c u k m')) end.
Qed.

Lemma exec_filed m o : Filed m -> plain_op o = true -> Filed (exec m o).
Proof.
  intros F Ho. destruct o as [saved email config | email | a c n n2 n3 user sender h | a c n user sender]; cbn [exec plain_op] in *.
  - breflect. unfold SetConfig. repeat (split_if; [exact F |]). cbv zeta. set (config' := if SendInterval config <=? 0 then _ else _).
    repeat (split_if; [exact F |]). set (m' := set_configs _ _).
    assert (F' : Filed m').
    { constructor; cbn.
      - intros e c [[<- <-] | [Hne Hc]]%lookup_insert_Some; [split_and!; [done | done | apply lookup_insert_eq] |].
        destruct (has_file m F e c Hc) as (Ha & He & Hf). split_and!; [done | done |]. rewrite lookup_insert_ne; [done |].
        intros Heq. by apply config_file_inj in Heq.
      - intros n r [[<- _] | [Hne Hn]]%lookup_insert_Some; [exists email, config'; split; [apply lookup_insert_eq | done] |].
        destruct (has_user m F n r Hn) as (e & c & Hc & ->). exists e, c. split; [| done]. rewrite lookup_insert_ne; [done |]. by intros ->. }
    split_if; [destruct F' as [F1 F2]; constructor; [exact F1 | exact F2] | exact F'].
  - breflect. unfold DeleteConfig. cbv zeta. cbn [snd]. constructor; cbn.
    + intros e c [Hne Hc]%lookup_delete_Some. destruct (has_file m F e c Hc) as (Ha & He & Hf). split_and!; [done | done |].
      rewrite lookup_delete_ne; [done |]. intros Heq. by apply config_file_inj in Heq.
    + intros n r [Hne Hn]%lookup_delete_Some. destruct (has_user m F n r Hn) as (e & c & Hc & ->). exists e, c. split; [| done].
      rewrite lookup_delete_ne; [done |]. by intros ->.
  - unfold CheckAndRecordAutoReply. destruct (eligibleConfig _ _ _ _ _) as [cfg |]; [| exact F]. split_if; [exact F |]. cbn [snd].
    constructor; rewrite (proj1 (recordLocked_configs _ _ _ _ _ _ _)), (proj2 (recordLocked_configs _ _ _ _ _ _ _)); apply F.
  - unfold RecordAutoReplySent. constructor; rewrite (proj1 (recordLocked_configs _ _ _ _ _ _ _)), (proj2 (recordLocked_configs _ _ _ _ _ _ _)); apply F.
Qed.

Lemma run_filed ops m : Filed m -> forallb plain_op ops = true -> Filed (foldl exec m ops).
Proof.
  revert m. induction ops as [| o ops IH]; intros m F Ho; [exact F |]. cbn [forallb] in Ho. breflect. cbn [foldl]. apply IH; [| done]. by apply exec_filed.
Qed.

(** Reading the files in some order. *)
Definition named (f : gostring * Row Config) : Prop := exists e c, f = (config_file e, Stored c) /\ isASCII e = true /\ e <> [].

Lemma load_config_named m e c : isASCII e = true -> e <> [] -> load_config m (config_file e, Stored c) = set_configs <[e := c]> m.
Proof. intros Ha He. cbn [load_config]. unfold config_file at 1. rewrite HasSuffix_app. by rewrite config_name. Qed.

Lemma load_sound l m e c : Forall named l -> isASCII e = true -> e <> [] -> configs (foldl load_config m l) !! e = Some c ->
  (config_file e, Stored c) ∈ l \/ configs m !! e = Some c.
Proof.
  intros Hl Ha He. revert m. induction Hl as [| f l (e' & c' & -> & Ha' & He') Hl IH]; intros m; cbn [foldl]; [auto |].
  rewrite load_config_named by done. intros [Hin | Hc]%IH; [left; by right |]. cbn in Hc.
  apply lookup_insert_Some in Hc as [[-> ->] | [_ Hc]]; [left; left | by right].
Qed.

Lemma load_complete l m e c : Forall named l -> isASCII e = true -> e <> [] -> (config_file e, Stored c) ∈ l \/ is_Some (configs m !! e) ->
  is_Some (configs (foldl load_config m l) !! e).
Proof.
  intros Hl Ha He. revert m. induction Hl as [| f l (e' & c' & -> & Ha' & He') Hl IH]; intros m Hc; cbn [foldl].
  - destruct Hc as [Hc | Hc]; [by apply not_elem_of_nil in Hc | done].
  - rewrite load_config_named by done. apply IH. destruct Hc as [Hc | Hc].
    + apply elem_of_cons in Hc as [[= E <-] | Hc]; [| by left]. right. apply config_file_inj in E; [subst | done..]. cbn. rewrite lookup_insert_eq. by eexists.
    + right. cbn. apply lookup_insert_is_Some. destruct (decide (e' = e)); auto.
Qed.
End Restart.

(** A restart restores the settings: after any sequence of operations on an empty
    directory, for users with ASCII addresses, a new process that reads the files has
    the settings of every user as JSON keeps them, and no others. *)
Theorem settings_survive {U : UnicodeTables} iter (ops : list Op) compacted now : forallb plain_op ops = true ->
  let m := foldl (exec iter) empty_dir ops in
  configs (NewManager iter compacted now (configFiles m) (replyFiles m)) = json_config <$> configs m.
Proof.
  intros Ho m. assert (F : Filed m). { apply run_filed; [| done]. constructor; cbn; intros *; by rewrite lookup_empty. }
  unfold NewManager, loadConfigs. set (m0 := {| configs := ∅ |}). change (configFiles m0) with (configFiles m). set (m1 := foldl load_config m0 _).
  assert (E : forall l, configs (foldl (fun m '(email, config) => loadReplies iter (compacted email) (now email) email (SendInterval config) m) m1 l) = configs m1).
  { intros l. generalize m1. induction l as [| [e c] l IH]; intros x; [done |]. cbn [foldl]. by rewrite IH, loadReplies_configs. }
  rewrite E. clear E. assert (Hn : Forall named (cursor (configFiles m))).
  { apply Forall_forall. intros [n r] Hin%elem_of_cursor. destruct (has_user m F n r Hin) as (e & c & Hc & ->).
    destruct (has_file m F e c Hc) as (Ha & He & Hf). exists e, (json_config c). split_and!; [congruence | done | done]. }
  apply map_eq. intros e. rewrite lookup_fmap. destruct (configs m !! e) as [c |] eqn:Ec; cbn [fmap option_fmap option_map].
  - destruct (has_file m F e c Ec) as (Ha & He & Hf).
    destruct (load_complete (cursor (configFiles m)) m0 e (json_config c) Hn Ha He) as [c' Hc']; [left; by apply elem_of_cursor |].
    fold m1 in Hc'. rewrite Hc'. apply load_sound in Hc' as [Hin%elem_of_cursor | H0]; [congruence | cbn in H0; by rewrite lookup_empty in H0 | done..].
  - apply eq_None_not_Some. intros [c Hc]. destruct (decide (isASCII e = true /\ e <> [])) as [[Ha He] | Hbad].
    + apply load_sound in Hc as [Hin%elem_of_cursor | H0]; [| cbn in H0; by rewrite lookup_empty in H0 | done..].
      destruct (has_user m F _ _ Hin) as (e' & c' & Hc' & E). destruct (has_file m F e' c' Hc') as (Ha' & He' & _).
      apply config_file_inj in E; [congruence | done..].
    + assert (Hk : forall l x, Forall named l -> configs x !! e = None -> configs (foldl load_config x l) !! e = None).
      { intros l x Hl. revert x. induction Hl as [| f l (e' & c' & -> & Ha' & He') Hl IH]; intros x Hx; [done |]. cbn [foldl].
        rewrite load_config_named by done. apply IH. cbn. rewrite lookup_insert_ne; [done |]. intros ->. by apply Hbad. }
      unfold m1 in Hc. rewrite Hk in Hc; [done | done | apply lookup_empty].
Qed.

Section Once.
Context (iter : forall A : Type, gmap gostring A -> list (gostring * A)) (out : nat -> Outside).
Context (iter_spec : forall (m : gmap gostring Z) k v, (k, v) ∈ iter Z m <-> m !! k = Some v).
Context (calls_ok : forall n, o_ok (out n) = true).
Implicit Types (w : Server) (m : gmap gostring Z).

Abbreviation claim := (claimVacationReply true iter out).
Abbreviation sweep := (cleanupVacationReplies true iter out).

(** What happens to the record: claims, the hourly sweep, and restarts. *)
Inductive ROp := RClaim (key : gostring) (now interval : Z) | RSweep | RRestart.
Definition rexec w (o : ROp) : Server :=
  match o with
  | RClaim key now interval => snd (claim key now interval w)
  | RSweep => sweep w
  | RRestart => restarted w
  end.

(** Sweeps come after the file was read. *)
Fixpoint tidy (ops : list ROp) w : bool :=
  match ops with
  | [] => true
  | o :: ops => match o with RSweep => bool_decide (is_Some (vacationReplies w)) | _ => true end && tidy ops (rexec w o)
  end.

(** Claims happen up to [t]. *)
Definition until_time (t : Z) (o : ROp) : Prop := match o with RClaim _ now _ => now <= t | _ => True end.

Context (key : gostring) (deadline : Z).
Context (key_json : json_string key = key).

Definition in_map m : Prop := exists u, m !! key = Some u /\ deadline <= u.
Definition in_log w : Prop := exists u, Accounts.Stored (key, u) ∈ replyLog w /\ deadline <= u.
Definition kept w : Prop := (forall m, vacationReplies w = Some m -> in_map m) /\ in_log w.

Lemma load_in_map now l m : now < deadline -> zero_time < deadline -> in_map m \/ (exists u, Accounts.Stored (key, u) ∈ l /\ deadline <= u) ->
  in_map (foldl (load_reply now) m l).
Proof.
  intros Hn Hz. revert m. induction l as [| r l IH]; intros m Hm; cbn [foldl].
  { destruct Hm as [Hm | (u & Hin & _)]; [done | by apply not_elem_of_nil in Hin]. }
  apply IH. destruct Hm as [(u & Hu & Hd) | (u & [<- | Hin]%elem_of_cons & Hd)]; [| | right; by exists u].
  - left. destruct r as [[k v] |]; [| by exists u]. cbn [load_reply]. split_if; [by exists u |].
    destruct (decide (k = key)) as [-> | Hne].
    + rewrite Hu. change (default zero_time (Some u)) with u. destruct (Z.ltb_spec u v); [exists v; rewrite lookup_insert_eq; split; [done | lia] | by exists u].
    + split_if; [exists u; by rewrite lookup_insert_ne | by exists u].
  - left. cbn [load_reply]. destruct (Z.leb_spec u now); [lia |].
    destruct (Z.ltb_spec (default zero_time (m !! key)) u) as [_ | Hle]; [exists u; rewrite lookup_insert_eq; split; [done | lia] |].
    destruct (m !! key) as [v |] eqn:Ev; cbn in Hle; [exists v; split; [done | lia] | lia].
Qed.

Lemma rewrite_kept m w : in_map m -> vacationReplies w = Some m -> kept (rewriteVacationRepliesLocked true iter out m w).
Proof.
  intros (u & Hu & Hd) Hw. unfold rewriteVacationRepliesLocked, ask. rewrite calls_ok. split; cbn.
  - intros m' Hm'. rewrite Hw in Hm'. injection Hm' as <-. by exists u.
  - exists u. split; [| done]. apply list_elem_of_fmap. exists (key, u). split; [by rewrite key_json | by apply iter_spec].
Qed.

Lemma live_in_map now m : now < deadline -> in_map m -> in_map (live_replies now m).
Proof. intros Hn (u & Hu & Hd). exists u. split; [| done]. apply map_lookup_filter_Some. split; [done |]. cbn [snd]. unfold hour, minute, second. lia. Qed.

(** The calls an operation makes are the next ones. *)
Definition early (t : Z) w : Prop := forall n, (n < calls w)%nat -> o_now (out n) <= t.

Lemma load_kept t w : t < deadline -> zero_time < deadline -> kept w -> early t (snd (loadVacationRepliesLocked true out w)) ->
  in_map (fst (loadVacationRepliesLocked true out w)) /\ kept (snd (loadVacationRepliesLocked true out w)) /\
  vacationReplies (snd (loadVacationRepliesLocked true out w)) = Some (fst (loadVacationRepliesLocked true out w)).
Proof.
  intros Ht Hz [Hm Hl]. unfold loadVacationRepliesLocked. destruct (vacationReplies w) as [m |] eqn:Ew; [cbn; intros _; split_and!; [by apply Hm | split; [intros m' E; rewrite Ew in E; injection E as <-; by apply Hm | done] | done] |].
  unfold ask. rewrite calls_ok. cbn [fst snd]. intros He. assert (Hnow : o_now (out (calls w)) <= t) by (apply He; cbn; lia).
  assert (Hi : in_map (foldl (load_reply (o_now (out (calls w)))) ∅ (replyLog (called w)))) by (apply load_in_map; [lia | done | by right]).
  split_and!; [done | | done]. split; [intros m' [= <-]; done | done].
Qed.

(** A claim before the deadline is refused. *)
Lemma claim_refused t now interval w : t < deadline -> now <= t -> zero_time < deadline -> kept w ->
  early t (snd (claim key now interval w)) -> fst (claim key now interval w) = false /\ kept (snd (claim key now interval w)).
Proof.
  intros Ht Hn Hz Hk. unfold claimVacationReply. pose proof (load_kept t w Ht Hz Hk) as Hl.
  destruct (loadVacationRepliesLocked true out w) as [m w1] eqn:E. cbn [fst snd] in Hl. cbv zeta.
  destruct (match m !! key with Some until => now <? until | None => false end) eqn:Em.
  - cbn [fst snd]. intros He. split; [done | by apply Hl].
  - intros He. exfalso. assert (He1 : early t w1).
    { intros n Hlt. apply He. revert Hlt. unfold persistVacationReplyLocked, ask. cbn [fst snd]. rewrite calls_ok.
      split_if; unfold cleanupVacationRepliesLocked, rewriteVacationRepliesLocked, ask; rewrite ?calls_ok; cbn; lia. }
    destruct (Hl He1) as ((u & Hu & Hd) & _ & _). rewrite Hu in Em. lia.
Qed.

Lemma claim_kept t k now interval w : t < deadline -> now <= t -> zero_time < deadline -> kept w \/ (k = key /\ deadline = now + (if interval <=? 0 then defaultVacationInterval else interval) /\ fst (claim k now interval w) = true) ->
  early t (snd (claim k now interval w)) -> kept (snd (claim k now interval w)).
Proof.
  intros Ht Hn Hz Hk He. destruct Hk as [Hk | (-> & Hd & Hc)].
  - destruct (decide (k = key)) as [-> | Hne]; [by apply (claim_refused t) |]. revert He. unfold claimVacationReply.
    pose proof (load_kept t w Ht Hz Hk) as Hl. destruct (loadVacationRepliesLocked true out w) as [m w1]. cbn [fst snd] in Hl. cbv zeta.
    destruct (match m !! k with Some until => now <? until | None => false end); [cbn [snd]; intros He; by apply Hl |].
    set (until := now + _). unfold persistVacationReplyLocked, ask. rewrite calls_ok. cbn [snd fst].
    destruct (100 <? _)%nat; intros He.
    + assert (He1 : early t w1). { intros n Hlt. apply He. unfold cleanupVacationRepliesLocked, rewriteVacationRepliesLocked, ask. rewrite calls_ok. cbn. lia. }
      destruct (Hl He1) as ((u & Hu & Hdu) & _ & _). unfold cleanupVacationRepliesLocked, ask. apply rewrite_kept; [| done].
      apply live_in_map; [| exists u; by rewrite lookup_insert_ne].
      apply Z.le_lt_trans with t; [| done]. apply He. unfold cleanupVacationRepliesLocked, rewriteVacationRepliesLocked, ask. rewrite calls_ok. cbn. lia.
    + destruct (Hl (fun n Hlt => He n ltac:(cbn; lia))) as ((u & Hu & Hdu) & [_ (v & Hv & Hdv)] & _). split; cbn.
      * intros m' [= <-]. exists u. by rewrite lookup_insert_ne.
      * exists v. split; [| done]. apply elem_of_app. by left.
  - revert He Hc. unfold claimVacationReply. destruct (loadVacationRepliesLocked true out w) as [m w1]. cbv zeta. rewrite <- Hd.
    split_if; [done |]. unfold persistVacationReplyLocked, ask. rewrite calls_ok. cbn [snd fst]. intros He _.
    assert (Hi : in_map (<[key:=deadline]> m)) by (exists deadline; rewrite lookup_insert_eq; split; [done | lia]).
    destruct (100 <? _)%nat.
    + unfold cleanupVacationRepliesLocked, ask. apply rewrite_kept; [| done]. apply live_in_map; [| done].
      apply Z.le_lt_trans with t; [| done]. apply He. unfold cleanupVacationRepliesLocked, rewriteVacationRepliesLocked, ask. rewrite calls_ok. cbn. lia.
    + split; cbn; [intros m' [= <-]; done |]. exists deadline. split; [| lia]. apply elem_of_app. right. rewrite key_json. by apply list_elem_of_singleton.
Qed.

Lemma rewrite_calls m w : (calls w <= calls (rewriteVacationRepliesLocked true iter out m w))%nat.
Proof. unfold rewriteVacationRepliesLocked, ask. rewrite calls_ok. cbn. lia. Qed.

Lemma claim_calls k now interval w : (calls w <= calls (snd (claim k now interval w)))%nat.
Proof.
  unfold claimVacationReply. assert (Hl : (calls w <= calls (snd (loadVacationRepliesLocked true out w)))%nat).
  { unfold loadVacationRepliesLocked, ask. destruct (vacationReplies w); cbn; lia. }
  destruct (loadVacationRepliesLocked true out w) as [m w1]. cbn [snd] in Hl. cbv zeta. split_if; [exact Hl |].
  unfold persistVacationReplyLocked, ask. rewrite calls_ok. cbn [snd].
  destruct (100 <? _)%nat; unfold cleanupVacationRepliesLocked, rewriteVacationRepliesLocked, ask; rewrite ?calls_ok; cbn; lia.
Qed.

Lemma rexec_calls w o : (calls w <= calls (rexec w o))%nat.
Proof.
  destruct o as [k now interval | |]; cbn [rexec]; [apply claim_calls | | done]. unfold cleanupVacationReplies, ask.
  destruct (vacationReplies (called w)) as [m |]; (etransitivity; [| apply rewrite_calls]); cbn; lia.
Qed.

Lemma run_calls ops w : (calls w <= calls (foldl rexec w ops))%nat.
Proof. revert w. induction ops as [| o ops IH]; intros w; [done |]. cbn [foldl]. etransitivity; [apply (rexec_calls w o) | apply IH]. Qed.

Lemma early_before t w w' : (calls w <= calls w')%nat -> early t w' -> early t w.
Proof. intros Hc He n Hn. apply He. lia. Qed.

Lemma sweep_kept t w : t < deadline -> is_Some (vacationReplies w) -> early t (sweep w) -> kept w -> kept (sweep w).
Proof.
  intros Ht [m Hm] He [Hk _]. unfold cleanupVacationReplies, ask in *. cbn [vacationReplies called] in *. rewrite Hm in *.
  apply rewrite_kept; [| done]. apply live_in_map; [| by apply Hk]. apply Z.le_lt_trans with t; [| done]. apply He.
  unfold rewriteVacationRepliesLocked, ask. rewrite calls_ok. cbn. lia.
Qed.

Lemma run_kept t ops w : t < deadline -> zero_time < deadline -> tidy ops w = true -> Forall (until_time t) ops ->
  early t (foldl rexec w ops) -> kept w -> kept (foldl rexec w ops).
Proof.
  intros Ht Hz. revert w. induction ops as [| o ops IH]; intros w Hd Hu He Hk; [exact Hk |]. cbn [tidy foldl] in *.
  apply andb_true_iff in Hd as [Hs Hd]. apply Forall_cons in Hu as [Ho Hu]. apply IH; [done | done | done |].
  assert (He1 : early t (rexec w o)) by (by apply (early_before t _ _ (run_calls ops (rexec w o)))).
  destruct o as [k now interval | |]; cbn [rexec until_time] in *.
  - apply (claim_kept t); auto.
  - apply (sweep_kept t); [done | by apply bool_decide_eq_true_1 in Hs | done | done].
  - destruct Hk as [_ Hl]. split; [done | exact Hl].
Qed.
End Once.

