(* ===== verification/Delivery.v ===== *)
(** * internal/server: the delivery of a message

    server_handlers.go and server_sieve_delivery.go: a message with its recipients is
    routed, filtered by the scripts of the users, stored in mailboxes, forwarded or
    queued, and failures are reported to the sender.  The state and the calls to
    outside are those of AutoReply.v.  [others] is what other sessions do between the
    first look at an account and the lock of its mailbox.  The text of the script
    that webmail filters compile to is a parameter, as are the library functions.
    Web hooks, push messages, the search index, metrics, logs, traces and the hooks of
    the tests (sieveFolderFault, deliverAfterAccountCheckHook) are left out; the metadata database is always there, the store of the scripts is attached,
    and a lookup of a thread does not fail. *)
From S2P Require Import Prelude GoLib Utf8 Bolt Scram BlobStore MailDb Threads SmtpData Dsn Queue ImapStore SieveParse SieveMatch SieveCompile SieveExec Accounts SieveManager Routing Vacation AutoReply.

(** ** Header fields *)
Definition TAB : ascii := byte_of 9.
Definition folded (line : gostring) : bool := match line with c :: _ => (c =c? " ") || (c =c? TAB) | [] => false end.

(** The fields up to the first empty line: name, and the line it is on. *)
Fixpoint fields_of (lines : list gostring) : list (gostring * gostring) :=
  match lines with
  | [] => []
  | l :: lines =>
      let line := TrimSuffix l [CR] in
      if bool_decide (line = []) then []
      else if folded line then fields_of lines
      else match IndexByte line ":" with
           | Some (S colon) => (TrimRight (take (S colon) line) [" "%char; TAB], l) :: fields_of lines
           | _ => fields_of lines
           end
  end.
Definition forEachHeaderField (data : gostring) : list (gostring * gostring) := fields_of (Split data LF).

Definition field_value (line : gostring) : gostring := TrimSpace (snd (fst (Cut line ":"))).

Definition maxReceivedHops : nat := 100.
Definition maxSieveRedirects : nat := 10.

(** ** Failures *)
Inductive local_error :=
| RouteFailed | NoUser | NotActive | MailboxFull
| NotStored (e : store_error) | NoMetadata
| NoQueue | ReportNotQueued.

(** DSN parameters of the transaction (RET, ENVID and one ORCPT per recipient). *)
Record DSNInfo := { d_ret : gostring; d_envid : gostring; d_orcpt : list gostring }.

Record rcptFailure := { rcpt : gostring; f_notify : gostring; f_dsn : option DSNInfo; f_orcpt : gostring; f_local : option local_error; f_diag : gostring }.

Inductive delivery_error :=
| ServerStopping | TooManyHops
| Failures (failed : list rcptFailure)                       (* nothing was delivered *)
| FailuresUnreported (failed : list rcptFailure) (e : local_error).

Record copyState := { forwardHandled : bool; dropLocal : bool; vacationSent : bool; flags : list gostring }.
Definition no_copies : copyState := {| forwardHandled := false; dropLocal := false; vacationSent := false; flags := [] |}.
Definition with_forward (drop : bool) (st : copyState) : copyState := {| forwardHandled := true; dropLocal := drop; vacationSent := vacationSent st; flags := flags st |}.
Definition with_vacation (st : copyState) : copyState := {| forwardHandled := forwardHandled st; dropLocal := dropLocal st; vacationSent := true; flags := flags st |}.
Definition with_copy_flags (fl : list gostring) (st : copyState) : copyState := {| forwardHandled := forwardHandled st; dropLocal := dropLocal st; vacationSent := vacationSent st; flags := fl |}.

(** ** Headers that delivery adds *)
Definition BLANK : gostring := CRLF ++ CRLF.

Definition addMailLoopHeader (data addr : gostring) : gostring :=
  match Index data BLANK with
  | Some idx => take (idx + 2) data ++ "X-Mail-Loop: " ++ addr ++ CRLF ++ drop (idx + 2) data
  | None =>
      match Index data [LF; LF] with
      | Some idx => take (idx + 1) data ++ "X-Mail-Loop: " ++ addr ++ [LF] ++ drop (idx + 1) data
      | None => data
      end
  end.

(** The lines of a text with their line feeds. *)
Fixpoint lf_lines (cur s : gostring) : list gostring :=
  match s with
  | [] => if bool_decide (cur = []) then [] else [cur]
  | c :: s' => if c =c? LF then (cur ++ [c]) :: lf_lines [] s' else lf_lines (cur ++ [c]) s'
  end.

Definition header_end (data : gostring) : nat :=
  let hdrEnd := match Index data BLANK with Some i => (i + 2)%nat | None => length data end in
  match Index data [LF; LF] with Some j => if (j + 1 <? hdrEnd)%nat then (j + 1)%nat else hdrEnd | None => hdrEnd end.

Section Delivery.
Context {U : UnicodeTables} {N : NetMail} {R : Regexp} {M : MessageStd} {H : MailHeader} {C : Crypto} {RS : ReplyStd}.
Context (qcfg : Queue.Config) (hasDataDir : bool) (iter : forall A : Type, gmap gostring A -> list (gostring * A)).
Context (out : nat -> Outside) (others : nat -> Server -> Server) (late : Z -> bool) (filterSource : gostring -> gostring).
Implicit Types w : Server.

Abbreviation asks := (ask out).
Abbreviation enqueues := (enqueue qcfg out).

Definition isReturnPath (line : gostring) : bool := (12 <=? length line)%nat && EqualFold (take 12 line) "Return-Path:".

Fixpoint strip_return_path (skipping : bool) (lines : list gostring) : gostring :=
  match lines with
  | [] => []
  | line :: lines =>
      if folded line then (if skipping then [] else line) ++ strip_return_path skipping lines
      else let skipping := isReturnPath line in (if skipping then [] else line) ++ strip_return_path skipping lines
  end.

Definition path_rune (r : Z) : bool := negb ((r =? 13) || (r =? 10) || (r =? 60) || (r =? 62)).

Definition addReturnPath (data from : gostring) : gostring :=
  let from := encode_runes (List.filter path_rune (runes from)) in
  let hdrEnd := header_end data in
  "Return-Path: <" ++ from ++ ">" ++ CRLF ++ strip_return_path false (lf_lines [] (take hdrEnd data)) ++ drop hdrEnd data.

(** ** Questions about a message *)
Definition hasSpamVerdict (data : gostring) : bool :=
  existsb (fun '(name, line) => EqualFold name "X-Spam-Status" && (3 <=? length (field_value line))%nat && EqualFold (take 3 (field_value line)) "yes")
  (forEachHeaderField data).

Definition received_fields (data : gostring) : nat := length (List.filter (fun '(name, _) => EqualFold name "Received") (forEachHeaderField data)).
Definition checkHopCount (data : gostring) : bool := (received_fields data <=? maxReceivedHops)%nat.

Definition rcptDedupKey (r : route) : gostring :=
  match r with
  | ToExternal external => "x:" ++ ToLower external
  | ToMailbox user domain => "l:" ++ ToLower user ++ "@" ++ ToLower domain
  end.

Definition getMailLoopHeaders (data : gostring) : list gostring :=
  if bool_decide (data = []) then [] else match ReadHeader data with Some h => hdr_values "X-Mail-Loop" h | None => [] end.
Definition looped (data addr : gostring) : bool := existsb (fun loopAddr => EqualFold loopAddr addr) (getMailLoopHeaders data).

Definition forbids_reply (f : gostring * gostring) : bool :=
  let '(name, line) := f in
  let value := ToLower (field_value line) in
  if EqualFold name "Auto-Submitted" then negb (TrimSpace (fst (fst (Cut value ";"))) =s? "no")
  else if EqualFold name "Precedence" then bool_decide (value ∈ ["bulk" : gostring; "list" : gostring; "junk" : gostring])
  else (5 <=? length name)%nat && EqualFold (take 5 name) "List-".
Definition autoReplyAllowed (from data : gostring) : bool :=
  negb (bool_decide (from = [])) && negb (existsb forbids_reply (forEachHeaderField data)).

Definition parseBasicHeaders (data : gostring) : gostring * gostring * gostring * gostring :=
  match ReadHeader data with
  | None => ([], [], [], [])
  | Some h => (hdr_get "Subject" h, hdr_get "From" h, hdr_get "To" h, hdr_get "Date" h)
  end.

(** ** Relaying and reports *)
Definition relayMessage (from to data : gostring) w : bool * Server := enqueues from [to] data w.

Definition relayDSN (dsn : option DSNInfo) (orcpt : gostring) : option DSNParams :=
  match dsn with None => None | Some d => Some {| pRet := d_ret d; pEnvID := d_envid d; pORCPT := [orcpt] |} end.

(** Without a queue the message is taken for relayed. *)
Definition relayMessageWithDSN (from to : gostring) (notify : list gostring) (params : option DSNParams) (data : gostring) w : bool * Server :=
  match queue w with
  | None => (true, w)
  | Some q =>
      let '(o, w) := asks w in
      let '(r, q) := EnqueueWithDSN qcfg (o_now o) (o_id o) (o_ok o) from [to] notify params data q in
      (bool_decide (is_Some r), with_queue q w)
  end.

Definition failure_diag (f : rcptFailure) : gostring :=
  if negb (bool_decide (f_diag f = [])) then f_diag f
  else match f_local f with Some MailboxFull => "smtp; 552 5.2.2 mailbox full" | _ => "smtp; 550 5.0.0 local delivery failed" end.

Definition failure_report (from data : gostring) (f : rcptFailure) (o : Outside) : gostring :=
  GenerateDSN (o_now o) (date qcfg) (o_boundary o)
  {| ReportedDomain := "umailserver"; ArrivalDate := o_now o; OriginalFrom := from; OriginalTo := rcpt f;
    Recipient := {| Original := rcpt f; DSNAddress := []; OriginalRecipient := f_orcpt f |};
    Dsn.Action := "failed"; Status := "5.0.0"; DiagnosticCode := failure_diag f; RemoteMTA := "umailserver";
    Dsn.MessageID := o_messageID o; EnvID := match f_dsn f with Some d => d_envid d | None => [] end |} data DSNRetHeaders.

Definition unwanted (f : rcptFailure) : bool := HasNotify (ParseDSNNotify (f_notify f)) DSNNotifyNever.

Fixpoint bounce_all (from data : gostring) (failed : list rcptFailure) w : option local_error * Server :=
  match failed with
  | [] => (None, w)
  | f :: failed =>
      if unwanted f then bounce_all from data failed w else
      let '(o, w) := asks w in
      match enqueues [] [from] (failure_report from data f o) w with
      | (true, w) => bounce_all from data failed w
      | (false, w) => (Some ReportNotQueued, w)
      end
  end.

Definition bounceFailedRecipients (from data : gostring) (failed : list rcptFailure) w : option local_error * Server :=
  if bool_decide (from = []) then (None, w)
  else if bool_decide (queue w = None) then (Some NoQueue, w)
  else bounce_all from data failed w.

Definition settleDelivery (from data : gostring) (delivered : nat) (failed : list rcptFailure) w : option delivery_error * Server :=
  if bool_decide (length failed = 0%nat) then (None, w)
  else if bool_decide (delivered = 0%nat) then (Some (Failures failed), w)
  else match bounceFailedRecipients from data failed w with
  | (Some e, w) => (Some (FailuresUnreported failed e), w)
  | (None, w) => (None, w)
  end.

(** ** One copy in a mailbox *)
Definition charge (domain user : gostring) (delta : Z) w : bool * Server :=
  let '(o, w) := asks w in
  let '(r, d) := IncrementQuota (o_now o) domain user delta (database w) in
  (is_ok r, with_database d w).

(** The release of what a failed delivery charged. *)
Definition metaFail (user domain email messageID : gostring) (reserved : Z) w : Server :=
  if 0 <? reserved then
  let w := with_storage (set_files (fun fs => snd (DeleteMessageUnchecked email messageID fs)) (storage w)) w in
  snd (charge domain user (- reserved) w)
  else w.

Definition delivered_meta (messageID : gostring) (uid : Z) (fl : list gostring) (now : Z) (data threadID : gostring) : MessageMetadata :=
  let '(subject, fromAddr, toAddr, dateStr) := parseBasicHeaders data in
  let '(inReplyTo, references) := parseThreadHeaders data in
  {| MailDb.MessageID := messageID; UID := uid; Flags := ("\Recent" : gostring) :: fl; InternalDate := now; MailDb.Size := Z.of_nat (length data); ModSeq := 0;
    MailDb.Subject := subject; Date := dateStr; MailDb.From := fromAddr; MailDb.To := toAddr; InReplyTo := []; References := [];
    ThreadID := threadID; IsThreadRoot := bool_decide (inReplyTo = []) && bool_decide (references = []) |}.

(** The row of the message, its thread and the announcement; [false]: the row could
    not be written. *)
Definition store_row (email folder messageID : gostring) (uid : Z) (fl : list gostring) (data : gostring) w : bool * Server :=
  let '(subject, fromAddr, _, _) := parseBasicHeaders data in
  let '(inReplyTo, references) := parseThreadHeaders data in
  let '(o, w) := asks w in
  let '(threadID, t) := GetOrCreateThreadID (o_now o) email folder subject inReplyTo references (db (storage w)) (tdb (storage w)) in
  let w := with_storage (set_tdb (fun _ => t) (storage w)) w in
  let '(o, w) := asks w in
  if negb (o_ok o) then (false, w) else
  let meta := delivered_meta messageID uid fl (o_now o) data threadID in
  let w := with_storage (set_db (StoreMessageMetadata (o_now o) email folder uid meta) (storage w)) w in
  let '(o, w) := asks w in
  let w := if bool_decide (threadID = []) then w else
  with_storage (set_tdb (fun t => default t (RecordMessageInThread (o_now o) email threadID subject fromAddr (InternalDate meta) (Flags meta) t)) (storage w)) w in
  let n := Z.of_nat (length (GetMessageUIDs email folder (db (storage w)))) in
  (true, if 0 <? n then with_storage (notify [NewMessage email folder uid n] (storage w)) w else w).

(** The part under the lock of the mailbox. *)
Definition deliver_locked (user domain folder : gostring) (fl : list gostring) (data : gostring) w : option local_error * Server :=
  let email := user ++ "@" ++ domain in
  if negb (match GetAccount domain user (database w) with Ok a => IsActive a | Err _ => false end) then (Some NotActive, w) else
  let reserved := if MessageExists email (blob_id data) (msgStore (storage w)) then 0 else Z.of_nat (length data) in
  let '(paid, w) := if 0 <? reserved then charge domain user reserved w else (true, w) in
  if negb paid then (Some MailboxFull, w) else
  let '(o, w) := asks w in
  match StoreMessage (o_ok o) (o_now o) email data (msgStore (storage w)) with
  | (Err e, fs) =>
      let w := with_storage (set_files (fun _ => fs) (storage w)) w in
      (Some (NotStored e), if 0 <? reserved then snd (charge domain user (- reserved) w) else w)
  | (Ok messageID, fs) =>
      let w := with_storage (set_files (fun _ => fs) (storage w)) w in
      let w := if folder =s? "INBOX" then w else
      let '(o, w) := asks w in
      match CreateMailbox (o_now o) email folder (db (storage w)) with
      | Ok d => with_storage (set_db (fun _ => d) (storage w)) w
      | Err _ => w
      end in
      let '(o, w) := asks w in
      match GetNextUID (o_now o) email folder (db (storage w)) with
      | Err _ => (Some NoMetadata, metaFail user domain email messageID reserved w)
      | Ok (uid, d) =>
          let w := with_storage (set_db (fun _ => d) (storage w)) w in
          match store_row email folder messageID uid fl data w with
          | (true, w) => (None, w)
          | (false, w) => (Some NoMetadata, metaFail user domain email messageID reserved w)
          end
      end
  end.

(** The forwards of an account: how many were queued, and whether one failed. *)
Fixpoint forward_all (email : gostring) (targets : list gostring) (data : gostring) (forwarded : nat) (failed : bool) w : nat * bool * Server :=
  match targets with
  | [] => (forwarded, failed, w)
  | fwd :: targets =>
      let fwd := TrimSpace fwd in
      if bool_decide (fwd = []) then forward_all email targets data forwarded failed w else
      match enqueues email [fwd] data w with
      | (true, w) => forward_all email targets data (S forwarded) failed w
      | (false, w) => forward_all email targets data forwarded true w
      end
  end.

(** [true]: the forwards have taken the message, no copy is kept. *)
Definition forward (email : gostring) (account : AccountData) (data : gostring) w : bool * Server :=
  let '(forwarded, failed, w) :=
  if looped data email then (0%nat, false, w)
  else forward_all email (Split (ForwardTo account) ",") (addMailLoopHeader data email) 0 false w in
  (negb (ForwardKeepCopy account) && (0 <? forwarded)%nat && negb failed, w).

Definition set_if (st : option copyState) (f : copyState -> copyState) : option copyState := f <$> st.

(** After the copy is stored: the vacation reply, unless one was sent for another
    copy, or no slot for background work is free. *)
Definition answer (origRcpt email from folder : gostring) (account : AccountData) (data : gostring) (st : option copyState) w : option copyState * Server :=
  let vacSettings := effectiveVacationSettings email (VacationSettings account) w in
  if negb (bool_decide (vacSettings = [])) && negb (bool_decide (queue w = None)) && negb (folder =s? "Junk") && autoReplyAllowed from data &&
  match st with Some st => negb (vacationSent st) | None => true end
  then
  let '(o, w) := asks w in
  (set_if st with_vacation,
    if o_ok o then sendVacationReplyCtx qcfg hasDataDir iter out email from origRcpt (vacationInfoFromMessage data) vacSettings w else w)
  else (st, w).

(** Delivery to an account that was found. *)
Definition deliver_account (origRcpt user domain from folder : gostring) (account : AccountData) (data : gostring) (st : option copyState) w
  : option local_error * option copyState * Server :=
  let email := user ++ "@" ++ domain in
  let handled := match st with Some s => forwardHandled s | None => false end in
  let '(gone, st, w) :=
  if handled then (match st with Some s => dropLocal s | None => false end, st, w)
  else if negb (bool_decide (ForwardTo account = [])) && negb (folder =s? "Junk")
  then let '(gone, w) := forward email account data w in (gone, set_if st (with_forward gone), w)
  else (false, st, w) in
  if gone then (None, st, w) else
  let data := addReturnPath data from in
  let w := others (calls w) w in
  match deliver_locked user domain folder (match st with Some s => flags s | None => [] end) data w with
  | (Some e, w) => (Some e, st, w)
  | (None, w) => let '(st, w) := answer origRcpt email from folder account data st w in (None, st, w)
  end.

(** [hops]: how often the catch-all address may still be tried. *)
Fixpoint deliverLocalHop (hops : nat) (origRcpt user domain from data : gostring) (st : option copyState) (target : gostring) w
  : option local_error * option copyState * Server :=
  let user := ToLower user in
  let domain := TrimRight (ToLower domain) "." in
  let folder := or_text target "INBOX" in
  let missing (e : local_error) :=
  match hops, GetDomain domain (database w) with
  | S hops', Ok x =>
      if bool_decide (CatchAllTarget x = []) then (Some e, st, w) else
      let '(tUser, tDomain) := normalizeRcpt (CatchAllTarget x) in
      if negb (bool_decide (tUser = [])) && negb (bool_decide (tDomain = []))
      then deliverLocalHop hops' origRcpt tUser tDomain from data st target w
      else (Some e, st, w)
  | _, _ => (Some e, st, w)
  end in
  match GetAccount domain user (database w) with
  | Err _ => missing NoUser
  | Ok account => if IsActive account then deliver_account origRcpt user domain from folder account data st w else missing NotActive
  end.

Definition deliverLocal (user domain from data target : gostring) w := deliverLocalHop 1 [] user domain from data None target w.
Definition deliverLocalFor (origRcpt user domain from data target : gostring) w := deliverLocalHop 1 origRcpt user domain from data None target w.
Definition deliverLocalCopies (origRcpt user domain from data : gostring) (st : copyState) (target : gostring) w :=
  deliverLocalHop 1 origRcpt user domain from data (Some st) target w.

(** ** Scripts *)
Definition activeSieveUser (mailbox : gostring) w : gostring :=
  let lower := ToLower mailbox in
  if HasActiveScript mailbox (sieveManager w) then mailbox
  else if negb (lower =s? mailbox) && HasActiveScript lower (sieveManager w) then lower else [].

Definition sieveMessageContext (rcpt from data : gostring) : MessageContext := {|
  SieveExec.From := or_text from "<>"; SieveExec.To := [rcpt]; Headers := default [] (ReadHeader data); Body := data;
  SieveExec.Size := Z.of_nat (length data); BodyIsFullMessage := true |}.

(** A script always gives an outcome: one that fails keeps the message. *)
Definition runUserSieve (scriptUser rcpt from data : gostring) w : sieveOutcome :=
  sieveOutcomeOf (ProcessMessage late scriptUser (sieveMessageContext rcpt from data) (sieveManager w)).

Definition runUserFilters (mailbox rcpt from data : gostring) : option sieveOutcome :=
  let src := filterSource (ToLower mailbox) in
  if bool_decide (src = []) then None else
  match Compile src with
  | Err _ => None
  | Ok (cmds, exts) =>
      match Execute late cmds (Some exts) (sieveMessageContext rcpt from data) with
      | (actions, None) => Some (sieveOutcomeOf actions)
      | (_, Some _) => None
      end
  end.

(** The redirects that can be queued; [true]: one of them failed. *)
Fixpoint redirect_all (mailbox data : gostring) (redirects : list gostring) (failed : bool) w : bool * Server :=
  match redirects with
  | [] => (failed, w)
  | raw :: redirects =>
      match ParseAddress raw with
      | Some addr =>
          if ContainsAny addr [CR; LF; "<"%char; ">"%char] || negb (GoLib.Contains addr "@") then redirect_all mailbox data redirects true w
          else match enqueues mailbox [addr] data w with
          | (true, w) => redirect_all mailbox data redirects failed w
          | (false, w) => redirect_all mailbox data redirects true w
          end
      | None => redirect_all mailbox data redirects true w
      end
  end.

Definition redirectBySieve (mailbox data : gostring) (redirects : list gostring) w : bool * Server :=
  if bool_decide (redirects = []) then (false, w)
  else if looped data mailbox then (true, w)
  else redirect_all mailbox (addMailLoopHeader data mailbox) (take maxSieveRedirects redirects) (maxSieveRedirects <? length redirects)%nat w.

(** The folders of the copies with their flags, each folder once. *)
Definition add_target (f : gostring) (fl : list gostring) (ts : list (gostring * list gostring)) : list (gostring * list gostring) :=
  let f := if EqualFold f "INBOX" then [] else f in
  if existsb (fun t => fst t =s? f) ts
  then map (fun t => if fst t =s? f then (fst t, mergeFlags (snd t) (Join fl " ")) else t) ts
  else ts ++ [(f, mergeFlags [] (Join fl " "))].

Definition assoc_flags (f : gostring) (l : list (gostring * list gostring)) : list gostring :=
  match List.find (fun e => fst e =s? f) l with Some (_, fl) => fl | None => [] end.

Definition copy_targets (keep : bool) (folder : gostring) (o : sieveOutcome) : list (gostring * list gostring) :=
  let ts := if keep then add_target folder (okeepFlags o) [] else [] in
  foldl (fun ts f => add_target (or_text f folder) (assoc_flags f (ofolderFlags o)) ts) ts (ofolders o).

(** The copies one after the other: the first error, how many were stored, and the
    folders that failed. *)
Fixpoint deliver_copies (rcpt user domain from data : gostring) (ts : list (gostring * list gostring)) (st : copyState)
  (firstErr : option local_error) (stored : nat) (failed : list gostring) w : option local_error * nat * list gostring * copyState * Server :=
  match ts with
  | [] => (firstErr, stored, failed, st, w)
  | (f, fl) :: ts =>
      let '(r, st', w) := deliverLocalCopies rcpt user domain from data (with_copy_flags fl st) f w in
      let st := default st st' in
      match r with
      | Some e => deliver_copies rcpt user domain from data ts st (match firstErr with Some e0 => Some e0 | None => Some e end) stored (failed ++ [f]) w
      | None => deliver_copies rcpt user domain from data ts st firstErr (S stored) failed w
      end
  end.

Definition reject_reason (msg : gostring) : gostring :=
  or_text (take 200 (Join (Fields msg) " ")) "Message rejected by recipient filter".

Definition deliver_outcome (user domain rcpt from notify data folder : gostring) (o : sieveOutcome) w : option local_error * Server :=
  let mailbox := user ++ "@" ++ domain in
  if orejected o && negb (okeep o) && bool_decide (ofolders o = []) && bool_decide (oredirects o = []) then
  bounceFailedRecipients from data
  [{| rcpt := rcpt; f_notify := notify; f_dsn := None; f_orcpt := []; f_local := None; f_diag := "smtp; 550 5.7.1 " ++ reject_reason (orejectMsg o) |}] w
  else
  let '(failed, w) := redirectBySieve mailbox data (oredirects o) w in
  let keep := okeep o || failed in
  let w := match ovacation o with
  | Some va => if negb (bool_decide (from = [])) && negb (folder =s? "Junk")
      then sieveVacationReply qcfg hasDataDir iter out mailbox rcpt from data va w else w
  | None => w
  end in
  let ts := copy_targets keep folder o in
  let '(firstErr, stored, failedFolders, st, w) := deliver_copies rcpt user domain from data ts no_copies None 0 [] w in
  match firstErr with
  | None => (None, w)
  | Some e =>
      if bool_decide (stored = 0%nat) then (Some e, w) else
      let inboxStored := existsb (fun t => bool_decide (fst t = [])) ts && negb (bool_decide ([] ∈ failedFolders)) in
      if inboxStored then (None, w) else
      (None, snd (deliverLocalCopies rcpt user domain from data (with_copy_flags (assoc_flags [] ts) st) [] w))
  end.

(** What the active script of the mailbox, or else its filters, decide; mail with a
    spam verdict is not filtered. *)
Definition filtered_outcome (user domain rcpt from data folder : gostring) w : option sieveOutcome :=
  let mailbox := user ++ "@" ++ domain in
  let scriptUser := activeSieveUser mailbox w in
  if negb (bool_decide (scriptUser = [])) then Some (runUserSieve scriptUser rcpt from data w)
  else if negb (folder =s? "Junk") then runUserFilters mailbox rcpt from data else None.

Definition deliverLocalFiltered (user domain rcpt from notify data folder : gostring) w : option local_error * Server :=
  match filtered_outcome user domain rcpt from data folder w with
  | None => let '(r, _, w) := deliverLocalFor rcpt user domain from data folder w in (r, w)
  | Some o => deliver_outcome user domain rcpt from notify data folder o w
  end.

(** ** All recipients *)

(** The recipients with the number of each; [seen] are the destinations served. *)
Fixpoint deliver_all (deliver_to : nat -> gostring -> route -> Server -> option (option local_error) * Server)
  (fail_of : nat -> gostring -> option local_error -> rcptFailure)
  (i : nat) (to : list gostring) (seen : list gostring) (delivered : nat) (failed : list rcptFailure) w : nat * list rcptFailure * Server :=
  match to with
  | [] => (delivered, failed, w)
  | recipient :: to =>
      match routeRecipient recipient (database w) with
      | Err AliasLoop => deliver_all deliver_to fail_of (S i) to seen delivered (failed ++ [fail_of i recipient (Some RouteFailed)]) w
      | Ok r =>
          let k := rcptDedupKey r in
          if bool_decide (k ∈ seen) then deliver_all deliver_to fail_of (S i) to seen delivered failed w
          else match deliver_to i recipient r w with
          | (None, w) => deliver_all deliver_to fail_of (S i) to (k :: seen) (S delivered) failed w
          | (Some e, w) => deliver_all deliver_to fail_of (S i) to (k :: seen) delivered (failed ++ [fail_of i recipient e]) w
          end
      end
  end.

Definition rcpt_notify (notify : list gostring) (i : nat) : gostring := default [] (notify !! i).
Definition rcpt_orcpt (dsn : option DSNInfo) (i : nat) : gostring := match dsn with Some d => default [] (d_orcpt d !! i) | None => [] end.

(** One recipient: [None] is success, a failed relay has no local error. *)
Definition deliver_one (from data folder : gostring) (notify : list gostring) (dsn : option DSNInfo) (i : nat) (recipient : gostring) (r : route) w
  : option (option local_error) * Server :=
  match r with
  | ToExternal external =>
      match relayMessageWithDSN from external [rcpt_notify notify i] (relayDSN dsn (rcpt_orcpt dsn i)) data w with
      | (true, w) => (None, w)
      | (false, w) => (Some None, w)
      end
  | ToMailbox user domain =>
      match deliverLocalFiltered user domain recipient from (rcpt_notify notify i) data folder w with
      | (None, w) => (None, w)
      | (Some e, w) => (Some (Some e), w)
      end
  end.

Definition failure_of (notify : list gostring) (dsn : option DSNInfo) (i : nat) (recipient : gostring) (e : option local_error) : rcptFailure := {|
  rcpt := recipient; f_notify := rcpt_notify notify i; f_dsn := dsn; f_orcpt := rcpt_orcpt dsn i; f_local := e; f_diag := [] |}.

(** [closed]: the server is stopping. *)
Definition deliverMessageToFolderDSN (closed : bool) (from : gostring) (to notify : list gostring) (dsn : option DSNInfo) (data folder : gostring) w
  : option delivery_error * Server :=
  if closed then (Some ServerStopping, w)
  else if negb (checkHopCount data) then (Some TooManyHops, w)
  else
  let '(delivered, failed, w) := deliver_all (deliver_one from data folder notify dsn) (failure_of notify dsn) 0 to [] 0 [] w in
  settleDelivery from data delivered failed w.

Definition deliverMessageToFolder closed from to notify data folder w := deliverMessageToFolderDSN closed from to notify None data folder w.
Definition deliverMessageWithNotify closed from to notify data w := deliverMessageToFolder closed from to notify data [] w.
Definition deliverMessageWithDSN closed from to notify dsn data w := deliverMessageToFolderDSN closed from to notify dsn data [] w.
Definition deliverInboundWithDSN closed from to notify dsn data w :=
  deliverMessageToFolderDSN closed from to notify dsn data (if hasSpamVerdict data then "Junk" else []) w.

(** *** Delivery with actions given as texts *)
Definition action_folder (acc action : gostring) : gostring := if HasPrefix action "fileinto:" then TrimPrefix action "fileinto:" else acc.
Definition action_redirect (action : gostring) : option gostring :=
  if HasPrefix action "fileinto:" then None
  else if HasPrefix action "redirect:" then let a := TrimPrefix action "redirect:" in if bool_decide (a = []) then None else Some a
  else None.

Definition redirect_action (from data : gostring) w (addr : gostring) : Server :=
  if looped data addr then w else snd (relayMessage from addr (addMailLoopHeader data from) w).

Definition deliver_plain (from data folder : gostring) (i : nat) (recipient : gostring) (r : route) w : option (option local_error) * Server :=
  match r with
  | ToExternal external => match relayMessage from external data w with (true, w) => (None, w) | (false, w) => (Some None, w) end
  | ToMailbox user domain =>
      match deliverLocalFor recipient user domain from data folder w with
      | (None, _, w) => (None, w)
      | (Some e, _, w) => (Some (Some e), w)
      end
  end.

Definition deliverMessageWithSieve (closed : bool) (from : gostring) (to : list gostring) (data : gostring) (sieveActions : list gostring) w
  : option delivery_error * Server :=
  if closed then (Some ServerStopping, w) else
  let targetFolder := foldl action_folder [] sieveActions in
  let w := foldl (redirect_action from data) w (omap action_redirect sieveActions) in
  if negb (checkHopCount data) then (Some TooManyHops, w) else
  let '(delivered, failed, w) := deliver_all (deliver_plain from data targetFolder) (failure_of [] None) 0 to [] 0 [] w in
  settleDelivery from data delivered failed w.

Definition deliverMessage closed from to data w := deliverMessageWithSieve closed from to data [] w.
End Delivery.
