(* ===== verification/DeliveryProps.v ===== *)
(** * Properties of delivery

    What a delivery leaves alone, what its primitives establish, and that nothing
    that was accepted is lost: every recipient of an accepted message has it in a
    mailbox or in the queue, or has refused it, or the sender gets a report. *)
From S2P Require Import Prelude GoLib Utf8 Bolt Scram BlobStore MailDb MailDbProps Threads SmtpData Dsn Queue ImapStore ImapBodies ImapStoreProps SieveParse SieveMatch SieveCompile SieveExec Accounts SieveManager Routing Vacation AutoReply Delivery.

(** ** Routes depend on the domains, the aliases and which accounts there are *)
Section Routes.
Context {U : UnicodeTables}.

Record same_routing (d d' : DB) : Prop := {
  sr_domains : domains d' = domains d;
  sr_aliases : aliases d' = aliases d;
  sr_accounts k : is_ok (Accounts.Get (accounts d') k) = is_ok (Accounts.Get (accounts d) k)
}.

Lemma same_routing_refl d : same_routing d d.
Proof. by split. Qed.
Lemma same_routing_trans a b c : same_routing a b -> same_routing b c -> same_routing a c.
Proof. intros [A1 A2 A3] [B1 B2 B3]. split; [congruence | congruence |]. intros k. by rewrite B3. Qed.

Lemma route_same r d d' : same_routing d d' -> routeRecipient r d' = routeRecipient r d.
Proof.
  intros [Hd Ha Hk]. unfold routeRecipient. destruct (normalizeRcpt r) as [user domain]. generalize (@nil gostring) (S maxAliasHops). intros seen n.
  assert (Hact : forall x, active_domain x d' = active_domain x d) by (intros x; unfold active_domain, GetDomain; by rewrite Hd).
  assert (Hres : forall x y, resolve x y d' = resolve x y d) by (intros x y; unfold resolve, ResolveAlias, GetAlias; by rewrite Ha).
  assert (Hplus : forall x y, plus_target x y d' = plus_target x y d).
  { intros x y. unfold plus_target. rewrite !Hres. destruct (Cut x "+") as [[base rest] ok]. unfold GetAccount. by rewrite Hk, Hres. }
  revert seen user domain. induction n as [| n IH]; intros seen user domain; cbn [route_from]; rewrite Hact; [done |].
  rewrite Hplus. destruct (negb (active_domain domain d)); [done |]. destruct (bool_decide _); [done |].
  destruct (plus_target user domain d) as [target user']. destruct (negb _); [| done]. destruct (normalizeRcpt target) as [tu td]. destruct (negb _ && _); [apply IH | done].
Qed.

Lemma IncrementQuota_routing now domain local delta d : same_routing d (snd (IncrementQuota now domain local delta d)).
Proof.
  unfold IncrementQuota. destruct (Accounts.Get (accounts d) (AccountKey domain local)) as [a |] eqn:Ea; [| apply same_routing_refl].
  repeat (split_if; [apply same_routing_refl |]). split; [done | done |]. intros k. cbn. unfold Accounts.Get at 1.
  destruct (decide (AccountKey domain local = k)) as [<- | Hne]; [by rewrite lookup_insert_eq, Ea | by rewrite lookup_insert_ne].
Qed.
End Routes.

(** ** Names in the queue *)
Lemma last_part_inj (a b x y : gostring) c : (c ∉ x) -> (c ∉ y) -> a ++ c :: x = b ++ c :: y -> x = y.
Proof.
  intros Hx Hy E. apply (f_equal (@rev ascii)) in E. rewrite !rev_app_distr in E. cbn [rev] in E. rewrite <- !app_assoc in E. cbn [app] in E.
  assert (Hrev : forall s : gostring, c ∉ s -> c ∉ rev s) by (intros s Hs Hin; apply Hs; rewrite list_elem_of_In in *; by apply in_rev).
  pose proof (Cut_app (rev x) (rev a) c (Hrev _ Hx)) as H1. pose proof (Cut_app (rev y) (rev b) c (Hrev _ Hy)) as H2.
  rewrite E, H2 in H1. injection H1 as H1 _. rewrite <- (rev_involutive x), <- (rev_involutive y). by rewrite H1.
Qed.

Lemma spool_path_inj d1 d2 b1 b2 : ("/"%char ∉ b1) -> ("/"%char ∉ b2) -> spool_path d1 b1 = spool_path d2 b2 -> b1 = b2.
Proof.
  intros H1 H2 E. unfold spool_path in E. change (d1 ++ "/"%char :: (b1 ++ ".msg") = d2 ++ "/"%char :: (b2 ++ ".msg")) in E.
  assert (Hm : forall b : gostring, "/"%char ∉ b -> "/"%char ∉ b ++ ".msg") by (intros b Hb [? | Hin]%elem_of_app; [done |]; revert Hin; apply (bool_decide_unpack _); vm_compute; exact I).
  apply last_part_inj in E; [| by apply Hm | by apply Hm]. by apply app_inv_tail in E.
Qed.

Lemma entry_name_inj b1 b2 : entry_id b1 0 = entry_id b2 0 -> b1 = b2.
Proof. unfold entry_id. apply app_inv_tail. Qed.

(** One entry: nothing else changes, and a refused one leaves no trace. *)
Lemma enqueue_one qcfg written path message e q b q' : enqueue_entries qcfg written path message [e] q = (b, q') ->
  rows q !! ID e = None -> files q !! path = None ->
  (forall id, id <> ID e -> rows q' !! id = rows q !! id) /\ (forall p, p <> path -> files q' !! p = files q !! p) /\
  (if b then rows q' !! ID e = Some (Queue.Stored e) /\ files q' !! path = Some message else rows q' = rows q /\ files q' = files q).
Proof.
  unfold enqueue_entries. destruct written; cbn [negb]; [| intros [= <- <-]; done]. cbn [store_entries]. unfold EnqueueWithLimit.
  change (rows (Queue.set_files <[path:=message]> q)) with (rows q). destruct (maxQueueSize qcfg <=? Z.of_nat (size (rows q))).
  - cbn [foldr]. intros [= <- <-] Hr Hf. split_and!; [done | | done |]; cbn.
    + intros p Hp. rewrite lookup_delete_ne, lookup_insert_ne by congruence. done.
    + by rewrite delete_insert_id.
  - intros [= <- <-] Hr Hf. unfold dispatchEntries. cbn [foldl]. unfold dispatch.
    assert (E : forall q1 : Queue.Manager, rows (if (length (deliveryChan q1) <? chanCap qcfg)%nat then set_chan (fun c => c ++ [e]) q1 else q1) = rows q1 /\
      files (if (length (deliveryChan q1) <? chanCap qcfg)%nat then set_chan (fun c => c ++ [e]) q1 else q1) = files q1) by (intros q1; by destruct (_ <? _)%nat).
    destruct (E (set_rows (fun _ => <[ID e:=Queue.Stored e]> (rows q)) (Queue.set_files <[path:=message]> q))) as [-> ->]. cbn. split_and!.
    + intros id Hid. by rewrite lookup_insert_ne by congruence.
    + intros p Hp. by rewrite lookup_insert_ne by congruence.
    + apply lookup_insert_eq.
    + apply lookup_insert_eq.
Qed.

(** ** The world of a delivery *)
Section World.
Context {U : UnicodeTables} {N : NetMail} {R : Regexp} {M : MessageStd} {H : MailHeader} {C : Crypto} {RS : ReplyStd}.
Context (qcfg : Queue.Config) (hasDataDir : bool) (iter : forall A : Type, gmap gostring A -> list (gostring * A)).
Context (out : nat -> Outside).
Implicit Types w : Server.

Definition dsn_dir : gostring := if bool_decide (queueDir qcfg = []) then "." : gostring else queueDir qcfg.

(** An identifier no entry and no spool file has. *)
Definition free (base : gostring) (q : Queue.Manager) : Prop :=
  rows q !! entry_id base 0 = None /\ files q !! spool_path (dataDir qcfg ++ "/queue") base = None /\ files q !! spool_path dsn_dir base = None.

Record Good w : Prop := {
  g_queue : is_Some (queue w);
  g_uids u k : covered u k (db (storage w));
  g_names : addressed (msgStore (storage w));
  g_free q n : queue w = Some q -> (calls w <= n)%nat -> free (o_id (out n)) q
}.

(** What was in a mailbox or in the queue is still there; routes, domains and scripts
    are as they were. *)
Record preserves w w' : Prop := {
  p_rows u k uid m : rows_of u k (db (storage w)) !! uid = Some m -> rows_of u k (db (storage w')) !! uid = Some m;
  p_bodies key : is_Some (msgStore (storage w) !! key) -> is_Some (msgStore (storage w') !! key);
  p_queue q : queue w = Some q -> exists q', queue w' = Some q' /\ rows q ⊆ rows q' /\ files q ⊆ files q';
  p_routes : same_routing (database w) (database w');
  p_scripts : scripts (sieveManager w') = scripts (sieveManager w) /\ activeScripts (sieveManager w') = activeScripts (sieveManager w)
}.

Lemma preserves_refl w : preserves w w.
Proof. split; [done | done | | apply same_routing_refl | done]. intros q Hq. by exists q. Qed.
Lemma preserves_trans a b c : preserves a b -> preserves b c -> preserves a c.
Proof.
  intros [A1 A2 A3 A4 [A5 A6]] [B1 B2 B3 B4 [B5 B6]]. split; [auto | auto | | by eapply same_routing_trans | split; congruence].
  intros q Hq. destruct (A3 q Hq) as (q1 & H1 & R1 & F1). destruct (B3 q1 H1) as (q2 & H2 & R2 & F2). exists q2. split_and!; [done | by etrans | by etrans].
Qed.

(** A step that keeps a good world good and preserves it. *)
Definition safe w w' : Prop := Good w -> Good w' /\ preserves w w' /\ (calls w <= calls w')%nat.

Lemma safe_refl w : safe w w.
Proof. intros G. split_and!; [done | apply preserves_refl | done]. Qed.
Lemma safe_trans a b c : safe a b -> safe b c -> safe a c.
Proof. intros Hab Hbc G. destruct (Hab G) as (Gb & Pb & Cb). destruct (Hbc Gb) as (Gc & Pc & Cc). split_and!; [done | by eapply preserves_trans | lia]. Qed.

(** A step that leaves the accounts, the mail, the queue and the scripts alone. *)
Definition aside w w' : Prop :=
  database w' = database w /\ storage w' = storage w /\ queue w' = queue w /\
  (scripts (sieveManager w') = scripts (sieveManager w) /\ activeScripts (sieveManager w') = activeScripts (sieveManager w)) /\ (calls w <= calls w')%nat.

Lemma aside_safe w w' : aside w w' -> safe w w'.
Proof.
  intros (Hd & Hs & Hq & Hm & Hc) G. split_and!; [| | done].
  - split; rewrite ?Hs, ?Hq; try apply G. intros q n Hn Hl. apply G; [done | lia].
  - split; rewrite ?Hs, ?Hq, ?Hd; [done | done | | apply same_routing_refl | done]. intros q E. by exists q.
Qed.
Lemma aside_refl w : aside w w.
Proof. by split_and!. Qed.
Lemma aside_trans a b c : aside a b -> aside b c -> aside a c.
Proof. intros (A1 & A2 & A3 & [A4 A5] & A6) (B1 & B2 & B3 & [B4 B5] & B6). split_and!; try congruence. lia. Qed.
Lemma aside_called w : aside w (called w).
Proof. split_and!; done || (cbn; lia). Qed.
Lemma aside_replies r w : aside w (with_replies r w).
Proof. by split_and!. Qed.
Lemma aside_log f w : aside w (with_log f w).
Proof. by split_and!. Qed.

(** A step on the accounts that keeps the routes. *)
Lemma database_safe d w : same_routing (database w) d -> safe w (with_database d w).
Proof.
  intros Hr G. split_and!; [| | done]; [split; cbn; apply G |]. split; [done | done | | done | done]. intros q Hq. by exists q.
Qed.

Context (ids : forall n m, o_id (out n) = o_id (out m) -> n = m) (plain_ids : forall n, "/"%char ∉ o_id (out n)).

(** The message is in the queue, for one recipient. *)
Definition queued (from to message : gostring) w : Prop := exists q id e,
  queue w = Some q /\ rows q !! id = Some (Queue.Stored e) /\ Queue.From e = from /\ Queue.To e = [to] /\ files q !! MessagePath e = Some message.

Lemma queued_kept from to message w w' : preserves w w' -> queued from to message w -> queued from to message w'.
Proof.
  intros P (q & id & e & Hq & Hr & Hf & Ht & Hm). destruct (p_queue _ _ P q Hq) as (q' & Hq' & R' & F'). exists q', id, e.
  split_and!; [done | by eapply lookup_weaken | done | done | by eapply lookup_weaken].
Qed.

(** The message is in a mailbox of the address: a row names it and its body is there. *)
Definition filed (email body : gostring) w : Prop := exists folder uid m f,
  rows_of email folder (db (storage w)) !! uid = Some m /\ MailDb.MessageID m = blob_id body /\
  msgStore (storage w) !! (email, blob_id body) = Some f /\ blob_id (content f) = blob_id body.

Lemma filed_kept email body w w' : Good w' -> preserves w w' -> filed email body w -> filed email body w'.
Proof.
  intros G P (folder & uid & m & f & Hr & Hi & Hf & _). destruct (p_bodies _ _ P (email, blob_id body)) as [f' Hf']; [by exists f |].
  exists folder, uid, m, f'. split_and!; [by apply (p_rows _ _ P) | done | done |]. symmetry. by apply (g_names _ G _ _ _ Hf').
Qed.

(** Putting one entry into the queue, whichever operation does it. *)
Lemma put_entry w q q' b path from to message e :
  queue w = Some q -> path = spool_path (dataDir qcfg ++ "/queue") (o_id (out (calls w))) \/ path = spool_path dsn_dir (o_id (out (calls w))) ->
  ID e = entry_id (o_id (out (calls w))) 0 -> Queue.From e = from -> Queue.To e = [to] -> MessagePath e = path ->
  enqueue_entries qcfg (o_ok (out (calls w))) path message [e] q = (b, q') ->
  safe w (with_queue q' (called w)) /\ (Good w -> b = true -> queued from to message (with_queue q' (called w))).
Proof.
  intros Hq Hp Hid Hf Ht Hm He.
  assert (Hone : Good w -> rows q !! ID e = None /\ files q !! path = None).
  { intros G. destruct (g_free _ G q (calls w) Hq) as (F1 & F2 & F3); [done |]. rewrite Hid. split; [done |]. by destruct Hp as [-> | ->]. }
  split.
  - intros G. destruct (Hone G) as [Hr Hfl]. destruct (enqueue_one _ _ _ _ _ _ _ _ He Hr Hfl) as (Hro & Hfo & Hb). split_and!; [| | cbn; lia].
    + split; cbn; [by eexists | apply G | apply G |]. intros q0 n [= <-] Hn. destruct (g_free _ G q n Hq) as (F1 & F2 & F3); [lia |].
      assert (Hd : o_id (out n) <> o_id (out (calls w))) by (intros E%ids; lia). unfold free.
      rewrite Hro by (rewrite Hid; intros E%entry_name_inj; done).
      assert (Hpath : forall dir, spool_path dir (o_id (out n)) <> path).
      { intros dir E. apply Hd. destruct Hp as [-> | ->]; by apply spool_path_inj in E. }
      by rewrite !Hfo by apply Hpath.
    + split; cbn; [done | done | | apply same_routing_refl | done]. intros q0 E. rewrite Hq in E. injection E as <-. exists q'. split_and!; [done | |].
      * apply map_subseteq_spec. intros id x Hx. rewrite Hro; [done |]. intros ->. congruence.
      * apply map_subseteq_spec. intros p x Hx. rewrite Hfo; [done |]. intros ->. congruence.
  - intros G ->. destruct (Hone G) as [Hr Hfl]. destruct (enqueue_one _ _ _ _ _ _ _ _ He Hr Hfl) as (_ & _ & H1 & H2).
    exists q', (ID e), e. split_and!; [done | done | done | done | by rewrite Hm].
Qed.

Lemma enqueue_spec from to message w : safe w (snd (enqueue qcfg out from [to] message w)) /\
  (Good w -> fst (enqueue qcfg out from [to] message w) = true -> queued from to message (snd (enqueue qcfg out from [to] message w))).
Proof.
  unfold enqueue, ask. destruct (queue w) as [q |] eqn:Hq; [| split; [apply safe_refl | done]].
  unfold Enqueue. rewrite bool_decide_eq_false_2 by done. cbn [imap]. set (o := out (calls w)). set (path := spool_path _ (o_id o)). set (e := new_entry _ _ _ _ _ _ _ _ _).
  destruct (enqueue_entries qcfg (o_ok o) path message [e] q) as [b q'] eqn:He. cbn [fst snd].
  destruct (put_entry w q q' b path from to message e) as [H1 H2]; try done; [by left |]. split; [done |]. intros G Hb. apply H2; [done |]. by destruct b.
Qed.

Lemma relay_spec from to notify params message w : is_Some (queue w) -> safe w (snd (relayMessageWithDSN qcfg out from to [notify] params message w)) /\
  (Good w -> fst (relayMessageWithDSN qcfg out from to [notify] params message w) = true -> queued from to message (snd (relayMessageWithDSN qcfg out from to [notify] params message w))).
Proof.
  intros [q Hq]. unfold relayMessageWithDSN, ask. rewrite Hq. unfold EnqueueWithDSN. rewrite bool_decide_eq_false_2 by done. unfold dsn_entries. cbn [imap].
  set (o := out (calls w)). fold dsn_dir. set (path := spool_path dsn_dir (o_id o)).
  match goal with |- context [enqueue_entries qcfg (o_ok o) path message [?x] q] => set (e := x) end.
  destruct (enqueue_entries qcfg (o_ok o) path message [e] q) as [b q'] eqn:He. cbn [fst snd].
  assert (Hfields : ID e = entry_id (o_id o) 0 /\ Queue.From e = from /\ Queue.To e = [to] /\ MessagePath e = path) by (unfold e; by destruct params).
  destruct Hfields as (E1 & E2 & E3 & E4).
  destruct (put_entry w q q' b path from to message e) as [H1 H2]; try done; [by right |]. split; [done |]. intros G Hb. apply H2; [done |]. by destruct b.
Qed.

(** ** Automatic replies *)
Lemma aside_rewrite m w : aside w (rewriteVacationRepliesLocked hasDataDir iter out m w).
Proof.
  unfold rewriteVacationRepliesLocked, ask. destruct hasDataDir; [| apply aside_refl]. eapply aside_trans; [apply aside_called |].
  destruct (o_ok _); [apply aside_log | apply aside_refl].
Qed.

Lemma aside_claim key now interval w : aside w (snd (claimVacationReply hasDataDir iter out key now interval w)).
Proof.
  unfold claimVacationReply. assert (Hl : aside w (snd (loadVacationRepliesLocked hasDataDir out w))).
  { unfold loadVacationRepliesLocked, ask. destruct (vacationReplies w); [apply aside_refl |]. destruct hasDataDir; [| apply aside_replies].
    eapply aside_trans; [apply aside_called | apply aside_replies]. }
  destruct (loadVacationRepliesLocked hasDataDir out w) as [m w1]. cbv zeta. split_if; [exact Hl |]. cbn [snd] in *.
  eapply aside_trans; [exact Hl |]. eapply aside_trans; [apply aside_replies |]. unfold persistVacationReplyLocked, ask.
  set (m' := <[key:=_]> m). set (w2 := with_replies m' w1).
  assert (Hp : aside w2 (if hasDataDir then if o_ok (out (calls w2)) then with_log (fun l => l ++ [Accounts.Stored (json_string key, now + (if interval <=? 0 then defaultVacationInterval else interval))]) (called w2) else called w2 else w2)).
  { destruct hasDataDir; [| apply aside_refl]. eapply aside_trans; [apply aside_called |]. destruct (o_ok _); [apply aside_log | apply aside_refl]. }
  eapply aside_trans; [exact Hp |]. destruct (100 <? _)%nat; [| apply aside_refl]. unfold cleanupVacationRepliesLocked, ask.
  eapply aside_trans; [apply aside_called |]. eapply aside_trans; [apply aside_replies | apply aside_rewrite].
Qed.

Lemma aside_touch now key m w : m = touchVacationLocked now key (sieveManager w) \/ m = sieveManager w -> aside w (with_sieve m w).
Proof.
  intros [-> | ->]; [| by split_and!]. unfold touchVacationLocked. split_and!; try done; cbn;
    destruct (bool_decide _); [done | | done | ]; by destruct (_ <=? _)%nat.
Qed.

Lemma handleSieveVacationAs_safe sender recipient matched va w : safe w (handleSieveVacationAs qcfg hasDataDir iter out sender recipient matched va w).
Proof.
  unfold handleSieveVacationAs, ask. destruct (bool_decide _); [apply safe_refl |]. destruct (_ || _); [apply safe_refl |].
  eapply safe_trans; [apply aside_safe, aside_called |]. set (w1 := called w).
  match goal with |- safe _ (let '(_, _) := ?x in _) => assert (Ha : aside w1 (snd x)) end.
  { split_if; [apply aside_claim | apply aside_refl]. }
  destruct (if 0 <? _ then _ else _) as [may w2]. cbn [snd] in Ha. eapply safe_trans; [apply aside_safe, Ha |]. destruct (negb may); [apply safe_refl |].
  destruct (vacationBodyEncoded _) as [cte body]. apply enqueue_spec.
Qed.

Lemma sieveVacationReply_safe mailbox rcpt from data va w : safe w (sieveVacationReply qcfg hasDataDir iter out mailbox rcpt from data va w).
Proof.
  unfold sieveVacationReply, ask. destruct (_ || _); [apply safe_refl |]. eapply safe_trans; [apply aside_safe, aside_called |]. set (w1 := called w).
  set (window := if SecondsSet va then _ else _). set (now := o_now _). set (key := sieveVacationKey _ _ _).
  assert (Hm : snd (CheckAndRecordVacationFor now key window (sieveManager w1)) = touchVacationLocked now key (sieveManager w1) \/
    snd (CheckAndRecordVacationFor now key window (sieveManager w1)) = sieveManager w1).
  { unfold CheckAndRecordVacationFor. destruct (_ && _); [by right | by left]. }
  destruct (CheckAndRecordVacationFor now key window (sieveManager w1)) as [may m]. cbn [snd] in Hm.
  eapply safe_trans; [apply aside_safe, (aside_touch now key m w1 Hm) |]. destruct may; [apply handleSieveVacationAs_safe | apply safe_refl].
Qed.

Lemma sendVacationReplyCtx_safe email from orig info s w : safe w (sendVacationReplyCtx qcfg hasDataDir iter out email from orig info s w).
Proof.
  unfold sendVacationReplyCtx, ask. destruct (unmarshalSettings s) as [st |]; [| apply safe_refl]. destruct (negb _); [apply safe_refl |].
  eapply safe_trans; [apply aside_safe, aside_called |]. destruct (IsAutomatedSender from); [apply safe_refl |].
  destruct (Eligible _ _ _ _ _) as [eff |]; [| apply safe_refl]. destruct (_ && _); [apply safe_refl |]. destruct (routesToMailbox _ _ _); [apply safe_refl |].
  set (w1 := called w). set (key := vacationDedupKey _ _). set (now := o_now _).
  pose proof (aside_claim key now (SendInterval eff) w1) as Ha.
  destruct (claimVacationReply hasDataDir iter out key now (SendInterval eff) w1) as [may w2]. cbn [snd] in Ha.
  eapply safe_trans; [apply aside_safe, Ha |]. destruct (negb may); [apply safe_refl | apply enqueue_spec].
Qed.

(** ** Storage *)
Lemma storage_safe s w :
  (Good w -> (forall u k, covered u k (db s)) /\ addressed (msgStore s) /\
    (forall u k uid m, rows_of u k (db (storage w)) !! uid = Some m -> rows_of u k (db s) !! uid = Some m) /\
    (forall key, is_Some (msgStore (storage w) !! key) -> is_Some (msgStore s !! key))) -> safe w (with_storage s w).
Proof.
  intros Hs G. destruct (Hs G) as (H1 & H2 & H3 & H4). split_and!; [| | done].
  - split; cbn; [apply G | done | done | apply G].
  - split; cbn; [done | done | | apply same_routing_refl | done]. intros q Hq. by exists q.
Qed.

(** A step on the rows of the metadata database alone. *)
Lemma db_safe d w : (Good w -> (forall u k, covered u k d) /\
  (forall u k uid m, rows_of u k (db (storage w)) !! uid = Some m -> rows_of u k d !! uid = Some m)) ->
  safe w (with_storage (set_db (fun _ => d) (storage w)) w).
Proof. intros Hd. apply storage_safe. intros G. destruct (Hd G). split_and!; [done | apply G | done | done]. Qed.

Lemma same_db_safe s w : db s = db (storage w) -> msgStore s = msgStore (storage w) -> safe w (with_storage s w).
Proof. intros Hd Hm. apply storage_safe. intros G. rewrite Hd, Hm. split_and!; [apply G | apply G | done | done]. Qed.

Lemma next_of_other u k v j d d' : (u, k) <> (v, j) -> (forall key, key <> mailboxKey u k -> mailboxes d' !! key = mailboxes d !! key) -> next_of v j d' = next_of v j d.
Proof. intros Hne Hd. unfold next_of, row_of. rewrite Hd; [done |]. apply mailboxKey_ne. congruence. Qed.

Lemma put_row_other key r d k : k <> key -> mailboxes (put_row key r d) !! k = mailboxes d !! k.
Proof. intros Hk. cbn. by rewrite lookup_insert_ne by congruence. Qed.

Lemma raiseHighest_other u k v d key : key <> mailboxKey u k -> mailboxes (raiseHighestModSeqTx u k v d) !! key = mailboxes d !! key.
Proof.
  intros Hk. unfold raiseHighestModSeqTx. destruct (v =? 0); [done |]. destruct (mailboxes d !! mailboxKey u k); [| done].
  destruct (_ <=? _); [done | by apply put_row_other].
Qed.

Lemma store_other now u k uid meta d key : key <> mailboxKey u k -> mailboxes (StoreMessageMetadata now u k uid meta d) !! key = mailboxes d !! key.
Proof.
  intros Hk. unfold StoreMessageMetadata. fold (stored_row d u k uid meta).
  assert (Hs : mailboxes (snd (stored_row d u k uid meta)) !! key = mailboxes d !! key).
  { unfold stored_row. destruct (rows_of u k d !! uid) as [prev |]; [| done]. destruct (_ <=? _); [| done]. cbn [snd]. unfold getNextModSeqTx. cbn [snd].
    rewrite put_row_other by done. by apply raiseHighest_other. }
  destruct (stored_row d u k uid meta) as [cp d1]. cbn [snd] in Hs. set (d2 := raise_uidnext _ _ _ _).
  assert (H2 : mailboxes d2 !! key = mailboxes d !! key).
  { unfold d2, raise_uidnext. destruct (mailboxes (raiseHighestModSeqTx u k (ModSeq cp) d1) !! mailboxKey u k); [destruct (_ && _); [rewrite put_row_other by done |] |];
      by rewrite raiseHighest_other. }
  assert (H3 : mailboxes (put_message u k uid cp d2) !! key = mailboxes d !! key) by exact H2.
  destruct (bool_decide _); [done |]. destruct (bool_decide _); by rewrite !mailboxes_RecordChange.
Qed.

Lemma covered_create now u k d d' : (forall v j, covered v j d) -> CreateMailbox now u k d = Ok d' ->
  (forall v j, covered v j d') /\ (forall v j, rows_of v j d' = rows_of v j d).
Proof.
  intros Hc. unfold CreateMailbox. destruct (ensureUIDValidityTx now (mailboxKey u k) d) as [r |] eqn:Er; [| done]. cbn [rbind].
  assert (Hr : uidnext r = uidnext (row_of (mailboxKey u k) d)).
  { unfold ensureUIDValidityTx in Er. destruct (uidvalidity (row_of (mailboxKey u k) d)); [by injection Er as <- |].
    destruct (nextUIDValidityTx now (mailboxKey u k) d); [| done]. by injection Er as <-. }
  intros [= <-]. set (r' := {| uidvalidity := _ |}). set (d1 := make_messages _ _).
  assert (Hrows : forall v j, rows_of v j d1 = rows_of v j d) by (intros v j; unfold d1; by rewrite rows_of_make).
  assert (Hn : forall v j, next_of v j d <= next_of v j d1).
  { intros v j. destruct (decide ((u, k) = (v, j))) as [[= <- <-] | Hne].
    - change (next_of u k d1) with (next_of u k (put_row (mailboxKey u k) r' d)). unfold next_of at 2. rewrite row_of_put. cbn. rewrite Hr. unfold next_of.
      destruct (uidnext (row_of (mailboxKey u k) d)); cbn; lia.
    - rewrite (next_of_other u k v j d d1 Hne); [done |]. intros key Hkey. by apply put_row_other. }
  assert (Hc1 : forall v j, covered v j d1).
  { intros v j i Hi. rewrite Hrows in Hi. destruct (Hc v j i Hi) as [Hlt | Hmax]; [left | by right]. specialize (Hn v j). lia. }
  destruct (negb _); [| done]. split.
  - intros v j i Hi. rewrite rows_of_RecordChange in Hi. rewrite (next_of_same v j d1) by apply mailboxes_RecordChange. by apply Hc1.
  - intros v j. by rewrite rows_of_RecordChange.
Qed.

Lemma covered_next now u k d uid d' : (forall v j, covered v j d) -> GetNextUID now u k d = Ok (uid, d') ->
  (forall v j, covered v j d') /\ messages d' = messages d /\ rows_of u k d' !! uid = None /\ uid < next_of u k d'.
Proof.
  intros Hc E. destruct (next_uid_covered now u k d uid d' (Hc u k) E) as (Hm & Hf & _ & Hn & Hcov).
  assert (Hrows : forall v j, rows_of v j d' = rows_of v j d) by (intros; unfold rows_of; by rewrite Hm).
  split_and!; [| done | by rewrite Hrows | lia]. intros v j. destruct (decide ((u, k) = (v, j))) as [[= <- <-] | Hne]; [done |].
  intros i Hi. rewrite Hrows in Hi. rewrite (next_of_other u k v j d d' Hne); [by apply Hc |].
  intros key Hkey. unfold GetNextUID in E. destruct (ensureUIDValidityTx now (mailboxKey u k) d) as [r |]; [| done]. cbn [rbind] in E.
  destruct (_ =? max_uint32); [done |]. injection E as <- <-. by apply put_row_other.
Qed.

Lemma covered_store now u k uid meta d : (forall v j, covered v j d) -> uid < next_of u k d -> forall v j, covered v j (StoreMessageMetadata now u k uid meta d).
Proof.
  intros Hc Hu v j i Hi. destruct (rows_StoreMessageMetadata now u k uid meta d) as (cp & _ & _ & _ & _ & _ & _ & Hrows). rewrite Hrows in Hi.
  destruct (decide ((u, k) = (v, j))) as [[= <- <-] | Hne].
  - pose proof (store_next now u k uid meta d). apply lookup_insert_is_Some in Hi as [-> | [_ Hi]]; [left; lia |].
    destruct (Hc u k i Hi) as [? | ->]; [left; lia | by right].
  - rewrite (next_of_other u k v j d _ Hne); [by apply Hc |]. intros key Hkey. by apply store_other.
Qed.

(** The row of a delivered message. *)
Lemma store_row_spec email folder data uid fl w (id := blob_id data) :
  let r := store_row out email folder id uid fl data w in
  (Good w -> rows_of email folder (db (storage w)) !! uid = None -> uid < next_of email folder (db (storage w)) ->
    Good (snd r) /\ preserves w (snd r) /\ (calls w <= calls (snd r))%nat /\
    (fst r = true -> is_Some (msgStore (storage w) !! (email, id)) -> filed email data (snd r))) /\
  msgStore (storage (snd r)) = msgStore (storage w).
Proof.
  unfold store_row. destruct (parseBasicHeaders data) as [[[subject fromAddr] toAddr] dateStr]. destruct (parseThreadHeaders data) as [inReplyTo references].
  unfold ask. cbv zeta. set (w1 := called w).
  destruct (GetOrCreateThreadID _ _ _ _ _ _ _ _) as [threadID t]. set (w2 := with_storage (set_tdb (fun _ => t) (storage w1)) w1).
  set (o := out (calls w2)). set (w3 := called w2).
  assert (S3 : safe w w3).
  { eapply safe_trans; [apply aside_safe, aside_called |]. eapply safe_trans; [by apply (same_db_safe (set_tdb (fun _ => t) (storage w1)) w1) | apply aside_safe, aside_called]. }
  destruct (o_ok o); cbn [negb]; [| split; [| done]; intros G _ _; cbn [fst snd]; destruct (S3 G) as (G3 & P3 & C3); by split_and!].
  set (meta := delivered_meta id uid fl (o_now o) data threadID). set (d := StoreMessageMetadata (o_now o) email folder uid meta).
  set (w4 := with_storage (set_db d (storage w3)) w3). set (w5 := called w4).
  match goal with |- context [(true, ?x)] => set (w6 := x) end.
  assert (E6 : db (storage w6) = db (storage w4) /\ msgStore (storage w6) = msgStore (storage w4)).
  { unfold w6. destruct (bool_decide (threadID = [])); destruct (0 <? _); done. }
  assert (S6 : safe w5 w6).
  { unfold w6. destruct (bool_decide (threadID = [])); destruct (0 <? _); try apply safe_refl; try (by apply same_db_safe).
    eapply safe_trans; by apply same_db_safe. }
  cbn [fst snd]. split; [| by rewrite (proj2 E6)]. intros G Hnone Hlt.
  assert (S4 : safe w3 w4).
  { apply db_safe. intros G3. split.
    - intros u k. apply covered_store; [apply G | exact Hlt].
    - intros u k i m Hm. destruct (rows_StoreMessageMetadata (o_now o) email folder uid meta (db (storage w3))) as (cp & _ & _ & _ & _ & _ & _ & Hrows).
      unfold d. rewrite Hrows. destruct (decide ((email, folder) = (u, k))) as [[= <- <-] | Hne]; [| done]. rewrite lookup_insert_ne; [done |].
      intros ->. change (db (storage w3)) with (db (storage w)) in Hm. congruence. }
  assert (S : safe w w6) by (eapply safe_trans; [exact S3 |]; eapply safe_trans; [exact S4 |]; eapply safe_trans; [apply aside_safe, aside_called | exact S6]).
  destruct (S G) as (G6 & P6 & C6). split_and!; [done | done | done |]. intros _ [f Hf].
  destruct (rows_StoreMessageMetadata (o_now o) email folder uid meta (db (storage w3))) as (cp & [Hid _] & _ & _ & _ & _ & _ & Hrows).
  exists folder, uid, cp. assert (Hf6 : msgStore (storage w6) !! (email, id) = Some f) by (by rewrite (proj2 E6)). exists f. split_and!.
  - rewrite (proj1 E6). change (db (storage w4)) with (d (db (storage w3))). unfold d. rewrite Hrows. rewrite decide_True by done. apply lookup_insert_eq.
  - rewrite <- Hid. unfold meta, delivered_meta. destruct (parseBasicHeaders data) as [[[? ?] ?] ?]. by destruct (parseThreadHeaders data).
  - exact Hf6.
  - symmetry. by apply (g_names _ G6 _ _ _ Hf6).
Qed.

(** ** The critical section *)
Lemma charge_safe domain user delta w : safe w (snd (charge out domain user delta w)) /\ storage (snd (charge out domain user delta w)) = storage w.
Proof.
  unfold charge, ask. pose proof (IncrementQuota_routing (o_now (out (calls w))) domain user delta (database (called w))) as Hr.
  destruct (IncrementQuota _ _ _ _ _) as [r d]. cbn [snd] in *. split; [| done]. eapply safe_trans; [apply aside_safe, aside_called |]. by apply database_safe.
Qed.

(** A body that was not there before may be removed again. *)
Lemma unstore_safe w0 w key : safe w0 w -> msgStore (storage w0) !! key = None -> safe w0 (with_storage (set_files (delete key) (storage w)) w).
Proof.
  intros S Hn G. destruct (S G) as (G1 & P1 & C1). split_and!; [| | done].
  - split; cbn; [apply G1 | apply G1 | apply addressed_delete, G1 | apply G1].
  - destruct P1 as [P1 P2 P3 P4 P5]. split; cbn; [done | | done | done | done]. intros key' Hk. rewrite lookup_delete_ne; [by apply P2 |]. intros <-. rewrite Hn in Hk. by destruct Hk.
Qed.

Lemma metaFail_safe w0 w user domain email messageID reserved : safe w0 w -> (0 < reserved -> msgStore (storage w0) !! (email, messageID) = None) ->
  safe w0 (metaFail out user domain email messageID reserved w).
Proof.
  intros S Hn. unfold metaFail. destruct (Z.ltb_spec 0 reserved) as [Hlt |]; [| done]. specialize (Hn Hlt).
  assert (Hd : exists s, snd (DeleteMessageUnchecked email messageID (msgStore (storage w))) = s /\ (s = msgStore (storage w) \/ s = delete (email, messageID) (msgStore (storage w)))).
  { eexists. split; [done |]. apply DeleteMessageUnchecked_cases. }
  destruct Hd as (s & Es & Hs). set (w1 := with_storage _ w). assert (S1 : safe w0 w1).
  { unfold w1, set_files. rewrite Es. destruct Hs as [-> | ->]; [| by apply (unstore_safe w0 w (email, messageID))].
    eapply safe_trans; [exact S | by apply same_db_safe]. }
  eapply safe_trans; [exact S1 | apply charge_safe].
Qed.

Lemma files_safe fs w : (Good w -> addressed fs /\ forall key, is_Some (msgStore (storage w) !! key) -> is_Some (fs !! key)) ->
  safe w (with_storage (set_files (fun _ => fs) (storage w)) w).
Proof. intros Hf. apply storage_safe. intros G. destruct (Hf G). split_and!; [apply G | done | done | done]. Qed.

Lemma locked_spec user domain folder fl data w (r := deliver_locked out user domain folder fl data w) :
  safe w (snd r) /\ (Good w -> fst r = None -> filed (user ++ "@" ++ domain) data (snd r)).
Proof.
  unfold r, deliver_locked. set (email := user ++ "@" ++ domain). cbv zeta. split_if; [split; [apply safe_refl | done] |].
  set (reserved := if MessageExists _ _ _ then 0 else _).
  assert (Hpaid : safe w (snd (if 0 <? reserved then charge out domain user reserved w else (true, w))) /\
    storage (snd (if 0 <? reserved then charge out domain user reserved w else (true, w))) = storage w).
  { split_if; [apply charge_safe | split; [apply safe_refl | done]]. }
  destruct (if 0 <? reserved then _ else _) as [paid w1]. destruct Hpaid as [S1 E1]. cbn [snd] in S1, E1. destruct paid; cbn [negb]; [| split; [exact S1 | done]].
  unfold ask. set (o := out (calls w1)). set (w2 := called w1).
  assert (S2 : safe w w2) by (eapply safe_trans; [exact S1 | apply aside_safe, aside_called]).
  unfold StoreMessage. destruct (validatePathComponent email) eqn:Ev; cbn [negb].
  2: { split; [| done]. cbn [snd]. assert (S3 : safe w (with_storage (set_files (fun _ => msgStore (storage w2)) (storage w2)) w2)) by (eapply safe_trans; [exact S2 | by apply same_db_safe]).
    split_if; [eapply safe_trans; [exact S3 | apply charge_safe] | exact S3]. }
  destruct (storeMessageLocked_cases (o_ok o) (o_now o) email data (msgStore (storage w2))) as [[e ->] | [_ ->]].
  { split; [| done]. cbn [snd]. assert (S3 : safe w (with_storage (set_files (fun _ => msgStore (storage w2)) (storage w2)) w2)) by (eapply safe_trans; [exact S2 | by apply same_db_safe]).
    split_if; [eapply safe_trans; [exact S3 | apply charge_safe] | exact S3]. }
  set (fs := <[(email, blob_id data) := _]> _). set (w3 := with_storage (set_files (fun _ => fs) (storage w2)) w2).
  assert (S3 : safe w w3).
  { eapply safe_trans; [exact S2 |]. apply files_safe. intros G2. split; [apply addressed_stored, G2 |]. intros key Hk. apply lookup_insert_is_Some.
    destruct (decide ((email, blob_id data) = key)); auto. }
  assert (Hnew : 0 < reserved -> msgStore (storage w) !! (email, blob_id data) = None).
  { unfold reserved, MessageExists. rewrite Ev, (proj2 (blob_id_valid data)). cbn [andb]. destruct (msgStore (storage w) !! (email, blob_id data)); [| done].
    rewrite bool_decide_eq_true_2 by by eexists. done. }
  set (w4 := if bool_decide (folder = _) then w3 else _).
  assert (S4 : safe w3 w4 /\ msgStore (storage w4) = fs).
  { unfold w4. split_if; [split; [apply safe_refl | done] |]. unfold ask. destruct (CreateMailbox _ _ _ _) as [d |] eqn:Ed; [| split; [apply aside_safe, aside_called | done]].
    split; [| done]. eapply safe_trans; [apply aside_safe, aside_called |]. apply db_safe. intros G3. destruct (covered_create _ _ _ _ _ (g_uids _ G3) Ed) as [Hc Hr].
    split; [done |]. intros u k uid m Hm. by rewrite Hr. }
  destruct S4 as [S4 E4]. assert (S04 : safe w w4) by (by eapply safe_trans). clearbody w4.
  set (w5 := called w4). assert (S5 : safe w w5) by (eapply safe_trans; [exact S04 | apply aside_safe, aside_called]).
  destruct (GetNextUID _ _ _ _) as [[uid d] |] eqn:Eu; [| split; [by apply metaFail_safe | done]].
  set (w6 := with_storage (set_db (fun _ => d) (storage w5)) w5).
  assert (S6 : safe w5 w6).
  { apply db_safe. intros G5. destruct (covered_next _ _ _ _ _ _ (g_uids _ G5) Eu) as (Hc & Hm & _). split; [done |]. intros u k i m Hr. unfold rows_of in *. by rewrite Hm. }
  assert (S06 : safe w w6) by (by eapply safe_trans).
  destruct (store_row_spec email folder data uid fl w6) as [Hrow Hmsg]. cbv zeta in Hrow, Hmsg.
  destruct (store_row out email folder (blob_id data) uid fl data w6) as [ok w7]. cbn [fst snd] in Hrow, Hmsg.
  assert (Hrow' : Good w -> Good w7 /\ preserves w6 w7 /\ (calls w6 <= calls w7)%nat /\ (ok = true -> filed email data w7)).
  { intros G. destruct (S06 G) as (G6 & _ & _). assert (G5 : Good w5) by (by apply S5).
    destruct (covered_next _ _ _ _ _ _ (g_uids _ G5) Eu) as (_ & _ & Hf & Hl). destruct (Hrow G6 Hf Hl) as (G7 & P7 & C7 & H7). split_and!; try done.
    intros Hok. apply H7; [done |]. change (msgStore (storage w6)) with (msgStore (storage w4)). rewrite E4. unfold fs. rewrite lookup_insert_eq. by eexists. }
  assert (S7 : safe w w7).
  { intros G. destruct (S06 G) as (G6 & P6 & C6). destruct (Hrow' G) as (G7 & P7 & C7 & _). split_and!; [done | by eapply preserves_trans | lia]. }
  destruct ok; [split; [exact S7 | intros G _; by apply Hrow'] | split; [by apply metaFail_safe | done]].
Qed.

(** ** Reports, forwards and redirects *)
Definition reported (from data : gostring) (f : rcptFailure) w : Prop := exists o, queued [] from (failure_report qcfg from data f o) w.

Lemma bounce_all_spec from data failed w (r := bounce_all qcfg out from data failed w) :
  safe w (snd r) /\ (Good w -> fst r = None -> Forall (fun f => unwanted f = true \/ reported from data f (snd r)) failed).
Proof.
  unfold r. clear r. revert w. induction failed as [| f failed IH]; intros w; cbn [bounce_all]; [split; [apply safe_refl | by constructor] |].
  destruct (unwanted f) eqn:Eu.
  { destruct (IH w) as [S H1]. split; [exact S |]. intros G E. constructor; [by left | by apply H1]. }
  unfold ask. set (o := out (calls w)). set (w1 := called w). destruct (enqueue_spec [] from (failure_report qcfg from data f o) w1) as [S1 Q1].
  destruct (enqueue qcfg out [] [from] (failure_report qcfg from data f o) w1) as [[|] w2]; cbn [fst snd] in S1, Q1.
  2: { split; [| done]. cbn [snd]. eapply safe_trans; [apply aside_safe, aside_called | exact S1]. }
  destruct (IH w2) as [S2 H2]. split; [eapply safe_trans; [apply aside_safe, aside_called |]; by eapply safe_trans |].
  intros G E. destruct (aside_safe _ _ (aside_called w) G) as (G1 & _ & _). destruct (S1 G1) as (G2 & _ & _). destruct (S2 G2) as (G3 & P3 & _).
  constructor; [right | by apply H2]. exists o. apply (queued_kept _ _ _ w2); [done | by apply Q1].
Qed.

Lemma bounce_spec from data failed w (r := bounceFailedRecipients qcfg out from data failed w) :
  safe w (snd r) /\ (Good w -> fst r = None -> from = [] \/ Forall (fun f => unwanted f = true \/ reported from data f (snd r)) failed).
Proof.
  unfold r, bounceFailedRecipients. clear r. case_bool_decide as E; [split; [apply safe_refl | by left] |].
  destruct (bool_decide (queue w = None)); [split; [apply safe_refl | done] |].
  destruct (bounce_all_spec from data failed w) as [S H1]. split; [exact S |]. intros G Hr. right. by apply H1.
Qed.

Lemma forward_all_spec email targets data n failed w :
  let '(n', failed', w') := forward_all qcfg out email targets data n failed w in
  safe w w' /\ (Good w -> ((n = 0%nat \/ exists to, queued email to data w) -> n' = 0%nat \/ exists to, queued email to data w')).
Proof.
  revert n failed w. induction targets as [| fwd targets IH]; intros n failed w; cbn [forward_all]; [split; [apply safe_refl | done] |].
  destruct (bool_decide _); [apply IH |]. destruct (enqueue_spec email (TrimSpace fwd) data w) as [S1 Q1].
  destruct (enqueue qcfg out email [TrimSpace fwd] data w) as [[|] w1]; cbn [fst snd] in S1, Q1.
  - specialize (IH (S n) failed w1). destruct (forward_all _ _ _ _ _ _ _ _) as [[n' failed'] w']. destruct IH as [S2 H2].
    split; [by eapply safe_trans |]. intros G _. apply H2; [by apply S1 |]. right. exists (TrimSpace fwd). by apply Q1.
  - specialize (IH n true w1). destruct (forward_all _ _ _ _ _ _ _ _) as [[n' failed'] w']. destruct IH as [S2 H2].
    split; [by eapply safe_trans |]. intros G Hq. destruct (S1 G) as (G1 & P1 & _). apply H2; [done |]. destruct Hq as [? | [to Hto]]; [by left |].
    right. exists to. by apply (queued_kept _ _ _ w).
Qed.

Definition forwarded (email data : gostring) w : Prop := exists to, queued email to (addMailLoopHeader data email) w.

Lemma forward_spec email account data w (r := forward qcfg out email account data w) :
  safe w (snd r) /\ (Good w -> fst r = true -> forwarded email data (snd r)).
Proof.
  unfold r, forward. clear r. destruct (looped data email).
  { cbn [fst snd]. split; [apply safe_refl |]. intros _. by rewrite andb_false_r. }
  pose proof (forward_all_spec email (Split (ForwardTo account) ",") (addMailLoopHeader data email) 0 false w) as Hf.
  destruct (forward_all _ _ _ _ _ _ _ _) as [[n failed] w1]. destruct Hf as [S Hq]. cbn [fst snd]. split; [exact S |]. intros G Hb.
  apply andb_true_iff in Hb as [[_ Hn%Nat.ltb_lt]%andb_true_iff _]. destruct (Hq G (or_introl eq_refl)) as [? | Hto]; [lia | exact Hto].
Qed.

Lemma redirect_all_spec mailbox data redirects failed w :
  let '(failed', w') := redirect_all qcfg out mailbox data redirects failed w in
  safe w w' /\ (Good w -> failed' = false -> failed = false /\ Forall (fun raw => exists addr, ParseAddress raw = Some addr /\ queued mailbox addr data w') redirects).
Proof.
  revert failed w. induction redirects as [| raw redirects IH]; intros failed w; cbn [redirect_all]; [split; [apply safe_refl | done] |].
  assert (Hbad : let '(failed', w') := redirect_all qcfg out mailbox data redirects true w in safe w w' /\ (Good w -> failed' = false -> False)).
  { specialize (IH true w). destruct (redirect_all _ _ _ _ _ _ _) as [f' w']. destruct IH as [S1 H1]. split; [exact S1 |]. intros G E. by destruct (H1 G E). }
  destruct (ParseAddress raw) as [addr |] eqn:Ep.
  2: { destruct (redirect_all _ _ _ _ _ true w) as [f' w']. destruct Hbad as [S1 H1]. split; [exact S1 |]. intros G E. destruct (H1 G E). }
  split_if; [destruct (redirect_all _ _ _ _ _ true w) as [f' w']; destruct Hbad as [S1 H1]; split; [exact S1 |]; intros G Hf; destruct (H1 G Hf) |].
  clear Hbad. destruct (enqueue_spec mailbox addr data w) as [S1 Q1]. destruct (enqueue qcfg out mailbox [addr] data w) as [ok w1]. cbn [fst snd] in S1, Q1.
  specialize (IH (if ok then failed else true) w1). destruct ok.
  - destruct (redirect_all _ _ _ _ _ _ _) as [f' w']. destruct IH as [S2 H2]. split; [by eapply safe_trans |]. intros G Hf'.
    destruct (S1 G) as (G1 & _ & _). destruct (S2 G1) as (G2 & P2 & _). destruct (H2 G1 Hf') as [Hf Hall]. split; [done |]. constructor; [| done].
    exists addr. split; [done |]. apply (queued_kept _ _ _ w1); [done | by apply Q1].
  - destruct (redirect_all _ _ _ _ _ _ _) as [f' w']. destruct IH as [S2 H2]. split; [by eapply safe_trans |]. intros G Hf'. destruct (S1 G) as (G1 & _ & _). by destruct (H2 G1 Hf').
Qed.

(** Every redirect of a script is in the queue. *)
Definition redirected (mailbox data : gostring) (redirects : list gostring) w : Prop :=
  Forall (fun raw => exists addr, ParseAddress raw = Some addr /\ queued mailbox addr (addMailLoopHeader data mailbox) w) redirects.

Lemma redirect_spec mailbox data redirects w (r := redirectBySieve qcfg out mailbox data redirects w) :
  safe w (snd r) /\ (Good w -> fst r = false -> redirected mailbox data redirects (snd r)).
Proof.
  unfold r, redirectBySieve. clear r. case_bool_decide as E; [subst; split; [apply safe_refl | intros _ _; apply Forall_nil_2] |].
  destruct (looped data mailbox); [split; [apply safe_refl | done] |].
  pose proof (redirect_all_spec mailbox (addMailLoopHeader data mailbox) (take maxSieveRedirects redirects) (maxSieveRedirects <? length redirects)%nat w) as Hr.
  destruct (redirect_all _ _ _ _ _ _ _) as [f' w']. destruct Hr as [S1 H1]. cbn [fst snd]. split; [exact S1 |]. intros G Hf.
  destruct (H1 G Hf) as [Hlen Hall]. apply Nat.ltb_ge in Hlen. by rewrite take_ge in Hall.
Qed.

(** ** Delivery to a mailbox *)
Context (others : nat -> Server -> Server) (late : Z -> bool) (filterSource : gostring -> gostring).
Context (others_safe : forall n w, safe w (others n w)).

Definition address (user domain : gostring) : gostring := ToLower user ++ "@" ++ TrimRight (ToLower domain) ".".

(** The addresses that mail for a mailbox may end at: its own, or the catch-all one
    of its domain. *)
Inductive owner (user domain : gostring) (d : DB) : gostring -> Prop :=
  | own : owner user domain d (address user domain)
  | own_catch x tu td : GetDomain (TrimRight (ToLower domain) ".") d = Ok x -> normalizeRcpt (CatchAllTarget x) = (tu, td) -> owner user domain d (address tu td).

Lemma owner_same user domain d d' email : same_routing d d' -> owner user domain d email -> owner user domain d' email.
Proof. intros [Hd _ _] [| x tu td Hx Hn]; [apply own |]. apply (own_catch _ _ _ x); [| done]. unfold GetDomain in *. by rewrite Hd. Qed.

(** The message has been stored for the mailbox, or forwarded. *)
Definition taken (user domain from data : gostring) w : Prop := exists email,
  owner user domain (database w) email /\ (filed email (addReturnPath data from) w \/ forwarded email data w).

Lemma taken_kept user domain from data w w' : Good w' -> preserves w w' -> taken user domain from data w -> taken user domain from data w'.
Proof.
  intros G P (email & Ho & Ht). exists email. split; [by apply (owner_same _ _ (database w)); [apply P |] |].
  destruct Ht as [Ht | [to Ht]]; [left; by apply (filed_kept _ _ w) | right; exists to; by apply (queued_kept _ _ _ w)].
Qed.

(** A copy that is not to be stored has been forwarded. *)
Definition covered_copy (user domain from data : gostring) (st : option copyState) w : Prop :=
  match st with Some s => dropLocal s = true -> taken user domain from data w | None => True end.

Lemma covered_copy_kept user domain from data st w w' : Good w' -> preserves w w' -> covered_copy user domain from data st w -> covered_copy user domain from data st w'.
Proof. intros G P. destruct st as [s |]; [| done]. cbn. intros Hs Hd. apply (taken_kept _ _ _ _ w); auto. Qed.

Lemma answer_spec origRcpt email from folder account data st w :
  let '(st', w') := answer qcfg hasDataDir iter out origRcpt email from folder account data st w in
  safe w w' /\ (dropLocal <$> st') = (dropLocal <$> st).
Proof.
  unfold answer, ask. destruct (_ && _); [| split; [apply safe_refl | done]]. split; [| by destruct st].
  eapply safe_trans; [apply aside_safe, aside_called |]. destruct (o_ok _); [apply sendVacationReplyCtx_safe | apply safe_refl].
Qed.

Abbreviation delivered_to u d st r from data w :=
  (let '(e, st', w') := r in
    safe w w' /\ (Good w -> covered_copy u d from data st w -> (e = None -> taken u d from data w') /\ covered_copy u d from data st' w')).

Lemma account_spec u d origRcpt user domain from folder account data st w :
  owner u d (database w) (user ++ "@" ++ domain) ->
  delivered_to u d st (deliver_account qcfg hasDataDir iter out others origRcpt user domain from folder account data st w) from data w.
Proof.
  intros Ho. unfold deliver_account. set (email := user ++ "@" ++ domain). cbv zeta.
  assert (Hfw : exists gone st1 w1, (if match st with Some s => forwardHandled s | None => false end then (match st with Some s => dropLocal s | None => false end, st, w)
    else if negb (bool_decide (ForwardTo account = [])) && negb (folder =s? "Junk")
    then let '(gone, w) := forward qcfg out email account data w in (gone, set_if st (with_forward gone), w)
    else (false, st, w)) = (gone, st1, w1) /\ safe w w1 /\ (Good w -> covered_copy u d from data st w -> (gone = true -> taken u d from data w1) /\ covered_copy u d from data st1 w1)).
  { destruct (match st with Some s => forwardHandled s | None => false end).
    { do 3 eexists. split_and!; [done | apply safe_refl |]. intros G Hst. split; [| done]. destruct st; [exact Hst | done]. }
    split_if; [| do 3 eexists; split_and!; [done | apply safe_refl | by split]].
    destruct (forward_spec email account data w) as [S1 F1]. destruct (forward qcfg out email account data w) as [gone w1]. cbn [fst snd] in S1, F1.
    do 3 eexists. split_and!; [done | exact S1 |]. intros G _. destruct (S1 G) as (G1 & P1 & _).
    assert (Ht : gone = true -> taken u d from data w1).
    { intros Hg. exists email. split; [apply (owner_same _ _ (database w)); [apply P1 | done] | right; by apply F1]. }
    split; [exact Ht |]. destruct st; [exact Ht | done]. }
  destruct Hfw as (gone & st1 & w1 & -> & S1 & T1). destruct gone; [split; [exact S1 |]; intros G Hst; destruct (T1 G Hst); auto |].
  set (w2 := others (calls w1) w1). assert (S2 : safe w w2) by (eapply safe_trans; [exact S1 | apply others_safe]).
  destruct (locked_spec user domain folder (match st1 with Some s => flags s | None => [] end) (addReturnPath data from) w2) as [S3 F3].
  destruct (deliver_locked _ _ _ _ _ _ w2) as [[e |] w3]; cbn [fst snd] in S3, F3.
  { split; [by eapply safe_trans |]. intros G Hst. split; [done |]. destruct (T1 G Hst) as [_ Hc]. destruct (S1 G) as (G1 & _ & _).
    destruct (safe_trans _ _ _ (others_safe (calls w1) w1) S3 G1) as (G3 & P3 & _). by apply (covered_copy_kept _ _ _ _ _ w1). }
  pose proof (answer_spec origRcpt email from folder account (addReturnPath data from) st1 w3) as Ha.
  destruct (answer _ _ _ _ _ _ _ _ _ _ _ w3) as [st4 w4]. destruct Ha as [S4 Hd]. split; [eapply safe_trans; [exact S2 |]; by eapply safe_trans |].
  intros G _. destruct (S2 G) as (G2 & P2 & _). destruct (S3 G2) as (G3 & P3 & _). destruct (S4 G3) as (G4 & P4 & _).
  assert (Ht : taken u d from data w4).
  { exists email. split; [| left; apply (filed_kept _ _ w3); [done | done | by apply F3]].
    apply (owner_same _ _ (database w)); [| done]. eapply same_routing_trans; [apply P2 |]. eapply same_routing_trans; [apply P3 | apply P4]. }
  split; [done |]. destruct st4; [exact (fun _ => Ht) | done].
Qed.

Abbreviation hop := (deliverLocalHop qcfg hasDataDir iter out others).

Lemma hop_failed u d e st from data w : delivered_to u d st (Some e : option local_error, st, w) from data w.
Proof. split; [apply safe_refl |]. intros G Hst. by split. Qed.

Lemma hop0_spec u d origRcpt user domain from data st target w :
  owner u d (database w) (address user domain) ->
  delivered_to u d st (hop 0 origRcpt user domain from data st target w) from data w.
Proof.
  intros Ho. cbn [deliverLocalHop]. destruct (GetAccount _ _ _) as [account |]; [| apply hop_failed].
  destruct (IsActive account); [by apply account_spec | apply hop_failed].
Qed.

(** What becomes of a message whose mailbox takes no mail: the catch-all address. *)
Abbreviation missing_account e origRcpt domain from data st target w :=
  (match GetDomain (TrimRight (ToLower domain) ".") (database w) with
  | Ok x =>
      if bool_decide (CatchAllTarget x = []) then (Some e, st, w) else
      let '(tUser, tDomain) := normalizeRcpt (CatchAllTarget x) in
      if negb (bool_decide (tUser = [])) && negb (bool_decide (tDomain = [])) then hop 0 origRcpt tUser tDomain from data st target w else (Some e, st, w)
  | Err _ => (Some e, st, w)
  end).

Lemma missing_spec e origRcpt user domain from data st target w :
  delivered_to user domain st (missing_account e origRcpt domain from data st target w) from data w.
Proof.
  destruct (GetDomain _ _) as [x |] eqn:Ex; [| apply hop_failed]. destruct (bool_decide _); [apply hop_failed |].
  destruct (normalizeRcpt (CatchAllTarget x)) as [tu td] eqn:En. destruct (_ && _); [| apply hop_failed].
  apply hop0_spec. by apply (own_catch _ _ _ x).
Qed.

Lemma hop1_spec origRcpt user domain from data st target w :
  delivered_to user domain st (hop 1 origRcpt user domain from data st target w) from data w.
Proof.
  change (hop 1 origRcpt user domain from data st target w) with
    (match GetAccount (TrimRight (ToLower domain) ".") (ToLower user) (database w) with
    | Err _ => missing_account NoUser origRcpt domain from data st target w
    | Ok account =>
    if IsActive account then deliver_account qcfg hasDataDir iter out others origRcpt (ToLower user) (TrimRight (ToLower domain) ".") from (or_text target "INBOX") account data st w
    else missing_account NotActive origRcpt domain from data st target w
    end).
  destruct (GetAccount _ _ _) as [account |]; [| apply missing_spec]. destruct (IsActive account); [| apply missing_spec].
  apply account_spec, own.
Qed.


(** ** Copies and scripts *)
Lemma copies_spec rcpt user domain from data ts st firstErr stored failed w :
  let '(firstErr', stored', _, st', w') := deliver_copies qcfg hasDataDir iter out others rcpt user domain from data ts st firstErr stored failed w in
  safe w w' /\
  (Good w -> covered_copy user domain from data (Some st) w -> (stored = 0%nat \/ taken user domain from data w) ->
    covered_copy user domain from data (Some st') w' /\ (stored' = 0%nat \/ taken user domain from data w')) /\
  (stored' = 0%nat -> firstErr' = None -> ts = [] /\ firstErr = None) /\ (stored <= stored')%nat.
Proof.
  revert st firstErr stored failed w. induction ts as [| [f fl] ts IH]; intros st firstErr stored failed w; cbn [deliver_copies].
  { split_and!; [apply safe_refl | by auto | done | done]. }
  unfold deliverLocalCopies. set (st0 := with_copy_flags fl st).
  pose proof (hop1_spec rcpt user domain from data (Some st0) f w) as Hh.
  destruct (hop 1 rcpt user domain from data (Some st0) f w) as [[r st1] w1]. destruct Hh as [S1 T1].
  assert (Hc : Good w -> covered_copy user domain from data (Some st) w -> covered_copy user domain from data (Some (default st st1)) w1).
  { intros G Hst. destruct (S1 G) as (G1 & P1 & _). destruct (T1 G Hst) as [_ Hs]. destruct st1; [exact Hs | by apply (covered_copy_kept _ _ _ _ _ w)]. }
  destruct r as [e |].
  - specialize (IH (default st st1) (match firstErr with Some e0 => Some e0 | None => Some e end) stored (failed ++ [f]) w1).
    destruct (deliver_copies _ _ _ _ _ _ _ _ _ _ _ _ _ _ _ w1) as [[[[e' n'] f'] st'] w']. destruct IH as (S2 & T2 & N2 & L2). split_and!.
    + by eapply safe_trans.
    + intros G Hst Ht. destruct (S1 G) as (G1 & P1 & _). apply T2; [done | by apply Hc |]. destruct Ht as [? | Ht]; [by left | right; by apply (taken_kept _ _ _ _ w)].
    + intros Hn He. destruct (N2 Hn He) as [_ Hx]. by destruct firstErr.
    + done.
  - specialize (IH (default st st1) firstErr (S stored) failed w1).
    destruct (deliver_copies _ _ _ _ _ _ _ _ _ _ _ _ _ _ _ w1) as [[[[e' n'] f'] st'] w']. destruct IH as (S2 & T2 & N2 & L2). split_and!.
    + by eapply safe_trans.
    + intros G Hst _. destruct (S1 G) as (G1 & _ & _). apply T2; [done | by apply Hc |]. right. by apply T1.
    + lia.
    + lia.
Qed.

(** The script of a mailbox and its verdict. *)
Lemma filtered_same user domain rcpt from data folder w w' : preserves w w' ->
  filtered_outcome late filterSource user domain rcpt from data folder w' = filtered_outcome late filterSource user domain rcpt from data folder w.
Proof.
  intros P. destruct (p_scripts _ _ P) as [Hs Ha]. unfold filtered_outcome, activeSieveUser, runUserSieve, HasActiveScript, ProcessMessage, GetActiveScript. by rewrite Hs, Ha.
Qed.

Definition rejection (rcpt notify : gostring) (o : sieveOutcome) : rcptFailure :=
  {| rcpt := rcpt; f_notify := notify; f_dsn := None; f_orcpt := []; f_local := None; f_diag := "smtp; 550 5.7.1 " ++ reject_reason (orejectMsg o) |}.

(** The sender is told, or is not to be told. *)
Definition told (from data : gostring) (f : rcptFailure) w : Prop := from = [] \/ unwanted f = true \/ reported from data f w.

(** What became of a message for a mailbox: it was taken, the script of the mailbox
    sent it elsewhere or dropped it, or the script refused it and the sender is told. *)
Inductive settled (user domain rcpt from notify data folder : gostring) w : Prop :=
  | settled_taken : taken user domain from data w -> settled user domain rcpt from notify data folder w
  | settled_script o : filtered_outcome late filterSource user domain rcpt from data folder w = Some o ->
  okeep o = false -> ofolders o = [] -> (orejected o = true -> oredirects o <> []) ->
  redirected (user ++ "@" ++ domain) data (oredirects o) w -> settled user domain rcpt from notify data folder w
  | settled_refused o : filtered_outcome late filterSource user domain rcpt from data folder w = Some o ->
  orejected o = true -> okeep o = false -> ofolders o = [] -> oredirects o = [] ->
  told from data (rejection rcpt notify o) w -> settled user domain rcpt from notify data folder w.

Lemma told_kept from data f w w' : preserves w w' -> told from data f w -> told from data f w'.
Proof. intros P [? | [? | [o Ho]]]; [by left | by right; left | right; right; exists o; by apply (queued_kept _ _ _ w)]. Qed.

Lemma redirected_kept mailbox data redirects w w' : preserves w w' -> redirected mailbox data redirects w -> redirected mailbox data redirects w'.
Proof. intros P Hr. apply (Forall_impl _ _ _ Hr). intros raw (addr & Ha & Hq). exists addr. split; [done | by apply (queued_kept _ _ _ w)]. Qed.

Lemma settled_kept user domain rcpt from notify data folder w w' : Good w' -> preserves w w' ->
  settled user domain rcpt from notify data folder w -> settled user domain rcpt from notify data folder w'.
Proof.
  intros G P [Ht | o Ho Hk Hf Hr Hd | o Ho Hr Hk Hf Hd Ht].
  - apply settled_taken. by apply (taken_kept _ _ _ _ w).
  - apply (settled_script _ _ _ _ _ _ _ _ o); try done; [by rewrite (filtered_same _ _ _ _ _ _ w) | by apply (redirected_kept _ _ _ w)].
  - apply (settled_refused _ _ _ _ _ _ _ _ o); try done; [by rewrite (filtered_same _ _ _ _ _ _ w) | by apply (told_kept _ _ _ w)].
Qed.

Lemma copy_targets_nil keep folder o : copy_targets keep folder o = [] -> keep = false /\ ofolders o = [].
Proof.
  assert (Hadd : forall f fl ts, add_target f fl ts <> []).
  { intros f fl ts. unfold add_target. destruct (existsb _ ts) eqn:E; [destruct ts; done | by destruct ts]. }
  assert (Hfold : forall l ts, ts <> [] -> foldl (fun ts f => add_target (or_text f folder) (assoc_flags f (ofolderFlags o)) ts) ts l <> []).
  { induction l as [| f l IH]; intros ts Ht; [done |]. cbn [foldl]. apply IH, Hadd. }
  unfold copy_targets. destruct keep; intros E.
  - exfalso. eapply Hfold; [| exact E]. apply Hadd.
  - split; [done |]. destruct (ofolders o) as [| f l]; [done |]. exfalso. cbn [foldl] in E. eapply Hfold; [| exact E]. apply Hadd.
Qed.

Abbreviation deliver_script := (deliver_outcome qcfg hasDataDir iter out others).
Abbreviation deliver_mailbox := (deliverLocalFiltered qcfg hasDataDir iter out others late filterSource).

Lemma script_reply_safe mailbox rcpt from data folder va w :
  safe w (match va with
  | Some va => if negb (bool_decide (from = [])) && negb (folder =s? "Junk") then sieveVacationReply qcfg hasDataDir iter out mailbox rcpt from data va w else w
  | None => w end).
Proof. destruct va; [| apply safe_refl]. destruct (_ && _); [apply sieveVacationReply_safe | apply safe_refl]. Qed.

Lemma script_outcome_spec user domain rcpt from notify data folder o w (r := deliver_script user domain rcpt from notify data folder o w) :
  safe w (snd r) /\ (Good w -> filtered_outcome late filterSource user domain rcpt from data folder w = Some o -> fst r = None ->
    settled user domain rcpt from notify data folder (snd r)).
Proof.
  unfold r, deliver_outcome. clear r. fold (rejection rcpt notify o). destruct (orejected o && _ && _ && _) eqn:Er.
  { repeat (apply andb_true_iff in Er as [Er ?]). breflect. destruct (bounce_spec from data [rejection rcpt notify o] w) as [S1 B1].
    split; [exact S1 |]. intros G Ho Hn. destruct (S1 G) as (G1 & P1 & _). apply (settled_refused _ _ _ _ _ _ _ _ o); try done.
    - by rewrite (filtered_same _ _ _ _ _ _ w).
    - destruct (B1 G Hn) as [? | Hall]; [by left |]. right. by inversion Hall. }
  destruct (redirect_spec (user ++ "@" ++ domain) data (oredirects o) w) as [S1 R1].
  destruct (redirectBySieve _ _ _ _ _ w) as [failed w1]. cbn [fst snd] in S1, R1.
  pose proof (script_reply_safe (user ++ "@" ++ domain) rcpt from data folder (ovacation o) w1) as S2. set (w2 := match ovacation o with Some _ => _ | None => _ end) in *. clearbody w2.
  assert (S02 : safe w w2) by (by eapply safe_trans). set (ts := copy_targets _ folder o).
  pose proof (copies_spec rcpt user domain from data ts no_copies None 0 [] w2) as Hc.
  destruct (deliver_copies _ _ _ _ _ _ _ _ _ _ _ _ _ _ _ w2) as [[[[firstErr stored] ff] st] w3]. destruct Hc as (S3 & T3 & N3 & _).
  assert (S03 : safe w w3) by (by eapply safe_trans).
  assert (Ht : Good w -> covered_copy user domain from data (Some st) w3 /\ (stored = 0%nat \/ taken user domain from data w3)).
  { intros G. apply T3; [by apply S02 | done | by left]. }
  destruct firstErr as [e |].
  - clear Er. case_bool_decide as Hst; [split; [exact S03 | done] |]. assert (Htk : Good w -> taken user domain from data w3) by (intros G; by destruct (Ht G) as [_ [? | ?]]).
    split_if; [split; [exact S03 |]; intros G _ _; by apply settled_taken, Htk |]. cbn [fst snd]. unfold deliverLocalCopies.
    pose proof (hop1_spec rcpt user domain from data (Some (with_copy_flags (assoc_flags [] ts) st)) [] w3) as Hh.
    destruct (hop 1 _ _ _ _ _ _ _ w3) as [[r st4] w4]. destruct Hh as [S4 _]. cbn [snd]. split; [by eapply safe_trans |].
    intros G _ _. destruct (S03 G) as (G3 & _ & _). destruct (S4 G3) as (G4 & P4 & _). apply settled_taken. apply (taken_kept _ _ _ _ w3); auto.
  - split; [exact S03 |]. cbn [fst snd]. intros G Ho _. destruct (Ht G) as [_ [Hz | Htk]]; [| by apply settled_taken].
    destruct (N3 Hz eq_refl) as [Hts _]. apply copy_targets_nil in Hts as [[Hk Hf]%orb_false_iff Hfo].
    destruct (S1 G) as (G1 & P1 & _). destruct (S03 G) as (G3 & P03 & _). destruct (safe_trans _ _ _ S2 S3 G1) as (_ & P13 & _).
    apply (settled_script _ _ _ _ _ _ _ _ o); try done.
    + by rewrite (filtered_same _ _ _ _ _ _ w).
    + intros Hr Hd. rewrite Hr, Hk, Hfo, Hd in Er. by rewrite !bool_decide_eq_true_2 in Er.
    + apply (redirected_kept _ _ _ w1); [done | by apply R1].
Qed.

Lemma mailbox_spec user domain rcpt from notify data folder w (r := deliver_mailbox user domain rcpt from notify data folder w) :
  safe w (snd r) /\ (Good w -> fst r = None -> settled user domain rcpt from notify data folder (snd r)).
Proof.
  unfold r, deliverLocalFiltered. clear r. destruct (filtered_outcome _ _ _ _ _ _ _ _ w) as [o |] eqn:Ef.
  - destruct (script_outcome_spec user domain rcpt from notify data folder o w) as [S1 T1]. split; [exact S1 |]. intros G. by apply T1.
  - unfold deliverLocalFor. pose proof (hop1_spec rcpt user domain from data None folder w) as Hh. destruct (hop 1 _ _ _ _ _ _ _ w) as [[e st] w1]. destruct Hh as [S1 T1].
    split; [exact S1 |]. cbn [fst snd]. intros G ->. apply settled_taken. by apply T1.
Qed.

(** ** All recipients *)

(** What two recipients must have in common to be one destination. *)
Definition destination (r : gostring) (d : DB) : gostring + gostring :=
  match routeRecipient r d with Ok x => inl (rcptDedupKey x) | Err _ => inr r end.

Section Recipients.
Context (from data folder : gostring) (notify : list gostring) (dsn : option DSNInfo) (to : list gostring).
Abbreviation one := (deliver_one qcfg hasDataDir iter out others late filterSource from data folder notify dsn).
Abbreviation all := (deliver_all one (failure_of notify dsn)).

(** What became of the message for a recipient. *)
Definition accounted (i : nat) (r : gostring) w : Prop :=
  match routeRecipient r (database w) with
  | Ok (ToExternal x) => queued from x data w
  | Ok (ToMailbox user domain) => settled user domain r from (rcpt_notify notify i) data folder w
  | Err _ => False
  end.

Lemma accounted_kept i r w w' : Good w' -> preserves w w' -> accounted i r w -> accounted i r w'.
Proof.
  intros G P. unfold accounted. rewrite (route_same r _ _ (p_routes _ _ P)). destruct (routeRecipient r (database w)) as [[user domain | x] |]; [| | done].
  - by apply settled_kept.
  - by apply queued_kept.
Qed.

Lemma one_spec i r x w : routeRecipient r (database w) = Ok x ->
  let '(e, w') := one i r x w in (Good w -> Good w' /\ preserves w w' /\ (calls w <= calls w')%nat) /\ (Good w -> e = None -> accounted i r w').
Proof.
  intros Hx. destruct (one i r x w) as [e w'] eqn:E.
  assert (Hs : safe w w' /\ (Good w -> e = None -> match x with ToExternal a => queued from a data w' | ToMailbox u d => settled u d r from (rcpt_notify notify i) data folder w' end) \/ queue w = None).
  { unfold deliver_one in E. destruct x as [u d | a].
    - left. destruct (mailbox_spec u d r from (rcpt_notify notify i) data folder w) as [S1 T1].
      destruct (deliver_mailbox _ _ _ _ _ _ _ w) as [[e1 |] w1]; injection E as <- <-; (split; [exact S1 |]); intros G He; [done | by apply T1].
    - destruct (queue w) as [q |] eqn:Eq; [left | by right].
      destruct (relay_spec from a (rcpt_notify notify i) (relayDSN dsn (rcpt_orcpt dsn i)) data w) as [S1 Q1]; [by eexists |].
      destruct (relayMessageWithDSN _ _ _ _ _ _ _ w) as [[|] w1]; injection E as <- <-; (split; [exact S1 |]); intros G He; [by apply Q1 | done]. }
  destruct Hs as [[S1 T1] | Hn]; [| split; intros G; destruct (g_queue _ G); congruence].
  split; [exact S1 |]. intros G He. destruct (S1 G) as (G1 & P1 & _). unfold accounted. rewrite (route_same r _ _ (p_routes _ _ P1)), Hx.
  specialize (T1 G He). by destruct x.
Qed.

(** A recipient with the same destination that was served, or has failed. *)
Definition served (failed : list rcptFailure) w (d : gostring + gostring) (n : nat) : Prop := exists j rj,
  (j <= n)%nat /\ to !! j = Some rj /\ destination rj (database w) = d /\ (accounted j rj w \/ exists e, failure_of notify dsn j rj e ∈ failed).

Lemma served_kept failed more w w' d n m : Good w' -> preserves w w' -> (n <= m)%nat -> served failed w d n -> served (failed ++ more) w' d m.
Proof.
  intros G P Hn (j & rj & Hj & Hto & Hd & Ha). exists j, rj. split_and!; [lia | done | |].
  - unfold destination in *. by rewrite (route_same rj _ _ (p_routes _ _ P)).
  - destruct Ha as [Ha | [e He]]; [left; by apply (accounted_kept _ _ w) | right; exists e; set_solver].
Qed.

Lemma all_spec rest i seen delivered failed w : (forall j, rest !! j = to !! (i + j)%nat) ->
  let '(_, failed', w') := all i rest seen delivered failed w in
  safe w w' /\ (Good w -> (forall k, k ∈ seen -> served failed w (inl k) i) ->
    (exists more, failed' = failed ++ more) /\ forall j r, rest !! j = Some r -> served failed' w' (destination r (database w)) (i + j)).
Proof.
  revert i seen delivered failed w. induction rest as [| r rest IH]; intros i seen delivered failed w Hto; cbn [deliver_all].
  { split; [apply safe_refl |]. intros G _. split; [exists []; by rewrite app_nil_r | done]. }
  assert (Hr : to !! i = Some r) by (specialize (Hto 0%nat); cbn in Hto; by rewrite Nat.add_0_r in Hto).
  assert (Hrest : forall j, rest !! j = to !! (S i + j)%nat) by (intros j; specialize (Hto (S j)); cbn in Hto; by rewrite Nat.add_succ_r in Hto).
  assert (Hgo : forall seen1 delivered1 more1 w1, safe w w1 ->
    (Good w -> (forall k, k ∈ seen -> served failed w (inl k) i) ->
    (forall k, k ∈ seen1 -> served (failed ++ more1) w1 (inl k) (S i)) /\ served (failed ++ more1) w1 (destination r (database w)) i) ->
    let '(_, failed', w') := all (S i) rest seen1 delivered1 (failed ++ more1) w1 in
    safe w w' /\ (Good w -> (forall k, k ∈ seen -> served failed w (inl k) i) ->
    (exists more, failed' = failed ++ more) /\ forall j r', (r :: rest) !! j = Some r' -> served failed' w' (destination r' (database w)) (i + j))).
  { intros seen1 delivered1 more1 w1 S1 H1. specialize (IH (S i) seen1 delivered1 (failed ++ more1) w1 Hrest).
    destruct (all (S i) rest seen1 delivered1 (failed ++ more1) w1) as [[n' failed'] w']. destruct IH as [S2 T2].
    split; [by eapply safe_trans |]. intros G Hs. destruct (H1 G Hs) as [Hs1 Hr1]. destruct (S1 G) as (G1 & P1 & _). destruct (S2 G1) as (G2 & P2 & _).
    destruct (T2 G1 Hs1) as [[more ->] Hall]. split; [exists (more1 ++ more); by rewrite app_assoc |]. intros [| j] r' Hj; cbn in Hj.
    - injection Hj as <-. rewrite Nat.add_0_r. by apply (served_kept _ _ w1 _ _ i).
    - specialize (Hall j r' Hj). rewrite Nat.add_succ_r. unfold destination in *. by rewrite (route_same r' _ _ (p_routes _ _ P1)) in Hall. }
  destruct (routeRecipient r (database w)) as [x | []] eqn:Ex.
  2: { apply Hgo; [apply safe_refl |]. intros G Hs. split; [intros k Hk; apply (served_kept _ _ w _ _ i); [done | apply preserves_refl | lia | by apply Hs] |].
    exists i, r. split_and!; [done | done | done |]. right. exists (Some RouteFailed). set_solver. }
  assert (Hdest : destination r (database w) = inl (rcptDedupKey x)) by (unfold destination; by rewrite Ex).
  split_if.
  { breflect. specialize (Hgo seen delivered [] w). rewrite app_nil_r in Hgo. apply Hgo; [apply safe_refl |]. intros G Hs. rewrite Hdest. split; [| by apply Hs].
    intros k Hk. rewrite <- (app_nil_r failed). apply (served_kept _ _ w _ _ i); [done | apply preserves_refl | lia | by apply Hs]. }
  pose proof (one_spec i r x w Ex) as Ho. destruct (one i r x w) as [e w1]. destruct Ho as [S1 A1].
  assert (Hnew : forall more, (Good w -> accounted i r w1 \/ exists e, failure_of notify dsn i r e ∈ more) -> Good w -> (forall k, k ∈ seen -> served failed w (inl k) i) ->
    (forall k, k ∈ rcptDedupKey x :: seen -> served (failed ++ more) w1 (inl k) (S i)) /\ served (failed ++ more) w1 (destination r (database w)) i).
  { intros more Hm G Hs. destruct (S1 G) as (G1 & P1 & _).
    assert (Hi : served (failed ++ more) w1 (destination r (database w)) i).
    { exists i, r. split_and!; [done | done | unfold destination; by rewrite (route_same r _ _ (p_routes _ _ P1)) |].
      destruct (Hm G) as [? | [e' ?]]; [by left | right; exists e'; set_solver]. }
    split; [| done]. intros k [-> | Hk]%elem_of_cons; [| apply (served_kept _ _ w _ _ i); [done | done | lia | by apply Hs]].
    rewrite Hdest in Hi. rewrite <- (app_nil_r (failed ++ more)). apply (served_kept _ _ w1 _ _ i); [done | apply preserves_refl | lia | done]. }
  destruct e as [e |].
  - apply Hgo; [exact S1 |]. apply Hnew. intros _. right. exists e. set_solver.
  - specialize (Hgo (rcptDedupKey x :: seen) (S delivered) [] w1). rewrite app_nil_r in Hgo. apply Hgo; [exact S1 |].
    intros G Hs. rewrite <- (app_nil_r failed). apply Hnew; [| done | done]. intros _. left. by apply A1.
Qed.
End Recipients.

(** C2: No mail is lost.  When the delivery of a message is accepted, every recipient,
    or an earlier one with the same destination, has it: for an address outside it is
    in the queue; for a mailbox its row and its body are in the mailbox of the address
    or of the catch-all address, or its forward is in the queue, or the script of the
    mailbox has sent it to addresses that all have it in the queue or dropped it, or
    has refused it with a report; and where delivery failed the sender has a report of
    this recipient in the queue, unless the message has no sender or the sender wants
    no report.  What was in mailboxes and in the queue before is still there. *)
Theorem accepted_mail_accounted closed from to notify dsn data folder w w' : Good w ->
  deliverMessageToFolderDSN qcfg hasDataDir iter out others late filterSource closed from to notify dsn data folder w = (None, w') ->
  preserves w w' /\ forall i r, to !! i = Some r -> exists j rj, (j <= i)%nat /\ to !! j = Some rj /\ destination rj (database w) = destination r (database w) /\
  (accounted from data folder notify j rj w' \/ exists e, told from data (failure_of notify dsn j rj e) w').
Proof.
  intros G. unfold deliverMessageToFolderDSN. destruct closed; [done |]. destruct (negb (checkHopCount data)); [done |].
  pose proof (all_spec from data folder notify dsn to to 0 [] 0 [] w (fun j => eq_refl)) as Ha.
  destruct (deliver_all _ _ 0 to [] 0 [] w) as [[delivered failed] w1]. destruct Ha as [S1 T1]. destruct (S1 G) as (G1 & P1 & _).
  destruct (T1 G) as [_ Hall]; [by intros k Hk%elem_of_nil |]. cbn [Nat.add] in Hall. unfold settleDelivery.
  assert (Hend : safe w1 w' /\ (failed <> [] -> from = [] \/ Forall (fun f => unwanted f = true \/ reported from data f w') failed) -> preserves w w' /\
    forall i r, to !! i = Some r -> exists j rj, (j <= i)%nat /\ to !! j = Some rj /\ destination rj (database w) = destination r (database w) /\
    (accounted from data folder notify j rj w' \/ exists e, told from data (failure_of notify dsn j rj e) w')).
  { intros [S2 Hf]. destruct (S2 G1) as (G2 & P2 & _). split; [by eapply preserves_trans |]. intros i r Hi. destruct (Hall i r Hi) as (j & rj & Hj & Hto & Hd & Ha).
    exists j, rj. split_and!; [done | done | unfold destination in *; by rewrite (route_same rj _ _ (p_routes _ _ P1)) in Hd |].
    destruct Ha as [Ha | [e He]]; [left; by apply (accounted_kept _ _ _ _ _ _ w1) | right; exists e].
    destruct Hf as [-> | Hf]; [by intros -> ; apply elem_of_nil in He | by left |]. right. by apply (proj1 (Forall_forall _ _) Hf). }
  case_bool_decide as Hlen; [intros [= <-]; apply Hend; split; [apply safe_refl |]; by destruct failed |].
  case_bool_decide; [done |]. destruct (bounce_spec from data failed w1) as [S2 B2].
  destruct (bounceFailedRecipients _ _ _ _ _ w1) as [[e |] w2]; [done |]. intros [= <-]. apply Hend. split; [exact S2 |]. intros _. by apply B2.
Qed.
End World.
