(* ===== verification/DeliveryExamples.v ===== *)
(** * Delivery and automatic replies at concrete inputs

    The domain of AccountsProps.v with an empty mail store and an empty queue: a
    message for a user, an address outside and an unknown name; and the claims of
    AutoReplyProps.v and DeliveryProps.v at concrete inputs. *)
From S2P Require Import Prelude GoLib Utf8 Bolt Scram BlobStore MailDb MailDbProps Threads SmtpData Dsn Queue ImapStore ImapStoreProps SieveParse SieveMatch SieveCompile SieveExec SieveProps Accounts AccountsProps SieveManager Routing Vacation AutoReplyProps AutoReply Delivery DeliveryProps.

#[local] Existing Instance ascii_tables.
#[local] Existing Instance toy_crypto.
#[local] Instance ex_header : MailHeader := {| ReadHeader := fun _ => Some [("Subject" : gostring, ["Hello" : gostring])] |}.
#[local] Instance ex_reply : ReplyStd := {|
  QEncode := fun s => s; quotedPrintable := fun s => s; rfc1123 := fun _ => "today"; parseDate := fun _ => None; parseRFC3339 := fun _ => None;
  unmarshalSettings := fun _ => None; marshalConfig := fun _ => [] |}.

Definition ex_iter (A : Type) (m : gmap gostring A) : list (gostring * A) := map_to_list m.

(** ** Vacation settings *)
Definition ex_settings : Vacation.Config := {|
  Vacation.Enabled := true; StartDate := 0; EndDate := 0; Vacation.Subject := "Away"; Message := "Back on Monday"; HTMLMessage := [];
  SendInterval := 3600; ExcludeAddresses := []; IgnoreLists := true; IgnoreBulk := true |}.

Abbreviation ex_settings_ops := [OSetConfig true "bob@example.org" ex_settings; OSetConfig true "alice@example.org" ex_settings; ODeleteConfig "alice@example.org"].
Abbreviation ex_settings_end := (foldl (AutoReplyProps.exec ex_iter) empty_dir ex_settings_ops).

Lemma settings_survive_witness :
  configs (NewManager ex_iter (fun _ => true) (fun _ => 9) (configFiles ex_settings_end) (replyFiles ex_settings_end)) !! ("bob@example.org" : gostring) <> None /\
  configs (NewManager ex_iter (fun _ => true) (fun _ => 9) (configFiles ex_settings_end) (replyFiles ex_settings_end)) !! ("alice@example.org" : gostring) = None.
Proof.
  pose proof (settings_survive ex_iter ex_settings_ops (fun _ => true) (fun _ => 9) ltac:(vm_compute; reflexivity)) as E. cbv zeta in E.
  rewrite !E. split; vm_compute; [discriminate | reflexivity].
Defined.

(** ** A server *)
Definition ex_out (n : nat) : Outside := {|
  o_now := Z.of_nat n; o_id := replicate n "a"%char; o_messageID := "m@example.org"; o_boundary := "b"; o_ok := true |}.
Definition ex_qcfg : Queue.Config := {|
  maxAge := 1000; claimLease := 10; maxRetries := 5; maxQueueSize := 100; maxPerDomain := 10; chanCap := 4; dataDir := "/data"; queueDir := "/data/queue";
  date := fun _ => "today"; durationString := fun _ => [] |}.
Definition ex_queue : Queue.Manager := {| rows := ∅; files := ∅; delivered := ∅; deliveryChan := []; domActive := ∅ |}.
Definition ex_sieve : SieveManager.Manager := {| scripts := ∅; activeScripts := ∅; store := Some ∅; vacationCache := ∅; vacationAccessor := [] |}.
Definition ex_mailstore : MStore := {|
  db := empty_db; tdb := empty_threads; msgStore := ∅; adjusted := []; ImapStore.reported := []; mdnSent := ∅; mdns := []; notes := [] |}.
Definition ex_server : Server := {|
  database := sample; storage := ex_mailstore; queue := Some ex_queue; sieveManager := ex_sieve; vacationMgr := None;
  vacationReplies := None; replyLog := []; calls := 0 |}.

Definition ex_message : gostring := "Subject: Hello" ++ CRLF ++ CRLF ++ "Hi" ++ CRLF.
Definition ex_recipients : list gostring := ["BOB@example.org" : gostring; "x@elsewhere.net" : gostring; "nobody@example.org" : gostring; "bob@example.org" : gostring].
Abbreviation ex_deliver to :=
  (deliverMessageToFolderDSN ex_qcfg true ex_iter ex_out (fun _ w => w) (fun _ => false) (fun _ => []) false "alice@example.org" to [] None ex_message [] ex_server).
Abbreviation ex_after := (snd (ex_deliver ex_recipients)).

(** One row for the user named twice, one entry of the queue for the address outside
    and one for the report of the unknown name. *)
Example ex_delivered :
  (fst (ex_deliver ex_recipients), map fst (map_to_list (rows_of "bob@example.org" "INBOX" (db (storage ex_after)))),
   (fun q => map (fun e => match snd e with Queue.Stored e => (Queue.From e, Queue.To e) | _ => ([], []) end) (map_to_list (rows q))) <$> queue ex_after) =
  (None, [1], Some [([] : gostring, ["alice@example.org" : gostring]); ("alice@example.org" : gostring, ["x@elsewhere.net" : gostring])]).
Proof. vm_compute. reflexivity. Qed.

Lemma ex_good : Good ex_qcfg ex_out ex_server.
Proof.
  split.
  - by eexists.
  - intros u k i [m Hm]. unfold rows_of in Hm. change (messages (db (storage ex_server))) with (∅ : gmap gostring (gmap Z MessageMetadata)) in Hm. by rewrite lookup_empty in Hm.
  - intros user id f Hf. change (msgStore (storage ex_server)) with (∅ : Files) in Hf. by rewrite lookup_empty in Hf.
  - intros q n [= <-] _. split_and!; apply lookup_empty.
Qed.

Lemma ex_ids n m : o_id (ex_out n) = o_id (ex_out m) -> n = m.
Proof. cbn. intros E%(f_equal length). by rewrite !length_replicate in E. Qed.
Lemma ex_plain_ids n : "/"%char ∉ o_id (ex_out n).
Proof. cbn. by intros [E _]%elem_of_replicate. Qed.

Lemma accepted_mail_accounted_witness : exists j rj, (j <= 2)%nat /\ ex_recipients !! j = Some rj /\
  destination rj (database ex_server) = destination "nobody@example.org" (database ex_server) /\
  (accounted ex_qcfg (fun _ => false) (fun _ => []) "alice@example.org" ex_message [] [] j rj ex_after \/
   exists e, told ex_qcfg "alice@example.org" ex_message (failure_of [] None j rj e) ex_after).
Proof.
  assert (E : fst (ex_deliver ex_recipients) = None) by (vm_compute; reflexivity).
  assert (E' : ex_deliver ex_recipients = (None, ex_after)) by (rewrite <- E; apply surjective_pairing).
  exact (proj2 (accepted_mail_accounted ex_qcfg true ex_iter ex_out ex_ids ex_plain_ids (fun _ w => w) (fun _ => false) (fun _ => [])
    (fun _ w => safe_refl ex_qcfg ex_out w) false "alice@example.org" ex_recipients [] None ex_message [] ex_server ex_after ex_good E') 2%nat
    ("nobody@example.org" : gostring) eq_refl).
Defined.

(** ** Automatic replies *)
Definition ex_key : gostring := "bob@example.org|alice@example.org".
Abbreviation ex_claimed := (snd (claimVacationReply true ex_iter ex_out ex_key 5 10 ex_server)).
Abbreviation ex_later := (foldl (rexec ex_iter ex_out) ex_claimed [RRestart; RClaim "x|y" 7 10; RSweep]).

(** Within the window the second reply is refused, also after a restart and a sweep. *)
Example ex_refused : fst (claimVacationReply true ex_iter ex_out ex_key 9 10 ex_later) = false.
Proof. vm_compute. reflexivity. Qed.

